(* ===== verification/_CoqProject ===== *)
-Q . S2P
Prelude.v
Types.v
Values.v
Storage.v
Expression.v
Description.v
Evaluator.v
EvaluatorTermination.v
RowSemantics.v
EvaluatorCorrect.v
Positions.v
Relations.v
Limit.v
Filter.v
Alias.v
Projection.v
Sort.v
ProjectionCorrect.v
Join.v
JoinMatches.v
HashJoin.v
SortedMergeJoin.v
Partition.v
Aggregate.v
AggregateHash.v
AggregateKeys.v
AggregateLoop.v
AggregateCorrect.v
AggregateFunctions.v
Scheduler.v
SchedulerCorrect.v
OperatorTask.v
WaitProtocol.v
PipelineScheduler.v
PipelineSchedulerCorrect.v
Json.v
ExpressionSerialization.v
JsonInstances.v
ExpressionRoundtrip.v
ArrowExpression.v
OperatorProxy.v
OperatorRoundtrip.v
PqpRoundtrip.v
PqpNodes.v
PqpNodesCorrect.v
PipelineFragments.v
WorkerPlan.v
FragmentJson.v
Invocation.v
SqsCollector.v
OperatorInstances.v
OperatorExecution.v
FragmentExecution.v
FunctionalDependency.v
IoBuffers.v
ChunkReader.v
CsvReader.v
CsvWriter.v
CsvRoundtrip.v
ImportOperator.v
InputHandler.v
ExportImport.v
S3Uploader.v
S3UploadCorrect.v
ObjectReader.v
FilesystemStorage.v
S3Reader.v
ChunkWriter.v
PlanNodes.v
PipelineInputs.v
TpchGenerator.v
TpchPlans.v
TpchPipelines.v
TpchCorrect.v
Compiler.v
Coordinator.v
CoordinatorCorrect.v
FunctionRuntime.v
WorkerFunction.v
ConcurrentQueue.v
