(* ===== verification/Prelude.v ===== *)
(** * Skyrise: a verification library for the query engine

    Skyrise (C++ sources under [src/src/lib] and [src/src/bin]) is a serverless query
    processor.  A coordinator compiles a query into a physical plan of pipelines; each
    fragment of a pipeline is sent to a worker function, which builds a DAG of physical
    operators, turns it into tasks and runs them on a pool of threads.  This library models
    the way of a query through the program: its compilation, the coordinator's scheduling,
    the documents between the functions, the operators and expressions that decide its
    result, the worker's task scheduler that runs them, and the storage layer; and proves
    these parts correct against row-level, relational and protocol specifications.

    ** How to read the model

    Definitions are translated from the sources and keep their names; they are executable.  A C++ call that can
    throw or has undefined behaviour returns a [result]: [Ok] with a value, or [Err] with the
    kind of failure ([error] below).  A loop or recursion that is not structural takes fuel;
    the entry point supplies enough, and a theorem shows that it is: [weight] for the
    evaluator, the number of left values for the merge join's inner loops, a measure on
    states for both schedulers, the length of the data for the S3 writer, the number of
    pages for a listing, the size of a plan for its copies and visits, and the degree times
    the size for upward visits.  Integers are [Z] at their C++ width: signed overflow is
    [UndefinedBehaviour], unsigned arithmetic wraps.  Floats are IEEE-754 binary32 / binary64
    of [SpecFloat], the coordinator's costs [long double]s of 64 bits precision.  The build modelled is the release build, where [DebugAssert] is not
    compiled in.

    ** The files

    - Data.  [Types]: [types.hpp], [constant_mappings.cpp].  [Values]:
      [all_type_variant.hpp] and the scalar functors of
      [expression/evaluation/expression_functors.hpp].  [Storage]: [storage/table/] (value
      segments with NULL flags, chunks, tables).  [Relations]: tables read as lists of rows,
      and well-formedness, which every operator theorem assumes of its input and proves of
      its output.
    - Expressions.  [Expression]: the tree, its types, equality and copies.  [Evaluator]: the vectorised evaluator.
      [RowSemantics]: the specification, one row at a time with three-valued logic.
      [EvaluatorTermination], [EvaluatorCorrect], [Positions]: the evaluator terminates and
      its three entry points (results, position lists, segments) implement the row semantics.
    - Operators ([operator/]).  [Limit], [Filter], [Sort], [Partition]; [Join] holds
      the materialisation common to both joins and the class [FillsPositionLists] between it
      and the two implementations [HashJoin] and [SortedMergeJoin] ([JoinMatches] holds what
      they share).  The hash aggregate takes six files: [Aggregate] (functions and
      accumulators), [AggregateHash] (the operator), [AggregateKeys] (keys characterise
      groups), [AggregateLoop] (what the loops leave in the contexts), [AggregateCorrect] (the
      output table), [AggregateFunctions] (what the folds compute).
    - The worker ([scheduler/worker/]).  [Scheduler]: tasks, scheduler and executor as a step
      relation on shared state, one step per atomic access; its invariant.
      [SchedulerCorrect]: safety, termination, liveness.  [OperatorTask]:
      task graphs from operator graphs, clearing of outputs.  [WaitProtocol]: the two places
      where threads sleep on a condition variable.
    - Plans ([compiler/]).  [PlanNodes]: inputs and weak outputs of plan nodes.
      [OperatorProxy]: the nodes of a physical plan and their documents.  [PqpNodes],
      [PqpNodesCorrect]: attributes, copies and visits.  [Description]: names of computed
      columns.  [FunctionalDependency].  [Compiler]: configurations and the ETL query.
      [TpchGenerator]: the five TPC-H queries with all their pipelines; [PipelineInputs]: how
      objects are shared out to fragments; [TpchPlans]: every generated plan can be
      instantiated; [TpchPipelines], [TpchCorrect]: pipelines, links, data flow.
    - Documents.  [Json] is the interface to the AWS JSON classes and to [magic_enum],
      [JsonInstances] an instance of it.  Its laws speak of strings without NUL characters
      and of arrays whose elements are set.  [ExpressionSerialization],
      [ExpressionRoundtrip]: expressions.  [OperatorRoundtrip], [PqpRoundtrip]: operators and
      whole plans.  [FragmentJson]:
      fragment definitions.  [ArrowExpression]: predicates as Arrow expressions.
    - The coordinator ([scheduler/coordinator/], [bin/function/]).  [PipelineScheduler],
      [PipelineSchedulerCorrect]: pipelines in the order of their dependencies.
      [PipelineFragments], [WorkerPlan]: templates, fragments and
      the plan that a worker gets.  [Invocation]: how fragments become workers.
      [SqsCollector]: the collection of their answers.  [Coordinator],
      [CoordinatorCorrect]: the handler from a request to its response.
    - Functions.  [FunctionRuntime]: the frame of every handler and the metering of requests.
      [WorkerFunction]: the worker's frame and the way of its answer to the coordinator.
    - Execution of a fragment.  [OperatorInstances]: operators
      from proxies.  [OperatorExecution]: operators under the task scheduler.
      [FragmentExecution]: the whole fragment.  [Alias], [Projection], [ProjectionCorrect]:
      the remaining operators.  [ConcurrentQueue]: the executor's queue.
    - Storage ([storage/]).  [IoBuffers]: buffers.  [ChunkReader], [CsvReader], [CsvWriter],
      [CsvRoundtrip]: CSV.  [ImportOperator], [InputHandler], [ExportImport]: the
      import and what it does with exported objects.  [ChunkWriter].  [ObjectReader]:
      reading objects; of the two implementations [FilesystemStorage] keeps
      the interface's contract and [S3Reader] leaves out the last byte.  [S3Uploader]: writing
      objects to S3, the uploader one memory access at a time; [S3UploadCorrect]: its runs.

    How they interact: [CoordinatorCorrect] composes compiler, scheduler and response;
    [WorkerPlan] and [FragmentExecution] go from the request of a worker to the object it
    writes; [ExportImport] from the objects of one pipeline to the tables of the next;
    [WorkerFunction] from the worker back to the coordinator.

    ** What the theorems show

    Every operator: what rows it returns, under which schema, on well-formed inputs (theorems
    [..Operator_correct]); the completion order of its jobs and the iteration order of hash
    tables are parameters, so the theorems hold for all of them.  Expressions: the vectorised
    evaluator refines the row semantics, rewrites included.  The scheduler: under every
    interleaving tasks run at most once and after their predecessors; worker threads stop;
    everything scheduled gets done.  The coordinator: pipelines run once and in order, every
    valid request is answered, generated plans are executable and their data flow complete.
    Documents: round trips of expressions, plans, fragments, configurations and answers.
    Compositions: a worker executes the coordinator's pipeline with the objects of its
    fragment; what is exported is imported.  Storage: readers and writers move exactly the
    bytes they are given; for the multipart upload to S3 this holds of the runs without a data
    race, and examples show what the races of the code do to the others.  Where the code fails or loses data for some inputs a theorem or a
    finding says so: NULLs in filters, sorts and joins; empty partitions; empty chunks in the
    merge join; ANY as first aggregate; a lost wake-up; a failed part of an upload; ranges
    of the S3 reader; exceptions of a handler.

    ** Parameters

    Code outside the repository is a parameter with its documented behaviour as hypothesis:
    [boost::hash_combine], the iteration order of [std::unordered_map]s, the
    completion order of the scheduler's jobs where an operator uses it, string-to-float
    conversion,
    the JSON classes and [magic_enum] ([JsonLaws], [JsonText], [JsonRuntimeLaws],
    [MagicEnumLaws]; what [GetBool] makes of a stored boolean is left open, [BoolReading],
    since the repository's comments contradict its documentation), Arrow's compute expressions ([ArrowSemantics]), [boost::convert],
    the text of floats and of pointers, the allocator (any function to a fresh address),
    whether an unset array element is written, the listing and the contents of object
    stores, random names, the S3 client and service, the file system, metadata of Parquet
    files, prices, clock, environment variables, presigned URLs and the compression codec.
    An order that a library, a scheduler or a service leaves open is an argument too.
    The witnesses instantiate them.

    ** Not modelled

    - The caches of the evaluator ([cached_expression_results_]): expressions are pure, so
      the table changes costs, not results, as long as an evaluator serves one chunk.
    - Hash values of expressions, memory-usage estimates, run-time statistics, tracing,
      logging.
    - The DynamoDB backend, ORC and Parquet readers and writers, which call the AWS, Arrow and
      ORC libraries: I/O around third-party code.
    - AWS clients, the metadata catalog, deployment and warm-up of functions, monitoring,
      price lists, profiling, benchmarks: requests to services and files of the system.
    - The cost functions that only the benchmarks use.
    - The weak memory model: the code uses sequentially consistent atomics and mutexes.  Where
      it uses neither, in [S3MultipartUploader], the results are about runs without a data
      race, which is what C++ gives a meaning to; spurious wake-ups are not modelled. *)

From stdpp Require Export base option list strings gmap.
From Stdlib Require Export ZArith Lia.

#[global] Open Scope Z_scope.

(** ** Failures

    What a C++ call of the modelled code does instead of returning: it throws one of the
    repository's exceptions ([utils/assert.hpp]), throws a standard exception, or has
    undefined behaviour (which a debug build turns into a failing [DebugAssert] at most of
    the places concerned). *)
Inductive error : Type :=
  | AssertionFailed            (* [Fail], [Assert]: AssertionFailedException *)
  | InvalidInput               (* [FailInput], [AssertInput]: InvalidInputException *)
  | BadVariantAccess           (* std::get on the wrong alternative *)
  | BadOptionalAccess          (* std::optional::value on an empty optional *)
  | OutOfRange                 (* vector::at, string::substr, bimap::at *)
  | ConversionError            (* std::stoi and friends: invalid_argument / out_of_range *)
  | LogicError                 (* std::logic_error *)
  | UndefinedBehaviour         (* out-of-bounds [], null dereference, signed overflow, ... *)
  | OutOfFuel.                 (* the model's own bound; shown unreachable where used *)

#[export] Instance error_eq_dec : EqDecision error.
Proof. solve_decision. Defined.

Inductive result (A : Type) : Type :=
  | Ok (a : A)
  | Err (e : error).
Arguments Ok {A} _.
Arguments Err {A} _.

#[export] Instance result_eq_dec {A} `{EqDecision A} : EqDecision (result A).
Proof. solve_decision. Defined.

(** Sequencing, with the usual notation in a scope of its own. *)
Definition rbind {A B} (m : result A) (f : A → result B) : result B :=
  match m with Ok a => f a | Err e => Err e end.

Declare Scope skyrise_scope.
Delimit Scope skyrise_scope with skyrise.
Notation "x ← y ; z" := (rbind y (λ x : _, z))
  (at level 20, y at level 100, z at level 200) : skyrise_scope.
Notation "' x ← y ; z" := (rbind y (λ x : _, z))
  (at level 20, x pattern, y at level 100, z at level 200) : skyrise_scope.
#[global] Open Scope skyrise_scope.

(** Run a fallible function over a list from left to right. *)
Fixpoint mapR {A B} (f : A → result B) (l : list A) : result (list B) :=
  match l with
  | [] => Ok []
  | a :: l' => b ← f a; k ← mapR f l'; Ok (b :: k)
  end.

Fixpoint filterR {A} (f : A → result bool) (l : list A) : result (list A) :=
  match l with
  | [] => Ok []
  | a :: l' => b ← f a; k ← filterR f l'; Ok (if (b : bool) then a :: k else k)
  end.

Fixpoint foldR {A B} (f : B → A → result B) (b : B) (l : list A) : result B :=
  match l with
  | [] => Ok b
  | a :: l' => b' ← f b a; foldR f b' l'
  end.

(** [assert_ b e] is the repository's [Assert(b, ...)] with the exception it raises. *)
Definition assert_ (b : bool) (e : error) : result unit := if b then Ok tt else Err e.

Definition of_option {A} (o : option A) (e : error) : result A :=
  match o with Some a => Ok a | None => Err e end.

Definition is_ok {A} (r : result A) : bool := match r with Ok _ => true | Err _ => false end.

(** [v[i]] on a std::vector: reading past the end is undefined behaviour. *)
Definition vec_get {A} (v : list A) (i : nat) : result A := of_option (v !! i) UndefinedBehaviour.
(** [v.at(i)]. *)
Definition vec_at {A} (v : list A) (i : nat) : result A := of_option (v !! i) OutOfRange.

(** ** Machine integers *)
Definition int32_min : Z := - 2 ^ 31.
Definition int32_max : Z := 2 ^ 31 - 1.
Definition int64_min : Z := - 2 ^ 63.
Definition int64_max : Z := 2 ^ 63 - 1.
Definition uint32_max : Z := 2 ^ 32 - 1.

Definition in_int32 (z : Z) : bool := (int32_min <=? z) && (z <=? int32_max).
Definition in_int64 (z : Z) : bool := (int64_min <=? z) && (z <=? int64_max).

(** Conversions to a narrower signed type are modular (C++20). *)
Definition wrap_int32 (z : Z) : Z := (z + 2 ^ 31) mod 2 ^ 32 - 2 ^ 31.
Definition wrap_int64 (z : Z) : Z := (z + 2 ^ 63) mod 2 ^ 64 - 2 ^ 63.
Definition wrap_uint32 (z : Z) : Z := z mod 2 ^ 32.
Definition wrap_uint64 (z : Z) : Z := z mod 2 ^ 64.

(** Signed arithmetic whose exact result does not fit is undefined behaviour. *)
Definition checked_int32 (z : Z) : result Z := if in_int32 z then Ok z else Err UndefinedBehaviour.
Definition checked_int64 (z : Z) : result Z := if in_int64 z then Ok z else Err UndefinedBehaviour.

(** ** Tactics *)
Create HintDb skyrise.

(** Case analysis on the [if]s and [match]es of a goal or hypothesis. *)
Ltac break_match :=
  match goal with
  | |- context [match ?x with _ => _ end] => destruct x eqn:?
  end.
Ltac break_match_hyp :=
  match goal with
  | H : context [match ?x with _ => _ end] |- _ => destruct x eqn:?
  end.

(** Open the monadic binds of hypotheses that end in [Ok]. *)
Ltac inv_ok :=
  repeat match goal with
  | H : Ok _ = Ok _ |- _ => injection H; clear H; intros; subst
  | H : Err _ = Ok _ |- _ => discriminate H
  | H : Ok _ = Err _ |- _ => discriminate H
  | H : Err _ = Err _ |- _ => injection H; clear H; intros; subst
  end.

(** ** The result monad *)
Lemma bind_ok {A B} (m : result A) (f : A → result B) (b : B) :
  rbind m f = Ok b ↔ ∃ a, m = Ok a ∧ f a = Ok b.
Proof.
  destruct m as [a|e]; cbn; split; [by exists a | by intros (? & [= <-] & ?) | done |].
  by intros (? & ? & _).
Qed.

Lemma bind_err {A B} (m : result A) (f : A → result B) (e : error) :
  rbind m f = Err e ↔ m = Err e ∨ ∃ a, m = Ok a ∧ f a = Err e.
Proof.
  destruct m as [a|e']; cbn; split.
  - intros H. right. by exists a.
  - intros [|(? & [= <-] & ?)]; done.
  - intros [= <-]. by left.
  - intros [[= <-]|(? & ? & _)]; done.
Qed.

Lemma assert_ok (b : bool) (e : error) (u : unit) : assert_ b e = Ok u ↔ b = true.
Proof. destruct b, u; split; done. Qed.

Lemma of_option_ok {A} (o : option A) (e : error) (a : A) : of_option o e = Ok a ↔ o = Some a.
Proof. destruct o; cbn; split; congruence. Qed.

(** Turn every hypothesis [rbind m f = Ok b] into its two halves. *)
Ltac inv_bind :=
  repeat match goal with
  | H : rbind _ _ = Ok _ |- _ =>
      apply bind_ok in H; let x := fresh "x" in let Hx := fresh "Hx" in destruct H as (x & Hx & H)
  | H : assert_ _ _ = Ok _ |- _ => apply assert_ok in H
  | H : of_option _ _ = Ok _ |- _ => apply of_option_ok in H
  | H : vec_get _ _ = Ok _ |- _ => apply of_option_ok in H
  | H : vec_at _ _ = Ok _ |- _ => apply of_option_ok in H
  end; inv_ok.

Lemma mapR_ok_Forall2 {A B} (f : A → result B) (l : list A) (k : list B) :
  mapR f l = Ok k ↔ Forall2 (λ a b, f a = Ok b) l k.
Proof.
  revert k. induction l as [|a l IH]; intros k; cbn.
  - split; [intros; inv_ok; constructor | inversion 1; done].
  - split.
    + intros H. inv_bind. constructor; [done | by apply IH].
    + inversion 1; subst. apply bind_ok. eexists; split; [done|].
      apply bind_ok. eexists; split; [by apply IH | done].
Qed.

Lemma mapR_ok_length {A B} (f : A → result B) (l : list A) (k : list B) :
  mapR f l = Ok k → length k = length l.
Proof. intros H%mapR_ok_Forall2. by rewrite (Forall2_length _ _ _ H). Qed.

Lemma mapR_ok_lookup {A B} (f : A → result B) (l : list A) (k : list B) (i : nat) (a : A) :
  mapR f l = Ok k → l !! i = Some a → ∃ b, k !! i = Some b ∧ f a = Ok b.
Proof. intros H%mapR_ok_Forall2 Hi. destruct (Forall2_lookup_l _ _ _ _ _ H Hi) as (b & ? & ?). eauto. Qed.

Lemma mapR_total {A B} (f : A → result B) (g : A → B) (l : list A) :
  (∀ a, a ∈ l → f a = Ok (g a)) → mapR f l = Ok (g <$> l).
Proof.
  intros H. apply mapR_ok_Forall2. induction l as [|a l IH]; cbn; constructor.
  - apply H. by left.
  - apply IH. intros b Hb. apply H. by right.
Qed.

Lemma mapR_ext {A B} (f g : A → result B) (l : list A) :
  (∀ a, a ∈ l → f a = g a) → mapR f l = mapR g l.
Proof.
  induction l as [|a l IH]; intros H; cbn; [done|].
  rewrite (H a), IH; [done | intros b Hb; apply H; by right | by left].
Qed.

Lemma bind_ext {A B} (m : result A) (f g : A → result B) :
  (∀ a, m = Ok a → f a = g a) → rbind m f = rbind m g.
Proof. destruct m; cbn; auto. Qed.

(** The error of a run over a list is the error of one of its elements. *)
Lemma mapR_err {A B} (f : A → result B) (l : list A) (e : error) :
  mapR f l = Err e → ∃ a, a ∈ l ∧ f a = Err e.
Proof.
  induction l as [|a l IH]; cbn; [done|]. intros [H|(b & Hb & H)]%bind_err.
  - exists a. split; [by left | done].
  - apply bind_err in H as [H|(? & _ & ?)]; [|done].
    destruct (IH H) as (c & ? & ?). exists c. split; [by right | done].
Qed.

Lemma foldR_app {A B} (f : B → A → result B) b l k :
  foldR f b (l ++ k) = (b' ← foldR f b l; foldR f b' k).
Proof. revert b. induction l as [|x l IH]; intros b; cbn; [done|]. destruct (f b x); cbn; auto. Qed.

(** ** Machine integers: range lemmas *)
Lemma wrap_int32_range z : in_int32 (wrap_int32 z) = true.
Proof.
  unfold in_int32, wrap_int32, int32_min, int32_max.
  pose proof (Z.mod_pos_bound (z + 2 ^ 31) (2 ^ 32) ltac:(lia)). lia.
Qed.

Lemma wrap_int32_id z : in_int32 z = true → wrap_int32 z = z.
Proof.
  unfold in_int32, wrap_int32, int32_min, int32_max. intros H.
  rewrite Z.mod_small by lia. lia.
Qed.

Lemma wrap_int64_range z : in_int64 (wrap_int64 z) = true.
Proof.
  unfold in_int64, wrap_int64, int64_min, int64_max.
  pose proof (Z.mod_pos_bound (z + 2 ^ 63) (2 ^ 64) ltac:(lia)). lia.
Qed.

Lemma wrap_int64_id z : in_int64 z = true → wrap_int64 z = z.
Proof.
  unfold in_int64, wrap_int64, int64_min, int64_max. intros H.
  rewrite Z.mod_small by lia. lia.
Qed.

Lemma int32_in_int64 z : in_int32 z = true → in_int64 z = true.
Proof. unfold in_int32, in_int64, int32_min, int32_max, int64_min, int64_max. lia. Qed.

#[export] Hint Resolve wrap_int32_range wrap_int64_range int32_in_int64 : skyrise.
