(* ===== verification/Types.v ===== *)
(** * Enumerations of [src/lib/types.hpp] and [src/lib/constant_mappings.cpp]

    The predicate conditions with their flip, inverse and BETWEEN rewrites ([types.cpp]), the
    other enumerations that plans and operators carry, and the string tables
    ([boost::bimap]s) that serialisation uses. *)

From S2P Require Export Prelude.

Inductive PredicateCondition : Set :=
  | kEquals | kNotEquals | kLessThan | kLessThanEquals | kGreaterThan | kGreaterThanEquals
  | kBetweenInclusive | kBetweenLowerExclusive | kBetweenUpperExclusive | kBetweenExclusive
  | kIn | kNotIn | kLike | kNotLike | kIsNull | kIsNotNull.

#[export] Instance PredicateCondition_eq_dec : EqDecision PredicateCondition.
Proof. solve_decision. Defined.

Inductive AggregateFunction : Set :=
  | kAny | kAvg | kCount | kCountDistinct | kMax | kMin | kStandardDeviationSample
  | kStringAgg | kSum.

#[export] Instance AggregateFunction_eq_dec : EqDecision AggregateFunction.
Proof. solve_decision. Defined.

Inductive ExchangeMode : Set := kFullMerge | kPartialMerge.
#[export] Instance ExchangeMode_eq_dec : EqDecision ExchangeMode.
Proof. solve_decision. Defined.

Inductive JoinMode : Set :=
  | kAntiNullAsFalse | kAntiNullAsTrue | kCross | kFullOuter | kInner | kLeftOuter
  | kRightOuter | kSemi.
#[export] Instance JoinMode_eq_dec : EqDecision JoinMode.
Proof. solve_decision. Defined.

Inductive SetOperationMode : Set := kAll | kUnique.
#[export] Instance SetOperationMode_eq_dec : EqDecision SetOperationMode.
Proof. solve_decision. Defined.

Inductive SortMode : Set := kAscending | kDescending.
#[export] Instance SortMode_eq_dec : EqDecision SortMode.
Proof. solve_decision. Defined.

Inductive FileFormat : Set := kCsv | kOrc | kParquet.
#[export] Instance FileFormat_eq_dec : EqDecision FileFormat.
Proof. solve_decision. Defined.

(** ColumnId and the other uint32 aliases are [nat]s below [2 ^ 32]; [kInvalidColumnId] is
    the largest one, kept in binary. *)
Definition ColumnId := N.
Definition kInvalidColumnId : ColumnId := 4294967295%N.

Record SortColumnDefinition : Set := mkSortColumnDefinition {
  scd_column_id : ColumnId;
  scd_sort_mode : SortMode }.
#[export] Instance SortColumnDefinition_eq_dec : EqDecision SortColumnDefinition.
Proof. solve_decision. Defined.

(** A reference to an object in S3. *)
Record ObjectReference : Set := mkObjectReference {
  bucket_name : string;
  identifier : string;
  etag : string;
  partitions : option (list Z) }.

#[export] Instance ObjectReference_eq_dec : EqDecision ObjectReference.
Proof. solve_decision. Defined.

(** The constructor. *)
Definition make_ObjectReference (bucket_name identifier etag : string) (partitions : option (list Z)) : result ObjectReference :=
  _ ← assert_ (bool_decide (bucket_name ≠ EmptyString)) AssertionFailed;
  _ ← assert_ (bool_decide (identifier ≠ EmptyString)) AssertionFailed;
  Ok (mkObjectReference bucket_name identifier etag partitions).

(** What the constructor asks for. *)
Definition valid_reference (o : ObjectReference) : Prop := bucket_name o ≠ EmptyString ∧ identifier o ≠ EmptyString.

(** [pipeline_fragment_template.hpp]: which objects the imports of a pipeline read in one
    fragment, by the imports' identities, and where the result goes. *)
Record PipelineFragmentDefinition : Type := mkPipelineFragmentDefinition {
  identity_to_objects : gmap string (list ObjectReference);
  target_object : ObjectReference;
  target_format : FileFormat }.

(** ** [types.cpp] *)

Definition IsBinaryPredicateCondition (c : PredicateCondition) : bool :=
  bool_decide (c = kEquals) || bool_decide (c = kNotEquals) || bool_decide (c = kLessThan)
  || bool_decide (c = kLessThanEquals) || bool_decide (c = kGreaterThan)
  || bool_decide (c = kGreaterThanEquals) || bool_decide (c = kNotLike)
  || bool_decide (c = kLike) || bool_decide (c = kIn) || bool_decide (c = kNotIn).

Definition IsBinaryNumericPredicateCondition (c : PredicateCondition) : bool :=
  bool_decide (c = kEquals) || bool_decide (c = kNotEquals) || bool_decide (c = kLessThan)
  || bool_decide (c = kLessThanEquals) || bool_decide (c = kGreaterThan)
  || bool_decide (c = kGreaterThanEquals).

Definition IsBetweenPredicateCondition (c : PredicateCondition) : bool :=
  bool_decide (c = kBetweenInclusive) || bool_decide (c = kBetweenLowerExclusive)
  || bool_decide (c = kBetweenUpperExclusive) || bool_decide (c = kBetweenExclusive).

Definition IsLowerInclusiveBetween (c : PredicateCondition) : bool :=
  bool_decide (c = kBetweenInclusive) || bool_decide (c = kBetweenUpperExclusive).

Definition IsUpperInclusiveBetween (c : PredicateCondition) : bool :=
  bool_decide (c = kBetweenInclusive) || bool_decide (c = kBetweenLowerExclusive).

Definition FlipPredicateCondition (c : PredicateCondition) : result PredicateCondition :=
  match c with
  | kEquals => Ok kEquals
  | kNotEquals => Ok kNotEquals
  | kLessThan => Ok kGreaterThan
  | kLessThanEquals => Ok kGreaterThanEquals
  | kGreaterThan => Ok kLessThan
  | kGreaterThanEquals => Ok kLessThanEquals
  | kBetweenInclusive | kBetweenLowerExclusive | kBetweenUpperExclusive | kBetweenExclusive
  | kIn | kNotIn | kLike | kNotLike | kIsNull | kIsNotNull => Err AssertionFailed
  end.

Definition InversePredicateCondition (c : PredicateCondition) : result PredicateCondition :=
  match c with
  | kEquals => Ok kNotEquals
  | kNotEquals => Ok kEquals
  | kGreaterThan => Ok kLessThanEquals
  | kLessThanEquals => Ok kGreaterThan
  | kGreaterThanEquals => Ok kLessThan
  | kLessThan => Ok kGreaterThanEquals
  | kLike => Ok kNotLike
  | kNotLike => Ok kLike
  | kIsNull => Ok kIsNotNull
  | kIsNotNull => Ok kIsNull
  | kIn => Ok kNotIn
  | kNotIn => Ok kIn
  | _ => Err AssertionFailed
  end.

Definition BetweenToConditions (c : PredicateCondition)
    : result (PredicateCondition * PredicateCondition) :=
  match c with
  | kBetweenInclusive => Ok (kGreaterThanEquals, kLessThanEquals)
  | kBetweenLowerExclusive => Ok (kGreaterThan, kLessThanEquals)
  | kBetweenUpperExclusive => Ok (kGreaterThanEquals, kLessThan)
  | kBetweenExclusive => Ok (kGreaterThan, kLessThan)
  | _ => Err AssertionFailed
  end.

Definition ConditionsToBetween (lower upper : PredicateCondition) : result PredicateCondition :=
  match lower, upper with
  | kGreaterThan, kLessThan => Ok kBetweenExclusive
  | kGreaterThan, kLessThanEquals => Ok kBetweenLowerExclusive
  | kGreaterThanEquals, kLessThan => Ok kBetweenUpperExclusive
  | kGreaterThanEquals, kLessThanEquals => Ok kBetweenInclusive
  | _, _ => Err AssertionFailed
  end.

(** ** The string tables of [constant_mappings.cpp]

    A bimap is read from the left when a value is printed ([left.at]) and from the right when
    it is parsed back ([right.at]); both throw on a missing key. *)

Section Bimap.
Context {L : Type} `{EqDecision L}.

Definition left_at (m : list (L * string)) (l : L) : result string :=
  match list_find (λ p, p.1 = l) m with Some (_, p) => Ok p.2 | None => Err OutOfRange end.
Definition right_at (m : list (L * string)) (s : string) : result L :=
  match list_find (λ p, p.2 = s) m with Some (_, p) => Ok p.1 | None => Err OutOfRange end.

Lemma left_right_at m l s :
  NoDup m.*2 → left_at m l = Ok s → right_at m s = Ok l.
Proof.
  unfold left_at, right_at. intros Hnd H.
  destruct (list_find (λ p, p.1 = l) m) as [[i p]|] eqn:Hf; [|done].
  apply list_find_Some in Hf as (Hi & Hl & _). inv_ok.
  destruct (list_find (λ q, q.2 = p.2) m) as [[j q]|] eqn:Hg.
  - apply list_find_Some in Hg as (Hj & Hs & _). f_equal.
    assert (i = j) as <-; [|congruence].
    eapply (NoDup_lookup _ _ _ (p.2) Hnd); rewrite list_lookup_fmap.
    + by rewrite Hi.
    + rewrite Hj. cbn. by rewrite Hs.
  - exfalso. apply list_find_None in Hg. rewrite Forall_forall in Hg.
    eapply Hg; [by eapply list_elem_of_lookup_2 | done].
Qed.
End Bimap.

Local Open Scope string_scope.

Definition kAggregateFunctionToString : list (AggregateFunction * string) :=
  [ (kAny, "ANY"); (kAvg, "AVG"); (kCount, "COUNT"); (kCountDistinct, "COUNT DISTINCT");
    (kMax, "MAX"); (kMin, "MIN"); (kStandardDeviationSample, "STDDEV_SAMP");
    (kStringAgg, "STRING_AGG"); (kSum, "SUM") ].

Definition kExchangeModeToString : list (ExchangeMode * string) :=
  [ (kFullMerge, "Full Merge"); (kPartialMerge, "Partial Merge") ].

Definition kJoinModeToString : list (JoinMode * string) :=
  [ (kAntiNullAsFalse, "AntiNullAsFalse"); (kAntiNullAsTrue, "AntiNullAsTrue");
    (kCross, "Cross"); (kFullOuter, "Full Outer"); (kInner, "Inner");
    (kLeftOuter, "Left Outer"); (kRightOuter, "Right Outer"); (kSemi, "Semi") ].

Definition kPredicateConditionToString : list (PredicateCondition * string) :=
  [ (kBetweenExclusive, "BETWEEN EXCLUSIVE"); (kBetweenInclusive, "BETWEEN INCLUSIVE");
    (kBetweenLowerExclusive, "BETWEEN LOWER EXCLUSIVE");
    (kBetweenUpperExclusive, "BETWEEN UPPER EXCLUSIVE");
    (kEquals, "="); (kGreaterThan, ">"); (kGreaterThanEquals, ">="); (kIn, "IN");
    (kIsNotNull, "IS NOT NULL"); (kIsNull, "IS NULL"); (kLessThan, "<");
    (kLessThanEquals, "<="); (kLike, "LIKE"); (kNotEquals, "!="); (kNotIn, "NOT IN");
    (kNotLike, "NOT LIKE") ].

Definition kSetOperationModeToString : list (SetOperationMode * string) :=
  [ (kAll, "All"); (kUnique, "Unique") ].

Definition kSortModeToString : list (SortMode * string) :=
  [ (kAscending, "Ascending"); (kDescending, "Descending") ].

Local Close Scope string_scope.

(** ** Meaning of the comparison conditions

    [holds c o] for the outcome [o] of comparing the left with the right operand; [None] is
    an unordered comparison (a NaN is involved), where only [!=] holds. *)
Definition holds (c : PredicateCondition) (o : option comparison) : bool :=
  match c, o with
  | kEquals, Some Eq => true
  | kNotEquals, Some Eq => false
  | kNotEquals, _ => true
  | kLessThan, Some Lt => true
  | kLessThanEquals, (Some Lt | Some Eq) => true
  | kGreaterThan, Some Gt => true
  | kGreaterThanEquals, (Some Gt | Some Eq) => true
  | _, _ => false
  end.

Lemma flip_holds c c' o :
  FlipPredicateCondition c = Ok c' → holds c' (CompOpp <$> o) = holds c o.
Proof. destruct c; intros [= <-]; destruct o as [[]|]; reflexivity. Qed.

Lemma inverse_holds c c' o :
  InversePredicateCondition c = Ok c' → IsBinaryNumericPredicateCondition c = true →
  holds c' (Some o) = negb (holds c (Some o)).
Proof. destruct c; intros [= <-]; destruct o; try reflexivity; discriminate. Qed.

Lemma between_conditions_roundtrip c l u :
  BetweenToConditions c = Ok (l, u) → ConditionsToBetween l u = Ok c.
Proof. destruct c; intros [= <- <-]; reflexivity. Qed.

(** Flipping a comparison and its operands does not change its outcome (NaNs included),
    flipping twice is the identity, and the inverse of a comparison of ordered operands is
    its negation; a BETWEEN condition splits into two comparisons that recombine to it. *)
Theorem predicate_condition_algebra c c' :
  (FlipPredicateCondition c = Ok c' →
     (∀ o, holds c' (CompOpp <$> o) = holds c o) ∧ FlipPredicateCondition c' = Ok c) ∧
  (InversePredicateCondition c = Ok c' → InversePredicateCondition c' = Ok c ∧
     (IsBinaryNumericPredicateCondition c = true → ∀ o, holds c' (Some o) = negb (holds c (Some o)))) ∧
  (IsBetweenPredicateCondition c = true →
     ∃ l u, BetweenToConditions c = Ok (l, u) ∧ ConditionsToBetween l u = Ok c).
Proof.
  split; [|split].
  - intros H. split; [intros o; by apply flip_holds|]. destruct c; try discriminate H; injection H as <-; reflexivity.
  - intros H. split; [destruct c; try discriminate H; injection H as <-; reflexivity|].
    intros Hn o. by apply inverse_holds.
  - intros H. destruct c; try discriminate H; eexists _, _; split; reflexivity.
Qed.

(** Every enumerator has a name in its table of [constant_mappings.cpp], and looking the
    name up gives the enumerator back, so what is printed can be parsed. *)
Theorem constant_mappings_roundtrip :
  (∀ x, ∃ s, left_at kAggregateFunctionToString x = Ok s ∧ right_at kAggregateFunctionToString s = Ok x) ∧
  (∀ x, ∃ s, left_at kExchangeModeToString x = Ok s ∧ right_at kExchangeModeToString s = Ok x) ∧
  (∀ x, ∃ s, left_at kJoinModeToString x = Ok s ∧ right_at kJoinModeToString s = Ok x) ∧
  (∀ x, ∃ s, left_at kPredicateConditionToString x = Ok s ∧ right_at kPredicateConditionToString s = Ok x) ∧
  (∀ x, ∃ s, left_at kSetOperationModeToString x = Ok s ∧ right_at kSetOperationModeToString s = Ok x) ∧
  (∀ x, ∃ s, left_at kSortModeToString x = Ok s ∧ right_at kSortModeToString s = Ok x).
Proof.
  repeat split; intros x.
  all: match goal with |- ∃ s, left_at ?m _ = _ ∧ _ =>
      assert (∃ s, left_at m x = Ok s) as [s Hs] by (destruct x; eexists; reflexivity) end.
  all: exists s; (split; [exact Hs|]); (apply left_right_at; [|exact Hs]);
    apply (bool_decide_unpack _); vm_compute; exact I.
Qed.
