(* ===== verification/Values.v ===== *)
(** * SQL values and C++ scalar arithmetic

    [src/lib/all_type_variant.hpp]: the data types, the variant [AllTypeVariant] that carries
    a SQL value or NULL, and the C++ types behind them ([ctype]).  The second half is the C++
    scalar semantics that the evaluator's functors rest on: the usual arithmetic conversions
    ([common_type]), [static_cast] between arithmetic types, the operators [+ - * / %] and the
    comparisons, with IEEE-754 binary32 / binary64 floats ([SpecFloat]), and the functors of
    [src/lib/expression/evaluation/expression_functors.hpp] themselves. *)

From Stdlib Require Import SpecFloat.
From S2P Require Export Types.

(** ** Data types and variants *)
Inductive DataType : Set := kNull | kInt | kLong | kFloat | kDouble | kString.

#[export] Instance DataType_eq_dec : EqDecision DataType.
Proof. solve_decision. Defined.

#[export] Instance spec_float_eq_dec : EqDecision spec_float.
Proof. solve_decision. Defined.

Inductive AllTypeVariant : Set :=
  | VNull
  | VInt (z : Z)          (* int32_t *)
  | VLong (z : Z)         (* int64_t *)
  | VFloat (f : spec_float)
  | VDouble (f : spec_float)
  | VString (s : string).

#[export] Instance AllTypeVariant_eq_dec : EqDecision AllTypeVariant.
Proof. solve_decision. Defined.

Definition kNullValue : AllTypeVariant := VNull.

Definition DataTypeFromAllTypeVariant (v : AllTypeVariant) : DataType :=
  match v with
  | VNull => kNull | VInt _ => kInt | VLong _ => kLong
  | VFloat _ => kFloat | VDouble _ => kDouble | VString _ => kString
  end.

Definition VariantIsNull (v : AllTypeVariant) : bool :=
  match v with VNull => true | _ => false end.

Definition IsFloatingPointDataType (t : DataType) : bool :=
  bool_decide (t = kFloat) || bool_decide (t = kDouble).

(** [ResolveDataType] instantiates its functor at the C++ type behind a data type; on
    [kNull] it fails. *)
Definition ResolveDataType {A} (t : DataType) (functor : DataType → result A) : result A :=
  match t with
  | kInt | kLong | kFloat | kDouble | kString => functor t
  | kNull => Err AssertionFailed
  end.

Lemma ResolveDataType_typed {A} t (f : DataType → result A) : t ≠ kNull → ResolveDataType t f = f t.
Proof. by destruct t. Qed.

(** The C++ type of a data type: NullValue is the unit type. *)
Definition ctype (t : DataType) : Set :=
  match t with
  | kNull => unit
  | kInt => Z
  | kLong => Z
  | kFloat => spec_float
  | kDouble => spec_float
  | kString => string
  end.

(** [T{}]. *)
Definition default (t : DataType) : ctype t :=
  match t with
  | kNull => tt
  | kInt => 0
  | kLong => 0
  | kFloat => S754_zero false
  | kDouble => S754_zero false
  | kString => EmptyString
  end.

(** [AllTypeVariant{value}]. *)
Definition to_variant (t : DataType) : ctype t → AllTypeVariant :=
  match t with
  | kNull => λ _, VNull
  | kInt => VInt
  | kLong => VLong
  | kFloat => VFloat
  | kDouble => VDouble
  | kString => VString
  end.

(** [std::get<T>(variant)]. *)
Definition variant_get (t : DataType) (v : AllTypeVariant) : result (ctype t) :=
  match t, v with
  | kNull, VNull => Ok tt
  | kInt, VInt z => Ok z
  | kLong, VLong z => Ok z
  | kFloat, VFloat f => Ok f
  | kDouble, VDouble f => Ok f
  | kString, VString s => Ok s
  | _, _ => Err BadVariantAccess
  end.

Definition holds_alternative (t : DataType) (v : AllTypeVariant) : bool :=
  bool_decide (DataTypeFromAllTypeVariant v = t).

(** Values of a C++ integer type stay in its range. *)
Definition in_range (t : DataType) : ctype t → bool :=
  match t with
  | kInt => λ z, in_int32 z
  | kLong => λ z, in_int64 z
  | _ => λ _, true
  end.

Lemma variant_get_to_variant t (x : ctype t) : variant_get t (to_variant t x) = Ok x.
Proof. destruct t; cbn; [by destruct x|done..]. Qed.

Lemma variant_get_ok t v x : variant_get t v = Ok x → to_variant t x = v.
Proof. destruct t, v; cbn; intros; inv_ok; done. Qed.

Lemma to_variant_type t (x : ctype t) : DataTypeFromAllTypeVariant (to_variant t x) = t.
Proof. by destruct t. Qed.

Lemma to_variant_inj t (x y : ctype t) : to_variant t x = to_variant t y → x = y.
Proof. intros H. apply (f_equal (variant_get t)) in H. rewrite !variant_get_to_variant in H. congruence. Qed.

(** ** Floats *)
Definition prec_of (t : DataType) : Z := match t with kFloat => 24 | _ => 53 end.
Definition emax_of (t : DataType) : Z := match t with kFloat => 128 | _ => 1024 end.

(** Round an integer to the nearest float of type [t] (ties to even). *)
Definition float_of_Z (t : DataType) (z : Z) : spec_float :=
  binary_normalize (prec_of t) (emax_of t) z 0 false.

(** Conversion between the two float types. *)
Definition float_convert (t : DataType) (f : spec_float) : spec_float :=
  match f with
  | S754_finite s m e =>
      binary_normalize (prec_of t) (emax_of t) (if s then Zneg m else Zpos m) e s
  | _ => f
  end.

(** The integral part; NaN and infinities have none. *)
Definition float_trunc (f : spec_float) : option Z :=
  match f with
  | S754_zero _ => Some 0
  | S754_finite s m e =>
      let a := if 0 <=? e then Zpos m * 2 ^ e else Zpos m / 2 ^ (- e) in
      Some (if s then - a else a)
  | _ => None
  end.

(** [std::fmod]: the exact remainder, with the sign of the dividend. *)
Definition float_fmod (t : DataType) (x y : spec_float) : spec_float :=
  match x, y with
  | S754_nan, _ | _, S754_nan | S754_infinity _, _ | _, S754_zero _ => S754_nan
  | S754_zero _, _ | _, S754_infinity _ => x
  | S754_finite sx mx ex, S754_finite _ my ey =>
      let e := Z.min ex ey in
      let r := (Zpos mx * 2 ^ (ex - e)) mod (Zpos my * 2 ^ (ey - e)) in
      if r =? 0 then S754_zero sx
      else binary_normalize (prec_of t) (emax_of t) (if sx then - r else r) e sx
  end.

(** ** Conversions *)

(** [std::common_type_t]. *)
Definition common_type (a b : DataType) : DataType :=
  match a, b with
  | kString, _ | _, kString => kString
  | kDouble, _ | _, kDouble => kDouble
  | kFloat, _ | _, kFloat => kFloat
  | kLong, _ | _, kLong => kLong
  | _, _ => kInt
  end.

Definition float_to_int (in_type : Z → bool) (f : spec_float) : result Z :=
  z ← of_option (float_trunc f) UndefinedBehaviour;
  if in_type z then Ok z else Err UndefinedBehaviour.

(** [static_cast<b>(x)] for arithmetic types (and the identity on strings).  The remaining
    combinations do not compile; no supported instantiation reaches them. *)
Definition static_cast (a b : DataType) : ctype a → result (ctype b) :=
  match a, b return ctype a → result (ctype b) with
  | kInt, kInt => λ x, Ok x
  | kInt, kLong => λ x, Ok x
  | kInt, kFloat => λ x, Ok (float_of_Z kFloat x)
  | kInt, kDouble => λ x, Ok (float_of_Z kDouble x)
  | kLong, kInt => λ x, Ok (wrap_int32 x)
  | kLong, kLong => λ x, Ok x
  | kLong, kFloat => λ x, Ok (float_of_Z kFloat x)
  | kLong, kDouble => λ x, Ok (float_of_Z kDouble x)
  | kFloat, kInt => λ x, float_to_int in_int32 x
  | kFloat, kLong => λ x, float_to_int in_int64 x
  | kFloat, kFloat => λ x, Ok x
  | kFloat, kDouble => λ x, Ok (float_convert kDouble x)
  | kDouble, kInt => λ x, float_to_int in_int32 x
  | kDouble, kLong => λ x, float_to_int in_int64 x
  | kDouble, kFloat => λ x, Ok (float_convert kFloat x)
  | kDouble, kDouble => λ x, Ok x
  | kString, kString => λ x, Ok x
  | _, _ => λ _, Err UndefinedBehaviour
  end.

(** ** Operators at one type *)
Inductive binop : Set := op_plus | op_minus | op_mult.

(** [a + b], [a - b], [a * b]: signed overflow is undefined behaviour. *)
Definition arith (o : binop) (t : DataType) : ctype t → ctype t → result (ctype t) :=
  let zop := match o with op_plus => Z.add | op_minus => Z.sub | op_mult => Z.mul end in
  let fop := match o with op_plus => SFadd | op_minus => SFsub | op_mult => SFmul end in
  match t return ctype t → ctype t → result (ctype t) with
  | kInt => λ a b, checked_int32 (zop a b)
  | kLong => λ a b, checked_int64 (zop a b)
  | kFloat => λ a b, Ok (fop 24 128 a b)
  | kDouble => λ a b, Ok (fop 53 1024 a b)
  | _ => λ _ _, Err UndefinedBehaviour
  end.

(** [a / b]. *)
Definition divide (t : DataType) : ctype t → ctype t → result (ctype t) :=
  match t return ctype t → ctype t → result (ctype t) with
  | kInt => λ a b, if b =? 0 then Err UndefinedBehaviour else checked_int32 (Z.quot a b)
  | kLong => λ a b, if b =? 0 then Err UndefinedBehaviour else checked_int64 (Z.quot a b)
  | kFloat => λ a b, Ok (SFdiv 24 128 a b)
  | kDouble => λ a b, Ok (SFdiv 53 1024 a b)
  | _ => λ _ _, Err UndefinedBehaviour
  end.

(** [-a]. *)
Definition negate (t : DataType) : ctype t → result (ctype t) :=
  match t return ctype t → result (ctype t) with
  | kInt => λ a, checked_int32 (- a)
  | kLong => λ a, checked_int64 (- a)
  | kFloat => λ a, Ok (SFopp a)
  | kDouble => λ a, Ok (SFopp a)
  | _ => λ _, Err UndefinedBehaviour
  end.

(** Three-way comparison at one type; [None] when a NaN is involved.  Strings compare
    lexicographically by unsigned bytes. *)
Definition compare (t : DataType) : ctype t → ctype t → option comparison :=
  match t return ctype t → ctype t → option comparison with
  | kNull => λ _ _, None
  | kInt => λ a b, Some (Z.compare a b)
  | kLong => λ a b, Some (Z.compare a b)
  | kFloat => λ a b, SFcompare a b
  | kDouble => λ a b, SFcompare a b
  | kString => λ a b, Some (String.compare a b)
  end.

(** [x == 0] for an arithmetic type. *)
Definition is_zero (t : DataType) : ctype t → bool :=
  match t return ctype t → bool with
  | kInt => λ a, a =? 0
  | kLong => λ a, a =? 0
  | kFloat => λ a, SFeqb a (S754_zero false)
  | kDouble => λ a, SFeqb a (S754_zero false)
  | _ => λ _, false
  end.

(** ** Functors of [expression_functors.hpp]

    A functor is given at the C++ types of its result and arguments; [Supports] is the
    compile-time test under which it may be instantiated. *)

Definition not_string (t : DataType) : bool := bool_decide (t ≠ kString).
Definition is_string (t : DataType) : bool := bool_decide (t = kString).
Definition is_null_type (t : DataType) : bool := bool_decide (t = kNull).

Definition kIsLogicalOperand (t : DataType) : bool :=
  bool_decide (t = kInt) || bool_decide (t = kNull).

(** [ToBool]: an int32_t argument converts to bool, a NULL is false. *)
Definition ToBool (t : DataType) : ctype t → bool :=
  match t with
  | kInt => λ v, negb (v =? 0)
  | _ => λ _, false
  end.

Definition bool_to_int (b : bool) : Z := if b then 1 else 0.

(** A functor with its own NULL logic yields the value and the NULL flag of the result. *)
Definition TernaryOrEvaluator (ta tb : DataType) (a : ctype ta) (a_null : bool)
    (b : ctype tb) (b_null : bool) : result (Z * bool) :=
  let a_is_true := negb a_null && ToBool ta a in
  let b_is_true := negb b_null && ToBool tb b in
  let result_value := a_is_true || b_is_true in
  Ok (bool_to_int result_value, (a_null || b_null) && negb result_value).

Definition TernaryAndEvaluator (ta tb : DataType) (a : ctype ta) (a_null : bool)
    (b : ctype tb) (b_null : bool) : result (Z * bool) :=
  let a_is_true := negb a_null && ToBool ta a in
  let b_is_true := negb b_null && ToBool tb b in
  let result_value := a_is_true && b_is_true in
  let result_null := a_null && b_null in
  let result_null := if is_null_type ta then result_null
                     else result_null || (ToBool ta a && b_null) in
  let result_null := if is_null_type tb then result_null
                     else result_null || (ToBool tb b && a_null) in
  Ok (bool_to_int result_value, result_null).

Definition SupportsLogical (tr ta tb : DataType) : bool :=
  kIsLogicalOperand tr && kIsLogicalOperand ta && kIsLogicalOperand tb.

(** [StlComparisonFunctorWrapper] for the comparison [c]. *)
Definition SupportsComparison (tr ta tb : DataType) : bool :=
  bool_decide (tr = kInt)
  && (not_string ta || (is_null_type tb || is_string tb))
  && (not_string tb || (is_null_type ta || is_string ta)).

Definition StlComparison (c : PredicateCondition) (ta tb : DataType)
    (a : ctype ta) (b : ctype tb) : result Z :=
  if is_null_type ta || is_null_type tb then Ok 0 else
  let tc := common_type ta tb in
  x ← static_cast ta tc a;
  y ← static_cast tb tc b;
  Ok (bool_to_int (holds c (compare tc x y))).

(** [StlArithmeticFunctorWrapper] for the operator [o]. *)
Definition SupportsArithmetic (tr ta tb : DataType) : bool :=
  not_string tr && not_string ta && not_string tb.

Definition StlArithmetic (o : binop) (tr ta tb : DataType)
    (a : ctype ta) (b : ctype tb) : result (ctype tr) :=
  if is_null_type tr || is_null_type ta || is_null_type tb then Ok (default tr) else
  let tc := common_type ta tb in
  x ← static_cast ta tc a;
  y ← static_cast tb tc b;
  z ← arith o tc x y;
  static_cast tc tr z.

Definition is_integral (t : DataType) : bool := bool_decide (t = kInt) || bool_decide (t = kLong).

(** [a % b] at an integral type; the quotient must be representable. *)
Definition remainder (t : DataType) : ctype t → ctype t → result (ctype t) :=
  match t return ctype t → ctype t → result (ctype t) with
  | kInt => λ a b, if b =? 0 then Err UndefinedBehaviour else
                   _ ← checked_int32 (Z.quot a b); Ok (Z.rem a b)
  | kLong => λ a b, if b =? 0 then Err UndefinedBehaviour else
                    _ ← checked_int64 (Z.quot a b); Ok (Z.rem a b)
  | _ => λ _ _, Err UndefinedBehaviour
  end.

(** The float overload of [std::fmod] needs two floats; every other mix promotes to double. *)
Definition fmod_type (ta tb : DataType) : DataType :=
  match ta, tb with kFloat, kFloat => kFloat | _, _ => kDouble end.

Definition fmod (t : DataType) : ctype t → ctype t → result (ctype t) :=
  match t return ctype t → ctype t → result (ctype t) with
  | kFloat => λ a b, Ok (float_fmod kFloat a b)
  | kDouble => λ a b, Ok (float_fmod kDouble a b)
  | _ => λ _ _, Err UndefinedBehaviour
  end.

(** The result value is left at [T{}] where the functor does not assign it. *)
Definition ModuloEvaluator (tr ta tb : DataType) (a : ctype ta) (a_null : bool)
    (b : ctype tb) (b_null : bool) : result (ctype tr * bool) :=
  if a_null || b_null then Ok (default tr, true)
  else if is_null_type tr || is_null_type ta || is_null_type tb then Ok (default tr, false)
  else if is_zero tb b then Ok (default tr, true)
  else if is_integral ta && is_integral tb then
    let tc := common_type ta tb in
    x ← static_cast ta tc a; y ← static_cast tb tc b;
    z ← remainder tc x y; r ← static_cast tc tr z; Ok (r, false)
  else
    let tc := fmod_type ta tb in
    x ← static_cast ta tc a; y ← static_cast tb tc b;
    z ← fmod tc x y; r ← static_cast tc tr z; Ok (r, false).

(** Unlike modulo, division computes the quotient also where an operand is NULL. *)
Definition DivisionEvaluator (tr ta tb : DataType) (a : ctype ta) (a_null : bool)
    (b : ctype tb) (b_null : bool) : result (ctype tr * bool) :=
  let result_null := a_null || b_null in
  if is_null_type tr || is_null_type ta || is_null_type tb then Ok (default tr, result_null)
  else if is_zero tb b then Ok (default tr, true)
  else
    x ← static_cast ta tr a; y ← static_cast tb tr b;
    q ← divide tr x y; Ok (q, result_null).

Definition SupportsCase (tr ta tb : DataType) : bool :=
  eqb (is_string ta) (is_string tb) && eqb (is_string ta) (is_string tr).

(** [ToValue<Result>]. *)
Definition ToValue (tr ta : DataType) (a : ctype ta) : result (ctype tr) :=
  if is_null_type ta then Ok (default tr) else static_cast ta tr a.

(** ** Facts *)

Lemma static_cast_id t (x : ctype t) : t ≠ kNull → static_cast t t x = Ok x.
Proof. by destruct t. Qed.

(** Three-valued logic: [None] is NULL. *)
Definition kleene_and (a b : option bool) : option bool :=
  match a, b with
  | Some false, _ | _, Some false => Some false
  | Some true, Some true => Some true
  | _, _ => None
  end.
Definition kleene_or (a b : option bool) : option bool :=
  match a, b with
  | Some true, _ | _, Some true => Some true
  | Some false, Some false => Some false
  | _, _ => None
  end.

(** The logical value of an operand. *)
Definition tvl (t : DataType) (v : ctype t) (null : bool) : option bool :=
  if null then None else Some (ToBool t v).

Lemma tvl_bool_to_int b : tvl kInt (bool_to_int b) false = Some b.
Proof. by destruct b. Qed.

Lemma ToBool_bool_to_int b : ToBool kInt (bool_to_int b) = b.
Proof. by destruct b. Qed.

(** The functors compute Kleene's connectives whenever NULL-typed operands are NULL; the
    values that NULL operands carry do not matter. *)
Lemma TernaryOrEvaluator_kleene ta tb a an b bn :
  ∃ z n, TernaryOrEvaluator ta tb a an b bn = Ok (bool_to_int z, n) ∧
         (if n then None else Some z) = kleene_or (tvl ta a an) (tvl tb b bn).
Proof.
  unfold TernaryOrEvaluator, tvl. eexists _, _; split; [done|].
  destruct an, bn, (ToBool ta a), (ToBool tb b); done.
Qed.

Lemma TernaryAndEvaluator_kleene ta tb a an b bn :
  (ta = kNull → an = true) → (tb = kNull → bn = true) →
  ∃ z n, TernaryAndEvaluator ta tb a an b bn = Ok (bool_to_int z, n) ∧
         (if n then None else Some z) = kleene_and (tvl ta a an) (tvl tb b bn).
Proof.
  intros Ha Hb. unfold TernaryAndEvaluator, tvl, is_null_type. eexists _, _; split; [done|].
  repeat case_bool_decide;
    repeat match goal with H : ?t = kNull, H' : ?t = kNull → _ |- _ => rewrite (H' H); clear H' end;
    destruct an, bn, (ToBool ta a), (ToBool tb b); done.
Qed.

(** The logical functors compute Kleene's three-valued OR and AND for every pair of
    supported operand types, whatever values the NULL operands carry. *)
Theorem logical_functors_kleene ta tb a an b bn :
  (ta = kNull → an = true) → (tb = kNull → bn = true) →
  (∃ z n, TernaryOrEvaluator ta tb a an b bn = Ok (bool_to_int z, n) ∧
     (if n then None else Some z) = kleene_or (tvl ta a an) (tvl tb b bn)) ∧
  (∃ z n, TernaryAndEvaluator ta tb a an b bn = Ok (bool_to_int z, n) ∧
     (if n then None else Some z) = kleene_and (tvl ta a an) (tvl tb b bn)).
Proof. intros Ha Hb. split; [apply TernaryOrEvaluator_kleene|by apply TernaryAndEvaluator_kleene]. Qed.

Lemma logical_functors_kleene_witness :
  ∃ z n, TernaryAndEvaluator kNull kInt tt true 0 false = Ok (bool_to_int z, n) ∧
    (if n then None else Some z) = Some false.
Proof. apply (logical_functors_kleene kNull kInt tt true 0 false); [done|discriminate]. Defined.
