(* ===== verification/Storage.v ===== *)
(** * Tables, chunks and value segments

    [src/lib/storage/table/]: a [ValueSegment] holds the values of one column of one chunk,
    with an optional vector of NULL flags; a [Chunk] is a horizontal partition of a table; a
    [Table] is a list of chunks under common column definitions.  Operations that mutate an
    object return the object's next state; [ValueSegment.Append] also returns it when the
    call throws. *)

From S2P Require Export Values.

(** Sizes and offsets are uint32 ([ChunkOffset], [ColumnCount], [ChunkId]). *)
Definition u32 (n : nat) : nat := N.to_nat (N.of_nat n `mod` 2 ^ 32)%N.

Lemma u32_id n : (N.of_nat n < 2 ^ 32)%N → u32 n = n.
Proof. intros H. unfold u32. rewrite N.mod_small by done. lia. Qed.

(** ** Segments *)
Record ValueSegment : Set := mkValueSegment {
  seg_type : DataType;
  seg_values : list (ctype seg_type);
  seg_null_values : option (list bool) }.

Definition empty_segment (t : DataType) (nullable : bool) : ValueSegment :=
  mkValueSegment t [] (if nullable then Some [] else None).

Definition IsNullable (s : ValueSegment) : bool := bool_decide (is_Some (seg_null_values s)).

Definition seg_size (s : ValueSegment) : nat := u32 (length (seg_values s)).

(** The NULL flag at an index, through the optional. *)
Definition seg_null_at (s : ValueSegment) (i : nat) : result bool :=
  nulls ← of_option (seg_null_values s) UndefinedBehaviour; vec_get nulls i.

Definition seg_IsNull (s : ValueSegment) (i : nat) : result bool :=
  if IsNullable s then seg_null_at s i else Ok false.

Definition seg_Get (s : ValueSegment) (i : nat) : result (ctype (seg_type s)) :=
  vec_at (seg_values s) i.

(** [operator[]]. *)
Definition seg_index (s : ValueSegment) (i : nat) : result AllTypeVariant :=
  null ← seg_IsNull s i;
  if (null : bool) then Ok kNullValue
  else v ← vec_at (seg_values s) i; Ok (to_variant (seg_type s) v).

Definition seg_GetTypedValue (s : ValueSegment) (i : nat) : result (option (ctype (seg_type s))) :=
  null ← seg_IsNull s i;
  if (null : bool) then Ok None else v ← vec_get (seg_values s) i; Ok (Some v).

(** The NULL flag is pushed before the value is extracted, so a call that throws on a value
    of the wrong type leaves a nullable segment with one flag too many. *)
Definition seg_Append (s : ValueSegment) (val : AllTypeVariant) : ValueSegment * result unit :=
  let is_null := VariantIsNull val in
  match seg_null_values s with
  | Some nulls =>
      let nulls' := nulls ++ [is_null] in
      match (if is_null then Ok (default (seg_type s)) else variant_get (seg_type s) val) with
      | Ok v => (mkValueSegment (seg_type s) (seg_values s ++ [v]) (Some nulls'), Ok tt)
      | Err e => (mkValueSegment (seg_type s) (seg_values s) (Some nulls'), Err e)
      end
  | None =>
      match variant_get (seg_type s) val with
      | Ok v => (mkValueSegment (seg_type s) (seg_values s ++ [v]) None, Ok tt)
      | Err e => (s, Err e)
      end
  end.

Definition seg_SetNullValue (s : ValueSegment) (i : nat) : result ValueSegment :=
  nulls ← of_option (seg_null_values s) UndefinedBehaviour;
  _ ← vec_get nulls i;
  Ok (mkValueSegment (seg_type s) (seg_values s) (Some (<[i := true]> nulls))).

(** [std::vector::resize]: truncate or pad with [T{}]. *)
Definition resize {A} (d : A) (n : nat) (l : list A) : list A := take n l ++ replicate (n - length l) d.

Definition seg_Resize (s : ValueSegment) (n : nat) : ValueSegment :=
  mkValueSegment (seg_type s) (resize (default _) n (seg_values s))
    (resize false n <$> seg_null_values s).

(** One NULL flag per value when the segment is nullable. *)
Definition wf_segment (s : ValueSegment) : Prop :=
  ∀ nulls, seg_null_values s = Some nulls → length nulls = length (seg_values s).

(** ** Chunks *)
Abbreviation Chunk := (list ValueSegment).

Definition chunk_GetColumnCount (c : Chunk) : nat := u32 (length c).
Definition chunk_GetSegment (c : Chunk) (column_id : nat) : result ValueSegment := vec_at c column_id.
Definition chunk_Size (c : Chunk) : nat := match c with [] => 0%nat | s :: _ => seg_size s end.

Definition chunk_ReplaceSegment (c : Chunk) (column_id : nat) (s : ValueSegment) : result Chunk :=
  _ ← vec_at c column_id; Ok (<[column_id := s]> c).

(** The loop runs over the segments; it dereferences the value iterator without comparing it
    with the end of [values].  A throwing [Append] leaves the earlier segments extended. *)
Fixpoint chunk_Append (c : Chunk) (values : list AllTypeVariant) : Chunk * result unit :=
  match c with
  | [] => ([], Ok tt)
  | s :: c' =>
      match values with
      | [] => (c, Err UndefinedBehaviour)
      | v :: values' =>
          match seg_Append s v with
          | (s', Ok _) => let '(c'', r) := chunk_Append c' values' in (s' :: c'', r)
          | (s', Err e) => (s' :: c', Err e)
          end
      end
  end.

(** ** Tables *)
Record TableColumnDefinition : Set := mkTableColumnDefinition {
  tcd_name : string;
  tcd_data_type : DataType;
  tcd_nullable : bool }.

#[export] Instance TableColumnDefinition_eq_dec : EqDecision TableColumnDefinition.
Proof. solve_decision. Defined.

Abbreviation TableColumnDefinitions := (list TableColumnDefinition).

Definition Concatenated (lhs rhs : TableColumnDefinitions) : TableColumnDefinitions := lhs ++ rhs.

Record Table : Set := mkTable {
  column_definitions : TableColumnDefinitions;
  chunks : list Chunk;
  cached_row_count : option nat }.

Definition make_table (defs : TableColumnDefinitions) : Table := mkTable defs [] None.

(** The checks of the constructor run in debug builds only. *)
Definition chunk_matches (defs : TableColumnDefinitions) (c : Chunk) : bool :=
  bool_decide (chunk_GetColumnCount c = u32 (length defs))
  && bool_decide (seg_type <$> c = tcd_data_type <$> defs).

Definition make_table_chunks (debug : bool) (defs : TableColumnDefinitions) (cs : list Chunk)
    : result Table :=
  _ ← (if debug then assert_ (forallb (chunk_matches defs) cs) AssertionFailed else Ok tt);
  Ok (mkTable defs cs None).

Definition GetColumnCount (t : Table) : nat := u32 (length (column_definitions t)).
Definition ColumnName (t : Table) (c : nat) : result string :=
  d ← vec_get (column_definitions t) c; Ok (tcd_name d).
Definition ColumnDataType (t : Table) (c : nat) : result DataType :=
  d ← vec_get (column_definitions t) c; Ok (tcd_data_type d).
Definition ColumnIsNullable (t : Table) (c : nat) : result bool :=
  d ← vec_get (column_definitions t) c; Ok (tcd_nullable d).
Definition ColumnNames (t : Table) : list string := tcd_name <$> column_definitions t.
Definition ColumnDataTypes (t : Table) : list DataType := tcd_data_type <$> column_definitions t.
Definition ColumnsAreNullable (t : Table) : list bool := tcd_nullable <$> column_definitions t.

(** The first column of that name. *)
Definition ColumnIdByName (t : Table) (name : string) : result nat :=
  match list_find (λ d, tcd_name d = name) (column_definitions t) with
  | Some (i, _) => Ok (u32 i)
  | None => Err AssertionFailed
  end.

Definition sum_list (l : list nat) : nat := foldr Nat.add 0%nat l.

(** A release build returns the cached count; a debug build recounts and checks. *)
Definition RowCount (debug : bool) (t : Table) : Table * result nat :=
  let count := sum_list (chunk_Size <$> chunks t) in
  let t' := mkTable (column_definitions t) (chunks t) (Some count) in
  match cached_row_count t with
  | Some n =>
      if negb debug then (t, Ok n)
      else if bool_decide (count = n) then (t', Ok count) else (t, Err AssertionFailed)
  | None => (t', Ok count)
  end.

Definition Empty (debug : bool) (t : Table) : Table * result bool :=
  let '(t', r) := RowCount debug t in (t', n ← r; Ok (bool_decide (n = 0%nat))).

Definition ChunkCount (t : Table) : nat := u32 (length (chunks t)).
Definition GetChunk (t : Table) (i : nat) : result Chunk := vec_get (chunks t) i.
Definition LastChunk (t : Table) : result Chunk := of_option (last (chunks t)) UndefinedBehaviour.

Definition AppendChunk (t : Table) (segments : Chunk) : result Table :=
  _ ← assert_ (bool_decide (u32 (length segments) = GetColumnCount t)) InvalidInput;
  Ok (mkTable (column_definitions t) (chunks t ++ [segments]) (cached_row_count t)).

(** ** Invariants *)

(** A chunk fits its column definitions: the column types agree, nullable columns are stored
    with NULL flags, and all segments have the same number of rows, below 2^32 - 1.
    [ValueSegment] is instantiated for the five value types only. *)
Record wf_chunk (defs : TableColumnDefinitions) (rows : nat) (c : Chunk) : Prop := {
  wfc_types : seg_type <$> c = tcd_data_type <$> defs;
  wfc_rows : Forall (λ s, length (seg_values s) = rows) c;
  wfc_nulls : Forall wf_segment c;
  wfc_nullable : Forall2 (λ d s, tcd_nullable d = true → IsNullable s = true) defs c;
  wfc_bound : (N.of_nat rows < 2 ^ 32 - 1)%N;
  wfc_typed : Forall (λ s, seg_type s ≠ kNull) c }.

Definition cache_coherent (t : Table) : Prop :=
  ∀ n, cached_row_count t = Some n → n = sum_list (chunk_Size <$> chunks t).

Lemma seg_Append_wf s v s' r : wf_segment s → seg_Append s v = (s', r) → r = Ok tt → wf_segment s'.
Proof.
  unfold wf_segment, seg_Append. intros Hwf H ->.
  destruct (seg_null_values s) as [nulls|]; repeat case_match; simplify_eq; cbn; try done.
  all: intros ? [= <-]; rewrite !length_app; cbn; by rewrite (Hwf _ eq_refl).
Qed.

Lemma length_resize {A} (d : A) n l : length (resize d n l) = n.
Proof. unfold resize. rewrite length_app, length_take, length_replicate. lia. Qed.

Lemma seg_Resize_wf s n : wf_segment (seg_Resize s n).
Proof.
  intros nulls. cbn. destruct (seg_null_values s); [|done]. intros [= <-].
  by rewrite !length_resize.
Qed.

Lemma seg_SetNullValue_wf s i s' : wf_segment s → seg_SetNullValue s i = Ok s' → wf_segment s'.
Proof.
  unfold seg_SetNullValue. intros Hwf H. inv_bind. intros nulls [= <-]. cbn.
  rewrite length_insert. by apply Hwf.
Qed.

(** What is appended is read back, NULL included. *)
Lemma seg_Append_last s v s' :
  wf_segment s → seg_Append s v = (s', Ok tt) → seg_index s' (length (seg_values s)) = Ok v.
Proof.
  unfold seg_Append, seg_index, seg_IsNull, IsNullable, seg_null_at.
  intros Hwf H. destruct (seg_null_values s) as [nulls|] eqn:Hn.
  - pose proof (Hwf _ Hn) as Hl.
    destruct (VariantIsNull v) eqn:Hv.
    + destruct v; try done. simplify_eq. cbn. unfold vec_get.
      by rewrite <- Hl, list_lookup_middle.
    + destruct (variant_get _ v) eqn:Hg; simplify_eq. cbn. unfold vec_get, vec_at.
      rewrite (list_lookup_middle nulls []) by done. cbn.
      rewrite list_lookup_middle by done. cbn. f_equal. by apply variant_get_ok.
  - destruct (variant_get _ v) eqn:Hg; simplify_eq. cbn.
    unfold vec_at. rewrite list_lookup_middle by done. cbn. f_equal. by apply variant_get_ok.
Qed.

Lemma RowCount_coherent debug t t' r :
  cache_coherent t → RowCount debug t = (t', r) →
  r = Ok (sum_list (chunk_Size <$> chunks t)) ∧ cache_coherent t' ∧ chunks t' = chunks t.
Proof.
  unfold RowCount. intros Hc H.
  destruct (cached_row_count t) as [n|] eqn:Hn.
  - rewrite <- (Hc n Hn) in *. rewrite bool_decide_true in H by done.
    destruct debug; cbn in H; simplify_eq; repeat split; try done.
    intros m [= <-]. cbn. by apply Hc.
  - simplify_eq. repeat split; try done. intros m [= <-]. done.
Qed.

(** Appending a variant that the segment accepts keeps one NULL flag per value, adds one
    row, leaves the earlier rows unchanged and can be read back, NULL included. *)
Theorem ValueSegment_Append_spec s v s' :
  wf_segment s → seg_Append s v = (s', Ok tt) →
  wf_segment s' ∧ length (seg_values s') = S (length (seg_values s)) ∧
  seg_index s' (length (seg_values s)) = Ok v ∧
  ∀ i, (i < length (seg_values s))%nat → seg_index s' i = seg_index s i.
Proof.
  intros Hwf H. split; [by eapply seg_Append_wf|].
  assert (∃ x nulls, s' = mkValueSegment (seg_type s) (seg_values s ++ [x]) nulls ∧
    match seg_null_values s with
    | Some l => ∃ b, nulls = Some (l ++ [b]) | None => nulls = None end) as (x & nulls & -> & Hn).
  { unfold seg_Append in H. destruct (seg_null_values s); repeat case_match; simplify_eq; eauto. }
  split; [cbn; rewrite length_app; cbn; lia|]. split; [by eapply seg_Append_last|].
  intros i Hi. unfold seg_index, seg_IsNull, IsNullable, seg_null_at. cbn.
  destruct (seg_null_values s) as [l|] eqn:Hl.
  - destruct Hn as [b ->]. rewrite !bool_decide_true by done. cbn. unfold vec_get, vec_at.
    rewrite !lookup_app_l by (rewrite ?(Hwf _ Hl); done). done.
  - subst. cbn. unfold vec_at. by rewrite lookup_app_l.
Qed.

Lemma ValueSegment_Append_spec_witness :
  seg_index (fst (seg_Append (mkValueSegment kInt [4] (Some [false])) VNull)) 1 = Ok VNull.
Proof.
  apply (ValueSegment_Append_spec (mkValueSegment kInt [4] (Some [false])) VNull _).
  - intros l H. injection H as <-. reflexivity.
  - reflexivity.
Defined.

(** A segment that is not nullable refuses NULL and stays as it was, but a nullable
    segment that refuses a value of another type has already pushed the NULL flag: it is
    left with one flag more than it has values. *)
Theorem ValueSegment_Append_error s v s' e :
  wf_segment s → seg_Append s v = (s', Err e) →
  (seg_null_values s = None → s' = s) ∧
  (∀ nulls, seg_null_values s = Some nulls →
     seg_null_values s' = Some (nulls ++ [false]) ∧ ~ wf_segment s').
Proof.
  intros Hwf H. unfold seg_Append in H. split.
  - intros Hn. rewrite Hn in H. destruct (variant_get _ v); by simplify_eq.
  - intros nulls Hn. rewrite Hn in H. destruct (VariantIsNull v); [by simplify_eq|].
    destruct (variant_get _ v); simplify_eq. split; [done|].
    intros Hw. specialize (Hw _ eq_refl). cbn in Hw. rewrite length_app, (Hwf _ Hn) in Hw. cbn in Hw. lia.
Qed.

Lemma ValueSegment_Append_error_witness :
  ~ wf_segment (fst (seg_Append (mkValueSegment kInt [4] (Some [false])) (VLong 3))).
Proof.
  refine (proj2 (proj2 (ValueSegment_Append_error (mkValueSegment kInt [4] (Some [false])) (VLong 3) _ BadVariantAccess
    _ _) [false] eq_refl)).
  - intros l H. injection H as <-. reflexivity.
  - reflexivity.
Defined.

(** As long as the cached count is right, counting the rows of a table returns the sum of
    its chunk sizes in debug and release builds alike and leaves a right cache. *)
Theorem Table_RowCount_spec debug t :
  cache_coherent t →
  ∃ t', RowCount debug t = (t', Ok (sum_list (chunk_Size <$> chunks t))) ∧
    cache_coherent t' ∧ chunks t' = chunks t.
Proof.
  intros Hc. destruct (RowCount debug t) as [t' r] eqn:H. exists t'.
  destruct (RowCount_coherent debug t t' r Hc H) as (-> & ? & ?). done.
Qed.

Lemma Table_RowCount_spec_witness :
  ∃ t', RowCount true (mkTable [] [[mkValueSegment kInt [1; 2] None]] (Some 2%nat)) = (t', Ok 2%nat).
Proof.
  destruct (Table_RowCount_spec true (mkTable [] [[mkValueSegment kInt [1; 2] None]] (Some 2%nat))) as (t' & H & _).
  - intros n H. injection H as <-. reflexivity.
  - exists t'. exact H.
Defined.

(** Appending a chunk does not reset the cached row count: once the rows have been
    counted, a release build keeps returning the old count for the longer table, and a debug
    build fails its consistency check. *)
Theorem AppendChunk_stale_count t c t' n :
  cached_row_count t = Some n → n = sum_list (chunk_Size <$> chunks t) → (0 < chunk_Size c)%nat →
  AppendChunk t c = Ok t' →
  snd (RowCount false t') = Ok n ∧ snd (RowCount true t') = Err AssertionFailed ∧
  n ≠ sum_list (chunk_Size <$> chunks t').
Proof.
  intros Hn Hsum Hc H. unfold AppendChunk in H. apply bind_ok in H as (? & _ & [= <-]). unfold RowCount. cbn. rewrite Hn. cbn.
  assert (n ≠ sum_list (chunk_Size <$> (chunks t ++ [c]))) as Hne.
  { rewrite fmap_app. unfold sum_list in *. rewrite foldr_app. cbn.
    assert (∀ l k, foldr Nat.add k l = foldr Nat.add 0%nat l + k)%nat as Hf.
    { intros l k. induction l; cbn; lia. }
    rewrite Hf. lia. }
  split; [done|]. split; [|done]. by rewrite bool_decide_false by (intros E; apply Hne; symmetry; exact E).
Qed.

Lemma AppendChunk_stale_count_witness :
  snd (RowCount false (mkTable [mkTableColumnDefinition "a" kInt false]
         [[mkValueSegment kInt [1] None]] (Some 0%nat))) = Ok 0%nat.
Proof.
  apply (AppendChunk_stale_count (mkTable [mkTableColumnDefinition "a" kInt false] [] (Some 0%nat))
    [mkValueSegment kInt [1] None] (mkTable [mkTableColumnDefinition "a" kInt false]
         [[mkValueSegment kInt [1] None]] (Some 0%nat)) 0).
  - reflexivity.
  - reflexivity.
  - vm_compute. lia.
  - reflexivity.
Defined.
