(* ===== verification/Expression.v ===== *)
(** * Expressions

    [src/lib/expression/]: the expression tree with one constructor per subclass of
    [AbstractExpression], the constructors' own checks, [operator==], [DeepCopy], the deduced
    data types ([GetDataType], [ExpressionCommonType], the aggregate traits) and
    [RequiresComputation].  Trees are values here: two subtrees that share a node in memory
    are equal trees, and the pointer shortcut of [operator==] is left out. *)

From Stdlib Require Import SpecFloat.
From S2P Require Export Storage.

Inductive ArithmeticOperator : Set :=
  | kAddition | kSubtraction | kMultiplication | kDivision | kModulo.
#[export] Instance ArithmeticOperator_eq_dec : EqDecision ArithmeticOperator.
Proof. solve_decision. Defined.

Inductive LogicalOperator : Set := kAnd | kOr.
#[export] Instance LogicalOperator_eq_dec : EqDecision LogicalOperator.
Proof. solve_decision. Defined.

Inductive DatetimeComponent : Set := kYear | kMonth | kDay | kHour | kMinute | kSecond.
#[export] Instance DatetimeComponent_eq_dec : EqDecision DatetimeComponent.
Proof. solve_decision. Defined.

Inductive ExpressionType : Set :=
  | tAggregate | tArithmetic | tCase | tCast | tExtract | tList | tLogical | tPqpColumn
  | tPredicate | tUnaryMinus | tValue.
#[export] Instance ExpressionType_eq_dec : EqDecision ExpressionType.
Proof. solve_decision. Defined.

Unset Elimination Schemes.
Inductive expr : Set :=
  | Aggregate (f : AggregateFunction) (argument : expr)
  | StringAgg (argument : expr) (sort : option (list SortColumnDefinition))
  | Arithmetic (op : ArithmeticOperator) (left right : expr)
  | Case (when_ then_ otherwise : expr)
  | Cast (argument : expr) (data_type : DataType)
  | Extract (component : DatetimeComponent) (from : expr)
  | ListExpr (elements : list expr)
  | Logical (op : LogicalOperator) (left right : expr)
  | PqpColumn (id : ColumnId) (data_type : DataType) (nullable : bool) (name : string)
  | BinaryPredicate (c : PredicateCondition) (left right : expr)
  | Between (c : PredicateCondition) (value lower upper : expr)
  | InExpr (c : PredicateCondition) (value set : expr)
  | IsNullExpr (c : PredicateCondition) (operand : expr)
  | UnaryMinus (argument : expr)
  | Value (v : AllTypeVariant).
Set Elimination Schemes.

(** Induction through the element list. *)
Section expr_induction.
Variable P : expr → Prop.
Hypotheses
  (HAggregate : ∀ f a, P a → P (Aggregate f a))
  (HStringAgg : ∀ a s, P a → P (StringAgg a s))
  (HArithmetic : ∀ o l r, P l → P r → P (Arithmetic o l r))
  (HCase : ∀ w t o, P w → P t → P o → P (Case w t o))
  (HCast : ∀ a t, P a → P (Cast a t))
  (HExtract : ∀ c a, P a → P (Extract c a))
  (HList : ∀ es, Forall P es → P (ListExpr es))
  (HLogical : ∀ o l r, P l → P r → P (Logical o l r))
  (HColumn : ∀ i t n s, P (PqpColumn i t n s))
  (HBinary : ∀ c l r, P l → P r → P (BinaryPredicate c l r))
  (HBetween : ∀ c v l u, P v → P l → P u → P (Between c v l u))
  (HIn : ∀ c v s, P v → P s → P (InExpr c v s))
  (HIsNull : ∀ c a, P a → P (IsNullExpr c a))
  (HMinus : ∀ a, P a → P (UnaryMinus a))
  (HValue : ∀ v, P (Value v)).

Fixpoint expr_ind (e : expr) : P e :=
  match e with
  | Aggregate f a => HAggregate f a (expr_ind a)
  | StringAgg a s => HStringAgg a s (expr_ind a)
  | Arithmetic o l r => HArithmetic o l r (expr_ind l) (expr_ind r)
  | Case w t o => HCase w t o (expr_ind w) (expr_ind t) (expr_ind o)
  | Cast a t => HCast a t (expr_ind a)
  | Extract c a => HExtract c a (expr_ind a)
  | ListExpr es => HList es
      ((fix go (l : list expr) : Forall P l :=
          match l with [] => Forall_nil_2 _ | a :: l' => Forall_cons_2 _ a l' (expr_ind a) (go l') end) es)
  | Logical o l r => HLogical o l r (expr_ind l) (expr_ind r)
  | PqpColumn i t n s => HColumn i t n s
  | BinaryPredicate c l r => HBinary c l r (expr_ind l) (expr_ind r)
  | Between c v l u => HBetween c v l u (expr_ind v) (expr_ind l) (expr_ind u)
  | InExpr c v s => HIn c v s (expr_ind v) (expr_ind s)
  | IsNullExpr c a => HIsNull c a (expr_ind a)
  | UnaryMinus a => HMinus a (expr_ind a)
  | Value v => HValue v
  end.
End expr_induction.

Definition GetExpressionType (e : expr) : ExpressionType :=
  match e with
  | Aggregate _ _ | StringAgg _ _ => tAggregate
  | Arithmetic _ _ _ => tArithmetic
  | Case _ _ _ => tCase
  | Cast _ _ => tCast
  | Extract _ _ => tExtract
  | ListExpr _ => tList
  | Logical _ _ _ => tLogical
  | PqpColumn _ _ _ _ => tPqpColumn
  | BinaryPredicate _ _ _ | Between _ _ _ _ | InExpr _ _ _ | IsNullExpr _ _ => tPredicate
  | UnaryMinus _ => tUnaryMinus
  | Value _ => tValue
  end.

Definition GetArguments (e : expr) : list expr :=
  match e with
  | Aggregate _ a | StringAgg a _ | Cast a _ | Extract _ a | IsNullExpr _ a | UnaryMinus a => [a]
  | Arithmetic _ l r | Logical _ l r | BinaryPredicate _ l r | InExpr _ l r => [l; r]
  | Case a b c | Between _ a b c => [a; b; c]
  | ListExpr es => es
  | PqpColumn _ _ _ _ | Value _ => []
  end.

(** Only literals and columns need no computation. *)
Definition RequiresComputation (e : expr) : bool :=
  match e with PqpColumn _ _ _ _ | Value _ => false | _ => true end.

(** ** Deduced data types *)

(** [expression_utils.cpp]. *)
Definition ExpressionCommonType (lhs rhs : DataType) : result DataType :=
  _ ← assert_ (bool_decide (lhs ≠ kNull) || bool_decide (rhs ≠ kNull)) AssertionFailed;
  _ ← assert_ (eqb (is_string lhs) (is_string rhs)) AssertionFailed;
  Ok (if decide (lhs = kNull) then rhs
      else if decide (rhs = kNull) then lhs
      else if decide (lhs = kString) then kString
      else if decide (lhs = kDouble ∨ rhs = kDouble) then kDouble
      else if decide (lhs = kLong) then (if IsFloatingPointDataType rhs then kDouble else kLong)
      else if decide (rhs = kLong) then (if IsFloatingPointDataType lhs then kDouble else kLong)
      else if decide (lhs = kFloat ∨ rhs = kFloat) then kFloat
      else kInt).

Definition is_arithmetic_type (t : DataType) : bool :=
  match t with kInt | kLong | kFloat | kDouble => true | _ => false end.

(** [AggregateTraits<ColumnType, f>::kAggregateDataType] ([aggregate_traits.hpp]); [kNull]
    marks an aggregate that the column type does not support. *)
Definition AggregateDataType (f : AggregateFunction) (column : DataType) : DataType :=
  match f with
  | kCount | kCountDistinct => kLong
  | kMin | kMax | kAny => column
  | kAvg | kStandardDeviationSample => if is_arithmetic_type column then kDouble else kNull
  | kSum => if is_arithmetic_type column
            then (if IsFloatingPointDataType column then kDouble else kLong) else kNull
  | kStringAgg => kString
  end.

Fixpoint GetDataType (e : expr) : result DataType :=
  match e with
  | Aggregate f a =>
      match f with
      | kCount | kCountDistinct => Ok kLong
      | _ => t ← GetDataType a; ResolveDataType t (λ t', Ok (AggregateDataType f t'))
      end
  | StringAgg a _ => t ← GetDataType a; ResolveDataType t (λ t', Ok (AggregateDataType kStringAgg t'))
  | Arithmetic _ l r => tl ← GetDataType l; tr ← GetDataType r; ExpressionCommonType tl tr
  | Case _ t o => tt ← GetDataType t; to ← GetDataType o; ExpressionCommonType tt to
  | Cast _ t => Ok t
  | Extract _ _ => Ok kString
  | ListExpr _ => Err AssertionFailed
  | Logical _ _ _ => Ok kInt
  | PqpColumn _ t _ _ => Ok t
  | BinaryPredicate _ _ _ | Between _ _ _ _ | InExpr _ _ _ | IsNullExpr _ _ => Ok kInt
  | UnaryMinus a => GetDataType a
  | Value v => Ok (DataTypeFromAllTypeVariant v)
  end.

(** ** Checked constructors *)
Definition make_Between (c : PredicateCondition) (v l u : expr) : result expr :=
  _ ← assert_ (IsBetweenPredicateCondition c) AssertionFailed; Ok (Between c v l u).

Definition make_IsNull (c : PredicateCondition) (a : expr) : result expr :=
  _ ← assert_ (bool_decide (c = kIsNull) || bool_decide (c = kIsNotNull)) AssertionFailed;
  Ok (IsNullExpr c a).

Definition make_UnaryMinus (a : expr) : result expr :=
  t ← GetDataType a;
  _ ← assert_ (bool_decide (t ≠ kString)) AssertionFailed;
  Ok (UnaryMinus a).

(** ** Column references ([pqp_column_expression.cpp]) *)
Definition FromTable (t : Table) (column_name : string) : result expr :=
  id ← ColumnIdByName t column_name;
  ty ← ColumnDataType t id;
  nullable ← ColumnIsNullable t id;
  Ok (PqpColumn (N.of_nat id) ty nullable column_name).

Definition FromTable_id (t : Table) (column_id : nat) : result expr :=
  name ← ColumnName t column_id; FromTable t name.

(** ** Equality *)

(** [operator==] of std::variant: same alternative and equal content; NULLs are never equal
    and floats compare by [==]. *)
Definition variant_eqb (a b : AllTypeVariant) : bool :=
  match a, b with
  | VInt x, VInt y => x =? y
  | VLong x, VLong y => x =? y
  | VFloat x, VFloat y => SFeqb x y
  | VDouble x, VDouble y => SFeqb x y
  | VString x, VString y => String.eqb x y
  | _, _ => false
  end.

(** [ShallowEquals] of each subclass, after the types have been compared.  An aggregate
    compares its function only; a [StringAggAggregateExpression] inherits that. *)
Definition ShallowEquals (a b : expr) : bool :=
  match a, b with
  | Aggregate f _, Aggregate g _ => bool_decide (f = g)
  | StringAgg _ _, StringAgg _ _ => true
  | Aggregate f _, StringAgg _ _ | StringAgg _ _, Aggregate f _ => bool_decide (f = kStringAgg)
  | Arithmetic o _ _, Arithmetic o' _ _ => bool_decide (o = o')
  | Case _ _ _, Case _ _ _ => true
  | Cast _ t, Cast _ t' => bool_decide (t = t')
  | Extract c _, Extract c' _ => bool_decide (c = c')
  | ListExpr _, ListExpr _ => true
  | Logical o _ _, Logical o' _ _ => bool_decide (o = o')
  | PqpColumn i t n s, PqpColumn i' t' n' s' =>
      bool_decide (i = i') && bool_decide (t = t') && bool_decide (n = n') && bool_decide (s = s')
  | (BinaryPredicate c _ _ | Between c _ _ _ | InExpr c _ _ | IsNullExpr c _),
    (BinaryPredicate c' _ _ | Between c' _ _ _ | InExpr c' _ _ | IsNullExpr c' _) =>
      bool_decide (c = c')
  | UnaryMinus _, UnaryMinus _ => true
  | Value v, Value w => (VariantIsNull v && VariantIsNull w) || variant_eqb v w
  | _, _ => false
  end.

(** [ExpressionsEqual]: std::ranges::equal with the given comparison. *)
Fixpoint list_equal {A} (eq : A → A → bool) (l k : list A) : bool :=
  match l, k with
  | [], [] => true
  | a :: l', b :: k' => eq a b && list_equal eq l' k'
  | _, _ => false
  end.

Fixpoint expr_eqb (a b : expr) {struct a} : bool :=
  bool_decide (GetExpressionType a = GetExpressionType b)
  && ShallowEquals a b
  && match a with
     | Aggregate _ x | StringAgg x _ | Cast x _ | Extract _ x | IsNullExpr _ x | UnaryMinus x =>
         match GetArguments b with [y] => expr_eqb x y | _ => false end
     | Arithmetic _ x y | Logical _ x y | BinaryPredicate _ x y | InExpr _ x y =>
         match GetArguments b with [x'; y'] => expr_eqb x x' && expr_eqb y y' | _ => false end
     | Case x y z | Between _ x y z =>
         match GetArguments b with
         | [x'; y'; z'] => expr_eqb x x' && expr_eqb y y' && expr_eqb z z' | _ => false end
     | ListExpr es =>
         (fix go (l k : list expr) : bool :=
            match l, k with
            | [], [] => true
            | x :: l', y :: k' => expr_eqb x y && go l' k'
            | _, _ => false
            end) es (GetArguments b)
     | PqpColumn _ _ _ _ | Value _ => match GetArguments b with [] => true | _ => false end
     end.

(** ** Deep copies

    Every class rebuilds its node from copies of its arguments, except that
    [StringAggAggregateExpression] has no [DeepCopy] of its own: it inherits the one of
    [AggregateExpression], which builds a plain aggregate. *)
Fixpoint DeepCopy (e : expr) : expr :=
  match e with
  | Aggregate f a => Aggregate f (DeepCopy a)
  | StringAgg a _ => Aggregate kStringAgg (DeepCopy a)
  | Arithmetic o l r => Arithmetic o (DeepCopy l) (DeepCopy r)
  | Case w t o => Case (DeepCopy w) (DeepCopy t) (DeepCopy o)
  | Cast a t => Cast (DeepCopy a) t
  | Extract c a => Extract c (DeepCopy a)
  | ListExpr es => ListExpr (map DeepCopy es)
  | Logical o l r => Logical o (DeepCopy l) (DeepCopy r)
  | PqpColumn i t n s => PqpColumn i t n s
  | BinaryPredicate c l r => BinaryPredicate c (DeepCopy l) (DeepCopy r)
  | Between c v l u => Between c (DeepCopy v) (DeepCopy l) (DeepCopy u)
  | InExpr c v s => InExpr c (DeepCopy v) (DeepCopy s)
  | IsNullExpr c a => IsNullExpr c (DeepCopy a)
  | UnaryMinus a => UnaryMinus (DeepCopy a)
  | Value v => Value v
  end.

(** [OrderWithinGroup]: whether STRING_AGG sorts its group. *)
Definition OrderWithinGroup (e : expr) : bool :=
  match e with StringAgg _ (Some _) => true | _ => false end.

Fixpoint has_string_agg (e : expr) : bool :=
  match e with
  | StringAgg _ _ => true
  | Aggregate _ a | Cast a _ | Extract _ a | IsNullExpr _ a | UnaryMinus a => has_string_agg a
  | Arithmetic _ l r | Logical _ l r | BinaryPredicate _ l r | InExpr _ l r =>
      has_string_agg l || has_string_agg r
  | Case a b c | Between _ a b c => has_string_agg a || has_string_agg b || has_string_agg c
  | ListExpr es => existsb has_string_agg es
  | PqpColumn _ _ _ _ | Value _ => false
  end.

(** A literal that is not equal to itself: a float NaN. *)
Definition is_nan_value (v : AllTypeVariant) : bool := negb (VariantIsNull v) && negb (variant_eqb v v).

Fixpoint nan_free (e : expr) : bool :=
  match e with
  | Value v => negb (is_nan_value v)
  | Aggregate _ a | StringAgg a _ | Cast a _ | Extract _ a | IsNullExpr _ a | UnaryMinus a => nan_free a
  | Arithmetic _ l r | Logical _ l r | BinaryPredicate _ l r | InExpr _ l r => nan_free l && nan_free r
  | Case a b c | Between _ a b c => nan_free a && nan_free b && nan_free c
  | ListExpr es => forallb nan_free es
  | PqpColumn _ _ _ _ => true
  end.

(** ** Lemmas *)

Lemma DeepCopy_id e : has_string_agg e = false → DeepCopy e = e.
Proof.
  induction e using expr_ind; cbn; intros Hs;
    rewrite ?orb_false_iff in Hs; destruct_and?; try (f_equal; auto; done).
  f_equal. induction H as [|a es Ha H IH]; [done|]. cbn in Hs.
  rewrite orb_false_iff in Hs. destruct Hs. cbn. f_equal; auto.
Qed.

Lemma DeepCopy_type e : GetDataType (DeepCopy e) = GetDataType e.
Proof.
  induction e using expr_ind; cbn;
    repeat match goal with H : GetDataType (DeepCopy _) = _ |- _ => rewrite H; clear H end; done.
Qed.

(** A copy compares equal to its original, whatever it lost. *)
Lemma DeepCopy_equal e : nan_free e = true → expr_eqb (DeepCopy e) e = true.
Proof.
  induction e using expr_ind; cbn; intros Hs; rewrite ?andb_true_iff in Hs; destruct_and?;
    rewrite ?bool_decide_true by done; cbn;
    repeat match goal with H : _ → expr_eqb _ _ = true |- _ => rewrite H by done; clear H end;
    try done.
  - induction H as [|a es Ha H IH]; [done|]. cbn in Hs. apply andb_true_iff in Hs as [??].
    cbn. rewrite Ha by done. auto.
  - unfold is_nan_value in Hs. destruct (VariantIsNull v); [done|].
    cbn in *. destruct (variant_eqb v v); done.
Qed.

(** The common type is symmetric. *)
Lemma ExpressionCommonType_comm a b : ExpressionCommonType a b = ExpressionCommonType b a.
Proof. destruct a, b; reflexivity. Qed.

(** The deduced type can hold either operand: it is at least as wide as the C++ common type. *)
Lemma ExpressionCommonType_self t : t ≠ kNull → ExpressionCommonType t t = Ok t.
Proof. by destruct t. Qed.

(** A deep copy of an expression has the type of the original and compares equal to it
    (NaN constants aside), and it is the original unless a STRING_AGG occurs. *)
Theorem DeepCopy_spec e :
  GetDataType (DeepCopy e) = GetDataType e ∧
  (nan_free e = true → expr_eqb (DeepCopy e) e = true) ∧
  (has_string_agg e = false → DeepCopy e = e).
Proof. split; [apply DeepCopy_type|]. split; [apply DeepCopy_equal|apply DeepCopy_id]. Qed.

(** A copied STRING_AGG loses its WITHIN GROUP ordering: the class inherits the copy
    operation of [AggregateExpression], and the copy still compares equal. *)
Theorem StringAgg_DeepCopy_loses_order a sort :
  nan_free a = true →
  OrderWithinGroup (StringAgg a (Some sort)) = true ∧
  OrderWithinGroup (DeepCopy (StringAgg a (Some sort))) = false ∧
  expr_eqb (DeepCopy (StringAgg a (Some sort))) (StringAgg a (Some sort)) = true.
Proof. intros Ha. split; [done|]. split; [done|]. by apply DeepCopy_equal. Qed.

Lemma StringAgg_DeepCopy_loses_order_witness :
  OrderWithinGroup (DeepCopy (StringAgg (Value (VInt 1)) (Some []))) = false.
Proof. apply (StringAgg_DeepCopy_loses_order (Value (VInt 1)) []). reflexivity. Defined.
