(* ===== verification/Description.v ===== *)
(** * Descriptions of expressions

    [Description] of the subclasses of [AbstractExpression] ([src/lib/expression/]): the
    string an expression prints as, which is also the name of the column that a projection
    computes for it ([AsColumnName]).  No subclass distinguishes the description modes.
    Printing a floating-point number to a stream is a parameter. *)

From stdpp Require Import pretty.
From S2P Require Export Expression.

Local Open Scope string_scope.

(** Precedence levels, in the order of their underlying integers. *)
Inductive ExpressionPrecedence : Set :=
  | kHighest | kUnaryPredicate | kMultiplicationDivision | kAdditionSubtraction
  | kBinaryTernaryPredicate | kLogical.

Definition precedence_value (p : ExpressionPrecedence) : nat :=
  match p with
  | kHighest => 0 | kUnaryPredicate => 1 | kMultiplicationDivision => 2
  | kAdditionSubtraction => 3 | kBinaryTernaryPredicate => 4 | kLogical => 5
  end%nat.

Definition Precedence (e : expr) : ExpressionPrecedence :=
  match e with
  | Arithmetic (kAddition | kSubtraction) _ _ => kAdditionSubtraction
  | Arithmetic (kMultiplication | kDivision | kModulo) _ _ => kMultiplicationDivision
  | BinaryPredicate _ _ _ | Between _ _ _ _ => kBinaryTernaryPredicate
  | IsNullExpr _ _ => kUnaryPredicate
  | Logical _ _ _ => kLogical
  | _ => kHighest
  end.

(** ** Stream operators *)
Definition print_ArithmeticOperator (op : ArithmeticOperator) : string :=
  match op with
  | kAddition => "+" | kSubtraction => "-" | kMultiplication => "*" | kDivision => "/"
  | kModulo => "%"
  end.

Definition print_LogicalOperator (op : LogicalOperator) : string :=
  match op with kAnd => "AND" | kOr => "OR" end.

Definition print_DatetimeComponent (c : DatetimeComponent) : string :=
  match c with
  | kYear => "YEAR" | kMonth => "MONTH" | kDay => "DAY"
  | kHour => "HOUR" | kMinute => "MINUTE" | kSecond => "SECOND"
  end.

(** There is no name for [kNull]. *)
Definition kDataTypeToString : list (DataType * string) :=
  [ (kDouble, "double"); (kFloat, "float"); (kInt, "int"); (kLong, "long"); (kString, "string") ].

Section Description.
Variable print_float : ctype kFloat → string.
Variable print_double : ctype kDouble → string.

Definition print_variant (v : AllTypeVariant) : string :=
  match v with
  | VString s => "'" +:+ s +:+ "'"
  | VInt z => pretty z
  | VLong z => pretty z +:+ "L"
  | VFloat f => print_float f +:+ "F"
  | VDouble f => print_double f
  | VNull => "NULL"
  end.

(** [IsCountStar] fails on a COUNT of anything but a column. *)
Definition IsCountStar (e : expr) : result bool :=
  match e with
  | Aggregate kCount (PqpColumn id _ _ _) => Ok (bool_decide (id = kInvalidColumnId))
  | Aggregate kCount _ => Err AssertionFailed
  | _ => Ok false
  end.

(** [EncloseArgument], given the description of the argument. *)
Definition EncloseArgument (e argument : expr) (description : string) : string :=
  if (precedence_value (Precedence e) <=? precedence_value (Precedence argument))%nat
  then "(" +:+ description +:+ ")" else description.

(** [ExpressionDescriptions]. *)
Definition separate (descriptions : list string) : string :=
  match descriptions with
  | [] => EmptyString
  | d :: ds => foldl (λ acc x, acc +:+ ", " +:+ x) d ds
  end.

(** ** One definition per subclass, given the descriptions of the arguments *)
Definition Aggregate_Description (f : AggregateFunction) (star : bool) (argument : string) : result string :=
  if decide (f = kCountDistinct) then Ok ("COUNT(DISTINCT " +:+ argument +:+ ")")
  else if star then Ok "COUNT(*)"
  else n ← left_at kAggregateFunctionToString f; Ok (n +:+ "(" +:+ argument +:+ ")").

Definition Arithmetic_Description (op : ArithmeticOperator) (left_ right_ : string) : string :=
  left_ +:+ " " +:+ print_ArithmeticOperator op +:+ " " +:+ right_.

Definition Between_Description (c : PredicateCondition) (value lower upper : string) : result string :=
  n ← left_at kPredicateConditionToString c;
  Ok (value +:+ " " +:+ n +:+ " " +:+ lower +:+ " AND " +:+ upper).

Definition BinaryPredicate_Description (c : PredicateCondition) (left_ right_ : string) : result string :=
  n ← left_at kPredicateConditionToString c; Ok (left_ +:+ " " +:+ n +:+ " " +:+ right_).

Definition Case_Description (when_ then_ otherwise : string) : string :=
  "CASE WHEN " +:+ when_ +:+ " THEN " +:+ then_ +:+ " ELSE " +:+ otherwise +:+ " END".

Definition Cast_Description (argument : string) (t : DataType) : result string :=
  n ← left_at kDataTypeToString t; Ok ("CAST(" +:+ argument +:+ " AS " +:+ n +:+ ")").

Definition Extract_Description (c : DatetimeComponent) (from : string) : string :=
  "EXTRACT(" +:+ print_DatetimeComponent c +:+ " FROM " +:+ from +:+ ")".

Definition In_Description (c : PredicateCondition) (value set : string) : result string :=
  n ← left_at kPredicateConditionToString c; Ok (value +:+ " " +:+ n +:+ " " +:+ set).

Definition IsNull_Description (c : PredicateCondition) (operand : string) : string :=
  operand +:+ (if bool_decide (c = kIsNull) then " IS NULL" else " IS NOT NULL").

Definition List_Description (elements : list string) : string := "(" +:+ separate elements +:+ ")".

Definition Logical_Description (op : LogicalOperator) (left_ right_ : string) : string :=
  left_ +:+ " " +:+ print_LogicalOperator op +:+ " " +:+ right_.

Definition UnaryMinus_Description (argument : string) : string := "-" +:+ argument.

Fixpoint Description (e : expr) : result string :=
  match e with
  | Aggregate f a =>
      star ← (if decide (f = kCountDistinct) then Ok false else IsCountStar e);
      s ← (if (star : bool) then Ok EmptyString else Description a);
      Aggregate_Description f star s
  | StringAgg a _ => s ← Description a; Aggregate_Description kStringAgg false s
  | Arithmetic op l r =>
      a ← Description l; b ← Description r;
      Ok (Arithmetic_Description op (EncloseArgument e l a) (EncloseArgument e r b))
  | Case w t o => a ← Description w; b ← Description t; c ← Description o; Ok (Case_Description a b c)
  | Cast a t => s ← Description a; Cast_Description s t
  | Extract c a => s ← Description a; Ok (Extract_Description c s)
  | ListExpr es => ds ← mapR Description es; Ok (List_Description ds)
  | Logical op l r =>
      a ← Description l; b ← Description r;
      Ok (Logical_Description op (EncloseArgument e l a) (EncloseArgument e r b))
  | PqpColumn _ _ _ name => Ok name
  | BinaryPredicate c l r =>
      a ← Description l; b ← Description r;
      BinaryPredicate_Description c (EncloseArgument e l a) (EncloseArgument e r b)
  | Between c v l u =>
      x ← Description v; a ← Description l; b ← Description u;
      Between_Description c (EncloseArgument e v x) (EncloseArgument e l a) (EncloseArgument e u b)
  | InExpr c v s =>
      x ← Description v; d ← Description s; In_Description c (EncloseArgument e v x) d
  | IsNullExpr c a => x ← Description a; Ok (IsNull_Description c (EncloseArgument e a x))
  | UnaryMinus a => x ← Description a; Ok (UnaryMinus_Description (EncloseArgument e a x))
  | Value v => Ok (print_variant v)
  end.

Definition AsColumnName (e : expr) : result string := Description e.
End Description.
