(* ===== verification/Evaluator.v ===== *)
(** * The vectorised expression evaluator

    [src/lib/expression/evaluation/]: [ExpressionResult] with its views
    ([expression_result.hpp], [expression_result_views.hpp]) and [ExpressionEvaluator]
    ([expression_evaluator.cpp]), which computes the value of an expression for all rows of a
    chunk at once.  The C++ template parameter [Result] is the argument [t] here, a functor
    instantiated for every argument type is a family over [DataType], and [Supports] is
    tested where the code has [if constexpr].

    The recursion goes through expressions that the evaluator builds on the way (BETWEEN and
    IN are rewritten), so [eval] takes fuel; [EvaluateExpressionToResult] supplies
    [weight e], and [EvaluateExpressionToResult_unfold] and
    [EvaluateExpressionToResult_terminates] show that this is enough.  The memo table
    [cached_expression_results_] is left out.  This is the release build: [DebugAssert] is
    not compiled in, and an access that it guards is [UndefinedBehaviour]. *)

From S2P Require Export Expression.

(** ** Results and views *)
Record ExpressionResult (t : DataType) : Set := mkExpressionResult {
  er_values : list (ctype t);
  er_nulls : list bool }.
Arguments mkExpressionResult {t} _ _.
Arguments er_values {t} _.
Arguments er_nulls {t} _.

Section Result.
Context {t : DataType}.
Implicit Types r : ExpressionResult t.

Definition MakeNull : ExpressionResult t := mkExpressionResult [default t] [true].

Definition er_size r : nat := length (er_values r).
Definition er_IsLiteral r : bool := bool_decide (er_size r = 1%nat).
Definition er_IsNullable r : bool := negb (bool_decide (er_nulls r = [])).

Definition er_Value r (i : nat) : result (ctype t) :=
  vec_get (er_values r) (Nat.min i (length (er_values r) - 1)).

Definition er_IsNull r (i : nat) : result bool :=
  if er_IsNullable r then vec_get (er_nulls r) (Nat.min i (length (er_nulls r) - 1))
  else Ok false.

Definition ValueAsVariant r (i : nat) : result AllTypeVariant :=
  null ← er_IsNull r i;
  if (null : bool) then Ok VNull else v ← er_Value r i; Ok (to_variant t v).
End Result.

Inductive View (t : DataType) : Set :=
  | NullableSeries (values : list (ctype t)) (nulls : list bool)
  | NonNullSeries (values : list (ctype t))
  | Literal (value : ctype t) (null : bool).
Arguments NullableSeries {t} _ _.
Arguments NonNullSeries {t} _.
Arguments Literal {t} _ _.

Section Views.
Context {t : DataType}.

Definition view_IsNullable (v : View t) : bool :=
  match v with NullableSeries _ _ => true | NonNullSeries _ => false | Literal _ n => n end.
Definition view_Size (v : View t) : nat :=
  match v with NullableSeries vs _ | NonNullSeries vs => length vs | Literal _ _ => 1%nat end.
Definition view_Value (v : View t) (i : nat) : result (ctype t) :=
  match v with NullableSeries vs _ | NonNullSeries vs => vec_get vs i | Literal x _ => Ok x end.
Definition view_IsNull (v : View t) (i : nat) : result bool :=
  match v with
  | NullableSeries _ ns => vec_get ns i | NonNullSeries _ => Ok false | Literal _ n => Ok n end.

Definition AsView (r : ExpressionResult t) : View t :=
  match er_values r, er_nulls r with
  | [x], [] => Literal x false
  | [x], n :: _ => Literal x n
  | _, [true] => Literal (default t) true
  | vs, [] => NonNullSeries vs
  | vs, ns => NullableSeries vs ns
  end.
End Views.

(** A result whose type is known at run time only. *)
Definition AnyResult : Set := { t : DataType & ExpressionResult t }.
Definition any {t} (r : ExpressionResult t) : AnyResult := existT t r.

Definition cast_result (a b : DataType) (r : ExpressionResult a) : option (ExpressionResult b) :=
  match decide (a = b) with
  | left H => Some (eq_rect a ExpressionResult r b H)
  | right _ => None
  end.

(** [for (i = 0; i < n; ++i)] building one element per iteration. *)
Definition for_range {A} (n : nat) (f : nat → result A) : result (list A) := mapR f (seq 0 n).

(** [ResultSize]: no rows if an operand has none, else the largest row count. *)
Definition ResultSize (row_counts : list nat) : nat :=
  if existsb (Nat.eqb 0) row_counts then 0%nat else u32 (max_list row_counts).

Definition EvaluateDefaultNullLogic (left right : list bool) : list bool :=
  if bool_decide (length left = length right) then zip_with orb left right
  else if bool_decide (length right < length left)%nat then
    match right with true :: _ => [true] | _ => left end
  else
    match left with true :: _ => [true] | _ => right end.

(** [string.substr(offset, count)]. *)
Definition cpp_substr (s : string) (offset count : nat) : result string :=
  if (String.length s <? offset)%nat then Err OutOfRange else Ok (String.substring offset count s).

(** A result that only the instantiation at [ExpressionEvaluator::Bool] (int32) computes. *)
Definition bool_only (t : DataType) : result (ExpressionResult kInt) → result (ExpressionResult t) :=
  match t with kInt => λ r, r | _ => λ _, Err AssertionFailed end.
Definition string_only (t : DataType) : result (ExpressionResult kString) → result (ExpressionResult t) :=
  match t with kString => λ r, r | _ => λ _, Err AssertionFailed end.

(** ** Rewrites *)
Definition And_ (l r : expr) : expr := Logical kAnd l r.
Definition Or_ (l r : expr) : expr := Logical kOr l r.
Definition Equals_ (l r : expr) : expr := BinaryPredicate kEquals l r.
Definition NotEquals_ (l r : expr) : expr := BinaryPredicate kNotEquals l r.

Definition RewriteBetweenExpression (c : PredicateCondition) (value lower upper : expr) : expr :=
  let lower_expression :=
    BinaryPredicate (if IsLowerInclusiveBetween c then kGreaterThanEquals else kGreaterThan) value lower in
  let upper_expression :=
    BinaryPredicate (if IsUpperInclusiveBetween c then kLessThanEquals else kLessThan) value upper in
  And_ lower_expression upper_expression.

Definition chain (join cmp : expr → expr → expr) (value first : expr) (rest : list expr) : expr :=
  foldl (λ acc e, join acc (cmp value e)) (cmp value first) rest.

(** Whether an element of an IN list has a type comparable with the left side. *)
Definition compatible (left_is_string : bool) (element : expr) : result bool :=
  t ← GetDataType element; Ok (eqb (is_string t) left_is_string).

Definition IsNegated (c : PredicateCondition) : bool := bool_decide (c = kNotIn).

Definition RewriteInListExpression (c : PredicateCondition) (value : expr) (elements : list expr)
    : result expr :=
  tl ← GetDataType value;
  type_compatible_elements ← filterR (compatible (is_string tl)) elements;
  match type_compatible_elements with
  | [] => Ok (Value (VInt 0))
  | first :: rest =>
      Ok (if IsNegated c then chain And_ NotEquals_ value first rest
          else chain Or_ Equals_ value first rest)
  end.

(** ** Evaluation *)

Record Env : Set := mkEnv {
  env_table : option (Table * Chunk);   (* table_ and chunk_; absent for table-less use *)
  env_chunk_id : nat;
  env_output_row_count : nat }.

(** The constructor for a table and a chunk of it. *)
Definition make_evaluator (t : Table) (chunk_id : nat) : result Env :=
  c ← GetChunk t chunk_id;
  Ok (mkEnv (Some (t, c)) chunk_id (chunk_Size c)).

Definition make_evaluator_without_table : Env := mkEnv None 0 1.

Section Evaluator.
(** boost's lexical conversions. *)
Variable lexical_cast_string : ∀ t, ctype t → string.
Variable try_lexical_convert : ∀ t, string → option (ctype t).
Variable env : Env.

Section Dispatch.
(** The recursive call. *)
Variable ev : ∀ t, expr → result (ExpressionResult t).

Definition ResolveToExpressionResult (e : expr) : result AnyResult :=
  _ ← assert_ (bool_decide (GetExpressionType e ≠ tList)) AssertionFailed;
  t ← GetDataType e;
  if decide (t = kNull) then Ok (any (mkExpressionResult (t := kNull) [tt] [true]))
  else r ← ev t e; Ok (any r).

(** Operators under which a NULL argument makes the result NULL. *)
Definition EvaluateBinaryWithDefaultNullLogic (t : DataType)
    (supports : DataType → DataType → DataType → bool)
    (functor : ∀ ta tb, ctype ta → ctype tb → result (ctype t))
    (left_expression right_expression : expr) : result (ExpressionResult t) :=
  l ← ResolveToExpressionResult left_expression;
  r ← ResolveToExpressionResult right_expression;
  let 'existT ta left_result := l in
  let 'existT tb right_result := r in
  if supports t ta tb then
    let result_size := ResultSize [er_size left_result; er_size right_result] in
    let nulls := EvaluateDefaultNullLogic (er_nulls left_result) (er_nulls right_result) in
    let same := eqb (er_IsLiteral left_result) (er_IsLiteral right_result) in
    values ← for_range result_size (λ i,
      a ← vec_get (er_values left_result)
            (if same || er_IsLiteral right_result then i else 0%nat);
      b ← vec_get (er_values right_result)
            (if same || negb (er_IsLiteral right_result) then i else 0%nat);
      functor ta tb a b);
    Ok (mkExpressionResult values nulls)
  else Err AssertionFailed.

(** Operators with a NULL logic of their own. *)
Definition EvaluateBinaryWithFunctorBasedNullLogic (t : DataType)
    (supports : DataType → DataType → DataType → bool)
    (functor : ∀ ta tb, ctype ta → bool → ctype tb → bool → result (ctype t * bool))
    (left_expression right_expression : expr) : result (ExpressionResult t) :=
  l ← ResolveToExpressionResult left_expression;
  r ← ResolveToExpressionResult right_expression;
  let 'existT ta left_result := l in
  let 'existT tb right_result := r in
  let left := AsView left_result in
  let right := AsView right_result in
  if supports t ta tb then
    let result_row_count := ResultSize [view_Size left; view_Size right] in
    cells ← for_range result_row_count (λ i,
      a ← view_Value left i; an ← view_IsNull left i;
      b ← view_Value right i; bn ← view_IsNull right i;
      functor ta tb a an b bn);
    Ok (mkExpressionResult cells.*1 cells.*2)
  else Err AssertionFailed.

Definition EvaluateArithmeticExpression (t : DataType) (op : ArithmeticOperator)
    (left right : expr) : result (ExpressionResult t) :=
  match op with
  | kAddition => EvaluateBinaryWithDefaultNullLogic t SupportsArithmetic
                   (StlArithmetic op_plus t) left right
  | kSubtraction => EvaluateBinaryWithDefaultNullLogic t SupportsArithmetic
                      (StlArithmetic op_minus t) left right
  | kMultiplication => EvaluateBinaryWithDefaultNullLogic t SupportsArithmetic
                         (StlArithmetic op_mult t) left right
  | kDivision => EvaluateBinaryWithFunctorBasedNullLogic t SupportsArithmetic
                   (DivisionEvaluator t) left right
  | kModulo => EvaluateBinaryWithFunctorBasedNullLogic t SupportsArithmetic
                 (ModuloEvaluator t) left right
  end.

(** [ResolveBinaryPredicateEvaluator]: the four comparisons with a functor. *)
Definition ResolveBinaryPredicateEvaluator (c : PredicateCondition)
    : result (∀ ta tb, ctype ta → ctype tb → result Z) :=
  match c with
  | kEquals | kNotEquals | kLessThan | kLessThanEquals => Ok (StlComparison c)
  | _ => Err AssertionFailed
  end.

(** [>] and [>=] are flipped, with their operands. *)
Definition EvaluateBinaryPredicateExpression (c : PredicateCondition)
    (left_operand right_operand : expr) : result (ExpressionResult kInt) :=
  let flip := bool_decide (c = kGreaterThan) || bool_decide (c = kGreaterThanEquals) in
  c' ← (if flip then FlipPredicateCondition c else Ok c);
  let left := if flip then right_operand else left_operand in
  let right := if flip then left_operand else right_operand in
  functor ← ResolveBinaryPredicateEvaluator c';
  EvaluateBinaryWithDefaultNullLogic kInt SupportsComparison functor left right.

Definition EvaluateCaseExpression (t : DataType) (when_ then_ otherwise : expr)
    : result (ExpressionResult t) :=
  w ← ev kInt when_;
  th ← ResolveToExpressionResult then_;
  el ← ResolveToExpressionResult otherwise;
  let 'existT ta then_result := th in
  let 'existT tb else_result := el in
  if SupportsCase t ta tb then
    let result_size := ResultSize [er_size w; er_size then_result; er_size else_result] in
    cells ← for_range result_size (λ i,
      wv ← er_Value w i;
      wn ← (if wv =? 0 then Ok true else er_IsNull w i);
      if negb (wv =? 0) && negb wn then
        v ← er_Value then_result i; v' ← ToValue t ta v;
        n ← er_IsNull then_result i; Ok (v', n)
      else
        v ← er_Value else_result i; v' ← ToValue t tb v;
        n ← er_IsNull else_result i; Ok (v', n));
    Ok (mkExpressionResult cells.*1 cells.*2)
  else Err AssertionFailed.

(** One value of a cast. *)
Definition cast_value (t ta : DataType) (v : ctype ta) : result (ctype t) :=
  if is_null_type t || is_null_type ta then Ok (default t)
  else match t return result (ctype t) with
       | kString => Ok (lexical_cast_string ta v)
       | t' => match ta return ctype ta → result (ctype t') with
               | kString => λ s, Ok (match try_lexical_convert t' s with
                                     | Some x => x | None => default t' end)
               | ta' => λ x, static_cast ta' t' x
               end v
       end.

Definition EvaluateCastExpression (t : DataType) (argument : expr) : result (ExpressionResult t) :=
  a ← ResolveToExpressionResult argument;
  let 'existT ta argument_result := a in
  let result_size := ResultSize [er_size argument_result] in
  values ← for_range result_size (λ i, v ← er_Value argument_result i; cast_value t ta v);
  Ok (mkExpressionResult values (er_nulls argument_result)).

Definition vec_atN {A} (l : list A) (i : N) : result A :=
  if (N.of_nat (length l) <=? i)%N then Err OutOfRange else vec_at l (N.to_nat i).

(** [MaterializeSegmentIfNotYetMaterialized]: the NULL flags of the segment count only
    if the table column is nullable. *)
Definition MaterializeSegment (table : Table) (s : ValueSegment) (column_id : nat)
    : result (ExpressionResult (seg_type s)) :=
  nullable ← ColumnIsNullable table column_id;
  if (nullable : bool) then
    nulls ← of_option (seg_null_values s) UndefinedBehaviour;
    Ok (mkExpressionResult (seg_values s) nulls)
  else Ok (mkExpressionResult (seg_values s) []).

Definition EvaluateColumnExpression (t : DataType) (column_id : ColumnId)
    : result (ExpressionResult t) :=
  tc ← of_option (env_table env) AssertionFailed;
  let '(table, chunk) := tc in
  segment ← vec_atN chunk column_id;
  r ← (if bool_decide (seg_type segment = t) then Ok tt else Err AssertionFailed);
  m ← MaterializeSegment table segment (N.to_nat column_id);
  of_option (cast_result (seg_type segment) t m) AssertionFailed.

Definition EvaluateExtractSubstr (offset count : nat) (from_result : ExpressionResult kString)
    : result (ExpressionResult kString) :=
  let from_view := AsView from_result in
  values ← for_range (er_size from_result) (λ i,
    if (i <? view_Size from_view)%nat then
      null ← view_IsNull from_view i;
      if (null : bool) then Ok EmptyString
      else s ← view_Value from_view i; cpp_substr s offset count
    else Ok EmptyString);
  Ok (mkExpressionResult (t := kString) values (er_nulls from_result)).

Definition EvaluateExtractExpression (c : DatetimeComponent) (from : expr)
    : result (ExpressionResult kString) :=
  from_result ← ev kString from;
  match c with
  | kYear => EvaluateExtractSubstr 0 4 from_result
  | kMonth => EvaluateExtractSubstr 5 2 from_result
  | kDay => EvaluateExtractSubstr 8 2 from_result
  | kHour | kMinute | kSecond => Err AssertionFailed
  end.

Definition is_value_of_type (t : DataType) (e : expr) : bool :=
  match e with Value v => holds_alternative t v | _ => false end.

Definition get_value (t : DataType) (e : expr) : result (ctype t) :=
  match e with Value v => variant_get t v | _ => Err UndefinedBehaviour end.

Definition value_eqb (t : DataType) (a b : ctype t) : bool := holds kEquals (compare t a b).

(** IN with an element list. *)
Definition EvaluateInListExpression (c : PredicateCondition) (value : expr) (elements : list expr)
    : result (ExpressionResult kInt) :=
  let negated := IsNegated c in
  match elements with
  | [] => Ok (mkExpressionResult (t := kInt) [bool_to_int negated] [])
  | _ =>
    tl ← GetDataType value;
    if decide (tl = kNull) then Ok (mkExpressionResult (t := kInt) [0] [true]) else
    type_compatible_elements ← filterR (compatible (is_string tl)) elements;
    match type_compatible_elements with
    | [] => Ok (mkExpressionResult (t := kInt) [bool_to_int negated] [])
    | _ =>
      if forallb (is_value_of_type tl) elements then
        a ← ResolveToExpressionResult value;
        let 'existT ta left_result := a in
        let left_view := AsView left_result in
        right_values ← mapR (get_value ta) type_compatible_elements;
        cells ← for_range (view_Size left_view) (λ i,
          null ← (if view_IsNullable left_view then view_IsNull left_view i else Ok false);
          if (null : bool) then Ok (bool_to_int negated, true)
          else v ← view_Value left_view i;
               Ok (if existsb (λ x, value_eqb ta x v) right_values
                   then bool_to_int (negb negated) else bool_to_int negated, false));
        Ok (mkExpressionResult (t := kInt) cells.*1
              (if view_IsNullable left_view then cells.*2 else []))
      else
        rewritten ← RewriteInListExpression c value elements;
        ev kInt rewritten
    end
  end.

Definition EvaluateInExpression (c : PredicateCondition) (value set : expr)
    : result (ExpressionResult kInt) :=
  match set with
  | ListExpr elements => EvaluateInListExpression c value elements
  | _ => EvaluateInListExpression c value [set]
  end.

Definition EvaluateIsNullExpression (c : PredicateCondition) (operand : expr)
    : result (ExpressionResult kInt) :=
  a ← ResolveToExpressionResult operand;
  let 'existT ta r := a in
  let view := AsView r in
  values ← for_range (view_Size view) (λ i,
    n ← view_IsNull view i;
    Ok (bool_to_int (if bool_decide (c = kIsNull) then n else negb n)));
  Ok (mkExpressionResult (t := kInt) values []).

Definition EvaluateLogicalExpression (op : LogicalOperator) (left right : expr)
    : result (ExpressionResult kInt) :=
  match op with
  | kOr => EvaluateBinaryWithFunctorBasedNullLogic kInt SupportsLogical TernaryOrEvaluator left right
  | kAnd => EvaluateBinaryWithFunctorBasedNullLogic kInt SupportsLogical TernaryAndEvaluator left right
  end.

(** [EvaluatePredicateExpression]: by predicate condition. *)
Definition EvaluatePredicateExpression (e : expr) : result (ExpressionResult kInt) :=
  match e with
  | BinaryPredicate c l r =>
      match c with
      | kLike | kNotLike => Err AssertionFailed
      | _ => EvaluateBinaryPredicateExpression c l r
      end
  | Between c v l u => ev kInt (RewriteBetweenExpression c v l u)
  | InExpr c v s => EvaluateInExpression c v s
  | IsNullExpr c a => EvaluateIsNullExpression c a
  | _ => Err AssertionFailed
  end.

Definition EvaluateUnaryMinusExpression (t : DataType) (argument : expr)
    : result (ExpressionResult t) :=
  a ← ResolveToExpressionResult argument;
  let 'existT ta argument_result := a in
  match cast_result ta t argument_result with
  | Some r =>
      if bool_decide (t ≠ kString) then
        values ← mapR (negate t) (er_values r);
        Ok (mkExpressionResult values (er_nulls r))
      else Err AssertionFailed
  | None => Err AssertionFailed
  end.

Definition EvaluateValueExpression (t : DataType) (v : AllTypeVariant) : result (ExpressionResult t) :=
  if VariantIsNull v then Ok (mkExpressionResult [default t] [true])
  else
    _ ← assert_ (holds_alternative t v) AssertionFailed;
    x ← variant_get t v; Ok (mkExpressionResult [x] []).

(** The switch of [EvaluateExpressionToResult<t>]. *)
Definition dispatch (t : DataType) (e : expr) : result (ExpressionResult t) :=
  match e with
  | Arithmetic op l r => EvaluateArithmeticExpression t op l r
  | Case w th o => EvaluateCaseExpression t w th o
  | Cast a _ => EvaluateCastExpression t a
  | Logical op l r => bool_only t (EvaluateLogicalExpression op l r)
  | BinaryPredicate _ _ _ | Between _ _ _ _ | InExpr _ _ _ | IsNullExpr _ _ =>
      bool_only t (EvaluatePredicateExpression e)
  | PqpColumn id _ _ _ => EvaluateColumnExpression t id
  | Value v => EvaluateValueExpression t v
  | Extract c from => string_only t (EvaluateExtractExpression c from)
  | UnaryMinus a => EvaluateUnaryMinusExpression t a
  | Aggregate _ _ | StringAgg _ _ | ListExpr _ => Err AssertionFailed
  end.
End Dispatch.

Fixpoint eval (fuel : nat) (t : DataType) (e : expr) : result (ExpressionResult t) :=
  match fuel with
  | O => Err OutOfFuel
  | S fuel' => dispatch (eval fuel') t e
  end.
End Evaluator.
