(* ===== verification/EvaluatorTermination.v ===== *)
(** * Termination of the evaluator

    [weight] bounds the recursion of [eval] through the BETWEEN and IN rewrites.
    [EvaluateExpressionToResult] runs [eval] with that much fuel; it satisfies the recursive
    equation of the code ([EvaluateExpressionToResult_unfold]) and never runs out of fuel
    ([EvaluateExpressionToResult_terminates]). *)

From S2P Require Export Evaluator.

Fixpoint weight (e : expr) : nat :=
  match e with
  | Aggregate _ a | StringAgg a _ | Cast a _ | Extract _ a | IsNullExpr _ a | UnaryMinus a => S (weight a)
  | Arithmetic _ l r | Logical _ l r | BinaryPredicate _ l r => S (weight l + weight r)
  | Case a b c => S (weight a + weight b + weight c)
  | Between _ v l u => 5 + 2 * weight v + weight l + weight u
  | InExpr _ v s => 3 + 2 * (weight v + 1) * (weight s + 2)
  | ListExpr es => S (sum_list (map (λ e, S (weight e)) es))
  | PqpColumn _ _ _ _ | Value _ => 1
  end%nat.

Definition list_weight (es : list expr) : nat := sum_list (map (λ e, S (weight e)) es).

Lemma list_weight_cons e es : list_weight (e :: es) = S (weight e + list_weight es).
Proof. done. Qed.
Lemma weight_ListExpr es : weight (ListExpr es) = S (list_weight es).
Proof. done. Qed.
Lemma length_list_weight es : (length es ≤ list_weight es)%nat.
Proof. induction es; cbn [length]; rewrite ?list_weight_cons; lia. Qed.
Lemma weight_pos e : (0 < weight e)%nat.
Proof. destruct e; cbn; lia. Qed.

#[global] Opaque list_weight.

(** ** Absence of the fuel error *)
Definition nofuel {A} (m : result A) : Prop := m ≠ Err OutOfFuel.

Create HintDb nofuel.

Section nofuel.
Lemma nofuel_ok {A} (a : A) : nofuel (Ok a).
Proof. done. Qed.
Lemma nofuel_bind {A B} (m : result A) (f : A → result B) :
  nofuel m → (∀ a, nofuel (f a)) → nofuel (rbind m f).
Proof. unfold nofuel. intros Hm Hf [?|(a & _ & ?)]%bind_err; [done | by apply (Hf a)]. Qed.
Lemma nofuel_mapR {A B} (f : A → result B) l : (∀ a, nofuel (f a)) → nofuel (mapR f l).
Proof. intros Hf (a & _ & Ha)%mapR_err. by apply (Hf a). Qed.
Lemma nofuel_filterR {A} (f : A → result bool) l : (∀ a, nofuel (f a)) → nofuel (filterR f l).
Proof.
  intros Hf. induction l; cbn; [done|].
  apply nofuel_bind; [done|]. intros. by apply nofuel_bind.
Qed.
Lemma nofuel_assert b e : e ≠ OutOfFuel → nofuel (assert_ b e).
Proof. destruct b; unfold nofuel; cbn; congruence. Qed.
Lemma nofuel_of_option {A} (o : option A) e : e ≠ OutOfFuel → nofuel (of_option o e).
Proof. destruct o; unfold nofuel; cbn; congruence. Qed.
Lemma nofuel_checked_int32 z : nofuel (checked_int32 z).
Proof. unfold checked_int32. by case_match. Qed.
Lemma nofuel_checked_int64 z : nofuel (checked_int64 z).
Proof. unfold checked_int64. by case_match. Qed.
End nofuel.

#[export] Hint Resolve nofuel_ok nofuel_bind nofuel_mapR nofuel_filterR nofuel_assert
  nofuel_of_option nofuel_checked_int32 nofuel_checked_int64 : nofuel.
#[export] Hint Extern 1 (_ ≠ OutOfFuel) => discriminate : nofuel.
#[export] Hint Extern 1 (nofuel (Err _)) => discriminate : nofuel.
#[export] Hint Extern 2 (nofuel (match ?x with _ => _ end)) => destruct x : nofuel.

Ltac solve_nofuel := intros; unfold vec_get, vec_at, for_range in *; eauto 30 with nofuel.

Lemma nofuel_static_cast ta tb x : nofuel (static_cast ta tb x).
Proof. destruct ta, tb; cbn; unfold float_to_int; solve_nofuel. Qed.
Lemma nofuel_arith o t a b : nofuel (arith o t a b).
Proof. destruct t, o; cbn; solve_nofuel. Qed.
Lemma nofuel_divide t a b : nofuel (divide t a b).
Proof. destruct t; cbn; solve_nofuel. Qed.
Lemma nofuel_negate t a : nofuel (negate t a).
Proof. destruct t; cbn; solve_nofuel. Qed.
Lemma nofuel_remainder t a b : nofuel (remainder t a b).
Proof. destruct t; cbn; solve_nofuel. Qed.
Lemma nofuel_fmod t a b : nofuel (fmod t a b).
Proof. destruct t; cbn; solve_nofuel. Qed.
Lemma nofuel_variant_get t v : nofuel (variant_get t v).
Proof. destruct t, v; done. Qed.
Lemma nofuel_CommonType a b : nofuel (ExpressionCommonType a b).
Proof. destruct a, b; done. Qed.
#[export] Hint Resolve nofuel_static_cast nofuel_arith nofuel_divide nofuel_negate
  nofuel_remainder nofuel_fmod nofuel_variant_get nofuel_CommonType : nofuel.

Lemma nofuel_GetDataType e : nofuel (GetDataType e).
Proof.
  induction e using expr_ind; cbn; unfold ResolveDataType; solve_nofuel.
Qed.
#[export] Hint Resolve nofuel_GetDataType : nofuel.

Lemma nofuel_StlComparison c ta tb a b : nofuel (StlComparison c ta tb a b).
Proof. unfold StlComparison. solve_nofuel. Qed.
Lemma nofuel_StlArithmetic o tr ta tb a b : nofuel (StlArithmetic o tr ta tb a b).
Proof. unfold StlArithmetic. solve_nofuel. Qed.
Lemma nofuel_Modulo tr ta tb a an b bn : nofuel (ModuloEvaluator tr ta tb a an b bn).
Proof. unfold ModuloEvaluator. solve_nofuel. Qed.
Lemma nofuel_Division tr ta tb a an b bn : nofuel (DivisionEvaluator tr ta tb a an b bn).
Proof. unfold DivisionEvaluator. solve_nofuel. Qed.
Lemma nofuel_Or ta tb a an b bn : nofuel (TernaryOrEvaluator ta tb a an b bn).
Proof. done. Qed.
Lemma nofuel_And ta tb a an b bn : nofuel (TernaryAndEvaluator ta tb a an b bn).
Proof. done. Qed.
Lemma nofuel_ToValue tr ta a : nofuel (ToValue tr ta a).
Proof. unfold ToValue. solve_nofuel. Qed.
Lemma nofuel_view_Value {t} (v : View t) i : nofuel (view_Value v i).
Proof. destruct v; cbn; solve_nofuel. Qed.
Lemma nofuel_view_IsNull {t} (v : View t) i : nofuel (view_IsNull v i).
Proof. destruct v; cbn; solve_nofuel. Qed.
Lemma nofuel_er_Value {t} (r : ExpressionResult t) i : nofuel (er_Value r i).
Proof. unfold er_Value. solve_nofuel. Qed.
Lemma nofuel_er_IsNull {t} (r : ExpressionResult t) i : nofuel (er_IsNull r i).
Proof. unfold er_IsNull. solve_nofuel. Qed.
Lemma nofuel_substr s o c : nofuel (cpp_substr s o c).
Proof. unfold cpp_substr. solve_nofuel. Qed.
Lemma nofuel_Flip c : nofuel (FlipPredicateCondition c).
Proof. by destruct c. Qed.
Lemma nofuel_ResolveBinary c : nofuel (ResolveBinaryPredicateEvaluator c).
Proof. by destruct c. Qed.
Lemma nofuel_compatible b e : nofuel (compatible b e).
Proof. unfold compatible. solve_nofuel. Qed.
Lemma nofuel_get_value t e : nofuel (get_value t e).
Proof. destruct e; cbn; solve_nofuel. Qed.
Lemma nofuel_RewriteIn c v es : nofuel (RewriteInListExpression c v es).
Proof.
  unfold RewriteInListExpression. apply nofuel_bind; [solve_nofuel|]. intros.
  apply nofuel_bind; [apply nofuel_filterR; intros; apply nofuel_compatible|]. solve_nofuel.
Qed.
#[export] Hint Resolve nofuel_StlComparison nofuel_StlArithmetic nofuel_Modulo nofuel_Division
  nofuel_Or nofuel_And nofuel_ToValue nofuel_view_Value nofuel_view_IsNull nofuel_er_Value
  nofuel_er_IsNull nofuel_substr nofuel_Flip nofuel_ResolveBinary nofuel_compatible
  nofuel_get_value nofuel_RewriteIn : nofuel.

Section Termination.
Variable lexical_cast_string : ∀ t, ctype t → string.
Variable try_lexical_convert : ∀ t, string → option (ctype t).
Variable env : Env.

Abbreviation evaluator := (∀ t, expr → result (ExpressionResult t)).
Abbreviation dispatch := (dispatch lexical_cast_string try_lexical_convert env).
Abbreviation eval := (eval lexical_cast_string try_lexical_convert env).

Definition EvaluateExpressionToResult (t : DataType) (e : expr) : result (ExpressionResult t) :=
  eval (weight e) t e.

(** ** The rewrites decrease the weight *)
Lemma weight_Between c v l u : (weight (RewriteBetweenExpression c v l u) < weight (Between c v l u))%nat.
Proof. cbn. lia. Qed.

Lemma weight_chain (neg : bool) v first rest :
  (weight (if neg then chain And_ NotEquals_ v first rest else chain Or_ Equals_ v first rest)
   ≤ list_weight (first :: rest) + (weight v + 1) * length (first :: rest))%nat.
Proof.
  assert (∀ (join cmp : expr → expr → expr) acc,
    (∀ a b, weight (join a b) = S (weight a + weight b)) →
    (∀ a b, weight (cmp a b) = S (weight a + weight b)) →
    weight (foldl (λ acc e, join acc (cmp v e)) acc rest) =
    (weight acc + list_weight rest + (weight v + 1) * length rest)%nat) as H.
  { intros join cmp acc Hj Hc. revert acc.
    induction rest as [|e rest IH]; intros acc; cbn [foldl length].
    - change (list_weight []) with 0%nat. lia.
    - rewrite IH, Hj, Hc, list_weight_cons. lia. }
  unfold chain. rewrite list_weight_cons. cbn [length].
  destruct neg; rewrite H by done; cbn [weight Equals_ NotEquals_]; lia.
Qed.

Lemma filterR_weight f es k : filterR f es = Ok k →
  (list_weight k ≤ list_weight es)%nat ∧ (length k ≤ length es)%nat.
Proof.
  revert k. induction es as [|e es IH]; cbn [filterR]; intros k H; inv_bind; [done|].
  destruct (IH _ Hx0). case_match; cbn [length]; rewrite ?list_weight_cons; lia.
Qed.

Lemma weight_RewriteIn c v es e' :
  RewriteInListExpression c v es = Ok e' →
  (weight e' ≤ list_weight es + (weight v + 1) * length es + 1)%nat.
Proof.
  unfold RewriteInListExpression. intros H. inv_bind.
  apply filterR_weight in Hx0 as [Hw Hl]. destruct x0 as [|first rest]; inv_ok; [cbn; lia|].
  pose proof (weight_chain (IsNegated c) v first rest). nia.
Qed.

(** The elements an IN ranges over. *)
Definition in_elements (set : expr) : list expr :=
  match set with ListExpr es => es | _ => [set] end.

Lemma in_elements_weight c v set :
  (weight v < weight (InExpr c v set))%nat ∧
  ∀ e', (weight e' ≤ list_weight (in_elements set) + (weight v + 1) * length (in_elements set) + 1)%nat →
        (weight e' < weight (InExpr c v set))%nat.
Proof.
  assert (list_weight (in_elements set) ≤ weight set + 1 ∧ length (in_elements set) ≤ weight set)%nat.
  { destruct set; cbn [in_elements length]; try (rewrite list_weight_cons; change (list_weight []) with 0%nat;
      pose proof weight_pos; cbn; lia).
    rewrite weight_ListExpr. pose proof (length_list_weight elements). lia. }
  cbn [weight]. split; [nia|]. intros e' He'. nia.
Qed.

(** ** [dispatch] calls back on lighter expressions only *)
Section Ext.
Context (ev1 ev2 : evaluator).

Definition agree (e : expr) : Prop := ∀ t, ev1 t e = ev2 t e.

Lemma Resolve_ext e : agree e → ResolveToExpressionResult ev1 e = ResolveToExpressionResult ev2 e.
Proof.
  intros H. unfold ResolveToExpressionResult.
  apply bind_ext; intros _ _. apply bind_ext; intros t _. case_match; [done|]. by rewrite H.
Qed.

Lemma Default_ext t s f l r : agree l → agree r →
  EvaluateBinaryWithDefaultNullLogic ev1 t s f l r = EvaluateBinaryWithDefaultNullLogic ev2 t s f l r.
Proof. intros Hl Hr. unfold EvaluateBinaryWithDefaultNullLogic. by rewrite !Resolve_ext. Qed.

Lemma Functor_ext t s f l r : agree l → agree r →
  EvaluateBinaryWithFunctorBasedNullLogic ev1 t s f l r =
  EvaluateBinaryWithFunctorBasedNullLogic ev2 t s f l r.
Proof. intros Hl Hr. unfold EvaluateBinaryWithFunctorBasedNullLogic. by rewrite !Resolve_ext. Qed.

Lemma InList_ext c v es : agree v →
  (∀ e', (weight e' ≤ list_weight es + (weight v + 1) * length es + 1)%nat → agree e') →
  EvaluateInListExpression ev1 c v es = EvaluateInListExpression ev2 c v es.
Proof.
  intros Hv Hes. unfold EvaluateInListExpression. destruct es as [|e es]; [done|].
  apply bind_ext; intros tl _. case_match; [done|].
  apply bind_ext; intros k _. destruct k; [done|].
  rewrite (Resolve_ext v) by done. case_match; [done|].
  apply bind_ext; intros e' He'. apply Hes. by apply weight_RewriteIn in He'.
Qed.

Lemma dispatch_ext t e :
  (∀ e', (weight e' < weight e)%nat → agree e') → dispatch ev1 t e = dispatch ev2 t e.
Proof.
  intros H.
  destruct e; cbn [Evaluator.dispatch]; try done.
  - destruct op; cbn; rewrite ?Default_ext, ?Functor_ext; try done; apply H; cbn; lia.
  - unfold EvaluateCaseExpression.
    rewrite (H e1), (Resolve_ext e2), (Resolve_ext e3); [done|apply H; cbn; lia..|cbn; lia].
  - unfold EvaluateCastExpression. rewrite (Resolve_ext e); [done|apply H; cbn; lia].
  - unfold EvaluateExtractExpression. rewrite (H e); [done|cbn; lia].
  - f_equal. destruct op; cbn; apply Functor_ext; apply H; cbn; lia.
  - f_equal. unfold EvaluatePredicateExpression, EvaluateBinaryPredicateExpression.
    case_match; try done; apply bind_ext; intros ? _; apply bind_ext; intros ? _;
      apply Default_ext; try case_match; apply H; cbn; lia.
  - f_equal. cbn. apply H. apply weight_Between.
  - f_equal. unfold EvaluatePredicateExpression, EvaluateInExpression.
    destruct (in_elements_weight c e1 e2) as [Hv Hes].
    case_match; apply InList_ext; try (by apply H); intros e' He'; apply H, Hes, He'.
  - f_equal. unfold EvaluatePredicateExpression, EvaluateIsNullExpression.
    rewrite (Resolve_ext e); [done|apply H; cbn; lia].
  - unfold EvaluateUnaryMinusExpression. rewrite (Resolve_ext e); [done|apply H; cbn; lia].
Qed.
End Ext.

Lemma eval_fuel n m t e : (weight e ≤ n)%nat → (weight e ≤ m)%nat → eval n t e = eval m t e.
Proof.
  revert m t e. induction n as [|n IH]; intros m t e Hn Hm; [pose proof (weight_pos e); lia|].
  destruct m as [|m]; [pose proof (weight_pos e); lia|]. cbn.
  apply dispatch_ext. intros e' He' t'. apply IH; lia.
Qed.

Lemma EvaluateExpressionToResult_unfold t e :
  EvaluateExpressionToResult t e = dispatch EvaluateExpressionToResult t e.
Proof.
  unfold EvaluateExpressionToResult at 1. destruct (weight e) as [|n] eqn:Hw;
    [pose proof (weight_pos e); lia|]. cbn.
  apply dispatch_ext. intros e' He' t'. unfold EvaluateExpressionToResult. apply eval_fuel; lia.
Qed.

(** ** [dispatch] does not run out of fuel by itself *)
Section NoFuel.
Context (ev : evaluator).

Lemma nofuel_Resolve e : (∀ t, nofuel (ev t e)) → nofuel (ResolveToExpressionResult ev e).
Proof. unfold ResolveToExpressionResult. solve_nofuel. Qed.

Lemma nofuel_Default t s f l r :
  (∀ ta tb a b, nofuel (f ta tb a b)) →
  (∀ t, nofuel (ev t l)) → (∀ t, nofuel (ev t r)) →
  nofuel (EvaluateBinaryWithDefaultNullLogic ev t s f l r).
Proof.
  intros. unfold EvaluateBinaryWithDefaultNullLogic.
  apply nofuel_bind; [by apply nofuel_Resolve|]. intros [].
  apply nofuel_bind; [by apply nofuel_Resolve|]. intros []. solve_nofuel.
Qed.

Lemma nofuel_Functor t s f l r :
  (∀ ta tb a an b bn, nofuel (f ta tb a an b bn)) →
  (∀ t, nofuel (ev t l)) → (∀ t, nofuel (ev t r)) →
  nofuel (EvaluateBinaryWithFunctorBasedNullLogic ev t s f l r).
Proof.
  intros. unfold EvaluateBinaryWithFunctorBasedNullLogic.
  apply nofuel_bind; [by apply nofuel_Resolve|]. intros [].
  apply nofuel_bind; [by apply nofuel_Resolve|]. intros []. solve_nofuel.
Qed.

Lemma nofuel_cast_value t ta v :
  nofuel (cast_value lexical_cast_string try_lexical_convert t ta v).
Proof. unfold cast_value. destruct t, ta; cbn; solve_nofuel. Qed.

Lemma nofuel_bool_only t m : nofuel m → nofuel (bool_only t m).
Proof. by destruct t. Qed.
Lemma nofuel_string_only t m : nofuel m → nofuel (string_only t m).
Proof. by destruct t. Qed.

Lemma nofuel_Column t id : nofuel (EvaluateColumnExpression env t id).
Proof.
  unfold EvaluateColumnExpression, vec_atN, MaterializeSegment, ColumnIsNullable. solve_nofuel.
Qed.

Lemma nofuel_Substr o c r : nofuel (EvaluateExtractSubstr o c r).
Proof. unfold EvaluateExtractSubstr. solve_nofuel. Qed.

Lemma nofuel_InList c v es : (∀ t, nofuel (ev t v)) →
  (∀ e' t, (weight e' ≤ list_weight es + (weight v + 1) * length es + 1)%nat → nofuel (ev t e')) →
  nofuel (EvaluateInListExpression ev c v es).
Proof.
  intros Hv Hes. unfold EvaluateInListExpression. destruct es as [|e es]; [done|].
  apply nofuel_bind; [solve_nofuel|]. intros tl. case_match; [done|].
  apply nofuel_bind; [apply nofuel_filterR; solve_nofuel|]. intros [|k ks]; [done|].
  case_match.
  - apply nofuel_bind; [by apply nofuel_Resolve|]. intros []. solve_nofuel.
  - destruct (RewriteInListExpression c v (e :: es)) as [e'|err] eqn:He; cbn.
    + apply Hes. by apply weight_RewriteIn in He.
    + intros [= ->]. by apply (nofuel_RewriteIn c v (e :: es)).
Qed.

Lemma nofuel_dispatch t e :
  (∀ e' t', (weight e' < weight e)%nat → nofuel (ev t' e')) → nofuel (dispatch ev t e).
Proof.
  intros H. destruct e; cbn [Evaluator.dispatch]; try done.
  - destruct op; cbn; (apply nofuel_Default || apply nofuel_Functor); intros;
      try (apply H; cbn; lia); solve_nofuel.
  - unfold EvaluateCaseExpression. apply nofuel_bind; [apply H; cbn; lia|]. intros w.
    apply nofuel_bind; [apply nofuel_Resolve; intros; apply H; cbn; lia|]. intros [].
    apply nofuel_bind; [apply nofuel_Resolve; intros; apply H; cbn; lia|]. intros []. solve_nofuel.
  - unfold EvaluateCastExpression.
    apply nofuel_bind; [apply nofuel_Resolve; intros; apply H; cbn; lia|]. intros [].
    apply nofuel_bind; [|done]. apply nofuel_mapR. intros.
    apply nofuel_bind; [solve_nofuel|]. intros. apply nofuel_cast_value.
  - apply nofuel_string_only. unfold EvaluateExtractExpression.
    apply nofuel_bind; [apply H; cbn; lia|]. intros r. destruct component; try done; apply nofuel_Substr.
  - apply nofuel_bool_only. destruct op; cbn; apply nofuel_Functor; intros;
      try (apply H; cbn; lia); done.
  - apply nofuel_Column.
  - apply nofuel_bool_only. unfold EvaluatePredicateExpression, EvaluateBinaryPredicateExpression.
    case_match; try done; apply nofuel_bind; try solve_nofuel; intros;
      destruct (ResolveBinaryPredicateEvaluator _) eqn:Hr; cbn;
      try (intros [= ->]; by eapply nofuel_ResolveBinary);
      (assert (∃ c', a0 = StlComparison c') as [c' ->]
         by (unfold ResolveBinaryPredicateEvaluator in Hr; case_match; try done; naive_solver));
      apply nofuel_Default; intros; try (try case_match; apply H; cbn; lia); solve_nofuel.
  - apply nofuel_bool_only. cbn. apply H. apply weight_Between.
  - apply nofuel_bool_only. unfold EvaluatePredicateExpression, EvaluateInExpression.
    destruct (in_elements_weight c e1 e2) as [Hv Hes].
    case_match; apply nofuel_InList; intros; try (by apply H); by apply H, Hes.
  - apply nofuel_bool_only. unfold EvaluatePredicateExpression, EvaluateIsNullExpression.
    apply nofuel_bind; [apply nofuel_Resolve; intros; apply H; cbn; lia|]. intros []. solve_nofuel.
  - unfold EvaluateUnaryMinusExpression.
    apply nofuel_bind; [apply nofuel_Resolve; intros; apply H; cbn; lia|]. intros []. solve_nofuel.
  - unfold EvaluateValueExpression. solve_nofuel.
Qed.
End NoFuel.

Lemma eval_nofuel n t e : (weight e ≤ n)%nat → nofuel (eval n t e).
Proof.
  revert t e. induction n as [|n IH]; intros t e Hn; [pose proof (weight_pos e); lia|]. cbn.
  apply nofuel_dispatch. intros e' t' He'. apply IH. lia.
Qed.
End Termination.

(** C2: The recursion of the evaluator terminates although it runs through expressions that
    it builds itself: with the fuel [weight e] the result of every expression satisfies the
    code's recursive equation and is never the fuel error, and more fuel changes nothing. *)
Theorem EvaluateExpressionToResult_terminates lexical_cast_string try_lexical_convert env t e :
  let E := EvaluateExpressionToResult lexical_cast_string try_lexical_convert env in
  E t e = dispatch lexical_cast_string try_lexical_convert env E t e ∧ E t e ≠ Err OutOfFuel ∧
  ∀ fuel, (weight e ≤ fuel)%nat → eval lexical_cast_string try_lexical_convert env fuel t e = E t e.
Proof.
  split; [apply EvaluateExpressionToResult_unfold|]. split; [by apply eval_nofuel|].
  intros fuel Hf. by apply eval_fuel.
Qed.
