(* ===== verification/RowSemantics.v ===== *)
(** * Row-wise meaning of expressions

    What an expression means for one row, with SQL's three-valued logic: [sem row e t] is the
    value of [e] as type [t] ([None] is NULL), given the row's column values.  It shares the
    scalar functors with the evaluator, but none of its vectors, views, NULL vectors,
    flipping or rewriting: comparisons are taken as written, AND / OR are Kleene's, BETWEEN
    is the conjunction of two comparisons and IN is a finite disjunction.
    [EvaluatorCorrect] shows that the vectorised evaluator computes this meaning. *)

From S2P Require Export Evaluator.

Definition AnyCell : Set := { t : DataType & option (ctype t) }.
Definition any_cell {t} (c : option (ctype t)) : AnyCell := existT t c.

Definition variant_cell (t : DataType) (v : AllTypeVariant) : result (option (ctype t)) :=
  if VariantIsNull v then Ok None else x ← variant_get t v; Ok (Some x).

(** NULL in, NULL out. *)
Definition null_strict {A B C : Type} (f : A → B → result C) (a : option A) (b : option B)
    : result (option C) :=
  match a, b with Some x, Some y => z ← f x y; Ok (Some z) | _, _ => Ok None end.

Definition flagged {A} (p : A * bool) : option A := if p.2 then None else Some p.1.

(** Division and modulo by zero are NULL. *)
Definition null_on_zero {A B C : Type} (f : A → bool → B → bool → result (C * bool))
    (a : option A) (b : option B) : result (option C) :=
  match a, b with Some x, Some y => p ← f x false y false; Ok (flagged p) | _, _ => Ok None end.

Definition sem_arith (op : ArithmeticOperator) (t : DataType) (a b : AnyCell) : result (option (ctype t)) :=
  let 'existT ta x := a in
  let 'existT tb y := b in
  if SupportsArithmetic t ta tb then
    match op with
    | kAddition => null_strict (StlArithmetic op_plus t ta tb) x y
    | kSubtraction => null_strict (StlArithmetic op_minus t ta tb) x y
    | kMultiplication => null_strict (StlArithmetic op_mult t ta tb) x y
    | kDivision => null_on_zero (DivisionEvaluator t ta tb) x y
    | kModulo => null_on_zero (ModuloEvaluator t ta tb) x y
    end
  else Err AssertionFailed.

Definition truth (a : AnyCell) : option bool := let 'existT ta x := a in ToBool ta <$> x.

Definition kleene (op : LogicalOperator) : option bool → option bool → option bool :=
  match op with kAnd => kleene_and | kOr => kleene_or end.

Definition sem_logical (op : LogicalOperator) (a b : AnyCell) : result (option Z) :=
  if SupportsLogical kInt (projT1 a) (projT1 b)
  then Ok (bool_to_int <$> kleene op (truth a) (truth b))
  else Err AssertionFailed.

Definition sem_compare (c : PredicateCondition) (a b : AnyCell) : result (option Z) :=
  let 'existT ta x := a in
  let 'existT tb y := b in
  if SupportsComparison kInt ta tb then null_strict (StlComparison c ta tb) x y
  else Err AssertionFailed.

Definition sem_case (t : DataType) (w : option Z) (a b : AnyCell) : result (option (ctype t)) :=
  let 'existT ta x := a in
  let 'existT tb y := b in
  if SupportsCase t ta tb then
    if from_option (λ z, negb (z =? 0)) false w
    then match x with Some v => v' ← ToValue t ta v; Ok (Some v') | None => Ok None end
    else match y with Some v => v' ← ToValue t tb v; Ok (Some v') | None => Ok None end
  else Err AssertionFailed.

Definition sem_extract (c : DatetimeComponent) (s : option string) : result (option string) :=
  let part o n := match s with Some s' => p ← cpp_substr s' o n; Ok (Some p) | None => Ok None end in
  match c with
  | kYear => part 0%nat 4%nat
  | kMonth => part 5%nat 2%nat
  | kDay => part 8%nat 2%nat
  | _ => Err AssertionFailed
  end.

Definition bool_cell (t : DataType) : result (option Z) → result (option (ctype t)) :=
  match t with kInt => λ c, c | _ => λ _, Err AssertionFailed end.
Definition string_cell (t : DataType) : result (option string) → result (option (ctype t)) :=
  match t with kString => λ c, c | _ => λ _, Err AssertionFailed end.

(** The value of a subexpression at its own type. *)
Definition resolve_cell (e : expr) (s : ∀ t, result (option (ctype t))) : result AnyCell :=
  t ← GetDataType e;
  if decide (t = kNull) then Ok (any_cell (t := kNull) None)
  else c ← s t; Ok (any_cell c).

Definition between_lower (c : PredicateCondition) : PredicateCondition :=
  if IsLowerInclusiveBetween c then kGreaterThanEquals else kGreaterThan.
Definition between_upper (c : PredicateCondition) : PredicateCondition :=
  if IsUpperInclusiveBetween c then kLessThanEquals else kLessThan.

Section Sem.
Variable lexical_cast_string : ∀ t, ctype t → string.
Variable try_lexical_convert : ∀ t, string → option (ctype t).

(** [a IN (x, y)] is [a = x OR a = y] and [a NOT IN (x, y)] is [a != x AND a != y], over
    the elements whose type is comparable with [a]. *)
Definition sem_in (c : PredicateCondition) (value : expr) (s : ∀ t, result (option (ctype t)))
    (elements : list (expr * (∀ t, result (option (ctype t))))) : result (option Z) :=
  let negated := IsNegated c in
  match elements with
  | [] => Ok (Some (bool_to_int negated))
  | _ =>
    tl ← GetDataType value;
    if decide (tl = kNull) then Ok None else
    type_compatible ← filterR (λ p, compatible (is_string tl) p.1) elements;
    match type_compatible with
    | [] => Ok (Some (bool_to_int negated))
    | _ =>
      a ← resolve_cell value s;
      truth_value ← foldR (λ acc p,
        b ← resolve_cell p.1 p.2;
        m ← sem_compare (if negated then kNotEquals else kEquals) a b;
        Ok (kleene (if negated then kAnd else kOr) acc (truth (any_cell (t := kInt) m))))
        (Some negated) type_compatible;
      Ok (bool_to_int <$> truth_value)
    end
  end.

Fixpoint sem (row : ColumnId → result AllTypeVariant) (e : expr) (t : DataType) {struct e}
    : result (option (ctype t)) :=
  match e with
  | Value v => variant_cell t v
  | PqpColumn id _ _ _ => v ← row id; variant_cell t v
  | Arithmetic op l r =>
      a ← resolve_cell l (sem row l); b ← resolve_cell r (sem row r); sem_arith op t a b
  | Case w th o =>
      c ← sem row w kInt;
      a ← resolve_cell th (sem row th); b ← resolve_cell o (sem row o);
      sem_case t c a b
  | Cast arg _ =>
      a ← resolve_cell arg (sem row arg);
      let 'existT ta x := a in
      match x with
      | Some v => x' ← cast_value lexical_cast_string try_lexical_convert t ta v; Ok (Some x')
      | None => Ok None
      end
  | Extract c from => string_cell t (s ← sem row from kString; sem_extract c s)
  | Logical op l r =>
      bool_cell t (a ← resolve_cell l (sem row l); b ← resolve_cell r (sem row r); sem_logical op a b)
  | BinaryPredicate c l r =>
      bool_cell t (
        if IsBinaryNumericPredicateCondition c then
          a ← resolve_cell l (sem row l); b ← resolve_cell r (sem row r); sem_compare c a b
        else Err AssertionFailed)
  | Between c v l u =>
      bool_cell t (
        a ← resolve_cell v (sem row v);
        b ← resolve_cell l (sem row l);
        m ← sem_compare (between_lower c) a b;
        d ← resolve_cell u (sem row u);
        n ← sem_compare (between_upper c) a d;
        Ok (bool_to_int <$> kleene_and (truth (any_cell (t := kInt) m)) (truth (any_cell (t := kInt) n))))
  | InExpr c v s =>
      bool_cell t (sem_in c v (sem row v)
        match s with
        | ListExpr es => map (λ x, (x, sem row x)) es
        | _ => [(s, sem row s)]
        end)
  | IsNullExpr c a =>
      bool_cell t (
        x ← resolve_cell a (sem row a);
        let null := negb (bool_decide (is_Some (projT2 x))) in
        Ok (Some (bool_to_int (if bool_decide (c = kIsNull) then null else negb null))))
  | UnaryMinus a =>
      dt ← GetDataType a;
      if decide (dt = t) then
        if decide (t = kNull ∨ t = kString) then Err AssertionFailed else
        x ← sem row a t;
        match x with Some v => v' ← negate t v; Ok (Some v') | None => Ok None end
      else Err AssertionFailed
  | Aggregate _ _ | StringAgg _ _ | ListExpr _ => Err AssertionFailed
  end.
End Sem.

(** The row of a table: the stored NULL flags count where the column is nullable. *)
Definition row_of (env : Env) (i : nat) (id : ColumnId) : result AllTypeVariant :=
  tc ← of_option (env_table env) AssertionFailed;
  let '(table, chunk) := tc in
  segment ← vec_atN chunk id;
  nullable ← ColumnIsNullable table (N.to_nat id);
  null ← (if (nullable : bool) then seg_null_at segment i else Ok false);
  if (null : bool) then Ok VNull
  else v ← vec_get (seg_values segment) i; Ok (to_variant (seg_type segment) v).

(** ** The scalar comparisons may be flipped *)

From Stdlib Require Import SpecFloat.

Lemma SFcompare_antisym x y : SFcompare y x = CompOpp <$> SFcompare x y.
Proof.
  destruct x as [[]|[]| |[] mx ex], y as [[]|[]| |[] my ey]; cbn; try done;
    rewrite (Z.compare_antisym ex ey); destruct (ex ?= ey); cbn; try done;
    change (Pos.compare_cont Eq ?a ?b) with (Pos.compare a b);
    rewrite (Pos.compare_antisym mx my); by destruct (mx ?= my)%positive.
Qed.

Lemma compare_antisym t (x y : ctype t) : compare t y x = CompOpp <$> compare t x y.
Proof.
  destruct t; cbn; [done|f_equal; apply Z.compare_antisym..| | |f_equal; apply String.compare_antisym];
    apply SFcompare_antisym.
Qed.

Lemma common_type_comm a b : common_type a b = common_type b a.
Proof. by destruct a, b. Qed.

Lemma StlComparison_flip c c' ta tb x y z :
  FlipPredicateCondition c = Ok c' →
  StlComparison c' tb ta y x = Ok z → StlComparison c ta tb x y = Ok z.
Proof.
  intros Hc H. unfold StlComparison in *. rewrite (orb_comm (is_null_type ta)).
  case_match; [done|]. rewrite (common_type_comm ta tb). inv_bind.
  rewrite Hx0. cbn. rewrite Hx. cbn. do 2 f_equal.
  rewrite (compare_antisym _ x1 x0). symmetry. by apply flip_holds.
Qed.

Lemma SupportsComparison_comm a b : SupportsComparison kInt a b = SupportsComparison kInt b a.
Proof. by destruct a, b. Qed.
