(* ===== verification/EvaluatorCorrect.v ===== *)
(** * The vectorised evaluator computes the row-wise meaning

    For a chunk of [n] rows that fits its table, every result of [EvaluateExpressionToResult]
    has a legal shape ([shape]) and its cell for row [i] is the meaning [sem] of the
    expression on row [i].  The induction follows [weight], so the BETWEEN and IN rewrites
    are verified along the way. *)

From Stdlib Require Import Eqdep_dec.
From S2P Require Export EvaluatorTermination RowSemantics.

(** Injectivity of run-time typed results, from the decidability of data types. *)
Lemma any_inj (P : DataType → Set) t (x y : P t) : existT t x = existT t y → x = y.
Proof. apply (Eqdep_dec.inj_pair2_eq_dec _ DataType_eq_dec). Qed.

Ltac inj_any :=
  repeat match goal with
  | H : existT ?t _ = existT ?t _ |- _ => apply any_inj in H; subst
  | H : existT ?t _ = existT ?t' _ |- _ =>
      let Ht := fresh in assert (t' = t) as Ht by (symmetry; exact (f_equal projT1 H)); subst
  end.

(** ** Cells of a result *)
Definition null_at (nulls : list bool) (i : nat) : bool :=
  from_option id false (nulls !! Nat.min i (length nulls - 1)).

Definition cell {t} (r : ExpressionResult t) (i : nat) : result (option (ctype t)) :=
  null ← er_IsNull r i; if (null : bool) then Ok None else v ← er_Value r i; Ok (Some v).

(** One value or one per row; no NULL flag, one, or one per value. *)
Definition shape (n : nat) {t} (r : ExpressionResult t) : Prop :=
  (er_size r = 1 ∨ er_size r = n)%nat ∧
  (length (er_nulls r) ≤ 1 ∨ length (er_nulls r) = er_size r)%nat.

Lemma er_IsNull_null_at {t} (r : ExpressionResult t) i : er_IsNull r i = Ok (null_at (er_nulls r) i).
Proof.
  unfold er_IsNull, er_IsNullable, null_at. destruct (er_nulls r) as [|b l] eqn:Hn; [done|].
  rewrite bool_decide_false by done. cbn [negb]. unfold vec_get.
  destruct (lookup_lt_is_Some_2 (b :: l) (Nat.min i (length (b :: l) - 1))) as [c Hc]; [cbn; lia|].
  by rewrite Hc.
Qed.

Lemma cell_flagged {t} (vs : list (ctype t)) ns i :
  cell (mkExpressionResult vs ns) i =
  if null_at ns i then Ok None else v ← vec_get vs (Nat.min i (length vs - 1)); Ok (Some v).
Proof. unfold cell. by rewrite er_IsNull_null_at. Qed.

Lemma shape_value n {t} (r : ExpressionResult t) i :
  shape n r → (i < n)%nat → ∃ v, er_Value r i = Ok v.
Proof.
  intros [Hs _] Hi. unfold er_Value, vec_get, er_size in *.
  destruct (lookup_lt_is_Some_2 (er_values r) (Nat.min i (length (er_values r) - 1))) as [v Hv]; [lia|].
  exists v. by rewrite Hv.
Qed.

Lemma ResultSize_cases n a b :
  (N.of_nat n < 2 ^ 32)%N → (a = 1 ∨ a = n)%nat → (b = 1 ∨ b = n)%nat →
  ((a = 0 ∨ b = 0) ∧ ResultSize [a; b] = 0 ∨ a ≠ 0 ∧ b ≠ 0 ∧ ResultSize [a; b] = Nat.max a b)%nat.
Proof.
  intros Hn Ha Hb. unfold ResultSize. cbn [existsb].
  destruct a as [|a]; [left; split; [by left|done]|].
  destruct b as [|b]; [left; split; [by right|done]|].
  right. cbn. split; [done|]. split; [done|]. rewrite u32_id; lia.
Qed.

Lemma for_range_ok {A} m (f : nat → result A) l :
  for_range m f = Ok l → length l = m ∧ ∀ j, (j < m)%nat → ∃ a, l !! j = Some a ∧ f j = Ok a.
Proof.
  unfold for_range. intros H. split.
  - by rewrite (mapR_ok_length _ _ _ H), length_seq.
  - intros j Hj. eapply mapR_ok_lookup; [done|]. by rewrite lookup_seq_lt.
Qed.

Lemma null_at_zip L R i :
  (length L ≤ 1 ∨ length R ≤ 1 ∨ length L = length R)%nat →
  null_at (EvaluateDefaultNullLogic L R) i = null_at L i || null_at R i.
Proof.
  unfold EvaluateDefaultNullLogic. intros Hl. case_bool_decide as Heq.
  - unfold null_at. rewrite length_zip_with, <- Heq, Nat.min_id, lookup_zip_with.
    destruct (L !! _) as [x|] eqn:Hx, (R !! _) as [y|] eqn:Hy; cbn; try done; exfalso.
    + apply lookup_lt_Some in Hx. apply lookup_ge_None in Hy. lia.
    + apply lookup_lt_Some in Hy. apply lookup_ge_None in Hx. lia.
  - assert (∀ l, null_at [] l = false) as H0 by done.
    assert (∀ b l, null_at [b] l = b) as H1 by (intros b l; unfold null_at; by rewrite Nat.min_0_r).
    case_bool_decide.
    + destruct R as [|y [|? ?]]; [by rewrite H0, orb_false_r| |cbn in *; lia].
      destruct y; rewrite ?H1, ?orb_true_r, ?orb_false_r; done.
    + destruct L as [|y [|? ?]]; [by rewrite H0| |cbn in *; lia].
      destruct y; rewrite ?H1; done.
Qed.

(** ** Views *)
Lemma view_cell n {t} (r : ExpressionResult t) i :
  shape n r → (i < n)%nat →
  (view_Size (AsView r) = 1 ∨ view_Size (AsView r) = n)%nat ∧
  ∀ b v, let j := Nat.min i (view_Size (AsView r) - 1) in
    view_IsNull (AsView r) j = Ok b → view_Value (AsView r) j = Ok v →
    cell r i = Ok (flagged (v, b)).
Proof.
  intros [Hs Hn] Hi. unfold cell. rewrite er_IsNull_null_at. cbn [rbind].
  unfold AsView, er_Value, er_size, null_at, flagged, vec_get in *.
  destruct r as [vs ns]; cbn [er_values er_nulls fst snd] in *.
  destruct vs as [|x [|y vs]].
  - cbn in *. lia.
  - destruct ns as [|m ns]; cbn [view_Size view_IsNull view_Value]; (split; [by left|]).
    + intros b v [= <-] [= <-]. cbn. by rewrite Nat.min_0_r.
    + intros b v [= <-] [= <-]. destruct ns; [|cbn in *; lia].
      cbn. rewrite !Nat.min_0_r. cbn. by destruct m.
  - destruct ns as [|b0 [|m' ns]].
    + cbn [view_Size view_IsNull view_Value]. split; [by destruct Hs; [cbn in *; lia|right]|].
      intros b v [= <-] Hv. unfold vec_get in Hv. apply of_option_ok in Hv. by rewrite Hv.
    + destruct b0; cbn [view_Size view_IsNull view_Value].
      * split; [by left|]. intros b v [= <-] [= <-]. by rewrite Nat.min_0_r.
      * split; [by destruct Hs; [cbn in *; lia|right]|]. intros b v Hb Hv.
        unfold vec_get in Hb, Hv. apply of_option_ok in Hb, Hv.
        pose proof (lookup_lt_Some _ _ _ Hb) as Hlt. cbn in Hlt.
        assert (i = 0%nat) as -> by lia. rewrite Hv. cbn in *. by simplify_eq.
    + assert (view_Size (AsView (mkExpressionResult (x :: y :: vs) (b0 :: m' :: ns)))
              = length (x :: y :: vs)) as Hsz by (by destruct b0).
      assert (length (b0 :: m' :: ns) = length (x :: y :: vs)) as Hl by (cbn in *; lia).
      unfold AsView in Hsz. cbn [er_values er_nulls] in Hsz. rewrite Hsz.
      split; [by destruct Hs; [cbn in *; lia|right]|]. intros b v Hb Hv. rewrite Hl.
      assert ((b0 :: m' :: ns) !! Nat.min i (length (x :: y :: vs) - 1) = Some b) as Hb'
        by (apply (of_option_ok _ UndefinedBehaviour); by destruct b0).
      assert ((x :: y :: vs) !! Nat.min i (length (x :: y :: vs) - 1) = Some v) as Hv'
        by (apply (of_option_ok _ UndefinedBehaviour); by destruct b0).
      rewrite Hb', Hv'. by destruct b.
Qed.

(** The NULL flag alone. *)
Lemma view_null n {t} (r : ExpressionResult t) i b :
  shape n r → (i < n)%nat →
  view_IsNull (AsView r) (Nat.min i (view_Size (AsView r) - 1)) = Ok b → null_at (er_nulls r) i = b.
Proof.
  intros [Hs Hn] Hi. unfold AsView, er_size, null_at in *.
  destruct r as [vs ns]; cbn [er_values er_nulls] in *.
  destruct vs as [|x [|y vs]]; [cbn in *; lia| |].
  - destruct ns as [|m [|? ?]]; cbn [view_IsNull]; [by intros [= <-]| |cbn in *; lia].
    intros [= <-]. by rewrite Nat.min_0_r.
  - destruct ns as [|b0 [|m' ns]]; [by intros [= <-]| |].
    + destruct b0; cbn [view_IsNull view_Size]; [intros [= <-]; by rewrite Nat.min_0_r|].
      unfold vec_get. intros Hb%of_option_ok. pose proof (lookup_lt_Some _ _ _ Hb) as Hlt. cbn in Hlt.
      assert (i = 0%nat) as -> by lia. cbn in *. by simplify_eq.
    + assert (length (b0 :: m' :: ns) = length (x :: y :: vs)) as Hl by (cbn in *; lia).
      rewrite Hl. destruct b0; cbn [view_IsNull view_Size]; unfold vec_get;
        intros Hb%of_option_ok; by rewrite Hb.
Qed.

(** A result of size one has the same cell for every row. *)
Lemma vec_get_min {A} (l : list A) i v :
  vec_get l i = Ok v → vec_get l (Nat.min i (length l - 1)) = Ok v.
Proof.
  unfold vec_get. intros H%of_option_ok. pose proof (lookup_lt_Some _ _ _ H).
  rewrite Nat.min_l by lia. by rewrite H.
Qed.

(** ** Binary operators *)
Section Binary.
Variable n : nat.
Hypothesis n_bound : (N.of_nat n < 2 ^ 32)%N.

Lemma default_null_cells {ta tb t} (f : ctype ta → ctype tb → result (ctype t))
    (l : ExpressionResult ta) (r : ExpressionResult tb) values :
  shape n l → shape n r →
  let same := eqb (er_IsLiteral l) (er_IsLiteral r) in
  for_range (ResultSize [er_size l; er_size r]) (λ i,
    a ← vec_get (er_values l) (if same || er_IsLiteral r then i else 0%nat);
    b ← vec_get (er_values r) (if same || negb (er_IsLiteral r) then i else 0%nat);
    f a b) = Ok values →
  let out := mkExpressionResult values (EvaluateDefaultNullLogic (er_nulls l) (er_nulls r)) in
  shape n out ∧
  ∀ i, (i < n)%nat → ∃ x y, cell l i = Ok x ∧ cell r i = Ok y ∧ cell out i = null_strict f x y.
Proof.
  intros [Hl Hln] [Hr Hrn] same [Hlen Hval]%for_range_ok out.
  destruct (ResultSize_cases n (er_size l) (er_size r)) as [[H0 Hm]|(Hl0 & Hr0 & Hm)]; try done.
  - split; [|intros i Hi; lia].
    unfold shape, out, er_size in *. cbn. rewrite Hlen, Hm. split; [lia|].
    unfold EvaluateDefaultNullLogic. repeat case_bool_decide; repeat case_match; cbn in *;
      rewrite ?length_zip_with; cbn; try lia.
  - assert (er_size out = Nat.max (er_size l) (er_size r)) as Hout.
    { unfold out, er_size at 1. cbn [er_values]. by rewrite Hlen, Hm. }
    split.
    + split; [lia|]. rewrite Hout. unfold out, EvaluateDefaultNullLogic. cbn [er_nulls].
      repeat case_bool_decide; repeat case_match; rewrite ?length_zip_with; cbn [length] in *; lia.
    + intros i Hi. unfold cell at 1 2. rewrite !er_IsNull_null_at. cbn [rbind].
      unfold out. rewrite cell_flagged, null_at_zip by lia.
      destruct (Hval (Nat.min i (length values - 1))) as (z & Hz & Hf); [unfold out, er_size in *; cbn in *; lia|].
      inv_bind. unfold er_Value. unfold same, er_IsLiteral in *.
      assert (vec_get (er_values l) (Nat.min i (length (er_values l) - 1)) = Ok x) as Hxl.
      { unfold vec_get. apply of_option_ok. rewrite <- Hx. f_equal. unfold er_size in *.
        destruct (er_values l) as [|? [|]], (er_values r) as [|? [|]]; cbn in *; try lia;
          repeat case_bool_decide; cbn; lia. }
      assert (vec_get (er_values r) (Nat.min i (length (er_values r) - 1)) = Ok x0) as Hxr.
      { unfold vec_get. apply of_option_ok. rewrite <- Hx0. f_equal. unfold er_size in *.
        destruct (er_values l) as [|? [|]], (er_values r) as [|? [|]]; cbn in *; try lia;
          repeat case_bool_decide; cbn; lia. }
      rewrite Hxl, Hxr. cbn [rbind].
      exists (if null_at (er_nulls l) i then None else Some x), (if null_at (er_nulls r) i then None else Some x0).
      destruct (null_at (er_nulls l) i), (null_at (er_nulls r) i); cbn; try done.
      rewrite Hf. cbn. unfold vec_get. by rewrite Hz.
Qed.

(** A view of size one is a literal. *)
Lemma view_const {t} (r : ExpressionResult t) i j :
  view_Size (AsView r) = 1%nat →
  view_Value (AsView r) i = view_Value (AsView r) j ∧ view_IsNull (AsView r) i = view_IsNull (AsView r) j.
Proof.
  destruct (AsView r) as [vs ns|vs|v b] eqn:HV; cbn; [| |done]; intros H1;
    exfalso; unfold AsView in HV; repeat case_match; simplify_eq; cbn in *; lia.
Qed.

Lemma view_cell' {t} (r : ExpressionResult t) m i b v :
  shape n r → (i < n)%nat → (view_Size (AsView r) = m ∨ view_Size (AsView r) = 1)%nat →
  view_IsNull (AsView r) (Nat.min i (m - 1)) = Ok b →
  view_Value (AsView r) (Nat.min i (m - 1)) = Ok v →
  cell r i = Ok (flagged (v, b)).
Proof.
  intros Hr Hi Hm Hb Hv. apply (view_cell n r i Hr Hi); destruct Hm as [->|H1]; try done.
  - rewrite <- Hb. by apply view_const.
  - rewrite <- Hv. by apply view_const.
Qed.

Lemma functor_null_cells {ta tb t} (f : ctype ta → bool → ctype tb → bool → result (ctype t * bool))
    (l : ExpressionResult ta) (r : ExpressionResult tb) cells :
  shape n l → shape n r →
  for_range (ResultSize [view_Size (AsView l); view_Size (AsView r)]) (λ i,
    a ← view_Value (AsView l) i; an ← view_IsNull (AsView l) i;
    b ← view_Value (AsView r) i; bn ← view_IsNull (AsView r) i;
    f a an b bn) = Ok cells →
  let out := mkExpressionResult cells.*1 cells.*2 in
  shape n out ∧
  ∀ i, (i < n)%nat → ∃ a an b bn v, cell l i = Ok (flagged (a, an)) ∧ cell r i = Ok (flagged (b, bn)) ∧
    f a an b bn = Ok v ∧ cell out i = Ok (flagged v).
Proof.
  intros Hl Hr [Hlen Hval]%for_range_ok out.
  assert (∀ i, (i < n)%nat → (length cells = 1 ∨ length cells = n)%nat ∧
    ∃ a an b bn v, cell l i = Ok (flagged (a, an)) ∧ cell r i = Ok (flagged (b, bn)) ∧
      f a an b bn = Ok v ∧ cells !! Nat.min i (length cells - 1) = Some v) as Hmain.
  { intros i Hi. destruct (view_cell n l i Hl Hi) as [Hls _], (view_cell n r i Hr Hi) as [Hrs _].
    destruct (ResultSize_cases n _ _ n_bound Hls Hrs) as [[? ?]|(Hl0 & Hr0 & Hm)]; [lia|].
    rewrite Hm in Hlen. split; [lia|].
    destruct (Hval (Nat.min i (length cells - 1))) as (v & Hv & Hf); [lia|].
    repeat (apply bind_ok in Hf as (? & ? & Hf)). eexists _, _, _, _, v.
    split; [eapply view_cell'; [done|done| |done|done]; lia|].
    split; [eapply view_cell'; [done|done| |done|done]; lia|]. done. }
  split.
  - unfold shape, out, er_size. cbn [er_values er_nulls]. rewrite !length_fmap. split; [|lia].
    destruct (decide (n = 0%nat)) as [->|H0]; [|destruct (Hmain 0%nat) as [? _]; lia].
    destruct Hl as [Hl _], Hr as [Hr _]. rewrite Hlen. clear -Hl Hr n_bound.
    assert (∀ t (r : ExpressionResult t), er_size r = 1 ∨ er_size r = 0 →
      view_Size (AsView r) = 1 ∨ view_Size (AsView r) = 0)%nat as Hv.
    { intros t' [[|? [|]] [|[] [|]]] H; cbn in *; lia. }
    destruct (ResultSize_cases 0 _ _ n_bound (Hv _ _ Hl) (Hv _ _ Hr)) as [[? ?]|(? & ? & ?)];
      destruct (Hv _ _ Hl), (Hv _ _ Hr); lia.
  - intros i Hi. destruct (Hmain i Hi) as [_ (a & an & b & bn & v & Ha & Hb & Hf & Hv)].
    exists a, an, b, bn, v. split; [done|]. split; [done|]. split; [done|].
    unfold out. rewrite cell_flagged. unfold null_at, vec_get.
    rewrite !length_fmap, !list_lookup_fmap, Hv. cbn. by destruct v as [? []].
Qed.
End Binary.

(** ** The refinement *)

(** The evaluator works on a chunk of [n] rows that fits its table, or without a table. *)
Definition wf_env (env : Env) (n : nat) : Prop :=
  match env_table env with
  | Some (table, chunk) => wf_chunk (column_definitions table) n chunk
  | None => n = 1%nat
  end.

Lemma wf_env_bound env n : wf_env env n → (N.of_nat n < 2 ^ 32)%N.
Proof.
  unfold wf_env. destruct (env_table env) as [[table chunk]|]; [intros [_ _ _ _ H]|intros ->]; lia.
Qed.

Section Refinement.
Variable lexical_cast_string : ∀ t, ctype t → string.
Variable try_lexical_convert : ∀ t, string → option (ctype t).
Variable env : Env.
Variable n : nat.
Hypothesis Henv : wf_env env n.

Abbreviation ev := (EvaluateExpressionToResult lexical_cast_string try_lexical_convert env).
Abbreviation sem := (sem lexical_cast_string try_lexical_convert).

Let n_bound : (N.of_nat n < 2 ^ 32)%N := wf_env_bound env n Henv.

Definition refines (e : expr) : Prop :=
  ∀ t r, ev t e = Ok r →
    shape n r ∧ ∀ i, (i < n)%nat → cell r i = sem (row_of env i) e t.

(** Resolving a subexpression resolves its cells. *)
Lemma resolve_refines e ta (r : ExpressionResult ta) :
  refines e → ResolveToExpressionResult ev e = Ok (existT ta r) →
  shape n r ∧ (ta = kNull → ∀ i, cell r i = Ok None) ∧
  ∀ i, (i < n)%nat → ∃ c, cell r i = Ok c ∧ resolve_cell e (sem (row_of env i) e) = Ok (existT ta c).
Proof.
  unfold ResolveToExpressionResult, resolve_cell. intros He H. inv_bind. rewrite Hx0. cbn [rbind].
  destruct (decide (x0 = kNull)) as [->|Hne].
  - unfold any in H. injection H as H. inj_any.
    assert (∀ i, cell (mkExpressionResult (t := kNull) [tt] [true]) i = Ok None) as Hc.
    { intros i. rewrite cell_flagged. unfold null_at. cbn [length]. by rewrite Nat.min_0_r. }
    split; [split; [by left|left; cbn; lia]|]. split; [done|]. intros i _. exists None. by rewrite Hc.
  - inv_bind. unfold any in *. inj_any.
    destruct (He _ _ Hx1) as [Hs Hc]. split; [done|]. split; [done|]. intros i Hi.
    rewrite <- Hc by done. destruct (shape_value n r i Hs Hi) as [v Hv].
    unfold cell. rewrite er_IsNull_null_at, Hv. cbn.
    destruct (null_at _ _); cbn; eauto.
Qed.

Lemma default_refines t s (f : ∀ ta tb, ctype ta → ctype tb → result (ctype t)) l r out :
  refines l → refines r →
  EvaluateBinaryWithDefaultNullLogic ev t s f l r = Ok out →
  shape n out ∧ ∀ i, (i < n)%nat → ∃ ta tb x y,
    resolve_cell l (sem (row_of env i) l) = Ok (existT ta x) ∧
    resolve_cell r (sem (row_of env i) r) = Ok (existT tb y) ∧
    s t ta tb = true ∧ cell out i = null_strict (f ta tb) x y.
Proof.
  unfold EvaluateBinaryWithDefaultNullLogic. intros Hl Hr H. inv_bind.
  destruct x as [ta x], x0 as [tb y].
  destruct (s t ta tb) eqn:Hs; [|done]. inv_bind.
  destruct (resolve_refines l ta x Hl Hx) as (Hsx & _ & Hcx).
  destruct (resolve_refines r tb y Hr Hx0) as (Hsy & _ & Hcy).
  destruct (default_null_cells n n_bound _ _ _ _ Hsx Hsy Hx1) as [Hshape Hout].
  split; [done|]. intros i Hi.
  destruct (Hcx i Hi) as (cx & Hcx1 & Hcx2), (Hcy i Hi) as (cy & Hcy1 & Hcy2).
  destruct (Hout i Hi) as (x' & y' & ? & ? & ?). exists ta, tb, cx, cy.
  assert (x' = cx) as -> by congruence. assert (y' = cy) as -> by congruence. done.
Qed.

Lemma functor_refines t s (f : ∀ ta tb, ctype ta → bool → ctype tb → bool → result (ctype t * bool)) l r out :
  refines l → refines r →
  EvaluateBinaryWithFunctorBasedNullLogic ev t s f l r = Ok out →
  shape n out ∧ ∀ i, (i < n)%nat → ∃ ta tb a an b bn v,
    resolve_cell l (sem (row_of env i) l) = Ok (existT ta (flagged (a, an))) ∧
    resolve_cell r (sem (row_of env i) r) = Ok (existT tb (flagged (b, bn))) ∧
    (ta = kNull → an = true) ∧ (tb = kNull → bn = true) ∧
    s t ta tb = true ∧ f ta tb a an b bn = Ok v ∧ cell out i = Ok (flagged v).
Proof.
  unfold EvaluateBinaryWithFunctorBasedNullLogic. intros Hl Hr H. inv_bind.
  destruct x as [ta x], x0 as [tb y].
  destruct (s t ta tb) eqn:Hs; [|done]. inv_bind.
  destruct (resolve_refines l ta x Hl Hx) as (Hsx & Hnx & Hcx).
  destruct (resolve_refines r tb y Hr Hx0) as (Hsy & Hny & Hcy).
  destruct (functor_null_cells n n_bound _ _ _ _ Hsx Hsy Hx1) as [Hshape Hout].
  split; [done|]. intros i Hi.
  destruct (Hcx i Hi) as (cx & Hcx1 & Hcx2), (Hcy i Hi) as (cy & Hcy1 & Hcy2).
  destruct (Hout i Hi) as (a & an & b & bn & v & Ha & Hb & Hf & Hv).
  rewrite Ha in Hcx1. rewrite Hb in Hcy1. injection Hcx1 as <-. injection Hcy1 as <-.
  exists ta, tb, a, an, b, bn, v. repeat (split; [done|]).
  assert (∀ A (v : A) b, Ok (flagged (v, b)) = Ok None → b = true) as Hnull by (by intros ? ? []).
  split; [intros Ht; rewrite (Hnx Ht) in Ha; by eapply Hnull|].
  split; [intros Ht; rewrite (Hny Ht) in Hb; by eapply Hnull|]. done.
Qed.

(** ** Arithmetic *)
Lemma null_on_zero_spec {A B C} (f : A → bool → B → bool → result (C * bool)) a an b bn v :
  (an || bn = true → ∀ v, f a an b bn = Ok v → v.2 = true) →
  f a an b bn = Ok v → Ok (flagged v) = null_on_zero f (flagged (a, an)) (flagged (b, bn)).
Proof.
  intros Hnull Hf. destruct an, bn; cbn in *; rewrite ?Hf;
    try (unfold flagged; by rewrite (Hnull eq_refl _ Hf)); done.
Qed.

Lemma Division_null t ta tb a an b bn v :
  an || bn = true → DivisionEvaluator t ta tb a an b bn = Ok v → v.2 = true.
Proof.
  unfold DivisionEvaluator. intros Hn H. repeat case_match; inv_bind; done.
Qed.

Lemma Modulo_null t ta tb a an b bn v :
  an || bn = true → ModuloEvaluator t ta tb a an b bn = Ok v → v.2 = true.
Proof. unfold ModuloEvaluator. intros Hn H. rewrite Hn in H. by inv_ok. Qed.

Lemma refines_Arithmetic op l r : refines l → refines r → refines (Arithmetic op l r).
Proof.
  intros Hl Hr t out H. rewrite EvaluateExpressionToResult_unfold in H. cbn in H.
  destruct op; cbn in H;
    first [ destruct (default_refines _ _ _ _ _ _ Hl Hr H) as [Hs Hc]; (split; [done|]);
            intros i Hi; destruct (Hc i Hi) as (ta & tb & x & y & Ha & Hb & Hsup & ->)
          | destruct (functor_refines _ _ _ _ _ _ Hl Hr H) as [Hs Hc]; (split; [done|]);
            intros i Hi; destruct (Hc i Hi) as (ta & tb & a & an & b & bn & v & Ha & Hb & _ & _ & Hsup & Hf & ->) ];
    cbn; rewrite Ha, Hb; cbn; rewrite Hsup; try done.
  - apply null_on_zero_spec; [|done]. intros ? ?. by apply Division_null.
  - apply null_on_zero_spec; [|done]. intros ? ?. by apply Modulo_null.
Qed.

(** ** Logic *)
Lemma truth_flagged t (x : ctype t) b : truth (existT t (flagged (x, b))) = tvl t x b.
Proof. by destruct b. Qed.

Lemma refines_Logical op l r : refines l → refines r → refines (Logical op l r).
Proof.
  intros Hl Hr t out H. rewrite EvaluateExpressionToResult_unfold in H. cbn in H.
  destruct t; try done. cbn [bool_only] in H.
  assert (∃ f, EvaluateBinaryWithFunctorBasedNullLogic ev kInt SupportsLogical f l r = Ok out ∧
    ∀ ta tb a an b bn v, (ta = kNull → an = true) → (tb = kNull → bn = true) → f ta tb a an b bn = Ok v →
      flagged v = bool_to_int <$> kleene op (truth (existT ta (flagged (a, an)))) (truth (existT tb (flagged (b, bn)))))
    as (f & Hf & Hspec).
  { destruct op; cbn in H; eexists; (split; [exact H|]); intros ta tb a an b bn v Hta Htb Hv;
      [ destruct (TernaryAndEvaluator_kleene ta tb a an b bn Hta Htb) as (z & m & Hz & Hk)
      | destruct (TernaryOrEvaluator_kleene ta tb a an b bn) as (z & m & Hz & Hk) ];
      rewrite Hz in Hv; injection Hv as <-; cbn [kleene];
      rewrite !truth_flagged, <- Hk; by destruct m. }
  destruct (functor_refines _ _ _ _ _ _ Hl Hr Hf) as [Hs Hc]. split; [done|]. intros i Hi.
  destruct (Hc i Hi) as (ta & tb & a & an & b & bn & v & Ha & Hb & Hta & Htb & Hsup & Hv & ->).
  cbn. rewrite Ha, Hb. cbn. unfold sem_logical. cbn [projT1]. rewrite Hsup. f_equal. by apply Hspec.
Qed.

(** ** Predicates *)
Lemma null_strict_flip {A B C} (f : A → B → result C) (g : B → A → result C) x y c :
  (∀ a b z, g b a = Ok z → f a b = Ok z) → null_strict g y x = Ok c → null_strict f x y = Ok c.
Proof.
  intros Hfg. destruct x as [x|], y as [y|]; cbn; try done. intros H. inv_bind.
  by rewrite (Hfg _ _ _ Hx).
Qed.

Lemma refines_cell_ok {t} (out : ExpressionResult t) i :
  shape n out → (i < n)%nat → ∃ c, cell out i = Ok c.
Proof.
  intros Hs Hi. destruct (shape_value n out i Hs Hi) as [v Hv].
  unfold cell. rewrite er_IsNull_null_at, Hv. cbn. by destruct (null_at _ _); eexists.
Qed.

Lemma refines_BinaryPredicate c l r : refines l → refines r → refines (BinaryPredicate c l r).
Proof.
  intros Hl Hr t out H. rewrite EvaluateExpressionToResult_unfold in H. cbn in H.
  destruct t; try done. cbn [bool_only] in H.
  assert (EvaluateBinaryPredicateExpression ev c l r = Ok out) as H' by (by destruct c).
  clear H. unfold EvaluateBinaryPredicateExpression in H'. inv_bind.
  assert (IsBinaryNumericPredicateCondition c = true) as Hnum.
  { destruct c; try done; vm_compute in Hx; inv_ok; discriminate Hx0. }
  destruct (bool_decide (c = kGreaterThan) || bool_decide (c = kGreaterThanEquals)) eqn:Hflip.
  - assert (x0 = StlComparison x) as -> by (destruct x; cbn in Hx0; congruence).
    destruct (default_refines _ _ _ _ _ _ Hr Hl H') as [Hs Hc]. split; [done|]. intros i Hi.
    destruct (Hc i Hi) as (ta & tb & u & v & Ha & Hb & Hsup & Hcell).
    destruct (refines_cell_ok out i Hs Hi) as [cc Hcc]. rewrite Hcc in *.
    cbn. rewrite Hnum, Ha, Hb. cbn. rewrite SupportsComparison_comm, Hsup. symmetry.
    eapply null_strict_flip; [|done]. intros a b z. by apply StlComparison_flip.
  - inv_ok. assert (x0 = StlComparison x) as -> by (destruct x; cbn in Hx0; congruence).
    destruct (default_refines _ _ _ _ _ _ Hl Hr H') as [Hs Hc]. split; [done|]. intros i Hi.
    destruct (Hc i Hi) as (ta & tb & u & v & Ha & Hb & Hsup & Hcell).
    cbn. rewrite Hnum, Ha, Hb. cbn. by rewrite Hsup.
Qed.

Lemma resolve_bool e s : GetDataType e = Ok kInt →
  resolve_cell e s = (c ← s kInt; Ok (any_cell c)).
Proof. intros H. unfold resolve_cell. by rewrite H. Qed.

Lemma sem_Logical row op l r :
  sem row (Logical op l r) kInt =
  (a ← resolve_cell l (sem row l); b ← resolve_cell r (sem row r); sem_logical op a b).
Proof. done. Qed.

(** A subexpression that is a conjunction or disjunction of two comparisons. *)
Lemma sem_comparison row c l r :
  IsBinaryNumericPredicateCondition c = true →
  sem row (BinaryPredicate c l r) kInt =
  (a ← resolve_cell l (sem row l); b ← resolve_cell r (sem row r); sem_compare c a b).
Proof. intros H. cbn. by rewrite H. Qed.

(** The rewrite of BETWEEN has its meaning. *)
Lemma sem_Between row c v l u t x :
  sem row (RewriteBetweenExpression c v l u) t = Ok x → sem row (Between c v l u) t = Ok x.
Proof.
  destruct t; try done. unfold RewriteBetweenExpression, And_.
  fold (between_lower c) (between_upper c). rewrite sem_Logical.
  rewrite !resolve_bool by done. rewrite !sem_comparison by (by destruct c).
  change (sem row (Between c v l u) kInt) with
    (a ← resolve_cell v (sem row v); b ← resolve_cell l (sem row l);
     m ← sem_compare (between_lower c) a b; d ← resolve_cell u (sem row u);
     k ← sem_compare (between_upper c) a d;
     Ok (bool_to_int <$> kleene_and (truth (any_cell (t := kInt) m)) (truth (any_cell (t := kInt) k)))).
  destruct (resolve_cell v (sem row v)) as [a|]; cbn [rbind]; [|done].
  destruct (resolve_cell l (sem row l)) as [b|]; cbn [rbind]; [|done].
  destruct (sem_compare (between_lower c) a b) as [m|]; cbn [rbind]; [|done].
  destruct (resolve_cell u (sem row u)) as [d|]; cbn [rbind]; [|done].
  by destruct (sem_compare (between_upper c) a d) as [k|]; cbn [rbind].
Qed.

Lemma refines_Between c v l u :
  refines (RewriteBetweenExpression c v l u) → refines (Between c v l u).
Proof.
  intros He t out H. rewrite EvaluateExpressionToResult_unfold in H. cbn in H.
  destruct t; try done. cbn [bool_only] in H.
  destruct (He _ _ H) as [Hs Hc]. split; [done|]. intros i Hi.
  destruct (refines_cell_ok out i Hs Hi) as [cc Hcc]. rewrite Hcc. symmetry.
  apply sem_Between. by rewrite <- Hc.
Qed.

Lemma refines_IsNull c a : refines a → refines (IsNullExpr c a).
Proof.
  intros Ha t out H. rewrite EvaluateExpressionToResult_unfold in H. cbn in H.
  destruct t; try done. cbn [bool_only] in H. unfold EvaluateIsNullExpression in H. inv_bind.
  destruct x as [ta r]. inv_bind.
  destruct (resolve_refines a ta r Ha Hx) as (Hs & _ & Hc).
  apply for_range_ok in Hx0 as [Hlen Hval].
  assert (∀ i, (i < n)%nat → (length x = 1 ∨ length x = n)%nat) as Hsz.
  { intros i Hi. rewrite Hlen. by apply (view_cell n r i). }
  split.
  { unfold shape, er_size. cbn. split; [|lia].
    destruct (decide (n = 0%nat)) as [->|Hn0]; [|by apply (Hsz 0%nat); lia].
    destruct r as [[|? [|]] [|[] [|]]], Hs as [? ?]; cbn in *; lia. }
  intros i Hi. destruct (Hc i Hi) as (cc & Hcc & Hsem). cbn [RowSemantics.sem bool_cell].
  rewrite Hsem. cbn [rbind projT2]. rewrite cell_flagged. cbn [null_at length lookup from_option].
  pose proof (view_null n r i) as Hnull. rewrite <- Hlen in Hnull.
  destruct (Hval (Nat.min i (length x - 1))) as (z & Hz & Hf); [specialize (Hsz i Hi); lia|].
  change (null_at [] i) with false.
  inv_bind. apply Hnull in Hx0; try done. subst x0.
  apply bind_ok. eexists. split; [apply of_option_ok; exact Hz|].
  unfold cell in Hcc. rewrite er_IsNull_null_at in Hcc. cbn [rbind] in Hcc.
  destruct (null_at (er_nulls r) i); inv_bind; done.
Qed.

(** ** Leaves *)
Lemma refines_Value v : refines (Value v).
Proof.
  intros t out H. rewrite EvaluateExpressionToResult_unfold in H. cbn in H.
  unfold EvaluateValueExpression in H. cbn [RowSemantics.sem]. unfold variant_cell.
  destruct (VariantIsNull v); inv_bind.
  - split; [split; [by left|left; cbn; lia]|]. intros i _. rewrite cell_flagged.
    unfold null_at. cbn [length]. by rewrite Nat.min_0_r.
  - split; [split; [by left|left; cbn; lia]|]. intros i _. rewrite cell_flagged, Hx0.
    change (null_at [] i) with false. cbn [length]. by rewrite Nat.min_0_r.
Qed.

Lemma cast_result_ok a b r r' : cast_result a b r = Some r' → existT a r = existT b r'.
Proof. unfold cast_result. destruct (decide (a = b)) as [->|]; [|done]. by intros [= ->]. Qed.

Lemma vec_atN_ok {A} (l : list A) id x : vec_atN l id = Ok x → l !! N.to_nat id = Some x.
Proof. unfold vec_atN. case_match; [done|]. apply of_option_ok. Qed.

Lemma refines_PqpColumn id ty nu na : refines (PqpColumn id ty nu na).
Proof.
  intros t out H. rewrite EvaluateExpressionToResult_unfold in H. cbn in H.
  unfold EvaluateColumnExpression in H. inv_bind. destruct x as [table chunk]. inv_bind.
  clear Hx1 x0. pose proof Henv as Hwf. unfold wf_env in Hwf. rewrite Hx in Hwf.
  apply cast_result_ok in H. pose proof (vec_atN_ok _ _ _ Hx0) as Hseg.
  destruct Hwf as [_ Hrows Hnulls _ _ Htyped]. rewrite Forall_lookup in Hrows, Hnulls, Htyped.
  specialize (Hrows _ _ Hseg). specialize (Hnulls _ _ Hseg). specialize (Htyped _ _ Hseg).
  cbn beta in Hrows, Htyped.
  cbn [RowSemantics.sem]. unfold row_of. rewrite Hx. cbn [of_option rbind]. rewrite Hx0. cbn [rbind].
  destruct x as [st vs ns]. cbn [seg_type seg_values seg_null_values] in *. inj_any.
  unfold MaterializeSegment in Hx2. cbn [seg_type seg_values seg_null_values] in *. inv_bind.
  rewrite Hx1. cbn [rbind].
  destruct x; inv_bind.
  - specialize (Hnulls _ eq_refl). cbn in Hnulls.
    split; [split; [by right|right; done]|]. intros i Hi.
    unfold seg_null_at. cbn [seg_null_values of_option rbind].
    rewrite cell_flagged. unfold null_at, vec_get. rewrite Hnulls, !Nat.min_l by lia.
    destruct (lookup_lt_is_Some_2 x i) as [b Hb]; [lia|].
    destruct (lookup_lt_is_Some_2 vs i) as [v Hv]; [lia|].
    rewrite Hb, Hv. cbn. destruct b; [done|]. unfold variant_cell. cbn.
    rewrite variant_get_to_variant. by destruct st.
  - split; [split; [by right|left; cbn; lia]|]. intros i Hi.
    rewrite cell_flagged. change (null_at [] i) with false. unfold vec_get.
    rewrite !Nat.min_l by lia. destruct (lookup_lt_is_Some_2 vs i) as [v Hv]; [lia|].
    rewrite Hv. cbn. unfold variant_cell. rewrite variant_get_to_variant. by destruct st.
Qed.

(** ** Unary operators *)

(** A result computed value by value from an argument, keeping its NULL flags. *)
Lemma map_values_cells {ta t} (r : ExpressionResult ta) (f : ctype ta → result (ctype t)) values i :
  shape n r → (i < n)%nat → length values = er_size r →
  (∀ j v, er_values r !! j = Some v → ∃ x, values !! j = Some x ∧ f v = Ok x) →
  ∃ c, cell r i = Ok c ∧ cell (mkExpressionResult values (er_nulls r)) i =
    match c with Some v => x ← f v; Ok (Some x) | None => Ok None end.
Proof.
  intros Hs Hi Hlen Hval. destruct (shape_value n r i Hs Hi) as [v Hv].
  unfold cell at 1. rewrite er_IsNull_null_at, Hv, cell_flagged. cbn [rbind].
  unfold er_size in Hlen. rewrite Hlen. unfold er_Value, vec_get in Hv. apply of_option_ok in Hv.
  destruct (Hval _ _ Hv) as (x & Hx & Hf).
  destruct (null_at (er_nulls r) i); eexists; (split; [done|]); [done|].
  cbn. rewrite Hf. unfold vec_get. by rewrite Hx.
Qed.

Lemma refines_UnaryMinus a : refines a → refines (UnaryMinus a).
Proof.
  intros Ha t out H. rewrite EvaluateExpressionToResult_unfold in H. cbn in H.
  unfold EvaluateUnaryMinusExpression in H. inv_bind. destruct x as [ta r].
  destruct (cast_result ta t r) as [r'|] eqn:Hc; [|done]. apply cast_result_ok in Hc. inj_any.
  case_bool_decide as Hstr; [|done]. inv_bind.
  destruct (resolve_refines a ta r' Ha Hx) as (Hs & Hnull & Hcell).
  assert (GetDataType a = Ok ta) as Hty.
  { unfold ResolveToExpressionResult in Hx. inv_bind. rewrite Hx2. f_equal.
    destruct (decide _); inv_bind; unfold any in *; by inj_any. }
  assert (er_values r' ≠ []→ ta ≠ kNull) as Hnn.
  { intros Hne ->. destruct (er_values r') as [|v ?]; [done|]. by inversion Hx0. }
  apply mapR_ok_Forall2 in Hx0. split.
  { unfold shape, er_size in *. cbn. by rewrite <- (Forall2_length _ _ _ Hx0). }
  intros i Hi. destruct (map_values_cells r' (negate ta) x i Hs Hi) as (c & Hc1 & Hc2).
  { by rewrite <- (Forall2_length _ _ _ Hx0). }
  { intros j v Hj. destruct (Forall2_lookup_l _ _ _ _ _ Hx0 Hj) as (? & ? & ?). eauto. }
  rewrite Hc2. cbn [RowSemantics.sem]. rewrite Hty. cbn [rbind].
  rewrite decide_True by done. destruct (Hcell i Hi) as (c' & Hc' & Hres).
  unfold resolve_cell in Hres. rewrite Hty in Hres. cbn [rbind] in Hres.
  rewrite decide_False.
  2:{ intros [->| ->]; [|done]. apply Hnn; [|done]. intros Hnil.
      destruct (shape_value n r' i Hs Hi) as [v Hv]. unfold er_Value in Hv. by rewrite Hnil in Hv. }
  destruct (decide (ta = kNull)) as [->|_]; [exfalso; apply Hnn; [|done]|].
  { intros Hnil. destruct (shape_value n r' i Hs Hi) as [v Hv]. unfold er_Value in Hv. by rewrite Hnil in Hv. }
  inv_bind. unfold any_cell in *. inj_any. rewrite Hx1. cbn.
  assert (c' = c) as -> by congruence. done.
Qed.

Lemma ResultSize_single m : (m = 1 ∨ m = n)%nat → ResultSize [m] = m.
Proof. intros Hm. unfold ResultSize. destruct m; [done|]. cbn. apply u32_id. lia. Qed.

Lemma refines_Cast a ty : refines a → refines (Cast a ty).
Proof.
  intros Ha t out H. rewrite EvaluateExpressionToResult_unfold in H. cbn in H.
  unfold EvaluateCastExpression in H. inv_bind. destruct x as [ta r]. inv_bind.
  destruct (resolve_refines a ta r Ha Hx) as (Hs & _ & Hcell).
  rewrite ResultSize_single in Hx0 by apply Hs. apply for_range_ok in Hx0 as [Hlen Hval].
  split; [by unfold shape, er_size in *; cbn; rewrite Hlen|]. intros i Hi.
  destruct (map_values_cells r (cast_value lexical_cast_string try_lexical_convert t ta) x i Hs Hi Hlen)
    as (c & Hc1 & Hc2).
  { intros j v Hj. pose proof (lookup_lt_Some _ _ _ Hj). destruct (Hval j H) as (w & Hw & Hf).
    exists w. split; [done|]. inv_bind. unfold er_Value, vec_get in Hx0.
    apply of_option_ok in Hx0. rewrite Nat.min_l in Hx0 by lia. by simplify_eq. }
  rewrite Hc2. cbn [RowSemantics.sem]. destruct (Hcell i Hi) as (c' & Hc' & ->).
  cbn [rbind]. assert (c' = c) as -> by congruence. done.
Qed.

Lemma refines_Extract c a : refines a → refines (Extract c a).
Proof.
  intros Ha t out H. rewrite EvaluateExpressionToResult_unfold in H. cbn in H.
  destruct t; try done. cbn [string_only] in H. unfold EvaluateExtractExpression in H. inv_bind.
  destruct (Ha _ _ Hx) as [Hs Hcell].
  assert (∃ o k, EvaluateExtractSubstr o k x = Ok out ∧ ∀ s,
    sem_extract c s = match s with Some s' => p ← cpp_substr s' o k; Ok (Some p) | None => Ok None end)
    as (o & k & Hout & Hsem) by (destruct c; try done; eauto).
  clear H. unfold EvaluateExtractSubstr in Hout. inv_bind.
  apply for_range_ok in Hx0 as [Hlen Hval].
  split; [by unfold shape, er_size in *; cbn; rewrite Hlen|]. intros i Hi.
  cbn [RowSemantics.sem string_cell]. rewrite <- Hcell by done.
  rewrite cell_flagged. unfold cell. rewrite er_IsNull_null_at.
  destruct (shape_value n x i Hs Hi) as [v Hv]. rewrite Hv. cbn [rbind].
  destruct (null_at (er_nulls x) i) eqn:Hnull; cbn [rbind]; rewrite Hsem; [done|].
  destruct (Hval (Nat.min i (length x0 - 1))) as (w & Hw & Hf).
  { unfold shape in Hs. lia. }
  assert (vec_get x0 (Nat.min i (length x0 - 1)) = Ok w) as Hw' by (apply of_option_ok; exact Hw).
  transitivity (Ok (Some w)); [exact (f_equal (λ r, v' ← r; Ok (Some v')) Hw')|].
  assert (view_Size (AsView x) = er_size x) as Hsz.
  { unfold null_at, shape, er_size in *.
    destruct x as [[|? [|? ?]] [|[] [|? ?]]]; cbn in *; rewrite ?Nat.min_0_r in Hnull; try done; lia. }
  rewrite Hlen, <- Hsz in Hf. destruct (Nat.ltb_spec (Nat.min i (view_Size (AsView x) - 1)) (view_Size (AsView x))).
  - inv_bind. rewrite (view_null n x i x1) in Hnull by done. subst x1. inv_bind.
    destruct (view_cell n x i Hs Hi) as [_ Hview]. specialize (Hview _ _ Hx0 Hx1).
    unfold cell in Hview. rewrite er_IsNull_null_at, (view_null n x i false), Hv in Hview by done.
    cbn in Hview. injection Hview as ->. by rewrite Hf.
  - unfold shape in Hs. lia.
Qed.

Lemma min_clamp k m i :
  (k = 1 ∨ k = n)%nat → (m = 1 ∨ m = n)%nat → (k ≤ m)%nat → (i < n)%nat →
  Nat.min (Nat.min i (m - 1)) (k - 1) = Nat.min i (k - 1).
Proof. lia. Qed.

(** A result may be read at the row it is clamped to. *)
Lemma cell_clamp {t} (r : ExpressionResult t) m i :
  shape n r → (m = 1 ∨ m = n)%nat → (er_size r ≤ m)%nat → (i < n)%nat →
  er_Value r (Nat.min i (m - 1)) = er_Value r i ∧ er_IsNull r (Nat.min i (m - 1)) = er_IsNull r i.
Proof.
  intros [Hs Hn] Hm Hle Hi. rewrite !er_IsNull_null_at. unfold er_Value, null_at, er_size in *.
  rewrite (min_clamp _ m) by done. split; [done|].
  destruct Hn as [Hn|Hn]; [|rewrite Hn, (min_clamp _ m) by done; done].
  by replace (length (er_nulls r) - 1)%nat with 0%nat by lia; rewrite !Nat.min_0_r.
Qed.

Lemma ResultSize3 a b c :
  (a = 1 ∨ a = n)%nat → (b = 1 ∨ b = n)%nat → (c = 1 ∨ c = n)%nat → (0 < n)%nat →
  ((ResultSize [a; b; c] = 1 ∨ ResultSize [a; b; c] = n) ∧
   a ≤ ResultSize [a; b; c] ∧ b ≤ ResultSize [a; b; c] ∧ c ≤ ResultSize [a; b; c])%nat.
Proof.
  intros Ha Hb Hc Hn0. unfold ResultSize. cbn [existsb].
  destruct a as [|a]; [lia|]. destruct b as [|b]; [lia|]. destruct c as [|c]; [lia|].
  cbn [Nat.eqb orb]. cbn [max_list_with id]. rewrite u32_id; lia.
Qed.

Lemma branch_cell {ta t} (r : ExpressionResult ta) i c (v : ctype t) b :
  cell r i = Ok c →
  (x ← er_Value r i; v' ← ToValue t ta x; null ← er_IsNull r i; Ok (v', null)) = Ok (v, b) →
  Ok (flagged (v, b)) = match c with Some x => v' ← ToValue t ta x; Ok (Some v') | None => Ok None end.
Proof.
  unfold cell. destruct (er_IsNull r i) as [m|]; cbn [rbind]; [|done]. intros Hc Hf.
  destruct (er_Value r i) as [x|]; cbn [rbind] in *; [|done]. inv_bind.
  destruct b; inv_ok; [done|]. cbn. by rewrite Hx.
Qed.

Lemma refines_Case w th el : refines w → refines th → refines el → refines (Case w th el).
Proof.
  intros Hw Hth Hel t out H. rewrite EvaluateExpressionToResult_unfold in H. cbn in H.
  unfold EvaluateCaseExpression in H. inv_bind.
  destruct x0 as [ta rt], x1 as [tb re]. destruct (SupportsCase t ta tb) eqn:Hsup; [|done]. inv_bind.
  destruct (Hw _ _ Hx) as [Hsw Hcw].
  destruct (resolve_refines _ _ _ Hth Hx0) as (Hst & _ & Hct).
  destruct (resolve_refines _ _ _ Hel Hx1) as (Hse & _ & Hce).
  apply for_range_ok in Hx2 as [Hlen Hval].
  split.
  { unfold shape, er_size. cbn. rewrite !length_fmap. split; [|lia]. rewrite Hlen.
    destruct (decide (n = 0%nat)) as [H0|]; [|apply ResultSize3; lia || apply Hsw || apply Hst || apply Hse].
    unfold ResultSize; cbn [existsb].
    destruct (proj1 Hsw) as [->| ->], (proj1 Hst) as [->| ->], (proj1 Hse) as [->| ->]; rewrite ?H0; auto. }
  intros i Hi.
  destruct (ResultSize3 _ _ _ (proj1 Hsw) (proj1 Hst) (proj1 Hse)) as (Hm & Hmw & Hmt & Hme); [lia|].
  destruct (Hval (Nat.min i (length x0 - 1))) as ([v b] & Hv & Hf); [lia|].
  rewrite cell_flagged. unfold null_at, vec_get. rewrite !length_fmap, !list_lookup_fmap, Hv. cbn.
  rewrite <- Hlen in Hm, Hmw, Hmt, Hme.
  destruct (Hct i Hi) as (ct & Hct1 & ->), (Hce i Hi) as (ce & Hce1 & ->).
  rewrite <- (Hcw i Hi). cbn [rbind any_cell]. unfold sem_case, any_cell. rewrite Hsup.
  destruct (cell_clamp x _ i Hsw Hm Hmw Hi) as [Hv1 Hn1], (cell_clamp rt _ i Hst Hm Hmt Hi) as [Hv2 Hn2],
    (cell_clamp re _ i Hse Hm Hme Hi) as [Hv3 Hn3].
  rewrite Hv1, Hn1, Hv2, Hn2, Hv3, Hn3 in Hf. rewrite er_IsNull_null_at in Hf.
  unfold cell at 1. rewrite er_IsNull_null_at.
  destruct (er_Value x i) as [x1|]; cbn [rbind] in *; [|done].
  destruct (x1 =? 0) eqn:Hz; cbn [rbind negb andb] in Hf.
  - rewrite <- (branch_cell _ _ _ _ _ Hce1 Hf). unfold flagged.
    destruct (null_at (er_nulls x) i), b; cbn; by rewrite ?Hz.
  - destruct (null_at (er_nulls x) i); cbn [negb] in Hf; cbn; rewrite ?Hz; cbn.
    + rewrite <- (branch_cell _ _ _ _ _ Hce1 Hf). by destruct b.
    + rewrite <- (branch_cell _ _ _ _ _ Hct1 Hf). by destruct b.
Qed.

(** ** IN *)
Definition with_sem (row : ColumnId → result AllTypeVariant) (es : list expr) :=
  map (λ x, (x, sem row x)) es.

Lemma sem_InExpr row c v s :
  sem row (InExpr c v s) kInt = sem_in c v (sem row v) (with_sem row (in_elements s)).
Proof. by destruct s. Qed.

Lemma filterR_with_sem row f es :
  filterR (λ p, f p.1) (with_sem row es) = (k ← filterR f es; Ok (with_sem row k)).
Proof.
  unfold with_sem. induction es as [|e es IH]; [done|]. cbn [map filterR fst]. rewrite IH.
  destruct (f e) as [[]|]; cbn; [..|done]; by destruct (filterR f es).
Qed.

Definition in_step (op : LogicalOperator) (cmp : PredicateCondition) (a : AnyCell)
    (acc : option bool) (p : expr * (∀ t, result (option (ctype t)))) : result (option bool) :=
  b ← resolve_cell p.1 p.2; m ← sem_compare cmp a b;
  Ok (kleene op acc (truth (any_cell (t := kInt) m))).

Lemma null_strict_bool {A B} (f : A → B → result Z) x y m :
  (∀ z, (∃ a b, f a b = Ok z) → z = 0 ∨ z = 1) → null_strict f x y = Ok m →
  m = bool_to_int <$> truth (any_cell (t := kInt) m).
Proof.
  intros Hf. destruct x as [x|], y as [y|]; cbn; intros H; inv_bind; try done.
  by destruct (Hf x0) as [->| ->]; [eauto|..].
Qed.

Lemma sem_compare_bool c a b m :
  sem_compare c a b = Ok m → m = bool_to_int <$> truth (any_cell (t := kInt) m).
Proof.
  destruct a as [ta x], b as [tb y]. cbn. destruct (SupportsComparison _ _ _); [|done].
  apply null_strict_bool. intros z (u & w & H). unfold StlComparison in H.
  case_match; inv_bind; [by left|]. destruct (holds _ _); [by right|by left].
Qed.

(** A chain of comparisons folds the connective over their truth values. *)
Lemma sem_chain row op cmp b0 v first rest c :
  IsBinaryNumericPredicateCondition cmp = true → (∀ y, kleene op (Some b0) y = y) →
  sem row (chain (Logical op) (BinaryPredicate cmp) v first rest) kInt = Ok c →
  ∃ a w, resolve_cell v (sem row v) = Ok a ∧
    foldR (in_step op cmp a) (Some b0) (with_sem row (first :: rest)) = Ok w ∧
    c = bool_to_int <$> w.
Proof.
  intros Hcmp Hb0. revert c. induction rest as [|x rest IH] using rev_ind; intros c H.
  - cbn [chain foldl] in H. rewrite sem_comparison in H by done. inv_bind.
    exists x, (truth (any_cell (t := kInt) c)). split; [done|]. split; [|by eapply sem_compare_bool].
    cbn. unfold in_step. cbn [fst snd]. rewrite Hx0. cbn. rewrite H. cbn. by rewrite Hb0.
  - unfold chain in H. rewrite foldl_app in H. cbn [foldl] in H. rewrite sem_Logical in H.
    rewrite (resolve_bool (BinaryPredicate _ _ _)) in H by done. rewrite sem_comparison in H by done.
    rewrite resolve_bool in H by (by destruct rest using rev_ind; rewrite ?foldl_app).
    apply bind_ok in H as (ca & Hca & H). apply bind_ok in Hca as (m & Hm & [= <-]).
    apply bind_ok in H as (cb & Hcb & H). apply bind_ok in Hcb as (m' & Hm' & [= <-]).
    apply bind_ok in Hm' as (a' & Ha' & Hm'). apply bind_ok in Hm' as (b & Hb & Hm').
    destruct (IH _ Hm) as (a & w & Ha & Hw & ->). assert (a' = a) as -> by congruence.
    exists a, (kleene op w (truth (any_cell (t := kInt) m'))). split; [done|]. split.
    { change (first :: rest ++ [x]) with ((first :: rest) ++ [x]). unfold with_sem in *.
      rewrite map_app, foldR_app, Hw. cbn. unfold in_step. cbn [fst snd]. by rewrite Hb; cbn; rewrite Hm'. }
    unfold sem_logical in H. cbn in H. injection H as <-. do 2 f_equal. by destruct w as [[]|].
Qed.

Lemma sem_in_compatible c v row es tl first rest :
  es ≠ [] → GetDataType v = Ok tl → tl ≠ kNull →
  filterR (compatible (is_string tl)) es = Ok (first :: rest) →
  let neg := IsNegated c in
  sem_in c v (sem row v) (with_sem row es) =
  (a ← resolve_cell v (sem row v);
   w ← foldR (in_step (if neg then kAnd else kOr) (if neg then kNotEquals else kEquals) a) (Some neg)
         (with_sem row (first :: rest));
   Ok (bool_to_int <$> w)).
Proof.
  intros Hes Hv Hnull Hf neg. unfold sem_in. destruct es as [|e es]; [done|].
  rewrite Hv. cbn [rbind]. rewrite decide_False by done. rewrite filterR_with_sem, Hf. cbn [rbind].
  unfold neg. done.
Qed.

Lemma sem_in_slow c v row es e' x :
  es ≠ [] → (∃ tl k, GetDataType v = Ok tl ∧ tl ≠ kNull ∧
    filterR (compatible (is_string tl)) es = Ok k ∧ k ≠ []) →
  RewriteInListExpression c v es = Ok e' → sem row e' kInt = Ok x →
  sem_in c v (sem row v) (with_sem row es) = Ok x.
Proof.
  intros Hes (tl & [|first rest] & Hv & Hnull & Hk & Hne) Hrw Hx; [done|].
  rewrite (sem_in_compatible c v row es tl first rest) by done.
  unfold RewriteInListExpression in Hrw. rewrite Hv in Hrw. cbn [rbind] in Hrw. rewrite Hk in Hrw.
  cbn [rbind] in Hrw. inv_ok.
  assert (∃ a w, resolve_cell v (sem row v) = Ok a ∧
    foldR (in_step (if IsNegated c then kAnd else kOr) (if IsNegated c then kNotEquals else kEquals) a)
      (Some (IsNegated c)) (with_sem row (first :: rest)) = Ok w ∧ x = bool_to_int <$> w)
    as (a & w & Ha & Hw & ->).
  { destruct (IsNegated c); eapply sem_chain; try exact Hx; try done; by intros [[]|]. }
  rewrite Ha. cbn [rbind]. by rewrite Hw.
Qed.

(** The fast path compares with constants. *)
Lemma StlComparison_same c t x y :
  t ≠ kNull → StlComparison c t t x y = Ok (bool_to_int (holds c (compare t x y))).
Proof. by destruct t. Qed.

Lemma in_step_value op cmp t (x : option (ctype t)) w (y : ctype t) acc row :
  t ≠ kNull → variant_get t w = Ok y →
  in_step op cmp (existT t x) acc (Value w, sem row (Value w)) =
  Ok (kleene op acc ((λ x, holds cmp (compare t x y)) <$> x)).
Proof.
  intros Ht Hw. apply variant_get_ok in Hw as <-. unfold in_step, resolve_cell. cbn [fst snd GetDataType].
  rewrite to_variant_type. cbn [rbind]. rewrite decide_False by done.
  change (sem row (Value (to_variant t y)) t) with (variant_cell t (to_variant t y)).
  unfold variant_cell. rewrite variant_get_to_variant.
  replace (VariantIsNull (to_variant t y)) with false by (by destruct t).
  cbn [rbind any_cell]. unfold any_cell, sem_compare.
  replace (SupportsComparison kInt t t) with true by (by destruct t).
  destruct x as [x|]; cbn [null_strict rbind]; [|done].
  rewrite StlComparison_same by done. cbn. by destruct (holds cmp _).
Qed.

Definition in_fold (neg : bool) (a : AnyCell) :=
  foldR (in_step (if neg then kAnd else kOr) (if neg then kNotEquals else kEquals) a).

Lemma value_eqb_compare t (x y : ctype t) : value_eqb t y x = holds kEquals (compare t x y).
Proof. unfold value_eqb. rewrite compare_antisym. by apply flip_holds. Qed.

Lemma get_values k t vs :
  mapR (get_value t) k = Ok vs → Forall2 (λ e y, ∃ w, e = Value w ∧ variant_get t w = Ok y) k vs.
Proof.
  intros H%mapR_ok_Forall2. eapply Forall2_impl; [exact H|]. intros e y He. destruct e; try done. by eexists.
Qed.

Lemma in_fold_some row neg t (x : ctype t) vs k acc :
  t ≠ kNull → mapR (get_value t) k = Ok vs →
  in_fold neg (existT t (Some x)) (Some acc) (with_sem row k) =
  Ok (Some (if neg then acc && negb (existsb (λ y, value_eqb t y x) vs)
            else acc || existsb (λ y, value_eqb t y x) vs)).
Proof.
  intros Ht H%get_values. revert acc. induction H as [|e y k vs (w & -> & Hy) _ IH]; intros acc.
  - cbn. by destruct neg, acc.
  - unfold in_fold, with_sem. cbn [map foldR]. rewrite (in_step_value _ _ _ _ _ _ _ _ Ht Hy). cbn [fmap option_fmap option_map rbind].
    cbn [existsb]. rewrite value_eqb_compare.
    destruct neg; cbn [kleene].
    + replace (kleene_and (Some acc) (Some (holds kNotEquals (compare t x y))))
        with (Some (acc && negb (holds kEquals (compare t x y)))) by (by destruct acc, (compare t x y) as [[]|]).
      etransitivity; [apply IH|]. do 2 f_equal. by destruct acc, (holds kEquals _).
    + replace (kleene_or (Some acc) (Some (holds kEquals (compare t x y))))
        with (Some (acc || holds kEquals (compare t x y))) by (by destruct acc, (holds kEquals (compare t x y))).
      etransitivity; [apply IH|]. by rewrite orb_assoc.
Qed.

Lemma in_fold_none row neg t vs k acc :
  t ≠ kNull → mapR (get_value t) k = Ok vs → acc = None ∨ acc = Some neg ∧ k ≠ [] →
  in_fold neg (existT t None) acc (with_sem row k) = Ok None.
Proof.
  intros Ht H%get_values. revert acc. induction H as [|e y k vs (w & -> & Hy) _ IH]; intros acc Hacc.
  - destruct Hacc as [->|[_ ?]]; done.
  - unfold in_fold, with_sem. cbn [map foldR]. rewrite (in_step_value _ _ _ _ _ _ _ _ Ht Hy).
    cbn [fmap option_fmap option_map rbind]. apply IH. left.
    destruct Hacc as [->|[-> _]]; by destruct neg.
Qed.

Lemma view_Size_shape {t} (r : ExpressionResult t) :
  shape n r → (view_Size (AsView r) = 1 ∨ view_Size (AsView r) = n)%nat.
Proof.
  intros [Hs _]. unfold er_size in Hs. destruct r as [[|? [|? ?]] [|[] [|? ?]]]; cbn in *; lia.
Qed.

Lemma view_IsNull_guard {t} (v : View t) i :
  (if view_IsNullable v then view_IsNull v i else Ok false) = view_IsNull v i.
Proof. by destruct v as [| |? []]. Qed.

(** The constant-list loop. *)
Lemma in_loop_cells {t} (r : ExpressionResult t) neg vs cells i :
  shape n r → (i < n)%nat →
  let view := AsView r in
  for_range (view_Size view) (λ i,
    null ← (if view_IsNullable view then view_IsNull view i else Ok false);
    if (null : bool) then Ok (bool_to_int neg, true)
    else v ← view_Value view i;
         Ok (if existsb (λ x, value_eqb t x v) vs then bool_to_int (negb neg) else bool_to_int neg, false))
    = Ok cells →
  ∃ c, cell r i = Ok c ∧
    cell (mkExpressionResult (t := kInt) cells.*1 (if view_IsNullable view then cells.*2 else [])) i =
    Ok ((λ v, bool_to_int (xorb neg (existsb (λ x, value_eqb t x v) vs))) <$> c).
Proof.
  intros Hs Hi view [Hlen Hval]%for_range_ok. destruct (view_cell n r i Hs Hi) as [Hsz Hview].
  destruct (Hval (Nat.min i (length cells - 1))) as (p & Hp & Hf); [unfold view in *; lia|].
  rewrite view_IsNull_guard in Hf. apply bind_ok in Hf as (b & Hb & Hf). rewrite Hlen in Hb.
  pose proof (view_null n r i b Hs Hi Hb) as Hnull.
  assert (null_at (if view_IsNullable view then cells.*2 else []) i = p.2) as Hout.
  { destruct (view_IsNullable view) eqn:Hn.
    - unfold null_at. by rewrite length_fmap, list_lookup_fmap, Hp.
    - assert (b = false) as -> by (unfold view in *; destruct (AsView r) as [| |? []]; cbn in *; congruence).
      inv_bind. done. }
  rewrite cell_flagged, Hout. unfold vec_get. rewrite length_fmap, list_lookup_fmap, Hp.
  cbn [fmap option_fmap option_map of_option rbind].
  destruct b.
  - inv_ok. exists None. split; [|done]. unfold cell. rewrite er_IsNull_null_at, Hnull. done.
  - apply bind_ok in Hf as (v & Hv & Hf). rewrite Hlen in Hv. rewrite (Hview _ _ Hb Hv).
    eexists. split; [done|]. inv_ok. cbn. by destruct neg, (existsb _ _).
Qed.

Lemma refines_In c v s :
  refines v → (∀ e', (weight e' < weight (InExpr c v s))%nat → refines e') → refines (InExpr c v s).
Proof.
  intros Hv IH t out H. rewrite EvaluateExpressionToResult_unfold in H. cbn in H.
  destruct t; try done. cbn [bool_only] in H.
  assert (EvaluateInListExpression ev c v (in_elements s) = Ok out) as H' by (by destruct s).
  clear H. unfold EvaluateInListExpression in H'.
  destruct (in_elements s) as [|e0 es0] eqn:Hes.
  { inv_ok. split; [split; [by left|left; cbn; lia]|]. intros i Hi.
    rewrite sem_InExpr, Hes, cell_flagged. cbn. by rewrite Nat.min_0_r. }
  apply bind_ok in H' as (tl & Htl & H).
  destruct (decide (tl = kNull)) as [->|Hnull].
  { inv_ok. split; [split; [by left|left; cbn; lia]|]. intros i Hi.
    rewrite sem_InExpr, Hes, cell_flagged. cbn [with_sem map sem_in]. rewrite Htl.
    unfold null_at. cbn. by rewrite Nat.min_0_r. }
  apply bind_ok in H as (k & Hk & H). destruct k as [|first rest].
  { inv_ok. split; [split; [by left|left; cbn; lia]|]. intros i Hi.
    rewrite sem_InExpr, Hes, cell_flagged. change (with_sem (row_of env i) (e0 :: es0)) with
      (((e0, sem (row_of env i) e0)) :: with_sem (row_of env i) es0).
    unfold sem_in. rewrite Htl. cbn [rbind]. rewrite decide_False by done.
    change ((e0, sem (row_of env i) e0) :: with_sem (row_of env i) es0) with
      (with_sem (row_of env i) (e0 :: es0)). rewrite filterR_with_sem, Hk. cbn. by rewrite Nat.min_0_r. }
  destruct (forallb _ _).
  - apply bind_ok in H as ([ta r] & Hr & H). apply bind_ok in H as (vs & Hvs & H).
    apply bind_ok in H as (cells & Hcells & [= <-]).
    destruct (resolve_refines v ta r Hv Hr) as (Hs & _ & Hcell).
    assert (ta = tl) as ->.
    { unfold ResolveToExpressionResult in Hr. inv_bind. rewrite Htl in Hx0. inv_ok.
      rewrite decide_False in Hr by done. inv_bind. unfold any in *. by inj_any. }
    split.
    { pose proof (view_Size_shape r Hs). apply for_range_ok in Hcells as [Hlen _].
      unfold shape, er_size. cbn. rewrite length_fmap, Hlen. split; [done|].
      destruct (view_IsNullable _); cbn; rewrite ?length_fmap; lia. }
    intros i Hi. destruct (in_loop_cells r _ _ _ i Hs Hi Hcells) as (a & Ha & ->).
    destruct (Hcell i Hi) as (a' & Ha' & Hres). assert (a' = a) as -> by congruence.
    rewrite sem_InExpr, Hes, (sem_in_compatible c v _ _ tl first rest) by done.
    rewrite Hres. cbn [rbind]. fold (in_fold (IsNegated c) (existT tl a)).
    destruct a as [a|].
    + rewrite (in_fold_some _ _ _ _ vs) by done. cbn. by destruct (IsNegated c), (existsb _ _).
    + rewrite (in_fold_none _ _ _ vs) by (done || by right). done.
  - apply bind_ok in H as (e' & He' & H).
    assert (weight e' < weight (InExpr c v s))%nat as Hw.
    { apply in_elements_weight. rewrite Hes. by eapply weight_RewriteIn. }
    destruct (IH e' Hw _ _ H) as [Hs Hc]. split; [done|]. intros i Hi.
    destruct (refines_cell_ok out i Hs Hi) as [cc Hcc]. rewrite Hcc. symmetry.
    rewrite sem_InExpr, Hes. eapply sem_in_slow; [done| |exact He'|by rewrite <- Hc].
    exists tl, (first :: rest). done.
Qed.

(** ** Every expression *)
Lemma refines_all e : refines e.
Proof.
  remember (weight e) as w eqn:Hw. revert e Hw.
  induction w as [w IH] using lt_wf_ind. intros e ->.
  assert (∀ e', (weight e' < weight e)%nat → refines e') as IH' by (intros; by eapply IH).
  clear IH. destruct e.
  1,2,7: by intros t out H; rewrite EvaluateExpressionToResult_unfold in H.
  - apply refines_Arithmetic; apply IH'; cbn; lia.
  - apply refines_Case; apply IH'; cbn; lia.
  - apply refines_Cast, IH'; cbn; lia.
  - apply refines_Extract, IH'; cbn; lia.
  - apply refines_Logical; apply IH'; cbn; lia.
  - apply refines_PqpColumn.
  - apply refines_BinaryPredicate; apply IH'; cbn; lia.
  - apply refines_Between, IH', weight_Between.
  - apply refines_In; [apply IH'; exact (proj1 (in_elements_weight c e1 e2))|exact IH'].
  - apply refines_IsNull, IH'; cbn; lia.
  - apply refines_UnaryMinus, IH'; cbn; lia.
  - apply refines_Value.
Qed.
End Refinement.

(** C1: Whenever the vectorised evaluator returns a result for an expression on a chunk that
    fits its table, the result has a legal shape (one value or one per row, no NULL flag, one
    or one per value) and its value for every row is the row-wise three-valued meaning of the
    expression on that row, NULL included.  BETWEEN and IN rewriting, operand flipping,
    literal broadcasting and NULL-vector merging are therefore unobservable. *)
Theorem EvaluateExpressionToResult_correct lexical_cast_string try_lexical_convert env n e t r :
  wf_env env n →
  EvaluateExpressionToResult lexical_cast_string try_lexical_convert env t e = Ok r →
  shape n r ∧
  ∀ i, (i < n)%nat → cell r i = sem lexical_cast_string try_lexical_convert (row_of env i) e t.
Proof. intros Henv. by apply refines_all. Qed.

Definition evaluator_example : Env :=
  mkEnv (Some (mkTable [mkTableColumnDefinition "a" kInt true] [] None,
               [mkValueSegment kInt [1; 7; 3] (Some [false; true; false])])) 0 3.

Lemma evaluator_example_wf : wf_env evaluator_example 3.
Proof.
  split; [done|repeat constructor|constructor; [by intros ? [= <-]|constructor]|repeat constructor|done|repeat constructor]; done.
Qed.

Lemma EvaluateExpressionToResult_correct_witness :
  let e := Between kBetweenInclusive (PqpColumn 0%N kInt true "a") (Value (VInt 2)) (Value (VLong 5)) in
  let r := mkExpressionResult (t := kInt) [0; 0; 1] [false; true; false] in
  EvaluateExpressionToResult (λ _ _, EmptyString) (λ _ _, None) evaluator_example kInt e = Ok r ∧
  cell r 2 = sem (λ _ _, EmptyString) (λ _ _, None) (row_of evaluator_example 2) e kInt.
Proof.
  intros e r.
  assert (EvaluateExpressionToResult (λ _ _, EmptyString) (λ _ _, None) evaluator_example kInt e = Ok r) as H
    by (vm_compute; reflexivity).
  split; [exact H|].
  apply (EvaluateExpressionToResult_correct (λ _ _, EmptyString) (λ _ _, None) evaluator_example 3 e kInt r
    evaluator_example_wf H). lia.
Defined.
