(* ===== verification/Positions.v ===== *)
(** * Position lists and segments from expressions

    The other two entry points of [ExpressionEvaluator]: [EvaluateExpressionToPositionList]
    returns the rows of the chunk on which a predicate is true, [EvaluateExpressionToSegment]
    materialises an expression as a column.  Both are related to the row-wise meaning [sem];
    the C++ loops run over [output_row_count_] rows. *)

From S2P Require Export EvaluatorCorrect.

(** [RowId] of [storage_types.hpp]. *)
Record RowId : Set := mkRowId { chunk_id : nat; chunk_offset : nat }.
#[export] Instance RowId_eq_dec : EqDecision RowId.
Proof. solve_decision. Defined.

Definition RowId_lt (a b : RowId) : bool :=
  (chunk_id a <? chunk_id b)%nat
  || (bool_decide (chunk_id a = chunk_id b) && (chunk_offset a <? chunk_offset b)%nat).

(** ** [std::ranges::set_intersection] and [set_union] on sorted ranges *)
Section SetAlgorithms.
Context {A : Type} (comp : A → A → bool).

Fixpoint set_intersection (l : list A) : list A → list A :=
  fix go (k : list A) : list A :=
    match l, k with
    | a :: l', b :: k' =>
        if comp a b then set_intersection l' k
        else if comp b a then go k'
        else a :: set_intersection l' k'
    | _, _ => []
    end.

Fixpoint set_union (l : list A) : list A → list A :=
  fix go (k : list A) : list A :=
    match l, k with
    | [], _ => k
    | _, [] => l
    | a :: l', b :: k' =>
        if comp a b then a :: set_union l' k
        else if comp b a then b :: go k'
        else a :: set_union l' k'
    end.

Lemma set_intersection_nil_r l : set_intersection l [] = [].
Proof. by destruct l. Qed.
Lemma set_union_nil_r l : set_union l [] = l.
Proof. by destruct l. Qed.
Lemma set_union_nil_l l : set_union [] l = l.
Proof. by destruct l. Qed.

Lemma set_intersection_cons a l b k :
  set_intersection (a :: l) (b :: k) =
  if comp a b then set_intersection l (b :: k)
  else if comp b a then set_intersection (a :: l) k else a :: set_intersection l k.
Proof. done. Qed.
Lemma set_union_cons a l b k :
  set_union (a :: l) (b :: k) =
  if comp a b then a :: set_union l (b :: k)
  else if comp b a then b :: set_union (a :: l) k else a :: set_union l k.
Proof. done. Qed.
End SetAlgorithms.

(** The offsets from [s] on that satisfy [p], as row ids of a chunk. *)
Definition rows_where (chunk s n : nat) (p : nat → bool) : list RowId :=
  mkRowId chunk <$> filter p (seq s n).

Lemma rows_where_cons c s n p :
  rows_where c s (S n) p = if p s then mkRowId c s :: rows_where c (S s) n p else rows_where c (S s) n p.
Proof.
  unfold rows_where. cbn [seq]. destruct (p s) eqn:Hp.
  - by rewrite filter_cons_True by (by rewrite Hp).
  - by rewrite filter_cons_False by (rewrite Hp; tauto).
Qed.

Lemma rows_where_ext c s n p q :
  (∀ i, (s ≤ i < s + n)%nat → p i = q i) → rows_where c s n p = rows_where c s n q.
Proof.
  revert s. induction n as [|n IH]; intros s H; [done|].
  rewrite !rows_where_cons, (H s) by lia. by rewrite (IH (S s)) by (intros; apply H; lia).
Qed.

Lemma rows_where_head c s n p x l : rows_where c s n p = x :: l → ∃ i, x = mkRowId c i ∧ (s ≤ i)%nat.
Proof.
  revert s. induction n as [|n IH]; intros s; [done|]. rewrite rows_where_cons.
  destruct (p s); [intros [= <- _]; eauto with lia|].
  intros (i & -> & ?)%IH. exists i. split; [done|lia].
Qed.

Lemma RowId_lt_irrefl c s : RowId_lt (mkRowId c s) (mkRowId c s) = false.
Proof. unfold RowId_lt. cbn [chunk_id chunk_offset]. by rewrite !Nat.ltb_irrefl, andb_false_r. Qed.

Lemma RowId_lt_later c s i : (S s ≤ i)%nat →
  RowId_lt (mkRowId c s) (mkRowId c i) = true ∧ RowId_lt (mkRowId c i) (mkRowId c s) = false.
Proof.
  intros H. unfold RowId_lt. cbn [chunk_id chunk_offset].
  rewrite Nat.ltb_irrefl, bool_decide_true by done. cbn [orb andb].
  split; [by apply Nat.ltb_lt|apply Nat.ltb_ge; lia].
Qed.

(** The head of a later list is greater, so the algorithms advance the other one. *)
Ltac later_head E :=
  match type of E with rows_where ?c _ _ _ = _ =>
    let i := fresh "i" in let Hi := fresh "Hi" in
    destruct (rows_where_head _ _ _ _ _ _ E) as (i & -> & Hi);
    destruct (RowId_lt_later c _ _ Hi) as [?Hlt ?Hgt]
  end.

Lemma intersection_rows c s n p q :
  set_intersection RowId_lt (rows_where c s n p) (rows_where c s n q) =
  rows_where c s n (λ i, p i && q i).
Proof.
  revert s. induction n as [|n IH]; intros s; [done|]. rewrite !rows_where_cons.
  destruct (p s), (q s); cbn [andb].
  - by rewrite set_intersection_cons, !RowId_lt_irrefl, IH.
  - rewrite <- IH. destruct (rows_where c (S s) n q) as [|y l] eqn:E.
    + by rewrite !set_intersection_nil_r.
    + later_head E. by rewrite set_intersection_cons, Hlt.
  - rewrite <- IH. destruct (rows_where c (S s) n p) as [|y l] eqn:E; [by destruct (rows_where _ _ _ q)|].
    later_head E. by rewrite set_intersection_cons, Hlt, Hgt.
  - apply IH.
Qed.

Lemma union_rows c s n p q :
  set_union RowId_lt (rows_where c s n p) (rows_where c s n q) = rows_where c s n (λ i, p i || q i).
Proof.
  revert s. induction n as [|n IH]; intros s; [done|]. rewrite !rows_where_cons.
  destruct (p s), (q s); cbn [orb].
  - by rewrite set_union_cons, !RowId_lt_irrefl, IH.
  - rewrite <- IH. destruct (rows_where c (S s) n q) as [|y l] eqn:E; [by rewrite !set_union_nil_r|].
    later_head E. by rewrite set_union_cons, Hlt.
  - rewrite <- IH. destruct (rows_where c (S s) n p) as [|y l] eqn:E; [by rewrite !set_union_nil_l|].
    later_head E. by rewrite set_union_cons, Hlt, Hgt.
  - apply IH.
Qed.

(** The evaluator loops over the [n] rows of its chunk. *)
Definition evaluates_rows (env : Env) (n : nat) : Prop := env_output_row_count env = n.

Section Evaluate.
Variable lexical_cast_string : ∀ t, ctype t → string.
Variable try_lexical_convert : ∀ t, string → option (ctype t).
Variable env : Env.

Abbreviation ev := (EvaluateExpressionToResult lexical_cast_string try_lexical_convert env).
Abbreviation sem := (sem lexical_cast_string try_lexical_convert).

(** The loop over the rows of the chunk that collects the offsets passing a test. *)
Definition collect_rows (test : nat → result bool) : result (list RowId) :=
  offsets ← filterR test (seq 0 (env_output_row_count env));
  Ok (mkRowId (env_chunk_id env) <$> offsets).

Definition PositionListComparison (c : PredicateCondition) (left_operand right_operand : expr)
    : result (list RowId) :=
  let flip := bool_decide (c = kGreaterThan) || bool_decide (c = kGreaterThanEquals) in
  predicate_condition ← (if flip then FlipPredicateCondition c else Ok c);
  l ← ResolveToExpressionResult ev (if flip then right_operand else left_operand);
  r ← ResolveToExpressionResult ev (if flip then left_operand else right_operand);
  let 'existT ta left_result := l in
  let 'existT tb right_result := r in
  functor ← ResolveBinaryPredicateEvaluator predicate_condition;
  if SupportsComparison kInt ta tb then
    collect_rows (λ i,
      null ← er_IsNull left_result i;
      null' ← (if (null : bool) then Ok true else er_IsNull right_result i);
      if (null' : bool) then Ok false
      else
        a ← er_Value left_result i; b ← er_Value right_result i;
        matches ← functor ta tb a b; Ok (negb (matches =? 0)))
  else Err AssertionFailed.

Definition PositionListIsNull (c : PredicateCondition) (operand : expr) : result (list RowId) :=
  a ← ResolveToExpressionResult ev operand;
  let 'existT ta r := a in
  collect_rows (λ i,
    null ← view_IsNull (AsView r) i; Ok (if bool_decide (c = kIsNull) then null else negb null)).

(** IN, NOT IN, LIKE and NOT LIKE scan the result series. *)
Definition PositionListScan (e : expr) : result (list RowId) :=
  result ← ev kInt e;
  collect_rows (λ i,
    v ← view_Value (AsView result) i;
    if v =? 0 then Ok false else null ← view_IsNull (AsView result) i; Ok (negb null)).

Definition position_list_step (recurse : expr → result (list RowId)) (e : expr) : result (list RowId) :=
  match e with
  | BinaryPredicate c l r =>
      match c with
      | kLike | kNotLike => PositionListScan e
      | _ => PositionListComparison c l r
      end
  | Between c v l u => recurse (RewriteBetweenExpression c v l u)
  | IsNullExpr c a => PositionListIsNull c a
  | InExpr _ _ _ => PositionListScan e
  | Logical op l r =>
      left_pos_list ← recurse l;
      right_pos_list ← recurse r;
      Ok (match op with
          | kAnd => set_intersection RowId_lt left_pos_list right_pos_list
          | kOr => set_union RowId_lt left_pos_list right_pos_list
          end)
  | Value v =>
      match v with
      | VInt z => if z =? 0 then Ok [] else collect_rows (λ _, Ok true)
      | _ => Err AssertionFailed
      end
  | _ => Err AssertionFailed
  end.

Fixpoint position_list (fuel : nat) (e : expr) : result (list RowId) :=
  match fuel with
  | O => Err OutOfFuel
  | S fuel' => position_list_step (position_list fuel') e
  end.

Definition EvaluateExpressionToPositionList (e : expr) : result (list RowId) :=
  position_list (weight e) e.

Lemma position_list_fuel n m e :
  (weight e ≤ n)%nat → (weight e ≤ m)%nat → position_list n e = position_list m e.
Proof.
  revert m e. induction n as [|n IH]; intros [|m] e Hn Hm; try (pose proof (weight_pos e); lia).
  cbn [position_list]. destruct e; try done; cbn [position_list_step].
  - cbn in Hn, Hm. by rewrite (IH m e1), (IH m e2) by lia.
  - pose proof (weight_Between c e1 e2 e3). apply IH; lia.
Qed.

Lemma EvaluateExpressionToPositionList_unfold e :
  EvaluateExpressionToPositionList e = position_list_step EvaluateExpressionToPositionList e.
Proof.
  unfold EvaluateExpressionToPositionList at 1.
  rewrite (position_list_fuel _ (S (weight e))) by lia. cbn [position_list].
  destruct e; try done; cbn [position_list_step]; unfold EvaluateExpressionToPositionList.
  by rewrite (position_list_fuel (weight (Logical op e1 e2)) (weight e1)),
      (position_list_fuel (weight (Logical op e1 e2)) (weight e2)) by (cbn; lia).
Qed.

(** The column computed for an expression. *)
Definition EvaluateExpressionToSegment (e : expr) : result ValueSegment :=
  a ← ResolveToExpressionResult ev e;
  let 'existT t r := a in
  let view := AsView r in
  if decide (t = kNull) then Err AssertionFailed
  else
    values ← for_range (env_output_row_count env) (view_Value view);
    nulls ← (if view_IsNullable view
             then ns ← for_range (env_output_row_count env) (view_IsNull view); Ok (Some ns)
             else Ok None);
    Ok (mkValueSegment t values nulls).

(** ** Correctness *)
Variable n : nat.
Hypothesis Henv : wf_env env n.
Hypothesis Hrows : evaluates_rows env n.

Definition is_true (c : option Z) : bool := from_option (λ z, negb (z =? 0)) false c.

(** [l] lists the rows on which [e] is true, and [e] has a value on every row. *)
Definition lists_true_rows (e : expr) (l : list RowId) : Prop :=
  ∃ c, (∀ i, (i < n)%nat → sem (row_of env i) e kInt = Ok (c i)) ∧
    l = rows_where (env_chunk_id env) 0 n (λ i, is_true (c i)).

Lemma filterR_ok {A} (f : A → result bool) l k :
  filterR f l = Ok k → ∃ p, (∀ x, x ∈ l → f x = Ok (p x)) ∧ k = filter p l.
Proof.
  intros H. exists (λ x, match f x with Ok b => b | Err _ => false end). revert k H.
  induction l as [|x l IH]; intros k H; cbn in H; inv_bind.
  { split; [set_solver|done]. }
  destruct (IH _ Hx0) as [Hl ->]. split.
  - intros y [->|Hy]%elem_of_cons; [by rewrite Hx|by apply Hl].
  - destruct x0.
    + rewrite filter_cons_True by (rewrite Hx; exact I). done.
    + rewrite filter_cons_False by (rewrite Hx; tauto). done.
Qed.

(** A loop whose test decides the truth of [e] on each row. *)
Lemma collect_lists_true e test l :
  collect_rows test = Ok l →
  (∀ i b, (i < n)%nat → test i = Ok b → ∃ c, sem (row_of env i) e kInt = Ok c ∧ is_true c = b) →
  lists_true_rows e l.
Proof.
  unfold collect_rows. intros H Htest. unfold evaluates_rows in Hrows. rewrite Hrows in H. inv_bind.
  apply filterR_ok in Hx as (p & Hp & ->).
  assert (∀ i, (i < n)%nat → ∃ c, sem (row_of env i) e kInt = Ok c ∧ is_true c = p i) as Hc.
  { intros i Hi. apply (Htest i (p i) Hi), Hp. apply elem_of_seq. lia. }
  exists (λ i, match sem (row_of env i) e kInt with Ok c => c | Err _ => None end). split.
  - intros i Hi. destruct (Hc i Hi) as (c & -> & _). done.
  - apply rows_where_ext. intros i Hi. destruct (Hc i) as (c & -> & ->); [lia|done].
Qed.

(** Unclamped reads of a view. *)
Lemma view_row {t} (r : ExpressionResult t) i :
  shape n r → (i < n)%nat →
  view_Value (AsView r) i = view_Value (AsView r) (Nat.min i (view_Size (AsView r) - 1)) ∧
  view_IsNull (AsView r) i = view_IsNull (AsView r) (Nat.min i (view_Size (AsView r) - 1)).
Proof.
  intros Hs Hi. destruct (view_Size_shape env n Henv r Hs) as [H1|Hn].
  - by apply view_const.
  - rewrite Hn. by replace (Nat.min i (n - 1)) with i by lia.
Qed.

Lemma view_Value_er {t} (r : ExpressionResult t) i v :
  shape n r → (i < n)%nat → null_at (er_nulls r) i = false →
  view_Value (AsView r) i = Ok v → er_Value r i = Ok v.
Proof.
  intros [Hs _] Hi Hnull. unfold AsView, er_Value, er_size, null_at in *.
  destruct r as [vs ns]; cbn [er_values er_nulls] in *.
  destruct vs as [|x [|y vs]]; [cbn in *; lia| |].
  - rewrite Nat.min_0_r. destruct ns; cbn; done.
  - destruct ns as [|[] [|m ns]]; cbn [view_Value length]; intros Hv;
      try (apply vec_get_min in Hv; exact Hv).
    rewrite Nat.min_0_r in Hnull. done.
Qed.

Lemma PositionListScan_true e l :
  PositionListScan e = Ok l → lists_true_rows e l.
Proof.
  unfold PositionListScan. intros H. inv_bind.
  destruct (refines_all _ _ env n Henv e _ _ Hx) as [Hs Hc].
  eapply collect_lists_true; [done|]. intros i b Hi Ht. cbn beta in Ht.
  apply bind_ok in Ht as (v & Hv & Ht). rewrite <- Hc by done.
  unfold cell. rewrite er_IsNull_null_at. cbn [rbind].
  destruct (null_at (er_nulls x) i) eqn:Hnull.
  - exists None. split; [done|]. destruct (v =? 0); inv_bind; [done|].
    rewrite (proj2 (view_row x i Hs Hi)) in Hx0. apply (view_null n) in Hx0; try done. by subst; rewrite Hnull.
  - rewrite (view_Value_er _ _ _ Hs Hi Hnull Hv). cbn [rbind]. exists (Some v). split; [done|]. cbn.
    destruct (v =? 0); inv_bind; [done|].
    rewrite (proj2 (view_row x i Hs Hi)) in Hx0. apply (view_null n) in Hx0; try done. by subst; rewrite Hnull.
Qed.

Lemma PositionListIsNull_true c a l :
  PositionListIsNull c a = Ok l → lists_true_rows (IsNullExpr c a) l.
Proof.
  unfold PositionListIsNull. intros H. inv_bind. destruct x as [ta r].
  destruct (resolve_refines _ _ env n Henv a ta r (refines_all _ _ env n Henv a) Hx) as (Hs & _ & Hc).
  eapply collect_lists_true; [done|]. intros i b Hi Ht. cbn beta in Ht. inv_bind.
  rewrite (proj2 (view_row r i Hs Hi)) in Hx0. apply (view_null n) in Hx0; try done.
  destruct (Hc i Hi) as (cc & Hcc & Hres). cbn [RowSemantics.sem bool_cell]. rewrite Hres. cbn [rbind projT2].
  eexists. split; [done|]. unfold cell in Hcc. rewrite er_IsNull_null_at, Hx0 in Hcc. cbn [rbind] in Hcc.
  destruct x; inv_bind; cbn; by destruct (bool_decide (c = kIsNull)).
Qed.

Lemma cell_null_at {t} (r : ExpressionResult t) i :
  cell r i = if null_at (er_nulls r) i then Ok None else v ← er_Value r i; Ok (Some v).
Proof. unfold cell. by rewrite er_IsNull_null_at. Qed.

Lemma PositionListComparison_true c l r out :
  PositionListComparison c l r = Ok out → lists_true_rows (BinaryPredicate c l r) out.
Proof.
  unfold PositionListComparison. intros H. apply bind_ok in H as (c' & Hc' & H).
  apply bind_ok in H as ([ta x] & Hx & H). apply bind_ok in H as ([tb y] & Hy & H).
  apply bind_ok in H as (f & Hf & H). destruct (SupportsComparison kInt ta tb) eqn:Hsup; [|done].
  assert (IsBinaryNumericPredicateCondition c = true) as Hnum.
  { destruct c; try done; vm_compute in Hc'; inv_ok; discriminate Hf. }
  assert (f = StlComparison c') as -> by (destruct c'; cbn in Hf; congruence).
  destruct (resolve_refines _ _ env n Henv _ ta x (refines_all _ _ env n Henv _) Hx) as (Hsx & _ & Hcx).
  destruct (resolve_refines _ _ env n Henv _ tb y (refines_all _ _ env n Henv _) Hy) as (Hsy & _ & Hcy).
  eapply collect_lists_true; [done|]. intros i b Hi Ht. cbn beta in Ht.
  destruct (Hcx i Hi) as (cx & Hcx1 & Hcx2), (Hcy i Hi) as (cy & Hcy1 & Hcy2).
  assert (∃ res, null_strict (StlComparison c' ta tb) cx cy = Ok res ∧ is_true res = b) as (res & Hres & Hb).
  { rewrite cell_null_at in Hcx1. rewrite cell_null_at in Hcy1. rewrite !er_IsNull_null_at in Ht.
    cbn [rbind] in *.
    destruct (null_at (er_nulls x) i); cbn [rbind] in *; [inv_ok; by exists None|].
    destruct (null_at (er_nulls y) i); cbn [rbind] in *; [inv_ok; exists None; by destruct cx|].
    destruct (er_Value x i) as [a|], (er_Value y i) as [a'|]; cbn [rbind] in *; try done. inv_ok.
    cbn [null_strict]. destruct (StlComparison c' ta tb a a'); cbn in *; [|done].
    eexists. split; [done|]. by inv_ok. }
  exists res. split; [|done]. rewrite sem_comparison by done. cbn [rbind].
  destruct (bool_decide (c = kGreaterThan) || bool_decide (c = kGreaterThanEquals)).
  - rewrite Hcx2, Hcy2. cbn [rbind]. cbn. rewrite SupportsComparison_comm, Hsup.
    eapply null_strict_flip; [|exact Hres]. intros u w z. by apply StlComparison_flip.
  - inv_ok. rewrite Hcx2, Hcy2. cbn. by rewrite Hsup.
Qed.

Lemma is_true_kleene op (a b : option Z) :
  is_true (bool_to_int <$> kleene op (truth (any_cell (t := kInt) a)) (truth (any_cell (t := kInt) b))) =
  match op with kAnd => is_true a && is_true b | kOr => is_true a || is_true b end.
Proof.
  destruct op, a as [a|], b as [b|]; cbn; try destruct (a =? 0); try destruct (b =? 0); done.
Qed.

Lemma position_list_type f e l : position_list f e = Ok l → GetDataType e = Ok kInt.
Proof.
  revert e l. induction f as [|f IH]; intros e l H; [done|].
  destruct e; cbn in H; try done. by destruct v.
Qed.

Lemma lists_true_rows_all e l : EvaluateExpressionToPositionList e = Ok l → lists_true_rows e l.
Proof.
  remember (weight e) as w eqn:Hw. revert e l Hw.
  induction w as [w IH] using lt_wf_ind. intros e l -> H.
  rewrite EvaluateExpressionToPositionList_unfold in H.
  destruct e; try done; cbn [position_list_step] in H.
  - inv_bind. destruct (IH (weight e1)) with (e := e1) (l := x) as (c1 & Hc1 & ->); [cbn; lia|done..|].
    destruct (IH (weight e2)) with (e := e2) (l := x0) as (c2 & Hc2 & ->); [cbn; lia|done..|].
    eexists (λ i, bool_to_int <$> kleene op (truth (any_cell (t := kInt) (c1 i)))
                                            (truth (any_cell (t := kInt) (c2 i)))).
    split.
    + intros i Hi. rewrite sem_Logical, !resolve_bool by (by eapply position_list_type).
      by rewrite Hc1, Hc2.
    + destruct op; [rewrite intersection_rows|rewrite union_rows];
        apply rows_where_ext; intros i _; by rewrite is_true_kleene.
  - destruct c; first [by eapply PositionListComparison_true|by eapply PositionListScan_true].
  - destruct (IH _ (weight_Between c e1 e2 e3) _ _ eq_refl H) as (cc & Hcc & ->).
    exists cc. split; [|done]. intros i Hi. apply sem_Between. by apply Hcc.
  - by apply PositionListScan_true.
  - by apply PositionListIsNull_true.
  - destruct v; try done. exists (λ _, Some z). split; [done|].
    destruct (z =? 0) eqn:Hz; inv_ok.
    + cbn. rewrite Hz. cbn. clear. generalize 0%nat. induction n as [|m IHm]; intros s; [done|].
      rewrite rows_where_cons. apply IHm.
    + unfold collect_rows in H. unfold evaluates_rows in Hrows. rewrite Hrows in H. apply bind_ok in H as (k & Hk & [= <-]).
      apply filterR_ok in Hk as (p & Hp & ->).
      apply rows_where_ext. intros i Hi. cbn. rewrite Hz. cbn.
      assert (i ∈ seq 0 n) as Hin by (apply elem_of_seq; lia). specialize (Hp i Hin). congruence.
Qed.

(** The segment of an expression has its type, a row per input row and its values. *)
Lemma segment_of_expression e seg :
  EvaluateExpressionToSegment e = Ok seg →
  GetDataType e = Ok (seg_type seg) ∧ length (seg_values seg) = n ∧ wf_segment seg ∧
  ∀ i, (i < n)%nat → seg_GetTypedValue seg i = sem (row_of env i) e (seg_type seg).
Proof.
  unfold EvaluateExpressionToSegment. intros H. apply bind_ok in H as ([t r] & Hr & H).
  destruct (decide (t = kNull)) as [|Ht]; [done|].
  apply bind_ok in H as (vs & Hvs & H). apply bind_ok in H as (ns & Hns & [= <-]).
  pose proof Hrows as Hrows'. unfold evaluates_rows in Hrows'. rewrite Hrows' in Hvs, Hns. clear Hrows'.
  apply for_range_ok in Hvs as [Hlen Hval].
  destruct (resolve_refines _ _ env n Henv e t r (refines_all _ _ env n Henv e) Hr) as (Hs & _ & Hc).
  assert (GetDataType e = Ok t) as Hty.
  { unfold ResolveToExpressionResult in Hr. inv_bind. destruct (decide _); inv_bind; unfold any in *; by inj_any. }
  assert (∀ l, ns = Some l → length l = n ∧
    ∀ i, (i < n)%nat → ∃ b, l !! i = Some b ∧ view_IsNull (AsView r) i = Ok b) as Hflags.
  { intros l ->. destruct (view_IsNullable (AsView r)); [|done]. inv_bind. by apply for_range_ok. }
  cbn [seg_type seg_values]. split; [done|]. split; [done|]. split.
  { intros l Hl. cbn in *. destruct (Hflags l Hl). lia. }
  intros i Hi. destruct (Hc i Hi) as (c & Hcc & Hres). unfold resolve_cell in Hres.
  rewrite Hty in Hres. cbn [rbind] in Hres. rewrite decide_False in Hres by done.
  apply bind_ok in Hres as (c' & Hc' & Hres). rewrite Hc'. unfold any_cell in Hres.
  injection Hres as Hres. apply any_inj in Hres as ->.
  destruct (Hval i Hi) as (v & Hv & Hvv). rewrite cell_null_at in Hcc.
  assert (seg_IsNull (mkValueSegment t vs ns) i = Ok (null_at (er_nulls r) i)) as Hnull.
  { unfold seg_IsNull, IsNullable, seg_null_at. cbn [seg_null_values]. destruct ns as [l|].
    - rewrite bool_decide_true by done. destruct (Hflags l eq_refl) as [_ Hf].
      destruct (Hf i Hi) as (b & Hb & Hbb). cbn. unfold vec_get. rewrite Hb. cbn. f_equal.
      rewrite (proj2 (view_row r i Hs Hi)) in Hbb. symmetry. by eapply view_null.
    - rewrite bool_decide_false by (by intros []). f_equal. symmetry.
      apply (view_null n r i); [done..|]. rewrite <- (proj2 (view_row r i Hs Hi)), <- view_IsNull_guard.
      destruct (view_IsNullable (AsView r)) eqn:Hn; [|done]. by inv_bind. }
  unfold seg_GetTypedValue. rewrite Hnull. cbn [rbind].
  destruct (null_at (er_nulls r) i) eqn:Hna; [by injection Hcc as <-|].
  transitivity (Ok (Some v)).
  { assert (vec_get vs i = Ok v) as E by (apply of_option_ok; exact Hv).
    exact (f_equal (λ m, v ← m; Ok (Some v)) E). }
  rewrite (view_Value_er r i v Hs Hi Hna Hvv) in Hcc. by injection Hcc as <-.
Qed.
End Evaluate.

(** The position list of a predicate lists, in ascending order and without duplicates,
    exactly the rows of the chunk on which the predicate's row-wise meaning is true (not
    NULL), and the predicate has a meaning on every row.  In particular intersecting and
    uniting position lists implements three-valued AND and OR. *)
Theorem EvaluateExpressionToPositionList_correct lexical_cast_string try_lexical_convert env n e l :
  wf_env env n → evaluates_rows env n →
  EvaluateExpressionToPositionList lexical_cast_string try_lexical_convert env e = Ok l →
  ∃ c, (∀ i, (i < n)%nat → sem lexical_cast_string try_lexical_convert (row_of env i) e kInt = Ok (c i)) ∧
    l = mkRowId (env_chunk_id env) <$> filter (λ i, is_true (c i)) (seq 0 n).
Proof. intros Henv Hrows H. by apply (lists_true_rows_all _ _ env n Henv Hrows). Qed.

Definition positions_example : expr :=
  Logical kOr (IsNullExpr kIsNull (PqpColumn 0%N kInt true "a"))
    (BinaryPredicate kLessThan (PqpColumn 0%N kInt true "a") (Value (VInt 2))).

Lemma EvaluateExpressionToPositionList_correct_witness :
  ∃ c : nat → option Z,
    [mkRowId 0 0; mkRowId 0 1] = mkRowId 0 <$> filter (λ i, is_true (c i)) (seq 0 3) ∧
    sem (λ _ _, EmptyString) (λ _ _, None) (row_of evaluator_example 1) positions_example kInt = Ok (c 1%nat).
Proof.
  destruct (EvaluateExpressionToPositionList_correct (λ _ _, EmptyString) (λ _ _, None) evaluator_example 3
    positions_example [mkRowId 0 0; mkRowId 0 1] evaluator_example_wf eq_refl) as (c & Hc & Hl).
  { vm_compute. reflexivity. }
  exists c. split; [exact Hl|apply Hc; lia].
Defined.

(** C3: The segment computed for an expression has the expression's data type, one row per
    input row and a NULL flag per value if it is nullable; reading it back at a row gives the
    row-wise meaning of the expression on that row. *)
Theorem EvaluateExpressionToSegment_correct lexical_cast_string try_lexical_convert env n e seg :
  wf_env env n → evaluates_rows env n →
  EvaluateExpressionToSegment lexical_cast_string try_lexical_convert env e = Ok seg →
  GetDataType e = Ok (seg_type seg) ∧ length (seg_values seg) = n ∧ wf_segment seg ∧
  ∀ i, (i < n)%nat → seg_GetTypedValue seg i =
    sem lexical_cast_string try_lexical_convert (row_of env i) e (seg_type seg).
Proof. intros Henv Hrows H. by apply (segment_of_expression _ _ env n Henv Hrows). Qed.

Lemma EvaluateExpressionToSegment_correct_witness :
  let e := Arithmetic kAddition (PqpColumn 0%N kInt true "a") (Value (VInt 2)) in
  let seg := mkValueSegment kInt [3; 9; 5] (Some [false; true; false]) in
  seg_GetTypedValue seg 1 = sem (λ _ _, EmptyString) (λ _ _, None) (row_of evaluator_example 1) e kInt.
Proof.
  intros e seg.
  apply (EvaluateExpressionToSegment_correct (λ _ _, EmptyString) (λ _ _, None) evaluator_example 3 e seg
    evaluator_example_wf eq_refl); [vm_compute; reflexivity|lia].
Defined.
