(* ===== verification/Relations.v ===== *)
(** * Tables as lists of rows

    The row-level reading of a [Table] that the operators of [src/lib/operator/] are judged
    by: a row is the list of the variants that [operator[]] returns for one offset of the
    segments of a chunk; a table is the concatenation of the rows of its chunks. *)

From S2P Require Export Positions.

Abbreviation Row := (list AllTypeVariant).

Definition chunk_row (c : Chunk) (i : nat) : result Row := mapR (λ s, seg_index s i) c.
Definition chunk_rows (c : Chunk) : result (list Row) := for_range (chunk_Size c) (chunk_row c).
Definition chunks_rows (cs : list Chunk) : result (list Row) :=
  rows ← mapR chunk_rows cs; Ok (concat rows).
Definition table_rows (t : Table) : result (list Row) := chunks_rows (chunks t).

(** A table with at least one column whose chunks fit the column definitions. *)
Record wf_table (t : Table) : Prop := {
  wft_columns : (0 < length (column_definitions t))%nat;
  wft_width : (N.of_nat (length (column_definitions t)) < 2 ^ 32)%N;
  wft_count : (N.of_nat (length (chunks t)) < 2 ^ 32)%N;
  wft_chunks : ∀ c, c ∈ chunks t → ∃ n, wf_chunk (column_definitions t) n c;
  wft_typed : Forall (λ d, tcd_data_type d ≠ kNull) (column_definitions t) }.

Lemma seg_index_ok s i : wf_segment s → (i < length (seg_values s))%nat → ∃ v, seg_index s i = Ok v.
Proof.
  intros Hwf Hi. unfold seg_index, seg_IsNull, IsNullable, seg_null_at, vec_get, vec_at.
  destruct (lookup_lt_is_Some_2 (seg_values s) i Hi) as [v Hv]. rewrite Hv.
  destruct (seg_null_values s) as [nulls|] eqn:Hn; cbn; [|eauto].
  destruct (lookup_lt_is_Some_2 nulls i) as [b Hb]; [by rewrite (Hwf _ Hn)|].
  rewrite Hb. cbn. destruct b; eauto.
Qed.

(** What a typed read of a variant of the segment gives back. *)
Lemma seg_index_variant s i v :
  seg_index s i = Ok v → VariantIsNull v = false → ∃ x, variant_get (seg_type s) v = Ok x.
Proof.
  unfold seg_index. intros H Hv. inv_bind. destruct x; inv_bind; [done|].
  exists x. apply variant_get_to_variant.
Qed.

Section Chunk.
Context (defs : TableColumnDefinitions) (n : nat) (c : Chunk).
Hypothesis Hwf : wf_chunk defs n c.
Hypothesis Hdefs : (0 < length defs)%nat.

Lemma chunk_length : length c = length defs.
Proof. pose proof (wfc_types _ _ _ Hwf) as H. apply (f_equal length) in H. by rewrite !length_fmap in H. Qed.

Lemma chunk_Size_wf : chunk_Size c = n.
Proof.
  pose proof chunk_length as Hl. pose proof (wfc_rows _ _ _ Hwf) as Hr.
  destruct c as [|s c']; [cbn in Hl; lia|]. apply Forall_cons in Hr as [Hs _]. cbn. unfold seg_size.
  rewrite Hs. apply u32_id. pose proof (wfc_bound _ _ _ Hwf). lia.
Qed.

Lemma chunk_segment k s :
  c !! k = Some s → wf_segment s ∧ length (seg_values s) = n ∧ seg_type s ≠ kNull ∧
  ∃ d, defs !! k = Some d ∧ tcd_data_type d = seg_type s.
Proof.
  intros Hs. destruct Hwf as [Ht Hr Hn _ _ Hty]. rewrite Forall_lookup in Hr, Hn, Hty.
  split; [by eapply Hn|]. split; [by eapply Hr|]. split; [by eapply Hty|].
  assert ((seg_type <$> c) !! k = Some (seg_type s)) as H
    by (rewrite list_lookup_fmap; exact (f_equal (fmap seg_type) Hs)).
  rewrite Ht, list_lookup_fmap in H. apply fmap_Some in H as (d & Hd & Hty'). by exists d.
Qed.

Lemma chunk_row_ok i : (i < n)%nat → ∃ r, chunk_row c i = Ok r.
Proof.
  intros Hi. unfold chunk_row.
  assert (∀ s, s ∈ c → ∃ v, seg_index s i = Ok v) as H.
  { intros s [k Hk]%list_elem_of_lookup. destruct (chunk_segment k s Hk) as (? & ? & _).
    apply seg_index_ok; [done|lia]. }
  clear -H. induction c as [|s c' IH]; cbn; [by exists []|].
  destruct (H s) as [v Hv]; [by left|]. rewrite Hv. cbn.
  destruct IH as [r Hr]; [intros; apply H; by right|]. rewrite Hr. by eexists.
Qed.
End Chunk.

Lemma elem_of_concat {A} (x : A) ls : x ∈ concat ls ↔ ∃ l, x ∈ l ∧ l ∈ ls.
Proof.
  induction ls as [|l ls IH]; cbn.
  - split; [by intros ?%elem_of_nil|]. by intros (? & _ & ?%elem_of_nil).
  - rewrite elem_of_app, IH. split.
    + intros [Hx|(k & ? & ?)]; [exists l; split; [done|by left]|exists k; split; [done|by right]].
    + intros (k & Hx & [->|Hk]%elem_of_cons); [by left|right; eauto].
Qed.

Lemma for_range_total {A} n (f : nat → result A) :
  (∀ i, (i < n)%nat → ∃ a, f i = Ok a) → ∃ l, for_range n f = Ok l.
Proof.
  unfold for_range. intros H.
  assert (∀ i, i ∈ seq 0 n → ∃ a, f i = Ok a) as H' by (intros i Hi%elem_of_seq; apply H; lia).
  clear H. induction (seq 0 n) as [|i l IH]; cbn; [by exists []|].
  destruct (H' i) as [a Ha]; [by left|]. destruct IH as [k Hk]; [intros; apply H'; by right|].
  rewrite Ha. cbn. rewrite Hk. by eexists.
Qed.

Lemma for_range_eq {A} n (f : nat → result A) l :
  length l = n → (∀ i a, l !! i = Some a → f i = Ok a) → for_range n f = Ok l.
Proof.
  intros <- H. unfold for_range. apply mapR_ok_Forall2. apply Forall2_same_length_lookup_2.
  - by rewrite length_seq.
  - intros i j a Hj Ha. apply lookup_seq in Hj as [-> _]. by apply H.
Qed.

Lemma for_range_take {A} n k (f : nat → result A) l :
  for_range n f = Ok l → (k ≤ n)%nat → for_range k f = Ok (take k l).
Proof.
  intros [Hl Hf]%for_range_ok Hk. apply for_range_eq; [rewrite length_take; lia|].
  intros i a [Ha Hi]%lookup_take_Some. destruct (Hf i) as (b & ? & ?); [lia|]. by simplify_eq.
Qed.

Lemma chunks_rows_cons c cs :
  chunks_rows (c :: cs) = (r ← chunk_rows c; rs ← chunks_rows cs; Ok (r ++ rs)).
Proof.
  unfold chunks_rows. cbn. destruct (chunk_rows c); cbn; [|done]. by destruct (mapR chunk_rows cs).
Qed.

Lemma mapR_app {A B} (f : A → result B) l k :
  mapR f (l ++ k) = (x ← mapR f l; y ← mapR f k; Ok (x ++ y)).
Proof.
  induction l as [|a l IH]; cbn; [by destruct (mapR f k)|].
  destruct (f a); cbn; [|done]. rewrite IH. destruct (mapR f l); cbn; [|done]. by destruct (mapR f k).
Qed.

Lemma chunk_rows_length c r : chunk_rows c = Ok r → length r = chunk_Size c.
Proof. by intros [? _]%for_range_ok. Qed.

Lemma chunk_rows_wf defs n c : wf_chunk defs n c → (0 < length defs)%nat → ∃ r, chunk_rows c = Ok r ∧ length r = n.
Proof.
  intros Hwf Hd. destruct (for_range_total (chunk_Size c) (chunk_row c)) as [r Hr].
  { intros i Hi. rewrite (chunk_Size_wf defs n c Hwf Hd) in Hi. by eapply chunk_row_ok. }
  exists r. split; [done|]. rewrite (chunk_rows_length c r Hr). by eapply chunk_Size_wf.
Qed.

Lemma chunks_rows_wf defs cs :
  (0 < length defs)%nat → (∀ c, c ∈ cs → ∃ n, wf_chunk defs n c) → ∃ rs, chunks_rows cs = Ok rs.
Proof.
  intros Hd. induction cs as [|c cs IH]; intros H; [by exists []|].
  destruct (H c) as [n Hn]; [by left|]. destruct (chunk_rows_wf defs n c Hn Hd) as (r & Hr & _).
  destruct IH as [rs Hrs]; [intros; apply H; by right|].
  rewrite chunks_rows_cons, Hr, Hrs. by eexists.
Qed.

(** A well-formed table can be read. *)
Lemma table_rows_total t : wf_table t → ∃ rs, table_rows t = Ok rs.
Proof. intros [Hc _ _ Hchunks _]. by apply (chunks_rows_wf (column_definitions t)). Qed.

(** ** Deciding well-formedness, for concrete tables *)
Definition wf_segmentb (s : ValueSegment) : bool :=
  match seg_null_values s with Some nulls => bool_decide (length nulls = length (seg_values s)) | None => true end.

Definition wf_chunkb (defs : TableColumnDefinitions) (c : Chunk) : bool :=
  let n := match c with [] => 0%nat | s :: _ => length (seg_values s) end in
  bool_decide (seg_type <$> c = tcd_data_type <$> defs) &&
  forallb (λ s, bool_decide (length (seg_values s) = n) && wf_segmentb s && negb (bool_decide (seg_type s = kNull))) c &&
  forallb (λ ds : TableColumnDefinition * ValueSegment, negb (tcd_nullable ds.1) || IsNullable ds.2) (zip defs c) &&
  (N.of_nat n <? 2 ^ 32 - 1)%N.

Definition wf_tableb (t : Table) : bool :=
  (0 <? length (column_definitions t))%nat && (N.of_nat (length (column_definitions t)) <? 2 ^ 32)%N &&
  (N.of_nat (length (chunks t)) <? 2 ^ 32)%N && forallb (wf_chunkb (column_definitions t)) (chunks t) &&
  forallb (λ d, negb (bool_decide (tcd_data_type d = kNull))) (column_definitions t).

Lemma forallb_Forall {A} (f : A → bool) l : forallb f l = true → Forall (λ x, f x = true) l.
Proof. rewrite List.forallb_forall, List.Forall_forall. done. Qed.

Lemma negb_decide (P : Prop) `{Decision P} : negb (bool_decide P) = true → ¬ P.
Proof. by intros ?%negb_true_iff%bool_decide_eq_false. Qed.

Lemma wf_chunkb_ok defs c : wf_chunkb defs c = true → ∃ n, wf_chunk defs n c.
Proof.
  unfold wf_chunkb. set (n := match c with [] => 0%nat | s :: _ => _ end). rewrite !andb_true_iff. intros [[[Ht Hs] Hn] Hb].
  apply bool_decide_eq_true in Ht. apply forallb_Forall in Hs, Hn. exists n. split; [done| | | | |].
  - eapply Forall_impl; [exact Hs|]. intros s H. rewrite !andb_true_iff in H. destruct H as [[H _] _]. by apply bool_decide_eq_true in H.
  - eapply Forall_impl; [exact Hs|]. intros s H. rewrite !andb_true_iff in H. destruct H as [[_ H] _]. intros nulls E.
    unfold wf_segmentb in H. rewrite E in H. by apply bool_decide_eq_true in H.
  - apply (f_equal length) in Ht. rewrite !length_fmap in Ht. apply Forall2_same_length_lookup_2; [done|]. intros i d s Hd Hsi Hnull.
    rewrite Forall_lookup in Hn. specialize (Hn i (d, s)). rewrite lookup_zip_with, Hd in Hn. cbn in Hn. rewrite Hsi in Hn. specialize (Hn eq_refl).
    cbn in Hn. by rewrite Hnull in Hn.
  - by apply N.ltb_lt.
  - eapply Forall_impl; [exact Hs|]. intros s H. rewrite !andb_true_iff in H. destruct H as [_ H]. by apply negb_decide in H.
Qed.

Lemma wf_tableb_ok t : wf_tableb t = true → wf_table t.
Proof.
  unfold wf_tableb. rewrite !andb_true_iff. intros [[[[H1 H2] H3] H4] H5]. apply forallb_Forall in H4, H5.
  split; [by apply Nat.ltb_lt|by apply N.ltb_lt|by apply N.ltb_lt| |].
  - intros c Hc. rewrite Forall_forall in H4. by apply wf_chunkb_ok, H4.
  - eapply Forall_impl; [exact H5|]. intros d Hd. by apply negb_decide in Hd.
Qed.
