(* ===== verification/Limit.v ===== *)
(** * LIMIT

    [src/lib/operator/limit_operator.cpp].  Whole chunks are shared with the input; the chunk
    in which the row count ends is copied up to it. *)

From S2P Require Export Relations.

(** One column of the final chunk.  The value of the copy is typed by the column definition. *)
Definition slice_segment (t : Table) (input_chunk : Chunk) (rows_to_keep column_id : nat)
    : result ValueSegment :=
  data_type ← ColumnDataType t column_id;
  ResolveDataType data_type (λ dt,
    input_segment ← chunk_GetSegment input_chunk column_id;
    cells ← for_range rows_to_keep (λ i,
      value ← seg_index input_segment i;
      if VariantIsNull value then Ok (default dt, true)
      else v ← variant_get dt value; Ok (v, false));
    Ok (mkValueSegment dt cells.*1 (Some cells.*2))).

Fixpoint limit_chunks (t : Table) (row_count : nat) (cs : list Chunk) : result (list Chunk) :=
  match cs with
  | [] => Ok []
  | input_chunk :: cs' =>
      if (chunk_Size input_chunk <=? row_count)%nat then
        rest ← limit_chunks t (row_count - chunk_Size input_chunk) cs';
        Ok (input_chunk :: rest)
      else
        output_segments ← for_range (GetColumnCount t) (slice_segment t input_chunk row_count);
        Ok [output_segments]
  end.

Section Limit.
Variable lexical_cast_string : ∀ t, ctype t → string.
Variable try_lexical_convert : ∀ t, string → option (ctype t).

(** [OnExecute].  The int32 row count becomes unsigned. *)
Definition LimitOperator (t : Table) (row_count : expr) : result Table :=
  r ← EvaluateExpressionToResult lexical_cast_string try_lexical_convert
        make_evaluator_without_table kInt row_count;
  null ← er_IsNull r 0;
  _ ← assert_ (negb null) AssertionFailed;
  z ← vec_get (er_values r) 0;
  output_chunks ← limit_chunks t (Z.to_nat (wrap_uint32 z)) (take (ChunkCount t) (chunks t));
  Ok (mkTable (column_definitions t) output_chunks None).
End Limit.

(** ** The sliced chunk holds a prefix of the rows *)
Section Slice.
Context (t : Table) (n : nat) (c : Chunk) (k : nat).
Hypothesis Hwf : wf_chunk (column_definitions t) n c.
Hypothesis Hk : (k ≤ n)%nat.

Lemma slice_cell s i :
  s ∈ c → (i < n)%nat → ∃ v x, seg_index s i = Ok v ∧
    (if VariantIsNull v then Ok (default (seg_type s), true)
     else y ← variant_get (seg_type s) v; Ok (y, false)) = Ok x ∧
    (if x.2 then VNull else to_variant (seg_type s) x.1) = v.
Proof.
  intros [j Hj]%list_elem_of_lookup Hi. destruct (chunk_segment _ _ _ Hwf j s Hj) as (Hw & Hl & _ & _).
  destruct (seg_index_ok s i Hw) as [v Hv]; [lia|]. exists v. rewrite Hv.
  destruct (VariantIsNull v) eqn:Hn.
  - eexists. split; [done|]. split; [done|]. cbn. by destruct v.
  - destruct (seg_index_variant _ _ _ Hv Hn) as [y Hy]. rewrite Hy. eexists. split; [done|].
    split; [done|]. cbn. by apply variant_get_ok.
Qed.

Lemma slice_segment_ok j s :
  c !! j = Some s → ∃ s', slice_segment t c k j = Ok s' ∧ length (seg_values s') = k ∧
    wf_segment s' ∧ seg_type s' = seg_type s ∧ IsNullable s' = true ∧
    ∀ i, (i < k)%nat → seg_index s' i = seg_index s i.
Proof.
  intros Hj. destruct (chunk_segment _ _ _ Hwf j s Hj) as (Hw & Hl & Hty & d & Hd & Hdt).
  unfold slice_segment, ColumnDataType, vec_get, chunk_GetSegment, vec_at.
  rewrite Hd, Hj. cbn [of_option rbind].
  rewrite Hdt, ResolveDataType_typed by done.
  destruct (for_range_total k (λ i, value ← seg_index s i;
    if VariantIsNull value then Ok (default (seg_type s), true)
    else v ← variant_get (seg_type s) value; Ok (v, false))) as [cells Hcells].
  { intros i Hi. destruct (slice_cell s i) as (v & x & -> & Hx & _); [|lia|by exists x].
    apply list_elem_of_lookup. by exists j. }
  exists (mkValueSegment (seg_type s) cells.*1 (Some cells.*2)).
  pose proof Hcells as [Hlen Hval]%for_range_ok.
  split; [by rewrite Hcells|].
  split; [by cbn; rewrite length_fmap|].
  split; [intros l [= <-]; cbn; by rewrite !length_fmap|].
  split; [done|]. split; [by unfold IsNullable; rewrite bool_decide_true|].
  intros i Hi. destruct (Hval i Hi) as (x & Hx & Hxv).
  destruct (slice_cell s i) as (v & x' & Hv & Hx' & Hback); [|lia|].
  { apply list_elem_of_lookup. by exists j. }
  rewrite Hv in *. cbn [rbind] in Hxv. rewrite Hx' in Hxv. injection Hxv as ->.
  rewrite <- Hback. unfold seg_index, seg_IsNull, IsNullable, seg_null_at, vec_get, vec_at.
  cbn [seg_null_values seg_values seg_type]. rewrite bool_decide_true by done. cbn [of_option rbind].
  rewrite !list_lookup_fmap, Hx. cbn. by destruct (x.2).
Qed.
End Slice.

(** Columns that agree row by row give chunks that agree row by row. *)
Lemma chunk_row_ext c c' i i' :
  Forall2 (λ s s', seg_index s i = seg_index s' i') c c' → chunk_row c i = chunk_row c' i'.
Proof. unfold chunk_row. induction 1 as [|s s' c c' Hs _ IH]; cbn; [done|]. by rewrite Hs, IH. Qed.

Lemma wft_chunk_lookup t c n : wf_chunk (column_definitions t) n c → wf_table t →
  ∀ j, (j < GetColumnCount t)%nat → ∃ s, c !! j = Some s.
Proof.
  intros Hc Ht j Hj. apply lookup_lt_is_Some_2. rewrite (chunk_length _ _ _ Hc).
  unfold GetColumnCount in Hj. rewrite u32_id in Hj by apply Ht. done.
Qed.

Lemma slice_chunk t n c k :
  wf_table t → wf_chunk (column_definitions t) n c → (k < n)%nat →
  ∃ c', for_range (GetColumnCount t) (slice_segment t c k) = Ok c' ∧
    wf_chunk (column_definitions t) k c' ∧
    ∀ rows, chunk_rows c = Ok rows → chunk_rows c' = Ok (take k rows).
Proof.
  intros Ht Hc Hk. assert (k ≤ n)%nat as Hk' by lia.
  assert (GetColumnCount t = length (column_definitions t)) as Hcc.
  { unfold GetColumnCount. apply u32_id, Ht. }
  destruct (for_range_total (GetColumnCount t) (slice_segment t c k)) as [c' Hc'].
  { intros j Hj. destruct (wft_chunk_lookup t c n Hc Ht j Hj) as [s Hs].
    destruct (slice_segment_ok t n c k Hc Hk' j s Hs) as (s' & ? & _). eauto. }
  exists c'. split; [done|]. pose proof Hc' as [Hlen Hval]%for_range_ok.
  assert (Forall2 (λ s s', length (seg_values s') = k ∧ wf_segment s' ∧ seg_type s' = seg_type s ∧
    IsNullable s' = true ∧ ∀ i, (i < k)%nat → seg_index s' i = seg_index s i) c c') as HF.
  { apply Forall2_same_length_lookup_2; [by rewrite Hlen, Hcc, (chunk_length _ _ _ Hc)|].
    intros j s s' Hs Hs'. destruct (Hval j) as (s'' & Hs'' & Hslice).
    { apply lookup_lt_Some in Hs'. lia. }
    destruct (slice_segment_ok t n c k Hc Hk' j s Hs) as (s3 & H3 & Hrest). rewrite H3 in Hslice. by simplify_eq. }
  assert (wf_chunk (column_definitions t) k c') as Hwf'.
  { destruct Hc as [Hty Hr Hn Hnu Hb Htyped]. split.
    - rewrite <- Hty. clear -HF. induction HF as [|s s' ? ? (? & ? & H & ?)]; cbn; [done|]. by rewrite H, IHHF.
    - clear -HF. induction HF as [|s s' ? ? (H & ?)]; constructor; done.
    - clear -HF. induction HF as [|s s' ? ? (? & H & ?)]; constructor; done.
    - apply Forall2_same_length_lookup_2; [by rewrite Hlen, Hcc|].
      intros j d s' _ Hs' _. destruct (Forall2_lookup_r _ _ _ _ _ HF Hs') as (s & _ & ? & ? & ? & ? & ?). done.
    - lia.
    - clear -HF Htyped. induction HF as [|s s' ? ? (? & ? & H & ?)]; [constructor|].
      apply Forall_cons in Htyped as [? ?]. constructor; [congruence|auto]. }
  split; [done|]. intros rows Hrows. unfold chunk_rows in *.
  rewrite (chunk_Size_wf _ _ _ Hwf') by apply Ht.
  rewrite (chunk_Size_wf _ _ _ Hc) in Hrows by apply Ht.
  apply for_range_eq; [rewrite length_take; apply for_range_ok in Hrows; lia|].
  intros i r [Hr Hi]%lookup_take_Some. apply for_range_ok in Hrows as [_ Hrows].
  destruct (Hrows i) as (r' & Hr' & Hrow); [lia|]. simplify_eq. rewrite <- Hrow. symmetry.
  apply chunk_row_ext. eapply Forall2_impl; [exact HF|]. intros s s' (_ & _ & _ & _ & H). symmetry. by apply H.
Qed.

Lemma limit_chunks_ok t k cs rows :
  wf_table t → (∀ c, c ∈ cs → ∃ n, wf_chunk (column_definitions t) n c) →
  chunks_rows cs = Ok rows →
  ∃ out, limit_chunks t k cs = Ok out ∧ chunks_rows out = Ok (take k rows) ∧
    (∀ c, c ∈ out → ∃ n, wf_chunk (column_definitions t) n c) ∧ (length out ≤ length cs)%nat.
Proof.
  intros Ht. revert k rows. induction cs as [|c cs IH]; intros k rows Hcs Hrows.
  { exists []. cbn in *. inv_ok. by rewrite take_nil. }
  destruct (Hcs c) as [n Hc]; [by left|]. rewrite chunks_rows_cons in Hrows. inv_bind.
  cbn [limit_chunks]. pose proof (chunk_rows_length c x Hx) as Hlen.
  rewrite (chunk_Size_wf _ _ _ Hc) in * by apply Ht.
  destruct (Nat.leb_spec n k) as [Hle|Hgt].
  - destruct (IH (k - n)%nat x0) as (out & Hout & Hr & Hwf & Hl); [intros; apply Hcs; by right|done|].
    rewrite Hout. exists (c :: out). split; [done|].
    split; [by rewrite chunks_rows_cons, Hx, Hr, take_app_ge, Hlen by lia|].
    split; [|cbn; lia]. intros d [->|Hd]%elem_of_cons; [eauto|by apply Hwf].
  - destruct (slice_chunk t n c k Ht Hc Hgt) as (c' & Hc' & Hwf' & Hr). rewrite Hc'. exists [c'].
    split; [done|]. split; [|split; [|cbn; lia]].
    + rewrite chunks_rows_cons, (Hr x Hx). cbn. by rewrite app_nil_r, take_app_le by lia.
    + intros d ->%list_elem_of_singleton. eauto.
Qed.

(** LIMIT succeeds on every well-formed table once its row count expression has a value,
    keeps the schema and well-formedness, and returns exactly the prefix of the input rows
    of that length; the int32 count is read as unsigned, so a negative one keeps (up to)
    2^32 - |z| rows instead of failing. *)
Theorem LimitOperator_correct lexical_cast_string try_lexical_convert t row_count r z rows :
  wf_table t → table_rows t = Ok rows →
  EvaluateExpressionToResult lexical_cast_string try_lexical_convert
    make_evaluator_without_table kInt row_count = Ok r →
  cell r 0 = Ok (Some z) →
  ∃ t', LimitOperator lexical_cast_string try_lexical_convert t row_count = Ok t' ∧
    column_definitions t' = column_definitions t ∧ wf_table t' ∧
    table_rows t' = Ok (take (Z.to_nat (wrap_uint32 z)) rows).
Proof.
  intros Ht Hrows Hev Hz. unfold LimitOperator. rewrite Hev. cbn [rbind].
  unfold cell in Hz. destruct (er_IsNull r 0) as [[]|]; cbn in Hz; [done| |done]. inv_bind.
  unfold er_Value in Hx. rewrite Nat.min_0_l in Hx. cbn [rbind negb assert_]. rewrite Hx. cbn [rbind].
  unfold ChunkCount. rewrite u32_id by apply Ht. rewrite firstn_all.
  destruct (limit_chunks_ok t (Z.to_nat (wrap_uint32 z)) (chunks t) rows Ht (wft_chunks t Ht) Hrows)
    as (out & Hout & Hr & Hwf & Hl).
  rewrite Hout. eexists. split; [done|]. split; [done|]. split; [|done].
  destruct Ht. split; cbn; try done. lia.
Qed.

Definition limit_example : Table :=
  mkTable [mkTableColumnDefinition "a" kInt false]
    [[mkValueSegment kInt [1; 2] None]; [mkValueSegment kInt [3; 4; 5] None]] None.

Lemma limit_example_wf : wf_table limit_example.
Proof.
  split; cbn; [lia|done|done| |by repeat constructor]. intros c Hc. rewrite !elem_of_cons in Hc.
  destruct Hc as [->|[->|Hc]]; [exists 2%nat|exists 3%nat|set_solver];
    (split; [done|repeat constructor|repeat constructor|repeat constructor|done|repeat constructor]); done.
Qed.

Lemma LimitOperator_correct_witness :
  ∃ t', LimitOperator (λ _ _, EmptyString) (λ _ _, None) limit_example (Value (VInt 3)) = Ok t' ∧
    table_rows t' = Ok [[VInt 1]; [VInt 2]; [VInt 3]].
Proof.
  destruct (LimitOperator_correct (λ _ _, EmptyString) (λ _ _, None) limit_example (Value (VInt 3))
    (mkExpressionResult (t := kInt) [3] []) 3
    [[VInt 1]; [VInt 2]; [VInt 3]; [VInt 4]; [VInt 5]] limit_example_wf) as (t' & H & _ & _ & Hr);
    [vm_compute; reflexivity|vm_compute; reflexivity|vm_compute; reflexivity|].
  exists t'. split; [exact H|exact Hr].
Defined.
