(* ===== verification/Filter.v ===== *)
(** * Filter

    [src/lib/operator/filter_operator.cpp] with
    [filter/expression_evaluator_filter_implementation.cpp].  One job per chunk collects the
    matching rows; the jobs push their chunk under a mutex, so the order of the output chunks
    is the order in which the scheduler finishes them: [schedule] lists the chunk ids in that
    order. *)

From Stdlib Require Import Permutation.
From S2P Require Export Limit.

Section Filter.
Variable lexical_cast_string : ∀ t, ctype t → string.
Variable try_lexical_convert : ∀ t, string → option (ctype t).
Variable predicate : expr.

Definition FilterChunk (t : Table) (chunk_id : nat) : result (list RowId) :=
  env ← make_evaluator t chunk_id;
  EvaluateExpressionToPositionList lexical_cast_string try_lexical_convert env predicate.

(** The matching rows of one column: no NULL flags are written. *)
Definition filter_segment (t : Table) (input_chunk : Chunk) (matches : list RowId) (column_id : nat)
    : result ValueSegment :=
  data_type ← ColumnDataType t column_id;
  ResolveDataType data_type (λ dt,
    input_segment ← chunk_GetSegment input_chunk column_id;
    segment_values ← mapR (λ m,
      v ← seg_index input_segment (chunk_offset m); variant_get dt v) matches;
    Ok (mkValueSegment dt segment_values None)).

(** The job of one chunk; [None] when nothing matches. *)
Definition perform_filter (t : Table) (chunk_id : nat) : result (option Chunk) :=
  input_chunk ← GetChunk t chunk_id;
  matches ← FilterChunk t chunk_id;
  match matches with
  | [] => Ok None
  | _ =>
    output_segments ←
      (if bool_decide (length matches = chunk_Size input_chunk)
       then for_range (GetColumnCount t) (chunk_GetSegment input_chunk)
       else for_range (GetColumnCount t) (filter_segment t input_chunk matches));
    Ok (Some output_segments)
  end.

Definition FilterOperator (schedule : list nat) (t : Table) : result Table :=
  jobs ← mapR (perform_filter t) schedule;
  Ok (mkTable (column_definitions t) (omap id jobs) None).

(** ** Rows *)
Definition sem_pred (row : ColumnId → result AllTypeVariant) : result (option Z) :=
  sem lexical_cast_string try_lexical_convert row predicate kInt.

(** Whether the predicate is true on row [i] of chunk [c]. *)
Definition row_matches (t : Table) (c : Chunk) (chunk_id i : nat) : bool :=
  match sem_pred (row_of (mkEnv (Some (t, c)) chunk_id (chunk_Size c)) i) with
  | Ok v => is_true v
  | Err _ => false
  end.

(** The offsets of chunk [c] on which the predicate is true. *)
Definition matching (t : Table) (c : Chunk) (chunk_id : nat) : list nat :=
  filter (row_matches t c chunk_id) (seq 0 (chunk_Size c)).

Lemma FilterChunk_matching t c n id l :
  wf_table t → chunks t !! id = Some c → wf_chunk (column_definitions t) n c →
  FilterChunk t id = Ok l → l = mkRowId id <$> matching t c id.
Proof.
  intros Ht Hc Hwf. unfold FilterChunk, make_evaluator, GetChunk, vec_get. rewrite Hc. cbn. intros H.
  assert (chunk_Size c = n) as Hn by (eapply chunk_Size_wf; [done|apply Ht]).
  destruct (lists_true_rows_all _ _ (mkEnv (Some (t, c)) id (chunk_Size c)) n Hwf Hn _ _ H) as (v & Hv & ->).
  unfold matching. rewrite Hn. apply rows_where_ext. intros i Hi.
  unfold row_matches, sem_pred. rewrite Hv by lia. done.
Qed.

Lemma matching_lt t c id i : i ∈ matching t c id → (i < chunk_Size c)%nat.
Proof. unfold matching. intros [_ H%elem_of_seq]%list_elem_of_filter. lia. Qed.

(** A copied column holds the values of the matching rows. *)
Lemma filter_segment_rows t c n j s ms s' :
  wf_chunk (column_definitions t) n c → c !! j = Some s → filter_segment t c ms j = Ok s' →
  length (seg_values s') = length ms ∧ seg_type s' = seg_type s ∧ wf_segment s' ∧
  ∀ i m, ms !! i = Some m → seg_index s' i = seg_index s (chunk_offset m).
Proof.
  intros Hwf Hs. destruct (chunk_segment _ _ _ Hwf j s Hs) as (_ & _ & Hty & d & Hd & Hdt).
  unfold filter_segment, ColumnDataType, vec_get, chunk_GetSegment, vec_at. rewrite Hd, Hs. cbn [of_option rbind].
  rewrite Hdt, ResolveDataType_typed by done. intros H. inv_bind. cbn.
  split; [by eapply mapR_ok_length|]. split; [done|]. split; [done|]. intros i m Hm.
  destruct (mapR_ok_lookup _ _ _ _ _ Hx Hm) as (v & Hv & Hvv). inv_bind.
  rewrite Hx0. unfold seg_index, seg_IsNull, IsNullable. cbn. unfold vec_at. rewrite Hv. cbn.
  f_equal. by apply variant_get_ok.
Qed.

(** The rows at some offsets. *)
Definition pick {A} (rows : list A) (offsets : list nat) : list A := omap (λ i, rows !! i) offsets.

Lemma pick_length {A} (rows : list A) offsets :
  (∀ i, i ∈ offsets → (i < length rows)%nat) → length (pick rows offsets) = length offsets.
Proof.
  unfold pick. induction offsets as [|i l IH]; intros H; [done|]. cbn.
  destruct (lookup_lt_is_Some_2 rows i) as [x Hx]; [apply H; by left|]. rewrite Hx. cbn.
  f_equal. apply IH. intros; apply H; by right.
Qed.

Lemma pick_lookup {A} (rows : list A) offsets j :
  (∀ i, i ∈ offsets → (i < length rows)%nat) →
  pick rows offsets !! j = (i ← offsets !! j; rows !! i)%stdpp.
Proof.
  unfold pick. revert j. induction offsets as [|i l IH]; intros j H; [done|]. cbn.
  destruct (lookup_lt_is_Some_2 rows i) as [x Hx]; [apply H; by left|]. rewrite Hx.
  destruct j as [|j]; cbn; [done|]. apply IH. intros; apply H; by right.
Qed.

Lemma pick_all {A} (rows : list A) : pick rows (seq 0 (length rows)) = rows.
Proof.
  apply list_eq. intros j. rewrite pick_lookup by (intros i Hi%elem_of_seq; lia).
  destruct (decide (j < length rows)%nat).
  - by rewrite lookup_seq_lt.
  - rewrite lookup_seq_ge, lookup_ge_None_2 by lia. done.
Qed.

Lemma filter_full {A} (p : A → bool) l : length (filter p l) = length l → filter p l = l.
Proof.
  induction l as [|x l IH]; [done|]. destruct (p x) eqn:Hp.
  - rewrite filter_cons_True by (by rewrite Hp). cbn. intros [= ?]. by rewrite IH.
  - rewrite filter_cons_False by (rewrite Hp; tauto). pose proof (length_filter p l). cbn. lia.
Qed.

Lemma perform_filter_rows t c n id o rows :
  wf_table t → chunks t !! id = Some c → wf_chunk (column_definitions t) n c →
  perform_filter t id = Ok o → chunk_rows c = Ok rows →
  from_option chunk_rows (Ok []) o = Ok (pick rows (matching t c id)).
Proof.
  intros Ht Hc Hwf H Hrows. unfold perform_filter, GetChunk, vec_get in H. rewrite Hc in H. cbn [of_option rbind] in H.
  apply bind_ok in H as (ms & Hms & H). rewrite (FilterChunk_matching t c n id ms) in H by done.
  assert (GetColumnCount t = length c) as Hcc.
  { rewrite (chunk_length _ _ _ Hwf). unfold GetColumnCount. apply u32_id, Ht. }
  pose proof (chunk_rows_length c rows Hrows) as Hlen.
  assert (∀ i, i ∈ matching t c id → (i < length rows)%nat) as Hlt.
  { intros i Hi. rewrite Hlen. by eapply matching_lt. }
  destruct (matching t c id) as [|i0 l0] eqn:Hm; [cbn in H; inv_ok; done|]. rewrite <- Hm in *.
  assert (∃ y ys, mkRowId id <$> matching t c id = y :: ys) as (y & ys & Hy) by (rewrite Hm; cbn; eauto).
  rewrite Hy in H. rewrite <- Hy in H. apply bind_ok in H as (c' & Hc' & [= <-]). cbn [from_option].
  case_bool_decide as Hall.
  - rewrite length_fmap in Hall. unfold matching in *. rewrite filter_full by (by rewrite length_seq).
    rewrite <- Hlen, pick_all. rewrite Hcc in Hc'.
    rewrite (for_range_eq (length c) (chunk_GetSegment c) c) in Hc'; [by inv_ok|done|].
    intros j s Hs. unfold chunk_GetSegment, vec_at. by rewrite Hs.
  - pose proof Hc' as [Hlen' Hval]%for_range_ok. rewrite Hcc in *.
    assert (Forall2 (λ s s', length (seg_values s') = length (matching t c id) ∧
      ∀ i m, matching t c id !! i = Some m → seg_index s' i = seg_index s m) c c') as HF.
    { apply Forall2_same_length_lookup_2; [done|]. intros j s s' Hs Hs'.
      destruct (Hval j) as (s'' & Hs'' & Hseg); [apply lookup_lt_Some in Hs; done|]. simplify_eq.
      destruct (filter_segment_rows t c n j s _ _ Hwf Hs Hseg) as (Hl & _ & _ & Hi).
      rewrite length_fmap in Hl. split; [done|]. intros i m Hmm.
      apply (Hi i (mkRowId id m)). by rewrite list_lookup_fmap, Hmm. }
    assert (chunk_Size c' = length (matching t c id)) as Hsz.
    { pose proof (chunk_length _ _ _ Hwf) as Hcl. pose proof (wft_columns t Ht) as Hcol.
      assert (length (matching t c id) ≤ n)%nat as Hle.
      { unfold matching. rewrite length_filter, length_seq. by rewrite (chunk_Size_wf _ _ _ Hwf Hcol). }
      assert (∃ s' k', c' = s' :: k' ∧ length (seg_values s') = length (matching t c id)) as (s' & k' & -> & Hl).
      { inversion HF as [|s s' k k' [Hl _] _ E1 E2]; subst; [cbn in Hcl; lia|eauto]. }
      cbn. unfold seg_size. rewrite Hl. apply u32_id. pose proof (wfc_bound _ _ _ Hwf). lia. }
    unfold chunk_rows. rewrite Hsz. apply for_range_eq; [by rewrite pick_length|].
    intros i r Hi. rewrite pick_lookup in Hi by done.
    destruct (matching t c id !! i) as [m|] eqn:Him; [|done]. cbn in Hi.
    pose proof Hrows as [_ Hrow]%for_range_ok. destruct (Hrow m) as (r' & Hr' & Hrr).
    { eapply matching_lt. by eapply list_elem_of_lookup_2. }
    simplify_eq. rewrite <- Hrr. symmetry. apply chunk_row_ext.
    eapply Forall2_impl; [exact HF|]. intros s s' [_ H]. symmetry. by apply H.
Qed.

(** ** Specification: the matching rows of a chunk, in order *)
Definition matching_rows (t : Table) (chunk_id : nat) : result (list Row) :=
  c ← GetChunk t chunk_id; rows ← chunk_rows c; Ok (pick rows (matching t c chunk_id)).

Lemma FilterOperator_rows schedule t t' :
  wf_table t → FilterOperator schedule t = Ok t' →
  ∃ rs, mapR (matching_rows t) schedule = Ok rs ∧ table_rows t' = Ok (concat rs).
Proof.
  intros Ht. unfold FilterOperator. intros H. apply bind_ok in H as (jobs & Hjobs & [= <-]).
  unfold table_rows. cbn [chunks]. revert jobs Hjobs.
  induction schedule as [|cid sch IH]; intros jobs Hjobs; cbn in Hjobs.
  { inv_ok. by exists []. }
  apply bind_ok in Hjobs as (o & Ho & H). apply bind_ok in H as (js & Hjs & [= <-]).
  destruct (IH js Hjs) as (rs & Hrs & Htab).
  assert (∃ c, chunks t !! cid = Some c) as [c Hc].
  { unfold perform_filter, GetChunk in Ho. inv_bind. eauto. }
  destruct (wft_chunks t Ht c) as [n Hn]; [by eapply list_elem_of_lookup_2|].
  destruct (chunk_rows_wf _ _ _ Hn (wft_columns t Ht)) as (rows & Hrows & _).
  pose proof (perform_filter_rows t c n cid o rows Ht Hc Hn Ho Hrows) as Hout.
  exists (pick rows (matching t c cid) :: rs). split.
  - assert (matching_rows t cid = Ok (pick rows (matching t c cid))) as E.
    { unfold matching_rows, GetChunk, vec_get. rewrite Hc. cbn [of_option rbind]. by rewrite Hrows. }
    cbn [mapR]. rewrite E. cbn [rbind]. by rewrite Hrs.
  - destruct o as [c'|]; cbn in Hout.
    + change (chunks_rows (c' :: omap id js) = Ok (concat (pick rows (matching t c cid) :: rs))).
      rewrite chunks_rows_cons, Hout. cbn [rbind]. by rewrite Htab.
    + injection Hout as <-. exact Htab.
Qed.
End Filter.

(** ** Progress: without NULLs every job succeeds *)
Definition null_free (t : Table) : Prop :=
  ∀ c s i, c ∈ chunks t → s ∈ c → seg_index s i ≠ Ok VNull.

Lemma mapR_Permutation {A B} (f : A → result B) l k x :
  l ≡ₚ k → mapR f l = Ok x → ∃ y, mapR f k = Ok y ∧ x ≡ₚ y.
Proof.
  intros HP. revert x. induction HP as [|a l k _ IH|a b l|l m k _ IH1 _ IH2]; intros x H.
  - eauto.
  - cbn in *. inv_bind. destruct (IH _ Hx0) as (y & Hy & HPy). rewrite Hx, Hy. cbn. eauto using Permutation_cons.
  - cbn in *. inv_bind. rewrite Hx1, Hx. cbn. rewrite Hx2. cbn. eexists. split; [done|]. apply perm_swap.
  - destruct (IH1 _ H) as (y & Hy & HP1), (IH2 _ Hy) as (z & Hz & HP2). exists z. by rewrite HP1.
Qed.

Lemma concat_Permutation {A} (l k : list (list A)) : l ≡ₚ k → concat l ≡ₚ concat k.
Proof.
  induction 1; cbn; [done|by f_equiv|by rewrite !app_assoc, (Permutation_app_comm y x)|by etrans].
Qed.

Section Progress.
Variable lexical_cast_string : ∀ t, ctype t → string.
Variable try_lexical_convert : ∀ t, string → option (ctype t).
Variable predicate : expr.

Lemma filter_segment_total t c n j s ms :
  wf_chunk (column_definitions t) n c → c !! j = Some s →
  (∀ i, seg_index s i ≠ Ok VNull) → (∀ m, m ∈ ms → (chunk_offset m < n)%nat) →
  ∃ s', filter_segment t c ms j = Ok s'.
Proof.
  intros Hwf Hs Hnull Hms. destruct (chunk_segment _ _ _ Hwf j s Hs) as (Hw & Hl & Hty & d & Hd & Hdt).
  unfold filter_segment, ColumnDataType, vec_get, chunk_GetSegment, vec_at. rewrite Hd, Hs. cbn [of_option rbind].
  rewrite Hdt, ResolveDataType_typed by done.
  assert (∃ vs, mapR (λ m, v ← seg_index s (chunk_offset m); variant_get (seg_type s) v) ms = Ok vs) as [vs Hvs].
  { induction ms as [|m ms IH]; [by exists []|]. cbn.
    destruct (seg_index_ok s (chunk_offset m) Hw) as [v Hv]; [rewrite Hl; apply Hms; by left|].
    rewrite Hv. cbn [rbind]. destruct (seg_index_variant _ _ _ Hv) as [x Hx].
    { destruct v; try done. by destruct (Hnull (chunk_offset m)). }
    rewrite Hx. cbn [rbind]. destruct IH as [vs Hvs]; [intros; apply Hms; by right|]. rewrite Hvs. by eexists. }
  rewrite Hvs. by eexists.
Qed.

Lemma perform_filter_total t c n i l :
  wf_table t → null_free t → chunks t !! i = Some c → wf_chunk (column_definitions t) n c →
  FilterChunk lexical_cast_string try_lexical_convert predicate t i = Ok l →
  ∃ o, perform_filter lexical_cast_string try_lexical_convert predicate t i = Ok o.
Proof.
  intros Ht Hnull Hc Hwf Hl. unfold perform_filter, GetChunk, vec_get. rewrite Hc. cbn [of_option rbind].
  rewrite Hl. cbn [rbind].
  pose proof (FilterChunk_matching _ _ _ t c n i l Ht Hc Hwf Hl) as Hm.
  destruct l as [|m l]; [by eexists|].
  assert (∀ j, (j < GetColumnCount t)%nat → ∃ s, c !! j = Some s) as Hcols by (by eapply wft_chunk_lookup).
  assert (∃ c', (if bool_decide (length (m :: l) = chunk_Size c)
    then for_range (GetColumnCount t) (chunk_GetSegment c)
    else for_range (GetColumnCount t) (filter_segment t c (m :: l))) = Ok c') as [c' Hc'].
  { case_bool_decide; apply for_range_total; intros j Hj; destruct (Hcols j Hj) as [s Hs].
    - unfold chunk_GetSegment, vec_at. rewrite Hs. by eexists.
    - eapply filter_segment_total; [done|done| |].
      + intros k. apply (Hnull c); by eapply list_elem_of_lookup_2.
      + intros x Hx. rewrite Hm in Hx. apply list_elem_of_fmap in Hx as (k & -> & Hk). cbn.
        rewrite <- (chunk_Size_wf _ _ _ Hwf) by apply Ht. by eapply matching_lt. }
  rewrite Hc'. by eexists.
Qed.
End Progress.

(** C20: On a well-formed table without NULLs, if the predicate can be evaluated on every
    chunk, the filter succeeds for every order in which the scheduler finishes the jobs; its
    rows are, up to that order of the chunks, the rows on which the row-wise meaning of the
    predicate is true, and for the order of the chunk ids they are exactly those rows. *)
Theorem FilterOperator_correct lexical_cast_string try_lexical_convert predicate schedule t :
  let F := FilterOperator lexical_cast_string try_lexical_convert predicate in
  let matching := matching_rows lexical_cast_string try_lexical_convert predicate t in
  wf_table t → null_free t → schedule ≡ₚ seq 0 (length (chunks t)) →
  (∀ i, (i < length (chunks t))%nat →
     is_ok (FilterChunk lexical_cast_string try_lexical_convert predicate t i) = true) →
  ∃ t' rs rs', F schedule t = Ok t' ∧ column_definitions t' = column_definitions t ∧
    table_rows t' = Ok rs ∧ mapR matching (seq 0 (length (chunks t))) = Ok rs' ∧ rs ≡ₚ concat rs' ∧
    (schedule = seq 0 (length (chunks t)) → rs = concat rs').
Proof.
  intros F matching Ht Hnull Hsch Hok.
  assert (∀ i, i ∈ schedule → ∃ o, perform_filter lexical_cast_string try_lexical_convert predicate t i = Ok o) as Hj.
  { intros i Hi. rewrite Hsch in Hi. apply elem_of_seq in Hi. destruct (lookup_lt_is_Some_2 (chunks t) i) as [c Hc]; [lia|].
    destruct (wft_chunks t Ht c) as [n Hn]; [by eapply list_elem_of_lookup_2|].
    specialize (Hok i). destruct (FilterChunk _ _ _ t i) as [l|] eqn:Hl; [|by discriminate Hok; lia].
    by eapply perform_filter_total. }
  assert (∃ jobs, mapR (perform_filter lexical_cast_string try_lexical_convert predicate t) schedule = Ok jobs) as [jobs Hjobs].
  { clear -Hj. induction schedule as [|i s IH]; [by exists []|]. cbn [mapR].
    destruct (Hj i) as [o Ho]; [by left|]. rewrite Ho. destruct IH as [js Hjs]; [intros; apply Hj; by right|].
    cbn [rbind]. rewrite Hjs. by eexists. }
  assert (∃ t', F schedule t = Ok t' ∧ column_definitions t' = column_definitions t) as (t' & HF & Hdefs).
  { unfold F, FilterOperator. rewrite Hjobs. by eexists. }
  destruct (FilterOperator_rows _ _ _ _ _ _ Ht HF) as (rs & Hrs & Htab).
  destruct (mapR_Permutation _ _ _ _ Hsch Hrs) as (rs' & Hrs' & HP).
  exists t', (concat rs), rs'. do 4 (split; [done|]). split; [by apply concat_Permutation|].
  intros ->. by assert (rs = rs') as -> by congruence.
Qed.

Definition filter_example_predicate : expr :=
  BinaryPredicate kGreaterThan (PqpColumn 0%N kInt false "a") (Value (VInt 2)).

Lemma limit_example_null_free : null_free limit_example.
Proof.
  intros c s i Hc Hs. cbn in Hc. rewrite !elem_of_cons in Hc.
  assert (seg_null_values s = None ∧ seg_type s = kInt) as [Hn Ht].
  { destruct Hc as [->|[->|Hc]]; [..|set_solver]; rewrite list_elem_of_singleton in Hs; by subst. }
  unfold seg_index, seg_IsNull, IsNullable. rewrite Hn. cbn. unfold vec_at.
  destruct (seg_values s !! i); cbn; [|done]. by rewrite Ht || (destruct (seg_type s); done).
Qed.

Lemma FilterOperator_correct_witness :
  ∃ t' rs, FilterOperator (λ _ _, EmptyString) (λ _ _, None) filter_example_predicate [1; 0]%nat limit_example = Ok t' ∧
    table_rows t' = Ok rs ∧ rs ≡ₚ [[VInt 3]; [VInt 4]; [VInt 5]].
Proof.
  destruct (FilterOperator_correct (λ _ _, EmptyString) (λ _ _, None) filter_example_predicate [1; 0]%nat
    limit_example limit_example_wf limit_example_null_free (perm_swap _ _ _)) as (t' & rs & rs' & HF & _ & Hr & Hm & HP & _).
  - intros i Hi. cbn in Hi. destruct i as [|[|i]]; [vm_compute; reflexivity..|lia].
  - exists t', rs. split; [exact HF|]. split; [exact Hr|].
    vm_compute in Hm. injection Hm as <-. exact HP.
Defined.

(** A chunk of which some but not all rows match cannot be filtered when a matching row
    holds a NULL in any column: the job ends in an error, since the copy reads every value
    with [std::get] of the column type. *)
Theorem perform_filter_null_error lexical_cast_string try_lexical_convert predicate t chunk_id c n ms s j m :
  wf_table t → chunks t !! chunk_id = Some c → wf_chunk (column_definitions t) n c →
  FilterChunk lexical_cast_string try_lexical_convert predicate t chunk_id = Ok ms →
  length ms ≠ chunk_Size c → m ∈ ms → c !! j = Some s → seg_index s (chunk_offset m) = Ok VNull →
  is_ok (perform_filter lexical_cast_string try_lexical_convert predicate t chunk_id) = false.
Proof.
  intros Ht Hc Hwf Hms Hlen Hm Hs Hnull.
  destruct (perform_filter _ _ _ t chunk_id) as [o|] eqn:H; [|done]. exfalso.
  unfold perform_filter, GetChunk, vec_get in H. rewrite Hc in H. cbn [of_option rbind] in H.
  rewrite Hms in H. cbn [rbind] in H. destruct ms as [|m0 ms0]; [by apply elem_of_nil in Hm|].
  rewrite bool_decide_false in H by done. inv_bind. apply for_range_ok in Hx as [_ Hval].
  destruct (Hval j) as (s' & _ & Hseg).
  { unfold GetColumnCount. rewrite u32_id by apply Ht. rewrite <- (chunk_length _ _ _ Hwf).
    by eapply lookup_lt_Some. }
  destruct (chunk_segment _ _ _ Hwf j s Hs) as (_ & _ & Hty & d & Hd & Hdt).
  unfold filter_segment, ColumnDataType, vec_get, chunk_GetSegment, vec_at in Hseg.
  rewrite Hd, Hs in Hseg. cbn [of_option rbind] in Hseg. rewrite Hdt, ResolveDataType_typed in Hseg by done.
  inv_bind. apply list_elem_of_lookup in Hm as [i Hi].
  destruct (mapR_ok_lookup _ _ _ _ _ Hx Hi) as (v & _ & Hv). rewrite Hnull in Hv. cbn in Hv.
  by destruct (seg_type s).
Qed.

Definition null_example : Table :=
  mkTable [mkTableColumnDefinition "a" kInt false; mkTableColumnDefinition "b" kString true]
    [[mkValueSegment kInt [1; 3] None; mkValueSegment kString ["x"%string; EmptyString] (Some [false; true])]] None.

Lemma perform_filter_null_error_witness :
  is_ok (perform_filter (λ _ _, EmptyString) (λ _ _, None) filter_example_predicate null_example 0) = false.
Proof.
  eapply (perform_filter_null_error (λ _ _, EmptyString) (λ _ _, None) filter_example_predicate null_example
    0 _ 2 [mkRowId 0 1] _ 1 (mkRowId 0 1)).
  - split; cbn; [lia|done|done| |by repeat constructor]. intros c ->%list_elem_of_singleton. exists 2%nat.
    split; [done|repeat constructor|repeat constructor; by intros ? [= <-]|repeat constructor|done|repeat constructor]; done.
  - reflexivity.
  - split; [done|repeat constructor|repeat constructor; by intros ? [= <-]|repeat constructor|done|repeat constructor]; done.
  - vm_compute. reflexivity.
  - vm_compute. lia.
  - by left.
  - reflexivity.
  - reflexivity.
Defined.
