(* ===== verification/Alias.v ===== *)
(** * Alias

    [src/lib/operator/alias_operator.cpp]: the columns of the input, selected by ids and
    renamed; the segments are shared with the input. *)

From S2P Require Export Filter.

Section Alias.
Variable column_ids : list ColumnId.
Variable aliases : list string.

(** The constructor. *)
Definition make_AliasOperator : result unit :=
  assert_ (bool_decide (length column_ids = length aliases)) AssertionFailed.

Definition alias_definition (t : Table) (i : nat) : result TableColumnDefinition :=
  column_id ← vec_get column_ids i;
  d ← vec_get (column_definitions t) (N.to_nat column_id);
  alias ← vec_get aliases i;
  Ok (mkTableColumnDefinition alias (tcd_data_type d) (tcd_nullable d)).

Definition AliasOperator (t : Table) : result Table :=
  _ ← assert_ (bool_decide (GetColumnCount t = length column_ids)) AssertionFailed;
  output_column_definitions ← for_range (GetColumnCount t) (alias_definition t);
  output_chunks ← for_range (ChunkCount t) (λ chunk_id,
    mapR (λ column_id, c ← GetChunk t chunk_id; vec_atN c column_id) column_ids);
  Ok (mkTable output_column_definitions output_chunks None).
End Alias.

(** ** Operators that compute every row from one row of the input *)
Lemma mapR_map {A B C} (f : A → result B) (g : A → result C) (F : B → result C) l k :
  mapR f l = Ok k → (∀ a b, a ∈ l → f a = Ok b → g a = F b) → mapR g l = mapR F k.
Proof.
  revert k. induction l as [|a l IH]; intros k H Hg; cbn in H; inv_bind; [done|].
  cbn. rewrite (Hg a x); [|by left|done]. rewrite (IH x0 Hx0); [done|].
  intros b d Hb. apply Hg. by right.
Qed.

Lemma chunk_rows_map F c c' rows :
  chunk_Size c' = chunk_Size c →
  (∀ i r, (i < chunk_Size c)%nat → chunk_row c i = Ok r → chunk_row c' i = F r) →
  chunk_rows c = Ok rows → chunk_rows c' = mapR F rows.
Proof.
  intros Hs HF Hr. unfold chunk_rows, for_range in *. rewrite Hs. eapply mapR_map; [done|].
  intros i r Hi%elem_of_seq. apply HF. lia.
Qed.

Lemma chunks_rows_map F cs cs' rows :
  Forall2 (λ c c', ∀ rs, chunk_rows c = Ok rs → chunk_rows c' = mapR F rs) cs cs' →
  chunks_rows cs = Ok rows → chunks_rows cs' = mapR F rows.
Proof.
  intros HF. revert rows. induction HF as [|c c' cs cs' Hc HF IH]; intros rows H; [by injection H as <-|].
  rewrite chunks_rows_cons in *. inv_bind. by rewrite (Hc _ Hx), (IH _ Hx0), mapR_app.
Qed.

(** ** Rows *)

(** The columns of a row that the ids select. *)
Definition select_row (column_ids : list ColumnId) (r : Row) : result Row :=
  mapR (λ id, vec_atN r id) column_ids.

Lemma vec_atN_at {A} (l : list A) id : vec_atN l id = vec_at l (N.to_nat id).
Proof.
  unfold vec_atN. destruct (N.leb_spec (N.of_nat (length l)) id) as [H|H]; [|done].
  unfold vec_at. by rewrite lookup_ge_None_2 by lia.
Qed.

Lemma mapR_select {A B} (f : A → result B) (l : list A) (ids : list ColumnId) k r :
  mapR (vec_atN l) ids = Ok k → mapR f l = Ok r → mapR f k = mapR (vec_atN r) ids.
Proof.
  intros Hk Hr. revert k Hk. induction ids as [|id ids IH]; intros k Hk; cbn [mapR] in Hk; inv_bind; [done|].
  cbn [mapR]. rewrite (IH _ Hx0). rewrite vec_atN_at in Hx. rewrite vec_atN_at. inv_bind.
  destruct (mapR_ok_lookup _ _ _ _ _ Hr Hx) as (b & Hb & ->). unfold vec_at. by rewrite Hb.
Qed.

Lemma wf_chunk_sizes defs n c s : wf_chunk defs n c → s ∈ c → seg_size s = n.
Proof.
  intros [_ Hr _ _ Hb _] Hs. rewrite Forall_forall in Hr. unfold seg_size. rewrite (Hr s Hs).
  apply u32_id. lia.
Qed.

(** A chunk whose columns are taken from a well-formed one. *)
Lemma wf_chunk_select defs n c defs' ids c' :
  wf_chunk defs n c → mapR (vec_atN c) ids = Ok c' →
  Forall2 (λ (id : ColumnId) d', ∃ d, defs !! N.to_nat id = Some d ∧ tcd_data_type d' = tcd_data_type d ∧
    tcd_nullable d' = tcd_nullable d) ids defs' →
  wf_chunk defs' n c'.
Proof.
  intros Hwf Hc' Hdefs. apply mapR_ok_Forall2 in Hc'.
  assert (Forall2 (λ d' s, tcd_data_type d' = seg_type s ∧ length (seg_values s) = n ∧ wf_segment s ∧
    (tcd_nullable d' = true → IsNullable s = true) ∧ seg_type s ≠ kNull) defs' c') as HF.
  { apply Forall2_same_length_lookup_2.
    - by rewrite <- (Forall2_length _ _ _ Hc'), <- (Forall2_length _ _ _ Hdefs).
    - intros j d' s Hd' Hs. destruct (Forall2_lookup_r _ _ _ _ _ Hc' Hs) as (id & Hid & Hat).
      destruct (Forall2_lookup_lr _ _ _ _ _ _ Hdefs Hid Hd') as (d & Hd & Ht & Hn).
      rewrite vec_atN_at in Hat. inv_bind.
      destruct (chunk_segment _ _ _ Hwf _ _ Hat) as (? & ? & ? & d0 & Hd0 & ?). simplify_eq.
      split; [congruence|]. do 2 (split; [done|]). split; [|done]. rewrite Hn.
      by apply (Forall2_lookup_lr _ _ _ _ _ _ (wfc_nullable _ _ _ Hwf) Hd Hat). }
  assert (∀ P : ValueSegment → Prop, (∀ d' s, tcd_data_type d' = seg_type s ∧ length (seg_values s) = n ∧
    wf_segment s ∧ (tcd_nullable d' = true → IsNullable s = true) ∧ seg_type s ≠ kNull → P s) → Forall P c') as HP.
  { intros P H. clear -HF H. induction HF as [|d' s ds c'' Hd HF IH]; constructor; [by apply (H d')|done]. }
  split; [|apply HP; intros ?? H; apply H|apply HP; intros ?? H; apply H| |apply Hwf|apply HP; intros ?? H; apply H].
  - clear -HF. induction HF as [|d' s ds c'' (Ht & _) HF IH]; cbn; [done|]. by rewrite IH, Ht.
  - eapply Forall2_impl; [exact HF|]. intros ?? H; apply H.
Qed.

(** Only the columns of a chunk that the ids name are needed. *)
Lemma select_chunk_total defs n c ids :
  wf_chunk defs n c → Forall (λ id : ColumnId, (N.to_nat id < length defs)%nat) ids →
  ∃ c', mapR (vec_atN c) ids = Ok c'.
Proof.
  intros Hwf. pose proof (chunk_length _ _ _ Hwf) as Hl. rewrite <- Hl. clear Hwf Hl.
  induction 1 as [|id ids Hid _ [k Hk]]; [by exists []|]. cbn [mapR].
  destruct (lookup_lt_is_Some_2 c (N.to_nat id) Hid) as [s Hs].
  rewrite vec_atN_at, Hk. unfold vec_at. rewrite Hs. by eexists.
Qed.

Lemma select_chunk_rows defs n c ids c' rows :
  wf_chunk defs n c → (0 < length defs)%nat → ids ≠ [] →
  mapR (vec_atN c) ids = Ok c' → chunk_rows c = Ok rows → chunk_rows c' = mapR (select_row ids) rows.
Proof.
  intros Hwf Hd Hids Hc'. apply chunk_rows_map; [|intros i r _ Hr; by eapply mapR_select].
  destruct ids as [|id ids]; [done|]. cbn [mapR] in Hc'. rewrite vec_atN_at in Hc'. inv_bind. cbn.
  rewrite (chunk_Size_wf _ _ _ Hwf Hd). eapply wf_chunk_sizes; [done|]. by eapply list_elem_of_lookup_2.
Qed.

(** The loop over the chunks handles every chunk of the table. *)
Lemma for_chunks {A} t (f : Chunk → result A) (g : nat → result A) :
  (N.of_nat (length (chunks t)) < 2 ^ 32)%N →
  (∀ i c, GetChunk t i = Ok c → g i = f c) →
  for_range (ChunkCount t) g = mapR f (chunks t).
Proof.
  intros H Hg. unfold ChunkCount, GetChunk in *. rewrite u32_id by done. clear H.
  unfold for_range. revert Hg. generalize (chunks t) as cs. intros cs.
  assert (∀ pre, (∀ i c, vec_get (pre ++ cs) i = Ok c → g i = f c) →
    mapR g (seq (length pre) (length cs)) = mapR f cs) as H; [|apply (H [])].
  induction cs as [|c cs IH]; intros pre Hg; [done|]. cbn [length seq mapR].
  rewrite (Hg _ c) by (unfold vec_get; by rewrite list_lookup_middle).
  specialize (IH (pre ++ [c])). rewrite <- app_assoc, length_app, Nat.add_1_r in IH. cbn [app] in IH.
  by rewrite IH.
Qed.

(** Alias succeeds on a well-formed table when it has an id and a name per column and
    every id is a column: the output is well formed, its columns have the new names in the
    given order and every row is the selection of the row of the input, in the input's order. *)
Theorem AliasOperator_correct column_ids aliases t rows :
  wf_table t → make_AliasOperator column_ids aliases = Ok tt →
  length column_ids = length (column_definitions t) →
  Forall (λ id : ColumnId, (N.to_nat id < length (column_definitions t))%nat) column_ids →
  table_rows t = Ok rows →
  ∃ t', AliasOperator column_ids aliases t = Ok t' ∧ wf_table t' ∧ ColumnNames t' = aliases ∧
    table_rows t' = mapR (select_row column_ids) rows.
Proof.
  intros Ht Hmake Hlen Hids Hrows. apply assert_ok, bool_decide_eq_true in Hmake.
  pose proof Ht as [Hcols Hwidth Hcount Hchunks Htyped].
  unfold AliasOperator. assert (GetColumnCount t = length column_ids) as Hcc.
  { unfold GetColumnCount. by rewrite u32_id, Hlen. }
  rewrite bool_decide_true by done. cbn [assert_ rbind].
  destruct (for_range_total (GetColumnCount t) (alias_definition column_ids aliases t)) as [defs Hdefs].
  { intros i Hi. unfold alias_definition, vec_get.
    destruct (lookup_lt_is_Some_2 column_ids i) as [id Hid]; [lia|]. rewrite Hid. cbn.
    destruct (lookup_lt_is_Some_2 (column_definitions t) (N.to_nat id)) as [d Hd].
    { rewrite Forall_lookup in Hids. eauto. }
    destruct (lookup_lt_is_Some_2 aliases i) as [a Ha]; [lia|]. rewrite Hd. cbn. rewrite Ha. by eexists. }
  rewrite Hdefs. cbn [rbind].
  rewrite (for_chunks t (λ c, mapR (vec_atN c) column_ids)) by
    (done || (intros i c Hc; apply mapR_ext; intros id _; by rewrite Hc)).
  assert (∃ cs, mapR (λ c, mapR (vec_atN c) column_ids) (chunks t) = Ok cs) as [cs Hcs].
  { clear -Hchunks Hids. induction (chunks t) as [|c cs IH]; [by exists []|].
    destruct (Hchunks c) as [n Hn]; [by left|]. destruct (select_chunk_total _ _ _ _ Hn Hids) as [k Hk].
    destruct IH as [ks Hks]; [intros; apply Hchunks; by right|]. exists (k :: ks). cbn [mapR]. by rewrite Hk, Hks. }
  rewrite Hcs. cbn [rbind]. eexists. split; [done|]. apply for_range_ok in Hdefs as [Hld Hdef].
  assert (Forall2 (λ (id : ColumnId) d', ∃ d, column_definitions t !! N.to_nat id = Some d ∧
    tcd_data_type d' = tcd_data_type d ∧ tcd_nullable d' = tcd_nullable d) column_ids defs) as HF.
  { apply Forall2_same_length_lookup_2; [congruence|]. intros j id d' Hid Hd'.
    destruct (Hdef j) as (d2 & Hd2 & Ha); [rewrite <- Hld; by eapply lookup_lt_Some|].
    unfold alias_definition in Ha. inv_bind. simplify_eq. by eexists. }
  assert (tcd_name <$> defs = aliases) as Hnames.
  { apply list_eq_same_length with (n := length aliases); [done|rewrite length_fmap; congruence|].
    intros j a b Hj. rewrite list_lookup_fmap. intros (d' & Hd' & ->)%fmap_Some Hb.
    destruct (Hdef j) as (d2 & Hd2 & Ha); [rewrite <- Hld; by eapply lookup_lt_Some|].
    unfold alias_definition in Ha. inv_bind. by simplify_eq. }
  apply mapR_ok_Forall2 in Hcs.
  assert (column_ids ≠ []) as Hne by (intros ->; cbn in Hlen; lia).
  split; [|split; [exact Hnames|]].
  - split; cbn; [congruence|congruence|by rewrite <- (Forall2_length _ _ _ Hcs)| |].
    + intros c' [j Hj]%list_elem_of_lookup. destruct (Forall2_lookup_r _ _ _ _ _ Hcs Hj) as (c & Hc & Hcc').
      destruct (Hchunks c) as [n Hn]; [by eapply list_elem_of_lookup_2|]. exists n.
      by eapply wf_chunk_select.
    + apply Forall_lookup. intros j d' Hd'. destruct (Forall2_lookup_r _ _ _ _ _ HF Hd') as (id & _ & d & Hd & -> & _).
      rewrite Forall_lookup in Htyped. eauto.
  - unfold table_rows in *. cbn. eapply chunks_rows_map; [|done].
    apply Forall2_same_length_lookup_2; [by apply (Forall2_length _ _ _ Hcs)|].
    intros j c c' Hc Hc' rs.
    destruct (Hchunks c) as [n Hn]; [by eapply list_elem_of_lookup_2|].
    apply (select_chunk_rows (column_definitions t) n); [done..|].
    by apply (Forall2_lookup_lr _ _ _ _ _ _ Hcs Hc Hc').
Qed.

Lemma AliasOperator_correct_witness :
  ∃ t', AliasOperator [0%N] ["b"%string] limit_example = Ok t' ∧ ColumnNames t' = ["b"%string] ∧
    table_rows t' = Ok [[VInt 1]; [VInt 2]; [VInt 3]; [VInt 4]; [VInt 5]].
Proof.
  destruct (AliasOperator_correct [0%N] ["b"%string] limit_example
    [[VInt 1]; [VInt 2]; [VInt 3]; [VInt 4]; [VInt 5]] limit_example_wf) as (t' & H & _ & Hn & Hr);
    [reflexivity|reflexivity|repeat constructor|vm_compute; reflexivity|].
  exists t'. split; [exact H|]. split; [exact Hn|exact Hr].
Defined.
