(* ===== verification/Projection.v ===== *)
(** * Projection

    [src/lib/operator/projection_operator.cpp].  Columns that are only forwarded are taken
    from the input chunk; the others are computed by one job per chunk.  The jobs run
    concurrently and share [nullable_columns], a vector of [std::atomic_bool]: a job reads
    the flag of a column in one step and writes it in another.  [schedule] gives the order in
    which the jobs perform these steps, by chunk id; when it ends, the jobs that have not
    finished run one after the other, so every interleaving of the jobs is the run of some
    schedule. *)

From S2P Require Export Alias Description.

Definition desired_chunk_size : nat := 128.

Section Projection.
Variable lexical_cast_string : ∀ t, ctype t → string.
Variable try_lexical_convert : ∀ t, string → option (ctype t).
Variable print_float : ctype kFloat → string.
Variable print_double : ctype kDouble → string.
Variable expressions : list expr.

(** ** Splitting a single large chunk *)

(** The copy is a segment without NULL flags. *)
Definition split_segment (segment : ValueSegment) (row_count offset : nat) : result ValueSegment :=
  ResolveDataType (seg_type segment) (λ data_type,
    foldR (λ new_segment i,
      v ← seg_Get segment i;
      let '(new_segment', r) := seg_Append new_segment (to_variant (seg_type segment) v) in
      _ ← r; Ok new_segment')
      (empty_segment data_type false)
      (seq offset (desired_chunk_size `min` (row_count - offset)))).

Definition split_chunk (t : Table) (row_count offset : nat) : result Chunk :=
  for_range (GetColumnCount t) (λ a,
    c ← GetChunk t 0; segment ← chunk_GetSegment c a; split_segment segment row_count offset).

(** The [while] loop runs once for each 128 rows begun. *)
Definition split_count (row_count : nat) : nat :=
  (row_count `div` desired_chunk_size + (if bool_decide (row_count `mod` desired_chunk_size = 0)%nat then 0 else 1))%nat.

Definition split_large_chunk (t : Table) : result Table :=
  row_count ← (RowCount false t).2;
  if bool_decide (ChunkCount t = 1%nat) && (desired_chunk_size <? row_count)%nat then
    cs ← for_range (split_count row_count) (λ k, split_chunk t row_count (k * desired_chunk_size));
    make_table_chunks false (column_definitions t) cs
  else Ok t.

(** ** Forwarded columns *)
Definition is_forwarded (e : expr) : bool := bool_decide (GetExpressionType e = tPqpColumn).

Definition forward_segment (c : Chunk) (e : expr) : result (option ValueSegment) :=
  match e with
  | PqpColumn id _ _ _ => s ← vec_atN c id; Ok (Some s)
  | _ => Ok None
  end.

Definition forward_flag (t : Table) (e : expr) (flag : bool) : result bool :=
  match e with
  | PqpColumn id _ _ _ => ColumnIsNullable t (N.to_nat id)
  | _ => Ok flag
  end.

(** One round of the loop over the chunks, before any job runs. *)
Definition forward_chunk (t : Table) (acc : list bool * list (list (option ValueSegment))) (chunk_id : nat)
    : result (list bool * list (list (option ValueSegment))) :=
  input_chunk ← GetChunk t chunk_id;
  output_segments ← mapR (forward_segment input_chunk) expressions;
  flags ← mapR (λ p : expr * bool, forward_flag t p.1 p.2) (zip expressions acc.1);
  Ok (flags, acc.2 ++ [output_segments]).

(** ** The jobs *)

(** A job is at a column; it may have evaluated it and read its flag already. *)
Record Job : Set := mkJob { job_column : nat; job_pending : option (ValueSegment * bool) }.

Record State : Set := mkState {
  nullable_columns : list bool;
  output_segments_by_chunk : list (list (option ValueSegment));
  jobs : list Job }.

Definition evaluate_segment (t : Table) (chunk_id : nat) (e : expr) : result ValueSegment :=
  env ← make_evaluator t chunk_id;
  EvaluateExpressionToSegment lexical_cast_string try_lexical_convert env e.

(** The next step of the job of a chunk: skip a forwarded column; evaluate a column and read
    its flag; or write the flag and the segment. *)
Definition job_step (t : Table) (st : State) (chunk_id : nat) : result State :=
  match jobs st !! chunk_id with
  | None => Ok st
  | Some (mkJob column None) =>
      match expressions !! column with
      | None => Ok st
      | Some expression =>
          if is_forwarded expression
          then Ok (mkState (nullable_columns st) (output_segments_by_chunk st)
                     (<[chunk_id := mkJob (S column) None]> (jobs st)))
          else
            output_segment ← evaluate_segment t chunk_id expression;
            flag ← vec_get (nullable_columns st) column;
            Ok (mkState (nullable_columns st) (output_segments_by_chunk st)
                  (<[chunk_id := mkJob column (Some (output_segment, flag || IsNullable output_segment))]> (jobs st)))
      end
  | Some (mkJob column (Some (output_segment, flag))) =>
      Ok (mkState (<[column := flag]> (nullable_columns st))
            (alter (λ segments, <[column := Some output_segment]> segments) chunk_id
               (output_segments_by_chunk st))
            (<[chunk_id := mkJob (S column) None]> (jobs st)))
  end.

(** Every column takes a job at most two steps. *)
Definition finishing (chunk_count : nat) : list nat :=
  concat ((λ id, replicate (2 * length expressions) id) <$> seq 0 chunk_count).

Definition run_jobs (t : Table) (schedule : list nat) (st : State) : result State :=
  foldR (job_step t) st (schedule ++ finishing (ChunkCount t)).

(** ** OnExecute *)
Definition output_definition (flags : list bool) (column_id : nat) : result TableColumnDefinition :=
  expression ← vec_get expressions column_id;
  name ← AsColumnName print_float print_double expression;
  data_type ← GetDataType expression;
  nullable ← vec_get flags column_id;
  Ok (mkTableColumnDefinition name data_type nullable).

Definition ProjectionOperator (schedule : list nat) (t : Table) : result Table :=
  input_table ← split_large_chunk t;
  let chunk_count := ChunkCount input_table in
  let expression_count := length expressions in
  '(flags, segments) ← foldR (forward_chunk input_table) (replicate expression_count false, []) (seq 0 chunk_count);
  let st := mkState flags segments (replicate chunk_count (mkJob 0 None)) in
  st' ← (if forallb is_forwarded expressions then Ok st else run_jobs input_table schedule st);
  output_column_definitions ← for_range expression_count (output_definition (nullable_columns st'));
  output_chunks ← mapR (mapR (λ s, of_option s UndefinedBehaviour)) (output_segments_by_chunk st');
  make_table_chunks false output_column_definitions output_chunks.
End Projection.

(** ** The meaning of an expression depends on the columns of the row only *)
Section Sem_ext.
Variable lexical_cast_string : ∀ t, ctype t → string.
Variable try_lexical_convert : ∀ t, string → option (ctype t).
Abbreviation sem := (sem lexical_cast_string try_lexical_convert).

Lemma resolve_cell_ext e s s' : (∀ t, s t = s' t) → resolve_cell e s = resolve_cell e s'.
Proof. intros H. unfold resolve_cell. apply bind_ext. intros t _. destruct (decide _); [done|]. by rewrite H. Qed.

Definition same_cells (p q : expr * (∀ t, result (option (ctype t)))) : Prop :=
  p.1 = q.1 ∧ ∀ t, p.2 t = q.2 t.

Lemma filterR_same f els els' : Forall2 same_cells els els' →
  (∀ k, filterR (λ p, f p.1) els = Ok k →
     ∃ k', filterR (λ p, f p.1) els' = Ok k' ∧ Forall2 same_cells k k') ∧
  ∀ e, filterR (λ p, f p.1) els = Err e → filterR (λ p, f p.1) els' = Err e.
Proof.
  induction 1 as [|p q els els' [Hp Hq] _ [IHok IHerr]]; cbn.
  { split; [intros k [= <-]; by exists []|done]. }
  rewrite <- Hp. destruct (f p.1) as [b|e]; cbn; [|by split].
  destruct (filterR _ els) as [k|e] eqn:Hf; cbn.
  - destruct (IHok k eq_refl) as (k' & -> & Hk). split; [|done]. intros k2 [= <-]. cbn.
    destruct b; eexists; (split; [done|]); [by constructor|done].
  - rewrite (IHerr e eq_refl). by split.
Qed.

Lemma sem_in_ext c v s s' els els' :
  (∀ t, s t = s' t) → Forall2 same_cells els els' → sem_in c v s els = sem_in c v s' els'.
Proof.
  intros Hs Hels. unfold sem_in. destruct Hels as [|p q els els' Hp Hels]; [done|].
  apply bind_ext. intros tl _. destruct (decide _); [done|].
  destruct (filterR_same (compatible (is_string tl)) (p :: els) (q :: els')) as [Hok Herr]; [by constructor|].
  destruct (filterR _ (p :: els)) as [k|e]; [|by rewrite (Herr e eq_refl)].
  destruct (Hok k eq_refl) as (k' & -> & Hk). cbn [rbind]. rewrite (resolve_cell_ext v s s' Hs).
  assert (∀ a acc, foldR (λ acc p, b ← resolve_cell p.1 p.2;
      m ← sem_compare (if IsNegated c then kNotEquals else kEquals) a b;
      Ok (kleene (if IsNegated c then kAnd else kOr) acc (truth (any_cell (t := kInt) m)))) acc k =
    foldR (λ acc p, b ← resolve_cell p.1 p.2;
      m ← sem_compare (if IsNegated c then kNotEquals else kEquals) a b;
      Ok (kleene (if IsNegated c then kAnd else kOr) acc (truth (any_cell (t := kInt) m)))) acc k') as Hfold.
  { intros a. clear -Hk. induction Hk as [|x y k k' [Hx Hy] _ IH]; intros acc; [done|]. cbn [foldR].
    rewrite <- Hx, (resolve_cell_ext _ _ _ Hy). apply bind_ext. intros; apply IH. }
  destruct Hk as [|x y k k' Hx Hk]; [done|]. apply bind_ext. intros a _. by rewrite Hfold.
Qed.

Lemma sem_ext_elements row row' e : (∀ id, row id = row' id) →
  (∀ T, sem row e T = sem row' e T) ∧
  match e with ListExpr es => Forall (λ x, ∀ T, sem row x T = sem row' x T) es | _ => True end.
Proof.
  intros H. induction e using expr_ind; (split; [intros T|try exact I]); cbn [RowSemantics.sem];
    repeat match goal with IH : _ ∧ _ |- _ => destruct IH end;
    repeat match goal with
    | IH : ∀ T, RowSemantics.sem _ _ _ ?e T = _ |- context [resolve_cell ?e (RowSemantics.sem _ _ row ?e)] =>
        rewrite (resolve_cell_ext e _ _ IH)
    | IH : ∀ T, RowSemantics.sem _ _ _ ?e T = _ |- context [RowSemantics.sem _ _ row ?e ?t] => rewrite (IH t)
    end; try reflexivity.
  - eapply Forall_impl; [eassumption|]. intros x [Hx _]. exact Hx.
  - by rewrite H.
  - f_equal. apply sem_in_ext; [done|].
    destruct e2; try (constructor; [split; [reflexivity|assumption]|constructor]).
    match goal with F : Forall _ _ |- _ =>
      induction F; cbn [map]; constructor; [split; [reflexivity|assumption]|auto] end.
Qed.

Lemma sem_ext row row' e T : (∀ id, row id = row' id) → sem row e T = sem row' e T.
Proof. intros H. by apply sem_ext_elements. Qed.
End Sem_ext.
