(* ===== verification/Sort.v ===== *)
(** * Sort

    [src/lib/operator/sort_operator.cpp] and [sort_operator.hpp].  The table is sorted by the
    least significant definition first; every pass is a stable sort of the rows in the order
    of the previous pass, with NULLs in front.  The output is materialised in chunks of
    [kChunkDefaultSize] rows. *)

From Stdlib Require Import Sorting.Sorted Permutation.
From S2P Require Export Filter.

(** ** [std::stable_sort] *)
Section StableSort.
Context {A : Type} (lt : A → A → bool).

Fixpoint stable_insert (x : A) (l : list A) : list A :=
  match l with
  | [] => [x]
  | y :: l' => if lt y x then y :: stable_insert x l' else x :: l
  end.

Definition stable_sort (l : list A) : list A := foldr stable_insert [] l.

Lemma stable_sort_cons x l : stable_sort (x :: l) = stable_insert x (stable_sort l).
Proof. done. Qed.

Lemma stable_insert_Permutation x l : stable_insert x l ≡ₚ x :: l.
Proof.
  induction l as [|y l IH]; cbn; [done|]. case_match; [|done]. rewrite IH. apply perm_swap.
Qed.

Lemma stable_sort_Permutation l : stable_sort l ≡ₚ l.
Proof.
  induction l as [|x l IH]; cbn; [done|]. change (foldr stable_insert [] l) with (stable_sort l).
  by rewrite stable_insert_Permutation, IH.
Qed.


(** Ordered by [lt], and by [R] among equivalent elements. *)
Definition lex (R : A → A → Prop) (x y : A) : Prop :=
  lt x y = true ∨ lt x y = false ∧ lt y x = false ∧ R x y.

(** [lt] is a strict weak order on the elements that satisfy [ok]. *)
Variable ok : A → Prop.
Hypothesis lt_asym : ∀ x y, ok x → ok y → lt x y = true → lt y x = false.
Hypothesis lt_negtrans : ∀ x y z, ok x → ok y → ok z → lt x y = false → lt y z = false → lt x z = false.

Lemma stable_insert_sorted R x l :
  ok x → Forall ok l → Forall (R x) l → StronglySorted (lex R) l → StronglySorted (lex R) (stable_insert x l).
Proof.
  intros Hx Hok HR Hs. induction Hs as [|y l Hs IH Hy]; cbn; [by repeat constructor|].
  apply Forall_cons in Hok as [Hoky Hok]. apply Forall_cons in HR as [HRy HR].
  destruct (lt y x) eqn:Hlt.
  - constructor; [by apply IH|]. rewrite stable_insert_Permutation. constructor; [by left|done].
  - constructor; [by constructor|]. constructor.
    + destruct (lt x y) eqn:E; [by left|right; done].
    + rewrite Forall_forall in *. intros z Hz.
      assert (lt z y = false) as Hzy.
      { destruct (Hy z Hz) as [H|(_ & ? & _)]; [|done]. apply lt_asym in H; auto. }
      assert (lt z x = false) as Hzx by (apply (lt_negtrans z y x); auto).
      destruct (lt x z) eqn:E; [by left|right; auto].
Qed.

Lemma stable_sort_sorted R l :
  Forall ok l → StronglySorted R l → StronglySorted (lex R) (stable_sort l).
Proof.
  intros Hok Hs. induction Hs as [|x l Hs IH Hx]; cbn; [constructor|].
  apply Forall_cons in Hok as [Hokx Hok]. change (foldr stable_insert [] l) with (stable_sort l).
  apply stable_insert_sorted; [done|by rewrite stable_sort_Permutation..|by apply IH].
Qed.
End StableSort.

(** ** The sort operator *)
Definition kChunkDefaultSize : nat := N.to_nat 65535.

Definition value_at (t : Table) (column_id : nat) (r : RowId) : result AllTypeVariant :=
  c ← GetChunk t (chunk_id r); s ← chunk_GetSegment c column_id; seg_index s (chunk_offset r).

(** The rows of the table in storage order, as the first pass visits them. *)
Definition column_row_ids (t : Table) (column_id : nat) : result (list RowId) :=
  ids ← for_range (ChunkCount t) (λ k,
    c ← GetChunk t k; s ← chunk_GetSegment c column_id;
    Ok (mkRowId k <$> seq 0 (seg_size s)));
  Ok (concat ids).

(** [row_id_value_pairs_] and [null_value_rows_]. *)
Definition SortState (dt : DataType) : Set := (list (RowId * ctype dt) * list RowId)%type.

Definition materialize_row (t : Table) (column_id : nat) (dt : DataType) (st : SortState dt) (r : RowId)
    : result (SortState dt) :=
  value ← value_at t column_id r;
  if VariantIsNull value then Ok (st.1, st.2 ++ [r])
  else v ← variant_get dt value; Ok (st.1 ++ [(r, v)], st.2).

Definition MaterializeSortColumn (t : Table) (column_id : nat) (dt : DataType) (previous : list RowId)
    : result (SortState dt) :=
  rows ← (match previous with [] => column_row_ids t column_id | _ => Ok previous end);
  foldR (materialize_row t column_id dt) ([], []) rows.

(** [std::less] or [std::greater] on the values. *)
Definition comparator (dt : DataType) (m : SortMode) (a b : ctype dt) : bool :=
  holds (match m with kAscending => kLessThan | kDescending => kGreaterThan end) (compare dt a b).

Definition SortImplementation_Sort (t : Table) (column_id : nat) (m : SortMode) (dt : DataType)
    (previous : list RowId) : result (list RowId) :=
  st ← MaterializeSortColumn t column_id dt previous;
  Ok (st.2 ++ (stable_sort (λ a b, comparator dt m a.2 b.2) st.1).*1).

Definition materialize_sorted_segment (t : Table) (position_list : list RowId) (start_index end_index column_id : nat)
    : result ValueSegment :=
  column_data_type ← ColumnDataType t column_id;
  column_is_nullable ← ColumnIsNullable t column_id;
  ResolveDataType column_data_type (λ dt,
    cells ← mapR (λ i,
      r ← vec_get position_list i;
      value ← value_at t column_id r;
      v ← variant_get dt value; Ok (v, VariantIsNull value)) (seq start_index (end_index - start_index));
    Ok (mkValueSegment dt cells.*1 (if (column_is_nullable : bool) then Some cells.*2 else None))).

Definition MaterializeOutputTable (t : Table) (position_list : list RowId) (single_chunk : bool) : result Table :=
  row_count ← (RowCount false t).2;
  _ ← assert_ (bool_decide (length position_list = row_count)) AssertionFailed;
  let chunk_size := if single_chunk then row_count else kChunkDefaultSize in
  if bool_decide (chunk_size = 0%nat) then Err UndefinedBehaviour else
  let number_of_output_chunks :=
    (row_count / chunk_size + (if bool_decide (row_count mod chunk_size = 0) then 0 else 1))%nat in
  chunks ← for_range number_of_output_chunks (λ k,
    let start_index := (k * chunk_size)%nat in
    let end_index := Nat.min (start_index + chunk_size) row_count in
    for_range (GetColumnCount t) (materialize_sorted_segment t position_list start_index end_index));
  Ok (mkTable (column_definitions t) chunks None).

Definition valid_sort_column (t : Table) (d : SortColumnDefinition) : bool :=
  bool_decide (scd_column_id d ≠ kInvalidColumnId) && (scd_column_id d <? N.of_nat (GetColumnCount t))%N.

Definition sort_pass (t : Table) (d : SortColumnDefinition) (previous : list RowId) : result (list RowId) :=
  dt ← ColumnDataType t (N.to_nat (scd_column_id d));
  ResolveDataType dt (λ dt', SortImplementation_Sort t (N.to_nat (scd_column_id d)) (scd_sort_mode d) dt' previous).

Definition SortOperator (sort_definitions : list SortColumnDefinition) (t : Table) : result Table :=
  _ ← assert_ (forallb (valid_sort_column t) sort_definitions) AssertionFailed;
  row_count ← (RowCount false t).2;
  if bool_decide (row_count = 0%nat) then Ok t
  else
    position_list ← foldR (λ previous d, sort_pass t d previous) [] (rev sort_definitions);
    MaterializeOutputTable t position_list false.

(** ** Row ids of a table *)
Fixpoint row_ids_from (k : nat) (cs : list Chunk) : list RowId :=
  match cs with
  | [] => []
  | c :: cs' => (mkRowId k <$> seq 0 (chunk_Size c)) ++ row_ids_from (S k) cs'
  end.

Definition row_ids (t : Table) : list RowId := row_ids_from 0 (chunks t).

Definition row_at (t : Table) (r : RowId) : result Row := c ← GetChunk t (chunk_id r); chunk_row c (chunk_offset r).

Lemma row_ids_from_elem k cs r :
  r ∈ row_ids_from k cs ↔ ∃ c, (k ≤ chunk_id r)%nat ∧ cs !! (chunk_id r - k)%nat = Some c ∧ (chunk_offset r < chunk_Size c)%nat.
Proof.
  revert k. induction cs as [|c cs IH]; intros k; cbn.
  { split; [by intros ?%elem_of_nil|]. intros (c & _ & H & _). done. }
  rewrite elem_of_app, IH, list_elem_of_fmap. split.
  - intros [(i & -> & Hi%elem_of_seq)|(d & Hk & Hd & Ho)].
    + exists c. cbn. rewrite Nat.sub_diag. split; [lia|]. split; [done|lia].
    + exists d. split; [lia|]. split; [|done]. by replace (chunk_id r - k)%nat with (S (chunk_id r - S k)) by lia.
  - intros (d & Hk & Hd & Ho). destruct (decide (chunk_id r = k)) as [<-|Hne].
    + left. rewrite Nat.sub_diag in Hd. simplify_eq/=. exists (chunk_offset r). split; [by destruct r|].
      apply elem_of_seq. lia.
    + right. exists d. split; [lia|]. split; [|done].
      by replace (chunk_id r - k)%nat with (S (chunk_id r - S k)) in Hd by lia.
Qed.

Lemma row_ids_elem t r :
  r ∈ row_ids t ↔ ∃ c, chunks t !! chunk_id r = Some c ∧ (chunk_offset r < chunk_Size c)%nat.
Proof.
  unfold row_ids. rewrite row_ids_from_elem, Nat.sub_0_r. split.
  - intros (c & _ & ? & ?). eauto.
  - intros (c & ? & ?). exists c. split; [lia|done].
Qed.

Lemma row_ids_from_length k cs : length (row_ids_from k cs) = sum_list (chunk_Size <$> cs).
Proof.
  revert k. induction cs as [|c cs IH]; intros k; cbn; [done|].
  by rewrite length_app, length_fmap, length_seq, IH.
Qed.

(** Storage order is the order of the row ids. *)
Lemma row_ids_from_sorted k cs : StronglySorted (λ a b, RowId_lt a b = true) (row_ids_from k cs).
Proof.
  revert k. induction cs as [|c cs IH]; intros k; cbn; [constructor|].
  generalize 0%nat at 1. induction (chunk_Size c) as [|n IHn]; intros s; cbn; [apply IH|].
  constructor; [apply IHn|]. apply Forall_app. split.
  - apply Forall_fmap, Forall_forall. intros i Hi%elem_of_seq. unfold compose. apply RowId_lt_later. lia.
  - apply Forall_forall. intros r (d & Hk & _)%row_ids_from_elem. unfold RowId_lt. cbn.
    apply orb_true_iff. left. apply Nat.ltb_lt. lia.
Qed.

(** The rows of a table are the rows at its row ids. *)
Lemma chunks_rows_from cs k t rows :
  (∀ i c, cs !! i = Some c → chunks t !! (k + i)%nat = Some c) →
  chunks_rows cs = Ok rows → mapR (row_at t) (row_ids_from k cs) = Ok rows.
Proof.
  revert k rows. induction cs as [|c cs IH]; intros k rows Hcs H; cbn [row_ids_from].
  { cbn in *. by inv_ok. }
  rewrite chunks_rows_cons in H. inv_bind. rewrite mapR_app.
  rewrite (IH (S k) x0) by (done || (intros i d Hd; rewrite <- (Hcs (S i) d Hd); f_equal; lia)).
  assert (mapR (row_at t) (mkRowId k <$> seq 0 (chunk_Size c)) = Ok x) as ->; [|done].
  apply mapR_ok_Forall2. apply Forall2_fmap_l. unfold chunk_rows, for_range in Hx.
  apply mapR_ok_Forall2 in Hx. eapply Forall2_impl; [exact Hx|]. intros i r Hr. unfold row_at, GetChunk, vec_get. cbn.
  specialize (Hcs 0%nat c eq_refl). rewrite Nat.add_0_r in Hcs. by rewrite Hcs.
Qed.

Lemma table_rows_row_ids t rows : table_rows t = Ok rows → mapR (row_at t) (row_ids t) = Ok rows.
Proof. intros H. apply chunks_rows_from; done. Qed.

(** ** The passes *)
Section Passes.
Context (t : Table).
Hypothesis Ht : wf_table t.
Hypothesis Hnull : null_free t.

Definition column_type (column_id : nat) : DataType := from_option tcd_data_type kNull (column_definitions t !! column_id).

Definition key (column_id : nat) (r : RowId) : ctype (column_type column_id) :=
  match value_at t column_id r with
  | Ok v => match variant_get (column_type column_id) v with Ok x => x | Err _ => default _ end
  | Err _ => default _
  end.

Lemma column_count : GetColumnCount t = length (column_definitions t).
Proof. unfold GetColumnCount. apply u32_id, Ht. Qed.

Lemma table_segment k c j :
  chunks t !! k = Some c → (j < GetColumnCount t)%nat →
  ∃ s, c !! j = Some s ∧ wf_segment s ∧ length (seg_values s) = chunk_Size c ∧ seg_size s = chunk_Size c ∧
    seg_type s = column_type j ∧ column_type j ≠ kNull.
Proof.
  intros Hc Hj. assert (c ∈ chunks t) as Hin by (by eapply list_elem_of_lookup_2).
  destruct (wft_chunks t Ht c Hin) as [n Hwf].
  destruct (wft_chunk_lookup t c n Hwf Ht j Hj) as [s Hs]. exists s.
  destruct (chunk_segment _ _ _ Hwf j s Hs) as (Hw & Hl & Hty & d & Hd & Hdt).
  rewrite (chunk_Size_wf _ _ _ Hwf) by apply Ht.
  assert (column_type j = seg_type s) as Hct by (unfold column_type; by rewrite Hd).
  rewrite Hct. do 3 (split; [done|]). split.
  { unfold seg_size. rewrite Hl. apply u32_id. pose proof (wfc_bound _ _ _ Hwf). lia. }
  done.
Qed.

(** Every cell of the table is a value of its column type. *)
Lemma value_at_key j r :
  (j < GetColumnCount t)%nat → r ∈ row_ids t →
  ∃ v, value_at t j r = Ok v ∧ VariantIsNull v = false ∧ variant_get (column_type j) v = Ok (key j r).
Proof.
  intros Hj (c & Hc & Hr)%row_ids_elem. destruct (table_segment _ c j Hc Hj) as (s & Hs & Hw & Hl & _ & Hty & _).
  assert (∀ i, seg_index s i ≠ Ok VNull) as Hn by (intros i; apply (Hnull c); by eapply list_elem_of_lookup_2).
  destruct (seg_index_ok s (chunk_offset r) Hw) as [v Hv]; [lia|].
  assert (value_at t j r = Ok v) as Hval.
  { unfold value_at, GetChunk, vec_get, chunk_GetSegment, vec_at. rewrite Hc. cbn [of_option rbind].
    rewrite Hs. cbn [of_option rbind]. done. }
  exists v. split; [done|].
  assert (VariantIsNull v = false) as Hvn by (destruct v; try done; by destruct (Hn (chunk_offset r))).
  split; [done|]. pose proof (seg_index_variant _ _ _ Hv Hvn) as Hx. rewrite Hty in Hx.
  destruct Hx as [x Hx]. unfold key. rewrite Hval, Hx. done.
Qed.

Lemma column_row_ids_ok j : (j < GetColumnCount t)%nat → column_row_ids t j = Ok (row_ids t).
Proof.
  intros Hj. unfold column_row_ids, ChunkCount. rewrite u32_id by apply Ht.
  assert (∀ k cs, (∀ i c, cs !! i = Some c → chunks t !! (k + i)%nat = Some c) →
    ∃ ids, mapR (λ k, c ← GetChunk t k; s ← chunk_GetSegment c j; Ok (mkRowId k <$> seq 0 (seg_size s)))
      (seq k (length cs)) = Ok ids ∧ concat ids = row_ids_from k cs) as H.
  { intros k cs. revert k. induction cs as [|c cs IH]; intros k Hcs; [by exists []|]. cbn [length seq mapR].
    specialize (Hcs 0%nat c eq_refl) as Hc. rewrite Nat.add_0_r in Hc.
    destruct (table_segment k c j Hc Hj) as (s & Hs & _ & _ & Hsz & _).
    destruct (IH (S k)) as (ids & Hids & Hcat).
    { intros i d Hd. rewrite <- (Hcs (S i) d Hd). f_equal. lia. }
    unfold GetChunk at 1, vec_get, chunk_GetSegment at 1, vec_at. rewrite Hc. cbn [of_option rbind].
    rewrite Hs. cbn [of_option rbind]. rewrite Hids. eexists. split; [done|]. cbn. by rewrite Hsz, Hcat. }
  destruct (H 0%nat (chunks t)) as (ids & Hids & Hcat); [done|].
  unfold for_range. rewrite Hids. cbn [rbind]. by rewrite Hcat.
Qed.

Lemma materialize_rows j rows st :
  (j < GetColumnCount t)%nat → (∀ r, r ∈ rows → r ∈ row_ids t) →
  foldR (materialize_row t j (column_type j)) st rows =
  Ok (st.1 ++ ((λ r, (r, key j r)) <$> rows), st.2).
Proof.
  intros Hj. revert st. induction rows as [|r rows IH]; intros st Hsub; cbn [foldR].
  { cbn. rewrite app_nil_r. by destruct st. }
  destruct (value_at_key j r Hj) as (v & Hv & Hvn & Hk); [apply Hsub; by left|].
  unfold materialize_row at 1. rewrite Hv. cbn [rbind]. rewrite Hvn, Hk. cbn [rbind].
  rewrite IH by (intros; apply Hsub; by right). cbn. by rewrite <- app_assoc.
Qed.

Lemma column_typed j : (j < GetColumnCount t)%nat → column_type j ≠ kNull.
Proof.
  intros Hj. rewrite column_count in Hj. destruct (lookup_lt_is_Some_2 _ _ Hj) as [d Hd].
  unfold column_type. rewrite Hd. pose proof (wft_typed t Ht) as H. rewrite Forall_lookup in H. by eapply H.
Qed.

(** One pass on rows of the table is a stable sort by the key. *)
Definition row_lt (d : SortColumnDefinition) (a b : RowId) : bool :=
  let j := N.to_nat (scd_column_id d) in comparator (column_type j) (scd_sort_mode d) (key j a) (key j b).

Lemma stable_sort_pairs {B} (lt : B → B → bool) (f : RowId → B) rows :
  (stable_sort (λ a b, lt a.2 b.2) ((λ r, (r, f r)) <$> rows)).*1 = stable_sort (λ a b, lt (f a) (f b)) rows.
Proof.
  assert (stable_sort (λ a b, lt a.2 b.2) ((λ r, (r, f r)) <$> rows) =
    (λ r, (r, f r)) <$> stable_sort (λ a b, lt (f a) (f b)) rows) as ->.
  { induction rows as [|r rows IH]; [done|]. rewrite fmap_cons, !stable_sort_cons, IH.
    generalize (stable_sort (λ a b, lt (f a) (f b)) rows). intros l. induction l as [|y l IHl]; cbn; [done|]. case_match; cbn; [by f_equal|done]. }
  rewrite <- list_fmap_compose. unfold compose. cbn. apply list_fmap_id.
Qed.

Lemma sort_pass_ok d previous :
  valid_sort_column t d = true → (∀ r, r ∈ previous → r ∈ row_ids t) →
  sort_pass t d previous =
  Ok (stable_sort (row_lt d) (match previous with [] => row_ids t | _ => previous end)).
Proof.
  intros [_ Hd]%andb_true_iff Hprev. apply N.ltb_lt in Hd.
  assert (N.to_nat (scd_column_id d) < GetColumnCount t)%nat as Hj by lia.
  pose proof Hj as Hj'. rewrite column_count in Hj'.
  destruct (lookup_lt_is_Some_2 _ _ Hj') as [cd Hcd].
  unfold sort_pass, ColumnDataType, vec_get. rewrite Hcd. cbn [of_option rbind].
  assert (tcd_data_type cd = column_type (N.to_nat (scd_column_id d))) as -> by (unfold column_type; by rewrite Hcd).
  rewrite ResolveDataType_typed by (by apply column_typed). unfold SortImplementation_Sort, MaterializeSortColumn.
  assert (match previous with [] => column_row_ids t (N.to_nat (scd_column_id d)) | _ => Ok previous end =
    Ok (match previous with [] => row_ids t | _ => previous end)) as ->.
  { destruct previous; [by apply column_row_ids_ok|done]. }
  cbn [rbind]. rewrite materialize_rows; [|done|by destruct previous]. cbn [rbind fst snd app].
  by rewrite (stable_sort_pairs (comparator _ _)).
Qed.

(** The order that the definitions describe, storage order last. *)
Fixpoint sorted_rows (defs : list SortColumnDefinition) : list RowId :=
  match defs with [] => row_ids t | d :: defs' => stable_sort (row_lt d) (sorted_rows defs') end.

Fixpoint row_order (defs : list SortColumnDefinition) : RowId → RowId → Prop :=
  match defs with
  | [] => λ a b, RowId_lt a b = true
  | d :: defs' => lex (row_lt d) (row_order defs')
  end.

Lemma sorted_rows_Permutation defs : sorted_rows defs ≡ₚ row_ids t.
Proof. induction defs as [|d defs IH]; cbn; [done|]. by rewrite stable_sort_Permutation. Qed.

Lemma passes_ok defs :
  defs ≠ [] → Forall (λ d, valid_sort_column t d = true) defs →
  foldR (λ previous d, sort_pass t d previous) [] (rev defs) = Ok (sorted_rows defs).
Proof.
  intros Hne Hv.
  assert (foldR (λ previous d, sort_pass t d previous) [] (rev defs) =
    Ok (match defs with [] => [] | _ => sorted_rows defs end)) as ->; [|by destruct defs].
  clear Hne. induction Hv as [|d defs Hd Hv IH]; [done|]. cbn [rev]. rewrite foldR_app, IH. cbn [rbind foldR].
  rewrite sort_pass_ok; [|done|].
  - cbn [rbind]. destruct defs as [|d' defs]; [done|]. change (sorted_rows (d :: d' :: defs)) with
      (stable_sort (row_lt d) (sorted_rows (d' :: defs))). do 2 f_equal.
    destruct (sorted_rows (d' :: defs)) eqn:E; [|done]. pose proof (sorted_rows_Permutation (d' :: defs)) as HP.
    rewrite E in HP. symmetry in HP. by apply Permutation_nil_r in HP.
  - intros r Hr. destruct defs; [by apply elem_of_nil in Hr|]. by rewrite sorted_rows_Permutation in Hr.
Qed.

(** The comparator of a sort column is a strict weak order on the keys of the table (no NaN
    in it). *)
Definition ordered_keys (d : SortColumnDefinition) : Prop :=
  (∀ a b, a ∈ row_ids t → b ∈ row_ids t → row_lt d a b = true → row_lt d b a = false) ∧
  (∀ a b c, a ∈ row_ids t → b ∈ row_ids t → c ∈ row_ids t →
     row_lt d a b = false → row_lt d b c = false → row_lt d a c = false).

Lemma sorted_rows_sorted defs : Forall ordered_keys defs → StronglySorted (row_order defs) (sorted_rows defs).
Proof.
  induction 1 as [|d defs [Ha Hn] _ IH]; cbn; [apply row_ids_from_sorted|].
  apply (stable_sort_sorted _ (λ r, r ∈ row_ids t)); [done|done| |done].
  rewrite sorted_rows_Permutation. by apply Forall_forall.
Qed.

(** ** The output table *)
Lemma materialize_segment_ok pl j a b :
  (j < GetColumnCount t)%nat → (∀ r, r ∈ pl → r ∈ row_ids t) → (b ≤ length pl)%nat →
  ∃ s, materialize_sorted_segment t pl a b j = Ok s ∧ length (seg_values s) = (b - a)%nat ∧
    ∀ i r, (i < b - a)%nat → pl !! (a + i)%nat = Some r → seg_index s i = value_at t j r.
Proof.
  intros Hj Hpl Hb. pose proof Hj as Hj'. rewrite column_count in Hj'.
  destruct (lookup_lt_is_Some_2 _ _ Hj') as [cd Hcd].
  unfold materialize_sorted_segment, ColumnDataType, ColumnIsNullable, vec_get. rewrite Hcd. cbn [of_option rbind].
  assert (tcd_data_type cd = column_type j) as -> by (unfold column_type; by rewrite Hcd).
  rewrite ResolveDataType_typed by (by apply column_typed).
  assert (∀ i r, pl !! i = Some r → ∃ v, value_at t j r = Ok v ∧ VariantIsNull v = false ∧
    variant_get (column_type j) v = Ok (key j r)) as Hval.
  { intros i r Hr. apply value_at_key; [done|]. apply Hpl. by eapply list_elem_of_lookup_2. }
  set (g := λ i, (from_option (key j) (default _) (pl !! i), false)).
  rewrite (mapR_total _ g).
  2:{ intros i Hi%elem_of_seq. destruct (lookup_lt_is_Some_2 pl i) as [r Hr]; [lia|].
      unfold g. rewrite Hr. destruct (Hval i r Hr) as (v & Hv & Hvn & Hk). cbn [of_option rbind from_option].
      rewrite Hv. cbn [rbind]. by rewrite Hk, Hvn. }
  cbn [rbind]. eexists. split; [done|]. cbn [seg_values].
  split; [by rewrite !length_fmap, length_seq|]. intros i r Hi Hr.
  destruct (Hval _ r Hr) as (v & Hv & Hvn & Hk). rewrite Hv.
  assert ((g <$> seq a (b - a)) !! i = Some (key j r, false)) as Hgi.
  { rewrite list_lookup_fmap, lookup_seq_lt by done. cbn. unfold g. by rewrite Hr. }
  unfold seg_index, seg_IsNull, IsNullable, seg_null_at, vec_get, vec_at. cbn [seg_null_values seg_values seg_type].
  rewrite (list_lookup_fmap fst), Hgi. cbn [fmap option_fmap option_map fst of_option rbind].
  destruct (tcd_nullable cd).
  - rewrite bool_decide_true by done. cbn [of_option rbind]. rewrite list_lookup_fmap, Hgi. cbn. f_equal.
    by apply variant_get_ok.
  - rewrite bool_decide_false by (by intros []). cbn [rbind]. f_equal. by apply variant_get_ok.
Qed.

Lemma materialize_chunk_ok pl a b rs :
  (∀ r, r ∈ pl → r ∈ row_ids t) → (a ≤ b ≤ length pl)%nat → (N.of_nat (b - a) < 2 ^ 32)%N →
  mapR (row_at t) pl = Ok rs →
  ∃ c, for_range (GetColumnCount t) (materialize_sorted_segment t pl a b) = Ok c ∧
    chunk_rows c = Ok (take (b - a) (drop a rs)).
Proof.
  intros Hpl Hab Hsmall Hrs. pose proof (mapR_ok_length _ _ _ Hrs) as Hlrs.
  destruct (for_range_total (GetColumnCount t) (materialize_sorted_segment t pl a b)) as [c Hc].
  { intros j Hj. destruct (materialize_segment_ok pl j a b Hj Hpl) as (s & ? & _); [lia|eauto]. }
  exists c. split; [done|]. apply for_range_ok in Hc as [Hlen Hval].
  assert (∀ j s, c !! j = Some s → length (seg_values s) = (b - a)%nat ∧
    ∀ i r, (i < b - a)%nat → pl !! (a + i)%nat = Some r → seg_index s i = value_at t j r) as Hseg.
  { intros j s Hs. assert (j < GetColumnCount t)%nat as Hj by (rewrite <- Hlen; by eapply lookup_lt_Some).
    destruct (Hval j Hj) as (s' & Hs' & Hm). simplify_eq.
    destruct (materialize_segment_ok pl j a b Hj Hpl) as (s'' & Hm' & Hl & Hi); [lia|].
    rewrite Hm in Hm'. injection Hm' as <-. done. }
  assert (chunk_Size c = b - a)%nat as Hsz.
  { pose proof (wft_columns t Ht). rewrite column_count in Hlen. destruct c as [|s c']; [cbn in Hlen; lia|].
    cbn. unfold seg_size. destruct (Hseg 0%nat s eq_refl) as [-> _]. by apply u32_id. }
  unfold chunk_rows. rewrite Hsz. apply for_range_eq; [rewrite length_take, length_drop; lia|].
  intros i row [Hrow Hi]%lookup_take_Some. rewrite lookup_drop in Hrow.
  destruct (lookup_lt_is_Some_2 pl (a + i)%nat) as [r Hr]; [lia|].
  destruct (mapR_ok_lookup _ _ _ _ _ Hrs Hr) as (row' & Hrow' & Hat). simplify_eq.
  assert (r ∈ row_ids t) as (ck & Hck & Hoff)%row_ids_elem by (apply Hpl; by eapply list_elem_of_lookup_2).
  unfold row_at, GetChunk, vec_get in Hat. rewrite Hck in Hat. cbn [of_option rbind] in Hat. rewrite <- Hat.
  apply chunk_row_ext. apply Forall2_same_length_lookup_2.
  { rewrite Hlen, column_count. destruct (wft_chunks t Ht ck) as [m Hm]; [by eapply list_elem_of_lookup_2|].
    symmetry. by eapply chunk_length. }
  intros j s s' Hs Hs'. destruct (Hseg j s Hs) as [_ Hcell]. rewrite (Hcell i r Hi Hr).
  unfold value_at, GetChunk, vec_get, chunk_GetSegment, vec_at. rewrite Hck. cbn [of_option rbind].
  by rewrite Hs'.
Qed.
End Passes.

(** Cutting a list into pieces of equal size. *)
Lemma concat_slices {A} (l : list A) size num :
  (length l ≤ num * size)%nat → concat ((λ k, take size (drop (k * size) l)) <$> seq 0 num) = l.
Proof.
  revert l. induction num as [|num IH]; intros l Hl; [by destruct l; [|cbn in Hl; lia]|].
  cbn [seq fmap list_fmap concat]. rewrite drop_0. rewrite <- (take_drop size l) at 2. f_equal.
  etransitivity; [|apply (IH (drop size l)); rewrite length_drop; lia]. f_equal. rewrite <- fmap_S_seq, <- list_fmap_compose. apply list_fmap_ext. intros i k _. unfold compose.
  by rewrite drop_drop.
Qed.

Lemma RowCount_release t : cache_coherent t → (RowCount false t).2 = Ok (length (row_ids t)).
Proof.
  intros Hc. destruct (RowCount false t) as [t' r] eqn:E.
  destruct (RowCount_coherent false t t' r Hc E) as (-> & _). cbn. f_equal.
  unfold row_ids. by rewrite row_ids_from_length.
Qed.

Lemma MaterializeOutputTable_ok t pl rs single :
  wf_table t → null_free t → cache_coherent t → row_ids t ≠ [] → pl ≡ₚ row_ids t →
  (N.of_nat (length (row_ids t)) < 2 ^ 32)%N ∨ single = false → mapR (row_at t) pl = Ok rs →
  ∃ t', MaterializeOutputTable t pl single = Ok t' ∧ column_definitions t' = column_definitions t ∧
    table_rows t' = Ok rs ∧ (single = true → length (chunks t') = 1%nat).
Proof.
  intros Ht Hnull Hcache Hne HP Hsmall Hrs. unfold MaterializeOutputTable. rewrite RowCount_release by done. cbn [rbind].
  rewrite bool_decide_true by (by rewrite HP). cbn [assert_ rbind].
  set (row_count := length (row_ids t)). set (size := if single then row_count else kChunkDefaultSize).
  assert (0 < row_count)%nat as Hpos by (unfold row_count; by destruct (row_ids t); [|cbn; lia]).
  assert (0 < size)%nat as Hsize by (unfold size, kChunkDefaultSize; destruct single; lia).
  rewrite bool_decide_false by lia. set (num := (row_count / size + _)%nat).
  assert (row_count ≤ num * size)%nat as Hnum.
  { unfold num. pose proof (Nat.div_mod_eq row_count size). pose proof (Nat.mod_upper_bound row_count size).
    case_bool_decide; nia. }
  assert (num * size < row_count + size)%nat as Hnum'.
  { unfold num. pose proof (Nat.div_mod_eq row_count size). case_bool_decide; nia. }
  assert (length pl = row_count) as Hlpl by (by rewrite HP).
  assert (∀ r, r ∈ pl → r ∈ row_ids t) as Hpl by (intros r Hr; by rewrite <- HP).
  assert (∀ k, (k < num)%nat → ∃ c,
    for_range (GetColumnCount t) (materialize_sorted_segment t pl (k * size) (Nat.min (k * size + size) row_count)) = Ok c ∧
    chunk_rows c = Ok (take size (drop (k * size) rs))) as Hchunk.
  { intros k Hk. assert (k * size ≤ row_count)%nat by nia.
    destruct (materialize_chunk_ok t Ht Hnull pl (k * size) (Nat.min (k * size + size) row_count) rs)
      as (c & Hc & Hr); [done|lia| |done|].
    { fold row_count in Hsmall. destruct Hsmall as [|Hs]; [lia|]. unfold size in *. rewrite Hs in *.
      unfold kChunkDefaultSize in *. lia. }
    exists c. split; [done|]. rewrite Hr. f_equal.
    pose proof (mapR_ok_length _ _ _ Hrs) as Hl.
    destruct (decide (k * size + size ≤ row_count)%nat).
    - f_equal. lia.
    - rewrite !take_ge; [done|rewrite length_drop; lia..]. }
  destruct (for_range_total num (λ k, for_range (GetColumnCount t) (materialize_sorted_segment t pl (k * size)
    (Nat.min (k * size + size) row_count)))) as [cs Hcs].
  { intros k Hk. destruct (Hchunk k Hk) as (c & ? & _). eauto. }
  rewrite Hcs. eexists. split; [done|]. split; [done|]. split; cycle 1.
  { intros ->. cbn. apply for_range_ok in Hcs as [-> _]. unfold num, size.
    rewrite Nat.div_same, Nat.Div0.mod_same by lia. done. }
  unfold table_rows, chunks_rows. cbn [chunks].
  assert (mapR chunk_rows cs = Ok ((λ k, take size (drop (k * size) rs)) <$> seq 0 num)) as ->.
  { apply for_range_ok in Hcs as [Hlen Hval]. apply mapR_ok_Forall2, Forall2_same_length_lookup_2.
    { by rewrite length_fmap, length_seq. }
    intros k c r Hc Hr. rewrite list_lookup_fmap in Hr.
    assert (k < num)%nat as Hk by (rewrite <- Hlen; by eapply lookup_lt_Some).
    rewrite lookup_seq_lt in Hr by done. cbn in Hr. injection Hr as <-.
    destruct (Hval k Hk) as (c' & Hc' & Hm), (Hchunk k Hk) as (c'' & Hm' & ?). simplify_eq. congruence. }
  cbn [rbind]. f_equal. apply concat_slices. rewrite (mapR_ok_length _ _ _ Hrs). lia.
Qed.

(** C25: On a well-formed table without NULLs whose sort keys are comparable, Sort succeeds;
    its rows are the input rows in an order that is strictly ascending in the lexicographic
    order of the sort definitions (most significant first, each ascending or descending),
    ties in storage order: the result is a permutation, sorted and stable. *)
Theorem SortOperator_correct defs t rows :
  wf_table t → null_free t → cache_coherent t → table_rows t = Ok rows → defs ≠ [] →
  Forall (λ d, valid_sort_column t d = true) defs → Forall (ordered_keys t) defs →
  ∃ t' pl rows', SortOperator defs t = Ok t' ∧ column_definitions t' = column_definitions t ∧
    pl ≡ₚ row_ids t ∧ StronglySorted (row_order t defs) pl ∧
    mapR (row_at t) pl = Ok rows' ∧ table_rows t' = Ok rows' ∧ rows' ≡ₚ rows.
Proof.
  intros Ht Hnull Hcache Hrows Hne Hvalid Hord. unfold SortOperator.
  assert (forallb (valid_sort_column t) defs = true) as ->.
  { apply forallb_forall. intros d Hd. rewrite Forall_forall in Hvalid. by apply Hvalid, list_elem_of_In. }
  cbn [assert_ rbind]. rewrite RowCount_release by done. cbn [rbind].
  pose proof (table_rows_row_ids t rows Hrows) as Hat.
  case_bool_decide as Hempty.
  - apply length_zero_iff_nil in Hempty. exists t, [], []. rewrite Hempty in *. cbn in Hat. injection Hat as <-.
    do 3 (split; [done|]). split; [constructor|]. done.
  - assert (row_ids t ≠ []) as Hids by (intros E; by rewrite E in Hempty).
    rewrite passes_ok by done. cbn [rbind].
    pose proof (sorted_rows_Permutation t defs) as HP.
    symmetry in HP. destruct (mapR_Permutation _ _ _ _ HP Hat) as (rows' & Hrows' & HPr). symmetry in HP.
    destruct (MaterializeOutputTable_ok t (sorted_rows t defs) rows' false) as (t' & Ht' & Hd & Hr & _);
      try done; [by right|].
    exists t', (sorted_rows t defs), rows'. do 3 (split; [done|]). split; [by apply sorted_rows_sorted|].
    split; [done|]. split; [done|]. by symmetry.
Qed.

(** ** Keys of integer and string columns are comparable *)
Lemma ascii_compare_N a b : Ascii.compare a b = N.compare (Ascii.N_of_ascii a) (Ascii.N_of_ascii b).
Proof. done. Qed.

Lemma string_compare_negtrans (x y z : string) :
  String.compare x y ≠ Lt → String.compare y z ≠ Lt → String.compare x z ≠ Lt.
Proof.
  revert y z. induction x as [|a x IH]; intros [|b y] [|c z]; cbn; try done.
  rewrite !ascii_compare_N.
  destruct (N.compare_spec (Ascii.N_of_ascii a) (Ascii.N_of_ascii b)) as [E1|E1|E1], (N.compare_spec (Ascii.N_of_ascii b) (Ascii.N_of_ascii c)) as [E2|E2|E2],
    (N.compare_spec (Ascii.N_of_ascii a) (Ascii.N_of_ascii c)) as [E3|E3|E3]; try done; try lia. apply IH.
Qed.

Lemma string_compare_swap (x y : string) : String.compare y x = CompOpp (String.compare x y).
Proof. apply String.compare_antisym. Qed.

Lemma comparator_asym dt m a b : comparator dt m a b = true → comparator dt m b a = false.
Proof.
  unfold comparator. rewrite (compare_antisym dt a b). destruct m, (compare dt a b) as [[]|]; done.
Qed.

Lemma comparator_negtrans dt m a b c :
  dt = kInt ∨ dt = kLong ∨ dt = kString →
  comparator dt m a b = false → comparator dt m b c = false → comparator dt m a c = false.
Proof.
  unfold comparator. intros [->|[->| ->]]; cbn.
  1,2: destruct (Z.compare_spec a b), (Z.compare_spec b c), (Z.compare_spec a c), m; cbn; try done; lia.
  pose proof (string_compare_negtrans a b c) as H1. pose proof (string_compare_negtrans c b a) as H2.
  rewrite (string_compare_swap b c), (string_compare_swap a b), (string_compare_swap a c) in H2.
  destruct m, (String.compare a b), (String.compare b c), (String.compare a c); cbn in *; try done;
    exfalso; (by apply H1) || (by apply H2).
Qed.

Lemma ordered_keys_exact t d :
  (let dt := column_type t (N.to_nat (scd_column_id d)) in dt = kInt ∨ dt = kLong ∨ dt = kString) →
  ordered_keys t d.
Proof.
  intros Hdt. split.
  - intros a b _ _. apply comparator_asym.
  - intros a b c _ _ _. by apply comparator_negtrans.
Qed.

Definition sort_example_definitions : list SortColumnDefinition := [mkSortColumnDefinition 0%N kDescending].

Lemma SortOperator_correct_witness :
  ∃ t' pl rows', SortOperator sort_example_definitions limit_example = Ok t' ∧
    StronglySorted (row_order limit_example sort_example_definitions) pl ∧
    mapR (row_at limit_example) pl = Ok rows' ∧ table_rows t' = Ok rows' ∧
    rows' ≡ₚ [[VInt 1]; [VInt 2]; [VInt 3]; [VInt 4]; [VInt 5]].
Proof.
  destruct (SortOperator_correct sort_example_definitions limit_example
    [[VInt 1]; [VInt 2]; [VInt 3]; [VInt 4]; [VInt 5]] limit_example_wf limit_example_null_free)
    as (t' & pl & rows' & H1 & _ & _ & H2 & H3 & H4 & H5).
  - intros n H. discriminate H.
  - vm_compute. reflexivity.
  - discriminate.
  - constructor; [vm_compute; reflexivity|constructor].
  - constructor; [|constructor]. apply ordered_keys_exact. left. reflexivity.
  - exists t', pl, rows'. exact (conj H1 (conj H2 (conj H3 (conj H4 H5)))).
Defined.

(** ** NULLs *)
Lemma materialize_row_perm t j dt rows st st' :
  foldR (materialize_row t j dt) st rows = Ok st' → st'.2 ++ st'.1.*1 ≡ₚ st.2 ++ st.1.*1 ++ rows.
Proof.
  revert st. induction rows as [|r rows IH]; intros st H; cbn [foldR] in H.
  { injection H as <-. by rewrite app_nil_r. }
  apply bind_ok in H as (st1 & H1 & H). rewrite (IH _ H). unfold materialize_row in H1.
  apply bind_ok in H1 as (v & _ & H1). destruct (VariantIsNull v).
  - injection H1 as <-. cbn. rewrite <- app_assoc. f_equiv. cbn. by rewrite Permutation_middle.
  - apply bind_ok in H1 as (x & _ & [= <-]). cbn. by rewrite fmap_app, <- app_assoc.
Qed.

Lemma sort_pass_perm t d previous l :
  wf_table t → valid_sort_column t d = true →
  sort_pass t d previous = Ok l → l ≡ₚ match previous with [] => row_ids t | _ => previous end.
Proof.
  intros Ht [_ Hd%N.ltb_lt]%andb_true_iff H. unfold sort_pass in H. apply bind_ok in H as (dt & _ & H).
  assert (SortImplementation_Sort t (N.to_nat (scd_column_id d)) (scd_sort_mode d) dt previous = Ok l) as H' by (by destruct dt).
  clear H. unfold SortImplementation_Sort, MaterializeSortColumn in H'.
  apply bind_ok in H' as (st & H & [= <-]). apply bind_ok in H as (rows & Hr & H).
  apply materialize_row_perm in H. cbn in H. rewrite stable_sort_Permutation, H.
  destruct previous; [|by injection Hr as <-].
  rewrite column_row_ids_ok in Hr by (done || lia). by injection Hr as <-.
Qed.

Lemma passes_perm t defs l :
  wf_table t → Forall (λ d, valid_sort_column t d = true) defs → defs ≠ [] →
  foldR (λ previous d, sort_pass t d previous) [] (rev defs) = Ok l → l ≡ₚ row_ids t.
Proof.
  intros Ht Hv Hne. revert l. destruct Hv as [|d defs Hd Hv]; [done|]. clear Hne. intros l. cbn [rev].
  rewrite foldR_app. cbn [foldR]. intros H. apply bind_ok in H as (prev & Hp & H).
  apply bind_ok in H as (l' & H & [= <-]). rewrite (sort_pass_perm t d prev l' Ht Hd H).
  assert (prev = [] ∨ prev ≡ₚ row_ids t) as [->|HP]; [|done|].
  { clear -Ht Hv Hp. revert prev Hp. induction Hv as [|e defs He Hv IH]; intros prev Hp.
    - left. by injection Hp as <-.
    - right. cbn [rev] in Hp. rewrite foldR_app in Hp. cbn [foldR] in Hp. apply bind_ok in Hp as (p1 & Hp1 & Hp).
      apply bind_ok in Hp as (p2 & Hp2 & [= <-]). rewrite (sort_pass_perm t e p1 p2 Ht He Hp2).
      destruct (IH p1 Hp1) as [->|HP]; [done|]. by destruct p1. }
  by destruct prev.
Qed.

(** Sorting a non-empty table that holds a NULL in any column fails, although the
    implementation places NULL rows in front: the output is copied with [std::get] of the
    column type. *)
Theorem SortOperator_null_error defs t r j :
  wf_table t → cache_coherent t → defs ≠ [] → Forall (λ d, valid_sort_column t d = true) defs →
  r ∈ row_ids t → (j < GetColumnCount t)%nat → value_at t j r = Ok VNull →
  is_ok (SortOperator defs t) = false.
Proof.
  intros Ht Hcache Hne Hv Hr Hj Hnull. destruct (SortOperator defs t) as [t'|] eqn:H; [|done]. exfalso.
  unfold SortOperator in H. apply bind_ok in H as (_ & _ & H). rewrite RowCount_release in H by done.
  cbn [rbind] in H. rewrite bool_decide_false in H.
  2:{ intros E%length_zero_iff_nil. rewrite E in Hr. by apply elem_of_nil in Hr. }
  apply bind_ok in H as (pl & Hpl & H). apply passes_perm in Hpl; [|done..].
  unfold MaterializeOutputTable in H. rewrite RowCount_release in H by done. cbn [rbind] in H.
  apply bind_ok in H as (_ & _ & H). rewrite bool_decide_false in H by (unfold kChunkDefaultSize; lia).
  set (size := kChunkDefaultSize) in *. set (row_count := length (row_ids t)) in *.
  apply bind_ok in H as (cs & Hcs & _).
  rewrite <- Hpl in Hr. apply list_elem_of_lookup in Hr as [p Hp]. pose proof (lookup_lt_Some _ _ _ Hp) as Hlt.
  rewrite Hpl in Hlt. fold row_count in Hlt.
  assert (0 < size)%nat as Hsize by (unfold size, kChunkDefaultSize; lia).
  apply for_range_ok in Hcs as [_ Hcs]. destruct (Hcs (p / size)%nat) as (c & _ & Hc).
  { assert (p / size ≤ row_count / size)%nat by (apply Nat.Div0.div_le_mono; lia). case_bool_decide as Hm; [|lia].
    pose proof (Nat.div_mod_eq row_count size) as Heq. rewrite Hm in Heq.
    apply Nat.lt_le_trans with (row_count / size)%nat; [|lia]. apply Nat.Div0.div_lt_upper_bound. lia. }
  cbv zeta in Hc. apply for_range_ok in Hc as [_ Hc]. destruct (Hc j Hj) as (s & _ & Hs).
  unfold materialize_sorted_segment in Hs. apply bind_ok in Hs as (dt & Hdt & Hs).
  apply bind_ok in Hs as (nb & _ & Hs).
  assert (dt ≠ kNull) as Hk by (by intros ->). rewrite ResolveDataType_typed in Hs by done.
  apply bind_ok in Hs as (cells & Hcells & _).
  assert (p ∈ seq (p / size * size) (Nat.min (p / size * size + size) row_count - p / size * size)) as Hin.
  { apply elem_of_seq. pose proof (Nat.div_mod_eq p size). pose proof (Nat.mod_upper_bound p size). nia. }
  apply list_elem_of_lookup in Hin as [i Hi].
  destruct (mapR_ok_lookup _ _ _ _ _ Hcells Hi) as (cell & _ & Hcell).
  unfold vec_get in Hcell. rewrite Hp in Hcell. cbn [of_option rbind] in Hcell. rewrite Hnull in Hcell.
  by destruct dt.
Qed.

Lemma SortOperator_null_error_witness :
  is_ok (SortOperator sort_example_definitions null_example) = false.
Proof.
  apply (SortOperator_null_error sort_example_definitions null_example (mkRowId 0 1) 1).
  - split; cbn; [lia|done|done| |by repeat constructor]. intros c ->%list_elem_of_singleton. exists 2%nat.
    split; [done|repeat constructor|repeat constructor; by intros ? [= <-]|repeat constructor|done|repeat constructor]; done.
  - intros n H. discriminate H.
  - discriminate.
  - constructor; [vm_compute; reflexivity|constructor].
  - apply row_ids_elem. eexists. split; [reflexivity|]. vm_compute. lia.
  - vm_compute. lia.
  - vm_compute. reflexivity.
Defined.
