(* ===== verification/ProjectionCorrect.v ===== *)
(** * Correctness of the projection

    Splitting a large chunk keeps the rows; the jobs leave in every slot the segment of its
    column, whatever their interleaving; the rows of the output are the input's rows with
    every expression applied.  The flags that the jobs share are another matter: what they
    promise is stated here as well. *)

From S2P Require Export Projection Sort.

(** NULL flags occur in columns that are declared nullable only. *)
Definition nulls_declared (t : Table) : Prop :=
  ∀ c, c ∈ chunks t → Forall2 (λ d s, tcd_nullable d = false → ∀ i, seg_IsNull s i ≠ Ok true)
    (column_definitions t) c.

Lemma seg_IsNull_total s i : wf_segment s → (i < length (seg_values s))%nat → ∃ b, seg_IsNull s i = Ok b.
Proof.
  intros Hw Hi. unfold seg_IsNull, IsNullable, seg_null_at, vec_get.
  destruct (seg_null_values s) as [nulls|] eqn:Hn; [|by exists false].
  destruct (lookup_lt_is_Some_2 nulls i) as [b Hb]; [by rewrite (Hw _ Hn)|].
  exists b. cbn. by rewrite Hb.
Qed.

Lemma RowCount_sum t : cache_coherent t → (RowCount false t).2 = Ok (sum_list (chunk_Size <$> chunks t)).
Proof.
  intros Hc. destruct (RowCount false t) as [t' r] eqn:E.
  by destruct (RowCount_coherent false t t' r Hc E) as (-> & _).
Qed.

(** ** Splitting *)
Section Split.
Context (t : Table) (c : Chunk) (n : nat).
Hypothesis Ht : wf_table t.
Hypothesis Hc : chunks t = [c].
Hypothesis Hwf : wf_chunk (column_definitions t) n c.
Hypothesis Hplain : Forall (λ d, tcd_nullable d = false) (column_definitions t).
Hypothesis Hnulls : nulls_declared t.

Definition slice_of (offset : nat) (s : ValueSegment) : ValueSegment :=
  mkValueSegment (seg_type s) (take desired_chunk_size (drop offset (seg_values s))) None.

Lemma append_slice (s : ValueSegment) offset m acc :
  (offset + m ≤ length (seg_values s))%nat →
  foldR (λ new_segment i,
      v ← seg_Get s i;
      let '(new_segment', r) := seg_Append new_segment (to_variant (seg_type s) v) in
      _ ← r; Ok new_segment') (mkValueSegment (seg_type s) acc None) (seq offset m) =
    Ok (mkValueSegment (seg_type s) (acc ++ take m (drop offset (seg_values s))) None).
Proof.
  revert offset acc. induction m as [|m IH]; intros offset acc H; cbn [seq foldR].
  { by rewrite take_0, app_nil_r. }
  destruct (lookup_lt_is_Some_2 (seg_values s) offset) as [v Hv]; [lia|].
  unfold seg_Get at 1, vec_at. rewrite Hv. cbn [of_option rbind].
  unfold seg_Append at 1. cbn [seg_null_values seg_type]. rewrite variant_get_to_variant. cbn [rbind seg_values].
  rewrite IH by lia. rewrite <- app_assoc. do 3 f_equal. rewrite (drop_S _ v offset) by done. done.
Qed.

Lemma split_segment_ok j s offset :
  c !! j = Some s → (offset ≤ n)%nat → split_segment s n offset = Ok (slice_of offset s).
Proof.
  intros Hs Hoff. destruct (chunk_segment _ _ _ Hwf j s Hs) as (_ & Hlen & Hty & _).
  unfold split_segment, slice_of. rewrite ResolveDataType_typed by done. unfold empty_segment.
  rewrite append_slice by lia. cbn [app]. do 2 f_equal.
  destruct (Nat.min_spec desired_chunk_size (n - offset)) as [[? ->]|[? ->]]; [done|].
  rewrite !take_ge; [done|rewrite length_drop; lia..].
Qed.

Lemma slice_no_null j s i offset :
  c !! j = Some s → (i < desired_chunk_size `min` (n - offset))%nat →
  seg_index (slice_of offset s) i = seg_index s (offset + i).
Proof.
  intros Hs Hi. destruct (chunk_segment _ _ _ Hwf j s Hs) as (Hw & Hlen & _ & d & Hd & _).
  assert (seg_IsNull s (offset + i) = Ok false) as Hnull.
  { destruct (seg_IsNull_total s (offset + i) Hw) as [b Hb]; [lia|].
    assert (c ∈ chunks t) as Hin by (rewrite Hc; by left).
    rewrite Forall_lookup in Hplain.
    pose proof (Forall2_lookup_lr _ _ _ _ _ _ (Hnulls c Hin) Hd Hs (Hplain _ _ Hd) (offset + i)%nat) as Hne.
    by destruct b. }
  unfold seg_index. rewrite Hnull. unfold seg_IsNull, IsNullable, slice_of, vec_at. cbn.
  unfold desired_chunk_size in *. by rewrite lookup_take_lt, lookup_drop by lia.
Qed.

Lemma slice_chunk_rows offset rows :
  (offset ≤ n)%nat → chunk_rows c = Ok rows →
  chunk_rows (slice_of offset <$> c) = Ok (take desired_chunk_size (drop offset rows)).
Proof.
  intros Hoff Hrows. pose proof (chunk_Size_wf _ _ _ Hwf (wft_columns t Ht)) as Hn.
  pose proof (chunk_rows_length _ _ Hrows) as Hlr. rewrite Hn in Hlr.
  assert (chunk_Size (slice_of offset <$> c) = desired_chunk_size `min` (n - offset))%nat as Hsz.
  { pose proof (chunk_length _ _ _ Hwf) as Hl. pose proof (wft_columns t Ht).
    destruct c as [|s c'] eqn:E; [cbn in Hl; lia|].
    cbn [fmap list_fmap chunk_Size]. destruct (chunk_segment _ _ _ Hwf 0 s eq_refl) as (_ & Hlen & _).
    change (u32 (length (take desired_chunk_size (drop offset (seg_values s)))) =
      (desired_chunk_size `min` (n - offset))%nat). rewrite length_take, length_drop, Hlen. apply u32_id.
    pose proof (wfc_bound _ _ _ Hwf). unfold desired_chunk_size. lia. }
  unfold chunk_rows. rewrite Hsz. apply for_range_eq; [rewrite length_take, length_drop; lia|].
  intros i r [Hr Hi]%lookup_take_Some. rewrite lookup_drop in Hr.
  assert (offset + i < n)%nat by (apply lookup_lt_Some in Hr; lia).
  apply for_range_ok in Hrows as [_ Hrow]. destruct (Hrow (offset + i)%nat) as (r' & Hr' & Hat); [lia|].
  rewrite Hr in Hr'. injection Hr' as <-. rewrite <- Hat. apply chunk_row_ext. apply Forall2_same_length_lookup_2; [by rewrite length_fmap|].
  intros j s' s Hs' Hs. rewrite list_lookup_fmap, Hs in Hs'. injection Hs' as <-. eapply slice_no_null; [done|lia].
Qed.

Lemma slice_wf_chunk offset :
  wf_chunk (column_definitions t) (desired_chunk_size `min` (n - offset)) (slice_of offset <$> c).
Proof.
  destruct Hwf as [Hty Hr Hn Hnu Hb Htyped]. split.
  - rewrite <- Hty, <- list_fmap_compose. done.
  - apply Forall_fmap. eapply Forall_impl; [exact Hr|]. intros s Hs. cbn.
    by rewrite length_take, length_drop, Hs.
  - apply Forall_fmap, Forall_true. by intros s nulls [=].
  - apply Forall2_same_length_lookup_2.
    { rewrite length_fmap. apply (f_equal length) in Hty. by rewrite !length_fmap in Hty. }
    intros j d s Hd _ Hnull. rewrite Forall_lookup in Hplain. by rewrite (Hplain j d Hd) in Hnull.
  - lia.
  - by apply Forall_fmap.
Qed.

Lemma split_chunk_ok offset :
  (offset ≤ n)%nat → split_chunk t n offset = Ok (slice_of offset <$> c).
Proof.
  intros Hoff. unfold split_chunk. apply for_range_eq.
  { rewrite length_fmap. unfold GetColumnCount. rewrite u32_id by apply Ht. by eapply chunk_length. }
  intros j s' Hs'. rewrite list_lookup_fmap in Hs'. apply fmap_Some in Hs' as (s & Hs & ->).
  unfold GetChunk, vec_get, chunk_GetSegment, vec_at. rewrite Hc. cbn. rewrite Hs. cbn.
  by eapply split_segment_ok.
Qed.

Lemma split_count_bounds m :
  (m ≤ split_count m * desired_chunk_size)%nat ∧
  ∀ k, (k < split_count m)%nat → (k * desired_chunk_size < m)%nat.
Proof.
  unfold split_count. pose proof (Nat.div_mod_eq m desired_chunk_size) as Hdm.
  pose proof (Nat.mod_upper_bound m desired_chunk_size ltac:(done)) as Hm.
  unfold desired_chunk_size in *. case_bool_decide; split; intros; lia.
Qed.

Lemma split_chunks_ok :
  for_range (split_count n) (λ k, split_chunk t n (k * desired_chunk_size)) =
    Ok ((λ k, slice_of (k * desired_chunk_size) <$> c) <$> seq 0 (split_count n)).
Proof.
  apply mapR_total. intros k Hk%elem_of_seq. apply split_chunk_ok.
  destruct (split_count_bounds n) as [_ Hlt]. specialize (Hlt k). lia.
Qed.
End Split.

(** Splitting applies to a table of a single chunk with more than 128 rows. *)
Definition splits (t : Table) : bool :=
  match chunks t with [c] => (desired_chunk_size <? chunk_Size c)%nat | _ => false end.

Lemma split_large_chunk_ok t rows :
  wf_table t → cache_coherent t → nulls_declared t → table_rows t = Ok rows →
  (splits t = true → Forall (λ d, tcd_nullable d = false) (column_definitions t)) →
  ∃ t', split_large_chunk t = Ok t' ∧ column_definitions t' = column_definitions t ∧ wf_table t' ∧
    nulls_declared t' ∧ table_rows t' = Ok rows.
Proof.
  intros Ht Hcache Hnulls Hrows Hsplit. unfold split_large_chunk.
  rewrite RowCount_sum by done. remember (sum_list _) as m eqn:Hm. cbn [rbind]. unfold ChunkCount. rewrite u32_id by apply Ht.
  destruct (bool_decide (length (chunks t) = 1%nat) && (desired_chunk_size <? m)%nat) eqn:E; [|by exists t].
  apply andb_true_iff in E as [E Hlarge]. apply bool_decide_eq_true in E.
  destruct (chunks t) as [|c [|]] eqn:Hc; try discriminate E. cbn in Hm. rewrite Nat.add_0_r in Hm.
  assert (splits t = true) as Hs by (unfold splits; rewrite Hc, <- Hm; done).
  destruct (wft_chunks t Ht c) as [n Hwf]; [rewrite Hc; by left|].
  rewrite (chunk_Size_wf _ _ _ Hwf (wft_columns t Ht)) in Hm. subst m. specialize (Hsplit Hs).
  pose proof (split_count_bounds n) as [Hcover Hlt].
  rewrite (split_chunks_ok t c n) by done. cbn [rbind]. eexists. split; [done|]. split; [done|].
  assert (∀ c', c' ∈ (λ k, slice_of (k * desired_chunk_size) <$> c) <$> seq 0 (split_count n) →
    ∃ k, c' = slice_of (k * desired_chunk_size) <$> c ∧ (k < split_count n)%nat) as Hin.
  { intros c' (k & -> & Hk%elem_of_seq)%list_elem_of_fmap. exists k. split; [done|lia]. }
  split; [|split].
  - destruct Ht. split; cbn [chunks column_definitions]; try done.
    + rewrite length_fmap, length_seq. pose proof (wfc_bound _ _ _ Hwf).
      destruct (split_count n) as [|k] eqn:Ek; [done|]. specialize (Hlt k). unfold desired_chunk_size in *. lia.
    + intros c' (k & -> & _)%Hin. eexists. by apply slice_wf_chunk.
  - intros c' (k & -> & _)%Hin. cbn [column_definitions]. apply Forall2_same_length_lookup_2.
    { rewrite length_fmap. symmetry. by eapply chunk_length. }
    intros j d s _ Hs' _ i. rewrite list_lookup_fmap in Hs'. apply fmap_Some in Hs' as (s' & _ & ->).
    by unfold seg_IsNull, IsNullable.
  - unfold table_rows in *. cbn [chunks]. rewrite Hc, chunks_rows_cons in Hrows. inv_bind.
    injection Hx0 as <-. rewrite app_nil_r. unfold chunks_rows.
    assert (mapR chunk_rows ((λ k, slice_of (k * desired_chunk_size) <$> c) <$> seq 0 (split_count n)) =
      Ok ((λ k, take desired_chunk_size (drop (k * desired_chunk_size) x)) <$> seq 0 (split_count n))) as ->.
    { apply mapR_ok_Forall2, Forall2_fmap, Forall_Forall2_diag, Forall_forall. intros k Hk%elem_of_seq.
      eapply (slice_chunk_rows t c n); try done. specialize (Hlt k). lia. }
    cbn. f_equal. apply concat_slices.
    pose proof (chunk_rows_length _ _ Hx) as ->. by rewrite (chunk_Size_wf _ _ _ Hwf (wft_columns t Ht)).
Qed.

(** ** The jobs *)
Section Jobs.
Variable lexical_cast_string : ∀ t, ctype t → string.
Variable try_lexical_convert : ∀ t, string → option (ctype t).
Variable expressions : list expr.
Variable t : Table.

Abbreviation evaluate_segment := (evaluate_segment lexical_cast_string try_lexical_convert).
Abbreviation job_step := (job_step lexical_cast_string try_lexical_convert expressions).

(** What belongs into the slot of an expression. *)
Definition project_segment (chunk_id : nat) (c : Chunk) (e : expr) : result ValueSegment :=
  match e with PqpColumn id _ _ _ => vec_atN c id | _ => evaluate_segment t chunk_id e end.

Lemma project_segment_computed chunk_id c e :
  is_forwarded e = false → project_segment chunk_id c e = evaluate_segment t chunk_id e.
Proof. by destruct e. Qed.

(** A column that may be declared nullable: it is forwarded from a nullable column, or its
    segment has NULL flags for some chunk. *)
Definition may_be_nullable (column : nat) : Prop :=
  ∃ e, expressions !! column = Some e ∧
    match e with
    | PqpColumn id _ _ _ => ColumnIsNullable t (N.to_nat id) = Ok true ∧ chunks t ≠ []
    | _ => ∃ chunk_id s, evaluate_segment t chunk_id e = Ok s ∧ IsNullable s = true
    end.

(** The slots of the chunk [chunk_id] when its job is [job]. *)
Record slots_ok (chunk_id : nat) (c : Chunk) (job : Job) (slots : list (option ValueSegment)) : Prop := {
  slots_length : length slots = length expressions;
  slots_column : (job_column job ≤ length expressions)%nat;
  slots_done : ∀ k e, expressions !! k = Some e → is_forwarded e = true ∨ (k < job_column job)%nat →
    ∃ s, slots !! k = Some (Some s) ∧ project_segment chunk_id c e = Ok s;
  slots_pending : ∀ s flag, job_pending job = Some (s, flag) →
    ∃ e, expressions !! job_column job = Some e ∧ is_forwarded e = false ∧
      evaluate_segment t chunk_id e = Ok s ∧ (flag = true → may_be_nullable (job_column job)) }.

Record state_ok (st : State) : Prop := {
  so_jobs : length (jobs st) = length (chunks t);
  so_slots : length (output_segments_by_chunk st) = length (chunks t);
  so_flags : length (nullable_columns st) = length expressions;
  so_chunk : ∀ i c job slots, chunks t !! i = Some c → jobs st !! i = Some job →
    output_segments_by_chunk st !! i = Some slots → slots_ok i c job slots;
  so_nullable : ∀ k, nullable_columns st !! k = Some true → may_be_nullable k }.

Lemma insert_lookup_true (l : list bool) i b k :
  <[i := b]> l !! k = Some true → (k = i ∧ b = true) ∨ l !! k = Some true.
Proof.
  intros H. destruct (decide (k = i)) as [->|].
  - left. apply list_lookup_insert_Some in H as [(_ & -> & _)|[? _]]; done.
  - right. by rewrite list_lookup_insert_ne in H.
Qed.

Lemma job_step_ok st i st' : state_ok st → job_step t st i = Ok st' → state_ok st'.
Proof.
  intros [Hj Hs Hf Hc Hn] Hstep. unfold Projection.job_step in Hstep.
  destruct (jobs st !! i) as [[column pending]|] eqn:Hji; [|by injection Hstep as <-].
  destruct pending as [[s flag]|].
  - injection Hstep as <-. split; cbn; rewrite ?length_insert, ?length_alter; try done.
    + intros k c job slots Hck Hjob Hslots.
      destruct (decide (i = k)) as [<-|Hne].
      2: { rewrite list_lookup_insert_ne in Hjob by done. rewrite list_lookup_alter_ne in Hslots by done. eauto. }
      rewrite list_lookup_insert_eq in Hjob by (by eapply lookup_lt_Some). injection Hjob as <-.
      rewrite list_lookup_alter_eq in Hslots. apply fmap_Some in Hslots as (slots0 & Hslots0 & ->).
      destruct (Hc i c _ _ Hck Hji Hslots0) as [Hl Hcol Hdone Hpend]. cbn in *.
      destruct (Hpend s flag eq_refl) as (e & He & Hfwd & Hev & _). pose proof (lookup_lt_Some _ _ _ He).
      split; cbn; [by rewrite length_insert|lia| |done]. intros k e' He' Hk.
      destruct (decide (k = column)) as [->|Hkc].
      * simplify_eq. exists s. rewrite list_lookup_insert_eq by lia. split; [done|].
        by rewrite project_segment_computed.
      * rewrite list_lookup_insert_ne by done. apply Hdone; [done|]. destruct Hk; [by left|right; lia].
    + intros k [[-> ->]|H]%insert_lookup_true; [|by apply Hn].
      destruct (lookup_lt_is_Some_2 (output_segments_by_chunk st) i) as [slots Hslots].
      { rewrite Hs, <- Hj. by eapply lookup_lt_Some. }
      destruct (lookup_lt_is_Some_2 (chunks t) i) as [c Hck]; [rewrite <- Hj; by eapply lookup_lt_Some|].
      destruct (Hc i c _ _ Hck Hji Hslots) as [_ _ _ Hpend].
      destruct (Hpend s true eq_refl) as (e & _ & _ & _ & Hm). by apply Hm.
  - destruct (expressions !! column) as [e|] eqn:He; [|by injection Hstep as <-].
    destruct (is_forwarded e) eqn:Hfwd; [injection Hstep as <-|inv_bind];
      split; cbn; rewrite ?length_insert; try done; intros k c job slots Hck Hjob Hslots;
      (destruct (decide (i = k)) as [<-|Hne];
        [|rewrite list_lookup_insert_ne in Hjob by done; by eauto]);
      rewrite list_lookup_insert_eq in Hjob by (by eapply lookup_lt_Some); injection Hjob as <-;
      destruct (Hc i c _ _ Hck Hji Hslots) as [Hl Hcol Hdone Hpend]; cbn in *;
      pose proof (lookup_lt_Some _ _ _ He); split; cbn; try done.
    + intros k e' He' Hk. destruct (decide (k = column)) as [->|Hkc]; [|apply Hdone; [done|destruct Hk; [by left|right; lia]]].
      simplify_eq. by apply Hdone; [|left].
    + intros s flag [= <- <-]. exists e. do 3 (split; [done|]). intros [->|Hnull]%orb_true_iff.
      * by apply Hn.
      * exists e. split; [done|]. destruct e; try done; by eexists i, x.
Qed.

Lemma run_ok schedule st st' : state_ok st → foldR (job_step t) st schedule = Ok st' → state_ok st'.
Proof.
  revert st. induction schedule as [|i l IH]; intros st H Hrun; cbn in Hrun; [by injection Hrun as <-|].
  inv_bind. eapply IH; [|done]. by eapply job_step_ok.
Qed.

(** The steps a job has left. *)
Definition job_remaining (job : Job) : nat :=
  2 * (length expressions - job_column job) - (match job_pending job with Some _ => 1 | None => 0 end).

Definition remaining (st : State) (i : nat) : nat := from_option job_remaining 0%nat (jobs st !! i).

Lemma job_step_remaining st i st' k : state_ok st → job_step t st i = Ok st' →
  (remaining st' k ≤ remaining st k)%nat ∧ (remaining st' i ≤ remaining st i - 1)%nat.
Proof.
  intros Hok Hstep. unfold remaining, Projection.job_step in *.
  destruct (jobs st !! i) as [old|] eqn:Hji; [|by injection Hstep as <-; rewrite Hji].
  assert (∀ job, jobs st' = <[i := job]> (jobs st) → (job_remaining job ≤ job_remaining old - 1)%nat →
    (from_option job_remaining 0 (jobs st' !! k) ≤ from_option job_remaining 0 (jobs st !! k))%nat ∧
    (from_option job_remaining 0 (jobs st' !! i) ≤ job_remaining old - 1)%nat) as H.
  { intros job -> Hle. rewrite list_lookup_insert_eq by (by eapply lookup_lt_Some). split; [|done].
    destruct (decide (i = k)) as [<-|]; [|by rewrite list_lookup_insert_ne].
    rewrite list_lookup_insert_eq by (by eapply lookup_lt_Some). rewrite Hji. cbn [from_option]. lia. }
  destruct old as [column [[s flag]|]]; unfold job_remaining in *; cbn [job_column job_pending from_option] in *.
  { injection Hstep as <-. eapply H; [done|]. cbn. lia. }
  destruct (expressions !! column) as [e|] eqn:He.
  - pose proof (lookup_lt_Some _ _ _ He).
    destruct (is_forwarded e); [injection Hstep as <-|inv_bind]; (eapply H; [done|]); cbn; lia.
  - injection Hstep as <-. rewrite Hji. cbn. apply lookup_ge_None in He. split; [done|lia].
Qed.

Lemma run_remaining schedule st st' k :
  state_ok st → foldR (job_step t) st schedule = Ok st' → (remaining st' k ≤ remaining st k)%nat.
Proof.
  revert st. induction schedule as [|i l IH]; intros st H Hrun; cbn in Hrun; [by injection Hrun as <-|].
  inv_bind. etransitivity; [eapply IH; [|done]; by eapply job_step_ok|]. by eapply job_step_remaining.
Qed.

Lemma run_replicate m i st st' :
  state_ok st → foldR (job_step t) st (replicate m i) = Ok st' → (remaining st' i ≤ remaining st i - m)%nat.
Proof.
  revert st. induction m as [|m IH]; intros st H Hrun; cbn in Hrun; [injection Hrun as <-; lia|].
  inv_bind. destruct (job_step_remaining st i x i H Hx) as [_ H1].
  specialize (IH x (job_step_ok st i x H Hx) Hrun). lia.
Qed.

(** After the run every job has handled all columns. *)
Lemma run_jobs_finished schedule st st' i job :
  (N.of_nat (length (chunks t)) < 2 ^ 32)%N → state_ok st →
  run_jobs lexical_cast_string try_lexical_convert expressions t schedule st = Ok st' →
  jobs st' !! i = Some job → job = mkJob (length expressions) None.
Proof.
  intros Hcount Hok Hrun Hjob. unfold run_jobs, ChunkCount in Hrun. rewrite u32_id in Hrun by done.
  pose proof (run_ok _ _ _ Hok Hrun) as Hok'.
  assert (i < length (chunks t))%nat as Hi by (rewrite <- (so_jobs _ Hok'); by eapply lookup_lt_Some).
  assert (∃ l k, seq 0 (length (chunks t)) = l ++ i :: k) as (l & k & Hseq).
  { apply list_elem_of_split, elem_of_seq. lia. }
  unfold finishing in Hrun. rewrite Hseq, fmap_app, concat_app in Hrun. cbn [fmap list_fmap concat] in Hrun.
  do 3 (rewrite foldR_app in Hrun; inv_bind).
  pose proof (run_ok _ _ _ Hok Hx) as Hok1. pose proof (run_ok _ _ _ Hok1 Hx0) as Hok2.
  pose proof (run_ok _ _ _ Hok2 Hx1) as Hok3.
  pose proof (run_replicate _ _ _ _ Hok2 Hx1) as Hm. pose proof (run_remaining _ _ _ i Hok3 Hrun) as Hr.
  assert (remaining x0 i ≤ 2 * length expressions)%nat as Hle.
  { unfold remaining, job_remaining. destruct (jobs x0 !! i); cbn; lia. }
  assert (remaining st' i = 0)%nat as H0 by lia. unfold remaining, job_remaining in H0. rewrite Hjob in H0.
  destruct (lookup_lt_is_Some_2 (chunks t) i Hi) as [c Hc].
  destruct (lookup_lt_is_Some_2 (output_segments_by_chunk st') i) as [slots Hslots].
  { by rewrite (so_slots _ Hok'). }
  destruct (so_chunk _ Hok' i c job slots Hc Hjob Hslots) as [_ Hcol _ Hpend].
  destruct job as [column [[s flag]|]]; cbn in *.
  - destruct (Hpend s flag eq_refl) as (e & He & _). apply lookup_lt_Some in He. lia.
  - f_equal. lia.
Qed.

(** Nothing fails as long as every expression can be evaluated. *)
Lemma job_step_total st i :
  state_ok st →
  (∀ k e, (k < length (chunks t))%nat → e ∈ expressions → is_forwarded e = false → ∃ s, evaluate_segment t k e = Ok s) →
  ∃ st', job_step t st i = Ok st'.
Proof.
  intros Hok Hev. unfold Projection.job_step. destruct (jobs st !! i) as [[column [[s flag]|]]|] eqn:Hji; eauto.
  destruct (expressions !! column) as [e|] eqn:He; [|eauto]. destruct (is_forwarded e) eqn:Hf; [eauto|].
  destruct (Hev i e) as [s Hs]; [rewrite <- (so_jobs _ Hok); by eapply lookup_lt_Some|by eapply list_elem_of_lookup_2|done|].
  rewrite Hs. cbn [rbind]. destruct (lookup_lt_is_Some_2 (nullable_columns st) column) as [b Hb].
  { rewrite (so_flags _ Hok). by eapply lookup_lt_Some. }
  unfold vec_get. rewrite Hb. cbn. eauto.
Qed.

Lemma run_total schedule st :
  state_ok st →
  (∀ k e, (k < length (chunks t))%nat → e ∈ expressions → is_forwarded e = false → ∃ s, evaluate_segment t k e = Ok s) →
  ∃ st', foldR (job_step t) st schedule = Ok st'.
Proof.
  intros Hok Hev. revert st Hok. induction schedule as [|i l IH]; intros st Hok; cbn; [eauto|].
  destruct (job_step_total st i Hok Hev) as [st' Hst']. rewrite Hst'. cbn. eapply IH, job_step_ok; done.
Qed.

(** ** Forwarding *)
Lemma forward_ok chunk_ids flags0 slots0 r :
  length flags0 = length expressions → (∀ k, flags0 !! k = Some true → may_be_nullable k) →
  foldR (forward_chunk expressions t) (flags0, slots0) chunk_ids = Ok r →
  length r.1 = length expressions ∧ (∀ k, r.1 !! k = Some true → may_be_nullable k) ∧
  ∃ slots, r.2 = slots0 ++ slots ∧ Forall2 (λ i s, ∃ c, chunks t !! i = Some c ∧
    mapR (forward_segment c) expressions = Ok s) chunk_ids slots.
Proof.
  revert flags0 slots0. induction chunk_ids as [|i ids IH]; intros flags0 slots0 Hl Hn H; cbn [foldR] in H.
  { injection H as <-. split; [done|]. split; [done|]. exists []. by rewrite app_nil_r. }
  inv_bind. unfold forward_chunk in Hx. inv_bind. unfold GetChunk in Hx0. inv_bind. cbn [fst snd] in *.
  destruct (IH x2 (slots0 ++ [x1])) as (Hl' & Hn' & slots & Hs & HF); [| |done|].
  - rewrite (mapR_ok_length _ _ _ Hx2), length_zip_with. lia.
  - intros k Hk. apply mapR_ok_Forall2 in Hx2.
    destruct (Forall2_lookup_r _ _ _ _ _ Hx2 Hk) as ([e b] & Heb & Hflag).
    apply lookup_zip_with_Some in Heb as (e' & b' & [= -> ->] & He & Hb). cbn in Hflag.
    destruct e'; try (injection Hflag as ->; by apply Hn). eexists. split; [done|].
    split; [done|]. intros E. by rewrite E, lookup_nil in Hx0.
  - split; [done|]. split; [done|]. exists (x1 :: slots). split; [by rewrite Hs, <- app_assoc|].
    constructor; [by exists x0|done].
Qed.

Lemma forward_state_ok r :
  (N.of_nat (length (chunks t)) < 2 ^ 32)%N →
  foldR (forward_chunk expressions t) (replicate (length expressions) false, []) (seq 0 (ChunkCount t)) = Ok r →
  state_ok (mkState r.1 r.2 (replicate (ChunkCount t) (mkJob 0 None))).
Proof.
  intros Hcount H. unfold ChunkCount in *. rewrite u32_id in * by done.
  apply forward_ok in H as (Hl & Hn & slots & Hr2 & HF);
    [|by rewrite length_replicate|intros k Hk; by apply lookup_replicate in Hk as [??]].
  cbn [app] in Hr2. rewrite Hr2. pose proof (Forall2_length _ _ _ HF) as Hlen. rewrite length_seq in Hlen.
  split; cbn; [by rewrite length_replicate|done|done| |done].
  intros i c job s Hc Hjob Hs. apply lookup_replicate in Hjob as [-> _].
  destruct (Forall2_lookup_r _ _ _ _ _ HF Hs) as (i' & Hi' & c' & Hc' & Hfwd).
  apply lookup_seq in Hi' as [-> _]. cbn in Hc'. simplify_eq.
  split; cbn; [by eapply mapR_ok_length|lia| |done].
  intros k e He [Hf|]; [|lia]. destruct (mapR_ok_lookup _ _ _ _ _ Hfwd He) as (o & Ho & Hoe).
  destruct e; try done. cbn in Hoe. inv_bind. by exists x.
Qed.

(** ** Rows *)

(** A forwarded column keeps its value; any other has the value of its expression. *)
Definition project_cell (r : Row) (e : expr) : result AllTypeVariant :=
  match e with
  | PqpColumn id _ _ _ => vec_atN r id
  | _ =>
      ty ← GetDataType e;
      v ← sem lexical_cast_string try_lexical_convert (vec_atN r) e ty;
      Ok (from_option (to_variant ty) VNull v)
  end.

Definition project_row (r : Row) : result Row := mapR (project_cell r) expressions.

Section Chunk.
Context (k : nat) (c : Chunk) (n : nat).
Hypothesis Ht : wf_table t.
Hypothesis Hnulls : nulls_declared t.
Hypothesis Hc : chunks t !! k = Some c.
Hypothesis Hwf : wf_chunk (column_definitions t) n c.

Lemma row_of_chunk_row i r id :
  (i < n)%nat → chunk_row c i = Ok r → row_of (mkEnv (Some (t, c)) k (chunk_Size c)) i id = vec_atN r id.
Proof.
  intros Hi Hr. unfold row_of. cbn [env_table of_option rbind]. rewrite !vec_atN_at. unfold vec_at.
  destruct (c !! N.to_nat id) as [s|] eqn:Hs; cbn [of_option rbind].
  2: { rewrite lookup_ge_None_2; [done|]. rewrite (mapR_ok_length _ _ _ Hr). by apply lookup_ge_None. }
  destruct (mapR_ok_lookup _ _ _ _ _ Hr Hs) as (v & Hv & Hsv). rewrite Hv. cbn [of_option].
  destruct (chunk_segment _ _ _ Hwf _ s Hs) as (Hw & Hlen & _ & d & Hd & _).
  unfold ColumnIsNullable, vec_get. rewrite Hd. cbn [of_option rbind].
  destruct (seg_IsNull_total s i Hw) as [b Hb]; [lia|]. unfold seg_index in Hsv. rewrite Hb in Hsv. cbn [rbind] in Hsv.
  assert ((if tcd_nullable d then seg_null_at s i else Ok false) = Ok b) as ->.
  { destruct (tcd_nullable d) eqn:Hnull.
    - pose proof (Forall2_lookup_lr _ _ _ _ _ _ (wfc_nullable _ _ _ Hwf) Hd Hs Hnull) as Hns.
      unfold seg_IsNull in Hb. by rewrite Hns in Hb.
    - assert (c ∈ chunks t) as Hin by (by eapply list_elem_of_lookup_2).
      pose proof (Forall2_lookup_lr _ _ _ _ _ _ (Hnulls c Hin) Hd Hs Hnull i). destruct b; [done|done]. }
  cbn [rbind]. destruct b; [done|]. inv_bind. unfold vec_get. rewrite Hx. done.
Qed.

(** The slot of an expression fits its chunk and holds the value of the expression. *)
Lemma project_segment_ok e s :
  project_segment k c e = Ok s →
  wf_segment s ∧ length (seg_values s) = n ∧ seg_type s ≠ kNull ∧
  match e with
  | PqpColumn id _ _ _ => ∃ d, column_definitions t !! N.to_nat id = Some d ∧ tcd_data_type d = seg_type s ∧
      (tcd_nullable d = true → IsNullable s = true)
  | _ => GetDataType e = Ok (seg_type s)
  end ∧
  ∀ i r, (i < n)%nat → chunk_row c i = Ok r → seg_index s i = project_cell r e.
Proof.
  intros H. destruct (is_forwarded e) eqn:Hf.
  - destruct e; try discriminate Hf. cbn in H. rewrite vec_atN_at in H. inv_bind.
    destruct (chunk_segment _ _ _ Hwf _ s H) as (Hw & Hlen & Hty & d & Hd & Hdt).
    do 3 (split; [done|]). split.
    + exists d. do 2 (split; [done|]). by apply (Forall2_lookup_lr _ _ _ _ _ _ (wfc_nullable _ _ _ Hwf) Hd H).
    + intros i r _ Hr. cbn. rewrite vec_atN_at. destruct (mapR_ok_lookup _ _ _ _ _ Hr H) as (v & Hv & ->).
      unfold vec_at. by rewrite Hv.
  - rewrite project_segment_computed in H by done. unfold Projection.evaluate_segment, make_evaluator, GetChunk, vec_get in H.
    rewrite Hc in H. cbn [of_option rbind] in H.
    assert (chunk_Size c = n) as Hn by (eapply chunk_Size_wf; [done|apply Ht]).
    assert (seg_type s ≠ kNull) as Hty.
    { unfold EvaluateExpressionToSegment in H. apply bind_ok in H as ([ty v] & _ & H).
      destruct (decide (ty = kNull)); [done|]. by inv_bind. }
    destruct (segment_of_expression _ _ (mkEnv (Some (t, c)) k (chunk_Size c)) n Hwf Hn e s H)
      as (Hdt & Hlen & Hw & Hval).
    do 3 (split; [done|]). split; [by destruct e|].
    intros i r Hi Hr. specialize (Hval i Hi).
    rewrite (sem_ext _ _ _ (vec_atN r)) in Hval by (intros; by eapply row_of_chunk_row).
    assert (project_cell r e = (v ← sem lexical_cast_string try_lexical_convert (vec_atN r) e (seg_type s);
      Ok (from_option (to_variant (seg_type s)) VNull v))) as ->.
    { destruct e; try discriminate Hf; unfold project_cell; by rewrite Hdt. }
    rewrite <- Hval. unfold seg_GetTypedValue, seg_index.
    destruct (seg_IsNull_total s i Hw) as [b ->]; [lia|]. cbn [rbind]. destruct b; [done|].
    destruct (lookup_lt_is_Some_2 (seg_values s) i) as [x Hx]; [lia|]. unfold vec_at, vec_get. by rewrite Hx.
Qed.
End Chunk.

(** ** The output *)
Definition expr_fits (e : expr) : Prop :=
  match e with
  | PqpColumn id ty _ _ => ∃ d, column_definitions t !! N.to_nat id = Some d ∧ tcd_data_type d = ty
  | _ => True
  end.

Lemma outputs_ok st :
  state_ok st →
  (∀ i job k e, jobs st !! i = Some job → expressions !! k = Some e →
    is_forwarded e = true ∨ (k < job_column job)%nat) →
  ∃ outs, mapR (mapR (λ s, of_option s UndefinedBehaviour)) (output_segments_by_chunk st) = Ok outs ∧
    length outs = length (chunks t) ∧
    ∀ i c c', chunks t !! i = Some c → outs !! i = Some c' →
      Forall2 (λ e s, project_segment i c e = Ok s) expressions c'.
Proof.
  intros Hok Hdone.
  assert (∀ i c slots, chunks t !! i = Some c → output_segments_by_chunk st !! i = Some slots →
    ∃ c', mapR (λ s, of_option s UndefinedBehaviour) slots = Ok c' ∧
      Forall2 (λ e s, project_segment i c e = Ok s) expressions c') as H.
  { intros i c slots Hc Hs. destruct (lookup_lt_is_Some_2 (jobs st) i) as [job Hjob].
    { rewrite (so_jobs _ Hok). by eapply lookup_lt_Some. }
    destruct (so_chunk _ Hok i c job slots Hc Hjob Hs) as [Hl _ Hslots _].
    assert (∀ k e, expressions !! k = Some e → ∃ s, slots !! k = Some (Some s) ∧ project_segment i c e = Ok s) as Hall
      by (intros; eapply Hslots; eauto).
    clear -Hl Hall. revert Hall. generalize (project_segment i c) as f.
    revert expressions Hl. induction slots as [|o slots IH]; intros es Hl f Hall.
    { destruct es; [|done]. exists []. split; [done|constructor]. }
    destruct es as [|e es]; [done|]. destruct (Hall 0%nat e eq_refl) as (s & [= ->] & Hs).
    destruct (IH es ltac:(by injection Hl) f) as (c' & Hc' & HF).
    { intros k e' He'. by apply (Hall (S k)). }
    exists (s :: c'). cbn. rewrite Hc'. split; [done|by constructor]. }
  pose proof (so_slots _ Hok) as Hlen.
  assert (∃ outs, mapR (mapR (λ s, of_option s UndefinedBehaviour)) (output_segments_by_chunk st) = Ok outs) as [outs Houts].
  { assert (∀ i slots, output_segments_by_chunk st !! i = Some slots →
      ∃ c', mapR (λ s, of_option s UndefinedBehaviour) slots = Ok c') as H'.
    { intros i slots Hs. destruct (lookup_lt_is_Some_2 (chunks t) i) as [c Hc];
        [rewrite <- Hlen; by eapply lookup_lt_Some|]. destruct (H i c slots Hc Hs) as (c' & ? & _). eauto. }
    clear -H'. induction (output_segments_by_chunk st) as [|slots l IH]; [by exists []|].
    destruct (H' 0%nat slots eq_refl) as [c' Hc']. destruct IH as [k Hk]; [intros i s Hs; by apply (H' (S i))|].
    exists (c' :: k). cbn [mapR]. by rewrite Hc', Hk. }
  exists outs. split; [done|]. split; [rewrite (mapR_ok_length _ _ _ Houts); done|].
  intros i c c' Hc Hc'. apply mapR_ok_Forall2 in Houts.
  destruct (Forall2_lookup_r _ _ _ _ _ Houts Hc') as (slots & Hs & Hm).
  destruct (H i c slots Hc Hs) as (c2 & Hc2 & HF). cbn beta in Hm.
  rewrite Hc2 in Hm. by injection Hm as <-.
Qed.

(** A chunk of the output against its chunk of the input. *)
Section Output.
Context (k : nat) (c c' : Chunk) (n : nat) (types : list DataType) (defs : TableColumnDefinitions).
Hypothesis Ht : wf_table t.
Hypothesis Hnulls : nulls_declared t.
Hypothesis Hc : chunks t !! k = Some c.
Hypothesis Hwf : wf_chunk (column_definitions t) n c.
Hypothesis Hc' : Forall2 (λ e s, project_segment k c e = Ok s) expressions c'.
Hypothesis Hfits : Forall expr_fits expressions.
Hypothesis Htypes : mapR GetDataType expressions = Ok types.

Lemma output_chunk_rows rows :
  expressions ≠ [] → chunk_rows c = Ok rows → chunk_rows c' = mapR project_row rows.
Proof.
  intros Hne. pose proof (chunk_Size_wf _ _ _ Hwf (wft_columns t Ht)) as Hn. apply chunk_rows_map.
  - rewrite Hn. destruct Hc' as [|e s es c2 Hs]; [done|]. cbn.
    destruct (project_segment_ok k c n Ht Hnulls Hc Hwf e s Hs) as (_ & Hlen & _).
    unfold seg_size. rewrite Hlen. apply u32_id. pose proof (wfc_bound _ _ _ Hwf). lia.
  - intros i r Hi Hr. rewrite Hn in Hi. unfold chunk_row, project_row.
    pose proof Hc' as HF. clear -Ht Hnulls Hc Hwf HF Hi Hr. induction HF as [|e s es c2 Hs _ IH]; [done|]. cbn [mapR].
    destruct (project_segment_ok k c n Ht Hnulls Hc Hwf e s Hs) as (_ & _ & _ & _ & Hcell).
    by rewrite (Hcell i r Hi Hr), IH.
Qed.

Lemma output_chunk_types : seg_type <$> c' = types.
Proof.
  pose proof Htypes as Hty. apply mapR_ok_Forall2 in Hty. pose proof Hfits as Hf. pose proof Hc' as HF.
  clear Htypes Hfits Hc'. revert types Hty Hf.
  induction HF as [|e s es c2 Hs _ IH]; intros tys HF Hf; inversion HF as [|? ty ? tys' Hty HF']; subst; [done|].
  inversion Hf as [|? ? He Hf']; subst. cbn. f_equal; [|by apply IH].
  destruct (project_segment_ok k c n Ht Hnulls Hc Hwf e s Hs) as (_ & _ & _ & Htype & _).
  destruct e; cbn in *; try congruence. destruct He as (d & Hd & Hdt), Htype as (d' & Hd' & Hdt' & _). congruence.
Qed.

Lemma output_chunk_wf :
  tcd_data_type <$> defs = types →
  Forall2 (λ d s, tcd_nullable d = true → IsNullable s = true) defs c' →
  wf_chunk defs n c'.
Proof.
  intros Hdefs Hnull.
  assert (∀ P : ValueSegment → Prop, (∀ s, wf_segment s → length (seg_values s) = n → seg_type s ≠ kNull → P s) →
    Forall P c') as HP.
  { intros P HP. pose proof Hc' as HF. clear -Ht Hnulls Hc Hwf HF HP. induction HF as [|e s es c2 Hs _ IH]; constructor; [|by apply IH].
    destruct (project_segment_ok k c n Ht Hnulls Hc Hwf e s Hs) as (? & ? & ? & _). by apply HP. }
  split; [by rewrite output_chunk_types|by apply HP|by apply HP|done|apply Hwf|by apply HP].
Qed.
End Output.
End Jobs.

Lemma may_be_nullable_segment lexical_cast_string try_lexical_convert expressions t k :
  wf_table t → Forall (expr_fits t) expressions →
  may_be_nullable lexical_cast_string try_lexical_convert expressions t k →
  ∃ e i c s, expressions !! k = Some e ∧ chunks t !! i = Some c ∧
    project_segment lexical_cast_string try_lexical_convert t i c e = Ok s ∧ IsNullable s = true.
Proof.
  intros Ht Hfits (e & He & Hmay). destruct (is_forwarded e) eqn:Hf.
  - destruct e; try discriminate Hf. destruct Hmay as [Hnull Hne].
    destruct (chunks t) as [|c cs] eqn:Hc; [done|]. destruct (wft_chunks t Ht c) as [n Hn]; [rewrite Hc; by left|].
    unfold ColumnIsNullable in Hnull. inv_bind.
    destruct (lookup_lt_is_Some_2 c (N.to_nat id)) as [s Hs].
    { rewrite (chunk_length _ _ _ Hn). by eapply lookup_lt_Some. }
    eexists _, 0%nat, c, s. split; [done|]. split; [done|]. cbn. rewrite vec_atN_at. unfold vec_at. rewrite Hs.
    split; [done|]. by apply (Forall2_lookup_lr _ _ _ _ _ _ (wfc_nullable _ _ _ Hn) Hx Hs).
  - assert (∃ i s, evaluate_segment lexical_cast_string try_lexical_convert t i e = Ok s ∧ IsNullable s = true)
      as (i & s & Hs & Hnull) by (by destruct e).
    pose proof Hs as Hs'. unfold evaluate_segment, make_evaluator, GetChunk in Hs'. inv_bind.
    exists e, i, x0, s. by rewrite project_segment_computed.
Qed.

(** Whatever the schedule, the jobs of a table leave complete slots. *)
Lemma projected_slots lexical_cast_string try_lexical_convert expressions schedule t r :
  wf_table t →
  foldR (forward_chunk expressions t) (replicate (length expressions) false, []) (seq 0 (ChunkCount t)) = Ok r →
  (∀ k e, (k < length (chunks t))%nat → e ∈ expressions → is_forwarded e = false →
    ∃ s, evaluate_segment lexical_cast_string try_lexical_convert t k e = Ok s) →
  let st := mkState r.1 r.2 (replicate (ChunkCount t) (mkJob 0 None)) in
  ∃ st', (if forallb is_forwarded expressions then Ok st
          else run_jobs lexical_cast_string try_lexical_convert expressions t schedule st) = Ok st' ∧
    state_ok lexical_cast_string try_lexical_convert expressions t st' ∧
    ∀ i job k e, jobs st' !! i = Some job → expressions !! k = Some e →
      is_forwarded e = true ∨ (k < job_column job)%nat.
Proof.
  intros Ht Hr Hev st. pose proof (wft_count t Ht) as Hcount.
  pose proof (forward_state_ok lexical_cast_string try_lexical_convert _ _ _ Hcount Hr) as Hok.
  destruct (forallb is_forwarded expressions) eqn:Hall.
  - exists st. split; [done|]. split; [done|]. intros i job k e _ He. left.
    apply forallb_Forall in Hall. rewrite Forall_lookup in Hall. eauto.
  - destruct (run_total lexical_cast_string try_lexical_convert expressions t
      (schedule ++ finishing expressions (ChunkCount t)) st Hok Hev) as [st' Hst'].
    exists st'. split; [exact Hst'|]. split; [by eapply run_ok|]. intros i job k e Hjob He. right.
    rewrite (run_jobs_finished _ _ _ _ schedule st st' i job Hcount Hok Hst' Hjob). cbn. by eapply lookup_lt_Some.
Qed.

Lemma forward_total expressions t :
  wf_table t → Forall (expr_fits t) expressions →
  ∃ r, foldR (forward_chunk expressions t) (replicate (length expressions) false, []) (seq 0 (ChunkCount t)) = Ok r.
Proof.
  intros Ht Hfits. unfold ChunkCount. rewrite u32_id by apply Ht.
  assert (∀ ids acc, (∀ i, i ∈ ids → (i < length (chunks t))%nat) →
    ∃ r, foldR (forward_chunk expressions t) acc ids = Ok r) as H.
  2: { apply H. intros i Hi%elem_of_seq. lia. }
  induction ids as [|i ids IH]; intros acc Hids; cbn [foldR]; [eauto|].
  destruct (lookup_lt_is_Some_2 (chunks t) i) as [c Hc]; [apply Hids; by left|].
  destruct (wft_chunks t Ht c) as [n Hwf]; [by eapply list_elem_of_lookup_2|].
  unfold forward_chunk at 1, GetChunk, vec_get. rewrite Hc. cbn [of_option rbind].
  assert (∃ segs, mapR (forward_segment c) expressions = Ok segs) as [segs ->].
  { clear -Hfits Hwf. induction Hfits as [|e es He _ [k Hk]]; [by exists []|]. cbn [mapR]. rewrite Hk.
    destruct e; cbn; eauto. destruct He as (d & Hd & _). rewrite vec_atN_at.
    destruct (lookup_lt_is_Some_2 c (N.to_nat id)) as [s Hs].
    { rewrite (chunk_length _ _ _ Hwf). by eapply lookup_lt_Some. }
    unfold vec_at. rewrite Hs. cbn. eauto. }
  cbn [rbind]. assert (∃ flags, mapR (λ p : expr * bool, forward_flag t p.1 p.2) (zip expressions acc.1) = Ok flags)
    as [flags ->].
  { generalize (acc.1) as l. clear -Hfits. induction Hfits as [|e es He _ IH]; intros [|b l]; cbn; eauto.
    destruct (IH l) as [k Hk]. rewrite Hk. destruct e; cbn; eauto. destruct He as (d & Hd & _).
    unfold ColumnIsNullable, vec_get. rewrite Hd. cbn. eauto. }
  cbn [rbind]. apply IH. intros; apply Hids; by right.
Qed.

Lemma output_definitions print_float print_double expressions flags names types :
  mapR (AsColumnName print_float print_double) expressions = Ok names → mapR GetDataType expressions = Ok types →
  length flags = length expressions →
  ∃ defs, for_range (length expressions) (output_definition print_float print_double expressions flags) = Ok defs ∧
    tcd_name <$> defs = names ∧ tcd_data_type <$> defs = types ∧ tcd_nullable <$> defs = flags.
Proof.
  intros Hn Ht Hf. pose proof (mapR_ok_length _ _ _ Hn) as Hln. pose proof (mapR_ok_length _ _ _ Ht) as Hlt.
  exists (zip_with (λ p b, mkTableColumnDefinition p.1 p.2 b) (zip names types) flags). split.
  - apply for_range_eq; [rewrite !length_zip_with; lia|]. intros i d Hd.
    apply lookup_zip_with_Some in Hd as ([name ty] & b & -> & Hp & Hb).
    apply lookup_zip_with_Some in Hp as (name' & ty' & [= -> ->] & Hname & Hty).
    destruct (lookup_lt_is_Some_2 expressions i) as [e He]; [rewrite <- Hf; by eapply lookup_lt_Some|].
    destruct (mapR_ok_lookup _ _ _ _ _ Hn He) as (name2 & ? & Hen).
    destruct (mapR_ok_lookup _ _ _ _ _ Ht He) as (ty2 & ? & Het). simplify_eq.
    unfold output_definition, vec_get. rewrite He. cbn [of_option rbind]. rewrite Hen, Het. cbn [rbind].
    by rewrite Hb.
  - split; [|split]; apply list_eq; intros i; rewrite list_lookup_fmap, !lookup_zip_with;
      (destruct (decide (i < length expressions)%nat) as [Hi|Hi];
       [destruct (lookup_lt_is_Some_2 names i) as [? Hx], (lookup_lt_is_Some_2 types i) as [? Hy],
         (lookup_lt_is_Some_2 flags i) as [? Hz]; [lia..|by rewrite Hx, Hy, Hz]
       |rewrite (lookup_ge_None_2 names), (lookup_ge_None_2 types), (lookup_ge_None_2 flags) by lia; done]).
Qed.

(** C26: Projection, for every interleaving of its jobs: when every expression has a name and
    a type and can be evaluated on every chunk, the operator returns a table with those names
    and types, in which every row is the row of the input, in the same place, with every
    expression applied; a column is declared nullable only if some chunk has NULL flags for
    it, and if conversely every chunk has flags for the columns declared nullable the table
    is well formed.  A single chunk with more than 128 rows is split, which requires that no
    column of the input is nullable. *)
Theorem ProjectionOperator_correct lexical_cast_string try_lexical_convert print_float print_double
    expressions schedule t rows names types :
  wf_table t → cache_coherent t → nulls_declared t → table_rows t = Ok rows →
  (splits t = true → Forall (λ d, tcd_nullable d = false) (column_definitions t)) →
  expressions ≠ [] → (N.of_nat (length expressions) < 2 ^ 32)%N → Forall (expr_fits t) expressions →
  mapR (AsColumnName print_float print_double) expressions = Ok names → mapR GetDataType expressions = Ok types →
  (∀ t1 k e, split_large_chunk t = Ok t1 → (k < length (chunks t1))%nat → e ∈ expressions →
    is_forwarded e = false → ∃ s, evaluate_segment lexical_cast_string try_lexical_convert t1 k e = Ok s) →
  ∃ t', ProjectionOperator lexical_cast_string try_lexical_convert print_float print_double expressions schedule t
      = Ok t' ∧
    ColumnNames t' = names ∧ ColumnDataTypes t' = types ∧
    table_rows t' = mapR (project_row lexical_cast_string try_lexical_convert expressions) rows ∧
    (∀ k d, column_definitions t' !! k = Some d → tcd_nullable d = true →
      ∃ c s, c ∈ chunks t' ∧ c !! k = Some s ∧ IsNullable s = true) ∧
    ((∀ c, c ∈ chunks t' → Forall2 (λ d s, tcd_nullable d = true → IsNullable s = true) (column_definitions t') c) →
     Forall (λ ty, ty ≠ kNull) types → wf_table t').
Proof.
  intros Ht Hcache Hnulls Hrows Hsplit Hne Hwidth Hfits Hnames Htypes Hev.
  destruct (split_large_chunk_ok t rows Ht Hcache Hnulls Hrows Hsplit) as (t1 & Ht1 & Hdefs & Hwf1 & Hnulls1 & Hrows1).
  assert (Forall (expr_fits t1) expressions) as Hfits1.
  { eapply Forall_impl; [exact Hfits|]. intros e. unfold expr_fits. by rewrite Hdefs. }
  unfold ProjectionOperator. rewrite Ht1. cbn [rbind].
  destruct (forward_total expressions t1 Hwf1 Hfits1) as [[flags segments] Hfwd]. rewrite Hfwd. cbn [rbind].
  destruct (projected_slots lexical_cast_string try_lexical_convert expressions schedule t1 _ Hwf1 Hfwd)
    as (st' & Hst' & Hok & Hdone); [eauto|]. cbn [fst snd] in Hst'. rewrite Hst'. cbn [rbind].
  destruct (output_definitions _ _ _ (nullable_columns st') _ _ Hnames Htypes (so_flags _ _ _ _ _ Hok))
    as (defs & Hd & Hdn & Hdt & Hdf). rewrite Hd. cbn [rbind].
  destruct (outputs_ok _ _ _ _ _ Hok Hdone) as (outs & Houts & Hlen & Hout). rewrite Houts. cbn [rbind].
  assert (∀ i c', outs !! i = Some c' → ∃ c n, chunks t1 !! i = Some c ∧ wf_chunk (column_definitions t1) n c ∧
    Forall2 (λ e s, project_segment lexical_cast_string try_lexical_convert t1 i c e = Ok s) expressions c') as Hchunk.
  { intros i c' Hc'. destruct (lookup_lt_is_Some_2 (chunks t1) i) as [c Hc]; [rewrite <- Hlen; by eapply lookup_lt_Some|].
    destruct (wft_chunks t1 Hwf1 c) as [n Hn]; [by eapply list_elem_of_lookup_2|]. exists c, n. eauto. }
  eexists. split; [done|]. split; [done|]. split; [done|]. cbn [chunks column_definitions].
  split; [|split].
  - unfold table_rows in *. cbn [chunks]. eapply chunks_rows_map; [|exact Hrows1].
    apply Forall2_same_length_lookup_2; [done|]. intros i c c' Hc Hc' rs Hrs.
    destruct (Hchunk i c' Hc') as (c2 & n & Hc2 & Hn & HF). simplify_eq. by eapply output_chunk_rows.
  - intros k d Hdk Hnull.
    assert (nullable_columns st' !! k = Some true) as Hflag.
    { rewrite <- Hdf, list_lookup_fmap, Hdk. cbn. by rewrite Hnull. }
    destruct (may_be_nullable_segment _ _ _ _ k Hwf1 Hfits1 (so_nullable _ _ _ _ _ Hok k Hflag))
      as (e & i & c & s & He & Hc & Hs & Hsn).
    destruct (lookup_lt_is_Some_2 outs i) as [c' Hc']; [rewrite Hlen; by eapply lookup_lt_Some|].
    destruct (Forall2_lookup_l _ _ _ _ _ (Hout i c c' Hc Hc') He) as (s' & Hs' & Hps).
    rewrite Hps in Hs. injection Hs as <-. exists c', s'. split; [by eapply list_elem_of_lookup_2|done].
  - intros Hcons Hty. split; cbn [chunks column_definitions].
    + rewrite <- (length_fmap tcd_name), Hdn, (mapR_ok_length _ _ _ Hnames). destruct expressions; [done|cbn; lia].
    + by rewrite <- (length_fmap tcd_name), Hdn, (mapR_ok_length _ _ _ Hnames).
    + rewrite Hlen. apply Hwf1.
    + intros c' Hc'. pose proof Hc' as [i Hi]%list_elem_of_lookup.
      destruct (Hchunk i c' Hi) as (c & n & Hc & Hn & HF). exists n.
      eapply (output_chunk_wf _ _ _ t1 i c c' n types); eauto.
    + apply Forall_lookup. intros j d Hj. rewrite Forall_lookup in Hty. apply (Hty j).
      by rewrite <- Hdt, list_lookup_fmap, Hj.
Qed.

Definition projection_example : Table :=
  mkTable [mkTableColumnDefinition "a" kInt false; mkTableColumnDefinition "b" kInt false]
    [[mkValueSegment kInt [6; 8] None; mkValueSegment kInt [2; 0] None];
     [mkValueSegment kInt [9] None; mkValueSegment kInt [3] None]] None.

Definition quotient : expr :=
  Arithmetic kDivision (PqpColumn 0%N kInt false "a") (PqpColumn 1%N kInt false "b").

Lemma projection_example_wf : wf_table projection_example.
Proof. apply wf_tableb_ok. vm_compute. reflexivity. Qed.

Lemma projection_example_nulls : nulls_declared projection_example.
Proof.
  intros c Hc. cbn in Hc. rewrite !elem_of_cons in Hc.
  destruct Hc as [->|[->|Hc]]; [| |by apply elem_of_nil in Hc]; repeat constructor; done.
Qed.

Lemma ProjectionOperator_correct_witness :
  ∃ t', ProjectionOperator (λ _ _, EmptyString) (λ _ _, None) (λ _, EmptyString) (λ _, EmptyString)
      [quotient; PqpColumn 0%N kInt false "a"] [1; 0]%nat projection_example = Ok t' ∧
    ColumnNames t' = ["a / b"; "a"]%string ∧
    table_rows t' = Ok [[VInt 3; VInt 6]; [VNull; VInt 8]; [VInt 3; VInt 9]].
Proof.
  destruct (ProjectionOperator_correct (λ _ _, EmptyString) (λ _ _, None) (λ _, EmptyString) (λ _, EmptyString)
    [quotient; PqpColumn 0%N kInt false "a"] [1; 0]%nat projection_example
    [[VInt 6; VInt 2]; [VInt 8; VInt 0]; [VInt 9; VInt 3]] ["a / b"; "a"]%string [kInt; kInt]
    projection_example_wf) as (t' & H & Hn & _ & Hr & _).
  - intros n [=].
  - exact projection_example_nulls.
  - vm_compute. reflexivity.
  - vm_compute. intros [=].
  - intros [=].
  - reflexivity.
  - constructor; [exact I|]. constructor; [|constructor]. exists (mkTableColumnDefinition "a" kInt false). by split.
  - vm_compute. reflexivity.
  - vm_compute. reflexivity.
  - intros t1 k e Ht1 Hk He Hf. injection Ht1 as <-. rewrite !elem_of_cons in He.
    destruct He as [->|[->|He]]; [|discriminate Hf|by apply elem_of_nil in He].
    destruct k as [|[|k]]; [vm_compute; eauto|vm_compute; eauto|cbn in Hk; lia].
  - exists t'. split; [exact H|]. split; [exact Hn|]. rewrite Hr. vm_compute. reflexivity.
Defined.

(** The flags of computed columns are unreliable.  On a table of two chunks, the second
    of one row, [a / b] is NULL in the first chunk: when the jobs run one after the other the
    column is declared nullable although the second chunk has no flags for it, so that
    reading it there again is undefined behaviour; when both jobs read the shared flag before
    either writes it, the update of the first is lost and the column with the NULL is
    declared as not nullable. *)
Theorem ProjectionOperator_nullability lexical_cast_string try_lexical_convert print_float print_double :
  wf_table projection_example ∧
  (∃ t', ProjectionOperator lexical_cast_string try_lexical_convert print_float print_double [quotient] []
      projection_example = Ok t' ∧
    ColumnsAreNullable t' = [true] ∧
    evaluate_segment lexical_cast_string try_lexical_convert t' 1
      (UnaryMinus (PqpColumn 0%N kInt true "a / b")) = Err UndefinedBehaviour) ∧
  (∃ t', ProjectionOperator lexical_cast_string try_lexical_convert print_float print_double [quotient]
      [0; 1; 0; 1]%nat projection_example = Ok t' ∧
    ColumnsAreNullable t' = [false] ∧ table_rows t' = Ok [[VInt 3]; [VNull]; [VInt 3]]).
Proof.
  split; [exact projection_example_wf|].
  split; eexists; (split; [vm_compute; reflexivity|]); split; vm_compute; reflexivity.
Qed.

(** Splitting a large chunk drops the NULL flags but keeps the declaration: every segment
    of the split table is without flags, and reading a column that is declared nullable is
    undefined behaviour. *)
Theorem split_large_chunk_drops_nulls t :
  wf_table t → cache_coherent t → splits t = true →
  ∃ t1, split_large_chunk t = Ok t1 ∧ column_definitions t1 = column_definitions t ∧
    (∀ c s, c ∈ chunks t1 → s ∈ c → IsNullable s = false) ∧
    ∀ c k s d, c ∈ chunks t1 → c !! k = Some s → column_definitions t !! k = Some d → tcd_nullable d = true →
      MaterializeSegment t1 s k = Err UndefinedBehaviour.
Proof.
  intros Ht Hcache Hs. unfold split_large_chunk.
  rewrite RowCount_sum by done. remember (sum_list _) as m eqn:Hm. cbn [rbind]. unfold ChunkCount. rewrite u32_id by apply Ht. unfold splits in Hs.
  destruct (chunks t) as [|c [|]] eqn:Hc; try discriminate Hs. cbn in Hm. rewrite Nat.add_0_r in Hm. subst m.
  rewrite bool_decide_true, Hs by done. cbn [andb].
  destruct (wft_chunks t Ht c) as [n Hwf]; [rewrite Hc; by left|].
  rewrite (chunk_Size_wf _ _ _ Hwf (wft_columns t Ht)).
  rewrite (split_chunks_ok t c n) by done. cbn [rbind]. eexists. split; [done|]. split; [done|]. cbn [chunks].
  assert (∀ c' s, c' ∈ (λ k, slice_of (k * desired_chunk_size) <$> c) <$> seq 0 (split_count n) → s ∈ c' →
    seg_null_values s = None) as Hnone.
  { intros c' s (k & -> & _)%list_elem_of_fmap (s' & -> & _)%list_elem_of_fmap. done. }
  split.
  - intros c' s Hc' Hsc. unfold IsNullable. by rewrite (Hnone c' s Hc' Hsc).
  - intros c' k s d Hc' Hk Hd Hnull. unfold MaterializeSegment, ColumnIsNullable, vec_get. cbn [column_definitions].
    rewrite Hd. cbn [of_option rbind]. rewrite Hnull, (Hnone c' s Hc'); [done|by eapply list_elem_of_lookup_2].
Qed.

Definition large_example : Table :=
  mkTable [mkTableColumnDefinition "a" kInt true]
    [[mkValueSegment kInt (replicate 129 7) (Some (replicate 129 true))]] None.

Lemma split_large_chunk_drops_nulls_witness :
  ∃ t1, split_large_chunk large_example = Ok t1 ∧
    ∀ c k s d, c ∈ chunks t1 → c !! k = Some s → column_definitions large_example !! k = Some d →
      tcd_nullable d = true → MaterializeSegment t1 s k = Err UndefinedBehaviour.
Proof.
  destruct (split_large_chunk_drops_nulls large_example) as (t1 & H & _ & _ & Hu).
  - apply wf_tableb_ok. vm_compute. reflexivity.
  - intros n [=].
  - vm_compute. reflexivity.
  - exists t1. split; [exact H|exact Hu].
Defined.
