(* ===== verification/Join.v ===== *)
(** * Equi-joins: materialisation and specification

    [src/lib/operator/abstract_join_operator.cpp].  A join implementation fills the position
    lists and the dangling-tuple bookkeeping ([FillPositionLists]); the base class turns them
    into the output table.  [FillPositionLists] is the interface between the two: the class
    [FillsPositionLists] states what an implementation promises, the output theorem is proved
    against it, and the hash join and the sorted merge join discharge it.  Matched and
    dangling columns are copied without NULL flags, so the theorems are about tables without
    NULLs. *)

From S2P Require Export Sort.

Record JoinOperatorPredicate : Set := mkJoinOperatorPredicate {
  column_id_left : nat;
  column_id_right : nat;
  predicate_condition : PredicateCondition }.

(** The members that [FillPositionLists] writes. *)
Record JoinState : Set := mkJoinState {
  table_A_matches_left : bool;
  position_lists : list (list (RowId * nat));
  dangling_tuples_table_A : list (list bool);
  dangling_tuples_table_A_count : nat;
  dangling_tuples_table_B_offsets : list (list nat);
  dangling_tuples_table_B_count : nat }.

(** [dynamic_pointer_cast] to the typed segment, dereferenced. *)
Definition typed_values (dt : DataType) (c : Chunk) (column_id : nat) : result (list (ctype dt)) :=
  s ← chunk_GetSegment c column_id;
  match decide (seg_type s = dt) with
  | left H => Ok (eq_rect _ (λ t, list (ctype t)) (seg_values s) _ H)
  | right _ => Err UndefinedBehaviour
  end.

Section Materialize.
Context (left right : Table) (mode : JoinMode) (st : JoinState).

Definition table_A : Table := if table_A_matches_left st then left else right.
Definition table_B : Table := if table_A_matches_left st then right else left.

Definition materialize_A_column (i : nat) : result ValueSegment :=
  dt ← ColumnDataType table_A i;
  ResolveDataType dt (λ dt,
    input_segments ← for_range (ChunkCount table_A) (λ j, c ← GetChunk table_A j; typed_values dt c i);
    values ← mapR (λ p, segment ← vec_get input_segments (chunk_id p.1); vec_get segment (chunk_offset p.1))
      (concat (position_lists st));
    Ok (mkValueSegment dt values None)).

Definition MaterializeTableASideOfMatchedTuples : result (list ValueSegment) :=
  for_range (GetColumnCount table_A) materialize_A_column.

Definition materialize_B_column (i : nat) : result ValueSegment :=
  dt ← ColumnDataType table_B i;
  ResolveDataType dt (λ dt,
    values ← for_range (ChunkCount table_B) (λ j,
      c ← GetChunk table_B j; segment_values ← typed_values dt c i;
      position_list ← vec_get (position_lists st) j;
      mapR (λ p, vec_get segment_values p.2) position_list);
    Ok (mkValueSegment dt (concat values) None)).

Definition MaterializeTableBSideOfMatchedTuples : result (list ValueSegment) :=
  for_range (GetColumnCount table_B) materialize_B_column.

Definition MaterializeMatches : result Chunk :=
  _ ← assert_ (bool_decide (length (dangling_tuples_table_B_offsets st) = ChunkCount table_B)) AssertionFailed;
  if table_A_matches_left st then
    a ← MaterializeTableASideOfMatchedTuples; b ← MaterializeTableBSideOfMatchedTuples; Ok (a ++ b)
  else
    b ← MaterializeTableBSideOfMatchedTuples; a ← MaterializeTableASideOfMatchedTuples; Ok (b ++ a).

Definition null_filled_column (t : Table) (row_count i : nat) : result ValueSegment :=
  dt ← ColumnDataType t i;
  ResolveDataType dt (λ dt,
    Ok (mkValueSegment dt (replicate row_count (default dt)) (Some (replicate row_count true)))).

Definition AppendNullFilledSegmentsForRowsOfTable (t : Table) (row_count : nat) : result (list ValueSegment) :=
  for_range (GetColumnCount t) (null_filled_column t row_count).

(** The loops run over the left input table whatever table A is. *)
Definition dangling_A_column (i : nat) : result ValueSegment :=
  dt ← ColumnDataType left i;
  ResolveDataType dt (λ dt,
    values ← for_range (ChunkCount left) (λ j,
      c ← GetChunk left j; segment_values ← typed_values dt c i;
      flags ← (if bool_decide (chunk_Size c = 0%nat) then Ok [] else vec_get (dangling_tuples_table_A st) j);
      picked ← for_range (chunk_Size c) (λ k,
        flag ← vec_get flags k;
        if (flag : bool) then v ← vec_get segment_values k; Ok (Some v) else Ok None);
      Ok (omap id picked));
    Ok (mkValueSegment dt (concat values) None)).

Definition MaterializeDanglingTuplesOfTableA : result Chunk :=
  before ← (if table_A_matches_left st then Ok []
            else AppendNullFilledSegmentsForRowsOfTable table_B (dangling_tuples_table_A_count st));
  segments ← for_range (GetColumnCount left) dangling_A_column;
  after ← (if table_A_matches_left st
           then AppendNullFilledSegmentsForRowsOfTable table_B (dangling_tuples_table_A_count st) else Ok []);
  Ok (before ++ segments ++ after).

Definition dangling_B_column (i : nat) : result ValueSegment :=
  dt ← ColumnDataType right i;
  ResolveDataType dt (λ dt,
    values ← for_range (ChunkCount right) (λ k,
      c ← GetChunk right k; segment_values ← typed_values dt c i;
      offsets ← vec_get (dangling_tuples_table_B_offsets st) k;
      mapR (vec_get segment_values) offsets);
    Ok (mkValueSegment dt (concat values) None)).

Definition MaterializeDanglingTuplesOfTableB : result Chunk :=
  before ← (if table_A_matches_left st
            then AppendNullFilledSegmentsForRowsOfTable table_A (dangling_tuples_table_B_count st) else Ok []);
  segments ← for_range (GetColumnCount right) dangling_B_column;
  after ← (if table_A_matches_left st then Ok []
           else AppendNullFilledSegmentsForRowsOfTable table_A (dangling_tuples_table_B_count st));
  Ok (before ++ segments ++ after).

Definition MaterializeDanglingTuplesOfLeftTable : result Chunk :=
  if table_A_matches_left st then MaterializeDanglingTuplesOfTableA else MaterializeDanglingTuplesOfTableB.
Definition MaterializeDanglingTuplesOfRightTable : result Chunk :=
  if table_A_matches_left st then MaterializeDanglingTuplesOfTableB else MaterializeDanglingTuplesOfTableA.

(** Summed up in an int32; a negative count cannot be reserved. *)
Definition ComputeResultRowCount : Z := wrap_int32 (Z.of_nat (sum_list (length <$> position_lists st))).
End Materialize.

Definition keeps_left (mode : JoinMode) : bool := bool_decide (mode = kLeftOuter) || bool_decide (mode = kFullOuter).
Definition keeps_right (mode : JoinMode) : bool := bool_decide (mode = kRightOuter) || bool_decide (mode = kFullOuter).

Definition all_nullable (defs : TableColumnDefinitions) : TableColumnDefinitions :=
  (λ d, mkTableColumnDefinition (tcd_name d) (tcd_data_type d) true) <$> defs.

Definition BuildRightSchema (mode : JoinMode) (right : Table) : TableColumnDefinitions :=
  if keeps_left mode then all_nullable (column_definitions right) else column_definitions right.
Definition BuildLeftSchema (mode : JoinMode) (left : Table) : TableColumnDefinitions :=
  if keeps_right mode then all_nullable (column_definitions left) else column_definitions left.

Definition supported_mode (mode : JoinMode) : bool :=
  bool_decide (mode = kInner) || keeps_left mode || keeps_right mode.

(** The constructor's and [OnExecute]'s checks. *)
Definition check_join (left right : Table) (p : JoinOperatorPredicate) (mode : JoinMode) : result unit :=
  _ ← assert_ (bool_decide (predicate_condition p = kEquals)) AssertionFailed;
  _ ← assert_ (supported_mode mode) AssertionFailed;
  nl ← ColumnIsNullable left (column_id_left p);
  nr ← (if (nl : bool) then Ok true else ColumnIsNullable right (column_id_right p));
  _ ← assert_ (negb nr) AssertionFailed;
  tl ← ColumnDataType left (column_id_left p);
  tr ← ColumnDataType right (column_id_right p);
  assert_ (bool_decide (tl = tr)) AssertionFailed.

Definition JoinOperator
    (FillPositionLists : Table → Table → JoinOperatorPredicate → JoinMode → result JoinState)
    (left right : Table) (p : JoinOperatorPredicate) (mode : JoinMode) : result Table :=
  _ ← check_join left right p mode;
  st ← FillPositionLists left right p mode;
  _ ← assert_ (0 <=? ComputeResultRowCount st) OutOfRange;
  matches ← MaterializeMatches left right st;
  dangling_left ← (if keeps_left mode
    then c ← MaterializeDanglingTuplesOfLeftTable left right st; Ok [c] else Ok []);
  dangling_right ← (if keeps_right mode
    then c ← MaterializeDanglingTuplesOfRightTable left right st; Ok [c] else Ok []);
  Ok (mkTable (Concatenated (BuildLeftSchema mode left) (BuildRightSchema mode right))
        (matches :: dangling_left ++ dangling_right) None).

(** ** Columns as functions of row descriptors *)

(** Segment [s] holds [g x] at the position of [x] in [ids]. *)
Definition represents {X} (ids : list X) (s : ValueSegment) (g : X → AllTypeVariant) : Prop :=
  length (seg_values s) = length ids ∧ ∀ i x, ids !! i = Some x → seg_index s i = Ok (g x).

Lemma represents_chunk {X} (ids : list X) c gs :
  Forall2 (represents ids) c gs → gs ≠ [] → (N.of_nat (length ids) < 2 ^ 32)%N →
  chunk_rows c = Ok ((λ x, (λ g, g x) <$> gs) <$> ids).
Proof.
  intros HF Hne Hsmall.
  assert (chunk_Size c = length ids) as Hsz.
  { destruct HF as [|s g c gs [Hl _] _]; [done|]. cbn. unfold seg_size. rewrite Hl. by apply u32_id. }
  unfold chunk_rows. rewrite Hsz. apply for_range_eq; [by rewrite length_fmap|].
  intros i row Hrow. rewrite list_lookup_fmap in Hrow. apply fmap_Some in Hrow as (x & Hx & ->).
  unfold chunk_row. clear -HF Hx. induction HF as [|s g c gs [_ Hs] _ IH]; cbn; [done|].
  rewrite (Hs i x Hx). cbn. by rewrite IH.
Qed.

Lemma represents_values {X} (ids : list X) dt (f : X → ctype dt) :
  represents ids (mkValueSegment dt (f <$> ids) None) (λ x, to_variant dt (f x)).
Proof.
  split; [cbn; by rewrite length_fmap|]. intros i x Hx.
  unfold seg_index, seg_IsNull, IsNullable. cbn. unfold vec_at. by rewrite list_lookup_fmap, Hx.
Qed.

Lemma represents_null {X} (ids : list X) dt n :
  length ids = n → represents ids (mkValueSegment dt (replicate n (default dt)) (Some (replicate n true))) (λ _, VNull).
Proof.
  intros <-. split; [cbn; by rewrite length_replicate|]. intros i x Hx. apply lookup_lt_Some in Hx.
  unfold seg_index, seg_IsNull, IsNullable, seg_null_at. cbn. unfold vec_get. by rewrite lookup_replicate_2.
Qed.

(** A list of columns built one by one. *)
Lemma columns_represent {X} (ids : list X) n (mk : nat → result ValueSegment) (g : nat → X → AllTypeVariant) :
  (∀ j, (j < n)%nat → ∃ s, mk j = Ok s ∧ represents ids s (g j)) →
  ∃ c, for_range n mk = Ok c ∧ Forall2 (represents ids) c (g <$> seq 0 n).
Proof.
  intros H. destruct (for_range_total n mk) as [c Hc].
  { intros j Hj. destruct (H j Hj) as (s & ? & _). eauto. }
  exists c. split; [done|]. apply for_range_ok in Hc as [Hlen Hval].
  apply Forall2_same_length_lookup_2; [by rewrite length_fmap, length_seq|].
  intros j s gj Hs Hg. rewrite list_lookup_fmap in Hg.
  assert (j < n)%nat as Hj by (rewrite <- Hlen; by eapply lookup_lt_Some).
  rewrite lookup_seq_lt in Hg by done. cbn in Hg. injection Hg as <-.
  destruct (Hval j Hj) as (s' & ? & ?), (H j Hj) as (s'' & ? & ?). simplify_eq. congruence.
Qed.

(** ** Rows of a table without NULLs *)
Definition table_row (t : Table) (r : RowId) : Row :=
  (λ j, to_variant (column_type t j) (key t j r)) <$> seq 0 (GetColumnCount t).

Section Table.
Context (t : Table).
Hypothesis Ht : wf_table t.
Hypothesis Hnull : null_free t.

Lemma row_at_table_row r : r ∈ row_ids t → row_at t r = Ok (table_row t r).
Proof.
  intros Hr. pose proof Hr as (c & Hc & Ho)%row_ids_elem. unfold row_at, GetChunk, vec_get. rewrite Hc.
  cbn [of_option rbind]. unfold chunk_row. apply mapR_ok_Forall2. unfold table_row.
  destruct (wft_chunks t Ht c) as [n Hwf]; [by eapply list_elem_of_lookup_2|].
  apply Forall2_same_length_lookup_2.
  { rewrite length_fmap, length_seq, column_count by done. by eapply chunk_length. }
  intros j s v Hs Hv. rewrite list_lookup_fmap in Hv.
  assert (j < GetColumnCount t)%nat as Hj.
  { rewrite column_count by done. rewrite <- (chunk_length _ _ _ Hwf). by eapply lookup_lt_Some. }
  rewrite lookup_seq_lt in Hv by done. cbn in Hv. injection Hv as <-.
  destruct (value_at_key t Ht Hnull j r Hj Hr) as (v & Hv & _ & Hk).
  unfold value_at, GetChunk, vec_get, chunk_GetSegment, vec_at in Hv. rewrite Hc in Hv. cbn [of_option rbind] in Hv.
  rewrite Hs in Hv. cbn [of_option rbind] in Hv. rewrite Hv. f_equal. symmetry. by apply variant_get_ok.
Qed.

Lemma table_rows_table_row rows : table_rows t = Ok rows → rows = table_row t <$> row_ids t.
Proof.
  intros H%table_rows_row_ids. rewrite (mapR_total _ (table_row t)) in H by (apply row_at_table_row).
  by injection H as <-.
Qed.

(** The typed values of a column of a chunk. *)
Lemma typed_values_ok k c j :
  chunks t !! k = Some c → (j < GetColumnCount t)%nat →
  typed_values (column_type t j) c j = Ok ((λ i, key t j (mkRowId k i)) <$> seq 0 (chunk_Size c)).
Proof.
  intros Hc Hj. destruct (table_segment t Ht k c j Hc Hj) as (s & Hs & Hw & Hl & _ & Hty & _).
  unfold typed_values, chunk_GetSegment, vec_at. rewrite Hs. cbn [of_option rbind].
  destruct (decide (seg_type s = column_type t j)) as [E|]; [|done]. f_equal.
  assert (∀ i x, seg_values s !! i = Some x → to_variant (seg_type s) x = to_variant (column_type t j) (key t j (mkRowId k i))) as Hcell.
  { intros i x Hx. assert (mkRowId k i ∈ row_ids t) as Hr.
    { apply row_ids_elem. exists c. split; [done|]. apply lookup_lt_Some in Hx. cbn. lia. }
    destruct (value_at_key t Ht Hnull j _ Hj Hr) as (v & Hv & Hvn & Hk). apply variant_get_ok in Hk. rewrite Hk.
    unfold value_at, GetChunk, vec_get, chunk_GetSegment, vec_at in Hv. cbn [chunk_id chunk_offset] in Hv.
    rewrite Hc in Hv. cbn [of_option rbind] in Hv. rewrite Hs in Hv. cbn [of_option rbind] in Hv.
    unfold seg_index in Hv. apply bind_ok in Hv as (b & _ & Hv). destruct b; [by injection Hv as <-|].
    unfold vec_at in Hv. rewrite Hx in Hv. by injection Hv as <-. }
  clear Hty Hw. destruct s as [ty vs ns]. cbn in *. subst ty. cbn.
  apply list_eq_same_length with (length vs); [by rewrite length_fmap, length_seq|done|].
  intros i x y Hi Hx Hy. rewrite list_lookup_fmap, lookup_seq_lt in Hy by lia. cbn in Hy. injection Hy as <-.
  apply to_variant_inj. by apply Hcell.
Qed.

Lemma typed_values_lookup k c j i :
  chunks t !! k = Some c → (j < GetColumnCount t)%nat → (i < chunk_Size c)%nat →
  ∃ vs, typed_values (column_type t j) c j = Ok vs ∧ vs !! i = Some (key t j (mkRowId k i)).
Proof.
  intros Hc Hj Hi. eexists. split; [by apply typed_values_ok|].
  by rewrite list_lookup_fmap, lookup_seq_lt.
Qed.
End Table.

(** ** What an implementation of [FillPositionLists] promises *)
Definition all_pairs {X Y} (xs : list X) (ys : list Y) : list (X * Y) := concat ((λ y, (λ x, (x, y)) <$> xs) <$> ys).

(** The matches with the row ids of table B in full. *)
Fixpoint pairs_from (k : nat) (pls : list (list (RowId * nat))) : list (RowId * RowId) :=
  match pls with
  | [] => []
  | pl :: pls' => ((λ p, (p.1, mkRowId k p.2)) <$> pl) ++ pairs_from (S k) pls'
  end.
Definition pairs (st : JoinState) : list (RowId * RowId) := pairs_from 0 (position_lists st).

(** Equality of the join keys, as [operator==] of the common column type decides it. *)
Definition keys_equal (ta tb : Table) (ja jb : nat) (a b : RowId) : bool :=
  match variant_get (column_type ta ja) (to_variant _ (key tb jb b)) with
  | Ok y => value_eqb (column_type ta ja) (key ta ja a) y
  | Err _ => false
  end.

Definition unmatched {X Y} (eqk : X → Y → bool) (ys : list Y) (x : X) : bool := forallb (λ y, negb (eqk x y)) ys.

Record join_state_spec (ta tb : Table) (eqk : RowId → RowId → bool) (st : JoinState) : Prop := {
  jss_pairs : pairs st ≡ₚ filter (λ p, eqk p.1 p.2) (all_pairs (row_ids ta) (row_ids tb));
  jss_chunks : length (position_lists st) = length (chunks tb);
  jss_A : ∀ k c, chunks ta !! k = Some c → dangling_tuples_table_A st !! k =
    Some ((λ i, unmatched eqk (row_ids tb) (mkRowId k i)) <$> seq 0 (chunk_Size c));
  jss_A_count : dangling_tuples_table_A_count st = length (filter (unmatched eqk (row_ids tb)) (row_ids ta));
  jss_B_chunks : length (dangling_tuples_table_B_offsets st) = length (chunks tb);
  jss_B : ∀ k c, chunks tb !! k = Some c → dangling_tuples_table_B_offsets st !! k =
    Some (filter (λ i, unmatched (flip eqk) (row_ids ta) (mkRowId k i)) (seq 0 (chunk_Size c)));
  jss_B_count : dangling_tuples_table_B_count st = length (filter (unmatched (flip eqk) (row_ids ta)) (row_ids tb)) }.

Record joinable (t : Table) : Prop := {
  joinable_wf : wf_table t;
  joinable_null_free : null_free t;
  joinable_cache : cache_coherent t }.

Class FillsPositionLists (pre : Table → Table → JoinOperatorPredicate → Prop)
    (Fill : Table → Table → JoinOperatorPredicate → JoinMode → result JoinState) : Prop := {
  fills_position_lists left right p mode :
    joinable left → joinable right → check_join left right p mode = Ok tt → pre left right p →
    ∃ st, Fill left right p mode = Ok st ∧
      (if table_A_matches_left st
       then join_state_spec left right (keys_equal left right (column_id_left p) (column_id_right p)) st
       else mode = kInner ∧
            join_state_spec right left (keys_equal right left (column_id_right p) (column_id_left p)) st) }.

(** ** Materialised columns *)
Section Columns.
Context (left right : Table) (st : JoinState) (eqk : RowId → RowId → bool).
Abbreviation ta := (table_A left right st).
Abbreviation tb := (table_B left right st).
Hypothesis Ha : joinable ta.
Hypothesis Hb : joinable tb.
Hypothesis Hst : join_state_spec ta tb eqk st.

Lemma pairs_in p : p ∈ pairs st → p.1 ∈ row_ids ta ∧ p.2 ∈ row_ids tb.
Proof.
  rewrite (jss_pairs _ _ _ _ Hst). intros [_ H]%list_elem_of_filter. unfold all_pairs in H.
  apply elem_of_concat in H as (l & Hl & Hin). apply list_elem_of_fmap in Hin as (b & -> & Hb').
  apply list_elem_of_fmap in Hl as (a & -> & ?). done.
Qed.

Lemma pairs_fst k pls : (concat pls).*1 = (pairs_from k pls).*1.
Proof.
  revert k. induction pls as [|pl pls IH]; intros k; cbn; [done|].
  rewrite !fmap_app, <- (IH (S k)). f_equal. rewrite <- list_fmap_compose. by apply list_fmap_ext.
Qed.

Lemma ColumnDataType_ok t j :
  wf_table t → (j < GetColumnCount t)%nat → ColumnDataType t j = Ok (column_type t j).
Proof.
  intros Ht Hj. rewrite column_count in Hj by done. unfold ColumnDataType, column_type, vec_get.
  destruct (lookup_lt_is_Some_2 _ _ Hj) as [d Hd]. by rewrite Hd.
Qed.

(** Loops over the chunks of a table. *)
Lemma chunk_loop {X Y} (f : nat → result X) (g : nat → Y → X) (l : list Y) k :
  (∀ i y, l !! i = Some y → f (k + i)%nat = Ok (g (k + i)%nat y)) →
  mapR f (seq k (length l)) = Ok (zip_with g (seq k (length l)) l).
Proof.
  revert k. induction l as [|y l IH]; intros k H; [done|]. cbn [length seq mapR zip_with].
  pose proof (H 0%nat y eq_refl) as Hy. rewrite Nat.add_0_r in Hy. rewrite Hy. cbn [rbind].
  rewrite IH; [done|]. intros i z Hz. replace (S k + i)%nat with (k + S i)%nat by lia. by apply H.
Qed.

Lemma vec_get_ok {X} (l : list X) i x : l !! i = Some x → vec_get l i = Ok x.
Proof. intros H. unfold vec_get. by rewrite H. Qed.

Lemma GetChunk_ok t k c : chunks t !! k = Some c → GetChunk t k = Ok c.
Proof. apply vec_get_ok. Qed.

(** Reading a column at a list of rows, chunk by chunk. *)
Lemma gather_ok {X} t i (f : X → RowId) (l : list X) :
  wf_table t → null_free t → (i < GetColumnCount t)%nat → (∀ x, x ∈ l → f x ∈ row_ids t) →
  ∃ segments, for_range (ChunkCount t) (λ j, c ← GetChunk t j; typed_values (column_type t i) c i) = Ok segments ∧
    mapR (λ x, segment ← vec_get segments (chunk_id (f x)); vec_get segment (chunk_offset (f x))) l =
      Ok ((λ x, key t i (f x)) <$> l).
Proof.
  intros Hwf Hnf Hi Hl. eexists. split.
  - unfold for_range, ChunkCount. rewrite u32_id by apply Hwf.
    apply (chunk_loop _ (λ k c, (λ o, key t i (mkRowId k o)) <$> seq 0 (chunk_Size c)) (chunks t) 0).
    intros k c Hc. cbn [Nat.add]. rewrite (GetChunk_ok _ _ _ Hc). cbn [rbind]. by apply typed_values_ok.
  - apply mapR_total. intros x Hx. pose proof (Hl x Hx) as (c & Hc & Ho)%row_ids_elem.
    rewrite (vec_get_ok _ (chunk_id (f x)) ((λ o, key t i (mkRowId (chunk_id (f x)) o)) <$> seq 0 (chunk_Size c))).
    + cbn [rbind]. rewrite (vec_get_ok _ _ (key t i (f x))); [done|].
      rewrite list_lookup_fmap, lookup_seq_lt by done. cbn. by destruct (f x).
    + rewrite lookup_zip_with, lookup_seq_lt by (by eapply lookup_lt_Some). cbn. by rewrite Hc.
Qed.

Lemma A_column i :
  (i < GetColumnCount ta)%nat →
  ∃ s, materialize_A_column left right st i = Ok s ∧
    represents (pairs st) s (λ p, to_variant (column_type ta i) (key ta i p.1)).
Proof.
  intros Hi. destruct Ha as [Hwf Hnf _]. unfold materialize_A_column. rewrite ColumnDataType_ok by done. cbn [rbind].
  rewrite ResolveDataType_typed by (by apply column_typed).
  destruct (gather_ok ta i fst (concat (position_lists st)) Hwf Hnf Hi) as (segments & Hsegs & Hvs).
  { intros p Hp. assert (p.1 ∈ (pairs st).*1) as Hin by (unfold pairs; rewrite <- pairs_fst; by apply list_elem_of_fmap_2).
    apply list_elem_of_fmap in Hin as (q & -> & Hq). by apply pairs_in. }
  rewrite Hsegs. cbn [rbind]. rewrite Hvs. cbn [rbind]. eexists. split; [done|].
  assert ((λ p, key ta i p.1) <$> concat (position_lists st) = (λ p, key ta i p.1) <$> pairs st) as ->.
  { change (λ p : RowId * nat, key ta i p.1) with (key ta i ∘ @fst RowId nat).
    change (λ p : RowId * RowId, key ta i p.1) with (key ta i ∘ @fst RowId RowId).
    rewrite !list_fmap_compose. f_equal. apply pairs_fst. }
  apply (represents_values (pairs st) (column_type ta i) (λ p, key ta i p.1)).
Qed.

Lemma B_pairs_values {V} (f : RowId → V) k pls :
  concat (zip_with (λ k pl, (λ p, f (mkRowId k p.2)) <$> pl) (seq k (length pls)) pls) =
  (λ p, f p.2) <$> pairs_from k pls.
Proof.
  revert k. induction pls as [|pl pls IH]; intros k; cbn; [done|]. rewrite fmap_app, IH.
  f_equal. rewrite <- list_fmap_compose. by apply list_fmap_ext.
Qed.

Lemma pairs_from_elem k pls i pl p :
  pls !! i = Some pl → p ∈ pl → (p.1, mkRowId (k + i) p.2) ∈ pairs_from k pls.
Proof.
  revert k i. induction pls as [|pl' pls IH]; intros k [|i] Hpl Hp; cbn in *; simplify_eq; apply elem_of_app.
  - left. rewrite Nat.add_0_r. apply list_elem_of_fmap. by exists p.
  - right. replace (k + S i)%nat with (S k + i)%nat by lia. by apply IH.
Qed.

Lemma B_column i :
  (i < GetColumnCount tb)%nat →
  ∃ s, materialize_B_column left right st i = Ok s ∧
    represents (pairs st) s (λ p, to_variant (column_type tb i) (key tb i p.2)).
Proof.
  intros Hi. destruct Hb as [Hwf Hnf _]. unfold materialize_B_column. rewrite ColumnDataType_ok by done. cbn [rbind].
  rewrite ResolveDataType_typed by (by apply column_typed). unfold for_range, ChunkCount. rewrite u32_id by apply Hwf.
  rewrite <- (jss_chunks _ _ _ _ Hst).
  rewrite (chunk_loop _ (λ k pl, (λ p : RowId * nat, key tb i (mkRowId k p.2)) <$> pl) (position_lists st) 0).
  2:{ intros k pl Hpl. cbn [Nat.add]. destruct (lookup_lt_is_Some_2 (chunks tb) k) as [c Hc].
      { rewrite <- (jss_chunks _ _ _ _ Hst). by eapply lookup_lt_Some. }
      rewrite (GetChunk_ok _ _ _ Hc). cbn [rbind]. rewrite (typed_values_ok tb Hwf Hnf _ _ _ Hc Hi). cbn [rbind].
      rewrite (vec_get_ok _ _ _ Hpl). cbn [rbind]. apply mapR_total. intros p Hp. apply vec_get_ok.
      rewrite list_lookup_fmap. pose proof (pairs_from_elem 0 _ _ _ _ Hpl Hp) as Hin.
      apply pairs_in in Hin as [_ (c' & Hc' & Ho)%row_ids_elem]. cbn in *. simplify_eq.
      by rewrite lookup_seq_lt. }
  cbn [rbind]. eexists. split; [done|]. rewrite (B_pairs_values (key tb i)).
  apply (represents_values (pairs st) (column_type tb i) (λ p, key tb i p.2)).
Qed.
End Columns.

(** ** Dangling tuples *)
Section Dangling.
Context (left right : Table) (st : JoinState) (eqk : RowId → RowId → bool).
Hypothesis Hside : table_A_matches_left st = true.
Hypothesis Hl : joinable left.
Hypothesis Hr : joinable right.
Hypothesis Hst : join_state_spec left right eqk st.

Abbreviation dangling_left := (filter (unmatched eqk (row_ids right)) (row_ids left)).
Abbreviation dangling_right := (filter (unmatched (flip eqk) (row_ids left)) (row_ids right)).

Lemma filter_row_ids {V} (q : RowId → bool) (f : RowId → V) k cs :
  concat (zip_with (λ k c, (λ i, f (mkRowId k i)) <$> filter (λ i, q (mkRowId k i)) (seq 0 (chunk_Size c)))
    (seq k (length cs)) cs) = f <$> filter q (row_ids_from k cs).
Proof.
  revert k. induction cs as [|c cs IH]; intros k; cbn; [done|]. rewrite filter_app, fmap_app, IH. f_equal.
  induction (seq 0 (chunk_Size c)) as [|i l IHl]; [done|]. rewrite fmap_cons. destruct (q (mkRowId k i)) eqn:Hq.
  - rewrite !filter_cons_True by (by rewrite Hq). rewrite !fmap_cons. by rewrite IHl.
  - rewrite !filter_cons_False by (rewrite Hq; tauto). done.
Qed.

Lemma picked_values {V} n (flag : nat → bool) (v : nat → V) :
  ∃ picked, for_range n (λ k, b ← vec_get (flag <$> seq 0 n) k;
      if (b : bool) then x ← vec_get (v <$> seq 0 n) k; Ok (Some x) else Ok None) = Ok picked ∧
    omap id picked = v <$> filter flag (seq 0 n).
Proof.
  exists ((λ k, if flag k then Some (v k) else None) <$> seq 0 n). split.
  - apply for_range_eq; [by rewrite length_fmap, length_seq|]. intros i a Ha. rewrite list_lookup_fmap in Ha.
    destruct (decide (i < n)%nat) as [Hi|Hi]; [|by rewrite lookup_seq_ge in Ha by lia].
    rewrite lookup_seq_lt in Ha by done. cbn in Ha. injection Ha as <-.
    rewrite (vec_get_ok _ _ (flag i)) by (by rewrite list_lookup_fmap, lookup_seq_lt). cbn [rbind].
    rewrite (vec_get_ok _ _ (v i)) by (by rewrite list_lookup_fmap, lookup_seq_lt). by destruct (flag i).
  - induction (seq 0 n) as [|k l IH]; [done|]. rewrite fmap_cons. cbn [omap list_omap]. destruct (flag k) eqn:Hk.
    + rewrite filter_cons_True by (by rewrite Hk). rewrite fmap_cons. cbn. f_equal. exact IH.
    + rewrite filter_cons_False by (rewrite Hk; tauto). exact IH.
Qed.

Lemma dangling_left_column i :
  (i < GetColumnCount left)%nat →
  ∃ s, dangling_A_column left st i = Ok s ∧
    represents dangling_left s (λ r, to_variant (column_type left i) (key left i r)).
Proof.
  intros Hi. destruct Hl as [Hwf Hnf _]. unfold dangling_A_column. rewrite ColumnDataType_ok by done. cbn [rbind].
  rewrite ResolveDataType_typed by (by apply column_typed).
  rewrite (for_range_eq _ _ (zip_with (λ k c, (λ o, key left i (mkRowId k o)) <$>
    filter (λ o, unmatched eqk (row_ids right) (mkRowId k o)) (seq 0 (chunk_Size c))) (seq 0 (length (chunks left))) (chunks left))).
  - cbn [rbind]. eexists. split; [done|]. rewrite (filter_row_ids _ (key left i)). apply represents_values.
  - rewrite length_zip_with, length_seq. unfold ChunkCount. rewrite u32_id by apply Hwf. lia.
  - intros k vs Hvs. apply lookup_zip_with_Some in Hvs as (k' & c & -> & Hk' & Hc).
    apply lookup_seq in Hk' as [-> _]. cbn [Nat.add] in *.
    rewrite (GetChunk_ok _ _ _ Hc). cbn [rbind]. rewrite (typed_values_ok left Hwf Hnf _ _ _ Hc Hi). cbn [rbind].
    pose proof (jss_A _ _ _ _ Hst k c Hc) as Hflags.
    destruct (picked_values (chunk_Size c) (λ o, unmatched eqk (row_ids right) (mkRowId k o)) (λ o, key left i (mkRowId k o)))
      as (picked & Hp & Hom).
    case_bool_decide as H0.
    + rewrite H0 in *. cbn. done.
    + rewrite (vec_get_ok _ _ _ Hflags). cbn [rbind]. rewrite Hp. cbn [rbind]. by rewrite Hom.
Qed.

Lemma dangling_right_column i :
  (i < GetColumnCount right)%nat →
  ∃ s, dangling_B_column right st i = Ok s ∧
    represents dangling_right s (λ r, to_variant (column_type right i) (key right i r)).
Proof.
  intros Hi. destruct Hr as [Hwf Hnf _]. unfold dangling_B_column. rewrite ColumnDataType_ok by done. cbn [rbind].
  rewrite ResolveDataType_typed by (by apply column_typed).
  rewrite (for_range_eq _ _ (zip_with (λ k c, (λ o, key right i (mkRowId k o)) <$>
    filter (λ o, unmatched (flip eqk) (row_ids left) (mkRowId k o)) (seq 0 (chunk_Size c))) (seq 0 (length (chunks right))) (chunks right))).
  - cbn [rbind]. eexists. split; [done|]. rewrite (filter_row_ids _ (key right i)). apply represents_values.
  - rewrite length_zip_with, length_seq. unfold ChunkCount. rewrite u32_id by apply Hwf. lia.
  - intros k vs Hvs. apply lookup_zip_with_Some in Hvs as (k' & c & -> & Hk' & Hc).
    apply lookup_seq in Hk' as [-> _]. cbn [Nat.add] in *.
    rewrite (GetChunk_ok _ _ _ Hc). cbn [rbind]. rewrite (typed_values_ok right Hwf Hnf _ _ _ Hc Hi). cbn [rbind].
    rewrite (vec_get_ok _ _ _ (jss_B _ _ _ _ Hst k c Hc)). cbn [rbind].
    apply mapR_total. intros o [_ Ho%elem_of_seq]%list_elem_of_filter. apply vec_get_ok.
    rewrite list_lookup_fmap, lookup_seq_lt by lia. done.
Qed.

Lemma null_columns {X} (ids : list X) t n :
  wf_table t → length ids = n →
  ∃ c, AppendNullFilledSegmentsForRowsOfTable t n = Ok c ∧
    Forall2 (represents ids) c ((λ _ _, VNull) <$> seq 0 (GetColumnCount t)).
Proof.
  intros Hwf Hn. apply (columns_represent ids _ _ (λ _ _, VNull)). intros j Hj.
  unfold null_filled_column. rewrite ColumnDataType_ok by done. cbn [rbind].
  rewrite ResolveDataType_typed by (by apply column_typed). eexists. split; [done|]. by apply represents_null.
Qed.

Lemma seq_nonempty t : wf_table t → seq 0 (GetColumnCount t) ≠ [].
Proof.
  intros Hwf. rewrite column_count by done. pose proof (wft_columns t Hwf).
  by destruct (length (column_definitions t)); [lia|].
Qed.

Definition null_row (t : Table) : Row := (λ _, VNull) <$> seq 0 (GetColumnCount t).

Lemma dangling_left_rows :
  (N.of_nat (length dangling_left) < 2 ^ 32)%N →
  ∃ c, MaterializeDanglingTuplesOfLeftTable left right st = Ok c ∧
    chunk_rows c = Ok ((λ r, table_row left r ++ null_row right) <$> dangling_left).
Proof.
  intros Hsmall. unfold MaterializeDanglingTuplesOfLeftTable, MaterializeDanglingTuplesOfTableA, table_B. rewrite Hside.
  cbn [rbind].
  destruct (columns_represent dangling_left (GetColumnCount left) (dangling_A_column left st)
    (λ j r, to_variant (column_type left j) (key left j r))) as (c1 & Hc1 & HF1); [apply dangling_left_column|].
  destruct (null_columns dangling_left right (dangling_tuples_table_A_count st)) as (c2 & Hc2 & HF2).
  { apply Hr. } { symmetry. apply (jss_A_count _ _ _ _ Hst). }
  rewrite Hc1. cbn [rbind]. rewrite Hc2. cbn [rbind app]. eexists. split; [done|].
  rewrite (represents_chunk dangling_left _ _ (Forall2_app HF1 HF2)); [|by destruct (seq 0 (GetColumnCount left)) eqn:E; [by apply seq_nonempty in E; [|apply Hl]|]|done].
  f_equal. apply list_fmap_ext. intros i r _. rewrite fmap_app. unfold table_row, null_row.
  by rewrite <- !list_fmap_compose.
Qed.

Lemma dangling_right_rows :
  (N.of_nat (length dangling_right) < 2 ^ 32)%N →
  ∃ c, MaterializeDanglingTuplesOfRightTable left right st = Ok c ∧
    chunk_rows c = Ok ((λ r, null_row left ++ table_row right r) <$> dangling_right).
Proof.
  intros Hsmall. unfold MaterializeDanglingTuplesOfRightTable, MaterializeDanglingTuplesOfTableB, table_A. rewrite Hside.
  destruct (columns_represent dangling_right (GetColumnCount right) (dangling_B_column right st)
    (λ j r, to_variant (column_type right j) (key right j r))) as (c1 & Hc1 & HF1); [apply dangling_right_column|].
  destruct (null_columns dangling_right left (dangling_tuples_table_B_count st)) as (c2 & Hc2 & HF2).
  { apply Hl. } { symmetry. apply (jss_B_count _ _ _ _ Hst). }
  rewrite Hc2. cbn [rbind]. rewrite Hc1. cbn [rbind]. rewrite app_nil_r. eexists. split; [done|].
  rewrite (represents_chunk dangling_right _ _ (Forall2_app HF2 HF1)); [|by destruct (seq 0 (GetColumnCount left)) eqn:E; [by apply seq_nonempty in E; [|apply Hl]|]|done].
  f_equal. apply list_fmap_ext. intros i r _. rewrite fmap_app. unfold table_row, null_row.
  by rewrite <- !list_fmap_compose.
Qed.
End Dangling.

(** ** The join as a set of rows *)

(** The join of the rows [rl] of [left] and [rr] of [right]. *)
Definition join_of (mode : JoinMode) (left right : Table) (p : JoinOperatorPredicate) (rl rr : list RowId) : list Row :=
  let eqk := keys_equal left right (column_id_left p) (column_id_right p) in
  ((λ m, table_row left m.1 ++ table_row right m.2) <$> filter (λ m, eqk m.1 m.2) (all_pairs rl rr))
  ++ (if keeps_left mode then (λ l, table_row left l ++ null_row right) <$> filter (unmatched eqk rr) rl else [])
  ++ (if keeps_right mode then (λ r, null_row left ++ table_row right r) <$> filter (unmatched (flip eqk) rl) rr else []).

Definition join_rows (mode : JoinMode) (left right : Table) (p : JoinOperatorPredicate) : list Row :=
  join_of mode left right p (row_ids left) (row_ids right).

Lemma all_pairs_cons {X Y} (x : X) xs (ys : list Y) :
  all_pairs (x :: xs) ys ≡ₚ ((λ y, (x, y)) <$> ys) ++ all_pairs xs ys.
Proof.
  unfold all_pairs. induction ys as [|y ys IH]; cbn; [done|]. f_equiv. rewrite IH.
  rewrite !app_assoc. f_equiv. apply Permutation_app_comm.
Qed.

Lemma all_pairs_swap {X Y} (xs : list X) (ys : list Y) : prod_swap <$> all_pairs xs ys ≡ₚ all_pairs ys xs.
Proof.
  induction xs as [|x xs IH].
  - unfold all_pairs. cbn. by induction ys.
  - rewrite all_pairs_cons, fmap_app, IH. unfold all_pairs. cbn. f_equiv. by rewrite <- list_fmap_compose.
Qed.

Lemma value_eqb_sym t (x y : ctype t) : value_eqb t x y = value_eqb t y x.
Proof. unfold value_eqb. rewrite (compare_antisym t y x). by apply flip_holds. Qed.

Lemma keys_equal_sym ta tb ja jb a b :
  column_type ta ja = column_type tb jb → keys_equal ta tb ja jb a b = keys_equal tb ta jb ja b a.
Proof.
  unfold keys_equal. generalize (key ta ja a), (key tb jb b).
  generalize (column_type ta ja), (column_type tb jb). intros t1 t2 x y ->.
  rewrite !variant_get_to_variant. apply value_eqb_sym.
Qed.

Lemma filter_fmap_swap {X Y} (q : X * Y → bool) (l : list (Y * X)) :
  filter q (prod_swap <$> l) = prod_swap <$> filter (λ m, q (prod_swap m)) l.
Proof.
  induction l as [|m l IH]; [done|]. rewrite fmap_cons. destruct (q (prod_swap m)) eqn:E.
  - rewrite !filter_cons_True by (by rewrite E). by rewrite IH.
  - rewrite !filter_cons_False by (rewrite E; tauto). done.
Qed.

Lemma filter_ext_bool {X} (q q' : X → bool) (l : list X) : (∀ x, q x = q' x) → filter q l = filter q' l.
Proof.
  intros H. induction l as [|x l IH]; [done|]. destruct (q x) eqn:E.
  - rewrite !filter_cons_True by (rewrite <- ?H, E; done). by rewrite IH.
  - rewrite !filter_cons_False by (rewrite <- ?H, E; tauto). done.
Qed.

(** What the checks establish. *)
Lemma check_join_ok left right p mode :
  wf_table left → wf_table right → check_join left right p mode = Ok tt →
  supported_mode mode = true ∧
  column_type left (column_id_left p) = column_type right (column_id_right p) ∧
  (column_id_left p < GetColumnCount left)%nat ∧ (column_id_right p < GetColumnCount right)%nat.
Proof.
  intros Hl Hr H. unfold check_join in H.
  apply bind_ok in H as (_ & _ & H). apply bind_ok in H as ([] & Hm & H). apply assert_ok in Hm.
  apply bind_ok in H as (nl & _ & H). apply bind_ok in H as (nr & _ & H). apply bind_ok in H as (_ & _ & H).
  apply bind_ok in H as (tl & Htl & H). apply bind_ok in H as (tr & Htr & H). apply assert_ok, bool_decide_eq_true in H.
  unfold ColumnDataType, vec_get in *. rewrite !column_count by done. unfold column_type.
  destruct (column_definitions left !! column_id_left p) as [dl|] eqn:El; [|done].
  destruct (column_definitions right !! column_id_right p) as [dr|] eqn:Er; [|done]. cbn in *. inv_ok.
  split; [done|]. split; [done|]. split; by eapply lookup_lt_Some.
Qed.

Section Output.
Context (pre : Table → Table → JoinOperatorPredicate → Prop).
Context (Fill : Table → Table → JoinOperatorPredicate → JoinMode → result JoinState).
Context `{FillsPositionLists pre Fill}.

(** The matched rows, left columns first. *)
Lemma MaterializeMatches_rows left right st eqk :
  let ta := table_A left right st in
  let tb := table_B left right st in
  joinable left → joinable right → join_state_spec ta tb eqk st →
  (N.of_nat (length (pairs st)) < 2 ^ 32)%N →
  ∃ c, MaterializeMatches left right st = Ok c ∧
    chunk_rows c = Ok ((λ m, if table_A_matches_left st then table_row left m.1 ++ table_row right m.2
                              else table_row left m.2 ++ table_row right m.1) <$> pairs st).
Proof.
  intros ta tb Hl Hr Hst Hsmall.
  assert (joinable ta) as Ha by (unfold ta, table_A; by destruct (table_A_matches_left st)).
  assert (joinable tb) as Hb by (unfold tb, table_B; by destruct (table_A_matches_left st)).
  destruct (columns_represent (pairs st) (GetColumnCount ta) (materialize_A_column left right st)
    (λ j m, to_variant (column_type ta j) (key ta j m.1))) as (c1 & Hc1 & HF1).
  { intros j Hj. by eapply A_column. }
  destruct (columns_represent (pairs st) (GetColumnCount tb) (materialize_B_column left right st)
    (λ j m, to_variant (column_type tb j) (key tb j m.2))) as (c2 & Hc2 & HF2).
  { intros j Hj. by eapply B_column. }
  unfold MaterializeMatches, MaterializeTableASideOfMatchedTuples, MaterializeTableBSideOfMatchedTuples.
  fold ta tb. rewrite bool_decide_true.
  2:{ rewrite (jss_B_chunks _ _ _ _ Hst). unfold ChunkCount. symmetry. apply u32_id. apply Hb. }
  cbn [assert_ rbind].
  pose proof (seq_nonempty ta (joinable_wf _ Ha)) as Hnea. pose proof (seq_nonempty tb (joinable_wf _ Hb)) as Hneb.
  destruct (table_A_matches_left st) eqn:Hside.
  - rewrite Hc1. cbn [rbind]. rewrite Hc2. cbn [rbind]. eexists. split; [done|].
    rewrite (represents_chunk (pairs st) _ _ (Forall2_app HF1 HF2)); [|by destruct (seq 0 (GetColumnCount ta))|done].
    f_equal. apply list_fmap_ext. intros i m _. rewrite fmap_app. unfold table_row, ta, tb, table_A, table_B.
    rewrite Hside. by rewrite <- !list_fmap_compose.
  - rewrite Hc2. cbn [rbind]. rewrite Hc1. cbn [rbind]. eexists. split; [done|].
    rewrite (represents_chunk (pairs st) _ _ (Forall2_app HF2 HF1)); [|by destruct (seq 0 (GetColumnCount tb))|done].
    f_equal. apply list_fmap_ext. intros i m _. rewrite fmap_app. unfold table_row, ta, tb, table_A, table_B.
    rewrite Hside. by rewrite <- !list_fmap_compose.
Qed.

Lemma pairs_from_length k pls : length (pairs_from k pls) = sum_list (length <$> pls).
Proof. revert k. induction pls as [|pl pls IH]; intros k; cbn; [done|]. by rewrite length_app, length_fmap, IH. Qed.

Lemma chunks_rows_singleton c : chunks_rows [c] = chunk_rows c.
Proof. rewrite chunks_rows_cons. destruct (chunk_rows c); cbn; [by rewrite app_nil_r|done]. Qed.

Lemma chunks_rows_app cs cs' : chunks_rows (cs ++ cs') = (a ← chunks_rows cs; b ← chunks_rows cs'; Ok (a ++ b)).
Proof.
  induction cs as [|c cs IH]; cbn [app].
  - unfold chunks_rows at 2. cbn. by destruct (chunks_rows cs').
  - rewrite !chunks_rows_cons, IH. destruct (chunk_rows c), (chunks_rows cs), (chunks_rows cs'); cbn; try done.
    by rewrite app_assoc.
Qed.

Lemma matched_rows left right p st mode :
  column_type left (column_id_left p) = column_type right (column_id_right p) →
  (if table_A_matches_left st
   then join_state_spec left right (keys_equal left right (column_id_left p) (column_id_right p)) st
   else mode = kInner ∧
        join_state_spec right left (keys_equal right left (column_id_right p) (column_id_left p)) st) →
  let eqk := keys_equal left right (column_id_left p) (column_id_right p) in
  (λ m, if table_A_matches_left st then table_row left m.1 ++ table_row right m.2
        else table_row left m.2 ++ table_row right m.1) <$> pairs st ≡ₚ
  (λ m, table_row left m.1 ++ table_row right m.2) <$>
    filter (λ m, eqk m.1 m.2) (all_pairs (row_ids left) (row_ids right)).
Proof.
  intros Hty Hst eqk. destruct (table_A_matches_left st).
  - by rewrite (jss_pairs _ _ _ _ Hst).
  - destruct Hst as [_ Hst]. rewrite (jss_pairs _ _ _ _ Hst). rewrite <- all_pairs_swap, filter_fmap_swap.
    rewrite <- list_fmap_compose. cbn [fst snd prod_swap].
    rewrite (filter_ext_bool _ (λ m, eqk m.1 m.2)); [done|]. intros m. cbn. by rewrite keys_equal_sym.
Qed.

Lemma sum_list_pairs st : sum_list (length <$> position_lists st) = length (pairs st).
Proof. symmetry. apply pairs_from_length. Qed.

Lemma filter_length_le {X} (q : X → bool) (l : list X) n :
  (N.of_nat (length l) < n)%N → (N.of_nat (length (filter q l)) < n)%N.
Proof. intros. pose proof (length_filter q l). lia. Qed.

Lemma JoinOperator_rows left right p mode :
  joinable left → joinable right → check_join left right p mode = Ok tt → pre left right p →
  (N.of_nat (length (row_ids left)) < 2 ^ 32)%N → (N.of_nat (length (row_ids right)) < 2 ^ 32)%N →
  Z.of_nat (length (join_rows kInner left right p)) < 2 ^ 31 →
  ∃ t rows, JoinOperator Fill left right p mode = Ok t ∧
    column_definitions t = BuildLeftSchema mode left ++ BuildRightSchema mode right ∧
    table_rows t = Ok rows ∧ rows ≡ₚ join_rows mode left right p.
Proof.
  intros Hl Hr Hc Hpre Hnl Hnr Hm.
  destruct (fills_position_lists left right p mode Hl Hr Hc Hpre) as (st & Hfill & Hst).
  destruct (check_join_ok left right p mode (joinable_wf _ Hl) (joinable_wf _ Hr) Hc) as (_ & Hty & _ & _).
  pose proof (matched_rows left right p st mode Hty Hst) as Hmatch.
  assert (length (pairs st) = length (join_rows kInner left right p)) as Hlen.
  { unfold join_rows, join_of. cbn [keeps_left keeps_right]. rewrite app_nil_r, <- Hmatch. by rewrite length_fmap. }
  unfold JoinOperator. rewrite Hc. cbn [rbind]. rewrite Hfill. cbn [rbind].
  assert (ComputeResultRowCount st = Z.of_nat (length (pairs st))) as ->.
  { unfold ComputeResultRowCount. rewrite sum_list_pairs. apply wrap_int32_id. unfold in_int32, int32_min, int32_max. lia. }
  rewrite (proj2 (Z.leb_le _ _)) by lia. cbn [assert_ rbind].
  assert (∃ eqk, join_state_spec (table_A left right st) (table_B left right st) eqk st) as [eqk Hspec].
  { unfold table_A, table_B. destruct (table_A_matches_left st); [by eexists|destruct Hst; by eexists]. }
  destruct (MaterializeMatches_rows left right st eqk Hl Hr Hspec) as (c0 & Hc0 & Hrows0); [lia|].
  rewrite Hc0. cbn [rbind].
  destruct (table_A_matches_left st) eqn:Hside.
  2:{ destruct Hst as [-> _]. cbn. do 2 eexists. split; [done|]. split; [done|]. split; [|].
      - unfold table_rows. cbn. rewrite chunks_rows_singleton. exact Hrows0.
      - unfold join_rows, join_of. cbn. rewrite app_nil_r. exact Hmatch. }
  destruct (dangling_left_rows left right st _ Hside Hl Hr Hst) as (c1 & Hc1 & Hrows1); [by apply filter_length_le|].
  destruct (dangling_right_rows left right st _ Hside Hl Hr Hst) as (c2 & Hc2 & Hrows2); [by apply filter_length_le|].
  rewrite Hc1, Hc2. cbn [rbind]. unfold join_rows, join_of.
  destruct (keeps_left mode), (keeps_right mode); cbn [rbind app]; do 2 eexists; (split; [done|]); (split; [done|]);
    unfold table_rows; cbn [chunks]; rewrite !chunks_rows_cons, Hrows0, ?Hrows1, ?Hrows2; cbn [rbind];
    (split; [done|]); rewrite ?app_nil_r; by rewrite Hmatch.
Qed.
End Output.

Lemma mapR_Forall {A B} (f : A → result B) (P : B → Prop) l k :
  (∀ a b, f a = Ok b → P b) → mapR f l = Ok k → Forall P k.
Proof. intros H Hk%mapR_ok_Forall2. induction Hk; constructor; eauto. Qed.

(** whatever the inputs hold, no column of the matched rows keeps NULL flags: a NULL
    outside the key columns comes out of a join as the stored default value. *)
Theorem MaterializeMatches_not_nullable left right st c
    (Hc : MaterializeMatches left right st = Ok c) : Forall (λ s, IsNullable s = false) c.
Proof.
  unfold MaterializeMatches in Hc. apply bind_ok in Hc as (_ & _ & Hc).
  assert (∀ i s, materialize_A_column left right st i = Ok s → IsNullable s = false) as HA.
  { intros i s H. unfold materialize_A_column in H. apply bind_ok in H as (dt & _ & H).
    destruct dt; cbn in H; [done|..]; repeat apply bind_ok in H as (? & _ & H); by injection H as <-. }
  assert (∀ i s, materialize_B_column left right st i = Ok s → IsNullable s = false) as HB.
  { intros i s H. unfold materialize_B_column in H. apply bind_ok in H as (dt & _ & H).
    destruct dt; cbn in H; [done|..]; repeat apply bind_ok in H as (? & _ & H); by injection H as <-. }
  destruct (table_A_matches_left st); apply bind_ok in Hc as (a & H1 & Hc); apply bind_ok in Hc as (b & H2 & Hc);
    injection Hc as <-; apply Forall_app; split;
    (eapply mapR_Forall; [|exact H1]; eassumption) || (eapply mapR_Forall; [|exact H2]; eassumption).
Qed.

Definition null_join_example : Table :=
  mkTable [mkTableColumnDefinition "k" kInt false; mkTableColumnDefinition "v" kInt true]
    [[mkValueSegment kInt [1] None; mkValueSegment kInt [0] (Some [true])]] None.

Lemma MaterializeMatches_not_nullable_witness :
  ∃ c, MaterializeMatches null_join_example null_join_example
      (mkJoinState true [[(mkRowId 0 0, 0%nat)]] [[false]] 0 [[]] 0) = Ok c ∧ Forall (λ s, IsNullable s = false) c ∧
    chunk_rows c = Ok [[VInt 1; VInt 0; VInt 1; VInt 0]].
Proof.
  eexists. split; [vm_compute; reflexivity|]. split; [|vm_compute; reflexivity].
  apply (MaterializeMatches_not_nullable null_join_example null_join_example
    (mkJoinState true [[(mkRowId 0 0, 0%nat)]] [[false]] 0 [[]] 0)). vm_compute. reflexivity.
Defined.
