(* ===== verification/JoinMatches.v ===== *)
(** * Recording the matches of a join

    The statements the two implementations of [FillPositionLists] share: appending to a
    position list ([position_lists_[i].emplace_back]) and unmarking a dangling tuple of
    table A.  The invariants relate the members to the list of matches recorded so far. *)

From S2P Require Export Join.

Definition emplace_position (i : nat) (r : RowId) (j : nat) (st : JoinState) : result JoinState :=
  pl ← vec_get (position_lists st) i;
  Ok (mkJoinState (table_A_matches_left st) (<[i := pl ++ [(r, j)]]> (position_lists st)) (dangling_tuples_table_A st)
        (dangling_tuples_table_A_count st) (dangling_tuples_table_B_offsets st) (dangling_tuples_table_B_count st)).

(** [if (dangling[chunk_id][chunk_offset]) { dangling[..][..] = false; count--; }] *)
Definition unmark (r : RowId) (dangling : list (list bool)) (count : nat) : result (list (list bool) * nat) :=
  flags ← vec_get dangling (chunk_id r);
  flag ← vec_get flags (chunk_offset r);
  Ok (if (flag : bool) then (<[chunk_id r := <[chunk_offset r := false]> flags]> dangling, (count - 1)%nat)
      else (dangling, count)).

Definition unmark_A (r : RowId) (st : JoinState) : result JoinState :=
  dc ← unmark r (dangling_tuples_table_A st) (dangling_tuples_table_A_count st);
  Ok (mkJoinState (table_A_matches_left st) (position_lists st) dc.1 dc.2
        (dangling_tuples_table_B_offsets st) (dangling_tuples_table_B_count st)).

(** Typed keys of a column, at a type equal to the column's. *)
Record keys_of (t : Table) (dt : DataType) (j : nat) (k : RowId → ctype dt) : Prop := {
  keys_values i c : chunks t !! i = Some c →
    typed_values dt c j = Ok ((λ o, k (mkRowId i o)) <$> seq 0 (chunk_Size c));
  keys_variant r : to_variant dt (k r) = to_variant (column_type t j) (key t j r) }.

Lemma keys_exist t dt j :
  joinable t → (j < GetColumnCount t)%nat → column_type t j = dt → ∃ k, keys_of t dt j k.
Proof.
  intros [Hwf Hnf _] Hj <-. exists (key t j). split; [|done]. intros i c Hc. by apply typed_values_ok.
Qed.

Lemma keys_of_equal ta tb dt ja jb ka kb a b :
  keys_of ta dt ja ka → keys_of tb dt jb kb → column_type ta ja = dt →
  keys_equal ta tb ja jb a b = value_eqb dt (ka a) (kb b).
Proof.
  intros Ha Hb <-. unfold keys_equal. rewrite <- (keys_variant _ _ _ _ Hb b), variant_get_to_variant. f_equal.
  apply (to_variant_inj (column_type ta ja)). symmetry. apply (keys_variant _ _ _ _ Ha a).
Qed.

Lemma row_ids_NoDup t : NoDup (row_ids t).
Proof.
  pose proof (row_ids_from_sorted 0 (chunks t)) as H. fold (row_ids t) in H.
  induction H as [|r l _ IH Hr]; constructor; [|done]. intros Hin. rewrite List.Forall_forall in Hr.
  apply list_elem_of_In in Hin. specialize (Hr _ Hin). destruct r. by rewrite RowId_lt_irrefl in Hr.
Qed.

Lemma pairs_from_insert k pls i pl r j :
  pls !! i = Some pl → pairs_from k (<[i := pl ++ [(r, j)]]> pls) ≡ₚ pairs_from k pls ++ [(r, mkRowId (k + i) j)].
Proof.
  revert k i. induction pls as [|pl' pls IH]; intros k [|i] H; cbn in *; simplify_eq.
  - rewrite Nat.add_0_r, fmap_app, <- !app_assoc. f_equiv. apply Permutation_app_comm.
  - rewrite IH by done. rewrite <- app_assoc. by rewrite Nat.add_succ_r.
Qed.

Lemma emplace_position_ok i r j st M :
  (i < length (position_lists st))%nat → pairs st ≡ₚ M →
  ∃ pls, emplace_position i r j st = Ok (mkJoinState (table_A_matches_left st) pls (dangling_tuples_table_A st)
        (dangling_tuples_table_A_count st) (dangling_tuples_table_B_offsets st) (dangling_tuples_table_B_count st)) ∧
    pairs_from 0 pls ≡ₚ M ++ [(r, mkRowId i j)] ∧ length pls = length (position_lists st).
Proof.
  intros Hi HM. destruct (lookup_lt_is_Some_2 _ _ Hi) as [pl Hpl]. unfold emplace_position, vec_get. rewrite Hpl.
  cbn [of_option rbind]. eexists. split; [done|]. split; [|by rewrite length_insert].
  rewrite (pairs_from_insert 0 _ _ _ _ _ Hpl). cbn [Nat.add]. f_equiv. exact HM.
Qed.

(** The flags of the rows of [t]: a row is dangling when it is not in [S]. *)
Definition dangling (S : list RowId) (r : RowId) : bool := bool_decide (r ∉ S).

Record dangling_flags (t : Table) (S : list RowId) (flags : list (list bool)) (count : nat) : Prop := {
  df_flags k c : chunks t !! k = Some c → flags !! k = Some ((λ i, dangling S (mkRowId k i)) <$> seq 0 (chunk_Size c));
  df_count : count = length (filter (dangling S) (row_ids t)) }.

Definition except (a : RowId) (q : RowId → bool) (r : RowId) : bool := if decide (r = a) then false else q r.

Lemma fmap_seq_insert (f : nat → bool) n i :
  (i < n)%nat → <[i := false]> (f <$> seq 0 n) = (λ j, if decide (j = i) then false else f j) <$> seq 0 n.
Proof.
  intros Hi. apply list_eq. intros j. destruct (decide (j = i)) as [->|Hne].
  - rewrite list_lookup_insert_eq by (by rewrite length_fmap, length_seq).
    rewrite list_lookup_fmap, lookup_seq_lt by done. cbn. by rewrite decide_True.
  - rewrite list_lookup_insert_ne by done. rewrite !list_lookup_fmap. destruct (decide (j < n)%nat).
    + rewrite lookup_seq_lt by done. cbn. by rewrite decide_False.
    + by rewrite lookup_seq_ge by lia.
Qed.

Lemma dangling_snoc S a r : dangling (S ++ [a]) r = except a (dangling S) r.
Proof.
  unfold dangling, except. destruct (decide (r = a)) as [->|Hne].
  - apply bool_decide_eq_false. intros H. apply H, elem_of_app. right. by left.
  - apply bool_decide_ext. rewrite elem_of_app, list_elem_of_singleton. tauto.
Qed.

Lemma count_remove (q : RowId → bool) a l :
  NoDup l → a ∈ l → q a = true →
  length (filter (except a q) l) = (length (filter q l) - 1)%nat.
Proof.
  unfold except. induction 1 as [|x l Hx Hnd IH]; intros Ha Hq; [by apply elem_of_nil in Ha|].
  destruct (decide (x = a)) as [->|Hne].
  - rewrite filter_cons_False by (rewrite decide_True by done; tauto).
    rewrite filter_cons_True by (by rewrite Hq). cbn [length]. rewrite Nat.sub_1_r. cbn. f_equal.
    clear IH Ha Hnd. revert Hx. induction l as [|y l IH]; intros Hx; [done|]. apply not_elem_of_cons in Hx as [Hy Hl]. specialize (IH Hl).
    destruct (q y) eqn:Ey.
    + rewrite !filter_cons_True by (rewrite ?decide_False by done; by rewrite Ey). by rewrite IH.
    + rewrite !filter_cons_False by (rewrite ?decide_False by done; rewrite Ey; tauto). done.
  - assert (a ∈ l) as Hal by (apply elem_of_cons in Ha as [->|]; done). specialize (IH Hal Hq).
    assert (0 < length (filter q l))%nat as Hpos.
    { assert (a ∈ filter q l) as Hin by (apply list_elem_of_filter; by rewrite Hq).
      destruct (filter q l); [by apply elem_of_nil in Hin|cbn; lia]. }
    destruct (q x) eqn:Ex.
    + rewrite !filter_cons_True by (rewrite ?decide_False by done; by rewrite Ex). cbn. lia.
    + rewrite !filter_cons_False by (rewrite ?decide_False by done; rewrite Ex; tauto). done.
Qed.

Lemma unmark_ok t S flags count a :
  a ∈ row_ids t → dangling_flags t S flags count →
  ∃ flags' count', unmark a flags count = Ok (flags', count') ∧ dangling_flags t (S ++ [a]) flags' count'.
Proof.
  intros Ha [Hf Hc]. pose proof Ha as (c & Hck & Ho)%row_ids_elem. unfold unmark, vec_get. rewrite (Hf _ _ Hck).
  cbn [of_option rbind]. rewrite list_lookup_fmap, lookup_seq_lt by done. cbn [fmap option_fmap option_map of_option rbind Nat.add].
  replace (mkRowId (chunk_id a) (chunk_offset a)) with a by (by destruct a).
  destruct (dangling S a) eqn:Ed.
  - do 2 eexists. split; [done|]. split.
    + intros k c' Hk. destruct (decide (k = chunk_id a)) as [->|Hne].
      * simplify_eq. rewrite list_lookup_insert_eq by (by eapply lookup_lt_Some, Hf). f_equal.
        rewrite fmap_seq_insert by done. apply list_fmap_ext. intros _ i _. rewrite dangling_snoc; unfold except.
        destruct (decide (i = chunk_offset a)) as [->|Hi].
        { by rewrite decide_True by (by destruct a). }
        rewrite decide_False; [done|]. intros Heq. apply Hi. by rewrite <- Heq.
      * rewrite list_lookup_insert_ne by done. rewrite (Hf _ _ Hk). f_equal. apply list_fmap_ext. intros _ i _.
        rewrite dangling_snoc; unfold except; rewrite decide_False; [done|]. intros Heq. apply Hne. by rewrite <- Heq.
    + subst count. rewrite <- (count_remove _ a) by (done || apply row_ids_NoDup). f_equal.
      apply filter_ext_bool. intros r. by rewrite dangling_snoc; unfold except.
  - do 2 eexists. split; [done|].
    assert (∀ r, dangling (S ++ [a]) r = dangling S r) as Hext.
    { intros r. rewrite dangling_snoc; unfold except. by destruct (decide (r = a)) as [->|]. }
    split.
    + intros k c' Hk. rewrite (Hf _ _ Hk). f_equal. apply list_fmap_ext. intros _ i _. by rewrite Hext.
    + subst count. f_equal. by apply filter_ext_bool.
Qed.

Lemma dangling_flags_init t :
  dangling_flags t [] ((λ c, replicate (chunk_Size c) true) <$> chunks t) (length (row_ids t)).
Proof.
  split.
  - intros k c Hc. rewrite list_lookup_fmap, Hc. cbn. f_equal.
    induction (chunk_Size c) as [|n IH]; [done|]. rewrite replicate_S_end, seq_S, fmap_app, IH. done.
  - induction (row_ids t) as [|r l IH]; [done|]. cbn [length]. rewrite filter_cons_True by done. cbn. by f_equal.
Qed.

(** Rows dangling with respect to the matches are the unmatched ones. *)
Lemma dangling_unmatched {X} (eqk : RowId → X → bool) ra (rb : list X) S a :
  a ∈ ra → S ≡ₚ (filter (λ m, eqk m.1 m.2) (all_pairs ra rb)).*1 → dangling S a = unmatched eqk rb a.
Proof.
  intros Ha HS. unfold dangling, unmatched. apply eq_true_iff_eq.
  rewrite bool_decide_eq_true, forallb_forall, HS. unfold all_pairs. split.
  - intros Hn b Hb. destruct (eqk a b) eqn:E; [|done]. destruct Hn. apply list_elem_of_fmap. exists (a, b).
    split; [done|]. apply list_elem_of_filter. cbn. rewrite E. split; [done|]. apply elem_of_concat.
    exists ((λ x, (x, b)) <$> ra). split; [by apply (list_elem_of_fmap_2 (λ x, (x, b)))|].
    apply (list_elem_of_fmap_2 (λ y, (λ x, (x, y)) <$> ra)). by apply list_elem_of_In.
  - intros Hf (m & -> & Hm)%list_elem_of_fmap. apply list_elem_of_filter in Hm as [E Hm].
    apply elem_of_concat in Hm as (l & Hin & Hl). apply list_elem_of_fmap in Hl as (b & -> & Hb).
    apply list_elem_of_fmap in Hin as (a' & -> & _). cbn in *. apply list_elem_of_In in Hb.
    specialize (Hf b Hb). destruct (eqk a' b); done.
Qed.

(** The bookkeeping of table A, once all matches are recorded. *)
Lemma dangling_flags_final ta tb (eqk : RowId → RowId → bool) flags count (M : list (RowId * RowId)) :
  M ≡ₚ filter (λ m, eqk m.1 m.2) (all_pairs (row_ids ta) (row_ids tb)) →
  dangling_flags ta M.*1 flags count →
  (∀ k c, chunks ta !! k = Some c →
     flags !! k = Some ((λ i, unmatched eqk (row_ids tb) (mkRowId k i)) <$> seq 0 (chunk_Size c))) ∧
  count = length (filter (unmatched eqk (row_ids tb)) (row_ids ta)).
Proof.
  intros HM [Hf Hc].
  assert (∀ a, a ∈ row_ids ta → dangling M.*1 a = unmatched eqk (row_ids tb) a) as Hext.
  { intros a Ha. apply (dangling_unmatched eqk (row_ids ta)); [done|]. by rewrite HM. }
  split.
  - intros k c Hk. rewrite (Hf _ _ Hk). f_equal. apply list_fmap_ext. intros i o [-> Ho]%lookup_seq.
    apply Hext, row_ids_elem. by exists c.
  - subst count. f_equal. revert Hext. generalize (row_ids ta). induction l as [|r l IH]; intros Hext; [done|].
    rewrite !filter_cons. rewrite <- (Hext r) by set_solver. rewrite IH; [done|]. intros. apply Hext. set_solver.
Qed.

(** The members after the matches [M] were recorded. *)
Record recorded (ta tb : Table) (side : bool) (M : list (RowId * RowId)) (st : JoinState) : Prop := {
  rec_side : table_A_matches_left st = side;
  rec_pairs : pairs st ≡ₚ M;
  rec_length : length (position_lists st) = length (chunks tb);
  rec_dangling : dangling_flags ta M.*1 (dangling_tuples_table_A st) (dangling_tuples_table_A_count st) }.

Lemma recorded_proper ta tb side M M' st : M ≡ₚ M' → recorded ta tb side M st → recorded ta tb side M' st.
Proof.
  intros HM [? Hp ? [Hf Hc]]. split; [done|by rewrite <- HM|done|].
  assert (∀ r, dangling M.*1 r = dangling M'.*1 r) as Hext by (intros r; apply bool_decide_ext; by rewrite HM).
  split.
  - intros k c Hk. rewrite (Hf _ _ Hk). f_equal. apply list_fmap_ext. intros. apply Hext.
  - rewrite Hc. f_equal. by apply filter_ext_bool.
Qed.

Lemma join_state_spec_ext ta tb (e e' : RowId → RowId → bool) st :
  (∀ a b, e a b = e' a b) → join_state_spec ta tb e st → join_state_spec ta tb e' st.
Proof.
  intros He [H1 H2 H3 H4 H5 H6 H7].
  assert (∀ (l : list RowId) x, unmatched e l x = unmatched e' l x) as Hu.
  { intros l x. unfold unmatched. induction l as [|y l IH]; cbn; [done|]. by rewrite He, IH. }
  assert (∀ (l : list RowId) x, unmatched (flip e) l x = unmatched (flip e') l x) as Hv.
  { intros l x. unfold unmatched, flip. induction l as [|y l IH]; cbn; [done|]. by rewrite He, IH. }
  split; try done.
  - rewrite H1. by rewrite (filter_ext_bool _ (λ p, e' p.1 p.2)).
  - intros k c Hk. rewrite (H3 k c Hk). f_equal. apply list_fmap_ext. intros. apply Hu.
  - rewrite H4. f_equal. apply filter_ext_bool. apply Hu.
  - intros k c Hk. rewrite (H6 k c Hk). f_equal. apply filter_ext_bool. intros. apply Hv.
  - rewrite H7. f_equal. apply filter_ext_bool. apply Hv.
Qed.

Lemma imap_fmap_seq {X Y} (f : nat → X) (g : nat → X → Y) n :
  imap g (f <$> seq 0 n) = (λ i, g i (f i)) <$> seq 0 n.
Proof.
  apply list_eq. intros i. rewrite list_lookup_imap, !list_lookup_fmap.
  destruct (decide (i < n)%nat); [by rewrite lookup_seq_lt|by rewrite lookup_seq_ge by lia].
Qed.

Lemma filter_fmap_length {X Y} (q : Y → bool) (f : X → Y) (l : list X) :
  length (filter q (f <$> l)) = length (filter (λ x, q (f x)) l).
Proof.
  induction l as [|x l IH]; [done|]. rewrite fmap_cons. destruct (q (f x)) eqn:E.
  - rewrite !filter_cons_True by (by rewrite E). cbn [length]. by f_equal.
  - rewrite !filter_cons_False by (rewrite E; tauto). done.
Qed.
