(* ===== verification/HashJoin.v ===== *)
(** * The hash join

    [src/lib/operator/hash_join_operator.cpp].  The build table is a
    [std::unordered_multimap]: a bag of (key, row id) entries whose iteration order the
    standard leaves open, so that order is a parameter of the model. [equal_range] yields the
    entries whose key equals the probed one, in that order. *)

From S2P Require Export JoinMatches.

(** An iteration order of an unordered container: some rearrangement of its entries. *)
Class IterationOrder (iteration : ∀ dt, list (ctype dt * RowId) → list (ctype dt * RowId)) : Prop := {
  iteration_Permutation dt entries : iteration dt entries ≡ₚ entries }.

#[export] Instance insertion_order : IterationOrder (λ dt entries, entries).
Proof. done. Qed.
#[export] Instance reverse_order : IterationOrder (λ dt entries, reverse entries).
Proof. constructor. intros dt entries. apply reverse_Permutation. Qed.

Section HashJoin.
Context (iteration : ∀ dt, list (ctype dt * RowId) → list (ctype dt * RowId)).

Definition equal_range (dt : DataType) (build_table : list (ctype dt * RowId)) (v : ctype dt) : list RowId :=
  (filter (λ e, value_eqb dt e.1 v) (iteration dt build_table)).*2.

(** One pass of the build loop: the flags of a chunk and its entries. *)
Definition build_chunk (dt : DataType) (t : Table) (column_id i : nat) : result (list bool * list (ctype dt * RowId)) :=
  input_chunk ← GetChunk t i;
  segment_values ← typed_values dt input_chunk column_id;
  Ok (replicate (chunk_Size input_chunk) true, imap (λ j v, (v, mkRowId i j)) segment_values).

Definition record_match (i j : nat) (st : JoinState) (r : RowId) : result JoinState :=
  st' ← unmark_A r st; emplace_position i r j st'.

(** The probe loop's body: the members and [dangling_offsets_in_segment]. *)
Definition probe_row (dt : DataType) (build_table : list (ctype dt * RowId)) (i : nat)
    (acc : JoinState * list nat) (jv : nat * ctype dt) : result (JoinState * list nat) :=
  let '(st, dangling_offsets) := acc in
  let '(j, v) := jv in
  match equal_range dt build_table v with
  | [] => Ok (mkJoinState (table_A_matches_left st) (position_lists st) (dangling_tuples_table_A st)
                (dangling_tuples_table_A_count st) (dangling_tuples_table_B_offsets st)
                (dangling_tuples_table_B_count st + 1)%nat, dangling_offsets ++ [j])
  | matches => st' ← foldR (record_match i j) st matches; Ok (st', dangling_offsets)
  end.

Definition probe_chunk (dt : DataType) (build_table : list (ctype dt * RowId)) (t : Table) (column_id : nat)
    (st : JoinState) (i : nat) : result JoinState :=
  input_chunk ← GetChunk t i;
  segment_values ← typed_values dt input_chunk column_id;
  acc ← foldR (probe_row dt build_table i) (st, []) (imap pair segment_values);
  let '(st', offsets) := acc in
  Ok (mkJoinState (table_A_matches_left st') (position_lists st') (dangling_tuples_table_A st')
        (dangling_tuples_table_A_count st') (dangling_tuples_table_B_offsets st' ++ [offsets])
        (dangling_tuples_table_B_count st')).

Definition build_and_probe (dt : DataType) (matches_left : bool) (build_side_table probe_side_table : Table)
    (build_side_column probe_side_column : nat) : result JoinState :=
  rows ← (RowCount false build_side_table).2;
  built ← for_range (ChunkCount build_side_table) (build_chunk dt build_side_table build_side_column);
  foldR (probe_chunk dt (concat built.*2) probe_side_table probe_side_column)
    (mkJoinState matches_left (replicate (ChunkCount probe_side_table) []) built.*1 rows [] 0)
    (seq 0 (ChunkCount probe_side_table)).

Definition HashJoin_FillPositionLists (left right : Table) (p : JoinOperatorPredicate) (mode : JoinMode) :
    result JoinState :=
  dt ← ColumnDataType left (column_id_left p);
  ResolveDataType dt (λ dt,
    left_rows ← (RowCount false left).2;
    right_rows ← (RowCount false right).2;
    if (right_rows <? left_rows)%nat && bool_decide (mode = kInner)
    then build_and_probe dt false right left (column_id_right p) (column_id_left p)
    else build_and_probe dt true left right (column_id_left p) (column_id_right p)).

Definition HashJoinOperator : Table → Table → JoinOperatorPredicate → JoinMode → result Table :=
  JoinOperator HashJoin_FillPositionLists.

(** ** The build table holds every row of table A, probing finds the equal keys *)
Context `{!IterationOrder iteration}.

Section Probe.
Context (dt : DataType) (ta tb : Table) (ja jb : nat) (ka kb : RowId → ctype dt).
Hypothesis Ha : keys_of ta dt ja ka.
Hypothesis Hb : keys_of tb dt jb kb.
Hypothesis Hwa : wf_table ta.
Hypothesis Hwb : wf_table tb.

Abbreviation eqk := (λ a b, value_eqb dt (ka a) (kb b)).
Abbreviation entries := ((λ r, (ka r, r)) <$> row_ids ta).
Abbreviation matches_of b := (filter (λ a, eqk a b) (row_ids ta)).

Lemma concat_row_ids {V} (f : RowId → V) k cs :
  concat (zip_with (λ k c, (λ i, f (mkRowId k i)) <$> seq 0 (chunk_Size c)) (seq k (length cs)) cs) =
  f <$> row_ids_from k cs.
Proof.
  revert k. induction cs as [|c cs IH]; intros k; cbn; [done|]. by rewrite fmap_app, IH, <- list_fmap_compose.
Qed.

Lemma fmap_zip_with {X Y Z W} (h : Z → W) (f : X → Y → Z) xs ys :
  h <$> zip_with f xs ys = zip_with (λ x y, h (f x y)) xs ys.
Proof. revert ys. induction xs as [|x xs IH]; intros [|y ys]; cbn; by rewrite ?IH. Qed.

Lemma build_ok :
  ∃ built, for_range (ChunkCount ta) (build_chunk dt ta ja) = Ok built ∧
    built.*1 = (λ c, replicate (chunk_Size c) true) <$> chunks ta ∧ concat built.*2 = entries.
Proof.
  exists (zip_with (λ k c, (replicate (chunk_Size c) true, (λ o, (ka (mkRowId k o), mkRowId k o)) <$> seq 0 (chunk_Size c)))
    (seq 0 (length (chunks ta))) (chunks ta)). split; [|split].
  - unfold for_range, ChunkCount. rewrite u32_id by apply Hwa. apply chunk_loop. intros k c Hc. cbn [Nat.add].
    unfold build_chunk. rewrite (GetChunk_ok _ _ _ Hc). cbn [rbind]. rewrite (keys_values _ _ _ _ Ha _ _ Hc). cbn [rbind].
    by rewrite imap_fmap_seq.
  - rewrite fmap_zip_with. cbn. generalize 0%nat. induction (chunks ta) as [|c cs IH]; intros k; cbn; [done|]. by f_equal.
  - rewrite fmap_zip_with. cbn. apply (concat_row_ids (λ r, (ka r, r))).
Qed.

Lemma equal_range_ok b : equal_range dt entries (kb b) ≡ₚ matches_of b.
Proof.
  unfold equal_range. rewrite iteration_Permutation.
  induction (row_ids ta) as [|r l IH]; [done|]. rewrite fmap_cons. destruct (eqk r b) eqn:E.
  - rewrite !filter_cons_True by (cbn [fst]; by rewrite E). cbn. by f_equiv.
  - rewrite !filter_cons_False by (cbn [fst]; rewrite E; tauto). done.
Qed.

Lemma record_match_ok side M st i j r :
  recorded ta tb side M st → (i < length (chunks tb))%nat → r ∈ row_ids ta →
  ∃ st', record_match i j st r = Ok st' ∧ recorded ta tb side (M ++ [(r, mkRowId i j)]) st' ∧
    dangling_tuples_table_B_offsets st' = dangling_tuples_table_B_offsets st ∧
    dangling_tuples_table_B_count st' = dangling_tuples_table_B_count st.
Proof.
  intros [Hs Hp Hl Hd] Hi Hr. unfold record_match, unmark_A.
  destruct (unmark_ok _ _ _ _ _ Hr Hd) as (flags & count & -> & Hd'). cbn [rbind fst snd].
  match goal with |- context [emplace_position i r j ?s] => destruct (emplace_position_ok i r j s M) as (pls & -> & Hp' & Hl') end.
  { cbn. lia. } { done. }
  eexists. split; [done|]. split; [|done]. cbn in Hl'. split; cbn; [done|done|lia|]. by rewrite fmap_app.
Qed.

Lemma record_matches_ok side i j rs : ∀ M st,
  recorded ta tb side M st → (i < length (chunks tb))%nat → (∀ r, r ∈ rs → r ∈ row_ids ta) →
  ∃ st', foldR (record_match i j) st rs = Ok st' ∧ recorded ta tb side (M ++ ((λ r, (r, mkRowId i j)) <$> rs)) st' ∧
    dangling_tuples_table_B_offsets st' = dangling_tuples_table_B_offsets st ∧
    dangling_tuples_table_B_count st' = dangling_tuples_table_B_count st.
Proof.
  induction rs as [|r rs IH]; intros M st Hrec Hi Hin; cbn [foldR].
  - exists st. cbn. by rewrite app_nil_r.
  - destruct (record_match_ok side M st i j r Hrec Hi) as (st1 & -> & Hrec1 & Ho1 & Hc1); [apply Hin; by left|].
    cbn [rbind]. destruct (IH _ _ Hrec1 Hi) as (st2 & -> & Hrec2 & Ho2 & Hc2); [intros; apply Hin; by right|].
    exists st2. rewrite Ho2, Hc2. split; [done|]. by rewrite <- app_assoc in Hrec2.
Qed.

Abbreviation unmatched_B b := (unmatched (flip eqk) (row_ids ta) b).

Lemma no_matches b : matches_of b = [] ↔ unmatched_B b = true.
Proof.
  unfold unmatched, flip. induction (row_ids ta) as [|r l IH]; [done|]. cbn [forallb]. destruct (eqk r b) eqn:E.
  - rewrite filter_cons_True by (by rewrite E). done.
  - rewrite filter_cons_False by (rewrite E; tauto). exact IH.
Qed.

Abbreviation matches_at i js := (concat ((λ j, (λ a, (a, mkRowId i j)) <$> matches_of (mkRowId i j)) <$> js)).

Lemma probe_row_ok side M st offs i j :
  recorded ta tb side M st → (i < length (chunks tb))%nat →
  ∃ st', probe_row dt entries i (st, offs) (j, kb (mkRowId i j)) =
      Ok (st', offs ++ filter (λ j, unmatched_B (mkRowId i j)) [j]) ∧
    recorded ta tb side (M ++ ((λ a, (a, mkRowId i j)) <$> matches_of (mkRowId i j))) st' ∧
    dangling_tuples_table_B_offsets st' = dangling_tuples_table_B_offsets st ∧
    dangling_tuples_table_B_count st' =
      (dangling_tuples_table_B_count st + length (filter (λ j, unmatched_B (mkRowId i j)) [j]))%nat.
Proof.
  intros Hrec Hi. unfold probe_row. pose proof (equal_range_ok (mkRowId i j)) as HE.
  destruct (equal_range dt entries (kb (mkRowId i j))) as [|r rs] eqn:E.
  - apply Permutation_nil_l in HE. symmetry in HE. rewrite HE.
    rewrite filter_cons_True by (by rewrite (proj1 (no_matches _) HE)).
    eexists. split; [done|]. cbn. rewrite app_nil_r. split; [|done]. destruct Hrec. by split.
  - rewrite filter_cons_False; cycle 1.
    { intros H%Is_true_true_1%no_matches. rewrite H in HE. by apply Permutation_nil_r in HE. }
    destruct (record_matches_ok side i j (r :: rs) M st Hrec Hi) as (st' & -> & Hrec' & Ho & Hc).
    { intros x Hx. rewrite HE in Hx. by apply list_elem_of_filter in Hx as [_ ?]. }
    exists st'. cbn [rbind filter list_filter length]. rewrite app_nil_r. split; [done|]. split; [|split; [done|cbn; lia]].
    eapply recorded_proper; [|done]. by rewrite HE.
Qed.

Lemma probe_rows_ok side i js : ∀ M st offs,
  recorded ta tb side M st → (i < length (chunks tb))%nat →
  ∃ st', foldR (probe_row dt entries i) (st, offs) ((λ j, (j, kb (mkRowId i j))) <$> js) =
      Ok (st', offs ++ filter (λ j, unmatched_B (mkRowId i j)) js) ∧
    recorded ta tb side (M ++ matches_at i js) st' ∧
    dangling_tuples_table_B_offsets st' = dangling_tuples_table_B_offsets st ∧
    dangling_tuples_table_B_count st' =
      (dangling_tuples_table_B_count st + length (filter (λ j, unmatched_B (mkRowId i j)) js))%nat.
Proof.
  induction js as [|j js IH]; intros M st offs Hrec Hi; cbn [fmap list_fmap foldR concat].
  - exists st. cbn. by rewrite !app_nil_r, Nat.add_0_r.
  - destruct (probe_row_ok side M st offs i j Hrec Hi) as (st1 & -> & Hrec1 & Ho1 & Hc1). cbn [rbind].
    destruct (IH _ _ (offs ++ filter (λ j, unmatched_B (mkRowId i j)) [j]) Hrec1 Hi) as (st2 & -> & Hrec2 & Ho2 & Hc2).
    exists st2. rewrite <- app_assoc in Hrec2. rewrite <- app_assoc, <- filter_app, Hc2, Hc1, Ho2, Ho1. split; [done|].
    split; [done|]. split; [done|]. rewrite <- Nat.add_assoc, <- length_app, <- filter_app. done.
Qed.

Abbreviation row_matches b := ((λ a, (a, b)) <$> matches_of b).

Lemma filter_all_pairs bs : filter (λ m, eqk m.1 m.2) (all_pairs (row_ids ta) bs) = concat ((λ b, row_matches b) <$> bs).
Proof.
  unfold all_pairs. induction bs as [|b bs IH]; [done|]. rewrite !fmap_cons. cbn [concat]. rewrite filter_app, IH. f_equal. clear IH.
  induction (row_ids ta) as [|r l IHl]; [done|]. rewrite fmap_cons. destruct (eqk r b) eqn:E.
  - rewrite !filter_cons_True by (cbn [fst snd]; by rewrite E). rewrite fmap_cons; by rewrite IHl.
  - rewrite !filter_cons_False by (cbn [fst snd]; rewrite E; tauto). done.
Qed.

Abbreviation dangling_offsets i c := (filter (λ j, unmatched_B (mkRowId i j)) (seq 0 (chunk_Size c))).

Lemma probe_chunk_ok side M st i c :
  recorded ta tb side M st → chunks tb !! i = Some c →
  ∃ st', probe_chunk dt entries tb jb st i = Ok st' ∧
    recorded ta tb side (M ++ matches_at i (seq 0 (chunk_Size c))) st' ∧
    dangling_tuples_table_B_offsets st' = dangling_tuples_table_B_offsets st ++ [dangling_offsets i c] ∧
    dangling_tuples_table_B_count st' = (dangling_tuples_table_B_count st + length (dangling_offsets i c))%nat.
Proof.
  intros Hrec Hc. unfold probe_chunk. rewrite (GetChunk_ok _ _ _ Hc). cbn [rbind].
  rewrite (keys_values _ _ _ _ Hb _ _ Hc). cbn [rbind]. rewrite imap_fmap_seq.
  destruct (probe_rows_ok side i (seq 0 (chunk_Size c)) M st [] Hrec) as (st' & -> & Hrec' & Ho & Hcount).
  { by eapply lookup_lt_Some. }
  cbn [rbind app]. eexists. split; [done|]. cbn. rewrite Ho, Hcount. split; [|done]. destruct Hrec'. by split.
Qed.

Lemma probe_chunks_ok side cs : ∀ k M st,
  (∀ i c, cs !! i = Some c → chunks tb !! (k + i)%nat = Some c) → recorded ta tb side M st →
  ∃ st', foldR (probe_chunk dt entries tb jb) st (seq k (length cs)) = Ok st' ∧
    recorded ta tb side (M ++ concat ((λ b, row_matches b) <$> row_ids_from k cs)) st' ∧
    dangling_tuples_table_B_offsets st' =
      dangling_tuples_table_B_offsets st ++ zip_with (λ i c, dangling_offsets i c) (seq k (length cs)) cs ∧
    dangling_tuples_table_B_count st' =
      (dangling_tuples_table_B_count st + length (filter (λ b, unmatched_B b) (row_ids_from k cs)))%nat.
Proof.
  induction cs as [|c cs IH]; intros k M st Hcs Hrec; cbn [length seq foldR row_ids_from zip_with].
  - exists st. cbn. by rewrite !app_nil_r, Nat.add_0_r.
  - pose proof (Hcs 0%nat c eq_refl) as Hc. rewrite Nat.add_0_r in Hc.
    destruct (probe_chunk_ok side M st k c Hrec Hc) as (st1 & -> & Hrec1 & Ho1 & Hc1). cbn [rbind].
    assert (∀ i c', cs !! i = Some c' → chunks tb !! (S k + i)%nat = Some c') as Hcs'.
    { intros i c' Hi. replace (S k + i)%nat with (k + S i)%nat by lia. by apply Hcs. }
    destruct (IH (S k) _ st1 Hcs' Hrec1) as (st2 & -> & Hrec2 & Ho2 & Hc2).
    exists st2. split; [done|]. rewrite Ho2, Ho1, Hc2, Hc1, <- app_assoc. split; [|split; [done|]].
    + rewrite fmap_app, concat_app, <- app_assoc in *. by rewrite <- list_fmap_compose.
    + rewrite filter_app, length_app, Nat.add_assoc. do 2 f_equal.
      symmetry. apply filter_fmap_length.
Qed.

Lemma build_and_probe_ok side :
  cache_coherent ta →
  ∃ st, build_and_probe dt side ta tb ja jb = Ok st ∧ table_A_matches_left st = side ∧ join_state_spec ta tb eqk st.
Proof.
  intros Hcache. unfold build_and_probe. rewrite RowCount_release by done. cbn [rbind].
  destruct build_ok as (built & -> & H1 & H2). cbn [rbind]. rewrite H1, H2. clear built H1 H2.
  unfold ChunkCount. rewrite u32_id by apply Hwb.
  destruct (probe_chunks_ok side (chunks tb) 0 [] (mkJoinState side (replicate (length (chunks tb)) [])
    ((λ c, replicate (chunk_Size c) true) <$> chunks ta) (length (row_ids ta)) [] 0)) as (st & -> & Hrec & Ho & Hc).
  { done. }
  { split; cbn; [done| |by rewrite length_replicate|apply dangling_flags_init].
    unfold pairs. cbn. generalize 0%nat. induction (length (chunks tb)) as [|n IH]; intros k; cbn; [done|apply IH]. }
  cbn [app] in Hrec. fold (row_ids tb) in *. cbn in Ho, Hc. rewrite <- filter_all_pairs in Hrec.
  destruct Hrec as [Hs Hp Hl Hd]. exists st. split; [done|]. split; [done|].
  apply (dangling_flags_final ta tb eqk) in Hd as [Hf Hcount]; [|done].
  split; try done.
  - rewrite Ho, length_zip_with, length_seq. lia.
  - intros k c Hk. rewrite Ho, lookup_zip_with, lookup_seq_lt by (by eapply lookup_lt_Some). cbn. by rewrite Hk.
Qed.
End Probe.

(** ** The hash join fulfils the interface, so its output is the join *)
#[export] Instance HashJoin_fills : FillsPositionLists (λ _ _ _, True) HashJoin_FillPositionLists.
Proof.
  constructor. intros left right p mode Hl Hr Hc _.
  destruct (check_join_ok left right p mode (joinable_wf _ Hl) (joinable_wf _ Hr) Hc) as (_ & Hty & Hjl & Hjr).
  unfold HashJoin_FillPositionLists. rewrite ColumnDataType_ok by (done || apply Hl). cbn [rbind].
  rewrite ResolveDataType_typed by (apply column_typed; [apply Hl|done]).
  rewrite !RowCount_release by (apply Hl || apply Hr). cbn [rbind].
  destruct (keys_exist left _ _ Hl Hjl eq_refl) as [kl Hkl].
  destruct (keys_exist right _ _ Hr Hjr (eq_sym Hty)) as [kr Hkr].
  destruct ((length (row_ids right) <? length (row_ids left))%nat && bool_decide (mode = kInner)) eqn:E.
  - apply andb_true_iff in E as [_ E%bool_decide_eq_true].
    destruct (build_and_probe_ok _ right left _ _ kr kl Hkr Hkl (joinable_wf _ Hr) (joinable_wf _ Hl) false)
      as (st & -> & Hs & Hspec); [apply Hr|].
    exists st. split; [done|]. rewrite Hs. split; [done|]. eapply join_state_spec_ext; [|done].
    intros a b. symmetry. by apply keys_of_equal.
  - destruct (build_and_probe_ok _ left right _ _ kl kr Hkl Hkr (joinable_wf _ Hl) (joinable_wf _ Hr) true)
      as (st & -> & Hs & Hspec); [apply Hl|].
    exists st. split; [done|]. rewrite Hs. eapply join_state_spec_ext; [|done].
    intros a b. symmetry. by apply keys_of_equal.
Qed.
End HashJoin.

(** C23: on tables without NULLs, whatever order the hash table iterates in and whichever
    side it is built on, the hash join returns the relational equi-join: the concatenated
    rows of every pair with equal keys, and for the outer modes each row without a partner
    once, padded with NULLs. The output schema marks the padded side nullable. *)
Theorem HashJoinOperator_correct iteration (Horder : IterationOrder iteration) left right p mode
    (Hl : joinable left) (Hr : joinable right) (Hcheck : check_join left right p mode = Ok tt)
    (Hnl : (N.of_nat (length (row_ids left)) < 2 ^ 32)%N) (Hnr : (N.of_nat (length (row_ids right)) < 2 ^ 32)%N)
    (Hmatches : Z.of_nat (length (join_rows kInner left right p)) < 2 ^ 31) :
  ∃ t rows, HashJoinOperator iteration left right p mode = Ok t ∧
    column_definitions t = BuildLeftSchema mode left ++ BuildRightSchema mode right ∧
    table_rows t = Ok rows ∧ rows ≡ₚ join_rows mode left right p.
Proof. by apply (JoinOperator_rows (λ _ _ _, True)); [apply HashJoin_fills|..]. Qed.

Definition join_example : Table :=
  mkTable [mkTableColumnDefinition "k" kInt false; mkTableColumnDefinition "s" kString false]
    [[mkValueSegment kInt [3; 7] None; mkValueSegment kString ["x"; "y"]%string None];
     [mkValueSegment kInt [3; 1] None; mkValueSegment kString ["z"; "w"]%string None]] None.

Lemma join_example_joinable : joinable join_example ∧ joinable limit_example.
Proof.
  split; split; try (intros n H; discriminate H); try apply limit_example_wf; try apply limit_example_null_free.
  - split; cbn; [lia|done|done| |by repeat constructor]. intros c Hc. rewrite !elem_of_cons in Hc.
    destruct Hc as [->|[->|Hc]]; [exists 2%nat|exists 2%nat|set_solver];
      (split; [done|repeat constructor|repeat constructor|repeat constructor|done|repeat constructor]); done.
  - intros c s i Hc Hs. unfold join_example in Hc. cbn [chunks] in Hc. rewrite !elem_of_cons in Hc.
    destruct Hc as [->|[->|Hc]]; [| |by apply elem_of_nil in Hc];
      rewrite !elem_of_cons in Hs; (destruct Hs as [->|[->|Hs]]; [| |by apply elem_of_nil in Hs]);
      by destruct i as [|[|i]].
Qed.

Lemma HashJoinOperator_correct_witness :
  ∃ t rows, HashJoinOperator (λ dt entries, reverse entries) limit_example join_example
      (mkJoinOperatorPredicate 0 0 kEquals) kFullOuter = Ok t ∧ table_rows t = Ok rows ∧
    rows ≡ₚ [[VInt 3; VInt 3; VString "x"]; [VInt 3; VInt 3; VString "z"]; [VInt 1; VInt 1; VString "w"];
             [VInt 2; VNull; VNull]; [VInt 4; VNull; VNull]; [VInt 5; VNull; VNull]; [VNull; VInt 7; VString "y"]].
Proof.
  destruct (HashJoinOperator_correct (λ dt entries, reverse entries) reverse_order limit_example join_example
    (mkJoinOperatorPredicate 0 0 kEquals) kFullOuter (proj2 join_example_joinable) (proj1 join_example_joinable))
    as (t & rows & H1 & _ & H2 & H3); [vm_compute; reflexivity|vm_compute; reflexivity|vm_compute; reflexivity
    |vm_compute; reflexivity|].
  exists t, rows. split; [exact H1|]. split; [exact H2|]. rewrite H3. vm_compute. reflexivity.
Defined.
