(* ===== verification/SortedMergeJoin.v ===== *)
(** * The sorted merge join

    [src/lib/operator/sorted_merge_join_operator.cpp].  Every chunk of the left table is
    merged with every chunk of the right table; both must be sorted on the join column.  The
    three inner loops keep [left_segment_values_first_index_with_same_value] and
    [left_segment_values_index] around the run of left values equal to the right one.  The
    two while loops over the left index run on fuel, the number of left values. *)

From S2P Require Export JoinMatches HashJoin.

Definition value_ltb (dt : DataType) (x y : ctype dt) : bool := holds kLessThan (compare dt x y).

Section Merge.
Context (dt : DataType).
Abbreviation K := (ctype dt).

(** The first while loop: skip left values smaller than [v]. *)
Fixpoint skip_smaller (fuel : nat) (lv : list K) (v : K) (first li : nat) : result (nat * nat) :=
  match fuel with
  | O => Err OutOfFuel
  | S fuel' =>
      if (li + 1 <? length lv)%nat then
        x ← vec_at lv li;
        if value_ltb dt x v then
          y ← vec_at lv (li + 1);
          skip_smaller fuel' lv v (if negb (value_eqb dt x y) then li + 1 else first)%nat (li + 1)
        else Ok (first, li)
      else Ok (first, li)
  end.

(** The second while loop: move to the last of the equal left values. *)
Fixpoint run_end (fuel : nat) (lv : list K) (li : nat) : result nat :=
  match fuel with
  | O => Err OutOfFuel
  | S fuel' =>
      if (li + 1 <? length lv)%nat then
        y ← vec_at lv (li + 1); x ← vec_at lv li;
        if value_eqb dt y x then run_end fuel' lv (li + 1) else Ok li
      else Ok li
  end.

(** The members, and [dangling_tuples_right]. *)
Abbreviation MergeState := (JoinState * list (list bool))%type.

Definition merge_match (left_chunk_id right_chunk_id right_index : nat) (st : JoinState) (left_match_index : nat) :
    result JoinState :=
  st' ← emplace_position right_chunk_id (mkRowId left_chunk_id left_match_index) right_index st;
  unmark_A (mkRowId left_chunk_id left_match_index) st'.

Definition unmark_right (r : RowId) (s : MergeState) : result MergeState :=
  let '(st, dangling_tuples_right) := s in
  dc ← unmark r dangling_tuples_right (dangling_tuples_table_B_count st);
  Ok (mkJoinState (table_A_matches_left st) (position_lists st) (dangling_tuples_table_A st)
        (dangling_tuples_table_A_count st) (dangling_tuples_table_B_offsets st) dc.2, dc.1).

(** The loop over the right values; [ri] is the index of the first of [rvs]. *)
Fixpoint merge_values (lc rc : nat) (lv : list K) (first li ri : nat) (rvs : list K) (s : MergeState) :
    result MergeState :=
  match rvs with
  | [] => Ok s
  | v :: rvs' =>
      fl ← skip_smaller (S (length lv)) lv v first li;
      let '(first, li) := fl in
      no_more ← (if bool_decide ((li + 1)%nat = length lv) then x ← vec_at lv li; Ok (value_ltb dt x v) else Ok false);
      if (no_more : bool) then Ok s else
      li ← run_end (S (length lv)) lv li;
      x ← vec_at lv li;
      s' ← (if value_eqb dt x v then
              st' ← foldR (merge_match lc rc ri) s.1 (seq first (li + 1 - first));
              unmark_right (mkRowId rc ri) (st', s.2)
            else Ok s);
      merge_values lc rc lv first li (ri + 1) rvs' s'
  end.

Definition merge_chunks (lc : nat) (lv : list K) (right : Table) (column_id : nat) (s : MergeState) (rc : nat) :
    result MergeState :=
  right_input_chunk ← GetChunk right rc;
  right_segment_values ← typed_values dt right_input_chunk column_id;
  merge_values lc rc lv 0 0 0 right_segment_values s.

Definition merge_left_chunk (left right : Table) (p : JoinOperatorPredicate) (s : MergeState) (lc : nat) :
    result MergeState :=
  left_input_chunk ← GetChunk left lc;
  left_segment_values ← typed_values dt left_input_chunk (column_id_left p);
  let st := s.1 in
  foldR (merge_chunks lc left_segment_values right (column_id_right p))
    (mkJoinState (table_A_matches_left st) (position_lists st)
       (dangling_tuples_table_A st ++ [replicate (chunk_Size left_input_chunk) true])
       (dangling_tuples_table_A_count st) (dangling_tuples_table_B_offsets st) (dangling_tuples_table_B_count st), s.2)
    (seq 0 (ChunkCount right)).

Definition set_offsets (flags : list bool) : list nat :=
  filter (λ i, bool_decide (flags !! i = Some true)) (seq 0 (length flags)).

Definition merge_tables (left right : Table) (p : JoinOperatorPredicate) : result JoinState :=
  rows ← (RowCount false left).2;
  dangling_tuples_right ← for_range (ChunkCount right) (λ i,
    c ← GetChunk right i; Ok (replicate (chunk_Size c) true));
  s ← foldR (merge_left_chunk left right p)
    (mkJoinState true (replicate (ChunkCount right) []) [] rows [] (sum_list (length <$> dangling_tuples_right)),
     dangling_tuples_right) (seq 0 (ChunkCount left));
  let '(st, dangling_tuples_right) := s in
  offsets ← for_range (ChunkCount right) (λ i, flags ← vec_get dangling_tuples_right i; Ok (set_offsets flags));
  Ok (mkJoinState (table_A_matches_left st) (position_lists st) (dangling_tuples_table_A st)
        (dangling_tuples_table_A_count st) offsets (dangling_tuples_table_B_count st)).
End Merge.

Definition SortedMergeJoin_FillPositionLists (left right : Table) (p : JoinOperatorPredicate) (mode : JoinMode) :
    result JoinState :=
  dt ← ColumnDataType left (column_id_left p);
  ResolveDataType dt (λ dt, merge_tables dt left right p).

Definition SortedMergeJoinOperator : Table → Table → JoinOperatorPredicate → JoinMode → result Table :=
  JoinOperator SortedMergeJoin_FillPositionLists.

(** ** The run of equal left values *)
Section Runs.
Context (dt : DataType) (lv : list (ctype dt)) (P : ctype dt → Prop).
Abbreviation lt x y := (value_ltb dt x y = true).

Record total_keys : Prop := {
  tk_comparable x y : P x → P y → is_Some (compare dt x y);
  tk_negtrans x y z : P x → P y → P z → value_ltb dt x y = false → value_ltb dt y z = false → value_ltb dt x z = false }.
Hypothesis HP : total_keys.
Hypothesis Hlv : ∀ i x, lv !! i = Some x → P x.
Hypothesis Hsorted : ∀ i j x y, (i ≤ j)%nat → lv !! i = Some x → lv !! j = Some y → value_ltb dt y x = false.

Lemma ltb_asym x y : value_ltb dt x y = true → value_ltb dt y x = false.
Proof. unfold value_ltb. rewrite (compare_antisym dt x y). by destruct (compare dt x y) as [[]|]. Qed.

Lemma eqb_iff x y : P x → P y → value_eqb dt x y = true ↔ value_ltb dt x y = false ∧ value_ltb dt y x = false.
Proof.
  intros Hx Hy. destruct (tk_comparable HP x y Hx Hy) as [c Hc].
  unfold value_eqb, value_ltb. rewrite (compare_antisym dt x y), Hc. destruct c; cbn; intuition done.
Qed.

Lemma lt_le_trans x y z : P x → P y → P z → lt x y → value_ltb dt z y = false → lt x z.
Proof.
  intros Hx Hy Hz Hxy Hzy. destruct (value_ltb dt x z) eqn:E; [done|].
  by rewrite (tk_negtrans HP x z y Hx Hz Hy E Hzy) in Hxy.
Qed.

Lemma le_lt_trans x y z : P x → P y → P z → value_ltb dt y x = false → lt y z → lt x z.
Proof.
  intros Hx Hy Hz Hxy Hyz. destruct (value_ltb dt x z) eqn:E; [done|].
  by rewrite (tk_negtrans HP y x z Hy Hx Hz Hxy E) in Hyz.
Qed.

(** [first] starts the run that [li] belongs to, and everything before it is below [v]. *)
Record in_run (v : ctype dt) (first li : nat) : Prop := {
  ir_bounds : (first ≤ li < length lv)%nat;
  ir_equal i x y : (first ≤ i ≤ li)%nat → lv !! i = Some x → lv !! li = Some y → value_eqb dt x y = true;
  ir_below i x : (i < first)%nat → lv !! i = Some x → lt x v }.

Lemma eqb_refl x : P x → value_eqb dt x x = true.
Proof. intros Hx. apply eqb_iff; [done|done|]. destruct (value_ltb dt x x) eqn:E; [|done]. pose proof (ltb_asym x x E). congruence. Qed.

Lemma eqb_trans x y z : P x → P y → P z → value_eqb dt x y = true → value_eqb dt y z = true → value_eqb dt x z = true.
Proof.
  intros Hx Hy Hz [H1 H2]%eqb_iff [H3 H4]%eqb_iff; try done. apply eqb_iff; [done|done|].
  split; [by apply (tk_negtrans HP x y z)|by apply (tk_negtrans HP z y x)].
Qed.

Lemma lookup_vec_at i x : lv !! i = Some x → vec_at lv i = Ok x.
Proof. intros H. unfold vec_at. by rewrite H. Qed.

Ltac keys := try (assumption || (eapply Hlv; eassumption)).

Lemma skip_smaller_ok v fuel : P v → ∀ first li,
  in_run v first li → (length lv - li < fuel)%nat →
  ∃ first' li' x, skip_smaller dt fuel lv v first li = Ok (first', li') ∧ in_run v first' li' ∧ lv !! li' = Some x ∧
    (value_ltb dt x v = true → (li' + 1)%nat = length lv).
Proof.
  intros Hv. induction fuel as [|fuel IH]; intros first li Hrun Hfuel; [lia|]. cbn [skip_smaller].
  destruct Hrun as [Hb He Hbelow]. destruct (lookup_lt_is_Some_2 lv li) as [x Hx]; [lia|].
  destruct (Nat.ltb_spec (li + 1) (length lv)) as [Hn|Hn].
  2:{ exists first, li, x. split; [done|]. split; [by split|]. split; [done|]. intros. lia. }
  rewrite (lookup_vec_at _ _ Hx). cbn [rbind]. destruct (value_ltb dt x v) eqn:Elt.
  2:{ exists first, li, x. split; [done|]. split; [by split|]. by rewrite Elt. }
  destruct (lookup_lt_is_Some_2 lv (li + 1)) as [y Hy]; [lia|]. rewrite (lookup_vec_at _ _ Hy). cbn [rbind].
  destruct (value_eqb dt x y) eqn:Eeq; cbn [negb]; (apply IH; [|lia]).
  - split; [lia| |done]. intros i z w Hi Hz Hw. assert (w = y) as -> by congruence.
    destruct (decide (i = li + 1)%nat) as [->|]; [assert (z = y) as -> by congruence; apply eqb_refl; keys|].
    apply (eqb_trans z x y); keys. apply (He i z x); [lia|done|done].
  - split; [lia| |].
    + intros i z w Hi Hz Hw. assert (i = li + 1)%nat as -> by lia. assert (z = w) as -> by congruence.
      apply eqb_refl; keys.
    + intros i z Hi Hz. apply (le_lt_trans z x v); keys. apply (Hsorted i li); [lia|done|done].
Qed.

Lemma run_end_ok v fuel : P v → ∀ first li x,
  in_run v first li → lv !! li = Some x → (length lv - li < fuel)%nat →
  ∃ li' x', run_end dt fuel lv li = Ok li' ∧ in_run v first li' ∧ (li ≤ li')%nat ∧ lv !! li' = Some x' ∧
    value_eqb dt x x' = true ∧ ∀ i y, (li' < i)%nat → lv !! i = Some y → lt x' y.
Proof.
  intros Hv. induction fuel as [|fuel IH]; intros first li x Hrun Hx Hfuel; [lia|]. cbn [run_end].
  pose proof (ir_bounds _ _ _ Hrun) as Hb.
  destruct (Nat.ltb_spec (li + 1) (length lv)) as [Hn|Hn].
  2:{ exists li, x. split; [done|]. split; [done|]. split; [done|]. split; [done|]. split; [apply eqb_refl; keys|].
      intros i y Hi Hy. apply lookup_lt_Some in Hy. lia. }
  destruct (lookup_lt_is_Some_2 lv (li + 1)) as [y Hy]; [lia|].
  rewrite (lookup_vec_at _ _ Hy). cbn [rbind]. rewrite (lookup_vec_at _ _ Hx). cbn [rbind].
  destruct (value_eqb dt y x) eqn:Eeq.
  - destruct (IH first (li + 1)%nat y) as (l' & x' & -> & Hrun' & Hle & Hx' & Hxx & Hgt); [|done|lia|].
    + destruct Hrun as [_ He Hbelow]. split; [lia| |done]. intros i z w Hi Hz Hw. assert (w = y) as -> by congruence.
      destruct (decide (i = li + 1)%nat) as [->|]; [assert (z = y) as -> by congruence; apply eqb_refl; keys|].
      apply (eqb_trans z x y); keys; [apply (He i z x); [lia|done|done]|]. by rewrite value_eqb_sym.
    + exists l', x'. split; [done|]. split; [done|]. split; [lia|]. split; [done|]. split; [|done].
      apply (eqb_trans x y x'); keys. by rewrite value_eqb_sym.
  - exists li, x. split; [done|]. split; [done|]. split; [done|]. split; [done|]. split; [apply eqb_refl; keys|].
    intros i z Hi Hz. apply (lt_le_trans x y z); keys.
    + destruct (value_ltb dt x y) eqn:E; [done|].
      assert (value_eqb dt y x = true) by (apply eqb_iff; keys; split; [|done]; apply (Hsorted li (li + 1)); [lia|done|done]). congruence.
    + apply (Hsorted (li + 1) i); [lia|done|done].
Qed.
End Runs.

(** ** Bookkeeping while the flags of table A grow chunk by chunk *)
Lemma dangling_flags_equiv t S S' flags count :
  (∀ r, r ∈ S ↔ r ∈ S') → dangling_flags t S flags count → dangling_flags t S' flags count.
Proof.
  intros HS [Hf Hc]. assert (∀ r, dangling S r = dangling S' r) as Hext.
  { intros r. apply bool_decide_ext. by rewrite HS. }
  split.
  - intros k c Hk. rewrite (Hf _ _ Hk). f_equal. apply list_fmap_ext. intros. apply Hext.
  - rewrite Hc. f_equal. by apply filter_ext_bool.
Qed.

Lemma unmark_prefix r flags rest count f' c' :
  (chunk_id r < length flags)%nat → unmark r (flags ++ rest) count = Ok (f', c') →
  ∃ f, unmark r flags count = Ok (f, c') ∧ f' = f ++ rest ∧ length f = length flags.
Proof.
  intros Hlt H. unfold unmark, vec_get in *. rewrite lookup_app_l in H by done.
  apply bind_ok in H as (fl & -> & H). apply bind_ok in H as (b & Hb & H). cbn [rbind]. rewrite Hb. cbn [rbind].
  destruct b; injection H as <- <-; [|by exists flags].
  eexists. split; [done|]. split; [by rewrite insert_app_l|]. by rewrite length_insert.
Qed.

Section Tables.
Context (dt : DataType) (ta tb : Table) (ja jb : nat) (ka kb : RowId → ctype dt).
Hypothesis Ha : keys_of ta dt ja ka.
Hypothesis Hb : keys_of tb dt jb kb.
Hypothesis Hwa : wf_table ta.
Hypothesis Hwb : wf_table tb.
Context (P : ctype dt → Prop).
Hypothesis HP : total_keys dt P.
Hypothesis Hka : ∀ r, r ∈ row_ids ta → P (ka r).
Hypothesis Hkb : ∀ r, r ∈ row_ids tb → P (kb r).
Hypothesis Hsa : ∀ k i j, mkRowId k i ∈ row_ids ta → mkRowId k j ∈ row_ids ta → (i ≤ j)%nat →
  value_ltb dt (ka (mkRowId k j)) (ka (mkRowId k i)) = false.
Hypothesis Hsb : ∀ k i j, mkRowId k i ∈ row_ids tb → mkRowId k j ∈ row_ids tb → (i ≤ j)%nat →
  value_ltb dt (kb (mkRowId k j)) (kb (mkRowId k i)) = false.

Abbreviation eqk := (λ a b, value_eqb dt (ka a) (kb b)).
Abbreviation matches_in rows b := ((λ a, (a, b)) <$> filter (λ a, eqk a b) rows).

(** [rest]: the flags of the left chunks not yet reached. *)
Record recorded_A (rest : list (list bool)) (n : nat) (M : list (RowId * RowId)) (st : JoinState) : Prop := {
  ra_side : table_A_matches_left st = true;
  ra_pairs : pairs st ≡ₚ M;
  ra_length : length (position_lists st) = length (chunks tb);
  ra_reached : length (dangling_tuples_table_A st) = n;
  ra_dangling : dangling_flags ta M.*1 (dangling_tuples_table_A st ++ rest) (dangling_tuples_table_A_count st) }.

Record merged (rest : list (list bool)) (n : nat) (M : list (RowId * RowId)) (s : JoinState * list (list bool)) : Prop := {
  mg_A : recorded_A rest n M s.1;
  mg_B : dangling_flags tb M.*2 s.2 (dangling_tuples_table_B_count s.1) }.

Lemma merge_match_ok rest n lc rc ri i M st :
  recorded_A rest n M st → (lc < n)%nat → (rc < length (chunks tb))%nat → mkRowId lc i ∈ row_ids ta →
  ∃ st', merge_match lc rc ri st i = Ok st' ∧ recorded_A rest n (M ++ [(mkRowId lc i, mkRowId rc ri)]) st' ∧
    dangling_tuples_table_B_count st' = dangling_tuples_table_B_count st.
Proof.
  intros [Hs Hp Hl Hn Hd] Hlc Hrc Hr. unfold merge_match.
  destruct (emplace_position_ok rc (mkRowId lc i) ri st M) as (pls & -> & Hp' & Hl'); [lia|done|]. cbn [rbind].
  unfold unmark_A. cbn [dangling_tuples_table_A dangling_tuples_table_A_count].
  destruct (unmark_ok _ _ _ _ _ Hr Hd) as (flags & count & Hu & Hd').
  apply unmark_prefix in Hu as (f & -> & -> & Hlf); [|cbn; lia]. cbn [rbind fst snd].
  eexists. split; [done|]. split; [|done]. split; cbn; [done|done|lia|lia|]. by rewrite fmap_app.
Qed.

Lemma merge_matches_ok rest n lc rc ri js : ∀ M st,
  recorded_A rest n M st → (lc < n)%nat → (rc < length (chunks tb))%nat → (∀ i, i ∈ js → mkRowId lc i ∈ row_ids ta) →
  ∃ st', foldR (merge_match lc rc ri) st js = Ok st' ∧
    recorded_A rest n (M ++ ((λ i, (mkRowId lc i, mkRowId rc ri)) <$> js)) st' ∧
    dangling_tuples_table_B_count st' = dangling_tuples_table_B_count st.
Proof.
  induction js as [|i js IH]; intros M st Hrec Hlc Hrc Hin; cbn [foldR].
  - exists st. cbn. by rewrite app_nil_r.
  - destruct (merge_match_ok rest n lc rc ri i M st Hrec Hlc Hrc) as (st1 & -> & Hrec1 & Hc1); [apply Hin; by left|].
    cbn [rbind]. destruct (IH _ _ Hrec1 Hlc Hrc) as (st2 & -> & Hrec2 & Hc2); [intros; apply Hin; by right|].
    exists st2. rewrite Hc2. split; [done|]. by rewrite <- app_assoc in Hrec2.
Qed.

(** Recording a non-empty list of matches of one right row. *)
Lemma merge_row_ok rest n lc rc ri js M s :
  merged rest n M s → (lc < n)%nat → mkRowId rc ri ∈ row_ids tb → (∀ i, i ∈ js → mkRowId lc i ∈ row_ids ta) → js ≠ [] →
  ∃ s', (st' ← foldR (merge_match lc rc ri) s.1 js; unmark_right (mkRowId rc ri) (st', s.2)) = Ok s' ∧
    merged rest n (M ++ ((λ i, (mkRowId lc i, mkRowId rc ri)) <$> js)) s'.
Proof.
  intros [HA HB] Hlc Hri His Hne. pose proof Hri as (c & Hc & _)%row_ids_elem.
  destruct (merge_matches_ok rest n lc rc ri js M s.1 HA Hlc) as (st & -> & Hrec & Hcount).
  { by eapply lookup_lt_Some. } { done. }
  cbn [rbind]. unfold unmark_right. rewrite Hcount.
  destruct (unmark_ok _ _ _ _ _ Hri HB) as (flags & count & -> & Hd). cbn [rbind fst snd].
  eexists. split; [done|]. split; cbn.
  - destruct Hrec. by split.
  - eapply dangling_flags_equiv; [|exact Hd]. intros r. rewrite fmap_app, !elem_of_app, list_elem_of_singleton.
    rewrite <- list_fmap_compose. split; (intros [?|Hr]; [by left|right]).
    + subst r. destruct js as [|i js]; [done|]. left.
    + by apply list_elem_of_fmap in Hr as (i & -> & _).
Qed.

Section Chunk.
Context (rest : list (list bool)) (lc : nat) (c : Chunk) (n : nat).
Hypothesis Hc : chunks ta !! lc = Some c.
Hypothesis Hne : (0 < chunk_Size c)%nat.
Hypothesis Hreach : (lc < n)%nat.

Abbreviation lv := ((λ o, ka (mkRowId lc o)) <$> seq 0 (chunk_Size c)).
Abbreviation rows := (mkRowId lc <$> seq 0 (chunk_Size c)).

Lemma row_in i : (i < chunk_Size c)%nat → mkRowId lc i ∈ row_ids ta.
Proof. intros Hi. apply row_ids_elem. by exists c. Qed.

Lemma lv_lookup i x : lv !! i = Some x ↔ (i < chunk_Size c)%nat ∧ x = ka (mkRowId lc i).
Proof.
  rewrite list_lookup_fmap. destruct (decide (i < chunk_Size c)%nat).
  - rewrite lookup_seq_lt by done. cbn. split; [by intros [= <-]|by intros [_ ->]].
  - rewrite lookup_seq_ge by lia. cbn. split; [done|by intros [? _]].
Qed.

Lemma lv_keys i x : lv !! i = Some x → P x.
Proof. intros [Hi ->]%lv_lookup. by apply Hka, row_in. Qed.

Lemma lv_sorted i j x y : (i ≤ j)%nat → lv !! i = Some x → lv !! j = Some y → value_ltb dt y x = false.
Proof. intros Hij [Hi ->]%lv_lookup [Hj ->]%lv_lookup. apply Hsa; [by apply row_in..|done]. Qed.

Lemma lv_length : length lv = chunk_Size c.
Proof. by rewrite length_fmap, length_seq. Qed.

(** The matches of a right value, by the position of the run. *)
Lemma run_matches b first li :
  (first ≤ li < chunk_Size c)%nat →
  (∀ i, (i < chunk_Size c)%nat → eqk (mkRowId lc i) b = true ↔ (first ≤ i ≤ li)%nat) →
  filter (λ a, eqk a b) rows = mkRowId lc <$> seq first (li + 1 - first).
Proof.
  intros Hb' Hiff. assert (∀ s m, (∀ i, (s ≤ i < s + m)%nat → eqk (mkRowId lc i) b = false) →
    filter (λ a, eqk a b) (mkRowId lc <$> seq s m) = []) as Hnone.
  { intros s m. revert s. induction m as [|m IH]; intros s Hf; [done|]. cbn [seq fmap list_fmap].
    rewrite filter_cons_False by (rewrite Hf by lia; tauto). apply IH. intros. apply Hf. lia. }
  assert (∀ s m, (∀ i, (s ≤ i < s + m)%nat → eqk (mkRowId lc i) b = true) →
    filter (λ a, eqk a b) (mkRowId lc <$> seq s m) = mkRowId lc <$> seq s m) as Hall.
  { intros s m. revert s. induction m as [|m IH]; intros s Hf; [done|]. cbn [seq fmap list_fmap].
    rewrite filter_cons_True by (by rewrite Hf by lia). f_equal. apply IH. intros. apply Hf. lia. }
  replace (chunk_Size c) with (first + ((li + 1 - first) + (chunk_Size c - (li + 1))))%nat by lia.
  rewrite !seq_app, !fmap_app, !filter_app. rewrite Hnone, Hall, Hnone; [by rewrite app_nil_r|..]; intros i Hi.
  - apply not_true_iff_false. rewrite Hiff; lia.
  - apply Hiff; lia.
  - apply not_true_iff_false. rewrite Hiff; lia.
Qed.

Lemma no_row_matches b : (∀ i, (i < chunk_Size c)%nat → eqk (mkRowId lc i) b = false) → filter (λ a, eqk a b) rows = [].
Proof.
  intros H. destruct (filter (λ a, eqk a b) rows) as [|a l] eqn:E; [done|].
  assert (a ∈ filter (λ a, eqk a b) rows) as Hin by (rewrite E; by left).
  apply list_elem_of_filter in Hin as [Heq (i & -> & Hi%elem_of_seq)%list_elem_of_fmap].
  rewrite H in Heq by lia. done.
Qed.

(** What the loops find for one right value. *)
Lemma merge_step b first li :
  b ∈ row_ids tb → in_run dt lv (kb b) first li →
  ∃ first' li', skip_smaller dt (S (length lv)) lv (kb b) first li = Ok (first', li') ∧
    in_run dt lv (kb b) first' li' ∧
    ((li' + 1)%nat = length lv ∧ value_ltb dt (ka (mkRowId lc li')) (kb b) = true ∨
     value_ltb dt (ka (mkRowId lc li')) (kb b) = false ∧
     ∃ li'', run_end dt (S (length lv)) lv li' = Ok li'' ∧ in_run dt lv (kb b) first' li'' ∧
       filter (λ a, eqk a b) rows =
         if eqk (mkRowId lc li'') b then mkRowId lc <$> seq first' (li'' + 1 - first') else []).
Proof.
  intros Hbin Hrun. pose proof (Hkb _ Hbin) as HPb.
  destruct (skip_smaller_ok dt lv P HP lv_keys lv_sorted (kb b) (S (length lv)) HPb first li Hrun)
    as (f & l & x & Hskip & Hrun' & Hx & Hlast); [lia|].
  exists f, l. split; [done|]. split; [done|]. pose proof Hx as [Hl ->]%lv_lookup.
  destruct (value_ltb dt (ka (mkRowId lc l)) (kb b)) eqn:Elt; [left; split; [by apply Hlast|done]|right].
  split; [done|].
  destruct (run_end_ok dt lv P HP lv_keys lv_sorted (kb b) (S (length lv)) HPb f l _ Hrun' Hx)
    as (l' & x' & Hend & Hrun'' & Hle & Hx' & Heq & Hgt); [lia|].
  exists l'. split; [done|]. split; [done|]. pose proof Hx' as [Hl' ->]%lv_lookup.
  assert (∀ i, (i < chunk_Size c)%nat → P (ka (mkRowId lc i))) as HPa by (intros; by apply Hka, row_in).
  assert (∀ i, (i < chunk_Size c)%nat → lv !! i = Some (ka (mkRowId lc i))) as Hlook by (intros; by apply lv_lookup).
  assert (value_ltb dt (ka (mkRowId lc l')) (kb b) = false) as Enlt.
  { apply (tk_negtrans _ _ HP _ (ka (mkRowId lc l))); auto. by apply (eqb_iff dt P HP) in Heq as [_ ?]; auto. }
  destruct Hrun'' as [Hbd He Hbelow]. rewrite lv_length in Hbd.
  assert (∀ i, (i < f)%nat → eqk (mkRowId lc i) b = false) as Hlow.
  { intros i Hi. apply not_true_iff_false. rewrite (eqb_iff dt P HP) by (auto with lia).
    rewrite (Hbelow i (ka (mkRowId lc i))) by (auto with lia). by intros [? _]. }
  assert (∀ i, (l' < i < chunk_Size c)%nat → eqk (mkRowId lc i) b = false) as Hhigh.
  { intros i Hi. apply not_true_iff_false. rewrite (eqb_iff dt P HP) by (auto with lia). intros [_ H].
    assert (value_ltb dt (kb b) (ka (mkRowId lc i)) = true); [|congruence].
    apply (le_lt_trans dt P HP _ (ka (mkRowId lc l'))); auto with lia. apply (Hgt i); auto with lia. }
  destruct (eqk (mkRowId lc l') b) eqn:Eeq.
  - apply run_matches; [lia|]. intros i Hi. split.
    + intros H. destruct (decide (i < f)%nat); [by rewrite Hlow in H|]. destruct (decide (l' < i)%nat); [|lia].
      by rewrite Hhigh in H by lia.
    + intros Hi'. apply (eqb_trans dt P HP _ (ka (mkRowId lc l'))); auto. apply (He i); auto.
  - apply no_row_matches. intros i Hi. destruct (decide (i < f)%nat); [by apply Hlow|].
    destruct (decide (l' < i)%nat); [by apply Hhigh|]. apply not_true_iff_false. intros H.
    assert (value_eqb dt (ka (mkRowId lc l')) (kb b) = true); [|congruence].
    apply (eqb_trans dt P HP _ (ka (mkRowId lc i))); auto. rewrite value_eqb_sym. apply (He i); auto with lia.
Qed.

Lemma in_run_later v w first li :
  P v → P w → value_ltb dt w v = false → in_run dt lv v first li → in_run dt lv w first li.
Proof.
  intros Hv Hw Hvw [H1 H2 H3]. split; [done|done|]. intros i x Hi Hx.
  apply (lt_le_trans dt P HP x v w); [by eapply lv_keys|done|done|by eapply H3|done].
Qed.

(** Once the last left value is below a right value, the rest of the chunk has no match. *)
Lemma exhausted rc ri m l :
  (∀ j, (ri ≤ j < ri + m)%nat → mkRowId rc j ∈ row_ids tb) → (0 < m)%nat → (l + 1)%nat = chunk_Size c →
  value_ltb dt (ka (mkRowId lc l)) (kb (mkRowId rc ri)) = true →
  concat ((λ j, matches_in rows (mkRowId rc j)) <$> seq ri m) = [].
Proof.
  intros Hin Hm Hend Hlt.
  assert (∀ j, (ri ≤ j < ri + m)%nat → filter (λ a, eqk a (mkRowId rc j)) rows = []) as Hnone.
  { intros j Hj. apply no_row_matches. intros i Hi. apply not_true_iff_false.
    rewrite (eqb_iff dt P HP) by (by apply Hka, row_in || by apply Hkb, Hin). intros [H _].
    assert (value_ltb dt (ka (mkRowId lc i)) (kb (mkRowId rc j)) = true); [|congruence].
    apply (lt_le_trans dt P HP _ (kb (mkRowId rc ri))); [by apply Hka, row_in|apply Hkb, Hin; lia|by apply Hkb, Hin| |
      apply Hsb; [apply Hin; lia|by apply Hin|lia]].
    apply (le_lt_trans dt P HP _ (ka (mkRowId lc l))); [by apply Hka, row_in|apply Hka, row_in; lia|apply Hkb, Hin; lia| |done].
    apply Hsa; [by apply row_in|apply row_in; lia|lia]. }
  clear -Hnone. revert ri Hnone. induction m as [|m IH]; intros ri Hnone; [done|]. cbn [seq fmap list_fmap concat].
  rewrite Hnone by lia. apply IH. intros. apply Hnone. lia.
Qed.

Lemma merge_values_ok rc m : ∀ ri first li M s,
  (∀ j, (ri ≤ j < ri + m)%nat → mkRowId rc j ∈ row_ids tb) →
  (0 < m → in_run dt lv (kb (mkRowId rc ri)) first li)%nat → merged rest n M s →
  ∃ s', merge_values dt lc rc lv first li ri ((λ j, kb (mkRowId rc j)) <$> seq ri m) s = Ok s' ∧
    merged rest n (M ++ concat ((λ j, matches_in rows (mkRowId rc j)) <$> seq ri m)) s'.
Proof.
  induction m as [|m IH]; intros ri first li M s Hin Hrun Hm; cbn [seq fmap list_fmap merge_values concat].
  { exists s. by rewrite app_nil_r. }
  assert (mkRowId rc ri ∈ row_ids tb) as Hri by (apply Hin; lia). specialize (Hrun ltac:(lia)).
  destruct (merge_step _ _ _ Hri Hrun) as (f & l & -> & Hrun1 & Hcase). cbn [rbind].
  pose proof (ir_bounds _ _ _ _ _ Hrun1) as Hbd. rewrite lv_length in Hbd.
  assert (vec_at lv l = Ok (ka (mkRowId lc l))) as Hat by (apply lookup_vec_at, lv_lookup; split; [lia|done]).
  destruct Hcase as [[Hend Hlt]|(Hge & l' & Hre & Hrun2 & Hfilter)].
  - rewrite bool_decide_true by done. rewrite Hat. cbn [rbind]. rewrite Hlt. exists s. split; [done|].
    rewrite lv_length in Hend. pose proof (exhausted rc ri (S m) l Hin ltac:(lia) Hend Hlt) as E. cbn [seq fmap list_fmap concat] in E. rewrite E.
    by rewrite app_nil_r.
  - assert ((if bool_decide ((l + 1)%nat = length lv) then x ← vec_at lv l; Ok (value_ltb dt x (kb (mkRowId rc ri))) else Ok false)
      = Ok false) as ->.
    { case_bool_decide; [|done]. rewrite Hat. cbn [rbind]. by rewrite Hge. }
    cbn [rbind]. rewrite Hre. cbn [rbind].
    pose proof (ir_bounds _ _ _ _ _ Hrun2) as Hbd2. rewrite lv_length in Hbd2.
    rewrite (lookup_vec_at dt lv l' (ka (mkRowId lc l'))) by (apply lv_lookup; split; [lia|done]). cbn [rbind].
    assert (∃ s1, (if value_eqb dt (ka (mkRowId lc l')) (kb (mkRowId rc ri))
        then st' ← foldR (merge_match lc rc ri) s.1 (seq f (l' + 1 - f)); unmark_right (mkRowId rc ri) (st', s.2)
        else Ok s) = Ok s1 ∧ merged rest n (M ++ matches_in rows (mkRowId rc ri)) s1) as (s1 & -> & Hm1).
    { rewrite Hfilter. destruct (value_eqb dt (ka (mkRowId lc l')) (kb (mkRowId rc ri))).
      - rewrite <- list_fmap_compose. apply merge_row_ok; [done|done|done| |].
        + intros i Hi%elem_of_seq. apply row_in. lia.
        + replace (l' + 1 - f)%nat with (S (l' - f)) by lia. done.
      - exists s. cbn. by rewrite app_nil_r. }
    cbn [rbind]. replace (ri + 1)%nat with (S ri) by lia.
    edestruct (IH (S ri) f l') as (s2 & Hs2 & Hm2); [| |exact Hm1|].
    + intros j Hj. apply Hin. lia.
    + intros H0. apply (in_run_later (kb (mkRowId rc ri))); [by apply Hkb|apply Hkb, Hin; lia| |done].
      apply Hsb; [done|apply Hin; lia|lia].
    + rewrite Hs2. exists s2. split; [done|]. by rewrite <- app_assoc in Hm2.
Qed.

Lemma matches_in_all bs :
  filter (λ m, eqk m.1 m.2) (all_pairs rows bs) = concat ((λ b, matches_in rows b) <$> bs).
Proof.
  unfold all_pairs. induction bs as [|b bs IH]; [done|]. rewrite !fmap_cons. cbn [concat]. rewrite filter_app, IH. f_equal.
  clear IH. generalize rows. intros l. induction l as [|r l IHl]; [done|]. rewrite fmap_cons. destruct (eqk r b) eqn:E.
  - rewrite !filter_cons_True by (cbn [fst snd]; by rewrite E). rewrite fmap_cons. by rewrite IHl.
  - rewrite !filter_cons_False by (cbn [fst snd]; rewrite E; tauto). done.
Qed.

Lemma merge_chunks_ok M s rc cr :
  chunks tb !! rc = Some cr → merged rest n M s →
  ∃ s', merge_chunks dt lc lv tb jb s rc = Ok s' ∧
    merged rest n (M ++ filter (λ m, eqk m.1 m.2) (all_pairs rows (mkRowId rc <$> seq 0 (chunk_Size cr)))) s'.
Proof.
  intros Hcr Hm. unfold merge_chunks. rewrite (GetChunk_ok _ _ _ Hcr). cbn [rbind].
  rewrite (keys_values _ _ _ _ Hb _ _ Hcr). cbn [rbind].
  rewrite matches_in_all, <- list_fmap_compose. apply merge_values_ok; [| |done].
  - intros j Hj. apply row_ids_elem. exists cr. split; [done|]. cbn. lia.
  - intros H0. split; [rewrite lv_length; lia| |intros; lia]. intros i x y Hi Hx Hy.
    assert (i = 0%nat) as -> by lia. assert (x = y) as -> by congruence. apply (eqb_refl dt P HP). by eapply lv_keys.
Qed.

Lemma all_pairs_app_r {X Y} (xs : list X) (ys zs : list Y) : all_pairs xs (ys ++ zs) = all_pairs xs ys ++ all_pairs xs zs.
Proof. unfold all_pairs. by rewrite fmap_app, concat_app. Qed.

Lemma merge_right_ok cs : ∀ k M s,
  (∀ i c', cs !! i = Some c' → chunks tb !! (k + i)%nat = Some c') → merged rest n M s →
  ∃ s', foldR (merge_chunks dt lc lv tb jb) s (seq k (length cs)) = Ok s' ∧
    merged rest n (M ++ filter (λ m, eqk m.1 m.2) (all_pairs rows (row_ids_from k cs))) s'.
Proof.
  induction cs as [|cr cs IH]; intros k M s Hcs Hm; cbn [length seq foldR row_ids_from].
  - exists s. cbn. by rewrite app_nil_r.
  - pose proof (Hcs 0%nat cr eq_refl) as Hcr. rewrite Nat.add_0_r in Hcr.
    destruct (merge_chunks_ok M s k cr Hcr Hm) as (s1 & -> & Hm1). cbn [rbind].
    edestruct (IH (S k)) as (s2 & Hs2 & Hm2); [|exact Hm1|].
    { intros i c' Hi. replace (S k + i)%nat with (k + S i)%nat by lia. by apply Hcs. }
    rewrite Hs2. exists s2. split; [done|]. by rewrite all_pairs_app_r, filter_app, app_assoc.
Qed.
End Chunk.

Lemma all_pairs_nil_l {X Y} (ys : list Y) : all_pairs (@nil X) ys = [].
Proof. unfold all_pairs. by induction ys. Qed.

Lemma all_pairs_app_l {X Y} (xs xs' : list X) (ys : list Y) : all_pairs (xs ++ xs') ys ≡ₚ all_pairs xs ys ++ all_pairs xs' ys.
Proof.
  induction xs as [|x xs IH]; cbn [app].
  - by rewrite all_pairs_nil_l.
  - by rewrite !all_pairs_cons, IH, app_assoc.
Qed.

Lemma merged_proper rest n M M' s : M ≡ₚ M' → merged rest n M s → merged rest n M' s.
Proof.
  intros HM [[H1 H2 H3 H4 H5] HB]. split; [split; try done; [by rewrite <- HM|]|];
    (eapply dangling_flags_equiv; [|eassumption]; intros r; by rewrite HM).
Qed.

Hypothesis Hnonempty : ∀ c, c ∈ chunks ta → (0 < chunk_Size c)%nat.

Abbreviation fresh cs := ((λ c, replicate (chunk_Size c) true) <$> cs).

Lemma merge_left_ok mode cs : ∀ k M s,
  (∀ i c', cs !! i = Some c' → chunks ta !! (k + i)%nat = Some c') → merged (fresh cs) k M s →
  ∃ s', foldR (merge_left_chunk dt ta tb (mkJoinOperatorPredicate ja jb mode)) s (seq k (length cs)) = Ok s' ∧
    merged [] (k + length cs) (M ++ filter (λ m, eqk m.1 m.2) (all_pairs (row_ids_from k cs) (row_ids tb))) s'.
Proof.
  induction cs as [|c cs IH]; intros k M s Hcs Hm; cbn [length seq foldR row_ids_from].
  - exists s. split; [done|]. rewrite all_pairs_nil_l.
    cbn. by rewrite app_nil_r, Nat.add_0_r.
  - pose proof (Hcs 0%nat c eq_refl) as Hc. rewrite Nat.add_0_r in Hc. unfold merge_left_chunk at 1.
    rewrite (GetChunk_ok _ _ _ Hc). cbn [rbind column_id_left column_id_right].
    rewrite (keys_values _ _ _ _ Ha _ _ Hc). cbn [rbind]. unfold ChunkCount. rewrite u32_id by apply Hwb.
    match goal with |- context [foldR _ ?s0 _] => assert (merged (fresh cs) (S k) M s0) as Hm0 end.
    { destruct Hm as [[H1 H2 H3 H4 H5] HB]. split; [split|]; cbn; try done.
      - rewrite length_app. cbn. lia.
      - by rewrite <- app_assoc. }
    assert (0 < chunk_Size c)%nat as Hc0 by (apply Hnonempty; by eapply list_elem_of_lookup_2).
    destruct (merge_right_ok (fresh cs) k c (S k) Hc Hc0 (Nat.lt_succ_diag_r k) (chunks tb) 0 _ _ (λ i c' Hi, Hi) Hm0)
      as (s1 & Hs1 & Hm1).
    rewrite Hs1. cbn [rbind]. fold (row_ids tb) in Hm1.
    edestruct (IH (S k)) as (s2 & Hs2 & Hm2); [|exact Hm1|].
    { intros i c' Hi. replace (S k + i)%nat with (k + S i)%nat by lia. by apply Hcs. }
    rewrite Hs2. exists s2. split; [done|]. replace (k + S (length cs))%nat with (S k + length cs)%nat by lia.
    eapply merged_proper; [|exact Hm2]. rewrite <- app_assoc. f_equiv. by rewrite all_pairs_app_l, filter_app.
Qed.

Lemma filter_ext_bool_in {X} (q q' : X → bool) (l : list X) : (∀ x, x ∈ l → q x = q' x) → filter q l = filter q' l.
Proof.
  induction l as [|x l IH]; intros H; [done|]. rewrite !filter_cons, (H x) by (by left).
  rewrite IH; [done|]. intros y Hy. apply H. by right.
Qed.

Lemma set_offsets_ok (q : nat → bool) m : set_offsets (q <$> seq 0 m) = filter q (seq 0 m).
Proof.
  unfold set_offsets. rewrite length_fmap, length_seq. apply filter_ext_bool_in. intros j Hj%elem_of_seq.
  rewrite list_lookup_fmap, lookup_seq_lt by lia. cbn. by destruct (q j).
Qed.

Lemma merge_tables_ok cond :
  cache_coherent ta →
  ∃ st, merge_tables dt ta tb (mkJoinOperatorPredicate ja jb cond) = Ok st ∧ table_A_matches_left st = true ∧
    join_state_spec ta tb eqk st.
Proof.
  intros Hcache. unfold merge_tables. rewrite RowCount_release by done. cbn [rbind].
  rewrite (for_range_eq _ _ (fresh (chunks tb))).
  2:{ unfold ChunkCount. rewrite u32_id by apply Hwb. by rewrite length_fmap. }
  2:{ intros i fl Hi. rewrite list_lookup_fmap in Hi. destruct (chunks tb !! i) as [c|] eqn:E; [|done].
      injection Hi as <-. by rewrite (GetChunk_ok _ _ _ E). }
  cbn [rbind]. unfold ChunkCount. rewrite !u32_id by (apply Hwa || apply Hwb).
  edestruct (merge_left_ok cond (chunks ta) 0 []) as (s & Hs & Hm); [done| |].
  2:{ rewrite Hs. clear Hs. destruct s as [st flags]. cbn [rbind]. destruct Hm as [[H1 H2 H3 H4 H5] HB].
      cbn [fst snd app] in *. fold (row_ids ta) in *. rewrite app_nil_r in H5.
      apply (dangling_flags_final ta tb eqk) in H5 as [HfA HcA]; [|done].
      assert (∀ M, M.*2 = (prod_swap <$> M : list (RowId * RowId)).*1) as Hswap.
      { intros M. by rewrite <- list_fmap_compose. }
      rewrite Hswap in HB. apply (dangling_flags_final tb ta (flip eqk)) in HB as [HfB HcB].
      2:{ rewrite <- (all_pairs_swap (row_ids ta) (row_ids tb)), filter_fmap_swap. done. }
      rewrite (for_range_eq _ _ (zip_with (λ k c, filter (λ i, unmatched (flip eqk) (row_ids ta) (mkRowId k i))
        (seq 0 (chunk_Size c))) (seq 0 (length (chunks tb))) (chunks tb))).
      - cbn [rbind]. eexists. split; [done|]. split; [done|]. split; cbn; try done.
        + rewrite length_zip_with, length_seq. lia.
        + intros k c Hk. rewrite lookup_zip_with, lookup_seq_lt by (by eapply lookup_lt_Some). cbn. by rewrite Hk.
      - rewrite length_zip_with, length_seq. lia.
      - intros k offs Hk. apply lookup_zip_with_Some in Hk as (k' & c & -> & Hk' & Hck).
        apply lookup_seq in Hk' as [-> _]. cbn [Nat.add]. rewrite (vec_get_ok _ _ _ (HfB k c Hck)). cbn [rbind].
        by rewrite set_offsets_ok. }
  split; [split|]; cbn; [done| |by rewrite length_replicate|done|apply dangling_flags_init|].
  - unfold pairs. cbn. generalize 0%nat. induction (length (chunks tb)) as [|m IH]; intros k; cbn; [done|apply IH].
  - replace (sum_list (length <$> fresh (chunks tb))) with (length (row_ids tb)); [apply dangling_flags_init|].
    unfold row_ids. rewrite row_ids_from_length. f_equal. rewrite <- list_fmap_compose.
    apply list_fmap_ext. intros. cbn. by rewrite length_replicate.
Qed.
End Tables.

(** ** The sorted merge join fulfils the interface *)
Definition column_holds (dt : DataType) (t : Table) (j : nat) (x : ctype dt) : Prop :=
  ∃ c vs, c ∈ chunks t ∧ typed_values dt c j = Ok vs ∧ x ∈ vs.

Definition chunks_sorted (dt : DataType) (t : Table) (j : nat) : Prop :=
  ∀ c vs i1 i2 x y, c ∈ chunks t → typed_values dt c j = Ok vs → (i1 ≤ i2)%nat → vs !! i1 = Some x → vs !! i2 = Some y →
    value_ltb dt y x = false.

(** Every chunk sorted by the join column, keys comparable (no NaN), no empty left chunk. *)
Record merge_ready (left right : Table) (p : JoinOperatorPredicate) : Prop := {
  mr_nonempty c : c ∈ chunks left → (0 < chunk_Size c)%nat;
  mr_total : let dt := column_type left (column_id_left p) in
    total_keys dt (λ x, column_holds dt left (column_id_left p) x ∨ column_holds dt right (column_id_right p) x);
  mr_left : chunks_sorted (column_type left (column_id_left p)) left (column_id_left p);
  mr_right : chunks_sorted (column_type left (column_id_left p)) right (column_id_right p) }.

Lemma keys_column_holds t dt j k r : keys_of t dt j k → r ∈ row_ids t → column_holds dt t j (k r).
Proof.
  intros Hk (c & Hc & Ho)%row_ids_elem. exists c, ((λ o, k (mkRowId (chunk_id r) o)) <$> seq 0 (chunk_Size c)).
  split; [by eapply list_elem_of_lookup_2|]. split; [by apply (keys_values _ _ _ _ Hk)|].
  apply list_elem_of_fmap. exists (chunk_offset r). split; [by destruct r|]. apply elem_of_seq. lia.
Qed.

Lemma keys_sorted t dt j k i a b :
  keys_of t dt j k → chunks_sorted dt t j → mkRowId i a ∈ row_ids t → mkRowId i b ∈ row_ids t → (a ≤ b)%nat →
  value_ltb dt (k (mkRowId i b)) (k (mkRowId i a)) = false.
Proof.
  intros Hk Hs (c & Hc & Ho)%row_ids_elem (c' & Hc' & Ho')%row_ids_elem Hab. cbn in *. simplify_eq.
  apply (Hs c ((λ o, k (mkRowId i o)) <$> seq 0 (chunk_Size c)) a b); [by eapply list_elem_of_lookup_2|
    by apply (keys_values _ _ _ _ Hk)|done|..]; by rewrite list_lookup_fmap, lookup_seq_lt.
Qed.

#[export] Instance SortedMergeJoin_fills : FillsPositionLists merge_ready SortedMergeJoin_FillPositionLists.
Proof.
  constructor. intros left right p mode Hl Hr Hc [Hne Htot Hsl Hsr].
  destruct (check_join_ok left right p mode (joinable_wf _ Hl) (joinable_wf _ Hr) Hc) as (_ & Hty & Hjl & Hjr).
  unfold SortedMergeJoin_FillPositionLists. rewrite ColumnDataType_ok by (done || apply Hl). cbn [rbind].
  rewrite ResolveDataType_typed by (apply column_typed; [apply Hl|done]).
  destruct (keys_exist left _ _ Hl Hjl eq_refl) as [kl Hkl].
  destruct (keys_exist right _ _ Hr Hjr (eq_sym Hty)) as [kr Hkr].
  destruct p as [jl jr cond]. cbn [column_id_left column_id_right] in *.
  edestruct (merge_tables_ok _ left right jl jr kl kr Hkl Hkr (joinable_wf _ Hl) (joinable_wf _ Hr) _ Htot)
    as (st & Hst & Hs & Hspec); [..|rewrite Hst].
  - intros r Hin. left. by eapply keys_column_holds.
  - intros r Hin. right. by eapply keys_column_holds.
  - intros. by eapply keys_sorted.
  - intros. by eapply keys_sorted.
  - done.
  - apply Hl.
  - exists st. split; [done|]. rewrite Hs. eapply join_state_spec_ext; [|done].
    intros a b. symmetry. by apply keys_of_equal.
Qed.

(** C24: when each chunk is sorted by the join column, its keys are comparable and no left
    chunk is empty, the sorted merge join returns the relational equi-join of its inputs in
    every join mode. *)
Theorem SortedMergeJoinOperator_correct left right p mode
    (Hl : joinable left) (Hr : joinable right) (Hcheck : check_join left right p mode = Ok tt)
    (Hready : merge_ready left right p)
    (Hnl : (N.of_nat (length (row_ids left)) < 2 ^ 32)%N) (Hnr : (N.of_nat (length (row_ids right)) < 2 ^ 32)%N)
    (Hmatches : Z.of_nat (length (join_rows kInner left right p)) < 2 ^ 31) :
  ∃ t rows, SortedMergeJoinOperator left right p mode = Ok t ∧
    column_definitions t = BuildLeftSchema mode left ++ BuildRightSchema mode right ∧
    table_rows t = Ok rows ∧ rows ≡ₚ join_rows mode left right p.
Proof. by apply (JoinOperator_rows merge_ready); [apply SortedMergeJoin_fills|..]. Qed.

(** on inputs both accept, the two join implementations return the same rows, up to
    their order, under the same schema. *)
Theorem joins_agree iteration (Horder : IterationOrder iteration) left right p mode
    (Hl : joinable left) (Hr : joinable right) (Hcheck : check_join left right p mode = Ok tt)
    (Hready : merge_ready left right p)
    (Hnl : (N.of_nat (length (row_ids left)) < 2 ^ 32)%N) (Hnr : (N.of_nat (length (row_ids right)) < 2 ^ 32)%N)
    (Hmatches : Z.of_nat (length (join_rows kInner left right p)) < 2 ^ 31) :
  ∃ t t' rows rows', HashJoinOperator iteration left right p mode = Ok t ∧
    SortedMergeJoinOperator left right p mode = Ok t' ∧ column_definitions t = column_definitions t' ∧
    table_rows t = Ok rows ∧ table_rows t' = Ok rows' ∧ rows ≡ₚ rows'.
Proof.
  destruct (JoinOperator_rows (λ _ _ _, True) _ left right p mode Hl Hr Hcheck I Hnl Hnr Hmatches)
    as (t & rows & ? & Hd & ? & Hp).
  destruct (JoinOperator_rows merge_ready _ left right p mode Hl Hr Hcheck Hready Hnl Hnr Hmatches)
    as (t' & rows' & ? & Hd' & ? & Hp').
  exists t, t', rows, rows'. repeat split; [done|done|congruence|done|done|]. by rewrite Hp, Hp'.
Qed.

(** ** Examples *)
Definition merge_example : Table :=
  mkTable [mkTableColumnDefinition "k" kInt false]
    [[mkValueSegment kInt [3; 3; 7] None]; [mkValueSegment kInt [1; 3] None]] None.

Lemma total_keys_exact dt P : dt = kInt ∨ dt = kLong ∨ dt = kString → total_keys dt P.
Proof.
  intros Hdt. split.
  - intros x y _ _. destruct Hdt as [->|[->| ->]]; cbn; eauto.
  - intros x y z _ _ _. by apply (comparator_negtrans dt kAscending).
Qed.

Lemma int_chunk_sorted (vs : list Z) (i1 i2 : nat) x y :
  (fix sorted (l : list Z) : bool :=
     match l with [] => true | a :: l' => forallb (λ b, a <=? b) l' && sorted l' end) vs = true →
  (i1 ≤ i2)%nat → vs !! i1 = Some x → vs !! i2 = Some y → value_ltb kInt y x = false.
Proof.
  revert i1 i2. induction vs as [|a vs IH]; intros i1 i2; [done|]. rewrite andb_true_iff. intros [Ha Hs] Hle Hx Hy.
  destruct i1 as [|i1], i2 as [|i2]; cbn in *; try lia; simplify_eq.
  - unfold value_ltb. cbn. by rewrite Z.compare_refl.
  - rewrite forallb_forall in Ha. apply list_elem_of_lookup_2, list_elem_of_In, Ha, Z.leb_le in Hy.
    unfold value_ltb. cbn. destruct (Z.compare_spec y x); [done|lia|done].
  - apply (IH i1 i2); [done|lia|done|done].
Qed.

Lemma merge_example_joinable : joinable merge_example.
Proof.
  split; [..|intros n H; discriminate H].
  - split; cbn; [lia|done|done| |by repeat constructor]. intros c Hc. rewrite !elem_of_cons in Hc.
    destruct Hc as [->|[->|Hc]]; [exists 3%nat|exists 2%nat|by apply elem_of_nil in Hc];
      (split; [done|repeat constructor|repeat constructor|repeat constructor|done|repeat constructor]); done.
  - intros c s i Hc Hs. cbn in Hc. rewrite !elem_of_cons in Hc. destruct Hc as [->|[->|Hc]];
      [| |by apply elem_of_nil in Hc]; rewrite list_elem_of_singleton in Hs; subst s; by do 4 (destruct i as [|i]; [done|]).
Qed.

Lemma merge_example_ready : merge_ready limit_example merge_example (mkJoinOperatorPredicate 0 0 kEquals).
Proof.
  split.
  - intros c Hc. cbn in Hc. rewrite !elem_of_cons in Hc. destruct Hc as [->|[->|Hc]]; [by apply Nat.ltb_lt..|by apply elem_of_nil in Hc].
  - apply total_keys_exact. by left.
  - intros c vs i1 i2 x y Hc Hvs. cbn in Hc. rewrite !elem_of_cons in Hc.
    destruct Hc as [->|[->|Hc]]; [| |by apply elem_of_nil in Hc]; injection Hvs as <-; by apply int_chunk_sorted.
  - intros c vs i1 i2 x y Hc Hvs. cbn in Hc. rewrite !elem_of_cons in Hc.
    destruct Hc as [->|[->|Hc]]; [| |by apply elem_of_nil in Hc]; injection Hvs as <-; by apply int_chunk_sorted.
Qed.

Lemma SortedMergeJoinOperator_correct_witness :
  ∃ t rows, SortedMergeJoinOperator limit_example merge_example (mkJoinOperatorPredicate 0 0 kEquals) kLeftOuter = Ok t ∧
    table_rows t = Ok rows ∧
    rows ≡ₚ [[VInt 3; VInt 3]; [VInt 3; VInt 3]; [VInt 1; VInt 1]; [VInt 3; VInt 3];
             [VInt 2; VNull]; [VInt 4; VNull]; [VInt 5; VNull]].
Proof.
  destruct (SortedMergeJoinOperator_correct limit_example merge_example (mkJoinOperatorPredicate 0 0 kEquals) kLeftOuter
    (proj2 join_example_joinable) merge_example_joinable) as (t & rows & H1 & _ & H2 & H3);
    [vm_compute; reflexivity|exact merge_example_ready|vm_compute; reflexivity|vm_compute; reflexivity|vm_compute; reflexivity|].
  exists t, rows. split; [exact H1|]. split; [exact H2|]. rewrite H3. vm_compute. reflexivity.
Defined.

Lemma joins_agree_witness :
  ∃ t t' rows rows',
    HashJoinOperator (λ dt entries, reverse entries) limit_example merge_example (mkJoinOperatorPredicate 0 0 kEquals) kInner = Ok t ∧
    SortedMergeJoinOperator limit_example merge_example (mkJoinOperatorPredicate 0 0 kEquals) kInner = Ok t' ∧
    table_rows t = Ok rows ∧ table_rows t' = Ok rows' ∧ rows ≡ₚ rows'.
Proof.
  destruct (joins_agree (λ dt entries, reverse entries) reverse_order limit_example merge_example
    (mkJoinOperatorPredicate 0 0 kEquals) kInner (proj2 join_example_joinable) merge_example_joinable)
    as (t & t' & rows & rows' & H1 & H2 & _ & H3 & H4 & H5);
    [vm_compute; reflexivity|exact merge_example_ready|vm_compute; reflexivity|vm_compute; reflexivity|vm_compute; reflexivity|].
  exists t, t', rows, rows'. exact (conj H1 (conj H2 (conj H3 (conj H4 H5)))).
Defined.

(** an empty left chunk makes the sorted merge join throw [std::out_of_range] when the
    right chunk it is merged with has a row. *)
Theorem SortedMergeJoin_empty_chunk left right p mode cl cr
    (Hl : joinable left) (Hr : joinable right) (Hcheck : check_join left right p mode = Ok tt)
    (Hcl : chunks left !! 0%nat = Some cl) (Hcr : chunks right !! 0%nat = Some cr)
    (Hempty : chunk_Size cl = 0%nat) (Hsome : (0 < chunk_Size cr)%nat) :
  SortedMergeJoinOperator left right p mode = Err OutOfRange.
Proof.
  destruct (check_join_ok left right p mode (joinable_wf _ Hl) (joinable_wf _ Hr) Hcheck) as (_ & Hty & Hjl & Hjr).
  unfold SortedMergeJoinOperator, JoinOperator. rewrite Hcheck. cbn [rbind].
  assert (SortedMergeJoin_FillPositionLists left right p mode = Err OutOfRange) as ->; [|done].
  unfold SortedMergeJoin_FillPositionLists. rewrite ColumnDataType_ok by (done || apply Hl). cbn [rbind].
  rewrite ResolveDataType_typed by (apply column_typed; [apply Hl|done]). unfold merge_tables.
  rewrite RowCount_release by apply Hl. cbn [rbind].
  destruct (for_range_total (ChunkCount right) (λ i, c ← GetChunk right i; Ok (replicate (chunk_Size c) true))) as [fl ->].
  { intros i Hi. unfold ChunkCount in Hi. rewrite u32_id in Hi by apply Hr.
    destruct (lookup_lt_is_Some_2 _ _ Hi) as [c Hc]. rewrite (GetChunk_ok _ _ _ Hc). cbn. eauto. }
  cbn [rbind]. unfold ChunkCount. rewrite !u32_id by (apply Hl || apply Hr).
  destruct (keys_exist left _ _ Hl Hjl eq_refl) as [kl Hkl].
  destruct (keys_exist right _ _ Hr Hjr (eq_sym Hty)) as [kr Hkr].
  apply lookup_lt_Some in Hcl as Hll. apply lookup_lt_Some in Hcr as Hlr.
  destruct (length (chunks left)) as [|ml] eqn:El; [lia|]. cbn [seq foldR]. unfold merge_left_chunk at 1.
  rewrite (GetChunk_ok _ _ _ Hcl). cbn [rbind]. rewrite (keys_values _ _ _ _ Hkl _ _ Hcl), Hempty. cbn [rbind seq fmap list_fmap].
  unfold ChunkCount. rewrite u32_id by apply Hr.
  destruct (length (chunks right)) as [|mr] eqn:Er; [lia|]. cbn [seq foldR]. unfold merge_chunks at 1.
  rewrite (GetChunk_ok _ _ _ Hcr). cbn [rbind]. rewrite (keys_values _ _ _ _ Hkr _ _ Hcr). cbn [rbind].
  destruct (chunk_Size cr) as [|m]; [lia|]. done.
Qed.

Definition empty_chunk_example : Table :=
  mkTable [mkTableColumnDefinition "k" kInt false] [[mkValueSegment kInt [] None]] None.

Lemma empty_chunk_example_joinable : joinable empty_chunk_example.
Proof.
  split; [..|intros n H; discriminate H].
  - split; cbn; [lia|done|done| |by repeat constructor]. intros c Hc. rewrite list_elem_of_singleton in Hc. subst c.
    exists 0%nat. split; [done|repeat constructor|repeat constructor|repeat constructor|done|repeat constructor]; done.
  - intros c s i Hc Hs. cbn in Hc. rewrite list_elem_of_singleton in Hc. subst c.
    rewrite list_elem_of_singleton in Hs. subst s. done.
Qed.

Lemma SortedMergeJoin_empty_chunk_witness :
  SortedMergeJoinOperator empty_chunk_example merge_example (mkJoinOperatorPredicate 0 0 kEquals) kInner = Err OutOfRange.
Proof.
  apply (SortedMergeJoin_empty_chunk empty_chunk_example merge_example (mkJoinOperatorPredicate 0 0 kEquals) kInner
    [mkValueSegment kInt [] None] [mkValueSegment kInt [3; 3; 7] None] empty_chunk_example_joinable merge_example_joinable);
    [vm_compute; reflexivity|reflexivity|reflexivity|reflexivity|apply Nat.ltb_lt; reflexivity].
Defined.
