(* ===== verification/Partition.v ===== *)
(** * Hash partitioning

    [src/lib/operator/partitioning_function.cpp] and [src/lib/operator/partition_operator.cpp].
    [boost::hash_combine] on a [size_t] seed is a parameter.  The partition columns are a
    [std::set], given here as the list of its elements in ascending order. *)

From Stdlib Require Import Sorting.Sorted Permutation.
From S2P Require Export SortedMergeJoin.

Section Partition.
Context (hash_combine : N → ∀ dt, ctype dt → N).

(** [for (v : values) hash_combine(hashes[row_index++], v)] *)
Fixpoint combine_values (dt : DataType) (hashes : list N) (values : list (ctype dt)) : result (list N) :=
  match values, hashes with
  | [], _ => Ok hashes
  | v :: values', h :: hashes' => hs ← combine_values dt hashes' values'; Ok (hash_combine h dt v :: hs)
  | _ :: _, [] => Err UndefinedBehaviour
  end.

Definition check_partition_column (t : Table) (column_id : nat) : result unit :=
  _ ← assert_ (column_id <? GetColumnCount t)%nat AssertionFailed;
  d ← vec_get (column_definitions t) column_id;
  assert_ (negb (tcd_nullable d)) AssertionFailed.

Definition combine_column (t : Table) (hashes : list N) (column_id : nat) : result (list N) :=
  _ ← check_partition_column t column_id;
  dt ← ColumnDataType t column_id;
  ResolveDataType dt (λ dt,
    values ← for_range (ChunkCount t) (λ i, c ← GetChunk t i; typed_values dt c column_id);
    combine_values dt hashes (concat values)).

(** [chunk_sizes[chunk_index] - 1] in [size_t]. *)
Definition last_index (size : nat) : N := ((N.of_nat size + (2 ^ 64 - 1)) mod 2 ^ 64)%N.

(** The cursor of the assignment loop. *)
Record Cursor : Set := mkCursor {
  cursor_lists : list (list RowId);
  cursor_chunk : nat;
  cursor_row : nat }.

Definition assign_row (partition_count : nat) (chunk_sizes : list nat) (cur : Cursor) (hash : N) : result Cursor :=
  if bool_decide (partition_count = 0%nat) then Err UndefinedBehaviour else
  let p := N.to_nat (hash mod N.of_nat partition_count) in
  pl ← vec_get (cursor_lists cur) p;
  let lists := <[p := pl ++ [mkRowId (cursor_chunk cur) (cursor_row cur)]]> (cursor_lists cur) in
  size ← vec_get chunk_sizes (cursor_chunk cur);
  Ok (if bool_decide (N.of_nat (cursor_row cur) = last_index size) then mkCursor lists (cursor_chunk cur + 1) 0
      else mkCursor lists (cursor_chunk cur) (cursor_row cur + 1)).

Definition HashPartition (column_ids : list nat) (partition_count : nat) (t : Table) : result (list (list RowId)) :=
  rows ← (RowCount false t).2;
  hashes ← foldR (combine_column t) (replicate rows 0%N) column_ids;
  chunk_sizes ← for_range (ChunkCount t) (λ i, c ← GetChunk t i; Ok (chunk_Size c));
  cur ← foldR (assign_row partition_count chunk_sizes) (mkCursor (replicate partition_count []) 0 0) hashes;
  Ok (cursor_lists cur).

(** One column of one partition. *)
Definition partition_column (t : Table) (position_list : list RowId) (column_id : nat) : result ValueSegment :=
  dt ← ColumnDataType t column_id;
  ResolveDataType dt (λ dt,
    input_segments ← for_range (ChunkCount t) (λ i, c ← GetChunk t i; typed_values dt c column_id);
    values ← mapR (λ r, segment ← vec_get input_segments (chunk_id r); vec_get segment (chunk_offset r)) position_list;
    Ok (mkValueSegment dt values None)).

Definition partition_sort_pass (t : Table) (previous : list RowId) (column_id : nat) : result (list RowId) :=
  _ ← check_partition_column t column_id;
  sort_pass t (mkSortColumnDefinition (N.of_nat column_id) kAscending) previous.

(** Sorting within a partition. *)
Definition sort_partition (defs : TableColumnDefinitions) (column_ids : list nat) (c : Chunk) : result Chunk :=
  let partition_table := mkTable defs [c] None in
  position_list ← foldR (partition_sort_pass partition_table) [] column_ids;
  sorted ← MaterializeOutputTable partition_table position_list true;
  _ ← assert_ (bool_decide (ChunkCount sorted = 1%nat)) AssertionFailed;
  GetChunk sorted 0.

Definition partition_chunk (column_ids : list nat) (sort_within_partition : bool) (t : Table) (position_list : list RowId)
    : result Chunk :=
  c ← for_range (GetColumnCount t) (partition_column t position_list);
  if sort_within_partition then sort_partition (column_definitions t) column_ids c else Ok c.

Definition PartitionOperator (column_ids : list nat) (partition_count : nat) (sort_within_partition : bool) (t : Table)
    : result Table :=
  position_lists ← HashPartition column_ids partition_count t;
  output_chunks ← mapR (partition_chunk column_ids sort_within_partition t) position_lists;
  Ok (mkTable (column_definitions t) output_chunks None).

(** ** The hash of a row and its partition *)
Definition row_hash (t : Table) (column_ids : list nat) (r : RowId) : N :=
  foldl (λ h j, hash_combine h (column_type t j) (key t j r)) 0%N column_ids.

Definition bucket (t : Table) (column_ids : list nat) (partition_count : nat) (r : RowId) : nat :=
  N.to_nat (row_hash t column_ids r mod N.of_nat partition_count).

Definition partition_rows (t : Table) (column_ids : list nat) (partition_count p : nat) : list RowId :=
  filter (λ r, bool_decide (bucket t column_ids partition_count r = p)) (row_ids t).

(** Non-nullable columns, no NULLs, no empty chunk. *)
Record partitionable (t : Table) : Prop := {
  pt_joinable : joinable t;
  pt_not_nullable : Forall (λ d, tcd_nullable d = false) (column_definitions t);
  pt_nonempty c : c ∈ chunks t → (0 < chunk_Size c)%nat;
  pt_rows : (N.of_nat (length (row_ids t)) < 2 ^ 32 - 1)%N }.

Section Hashes.
Context (t : Table).
Hypothesis Ht : joinable t.
Hypothesis Hnn : Forall (λ d, tcd_nullable d = false) (column_definitions t).

Lemma check_partition_column_ok j : (j < GetColumnCount t)%nat → check_partition_column t j = Ok tt.
Proof.
  intros Hj. unfold check_partition_column. rewrite (proj2 (Nat.ltb_lt _ _) Hj). cbn [assert_ rbind].
  rewrite column_count in Hj by apply Ht. destruct (lookup_lt_is_Some_2 _ _ Hj) as [d Hd].
  rewrite (vec_get_ok _ _ _ Hd). cbn [rbind]. rewrite Forall_lookup in Hnn. by rewrite (Hnn _ _ Hd).
Qed.

Lemma combine_values_ok dt (h : RowId → N) (v : RowId → ctype dt) rows :
  combine_values dt (h <$> rows) (v <$> rows) = Ok ((λ r, hash_combine (h r) dt (v r)) <$> rows).
Proof. induction rows as [|r rows IH]; [done|]. rewrite !fmap_cons. cbn. by rewrite IH. Qed.

Lemma combine_column_ok h j :
  (j < GetColumnCount t)%nat →
  combine_column t (h <$> row_ids t) j = Ok ((λ r, hash_combine (h r) (column_type t j) (key t j r)) <$> row_ids t).
Proof.
  intros Hj. destruct Ht as [Hwf Hnf _]. unfold combine_column. rewrite check_partition_column_ok by done. cbn [rbind].
  rewrite ColumnDataType_ok by done. cbn [rbind]. rewrite ResolveDataType_typed by (by apply column_typed).
  unfold for_range, ChunkCount. rewrite u32_id by apply Hwf.
  rewrite (chunk_loop _ (λ k c, (λ o, key t j (mkRowId k o)) <$> seq 0 (chunk_Size c)) (chunks t) 0).
  - cbn [rbind]. rewrite (concat_row_ids (key t j)). apply combine_values_ok.
  - intros k c Hc. cbn [Nat.add]. rewrite (GetChunk_ok _ _ _ Hc). cbn [rbind]. by apply typed_values_ok.
Qed.

Lemma hashes_ok cols : Forall (λ j, (j < GetColumnCount t)%nat) cols → ∀ h,
  foldR (combine_column t) (h <$> row_ids t) cols =
  Ok ((λ r, foldl (λ h j, hash_combine h (column_type t j) (key t j r)) (h r) cols) <$> row_ids t).
Proof.
  induction 1 as [|j cols Hj _ IH]; intros h; [done|]. cbn [foldR]. rewrite combine_column_ok by done. cbn [rbind].
  by rewrite IH.
Qed.

Lemma replicate_hashes : replicate (length (row_ids t)) 0%N = (λ _, 0%N) <$> row_ids t.
Proof. induction (row_ids t) as [|r l IH]; cbn; [done|]. by f_equal. Qed.
End Hashes.

(** ** The assignment loop walks through the row ids *)
Section Assign.
Context (H : RowId → N) (partition_count : nat).
Hypothesis Hcount : (0 < partition_count)%nat.
Abbreviation part r := (N.to_nat (H r mod N.of_nat partition_count)).
Abbreviation in_part q := (λ r, bool_decide (part r = q)).
Abbreviation lists L := (L <$> seq 0 partition_count).

Lemma part_lt r : (part r < partition_count)%nat.
Proof. pose proof (N.mod_lt (H r) (N.of_nat partition_count)). lia. Qed.

Lemma last_index_spec size o :
  (0 < size)%nat → (N.of_nat size < 2 ^ 64)%N → bool_decide (N.of_nat o = last_index size) = bool_decide ((o + 1)%nat = size).
Proof.
  intros Hs Hb. unfold last_index.
  replace (N.of_nat size + (2 ^ 64 - 1))%N with (N.of_nat size - 1 + 1 * 2 ^ 64)%N by lia.
  rewrite N.Div0.mod_add, N.mod_small by lia. apply bool_decide_ext. lia.
Qed.

Lemma emplace_part (L : nat → list RowId) r :
  ∃ pl, vec_get (lists L) (part r) = Ok pl ∧
    <[part r := pl ++ [r]]> (lists L) = lists (λ q, L q ++ filter (in_part q) [r]).
Proof.
  pose proof (part_lt r) as Hlt. exists (L (part r)). split.
  { apply vec_get_ok. by rewrite list_lookup_fmap, lookup_seq_lt. }
  apply list_eq. intros q. destruct (decide (q = part r)) as [->|Hne].
  - rewrite list_lookup_insert_eq by (by rewrite length_fmap, length_seq).
    rewrite list_lookup_fmap, lookup_seq_lt by done. cbn [fmap option_fmap option_map].
    rewrite filter_cons_True by (by apply bool_decide_pack). done.
  - rewrite list_lookup_insert_ne by done. rewrite !list_lookup_fmap. destruct (decide (q < partition_count)%nat).
    + rewrite lookup_seq_lt by done. cbn [fmap option_fmap option_map Nat.add].
      rewrite filter_cons_False by (rewrite bool_decide_spec; congruence). cbn. by rewrite app_nil_r.
    + by rewrite lookup_seq_ge by lia.
Qed.

Lemma assign_row_ok sizes size L k o :
  sizes !! k = Some size → (0 < size)%nat → (N.of_nat size < 2 ^ 64)%N →
  assign_row partition_count sizes (mkCursor (lists L) k o) (H (mkRowId k o)) =
  Ok (let L' := lists (λ q, L q ++ filter (in_part q) [mkRowId k o]) in
      if bool_decide ((o + 1)%nat = size) then mkCursor L' (k + 1) 0 else mkCursor L' k (o + 1)).
Proof.
  intros Hs H0 Hb. unfold assign_row. rewrite bool_decide_false by lia. cbn [cursor_lists cursor_chunk cursor_row].
  destruct (emplace_part L (mkRowId k o)) as (pl & -> & Hins). cbn [rbind]. rewrite Hins.
  rewrite (vec_get_ok _ _ _ Hs). cbn [rbind]. by rewrite last_index_spec.
Qed.

Lemma assign_chunk_ok sizes size m : ∀ L k o,
  sizes !! k = Some size → (N.of_nat size < 2 ^ 64)%N → (0 < m)%nat → (o + m)%nat = size →
  foldR (assign_row partition_count sizes) (mkCursor (lists L) k o) (H <$> (mkRowId k <$> seq o m)) =
  Ok (mkCursor (lists (λ q, L q ++ filter (in_part q) (mkRowId k <$> seq o m))) (k + 1) 0).
Proof.
  induction m as [|m IH]; intros L k o Hs Hb Hm Ho; [lia|]. cbn [seq fmap list_fmap foldR].
  rewrite (assign_row_ok _ _ _ _ _ Hs) by (done || lia). cbn [rbind].
  destruct m as [|m]; [rewrite bool_decide_true by lia; done|]. rewrite bool_decide_false by lia.
  replace (o + 1)%nat with (S o) by lia. rewrite IH by (done || lia).
  do 2 f_equal. apply list_fmap_ext. intros _ q _. by rewrite <- app_assoc, <- filter_app.
Qed.

Lemma assign_chunks_ok cs : ∀ sizes L k,
  (∀ i c, cs !! i = Some c → sizes !! (k + i)%nat = Some (chunk_Size c) ∧ (0 < chunk_Size c)%nat ∧
    (N.of_nat (chunk_Size c) < 2 ^ 64)%N) →
  foldR (assign_row partition_count sizes) (mkCursor (lists L) k 0) (H <$> row_ids_from k cs) =
  Ok (mkCursor (lists (λ q, L q ++ filter (in_part q) (row_ids_from k cs))) (k + length cs) 0).
Proof.
  induction cs as [|c cs IH]; intros sizes L k Hcs; cbn [row_ids_from length].
  - cbn. rewrite Nat.add_0_r. do 2 f_equal. apply list_fmap_ext. intros. by rewrite app_nil_r.
  - destruct (Hcs 0%nat c eq_refl) as (Hs & H0 & Hb). rewrite Nat.add_0_r in Hs.
    rewrite fmap_app, foldR_app. rewrite (assign_chunk_ok _ (chunk_Size c)) by (done || lia). cbn [rbind].
    replace (k + 1)%nat with (S k) by lia. rewrite IH.
    + do 2 f_equal; [|lia]. apply list_fmap_ext. intros _ q _. by rewrite <- app_assoc, <- filter_app.
    + intros i c' Hi. replace (S k + i)%nat with (k + S i)%nat by lia. by apply Hcs.
Qed.
End Assign.

Lemma chunk_le_rows t i c : chunks t !! i = Some c → (chunk_Size c ≤ length (row_ids t))%nat.
Proof.
  unfold row_ids. generalize 0%nat. revert i.
  induction (chunks t) as [|c' cs IH]; intros i k Hc; [done|]. cbn [row_ids_from]. rewrite length_app, length_fmap, length_seq.
  destruct i as [|i]; cbn in Hc; [simplify_eq; lia|]. pose proof (IH i (S k) Hc). lia.
Qed.

Lemma HashPartition_ok t cols partition_count :
  partitionable t → Forall (λ j, (j < GetColumnCount t)%nat) cols → (0 < partition_count)%nat →
  HashPartition cols partition_count t = Ok (partition_rows t cols partition_count <$> seq 0 partition_count).
Proof.
  intros [Ht Hnn Hne Hr] Hcols Hcount. unfold HashPartition. rewrite RowCount_release by apply Ht. cbn [rbind].
  rewrite replicate_hashes, hashes_ok by done. cbn [rbind].
  rewrite (for_range_eq _ _ (chunk_Size <$> chunks t)).
  - cbn [rbind]. replace (replicate partition_count []) with ((λ _ : nat, [] : list RowId) <$> seq 0 partition_count)
      by (rewrite (const_fmap _ _ []) by done; by rewrite length_seq).
    rewrite (assign_chunks_ok (row_hash t cols) partition_count Hcount (chunks t) _ (λ _, []) 0).
    + cbn [rbind cursor_lists]. done.
    + intros i c Hc. cbn [Nat.add]. rewrite list_lookup_fmap, Hc. split; [done|].
      split; [apply Hne; by eapply list_elem_of_lookup_2|].
      pose proof (chunk_le_rows t i c Hc). lia.
  - unfold ChunkCount. rewrite u32_id by apply Ht. by rewrite length_fmap.
  - intros i n Hi. rewrite list_lookup_fmap in Hi. destruct (chunks t !! i) as [c|] eqn:E; [|done].
    injection Hi as <-. by rewrite (GetChunk_ok _ _ _ E).
Qed.

(** ** One partition *)
Section Chunk.
Context (t : Table) (pl : list RowId).
Hypothesis Ht : joinable t.
Hypothesis Hnn : Forall (λ d, tcd_nullable d = false) (column_definitions t).
Hypothesis Hpl : ∀ r, r ∈ pl → r ∈ row_ids t.
Hypothesis Hsmall : (N.of_nat (length pl) < 2 ^ 32 - 1)%N.

Definition gathered : Chunk :=
  (λ j, mkValueSegment (column_type t j) (key t j <$> pl) None) <$> seq 0 (GetColumnCount t).
Abbreviation pt := (mkTable (column_definitions t) [gathered] None).

Lemma gathered_ok : for_range (GetColumnCount t) (partition_column t pl) = Ok gathered.
Proof.
  apply mapR_total. intros j Hj%elem_of_seq. destruct Ht as [Hwf Hnf _].
  unfold partition_column. rewrite ColumnDataType_ok by (done || lia). cbn [rbind].
  rewrite ResolveDataType_typed by (apply column_typed; [done|lia]).
  destruct (gather_ok t j id pl Hwf Hnf) as (segments & Hsegs & Hvs); [lia|done|]. cbn [id] in Hvs.
  rewrite Hsegs. cbn [rbind]. unfold id in Hvs. rewrite Hvs. done.
Qed.

Lemma gathered_rows : chunk_rows gathered = Ok (table_row t <$> pl).
Proof.
  unfold gathered. rewrite (represents_chunk pl _ ((λ j r, to_variant (column_type t j) (key t j r)) <$> seq 0 (GetColumnCount t))).
  - f_equal. apply list_fmap_ext. intros i r _. unfold table_row. by rewrite <- list_fmap_compose.
  - apply Forall2_fmap, Forall_Forall2_diag, Forall_true. intros j. apply represents_values.
  - intros E. apply fmap_nil_inv in E. by apply (seq_nonempty t (joinable_wf _ Ht)) in E.
  - lia.
Qed.

Lemma gathered_Size : chunk_Size gathered = length pl.
Proof. pose proof (chunk_rows_length _ _ gathered_rows) as H. by rewrite length_fmap in H. Qed.

Lemma gathered_wf : wf_chunk (column_definitions t) (length pl) gathered.
Proof.
  assert (∀ P : ValueSegment → Prop, (∀ j, (j < GetColumnCount t)%nat → P (mkValueSegment (column_type t j) (key t j <$> pl) None)) →
    Forall P gathered) as Hall.
  { intros P HP. unfold gathered. apply Forall_fmap, Forall_forall. intros j Hj%elem_of_seq. apply HP. lia. }
  split.
  - unfold gathered. rewrite <- list_fmap_compose. cbn. rewrite column_count by apply Ht.
    apply list_eq. intros j. rewrite !list_lookup_fmap. destruct (column_definitions t !! j) as [d|] eqn:E.
    + rewrite lookup_seq_lt by (by eapply lookup_lt_Some). cbn. unfold column_type. by rewrite E.
    + rewrite lookup_seq_ge by (by apply lookup_ge_None). done.
  - apply Hall. intros. cbn. by rewrite length_fmap.
  - apply Hall. intros j _ ns Hns. discriminate Hns.
  - apply Forall2_same_length_lookup_2.
    + unfold gathered. rewrite length_fmap, length_seq, column_count by apply Ht. done.
    + intros j d s Hd _ Hn. rewrite Forall_lookup in Hnn. by rewrite (Hnn _ _ Hd) in Hn.
  - done.
  - apply Hall. intros j Hj. cbn. apply column_typed; [apply Ht|done].
Qed.

Lemma gathered_index j i r :
  (j < GetColumnCount t)%nat → pl !! i = Some r → value_at pt j (mkRowId 0 i) = Ok (to_variant (column_type t j) (key t j r)).
Proof.
  intros Hj Hi. unfold value_at. cbn [chunk_id chunk_offset]. rewrite (GetChunk_ok pt 0 gathered eq_refl). cbn [rbind].
  unfold chunk_GetSegment, vec_at, gathered. rewrite list_lookup_fmap, lookup_seq_lt by done.
  cbn [fmap option_fmap option_map of_option rbind Nat.add].
  unfold seg_index, seg_IsNull, IsNullable. cbn. unfold vec_at. by rewrite list_lookup_fmap, Hi.
Qed.

Lemma gathered_joinable : joinable pt.
Proof.
  split; [| |intros n E; discriminate E].
  - split; cbn [column_definitions chunks].
    + apply Ht.
    + apply Ht.
    + done.
    + intros c Hc%list_elem_of_singleton. subst c. exists (length pl). apply gathered_wf.
    + apply Ht.
  - intros c s i Hc Hs. cbn in Hc. apply list_elem_of_singleton in Hc. subst c.
    unfold gathered in Hs. apply list_elem_of_fmap in Hs as (j & -> & Hj%elem_of_seq).
    unfold seg_index, seg_IsNull, IsNullable. cbn. unfold vec_at. destruct ((key t j <$> pl) !! i); [|done]. cbn.
    pose proof (column_typed t (joinable_wf _ Ht) j ltac:(lia)). by destruct (column_type t j).
Qed.

Definition original (r : RowId) : RowId := from_option id (mkRowId 0 0) (pl !! chunk_offset r).

Lemma row_ids_gathered : row_ids pt = mkRowId 0 <$> seq 0 (length pl).
Proof. unfold row_ids. cbn [chunks row_ids_from]. by rewrite gathered_Size, app_nil_r. Qed.

Lemma original_row_ids : original <$> row_ids pt = pl.
Proof.
  rewrite row_ids_gathered, <- list_fmap_compose. apply list_eq. intros i. rewrite list_lookup_fmap.
  destruct (pl !! i) as [r|] eqn:E.
  - rewrite lookup_seq_lt by (by eapply lookup_lt_Some). cbn. unfold original. cbn. by rewrite E.
  - by rewrite lookup_seq_ge by (by apply lookup_ge_None).
Qed.

Lemma original_key j r : (j < GetColumnCount t)%nat → r ∈ row_ids pt → key pt j r = key t j (original r).
Proof.
  intros Hj Hr. rewrite row_ids_gathered in Hr. apply list_elem_of_fmap in Hr as (i & -> & Hi%elem_of_seq).
  destruct (lookup_lt_is_Some_2 pl i) as [r Hr]; [lia|]. unfold key at 1. rewrite (gathered_index j i r Hj Hr).
  change (column_type pt j) with (column_type t j). rewrite variant_get_to_variant. unfold original. cbn. by rewrite Hr.
Qed.

Lemma original_row r : r ∈ row_ids pt → table_row pt r = table_row t (original r).
Proof.
  intros Hr. unfold table_row. change (GetColumnCount pt) with (GetColumnCount t). apply list_fmap_ext.
  intros i j Hj. apply lookup_seq in Hj as [-> Hj]. change (column_type pt (0 + i)) with (column_type t (0 + i)).
  by rewrite original_key.
Qed.

(** Sorting the partition sorts the original rows. *)
Abbreviation ascending cols := ((λ j, mkSortColumnDefinition (N.of_nat j) kAscending) <$> cols).

Lemma original_in r : r ∈ row_ids pt → original r ∈ row_ids t.
Proof. intros Hr. apply Hpl. apply (list_elem_of_fmap_2 original) in Hr. by rewrite original_row_ids in Hr. Qed.

Lemma row_lt_gathered j m a b :
  (j < GetColumnCount t)%nat → a ∈ row_ids pt → b ∈ row_ids pt →
  row_lt pt (mkSortColumnDefinition (N.of_nat j) m) a b =
  row_lt t (mkSortColumnDefinition (N.of_nat j) m) (original a) (original b).
Proof.
  intros Hj Ha Hb. unfold row_lt. cbn [scd_column_id scd_sort_mode]. rewrite Nat2N.id.
  change (column_type pt j) with (column_type t j). by rewrite !original_key.
Qed.

Lemma RowId_lt_gathered a b :
  StronglySorted (λ a b, RowId_lt a b = true) pl →
  a ∈ row_ids pt → b ∈ row_ids pt → RowId_lt a b = true → RowId_lt (original a) (original b) = true.
Proof.
  intros Hs Ha Hb. rewrite row_ids_gathered in Ha, Hb.
  apply list_elem_of_fmap in Ha as (i & -> & Hi%elem_of_seq), Hb as (j & -> & Hj%elem_of_seq).
  intros Hlt. assert (i < j)%nat as Hij.
  { unfold RowId_lt in Hlt. cbn in Hlt. rewrite bool_decide_true in Hlt by done. by apply Nat.ltb_lt in Hlt. }
  unfold original. cbn. destruct (lookup_lt_is_Some_2 pl i) as [x Hx]; [lia|].
  destruct (lookup_lt_is_Some_2 pl j) as [y Hy]; [lia|]. rewrite Hx, Hy. cbn.
  clear -Hs Hij Hx Hy. revert i j Hij Hx Hy. induction Hs as [|z l _ IH Hz]; intros i j Hij Hx Hy; [done|].
  destruct j as [|j]; [lia|]. cbn in Hy. destruct i as [|i]; cbn in Hx.
  - simplify_eq. rewrite List.Forall_forall in Hz. apply Hz, list_elem_of_In. by eapply list_elem_of_lookup_2.
  - apply (IH i j); [lia|done|done].
Qed.

Lemma row_order_gathered cols a b :
  StronglySorted (λ a b, RowId_lt a b = true) pl → Forall (λ j, (j < GetColumnCount t)%nat) cols →
  a ∈ row_ids pt → b ∈ row_ids pt →
  row_order pt (ascending cols) a b → row_order t (ascending cols) (original a) (original b).
Proof.
  intros Hs Hcols Ha Hb. induction Hcols as [|j cols Hj _ IH]; [by apply RowId_lt_gathered|].
  rewrite fmap_cons. cbn [row_order]. unfold lex. rewrite !row_lt_gathered by done. tauto.
Qed.

Lemma ordered_keys_gathered j :
  (j < GetColumnCount t)%nat → ordered_keys t (mkSortColumnDefinition (N.of_nat j) kAscending) →
  ordered_keys pt (mkSortColumnDefinition (N.of_nat j) kAscending).
Proof.
  intros Hj [H1 H2]. split.
  - intros a b Ha Hb. rewrite !row_lt_gathered by done. apply H1; by apply original_in.
  - intros a b c Ha Hb Hc. rewrite !row_lt_gathered by done. apply H2; by apply original_in.
Qed.

Lemma fmap_rev {X Y} (f : X → Y) l : f <$> rev l = rev (f <$> l).
Proof. induction l as [|x l IH]; [done|]. cbn [rev]. rewrite fmap_app, IH. done. Qed.

Lemma sort_passes_gathered cols :
  cols ≠ [] → Forall (λ j, (j < GetColumnCount t)%nat) cols →
  foldR (partition_sort_pass pt) [] cols = Ok (sorted_rows pt (ascending (rev cols))).
Proof.
  intros Hne Hcols.
  assert (∀ prev, foldR (partition_sort_pass pt) prev cols =
    foldR (λ previous d, sort_pass pt d previous) prev (ascending cols)) as ->.
  { clear Hne. induction Hcols as [|j cols Hj _ IH]; intros prev; [done|]. rewrite fmap_cons. cbn [foldR].
    unfold partition_sort_pass at 1. rewrite check_partition_column_ok; [|apply gathered_joinable|done|done]. cbn [rbind].
    destruct (sort_pass pt _ prev); [apply IH|done]. }
  assert (ascending cols = rev (ascending (rev cols))) as -> by (by rewrite fmap_rev, rev_involutive).
  apply passes_ok; [apply gathered_joinable|apply gathered_joinable| |].
  - intros E%fmap_nil_inv. apply Hne. by rewrite <- (rev_involutive cols), E.
  - apply Forall_fmap, Forall_rev. eapply Forall_impl; [exact Hcols|]. intros j Hj. cbn beta in Hj. cbn. unfold valid_sort_column. cbn.
    change (GetColumnCount pt) with (GetColumnCount t). apply andb_true_iff. split.
    + apply bool_decide_eq_true. unfold kInvalidColumnId. pose proof (column_count t (joinable_wf _ Ht)) as E.
      pose proof (wft_width t (joinable_wf _ Ht)). lia.
    + apply N.ltb_lt. lia.
Qed.

Lemma sort_partition_ok cols :
  pl ≠ [] → cols ≠ [] → Forall (λ j, (j < GetColumnCount t)%nat) cols →
  StronglySorted (λ a b, RowId_lt a b = true) pl →
  Forall (λ j, ordered_keys t (mkSortColumnDefinition (N.of_nat j) kAscending)) cols →
  ∃ c ids, sort_partition (column_definitions t) cols gathered = Ok c ∧ ids ≡ₚ pl ∧
    StronglySorted (row_order t (ascending (rev cols))) ids ∧ chunk_rows c = Ok (table_row t <$> ids).
Proof.
  intros Hpl0 Hne Hcols Hs Hord. unfold sort_partition. rewrite sort_passes_gathered by done. cbn [rbind].
  pose proof (sorted_rows_Permutation pt (ascending (rev cols))) as HP.
  destruct (MaterializeOutputTable_ok pt (sorted_rows pt (ascending (rev cols)))
    (table_row pt <$> sorted_rows pt (ascending (rev cols))) true) as (t' & -> & Hd & Hrows & H1).
  - apply gathered_joinable.
  - apply gathered_joinable.
  - apply gathered_joinable.
  - intros E. pose proof original_row_ids as Ho. rewrite E in Ho. by apply Hpl0.
  - done.
  - left. rewrite row_ids_gathered, length_fmap, length_seq. lia.
  - apply mapR_total. intros r Hr. rewrite HP in Hr. apply row_at_table_row; [apply gathered_joinable..|done].
  - cbn [rbind]. specialize (H1 eq_refl). destruct (chunks t') as [|c [|? ?]] eqn:Ec; try done.
    assert (ChunkCount t' = 1%nat) as -> by (unfold ChunkCount; by rewrite Ec).
    rewrite bool_decide_true by done. cbn [assert_ rbind].
    exists c, (original <$> sorted_rows pt (ascending (rev cols))). split; [apply GetChunk_ok; by rewrite Ec|].
    split; [rewrite HP; by rewrite original_row_ids|]. split.
    + pose proof (sorted_rows_sorted pt (ascending (rev cols))) as Hsort.
      assert (Forall (ordered_keys pt) (ascending (rev cols))) as Hok.
      { apply Forall_fmap, Forall_rev. apply Forall_forall. intros j Hj. rewrite Forall_forall in Hcols, Hord.
        apply ordered_keys_gathered; auto. }
      specialize (Hsort Hok).
      assert (Forall (λ r, r ∈ row_ids pt) (sorted_rows pt (ascending (rev cols)))) as Hin.
      { rewrite HP. by apply Forall_forall. }
      revert Hsort Hin. generalize (sorted_rows pt (ascending (rev cols))). intros l Hl.
      induction Hl as [|a l _ IH Ha]; intros Hin; rewrite ?fmap_cons; constructor; apply Forall_cons in Hin as [Hina Hin].
      * by apply IH.
      * apply Forall_fmap. rewrite !Forall_forall in *. intros b Hb. apply row_order_gathered; auto.
        apply Forall_forall. intros j Hj. apply Hcols. rewrite !list_elem_of_In in *. by apply in_rev.
    + unfold table_rows in Hrows. rewrite Ec, chunks_rows_singleton in Hrows. rewrite Hrows. f_equal.
      rewrite <- list_fmap_compose. apply list_fmap_ext. intros i r Hr. cbn. apply original_row.
      rewrite <- HP. by eapply list_elem_of_lookup_2.
Qed.
End Chunk.

Lemma partition_rows_sorted t cols partition_count p :
  StronglySorted (λ a b, RowId_lt a b = true) (partition_rows t cols partition_count p).
Proof.
  unfold partition_rows. pose proof (row_ids_from_sorted 0 (chunks t)) as Hs. fold (row_ids t) in Hs.
  induction Hs as [|r l Hs IH Hr]; [constructor|]. rewrite filter_cons. case_decide; [|done]. constructor; [done|].
  rewrite Forall_forall in *. intros x [_ Hx]%list_elem_of_filter. by apply Hr.
Qed.

Lemma partition_rows_in t cols partition_count p r : r ∈ partition_rows t cols partition_count p → r ∈ row_ids t.
Proof. by intros [_ ?]%list_elem_of_filter. Qed.

Abbreviation ascending cols := ((λ j, mkSortColumnDefinition (N.of_nat j) kAscending) <$> cols).

Lemma partition_chunk_ok cols partition_count sort t p :
  partitionable t → Forall (λ j, (j < GetColumnCount t)%nat) cols →
  (sort = true → cols ≠ [] ∧ partition_rows t cols partition_count p ≠ [] ∧ Forall (ordered_keys t) (ascending cols)) →
  ∃ c ids, partition_chunk cols sort t (partition_rows t cols partition_count p) = Ok c ∧
    chunk_rows c = Ok (table_row t <$> ids) ∧ ids ≡ₚ partition_rows t cols partition_count p ∧
    (sort = true → StronglySorted (row_order t (ascending (rev cols))) ids) ∧
    (sort = false → ids = partition_rows t cols partition_count p).
Proof.
  intros [Ht Hnn _ Hn] Hcols Hsort. unfold partition_chunk.
  assert (∀ r, r ∈ partition_rows t cols partition_count p → r ∈ row_ids t) as Hin by (intros r; apply partition_rows_in).
  assert (N.of_nat (length (partition_rows t cols partition_count p)) < 2 ^ 32 - 1)%N as Hlen.
  { unfold partition_rows. by apply filter_length_le. }
  rewrite gathered_ok by done. cbn [rbind]. destruct sort.
  - destruct (Hsort eq_refl) as (Hne & Hp & Hord).
    destruct (sort_partition_ok t (partition_rows t cols partition_count p) Ht Hnn Hin Hlen cols Hp Hne Hcols
      (partition_rows_sorted _ _ _ _)) as (c & ids & Hc & HP & Hs & Hr); [exact (proj1 (Forall_fmap _ _ _) Hord)|].
    exists c, ids. done.
  - do 2 eexists. split; [done|]. split; [by apply gathered_rows|]. done.
Qed.

Lemma PartitionOperator_chunks cols partition_count sort t :
  partitionable t → Forall (λ j, (j < GetColumnCount t)%nat) cols → (0 < partition_count)%nat →
  (sort = true → cols ≠ [] ∧ (∀ p, (p < partition_count)%nat → partition_rows t cols partition_count p ≠ []) ∧
     Forall (ordered_keys t) (ascending cols)) →
  ∃ t', PartitionOperator cols partition_count sort t = Ok t' ∧ column_definitions t' = column_definitions t ∧
    Forall2 (λ p c, ∃ ids, chunk_rows c = Ok (table_row t <$> ids) ∧ ids ≡ₚ partition_rows t cols partition_count p ∧
      (sort = true → StronglySorted (row_order t (ascending (rev cols))) ids) ∧
      (sort = false → ids = partition_rows t cols partition_count p)) (seq 0 partition_count) (chunks t').
Proof.
  intros Ht Hcols Hcount Hsort. unfold PartitionOperator. rewrite HashPartition_ok by done. cbn [rbind].
  assert (∀ ps, (∀ p, p ∈ ps → (p < partition_count)%nat) →
    ∃ cs, mapR (partition_chunk cols sort t) (partition_rows t cols partition_count <$> ps) = Ok cs ∧
      Forall2 (λ p c, ∃ ids, chunk_rows c = Ok (table_row t <$> ids) ∧ ids ≡ₚ partition_rows t cols partition_count p ∧
        (sort = true → StronglySorted (row_order t (ascending (rev cols))) ids) ∧
        (sort = false → ids = partition_rows t cols partition_count p)) ps cs) as Hall.
  { induction ps as [|p ps IH]; intros Hps; [by exists []|]. rewrite fmap_cons. cbn [mapR].
    destruct (partition_chunk_ok cols partition_count sort t p Ht Hcols) as (c & ids & -> & ?).
    { intros E. destruct (Hsort E) as (? & Hp & ?). split; [done|]. split; [|done]. apply Hp, Hps. by left. }
    cbn [rbind]. destruct IH as (cs & -> & HF); [intros; apply Hps; by right|]. cbn [rbind].
    exists (c :: cs). split; [done|]. constructor; [by exists ids|done]. }
  destruct (Hall (seq 0 partition_count)) as (cs & -> & HF); [intros p Hp%elem_of_seq; lia|].
  cbn [rbind]. by eexists.
Qed.

(** The buckets partition the rows. *)
Lemma partition_rows_concat t cols partition_count :
  (0 < partition_count)%nat →
  concat (partition_rows t cols partition_count <$> seq 0 partition_count) ≡ₚ row_ids t.
Proof.
  intros Hc. unfold partition_rows. generalize (row_ids t). intros l.
  assert (∀ r, (bucket t cols partition_count r < partition_count)%nat) as Hlt.
  { intros r. unfold bucket. pose proof (N.mod_lt (row_hash t cols r) (N.of_nat partition_count)). lia. }
  induction l as [|r l IH].
  - rewrite (const_fmap _ _ []) by done. rewrite length_seq. clear. by induction partition_count.
  - etransitivity; [|apply Permutation_cons; [done|exact IH]]. specialize (Hlt r). pose proof (in_seq partition_count 0 (bucket t cols partition_count r)) as Hin.
    rewrite <- list_elem_of_In in Hin. clear IH.
    assert (NoDup (seq 0 partition_count)) as Hnd by apply NoDup_seq.
    assert (bucket t cols partition_count r ∈ seq 0 partition_count) as Hr by (apply Hin; lia). clear Hin Hlt.
    induction Hnd as [|q qs Hq Hnd IHq]; [by apply elem_of_nil in Hr|]. rewrite !fmap_cons. cbn [concat].
    destruct (decide (bucket t cols partition_count r = q)) as [E|E].
    + rewrite filter_cons_True by (by apply bool_decide_pack). cbn [app]. do 2 f_equiv.
      enough ((λ p, filter (λ r0, bool_decide (bucket t cols partition_count r0 = p)) (r :: l)) <$> qs =
        (λ p, filter (λ r0, bool_decide (bucket t cols partition_count r0 = p)) l) <$> qs) as -> by done.
      apply list_fmap_ext. intros i q' Hq'. apply filter_cons_False. rewrite bool_decide_spec. intros E'. subst.
      apply Hq. by eapply list_elem_of_lookup_2.
    + rewrite filter_cons_False by (by rewrite bool_decide_spec). apply elem_of_cons in Hr as [|Hr]; [done|].
      rewrite (IHq Hr). by rewrite Permutation_middle.
Qed.
End Partition.

(** ** Partitioning a table *)

(** C27: on a table without NULLs and without empty chunks, hash partitioning returns one
    chunk per partition; chunk [p] holds exactly the rows whose hash of the partition columns
    is [p] modulo the partition count: sorted by the partition columns (the last one most
    significant) when that is asked for, and in exactly the order they have in the table
    otherwise.  No row is lost or duplicated. *)
Theorem PartitionOperator_correct hash_combine cols partition_count sort t rows
    (Ht : partitionable t) (Hcols : Forall (λ j, (j < GetColumnCount t)%nat) cols) (Hcount : (0 < partition_count)%nat)
    (Hsort : sort = true → cols ≠ [] ∧
       (∀ p, (p < partition_count)%nat → partition_rows hash_combine t cols partition_count p ≠ []) ∧
       Forall (ordered_keys t) ((λ j, mkSortColumnDefinition (N.of_nat j) kAscending) <$> cols))
    (Hrows : table_rows t = Ok rows) :
  ∃ t' rows', PartitionOperator hash_combine cols partition_count sort t = Ok t' ∧
    column_definitions t' = column_definitions t ∧
    Forall2 (λ p c, ∃ ids, chunk_rows c = Ok (table_row t <$> ids) ∧
        ids ≡ₚ partition_rows hash_combine t cols partition_count p ∧
        (sort = true → StronglySorted
           (row_order t ((λ j, mkSortColumnDefinition (N.of_nat j) kAscending) <$> rev cols)) ids) ∧
        (sort = false → ids = partition_rows hash_combine t cols partition_count p))
      (seq 0 partition_count) (chunks t') ∧
    table_rows t' = Ok rows' ∧ rows' ≡ₚ rows.
Proof.
  destruct (PartitionOperator_chunks hash_combine cols partition_count sort t Ht Hcols Hcount Hsort) as (t' & Ht' & Hd & HF).
  assert (∀ ps cs, Forall2 (λ p c, ∃ ids, chunk_rows c = Ok (table_row t <$> ids) ∧
      ids ≡ₚ partition_rows hash_combine t cols partition_count p ∧ (sort = true → StronglySorted
        (row_order t ((λ j, mkSortColumnDefinition (N.of_nat j) kAscending) <$> rev cols)) ids) ∧
      (sort = false → ids = partition_rows hash_combine t cols partition_count p)) ps cs →
    ∃ rows', chunks_rows cs = Ok rows' ∧
      rows' ≡ₚ table_row t <$> concat (partition_rows hash_combine t cols partition_count <$> ps)) as Hall.
  { induction 1 as [|p c ps cs (ids & Hc & HP & _) _ (rows' & Hr & HPr)]; [by exists []|].
    rewrite chunks_rows_cons, Hc, Hr. cbn [rbind]. eexists. split; [done|]. rewrite !fmap_cons. cbn [concat].
    by rewrite fmap_app, HP, HPr. }
  destruct (Hall _ _ HF) as (rows' & Hr & HP). exists t', rows'. do 4 (split; [done|]).
  rewrite HP, partition_rows_concat by done.
  by rewrite (table_rows_table_row t (joinable_wf _ (pt_joinable _ Ht)) (joinable_null_free _ (pt_joinable _ Ht)) rows Hrows).
Qed.

(** ** Co-partitioned joins *)
Section CoPartition.
Context (hash_combine : N → ∀ dt, ctype dt → N).
Hypothesis hash_respects_equality : ∀ h dt x y, value_eqb dt x y = true → hash_combine h dt x = hash_combine h dt y.
Context (left right : Table) (jl jr n : nat).
Hypothesis Htypes : column_type left jl = column_type right jr.
Hypothesis Hn : (0 < n)%nat.
Abbreviation eqk := (keys_equal left right jl jr).
Abbreviation lp := (partition_rows hash_combine left [jl] n).
Abbreviation rp := (partition_rows hash_combine right [jr] n).

Lemma equal_keys_bucket a b :
  eqk a b = true → bucket hash_combine left [jl] n a = bucket hash_combine right [jr] n b.
Proof.
  unfold keys_equal, bucket, row_hash. cbn [foldl]. generalize (key left jl a), (key right jr b).
  rewrite <- Htypes. intros x y. rewrite variant_get_to_variant. intros E. by rewrite (hash_respects_equality _ _ _ _ E).
Qed.

Lemma filter_pairs_restrict {X Y} (e : X → Y → bool) (q : Y → bool) (xs : list X) (ys : list Y) :
  (∀ x y, x ∈ xs → e x y = true → q y = true) →
  filter (λ m, e m.1 m.2) (all_pairs xs ys) = filter (λ m, e m.1 m.2) (all_pairs xs (filter q ys)).
Proof.
  intros H. induction ys as [|y ys IH]; [done|]. change (y :: ys) with ([y] ++ ys). rewrite filter_app, !all_pairs_app_r.
  rewrite !filter_app, IH. f_equal. destruct (q y) eqn:E.
  - by rewrite filter_cons_True by (by rewrite E).
  - rewrite filter_cons_False by (rewrite E; tauto). cbn. rewrite app_nil_r.
    assert (∀ x, x ∈ xs → e x y = false) as Hx by (intros x Hx; destruct (e x y) eqn:E'; [|done]; by rewrite (H x y) in E).
    clear -Hx. induction xs as [|x xs IH]; [done|]. rewrite fmap_cons.
    rewrite filter_cons_False by (cbn; rewrite Hx by (by left); tauto). apply IH. intros. apply Hx. by right.
Qed.

Lemma unmatched_restrict {X Y} (e : X → Y → bool) (q : Y → bool) (ys : list Y) x :
  (∀ y, e x y = true → q y = true) → unmatched e ys x = unmatched e (filter q ys) x.
Proof.
  intros H. unfold unmatched. induction ys as [|y ys IH]; [done|]. rewrite filter_cons. cbn [forallb]. rewrite IH.
  case_decide as Hq; [done|]. destruct (e x y) eqn:E; [|done]. destruct Hq. by rewrite (H _ E).
Qed.

Lemma concat_fmap_Permutation {X Y} (f g : X → list Y) l : (∀ x, x ∈ l → f x ≡ₚ g x) → concat (f <$> l) ≡ₚ concat (g <$> l).
Proof.
  induction l as [|x l IH]; intros H; [done|]. rewrite !fmap_cons. cbn [concat]. rewrite (H x) by (by left).
  rewrite IH; [done|]. intros. apply H. by right.
Qed.

Lemma concat_fmap_app {X Y} (f g : X → list Y) l : concat ((λ x, f x ++ g x) <$> l) ≡ₚ concat (f <$> l) ++ concat (g <$> l).
Proof.
  induction l as [|x l IH]; [done|]. rewrite !fmap_cons. cbn [concat]. rewrite IH.
  rewrite <- !app_assoc. f_equiv. rewrite !app_assoc. f_equiv. apply Permutation_app_comm.
Qed.

Lemma fmap_concat {X Y} (f : X → Y) (ls : list (list X)) : f <$> concat ls = concat ((λ l : list X, (f <$> l : list Y)) <$> ls).
Proof. induction ls as [|l ls IH]; cbn; [done|]. by rewrite fmap_app, IH. Qed.

Lemma filter_concat {X} (q : X → bool) (ls : list (list X)) : filter q (concat ls) = concat ((λ l : list X, filter q l) <$> ls).
Proof. induction ls as [|l ls IH]; cbn; [done|]. by rewrite filter_app, IH. Qed.

Lemma all_pairs_concat {X Y} (ls : list (list X)) (ys : list Y) : all_pairs (concat ls) ys ≡ₚ concat ((λ l, all_pairs l ys) <$> ls).
Proof. induction ls as [|l ls IH]; cbn; [by rewrite all_pairs_nil_l|]. by rewrite all_pairs_app_l, IH. Qed.

Lemma all_pairs_Permutation {X Y} (xs xs' : list X) (ys : list Y) : xs ≡ₚ xs' → all_pairs xs ys ≡ₚ all_pairs xs' ys.
Proof.
  intros H. unfold all_pairs. induction ys as [|y ys IH]; cbn; [done|]. by rewrite IH, H.
Qed.

Lemma partitioned_matches :
  filter (λ m, eqk m.1 m.2) (all_pairs (row_ids left) (row_ids right)) ≡ₚ
  concat ((λ p, filter (λ m, eqk m.1 m.2) (all_pairs (lp p) (rp p))) <$> seq 0 n).
Proof.
  rewrite <- (all_pairs_Permutation _ _ (row_ids right) (partition_rows_concat hash_combine left [jl] n Hn)).
  rewrite all_pairs_concat, filter_concat, <- !list_fmap_compose. apply concat_fmap_Permutation. intros p _. cbn.
  rewrite (filter_pairs_restrict eqk (λ r, bool_decide (bucket hash_combine right [jr] n r = p))); [done|].
  intros a b Ha Heq. apply bool_decide_eq_true. rewrite <- (equal_keys_bucket _ _ Heq).
  unfold partition_rows in Ha. apply list_elem_of_filter in Ha as [Ha _]. by apply bool_decide_spec in Ha.
Qed.

Lemma partitioned_unmatched_left :
  filter (unmatched eqk (row_ids right)) (row_ids left) ≡ₚ
  concat ((λ p, filter (unmatched eqk (rp p)) (lp p)) <$> seq 0 n).
Proof.
  rewrite <- (partition_rows_concat hash_combine left [jl] n Hn) at 1. rewrite filter_concat, <- list_fmap_compose.
  apply concat_fmap_Permutation. intros p _. cbn. apply Permutation_refl', filter_ext_bool_in. intros a Ha.
  apply unmatched_restrict. intros b Heq. apply bool_decide_eq_true. rewrite <- (equal_keys_bucket _ _ Heq).
  unfold partition_rows in Ha. apply list_elem_of_filter in Ha as [Ha _]. by apply bool_decide_spec in Ha.
Qed.

Lemma partitioned_unmatched_right :
  filter (unmatched (flip eqk) (row_ids left)) (row_ids right) ≡ₚ
  concat ((λ p, filter (unmatched (flip eqk) (lp p)) (rp p)) <$> seq 0 n).
Proof.
  rewrite <- (partition_rows_concat hash_combine right [jr] n Hn) at 1. rewrite filter_concat, <- list_fmap_compose.
  apply concat_fmap_Permutation. intros p _. cbn. apply Permutation_refl', filter_ext_bool_in. intros b Hb.
  apply unmatched_restrict. intros a Heq. apply bool_decide_eq_true. rewrite (equal_keys_bucket _ _ Heq).
  unfold partition_rows in Hb. apply list_elem_of_filter in Hb as [Hb _]. by apply bool_decide_spec in Hb.
Qed.
End CoPartition.

(** two tables partitioned on their join columns can be joined partition by partition:
    for every join mode, the join of the tables is the union of the joins of the partitions
    with the same number. This is what lets each worker join its own partition. *)
Theorem copartitioned_join hash_combine left right p mode n
    (Hhash : ∀ h dt x y, value_eqb dt x y = true → hash_combine h dt x = hash_combine h dt y)
    (Htypes : column_type left (column_id_left p) = column_type right (column_id_right p)) (Hn : (0 < n)%nat) :
  join_rows mode left right p ≡ₚ
  concat ((λ k, join_of mode left right p (partition_rows hash_combine left [column_id_left p] n k)
                  (partition_rows hash_combine right [column_id_right p] n k)) <$> seq 0 n).
Proof.
  unfold join_rows, join_of. rewrite !concat_fmap_app.
  rewrite (partitioned_matches hash_combine Hhash left right _ _ n Htypes Hn).
  f_equiv; [by rewrite fmap_concat, <- list_fmap_compose|]. f_equiv.
  - destruct (keeps_left mode); [|by rewrite (const_fmap _ _ []), length_seq by done; clear; induction n].
    rewrite (partitioned_unmatched_left hash_combine Hhash left right _ _ n Htypes Hn).
    by rewrite fmap_concat, <- list_fmap_compose.
  - destruct (keeps_right mode); [|by rewrite (const_fmap _ _ []), length_seq by done; clear; induction n].
    rewrite (partitioned_unmatched_right hash_combine Hhash left right _ _ n Htypes Hn).
    by rewrite fmap_concat, <- list_fmap_compose.
Qed.

(** ** Inputs the operator cannot handle *)
Lemma mapR_some_err {X Y} (f : X → result Y) l e :
  (∀ x, x ∈ l → (∃ y, f x = Ok y) ∨ f x = Err e) → (∃ x, x ∈ l ∧ f x = Err e) → mapR f l = Err e.
Proof.
  induction l as [|x l IH]; intros Hall (z & Hz & He); [by apply elem_of_nil in Hz|]. cbn [mapR].
  destruct (Hall x) as [[y Hy]|Hx]; [by left| |by rewrite Hx]. rewrite Hy. cbn [rbind].
  rewrite IH; [done|intros; apply Hall; by right|]. apply elem_of_cons in Hz as [->|Hz]; [congruence|eauto].
Qed.

Section EmptyPartition.
Context (hash_combine : N → ∀ dt, ctype dt → N).

Lemma sort_partition_empty t cols :
  joinable t → Forall (λ d, tcd_nullable d = false) (column_definitions t) →
  cols ≠ [] → Forall (λ j, (j < GetColumnCount t)%nat) cols →
  sort_partition (column_definitions t) cols (gathered t []) = Err UndefinedBehaviour.
Proof.
  intros Ht Hnn Hne Hcols. unfold sort_partition.
  rewrite (sort_passes_gathered t [] Ht Hnn) by done. cbn [rbind].
  assert (row_ids (mkTable (column_definitions t) [gathered t []] None) = []) as Hids.
  { by rewrite (row_ids_gathered t [] Ht). }
  assert (∀ defs, sorted_rows (mkTable (column_definitions t) [gathered t []] None) defs = []) as Hs.
  { intros defs. pose proof (sorted_rows_Permutation (mkTable (column_definitions t) [gathered t []] None) defs) as HP.
    rewrite Hids in HP. by apply Permutation_nil_r in HP. }
  rewrite Hs. unfold MaterializeOutputTable.
  rewrite RowCount_release by (by apply (gathered_joinable t [])). cbn [rbind]. rewrite Hids. done.
Qed.
End EmptyPartition.

(** sorting within partitions divides by the partition's row count: when some partition
    receives no row, the operator runs into a division by zero. *)
Theorem PartitionOperator_empty_partition hash_combine cols partition_count t p
    (Ht : partitionable t) (Hcols : Forall (λ j, (j < GetColumnCount t)%nat) cols) (Hne : cols ≠ [])
    (Hord : Forall (ordered_keys t) ((λ j, mkSortColumnDefinition (N.of_nat j) kAscending) <$> cols))
    (Hp : (p < partition_count)%nat) (Hempty : partition_rows hash_combine t cols partition_count p = []) :
  PartitionOperator hash_combine cols partition_count true t = Err UndefinedBehaviour.
Proof.
  unfold PartitionOperator. rewrite HashPartition_ok by (done || lia). cbn [rbind].
  assert (partition_chunk cols true t [] = Err UndefinedBehaviour) as Herr.
  { unfold partition_chunk. rewrite gathered_ok; [cbn [rbind]|apply Ht|by intros r ?%elem_of_nil|done].
    apply sort_partition_empty; done || apply Ht. }
  rewrite (mapR_some_err _ _ UndefinedBehaviour); [done| |].
  - intros ids (q & -> & Hq%elem_of_seq)%list_elem_of_fmap.
    destruct (partition_rows hash_combine t cols partition_count q) as [|r l] eqn:E; [by right|left]. rewrite <- E.
    destruct (partition_chunk_ok hash_combine cols partition_count true t q Ht Hcols) as (c & ids & Hc & _); [|eauto].
    intros _. split; [done|]. split; [by rewrite E|done].
  - exists []. split; [|done]. apply list_elem_of_fmap. exists p. split; [done|]. apply elem_of_seq. lia.
Qed.

(** The cursor never leaves an empty first chunk. *)
Lemma assign_empty_chunk partition_count sizes hs : (0 < partition_count)%nat → sizes !! 0%nat = Some 0%nat → ∀ ls o,
  length ls = partition_count → (∀ l r, l ∈ ls → r ∈ l → chunk_id r = 0%nat) →
  (N.of_nat (o + length hs) < 2 ^ 64 - 1)%N →
  ∃ cur, foldR (assign_row partition_count sizes) (mkCursor ls 0 o) hs = Ok cur ∧
    (∀ l r, l ∈ cursor_lists cur → r ∈ l → chunk_id r = 0%nat) ∧
    (hs ≠ [] ∨ (∃ l, l ∈ ls ∧ l ≠ []) → ∃ l, l ∈ cursor_lists cur ∧ l ≠ []).
Proof.
  intros Hc Hs. induction hs as [|h hs IH]; intros ls o Hlen Hall Ho; cbn [foldR].
  { exists (mkCursor ls 0 o). split; [done|]. split; [done|]. by intros [|]. }
  unfold assign_row at 1. rewrite bool_decide_false by lia. cbn [cursor_lists cursor_chunk cursor_row].
  set (p := N.to_nat (h mod N.of_nat partition_count)).
  assert (p < length ls)%nat as Hp by (pose proof (N.mod_lt h (N.of_nat partition_count)); lia).
  destruct (lookup_lt_is_Some_2 ls p Hp) as [pl Hpl]. rewrite (vec_get_ok _ _ _ Hpl). cbn [rbind].
  rewrite (vec_get_ok _ _ _ Hs). cbn [rbind length] in *.
  rewrite bool_decide_false by (change (last_index 0) with (2 ^ 64 - 1)%N; lia).
  destruct (IH (<[p:=pl ++ [mkRowId 0 o]]> ls) (o + 1)%nat) as (cur & Hcur & H1 & H2).
  - by rewrite length_insert.
  - intros l r Hl Hr. apply list_elem_of_lookup in Hl as [q Hq]. destruct (decide (q = p)) as [->|Hne].
    + rewrite list_lookup_insert_eq in Hq by done. injection Hq as <-. apply elem_of_app in Hr as [Hr|Hr].
      * apply (Hall pl r); [by eapply list_elem_of_lookup_2|done].
      * apply list_elem_of_singleton in Hr. by subst r.
    + rewrite list_lookup_insert_ne in Hq by done. apply (Hall l r); [by eapply list_elem_of_lookup_2|done].
  - lia.
  - exists cur. split; [done|]. split; [done|]. intros _. apply H2. right. exists (pl ++ [mkRowId 0 o]).
    split; [|by destruct pl]. apply (list_elem_of_lookup_2 _ p). by rewrite list_lookup_insert_eq.
Qed.

(** an empty first chunk derails the assignment of rows to partitions: every row is
    recorded as a row of that chunk, and materialising the partitions reads out of bounds. *)
Theorem PartitionOperator_empty_chunk hash_combine cols partition_count t c0
    (Ht : joinable t) (Hnn : Forall (λ d, tcd_nullable d = false) (column_definitions t))
    (Hc0 : chunks t !! 0%nat = Some c0) (Hempty : chunk_Size c0 = 0%nat) (Hrows : row_ids t ≠ [])
    (Hsmall : (N.of_nat (length (row_ids t)) < 2 ^ 32)%N)
    (Hcols : Forall (λ j, (j < GetColumnCount t)%nat) cols) (Hcount : (0 < partition_count)%nat) :
  PartitionOperator hash_combine cols partition_count false t = Err UndefinedBehaviour.
Proof.
  unfold PartitionOperator, HashPartition. rewrite RowCount_release by apply Ht. cbn [rbind].
  rewrite replicate_hashes, hashes_ok by done. cbn [rbind].
  rewrite (for_range_eq _ _ (chunk_Size <$> chunks t)); cycle 1.
  { unfold ChunkCount. rewrite u32_id by apply Ht. by rewrite length_fmap. }
  { intros i n Hi. rewrite list_lookup_fmap in Hi. destruct (chunks t !! i) as [c|] eqn:E; [|done].
    injection Hi as <-. by rewrite (GetChunk_ok _ _ _ E). }
  cbn [rbind].
  assert ((chunk_Size <$> chunks t) !! 0%nat = Some 0%nat) as Hs0.
  { rewrite list_lookup_fmap, Hc0. cbn. by rewrite Hempty. }
  match goal with |- context [foldR _ (mkCursor ?l0 0 0) ?hs] =>
    destruct (assign_empty_chunk partition_count (chunk_Size <$> chunks t) hs Hcount Hs0 l0 0)
      as (cur & -> & H1 & H2) end.
  - by rewrite length_replicate.
  - intros l r Hl Hr. apply elem_of_replicate in Hl as [-> _]. by apply elem_of_nil in Hr.
  - rewrite length_fmap. lia.
  - cbn [rbind]. destruct H2 as (l & Hl & Hne); [left; by intros E%fmap_nil_inv|].
    assert (∀ ids, ids ∈ cursor_lists cur → ids ≠ [] → partition_chunk cols false t ids = Err UndefinedBehaviour) as Herr.
    { intros ids Hids Hi. unfold partition_chunk. pose proof (column_count t (joinable_wf _ Ht)) as Hcc.
      pose proof (wft_columns t (joinable_wf _ Ht)) as Hpos. unfold for_range.
      destruct (GetColumnCount t) as [|m] eqn:Em; [lia|]. cbn [seq mapR].
      assert (partition_column t ids 0 = Err UndefinedBehaviour) as ->; [|done]. unfold partition_column.
      rewrite ColumnDataType_ok by (lia || apply Ht). cbn [rbind].
      rewrite ResolveDataType_typed by (apply column_typed; [apply Ht|lia]).
      destruct (gather_ok t 0 id [] (joinable_wf _ Ht) (joinable_null_free _ Ht)) as (segs & Hsegs & _);
        [lia|by intros r ?%elem_of_nil|]. rewrite Hsegs. cbn [rbind].
      destruct ids as [|r ids]; [done|]. cbn [mapR]. rewrite (H1 _ r Hids) by (by left).
      assert (segs !! 0%nat = Some []) as Hseg0.
      { unfold for_range, ChunkCount in Hsegs. rewrite u32_id in Hsegs by apply Ht.
        destruct (mapR_ok_lookup _ _ _ 0%nat 0%nat Hsegs) as (v & Hv & Hg).
        { rewrite lookup_seq_lt; [done|by eapply lookup_lt_Some]. }
        rewrite (GetChunk_ok _ _ _ Hc0) in Hg. cbn [rbind] in Hg.
        rewrite (typed_values_ok t (joinable_wf _ Ht) (joinable_null_free _ Ht) 0 c0 0 Hc0) in Hg by lia.
        rewrite Hempty in Hg. cbn in Hg. injection Hg as <-. done. }
      rewrite (vec_get_ok _ _ _ Hseg0). done. }
    rewrite (mapR_some_err _ _ UndefinedBehaviour); [done| |].
    + intros ids Hids. destruct (decide (ids = [])) as [->|Hi]; [left|right; by apply Herr].
      unfold partition_chunk. rewrite gathered_ok; [by eexists|done|by intros r ?%elem_of_nil|done].
    + exists l. split; [done|by apply Herr].
Qed.

(** ** Examples *)
Definition example_hash (h : N) (dt : DataType) : ctype dt → N :=
  match dt with kInt => λ v, (h + Z.abs_N v)%N | _ => λ _, h end.

Lemma limit_example_partitionable : partitionable limit_example.
Proof.
  split; [apply join_example_joinable|by repeat constructor| |vm_compute; reflexivity].
  intros c Hc. cbn in Hc. rewrite !elem_of_cons in Hc.
  destruct Hc as [->|[->|Hc]]; [by apply Nat.ltb_lt..|by apply elem_of_nil in Hc].
Qed.

Lemma merge_example_partitionable : partitionable merge_example.
Proof.
  split; [apply merge_example_joinable|by repeat constructor| |vm_compute; reflexivity].
  intros c Hc. cbn in Hc. rewrite !elem_of_cons in Hc.
  destruct Hc as [->|[->|Hc]]; [by apply Nat.ltb_lt..|by apply elem_of_nil in Hc].
Qed.

Lemma PartitionOperator_correct_witness :
  ∃ t' rows', PartitionOperator example_hash [0%nat] 2 true limit_example = Ok t' ∧ table_rows t' = Ok rows' ∧
    rows' ≡ₚ [[VInt 1]; [VInt 2]; [VInt 3]; [VInt 4]; [VInt 5]].
Proof.
  destruct (PartitionOperator_correct example_hash [0%nat] 2 true limit_example
    [[VInt 1]; [VInt 2]; [VInt 3]; [VInt 4]; [VInt 5]] limit_example_partitionable)
    as (t' & rows' & H1 & _ & _ & H2 & H3).
  - constructor; [apply Nat.ltb_lt; reflexivity|constructor].
  - lia.
  - intros _. split; [discriminate|]. split.
    + intros p Hp. destruct p as [|[|p]]; [vm_compute; discriminate|vm_compute; discriminate|lia].
    + constructor; [|constructor]. apply ordered_keys_exact. left. reflexivity.
  - vm_compute. reflexivity.
  - exists t', rows'. exact (conj H1 (conj H2 H3)).
Defined.

Lemma copartitioned_join_witness :
  join_rows kFullOuter limit_example merge_example (mkJoinOperatorPredicate 0 0 kEquals) ≡ₚ
  join_of kFullOuter limit_example merge_example (mkJoinOperatorPredicate 0 0 kEquals)
    [mkRowId 0 1; mkRowId 1 1] [] ++
  join_of kFullOuter limit_example merge_example (mkJoinOperatorPredicate 0 0 kEquals)
    [mkRowId 0 0; mkRowId 1 0; mkRowId 1 2]
    [mkRowId 0 0; mkRowId 0 1; mkRowId 0 2; mkRowId 1 0; mkRowId 1 1].
Proof.
  rewrite (copartitioned_join example_hash limit_example merge_example (mkJoinOperatorPredicate 0 0 kEquals) kFullOuter 2).
  - vm_compute. reflexivity.
  - intros h dt x y. destruct dt; try reflexivity. unfold value_eqb. cbn. destruct (Z.compare_spec x y) as [->| |]; done.
  - reflexivity.
  - lia.
Defined.

Lemma PartitionOperator_empty_partition_witness :
  PartitionOperator example_hash [0%nat] 2 true merge_example = Err UndefinedBehaviour.
Proof.
  apply (PartitionOperator_empty_partition example_hash [0%nat] 2 merge_example 0 merge_example_partitionable).
  - constructor; [apply Nat.ltb_lt; reflexivity|constructor].
  - discriminate.
  - constructor; [|constructor]. apply ordered_keys_exact. left. reflexivity.
  - lia.
  - vm_compute. reflexivity.
Defined.

Definition leading_empty_chunk : Table :=
  mkTable [mkTableColumnDefinition "k" kInt false] [[mkValueSegment kInt [] None]; [mkValueSegment kInt [5] None]] None.

Lemma leading_empty_chunk_joinable : joinable leading_empty_chunk.
Proof.
  split; [..|intros n H; discriminate H].
  - split; cbn; [lia|done|done| |by repeat constructor]. intros c Hc. rewrite !elem_of_cons in Hc.
    destruct Hc as [->|[->|Hc]]; [exists 0%nat|exists 1%nat|by apply elem_of_nil in Hc];
      (split; [done|repeat constructor|repeat constructor|repeat constructor|done|repeat constructor]); done.
  - intros c s i Hc Hs. cbn in Hc. rewrite !elem_of_cons in Hc. destruct Hc as [->|[->|Hc]];
      [| |by apply elem_of_nil in Hc]; rewrite list_elem_of_singleton in Hs; subst s; by destruct i as [|[|i]].
Qed.

Lemma PartitionOperator_empty_chunk_witness :
  PartitionOperator example_hash [0%nat] 2 false leading_empty_chunk = Err UndefinedBehaviour.
Proof.
  apply (PartitionOperator_empty_chunk example_hash [0%nat] 2 leading_empty_chunk [mkValueSegment kInt [] None]
    leading_empty_chunk_joinable).
  - by repeat constructor.
  - reflexivity.
  - reflexivity.
  - vm_compute. discriminate.
  - vm_compute. reflexivity.
  - constructor; [apply Nat.ltb_lt; reflexivity|constructor].
  - lia.
Defined.
