(* ===== verification/Aggregate.v ===== *)
(** * Aggregate functions

    [src/lib/operator/aggregate_traits.hpp], [abstract_aggregate_operator.hpp/.cpp] and the
    [WriteAggregateValues] family of [aggregate_hash_operator.cpp]: for every aggregate
    function the type of its results, the accumulator kept per group, the update for a new
    value and the value written for a group.  [std::unordered_set] is the list of its
    elements; two values are the same element when [==] holds, so a NaN never is. *)

From Stdlib Require Import SpecFloat.
From S2P Require Export Partition.

(** ** Traits *)

(** [AggregateTraits<ColumnType, f>::AggregateType]. *)
Definition AggregateType (t : DataType) (f : AggregateFunction) : DataType :=
  match f with
  | kCount | kCountDistinct => kLong
  | kMin | kMax | kAny => t
  | kAvg | kStandardDeviationSample => if is_arithmetic_type t then kDouble else t
  | kSum => if is_integral t then kLong else if IsFloatingPointDataType t then kDouble else t
  | kStringAgg => kString
  end.

(** ** Accumulators *)

(** [StandardDeviationSampleData]: the four doubles by their role. *)
Record StandardDeviationSampleData : Set := mkStandardDeviation {
  sd_count : spec_float;
  sd_mean : spec_float;
  sd_squared_distance_from_mean : spec_float;
  sd_result : spec_float }.

Definition Accumulator (t : DataType) (f : AggregateFunction) : Set :=
  match f with
  | kStandardDeviationSample => StandardDeviationSampleData
  | kStringAgg => list (RowId * string)
  | kCountDistinct => list (ctype t)
  | kMin | kMax | kAny | kSum | kAvg | kCount => ctype (AggregateType t f)
  end.

Definition double_zero : spec_float := S754_zero false.

Definition default_accumulator (t : DataType) (f : AggregateFunction) : Accumulator t f :=
  match f return Accumulator t f with
  | kStandardDeviationSample => mkStandardDeviation double_zero double_zero double_zero double_zero
  | kStringAgg => []
  | kCountDistinct => []
  | kMin => default _ | kMax => default _ | kAny => default _
  | kSum => default _ | kAvg => default _ | kCount => default _
  end.

(** ** [AggregateFunctionBuilder] *)
Definition aggregate_min (t : DataType) (new_value : ctype t) (count : nat) (accumulator : ctype t) : ctype t :=
  if bool_decide (count = 0%nat) || holds kLessThan (compare t new_value accumulator) then new_value else accumulator.

Definition aggregate_max (t : DataType) (new_value : ctype t) (count : nat) (accumulator : ctype t) : ctype t :=
  if bool_decide (count = 0%nat) || holds kGreaterThan (compare t new_value accumulator) then new_value else accumulator.

(** [accumulator += static_cast<AggregateType>(new_value)]; the instances for strings compile
    but [ValidateAggregates] rejects them. *)
Definition aggregate_sum (t ta : DataType) (new_value : ctype t) (accumulator : ctype ta) : result (ctype ta) :=
  x ← static_cast t ta new_value; arith op_plus ta accumulator x.

(** Welford's algorithm. *)
Definition aggregate_standard_deviation (value : spec_float) (a : StandardDeviationSampleData) : StandardDeviationSampleData :=
  let one := float_of_Z kDouble 1 in
  let count := SFadd 53 1024 (sd_count a) one in
  let delta := SFsub 53 1024 value (sd_mean a) in
  let mean := SFadd 53 1024 (sd_mean a) (SFdiv 53 1024 delta count) in
  let squared_distance_from_mean :=
    SFadd 53 1024 (sd_squared_distance_from_mean a) (SFmul 53 1024 delta (SFsub 53 1024 value mean)) in
  let result :=
    if SFltb one count
    then SFsqrt 53 1024 (SFdiv 53 1024 squared_distance_from_mean (SFsub 53 1024 count one))
    else sd_result a in
  mkStandardDeviation count mean squared_distance_from_mean result.

(** [DistinctValues::insert]. *)
Definition insert_distinct (t : DataType) (values : list (ctype t)) (v : ctype t) : list (ctype t) :=
  if existsb (λ x, value_eqb t x v) values then values else values ++ [v].

(** The update of [AggregateSegment] for a value that is not NULL: COUNT(DISTINCT) inserts,
    the others call the function of their builder. *)
Definition aggregator (t : DataType) (f : AggregateFunction) (new_value : ctype t) (count : nat)
    (accumulator : Accumulator t f) (row_id : RowId) : result (Accumulator t f) :=
  match f return Accumulator t f → result (Accumulator t f) with
  | kMin => λ a, Ok (aggregate_min t new_value count a)
  | kMax => λ a, Ok (aggregate_max t new_value count a)
  | kSum => λ a, aggregate_sum t (AggregateType t kSum) new_value a
  | kAvg => λ a, aggregate_sum t (AggregateType t kAvg) new_value a
  | kStandardDeviationSample => λ a,
      if is_arithmetic_type t
      then x ← static_cast t kDouble new_value; Ok (aggregate_standard_deviation x a)
      else Err AssertionFailed
  | kStringAgg => λ a,
      match t return ctype t → result (list (RowId * string)) with
      | kString => λ s, Ok (a ++ [(row_id, s)])
      | _ => λ _, Err AssertionFailed
      end new_value
  | kCountDistinct => λ a, Ok (insert_distinct t a new_value)
  | kCount => λ a, Ok a
  | kAny => λ a, Ok a
  end accumulator.

(** ** Written values *)
Record AggregateResult (A : Set) : Set := mkResult {
  accumulator : A;
  aggregate_count : nat;
  result_row_id : option RowId }.      (* [None] is kNullRowId *)
Arguments mkResult {A} _ _ _.
Arguments accumulator {A} _.
Arguments aggregate_count {A} _.
Arguments result_row_id {A} _.

Definition kStringAggDefaultDelimiter : string := ",".

(** [concatenated += delimiter] only once something has been written. *)
Definition concatenate (values : list string) : string :=
  foldl (λ concatenated v, if bool_decide (concatenated = EmptyString) then (concatenated ++ v)%string
                           else (concatenated ++ kStringAggDefaultDelimiter ++ v)%string) EmptyString values.

(** [value_segment->Get(offset)] of a typed segment. *)
Definition typed_get (t : Table) (column_id : nat) (dt : DataType) (r : RowId) : result (ctype dt) :=
  c ← GetChunk t (chunk_id r); values ← typed_values dt c column_id; vec_at values (chunk_offset r).

(** One sort column of STRING_AGG ... WITHIN GROUP. *)
Definition string_agg_sort_pass (t : Table) (result_values : list RowId) (previous : list RowId) (d : SortColumnDefinition) :
    result (list RowId) :=
  let column_id := N.to_nat (scd_column_id d) in
  data_type ← ColumnDataType t column_id;
  ResolveDataType data_type (λ dt,
    let rows := match previous with [] => result_values | _ => previous end in
    pairs ← mapR (λ r, v ← typed_get t column_id dt r; Ok (r, v)) rows;
    Ok (stable_sort (λ a b, comparator dt (scd_sort_mode d) a.2 b.2) pairs).*1).

(** [WriteAggregateValues] of STRING_AGG, for one group. *)
Definition write_string_agg (t : Table) (aggregate : expr) (values : list (RowId * string)) : result string :=
  match aggregate with
  | StringAgg argument (Some sort) =>
      position_list ← foldR (string_agg_sort_pass t values.*1) [] (rev sort);
      match argument with
      | PqpColumn id _ _ _ => parts ← mapR (typed_get t (N.to_nat id) kString) position_list; Ok (concatenate parts)
      | _ => Err UndefinedBehaviour
      end
  | StringAgg _ None => Ok (concatenate values.*2)
  | _ => Err UndefinedBehaviour        (* the static_pointer_cast to StringAggAggregateExpression *)
  end.

(** [accumulator / static_cast<double>(count)]; AVG of strings fails. *)
Definition write_average (t : DataType) : ctype (AggregateType t kAvg) → nat → result (ctype (AggregateType t kAvg)) :=
  match t return ctype (AggregateType t kAvg) → nat → result (ctype (AggregateType t kAvg)) with
  | kInt | kLong | kFloat | kDouble => λ a n, Ok (SFdiv 53 1024 a (float_of_Z kDouble (Z.of_nat n)))
  | kString | kNull => λ _ _, Err AssertionFailed
  end.

Definition write_standard_deviation (t : DataType) : StandardDeviationSampleData → result (ctype (AggregateType t kStandardDeviationSample)) :=
  match t return StandardDeviationSampleData → result (ctype (AggregateType t kStandardDeviationSample)) with
  | kInt | kLong | kFloat | kDouble => λ a, Ok (sd_result a)
  | kString | kNull => λ _, Err AssertionFailed
  end.

(** The value of a group; [None] is NULL. *)
Definition WriteAggregateValue (input_table : Table) (aggregate : expr) (t : DataType) (f : AggregateFunction)
    (a : Accumulator t f) (count : nat) : result (option (ctype (AggregateType t f))) :=
  match f return Accumulator t f → result (option (ctype (AggregateType t f))) with
  | kMin => λ a, Ok (if (0 <? count)%nat then Some a else None)
  | kMax => λ a, Ok (if (0 <? count)%nat then Some a else None)
  | kSum => λ a, Ok (if (0 <? count)%nat then Some a else None)
  | kAny => λ a, Ok (if (0 <? count)%nat then Some a else None)
  | kCount => λ _, Ok (Some (Z.of_nat count))
  | kCountDistinct => λ a, Ok (Some (Z.of_nat (length a)))
  | kAvg => λ a, if (0 <? count)%nat then v ← write_average t a count; Ok (Some v)
                 else if is_arithmetic_type t then Ok None else Err AssertionFailed
  | kStandardDeviationSample => λ a, if (1 <? count)%nat then v ← write_standard_deviation t a; Ok (Some v)
                 else if is_arithmetic_type t then Ok None else Err AssertionFailed
  | kStringAgg => λ a, v ← write_string_agg input_table aggregate a; Ok (if (0 <? count)%nat then Some v else None)
  end a.

Definition kNeedsNull (f : AggregateFunction) : bool := negb (bool_decide (f = kCount) || bool_decide (f = kCountDistinct)).

(** ** Aggregate expressions as the operator sees them *)
Definition GetAggregateFunction (e : expr) : result AggregateFunction :=
  match e with Aggregate f _ => Ok f | StringAgg _ _ => Ok kStringAgg | _ => Err UndefinedBehaviour end.

(** The column id behind the static_cast of the argument to PqpColumnExpression. *)
Definition AggregateColumn (e : expr) : result ColumnId :=
  match e with
  | Aggregate _ (PqpColumn i _ _ _) | StringAgg (PqpColumn i _ _ _) _ => Ok i
  | _ => Err UndefinedBehaviour
  end.

(** [AggregateExpression::Description] of an aggregate of a column, and so its column name. *)
Definition AggregateDescription (e : expr) : result string :=
  f ← GetAggregateFunction e;
  match e with
  | Aggregate _ (PqpColumn id _ _ name) | StringAgg (PqpColumn id _ _ name) _ =>
      if decide (f = kCountDistinct) then Ok ("COUNT(DISTINCT " ++ name ++ ")")%string
      else if decide (f = kCount ∧ id = kInvalidColumnId) then Ok "COUNT(*)"%string
      else s ← left_at kAggregateFunctionToString f; Ok (s ++ "(" ++ name ++ ")")%string
  | _ => Err UndefinedBehaviour
  end.

(** [ValidateAggregates], the checks of a release build. *)
Definition ValidateAggregate (t : Table) (e : expr) : result unit :=
  f ← GetAggregateFunction e;
  column_id ← AggregateColumn e;
  if decide (column_id = kInvalidColumnId) then assert_ (bool_decide (f = kCount)) AssertionFailed
  else
    dt ← ColumnDataType t (N.to_nat column_id);
    assert_ (negb (bool_decide (dt = kString)) ||
             negb (bool_decide (f = kSum) || bool_decide (f = kAvg) || bool_decide (f = kStandardDeviationSample))) AssertionFailed.

Definition ValidateAggregates (t : Table) (aggregates : list expr) : result unit :=
  foldR (λ _ e, ValidateAggregate t e) tt aggregates.
