(* ===== verification/AggregateHash.v ===== *)
(** * The hash aggregate operator

    [src/lib/operator/aggregate_hash_operator.cpp]: GROUP BY values become numeric keys, one
    per row ([PartitionByGroupByKeys]); every aggregate looks its rows' results up by key and
    caches the result index in the key for the aggregates that follow ([GetOrAddResult],
    [AggregateSegment]); finally the groups are written out ([WriteGroupByOutput],
    [WriteAggregateOutput]).  An aggregate key is the list of its entries; without GROUP BY
    columns it is the empty list, which stands for [EmptyAggregateKey].  The partitioning
    jobs of different columns write different entries, so they are run in column order.
    Result indices and sizes are [size_t]; the doubling of [results] is exact below 2^52. *)

From Stdlib Require Import SpecFloat.
From S2P Require Export Aggregate.

Abbreviation AggregateKey := (list N).
Abbreviation KeysPerChunk := (list (list AggregateKey)).

Definition kCacheMask : N := (2 ^ 63)%N.
Definition is_cached (entry : N) : bool := N.testbit entry 63.

(** ** Results of one aggregate *)
Record ResultTable (A : Set) : Set := mkResults {
  result_ids : gmap AggregateKey nat;
  results : list (AggregateResult A) }.
Arguments mkResults {A} _ _.
Arguments result_ids {A} _.
Arguments results {A} _.

Section Lookup.
Context {A : Set} (fresh : A).

Definition empty_result : AggregateResult A := mkResult fresh 0 None.
Definition at_row (r : RowId) (x : AggregateResult A) : AggregateResult A := mkResult (accumulator x) (aggregate_count x) (Some r).

(** The returned number is the index of the result; the key may get its cached form. *)
Definition GetOrAddResult (cache : bool) (rt : ResultTable A) (key : AggregateKey) (row_id : RowId) :
    result (ResultTable A * AggregateKey * nat) :=
  match key with
  | [] =>
      let rs := match results rt with [] => [at_row row_id empty_result] | rs => rs end in
      Ok (mkResults (result_ids rt) rs, key, (length rs - 1)%nat)
  | first :: rest =>
      if cache && is_cached first then
        let result_id := N.to_nat (N.lxor first kCacheMask) in
        let rs := if (length (results rt) <=? result_id)%nat
                  then resize empty_result ((result_id + 1) * 3 / 2) (results rt) else results rt in
        x ← vec_get rs result_id;
        Ok (mkResults (result_ids rt) (<[result_id := at_row row_id x]> rs), key, result_id)
      else
        _ ← assert_ (cache || negb (is_cached first)) AssertionFailed;
        let cached id := if cache then N.lor kCacheMask (N.of_nat id) :: rest else key in
        match result_ids rt !! key with
        | Some result_id => Ok (rt, cached result_id, result_id)
        | None =>
            let result_id := length (results rt) in
            Ok (mkResults (<[key := result_id]> (result_ids rt)) (results rt ++ [at_row row_id empty_result]),
                cached result_id, result_id)
        end
  end.

(** The key of a row, shared by all rows when nothing is grouped. *)
Definition GetAggregateKey (grouped : bool) (keys : KeysPerChunk) (r : RowId) : result AggregateKey :=
  if grouped then row ← vec_get keys (chunk_id r); vec_get row (chunk_offset r) else Ok [].

Definition set_key (grouped : bool) (keys : KeysPerChunk) (r : RowId) (key : AggregateKey) : KeysPerChunk :=
  if grouped then alter (λ row, <[chunk_offset r := key]> row) (chunk_id r) keys else keys.

(** One row: find its result and update accumulator and count. *)
Definition visit_row (grouped cache : bool) (update : RowId → A * nat → result (A * nat))
    (st : KeysPerChunk * ResultTable A) (r : RowId) : result (KeysPerChunk * ResultTable A) :=
  key ← GetAggregateKey grouped st.1 r;
  '(rt, key', id) ← GetOrAddResult cache st.2 key r;
  x ← vec_get (results rt) id;
  ac ← update r (accumulator x, aggregate_count x);
  Ok (set_key grouped st.1 r key',
      mkResults (result_ids rt) (<[id := mkResult ac.1 ac.2 (result_row_id x)]> (results rt))).
End Lookup.

(** ** Contexts *)
Record AggregateContext : Set := mkContext {
  context_type : DataType;
  context_function : AggregateFunction;
  context_results : ResultTable (Accumulator context_type context_function) }.

Definition CreateAggregateContext (dt : DataType) (f : AggregateFunction) (expected_result_size : nat) : AggregateContext :=
  mkContext dt f (mkResults ∅ (replicate expected_result_size (empty_result (default_accumulator dt f)))).

(** [process_position] of [AggregateSegment], after the lookup. *)
Definition process_value (t : Table) (column_id : nat) (dt : DataType) (f : AggregateFunction) (r : RowId)
    (ac : Accumulator dt f * nat) : result (Accumulator dt f * nat) :=
  value ← value_at t column_id r;
  if VariantIsNull value then Ok ac
  else v ← variant_get dt value; a ← aggregator dt f v ac.2 ac.1 r; Ok (a, S ac.2).

(** COUNT of rows; DISTINCT only looks the results up. *)
Definition count_row {A : Set} (r : RowId) (ac : A * nat) : result (A * nat) := Ok (ac.1, S ac.2).
Definition keep_row {A : Set} (r : RowId) (ac : A * nat) : result (A * nat) := Ok ac.

Definition visit_rows (grouped cache : bool) (update : ∀ dt f, RowId → Accumulator dt f * nat → result (Accumulator dt f * nat))
    (rows : list RowId) (st : KeysPerChunk * AggregateContext) : result (KeysPerChunk * AggregateContext) :=
  let ctx := st.2 in
  kr ← foldR (visit_row (default_accumulator (context_type ctx) (context_function ctx)) grouped cache
                (update (context_type ctx) (context_function ctx))) (st.1, context_results ctx) rows;
  Ok (kr.1, mkContext (context_type ctx) (context_function ctx) kr.2).

(** COUNT of all rows without GROUP BY: the size of the chunk is added at once. *)
Definition count_chunk (size : nat) (ctx : AggregateContext) : AggregateContext :=
  let fresh := empty_result (default_accumulator (context_type ctx) (context_function ctx)) in
  let x := match results (context_results ctx) with x :: _ => x | [] => fresh end in
  mkContext (context_type ctx) (context_function ctx)
    (mkResults (result_ids (context_results ctx)) [mkResult (accumulator x) (aggregate_count x + size) (Some (mkRowId 0 0))]).

(** ** Keys of the GROUP BY columns *)
Definition kShortStringIdCounter : N := 5000000000%N.
Definition kStringLengthThreshold : nat := 5.

Definition int_to_uint (value : Z) : N := Z.to_N (value - int32_min).

Definition char_to_uint (s : string) (i : nat) (bits : N) : N :=
  match String.get i s with Some c => N.shiftl (Ascii.N_of_ascii c) bits | None => 0%N end.

(** The id of a short string, straight from its bytes. *)
Definition short_string_id (s : string) : option N :=
  if negb (String.length s <? kStringLengthThreshold)%nat then None else
  match String.length s with
  | 0%nat => Some 1%N
  | 1%nat => Some (2 + char_to_uint s 0 0)%N
  | 2%nat => Some (258 + char_to_uint s 1 8 + char_to_uint s 0 0)%N
  | 3%nat => Some (65794 + char_to_uint s 2 16 + char_to_uint s 1 8 + char_to_uint s 0 0)%N
  | 4%nat => Some (16843010 + char_to_uint s 3 24 + char_to_uint s 2 16 + char_to_uint s 1 8 + char_to_uint s 0 0)%N
  | _ => None
  end.

(** [id_map] and [id_counter]. *)
Definition IdMap (dt : DataType) : Set := (list (ctype dt * N) * N)%type.

Definition try_emplace (dt : DataType) (m : IdMap dt) (v : ctype dt) : IdMap dt * N :=
  match find (λ e, value_eqb dt e.1 v) m.1 with
  | Some e => (m, e.2)
  | None => ((m.1 ++ [(v, m.2)], (m.2 + 1)%N), m.2)
  end.

Definition partition_id (dt : DataType) (m : IdMap dt) (v : ctype dt) : IdMap dt * N :=
  match dt return IdMap dt → ctype dt → IdMap dt * N with
  | kString => λ m s, match short_string_id s with Some id => (m, id) | None => try_emplace kString m s end
  | dt => λ m v, try_emplace dt m v
  end m v.

Definition first_id (dt : DataType) : N := match dt with kString => kShortStringIdCounter | _ => 1%N end.

(** The key entry of one row of a column, the id 0 for NULL. *)
Definition key_entry (t : Table) (column_id : nat) (dt : DataType) (st : IdMap dt * list N) (r : RowId) : result (IdMap dt * list N) :=
  value ← value_at t column_id r;
  if VariantIsNull value then Ok (st.1, st.2 ++ [0%N])
  else
    v ← variant_get dt value;
    match dt return ctype dt → IdMap dt * list N → result (IdMap dt * list N) with
    | kInt => λ v st, Ok (st.1, st.2 ++ [(int_to_uint v + 1)%N])
    | dt => λ v st, let mi := partition_id dt st.1 v in Ok (mi.1, st.2 ++ [mi.2])
    end v st.

Definition column_entries (t : Table) (column_id : nat) (dt : DataType) : result (IdMap dt * list N) :=
  rows ← column_row_ids t column_id;
  foldR (key_entry t column_id dt) (([], first_id dt), []) rows.

(** [keys[chunk_offset][group_by_column_index] = id] for all rows in order. *)
Definition write_entry (group_by_column_index : nat) (keys : KeysPerChunk) (re : RowId * N) : result KeysPerChunk :=
  key ← GetAggregateKey true keys re.1;
  Ok (set_key true keys re.1 (<[group_by_column_index := re.2]> key)).

(** [1.2] as a double. *)
Definition immediate_key_factor : spec_float := S754_finite false 5404319552844595 (-52).

(** The immediate key shortcut for a single INT column. *)
Definition immediate_keys (t : Table) (keys : KeysPerChunk) : result (option (KeysPerChunk * nat)) :=
  row_count ← (RowCount false t).2;
  let entries := filter (λ k, k ≠ 0%N) (concat (concat keys)) in
  let min_key := foldr N.min (2 ^ 64 - 1)%N entries in
  let max_key := foldr N.max 0%N entries in
  if (0 <? max_key)%N &&
     SFltb (float_of_Z kDouble (Z.of_N (max_key - min_key)))
           (SFmul 53 1024 (float_of_Z kDouble (Z.of_nat row_count)) immediate_key_factor)
  then
    let rewritten k := if (k =? 0)%N then N.lor k kCacheMask else N.lor (k - min_key + 1) kCacheMask in
    Ok (Some (map (map (map rewritten)) keys, N.to_nat (max_key - min_key + 2)))
  else Ok None.

(** [keys_per_chunk], [expected_result_size_] and [use_immediate_key_shortcut_]. *)
Record Partitioned : Type := mkPartitioned {
  keys_per_chunk : KeysPerChunk;
  expected_result_size : nat;
  use_immediate_key_shortcut : bool }.

Definition perform_partitioning (t : Table) (single : bool) (p : Partitioned) (ic : nat * nat) : result Partitioned :=
  let '(group_by_column_index, group_by_column_id) := ic in
  data_type ← ColumnDataType t group_by_column_id;
  ResolveDataType data_type (λ dt,
    rows ← column_row_ids t group_by_column_id;
    es ← column_entries t group_by_column_id dt;
    keys ← foldR (write_entry group_by_column_index) (keys_per_chunk p) (zip rows es.2);
    if bool_decide (dt = kInt) then
      if single then
        short ← immediate_keys t keys;
        match short with
        | Some (keys', size) => Ok (mkPartitioned keys' size true)
        | None => Ok (mkPartitioned keys (expected_result_size p) (use_immediate_key_shortcut p))
        end
      else Ok (mkPartitioned keys (expected_result_size p) (use_immediate_key_shortcut p))
    else Ok (mkPartitioned keys (Nat.max (expected_result_size p) (length es.1.1)) (use_immediate_key_shortcut p))).

Definition PartitionByGroupByKeys (t : Table) (group_by : list nat) : result Partitioned :=
  match group_by with
  | [] => Ok (mkPartitioned [] 0 false)
  | _ =>
      sizes ← for_range (ChunkCount t) (λ i, c ← GetChunk t i; Ok (chunk_Size c));
      let keys := (λ n, replicate n (replicate (length group_by) 0%N)) <$> sizes in
      foldR (perform_partitioning t (bool_decide (length group_by = 1%nat))) (mkPartitioned keys 0 false) (imap pair group_by)
  end.

(** ** Aggregation *)
Definition has_aggregate_functions (aggregates : list expr) : result bool :=
  fs ← mapR GetAggregateFunction aggregates;
  Ok (negb (bool_decide (fs = [])) && negb (forallb (λ f, bool_decide (f = kAny)) fs)).

Definition create_context (t : Table) (size : nat) (e : expr) : result AggregateContext :=
  f ← GetAggregateFunction e;
  column_id ← AggregateColumn e;
  if decide (column_id = kInvalidColumnId) then
    _ ← assert_ (bool_decide (f = kCount)) AssertionFailed; Ok (CreateAggregateContext kInt kCount size)
  else
    dt ← ColumnDataType t (N.to_nat column_id);
    ResolveDataType dt (λ dt, Ok (CreateAggregateContext dt f size)).

(** The dummy context of DISTINCT comes after those of the aggregates. *)
Definition create_contexts (t : Table) (size : nat) (aggregates : list expr) : result (list AggregateContext) :=
  contexts ← mapR (create_context t size) aggregates;
  has ← has_aggregate_functions aggregates;
  Ok (contexts ++ (if (has : bool) then [] else [CreateAggregateContext kInt kMin size])).

(** One aggregate over one chunk. *)
Definition aggregate_segment (t : Table) (grouped cache : bool) (i : nat) (st : KeysPerChunk * list AggregateContext)
    (ie : nat * expr) : result (KeysPerChunk * list AggregateContext) :=
  let '(aggregate_index, aggregate) := ie in
  f ← GetAggregateFunction aggregate;
  column_id ← AggregateColumn aggregate;
  input_chunk ← GetChunk t i;
  ctx ← vec_get st.2 aggregate_index;
  if decide (column_id = kInvalidColumnId) then
    _ ← assert_ (bool_decide (f = kCount)) AssertionFailed;
    if (grouped : bool) then
      kc ← visit_rows grouped cache (λ _ _, count_row) (mkRowId i <$> seq 0 (chunk_Size input_chunk)) (st.1, ctx);
      Ok (kc.1, <[aggregate_index := kc.2]> st.2)
    else Ok (st.1, <[aggregate_index := count_chunk (chunk_Size input_chunk) ctx]> st.2)
  else
    segment ← chunk_GetSegment input_chunk (N.to_nat column_id);
    if decide (f = kAny) then Ok st
    else
      kc ← visit_rows grouped cache (process_value t (N.to_nat column_id)) (mkRowId i <$> seq 0 (seg_size segment)) (st.1, ctx);
      Ok (kc.1, <[aggregate_index := kc.2]> st.2).

(** DISTINCT over one chunk.  The first context is used as an [AggregateContext<int8_t, kMin>];
    with an ANY aggregate in front it is a context of the ANY column, whose elements have the
    same layout unless the column holds strings. *)
Definition distinct_chunk (t : Table) (grouped cache : bool) (i : nat) (st : KeysPerChunk * list AggregateContext) :
    result (KeysPerChunk * list AggregateContext) :=
  input_chunk ← GetChunk t i;
  ctx ← vec_get st.2 0;
  _ ← assert_ (negb (bool_decide (context_type ctx = kString))) UndefinedBehaviour;
  kc ← visit_rows grouped cache (λ _ _, keep_row) (mkRowId i <$> seq 0 (chunk_Size input_chunk)) (st.1, ctx);
  Ok (kc.1, <[0%nat := kc.2]> st.2).

Definition aggregate_chunk (t : Table) (grouped shortcut has : bool) (aggregates : list expr)
    (st : KeysPerChunk * list AggregateContext) (i : nat) : result (KeysPerChunk * list AggregateContext) :=
  if has then foldR (aggregate_segment t grouped (bool_decide (1 < length st.2)%nat || shortcut) i) st (imap pair aggregates)
  else distinct_chunk t grouped shortcut i st.

(** [Aggregate<AggregateKey>]: the contexts after the last chunk. *)
Definition AggregateTable (t : Table) (aggregates : list expr) (group_by : list nat) : result (list AggregateContext) :=
  _ ← ValidateAggregates t aggregates;
  p ← PartitionByGroupByKeys t group_by;
  has ← has_aggregate_functions aggregates;
  contexts ← create_contexts t (expected_result_size p) aggregates;
  st ← foldR (aggregate_chunk t (negb (bool_decide (group_by = []))) (use_immediate_key_shortcut p) has aggregates)
         (keys_per_chunk p, contexts) (seq 0 (ChunkCount t));
  Ok st.2.

(** ** Output *)
Record Output : Type := mkOutput {
  output_column_definitions : TableColumnDefinitions;
  output_segments : list (option ValueSegment) }.

Definition position_list {A : Set} (rs : list (AggregateResult A)) : list RowId := omap result_row_id rs.

Definition write_column (o : Output) (output_column_id : nat) (d : TableColumnDefinition) (s : ValueSegment) : Output :=
  mkOutput (<[output_column_id := d]> (output_column_definitions o)) (<[output_column_id := Some s]> (output_segments o)).

Definition is_null {A} (o : option A) : bool := match o with Some _ => false | None => true end.

(** The dynamic_pointer_cast to the column's segment type, then [GetTypedValue]. *)
Definition typed_cell (t : Table) (column_id : nat) (dt : DataType) (r : RowId) : result (option (ctype dt)) :=
  c ← GetChunk t (chunk_id r);
  s ← chunk_GetSegment c column_id;
  match decide (seg_type s = dt) with
  | left H => v ← seg_GetTypedValue s (chunk_offset r); Ok (eq_rect _ (λ t, option (ctype t)) v _ H)
  | right _ => Err UndefinedBehaviour
  end.

(** One GROUP BY or ANY column, read at the row ids of the results. *)
Definition write_unaggregated (t : Table) (positions : list RowId) (o : Output) (io : nat * nat) : result Output :=
  let '(input_column_id, output_column_id) := io in
  name ← ColumnName t input_column_id;
  data_type ← ColumnDataType t input_column_id;
  column_is_nullable ← ColumnIsNullable t input_column_id;
  ResolveDataType data_type (λ dt,
    cells ← mapR (typed_cell t input_column_id dt) positions;
    Ok (write_column o output_column_id (mkTableColumnDefinition name data_type column_is_nullable)
          (mkValueSegment dt (from_option id (default dt) <$> cells)
             (if (column_is_nullable : bool) then Some (is_null <$> cells) else None)))).

Definition unaggregated_columns (aggregates : list expr) (group_by : list nat) : result (list (nat * nat)) :=
  any ← mapR (λ ie : nat * expr,
    f ← GetAggregateFunction ie.2;
    if decide (f = kAny) then c ← AggregateColumn ie.2; Ok [(N.to_nat c, (length group_by + ie.1)%nat)] else Ok [])
    (imap pair aggregates);
  Ok (imap (λ i c, (c, i)) group_by ++ concat any).

Definition WriteGroupByOutput (t : Table) (aggregates : list expr) (group_by : list nat) (positions : list RowId) (o : Output) :
    result Output :=
  cols ← unaggregated_columns aggregates group_by; foldR (write_unaggregated t positions) o cols.

(** [WriteAggregateValues]: one cell per result that belongs to a group. *)
Definition WriteAggregateValues (t : Table) (aggregate : expr) (ctx : AggregateContext) :
    result (list (option (ctype (AggregateType (context_type ctx) (context_function ctx))))) :=
  mapR (λ x, WriteAggregateValue t aggregate (context_type ctx) (context_function ctx) (accumulator x) (aggregate_count x))
    (filter (λ x, is_Some (result_row_id x)) (results (context_results ctx))).

Definition WriteAggregateOutput (t : Table) (aggregates : list expr) (group_by : list nat) (contexts : list AggregateContext)
    (o : Output) (ie : nat * expr) : result Output :=
  let '(aggregate_index, aggregate) := ie in
  f ← GetAggregateFunction aggregate;
  column_id ← AggregateColumn aggregate;
  data_type ← (if decide (column_id = kInvalidColumnId) then Ok kLong else ColumnDataType t (N.to_nat column_id));
  ResolveDataType data_type (λ _,
    if decide (f = kAny) then Ok o else
    ctx ← vec_get contexts aggregate_index;
    o ← (if decide (aggregate_index = 0%nat)
         then WriteGroupByOutput t aggregates group_by (position_list (results (context_results ctx))) o else Ok o);
    cells ← WriteAggregateValues t aggregate ctx;
    let cells := if decide (group_by = [] ∧ cells = [])
                 then [if kNeedsNull f then None else Some (default _)] else cells in
    name ← AggregateDescription aggregate;
    aggregate_data_type ← (let a := AggregateDataType (context_function ctx) (context_type ctx) in
      if decide (a = kNull) then ColumnDataType t (N.to_nat column_id) else Ok a);
    Ok (write_column o (length group_by + aggregate_index) (mkTableColumnDefinition name aggregate_data_type (kNeedsNull f))
          (mkValueSegment (AggregateType (context_type ctx) (context_function ctx))
             (from_option id (default _) <$> cells) (if kNeedsNull f then Some (is_null <$> cells) else None)))).

(** The constructor's check and [OnExecute]. *)
Definition AggregateHashOperator (aggregates : list expr) (group_by : list nat) (t : Table) : result Table :=
  _ ← assert_ (negb (bool_decide (aggregates = []) && bool_decide (group_by = []))) AssertionFailed;
  contexts ← AggregateTable t aggregates group_by;
  let number_output_columns := (length group_by + length aggregates)%nat in
  let o := mkOutput (replicate number_output_columns (mkTableColumnDefinition EmptyString kNull false))
             (replicate number_output_columns None) in
  has ← has_aggregate_functions aggregates;
  o ← (if (has : bool) then Ok o else
       ctx ← vec_get contexts 0; WriteGroupByOutput t aggregates group_by (position_list (results (context_results ctx))) o);
  o ← foldR (WriteAggregateOutput t aggregates group_by contexts) o (imap pair aggregates);
  let output_table := make_table (output_column_definitions o) in
  first ← vec_at (output_segments o) 0;
  first ← of_option first UndefinedBehaviour;
  if (0 <? seg_size first)%nat then
    segments ← mapR (λ s, of_option s UndefinedBehaviour) (output_segments o); AppendChunk output_table segments
  else Ok output_table.
