(* ===== verification/AggregateKeys.v ===== *)
(** * The keys of GROUP BY rows

    [PartitionByGroupByKeys] gives every row a key such that two rows get equal keys exactly
    when they agree, NULL included, in every GROUP BY column; no key looks like a cached one.
    The short string ids, the id map and the immediate keys each have their own lemma. *)

From Stdlib Require Import SpecFloat.
From S2P Require Export AggregateHash.

(** ** Equal cells *)

(** Values that GROUP BY puts together: NULL with NULL, otherwise [==]. *)
Definition same_cell (a b : AllTypeVariant) : bool := (VariantIsNull a && VariantIsNull b) || variant_eqb a b.

(** The representative of a class of equal values: the two zeros are one value. *)
Definition float_class (f : spec_float) : spec_float := match f with S754_zero _ => S754_zero false | f => f end.
Definition variant_class (v : AllTypeVariant) : AllTypeVariant :=
  match v with VFloat f => VFloat (float_class f) | VDouble f => VDouble (float_class f) | v => v end.

Lemma SFeqb_class x y : SFeqb x y = true ↔ float_class x = float_class y ∧ float_class x ≠ S754_nan.
Proof.
  unfold SFeqb. destruct x as [sx|sx| |sx mx ex], y as [sy|sy| |sy my ey]; cbn;
    repeat match goal with b : bool |- _ => destruct b end; cbn;
    try (split; [intros H; first [discriminate H|split; congruence]|intros [H1 H2]; first [discriminate H1|by destruct H2|done]]);
    (destruct (Z.compare_spec ex ey) as [->|He|He]; cbn; [|split; [done|]; intros [[=] _]; lia..]).
  all: change (Pos.compare_cont Eq mx my) with (Pos.compare mx my);
    destruct (Pos.compare_spec mx my) as [->|H|H]; cbn; (split; [by intros|]); intros [[=] _]; lia || done.
Qed.

Definition nan_free (v : AllTypeVariant) : Prop := v ≠ VFloat S754_nan ∧ v ≠ VDouble S754_nan.

Lemma variant_eqb_class a b : nan_free a → VariantIsNull a = false → variant_eqb a b = true ↔ variant_class a = variant_class b.
Proof.
  intros [Hf Hd] Hn. destruct a as [|x|x|x|x|x], b as [|y|y|y|y|y]; cbn in *; try done;
    rewrite ?Z.eqb_eq, ?SFeqb_class, ?String.eqb_eq; split; try congruence.
  - intros [-> _]. done.
  - intros [= H]. split; [done|]. intros E. apply Hf. destruct x; cbn in E; congruence.
  - intros [-> _]. done.
  - intros [= H]. split; [done|]. intros E. apply Hd. destruct x; cbn in E; congruence.
Qed.

Lemma same_cell_class a b : nan_free a → same_cell a b = true ↔ variant_class a = variant_class b.
Proof.
  intros Ha. unfold same_cell. destruct (VariantIsNull a) eqn:E.
  - destruct a; try done. by destruct b; cbn.
  - rewrite andb_false_l, orb_false_l. by apply variant_eqb_class.
Qed.

Lemma value_eqb_variant dt x y : value_eqb dt x y = true ↔ variant_eqb (to_variant dt x) (to_variant dt y) = true.
Proof.
  unfold value_eqb. destruct dt; cbn; try done.
  - rewrite Z.eqb_eq. destruct (Z.compare_spec x y); cbn; lia || (split; try done; lia).
  - rewrite Z.eqb_eq. destruct (Z.compare_spec x y); cbn; lia || (split; try done; lia).
  - rewrite String.eqb_eq. split.
    + intros H. apply String.compare_eq_iff. by destruct (String.compare x y) as [| |].
    + intros ->. pose proof (String.compare_antisym y y) as H. cbn in H |- *. by destruct (String.compare y y).
Qed.

(** ** Ids *)
Ltac ascii_bounds :=
  repeat match goal with
  | x : Ascii.ascii |- _ =>
      lazymatch goal with
      | _ : (Ascii.N_of_ascii x < 256)%N |- _ => fail
      | _ => pose proof (Ascii.N_ascii_bounded x)
      end
  end.

Lemma short_string_bounds s id : short_string_id s = Some id → (1 ≤ id < 5000000000)%N.
Proof.
  unfold short_string_id. destruct s as [|a [|b [|c [|d [|e s]]]]]; cbn; intros [= <-];
    ascii_bounds; rewrite ?N.shiftl_mul_pow2; lia.
Qed.

Lemma short_string_inj s s' id : short_string_id s = Some id → short_string_id s' = Some id → s = s'.
Proof.
  assert (∀ a b, Ascii.N_of_ascii a = Ascii.N_of_ascii b → a = b) as Hinj.
  { intros a b H. rewrite <- (Ascii.ascii_N_embedding a), <- (Ascii.ascii_N_embedding b). by rewrite H. }
  unfold short_string_id. destruct s as [|a [|b [|c [|d [|e s]]]]], s' as [|a' [|b' [|c' [|d' [|e' s']]]]];
    cbn; intros H1 H2; try discriminate H1; try discriminate H2; [done|..];
    injection H1 as H1; injection H2 as H2; rewrite ?N.shiftl_mul_pow2 in *;
    ascii_bounds; first [exfalso; lia|repeat f_equal; apply Hinj; lia].
Qed.

(** ** Cells of well-formed tables *)
Definition cell (t : Table) (j : nat) (r : RowId) : AllTypeVariant :=
  match value_at t j r with Ok v => v | Err _ => VNull end.

Lemma value_at_cell t j r :
  wf_table t → (j < GetColumnCount t)%nat → r ∈ row_ids t →
  value_at t j r = Ok (cell t j r) ∧
  (cell t j r = VNull ∨ ∃ x, cell t j r = to_variant (column_type t j) x) ∧ VariantIsNull (cell t j r) = bool_decide (cell t j r = VNull).
Proof.
  intros Ht Hj (c & Hc & Hr)%row_ids_elem. destruct (table_segment t Ht _ c j Hc Hj) as (s & Hs & Hw & Hl & _ & Hty & Hn).
  destruct (seg_index_ok s (chunk_offset r) Hw) as [v Hv]; [lia|].
  assert (value_at t j r = Ok v) as Hval.
  { unfold value_at, GetChunk, vec_get, chunk_GetSegment, vec_at. rewrite Hc. cbn [of_option rbind].
    rewrite Hs. cbn [of_option rbind]. done. }
  unfold cell. rewrite Hval. split; [done|]. split; [|by destruct v].
  destruct (VariantIsNull v) eqn:Hvn; [left; by destruct v|right].
  pose proof (seg_index_variant _ _ _ Hv Hvn) as Hx. rewrite Hty in Hx. destruct Hx as [x Hx]. exists x. symmetry. by apply variant_get_ok.
Qed.

(** Values GROUP BY can tell apart: no NaN, and integers within their C++ type. *)
Definition groupable (v : AllTypeVariant) : Prop :=
  nan_free v ∧ match v with VInt z => in_int32 z = true | _ => True end.

(** ** The entry of a value under an id map *)
Definition find_id (dt : DataType) (m : list (ctype dt * N)) (v : AllTypeVariant) : option N :=
  match find (λ e, variant_eqb (to_variant dt e.1) v) m with Some e => Some e.2 | None => None end.

Definition entry_of (dt : DataType) (m : IdMap dt) (v : AllTypeVariant) : option N :=
  match v with
  | VNull => Some 0%N
  | VInt z => Some (int_to_uint z + 1)%N
  | VString s => match short_string_id s with Some id => Some id | None => find_id dt m.1 v end
  | v => find_id dt m.1 v
  end.

Record wf_ids (dt : DataType) (m : IdMap dt) : Prop := {
  ids_range e : e ∈ m.1 → (first_id dt ≤ e.2 < m.2)%N;
  ids_nodup : NoDup m.1.*2;
  ids_length : (first_id dt + N.of_nat (length m.1) = m.2)%N }.

Lemma find_some {A} (f : A → bool) l x : find f l = Some x → x ∈ l ∧ f x = true.
Proof. intros [H1 H2]%List.find_some. by rewrite list_elem_of_In. Qed.

Lemma find_ext {A} (f g : A → bool) l : (∀ x, f x = g x) → find f l = find g l.
Proof. intros H. induction l as [|x l IH]; cbn; [done|]. by rewrite H, IH. Qed.

Lemma find_app {A} (f : A → bool) l k : find f (l ++ k) = match find f l with Some x => Some x | None => find f k end.
Proof. induction l as [|x l IH]; cbn; [done|]. by destruct (f x). Qed.

Lemma variant_eqb_right a v w : nan_free v → VariantIsNull v = false → same_cell v w = true → variant_eqb a v = variant_eqb a w.
Proof.
  intros Hv Hvn Hs%same_cell_class; [|done].
  assert (VariantIsNull w = false) as Hwn by (destruct v, w; cbn in *; congruence).
  destruct (VariantIsNull a) eqn:Ha; [by destruct a, v, w|].
  assert (∀ b, variant_eqb a b = variant_eqb b a) as Hsym.
  { intros b. destruct a, b; cbn; try done; [apply Z.eqb_sym|apply Z.eqb_sym|..|apply String.eqb_sym];
      apply Bool.eq_iff_eq_true; rewrite !SFeqb_class; intuition congruence. }
  rewrite !Hsym. apply Bool.eq_iff_eq_true. rewrite variant_eqb_class by done.
  assert (nan_free w) as Hw.
  { split; intros ->; destruct v; cbn in Hs; try discriminate Hs; injection Hs as Hs; destruct Hv as [H1 H2];
      first [apply H1; destruct f; cbn in Hs; congruence|apply H2; destruct f; cbn in Hs; congruence]. }
  rewrite variant_eqb_class by done. by rewrite Hs.
Qed.

Lemma entry_of_same dt m v w : groupable v → same_cell v w = true → entry_of dt m v = entry_of dt m w.
Proof.
  intros [Hv _] Hs. pose proof Hs as Hc%same_cell_class; [|done].
  destruct v as [|z|z|f|f|s], w as [|z'|z'|f'|f'|s']; cbn in Hc; try discriminate Hc; cbn [entry_of]; try done;
    try (injection Hc as <-; done); unfold find_id;
    by rewrite (find_ext _ _ m.1 (λ e, variant_eqb_right (to_variant dt e.1) _ _ Hv eq_refl Hs)).
Qed.

Lemma entry_of_inj dt m v w e :
  wf_ids dt m → groupable v → groupable w →
  (v = VNull ∨ ∃ x, v = to_variant dt x) → (w = VNull ∨ ∃ x, w = to_variant dt x) →
  entry_of dt m v = Some e → entry_of dt m w = Some e → same_cell v w = true.
Proof.
  intros [Hr Hnd Hf] [Hv Hvi] [Hw Hwi] Htv Htw H1 H2.
  assert (∀ u, find_id dt m.1 u = Some e → ∃ x, (x, e) ∈ m.1 ∧ variant_eqb (to_variant dt x) u = true) as Hfind.
  { intros u H. unfold find_id in H. destruct (find _ m.1) as [[x n]|] eqn:E; [|done]. injection H as <-.
    apply find_some in E as [? ?]. by exists x. }
  assert (∀ u u', nan_free u → VariantIsNull u = false → VariantIsNull u' = false → find_id dt m.1 u = Some e → find_id dt m.1 u' = Some e → same_cell u u' = true) as Hsame.
  { intros u u' Hu Hun Hun' (x & Hx & Ex)%Hfind (y & Hy & Ey)%Hfind.
    assert (x = y) as ->.
    { apply list_elem_of_lookup in Hx as [i Hi], Hy as [k Hk].
      assert (i = k) as ->; [|congruence]. eapply (NoDup_lookup _ _ _ _ Hnd); rewrite list_lookup_fmap; [by rewrite Hi|by rewrite Hk]. }
    assert (nan_free (to_variant dt y)) as Hnan.
    { assert (∀ g, SFeqb S754_nan g = true → False) as Hnn by (intros g; by unfold SFeqb).
      split; intros E; rewrite E in Ex; destruct u; cbn in Ex; try discriminate Ex; by apply Hnn in Ex. }
    assert (VariantIsNull (to_variant dt y) = false) as Hyn by (destruct (to_variant dt y); try done; by destruct u).
    apply variant_eqb_class in Ex, Ey; try done. apply same_cell_class; congruence. }
  assert (∀ u, find_id dt m.1 u = Some e → (first_id dt ≤ e)%N) as Hge.
  { intros u (x & Hx & _)%Hfind. apply (Hr _ Hx). }
  assert (1 ≤ first_id dt)%N as H1f by (by destruct dt).
  assert (∀ u, entry_of dt m u = Some e → VariantIsNull u = false → (1 ≤ e)%N) as Hpos.
  { intros u H Hu. destruct u as [|z|z|f|f|s]; cbn [entry_of] in H; try done; try (apply Hge in H; lia); [injection H as <-; lia|].
    destruct (short_string_id s) eqn:E; [|apply Hge in H; lia]. injection H as <-. apply short_string_bounds in E. lia. }
  destruct (VariantIsNull v) eqn:Ev, (VariantIsNull w) eqn:Ew.
  - by destruct v, w.
  - destruct v; try done. injection H1 as <-. apply Hpos in H2; [lia|done].
  - destruct w; try done. injection H2 as <-. apply Hpos in H1; [lia|done].
  - destruct Htv as [?|[x Hx]], Htw as [?|[y Hy]]; subst; try done.
    destruct dt; cbn [to_variant entry_of] in *; try done; try (by apply Hsame).
    + injection H1 as <-. injection H2 as H2. unfold same_cell. cbn. unfold in_int32, int_to_uint, int32_min in *. lia.
    + destruct (short_string_id x) eqn:E1, (short_string_id y) eqn:E2; simplify_eq.
      * unfold same_cell. cbn. rewrite (short_string_inj _ _ _ E1 E2). apply String.eqb_refl.
      * apply short_string_bounds in E1. apply Hge in H2. cbn in H2. unfold kShortStringIdCounter in H2. lia.
      * apply short_string_bounds in E2. apply Hge in H1. cbn in H1. unfold kShortStringIdCounter in H1. lia.
      * by apply Hsame.
Qed.

(** ** One row of a column *)
Lemma try_emplace_ok dt m v :
  wf_ids dt m → dt ≠ kNull → nan_free (to_variant dt v) →
  let r := try_emplace dt m v in
  wf_ids dt r.1 ∧ find_id dt r.1.1 (to_variant dt v) = Some r.2 ∧
  (∀ u n, find_id dt m.1 u = Some n → find_id dt r.1.1 u = Some n) ∧ (m.2 ≤ r.1.2 ≤ m.2 + 1)%N.
Proof.
  intros [Hr Hnd Hf] Hdt Hv. cbv zeta. unfold try_emplace, find_id.
  rewrite (find_ext _ (λ e, variant_eqb (to_variant dt e.1) (to_variant dt v))).
  2: { intros e. apply Bool.eq_iff_eq_true, value_eqb_variant. }
  destruct (find _ m.1) as [e|] eqn:E; cbn [fst snd].
  - split; [done|]. rewrite E. split; [done|]. split; [done|lia].
  - split; [|split; [|split; [|lia]]].
    + split; cbn [fst snd].
      * intros e [He| ->%list_elem_of_singleton]%elem_of_app; [apply Hr in He; lia|cbn; lia].
      * rewrite fmap_app. apply NoDup_app. split; [done|]. split; [|apply NoDup_singleton].
        intros n (e & -> & He)%list_elem_of_fmap. cbn. rewrite list_elem_of_singleton. apply Hr in He. lia.
      * rewrite length_app. cbn. lia.
    + rewrite find_app, E. cbn [find fst].
      assert (variant_eqb (to_variant dt v) (to_variant dt v) = true) as ->; [|done].
      apply variant_eqb_class; [done|by destruct dt|done].
    + intros u n. rewrite find_app. by destruct (find (λ e, variant_eqb (to_variant dt e.1) u) m.1).
Qed.

Lemma key_entry_ok t j dt m es r x :
  wf_ids dt m → dt ≠ kNull → value_at t j r = Ok (to_variant dt x) → nan_free (to_variant dt x) →
  ∃ m' e, key_entry t j dt (m, es) r = Ok (m', es ++ [e]) ∧ wf_ids dt m' ∧ entry_of dt m' (to_variant dt x) = Some e ∧
    (∀ u n, entry_of dt m u = Some n → entry_of dt m' u = Some n) ∧ (m.2 ≤ m'.2 ≤ m.2 + 1)%N.
Proof.
  intros Hm Hdt Hval Hnan. unfold key_entry. rewrite Hval. cbn [rbind].
  assert (VariantIsNull (to_variant dt x) = false) as -> by (by destruct dt). rewrite variant_get_to_variant. cbn [rbind].
  assert (∀ m', (∀ u n, find_id dt m.1 u = Some n → find_id dt m'.1 u = Some n) → ∀ u n, entry_of dt m u = Some n → entry_of dt m' u = Some n) as Hext.
  { intros m' H u n. destruct u; cbn [entry_of]; auto. by destruct (short_string_id s); auto. }
  destruct dt; try done; cbn [fst snd partition_id].
  - eexists m, _. split; [done|]. split; [done|]. split; [done|]. split; [auto|lia].
  - destruct (try_emplace_ok _ _ _ Hm Hdt Hnan) as (H1 & H2 & H3 & H4). eexists _, _. split; [done|]. auto.
  - destruct (try_emplace_ok _ _ _ Hm Hdt Hnan) as (H1 & H2 & H3 & H4). eexists _, _. split; [done|]. auto.
  - destruct (try_emplace_ok _ _ _ Hm Hdt Hnan) as (H1 & H2 & H3 & H4). eexists _, _. split; [done|]. auto.
  - cbn [to_variant entry_of]. destruct (short_string_id x) as [id|] eqn:E.
    + eexists m, _. split; [done|]. split; [done|]. split; [done|]. split; [auto|lia].
    + destruct (try_emplace_ok kString _ _ Hm Hdt Hnan) as (H1 & H2 & H3 & H4). eexists _, _. split; [done|]. auto.
Qed.

(** ** A column of entries *)
Section Column.
Context (t : Table) (j : nat).
Hypothesis Ht : wf_table t.
Hypothesis Hj : (j < GetColumnCount t)%nat.
Hypothesis Hcells : ∀ r, r ∈ row_ids t → groupable (cell t j r).
Abbreviation dt := (column_type t j).

Lemma key_entries_ok rows : ∀ m es,
  (∀ r, r ∈ rows → r ∈ row_ids t) → wf_ids dt m →
  ∃ m' es', foldR (key_entry t j dt) (m, es) rows = Ok (m', es ++ es') ∧ wf_ids dt m' ∧
    Forall2 (λ r e, entry_of dt m' (cell t j r) = Some e) rows es' ∧
    (∀ u n, entry_of dt m u = Some n → entry_of dt m' u = Some n) ∧ (m'.2 ≤ m.2 + N.of_nat (length rows))%N.
Proof.
  pose proof (column_typed t Ht j Hj) as Hdt.
  induction rows as [|r rows IH]; intros m es Hsub Hm.
  { exists m, []. cbn. rewrite app_nil_r. split; [done|]. split; [done|]. split; [constructor|]. split; [auto|lia]. }
  assert (r ∈ row_ids t) as Hr by (apply Hsub; by left).
  destruct (value_at_cell t j r Ht Hj Hr) as (Hval & Hc & Hn). cbn [foldR].
  assert (∃ m1 e, key_entry t j dt (m, es) r = Ok (m1, es ++ [e]) ∧ wf_ids dt m1 ∧ entry_of dt m1 (cell t j r) = Some e ∧
    (∀ u n, entry_of dt m u = Some n → entry_of dt m1 u = Some n) ∧ (m1.2 ≤ m.2 + 1)%N) as (m1 & e & -> & Hm1 & He & Hext & Hle).
  { destruct Hc as [Hc|[x Hx]].
    - exists m, 0%N. unfold key_entry. rewrite Hval, Hc. cbn. split; [done|]. split; [done|]. split; [done|]. split; [auto|lia].
    - destruct (key_entry_ok t j dt m es r x Hm Hdt) as (m1 & e & H1 & H2 & H3 & H4 & H5).
      + by rewrite <- Hx.
      + rewrite <- Hx. by apply Hcells.
      + exists m1, e. rewrite Hx. split; [done|]. split; [done|]. split; [done|]. split; [done|lia]. }
  cbn [rbind]. destruct (IH m1 (es ++ [e])) as (m' & es' & H1 & H2 & H3 & H4 & H5); [intros; apply Hsub; by right|done|].
  exists m', (e :: es'). rewrite H1, <- app_assoc. split; [done|]. split; [done|].
  split; [constructor; [by apply H4|done]|]. split; [auto|]. cbn [length]. lia.
Qed.

(** Equal entries are equal cells. *)
Record column_keys (E : RowId → N) : Prop := {
  ck_same r s : r ∈ row_ids t → s ∈ row_ids t → E r = E s ↔ same_cell (cell t j r) (cell t j s) = true;
  ck_bound r : r ∈ row_ids t → (E r < 2 ^ 63)%N }.

Lemma column_entries_ok :
  (N.of_nat (length (row_ids t)) < 2 ^ 62)%N →
  ∃ m E, column_entries t j dt = Ok (m, E <$> row_ids t) ∧ column_keys E ∧ (length m.1 ≤ length (row_ids t))%nat.
Proof.
  intros Hrows. unfold column_entries. rewrite column_row_ids_ok by done. cbn [rbind].
  assert (wf_ids dt ([], first_id dt)) as H0.
  { split; cbn; [intros e He; by apply elem_of_nil in He|constructor|lia]. }
  destruct (key_entries_ok (row_ids t) ([], first_id dt) []) as (m & es & H & Hm & Hes & _ & Hle); [done|done|].
  cbn [app fst snd] in *.
  set (E := λ r, from_option id 0%N (entry_of dt m (cell t j r))).
  assert (es = E <$> row_ids t) as ->.
  { clear -Hes. induction Hes as [|r e rows es He _ IH]; [done|]. rewrite fmap_cons, <- IH. f_equal. unfold E. by rewrite He. }
  assert (∀ r, r ∈ row_ids t → entry_of dt m (cell t j r) = Some (E r)) as HE.
  { intros r Hr. apply list_elem_of_lookup in Hr as [i Hi].
    destruct (Forall2_lookup_l _ _ _ _ _ Hes Hi) as (e & He & Heq). rewrite list_lookup_fmap, Hi in He. by injection He as <-. }
  exists m, E. split; [exact H|]. split; [|pose proof (ids_length _ _ Hm); lia]. split.
  - intros r s Hr Hs. pose proof (HE r Hr) as H1. pose proof (HE s Hs) as H2. split.
    + intros Heq. rewrite <- Heq in H2. destruct (value_at_cell t j r Ht Hj Hr) as (_ & Hcr & _), (value_at_cell t j s Ht Hj Hs) as (_ & Hcs & _).
      eapply entry_of_inj; eauto.
    + intros Hsame. rewrite (entry_of_same dt m _ _ (Hcells r Hr) Hsame) in H1. congruence.
  - intros r Hr. pose proof (HE r Hr) as H1. pose proof (Hcells r Hr) as [_ Hint].
    assert (first_id dt ≤ 5000000000)%N as Hfirst by (by destruct dt).
    assert (∀ u, find_id dt m.1 u = Some (E r) → (E r < 2 ^ 63)%N) as Hfind.
    { intros u Hu. unfold find_id in Hu. destruct (find _ m.1) as [e|] eqn:Ef; [|done]. injection Hu as Hu.
      apply find_some in Ef as [Hin _]. pose proof (ids_range _ _ Hm _ Hin) as [_ Hlt]. rewrite Hu in Hlt. lia. }
    destruct (cell t j r) as [|z|z|f|f|s]; cbn [entry_of] in H1; eauto.
    + injection H1 as <-. lia.
    + injection H1 as <-. unfold in_int32, int32_min, int32_max, int_to_uint in *. unfold int32_min. lia.
    + destruct (short_string_id s) as [id|] eqn:Es; [|by eauto]. injection H1 as <-. apply short_string_bounds in Es. lia.
Qed.
End Column.

Lemma imap_pair_zip {X} (l : list X) : imap pair l = zip (seq 0 (length l)) l.
Proof.
  apply list_eq. intros i. rewrite list_lookup_imap, lookup_zip_with. destruct (l !! i) as [x|] eqn:E.
  - by rewrite lookup_seq_lt by (by eapply lookup_lt_Some).
  - cbn. by destruct (seq _ _ !! i).
Qed.

(** ** Keys as a function of the row *)
Section Keys.
Context (t : Table).

Definition keys_of (k : RowId → AggregateKey) : KeysPerChunk :=
  zip_with (λ i c, (λ o, k (mkRowId i o)) <$> seq 0 (chunk_Size c)) (seq 0 (length (chunks t))) (chunks t).

Lemma keys_of_lookup k i c :
  chunks t !! i = Some c → keys_of k !! i = Some ((λ o, k (mkRowId i o)) <$> seq 0 (chunk_Size c)).
Proof.
  intros Hc. unfold keys_of. rewrite lookup_zip_with, lookup_seq_lt by (by eapply lookup_lt_Some). cbn. by rewrite Hc.
Qed.

Lemma get_key k r : r ∈ row_ids t → GetAggregateKey true (keys_of k) r = Ok (k r).
Proof.
  intros (c & Hc & Ho)%row_ids_elem. unfold GetAggregateKey, vec_get. rewrite (keys_of_lookup _ _ _ Hc). cbn [of_option rbind].
  rewrite list_lookup_fmap, lookup_seq_lt by done. cbn. by destruct r.
Qed.

Lemma keys_of_ext k k' : (∀ r, r ∈ row_ids t → k r = k' r) → keys_of k = keys_of k'.
Proof.
  intros H. apply list_eq. intros i. destruct (chunks t !! i) as [c|] eqn:Hc.
  - rewrite !(keys_of_lookup _ _ _ Hc). f_equal. apply list_fmap_ext. intros o x Ho%lookup_seq. apply H.
    apply row_ids_elem. exists c. split; [done|]. cbn. lia.
  - assert (∀ k, keys_of k !! i = None) as Hn; [|by rewrite !Hn]. intros k0. unfold keys_of. rewrite lookup_zip_with, Hc.
    by destruct (seq _ _ !! i).
Qed.

Definition updated (k : RowId → AggregateKey) (r : RowId) (v : AggregateKey) (s : RowId) : AggregateKey :=
  if decide (s = r) then v else k s.

Lemma set_key_of k r v : r ∈ row_ids t → set_key true (keys_of k) r v = keys_of (updated k r v).
Proof.
  intros (c & Hc & Ho)%row_ids_elem. unfold set_key. apply list_eq. intros i. destruct (decide (i = chunk_id r)) as [->|Hne].
  - rewrite list_lookup_alter_eq, !(keys_of_lookup _ _ _ Hc). cbn. f_equal. apply list_eq. intros o.
    destruct (decide (o = chunk_offset r)) as [->|Hno].
    + rewrite list_lookup_insert_eq by (by rewrite length_fmap, length_seq). rewrite list_lookup_fmap, lookup_seq_lt by done. cbn.
      unfold updated. destruct (decide _) as [|Hd]; [done|]. destruct Hd. by destruct r.
    + rewrite list_lookup_insert_ne by done. rewrite !list_lookup_fmap. destruct (seq 0 (chunk_Size c) !! o) as [o'|] eqn:E; [|done].
      cbn. apply lookup_seq in E as [-> _]. unfold updated. rewrite decide_False; [done|]. intros Heq. apply Hno. by rewrite <- Heq.
  - rewrite list_lookup_alter_ne by done. destruct (chunks t !! i) as [c'|] eqn:Hc'.
    + rewrite !(keys_of_lookup _ _ _ Hc'). f_equal. apply list_fmap_ext. intros o x _. unfold updated. rewrite decide_False; [done|].
      intros Heq. apply Hne. by rewrite <- Heq.
    + assert (∀ k, keys_of k !! i = None) as Hn; [|by rewrite !Hn]. intros k0. unfold keys_of. rewrite lookup_zip_with, Hc'.
      by destruct (seq _ _ !! i).
Qed.

Lemma concat_keys_of k : concat (keys_of k) = k <$> row_ids t.
Proof. apply concat_row_ids. Qed.

Lemma write_entries g E rows k :
  (∀ r, r ∈ rows → r ∈ row_ids t) → NoDup rows →
  foldR (write_entry g) (keys_of k) (zip rows (E <$> rows)) =
  Ok (keys_of (λ r, if decide (r ∈ rows) then <[g := E r]> (k r) else k r)).
Proof.
  intros Hsub Hnd. revert k. induction Hnd as [|r rows Hr Hnd IH]; intros k; cbn [fmap list_fmap zip zip_with foldR].
  - reflexivity.
  - unfold write_entry at 1. cbn [fst snd]. rewrite get_key by (apply Hsub; by left). cbn [rbind].
    rewrite set_key_of by (apply Hsub; by left). rewrite IH by (intros; apply Hsub; by right). f_equal. apply keys_of_ext.
    intros s _. unfold updated. destruct (decide (s = r)) as [->|Hne].
    + rewrite decide_False by done. by rewrite decide_True by (by left).
    + destruct (decide (s ∈ rows)); [by rewrite decide_True by (by right)|]. rewrite decide_False; [done|]. by intros [?|?]%elem_of_cons.
Qed.
End Keys.

(** ** Cached keys *)
Definition cached_entry (i : nat) : N := N.lor kCacheMask (N.of_nat i).

Lemma high_bit x : (x < 2 ^ 63)%N → N.testbit x 63 = false.
Proof.
  intros Hx. destruct (decide (x = 0%N)) as [->|Hne]; [done|]. apply N.bits_above_log2.
  apply N.log2_lt_pow2; lia.
Qed.

Lemma cached_entry_cached i : is_cached (cached_entry i) = true.
Proof. unfold is_cached, cached_entry, kCacheMask. by rewrite N.lor_spec, N.pow2_bits_true. Qed.

Lemma cached_entry_index i : (N.of_nat i < 2 ^ 63)%N → N.to_nat (N.lxor (cached_entry i) kCacheMask) = i.
Proof.
  intros Hi. rewrite <- (Nat2N.id i) at 2. f_equal. apply N.bits_inj. intros n. unfold cached_entry, kCacheMask.
  rewrite N.lxor_spec, N.lor_spec, N.pow2_bits_eqb. destruct (N.eqb_spec 63 n) as [<-|Hne].
  - by rewrite high_bit.
  - by destruct (N.testbit _ n).
Qed.

Lemma foldr_min_le d l x : x ∈ l → (foldr N.min d l ≤ x)%N.
Proof. induction l as [|y l IH]; [by intros ?%elem_of_nil|]. intros [->|H]%elem_of_cons; cbn; [lia|]. specialize (IH H). lia. Qed.

Lemma foldr_max_ge l x : x ∈ l → (x ≤ foldr N.max 0%N l)%N.
Proof. induction l as [|y l IH]; [by intros ?%elem_of_nil|]. intros [->|H]%elem_of_cons; cbn; [lia|]. specialize (IH H). lia. Qed.

(** ** The partitioned rows *)
Section Partition.
Context (t : Table).

Definition same_group (group_by : list nat) (r s : RowId) : Prop :=
  ∀ j, j ∈ group_by → same_cell (cell t j r) (cell t j s) = true.

#[export] Instance same_group_dec group_by r s : Decision (same_group group_by r s).
Proof.
  refine (cast_if (decide (Forall (λ j, same_cell (cell t j r) (cell t j s) = true) group_by)));
    unfold same_group; by rewrite <- Forall_forall.
Defined.

(** Keys tell the groups apart: as keys still to be looked up, or as indices already. *)
Inductive partitioned (group_by : list nat) : Partitioned → Prop :=
  | by_key K n :
      (∀ r s, r ∈ row_ids t → s ∈ row_ids t → K r = K s ↔ same_group group_by r s) →
      (∀ r, r ∈ row_ids t → ∃ first rest, K r = first :: rest ∧ is_cached first = false) →
      (n ≤ length (row_ids t))%nat →
      partitioned group_by (mkPartitioned (keys_of t K) n false)
  | by_index (index : RowId → nat) n :
      (∀ r s, r ∈ row_ids t → s ∈ row_ids t → index r = index s ↔ same_group group_by r s) →
      (∀ r, r ∈ row_ids t → (N.of_nat (index r) < 2 ^ 63)%N) →
      partitioned group_by (mkPartitioned (keys_of t (λ r, [cached_entry (index r)])) n true).

Hypothesis Ht : wf_table t.
Hypothesis Hcache : cache_coherent t.
Hypothesis Hrows : (N.of_nat (length (row_ids t)) < 2 ^ 62)%N.

Lemma immediate_keys_ok j E :
  column_keys t j E →
  immediate_keys t (keys_of t (λ r, [E r])) = Ok None ∨
  ∃ index n, immediate_keys t (keys_of t (λ r, [E r])) = Ok (Some (keys_of t (λ r, [cached_entry (index r)]), n)) ∧
    (∀ r s, r ∈ row_ids t → s ∈ row_ids t → index r = index s ↔ E r = E s) ∧
    ∀ r, r ∈ row_ids t → (N.of_nat (index r) < 2 ^ 63)%N.
Proof.
  intros [_ Hb]. unfold immediate_keys. rewrite RowCount_release by done. cbn [rbind]. rewrite concat_keys_of.
  assert (concat ((λ r, [E r]) <$> row_ids t) = E <$> row_ids t) as ->.
  { generalize (row_ids t). intros l. induction l as [|r l IH]; [done|]. rewrite !fmap_cons. cbn [concat app]. by rewrite IH. }
  set (entries := filter (λ k, k ≠ 0%N) (E <$> row_ids t)). set (mn := foldr N.min _ entries). set (mx := foldr N.max _ entries).
  destruct (_ && _); [right|by left].
  assert (∀ r, r ∈ row_ids t → E r ≠ 0%N → (mn ≤ E r)%N) as Hmn.
  { intros r Hr Hne. apply foldr_min_le. unfold entries. apply list_elem_of_filter. split; [done|]. apply list_elem_of_fmap. by exists r. }
  assert (1 ≤ mn)%N as Hmn1.
  { unfold mn. assert (∀ x, x ∈ entries → x ≠ 0%N) as Hpos by (intros x [H _]%list_elem_of_filter; done). revert Hpos. clear.
    induction entries as [|x l IH]; intros Hpos; cbn; [lia|].
    assert (x ≠ 0%N) by (apply Hpos; by left). assert (1 ≤ foldr N.min (2 ^ 64 - 1)%N l)%N by (apply IH; intros y Hy; apply Hpos; by right). lia. }
  exists (λ r, if (E r =? 0)%N then 0%nat else N.to_nat (E r - mn + 1)), (N.to_nat (mx - mn + 2)). split; [|split].
  - do 3 f_equal. unfold keys_of. change (@map ?A ?B ?f ?l) with (f <$> l).
    rewrite fmap_zip_with. apply zip_with_ext; [|done..]. intros i c. change (@map ?A ?B ?f ?l) with (f <$> l). rewrite <- list_fmap_compose.
    apply list_fmap_ext. intros _ o _. unfold compose. cbn [map]. unfold cached_entry.
    destruct (N.eqb_spec (E (mkRowId i o)) 0) as [->|Hne]; [done|]. by rewrite N2Nat.id, N.lor_comm.
  - intros r s Hr Hs. destruct (N.eqb_spec (E r) 0) as [Er|Er], (N.eqb_spec (E s) 0) as [Es|Es];
      try (pose proof (Hmn r Hr Er)); try (pose proof (Hmn s Hs Es)); split; intros; try congruence; try lia.
  - intros r Hr. pose proof (Hb r Hr). destruct (N.eqb_spec (E r) 0) as [Er|Er]; lia.
Qed.

(** One column writes its entries into all keys. *)
Lemma perform_partitioning_ok single g j K n :
  (j < GetColumnCount t)%nat → (∀ r, r ∈ row_ids t → groupable (cell t j r)) → (n ≤ length (row_ids t))%nat →
  ∃ E n', column_keys t j E ∧ (n' ≤ length (row_ids t))%nat ∧
    let keys := keys_of t (λ r, <[g := E r]> (K r)) in
    perform_partitioning t single (mkPartitioned (keys_of t K) n false) (g, j) =
    if single && bool_decide (column_type t j = kInt) then
      short ← immediate_keys t keys;
      Ok (match short with Some (keys', size) => mkPartitioned keys' size true | None => mkPartitioned keys n false end)
    else Ok (mkPartitioned keys n' false).
Proof.
  intros Hj Hcells Hn. destruct (column_entries_ok t j Ht Hj Hcells Hrows) as (m & E & Hes & HE & Hm).
  exists E, (if bool_decide (column_type t j = kInt) then n else Nat.max n (length m.1)). split; [done|].
  split; [destruct (bool_decide _); lia|]. cbv zeta.
  unfold perform_partitioning. rewrite ColumnDataType_ok by done. cbn [rbind].
  rewrite ResolveDataType_typed by (by apply column_typed). rewrite column_row_ids_ok by done. cbn [rbind].
  rewrite Hes. cbn [rbind fst snd keys_per_chunk expected_result_size use_immediate_key_shortcut].
  rewrite write_entries by (done || apply row_ids_NoDup). cbn [rbind].
  rewrite (keys_of_ext t _ (λ r, <[g:=E r]> (K r))) by (intros r Hr; by rewrite decide_True).
  destruct (bool_decide (column_type t j = kInt)), single; cbn [andb]; try done.
  destruct (immediate_keys _ _) as [[[? ?]|]|]; done.
Qed.

Lemma partition_columns cols : ∀ dn Es n,
  Forall (λ j, (j < GetColumnCount t)%nat ∧ ∀ r, r ∈ row_ids t → groupable (cell t j r)) cols →
  Forall2 (column_keys t) dn Es → (n ≤ length (row_ids t))%nat →
  ∃ Es' n', (n' ≤ length (row_ids t))%nat ∧ Forall2 (column_keys t) (dn ++ cols) (Es ++ Es') ∧
    foldR (perform_partitioning t false)
      (mkPartitioned (keys_of t (λ r, ((λ E, E r) <$> Es) ++ replicate (length cols) 0%N)) n false)
      (zip (seq (length Es) (length cols)) cols) =
    Ok (mkPartitioned (keys_of t (λ r, (λ E, E r) <$> (Es ++ Es'))) n' false).
Proof.
  induction cols as [|j cols IH]; intros dn Es n Hcols Hdone Hn; cbn [length seq zip zip_with foldR].
  - exists [], n. rewrite !app_nil_r. split; [done|]. split; [done|]. do 2 f_equal. apply keys_of_ext. intros r _. by rewrite app_nil_r.
  - apply Forall_cons in Hcols as [[Hj Hcells] Hcols].
    destruct (perform_partitioning_ok false (length Es) j (λ r, ((λ E, E r) <$> Es) ++ replicate (S (length cols)) 0%N) n Hj Hcells Hn)
      as (E & n1 & HE & Hn1 & Hstep).
    cbv zeta in Hstep. cbn [andb] in Hstep. rewrite Hstep. cbn [rbind].
    destruct (IH (dn ++ [j]) (Es ++ [E]) n1 Hcols) as (Es' & n' & Hn' & HF & Hrest); [apply Forall2_app; [exact Hdone|constructor; [exact HE|constructor]]|done|].
    exists (E :: Es'), n'. rewrite <- !app_assoc in HF. split; [done|]. split; [done|].
    rewrite length_app in Hrest. cbn [length] in Hrest. rewrite Nat.add_1_r in Hrest. rewrite <- app_assoc in Hrest. cbn [app] in Hrest.
    rewrite <- Hrest. do 2 f_equal. apply keys_of_ext. intros r _.
    rewrite insert_app_r_alt by (by rewrite length_fmap). rewrite length_fmap, Nat.sub_diag. cbn [replicate insert list_insert].
    rewrite fmap_app, <- app_assoc. done.
Qed.

Lemma keys_agree cols Es r s :
  Forall2 (column_keys t) cols Es → r ∈ row_ids t → s ∈ row_ids t →
  (λ E, E r) <$> Es = (λ E, E s) <$> Es ↔ same_group cols r s.
Proof.
  intros HF Hr Hs. unfold same_group. induction HF as [|j E cols Es HE _ IH]; [split; [intros _ j Hj; by apply elem_of_nil in Hj|done]|].
  rewrite !fmap_cons. split.
  - intros [= H1 H2] k [->|Hk]%elem_of_cons; [by apply (ck_same _ _ _ HE)|by apply IH].
  - intros H. f_equal; [apply (ck_same _ _ _ HE); [done..|]; apply H; by left|]. apply IH. intros k Hk. apply H. by right.
Qed.

Lemma by_columns group_by Es n :
  group_by ≠ [] → Forall2 (column_keys t) group_by Es → (n ≤ length (row_ids t))%nat →
  partitioned group_by (mkPartitioned (keys_of t (λ r, (λ E, E r) <$> Es)) n false).
Proof.
  intros Hne HF Hn. apply by_key; [..|done].
  - intros r s Hr Hs. by apply keys_agree.
  - intros r Hr. destruct HF as [|j E cols Es HE _]; [done|]. rewrite fmap_cons. do 2 eexists. split; [done|].
    apply high_bit. by eapply ck_bound.
Qed.

Lemma PartitionByGroupByKeys_spec group_by :
  group_by ≠ [] →
  Forall (λ j, (j < GetColumnCount t)%nat ∧ ∀ r, r ∈ row_ids t → groupable (cell t j r)) group_by →
  ∃ p, PartitionByGroupByKeys t group_by = Ok p ∧ partitioned group_by p.
Proof.
  intros Hne Hcols. unfold PartitionByGroupByKeys.
  assert (for_range (ChunkCount t) (λ i, c ← GetChunk t i; Ok (chunk_Size c)) = Ok (chunk_Size <$> chunks t)) as Hsizes.
  { apply for_range_eq; [unfold ChunkCount; rewrite u32_id by apply Ht; by rewrite length_fmap|].
    intros i n Hi. rewrite list_lookup_fmap in Hi. destruct (chunks t !! i) as [c|] eqn:E; [|done].
    injection Hi as <-. by rewrite (GetChunk_ok _ _ _ E). }
  assert (∀ k, (λ n, replicate n k) <$> (chunk_Size <$> chunks t) = keys_of t (λ _, k)) as Hinit.
  { intros k. apply list_eq. intros i. rewrite !list_lookup_fmap. destruct (chunks t !! i) as [c|] eqn:E.
    - rewrite (keys_of_lookup _ _ _ _ E). cbn. f_equal. rewrite (const_fmap _ _ k) by done. by rewrite length_seq.
    - unfold keys_of. rewrite lookup_zip_with, E. cbn. by destruct (seq _ _ !! i). }
  destruct group_by as [|j cols]; [done|]. rewrite Hsizes. cbn [rbind]. rewrite Hinit, imap_pair_zip. clear Hinit Hsizes.
  destruct cols as [|j' cols].
  - cbn [length seq zip zip_with]. cbn [foldR]. rewrite bool_decide_true by done.
    apply Forall_cons in Hcols as [[Hj Hcells] _].
    destruct (perform_partitioning_ok true 0 j (λ _, replicate 1 0%N) 0 Hj Hcells) as (E & n' & HE & Hn' & ->); [lia|]. cbn [andb].
    assert (∀ n, (n ≤ length (row_ids t))%nat → partitioned [j] (mkPartitioned (keys_of t (λ r, <[0%nat:=E r]> (replicate 1 0%N))) n false)) as Hkey.
    { intros n Hn. apply (by_columns [j] [E]); [done|constructor; [exact HE|constructor]|done]. }
    destruct (bool_decide (column_type t j = kInt)); [|eexists; split; [done|by apply Hkey]].
    destruct (immediate_keys_ok j E HE) as [Him|(index & n & Him & Hidx & Hlt)];
      change (λ r, <[0%nat:=E r]> (replicate 1 0%N)) with (λ r, [E r]) in *; rewrite Him; cbn [rbind]; eexists; (split; [done|]); [apply Hkey; lia|].
    apply by_index; [|done]. intros r s Hr Hs. rewrite Hidx by done. rewrite (ck_same _ _ _ HE) by done. unfold same_group.
    split; [by intros H k ->%list_elem_of_singleton|intros H; apply H; by left].
  - rewrite bool_decide_false by (cbn; lia).
    destruct (partition_columns (j :: j' :: cols) [] [] 0 Hcols) as (Es & n & Hn & HF & Hp); [constructor|lia|].
    cbn [fmap list_fmap app length] in Hp, HF. cbn [length]. rewrite Hp. eexists. split; [done|]. by apply by_columns.
Qed.
End Partition.

(** Strings of fewer than five bytes, and only those, get an id straight from their bytes:
    it is positive, below the counter of the ids of longer strings, and no two strings share
    one. *)
Theorem short_string_id_spec s :
  match short_string_id s with
  | Some id => (String.length s < kStringLengthThreshold)%nat ∧ (1 ≤ id < kShortStringIdCounter)%N ∧
      ∀ s', short_string_id s' = Some id → s' = s
  | None => (kStringLengthThreshold ≤ String.length s)%nat
  end.
Proof.
  destruct (short_string_id s) as [id|] eqn:E.
  - split; [|split; [by apply short_string_bounds in E|intros s' E'; by eapply short_string_inj]].
    unfold short_string_id in E. destruct (Nat.ltb_spec (String.length s) kStringLengthThreshold); [done|discriminate E].
  - unfold short_string_id in E. destruct (Nat.ltb_spec (String.length s) kStringLengthThreshold) as [Hlt|]; [|done]. exfalso.
    unfold kStringLengthThreshold in Hlt. destruct s as [|a [|b [|c [|d [|e s]]]]]; try discriminate E. cbn in Hlt. lia.
Qed.

Lemma short_string_id_spec_witness :
  (String.length "abab" < kStringLengthThreshold)%nat ∧ short_string_id "baab" ≠ short_string_id "abab".
Proof.
  destruct (short_string_id_spec "abab") as (H1 & _ & H2). split; [exact H1|]. intros H. specialize (H2 "baab"%string H). discriminate H2.
Defined.

(** Partitioning a table by its GROUP BY columns succeeds and gives two rows equal keys
    exactly when they agree in every GROUP BY column, NULL with NULL; before any lookup a key
    carries the cache flag only under the immediate key shortcut. *)
Theorem PartitionByGroupByKeys_groups t group_by :
  wf_table t → cache_coherent t → (N.of_nat (length (row_ids t)) < 2 ^ 62)%N → group_by ≠ [] →
  (∀ j, j ∈ group_by → (j < GetColumnCount t)%nat ∧ ∀ r, r ∈ row_ids t → groupable (cell t j r)) →
  ∃ p, PartitionByGroupByKeys t group_by = Ok p ∧
    ∀ r, r ∈ row_ids t → ∃ first rest, GetAggregateKey true (keys_per_chunk p) r = Ok (first :: rest) ∧
      is_cached first = use_immediate_key_shortcut p ∧
      ∀ s, s ∈ row_ids t → GetAggregateKey true (keys_per_chunk p) s = Ok (first :: rest) ↔ same_group t group_by r s.
Proof.
  intros Ht Hc Hr Hne Hg. destruct (PartitionByGroupByKeys_spec t Ht Hc Hr group_by Hne) as (p & Hp & Hpart); [by apply Forall_forall|].
  exists p. split; [done|]. intros r Hin. destruct Hpart as [K n Hsame Hkey _|index n Hsame Hlt]; cbn [keys_per_chunk use_immediate_key_shortcut].
  - destruct (Hkey r Hin) as (first & rest & HK & Hf). exists first, rest. rewrite get_key, HK by done. split; [done|]. split; [done|].
    intros s Hs. rewrite get_key, <- HK by done. rewrite <- (Hsame r s Hin Hs). split; [by intros [= ->]|by intros ->].
  - exists (cached_entry (index r)), []. rewrite get_key by done. split; [done|]. split; [apply cached_entry_cached|].
    intros s Hs. rewrite get_key by done. rewrite <- (Hsame r s Hin Hs). split; [|by intros ->].
    intros [= H]. apply (f_equal (λ e, N.to_nat (N.lxor e kCacheMask))) in H. by rewrite !cached_entry_index in H by (by apply Hlt).
Qed.

(** A column of integers with a NULL and a column of strings, in two chunks. *)
Definition group_example : Table :=
  mkTable [mkTableColumnDefinition "k" kInt true; mkTableColumnDefinition "s" kString false; mkTableColumnDefinition "v" kLong true]
    [[mkValueSegment kInt [7; 0; 7] (Some [false; true; false]); mkValueSegment kString ["ab"; "abcdef"; "ab"] None;
      mkValueSegment kLong [10; 20; 30] (Some [false; false; false])];
     [mkValueSegment kInt [0; 7] (Some [true; false]); mkValueSegment kString ["abcdef"; "ba"] None;
      mkValueSegment kLong [4; 0] (Some [false; true])]]%string None.

Lemma group_example_wf : wf_table group_example.
Proof. apply wf_tableb_ok. vm_compute. reflexivity. Qed.

(** Deciding comparability, for concrete tables. *)
Definition groupableb (v : AllTypeVariant) : bool :=
  match v with VFloat S754_nan | VDouble S754_nan => false | VInt z => in_int32 z | _ => true end.

Lemma groupableb_ok v : groupableb v = true → groupable v.
Proof. intros H. split; [split; intros ->; discriminate H|]. by destruct v. Qed.

Definition all_groupable (t : Table) (j : nat) : bool := forallb (λ r, groupableb (cell t j r)) (row_ids t).

Lemma all_groupable_ok t j r : all_groupable t j = true → r ∈ row_ids t → groupable (cell t j r).
Proof. intros H Hr. apply groupableb_ok. apply forallb_Forall in H. rewrite Forall_forall in H. by apply H. Qed.

Lemma PartitionByGroupByKeys_groups_witness :
  ∃ p, PartitionByGroupByKeys group_example [0%nat; 1%nat] = Ok p ∧
    ∃ key, GetAggregateKey true (keys_per_chunk p) (mkRowId 0 1) = Ok key ∧ GetAggregateKey true (keys_per_chunk p) (mkRowId 1 0) = Ok key.
Proof.
  destruct (PartitionByGroupByKeys_groups group_example [0%nat; 1%nat] group_example_wf) as (p & Hp & H).
  - intros n E. discriminate E.
  - reflexivity.
  - discriminate.
  - intros j Hj. apply elem_of_cons in Hj as [->|Hj]; [|apply list_elem_of_singleton in Hj as ->];
      (split; [apply Nat.ltb_lt; reflexivity|intros r; apply all_groupable_ok; vm_compute; reflexivity]).
  - exists p. split; [exact Hp|]. destruct (H (mkRowId 0 1)) as (first & rest & Hkey & _ & Hsame).
    + apply row_ids_elem. eexists. split; [reflexivity|]. apply Nat.ltb_lt. reflexivity.
    + exists (first :: rest). split; [exact Hkey|]. apply Hsame.
      * apply row_ids_elem. eexists. split; [reflexivity|]. apply Nat.ltb_lt. reflexivity.
      * apply (bool_decide_unpack _). vm_compute. exact I.
Defined.
