(* ===== verification/AggregateLoop.v ===== *)
(** * The aggregation loops

    [Aggregate<>] visits the chunks in order and, chunk by chunk, lets every aggregate visit
    its rows.  [visits_groups] states what the way the result indices are found must promise;
    it holds without GROUP BY, for keys that are looked up by the first aggregate and cached
    for the others, and for immediate keys.  Under it the loops leave in every context the
    folds of the groups. *)

From Stdlib Require Import SpecFloat.
From S2P Require Export AggregateKeys.

(** ** Results of groups

    What the visits of rows leave in the results of one aggregate: result [i] holds the fold
    of the rows with index [i], under the three ways [GetOrAddResult] finds an index (a key
    to look up, a cached key, no GROUP BY at all).  Then the loops over chunks and aggregates
    of [Aggregate<>]. *)

Section Results.
Context {A : Set} (fresh : A) (update : RowId → A * nat → result (A * nat)) (index : RowId → nat) (located : Prop).

Definition rows_at (i : nat) (P : list RowId) : list RowId := filter (λ r, index r = i) P.
Definition fold_rows (G : list RowId) : result (A * nat) := foldR (λ ac r, update r ac) (fresh, 0%nat) G.

(** Reading past the end gives what a resize would put there. *)
Definition get_result (rs : list (AggregateResult A)) (i : nat) : AggregateResult A :=
  match rs !! i with Some x => x | None => empty_result fresh end.

Record results_ok (P : list RowId) (rs : list (AggregateResult A)) : Prop := {
  ro_fold i : fold_rows (rows_at i P) = Ok (accumulator (get_result rs i), aggregate_count (get_result rs i));
  ro_index r : r ∈ P → (index r < length rs)%nat;
  ro_some i r : located → result_row_id (get_result rs i) = Some r → r ∈ rows_at i P;
  ro_none i : result_row_id (get_result rs i) = None → rows_at i P = [] }.

Record touched (rs rs' : list (AggregateResult A)) (i : nat) (r : RowId) : Prop := {
  to_index : (i < length rs')%nat;
  to_length : (length rs ≤ length rs')%nat;
  to_others j : j ≠ i → get_result rs' j = get_result rs j;
  to_accumulator : accumulator (get_result rs' i) = accumulator (get_result rs i);
  to_count : aggregate_count (get_result rs' i) = aggregate_count (get_result rs i);
  to_row : result_row_id (get_result rs' i) = Some r ∨
           result_row_id (get_result rs' i) = result_row_id (get_result rs i) ∧ result_row_id (get_result rs i) ≠ None }.

Lemma rows_at_snoc i P r : rows_at i (P ++ [r]) = rows_at i P ++ (if decide (index r = i) then [r] else []).
Proof. unfold rows_at. by rewrite filter_app. Qed.

Lemma fold_rows_prefix G G' ac : fold_rows (G ++ G') = Ok ac → ∃ ac', fold_rows G = Ok ac'.
Proof. unfold fold_rows. rewrite foldR_app. intros (ac' & ? & _)%bind_ok. by exists ac'. Qed.

Lemma get_result_insert rs i j x : (i < length rs)%nat → get_result (<[i := x]> rs) j = if decide (j = i) then x else get_result rs j.
Proof.
  intros Hi. unfold get_result. destruct (decide (j = i)) as [->|Hne]; [by rewrite list_lookup_insert_eq|by rewrite list_lookup_insert_ne].
Qed.

Lemma results_ok_nil n : results_ok [] (replicate n (empty_result fresh)).
Proof.
  assert (∀ i, get_result (replicate n (empty_result fresh)) i = empty_result fresh) as Hg.
  { intros i. unfold get_result. destruct (replicate n _ !! i) eqn:E; [|done]. by apply lookup_replicate in E as [-> _]. }
  split; [intros i; by rewrite Hg|by intros ? ?%elem_of_nil|intros i r _; by rewrite Hg|done].
Qed.

(** One row: the touched result takes the update. *)
Lemma visit_result P r rs rs' ac :
  results_ok P rs → touched rs rs' (index r) r → fold_rows (rows_at (index r) (P ++ [r])) = Ok ac →
  ∃ x, rs' !! index r = Some x ∧ update r (accumulator x, aggregate_count x) = Ok ac ∧
    results_ok (P ++ [r]) (<[index r := mkResult ac.1 ac.2 (result_row_id x)]> rs').
Proof.
  intros [Hf Hi Hs Hn] [Ti Tl To Ta Tc Tr] Hac.
  destruct (lookup_lt_is_Some_2 _ _ Ti) as [x Hx]. exists x. split; [done|].
  assert (get_result rs' (index r) = x) as Hg by (unfold get_result; by rewrite Hx).
  rewrite Hg in *. rewrite rows_at_snoc, decide_True in Hac by done. unfold fold_rows in Hac, Hf.
  rewrite foldR_app, Hf in Hac. cbn [rbind foldR] in Hac.
  assert (update r (accumulator x, aggregate_count x) = Ok ac) as Hup.
  { rewrite Ta, Tc. apply bind_ok in Hac as (ac' & ? & [= <-]). done. }
  split; [done|]. split.
  - intros i. rewrite get_result_insert by done. rewrite rows_at_snoc. destruct (decide (i = index r)) as [->|Hne].
    + rewrite decide_True by done. cbn. unfold fold_rows. rewrite foldR_app, Hf. cbn [rbind foldR]. rewrite Hac. by destruct ac.
    + rewrite decide_False by done. rewrite app_nil_r, To by done. apply Hf.
  - intros s [Hin| ->%list_elem_of_singleton]%elem_of_app; rewrite length_insert; [|done]. specialize (Hi s Hin). lia.
  - intros i s Hloc. rewrite get_result_insert by done. rewrite rows_at_snoc. destruct (decide (i = index r)) as [->|Hne]; cbn.
    + rewrite decide_True by done. intros Hrow. destruct Tr as [Tr|[Tr _]]; rewrite Tr in Hrow.
      * injection Hrow as <-. apply elem_of_app. right. by left.
      * apply elem_of_app. left. by apply Hs.
    + rewrite decide_False by done. rewrite app_nil_r, To by done. by apply Hs.
  - intros i. rewrite get_result_insert by done. rewrite rows_at_snoc. destruct (decide (i = index r)) as [->|Hne]; cbn.
    + intros Hrow. destruct Tr as [Tr|[Tr Tne]]; rewrite Tr in Hrow; done.
    + rewrite decide_False by done. rewrite app_nil_r, To by done. apply Hn.
Qed.

(** [visit_row] in terms of the lookup. *)
Lemma visit_row_ok grouped cache keys rt P r key key' rt' ac :
  GetAggregateKey grouped keys r = Ok key →
  GetOrAddResult fresh cache rt key r = Ok (rt', key', index r) →
  results_ok P (results rt) → touched (results rt) (results rt') (index r) r →
  fold_rows (rows_at (index r) (P ++ [r])) = Ok ac →
  ∃ rs, visit_row fresh grouped cache update (keys, rt) r = Ok (set_key grouped keys r key', mkResults (result_ids rt') rs) ∧
    results_ok (P ++ [r]) rs ∧ result_row_id <$> rs = result_row_id <$> results rt'.
Proof.
  intros Hk Hg Hok Ht Hac. destruct (visit_result P r _ _ ac Hok Ht Hac) as (x & Hx & Hup & Hok').
  unfold visit_row. cbn [fst snd]. rewrite Hk. cbn [rbind]. rewrite Hg. cbn [rbind]. unfold vec_get. rewrite Hx. cbn [of_option rbind].
  rewrite Hup. cbn [rbind]. eexists. split; [done|]. split; [done|]. rewrite list_fmap_insert. cbn. apply list_insert_id. by rewrite list_lookup_fmap, Hx.
Qed.

(** ** The three ways to find an index *)
Lemma get_result_lt rs i : (length rs ≤ i)%nat → get_result rs i = empty_result fresh.
Proof. intros H. unfold get_result. by rewrite lookup_ge_None_2. Qed.

Lemma get_result_app rs x i : get_result (rs ++ [x]) i = if decide (i = length rs) then x else get_result rs i.
Proof.
  unfold get_result. destruct (decide (i = length rs)) as [->|Hne].
  - by rewrite list_lookup_middle.
  - destruct (decide (i < length rs)%nat); [by rewrite lookup_app_l|].
    rewrite !lookup_ge_None_2; [done|lia|]. rewrite length_app. cbn. lia.
Qed.

(** Without GROUP BY there is at most one result, and it belongs to the group. *)
Definition single_result (rs : list (AggregateResult A)) : Prop :=
  (length rs ≤ 1)%nat ∧ Forall (λ o, o ≠ None) (result_row_id <$> rs).

Lemma GetOrAddResult_ungrouped cache rt r :
  single_result (results rt) → index r = 0%nat →
  ∃ rt', GetOrAddResult fresh cache rt [] r = Ok (rt', [], index r) ∧ touched (results rt) (results rt') (index r) r ∧
    single_result (results rt').
Proof.
  intros [Hl Hrow] Hi. rewrite Hi. unfold GetOrAddResult. destruct (results rt) as [|x [|y rs]] eqn:E; [..|cbn in Hl; lia].
  - eexists. split; [done|]. cbn [results]. split; [|split; [done|by repeat constructor]]. split; cbn; [lia|lia|intros j Hj; by destruct j|done|done|by left].
  - eexists. split; [done|]. cbn [results]. split; [|done]. split; cbn; [lia|lia|done|done|done|right]. split; [done|]. by inversion Hrow.
Qed.

(** A cached key: the result is there, or the list grows. *)
Lemma GetOrAddResult_cached rt i rest r :
  (N.of_nat i < 2 ^ 63)%N → index r = i →
  ∃ rt', GetOrAddResult fresh true rt (cached_entry i :: rest) r = Ok (rt', cached_entry i :: rest, index r) ∧
    touched (results rt) (results rt') (index r) r ∧ result_ids rt' = result_ids rt.
Proof.
  intros Hi ->. unfold GetOrAddResult. rewrite cached_entry_cached, cached_entry_index by done. cbn [andb].
  set (rs := if (length (results rt) <=? i)%nat then resize (empty_result fresh) ((i + 1) * 3 / 2) (results rt) else results rt).
  assert ((i < length rs)%nat ∧ (length (results rt) ≤ length rs)%nat ∧ ∀ j, get_result rs j = get_result (results rt) j) as (Hlt & Hle & Hget).
  { unfold rs. destruct (Nat.leb_spec (length (results rt)) i) as [Hle|Hlt]; [|done].
    pose proof (Nat.div_mod_eq ((i + 1) * 3) 2) as Hd. pose proof (Nat.mod_upper_bound ((i + 1) * 3) 2 ltac:(lia)) as Hm.
    rewrite length_resize. split; [lia|]. split; [lia|]. intros j. unfold resize.
    rewrite take_ge by lia. unfold get_result. destruct (decide (j < length (results rt))%nat).
    - by rewrite lookup_app_l.
    - rewrite lookup_app_r by lia. rewrite (lookup_ge_None_2 (results rt)) by lia.
      destruct (replicate _ _ !! _) eqn:E; [|done]. by apply lookup_replicate in E as [-> _]. }
  destruct (lookup_lt_is_Some_2 _ _ Hlt) as [x Hx]. unfold vec_get. rewrite Hx. cbn [of_option rbind].
  assert (get_result rs i = x) as Hgx by (unfold get_result; by rewrite Hx).
  eexists. split; [done|]. cbn [results result_ids]. split; [|done].
  split; rewrite ?length_insert; try done.
  - intros j Hj. rewrite get_result_insert, decide_False by done. apply Hget.
  - rewrite get_result_insert, decide_True by done. cbn. by rewrite <- Hget, Hgx.
  - rewrite get_result_insert, decide_True by done. cbn. by rewrite <- Hget, Hgx.
  - rewrite get_result_insert, decide_True by done. cbn. by left.
Qed.

(** An uncached key is looked up in the map, where the rows visited so far are. *)
Definition ids_ok (K : RowId → AggregateKey) (P : list RowId) (rt : ResultTable A) : Prop :=
  (∀ r, r ∈ P → result_ids rt !! K r = Some (index r)) ∧
  (∀ k i, result_ids rt !! k = Some i → ∃ r, r ∈ P ∧ K r = k).

Lemma GetOrAddResult_lookup cache K P rt r first rest :
  K r = first :: rest → is_cached first = false → ids_ok K P rt → results_ok P (results rt) →
  (∀ s, s ∈ P → K s = K r → index s = index r) →
  ((∀ s, s ∈ P → K s ≠ K r) → index r = length (results rt)) →
  ∃ rt', GetOrAddResult fresh cache rt (K r) r = Ok (rt', if cache then cached_entry (index r) :: rest else K r, index r) ∧
    touched (results rt) (results rt') (index r) r ∧ ids_ok K (P ++ [r]) rt' ∧
    ((∀ s, s ∈ P → K s ≠ K r) → length (results rt') = S (length (results rt))) ∧
    ((∃ s, s ∈ P ∧ K s = K r) → length (results rt') = length (results rt)).
Proof.
  intros HK Hc [Hids Hdom] Hok Hsame Hnew. unfold GetOrAddResult. rewrite HK, Hc, andb_false_r. cbn [negb]. rewrite orb_true_r. cbn [assert_ rbind].
  rewrite <- HK. destruct (result_ids rt !! K r) as [i|] eqn:E.
  - destruct (Hdom _ _ E) as (s & Hs & Hks). assert (i = index r) as ->.
    { rewrite <- (Hsame s Hs Hks). apply Hids in Hs. rewrite Hks in Hs. congruence. }
    exists rt. split; [by destruct cache|]. destruct Hok as [Hf Hi Hso Hn].
    assert (result_row_id (get_result (results rt) (index r)) ≠ None) as Hrow.
    { intros HNone%Hn. rewrite <- (Hsame s Hs Hks) in HNone. assert (s ∈ rows_at (index s) P) as Hin by (apply list_elem_of_filter; done).
      rewrite HNone in Hin. by apply elem_of_nil in Hin. }
    split; [|split; [|split; [intros H; by destruct (H s Hs)|done]]].
    + split; try done; [|by right]. rewrite <- (Hsame s Hs Hks). by apply Hi.
    + split; [|intros k i Hk; destruct (Hdom k i Hk) as (u & ? & ?); exists u; split; [apply elem_of_app; by left|done]].
      intros u [Hu| ->%list_elem_of_singleton]%elem_of_app; [by apply Hids|done].
  - assert (∀ s, s ∈ P → K s ≠ K r) as Hno by (intros s Hs Hks; apply Hids in Hs; congruence).
    rewrite <- (Hnew Hno). eexists. split; [by destruct cache|]. cbn [results result_ids]. rewrite length_app. cbn [length].
    pose proof (Hnew Hno) as Hidx.
    split; [|split; [|split; [intros _; lia|intros (s & Hs & Hks); by destruct (Hno s Hs)]]].
    + assert (get_result (results rt) (index r) = empty_result fresh) as He by (apply get_result_lt; rewrite (Hnew Hno); lia).
      split; rewrite ?length_app; cbn [length]; [rewrite (Hnew Hno); lia|lia|..].
      * intros j Hj. rewrite get_result_app, decide_False by (by rewrite <- (Hnew Hno)). done.
      * rewrite get_result_app, decide_True by (by apply Hnew). by rewrite He.
      * rewrite get_result_app, decide_True by (by apply Hnew). by rewrite He.
      * rewrite get_result_app, decide_True by (by apply Hnew). by left.
    + split; cbn [result_ids].
      * intros u [Hu| ->%list_elem_of_singleton]%elem_of_app; [|by rewrite lookup_insert_eq].
        rewrite lookup_insert_ne by (intros Heq; by destruct (Hno u Hu)). by apply Hids.
      * intros k i. destruct (decide (k = K r)) as [->|Hne].
        -- intros _. exists r. split; [apply elem_of_app; right; by left|done].
        -- rewrite lookup_insert_ne by done. intros Hk. destruct (Hdom k i Hk) as (u & ? & ?). exists u. split; [apply elem_of_app; by left|done].
Qed.
End Results.

(** ** Indices by first appearance *)
Section Appearance.
Context (K : RowId → AggregateKey).

Definition see (l : list AggregateKey) (r : RowId) : list AggregateKey := if decide (K r ∈ l) then l else l ++ [K r].
Definition seen (P : list RowId) : list AggregateKey := foldl see [] P.
Fixpoint position (l : list AggregateKey) (k : AggregateKey) : nat :=
  match l with [] => 0%nat | x :: l' => if decide (x = k) then 0%nat else S (position l' k) end.

Lemma seen_snoc P r : seen (P ++ [r]) = see (seen P) r.
Proof. unfold seen. by rewrite foldl_app. Qed.

Lemma seen_elem P k : k ∈ seen P ↔ ∃ r, r ∈ P ∧ K r = k.
Proof.
  induction P as [|r P IH] using rev_ind; [split; [by intros ?%elem_of_nil|by intros (? & ?%elem_of_nil & _)]|].
  rewrite seen_snoc. unfold see. destruct (decide (K r ∈ seen P)) as [Hin|Hin].
  - rewrite IH. split; [intros (s & ? & ?); exists s; split; [apply elem_of_app; by left|done]|].
    intros (s & [Hs| ->%list_elem_of_singleton]%elem_of_app & <-); [by exists s|by apply IH].
  - rewrite elem_of_app, list_elem_of_singleton, IH. split.
    + intros [(s & ? & ?)| ->]; [exists s|exists r]; (split; [apply elem_of_app|done]); [by left|right; by left].
    + intros (s & [Hs| ->%list_elem_of_singleton]%elem_of_app & <-); [left; by exists s|by right].
Qed.

Lemma seen_prefix P Q : ∃ l, seen (P ++ Q) = seen P ++ l.
Proof.
  induction Q as [|r Q [l IH]] using rev_ind; [exists []; by rewrite !app_nil_r|].
  rewrite app_assoc, seen_snoc, IH. unfold see. destruct (decide _); [by exists l|]. exists (l ++ [K r]). by rewrite app_assoc.
Qed.

Lemma position_app l l' k : k ∈ l → position (l ++ l') k = position l k.
Proof.
  induction l as [|x l IH]; [by intros ?%elem_of_nil|]. intros Hk. cbn. destruct (decide (x = k)) as [|Hne]; [done|].
  f_equal. apply IH. by apply elem_of_cons in Hk as [->|].
Qed.

Lemma position_fresh l k : ¬ (k ∈ l) → position (l ++ [k]) k = length l.
Proof.
  induction l as [|x l IH]; intros Hk; cbn; [by destruct (decide (k = k))|]. destruct (decide (x = k)) as [->|]; [destruct Hk; by left|].
  f_equal. apply IH. intros ?. apply Hk. by right.
Qed.

Lemma position_inj l j k : j ∈ l → position l j = position l k → j = k.
Proof.
  induction l as [|x l IH]; [by intros ?%elem_of_nil|]. intros Hj. cbn.
  destruct (decide (x = j)) as [Hxj|Hxj], (decide (x = k)) as [Hxk|Hxk]; [congruence|done|done|]. intros [= H]. apply IH; [|done].
  by apply elem_of_cons in Hj as [->|].
Qed.

Lemma position_lt l k : k ∈ l → (position l k < length l)%nat.
Proof.
  induction l as [|x l IH]; [by intros ?%elem_of_nil|]. intros Hk. cbn. destruct (decide (x = k)) as [|Hne]; [lia|].
  apply elem_of_cons in Hk as [->|Hk]; [done|]. specialize (IH Hk). lia.
Qed.

Lemma length_seen P : (length (seen P) ≤ length P)%nat.
Proof.
  induction P as [|r P IH] using rev_ind; [done|]. rewrite seen_snoc, length_app. unfold see. destruct (decide _); [lia|].
  rewrite length_app. cbn. lia.
Qed.

(** [rows] are all the rows of the table, [base] results are there from the start. *)
Definition index_of (base : nat) (rows : list RowId) (r : RowId) : nat := (base + position (seen rows) (K r))%nat.

Lemma index_of_same base rows r s : r ∈ rows → index_of base rows r = index_of base rows s ↔ K r = K s.
Proof.
  intros Hr. unfold index_of. split; [|by intros ->]. intros H. apply (position_inj (seen rows)); [apply seen_elem; by exists r|lia].
Qed.

Lemma index_of_new base P r Q : (∀ s, s ∈ P → K s ≠ K r) → index_of base (P ++ r :: Q) r = (base + length (seen P))%nat.
Proof.
  intros Hno. unfold index_of. rewrite cons_middle, app_assoc. destruct (seen_prefix (P ++ [r]) Q) as [l ->].
  assert (K r ∉ seen P) as Hn by (intros (s & Hs & Hk)%seen_elem; by apply (Hno s)).
  rewrite seen_snoc. unfold see. rewrite decide_False by done. rewrite position_app by (apply elem_of_app; right; by left).
  by rewrite position_fresh.
Qed.

Lemma length_seen_snoc P r :
  length (seen (P ++ [r])) = if decide (K r ∈ seen P) then length (seen P) else S (length (seen P)).
Proof. rewrite seen_snoc. unfold see. destruct (decide _); [done|]. rewrite length_app. cbn. lia. Qed.
End Appearance.

(** ** All rows of a table, one after the other *)
Section Visits.
Context (t : Table) {A : Set} (fresh : A) (update : RowId → A * nat → result (A * nat)) (index : RowId → nat) (located : Prop).
Hypothesis Hfold : ∀ i, ∃ ac, fold_rows fresh update (rows_at index i (row_ids t)) = Ok ac.

Abbreviation fold_of P i := (fold_rows fresh update (rows_at index i P)).
Abbreviation ok P rt := (results_ok fresh update index located P (results rt)).
Abbreviation step grouped cache := (visit_row fresh grouped cache update).

Lemma fold_prefix P Q i : P ++ Q = row_ids t → ∃ ac, fold_of P i = Ok ac.
Proof.
  intros HP. destruct (Hfold i) as [ac Hac]. rewrite <- HP in Hac. unfold rows_at in *. rewrite filter_app in Hac.
  by eapply fold_rows_prefix.
Qed.

Lemma single_result_row_id (rs rs' : list (AggregateResult A)) :
  result_row_id <$> rs = result_row_id <$> rs' → single_result rs' → single_result rs.
Proof. intros H [Hl Hf]. split; [|by rewrite H]. apply (f_equal length) in H. rewrite !length_fmap in H. lia. Qed.

Lemma visits_ungrouped cache keys rows : ∀ P Q rt,
  P ++ rows ++ Q = row_ids t → (∀ r, index r = 0%nat) → single_result (results rt) → ok P rt →
  ∃ rt', foldR (step false cache) (keys, rt) rows = Ok (keys, rt') ∧ single_result (results rt') ∧ ok (P ++ rows) rt'.
Proof.
  induction rows as [|r rows IH]; intros P Q rt HP Hi Hs Hok; cbn [foldR]; [exists rt; by rewrite app_nil_r|].
  destruct (GetOrAddResult_ungrouped fresh index cache rt r Hs (Hi r)) as (rt1 & Hg & Ht & Hs1).
  rewrite (cons_middle r P rows), app_assoc. change ((r :: rows) ++ Q) with ([r] ++ rows ++ Q) in HP.
  destruct (fold_prefix (P ++ [r]) (rows ++ Q) (index r)) as [ac Hac]; [by rewrite <- app_assoc|].
  destruct (visit_row_ok fresh update index located false cache keys rt P r [] [] rt1 ac eq_refl Hg Hok Ht Hac) as (rs & -> & Hok1 & Hl).
  cbn [rbind set_key]. eapply (IH (P ++ [r]) Q); [by rewrite <- app_assoc|done|by eapply single_result_row_id|done].
Qed.

Lemma visits_cached keys rows : ∀ P Q rt,
  P ++ rows ++ Q = row_ids t → ok P rt →
  (∀ r, r ∈ rows → (N.of_nat (index r) < 2 ^ 63)%N ∧ ∃ rest, keys r = cached_entry (index r) :: rest) →
  ∃ rt', foldR (step true true) (keys_of t keys, rt) rows = Ok (keys_of t keys, rt') ∧ ok (P ++ rows) rt'.
Proof.
  induction rows as [|r rows IH]; intros P Q rt HP Hok Hk; cbn [foldR]; [exists rt; by rewrite app_nil_r|].
  destruct (Hk r) as (Hlt & rest & Hkr); [by left|].
  destruct (GetOrAddResult_cached fresh index rt (index r) rest r Hlt eq_refl) as (rt1 & Hg & Ht & _). rewrite <- Hkr in Hg.
  rewrite (cons_middle r P rows), app_assoc. change ((r :: rows) ++ Q) with ([r] ++ rows ++ Q) in HP.
  assert (r ∈ row_ids t) as Hr by (rewrite <- HP, !elem_of_app; right; left; by left).
  destruct (fold_prefix (P ++ [r]) (rows ++ Q) (index r)) as [ac Hac]; [by rewrite <- app_assoc|].
  destruct (visit_row_ok fresh update index located true true _ rt P r _ _ rt1 ac (get_key t keys r Hr) Hg Hok Ht Hac) as (rs & -> & Hok1 & Hl).
  cbn [rbind]. rewrite set_key_of by done. rewrite (keys_of_ext t _ keys).
  - eapply (IH (P ++ [r]) Q); [by rewrite <- app_assoc|done|]. intros s Hs. apply Hk. by right.
  - intros s _. unfold updated. by destruct (decide (s = r)) as [->|].
Qed.

(** ** Looking the keys up *)
Section Lookups.
Context (K : RowId → AggregateKey) (base : nat) (cache : bool).
Hypothesis Hindex : index = index_of K base (row_ids t).
Hypothesis Huncached : ∀ r, r ∈ row_ids t → ∃ first rest, K r = first :: rest ∧ is_cached first = false.

(** The key of a row once some rows have been visited. *)
Definition cached_key (r : RowId) : AggregateKey := if cache then cached_entry (index r) :: tail (K r) else K r.
Definition key_after (P : list RowId) (r : RowId) : AggregateKey := if decide (r ∈ P) then cached_key r else K r.

Definition lookups_ok (P : list RowId) (rt : ResultTable A) : Prop :=
  ids_ok index K P rt ∧ length (results rt) = (base + length (seen K P))%nat.

Lemma visits_lookup rows : ∀ P Q rt,
  P ++ rows ++ Q = row_ids t → ok P rt → lookups_ok P rt →
  ∃ rt', foldR (step true cache) (keys_of t (key_after P), rt) rows = Ok (keys_of t (key_after (P ++ rows)), rt') ∧
    ok (P ++ rows) rt' ∧ lookups_ok (P ++ rows) rt'.
Proof.
  induction rows as [|r rows IH]; intros P Q rt HP Hok [Hids Hlen]; cbn [foldR]; [exists rt; by rewrite app_nil_r|].
  rewrite (cons_middle r P rows), app_assoc. change ((r :: rows) ++ Q) with ([r] ++ rows ++ Q) in HP.
  assert (r ∈ row_ids t) as Hr by (rewrite <- HP, !elem_of_app; right; left; by left).
  assert (¬ (r ∈ P)) as Hfresh.
  { intros Hin. pose proof (row_ids_NoDup t) as Hnd. rewrite <- HP in Hnd. apply NoDup_app in Hnd as (_ & Hd & _).
    apply (Hd r Hin). apply elem_of_app. left. by left. }
  destruct (Huncached r Hr) as (first & rest & HK & Hc).
  assert (∀ s, s ∈ P → K s = K r → index s = index r) as Hsame by (intros s _ Heq; rewrite Hindex; unfold index_of; by rewrite Heq).
  assert ((∀ s, s ∈ P → K s ≠ K r) → index r = length (results rt)) as Hnew.
  { intros Hno. rewrite Hindex, <- HP. rewrite Hlen. by apply index_of_new. }
  destruct (GetOrAddResult_lookup fresh update index located cache K P rt r first rest HK Hc Hids Hok Hsame Hnew) as (rt1 & Hg & Ht & Hids1 & Hgrow & Hkeep).
  destruct (fold_prefix (P ++ [r]) (rows ++ Q) (index r)) as [ac Hac]; [by rewrite <- app_assoc|].
  assert (key_after P r = K r) as Hka by (unfold key_after; by rewrite decide_False).
  pose proof (get_key t (key_after P) r Hr) as Hget. rewrite Hka in Hget.
  destruct (visit_row_ok fresh update index located true cache _ rt P r _ _ rt1 ac Hget Hg Hok Ht Hac) as (rs & -> & Hok1 & Hl).
  cbn [rbind]. rewrite set_key_of by done. rewrite (keys_of_ext t _ (key_after (P ++ [r]))).
  - eapply (IH (P ++ [r]) Q); [by rewrite <- app_assoc|done|]. split; [done|]. cbn [results].
    apply (f_equal length) in Hl. rewrite !length_fmap in Hl. rewrite Hl, length_seen_snoc.
    destruct (decide (K r ∈ seen K P)) as [Hin|Hin].
    + apply seen_elem in Hin. by rewrite Hkeep.
    + rewrite Hgrow; [lia|]. intros s Hs Hk. apply Hin, seen_elem. by exists s.
  - intros s _. unfold updated, key_after. destruct (decide (s = r)) as [->|Hne].
    + rewrite decide_True by (apply elem_of_app; right; by left). unfold cached_key. destruct cache; [|done]. by rewrite HK.
    + destruct (decide (s ∈ P)) as [Hin|Hin]; [by rewrite decide_True by (apply elem_of_app; by left)|].
      rewrite decide_False; [done|]. by intros [?|?%list_elem_of_singleton]%elem_of_app.
Qed.
End Lookups.
End Visits.

(** ** Aggregates of a table *)
Section Aggregates.
Context (t : Table).

Definition aggregate_function (e : expr) : AggregateFunction := match GetAggregateFunction e with Ok f => f | Err _ => kAny end.
Definition aggregate_column (e : expr) : nat := match AggregateColumn e with Ok c => N.to_nat c | Err _ => 0%nat end.
Definition counts_rows (e : expr) : bool := bool_decide (AggregateColumn e = Ok kInvalidColumnId).
Definition aggregate_type (e : expr) : DataType := if counts_rows e then kInt else column_type t (aggregate_column e).

(** What one row does to the accumulator and the count of its group. *)
Definition aggregate_update (e : expr) (dt : DataType) (f : AggregateFunction) : RowId → Accumulator dt f * nat → result (Accumulator dt f * nat) :=
  if counts_rows e then count_row else process_value t (aggregate_column e) dt f.

Abbreviation fold_group e := (fold_rows (default_accumulator (aggregate_type e) (aggregate_function e))
  (aggregate_update e (aggregate_type e) (aggregate_function e))).

Record valid_aggregate (e : expr) : Prop := {
  va_function : GetAggregateFunction e = Ok (aggregate_function e);
  va_column : ∃ c, AggregateColumn e = Ok c ∧
    (c = kInvalidColumnId ∧ counts_rows e = true ∧ aggregate_function e = kCount ∨
     c ≠ kInvalidColumnId ∧ counts_rows e = false ∧ aggregate_column e = N.to_nat c ∧ (N.to_nat c < GetColumnCount t)%nat) }.

Lemma ValidateAggregate_valid e : wf_table t → ValidateAggregate t e = Ok tt → valid_aggregate e.
Proof.
  intros Ht H. unfold ValidateAggregate in H. apply bind_ok in H as (f & Hf & H). apply bind_ok in H as (c & Hc & H).
  split; [unfold aggregate_function; by rewrite Hf|]. exists c. split; [done|]. unfold counts_rows, aggregate_column, aggregate_function.
  rewrite Hc, Hf. destruct (decide (c = kInvalidColumnId)) as [->|Hne].
  - left. apply assert_ok, bool_decide_eq_true in H. by rewrite bool_decide_true.
  - right. rewrite bool_decide_false by congruence. do 3 (split; [done|]).
    apply bind_ok in H as (dt & Hdt & _). unfold ColumnDataType in Hdt. inv_bind. rewrite column_count by done. by eapply lookup_lt_Some.
Qed.
End Aggregates.

(** ** The interface of the lookups *)
Record visits_groups (t : Table) (index : RowId → nat) (size : nat) (grouped cache : bool) (KP : list RowId → KeysPerChunk)
    (first_inv next_inv : ∀ A : Set, list RowId → ResultTable A → Prop) : Prop := {
  vg_first (A : Set) (fresh : A) update rows P Q rt :
    (∀ i, ∃ ac, fold_rows fresh update (rows_at index i (row_ids t)) = Ok ac) →
    P ++ rows ++ Q = row_ids t → results_ok fresh update index (grouped = true) P (results rt) → first_inv A P rt →
    ∃ rt', foldR (visit_row fresh grouped cache update) (KP P, rt) rows = Ok (KP (P ++ rows), rt') ∧
      results_ok fresh update index (grouped = true) (P ++ rows) (results rt') ∧ first_inv A (P ++ rows) rt';
  vg_next (A : Set) (fresh : A) update rows P Q rt :
    (∀ i, ∃ ac, fold_rows fresh update (rows_at index i (row_ids t)) = Ok ac) →
    P ++ rows ++ Q = row_ids t → results_ok fresh update index (grouped = true) P (results rt) → next_inv A P rt →
    ∃ rt', foldR (visit_row fresh grouped cache update) (KP (P ++ rows), rt) rows = Ok (KP (P ++ rows), rt') ∧
      results_ok fresh update index (grouped = true) (P ++ rows) (results rt') ∧ next_inv A (P ++ rows) rt';
  vg_init (A : Set) (fresh : A) :
    first_inv A [] (mkResults ∅ (replicate size (empty_result fresh))) ∧ next_inv A [] (mkResults ∅ (replicate size (empty_result fresh)));
  vg_ungrouped : grouped = false → (∀ r, index r = 0%nat) ∧ KP = (λ _, []) ∧
    first_inv = (λ _ _ rt, single_result (results rt)) ∧ next_inv = (λ _ _ rt, single_result (results rt)) }.

Lemma visits_nothing_grouped t cache :
  visits_groups t (λ _, 0%nat) 0 false cache (λ _, []) (λ _ _ rt, single_result (results rt)) (λ _ _ rt, single_result (results rt)).
Proof.
  split; [..|done].
  - intros A fresh update rows P Q rt Hf HP Hok Hs. destruct (visits_ungrouped t fresh update _ (false = true) Hf cache [] rows P Q rt) as (rt' & ? & ? & ?); try done. by exists rt'.
  - intros A fresh update rows P Q rt Hf HP Hok Hs. destruct (visits_ungrouped t fresh update _ (false = true) Hf cache [] rows P Q rt) as (rt' & ? & ? & ?); try done. by exists rt'.
  - intros A fresh. cbn. unfold single_result. cbn. split; (split; [lia|constructor]).
Qed.

Lemma visits_indices t index size :
  (∀ r, r ∈ row_ids t → (N.of_nat (index r) < 2 ^ 63)%N) →
  visits_groups t index size true true (λ _, keys_of t (λ r, [cached_entry (index r)])) (λ _ _ _, True) (λ _ _ _, True).
Proof.
  intros Hi.
  assert (∀ (A : Set) (fresh : A) update rows P Q rt, (∀ i, ∃ ac, fold_rows fresh update (rows_at index i (row_ids t)) = Ok ac) →
    P ++ rows ++ Q = row_ids t → results_ok fresh update index (true = true) P (results rt) → True →
    ∃ rt', foldR (visit_row fresh true true update) (keys_of t (λ r, [cached_entry (index r)]), rt) rows = Ok (keys_of t (λ r, [cached_entry (index r)]), rt') ∧
      results_ok fresh update index (true = true) (P ++ rows) (results rt') ∧ True) as H.
  { intros A fresh update rows P Q rt Hf HP Hok _. destruct (visits_cached t fresh update _ (true = true) Hf (λ r, [cached_entry (index r)]) rows P Q rt) as (rt' & ? & ?); try done.
    - intros r Hr. split; [|by exists []]. apply Hi. rewrite <- HP, !elem_of_app. auto.
    - by exists rt'. }
  split; [exact H|exact H|done|done].
Qed.

Lemma visits_keys t K size cache :
  (∀ r, r ∈ row_ids t → ∃ first rest, K r = first :: rest ∧ is_cached first = false) →
  (N.of_nat (size + length (row_ids t)) < 2 ^ 63)%N →
  let index := index_of K size (row_ids t) in
  visits_groups t index size true cache (λ P, keys_of t (key_after index K cache P))
    (λ _ P rt, lookups_ok index K size P rt) (λ _ P rt, cache = false → lookups_ok index K size P rt).
Proof.
  intros HK Hsize index. split; [..|done].
  - intros A fresh update rows P Q rt Hf HP Hok Hinv. by apply (visits_lookup t fresh update index (true = true) Hf K size cache eq_refl HK rows P Q rt).
  - intros A fresh update rows P Q rt Hf HP Hok Hinv. destruct cache.
    + destruct (visits_cached t fresh update index (true = true) Hf (key_after index K true (P ++ rows)) rows P Q rt HP Hok) as (rt' & ? & ?); [|by exists rt'].
      intros r Hr. assert (r ∈ row_ids t) as Hrt by (rewrite <- HP, !elem_of_app; auto). split.
      * unfold index, index_of. assert (position (seen K (row_ids t)) (K r) ≤ length (row_ids t))%nat; [|lia].
        etrans; [apply Nat.lt_le_incl, position_lt, seen_elem; by exists r|]. apply length_seen.
      * unfold key_after. rewrite decide_True by (rewrite elem_of_app; auto). by eexists.
    + destruct (visits_lookup t fresh update index (true = true) Hf K size false eq_refl HK rows P Q rt HP Hok (Hinv eq_refl)) as (rt' & Hrun & ? & ?).
      exists rt'. assert (∀ P', keys_of t (key_after index K false P') = keys_of t K) as Hkeys.
      { intros P'. apply keys_of_ext. intros r _. unfold key_after, cached_key. by destruct (decide _). }
      rewrite Hkeys in *. rewrite Hkeys in Hrun. done.
  - intros A fresh. assert (lookups_ok index K size [] (mkResults ∅ (replicate size (empty_result fresh)))) as H; [|done].
    split; [|cbn; rewrite length_replicate; lia]. split; [by intros r ?%elem_of_nil|]. cbn. intros k i Hk. by rewrite lookup_empty in Hk.
Qed.

(** ** The loops *)
Section Loop.
Context (t : Table) (index : RowId → nat) (size : nat) (grouped cache : bool) (KP : list RowId → KeysPerChunk)
        (first_inv next_inv : ∀ A : Set, list RowId → ResultTable A → Prop) (aggregates : list expr).
Hypothesis Ht : wf_table t.
Hypothesis Hvisits : visits_groups t index size grouped cache KP first_inv next_inv.

Abbreviation update_of e := (aggregate_update t e (aggregate_type t e) (aggregate_function e)).
Abbreviation fresh_of e := (default_accumulator (aggregate_type t e) (aggregate_function e)).

Definition inv_at (k : nat) : ∀ A : Set, list RowId → ResultTable A → Prop := if decide (k = 0%nat) then first_inv else next_inv.

(** The context of an aggregate after the rows [P]; ANY is left alone. *)
Definition context_ok (k : nat) (e : expr) (P : list RowId) (ctx : AggregateContext) : Prop :=
  ∃ rt, ctx = mkContext (aggregate_type t e) (aggregate_function e) rt ∧
    (aggregate_function e ≠ kAny → results_ok (fresh_of e) (update_of e) index (grouped = true) P (results rt) ∧ inv_at k _ P rt).

Definition folds_ok (e : expr) : Prop :=
  aggregate_function e ≠ kAny → ∀ i, ∃ ac, fold_rows (fresh_of e) (update_of e) (rows_at index i (row_ids t)) = Ok ac.

Lemma fold_count (A : Set) (a : A) n rows : foldR (λ ac r, count_row r ac) (a, n) rows = Ok (a, (n + length rows)%nat).
Proof.
  revert n. induction rows as [|r rows IH]; intros n; cbn; [by rewrite Nat.add_0_r|]. rewrite IH. cbn. by rewrite Nat.add_succ_r.
Qed.

(** COUNT of all rows adds the size of the chunk. *)
Lemma count_chunk_ok (A : Set) (fresh : A) P rows (rs : list (AggregateResult A)) :
  (∀ r, index r = 0%nat) → single_result rs → results_ok fresh count_row index (false = true) P rs →
  let x := match rs with x :: _ => x | [] => empty_result fresh end in
  results_ok fresh count_row index (false = true) (P ++ rows)
    [mkResult (accumulator x) (aggregate_count x + length rows) (Some (mkRowId 0 0))].
Proof.
  intros Hi [Hl _] [Hf _ _ _] x.
  assert (∀ i l, rows_at index i l = if decide (i = 0%nat) then l else []) as Hat.
  { intros i l. unfold rows_at. induction l as [|r l IH]; [by destruct (decide _)|]. rewrite filter_cons, IH, Hi.
    destruct (decide (i = 0%nat)) as [->|Hne]; [done|]. by destruct (decide (0%nat = i)). }
  assert (get_result fresh rs 0 = x) as Hx by (unfold get_result, x; by destruct rs).
  split; try done.
  - intros i. specialize (Hf i). rewrite Hat in *. destruct (decide (i = 0%nat)) as [->|Hne].
    + rewrite Hx in Hf. unfold fold_rows in *. rewrite foldR_app, Hf. cbn [rbind]. apply fold_count.
    + by destruct i as [|[|i]].
  - intros r _. rewrite Hi. cbn. lia.
  - intros i. rewrite Hat. by destruct i as [|[|i]].
Qed.

(** One aggregate, one chunk. *)
Lemma aggregate_segment_ok k e i c P Q ctxs ctx :
  let rows := mkRowId i <$> seq 0 (chunk_Size c) in
  valid_aggregate t e → folds_ok e → chunks t !! i = Some c → P ++ rows ++ Q = row_ids t →
  ctxs !! k = Some ctx → context_ok k e P ctx → (k = 0%nat → aggregate_function e ≠ kAny) →
  ∃ ctx', context_ok k e (P ++ rows) ctx' ∧
    aggregate_segment t grouped cache i (if decide (k = 0%nat) then KP P else KP (P ++ rows), ctxs) (k, e) =
    Ok (KP (P ++ rows), <[k := ctx']> ctxs).
Proof.
  intros rows [Hfun (column & Hcol & Hcases)] Hfolds Hc HP Hctx (rt & -> & Hany) Hk0. unfold aggregate_segment. rewrite Hfun, Hcol. cbn [rbind].
  rewrite (GetChunk_ok _ _ _ Hc). cbn [rbind fst snd]. rewrite (vec_get_ok _ _ _ Hctx). cbn [rbind].
  assert (aggregate_function e ≠ kAny → ∃ rt', foldR (visit_row (fresh_of e) grouped cache (update_of e)) (if decide (k = 0%nat) then KP P else KP (P ++ rows), rt) rows =
    Ok (KP (P ++ rows), rt') ∧ context_ok k e (P ++ rows) (mkContext (aggregate_type t e) (aggregate_function e) rt')) as Hvisit.
  { intros Hne. destruct (Hany Hne) as [Hok Hinv]. unfold inv_at in Hinv. destruct (decide (k = 0%nat)) as [->|Hk].
    - destruct (vg_first _ _ _ _ _ _ _ _ Hvisits _ _ _ rows P Q rt (Hfolds Hne) HP Hok Hinv) as (rt' & Hrun & Hok' & Hinv').
      exists rt'. split; [exact Hrun|]. exists rt'. by unfold inv_at.
    - destruct (vg_next _ _ _ _ _ _ _ _ Hvisits _ _ _ rows P Q rt (Hfolds Hne) HP Hok Hinv) as (rt' & Hrun & Hok' & Hinv').
      exists rt'. split; [exact Hrun|]. exists rt'. split; [done|]. intros _. split; [done|]. unfold inv_at. by destruct (decide (k = 0%nat)). }
  destruct Hcases as [(-> & Hcr & Hcount)|(Hne & Hcr & Hj & Hlt)].
  - destruct (decide (kInvalidColumnId = kInvalidColumnId)) as [_|]; [|done]. rewrite bool_decide_true by done. cbn [assert_ rbind].
    assert (aggregate_function e ≠ kAny) as Hna by (by rewrite Hcount).
    assert (update_of e = count_row) as Hup by (unfold aggregate_update; by rewrite Hcr).
    destruct grouped eqn:Hgrouped.
    + destruct (Hvisit Hna) as (rt' & Hrun & Hok'). unfold visit_rows. cbn [fst snd context_type context_function context_results].
      rewrite Hup in Hrun. fold rows. rewrite Hrun. cbn [rbind fst snd]. by eexists.
    + destruct (vg_ungrouped _ _ _ _ _ _ _ _ Hvisits eq_refl) as (Hi & HKP & Hf & Hn).
      destruct (Hany Hna) as [Hok Hinv]. assert (single_result (results rt)) as Hs.
      { unfold inv_at in Hinv. rewrite Hf, Hn in Hinv. by destruct (decide (k = 0%nat)). }
      rewrite Hup in Hok. pose proof (count_chunk_ok _ _ P rows _ Hi Hs Hok) as Hok'. cbv zeta in Hok'.
      eexists. split; [|rewrite HKP; by destruct (decide (k = 0%nat))].
      eexists. split; [reflexivity|]. intros _. rewrite Hup, Hgrouped. cbn [results context_results context_type context_function]. split.
      * replace (chunk_Size c) with (length rows) by (unfold rows; by rewrite length_fmap, length_seq). exact Hok'.
      * unfold inv_at. rewrite Hf, Hn. assert (∀ x : AggregateResult (Accumulator (aggregate_type t e) (aggregate_function e)), result_row_id x ≠ None → single_result [x]) as Hsr.
        { intros x Hx. split; [cbn; lia|by repeat constructor]. }
        destruct (decide (k = 0%nat)); by apply Hsr.
  - rewrite decide_False by done. rewrite <- Hj.
    destruct (table_segment t Ht i c (aggregate_column e) Hc) as (s & Hs & _ & _ & Hsize & _); [by rewrite Hj|].
    unfold chunk_GetSegment, vec_at. rewrite Hs. cbn [of_option rbind]. destruct (decide (aggregate_function e = kAny)) as [Ha|Ha].
    + destruct (decide (k = 0%nat)) as [->|Hk]; [by destruct (Hk0 eq_refl)|].
      exists (mkContext (aggregate_type t e) (aggregate_function e) rt). split; [by exists rt|]. by rewrite list_insert_id.
    + destruct (Hvisit Ha) as (rt' & Hrun & Hok'). unfold visit_rows. cbn [fst snd context_type context_function context_results].
      assert (update_of e = process_value t (aggregate_column e) _ _) as Hup by (unfold aggregate_update; by rewrite Hcr).
      rewrite Hup in Hrun. rewrite Hsize. fold rows. rewrite Hrun. cbn [rbind fst snd]. by eexists.
Qed.

Definition contexts_ok (P : list RowId) (ctxs : list AggregateContext) : Prop :=
  ∀ k e, aggregates !! k = Some e → ∃ ctx, ctxs !! k = Some ctx ∧ context_ok k e P ctx.

Hypothesis Hvalid : Forall (valid_aggregate t) aggregates.
Hypothesis Hfolds : Forall folds_ok aggregates.
Hypothesis Hfirst : ∀ e, aggregates !! 0%nat = Some e → aggregate_function e ≠ kAny.

Lemma aggregate_segments_ok i c P Q es : ∀ k ctxs,
  let rows := mkRowId i <$> seq 0 (chunk_Size c) in
  drop k aggregates = es → (k < length aggregates)%nat ∨ aggregates ≠ [] ∧ es = [] ∧ k ≠ 0%nat →
  chunks t !! i = Some c → P ++ rows ++ Q = row_ids t →
  (∀ k' e, aggregates !! k' = Some e → ∃ ctx, ctxs !! k' = Some ctx ∧ context_ok k' e (if decide (k' < k)%nat then P ++ rows else P) ctx) →
  ∃ ctxs', foldR (aggregate_segment t grouped cache i) (if decide (k = 0%nat) then KP P else KP (P ++ rows), ctxs) (zip (seq k (length es)) es) =
    Ok (KP (P ++ rows), ctxs') ∧ contexts_ok (P ++ rows) ctxs' ∧ length ctxs' = length ctxs.
Proof.
  induction es as [|e es IH]; intros k ctxs rows Hdrop Hk Hc HP Hctxs; cbn [length seq zip zip_with foldR].
  - destruct Hk as [Hk|(_ & _ & Hk)]; [apply (f_equal length) in Hdrop; rewrite length_drop in Hdrop; cbn in Hdrop; lia|].
    exists ctxs. split; [by destruct (decide (k = 0%nat))|]. split; [|done]. intros k' e He. destruct (Hctxs k' e He) as (ctx & ? & Hctx).
    exists ctx. split; [done|]. rewrite decide_True in Hctx; [done|]. apply lookup_lt_Some in He.
    apply (f_equal length) in Hdrop. rewrite length_drop in Hdrop. cbn in Hdrop. lia.
  - assert (aggregates !! k = Some e) as He by (rewrite <- (Nat.add_0_r k), <- lookup_drop, Hdrop; done).
    destruct (Hctxs k e He) as (ctx & Hctx & Hok). rewrite decide_False in Hok by lia.
    rewrite Forall_lookup in Hvalid, Hfolds.
    destruct (aggregate_segment_ok k e i c P Q ctxs ctx) as (ctx' & Hok' & Hrun); [by eapply Hvalid|by eapply Hfolds|done..| |].
    { intros ->. by apply Hfirst. }
    fold rows in Hok', Hrun. rewrite Hrun. cbn [rbind].
    assert (drop (S k) aggregates = es) as Hdrop' by (rewrite <- Nat.add_1_r, <- drop_drop, Hdrop; done).
    destruct (IH (S k) (<[k := ctx']> ctxs) Hdrop') as (ctxs' & Hrun' & Hall & Hl); [|done..| |].
    + destruct es as [|e' es]; [right; split; [by intros ->|done]|left].
      apply (f_equal length) in Hdrop'. rewrite length_drop in Hdrop'. cbn in Hdrop'. lia.
    + intros k' e' He'. destruct (Hctxs k' e' He') as (ctx2 & Hctx2 & Hok2). destruct (decide (k' = k)) as [->|Hne].
      * assert (e' = e) as -> by congruence. exists ctx'. rewrite decide_True by lia. split; [|done].
        apply list_lookup_insert_eq. by eapply lookup_lt_Some.
      * exists ctx2. rewrite list_lookup_insert_ne by done. split; [done|].
        destruct (decide (k' < k)%nat), (decide (k' < S k)%nat); try done; lia.
    + rewrite decide_False in Hrun' by lia. exists ctxs'. split; [exact Hrun'|]. split; [done|]. by rewrite Hl, length_insert.
Qed.

(** All chunks. *)
Lemma aggregate_chunks_ok cs : ∀ k P ctxs,
  (∀ i c, cs !! i = Some c → chunks t !! (k + i)%nat = Some c) →
  P ++ row_ids_from k cs = row_ids t → aggregates ≠ [] →
  contexts_ok P ctxs →
  ∀ shortcut, cache = bool_decide (1 < length ctxs)%nat || shortcut →
  ∃ ctxs', foldR (aggregate_chunk t grouped shortcut true aggregates) (KP P, ctxs) (seq k (length cs)) = Ok (KP (row_ids t), ctxs') ∧
    contexts_ok (row_ids t) ctxs'.
Proof.
  induction cs as [|c cs IH]; intros k P ctxs Hcs HP Hne Hctxs shortcut Hcache; cbn [length seq foldR row_ids_from] in *.
  { rewrite app_nil_r in HP. subst P. by exists ctxs. }
  assert (chunks t !! k = Some c) as Hc by (rewrite <- (Hcs 0%nat c eq_refl); f_equal; lia).
  unfold aggregate_chunk at 1. cbn [snd]. rewrite <- Hcache, imap_pair_zip.
  destruct (aggregate_segments_ok k c P (row_ids_from (S k) cs) aggregates 0 ctxs) as (ctxs1 & Hrun & Hok1 & Hl); [done| |done..| |].
  - left. destruct aggregates; [done|cbn; lia].
  - intros k' e He. destruct (Hctxs k' e He) as (ctx & ? & ?). exists ctx. by rewrite decide_False by lia.
  - cbn [decide] in Hrun. rewrite decide_True in Hrun by done. rewrite Hrun. cbn [rbind].
    apply IH; [|by rewrite <- app_assoc|done|done|by rewrite Hl].
    intros i d Hd. rewrite <- (Hcs (S i) d Hd). f_equal. lia.
Qed.

(** ** DISTINCT *)
Lemma distinct_chunks_ok shortcut cs : ∀ k P ctxs ctx,
  cache = shortcut →
  (∀ i c, cs !! i = Some c → chunks t !! (k + i)%nat = Some c) →
  P ++ row_ids_from k cs = row_ids t → ctxs !! 0%nat = Some ctx →
  results_ok (default_accumulator (context_type ctx) (context_function ctx)) keep_row index (grouped = true) P (results (context_results ctx)) →
  first_inv _ P (context_results ctx) → context_type ctx ≠ kString →
  ∃ ctxs' ctx', foldR (aggregate_chunk t grouped shortcut false aggregates) (KP P, ctxs) (seq k (length cs)) = Ok (KP (row_ids t), ctxs') ∧
    ctxs' !! 0%nat = Some ctx' ∧
    results_ok (default_accumulator (context_type ctx') (context_function ctx')) keep_row index (grouped = true) (row_ids t) (results (context_results ctx')).
Proof.
  intros k P ctxs ctx Hshort. revert k P ctxs ctx.
  induction cs as [|c cs IH]; intros k P ctxs ctx Hcs HP Hctx Hok Hinv Hty; cbn [length seq foldR row_ids_from] in *.
  { rewrite app_nil_r in HP. subst P. by exists ctxs, ctx. }
  assert (chunks t !! k = Some c) as Hc by (rewrite <- (Hcs 0%nat c eq_refl); f_equal; lia).
  unfold aggregate_chunk at 1, distinct_chunk. rewrite (GetChunk_ok _ _ _ Hc). cbn [rbind fst snd].
  rewrite (vec_get_ok _ _ _ Hctx). cbn [rbind]. rewrite bool_decide_false by done. cbn [negb assert_ rbind].
  set (rows := mkRowId k <$> seq 0 (chunk_Size c)) in *.
  destruct (vg_first _ _ _ _ _ _ _ _ Hvisits _ (default_accumulator (context_type ctx) (context_function ctx)) keep_row rows P (row_ids_from (S k) cs) (context_results ctx)) as (rt & Hrun & Hok' & Hinv'); [|done..|].
  { intros i. exists (default_accumulator (context_type ctx) (context_function ctx), 0%nat). unfold fold_rows. generalize (rows_at index i (row_ids t)).
    intros l. induction l as [|r l IHl]; [done|exact IHl]. }
  unfold visit_rows. cbn [fst snd]. rewrite <- Hshort, Hrun. cbn [rbind fst snd].
  destruct (IH (S k) (P ++ rows) (<[0%nat := mkContext (context_type ctx) (context_function ctx) rt]> ctxs) (mkContext (context_type ctx) (context_function ctx) rt))
    as (ctxs' & ctx' & Hrun' & ? & ?); [|by rewrite <- app_assoc| |done..|].
  - intros i d Hd. rewrite <- (Hcs (S i) d Hd). f_equal. lia.
  - apply list_lookup_insert_eq. by eapply lookup_lt_Some.
  - exists ctxs', ctx'. by rewrite <- Hshort in Hrun'.
Qed.

(** ** Contexts at the start *)
Definition has_functions : bool := existsb (λ e, negb (bool_decide (aggregate_function e = kAny))) aggregates.

Lemma has_aggregate_functions_ok : has_aggregate_functions aggregates = Ok has_functions.
Proof.
  unfold has_aggregate_functions. rewrite (mapR_total _ aggregate_function).
  2: { intros e He. rewrite Forall_forall in Hvalid. apply (va_function _ _ (Hvalid e He)). }
  cbn [rbind]. f_equal. unfold has_functions. clear. induction aggregates as [|e es IH]; [done|]. rewrite fmap_cons. cbn [forallb existsb].
  rewrite <- IH. rewrite bool_decide_false by done. cbn [negb andb]. destruct (bool_decide (aggregate_function e = kAny)); [|done]. cbn.
  by destruct es.
Qed.

Lemma create_contexts_ok :
  create_contexts t size aggregates = Ok (((λ e, CreateAggregateContext (aggregate_type t e) (aggregate_function e) size) <$> aggregates) ++
    (if has_functions then [] else [CreateAggregateContext kInt kMin size])).
Proof.
  unfold create_contexts. rewrite (mapR_total _ (λ e, CreateAggregateContext (aggregate_type t e) (aggregate_function e) size)).
  - cbn [rbind]. rewrite has_aggregate_functions_ok. done.
  - intros e He. rewrite Forall_forall in Hvalid. destruct (Hvalid e He) as [Hf (c & Hc & Hcases)]. unfold create_context, aggregate_type.
    rewrite Hf, Hc. cbn [rbind]. destruct Hcases as [(-> & -> & ->)|(Hne & -> & Hj & Hlt)].
    + destruct (decide (kInvalidColumnId = kInvalidColumnId)); [|done]. rewrite bool_decide_true by done. done.
    + rewrite decide_False by done. rewrite <- Hj. rewrite <- Hj in Hlt. rewrite ColumnDataType_ok by done. cbn [rbind].
      rewrite ResolveDataType_typed; [done|]. by apply column_typed.
Qed.

Lemma initial_context k e : context_ok k e [] (CreateAggregateContext (aggregate_type t e) (aggregate_function e) size).
Proof.
  eexists. split; [reflexivity|]. intros _. split; [apply results_ok_nil|]. unfold inv_at.
  destruct (vg_init _ _ _ _ _ _ _ _ Hvisits _ (fresh_of e)) as [H1 H2]. by destruct (decide _).
Qed.

Lemma initial_contexts rest :
  contexts_ok [] (((λ e, CreateAggregateContext (aggregate_type t e) (aggregate_function e) size) <$> aggregates) ++ rest).
Proof.
  intros k e He. exists (CreateAggregateContext (aggregate_type t e) (aggregate_function e) size). split; [|apply initial_context].
  apply lookup_app_l_Some. by rewrite list_lookup_fmap, He.
Qed.

Lemma validated : Forall (λ e, ValidateAggregate t e = Ok tt) aggregates → ValidateAggregates t aggregates = Ok tt.
Proof. unfold ValidateAggregates. clear Hvalid Hfolds Hfirst. induction 1 as [|e es He _ IH]; [done|]. cbn. rewrite He. exact IH. Qed.

Lemma seq_chunks : seq 0 (ChunkCount t) = seq 0 (length (chunks t)).
Proof. unfold ChunkCount. by rewrite u32_id by apply Ht. Qed.

(** The contexts [Aggregate<>] ends with. *)
Lemma AggregateTable_functions group_by p :
  Forall (λ e, ValidateAggregate t e = Ok tt) aggregates →
  PartitionByGroupByKeys t group_by = Ok p → keys_per_chunk p = KP [] → size = expected_result_size p →
  grouped = negb (bool_decide (group_by = [])) → cache = bool_decide (1 < length aggregates)%nat || use_immediate_key_shortcut p →
  has_functions = true →
  ∃ ctxs, AggregateTable t aggregates group_by = Ok ctxs ∧ contexts_ok (row_ids t) ctxs.
Proof.
  intros Hval Hp HKP Hsize Hg Hcache Hhas. unfold AggregateTable. rewrite validated, Hp by done. cbn [rbind].
  rewrite has_aggregate_functions_ok. cbn [rbind]. rewrite <- Hsize, create_contexts_ok. cbn [rbind]. rewrite <- Hg, HKP, Hhas, seq_chunks, app_nil_r.
  destruct (aggregate_chunks_ok (chunks t) 0 [] ((λ e, CreateAggregateContext (aggregate_type t e) (aggregate_function e) size) <$> aggregates)) with (shortcut := use_immediate_key_shortcut p)
    as (ctxs & Hrun & Hok); [done|done| | |by rewrite length_fmap|].
  - intros Hnil. unfold has_functions in Hhas. by rewrite Hnil in Hhas.
  - rewrite <- (app_nil_r (_ <$> _)). apply initial_contexts.
  - rewrite Hrun. by exists ctxs.
Qed.

Lemma AggregateTable_distinct group_by p :
  Forall (λ e, ValidateAggregate t e = Ok tt) aggregates →
  PartitionByGroupByKeys t group_by = Ok p → keys_per_chunk p = KP [] → size = expected_result_size p →
  grouped = negb (bool_decide (group_by = [])) → cache = use_immediate_key_shortcut p →
  has_functions = false → (∀ e, aggregates !! 0%nat = Some e → aggregate_type t e ≠ kString) →
  ∃ ctxs ctx, AggregateTable t aggregates group_by = Ok ctxs ∧ ctxs !! 0%nat = Some ctx ∧
    results_ok (default_accumulator (context_type ctx) (context_function ctx)) keep_row index (grouped = true) (row_ids t) (results (context_results ctx)).
Proof using Ht Hvisits Hvalid.
  clear Hfolds Hfirst.
  intros Hval Hp HKP Hsize Hg Hcache Hhas Hty. unfold AggregateTable. rewrite validated, Hp by done. cbn [rbind].
  rewrite has_aggregate_functions_ok. cbn [rbind]. rewrite <- Hsize, create_contexts_ok. cbn [rbind]. rewrite <- Hg, HKP, Hhas, seq_chunks.
  set (ctxs0 := _ ++ _).
  assert (∃ dt f, ctxs0 !! 0%nat =
    Some (CreateAggregateContext dt f size) ∧ dt ≠ kString) as (dt & f & H0 & Hdt).
  { unfold ctxs0. destruct aggregates as [|e es]; [by eexists kInt, kMin|]. eexists _, _. split; [done|]. by apply Hty. }
  destruct (distinct_chunks_ok (use_immediate_key_shortcut p) (chunks t) 0 [] ctxs0 (CreateAggregateContext dt f size) Hcache) as (ctxs & ctx & Hrun & ? & ?); try done.
  - cbn. apply results_ok_nil.
  - cbn. by destruct (vg_init _ _ _ _ _ _ _ _ Hvisits _ (default_accumulator dt f)) as [H1 _].
  - rewrite Hrun. by exists ctxs, ctx.
Qed.
End Loop.
