(* ===== verification/AggregateCorrect.v ===== *)
(** * Correctness of the hash aggregate

    [AggregateHashOperator] on well-formed tables: with GROUP BY columns, and for DISTINCT,
    one row per group; without GROUP BY columns exactly one row. *)

From Stdlib Require Import SpecFloat.
From S2P Require Export AggregateLoop.

(** ** The output of the hash aggregate

    How [WriteGroupByOutput] and [WriteAggregateOutput] turn the contexts into a table, and
    the two main results: with GROUP BY columns there is one row per group, without them
    there is exactly one row. *)

(** ** Lists *)
Lemma filter_ext_in {X} (P Q : X → Prop) `{∀ x, Decision (P x), ∀ x, Decision (Q x)} (l : list X) :
  (∀ x, x ∈ l → P x ↔ Q x) → filter P l = filter Q l.
Proof.
  induction l as [|x l IH]; intros Hext; [done|]. rewrite !filter_cons, IH by (intros; apply Hext; by right).
  pose proof (Hext x ltac:(by left)) as Hx. destruct (decide (P x)), (decide (Q x)); tauto.
Qed.

Lemma filter_seq_bound (P : nat → Prop) `{∀ i, Decision (P i)} n m :
  (∀ i, P i → (i < n)%nat) → (n ≤ m)%nat → filter P (seq 0 m) = filter P (seq 0 n).
Proof.
  intros HP Hle. replace m with (n + (m - n))%nat by lia. rewrite seq_app, filter_app. cbn.
  assert (∀ k s, (n ≤ s)%nat → filter P (seq s k) = []) as Hnil.
  { induction k as [|k IH]; intros s Hs; [done|]. cbn [seq]. rewrite filter_cons, IH by lia. rewrite decide_False; [done|].
    intros ?%HP. lia. }
  rewrite (Hnil (m - n)%nat n) by lia. by rewrite app_nil_r.
Qed.

Lemma filter_fmap {X Y} (P : Y → Prop) `{∀ y, Decision (P y)} (f : X → Y) (l : list X) :
  filter P (f <$> l) = f <$> filter (λ x, P (f x)) l.
Proof. induction l as [|x l IH]; [done|]. rewrite fmap_cons, !filter_cons, IH. by destruct (decide _). Qed.

(** ** Results that belong to a group *)
Section Groups.
Context (t : Table) (index : RowId → nat).

Definition index_bound : nat := foldr (λ r n, Nat.max (S (index r)) n) 0%nat (row_ids t).
Definition group_indices : list nat := filter (λ i, rows_at index i (row_ids t) ≠ []) (seq 0 index_bound).

Lemma index_bound_lt r : r ∈ row_ids t → (index r < index_bound)%nat.
Proof.
  unfold index_bound. induction (row_ids t) as [|s l IH]; [by intros ?%elem_of_nil|].
  intros [->|Hr]%elem_of_cons; cbn; [lia|]. specialize (IH Hr). lia.
Qed.

Lemma rows_at_bound i : rows_at index i (row_ids t) ≠ [] → (i < index_bound)%nat.
Proof.
  intros Hne. destruct (rows_at index i (row_ids t)) as [|r l] eqn:E; [done|].
  assert (r ∈ rows_at index i (row_ids t)) as [<- Hr]%list_elem_of_filter by (rewrite E; by left). by apply index_bound_lt.
Qed.

Section Table.
Context {A : Set} (fresh : A) (update : RowId → A * nat → result (A * nat)) (rs : list (AggregateResult A)).
Hypothesis Hok : results_ok fresh update index (true = true) (row_ids t) rs.

Abbreviation get := (get_result fresh rs).

Lemma results_by_index : rs = get <$> seq 0 (length rs).
Proof.
  apply list_eq. intros i. rewrite list_lookup_fmap. destruct (rs !! i) as [x|] eqn:E.
  - rewrite lookup_seq_lt by (by eapply lookup_lt_Some). cbn. unfold get_result. by rewrite E.
  - apply lookup_ge_None in E. by rewrite lookup_seq_ge.
Qed.

Lemma get_row_id i : result_row_id (get i) ≠ None ↔ rows_at index i (row_ids t) ≠ [].
Proof.
  destruct Hok as [_ _ Hs Hn]. split.
  - intros H. destruct (result_row_id (get i)) as [r|] eqn:E; [|done]. apply Hs in E; [|done]. intros E'. rewrite E' in E. by apply elem_of_nil in E.
  - intros H E. by apply Hn in E.
Qed.

Lemma written_results : filter (λ x, is_Some (result_row_id x)) rs = get <$> group_indices.
Proof.
  rewrite results_by_index at 1. rewrite filter_fmap. f_equal.
  rewrite (filter_ext_in _ (λ i, rows_at index i (row_ids t) ≠ [])).
  - unfold group_indices. apply filter_seq_bound; [apply rows_at_bound|]. unfold index_bound.
    destruct Hok as [_ Hi _ _]. clear -Hi. revert Hi. generalize (row_ids t). intros l Hi.
    induction l as [|r l IH]; cbn; [lia|]. assert (index r < length rs)%nat by (apply Hi; by left).
    assert (foldr (λ r n, S (index r) `max` n)%nat 0%nat l ≤ length rs)%nat by (apply IH; intros; apply Hi; by right). lia.
  - intros i _. rewrite <- get_row_id. by rewrite not_eq_None_Some.
Qed.

(** The rows whose GROUP BY values are written. *)
Definition representative (i : nat) : RowId := from_option id (mkRowId 0 0) (result_row_id (get i)).

Lemma position_list_ok : position_list rs = representative <$> group_indices.
Proof.
  assert (position_list rs = (from_option id (mkRowId 0 0) ∘ result_row_id) <$> filter (λ x, is_Some (result_row_id x)) rs) as ->.
  { unfold position_list. clear. induction rs as [|x l IH]; [done|]. rewrite filter_cons. cbn [omap list_omap]. destruct (result_row_id x) as [r|] eqn:E.
    - rewrite decide_True by done. rewrite fmap_cons, <- IH. unfold compose. by rewrite E.
    - rewrite decide_False by (by intros [? ?]). done. }
  rewrite written_results, <- list_fmap_compose. done.
Qed.

Lemma representative_in i : i ∈ group_indices → representative i ∈ rows_at index i (row_ids t).
Proof.
  intros [Hne _]%list_elem_of_filter. apply get_row_id in Hne. unfold representative. destruct (result_row_id (get i)) as [r|] eqn:E; [|done].
  destruct Hok as [_ _ Hs _]. by apply Hs in E.
Qed.
End Table.
End Groups.

(** ** Values of groups *)
Section Values.
Context (t : Table) (group_by : list nat).

Definition group (r : RowId) : list RowId := filter (same_group t group_by r) (row_ids t).

(** The fold of a group's rows, finished the way the function is written out. *)
Definition group_value (e : expr) (G : list RowId) : result (option (ctype (AggregateType (aggregate_type t e) (aggregate_function e)))) :=
  ac ← fold_rows (default_accumulator (aggregate_type t e) (aggregate_function e))
         (aggregate_update t e (aggregate_type t e) (aggregate_function e)) G;
  WriteAggregateValue t e (aggregate_type t e) (aggregate_function e) ac.1 ac.2.

Definition optional_variant {dt} (o : option (ctype dt)) : AllTypeVariant := match o with Some v => to_variant dt v | None => VNull end.

Definition group_cell (e : expr) (G : list RowId) : AllTypeVariant :=
  match group_value e G with Ok o => optional_variant o | Err _ => VNull end.

(** The cell of an aggregate in the row of the group of [r]; ANY shows the cell of [r]. *)
Definition aggregate_output (e : expr) (r : RowId) : AllTypeVariant :=
  if decide (aggregate_function e = kAny) then cell t (aggregate_column e) r else group_cell e (group r).

Context (index : RowId → nat).
Hypothesis Hindex : ∀ r s, r ∈ row_ids t → s ∈ row_ids t → index r = index s ↔ same_group t group_by r s.

Lemma rows_at_group i r : r ∈ rows_at index i (row_ids t) → rows_at index i (row_ids t) = group r.
Proof.
  intros [Hi Hr]%list_elem_of_filter. apply filter_ext_in. intros s Hs. rewrite <- (Hindex r s Hr Hs). split; congruence.
Qed.

Lemma group_folds e : (∀ r, r ∈ row_ids t → is_ok (group_value e (group r)) = true) → folds_ok t index e.
Proof.
  intros H _ i. destruct (rows_at index i (row_ids t)) as [|r l] eqn:E; [by eexists|]. rewrite <- E.
  assert (r ∈ rows_at index i (row_ids t)) as Hr by (rewrite E; by left). rewrite (rows_at_group i r Hr).
  apply list_elem_of_filter in Hr as [_ Hr]. specialize (H r Hr). unfold group_value in H.
  destruct (fold_rows _ _ (group r)) as [ac|]; [by exists ac|done].
Qed.

(** The cells of one aggregate over the groups in index order. *)
Lemma WriteAggregateValues_ok e rt rep :
  results_ok (default_accumulator (aggregate_type t e) (aggregate_function e))
    (aggregate_update t e (aggregate_type t e) (aggregate_function e)) index (true = true) (row_ids t) (results rt) →
  (∀ r, r ∈ row_ids t → is_ok (group_value e (group r)) = true) →
  (∀ i, i ∈ group_indices t index → rep i ∈ rows_at index i (row_ids t)) →
  ∃ value, WriteAggregateValues t e (mkContext (aggregate_type t e) (aggregate_function e) rt) = Ok (value <$> group_indices t index) ∧
    ∀ i, i ∈ group_indices t index → group_value e (group (rep i)) = Ok (value i).
Proof.
  intros Hok Hval Hrep.
  exists (λ i, match group_value e (group (rep i)) with Ok v => v | Err _ => None end).
  assert (∀ i, i ∈ group_indices t index →
    group_value e (group (rep i)) = Ok (match group_value e (group (rep i)) with Ok v => v | Err _ => None end)) as Hgv.
  { intros i Hi. specialize (Hrep i Hi). apply list_elem_of_filter in Hrep as [_ Hr]. specialize (Hval _ Hr).
    by destruct (group_value e (group (rep i))). }
  split; [|exact Hgv]. unfold WriteAggregateValues. cbn [context_type context_function context_results].
  rewrite (written_results t index _ _ _ Hok). apply mapR_ok_Forall2. rewrite Forall2_fmap_l, Forall2_fmap_r. apply Forall_Forall2_diag, Forall_forall.
  intros i Hi. etrans; [|exact (Hgv i Hi)]. unfold group_value. rewrite <- (rows_at_group i (rep i) (Hrep i Hi)).
  destruct Hok as [Hf _ _ _]. rewrite (Hf i). done.
Qed.
End Values.

(** ** Columns of cells *)
Lemma cells_represent {X} (ids : list X) dt (f : X → option (ctype dt)) (nullable : bool) :
  (nullable = false → ∀ x, x ∈ ids → is_Some (f x)) →
  represents ids (mkValueSegment dt (from_option id (default dt) <$> (f <$> ids)) (if nullable then Some (is_null <$> (f <$> ids)) else None))
    (λ x, optional_variant (f x)).
Proof.
  intros Hsome. split; [cbn; by rewrite !length_fmap|]. intros i x Hx. unfold seg_index, seg_IsNull, IsNullable, seg_null_at, vec_get, vec_at.
  destruct nullable; cbn [seg_null_values seg_values seg_type].
  - rewrite bool_decide_true by done. cbn [of_option rbind]. rewrite !list_lookup_fmap, Hx. cbn. by destruct (f x).
  - rewrite bool_decide_false by (by intros [? ?]). cbn [rbind]. rewrite !list_lookup_fmap, Hx. cbn.
    destruct (Hsome eq_refl x) as [v ->]; [by eapply list_elem_of_lookup_2|]. done.
Qed.

Lemma typed_cell_ok t j r :
  wf_table t → (j < GetColumnCount t)%nat → r ∈ row_ids t →
  ∃ o, typed_cell t j (column_type t j) r = Ok o ∧ cell t j r = optional_variant o.
Proof.
  intros Ht Hj Hr. destruct (value_at_cell t j r Ht Hj Hr) as (Hval & _ & _). pose proof Hr as (c & Hc & Ho)%row_ids_elem.
  destruct (table_segment t Ht _ c j Hc Hj) as (s & Hs & Hw & Hl & _ & Hty & _).
  unfold typed_cell, value_at in *. rewrite (GetChunk_ok _ _ _ Hc) in *. cbn [rbind] in *.
  unfold chunk_GetSegment, vec_at in *. rewrite Hs in *. cbn [of_option rbind] in *.
  destruct (decide (seg_type s = column_type t j)) as [E|]; [|done]. unfold seg_index in Hval. unfold seg_GetTypedValue.
  destruct (seg_IsNull s (chunk_offset r)) as [b|]; [|done]. cbn [rbind] in *. destruct b.
  - exists (eq_rect _ (λ t, option (ctype t)) None _ E). split; [done|]. injection Hval as <-. by destruct E.
  - unfold vec_get, vec_at in *. destruct (lookup_lt_is_Some_2 (seg_values s) (chunk_offset r)) as [v Hv]; [by rewrite Hl|].
    rewrite Hv in *. cbn [of_option rbind] in *. exists (eq_rect _ (λ t, option (ctype t)) (Some v) _ E). split; [done|].
    injection Hval as <-. by destruct E.
Qed.

(** ** Filling the output columns *)
Section Fill.
Context {X : Type} (ids : list X) (fns : list (X → AllTypeVariant)).

Record output_ok (o : Output) : Prop := {
  oo_segments : length (output_segments o) = length fns;
  oo_definitions : length (output_column_definitions o) = length fns }.

Definition filled (o : Output) (k : nat) : Prop :=
  ∃ s g, output_segments o !! k = Some (Some s) ∧ fns !! k = Some g ∧ represents ids s g.

Lemma write_filled o p d s g :
  output_ok o → fns !! p = Some g → represents ids s g →
  let o' := write_column o p d s in output_ok o' ∧ filled o' p ∧ ∀ k, filled o k → filled o' k.
Proof.
  intros [Hs Hd] Hg Hr o'. assert (p < length (output_segments o))%nat as Hp by (rewrite Hs; by eapply lookup_lt_Some).
  assert (filled o' p) as Hfp by (exists s, g; cbn; by rewrite list_lookup_insert_eq).
  split; [split; cbn; by rewrite length_insert|]. split; [done|]. intros k (s' & g' & Hk & ? & ?).
  destruct (decide (k = p)) as [->|Hne]; [done|]. exists s', g'. cbn. by rewrite list_lookup_insert_ne.
Qed.

Definition finish (o : Output) : result Table :=
  let output_table := make_table (output_column_definitions o) in
  first ← vec_at (output_segments o) 0;
  first ← of_option first UndefinedBehaviour;
  if (0 <? seg_size first)%nat then
    segments ← mapR (λ s, of_option s UndefinedBehaviour) (output_segments o); AppendChunk output_table segments
  else Ok output_table.

Lemma finish_ok o :
  output_ok o → fns ≠ [] → (∀ k, (k < length fns)%nat → filled o k) → (N.of_nat (length ids) < 2 ^ 32)%N →
  ∃ out, finish o = Ok out ∧ table_rows out = Ok ((λ x, (λ g, g x) <$> fns) <$> ids) ∧ column_definitions out = output_column_definitions o.
Proof.
  intros [Hs Hd] Hne Hfilled Hsmall. unfold finish.
  destruct (Hfilled 0%nat) as (s & g & Hfirst & Hg & Hr); [destruct fns; [done|cbn; lia]|].
  unfold vec_at. rewrite Hfirst. cbn [of_option rbind].
  assert (∃ c, mapR (λ s, of_option s UndefinedBehaviour) (output_segments o) = Ok c ∧ Forall2 (represents ids) c fns) as (c & Hc & HF).
  { clear Hd Hfirst Hg Hr s g Hne. revert Hs Hfilled. unfold filled. generalize (output_segments o). intros l. revert l.
    induction fns as [|g fns' IH]; intros [|s l] Hs Hfilled; try done; [by exists []|].
    destruct (Hfilled 0%nat) as (s0 & g0 & Hl & Hg & Hr); [cbn; lia|]. cbn in Hl, Hg. injection Hl as ->. injection Hg as <-.
    destruct (IH l) as (c & Hc & HF); [by injection Hs|intros k Hk; apply (Hfilled (S k)); cbn; lia|].
    exists (s0 :: c). cbn. rewrite Hc. split; [done|by constructor]. }
  assert (seg_size s = length ids) as Hsize by (unfold seg_size; rewrite (proj1 Hr); by apply u32_id).
  rewrite Hsize. destruct (Nat.ltb_spec 0 (length ids)) as [Hpos|Hzero].
  - rewrite Hc. cbn [rbind]. unfold AppendChunk, GetColumnCount. cbn [make_table column_definitions].
    rewrite bool_decide_true by (rewrite Hd, (Forall2_length _ _ _ HF); done). cbn [assert_ rbind]. eexists. split; [done|].
    split; [|done]. unfold table_rows, chunks_rows. cbn [chunks make_table app mapR]. rewrite (represents_chunk ids c fns HF Hne Hsmall). cbn. by rewrite app_nil_r.
  - destruct ids; [|cbn in Hzero; lia]. eexists. split; [done|]. done.
Qed.
End Fill.

Lemma represents_ext {X} (ids : list X) s g g' : (∀ x, x ∈ ids → g x = g' x) → represents ids s g → represents ids s g'.
Proof. intros Hg [Hl Hs]. split; [done|]. intros i x Hx. rewrite <- Hg by (by eapply list_elem_of_lookup_2). by apply Hs. Qed.

(** The table does not hold NULLs in a column declared without them. *)
Record declared (t : Table) (j : nat) : Prop := {
  declared_column : (j < GetColumnCount t)%nat;
  declared_nulls : ColumnIsNullable t j = Ok false → ∀ r, r ∈ row_ids t → cell t j r ≠ VNull }.

Section Unaggregated.
Context (t : Table) {X : Type} (ids : list X) (rep : X → RowId) (fns : list (X → AllTypeVariant)).
Hypothesis Ht : wf_table t.
Hypothesis Hrep : ∀ x, x ∈ ids → rep x ∈ row_ids t.

(** Output column [p] shows the input column [c]. *)
Definition shows (c p : nat) : Prop := ∃ g, fns !! p = Some g ∧ ∀ x, g x = cell t c (rep x).

Lemma write_unaggregated_ok o c p :
  output_ok fns o → declared t c → shows c p →
  ∃ o', write_unaggregated t (rep <$> ids) o (c, p) = Ok o' ∧ output_ok fns o' ∧ filled ids fns o' p ∧ ∀ k, filled ids fns o k → filled ids fns o' k.
Proof.
  intros Ho [Hj Hnull] (g & Hp & Hg). unfold write_unaggregated. pose proof Hj as Hj'. rewrite column_count in Hj' by done.
  destruct (lookup_lt_is_Some_2 _ _ Hj') as [d Hd].
  unfold ColumnName, ColumnIsNullable, vec_get in *. rewrite ColumnDataType_ok by done. rewrite Hd in *. cbn [of_option rbind] in *.
  rewrite ResolveDataType_typed by (by apply column_typed).
  set (f := λ x, match typed_cell t c (column_type t c) (rep x) with Ok o => o | Err _ => None end).
  assert (∀ x, x ∈ ids → typed_cell t c (column_type t c) (rep x) = Ok (f x) ∧ cell t c (rep x) = optional_variant (f x)) as Hf.
  { intros x Hx. destruct (typed_cell_ok t c (rep x) Ht Hj (Hrep x Hx)) as (v & Hv & Hc). unfold f. rewrite Hv. done. }
  assert (mapR (typed_cell t c (column_type t c)) (rep <$> ids) = Ok (f <$> ids)) as ->.
  { apply mapR_ok_Forall2. rewrite Forall2_fmap_l, Forall2_fmap_r. apply Forall_Forall2_diag, Forall_forall. intros x Hx. by apply Hf. }
  cbn [rbind]. eexists. split; [done|]. apply (write_filled ids fns o p _ _ _ Ho Hp).
  apply represents_ext with (λ x, optional_variant (f x)); [intros x Hx; rewrite Hg; symmetry; by apply Hf|].
  apply cells_represent. intros Hn x Hx. destruct (Hf x Hx) as [_ Hcell]. rewrite Hn in Hnull.
  destruct (f x) as [v|]; [done|]. by destruct (Hnull eq_refl (rep x) (Hrep x Hx)).
Qed.

Lemma write_columns_ok cols : ∀ o,
  output_ok fns o → (∀ c p, (c, p) ∈ cols → declared t c ∧ shows c p) →
  ∃ o', foldR (write_unaggregated t (rep <$> ids)) o cols = Ok o' ∧ output_ok fns o' ∧
    (∀ c p, (c, p) ∈ cols → filled ids fns o' p) ∧ ∀ k, filled ids fns o k → filled ids fns o' k.
Proof.
  induction cols as [|[c p] cols IH]; intros o Ho Hcols; cbn [foldR].
  { exists o. split; [done|]. split; [done|]. split; [by intros c p ?%elem_of_nil|done]. }
  destruct (Hcols c p) as [Hd Hp]; [by left|]. destruct (write_unaggregated_ok o c p Ho Hd Hp) as (o1 & -> & Ho1 & Hfp & Hk1). cbn [rbind].
  destruct (IH o1 Ho1) as (o' & Hrun & Ho' & Hf & Hk); [intros; apply Hcols; by right|].
  exists o'. split; [done|]. split; [done|]. split; [|auto]. intros c' p' [[= -> ->]|Hin]%elem_of_cons; [by apply Hk|by eapply Hf].
Qed.
End Unaggregated.

(** ** The operator *)

Section Operator.
Context (t : Table) (aggregates : list expr) (group_by : list nat).
Hypothesis Ht : wf_table t.
Hypothesis Hvalidated : Forall (λ e, ValidateAggregate t e = Ok tt) aggregates.

Lemma all_valid : Forall (valid_aggregate t) aggregates.
Proof. eapply Forall_impl; [exact Hvalidated|]. intros e. by apply ValidateAggregate_valid. Qed.

Lemma aggregate_valid k e : aggregates !! k = Some e → valid_aggregate t e.
Proof. pose proof all_valid as H. rewrite Forall_lookup in H. apply H. Qed.

Lemma unaggregated_columns_ok :
  ∃ cols, unaggregated_columns aggregates group_by = Ok cols ∧
    ∀ c p, (c, p) ∈ cols ↔ group_by !! p = Some c ∨
      ∃ k e, aggregates !! k = Some e ∧ aggregate_function e = kAny ∧ c = aggregate_column e ∧ p = (length group_by + k)%nat.
Proof.
  unfold unaggregated_columns.
  set (any := λ ie : nat * expr, if decide (aggregate_function ie.2 = kAny) then [(aggregate_column ie.2, (length group_by + ie.1)%nat)] else []).
  rewrite (mapR_total _ any).
  2: { intros [k e] Hin. rewrite imap_pair_zip in Hin. apply elem_of_zip_r, list_elem_of_lookup in Hin as [i Hi].
    destruct (aggregate_valid i e Hi) as [Hf (c & Hc & _)]. unfold any. cbn [fst snd]. rewrite Hf. cbn [rbind].
    destruct (decide _); [|done]. unfold aggregate_column. by rewrite Hc. }
  cbn [rbind]. eexists. split; [done|]. intros c p. rewrite elem_of_app. f_equiv.
  - rewrite list_elem_of_lookup. split.
    + intros [i Hi]. rewrite list_lookup_imap in Hi. destruct (group_by !! i) eqn:E; [|done]. cbn in Hi. by simplify_eq.
    + intros H. exists p. by rewrite list_lookup_imap, H.
  - rewrite elem_of_concat. split.
    + intros (l & Hl & Hin). apply list_elem_of_fmap in Hin as ([k e] & -> & Hin). rewrite imap_pair_zip in Hin.
      apply list_elem_of_lookup in Hin as [i Hi]. rewrite lookup_zip_with in Hi. destruct (seq 0 _ !! i) eqn:E; [|done]. cbn in Hi.
      destruct (aggregates !! i) eqn:E'; [|done]. cbn in Hi. simplify_eq. apply lookup_seq in E as [-> _].
      unfold any in Hl. cbn in Hl. destruct (decide _); [|by apply elem_of_nil in Hl]. apply list_elem_of_singleton in Hl. simplify_eq. eauto 6.
    + intros (k & e & He & Ha & -> & ->). exists (any (k, e)). split.
      * unfold any. cbn. rewrite decide_True by done. by left.
      * apply list_elem_of_fmap. exists (k, e). split; [done|]. apply list_elem_of_lookup. exists k. by rewrite list_lookup_imap, He.
Qed.

(** ** One aggregate column *)
Definition cells_segment (e : expr) (cells : list (option (ctype (AggregateType (aggregate_type t e) (aggregate_function e))))) : ValueSegment :=
  mkValueSegment (AggregateType (aggregate_type t e) (aggregate_function e)) (from_option id (default _) <$> cells)
    (if kNeedsNull (aggregate_function e) then Some (is_null <$> cells) else None).

Lemma description_ok e : valid_aggregate t e → ∃ s, AggregateDescription e = Ok s.
Proof.
  intros [Hf (c & Hc & _)]. unfold AggregateDescription. rewrite Hf. cbn [rbind].
  assert (∃ s, left_at kAggregateFunctionToString (aggregate_function e) = Ok s) as [s Hs] by (destruct (aggregate_function e); by eexists).
  destruct e; cbn in Hc; try done; match type of Hc with context [match ?a with _ => _ end] => destruct a end; try done;
    repeat case_decide; try (by eexists); rewrite Hs; by eexists.
Qed.

Lemma column_data_type_ok e c :
  valid_aggregate t e → AggregateColumn e = Ok c → c ≠ kInvalidColumnId →
  ColumnDataType t (N.to_nat c) = Ok (aggregate_type t e) ∧ aggregate_type t e ≠ kNull.
Proof.
  intros [_ (c' & Hc & Hcases)] Hc' Hne. assert (c' = c) as -> by congruence. destruct Hcases as [(? & _)|(_ & Hr & Hj & Hlt)]; [done|].
  unfold aggregate_type. rewrite Hr, Hj. split; [by apply ColumnDataType_ok|by apply column_typed].
Qed.

Lemma WriteAggregateOutput_any ctxs o k e :
  aggregates !! k = Some e → aggregate_function e = kAny → WriteAggregateOutput t aggregates group_by ctxs o (k, e) = Ok o.
Proof.
  intros He Ha. pose proof (aggregate_valid k e He) as Hv. pose proof Hv as [Hf (c & Hc & Hcases)]. unfold WriteAggregateOutput. rewrite Hf, Hc. cbn [rbind].
  destruct Hcases as [(_ & _ & Hcount)|(Hne & _)]; [congruence|]. rewrite decide_False by done.
  destruct (column_data_type_ok e c Hv Hc Hne) as [-> Hn]. cbn [rbind]. rewrite ResolveDataType_typed by done. by rewrite decide_True by done.
Qed.

Lemma WriteAggregateOutput_ok ctxs o o1 k e rt cells cells' :
  aggregates !! k = Some e → aggregate_function e ≠ kAny →
  ctxs !! k = Some (mkContext (aggregate_type t e) (aggregate_function e) rt) →
  (if decide (k = 0%nat) then WriteGroupByOutput t aggregates group_by (position_list (results rt)) o else Ok o) = Ok o1 →
  WriteAggregateValues t e (mkContext (aggregate_type t e) (aggregate_function e) rt) = Ok cells →
  cells' = (if decide (group_by = [] ∧ cells = []) then [if kNeedsNull (aggregate_function e) then None else Some (default _)] else cells) →
  ∃ d, WriteAggregateOutput t aggregates group_by ctxs o (k, e) = Ok (write_column o1 (length group_by + k) d (cells_segment e cells')).
Proof.
  intros He Ha Hctx Ho1 Hcells ->. pose proof (aggregate_valid k e He) as Hv. pose proof Hv as [Hf (c & Hc & Hcases)].
  destruct (description_ok e Hv) as [name Hname]. unfold WriteAggregateOutput. rewrite Hf, Hc. cbn [rbind].
  assert (∃ dt, (if decide (c = kInvalidColumnId) then Ok kLong else ColumnDataType t (N.to_nat c)) = Ok dt ∧ dt ≠ kNull) as (dt & -> & Hdt).
  { destruct (decide (c = kInvalidColumnId)) as [|Hne]; [exists kLong; split; [done|discriminate]|]. destruct (column_data_type_ok e c Hv Hc Hne) as [-> ?]. eexists. by split. }
  cbn [rbind]. rewrite ResolveDataType_typed by done. rewrite decide_False by done. rewrite (vec_get_ok _ _ _ Hctx). cbn [rbind].
  cbn [context_results context_type context_function]. rewrite Ho1. cbn [rbind]. cbv zeta. rewrite Hcells. cbn [rbind]. rewrite Hname. cbn [rbind].
  assert (∃ adt, (if decide (AggregateDataType (aggregate_function e) (aggregate_type t e) = kNull) then ColumnDataType t (N.to_nat c)
    else Ok (AggregateDataType (aggregate_function e) (aggregate_type t e))) = Ok adt) as [adt ->].
  { destruct (decide (AggregateDataType _ _ = kNull)) as [Hn|]; [|by eexists]. destruct Hcases as [(_ & _ & Hcount)|(Hne & _)]; [rewrite Hcount in Hn; discriminate Hn|].
    destruct (column_data_type_ok e c Hv Hc Hne) as [-> ?]. by eexists. }
  cbn [rbind]. by eexists.
Qed.

(** ** All aggregate columns *)
Section Outputs.
Context {X : Type} (ids : list X) (fns : list (X → AllTypeVariant)) (ctxs : list AggregateContext).

(** What is needed of the contexts and of the unaggregated columns. *)
Hypothesis Hgroup : ∀ e rt o,
  aggregates !! 0%nat = Some e → ctxs !! 0%nat = Some (mkContext (aggregate_type t e) (aggregate_function e) rt) → output_ok fns o →
  ∃ o1, WriteGroupByOutput t aggregates group_by (position_list (results rt)) o = Ok o1 ∧ output_ok fns o1 ∧
    (∀ p, (p < length group_by)%nat → filled ids fns o1 p) ∧
    (∀ k e, aggregates !! k = Some e → aggregate_function e = kAny → filled ids fns o1 (length group_by + k)).
Hypothesis Hcells : ∀ k e,
  aggregates !! k = Some e → aggregate_function e ≠ kAny →
  ∃ rt cells g, ctxs !! k = Some (mkContext (aggregate_type t e) (aggregate_function e) rt) ∧
    WriteAggregateValues t e (mkContext (aggregate_type t e) (aggregate_function e) rt) = Ok cells ∧
    fns !! (length group_by + k)%nat = Some g ∧
    represents ids (cells_segment e (if decide (group_by = [] ∧ cells = []) then [if kNeedsNull (aggregate_function e) then None else Some (default _)] else cells)) g.
Hypothesis Hfirst : ∀ e, aggregates !! 0%nat = Some e → aggregate_function e ≠ kAny.

Lemma write_outputs es : ∀ k o,
  drop k aggregates = es → (k < length aggregates)%nat ∨ es = [] ∧ k ≠ 0%nat ∧ k = length aggregates →
  output_ok fns o →
  (k ≠ 0%nat → ∀ p, (p < length group_by)%nat → filled ids fns o p) →
  (k ≠ 0%nat → ∀ k' e, aggregates !! k' = Some e → aggregate_function e = kAny ∨ (k' < k)%nat → filled ids fns o (length group_by + k')) →
  ∃ o', foldR (WriteAggregateOutput t aggregates group_by ctxs) o (zip (seq k (length es)) es) = Ok o' ∧ output_ok fns o' ∧
    (∀ p, (p < length group_by + length aggregates)%nat → filled ids fns o' p).
Proof.
  induction es as [|e es IH]; intros k o Hdrop Hk Ho Hg Ha; cbn [length seq zip zip_with foldR].
  - destruct Hk as [Hk|(_ & Hk & Hlen)]; [apply (f_equal length) in Hdrop; rewrite length_drop in Hdrop; cbn in Hdrop; lia|].
    exists o. split; [done|]. split; [done|]. intros p Hp. destruct (decide (p < length group_by)%nat) as [Hlt|Hge]; [by apply Hg|].
    destruct (lookup_lt_is_Some_2 aggregates (p - length group_by)) as [e He]; [lia|].
    replace p with (length group_by + (p - length group_by))%nat by lia. eapply Ha; [done|done|]. right. apply lookup_lt_Some in He. lia.
  - assert (aggregates !! k = Some e) as He by (rewrite <- (Nat.add_0_r k), <- lookup_drop, Hdrop; done).
    assert (drop (S k) aggregates = es) as Hdrop' by (rewrite <- Nat.add_1_r, <- drop_drop, Hdrop; done).
    assert ((S k < length aggregates)%nat ∨ es = [] ∧ S k ≠ 0%nat ∧ S k = length aggregates) as Hk'.
    { apply lookup_lt_Some in He. pose proof (f_equal length Hdrop') as Hl. rewrite length_drop in Hl.
      destruct es; cbn in Hl; [right|left; lia]. split; [done|]. lia. }
    assert (∃ o1, WriteAggregateOutput t aggregates group_by ctxs o (k, e) = Ok o1 ∧ output_ok fns o1 ∧
      (∀ p, (p < length group_by)%nat → filled ids fns o1 p) ∧
      (∀ k' e, aggregates !! k' = Some e → aggregate_function e = kAny ∨ (k' < S k)%nat → filled ids fns o1 (length group_by + k'))) as (o1 & -> & Ho1 & Hg1 & Ha1).
    { destruct (decide (aggregate_function e = kAny)) as [Hany|Hany].
      - assert (k ≠ 0%nat) as Hk0 by (intros ->; by apply (Hfirst e)).
        exists o. rewrite (WriteAggregateOutput_any ctxs o k e He Hany). split; [done|]. split; [done|]. split; [auto|].
        intros k' e' He' H. destruct (decide (k' = k)) as [->|Hne]; apply (Ha Hk0 _ _ He'); [left; congruence|]. destruct H; [by left|right; lia].
      - destruct (Hcells k e He Hany) as (rt & cells & g & Hctx & Hcs & Hfn & Hrep).
        assert (∃ o1, (if decide (k = 0%nat) then WriteGroupByOutput t aggregates group_by (position_list (results rt)) o else Ok o) = Ok o1 ∧
          output_ok fns o1 ∧ (∀ p, (p < length group_by)%nat → filled ids fns o1 p) ∧
          (∀ k' e, aggregates !! k' = Some e → aggregate_function e = kAny ∨ (k' < k)%nat → filled ids fns o1 (length group_by + k'))) as (o1 & Hrun & Ho1 & Hg1 & Ha1).
        { destruct (decide (k = 0%nat)) as [->|Hk0]; [|exists o; split; [done|]; split; [done|]; split; [by apply Hg|by apply Ha]].
          destruct (Hgroup e rt o He Hctx Ho) as (o1 & ? & ? & ? & Hany1). exists o1. do 3 (split; [done|]).
          intros k' e' He' [Hk1|Hk1]; [by eapply Hany1|lia]. }
        destruct (WriteAggregateOutput_ok ctxs o o1 k e rt cells _ He Hany Hctx Hrun Hcs eq_refl) as [d ->].
        destruct (write_filled ids fns o1 _ d _ g Ho1 Hfn Hrep) as (Ho2 & Hf2 & Hkeep). eexists. split; [done|]. split; [done|].
        split; [auto|]. intros k' e' He' H. destruct (decide (k' = k)) as [->|Hne]; [done|]. apply Hkeep. apply (Ha1 _ _ He'). destruct H; [by left|right; lia]. }
    cbn [rbind]. by apply (IH (S k) o1).
Qed.
End Outputs.
End Operator.

Lemma not_null_value t e dt f a n o : kNeedsNull f = false → WriteAggregateValue t e dt f a n = Ok o → is_Some o.
Proof. destruct f; try discriminate; intros _; cbn; intros [= <-]; by eexists. Qed.

(** ** With GROUP BY columns *)
Lemma partitioned_visits t group_by p :
  partitioned t group_by p → (N.of_nat (length (row_ids t)) < 2 ^ 62)%N →
  ∃ index, (∀ r s, r ∈ row_ids t → s ∈ row_ids t → index r = index s ↔ same_group t group_by r s) ∧
    ∀ cache, (use_immediate_key_shortcut p = true → cache = true) →
      ∃ KP first_inv next_inv, keys_per_chunk p = KP [] ∧ visits_groups t index (expected_result_size p) true cache KP first_inv next_inv.
Proof.
  intros [K n Hsame Huncached Hn|index n Hsame Hlt] Hrows.
  - exists (index_of K n (row_ids t)). split; [intros r s Hr Hs; rewrite index_of_same by done; by apply Hsame|].
    intros cache _. eexists _, _, _. split; [|apply visits_keys; [done|cbn [expected_result_size]; lia]]. cbn [keys_per_chunk]. apply keys_of_ext.
    intros r _. unfold key_after. rewrite decide_False; [done|]. by intros ?%elem_of_nil.
  - exists index. split; [done|]. intros cache Hc. rewrite (Hc eq_refl). eexists (λ _, _), _, _. split; [|by apply visits_indices]. done.
Qed.

(** What the operator is given: a table whose GROUP BY cells it can compare, aggregates that
    its constructor and validation accept and whose folds do not fail. *)
Record aggregation (t : Table) (aggregates : list expr) (group_by : list nat) : Prop := {
  ag_table : wf_table t;
  ag_cache : cache_coherent t;
  ag_rows : (N.of_nat (length (row_ids t)) < 2 ^ 32)%N;
  ag_valid : Forall (λ e, ValidateAggregate t e = Ok tt) aggregates;
  ag_group_by j : j ∈ group_by → declared t j ∧ ∀ r, r ∈ row_ids t → groupable (cell t j r);
  ag_any e : e ∈ aggregates → aggregate_function e = kAny → declared t (aggregate_column e) }.

Lemma aggregate_valid' t aggregates group_by k e :
  aggregation t aggregates group_by → aggregates !! k = Some e → valid_aggregate t e.
Proof. intros [Ht _ _ Hv _ _]. by apply aggregate_valid. Qed.

(** One row of the table for every group. *)
Record one_per_group (t : Table) (group_by : list nat) (L : list RowId) : Prop := {
  og_rows r : r ∈ L → r ∈ row_ids t;
  og_all r : r ∈ row_ids t → ∃ s, s ∈ L ∧ same_group t group_by s r;
  og_once i k r s : L !! i = Some r → L !! k = Some s → same_group t group_by r s → i = k }.

Definition grouped_row (t : Table) (aggregates : list expr) (group_by : list nat) (r : RowId) : Row :=
  ((λ j, cell t j r) <$> group_by) ++ ((λ e, aggregate_output t group_by e r) <$> aggregates).

Section Grouped.
Context (t : Table) (aggregates : list expr) (group_by : list nat).
Hypothesis Hag : aggregation t aggregates group_by.
Hypothesis Hne : group_by ≠ [].
Context (index : RowId → nat).
Hypothesis Hindex : ∀ r s, r ∈ row_ids t → s ∈ row_ids t → index r = index s ↔ same_group t group_by r s.

Abbreviation ids := (group_indices t index).

Section Representatives.
Context (rep : nat → RowId).
Hypothesis Hrep : ∀ i, i ∈ ids → rep i ∈ rows_at index i (row_ids t).

Lemma representatives : one_per_group t group_by (rep <$> ids).
Proof.
  split.
  - intros r (i & -> & Hi)%list_elem_of_fmap. specialize (Hrep i Hi). by apply list_elem_of_filter in Hrep as [_ ?].
  - intros r Hr. assert (r ∈ rows_at index (index r) (row_ids t)) as Hin by (by apply list_elem_of_filter).
    assert (index r ∈ ids) as Hi.
    { apply list_elem_of_filter. split; [intros E; rewrite E in Hin; by apply elem_of_nil in Hin|].
      apply elem_of_seq. split; [lia|]. by apply index_bound_lt. }
    exists (rep (index r)). split; [by apply list_elem_of_fmap_2|]. pose proof (Hrep _ Hi) as [Heq Hrr]%list_elem_of_filter. by apply Hindex.
  - intros i k r s Hi Hk Hsame. rewrite list_lookup_fmap in Hi, Hk.
    destruct (ids !! i) as [a|] eqn:Ea; [|done]. destruct (ids !! k) as [b|] eqn:Eb; [|done]. cbn in Hi, Hk. injection Hi as <-. injection Hk as <-.
    pose proof (Hrep a (list_elem_of_lookup_2 _ _ _ Ea)) as [Ha Har]%list_elem_of_filter.
    pose proof (Hrep b (list_elem_of_lookup_2 _ _ _ Eb)) as [Hb Hbr]%list_elem_of_filter.
    apply Hindex in Hsame; [|done..]. assert (a = b) as -> by congruence.
    eapply (NoDup_lookup ids); [|done..]. apply NoDup_filter, NoDup_seq.
Qed.

Definition columns : list (nat → AllTypeVariant) :=
  ((λ j i, cell t j (rep i)) <$> group_by) ++ ((λ e i, aggregate_output t group_by e (rep i)) <$> aggregates).

Lemma columns_group_by p c : group_by !! p = Some c → columns !! p = Some (λ i, cell t c (rep i)).
Proof. intros Hp. apply lookup_app_l_Some. by rewrite list_lookup_fmap, Hp. Qed.

Lemma columns_aggregate k e : aggregates !! k = Some e → columns !! (length group_by + k)%nat = Some (λ i, aggregate_output t group_by e (rep i)).
Proof.
  intros Hk. unfold columns. rewrite lookup_app_r by (rewrite length_fmap; lia). rewrite length_fmap, list_lookup_fmap.
  replace (length group_by + k - length group_by)%nat with k by lia. by rewrite Hk.
Qed.

Lemma columns_row i : (λ g, g i) <$> columns = grouped_row t aggregates group_by (rep i).
Proof. unfold columns, grouped_row. rewrite fmap_app, <- !list_fmap_compose. done. Qed.

Lemma WriteGroupByOutput_ok o :
  output_ok columns o →
  ∃ o1, WriteGroupByOutput t aggregates group_by (rep <$> ids) o = Ok o1 ∧ output_ok columns o1 ∧
    (∀ p, (p < length group_by)%nat → filled ids columns o1 p) ∧
    (∀ k e, aggregates !! k = Some e → aggregate_function e = kAny → filled ids columns o1 (length group_by + k)).
Proof.
  intros Ho. destruct Hag as [Ht _ _ Hv Hg Ha].
  destruct (unaggregated_columns_ok t aggregates group_by Ht Hv) as (cols & Hcols & Hin).
  unfold WriteGroupByOutput. rewrite Hcols. cbn [rbind].
  destruct (write_columns_ok t ids rep columns Ht) with (cols := cols) (o := o) as (o1 & Hrun & Ho1 & Hf & _); [|done| |].
  - intros i Hi. specialize (Hrep i Hi). by apply list_elem_of_filter in Hrep as [_ ?].
  - intros c p [Hp|(k & e & He & Hany & -> & ->)]%Hin.
    + split; [apply Hg; by eapply list_elem_of_lookup_2|eexists; by split; [apply columns_group_by|]].
    + split; [apply Ha; [by eapply list_elem_of_lookup_2|done]|]. eexists. split; [by apply columns_aggregate|]. intros i.
      cbn. unfold aggregate_output. by rewrite decide_True by done.
  - exists o1. split; [done|]. split; [done|]. split.
    + intros p Hp. destruct (lookup_lt_is_Some_2 _ _ Hp) as [c Hc]. apply (Hf c p), Hin. by left.
    + intros k e He Hany. apply (Hf (aggregate_column e)), Hin. right. by exists k, e.
Qed.
End Representatives.

Definition initial_output (n : nat) : Output :=
  mkOutput (replicate n (mkTableColumnDefinition EmptyString kNull false)) (replicate n None).

Lemma columns_length rep : length (columns rep) = (length group_by + length aggregates)%nat.
Proof. unfold columns. by rewrite length_app, !length_fmap. Qed.

Lemma initial_output_ok rep : output_ok (columns rep) (initial_output (length group_by + length aggregates)).
Proof. split; cbn; by rewrite length_replicate, columns_length. Qed.

Lemma ids_small : (N.of_nat (length ids) < 2 ^ 32)%N.
Proof.
  destruct Hag as [_ _ Hr _ _ _]. enough (length ids ≤ length (row_ids t))%nat by lia.
  (* distinct indices have distinct rows *)
  set (first i := from_option id (mkRowId 0 0) (head (rows_at index i (row_ids t)))).
  assert (∀ i, i ∈ ids → first i ∈ rows_at index i (row_ids t)) as Hf.
  { intros i [Hi _]%list_elem_of_filter. unfold first. destruct (rows_at index i (row_ids t)); [done|by left]. }
  rewrite <- (length_fmap first). apply submseteq_length, NoDup_submseteq.
  - apply NoDup_fmap_2_strong; [|apply NoDup_filter, NoDup_seq]. intros i k Hi%Hf Hk%Hf Heq.
    apply list_elem_of_filter in Hi as [<- _], Hk as [<- _]. by rewrite Heq.
  - intros r (i & -> & Hi)%list_elem_of_fmap. apply Hf in Hi. by apply list_elem_of_filter in Hi as [_ ?].
Qed.

(** Once every column is filled the table is there. *)
Lemma finish_groups rep o :
  output_ok (columns rep) o → (∀ p, (p < length group_by + length aggregates)%nat → filled ids (columns rep) o p) →
  ∃ out, finish o = Ok out ∧ table_rows out = Ok (grouped_row t aggregates group_by <$> (rep <$> ids)).
Proof.
  intros Ho Hf. destruct (finish_ok ids (columns rep) o Ho) as (out & Hout & Hrows & _).
  - intros E. pose proof (columns_length rep) as Hl. rewrite E in Hl. destruct group_by; [done|]. cbn in Hl. lia.
  - intros k Hk. apply Hf. by rewrite <- (columns_length rep).
  - apply ids_small.
  - exists out. split; [done|]. rewrite Hrows, <- list_fmap_compose. f_equal. apply list_fmap_ext. intros k i _. apply columns_row.
Qed.

Lemma operator_finish contexts o :
  AggregateTable t aggregates group_by = Ok contexts →
  (if has_functions aggregates then Ok (initial_output (length group_by + length aggregates)) else
     ctx ← vec_get contexts 0;
     WriteGroupByOutput t aggregates group_by (position_list (results (context_results ctx))) (initial_output (length group_by + length aggregates)))
    = Ok o →
  AggregateHashOperator aggregates group_by t = (o ← foldR (WriteAggregateOutput t aggregates group_by contexts) o (imap pair aggregates); finish o).
Proof.
  intros Hctx Ho. unfold AggregateHashOperator. rewrite (bool_decide_false (group_by = [])) by done. rewrite andb_false_r. cbn [negb assert_ rbind].
  rewrite Hctx. cbn [rbind]. rewrite (has_aggregate_functions_ok t) by (apply all_valid; apply Hag). cbn [rbind].
  fold (initial_output (length group_by + length aggregates)). rewrite Ho. done.
Qed.
End Grouped.

Section GroupedTheorem.
Context (t : Table) (aggregates : list expr) (group_by : list nat).
Hypothesis Hag : aggregation t aggregates group_by.
Hypothesis Hne : group_by ≠ [].
Hypothesis Hvalues : ∀ e r, e ∈ aggregates → r ∈ row_ids t → is_ok (group_value t e (group t group_by r)) = true.

Lemma ag_partitioned : ∃ p, PartitionByGroupByKeys t group_by = Ok p ∧ partitioned t group_by p.
Proof.
  destruct Hag as [Ht Hc Hr _ Hg _]. apply PartitionByGroupByKeys_spec; [done|done|lia|done|].
  apply Forall_forall. intros j Hj. destruct (Hg j Hj) as [[? _] ?]. done.
Qed.

Lemma ag_folds index :
  (∀ r s, r ∈ row_ids t → s ∈ row_ids t → index r = index s ↔ same_group t group_by r s) → Forall (folds_ok t index) aggregates.
Proof. intros Hi. apply Forall_forall. intros e He. apply (group_folds t group_by index Hi). intros r Hr. by apply Hvalues. Qed.

Lemma functions_rows :
  has_functions aggregates = true → (∀ e, aggregates !! 0%nat = Some e → aggregate_function e ≠ kAny) →
  ∃ L out, AggregateHashOperator aggregates group_by t = Ok out ∧ one_per_group t group_by L ∧
    table_rows out = Ok (grouped_row t aggregates group_by <$> L).
Proof.
  intros Hhas Hfirst. destruct ag_partitioned as (p & Hp & Hpart).
  pose proof Hag as [Ht Hc Hr Hv Hg Ha].
  destruct (partitioned_visits t group_by p Hpart) as (index & Hindex & Hvisits); [lia|].
  destruct (Hvisits (bool_decide (1 < length aggregates)%nat || use_immediate_key_shortcut p)) as (KP & fi & ni & HKP & Hvg).
  { intros ->. apply orb_true_r. }
  destruct (AggregateTable_functions t index _ true _ KP fi ni aggregates Ht Hvg (all_valid t aggregates Ht Hv) (ag_folds index Hindex) Hfirst
    group_by p Hv Hp HKP eq_refl) as (ctxs & Hctxs & Hok); [by rewrite bool_decide_false|done|done|].
  assert (∃ e0, aggregates !! 0%nat = Some e0) as [e0 He0].
  { destruct aggregates as [|e0 es]; [done|by exists e0]. }
  destruct (Hok 0%nat e0 He0) as (ctx0 & Hctx0 & (rt0 & -> & Hok0)). destruct (Hok0 (Hfirst e0 He0)) as [Hres0 _].
  set (rep := representative (default_accumulator (aggregate_type t e0) (aggregate_function e0)) (results rt0)).
  assert (∀ i, i ∈ group_indices t index → rep i ∈ rows_at index i (row_ids t)) as Hrep.
  { intros i Hi. eapply representative_in; [exact Hres0|done]. }
  exists (rep <$> group_indices t index).
  destruct (write_outputs t aggregates group_by Ht Hv (group_indices t index) (columns t aggregates group_by rep) ctxs) with
    (es := aggregates) (k := 0%nat) (o := initial_output (length group_by + length aggregates)) as (o & Hrun & Ho & Hfill); [..|done| |by apply initial_output_ok|done|done|].
  - intros e rt o He Hctx Ho. assert (e = e0) as -> by congruence.
    assert (position_list (results rt) = position_list (results rt0)) as ->.
    { rewrite Hctx0 in Hctx. apply (inj Some) in Hctx. exact (eq_sym (f_equal (λ ctx, position_list (results (context_results ctx))) Hctx)). }
    rewrite (position_list_ok t index _ _ _ Hres0). by apply (WriteGroupByOutput_ok t aggregates group_by Hag index rep Hrep).
  - intros k e He Hany. destruct (Hok k e He) as (ctx & Hctx & (rt & -> & Hokk)). destruct (Hokk Hany) as [Hres _].
    destruct (WriteAggregateValues_ok t group_by index Hindex e rt rep Hres) as (value & Hcells & Hval); [|done|].
    { intros r Hr'. apply Hvalues; [by eapply list_elem_of_lookup_2|done]. }
    exists rt, (value <$> group_indices t index), (λ i, aggregate_output t group_by e (rep i)).
    split; [done|]. split; [done|]. split; [by apply columns_aggregate|]. rewrite decide_False by (by intros [? _]).
    apply represents_ext with (λ i, optional_variant (value i)).
    + intros i Hi. unfold aggregate_output, group_cell. rewrite decide_False by done. by rewrite (Hval i Hi).
    + apply cells_represent. intros Hn i Hi. specialize (Hval i Hi). unfold group_value in Hval. apply bind_ok in Hval as (ac & _ & Hval).
      by eapply not_null_value.
  - done.
  - left. by eapply lookup_lt_Some.
  - destruct (finish_groups t aggregates group_by Hag Hne index Hindex rep o Ho Hfill) as (out & Hout & Hrows).
    exists out. split; [|split; [by apply (representatives t group_by index Hindex)|done]].
    rewrite (operator_finish t aggregates group_by Hag Hne ctxs _ Hctxs) by (by rewrite Hhas).
    rewrite imap_pair_zip, Hrun. exact Hout.
Qed.

Lemma no_functions k e : has_functions aggregates = false → aggregates !! k = Some e → aggregate_function e = kAny.
Proof.
  intros Hhas He. destruct (decide (aggregate_function e = kAny)) as [|Hne']; [done|]. exfalso.
  enough (has_functions aggregates = true) by congruence. apply existsb_exists. exists e. split.
  - apply list_elem_of_In. by eapply list_elem_of_lookup_2.
  - by rewrite bool_decide_false.
Qed.

Lemma any_outputs ctxs o es : ∀ k,
  drop k aggregates = es → has_functions aggregates = false →
  foldR (WriteAggregateOutput t aggregates group_by ctxs) o (zip (seq k (length es)) es) = Ok o.
Proof.
  destruct Hag as [Ht _ _ Hv _ _]. induction es as [|e es IH]; intros k Hdrop Hhas; cbn [length seq zip zip_with foldR]; [done|].
  assert (aggregates !! k = Some e) as He by (rewrite <- (Nat.add_0_r k), <- lookup_drop, Hdrop; done).
  rewrite (WriteAggregateOutput_any t aggregates group_by Ht Hv ctxs o k e He).
  - cbn [rbind]. apply IH; [|done]. rewrite <- Nat.add_1_r, <- drop_drop, Hdrop. done.
  - by apply (no_functions k).
Qed.

Lemma distinct_rows :
  has_functions aggregates = false → (∀ e, aggregates !! 0%nat = Some e → aggregate_type t e ≠ kString) →
  ∃ L out, AggregateHashOperator aggregates group_by t = Ok out ∧ one_per_group t group_by L ∧
    table_rows out = Ok (grouped_row t aggregates group_by <$> L).
Proof.
  intros Hhas Hty. destruct ag_partitioned as (p & Hp & Hpart).
  pose proof Hag as [Ht Hc Hr Hv Hg Ha].
  destruct (partitioned_visits t group_by p Hpart) as (index & Hindex & Hvisits); [lia|].
  destruct (Hvisits (use_immediate_key_shortcut p)) as (KP & fi & ni & HKP & Hvg); [done|].
  destruct (AggregateTable_distinct t index _ true _ KP fi ni aggregates Ht Hvg (all_valid t aggregates Ht Hv)
    group_by p Hv Hp HKP eq_refl) as (ctxs & ctx & Hctxs & Hctx & Hres); [by rewrite bool_decide_false|done|done|done|].
  set (rep := representative (default_accumulator (context_type ctx) (context_function ctx)) (results (context_results ctx))).
  assert (∀ i, i ∈ group_indices t index → rep i ∈ rows_at index i (row_ids t)) as Hrep.
  { intros i Hi. eapply representative_in; [exact Hres|done]. }
  exists (rep <$> group_indices t index).
  destruct (WriteGroupByOutput_ok t aggregates group_by Hag index rep Hrep (initial_output (length group_by + length aggregates)))
    as (o & Hrun & Ho & Hgf & Haf); [by apply initial_output_ok|].
  destruct (finish_groups t aggregates group_by Hag Hne index Hindex rep o Ho) as (out & Hout & Hrows).
  - intros q Hq. destruct (decide (q < length group_by)%nat) as [Hlt|Hge]; [by apply Hgf|].
    destruct (lookup_lt_is_Some_2 aggregates (q - length group_by)) as [e He]; [lia|].
    replace q with (length group_by + (q - length group_by))%nat by lia. apply (Haf _ e He).
    by apply (no_functions (q - length group_by)).
  - exists out. split; [|split; [by apply (representatives t group_by index Hindex)|done]].
    rewrite (operator_finish t aggregates group_by Hag Hne ctxs o Hctxs).
    + rewrite imap_pair_zip, any_outputs by done. exact Hout.
    + rewrite Hhas. rewrite (vec_get_ok _ _ _ Hctx). cbn [rbind]. by rewrite (position_list_ok t index _ _ _ Hres).
Qed.
End GroupedTheorem.

(** C21: On a well-formed table whose GROUP BY cells can be compared, the hash aggregate with
    GROUP BY columns returns exactly one row per group of equal GROUP BY values (NULL is equal
    to NULL), made of the GROUP BY values and, for every aggregate, the value of the function
    over exactly the rows of that group, whichever of the three key schemes was chosen; ANY
    shows the cell of a row of the group.  DISTINCT is the case without functions. *)
Theorem AggregateHashOperator_groups t aggregates group_by :
  aggregation t aggregates group_by → group_by ≠ [] →
  (∀ e r, e ∈ aggregates → r ∈ row_ids t → is_ok (group_value t e (group t group_by r)) = true) →
  (∀ e, aggregates !! 0%nat = Some e →
     if has_functions aggregates then aggregate_function e ≠ kAny else aggregate_type t e ≠ kString) →
  ∃ L out, AggregateHashOperator aggregates group_by t = Ok out ∧ one_per_group t group_by L ∧
    table_rows out = Ok (grouped_row t aggregates group_by <$> L).
Proof.
  intros Hag Hne Hvalues Hfirst. destruct (has_functions aggregates) eqn:Hhas; [by apply functions_rows|by apply distinct_rows].
Qed.

(** ** Without GROUP BY columns *)
Lemma value_of_nothing t e dt f o :
  WriteAggregateValue t e dt f (default_accumulator dt f) 0 = Ok o → o = if kNeedsNull f then None else Some (default _).
Proof.
  destruct f; cbn; try (by intros [= <-]).
  - destruct dt; cbn; first [done|by intros [= <-]].
  - destruct dt; cbn; first [done|by intros [= <-]].
  - intros H. apply bind_ok in H as (? & _ & [= <-]). done.
Qed.

Section Ungrouped.
Context (t : Table) (aggregates : list expr).
Hypothesis Ht : wf_table t.
Hypothesis Hv : Forall (λ e, ValidateAggregate t e = Ok tt) aggregates.
Hypothesis Hne : aggregates ≠ [].
Hypothesis Hany : ∀ e, e ∈ aggregates → aggregate_function e ≠ kAny.
Hypothesis Hvalues : ∀ e, e ∈ aggregates → is_ok (group_value t e (row_ids t)) = true.

Abbreviation zero := (λ _ : RowId, 0%nat).

Lemma rows_at_zero i (l : list RowId) : rows_at zero i l = if decide (i = 0%nat) then l else [].
Proof.
  unfold rows_at. induction l as [|r l IH]; [by destruct (decide _)|]. rewrite filter_cons, IH.
  destruct (decide (i = 0%nat)) as [->|Hi]; [done|]. by destruct (decide (0%nat = i)).
Qed.

Lemma single_folds : Forall (folds_ok t zero) aggregates.
Proof.
  apply Forall_forall. intros e He _ i. rewrite rows_at_zero. destruct (decide _); [|by eexists].
  specialize (Hvalues e He). unfold group_value in Hvalues. destruct (fold_rows _ _ (row_ids t)) as [ac|]; [by exists ac|done].
Qed.

Lemma some_function : has_functions aggregates = true.
Proof.
  destruct aggregates as [|e es]; [done|]. unfold has_functions. cbn. rewrite bool_decide_false; [done|]. apply Hany. by left.
Qed.

Lemma single_cells e rt :
  e ∈ aggregates → single_result (results rt) →
  results_ok (default_accumulator (aggregate_type t e) (aggregate_function e))
    (aggregate_update t e (aggregate_type t e) (aggregate_function e)) zero (false = true) (row_ids t) (results rt) →
  ∃ (cells : list (option (ctype (AggregateType (aggregate_type t e) (aggregate_function e))))) o, WriteAggregateValues t e (mkContext (aggregate_type t e) (aggregate_function e) rt) = Ok cells ∧
    group_value t e (row_ids t) = Ok o ∧
    (if decide (([] : list nat) = [] ∧ cells = []) then [if kNeedsNull (aggregate_function e) then None else Some (default _)] else cells) = [o].
Proof.
  intros He [Hl Hrow] [Hf _ _ Hn]. specialize (Hvalues e He). destruct (group_value t e (row_ids t)) as [o|] eqn:Hgv; [|done].
  specialize (Hf 0%nat). specialize (Hn 0%nat). rewrite rows_at_zero in Hf, Hn. cbn [decide] in Hf, Hn.
  rewrite decide_True in Hf, Hn by done. unfold group_value in Hgv. unfold WriteAggregateValues. cbn [context_type context_function context_results].
  destruct (results rt) as [|x [|y rs]]; [..|cbn in Hl; lia].
  - exists [], o. split; [done|]. split; [done|]. rewrite decide_True by done. f_equal. specialize (Hn eq_refl). rewrite Hn in Hgv.
    symmetry. eapply value_of_nothing. exact Hgv.
  - inversion Hrow as [|? ? Hx _]; subst. assert (filter (λ x, is_Some (result_row_id x)) [x] = [x]) as ->.
    { rewrite filter_cons, filter_nil. rewrite decide_True; [done|]. by apply not_eq_None_Some. }
    rewrite Hf in Hgv. cbn in Hgv. cbn [mapR]. rewrite Hgv. cbn [rbind]. exists [o], o. split; [done|]. split; [done|].
    rewrite decide_False; [done|]. by intros [_ ?].
Qed.

Definition single_columns : list (unit → AllTypeVariant) := (λ e _, group_cell t e (row_ids t)) <$> aggregates.

Lemma single_row :
  ∃ out, AggregateHashOperator aggregates [] t = Ok out ∧
    table_rows out = Ok [(λ e, group_cell t e (row_ids t)) <$> aggregates].
Proof.
  pose proof (visits_nothing_grouped t (bool_decide (1 < length aggregates)%nat || false)) as Hvg.
  assert (∀ e, aggregates !! 0%nat = Some e → aggregate_function e ≠ kAny) as Hfirst.
  { intros e He. apply Hany. by eapply list_elem_of_lookup_2. }
  destruct (AggregateTable_functions t _ _ _ _ _ _ _ aggregates Ht Hvg (all_valid t aggregates Ht Hv) single_folds Hfirst
    [] (mkPartitioned [] 0 false) Hv eq_refl eq_refl eq_refl eq_refl eq_refl some_function) as (ctxs & Hctxs & Hok).
  assert (length single_columns = length aggregates) as Hlen by (unfold single_columns; by rewrite length_fmap).
  assert (output_ok single_columns (initial_output (length aggregates))) as Ho0 by (split; cbn; by rewrite length_replicate, Hlen).
  destruct (write_outputs t aggregates [] Ht Hv [tt] single_columns ctxs) with
    (es := aggregates) (k := 0%nat) (o := initial_output (length aggregates)) as (o & Hrun & Ho & Hfill); [..|done| |done|done|done|].
  - intros e rt o _ _ Ho. destruct (unaggregated_columns_ok t aggregates [] Ht Hv) as (cols & Hcols & Hin).
    unfold WriteGroupByOutput. rewrite Hcols. cbn [rbind]. assert (cols = []) as ->.
    { destruct cols as [|[c p] cols]; [done|]. destruct (proj1 (Hin c p)) as [Hp|(k & e' & He' & Ha & _)]; [by left|done|].
      exfalso. apply (Hany e'); [by eapply list_elem_of_lookup_2|done]. }
    exists o. split; [done|]. split; [done|]. split; [cbn; lia|]. intros k e' He' Ha. exfalso.
    apply (Hany e'); [by eapply list_elem_of_lookup_2|done].
  - intros k e He Hna. destruct (Hok k e He) as (ctx & Hctx & (rt & -> & Hokk)). destruct (Hokk Hna) as [Hres Hinv].
    assert (single_result (results rt)) as Hs by (unfold inv_at in Hinv; by destruct (decide (k = 0%nat))).
    destruct (single_cells e rt (list_elem_of_lookup_2 _ _ _ He) Hs Hres) as (cells & v & Hcells & Hgv & Hadj).
    exists rt, cells, (λ _, group_cell t e (row_ids t)). split; [done|]. split; [done|]. split.
    + unfold single_columns. cbn [length Nat.add]. by rewrite list_lookup_fmap, He.
    + refine (eq_rect_r (λ c, represents [tt] (cells_segment t e c) _) _ Hadj). apply (represents_ext _ _ (λ _, optional_variant v)); [intros _ _; unfold group_cell; by rewrite Hgv|].
      apply (cells_represent [tt] _ (λ _, v) (kNeedsNull (aggregate_function e))). intros Hn _ _.
      unfold group_value in Hgv. apply bind_ok in Hgv as (ac & _ & Hgv). by eapply not_null_value.
  - done.
  - left. destruct aggregates; [done|cbn; lia].
  - destruct (finish_ok [tt] single_columns o Ho) as (out & Hout & Hrows & _).
    + intros E. apply Hne. unfold single_columns in E. by apply fmap_nil_inv in E.
    + intros k Hk. apply Hfill. cbn. by rewrite <- Hlen.
    + cbn. lia.
    + exists out. split.
      * unfold AggregateHashOperator. rewrite bool_decide_false by done. cbn [andb negb assert_ rbind]. rewrite Hctxs. cbn [rbind].
        rewrite (has_aggregate_functions_ok t) by (by apply all_valid). cbn [rbind]. rewrite some_function. cbn [rbind length Nat.add].
        fold (initial_output (length aggregates)). rewrite imap_pair_zip, Hrun. exact Hout.
      * rewrite Hrows. unfold single_columns. cbn. do 2 f_equal. by rewrite <- list_fmap_compose.
Qed.
End Ungrouped.

(** Without GROUP BY columns the hash aggregate returns exactly one row, with the value of
    every aggregate function over all rows of the table; over no rows COUNT is 0 and the other
    functions are NULL. *)
Theorem AggregateHashOperator_single_row t aggregates :
  wf_table t → Forall (λ e, ValidateAggregate t e = Ok tt) aggregates → aggregates ≠ [] →
  (∀ e, e ∈ aggregates → aggregate_function e ≠ kAny) →
  (∀ e, e ∈ aggregates → is_ok (group_value t e (row_ids t)) = true) →
  ∃ out, AggregateHashOperator aggregates [] t = Ok out ∧
    table_rows out = Ok [(λ e, group_cell t e (row_ids t)) <$> aggregates] ∧
    (row_ids t = [] → ∀ e, e ∈ aggregates → group_cell t e (row_ids t) =
       if kNeedsNull (aggregate_function e) then VNull else VLong 0).
Proof.
  intros Ht Hv Hne Hany Hvalues. destruct (single_row t aggregates Ht Hv Hne Hany Hvalues) as (out & Hout & Hrows).
  exists out. split; [done|]. split; [done|]. intros Hnil e He. specialize (Hvalues e He). unfold group_cell.
  destruct (group_value t e (row_ids t)) as [o|] eqn:Hgv; [|done]. rewrite Hnil in Hgv. unfold group_value in Hgv. cbn in Hgv.
  apply value_of_nothing in Hgv as ->. by destruct (aggregate_function e).
Qed.
