(* ===== verification/AggregateFunctions.v ===== *)
(** * What the aggregate functions compute

    The folds that the groups of the hash aggregate go through, stated as the usual functions
    of SQL on the values of an integer column; the operator's failure for a leading ANY;
    examples. *)

From Stdlib Require Import SpecFloat.
From S2P Require Export AggregateCorrect.

(** ** Folds over cells *)
Definition process_cell (dt : DataType) (f : AggregateFunction) (ac : Accumulator dt f * nat) (rc : RowId * AllTypeVariant) :
    result (Accumulator dt f * nat) :=
  if VariantIsNull rc.2 then Ok ac
  else v ← variant_get dt rc.2; a ← aggregator dt f v ac.2 ac.1 rc.1; Ok (a, S ac.2).

Definition cells_result (t : Table) (e : expr) (dt : DataType) (f : AggregateFunction) (cs : list (RowId * AllTypeVariant)) : result AllTypeVariant :=
  ac ← foldR (process_cell dt f) (default_accumulator dt f, 0%nat) cs;
  o ← WriteAggregateValue t e dt f ac.1 ac.2; Ok (optional_variant o).

Definition group_result (t : Table) (e : expr) (G : list RowId) : result AllTypeVariant :=
  o ← group_value t e G; Ok (optional_variant o).

Lemma group_result_cells t e G :
  wf_table t → counts_rows e = false → (aggregate_column e < GetColumnCount t)%nat → (∀ r, r ∈ G → r ∈ row_ids t) →
  group_result t e G = cells_result t e (column_type t (aggregate_column e)) (aggregate_function e) ((λ r, (r, cell t (aggregate_column e) r)) <$> G).
Proof.
  intros Ht Hcr Hj HG. unfold group_result, group_value, cells_result.
  assert (∀ dt f ac, foldR (λ ac r, aggregate_update t e dt f r ac) ac G =
    foldR (process_cell dt f) ac ((λ r, (r, cell t (aggregate_column e) r)) <$> G)) as Hfold.
  { intros dt f. unfold aggregate_update. rewrite Hcr. induction G as [|r G IH]; intros ac; [done|]. rewrite fmap_cons. cbn [foldR].
    destruct (value_at_cell t _ r Ht Hj) as (Hval & _); [apply HG; by left|].
    unfold process_value at 1. rewrite Hval. cbn [rbind]. unfold process_cell at 1. cbn [snd fst].
    destruct (VariantIsNull _); cbn [rbind]; [apply IH; intros; apply HG; by right|].
    destruct (variant_get dt _); cbn [rbind]; [|done]. destruct (aggregator _ _ _ _ _ _); cbn [rbind]; [|done]. apply IH. intros; apply HG; by right. }
  unfold fold_rows. rewrite Hfold. assert (aggregate_type t e = column_type t (aggregate_column e)) as -> by (unfold aggregate_type; by rewrite Hcr).
  by destruct (foldR _ _ _).
Qed.

(** ** Integer columns *)
Definition integer_of (v : AllTypeVariant) : option Z := match v with VInt z | VLong z => Some z | _ => None end.
Definition integers_of (cs : list AllTypeVariant) : list Z := omap integer_of cs.

Definition checked_sum (vs : list Z) : result Z := foldR (λ a v, checked_int64 (a + v)) 0 vs.
Definition float_sum (vs : list Z) : spec_float := foldl (λ a v, SFadd 53 1024 a (float_of_Z kDouble v)) double_zero vs.

(** COUNT, COUNT(DISTINCT), SUM, MIN, MAX and AVG of the values that are not NULL. *)
Definition integer_aggregate (dt : DataType) (f : AggregateFunction) (vs : list Z) : result AllTypeVariant :=
  let mk := match dt with kInt => VInt | _ => VLong end in
  match f, vs with
  | kCount, _ => Ok (VLong (Z.of_nat (length vs)))
  | kCountDistinct, _ => Ok (VLong (Z.of_nat (length (remove_dups vs))))
  | _, [] => Ok VNull
  | kSum, _ => s ← checked_sum vs; Ok (VLong s)
  | kMin, v :: vs => Ok (mk (foldl Z.min v vs))
  | kMax, v :: vs => Ok (mk (foldl Z.max v vs))
  | kAvg, _ => Ok (VDouble (SFdiv 53 1024 (float_sum vs) (float_of_Z kDouble (Z.of_nat (length vs)))))
  | _, _ => Err AssertionFailed
  end.

Section Cells.
Context (dt : DataType) (cs : list (RowId * AllTypeVariant)).
Hypothesis Hcs : ∀ rc, rc ∈ cs → rc.2 = VNull ∨ ∃ x, rc.2 = to_variant dt x.
Hypothesis Hdt : dt ≠ kNull.

(** A fold whose function ignores the rows is a fold over the values. *)
Lemma fold_cells f (g : Accumulator dt f * nat → ctype dt → result (Accumulator dt f)) ac :
  (∀ r a n v, aggregator dt f v n a r = g (a, n) v) →
  foldR (process_cell dt f) ac cs =
  foldR (λ ac v, a ← g ac v; Ok (a, S ac.2)) ac (omap (λ rc, match variant_get dt rc.2 with Ok v => Some v | Err _ => None end) cs).
Proof.
  intros Hg. revert ac. induction cs as [|[r v] l IH]; intros ac; [done|].
  assert (∀ rc, rc ∈ l → rc.2 = VNull ∨ ∃ x, rc.2 = to_variant dt x) as Hl by (intros; apply Hcs; by right). specialize (IH Hl).
  cbn [foldR omap list_omap]. unfold process_cell at 1. cbn [fst snd].
  destruct (Hcs (r, v)) as [Hv|[x Hx]]; [by left|cbn in Hv; subst v|cbn in Hx; subst v].
  - assert (variant_get dt VNull = Err BadVariantAccess) as -> by (by destruct dt). apply IH.
  - assert (VariantIsNull (to_variant dt x) = false) as -> by (by destruct dt). rewrite variant_get_to_variant. cbn [rbind foldR].
    destruct ac as [a n]. cbn [fst snd]. rewrite Hg. destruct (g (a, n) x); cbn [rbind]; [apply IH|done].
Qed.
End Cells.

(** ** Folds over integers *)
Definition counted {A : Set} (g : A * nat → Z → result A) (ac : A * nat) (v : Z) : result (A * nat) := a ← g ac v; Ok (a, S ac.2).

Lemma fold_count_values {A : Set} (a : A) n vs : foldR (counted (λ ac _, Ok ac.1)) (a, n) vs = Ok (a, (n + length vs)%nat).
Proof. revert n. induction vs as [|v vs IH]; intros n; cbn; [by rewrite Nat.add_0_r|]. rewrite IH. by rewrite Nat.add_succ_r. Qed.

Lemma fold_min a n vs :
  foldR (counted (λ ac v, Ok (aggregate_min kLong v ac.2 ac.1))) (a, S n) vs = Ok (foldl Z.min a vs, (S n + length vs)%nat).
Proof.
  revert a n. induction vs as [|v vs IH]; intros a n; cbn [foldR foldl length]; [by rewrite Nat.add_0_r|].
  unfold counted at 1. cbn [rbind fst snd].
  assert (aggregate_min kLong v (S n) a = Z.min a v) as ->.
  { unfold aggregate_min. rewrite bool_decide_false by done. cbn. destruct (Z.compare_spec v a); cbn; lia. }
  rewrite IH. by rewrite Nat.add_succ_r.
Qed.

Lemma fold_max a n vs :
  foldR (counted (λ ac v, Ok (aggregate_max kLong v ac.2 ac.1))) (a, S n) vs = Ok (foldl Z.max a vs, (S n + length vs)%nat).
Proof.
  revert a n. induction vs as [|v vs IH]; intros a n; cbn [foldR foldl length]; [by rewrite Nat.add_0_r|].
  unfold counted at 1. cbn [rbind fst snd].
  assert (aggregate_max kLong v (S n) a = Z.max a v) as ->.
  { unfold aggregate_max. rewrite bool_decide_false by done. cbn. destruct (Z.compare_spec v a); cbn; lia. }
  rewrite IH. by rewrite Nat.add_succ_r.
Qed.

Lemma fold_sum a n vs :
  foldR (counted (λ ac v, aggregate_sum kLong kLong v ac.1)) (a, n) vs =
  (s ← foldR (λ a v, checked_int64 (a + v)) a vs; Ok (s, (n + length vs)%nat)).
Proof.
  revert a n. induction vs as [|v vs IH]; intros a n; cbn [foldR length]; [by rewrite Nat.add_0_r|].
  unfold counted at 1, aggregate_sum at 1. cbn [static_cast arith rbind fst snd]. destruct (checked_int64 (a + v)); cbn [rbind]; [|done].
  rewrite IH. by rewrite Nat.add_succ_r.
Qed.

Lemma fold_average a n vs :
  foldR (counted (λ ac v, aggregate_sum kLong kDouble v ac.1)) (a, n) vs =
  Ok (foldl (λ a v, SFadd 53 1024 a (float_of_Z kDouble v)) a vs, (n + length vs)%nat).
Proof.
  revert a n. induction vs as [|v vs IH]; intros a n; cbn [foldR foldl length]; [by rewrite Nat.add_0_r|].
  unfold counted at 1, aggregate_sum at 1. cbn [static_cast arith rbind fst snd]. rewrite IH. by rewrite Nat.add_succ_r.
Qed.

Lemma fold_distinct l n vs :
  NoDup l → ∃ l', foldR (counted (λ ac v, Ok (insert_distinct kLong ac.1 v))) (l, n) vs = Ok (l', (n + length vs)%nat) ∧
    NoDup l' ∧ ∀ x, x ∈ l' ↔ x ∈ l ∨ x ∈ vs.
Proof.
  revert l n. induction vs as [|v vs IH]; intros l n Hl; cbn [foldR length].
  { exists l. rewrite Nat.add_0_r. split; [done|]. split; [done|]. intros x. rewrite elem_of_nil. tauto. }
  unfold counted at 1. cbn [rbind fst snd].
  assert (∀ x y, value_eqb kLong x y = true ↔ x = y) as Heq.
  { intros x y. unfold value_eqb. cbn. destruct (Z.compare_spec x y); cbn; split; try done; lia. }
  assert (existsb (λ x, value_eqb kLong x v) l = true ↔ v ∈ l) as Hex.
  { rewrite List.existsb_exists. split; [intros (x & Hx & ->%Heq); by apply list_elem_of_In|].
    intros Hv. exists v. split; [by apply list_elem_of_In|by apply Heq]. }
  destruct (IH (insert_distinct kLong l v) (S n)) as (l' & Hrun & Hnd & Hin).
  { unfold insert_distinct. destruct (existsb _ l) eqn:E; [done|]. apply NoDup_app. split; [done|]. split; [|apply NoDup_singleton].
    intros x Hx ->%list_elem_of_singleton. apply Hex in Hx. congruence. }
  exists l'. rewrite Hrun. split; [by rewrite Nat.add_succ_r|]. split; [done|]. intros x. rewrite Hin, elem_of_cons.
  unfold insert_distinct. destruct (existsb _ l) eqn:E.
  - split; [tauto|]. intros [?|[->|?]]; [by left|left; by apply Hex|by right].
  - rewrite elem_of_app, list_elem_of_singleton. tauto.
Qed.

Lemma distinct_length (l vs : list Z) : NoDup l → (∀ x, x ∈ l ↔ x ∈ vs) → length l = length (remove_dups vs).
Proof.
  intros Hl Hin. apply Permutation_length. apply NoDup_Permutation; [done|apply NoDup_remove_dups|]. intros x. by rewrite Hin, elem_of_remove_dups.
Qed.

(** ** The meaning of the functions *)
Lemma cells_integers dt cs :
  dt = kInt ∨ dt = kLong → (∀ rc, rc ∈ cs → rc.2 = VNull ∨ ∃ x, rc.2 = to_variant dt x) →
  ∀ f g ac, (∀ r a n v, aggregator dt f v n a r = g (a, n) v) →
  foldR (process_cell dt f) ac cs = foldR (λ ac v, a ← g ac v; Ok (a, S ac.2)) ac
    (omap (λ rc : RowId * AllTypeVariant, match variant_get dt rc.2 with Ok v => Some v | Err _ => None end) cs).
Proof. intros Hdt Hcs f g ac Hg. apply fold_cells; [done| |done]. by destruct Hdt as [->| ->]. Qed.

Lemma omap_cells dt (g : AllTypeVariant → option Z) (f : RowId * AllTypeVariant → option Z) (cs : list (RowId * AllTypeVariant)) :
  (∀ rc, rc ∈ cs → rc.2 = VNull ∨ ∃ x, rc.2 = to_variant dt x) →
  (∀ r, f (r, VNull) = g VNull) → (∀ r x, f (r, to_variant dt x) = g (to_variant dt x)) → omap f cs = omap g cs.*2.
Proof.
  intros Hcs Hnull Hval. induction cs as [|[r v] l IH]; [done|]. cbn [omap list_omap fmap list_fmap snd].
  rewrite IH by (intros; apply Hcs; by right).
  destruct (Hcs (r, v)) as [Hv|[x Hv]]; [by left|..]; cbn in Hv; subst v; by rewrite ?Hnull, ?Hval.
Qed.

(** Replace the fold at the head of the goal by its result, up to conversion of its type. *)
Ltac run_fold H := match goal with |- rbind ?m ?k = _ => etrans; [exact (f_equal (λ x, rbind x k) H)|] end.

Lemma cells_result_integers t e dt f cs :
  dt = kInt ∨ dt = kLong → f ∈ [kCount; kCountDistinct; kSum; kMin; kMax; kAvg] →
  (∀ rc, rc ∈ cs → rc.2 = VNull ∨ ∃ x, rc.2 = to_variant dt x) →
  cells_result t e dt f cs = integer_aggregate dt f (integers_of cs.*2).
Proof.
  intros Hdt Hf Hcs. pose proof (cells_integers dt cs Hdt Hcs) as Hfold.
  unfold cells_result. destruct Hdt as [-> | ->];
    (rewrite (omap_cells _ integer_of _ cs Hcs) in Hfold by done);
    fold (integers_of cs.*2) in Hfold; set (vs := integers_of cs.*2) in *; clearbody vs; clear Hcs;
    rewrite !elem_of_cons in Hf; (destruct Hf as [->|[->|[->|[->|[->|[->|Hf]]]]]]; [..|by apply elem_of_nil in Hf]).
  1, 7: rewrite (Hfold kCount (λ ac _, Ok ac.1)) by done; run_fold (fold_count_values 0 0 vs); done.
  1, 6: rewrite (Hfold kCountDistinct (λ ac v, Ok (insert_distinct kLong ac.1 v))) by done;
    destruct (fold_distinct [] 0 vs (NoDup_nil_2)) as (l & H & Hnd & Hin); run_fold H; cbn;
    rewrite (distinct_length l vs Hnd); [done|]; intros x; rewrite Hin, elem_of_nil; tauto.
  1, 5: rewrite (Hfold kSum (λ ac v, aggregate_sum kLong kLong v ac.1)) by done; run_fold (fold_sum 0 0 vs);
    destruct vs as [|v vs]; [done|]; cbn [integer_aggregate]; unfold checked_sum; by destruct (foldR _ _ _).
  1, 4: rewrite (Hfold kMin (λ ac v, Ok (aggregate_min kLong v ac.2 ac.1))) by done; destruct vs as [|v vs]; [done|];
    run_fold (fold_min v 0 vs); done.
  1, 3: rewrite (Hfold kMax (λ ac v, Ok (aggregate_max kLong v ac.2 ac.1))) by done; destruct vs as [|v vs]; [done|];
    run_fold (fold_max v 0 vs); done.
  all: rewrite (Hfold kAvg (λ ac v, aggregate_sum kLong kDouble v ac.1)) by done; run_fold (fold_average double_zero 0 vs);
    by destruct vs.
Qed.

(** C22: Over the rows of a group, COUNT of rows is their number, and on an integer column COUNT,
    COUNT(DISTINCT), SUM, MIN, MAX and AVG are those functions of the values that are not NULL:
    NULL when there is none except for the counts; a SUM that leaves the 64-bit range, in row
    order, is undefined behaviour. *)
Theorem group_value_integers t e G :
  wf_table t → (∀ r, r ∈ G → r ∈ row_ids t) → valid_aggregate t e →
  (counts_rows e = true → group_result t e G = Ok (VLong (Z.of_nat (length G)))) ∧
  (counts_rows e = false →
   column_type t (aggregate_column e) = kInt ∨ column_type t (aggregate_column e) = kLong →
   aggregate_function e ∈ [kCount; kCountDistinct; kSum; kMin; kMax; kAvg] →
   group_result t e G = integer_aggregate (column_type t (aggregate_column e)) (aggregate_function e)
     (integers_of (cell t (aggregate_column e) <$> G))).
Proof.
  intros Ht HG [_ (c & _ & Hcases)]. split.
  - intros Hcr. destruct Hcases as [(_ & _ & Hf)|(_ & Hcr' & _)]; [|congruence].
    unfold group_result, group_value. unfold aggregate_update, aggregate_type. rewrite Hcr, Hf. unfold fold_rows.
    by rewrite fold_count.
  - intros Hcr Hty Hf. destruct Hcases as [(_ & Hcr' & _)|(_ & _ & Hj & Hlt)]; [congruence|]. rewrite <- Hj in Hlt.
    rewrite group_result_cells by done. rewrite cells_result_integers by
      (done || (intros rc (r & -> & Hr)%list_elem_of_fmap; by destruct (value_at_cell t _ r Ht Hlt (HG r Hr)) as (_ & ? & _))).
    by rewrite <- list_fmap_compose.
Qed.

(** ** A leading ANY *)
Lemma ResolveDataType_ok {A} dt (f : DataType → result A) a : ResolveDataType dt f = Ok a → f dt = Ok a.
Proof. by destruct dt. Qed.

Lemma any_first_unwritten t aggregates group_by ctxs es : ∀ k o o',
  foldR (WriteAggregateOutput t aggregates group_by ctxs) o (zip (seq (S k) (length es)) es) = Ok o' →
  output_segments o !! 0%nat = Some None → output_segments o' !! 0%nat = Some None.
Proof.
  induction es as [|e es IH]; intros k o o' H Ho; cbn [length seq zip zip_with foldR] in H; [by inv_ok|].
  apply bind_ok in H as (o1 & H1 & H). eapply IH; [exact H|]. clear H IH.
  unfold WriteAggregateOutput in H1. apply bind_ok in H1 as (f & _ & H1). apply bind_ok in H1 as (c & _ & H1).
  apply bind_ok in H1 as (dt & _ & H1). apply ResolveDataType_ok in H1. cbv beta in H1. destruct (decide (f = kAny)); [by inv_ok|].
  apply bind_ok in H1 as (ctx & _ & H1). apply bind_ok in H1 as (o2 & Ho2 & H1). rewrite decide_False in Ho2 by lia. injection Ho2 as <-.
  apply bind_ok in H1 as (cells & _ & H1). apply bind_ok in H1 as (name & _ & H1). apply bind_ok in H1 as (adt & _ & H1).
  injection H1 as <-. cbn. by rewrite list_lookup_insert_ne by lia.
Qed.

(** When the first aggregate is ANY and another aggregate is a function, nobody writes the
    first output column: the operator never returns a table. *)
Theorem AggregateHashOperator_any_first t e aggregates group_by out :
  GetAggregateFunction e = Ok kAny → has_aggregate_functions (e :: aggregates) = Ok true →
  AggregateHashOperator (e :: aggregates) group_by t ≠ Ok out.
Proof.
  intros Hany Hhas H. unfold AggregateHashOperator in H. rewrite Hhas in H. cbn [rbind] in H.
  apply bind_ok in H as (? & _ & H). apply bind_ok in H as (ctxs & _ & H). apply bind_ok in H as (o & Ho & H).
  rewrite imap_pair_zip in Ho. cbn [length seq zip zip_with foldR] in Ho. apply bind_ok in Ho as (o1 & Ho1 & Ho).
  assert (o1 = initial_output (length group_by + length (e :: aggregates))) as ->.
  { unfold WriteAggregateOutput in Ho1. rewrite Hany in Ho1. cbn [rbind] in Ho1. apply bind_ok in Ho1 as (c & _ & Ho1).
    apply bind_ok in Ho1 as (dt & _ & Ho1). apply ResolveDataType_ok in Ho1. cbv beta in Ho1. rewrite decide_True in Ho1 by done. by inv_ok. }
  assert (output_segments o !! 0%nat = Some None) as Hnone.
  { eapply (any_first_unwritten t (e :: aggregates) group_by ctxs aggregates 0 _ o); [exact Ho|cbn; by rewrite Nat.add_succ_r]. }
  unfold vec_at in H. rewrite Hnone in H. discriminate H.
Qed.

(** ** Examples *)
Definition column_of (id : ColumnId) (dt : DataType) (name : string) : expr := PqpColumn id dt true name.

Definition sum_v : expr := Aggregate kSum (column_of 2%N kLong "v").
Definition min_v : expr := Aggregate kMin (column_of 2%N kLong "v").
Definition any_s : expr := Aggregate kAny (column_of 1%N kString "s").
Definition count_rows : expr := Aggregate kCount (column_of kInvalidColumnId kLong "*").

(** Deciding [declared], for concrete tables. *)
Definition declaredb (t : Table) (j : nat) : bool :=
  (j <? GetColumnCount t)%nat &&
  (negb (bool_decide (ColumnIsNullable t j = Ok false)) || forallb (λ r, negb (VariantIsNull (cell t j r))) (row_ids t)).

Lemma declaredb_ok t j : declaredb t j = true → declared t j.
Proof.
  unfold declaredb. rewrite andb_true_iff, orb_true_iff. intros [Hj Hn]. split; [by apply Nat.ltb_lt|].
  intros Hnull r Hr. destruct Hn as [Hn|Hn]; [by apply negb_decide in Hn|]. apply forallb_Forall in Hn. rewrite Forall_forall in Hn.
  specialize (Hn r Hr). intros E. by rewrite E in Hn.
Qed.

Lemma forallb_elem {A} (f : A → bool) l x : forallb f l = true → x ∈ l → f x = true.
Proof. intros H Hx. apply forallb_Forall in H. rewrite Forall_forall in H. by apply H. Qed.

Lemma aggregation_example (aggregates : list expr) :
  forallb (λ e, is_ok (ValidateAggregate group_example e)) aggregates = true →
  forallb (λ e, if decide (aggregate_function e = kAny) then declaredb group_example (aggregate_column e) else true) aggregates = true →
  aggregation group_example aggregates [0%nat; 1%nat].
Proof.
  intros Hv Ha. split.
  - apply group_example_wf.
  - intros n E. discriminate E.
  - reflexivity.
  - apply forallb_Forall in Hv. eapply Forall_impl; [exact Hv|]. intros e He. cbn in He. by destruct (ValidateAggregate group_example e) as [[]|].
  - intros j Hj. apply elem_of_cons in Hj as [->|Hj]; [|apply list_elem_of_singleton in Hj as ->];
      (split; [apply declaredb_ok; vm_compute; reflexivity|intros r; apply all_groupable_ok; vm_compute; reflexivity]).
  - intros e He Hany. pose proof (forallb_elem _ _ _ Ha He) as H. cbv beta in H. rewrite decide_True in H by done. by apply declaredb_ok.
Qed.

Lemma AggregateHashOperator_groups_witness :
  ∃ L out, AggregateHashOperator [sum_v; any_s; count_rows] [0%nat; 1%nat] group_example = Ok out ∧ one_per_group group_example [0%nat; 1%nat] L ∧
    table_rows out = Ok (grouped_row group_example [sum_v; any_s; count_rows] [0%nat; 1%nat] <$> L).
Proof.
  apply AggregateHashOperator_groups.
  - apply aggregation_example; vm_compute; reflexivity.
  - discriminate.
  - intros e r He Hr. refine (forallb_elem (λ r, is_ok (group_value group_example e (group group_example [0%nat; 1%nat] r)))
      (row_ids group_example) r _ Hr).
    rewrite !elem_of_cons in He. destruct He as [->|[->|[->|He]]]; [vm_compute; reflexivity..|by apply elem_of_nil in He].
  - intros e [= <-]. vm_compute. discriminate.
Defined.

Lemma AggregateHashOperator_single_row_witness :
  ∃ out, AggregateHashOperator [min_v; count_rows] [] group_example = Ok out ∧
    table_rows out = Ok [(λ e, group_cell group_example e (row_ids group_example)) <$> [min_v; count_rows]].
Proof.
  destruct (AggregateHashOperator_single_row group_example [min_v; count_rows]) as (out & H1 & H2 & _).
  - apply group_example_wf.
  - constructor; [vm_compute; reflexivity|constructor; [vm_compute; reflexivity|constructor]].
  - discriminate.
  - intros e He. rewrite !elem_of_cons in He. destruct He as [->|[->|He]]; [vm_compute; discriminate..|by apply elem_of_nil in He].
  - intros e He. rewrite !elem_of_cons in He. destruct He as [->|[->|He]]; [vm_compute; reflexivity..|by apply elem_of_nil in He].
  - exists out. exact (conj H1 H2).
Defined.

Lemma group_value_integers_witness :
  group_result group_example sum_v (row_ids group_example) = Ok (VLong 64).
Proof.
  etransitivity.
  - apply (group_value_integers group_example sum_v (row_ids group_example) group_example_wf).
    + intros r Hr. exact Hr.
    + apply ValidateAggregate_valid; [apply group_example_wf|vm_compute; reflexivity].
    + reflexivity.
    + right. reflexivity.
    + cbn. apply (bool_decide_unpack _). vm_compute. exact I.
  - vm_compute. reflexivity.
Defined.

Lemma AggregateHashOperator_any_first_witness :
  AggregateHashOperator [any_s; count_rows] [0%nat] group_example ≠ Ok (make_table []).
Proof. apply AggregateHashOperator_any_first; vm_compute; reflexivity. Defined.
