(* ===== verification/Scheduler.v ===== *)
(** * The worker's task scheduler

    [src/lib/scheduler/worker/]: the task state machine ([abstract_task]), the fragment
    scheduler and the executor's thread pool.  The task objects live in a heap addressed by
    task ids; a thread is the stack of atomic actions it still has to perform, one action per
    access to shared state, so that every interleaving of the threads is a sequence of steps.
    The theorems hold for every number of threads and every interleaving. *)

From S2P Require Export Prelude.

Inductive TaskState : Set := kCreated | kScheduled | kEnqueued | kStarted | kDone.

#[export] Instance TaskState_eq_dec : EqDecision TaskState.
Proof. solve_decision. Defined.

(** The enumerators in declaration order, for the comparisons [>=]. *)
Definition progress (s : TaskState) : nat :=
  match s with kCreated => 0 | kScheduled => 1 | kEnqueued => 2 | kStarted => 3 | kDone => 4 end.

Record Task : Type := mkTask {
  state_ : TaskState;
  pending_predecessors : nat;
  predecessors : list nat;
  successors : list nat;
  exception_ptr : option error }.

Definition new_task : Task := mkTask kCreated 0 [] [] None.

(** [TryTransitionTo]: the new state and whether the caller was the one to set it. *)
Definition TryTransitionTo (new_state s : TaskState) : result (TaskState * bool) :=
  match new_state with
  | kScheduled =>
      if (progress kScheduled <=? progress s)%nat then Ok (s, false)
      else _ ← assert_ (bool_decide (s = kCreated)) AssertionFailed; Ok (kScheduled, true)
  | kEnqueued =>
      if (progress kEnqueued <=? progress s)%nat then Ok (s, false)
      else _ ← assert_ (bool_decide (s = kScheduled)) AssertionFailed; Ok (kEnqueued, true)
  | kStarted => _ ← assert_ (bool_decide (s = kEnqueued)) AssertionFailed; Ok (kStarted, true)
  | kDone => _ ← assert_ (bool_decide (s = kStarted)) AssertionFailed; Ok (kDone, true)
  | kCreated => Err AssertionFailed
  end.

Definition IsReady (T : Task) : bool := bool_decide (pending_predecessors T = 0%nat).
Definition IsScheduled (T : Task) : bool := (progress kScheduled <=? progress (state_ T))%nat.
Definition IsDone (T : Task) : bool := bool_decide (state_ T = kDone).

(** ** Task heap, queue and counter *)
Record Core : Type := mkCore {
  tasks : nat → Task;
  queue : list nat;
  num_scheduled_tasks : Z }.

Definition set_task (t : nat) (T : Task) (c : Core) : Core :=
  mkCore (λ u, if decide (u = t) then T else tasks c u) (queue c) (num_scheduled_tasks c).
Definition with_state (s : TaskState) (T : Task) : Task :=
  mkTask s (pending_predecessors T) (predecessors T) (successors T) (exception_ptr T).

Definition SetAsPredecessorOf (p s : nat) (c : Core) : Core :=
  if bool_decide (s ∈ successors (tasks c p)) then c
  else
    let P := tasks c p in
    let c := set_task p (mkTask (state_ P) (pending_predecessors P) (predecessors P) (successors P ++ [s]) (exception_ptr P)) c in
    let S' := tasks c s in
    set_task s (mkTask (state_ S') (if IsDone (tasks c p) then pending_predecessors S' else S (pending_predecessors S'))
                  (predecessors S' ++ [p]) (successors S') (exception_ptr S')) c.

(** ** The atomic actions *)
Inductive action : Set :=
  | ScheduleCall (t : nat)          (* Schedule: TryTransitionToScheduled *)
  | CountScheduled                  (* ++num_scheduled_tasks_ *)
  | CheckReady (t : nat)            (* if (task->IsReady()) Submit, else Schedule the predecessors *)
  | SubmitCall (t : nat)            (* Submit: TryTransitionToEnqueued *)
  | PushJob (t : nat)               (* executor_.Submit *)
  | StartTask (t : nat)             (* Execute: transition to kStarted *)
  | RunTask (t : nat)               (* OnExecute *)
  | FinishTask (t : nat)            (* transition to kDone *)
  | DecrementSuccessor (t : nat)    (* AtomicDecrementPredecessorCount *)
  | CheckScheduled (t : nat)        (* && successor->IsScheduled() *)
  | CountFinished.                  (* --num_scheduled_tasks_ *)

#[export] Instance action_eq_dec : EqDecision action.
Proof. solve_decision. Defined.

Section Execution.
(** What [OnExecute] of a task throws, if anything. *)
Context (OnExecute : nat → option error).

(** [Schedule]: the transition; the caller that wins it counts the task and goes on. *)
Definition Schedule (t : nat) (c : Core) : result (Core * list action) :=
  sb ← TryTransitionTo kScheduled (state_ (tasks c t));
  if (sb.2 : bool) then Ok (set_task t (with_state sb.1 (tasks c t)) c, [CountScheduled; CheckReady t]) else Ok (c, []).

(** [Schedule], once the task is counted: submit it, or schedule its predecessors. *)
Definition Schedule_ready (t : nat) (c : Core) : result (Core * list action) :=
  if IsReady (tasks c t) then Ok (c, [SubmitCall t]) else Ok (c, ScheduleCall <$> predecessors (tasks c t)).

Definition Submit (t : nat) (c : Core) : result (Core * list action) :=
  sb ← TryTransitionTo kEnqueued (state_ (tasks c t));
  if (sb.2 : bool) then Ok (set_task t (with_state sb.1 (tasks c t)) c, [PushJob t]) else Ok (c, []).

(** [Execute] in three steps: started, [OnExecute] with its exception captured, done; then
    [OnTaskFinished] goes through the successors. *)
Definition Execute_start (t : nat) (c : Core) : result (Core * list action) :=
  sb ← TryTransitionTo kStarted (state_ (tasks c t));
  Ok (set_task t (with_state sb.1 (tasks c t)) c, [RunTask t]).

Definition Execute_run (t : nat) (c : Core) : result (Core * list action) :=
  match OnExecute t with
  | None => Ok (c, [FinishTask t])
  | Some AssertionFailed =>
      let T := tasks c t in
      Ok (set_task t (mkTask (state_ T) (pending_predecessors T) (predecessors T) (successors T) (Some AssertionFailed)) c,
          [FinishTask t])
  | Some e => Err e
  end.

Definition Execute_finish (t : nat) (c : Core) : result (Core * list action) :=
  sb ← TryTransitionTo kDone (state_ (tasks c t));
  Ok (set_task t (with_state sb.1 (tasks c t)) c, (DecrementSuccessor <$> successors (tasks c t)) ++ [CountFinished]).

Definition AtomicDecrementPredecessorCount (t : nat) (c : Core) : result (Core * nat) :=
  let T := tasks c t in
  _ ← assert_ (bool_decide (0 < pending_predecessors T)%nat) AssertionFailed;
  let n := (pending_predecessors T - 1)%nat in
  Ok (set_task t (mkTask (state_ T) n (predecessors T) (successors T) (exception_ptr T)) c, n).

Definition OnTaskFinished_successor (t : nat) (c : Core) : result (Core * list action) :=
  '(c', n) ← AtomicDecrementPredecessorCount t c;
  Ok (c', if bool_decide (n = 0%nat) then [CheckScheduled t] else []).

Lemma OnTaskFinished_successor_ok t c c' new :
  OnTaskFinished_successor t c = Ok (c', new) →
  let T := tasks c t in let n := (pending_predecessors T - 1)%nat in
  c' = set_task t (mkTask (state_ T) n (predecessors T) (successors T) (exception_ptr T)) c ∧
  new = if bool_decide (n = 0%nat) then [CheckScheduled t] else [].
Proof.
  unfold OnTaskFinished_successor, AtomicDecrementPredecessorCount. intros ([c1 n] & H1 & [= <- <-])%bind_ok.
  apply bind_ok in H1 as (? & _ & [= <- <-]). done.
Qed.

Definition perform (a : action) (c : Core) : result (Core * list action) :=
  match a with
  | ScheduleCall t => Schedule t c
  | CountScheduled => Ok (mkCore (tasks c) (queue c) (wrap_uint64 (num_scheduled_tasks c + 1)), [])
  | CheckReady t => Schedule_ready t c
  | SubmitCall t => Submit t c
  | PushJob t => Ok (mkCore (tasks c) (queue c ++ [t]) (num_scheduled_tasks c), [])
  | StartTask t => Execute_start t c
  | RunTask t => Execute_run t c
  | FinishTask t => Execute_finish t c
  | DecrementSuccessor t => OnTaskFinished_successor t c
  | CheckScheduled t => Ok (c, if IsScheduled (tasks c t) then [SubmitCall t] else [])
  | CountFinished => Ok (mkCore (tasks c) (queue c) (wrap_uint64 (num_scheduled_tasks c - 1)), [])
  end.

Record System : Type := mkSystem {
  threads : list (list action);
  core : Core }.

(** A thread may call [Schedule], and an executor thread process a queued job, when it is
    idle or inside [OnExecute] (an operator that schedules jobs and waits for them). *)
Definition at_liberty (stack : list action) : bool :=
  match stack with [] | RunTask _ :: _ => true | _ => false end.

(** Which threads belong to the executor: only they take jobs off the queue. *)
Context (IsExecutorThread : nat → bool).

Inductive work_step : System → System → Prop :=
  | work_perform before a rest after c c' new :
      perform a c = Ok (c', new) →
      work_step (mkSystem (before ++ (a :: rest) :: after) c) (mkSystem (before ++ (new ++ rest) :: after) c')
  | work_pop before stack after t q ts n :
      at_liberty stack = true → IsExecutorThread (length before) = true →
      work_step (mkSystem (before ++ stack :: after) (mkCore ts (t :: q) n))
           (mkSystem (before ++ (StartTask t :: stack) :: after) (mkCore ts q n)).

Inductive step : System → System → Prop :=
  | step_work s s' : work_step s s' → step s s'
  | step_schedule before stack after c t :
      at_liberty stack = true →
      step (mkSystem (before ++ stack :: after) c) (mkSystem (before ++ (ScheduleCall t :: stack) :: after) c).

Inductive reachable (s0 : System) : System → Prop :=
  | reachable_refl : reachable s0 s0
  | reachable_step s s' : reachable s0 s → step s s' → reachable s0 s'.
End Execution.

(** ** Initial systems: idle threads, tasks linked by [SetAsPredecessorOf] *)
Definition link (edges : list (nat * nat)) : Core :=
  foldl (λ c e, SetAsPredecessorOf e.1 e.2 c) (mkCore (λ _, new_task) [] 0) edges.

Definition initial (edges : list (nat * nat)) (num_threads : nat) : System :=
  mkSystem (replicate num_threads []) (link edges).

(** ** Counting actions *)
Definition occ {X} `{EqDecision X} (x : X) (l : list X) : nat := length (filter (λ y, y = x) l).

Section Occ.
Context {X : Type} `{EqDecision X}.
Implicit Types (x y : X) (l k : list X).

Lemma occ_app x l k : occ x (l ++ k) = (occ x l + occ x k)%nat.
Proof. unfold occ. by rewrite filter_app, length_app. Qed.

Lemma occ_nil x : occ x [] = 0%nat.
Proof. done. Qed.

Lemma occ_cons x y l : occ x (y :: l) = ((if decide (y = x) then 1 else 0) + occ x l)%nat.
Proof. unfold occ. rewrite filter_cons. by destruct (decide (y = x)). Qed.

Lemma occ_elem x l : (0 < occ x l)%nat ↔ x ∈ l.
Proof.
  induction l as [|y l IH]; [rewrite occ_nil; split; [lia|by intros ?%elem_of_nil]|].
  rewrite occ_cons, elem_of_cons. destruct (decide (y = x)) as [->|Hne]; [split; [by left|lia]|].
  cbn [Nat.add]. rewrite IH. split; [by right|by intros [->|]].
Qed.

Lemma occ_NoDup x l : NoDup l → occ x l = if decide (x ∈ l) then 1%nat else 0%nat.
Proof.
  induction 1 as [|y l Hy Hnd IH]; [by rewrite decide_False by (by apply not_elem_of_nil)|].
  rewrite occ_cons, IH. destruct (decide (y = x)) as [->|Hne].
  - rewrite decide_False by done. by rewrite decide_True by (by left).
  - cbn [Nat.add]. destruct (decide (x ∈ l)); [by rewrite decide_True by (by right)|].
    rewrite decide_False; [done|]. by intros [->|]%elem_of_cons.
Qed.
End Occ.

Lemma occ_fmap {X Y} `{EqDecision X} `{EqDecision Y} (f : X → Y) `{!Inj (=) (=) f} x l : occ (f x) (f <$> l) = occ x l.
Proof.
  induction l as [|y l IH]; [done|]. rewrite fmap_cons, !occ_cons, IH. f_equal.
  destruct (decide (y = x)) as [->|Hne]; [by rewrite decide_True|]. rewrite decide_False; [done|]. by intros ?%(inj f).
Qed.

Lemma occ_fmap_ne {X Y} `{EqDecision Y} (f : X → Y) y l : (∀ x, f x ≠ y) → occ y (f <$> l) = 0%nat.
Proof.
  intros H. induction l as [|x l IH]; [done|]. rewrite fmap_cons, occ_cons, IH. by rewrite decide_False.
Qed.

#[export] Instance DecrementSuccessor_inj : Inj (=) (=) DecrementSuccessor.
Proof. by intros x y [= ->]. Qed.
#[export] Instance ScheduleCall_inj : Inj (=) (=) ScheduleCall.
Proof. by intros x y [= ->]. Qed.

(** ** The invariant of the running system *)
Definition unfinished (c : Core) (p : nat) : bool := negb (IsDone (tasks c p)).
Definition scheduled (c : Core) (t : nat) : Prop := (1 ≤ progress (state_ (tasks c t)))%nat.

Record graph (c : Core) : Prop := {
  graph_preds t : NoDup (predecessors (tasks c t));
  graph_succs t : NoDup (successors (tasks c t));
  graph_edge p t : t ∈ successors (tasks c p) ↔ p ∈ predecessors (tasks c t) }.

(** What holds of one task: its state as a number, its predecessor count, its unfinished
    predecessors, and how often each action on it is still to be performed. *)
Definition task_ok (state pending unf dec push queued start run finish submit check ready : nat) : Prop :=
  (pending = unf + dec ∧
   (state = 2 ∧ push + queued + start = 1 ∨ state ≠ 2 ∧ push + queued + start = 0) ∧
   (state = 3 ∧ run + finish = 1 ∨ state ≠ 3 ∧ run + finish = 0) ∧
   (2 ≤ state ∨ 0 < submit ∨ 0 < check → pending = 0) ∧
   (0 < ready + submit → 1 ≤ state) ∧
   (state = 1 → pending = 0 → 0 < ready + check + submit))%nat.

Record invariant (acts : list action) (c : Core) : Prop := {
  inv_graph : graph c;
  inv_task t : task_ok (progress (state_ (tasks c t))) (pending_predecessors (tasks c t))
    (length (filter (unfinished c) (predecessors (tasks c t)))) (occ (DecrementSuccessor t) acts)
    (occ (PushJob t) acts) (occ t (queue c)) (occ (StartTask t) acts) (occ (RunTask t) acts) (occ (FinishTask t) acts)
    (occ (SubmitCall t) acts) (occ (CheckScheduled t) acts) (occ (CheckReady t) acts);
  inv_requested t : state_ (tasks c t) = kScheduled → (0 < occ (CheckReady t) acts)%nat ∨
    ∀ p, p ∈ predecessors (tasks c t) → scheduled c p ∨ (0 < occ (ScheduleCall p) acts)%nat }.

Ltac decide_all :=
  repeat match goal with
  | |- context [decide (?x = ?y)] => destruct (decide (x = y)); simplify_eq
  | H : context [decide (?x = ?y)] |- _ => destruct (decide (x = y)); simplify_eq
  end.

Lemma tasks_set t T c u : tasks (set_task t T c) u = if decide (u = t) then T else tasks c u.
Proof. done. Qed.

Lemma queue_set t T c : queue (set_task t T c) = queue c.
Proof. done. Qed.

(** Updates of a task's state, short of finishing it, keep everybody's unfinished
    predecessors. *)
Lemma unfinished_set t T c ps :
  IsDone T = IsDone (tasks c t) → length (filter (unfinished (set_task t T c)) ps) = length (filter (unfinished c) ps).
Proof.
  intros HT. f_equal. induction ps as [|p ps IH]; [done|]. rewrite !filter_cons, IH.
  assert (unfinished (set_task t T c) p = unfinished c p) as ->; [|done].
  unfold unfinished. rewrite tasks_set. destruct (decide (p = t)) as [->|]; [by rewrite HT|done].
Qed.

Lemma graph_set t T c :
  predecessors T = predecessors (tasks c t) → successors T = successors (tasks c t) → graph c → graph (set_task t T c).
Proof.
  intros Hp Hs [H1 H2 H3]. split.
  - intros u. rewrite tasks_set. destruct (decide (u = t)) as [->|]; [by rewrite Hp|done].
  - intros u. rewrite tasks_set. destruct (decide (u = t)) as [->|]; [by rewrite Hs|done].
  - intros p u. rewrite !tasks_set. destruct (decide (p = t)) as [->|], (decide (u = t)) as [->|]; by rewrite ?Hp, ?Hs.
Qed.

(** [inv_requested] survives when no task loses progress and no request is dropped. *)
Lemma requested_mono acts acts' c c' t :
  (∀ u, (progress (state_ (tasks c u)) ≤ progress (state_ (tasks c' u)))%nat) →
  (∀ u, predecessors (tasks c' u) = predecessors (tasks c u)) →
  (∀ p, (0 < occ (ScheduleCall p) acts)%nat → (0 < occ (ScheduleCall p) acts')%nat ∨ scheduled c' p) →
  (∀ p, p ∈ predecessors (tasks c t) → scheduled c p ∨ (0 < occ (ScheduleCall p) acts)%nat) →
  ∀ p, p ∈ predecessors (tasks c' t) → scheduled c' p ∨ (0 < occ (ScheduleCall p) acts')%nat.
Proof.
  intros Hpr Hpred Hreq H p Hp. rewrite Hpred in Hp. destruct (H p Hp) as [Hs|Hs].
  - left. unfold scheduled in *. specialize (Hpr p). lia.
  - destruct (Hreq p Hs); [by right|by left].
Qed.

Lemma none_unfinished c ps : length (filter (unfinished c) ps) = 0%nat → ∀ p, p ∈ ps → state_ (tasks c p) = kDone.
Proof.
  intros H p Hp. apply length_zero_iff_nil in H. destruct (unfinished c p) eqn:E.
  - assert (p ∈ filter (unfinished c) ps) as Hin by (apply list_elem_of_filter; by rewrite E).
    rewrite H in Hin. by apply elem_of_nil in Hin.
  - unfold unfinished, IsDone in E. by apply negb_false_iff, bool_decide_eq_true in E.
Qed.

Lemma none_unfinished_iff c ps : (∀ p, p ∈ ps → state_ (tasks c p) = kDone) → length (filter (unfinished c) ps) = 0%nat.
Proof.
  induction ps as [|p ps IH]; intros H; [done|]. rewrite filter_cons_False.
  - apply IH. intros. apply H. by right.
  - unfold unfinished, IsDone. rewrite (H p) by (by left). rewrite bool_decide_true by done. cbn. tauto.
Qed.

Lemma done_scheduled c p : state_ (tasks c p) = kDone → scheduled c p.
Proof. intros E. unfold scheduled. rewrite E. cbn. lia. Qed.

(** ** Every action can be performed and keeps the invariant *)
Section Preservation.
Context (OnExecute : nat → option error).

(** [OnExecute] returns or fails an assertion; any other exception ends the process. *)
Definition survives : Prop := ∀ t, OnExecute t = None ∨ OnExecute t = Some AssertionFailed.

Definition keeps (a : action) : Prop := ∀ A B c,
  invariant (A ++ a :: B) c → ∃ c' new, perform OnExecute a c = Ok (c', new) ∧ invariant (A ++ new ++ B) c'.

Ltac count := rewrite ?occ_app, ?occ_cons, ?occ_nil in *.
Ltac local u Hinv := let H := fresh "Hloc" in pose proof (inv_task _ _ Hinv u) as H; unfold task_ok in H |- *;
  cbn [tasks queue] in *; rewrite ?queue_set; count.

(** An action that changes no task and is replaced by nothing, or by actions that do not
    matter to the invariant. *)
Lemma keep_counters A a B c c' :
  (a = CountScheduled ∨ a = CountFinished) → tasks c' = tasks c → queue c' = queue c →
  invariant (A ++ a :: B) c → invariant (A ++ [] ++ B) c'.
Proof.
  intros Ha Ht Hq Hinv. destruct c as [ts q n], c' as [ts' q' n']. cbn in Ht, Hq. subst ts' q'.
  split.
  - destruct (inv_graph _ _ Hinv). by split.
  - intros u. local u Hinv. destruct Ha as [->| ->]; decide_all; exact Hloc.
  - intros u Hu. destruct (inv_requested _ _ Hinv u Hu) as [H|H].
    + left. count. destruct Ha as [->| ->]; decide_all; exact H.
    + right. apply (requested_mono (A ++ a :: B) _ (mkCore ts q n)); [done|done| |done].
      intros p Hp. left. count. destruct Ha as [->| ->]; decide_all; exact Hp.
Qed.

Lemma keep_CountScheduled : keeps CountScheduled.
Proof. intros A B c Hinv. do 2 eexists. split; [done|]. apply (keep_counters A CountScheduled B c); [by left|done|done|exact Hinv]. Qed.

Lemma keep_CountFinished : keeps CountFinished.
Proof. intros A B c Hinv. do 2 eexists. split; [done|]. apply (keep_counters A CountFinished B c); [by right|done|done|exact Hinv]. Qed.

Lemma keep_ScheduleCall t : keeps (ScheduleCall t).
Proof.
  intros A B c Hinv. unfold perform, Schedule, Schedule_ready, Submit, Execute_start, Execute_run, Execute_finish, OnTaskFinished_successor, AtomicDecrementPredecessorCount, TryTransitionTo.
  destruct (state_ (tasks c t)) eqn:Es; cbn [progress Nat.leb rbind assert_ fst snd];
    try (exists c, []; split; [done|]; split; [apply Hinv|intros u; local u Hinv; decide_all; exact Hloc|];
         intros u Hu; destruct (inv_requested _ _ Hinv u Hu) as [H|H];
           [left; count; decide_all; lia
           |right; apply (requested_mono (A ++ ScheduleCall t :: B) _ c); [done|done| |done];
            intros p Hp; destruct (decide (p = t)) as [->|Hne];
              [right; unfold scheduled; rewrite Es; cbn; lia|left; count; decide_all; lia]]).
  rewrite bool_decide_true by done. cbn [assert_ rbind fst snd]. do 2 eexists. split; [done|]. split.
  - apply graph_set; [done|done|apply Hinv].
  - intros u. local u Hinv. rewrite tasks_set. rewrite unfinished_set by (unfold IsDone; cbn; by rewrite Es).
    destruct (decide (u = t)) as [->|Hne]; cbn [with_state state_ pending_predecessors predecessors progress];
      decide_all; rewrite ?Es in *; cbn [progress] in *; lia.
  - intros u Hu. rewrite tasks_set in Hu. destruct (decide (u = t)) as [->|Hne].
    + left; count; decide_all; lia.
    + destruct (inv_requested _ _ Hinv u Hu) as [H|H]; [left; count; decide_all; lia|right].
      apply (requested_mono (A ++ ScheduleCall t :: B) _ c); [..|done].
      * intros v. rewrite tasks_set. destruct (decide (v = t)) as [->|]; [rewrite Es; cbn; lia|done].
      * intros v. rewrite tasks_set. by destruct (decide (v = t)) as [->|].
      * intros p Hp. destruct (decide (p = t)) as [->|Hnp].
        { right. unfold scheduled. rewrite tasks_set, decide_True by done. cbn. lia. }
        left. count. decide_all; lia.
Qed.

Lemma keep_CheckReady t : keeps (CheckReady t).
Proof.
  intros A B c Hinv. unfold perform, Schedule, Schedule_ready, Submit, Execute_start, Execute_run, Execute_finish, OnTaskFinished_successor, AtomicDecrementPredecessorCount, IsReady. case_bool_decide as Hp.
  - do 2 eexists. split; [done|]. split; [apply Hinv|intros u; local u Hinv; decide_all; lia|].
    intros u Hu. destruct (decide (u = t)) as [->|Hne].
    + right. intros p Hpp. left. apply done_scheduled. apply (none_unfinished c (predecessors (tasks c t))); [|done].
      pose proof (inv_task _ _ Hinv t) as Hl. unfold task_ok in Hl. lia.
    + destruct (inv_requested _ _ Hinv u Hu) as [H|H]; [left; count; decide_all; lia|right].
      apply (requested_mono (A ++ CheckReady t :: B) _ c); [done|done| |done]. intros p Hq. left; count; decide_all; lia.
  - do 2 eexists. split; [done|].
    assert (∀ b, (∀ p, ScheduleCall p ≠ b) → occ b (A ++ (ScheduleCall <$> predecessors (tasks c t)) ++ B) =
      (occ b A + occ b B)%nat) as Hocc by (intros b Hb; rewrite !occ_app, (occ_fmap_ne ScheduleCall) by done; done).
    split; [apply Hinv| |].
    + intros u. pose proof (inv_task _ _ Hinv u) as Hloc. unfold task_ok in *. rewrite !Hocc by done. count. decide_all; lia.
    + intros u Hu. destruct (decide (u = t)) as [->|Hne].
      * right. intros p Hpp. right. rewrite !occ_app, (occ_fmap ScheduleCall). apply occ_elem in Hpp. lia.
      * destruct (inv_requested _ _ Hinv u Hu) as [H|H]; [left; rewrite Hocc by done; count; decide_all; lia|right].
        apply (requested_mono (A ++ CheckReady t :: B) _ c); [done|done| |done]. intros p Hq. left; count; decide_all; lia.
Qed.

(** Replacing the state of one task by a later one, no request dropped. *)
Lemma requested_set A a new B c t s :
  (∀ p, ScheduleCall p ≠ a) → (∀ u, CheckReady u ≠ a) → (progress (state_ (tasks c t)) ≤ progress s)%nat → s ≠ kScheduled →
  invariant (A ++ a :: B) c →
  ∀ u, state_ (tasks (set_task t (with_state s (tasks c t)) c) u) = kScheduled →
    (0 < occ (CheckReady u) (A ++ new ++ B))%nat ∨
    ∀ p, p ∈ predecessors (tasks (set_task t (with_state s (tasks c t)) c) u) →
      scheduled (set_task t (with_state s (tasks c t)) c) p ∨ (0 < occ (ScheduleCall p) (A ++ new ++ B))%nat.
Proof.
  intros Ha1 Ha2 Hpr Hs Hinv u Hu. rewrite tasks_set in Hu. destruct (decide (u = t)) as [->|Hne]; [by cbn in Hu|].
  destruct (inv_requested _ _ Hinv u Hu) as [H|H]; [left|right].
  - count. destruct (decide (a = CheckReady u)) as [E|]; [by destruct (Ha2 u)|]. lia.
  - apply (requested_mono (A ++ a :: B) _ c); [..|done].
    + intros v. rewrite tasks_set. destruct (decide (v = t)) as [->|]; [cbn; lia|done].
    + intros v. rewrite tasks_set. by destruct (decide (v = t)) as [->|].
    + intros p Hp. left. count. destruct (decide (a = ScheduleCall p)) as [E|]; [by destruct (Ha1 p)|]. lia.
Qed.

Lemma keep_SubmitCall t : keeps (SubmitCall t).
Proof.
  intros A B c Hinv. unfold perform, Schedule, Schedule_ready, Submit, Execute_start, Execute_run, Execute_finish, OnTaskFinished_successor, AtomicDecrementPredecessorCount, TryTransitionTo.
  pose proof (inv_task _ _ Hinv t) as Ht. unfold task_ok in Ht. count. decide_all.
  destruct (state_ (tasks c t)) eqn:Es; cbn [progress Nat.leb rbind assert_ fst snd];
    try (exists c, []; split; [done|]; split; [apply Hinv| |];
      [intros u; local u Hinv; destruct (decide (u = t)) as [->|]; rewrite ?Es in *; decide_all; cbn [progress] in *; lia|];
      intros u Hu; destruct (inv_requested _ _ Hinv u Hu) as [H|H];
         [left; count; decide_all; lia
         |right; apply (requested_mono (A ++ SubmitCall t :: B) _ c); [done|done| |done];
          intros p Hp; left; count; decide_all; lia]).
  - cbn [progress] in Ht. lia.
  - rewrite bool_decide_true by done. cbn [assert_ rbind fst snd]. do 2 eexists. split; [done|]. split.
    + apply graph_set; [done|done|apply Hinv].
    + intros u. local u Hinv. rewrite tasks_set. rewrite unfinished_set by (unfold IsDone; cbn; by rewrite Es).
      destruct (decide (u = t)) as [->|Hne]; cbn [with_state state_ pending_predecessors predecessors progress];
        decide_all; rewrite ?Es in *; cbn [progress] in *; lia.
    + apply (requested_set A (SubmitCall t)); [done|done|rewrite Es; cbn; lia|done|done].
Qed.

Lemma keep_PushJob t : keeps (PushJob t).
Proof.
  intros A B c Hinv. do 2 eexists. split; [done|]. split.
  - destruct (inv_graph _ _ Hinv). by split.
  - intros u. change (unfinished (mkCore (tasks c) (queue c ++ [t]) (num_scheduled_tasks c))) with (unfinished c).
    local u Hinv. decide_all; lia.
  - intros u Hu. destruct (inv_requested _ _ Hinv u Hu) as [H|H]; [left; count; decide_all; lia|right].
    apply (requested_mono (A ++ PushJob t :: B) _ c); [done|done| |done]. intros p Hq. left; count; decide_all; lia.
Qed.

Lemma keep_StartTask t : keeps (StartTask t).
Proof.
  intros A B c Hinv. unfold perform, Schedule, Schedule_ready, Submit, Execute_start, Execute_run, Execute_finish, OnTaskFinished_successor, AtomicDecrementPredecessorCount, TryTransitionTo.
  pose proof (inv_task _ _ Hinv t) as Ht. unfold task_ok in Ht. count. decide_all.
  assert (state_ (tasks c t) = kEnqueued) as Es by (destruct (state_ (tasks c t)); cbn in Ht; lia || done).
  rewrite Es. rewrite bool_decide_true by done. cbn [assert_ rbind fst snd]. do 2 eexists. split; [done|]. split.
  - apply graph_set; [done|done|apply Hinv].
  - intros u. local u Hinv. rewrite tasks_set. rewrite unfinished_set by (unfold IsDone; cbn; by rewrite Es).
    destruct (decide (u = t)) as [->|Hne]; cbn [with_state state_ pending_predecessors predecessors progress];
      decide_all; rewrite ?Es in *; cbn [progress] in *; lia.
  - apply (requested_set A (StartTask t)); [done|done|rewrite Es; cbn; lia|done|done].
Qed.

Lemma keep_RunTask t : survives → keeps (RunTask t).
Proof.
  intros Hsurv A B c Hinv. unfold perform, Schedule, Schedule_ready, Submit, Execute_start, Execute_run, Execute_finish, OnTaskFinished_successor, AtomicDecrementPredecessorCount.
  assert (∀ T, state_ T = state_ (tasks c t) → pending_predecessors T = pending_predecessors (tasks c t) →
    predecessors T = predecessors (tasks c t) → successors T = successors (tasks c t) →
    invariant (A ++ [FinishTask t] ++ B) (set_task t T c)) as Hset.
  { intros T H1 H2 H3 H4. split; [apply graph_set; [done|done|apply Hinv]|..].
    - intros u. local u Hinv. rewrite tasks_set. rewrite unfinished_set by (unfold IsDone; by rewrite H1).
      destruct (decide (u = t)) as [->|Hne]; rewrite ?H1, ?H2, ?H3; decide_all; lia.
    - intros u Hu. rewrite tasks_set in Hu.
      assert (state_ (tasks c u) = kScheduled) as Hu' by (destruct (decide (u = t)) as [->|]; congruence).
      destruct (inv_requested _ _ Hinv u Hu') as [H|H]; [left; count; decide_all; lia|right].
      apply (requested_mono (A ++ RunTask t :: B) _ c); [..|done].
      + intros v. rewrite tasks_set. destruct (decide (v = t)) as [->|]; [by rewrite H1|done].
      + intros v. rewrite tasks_set. destruct (decide (v = t)) as [->|]; [by rewrite H3|done].
      + intros p Hq. left; count; decide_all; lia. }
  destruct (Hsurv t) as [->| ->].
  - do 2 eexists. split; [done|].
    specialize (Hset (tasks c t) eq_refl eq_refl eq_refl eq_refl).
    destruct Hset as [[G1 G2 G3] H2 H3].
    assert (∀ u, tasks (set_task t (tasks c t) c) u = tasks c u) as E.
    { intros u. rewrite tasks_set. by destruct (decide (u = t)) as [->|]. }
    split.
    + apply Hinv.
    + intros u. specialize (H2 u). rewrite E, unfinished_set in H2 by done. exact H2.
    + intros u Hu. rewrite <- E in Hu. destruct (H3 u Hu) as [|H]; [by left|right]. intros p Hp. rewrite <- E in Hp.
      unfold scheduled in *. specialize (H p Hp). by rewrite E in H.
  - do 2 eexists. split; [done|]. by apply Hset.
Qed.

Lemma filter_done (c : Core) t ps :
  NoDup ps → unfinished c t = true →
  length (filter (unfinished c) ps) =
  (length (filter (unfinished (set_task t (with_state kDone (tasks c t)) c)) ps) + (if decide (t ∈ ps) then 1 else 0))%nat.
Proof.
  intros Hnd Ht. induction Hnd as [|p ps Hp Hnd IH]; [by rewrite decide_False by apply not_elem_of_nil|].
  rewrite !filter_cons. destruct (decide (p = t)) as [->|Hne].
  - rewrite (decide_True (P := t ∈ t :: ps)) by (by left).
    assert (unfinished (set_task t (with_state kDone (tasks c t)) c) t = false) as Hf.
    { unfold unfinished. by rewrite tasks_set, decide_True by done. }
    rewrite decide_True by (by rewrite Ht). rewrite (decide_False (P := Is_true (unfinished (set_task _ _ c) t))) by (rewrite Hf; tauto).
    cbn [length]. rewrite IH, decide_False by done. lia.
  - assert (unfinished (set_task t (with_state kDone (tasks c t)) c) p = unfinished c p) as E.
    { unfold unfinished. by rewrite tasks_set, decide_False by done. }
    assert ((if decide (t ∈ p :: ps) then 1 else 0) = (if decide (t ∈ ps) then 1 else 0))%nat as ->.
    { destruct (decide (t ∈ ps)); [by rewrite decide_True by (by right)|]. rewrite decide_False; [done|].
      by intros [->|]%elem_of_cons. }
    rewrite E. destruct (decide (Is_true (unfinished c p))); cbn [length]; rewrite IH; lia.
Qed.

Lemma keep_FinishTask t : keeps (FinishTask t).
Proof.
  intros A B c Hinv. unfold perform, Schedule, Schedule_ready, Submit, Execute_start, Execute_run, Execute_finish, OnTaskFinished_successor, AtomicDecrementPredecessorCount, TryTransitionTo.
  pose proof (inv_task _ _ Hinv t) as Ht. unfold task_ok in Ht. count. decide_all.
  assert (state_ (tasks c t) = kStarted) as Es by (destruct (state_ (tasks c t)); cbn in Ht; lia || done).
  rewrite Es. rewrite bool_decide_true by done. cbn [assert_ rbind fst snd]. do 2 eexists. split; [done|].
  destruct (inv_graph _ _ Hinv) as [G1 G2 G3]. split; [apply graph_set; [done|done|apply Hinv]| |].
  - intros u. pose proof (inv_task _ _ Hinv u) as Hu. unfold task_ok in *.
    assert (∀ b, (∀ x, DecrementSuccessor x ≠ b) → b ≠ CountFinished →
      occ b (A ++ ((DecrementSuccessor <$> successors (tasks c t)) ++ [CountFinished]) ++ B) = (occ b A + occ b B)%nat) as Hocc.
    { intros b H1 H2. rewrite !occ_app, (occ_fmap_ne DecrementSuccessor), occ_cons by done.
      rewrite decide_False by (by intros <-). rewrite occ_nil. lia. }
    rewrite (Hocc (PushJob u)), (Hocc (StartTask u)), (Hocc (RunTask u)), (Hocc (FinishTask u)), (Hocc (SubmitCall u)),
      (Hocc (CheckScheduled u)), (Hocc (CheckReady u)) by done. rewrite !occ_app in *. rewrite (occ_fmap DecrementSuccessor), (occ_NoDup u _ (G2 t)).
    rewrite (filter_done c t _ (G1 u)) in Hu by (unfold unfinished, IsDone; by rewrite Es). rewrite queue_set.
    assert ((if decide (u ∈ successors (tasks c t)) then 1 else 0) =
      (if decide (t ∈ predecessors (tasks c u)) then 1 else 0))%nat as ->.
    { destruct (decide (t ∈ predecessors (tasks c u))) as [H|H]; rewrite <- G3 in H; [by rewrite decide_True|by rewrite decide_False]. }
    count. rewrite tasks_set. destruct (decide (u = t)) as [->|Hne].
    + cbn [with_state state_ pending_predecessors predecessors progress]. rewrite Es in Hu. cbn [progress] in *. decide_all; lia.
    + decide_all; lia.
  - apply (requested_set A (FinishTask t)); [done|done|rewrite Es; cbn; lia|done|done].
Qed.

Lemma keep_DecrementSuccessor t : keeps (DecrementSuccessor t).
Proof.
  intros A B c Hinv. unfold perform, Schedule, Schedule_ready, Submit, Execute_start, Execute_run, Execute_finish, OnTaskFinished_successor, AtomicDecrementPredecessorCount. pose proof (inv_task _ _ Hinv t) as Ht. unfold task_ok in Ht. count. decide_all.
  assert (0 < pending_predecessors (tasks c t))%nat as Hpos by lia. clear Ht.
  rewrite bool_decide_true by done. cbn [assert_ rbind]. do 2 eexists. split; [done|].
  split; [apply graph_set; [done|done|apply Hinv]| |].
  - intros u. local u Hinv. rewrite tasks_set, unfinished_set by done. destruct (decide (u = t)) as [->|Hne];
      cbn [state_ pending_predecessors predecessors]; (case_bool_decide as Hz; count; decide_all);
      destruct Hloc as (L1 & L2 & L3 & L4 & L5 & L6); repeat split; clear Hinv; lia.
  - intros u Hu. rewrite tasks_set in Hu.
    assert (state_ (tasks c u) = kScheduled) as Hu' by (destruct (decide (u = t)) as [->|]; done).
    destruct (inv_requested _ _ Hinv u Hu') as [H|H]; [left; count; decide_all; lia|right].
    apply (requested_mono (A ++ DecrementSuccessor t :: B) _ c); [..|done].
    + intros v. rewrite tasks_set. by destruct (decide (v = t)) as [->|].
    + intros v. rewrite tasks_set. by destruct (decide (v = t)) as [->|].
    + intros p Hq. left; count; decide_all; lia.
Qed.

Lemma keep_CheckScheduled t : keeps (CheckScheduled t).
Proof.
  intros A B c Hinv. do 2 eexists. split; [done|]. split; [apply Hinv| |].
  - intros u. local u Hinv. unfold IsScheduled. destruct (Nat.leb_spec (progress kScheduled) (progress (state_ (tasks c t)))) as [H|H];
      cbn [progress] in H; count; destruct (decide (u = t)) as [->|]; decide_all; lia.
  - intros u Hu. destruct (inv_requested _ _ Hinv u Hu) as [H|H]; [left; count; decide_all; lia|right].
    apply (requested_mono (A ++ CheckScheduled t :: B) _ c); [done|done| |done]. intros p Hq. left; count; decide_all; lia.
Qed.

Lemma keep_all a : survives → keeps a.
Proof.
  intros Hs. destruct a.
  - apply keep_ScheduleCall.
  - apply keep_CountScheduled.
  - apply keep_CheckReady.
  - apply keep_SubmitCall.
  - apply keep_PushJob.
  - apply keep_StartTask.
  - by apply keep_RunTask.
  - apply keep_FinishTask.
  - apply keep_DecrementSuccessor.
  - apply keep_CheckScheduled.
  - apply keep_CountFinished.
Qed.
End Preservation.

(** ** Reachable systems *)
Lemma SetAsPredecessorOf_tasks c p s u :
  s ∉ successors (tasks c p) → state_ (tasks c p) ≠ kDone →
  let T := tasks (SetAsPredecessorOf p s c) u in
  state_ T = state_ (tasks c u) ∧
  pending_predecessors T = (if decide (u = s) then S (pending_predecessors (tasks c u)) else pending_predecessors (tasks c u)) ∧
  predecessors T = (if decide (u = s) then predecessors (tasks c u) ++ [p] else predecessors (tasks c u)) ∧
  successors T = (if decide (u = p) then successors (tasks c u) ++ [s] else successors (tasks c u)).
Proof.
  intros Hin Hd. unfold SetAsPredecessorOf. rewrite bool_decide_false by done. cbn zeta. rewrite !tasks_set.
  rewrite (decide_True (P := p = p)) by done. unfold IsDone. cbn [state_]. rewrite bool_decide_false by done.
  destruct (decide (u = s)) as [->|H1].
  - destruct (decide (s = p)) as [->|H2]; done.
  - destruct (decide (u = p)) as [->|H2]; done.
Qed.

Definition fresh_core (c : Core) : Prop :=
  graph c ∧ (∀ t, state_ (tasks c t) = kCreated ∧ pending_predecessors (tasks c t) = length (predecessors (tasks c t))) ∧
  queue c = [] ∧ num_scheduled_tasks c = 0.

Lemma SetAsPredecessorOf_ok c p s :
  fresh_core c →
  fresh_core (SetAsPredecessorOf p s c) ∧
  ∀ t u, u ∈ predecessors (tasks (SetAsPredecessorOf p s c) t) ↔ u ∈ predecessors (tasks c t) ∨ (t = s ∧ u = p).
Proof.
  intros ([G1 G2 G3] & Hst & Hq & Hn). destruct (decide (s ∈ successors (tasks c p))) as [Hin|Hin].
  { unfold SetAsPredecessorOf. rewrite bool_decide_true by done. split; [split; [by split|done]|]. intros t u.
    split; [by left|]. intros [|[-> ->]]; [done|by apply G3]. }
  assert (p ∉ predecessors (tasks c s)) as Hnp by (by rewrite <- G3).
  assert (state_ (tasks c p) ≠ kDone) as Hd by (by rewrite (proj1 (Hst p))).
  pose proof (λ u, SetAsPredecessorOf_tasks c p s u Hin Hd) as HT. split.
  - split; [split|split].
    + intros t. destruct (HT t) as (_ & _ & -> & _). destruct (decide (t = s)) as [->|]; [|done]. apply NoDup_app.
      split; [done|]. split; [|by apply NoDup_singleton]. by intros x Hx ->%list_elem_of_singleton.
    + intros t. destruct (HT t) as (_ & _ & _ & ->). destruct (decide (t = p)) as [->|]; [|done]. apply NoDup_app.
      split; [done|]. split; [|by apply NoDup_singleton]. by intros x Hx ->%list_elem_of_singleton.
    + intros q t. destruct (HT q) as (_ & _ & _ & ->), (HT t) as (_ & _ & -> & _).
      destruct (decide (q = p)) as [->|], (decide (t = s)) as [->|];
        rewrite ?elem_of_app, ?list_elem_of_singleton, ?G3; tauto || (split; by right).
    + intros t. destruct (HT t) as (-> & -> & -> & _), (Hst t) as [-> ->]. split; [done|].
      destruct (decide (t = s)); [rewrite length_app; cbn; lia|done].
    + unfold SetAsPredecessorOf. rewrite bool_decide_false by done. done.
  - intros t u. destruct (HT t) as (_ & _ & -> & _).
    destruct (decide (t = s)) as [->|]; rewrite ?elem_of_app, ?list_elem_of_singleton; tauto.
Qed.

Lemma link_ok edges : fresh_core (link edges) ∧ ∀ t u, u ∈ predecessors (tasks (link edges) t) ↔ (u, t) ∈ edges.
Proof.
  unfold link. rewrite <- (reverse_involutive edges). induction (reverse edges) as [|[p s] es IH].
  - cbn. split; [split; [split; cbn; intros; try constructor; by intros ?%elem_of_nil|done]|].
    intros t u. split; by intros ?%elem_of_nil.
  - rewrite reverse_cons, foldl_app. cbn [foldl fst snd]. destruct IH as (Hf & He).
    destruct (SetAsPredecessorOf_ok _ p s Hf) as (Hf' & He'). split; [done|].
    intros t u. rewrite He', He, elem_of_app, list_elem_of_singleton. split; (intros [?|E]; [by left|right]).
    + by destruct E as [-> ->].
    + by injection E as -> ->.
Qed.

Definition system_ok (s : System) : Prop := invariant (concat (threads s)) (core s).

Lemma initial_ok edges n : system_ok (initial edges n).
Proof.
  unfold system_ok, initial. cbn [threads core]. destruct (link_ok edges) as ((Hg & Hst & Hq & _) & _).
  assert (concat (replicate n []) = ([] : list action)) as -> by (induction n; done).
  split; [done| |].
  - intros t. destruct (Hst t) as [Es Ep]. unfold task_ok. rewrite !occ_nil, Hq, occ_nil, Es, Ep. cbn [progress].
    assert (length (filter (unfinished (link edges)) (predecessors (tasks (link edges) t))) =
      length (predecessors (tasks (link edges) t))) as ->; [|lia].
    generalize (predecessors (tasks (link edges) t)). intros l. induction l as [|p l IH]; [done|].
    rewrite filter_cons_True; [cbn; by rewrite IH|]. unfold unfinished, IsDone. by rewrite (proj1 (Hst p)).
  - intros t Ht. by rewrite (proj1 (Hst t)) in Ht.
Qed.
