(* ===== verification/SchedulerCorrect.v ===== *)
(** * What the task scheduler promises

    The claims about [FragmentScheduler] and [TaskExecutor]: dependencies are respected and
    every task runs at most once (safety), worker threads cannot run for ever and reach a
    state in which every scheduled task is done (termination, liveness), the counter
    [num_scheduled_tasks_] that [WaitForAllTasks] tests, and what [WaitForTasks] returns or
    raises.  [execute] runs a schedule given as a list of decisions and lets the witnesses
    evaluate concrete interleavings. *)

From S2P Require Import Scheduler.

(** ** Safety, quiescence and termination of the task scheduler

    What the invariant of [Scheduler] gives for the reachable states of the worker: which
    states a task's predecessors are in, what a quiescent system has done, and a measure
    that every step of a worker thread decreases, whatever the interleaving. *)

Section Reachable.
Context (OnExecute : nat → option error) (IsExecutorThread : nat → bool).
Hypothesis Hsurvives : survives OnExecute.

Lemma concat_middle (before after : list (list action)) stack :
  concat (before ++ stack :: after) = concat before ++ stack ++ concat after.
Proof. by rewrite concat_app. Qed.

Lemma pop_ok A B ts t q n :
  invariant (A ++ B) (mkCore ts (t :: q) n) → invariant (A ++ StartTask t :: B) (mkCore ts q n).
Proof.
  intros Hinv. split; [destruct (inv_graph _ _ Hinv); by split| |].
  - intros u. change (unfinished (mkCore ts q n)) with (unfinished (mkCore ts (t :: q) n)).
    pose proof (inv_task _ _ Hinv u) as H. unfold task_ok in *. cbn [tasks queue] in *.
    rewrite ?occ_app, ?occ_cons in *. decide_all; lia.
  - intros u Hu. destruct (inv_requested _ _ Hinv u Hu) as [H|H].
    + left. rewrite ?occ_app, ?occ_cons in *. lia.
    + right. intros p Hp. destruct (H p Hp); [by left|right]. rewrite ?occ_app, ?occ_cons in *. lia.
Qed.

Lemma call_ok A B c t : invariant (A ++ B) c → invariant (A ++ ScheduleCall t :: B) c.
Proof.
  intros Hinv. split; [apply Hinv| |].
  - intros u. pose proof (inv_task _ _ Hinv u) as H. unfold task_ok in *. rewrite ?occ_app, ?occ_cons in *. decide_all; lia.
  - intros u Hu. destruct (inv_requested _ _ Hinv u Hu) as [H|H].
    + left. rewrite ?occ_app, ?occ_cons in *. lia.
    + right. intros p Hp. destruct (H p Hp); [by left|right]. rewrite ?occ_app, ?occ_cons in *. lia.
Qed.

Lemma step_ok s s' : step OnExecute IsExecutorThread s s' → system_ok s → system_ok s'.
Proof.
  unfold system_ok. intros [? ? [before a rest after c c' new Hp|before stack after t q ts n _ _]|before stack after c t _];
    cbn [threads core]; rewrite !concat_middle.
  - intros Hinv. destruct (keep_all OnExecute a Hsurvives (concat before) (rest ++ concat after) c) as (c'' & new' & Hp' & Hinv').
    { by rewrite <- app_comm_cons in Hinv. }
    rewrite Hp in Hp'. injection Hp' as <- <-. by rewrite <- app_assoc.
  - apply pop_ok.
  - apply call_ok.
Qed.

Lemma reachable_ok s0 s : system_ok s0 → reachable OnExecute IsExecutorThread s0 s → system_ok s.
Proof. intros H0. induction 1; [done|]. by eapply step_ok. Qed.

(** Nothing the worker threads do is stuck. *)
Lemma top_performs s before a rest after :
  system_ok s → threads s = before ++ (a :: rest) :: after →
  ∃ c' new, perform OnExecute a (core s) = Ok (c', new).
Proof.
  intros Hok Ht. unfold system_ok in Hok. rewrite Ht, concat_middle in Hok.
  destruct (keep_all OnExecute a Hsurvives (concat before) (rest ++ concat after) (core s)) as (c' & new & ? & _); eauto.
Qed.

Lemma TryTransitionTo_progress new s s' b :
  TryTransitionTo new s = Ok (s', b) → (progress s ≤ progress s')%nat ∧ (b = true → s' = new ∧ (progress s < progress new)%nat).
Proof.
  destruct new, s; cbn; intros H; try discriminate H; injection H as <- <-;
  (split; [cbn; lia|intros E; first [discriminate E|split; [done|cbn; lia]]]).
Qed.

Lemma perform_frame a c c' new t :
  perform OnExecute a c = Ok (c', new) →
  predecessors (tasks c' t) = predecessors (tasks c t) ∧ successors (tasks c' t) = successors (tasks c t) ∧
  (progress (state_ (tasks c t)) ≤ progress (state_ (tasks c' t)))%nat.
Proof.
  assert (∀ u s b k, TryTransitionTo k (state_ (tasks c u)) = Ok (s, b) →
    predecessors (tasks (set_task u (with_state s (tasks c u)) c) t) = predecessors (tasks c t) ∧
    successors (tasks (set_task u (with_state s (tasks c u)) c) t) = successors (tasks c t) ∧
    (progress (state_ (tasks c t)) ≤ progress (state_ (tasks (set_task u (with_state s (tasks c u)) c) t)))%nat) as Hset.
  { intros u s b k H. rewrite tasks_set. destruct (decide (t = u)) as [->|]; [|done]. split; [done|]. split; [done|].
    by apply TryTransitionTo_progress in H as [? _]. }
  unfold perform, Schedule, Schedule_ready, Submit, Execute_start, Execute_run, Execute_finish. intros H. destruct a as [u| |u|u|u|u|u|u|u|u|].
  - apply bind_ok in H as ([s b] & Hs & H). destruct b; injection H as <- <-; [by eapply Hset|done].
  - by injection H as <- <-.
  - destruct (IsReady (tasks c u)); by injection H as <- <-.
  - apply bind_ok in H as ([s b] & Hs & H). destruct b; injection H as <- <-; [by eapply Hset|done].
  - by injection H as <- <-.
  - apply bind_ok in H as ([s b] & Hs & H). injection H as <- <-. by eapply Hset.
  - destruct (OnExecute u) as [[]|]; try discriminate H; injection H as <- <-; [|done].
    rewrite tasks_set. by destruct (decide (t = u)) as [->|].
  - apply bind_ok in H as ([s b] & Hs & H). injection H as <- <-. by eapply Hset.
  - apply OnTaskFinished_successor_ok in H as [-> ->]. rewrite tasks_set. by destruct (decide (t = u)) as [->|].
  - by injection H as <- <-.
  - by injection H as <- <-.
Qed.

Lemma step_frame s s' t :
  step OnExecute IsExecutorThread s s' →
  predecessors (tasks (core s') t) = predecessors (tasks (core s) t) ∧
  successors (tasks (core s') t) = successors (tasks (core s) t) ∧
  (progress (state_ (tasks (core s) t)) ≤ progress (state_ (tasks (core s') t)))%nat.
Proof. intros [? ? [before a rest after c c' new Hp|before stack after u q ts n _ _]|before stack after c u _]; cbn; [by eapply perform_frame|done..]. Qed.

Lemma reachable_predecessors s0 s t :
  reachable OnExecute IsExecutorThread s0 s → predecessors (tasks (core s) t) = predecessors (tasks (core s0) t).
Proof. induction 1 as [|s s' _ IH Hs]; [done|]. by rewrite <- IH, (proj1 (step_frame _ _ t Hs)). Qed.

Definition quiescent (s : System) : Prop := (∀ stack, stack ∈ threads s → stack = []) ∧ queue (core s) = [].

Lemma quiescent_actions s : quiescent s → concat (threads s) = [].
Proof.
  intros [H _]. induction (threads s) as [|stack l IH]; [done|]. cbn. rewrite (H stack) by (by left). cbn.
  apply IH. intros st Hst. apply H. by right.
Qed.

(** In a quiescent system a scheduled task is done; its predecessors by induction on the
    dependency order. *)
Lemma quiescent_done s (rank : nat → nat) :
  system_ok s → quiescent s → (∀ t p, p ∈ predecessors (tasks (core s) t) → (rank p < rank t)%nat) →
  ∀ t, scheduled (core s) t → state_ (tasks (core s) t) = kDone.
Proof.
  intros Hok Hq Hrank. pose proof (quiescent_actions s Hq) as Hacts. destruct Hq as [_ Hqueue].
  unfold system_ok in Hok. rewrite Hacts in Hok.
  assert (∀ n t, (rank t < n)%nat → scheduled (core s) t → state_ (tasks (core s) t) = kDone) as Hind; [|eauto].
  induction n as [|n IH]; intros t Ht Hs; [lia|].
  pose proof (inv_task _ _ Hok t) as Hl. unfold task_ok in Hl. rewrite !occ_nil, Hqueue, occ_nil in Hl.
  unfold scheduled in Hs. destruct (state_ (tasks (core s) t)) eqn:Es; cbn [progress] in *; try lia; [|done].
  exfalso. destruct (inv_requested _ _ Hok t Es) as [H|H]; [rewrite occ_nil in H; lia|].
  assert (length (filter (unfinished (core s)) (predecessors (tasks (core s) t))) = 0%nat) as H0; [|lia].
  apply none_unfinished_iff. intros p Hp. apply IH; [specialize (Hrank t p Hp); lia|]. destruct (H p Hp) as [|H']; [done|]. rewrite occ_nil in H'. lia.
Qed.

End Reachable.

(** ** A measure that every step of a worker decreases *)
Section Measure.
Context (OnExecute : nat → option error) (IsExecutorThread : nat → bool) (ids : list nat) (d e : nat → nat).

(** [d] and [e]: numbers of predecessors and successors. *)
Definition action_weight (a : action) : nat :=
  match a with
  | ScheduleCall _ | CountScheduled | CountFinished | SubmitCall _ => 1
  | CheckReady t => d t + 2
  | PushJob t => 3 * e t + 6
  | StartTask t => 3 * e t + 4
  | RunTask t => 3 * e t + 3
  | FinishTask t => 3 * e t + 2
  | DecrementSuccessor _ => 3
  | CheckScheduled _ => 2
  end.
Definition queued_weight (t : nat) : nat := 3 * e t + 5.
Definition state_weight (t : nat) (s : TaskState) : nat :=
  match s with kCreated => 3 * e t + d t + 10 | kScheduled => 3 * e t + 6 | _ => 0 end.

Definition measure (s : System) : nat :=
  sum_list_with (λ t, state_weight t (state_ (tasks (core s) t))) ids +
  sum_list_with action_weight (concat (threads s)) + sum_list_with queued_weight (queue (core s)).

Definition measurable (s : System) : Prop :=
  (∀ t, length (predecessors (tasks (core s) t)) = d t ∧ length (successors (tasks (core s) t)) = e t) ∧
  (∀ t p, p ∈ predecessors (tasks (core s) t) → p ∈ ids) ∧
  (∀ t, ScheduleCall t ∈ concat (threads s) ∨ scheduled (core s) t → t ∈ ids).

Lemma sum_with_const {X} (f : X → action) l k :
  (∀ x, action_weight (f x) = k) → sum_list_with action_weight (f <$> l) = (k * length l)%nat.
Proof. intros H. induction l as [|x l IH]; [cbn; lia|]. rewrite fmap_cons. cbn [sum_list_with length]. rewrite H, IH. lia. Qed.

Lemma progress_weight t s s' : (progress s ≤ progress s')%nat → (state_weight t s' ≤ state_weight t s)%nat.
Proof. destruct s, s'; cbn; lia. Qed.

(** A transition of a task in [ids] takes its weight; other tasks gain none. *)
Lemma state_weight_set c t s :
  (progress (state_ (tasks c t)) ≤ progress s)%nat →
  (sum_list_with (λ u, state_weight u (state_ (tasks (set_task t (with_state s (tasks c t)) c) u))) ids +
   (if decide (t ∈ ids) then state_weight t (state_ (tasks c t)) - state_weight t s else 0) ≤
   sum_list_with (λ u, state_weight u (state_ (tasks c u))) ids)%nat.
Proof.
  intros Hs. pose proof (progress_weight t _ _ Hs) as Hw. induction ids as [|u l IH]; cbn [sum_list_with].
  - rewrite decide_False by apply not_elem_of_nil. lia.
  - rewrite tasks_set. destruct (decide (u = t)) as [->|Hne]; cbn [with_state state_].
    + rewrite decide_True by (by left). destruct (decide (t ∈ l)); lia.
    + assert ((if decide (t ∈ u :: l) then state_weight t (state_ (tasks c t)) - state_weight t s else 0) =
        (if decide (t ∈ l) then state_weight t (state_ (tasks c t)) - state_weight t s else 0))%nat as ->; [|lia].
      destruct (decide (t ∈ l)); [by rewrite decide_True by (by right)|]. rewrite decide_False; [done|].
      by intros [->|]%elem_of_cons.
Qed.

Abbreviation states c := (sum_list_with (λ t, state_weight t (state_ (tasks c t))) ids).
Abbreviation weight l := (sum_list_with action_weight l).
Abbreviation queued c := (sum_list_with queued_weight (queue c)).

Lemma perform_decreases a c c' new :
  perform OnExecute a c = Ok (c', new) →
  (∀ t, length (predecessors (tasks c t)) = d t ∧ length (successors (tasks c t)) = e t) →
  (∀ t, a = ScheduleCall t → t ∈ ids) → (∀ t, scheduled c t → t ∈ ids) →
  (states c' + weight new + queued c' < states c + action_weight a + queued c)%nat.
Proof.
  intros H Hde Hids Hsub. unfold perform, Schedule, Schedule_ready, Submit, Execute_start, Execute_run, Execute_finish in H. destruct a as [t| |t|t|t|t|t|t|t|t|]; cbn [action_weight].
  - apply bind_ok in H as ([s b] & Hs & H). apply TryTransitionTo_progress in Hs as Hp. destruct Hp as [Hp Hb].
    destruct b; injection H as <- <-; [|cbn; lia]. destruct (Hb eq_refl) as [-> Hlt]. clear Hb.
    pose proof (state_weight_set c t kScheduled Hp) as Hw. rewrite decide_True in Hw by (by apply Hids).
    rewrite queue_set. cbn [sum_list_with action_weight].
    destruct (state_ (tasks c t)) eqn:Es; cbn [progress state_weight] in *; lia.
  - injection H as <- <-. cbn. lia.
  - destruct (IsReady (tasks c t)); injection H as <- <-; [cbn; lia|].
    rewrite (sum_with_const _ _ 1) by done. destruct (Hde t) as [-> _]. lia.
  - apply bind_ok in H as ([s b] & Hs & H). apply TryTransitionTo_progress in Hs as Hp. destruct Hp as [Hp Hb].
    destruct b; injection H as <- <-; [|cbn; lia]. destruct (Hb eq_refl) as [-> Hlt]. clear Hb.
    pose proof (state_weight_set c t kEnqueued Hp) as Hw. rewrite queue_set. cbn [sum_list_with action_weight].
    destruct (state_ (tasks c t)) eqn:Es; cbn [progress] in *; try lia; [cbn in Hs; discriminate Hs|].
    rewrite decide_True in Hw by (apply Hsub; unfold scheduled; rewrite Es; cbn; lia). cbn [state_weight] in *. lia.
  - injection H as <- <-. cbn [tasks queue sum_list_with]. rewrite sum_list_with_app. cbn. unfold queued_weight. lia.
  - apply bind_ok in H as ([s b] & Hs & H). injection H as <- <-. apply TryTransitionTo_progress in Hs as [Hp _].
    pose proof (state_weight_set c t s Hp) as Hw. rewrite queue_set. cbn [sum_list_with action_weight]. lia.
  - assert (∀ T, state_ T = state_ (tasks c t) → states (set_task t T c) = states c) as Hsame.
    { intros T HT. clear -HT. induction ids as [|u l IH]; cbn [sum_list_with]; [done|].
      rewrite IH, tasks_set. by destruct (decide (u = t)) as [->|]; rewrite ?HT. }
    destruct (OnExecute t) as [[]|]; try discriminate H; injection H as <- <-; rewrite ?Hsame, ?queue_set by done; cbn; lia.
  - apply bind_ok in H as ([s b] & Hs & H). injection H as <- <-. apply TryTransitionTo_progress in Hs as [Hp _].
    pose proof (state_weight_set c t s Hp) as Hw. rewrite queue_set, sum_list_with_app, (sum_with_const _ _ 3) by done.
    destruct (Hde t) as [_ ->]. cbn [sum_list_with action_weight]. lia.
  - apply OnTaskFinished_successor_ok in H as [-> ->]. rewrite queue_set.
    assert (states (set_task t (mkTask (state_ (tasks c t)) (pending_predecessors (tasks c t) - 1) (predecessors (tasks c t))
      (successors (tasks c t)) (exception_ptr (tasks c t))) c) = states c) as ->.
    { clear. induction ids as [|u l IH]; cbn [sum_list_with]; [done|]. rewrite IH, tasks_set.
      by destruct (decide (u = t)) as [->|]. }
    case_bool_decide; cbn; lia.
  - injection H as <- <-. destruct (IsScheduled (tasks c t)); cbn; lia.
  - injection H as <- <-. cbn. lia.
Qed.

(** Every step of a worker thread decreases the measure and keeps it applicable. *)
Lemma perform_measurable a c c' new :
  perform OnExecute a c = Ok (c', new) →
  (∀ t p, p ∈ predecessors (tasks c t) → p ∈ ids) →
  (∀ t, a = ScheduleCall t ∨ scheduled c t → t ∈ ids) →
  ∀ t, ScheduleCall t ∈ new ∨ scheduled c' t → t ∈ ids.
Proof.
  assert (∀ u s b k t, TryTransitionTo k (state_ (tasks c u)) = Ok (s, b) → (u ∈ ids) →
    (∀ t, scheduled c t → t ∈ ids) → scheduled (set_task u (with_state s (tasks c u)) c) t → t ∈ ids) as Hset.
  { intros u s b k t _ Hu Hc. unfold scheduled. rewrite tasks_set. destruct (decide (t = u)) as [->|]; auto. }
  assert (∀ u s b k, TryTransitionTo k (state_ (tasks c u)) = Ok (s, b) → k ≠ kScheduled → scheduled c u) as Hfrom.
  { unfold scheduled. intros u s b k H Hk. destruct k, (state_ (tasks c u)); cbn in *; try discriminate H; try lia. done. }
  unfold perform, Schedule, Schedule_ready, Submit, Execute_start, Execute_run, Execute_finish. intros H Hp Hids t. destruct a as [u| |u|u|u|u|u|u|u|u|].
  - apply bind_ok in H as ([s b] & Hs & H). destruct b; injection H as <- <-; intros [Ht|Ht].
    + by apply elem_of_cons in Ht as [|[|?%elem_of_nil]%elem_of_cons].
    + apply (Hset u s true kScheduled t Hs); auto.
    + by apply elem_of_nil in Ht.
    + auto.
  - injection H as <- <-. intros [?%elem_of_nil|Ht]; [done|]. auto.
  - destruct (IsReady (tasks c u)); injection H as <- <-; intros [Ht|Ht]; auto.
    + by apply list_elem_of_singleton in Ht.
    + apply list_elem_of_fmap in Ht as (p & [= <-] & Hin). by eapply Hp.
  - apply bind_ok in H as ([s b] & Hs & H). pose proof (Hfrom _ _ _ _ Hs ltac:(done)) as Hu.
    destruct b; injection H as <- <-; intros [Ht|Ht].
    + by apply list_elem_of_singleton in Ht.
    + apply (Hset u s true kEnqueued t Hs); auto.
    + by apply elem_of_nil in Ht.
    + auto.
  - injection H as <- <-. intros [?%elem_of_nil|Ht]; [done|]. auto.
  - apply bind_ok in H as ([s b] & Hs & H). pose proof (Hfrom _ _ _ _ Hs ltac:(done)) as Hu.
    injection H as <- <-. intros [Ht%list_elem_of_singleton|Ht]; [done|]. apply (Hset u s b kStarted t Hs); auto.
  - destruct (OnExecute u) as [[]|]; try discriminate H; injection H as <- <-; (intros [Ht%list_elem_of_singleton|Ht]; [done|]); auto.
    apply Hids. right. unfold scheduled in *. rewrite tasks_set in Ht. by destruct (decide (t = u)) as [->|].
  - apply bind_ok in H as ([s b] & Hs & H). pose proof (Hfrom _ _ _ _ Hs ltac:(done)) as Hu.
    injection H as <- <-. intros [Ht|Ht]; [|apply (Hset u s b kDone t Hs); auto].
    apply elem_of_app in Ht as [(p & Hf & _)%list_elem_of_fmap|Ht%list_elem_of_singleton]; [discriminate Hf|discriminate Ht].
  - apply OnTaskFinished_successor_ok in H as [-> ->]. intros [Ht|Ht].
    + case_bool_decide; [by apply list_elem_of_singleton in Ht|by apply elem_of_nil in Ht].
    + apply Hids. right. unfold scheduled in *. rewrite tasks_set in Ht. by destruct (decide (t = u)) as [->|].
  - injection H as <- <-. intros [Ht|Ht]; [|auto].
    destruct (IsScheduled _); [by apply list_elem_of_singleton in Ht|by apply elem_of_nil in Ht].
  - injection H as <- <-. intros [?%elem_of_nil|Ht]; [done|]. auto.
Qed.

Lemma work_step_decreases s s' :
  work_step OnExecute IsExecutorThread s s' → measurable s → measurable s' ∧ (measure s' < measure s)%nat.
Proof.
  intros [before a rest after c c' new Hperf|before stack after t q ts n Hl _] (Hde & Hp & Hids);
    unfold measurable, measure in *; cbn [threads core] in *; rewrite !concat_middle, ?sum_list_with_app in *;
    cbn [concat sum_list_with queue tasks] in *.
  - pose proof (perform_decreases a c c' new Hperf Hde) as Hlt. split.
    + split; [|split].
      * intros t. destruct (perform_frame OnExecute a c c' new t Hperf) as (-> & -> & _). apply Hde.
      * intros t p. destruct (perform_frame OnExecute a c c' new t Hperf) as (-> & _ & _). apply Hp.
      * intros t Ht. rewrite !elem_of_app in Ht. setoid_rewrite elem_of_app in Hids. setoid_rewrite elem_of_app in Hids.
        setoid_rewrite elem_of_cons in Hids.
        assert ((ScheduleCall t ∈ new ∨ scheduled c' t) ∨ ScheduleCall t ∈ concat before ∨ ScheduleCall t ∈ rest ∨ ScheduleCall t ∈ concat after)
          as [Hn|Hr] by tauto; [|apply Hids; tauto].
        eapply perform_measurable; [exact Hperf|exact Hp| |exact Hn].
        intros u [->|Hu]; apply Hids; tauto.
    + cbn [sum_list_with] in *.
      assert (states c' + sum_list_with action_weight new + queued c' < states c + action_weight a + queued c)%nat; [|lia].
      apply Hlt; intros t Ht; apply Hids; [left|by right]. subst a. rewrite !elem_of_app, elem_of_cons. tauto.
  - split.
    + split; [done|]. split; [done|]. intros u Hu. apply Hids. rewrite !elem_of_app, ?elem_of_cons in *. unfold scheduled in *. cbn in Hu |- *.
      destruct Hu as [[|[[?|]|]]|]; try tauto. discriminate.
    + unfold queued_weight. cbn [action_weight]. lia.
Qed.

Lemma work_steps_bounded k s s' :
  nsteps (work_step OnExecute IsExecutorThread) k s s' → measurable s → (k + measure s' ≤ measure s)%nat.
Proof.
  intros H. induction H as [s|k s1 s2 s3 Hs _ IH]; intros Hm; [lia|].
  destruct (work_step_decreases _ _ Hs Hm) as [Hm' Hlt]. specialize (IH Hm'). lia.
Qed.
End Measure.

Section Claims.
Context (OnExecute : nat → option error) (IsExecutorThread : nat → bool).

Lemma reachable_measurable edges n s :
  survives OnExecute → reachable OnExecute IsExecutorThread (initial edges n) s →
  ∃ ids d e, measurable ids d e s.
Proof.
  intros Hsurv. induction 1 as [|s s' Hr (ids & d & e & IH) Hs].
  - exists (fst <$> edges), (λ t, length (predecessors (tasks (link edges) t))), (λ t, length (successors (tasks (link edges) t))).
    destruct (link_ok edges) as ((_ & Hst & _) & Hpred). split; [|split]; cbn [initial threads core].
    + done.
    + intros t p Hp%Hpred. apply list_elem_of_fmap. by exists (p, t).
    + intros t [Ht|Ht]; exfalso; [|unfold scheduled in Ht; rewrite (proj1 (Hst t)) in Ht; cbn in Ht; lia].
      clear -Ht. induction n as [|n IH]; cbn in Ht; [by apply elem_of_nil in Ht|auto].
  - destruct Hs as [s s' Hs|before stack after c t Hl].
    + exists ids, d, e. by eapply work_step_decreases.
    + exists (t :: ids), d, e. destruct IH as (Hde & Hp & Hids). split; [done|]. split.
      * intros u p Hu. right. by eapply Hp.
      * intros u. cbn [threads core] in *. rewrite concat_middle in Hids |- *. intros Hu. rewrite elem_of_cons.
        destruct (decide (u = t)) as [->|Hne]; [by left|right]. apply Hids.
        rewrite !elem_of_app in Hu |- *. rewrite elem_of_cons in Hu.
        destruct Hu as [[|[[[= ->]|]|]]|]; tauto.
Qed.

Definition executes (s : System) : Prop := ∃ i, (i < length (threads s))%nat ∧ IsExecutorThread i = true.

Lemma work_step_threads s s' : work_step OnExecute IsExecutorThread s s' → length (threads s') = length (threads s).
Proof. intros [before a rest after c c' new _|before stack after t q ts n _ _]; cbn; by rewrite !length_app. Qed.

(** A system that is not quiescent has a thread that can make a step. *)
Lemma work_continues s :
  survives OnExecute → system_ok s → executes s → quiescent s ∨ ∃ s', work_step OnExecute IsExecutorThread s s'.
Proof.
  intros Hsurv Hok Hn. destruct s as [ths [ts q m]]. unfold executes in Hn. cbn [threads] in Hn.
  destruct (decide (Forall (λ st, st = []) ths)) as [Hidle|Hbusy].
  - destruct q as [|t q]; [left; split; [by apply Forall_forall|done]|right].
    destruct Hn as (i & Hi & Hexec). destruct (lookup_lt_is_Some_2 ths i Hi) as [stack Hstack].
    rewrite Forall_lookup in Hidle. pose proof (Hidle i stack Hstack) as ->.
    apply list_elem_of_split_length in Hstack as (before & after & -> & ->).
    exists (mkSystem (before ++ [StartTask t] :: after) (mkCore ts q m)). by apply work_pop.
  - right. apply not_Forall_Exists, Exists_exists in Hbusy as (stack & Hin & Hne); [|apply _].
    apply list_elem_of_split in Hin as (before & after & ->). destruct stack as [|a rest]; [by destruct Hne|].
    destruct (top_performs OnExecute Hsurv _ before a rest after Hok eq_refl) as (c' & new & Hp).
    eexists. by apply work_perform.
Qed.

Lemma work_step_step s s' : rtc (work_step OnExecute IsExecutorThread) s s' → ∀ s0, reachable OnExecute IsExecutorThread s0 s → reachable OnExecute IsExecutorThread s0 s'.
Proof. induction 1 as [|s s1 s2 Hs _ IH]; [done|]. intros s0 H0. apply IH. eapply reachable_step; [done|by constructor]. Qed.

Lemma work_to_quiescent ids d e s :
  survives OnExecute → system_ok s → executes s → measurable ids d e s →
  ∃ s', rtc (work_step OnExecute IsExecutorThread) s s' ∧ quiescent s'.
Proof.
  intros Hsurv. remember (measure ids d e s) as m eqn:Em. revert s Em.
  induction m as [m IH] using lt_wf_ind. intros s -> Hok Hn Hm.
  destruct (work_continues s Hsurv Hok Hn) as [Hq|[s1 H1]]; [by exists s|].
  destruct (work_step_decreases OnExecute IsExecutorThread ids d e s s1 H1 Hm) as [Hm1 Hlt].
  destruct (IH _ Hlt s1 eq_refl) as (s' & Hs' & Hq); [|unfold executes; by rewrite (work_step_threads s s1 H1)|done|].
  - eapply step_ok; [done|by constructor|done].
  - exists s'. split; [by eapply rtc_l|done].
Qed.
End Claims.

(** ** Concrete schedules *)
Inductive decision : Set :=
  | Work (thread : nat)             (* perform the thread's next atomic action *)
  | PopJob (thread : nat)           (* take the next job off the queue *)
  | CallSchedule (thread t : nat).  (* the thread calls Schedule *)

Definition decide_step (OnExecute : nat → option error) (IsExecutorThread : nat → bool) (dec : decision) (s : System) : option System :=
  match dec with
  | Work i =>
      match threads s !! i with
      | Some (a :: rest) =>
          match perform OnExecute a (core s) with
          | Ok (c', new) => Some (mkSystem (<[i := new ++ rest]> (threads s)) c')
          | Err _ => None
          end
      | _ => None
      end
  | PopJob i =>
      match threads s !! i, queue (core s) with
      | Some stack, t :: q =>
          if at_liberty stack && IsExecutorThread i
          then Some (mkSystem (<[i := StartTask t :: stack]> (threads s)) (mkCore (tasks (core s)) q (num_scheduled_tasks (core s))))
          else None
      | _, _ => None
      end
  | CallSchedule i t =>
      match threads s !! i with
      | Some stack => if at_liberty stack then Some (mkSystem (<[i := ScheduleCall t :: stack]> (threads s)) (core s)) else None
      | None => None
      end
  end.

Fixpoint execute (OnExecute : nat → option error) (IsExecutorThread : nat → bool) (decs : list decision) (s : System) : option System :=
  match decs with
  | [] => Some s
  | dec :: decs => match decide_step OnExecute IsExecutorThread dec s with Some s' => execute OnExecute IsExecutorThread decs s' | None => None end
  end.

(** A thread's decisions until it is idle again. *)
Definition works (thread n : nat) : list decision := replicate n (Work thread).

Lemma decide_step_step OnExecute IsExecutorThread dec s s' : decide_step OnExecute IsExecutorThread dec s = Some s' → step OnExecute IsExecutorThread s s'.
Proof.
  destruct s as [ths [ts q n]], dec as [i|i|i t]; cbn; intros H.
  all: destruct (ths !! i) as [stack|] eqn:Ei; [|discriminate H]; pose proof Ei as Es;
    apply list_elem_of_split_length in Ei as (before & after & -> & ->).
  - destruct stack as [|a rest]; [discriminate H|]. destruct (perform OnExecute a _) as [[c' new]|] eqn:Ep; [|discriminate H].
    injection H as <-. rewrite insert_app_r_alt, Nat.sub_diag by done. constructor. by constructor.
  - destruct q as [|t q]; [discriminate H|]. destruct (at_liberty stack && IsExecutorThread (length before)) eqn:El; [|discriminate H]. apply andb_prop in El as [El Ee].
    injection H as <-. rewrite insert_app_r_alt, Nat.sub_diag by done. constructor. by constructor.
  - destruct (at_liberty stack) eqn:El; [|discriminate H]. injection H as <-.
    rewrite insert_app_r_alt, Nat.sub_diag by done. by constructor.
Qed.

Lemma execute_reachable OnExecute IsExecutorThread decs s0 s s' :
  reachable OnExecute IsExecutorThread s0 s → execute OnExecute IsExecutorThread decs s = Some s' → reachable OnExecute IsExecutorThread s0 s'.
Proof.
  revert s. induction decs as [|dec decs IH]; cbn; intros s Hr H; [by injection H as <-|].
  destruct (decide_step OnExecute IsExecutorThread dec s) as [s1|] eqn:E; [|discriminate H].
  apply (IH s1); [|done]. eapply reachable_step; [done|by eapply decide_step_step].
Qed.

(** ** Invariants of the pending actions and the task heap *)
Section Induction.
Context (OnExecute : nat → option error) (IsExecutorThread : nat → bool) (Hsurvives : survives OnExecute) (P : list action → Core → Prop).
Hypothesis P_perform : ∀ A a B c c' new,
  invariant (A ++ a :: B) c → perform OnExecute a c = Ok (c', new) → P (A ++ a :: B) c → P (A ++ new ++ B) c'.
Hypothesis P_pop : ∀ A B ts t q n, P (A ++ B) (mkCore ts (t :: q) n) → P (A ++ StartTask t :: B) (mkCore ts q n).
Hypothesis P_call : ∀ A B t c, P (A ++ B) c → P (A ++ ScheduleCall t :: B) c.

Lemma reachable_acts s0 s :
  system_ok s0 → P (concat (threads s0)) (core s0) → reachable OnExecute IsExecutorThread s0 s → P (concat (threads s)) (core s).
Proof.
  intros H0 HP0. induction 1 as [|s s' Hr IH Hs]; [done|].
  pose proof (reachable_ok OnExecute IsExecutorThread Hsurvives s0 s H0 Hr) as Hok. unfold system_ok in Hok.
  destruct Hs as [? ? [before a rest after c c' new Hp|before stack after t q ts n _ _]|before stack after c t _];
    cbn [threads core] in *; rewrite concat_middle in *.
  - rewrite <- app_assoc. rewrite <- app_comm_cons in *. by apply (P_perform _ a _ c).
  - by apply P_pop.
  - by apply P_call.
Qed.
End Induction.

(** A task is finished once its [OnExecute] has returned or thrown. *)
Definition finished (acts : list action) (c : Core) (t : nat) : Prop := FinishTask t ∈ acts ∨ state_ (tasks c t) = kDone.
Definition exceptions_ok (OnExecute : nat → option error) (acts : list action) (c : Core) : Prop :=
  ∀ t, (finished acts c t → exception_ptr (tasks c t) = OnExecute t) ∧ (¬ finished acts c t → exception_ptr (tasks c t) = None).

Lemma TryTransitionTo_done k s s' b :
  TryTransitionTo k s = Ok (s', b) → (s' = kDone ↔ k = kDone ∨ s = kDone).
Proof. destruct k, s; cbn; intros H; try discriminate H; injection H as <- <-; intuition congruence. Qed.

(** Membership in a literal list of pending actions. *)
Ltac pending :=
  repeat match goal with
  | |- ¬ (_ ∈ _) => intros ?
  | H : _ ∈ _ :: _ |- _ => apply elem_of_cons in H as [H|H]
  | H : _ ∈ _ ++ _ |- _ => apply elem_of_app in H as [H|H]
  | H : _ ∈ [] |- _ => by apply elem_of_nil in H
  | H : _ ∈ _ <$> _ |- _ => apply list_elem_of_fmap in H as (? & H & _)
  | H : _ ∈ (if ?b then _ else _) |- _ => destruct b
  end; try done.

(** Only [RunTask] writes the exception, only [FinishTask] sets [kDone]. *)
Lemma perform_effect OnExecute a c c' new t :
  perform OnExecute a c = Ok (c', new) → (∀ u, a ≠ RunTask u) →
  exception_ptr (tasks c' t) = exception_ptr (tasks c t) ∧ ¬ (FinishTask t ∈ new) ∧
  (state_ (tasks c' t) = kDone ↔ a = FinishTask t ∨ state_ (tasks c t) = kDone).
Proof.
  assert (∀ u s b k, TryTransitionTo k (state_ (tasks c u)) = Ok (s, b) →
    exception_ptr (tasks (set_task u (with_state s (tasks c u)) c) t) = exception_ptr (tasks c t) ∧
    (state_ (tasks (set_task u (with_state s (tasks c u)) c) t) = kDone ↔ (u = t ∧ k = kDone) ∨ state_ (tasks c t) = kDone)) as Hset.
  { intros u s b k H%TryTransitionTo_done. rewrite tasks_set. destruct (decide (t = u)) as [->|]; cbn; intuition congruence. }
  assert (∀ u T, state_ T = state_ (tasks c u) → exception_ptr T = exception_ptr (tasks c u) →
    exception_ptr (tasks (set_task u T c) t) = exception_ptr (tasks c t) ∧ state_ (tasks (set_task u T c) t) = state_ (tasks c t)) as Hsame.
  { intros u T HT HE. rewrite tasks_set. by destruct (decide (t = u)) as [->|]. }
  intros H Hrun. unfold perform, Schedule, Schedule_ready, Submit, Execute_start, Execute_run, Execute_finish in H.
  assert (∀ k u (dn : bool) s b, TryTransitionTo k (state_ (tasks c u)) = Ok (s, b) → k ≠ kDone → (∀ v, a ≠ FinishTask v) →
    let c1 := set_task u (with_state s (tasks c u)) c in
    exception_ptr (tasks c1 t) = exception_ptr (tasks c t) ∧ (state_ (tasks c1 t) = kDone ↔ a = FinishTask t ∨ state_ (tasks c t) = kDone)) as Hmove.
  { intros k u _ s b Hs%Hset Hk Ha c1. subst c1. destruct Hs as [-> ->]. intuition (subst; try congruence). by destruct (Ha t). }
  assert ((∀ v, a ≠ FinishTask v) → (state_ (tasks c t) = kDone ↔ a = FinishTask t ∨ state_ (tasks c t) = kDone)) as Hid.
  { intros Ha. intuition. by destruct (Ha t). }
  destruct a as [u| |u|u|u|u|u|u|u|u|].
  - apply bind_ok in H as ([s b] & Hs & H). apply (Hmove _ _ true) in Hs as [? ?]; [|done..].
    destruct b; injection H as <- <-; cbn [fst]; (split; [done|]; split; [pending|auto]).
  - injection H as <- <-. split; [done|]. split; [pending|auto].
  - destruct (IsReady (tasks c u)); injection H as <- <-; (split; [done|]; split; [pending|auto]).
  - apply bind_ok in H as ([s b] & Hs & H). apply (Hmove _ _ true) in Hs as [? ?]; [|done..].
    destruct b; injection H as <- <-; cbn [fst]; (split; [done|]; split; [pending|auto]).
  - injection H as <- <-. split; [done|]. split; [pending|auto].
  - apply bind_ok in H as ([s b] & Hs & H). apply (Hmove _ _ true) in Hs as [? ?]; [|done..].
    injection H as <- <-; cbn [fst]. split; [done|]. split; [pending|auto].
  - by destruct (Hrun u).
  - apply bind_ok in H as ([s b] & Hs & H). apply Hset in Hs as [HE HD]. injection H as <- <-; cbn [fst]. split; [done|].
    split; [pending|rewrite HD; intuition congruence].
  - apply OnTaskFinished_successor_ok in H as [-> ->].
    destruct (Hsame u (mkTask (state_ (tasks c u)) (pending_predecessors (tasks c u) - 1) (predecessors (tasks c u))
      (successors (tasks c u)) (exception_ptr (tasks c u)))) as [-> ->]; [done..|]. split; [done|]. split; [pending|auto].
  - injection H as <- <-. split; [done|]. split; [pending|auto].
  - injection H as <- <-. split; [done|]. split; [pending|auto].
Qed.

Lemma exceptions_frame OnExecute acts acts' c c' :
  (∀ t, finished acts' c' t ↔ finished acts c t) → (∀ t, exception_ptr (tasks c' t) = exception_ptr (tasks c t)) →
  exceptions_ok OnExecute acts c → exceptions_ok OnExecute acts' c'.
Proof. intros Hf He H t. by rewrite Hf, He. Qed.

Lemma exceptions_perform OnExecute A a B c c' new :
  invariant (A ++ a :: B) c → perform OnExecute a c = Ok (c', new) →
  exceptions_ok OnExecute (A ++ a :: B) c → exceptions_ok OnExecute (A ++ new ++ B) c'.
Proof.
  intros Hinv Hp Hok.
  assert ((∃ u, a = RunTask u) ∨ ∀ u, a ≠ RunTask u) as [[u ->]|Hne] by (destruct a; eauto).
  - pose proof (inv_task _ _ Hinv u) as Hl. unfold task_ok in Hl. rewrite !occ_app, !occ_cons in Hl.
    assert (¬ finished (A ++ RunTask u :: B) c u) as Hnot.
    { intros [Hin|Hd]; [|rewrite Hd in Hl; decide_all; cbn in Hl; lia]. apply occ_elem in Hin. rewrite occ_app, occ_cons in Hin.
      decide_all; lia. }
    pose proof (proj2 (Hok u) Hnot) as HNone. unfold perform, Schedule, Schedule_ready, Submit, Execute_start, Execute_run, Execute_finish in Hp.
    assert (new = [FinishTask u] ∧ exception_ptr (tasks c' u) = OnExecute u ∧ ∀ t, t ≠ u → tasks c' t = tasks c t) as (-> & He & Hother).
    { destruct (OnExecute u) as [[]|] eqn:E; try discriminate Hp; injection Hp as <- <-.
      - rewrite tasks_set, decide_True by done. split; [done|]. split; [done|]. intros t Ht. by rewrite tasks_set, decide_False.
      - by rewrite HNone. }
    intros t. destruct (decide (t = u)) as [->|Ht].
    + split; [done|]. intros []. left. rewrite !elem_of_app, elem_of_cons. auto.
    + destruct (Hok t) as [H1 H2]. unfold finished in *. rewrite Hother by done. split; intros Hx; [apply H1|apply H2].
      * destruct Hx as [Hx|]; [left|by right]. rewrite !elem_of_app, !elem_of_cons, ?elem_of_nil in *. intuition congruence.
      * intros Hy. apply Hx. destruct Hy as [Hy|]; [left|by right]. rewrite !elem_of_app, !elem_of_cons, ?elem_of_nil in *. intuition congruence.
  - revert Hok. apply exceptions_frame; intros t; destruct (perform_effect OnExecute a c c' new t Hp Hne) as (He & Hn & Hd); [|done].
    unfold finished. rewrite Hd, !elem_of_app, elem_of_cons. intuition congruence.
Qed.

Lemma link_exception edges t : exception_ptr (tasks (link edges) t) = None.
Proof.
  unfold link. assert (exception_ptr (tasks (mkCore (λ _, new_task) [] 0) t) = None) as H by done. revert H.
  generalize (mkCore (λ _, new_task) [] 0). induction edges as [|e edges IH]; intros c Hc; [done|]. cbn [foldl]. apply IH.
  unfold SetAsPredecessorOf. case_bool_decide; [done|]. rewrite tasks_set. destruct (decide (t = e.2)) as [->|]; cbn [exception_ptr];
    rewrite tasks_set; destruct (decide _); cbn [exception_ptr]; congruence.
Qed.

Lemma exceptions_reachable OnExecute IsExecutorThread edges n s :
  survives OnExecute → reachable OnExecute IsExecutorThread (initial edges n) s → exceptions_ok OnExecute (concat (threads s)) (core s).
Proof.
  intros Hs. apply reachable_acts; [done| | | |apply initial_ok|].
  - apply exceptions_perform.
  - intros A B ts t q m. apply exceptions_frame; [|done]. intros u. unfold finished. cbn [tasks]. rewrite !elem_of_app, elem_of_cons. intuition congruence.
  - intros A B t c. apply exceptions_frame; [|done]. intros u. unfold finished. rewrite !elem_of_app, elem_of_cons. intuition congruence.
  - destruct (link_ok edges) as ((_ & Hst & _) & _). intros t. cbn [initial threads core].
    split; [|by rewrite link_exception]. intros [Ht|Ht]; [|by rewrite (proj1 (Hst t)) in Ht].
    exfalso. clear -Ht. induction n as [|n IH]; cbn in Ht; [by apply elem_of_nil in Ht|auto].
Qed.

(** ** The number of scheduled tasks *)
(** [L] lists the scheduled tasks; the counter is the number of unfinished ones, up to the
    increments and decrements still to be performed, modulo 2^64. *)
Record counted (L : list nat) (acts : list action) (c : Core) : Prop := {
  counted_nodup : NoDup L;
  counted_scheduled t : scheduled c t ↔ t ∈ L;
  counted_range : 0 ≤ num_scheduled_tasks c < 2 ^ 64;
  counted_sum : (num_scheduled_tasks c + Z.of_nat (occ CountScheduled acts)) mod 2 ^ 64 =
    Z.of_nat (length (filter (unfinished c) L) + occ CountFinished acts) mod 2 ^ 64;
  counted_bound : (length (filter (unfinished c) L) + occ CountFinished acts ≤ length L)%nat }.

Lemma filter_unfinished_ext c c' (L : list nat) :
  (∀ t, state_ (tasks c' t) = kDone ↔ state_ (tasks c t) = kDone) → filter (unfinished c') L = filter (unfinished c) L.
Proof.
  intros H. apply list_filter_iff. intros t. unfold unfinished, IsDone. specialize (H t).
  assert (bool_decide (state_ (tasks c' t) = kDone) = bool_decide (state_ (tasks c t) = kDone)) as ->; [|done].
  by apply bool_decide_ext.
Qed.

Lemma counted_frame L acts acts' c c' :
  (∀ t, scheduled c' t ↔ scheduled c t) → (∀ t, state_ (tasks c' t) = kDone ↔ state_ (tasks c t) = kDone) →
  num_scheduled_tasks c' = num_scheduled_tasks c →
  occ CountScheduled acts' = occ CountScheduled acts → occ CountFinished acts' = occ CountFinished acts →
  counted L acts c → counted L acts' c'.
Proof.
  intros Hs Hd Hn H1 H2 [Hnd Hsch Hr Hsum Hb]. split; rewrite ?Hn, ?H1, ?H2, ?(filter_unfinished_ext c c' L Hd); try done.
  intros t. by rewrite Hs.
Qed.

(** The actions that neither schedule nor finish a task nor count. *)
Definition silent (a : action) : Prop :=
  match a with ScheduleCall _ | CountScheduled | FinishTask _ | CountFinished => False | _ => True end.

Lemma silent_effect OnExecute a c c' new :
  perform OnExecute a c = Ok (c', new) → silent a →
  (∀ t, scheduled c' t ↔ scheduled c t) ∧ (∀ t, state_ (tasks c' t) = kDone ↔ state_ (tasks c t) = kDone) ∧
  num_scheduled_tasks c' = num_scheduled_tasks c ∧ occ CountScheduled new = 0%nat ∧ occ CountFinished new = 0%nat.
Proof.
  assert (∀ k u s b, k = kEnqueued ∨ k = kStarted → TryTransitionTo k (state_ (tasks c u)) = Ok (s, b) →
    let c1 := set_task u (with_state s (tasks c u)) c in
    (∀ t, scheduled c1 t ↔ scheduled c t) ∧ (∀ t, state_ (tasks c1 t) = kDone ↔ state_ (tasks c t) = kDone)) as Hmove.
  { intros k u s b Hk H c1. subst c1. split; intros t; unfold scheduled; rewrite tasks_set;
      (destruct (decide (t = u)) as [->|]; [cbn [with_state state_]|done]);
      destruct Hk as [-> | ->], (state_ (tasks c u)); cbn in H; try discriminate H; injection H as <- <-; cbn [progress]; intuition (try lia; congruence). }
  assert (∀ u T, state_ T = state_ (tasks c u) → let c1 := set_task u T c in
    (∀ t, scheduled c1 t ↔ scheduled c t) ∧ (∀ t, state_ (tasks c1 t) = kDone ↔ state_ (tasks c t) = kDone)) as Hsame.
  { intros u T H c1. subst c1. split; intros t; unfold scheduled; rewrite tasks_set; by destruct (decide (t = u)) as [->|]; rewrite ?H. }
  unfold perform, Schedule, Schedule_ready, Submit, Execute_start, Execute_run, Execute_finish. intros H Hs. destruct a as [u| |u|u|u|u|u|u|u|u|]; try done.
  - destruct (IsReady (tasks c u)); injection H as <- <-; [done|]. repeat split; try done; by apply occ_fmap_ne.
  - apply bind_ok in H as ([s b] & Htr & H). destruct (Hmove kEnqueued u s b) as [? ?]; [auto|done|]. destruct b; by injection H as <- <-.
  - by injection H as <- <-.
  - apply bind_ok in H as ([s b] & Htr & H). destruct (Hmove kStarted u s b) as [? ?]; [auto|done|]. by injection H as <- <-.
  - destruct (OnExecute u) as [[]|]; try discriminate H; injection H as <- <-; [|done].
    edestruct (Hsame u) as [? ?]; [|split; [eassumption|by split]]. done.
  - apply OnTaskFinished_successor_ok in H as [-> ->].
    edestruct (Hsame u) as [? ?]; [|split; [eassumption|split; [eassumption|]]]; [done|]. by case_bool_decide.
  - injection H as <- <-. by destruct (IsScheduled (tasks c u)).
Qed.

Lemma counted_perform OnExecute A a B c c' new :
  invariant (A ++ a :: B) c → perform OnExecute a c = Ok (c', new) →
  (∃ L, counted L (A ++ a :: B) c) → ∃ L, counted L (A ++ new ++ B) c'.
Proof.
  intros Hinv Hp [L HL].
  assert (silent a ∨ ∃ t, a = ScheduleCall t ∨ a = CountScheduled ∨ a = FinishTask t ∨ a = CountFinished) as [Hs|[t Ha]].
  { destruct a as [t| |t|t|t|t|t|t|t|t|]; cbn; try (by left); right; first [exists t; by auto|exists 0%nat; by auto]. }
  { destruct (silent_effect OnExecute a c c' new Hp Hs) as (? & ? & ? & H1 & H2). exists L. revert HL.
    apply counted_frame; try done; rewrite !occ_app, ?H1, ?H2, occ_cons; decide_all; done. }
  destruct Ha as [-> |[-> |[-> | ->]]]; unfold perform, Schedule, Schedule_ready, Submit, Execute_start, Execute_run, Execute_finish in Hp.
  - apply bind_ok in Hp as ([s b] & Hs & H). destruct b; injection H as <- <-; cbn [fst].
    + apply TryTransitionTo_progress in Hs as Hpr. destruct Hpr as [_ Hb]. destruct (Hb eq_refl) as [-> Hlt].
      destruct (state_ (tasks c t)) eqn:Es; cbn in Hlt; try lia.
      assert (¬ t ∈ L) as Hnew. { rewrite <- (counted_scheduled _ _ _ HL). unfold scheduled. rewrite Es. cbn. lia. }
      assert (∀ u, state_ (tasks (set_task t (with_state kScheduled (tasks c t)) c) u) = kDone ↔ state_ (tasks c u) = kDone) as Hd.
      { intros u. rewrite tasks_set. destruct (decide (u = t)) as [->|]; [|done]. rewrite Es. done. }
      exists (t :: L). destruct HL as [Hnd Hsch Hr Hsum Hbd]. split; [by constructor| |done| |].
      * intros u. unfold scheduled. rewrite tasks_set, elem_of_cons, <- Hsch. unfold scheduled.
        destruct (decide (u = t)) as [->|]; cbn; intuition lia.
      * cbn [num_scheduled_tasks set_task]. rewrite (filter_unfinished_ext c), filter_cons_True by (try done; unfold unfinished, IsDone; by rewrite Es).
        rewrite !occ_app, !occ_cons in *. decide_all. cbn [length] in *. rewrite ?occ_nil in *.
        replace (num_scheduled_tasks c + _) with ((num_scheduled_tasks c + Z.of_nat (occ CountScheduled A + (0 + occ CountScheduled B))) + 1) by lia.
        rewrite <- Z.add_mod_idemp_l, Hsum, Z.add_mod_idemp_l by lia. f_equal. lia.
      * rewrite (filter_unfinished_ext c), filter_cons_True by (try done; unfold unfinished, IsDone; by rewrite Es).
        rewrite !occ_app, !occ_cons in *. decide_all. cbn [length] in *. rewrite ?occ_nil in *. lia.
    + exists L. revert HL. apply counted_frame; try done; rewrite !occ_app, !occ_cons; decide_all; done.
  - injection Hp as <- <-. exists L. destruct HL as [Hnd Hsch Hr Hsum Hbd]. split; [done|done| | |];
      cbn [num_scheduled_tasks]; unfold wrap_uint64; [apply Z.mod_pos_bound; lia| |].
    + rewrite Z.add_mod_idemp_l by lia. change (filter (unfinished _) L) with (filter (unfinished c) L).
      rewrite !occ_app, !occ_cons in *. decide_all. rewrite ?occ_nil in *.
      transitivity ((num_scheduled_tasks c + Z.of_nat (occ CountScheduled A + (1 + occ CountScheduled B))) mod 2 ^ 64); [f_equal; lia|].
      exact Hsum.
    + change (filter (unfinished _) L) with (filter (unfinished c) L). rewrite !occ_app, !occ_cons in *. decide_all. rewrite ?occ_nil in *. lia.
  - pose proof (inv_task _ _ Hinv t) as Hl. unfold task_ok in Hl.
    assert (state_ (tasks c t) = kStarted) as Es.
    { rewrite !occ_app, !occ_cons in Hl. decide_all. destruct (state_ (tasks c t)); cbn [progress] in Hl; lia || done. }
    rewrite Es in Hp. injection Hp as <- <-. exists L. destruct HL as [Hnd Hsch Hr Hsum Hbd].
    assert (t ∈ L) as Hin. { rewrite <- Hsch. unfold scheduled. rewrite Es. cbn. lia. }
    pose proof (filter_done OnExecute c t L Hnd) as Hf. rewrite decide_True in Hf by done. unfold unfinished at 1, IsDone in Hf. rewrite Es in Hf. specialize (Hf eq_refl).
    split; [done| |done| |].
    + intros u. rewrite <- Hsch. unfold scheduled. rewrite tasks_set. destruct (decide (u = t)) as [->|]; [|done]. rewrite Es. cbn. lia.
    + cbn [num_scheduled_tasks set_task]. rewrite !occ_app, !occ_cons in *. rewrite !occ_fmap_ne by done. decide_all. rewrite ?occ_nil in *.
      etransitivity; [apply Hsum|]. f_equal. lia.
    + rewrite !occ_app, !occ_cons in *. rewrite !occ_fmap_ne by done. decide_all. rewrite ?occ_nil in *. cbn [fst]. lia.
  - injection Hp as <- <-. exists L. destruct HL as [Hnd Hsch Hr Hsum Hbd]. split; [done|done| | |];
      cbn [num_scheduled_tasks]; unfold wrap_uint64; [apply Z.mod_pos_bound; lia| |].
    + rewrite Z.add_mod_idemp_l by lia. change (filter (unfinished _) L) with (filter (unfinished c) L).
      rewrite !occ_app, !occ_cons in *. decide_all. rewrite ?occ_nil in *.
      replace (num_scheduled_tasks c - 1 + _) with (num_scheduled_tasks c + Z.of_nat (occ CountScheduled A + (0 + occ CountScheduled B)) + (-1)) by lia.
      rewrite <- Z.add_mod_idemp_l, Hsum, Z.add_mod_idemp_l by lia. f_equal. lia.
    + change (filter (unfinished _) L) with (filter (unfinished c) L). rewrite !occ_app, !occ_cons in *. decide_all. rewrite ?occ_nil in *. lia.
Qed.

Lemma counted_reachable OnExecute IsExecutorThread edges n s :
  survives OnExecute → reachable OnExecute IsExecutorThread (initial edges n) s → ∃ L, counted L (concat (threads s)) (core s).
Proof.
  intros Hs. apply (reachable_acts OnExecute IsExecutorThread Hs (λ acts c, ∃ L, counted L acts c)).
  - intros A a B c c' new. apply counted_perform.
  - intros A B ts t q m [L HL]. exists L. revert HL. apply counted_frame; try done; rewrite !occ_app, occ_cons; decide_all; done.
  - intros A B t c [L HL]. exists L. revert HL. apply counted_frame; try done; rewrite !occ_app, occ_cons; decide_all; done.
  - apply initial_ok.
  - exists []. destruct (link_ok edges) as ((_ & Hst & _ & Hn) & _). cbn [initial threads core].
    assert (concat (replicate n []) = ([] : list action)) as -> by (induction n; done).
    split; rewrite ?Hn; [constructor| |lia|done|done]. intros t. unfold scheduled. rewrite (proj1 (Hst t)), elem_of_nil. cbn. lia.
Qed.

(** ** Waiting *)
(** [WaitForTasks] in a state that no longer changes: it keeps waiting, returns, or rethrows. *)
Inductive wait_outcome : Set := Blocked | Returned | Raised (e : error).

Fixpoint join_all (ts : list nat) (c : Core) : wait_outcome :=
  match ts with
  | [] => Returned
  | t :: ts =>
      if IsDone (tasks c t)
      then match exception_ptr (tasks c t) with Some e => Raised e | None => join_all ts c end
      else Blocked
  end.

Definition WaitForTasks (executor_thread : bool) (ts : list nat) (c : Core) : wait_outcome :=
  if executor_thread then if forallb (λ t, IsDone (tasks c t)) ts then Returned else Blocked else join_all ts c.

(** ** Claims *)
Section Claims.
Context (OnExecute : nat → option error) (IsExecutorThread : nat → bool).
Hypothesis Hsurvives : survives OnExecute.

Lemma reachable_edges edges n s p t :
  reachable OnExecute IsExecutorThread (initial edges n) s → p ∈ predecessors (tasks (core s) t) ↔ (p, t) ∈ edges.
Proof.
  intros Hr. rewrite (reachable_predecessors OnExecute IsExecutorThread _ s t Hr). apply link_ok.
Qed.

(** A task that is ready to run has no unfinished predecessor. *)
Lemma started_predecessors edges n s p t :
  reachable OnExecute IsExecutorThread (initial edges n) s → (p, t) ∈ edges →
  (2 ≤ progress (state_ (tasks (core s) t)))%nat → state_ (tasks (core s) p) = kDone.
Proof.
  intros Hr He Ht. pose proof (reachable_ok OnExecute IsExecutorThread Hsurvives _ s (initial_ok edges n) Hr) as Hok.
  pose proof (inv_task _ _ Hok t) as Hl. unfold task_ok in Hl.
  apply (none_unfinished (core s) (predecessors (tasks (core s) t))); [lia|]. by eapply reachable_edges.
Qed.

Lemma single_execution edges n s t :
  reachable OnExecute IsExecutorThread (initial edges n) s →
  let acts := concat (threads s) in
  (occ (PushJob t) acts + occ t (queue (core s)) + occ (StartTask t) acts + occ (RunTask t) acts + occ (FinishTask t) acts ≤
   if IsDone (tasks (core s) t) then 0 else 1)%nat.
Proof.
  intros Hr. cbv zeta. pose proof (reachable_ok OnExecute IsExecutorThread Hsurvives _ s (initial_ok edges n) Hr) as Hok.
  pose proof (inv_task _ _ Hok t) as Hl. unfold task_ok in Hl. unfold IsDone. case_bool_decide as E; [rewrite E in Hl; cbn in Hl; lia|].
  destruct (state_ (tasks (core s) t)); cbn [progress] in Hl; lia || done.
Qed.

End Claims.

(** C4: Safety under every interleaving: a task that is enqueued, started or done has only
    done predecessors; a task is at most once on its way through the job queue and
    [Execute], and never again once it is done, so [OnExecute] runs at most once; and no
    action a thread is about to perform fails an assertion. *)
Theorem scheduler_safe (OnExecute : nat → option error) (IsExecutorThread : nat → bool) (edges : list (nat * nat)) (n : nat) (s : System) :
  survives OnExecute → reachable OnExecute IsExecutorThread (initial edges n) s →
  (∀ p t, (p, t) ∈ edges → (2 ≤ progress (state_ (tasks (core s) t)))%nat → state_ (tasks (core s) p) = kDone) ∧
  (∀ t, let acts := concat (threads s) in
    (occ (PushJob t) acts + occ t (queue (core s)) + occ (StartTask t) acts + occ (RunTask t) acts + occ (FinishTask t) acts ≤
     if IsDone (tasks (core s) t) then 0 else 1)%nat) ∧
  (∀ before a rest after, threads s = before ++ (a :: rest) :: after → ∃ c new, perform OnExecute a (core s) = Ok (c, new)).
Proof.
  intros Hs Hr. split; [|split].
  - intros p t. by eapply started_predecessors.
  - intros t. by eapply single_execution.
  - intros before a rest after. apply top_performs; [done|]. eapply reachable_ok; [done|apply initial_ok|done].
Qed.

(** The schedule of the witnesses: task 1 depends on task 0 and is scheduled by thread 1,
    the two executor threads 0 and 2 do the work. *)
Definition demo_executor (i : nat) : bool := bool_decide (i ≠ 1%nat).
Definition demo_schedule : list decision :=
  [CallSchedule 1 1] ++ works 1 8 ++ [PopJob 0] ++ works 0 8 ++ [PopJob 2] ++ works 2 4.
Definition demo_final : System :=
  match execute (λ _, None) demo_executor demo_schedule (initial [(0, 1)%nat] 3) with Some s => s | None => initial [] 0 end.

Lemma demo_reachable : reachable (λ _, None) demo_executor (initial [(0, 1)%nat] 3) demo_final.
Proof.
  apply (execute_reachable (λ _, None) demo_executor demo_schedule _ (initial [(0, 1)%nat] 3)); [constructor|].
  unfold demo_final. by destruct (execute _ _ _ _) eqn:E; [|vm_compute in E].
Qed.

Lemma None_survives : survives (λ _, None).
Proof. by left. Qed.

Lemma scheduler_safe_witness :
  survives (λ _, None) ∧ reachable (λ _, None) demo_executor (initial [(0, 1)%nat] 3) demo_final ∧
  state_ (tasks (core demo_final) 0%nat) = kDone.
Proof.
  split; [exact None_survives|]. split; [exact demo_reachable|].
  apply (proj1 (scheduler_safe (λ _, None) demo_executor [(0, 1)%nat] 3 demo_final None_survives demo_reachable) 0%nat 1%nat).
  - by left.
  - vm_compute. lia.
Defined.

(** Termination: from any reachable state, and whatever the interleaving, the threads
    perform a bounded number of steps (as long as no further [Schedule] call is made). *)
Theorem scheduler_terminates (OnExecute : nat → option error) (IsExecutorThread : nat → bool) (edges : list (nat * nat)) (n : nat) (s : System) :
  survives OnExecute → reachable OnExecute IsExecutorThread (initial edges n) s →
  ∃ bound, ∀ k s', nsteps (work_step OnExecute IsExecutorThread) k s s' → (k ≤ bound)%nat.
Proof.
  intros Hs Hr. destruct (reachable_measurable OnExecute IsExecutorThread edges n s Hs Hr) as (ids & d & e & Hm).
  exists (measure ids d e s). intros k s' Hk. pose proof (work_steps_bounded _ _ ids d e k s s' Hk Hm). lia.
Qed.

Lemma scheduler_terminates_witness :
  survives (λ _, None) ∧ reachable (λ _, None) demo_executor (initial [(0, 1)%nat] 3) demo_final ∧
  ∃ bound, ∀ k s', nsteps (work_step (λ _, None) demo_executor) k demo_final s' → (k ≤ bound)%nat.
Proof.
  split; [exact None_survives|]. split; [exact demo_reachable|].
  exact (scheduler_terminates (λ _, None) demo_executor [(0, 1)%nat] 3 demo_final None_survives demo_reachable).
Defined.

(** C5: Liveness: with an acyclic dependency graph and at least one executor thread, the
    worker can always continue until it is quiescent, and in a quiescent state every
    scheduled task and all its predecessors are done and [WaitForTasks] on scheduled tasks
    is not blocked: it returns on an executor thread, and on any other thread it returns if
    no [OnExecute] threw and otherwise rethrows. *)
Theorem scheduler_live (OnExecute : nat → option error) (IsExecutorThread : nat → bool) (edges : list (nat * nat)) (n : nat) (s : System)
  (rank : nat → nat) :
  survives OnExecute → (∀ p t, (p, t) ∈ edges → (rank p < rank t)%nat) →
  reachable OnExecute IsExecutorThread (initial edges n) s → executes IsExecutorThread s →
  (∃ s', rtc (work_step OnExecute IsExecutorThread) s s' ∧ quiescent s') ∧
  (quiescent s ∨ ∃ s', work_step OnExecute IsExecutorThread s s') ∧
  (quiescent s → ∀ ts, (∀ t, t ∈ ts → scheduled (core s) t) →
    (∀ t, t ∈ ts → state_ (tasks (core s) t) = kDone ∧ ∀ p, (p, t) ∈ edges → state_ (tasks (core s) p) = kDone) ∧
    WaitForTasks true ts (core s) = Returned ∧
    WaitForTasks false ts (core s) = if bool_decide (Forall (λ t, OnExecute t = None) ts) then Returned else Raised AssertionFailed).
Proof.
  intros Hs Hrank Hr Hexec. pose proof (reachable_ok OnExecute IsExecutorThread Hs _ s (initial_ok edges n) Hr) as Hok.
  split; [|split].
  - destruct (reachable_measurable OnExecute IsExecutorThread edges n s Hs Hr) as (ids & d & e & Hm). by eapply work_to_quiescent.
  - by apply work_continues.
  - intros Hq ts Hts.
    assert (∀ t, t ∈ ts → state_ (tasks (core s) t) = kDone) as Hd.
    { intros t Ht. eapply (quiescent_done s rank Hok Hq); [|by apply Hts].
      intros u p Hp. apply Hrank. by eapply reachable_edges. }
    split; [|split].
    + intros t Ht. split; [by apply Hd|]. intros p Hp.
      eapply started_predecessors; [done|done|exact Hp|]. rewrite Hd by done. cbn. lia.
    + unfold WaitForTasks. assert (forallb (λ t, IsDone (tasks (core s) t)) ts = true) as ->; [|done].
      apply forallb_forall. intros t Ht%list_elem_of_In. unfold IsDone. by rewrite Hd, bool_decide_eq_true_2 by done.
    + pose proof (exceptions_reachable OnExecute IsExecutorThread edges n s Hs Hr) as Hex. clear Hts. unfold WaitForTasks.
      induction ts as [|t ts IH]; [done|]. cbn [join_all].
      assert (state_ (tasks (core s) t) = kDone) as Ht by (apply Hd; by left).
      unfold IsDone at 1. rewrite Ht, bool_decide_eq_true_2 by done. rewrite (proj1 (Hex t)) by (by right).
      destruct (Hs t) as [E|E]; rewrite E.
      * rewrite IH by (intros u Hu; apply Hd; by right).
        rewrite (bool_decide_ext (Forall (λ u, OnExecute u = None) (t :: ts)) (Forall (λ u, OnExecute u = None) ts)); [done|].
        rewrite Forall_cons. tauto.
      * rewrite bool_decide_eq_false_2; [done|]. rewrite Forall_cons. rewrite E. by intros [].
Qed.

Lemma scheduler_live_witness :
  WaitForTasks false [1%nat] (core demo_final) = Returned.
Proof.
  refine (proj2 (proj2 (proj2 (proj2 (scheduler_live (λ _, None) demo_executor [(0, 1)%nat] 3 demo_final (λ t, t)
    None_survives _ demo_reachable _)) _ [1%nat] _))).
  - intros p t [= -> ->]%list_elem_of_singleton. lia.
  - exists 0%nat. split; [vm_compute; lia|reflexivity].
  - split; [|reflexivity]. intros st Hst. vm_compute in Hst.
    repeat (apply elem_of_cons in Hst as [Hst|Hst]; [exact Hst|]). by apply elem_of_nil in Hst.
  - intros t ->%list_elem_of_singleton. vm_compute. lia.
Defined.

(** What [WaitForAllTasks] tests: once every [Schedule] call has counted its task, a zero
    [num_scheduled_tasks_] means that every scheduled task is done (fewer than 2^64 tasks). *)
Theorem counter_zero_done (OnExecute : nat → option error) (IsExecutorThread : nat → bool) (edges : list (nat * nat)) (n : nat) (s : System)
  (small : list nat) :
  survives OnExecute → reachable OnExecute IsExecutorThread (initial edges n) s →
  (∀ t, scheduled (core s) t → t ∈ small) → Z.of_nat (length small) < 2 ^ 64 →
  ¬ (CountScheduled ∈ concat (threads s)) → num_scheduled_tasks (core s) = 0 →
  ∀ t, scheduled (core s) t → state_ (tasks (core s) t) = kDone.
Proof.
  intros Hs Hr Hsmall Hlen Hnone Hzero t Ht.
  destruct (counted_reachable OnExecute IsExecutorThread edges n s Hs Hr) as [L [Hnd Hsch Hrange Hsum Hbd]].
  assert (length L ≤ length small)%nat as HL.
  { apply submseteq_length, NoDup_submseteq; [done|]. intros u Hu. apply Hsmall. by apply Hsch. }
  assert (occ CountScheduled (concat (threads s)) = 0%nat) as H0.
  { destruct (decide (0 < occ CountScheduled (concat (threads s)))%nat) as [H%occ_elem|]; [done|lia]. }
  rewrite Hzero, H0, Z.mod_small in Hsum by lia. rewrite Z.mod_small in Hsum by lia.
  apply (none_unfinished (core s) L); [lia|]. by apply Hsch.
Qed.

Lemma counter_zero_done_witness : state_ (tasks (core demo_final) 1%nat) = kDone.
Proof.
  apply (counter_zero_done (λ _, None) demo_executor [(0, 1)%nat] 3 demo_final [0%nat; 1%nat] None_survives demo_reachable).
  - intros [|[|t]] H; [by left|by right; left|]. vm_compute in H. lia.
  - reflexivity.
  - vm_compute. intros H. by apply elem_of_nil in H.
  - reflexivity.
  - vm_compute. lia.
Defined.
