(* ===== verification/OperatorTask.v ===== *)
(** * Operator tasks

    [operator_task.cpp]: how a tree (in general a DAG) of operators becomes tasks with
    dependencies, and when a task clears the outputs of the operators it read.  Operators
    are heap objects, addressed by numbers; the task of an operator carries its number. *)

From S2P Require Import Scheduler SchedulerCorrect.

(** ** Tasks from operators *)
Section Generate.
(** The operators' inputs, [nullptr] as [None]. *)
Context (MutableLeftInput MutableRightInput : nat → option nat).

Definition inputs (o : nat) : list nat := omap id [MutableLeftInput o; MutableRightInput o].

(** [operator_to_task] as the list of the operators that have a task, and the pairs for
    which [SetAsPredecessorOf] was called. *)
Record Generated : Type := mkGenerated { operators : list nat; edges : list (nat * nat) }.

Definition add_operator_subtasks (add : nat → Generated → option Generated) (input : option nat) (o : nat) (g : Generated) :
  option Generated :=
  match input with
  | None => Some g
  | Some i => match add i g with Some g => Some (mkGenerated (operators g) (edges g ++ [(i, o)])) | None => None end
  end.

Fixpoint AddOperatorTasksRecursively (fuel : nat) (o : nat) (g : Generated) : option Generated :=
  match fuel with
  | O => None
  | S fuel =>
      if bool_decide (o ∈ operators g) then Some g
      else
        let add := AddOperatorTasksRecursively fuel in
        match add_operator_subtasks add (MutableLeftInput o) o (mkGenerated (operators g ++ [o]) (edges g)) with
        | Some g => add_operator_subtasks add (MutableRightInput o) o g
        | None => None
        end
  end.

Definition GenerateTasksFromOperator (fuel : nat) (root : nat) : option Generated :=
  AddOperatorTasksRecursively fuel root (mkGenerated [] []).

(** [o] is read, directly or not, by [root]. *)
Inductive feeds (root : nat) : nat → Prop :=
  | feeds_root : feeds root root
  | feeds_input o i : feeds root o → i ∈ inputs o → feeds root i.

Lemma feeds_trans a b c : feeds a b → feeds b c → feeds a c.
Proof. intros Hab. induction 1 as [|o i _ IH Hi]; [done|by eapply feeds_input]. Qed.

(** What a call adds: operators below [o], each with its inputs and exactly its edges. *)
Record extends (o : nat) (g g' : Generated) : Prop := {
  ext_nodup : NoDup (operators g) → NoDup (operators g');
  ext_keeps u : u ∈ operators g → u ∈ operators g';
  ext_feeds u : u ∈ operators g' → u ∈ operators g ∨ feeds o u;
  ext_closed u i : u ∈ operators g' → u ∈ operators g ∨ (i ∈ inputs u → i ∈ operators g');
  ext_edges p t : (p, t) ∈ edges g' ↔ (p, t) ∈ edges g ∨ (t ∈ operators g' ∧ ¬ (t ∈ operators g) ∧ p ∈ inputs t) }.

Context (rank : nat → nat) (Hrank : ∀ o i, i ∈ inputs o → (rank i < rank o)%nat).

(** Partial results while the inputs of [o] are being added: [done] of them are. *)
Record partial (o : nat) (done : list nat) (g g' : Generated) : Prop := {
  par_nodup : NoDup (operators g) → NoDup (operators g');
  par_self : o ∈ operators g';
  par_keeps u : u ∈ operators g → u ∈ operators g';
  par_feeds u : u ∈ operators g' → u ∈ operators g ∨ feeds o u;
  par_closed u i : u ∈ operators g' → u ≠ o → u ∈ operators g ∨ (i ∈ inputs u → i ∈ operators g');
  par_done i : i ∈ done → i ∈ operators g';
  par_edges p t : (p, t) ∈ edges g' ↔ (p, t) ∈ edges g ∨ (t ∈ operators g' ∧ ¬ (t ∈ operators g) ∧ t ≠ o ∧ p ∈ inputs t) ∨ (t = o ∧ p ∈ done) }.

Definition adds_all (f : nat → Generated → option Generated) (n : nat) : Prop :=
  ∀ o g, (rank o < n)%nat → ∃ g', f o g = Some g' ∧ o ∈ operators g' ∧ extends o g g'.

Lemma add_operator_subtasks_ok f n o done input g0 g :
  adds_all f n → (rank o ≤ n)%nat → ¬ (o ∈ operators g0) → partial o done g0 g → (∀ i, input = Some i → i ∈ inputs o) →
  ∃ g', add_operator_subtasks f input o g = Some g' ∧ partial o (done ++ option_list input) g0 g'.
Proof.
  intros Hf Hn Ho Hp Hin. destruct input as [i|]; cbn [add_operator_subtasks option_list]; [|exists g; by rewrite app_nil_r].
  assert (i ∈ inputs o) as Hi by auto. pose proof (Hrank o i Hi) as Hri.
  destruct (Hf i g) as (g1 & -> & Hi1 & [X1 X2 X3 X4 X5]); [lia|]. destruct Hp as [P1 P2 P3 P4 P5 P6 P7].
  assert (feeds o i) as Hfi by (eapply feeds_input; [constructor|done]).
  eexists. split; [done|]. split; cbn [operators edges].
  - auto.
  - auto.
  - auto.
  - intros u Hu. destruct (X3 u Hu) as [H|H]; [by apply P4|right]. by eapply feeds_trans.
  - intros u j Hu Hne. destruct (X4 u j Hu) as [H|H]; [|by right]. destruct (P5 u j H Hne) as [|Hc]; [by left|right; auto].
  - intros j [Hj| ->%list_elem_of_singleton]%elem_of_app; auto.
  - intros p t. change (option_list (Some i)) with [i]. rewrite elem_of_app, list_elem_of_singleton, X5, P7, elem_of_app, list_elem_of_singleton.
    split.
    + intros [[[H|[(H1 & H2 & H3 & H4)|[-> H]]]|(H1 & H2 & H3)]|[= -> ->]]; [tauto| |tauto| |tauto].
      * right; left. auto.
      * right; left. split; [done|]. split; [auto|]. split; [by intros ->|done].
    + intros [H|[(H1 & H2 & H3 & H4)|[-> [H| ->]]]]; [tauto| |tauto|tauto].
      destruct (decide (t ∈ operators g)) as [Ht|Ht]; [left; left; right; left; auto|left; right; auto].
Qed.

Lemma AddOperatorTasksRecursively_ok n : adds_all (AddOperatorTasksRecursively n) n.
Proof.
  induction n as [|n IH]; intros o g Hr; [lia|]. cbn [AddOperatorTasksRecursively]. case_bool_decide as Ho.
  - exists g. split; [done|]. split; [done|]. split; auto. intros p t. tauto.
  - assert (partial o [] g (mkGenerated (operators g ++ [o]) (edges g))) as H0.
    { split; cbn [operators edges]; try setoid_rewrite elem_of_app; try setoid_rewrite list_elem_of_singleton.
      - intros Hnd. apply NoDup_app. split; [done|]. split; [|apply NoDup_singleton]. by intros u Hu ->%list_elem_of_singleton.
      - by right.
      - by left.
      - intros u [Hu| ->]; [by left|right; constructor].
      - intros u i [Hu| ->]; [by left|done].
      - intros i Hi. by apply elem_of_nil in Hi.
      - intros p t. rewrite elem_of_nil. tauto. }
    destruct (add_operator_subtasks_ok _ n o [] (MutableLeftInput o) g _ IH ltac:(lia) Ho H0) as (g1 & -> & H1).
    { intros i Hi. unfold inputs. apply list_elem_of_omap. exists (Some i). rewrite <- Hi. split; [by left|done]. }
    destruct (add_operator_subtasks_ok _ n o _ (MutableRightInput o) g _ IH ltac:(lia) Ho H1) as (g2 & -> & H2).
    { intros i Hi. unfold inputs. apply list_elem_of_omap. exists (Some i). rewrite <- Hi. split; [by right; left|done]. }
    exists g2. split; [done|]. destruct H2 as [P1 P2 P3 P4 P5 P6 P7]. split; [done|].
    assert (∀ i, i ∈ [] ++ option_list (MutableLeftInput o) ++ option_list (MutableRightInput o) ↔ i ∈ inputs o) as Hall.
    { intros i. unfold inputs. cbn. destruct (MutableLeftInput o), (MutableRightInput o); cbn; tauto. }
    rewrite app_assoc in Hall. split; [done|done|done| |].
    + intros u i Hu. destruct (decide (u = o)) as [->|Hne]; [right; rewrite <- Hall; auto|auto].
    + intros p t. rewrite P7, Hall. split.
      * intros [H|[(H1' & H2' & H3 & H4)|[-> H]]]; [tauto|tauto|right; auto].
      * intros [H|(H1' & H2' & H3)]; [tauto|]. destruct (decide (t = o)) as [->|]; tauto.
Qed.
End Generate.

(** ** Clearing the outputs of the inputs *)
(** [OnExecute], after the operator has run: the predecessors whose output the task clears.
    The states the loop reads only change towards [kDone]. *)
Definition previous_operator_still_needed (t p : nat) (c : Core) : bool :=
  existsb (λ u, negb (bool_decide (u = t)) && negb (IsDone (tasks c u))) (successors (tasks c p)).
Definition cleared_outputs (t : nat) (c : Core) : list nat :=
  filter (λ p, previous_operator_still_needed t p c = false) (predecessors (tasks c t)).

Section Clear.
Context (OnExecute : nat → option error) (IsExecutorThread : nat → bool).

Lemma done_stays s s' t :
  reachable OnExecute IsExecutorThread s s' → state_ (tasks (core s) t) = kDone → state_ (tasks (core s') t) = kDone.
Proof.
  induction 1 as [|s1 s2 _ IH Hs]; [done|]. intros H. specialize (IH H).
  destruct (step_frame OnExecute IsExecutorThread s1 s2 t Hs) as (_ & _ & Hle). rewrite IH in Hle.
  destruct (state_ (tasks (core s2) t)); cbn in Hle; lia || done.
Qed.

Lemma reachable_trans s0 s s' :
  reachable OnExecute IsExecutorThread s0 s → reachable OnExecute IsExecutorThread s s' → reachable OnExecute IsExecutorThread s0 s'.
Proof. intros H. induction 1; [done|by eapply reachable_step]. Qed.

Lemma not_needed t p c u :
  previous_operator_still_needed t p c = false → u ∈ successors (tasks c p) → u ≠ t → state_ (tasks c u) = kDone.
Proof.
  intros H Hu Hne. unfold previous_operator_still_needed in H. rewrite <- not_true_iff_false, existsb_exists in H.
  destruct (decide (state_ (tasks c u) = kDone)) as [|Hnd]; [done|]. destruct H. exists u. split; [by apply list_elem_of_In|].
  unfold IsDone. by rewrite !bool_decide_eq_false_2.
Qed.
End Clear.

(** One task per operator below the root, linked from the inputs to their readers. *)
Lemma tasks_from_operator (MutableLeftInput MutableRightInput : nat → option nat) (rank : nat → nat) (root fuel : nat) :
  (∀ o i, i ∈ inputs MutableLeftInput MutableRightInput o → (rank i < rank o)%nat) → (rank root < fuel)%nat →
  ∃ g, GenerateTasksFromOperator MutableLeftInput MutableRightInput fuel root = Some g ∧ NoDup (operators g) ∧
    (∀ o, o ∈ operators g ↔ feeds MutableLeftInput MutableRightInput root o) ∧
    (∀ i o, (i, o) ∈ edges g ↔ feeds MutableLeftInput MutableRightInput root o ∧ i ∈ inputs MutableLeftInput MutableRightInput o).
Proof.
  intros Hrank Hfuel.
  destruct (AddOperatorTasksRecursively_ok _ _ rank Hrank fuel root (mkGenerated [] []) Hfuel) as (g & Hg & Hroot & [X1 X2 X3 X4 X5]).
  cbn [operators OperatorTask.edges] in *.
  assert (∀ o, o ∈ operators g ↔ feeds MutableLeftInput MutableRightInput root o) as Hops.
  { intros o. split.
    - intros Ho. by destruct (X3 o Ho) as [?%elem_of_nil|].
    - induction 1 as [|o i _ IH Hi]; [done|]. destruct (X4 o i IH) as [?%elem_of_nil|]; auto. done. }
  exists g. split; [done|]. split; [apply X1; constructor|]. split; [done|].
  intros i o. rewrite X5, !elem_of_nil, Hops. tauto.
Qed.

(** Tasks from operators: for every acyclic operator graph, [GenerateTasksFromOperator]
    returns one task per operator below the root, linked exactly from the inputs to the
    operators that read them; and however the scheduler interleaves these tasks, an operator
    that has been enqueued has all its inputs executed. *)
Theorem GenerateTasksFromOperator_correct (MutableLeftInput MutableRightInput : nat → option nat) (rank : nat → nat) (root fuel : nat) :
  (∀ o i, i ∈ inputs MutableLeftInput MutableRightInput o → (rank i < rank o)%nat) → (rank root < fuel)%nat →
  ∃ g, GenerateTasksFromOperator MutableLeftInput MutableRightInput fuel root = Some g ∧ NoDup (operators g) ∧
    (∀ o, o ∈ operators g ↔ feeds MutableLeftInput MutableRightInput root o) ∧
    (∀ i o, (i, o) ∈ edges g ↔ feeds MutableLeftInput MutableRightInput root o ∧ i ∈ inputs MutableLeftInput MutableRightInput o) ∧
    ∀ OnExecute IsExecutorThread n s o i, survives OnExecute → reachable OnExecute IsExecutorThread (initial (edges g) n) s →
      o ∈ operators g → (2 ≤ progress (state_ (tasks (core s) o)))%nat → i ∈ inputs MutableLeftInput MutableRightInput o →
      state_ (tasks (core s) i) = kDone.
Proof.
  intros Hrank Hfuel. destruct (tasks_from_operator _ _ rank root fuel Hrank Hfuel) as (g & Hg & Hnd & Hops & Hedges).
  exists g. do 4 (split; [done|]). intros OnExecute IsExecutorThread n s o i Hs Hr Ho Hst Hi.
  eapply started_predecessors; [done|done| |exact Hst]. apply Hedges. split; [by apply Hops|done].
Qed.

(** A join (2) of two imports (0, 1), and a union-like root (3) that reads the join twice. *)
Definition demo_left (o : nat) : option nat := match o with 2 => Some 0 | 3 => Some 2 | _ => None end%nat.
Definition demo_right (o : nat) : option nat := match o with 2 => Some 1 | 3 => Some 2 | _ => None end%nat.

Example demo_generated :
  GenerateTasksFromOperator demo_left demo_right 4 3 = Some (mkGenerated [3; 2; 0; 1]%nat [(0, 2); (1, 2); (2, 3); (2, 3)]%nat).
Proof. reflexivity. Qed.

Lemma GenerateTasksFromOperator_correct_witness :
  ∃ g, GenerateTasksFromOperator demo_left demo_right 4 3 = Some g ∧ ∀ o, o ∈ operators g ↔ feeds demo_left demo_right 3 o.
Proof.
  destruct (GenerateTasksFromOperator_correct demo_left demo_right (λ o, o) 3 4) as (g & Hg & _ & Ho & _).
  - intros [|[|[|[|o]]]] i Hi; vm_compute in Hi;
      repeat first [by apply elem_of_nil in Hi|apply elem_of_cons in Hi as [->|Hi]; [lia|]].
  - lia.
  - by exists g.
Defined.

(** C28: Safety of [ClearOutput]: when a task, at the end of its [OnExecute], clears the
    output of a predecessor, no other task is executing or will ever execute that reads this
    output. *)
Theorem OperatorTask_clear_safe (OnExecute : nat → option error) (IsExecutorThread : nat → bool) (edges : list (nat * nat)) (n : nat)
  (s s' : System) (t p u : nat) :
  survives OnExecute → reachable OnExecute IsExecutorThread (initial edges n) s →
  p ∈ cleared_outputs t (core s) → reachable OnExecute IsExecutorThread s s' →
  (p, u) ∈ edges → u ≠ t →
  ¬ (StartTask u ∈ concat (threads s')) ∧ ¬ (RunTask u ∈ concat (threads s')) ∧ ¬ (u ∈ queue (core s')) ∧
  state_ (tasks (core s') u) = kDone.
Proof.
  intros Hs Hr Hp Hr' Hu Hne. unfold cleared_outputs in Hp. apply list_elem_of_filter in Hp as [Hneed _].
  assert (u ∈ successors (tasks (core s) p)) as Hsucc.
  { pose proof (reachable_ok OnExecute IsExecutorThread Hs _ s (initial_ok edges n) Hr) as Hok.
    apply (graph_edge _ (inv_graph _ _ Hok)). by eapply reachable_edges. }
  pose proof (done_stays OnExecute IsExecutorThread s s' u Hr' (not_needed _ _ _ _ Hneed Hsucc Hne)) as Hd.
  pose proof (single_execution OnExecute IsExecutorThread Hs edges n s' u (reachable_trans _ _ _ _ _ Hr Hr')) as H1.
  cbv zeta in H1. unfold IsDone in H1. rewrite Hd, bool_decide_eq_true_2 in H1 by done.
  rewrite <- !occ_elem. repeat split; try lia. done.
Qed.

(** Two tasks that read the output of task 0; [demo_readers] lets them run one after the
    other or side by side. *)
Definition demo_prefix : list decision :=
  [CallSchedule 1 1] ++ works 1 8 ++ [CallSchedule 1 2] ++ works 1 4 ++ [PopJob 0] ++ works 0 12.
Definition demo_readers (rest : list decision) : System :=
  match execute (λ _, None) demo_executor (demo_prefix ++ rest) (initial [(0, 1)%nat; (0, 2)%nat] 3) with Some s => s | None => initial [] 0 end.

Lemma demo_readers_reachable rest :
  match execute (λ _, None) demo_executor (demo_prefix ++ rest) (initial [(0, 1)%nat; (0, 2)%nat] 3) with Some _ => true | None => false end = true →
  reachable (λ _, None) demo_executor (initial [(0, 1)%nat; (0, 2)%nat] 3) (demo_readers rest).
Proof.
  intros H. apply (execute_reachable (λ _, None) demo_executor (demo_prefix ++ rest) _ (initial [(0, 1)%nat; (0, 2)%nat] 3)); [constructor|].
  unfold demo_readers. by destruct (execute _ _ _ _).
Qed.

Definition one_after_the_other : list decision := [PopJob 0] ++ works 0 4 ++ [PopJob 2] ++ works 2 1.
Definition side_by_side : list decision := [PopJob 0] ++ works 0 1 ++ [PopJob 2] ++ works 2 1.

Lemma OperatorTask_clear_safe_witness : state_ (tasks (core (demo_readers one_after_the_other)) 1%nat) = kDone.
Proof.
  apply (OperatorTask_clear_safe (λ _, None) demo_executor [(0, 1)%nat; (0, 2)%nat] 3 (demo_readers one_after_the_other)
    (demo_readers one_after_the_other) 2%nat 0%nat 1%nat).
  - exact None_survives.
  - apply demo_readers_reachable. by vm_compute.
  - vm_compute. by left.
  - constructor.
  - by left.
  - discriminate.
Defined.

(** When the last two readers run side by side, each sees the other unfinished: the output
    of task 0 is cleared by neither. *)
Lemma concurrent_readers_clear_nothing :
  reachable (λ _, None) demo_executor (initial [(0, 1)%nat; (0, 2)%nat] 3) (demo_readers side_by_side) ∧
  threads (demo_readers side_by_side) = [[RunTask 1]; []; [RunTask 2]] ∧
  cleared_outputs 1 (core (demo_readers side_by_side)) = [] ∧ cleared_outputs 2 (core (demo_readers side_by_side)) = [].
Proof. split; [apply demo_readers_reachable; by vm_compute|]. vm_compute. done. Qed.
