(* ===== verification/WaitProtocol.v ===== *)
(** * Waiting on a condition variable

    The two places where a thread of the worker waits: [AbstractTask::Join] waits for the
    state [kDone], which [AbstractTask::Execute] sets while it holds the condition variable's
    mutex; [FragmentScheduler::WaitForAllTasks] waits for a zero counter, which
    [OnTaskFinished] decrements without the mutex.  One waiter, one notifier, every
    interleaving; a sleeping waiter may also wake up for no reason. *)

From S2P Require Import Prelude.

(** The waiter: about to lock, holding the lock and testing the predicate, holding the lock
    after a failed test, asleep in [wait], notified and about to lock again, returned. *)
Inductive waiter_pc : Set := WaitLock | WaitTest | WaitFailed | WaitAsleep | WaitWoken | WaitReturned.

(** The notifier: about to make the condition true, holding the lock, having changed the
    condition under the lock, about to notify, finished. *)
Inductive notifier_pc : Set := NotifyStart | NotifyHolding | NotifyChanged | NotifyPending | NotifyFinished.

#[export] Instance waiter_pc_eq_dec : EqDecision waiter_pc.
Proof. solve_decision. Defined.
#[export] Instance notifier_pc_eq_dec : EqDecision notifier_pc.
Proof. solve_decision. Defined.

Record Protocol : Type := mkProtocol {
  mutex_held : bool;
  condition : bool;
  waiter : waiter_pc;
  notifier : notifier_pc }.

Definition protocol_start : Protocol := mkProtocol false false WaitLock NotifyStart.

(** [wait(lock, predicate)]: test; after a failed test, sleep and release the mutex in one
    step; lock and test again when woken. *)
Inductive waiter_step : Protocol → Protocol → Prop :=
  | waiter_lock cnd n : waiter_step (mkProtocol false cnd WaitLock n) (mkProtocol true cnd WaitTest n)
  | waiter_relock cnd n : waiter_step (mkProtocol false cnd WaitWoken n) (mkProtocol true cnd WaitTest n)
  | waiter_return m n : waiter_step (mkProtocol m true WaitTest n) (mkProtocol false true WaitReturned n)
  | waiter_fail m n : waiter_step (mkProtocol m false WaitTest n) (mkProtocol m false WaitFailed n)
  | waiter_sleep m cnd n : waiter_step (mkProtocol m cnd WaitFailed n) (mkProtocol false cnd WaitAsleep n).

Definition notify_all (w : waiter_pc) : waiter_pc := match w with WaitAsleep => WaitWoken | w => w end.

Inductive notifier_step (under_lock : bool) : Protocol → Protocol → Prop :=
  | notifier_lock cnd w : under_lock = true →
      notifier_step under_lock (mkProtocol false cnd w NotifyStart) (mkProtocol true cnd w NotifyHolding)
  | notifier_change_locked m cnd w :
      notifier_step under_lock (mkProtocol m cnd w NotifyHolding) (mkProtocol m true w NotifyChanged)
  | notifier_unlock m cnd w :
      notifier_step under_lock (mkProtocol m cnd w NotifyChanged) (mkProtocol false cnd w NotifyPending)
  | notifier_change m cnd w : under_lock = false →
      notifier_step under_lock (mkProtocol m cnd w NotifyStart) (mkProtocol m true w NotifyPending)
  | notifier_notify m cnd w :
      notifier_step under_lock (mkProtocol m cnd w NotifyPending) (mkProtocol m cnd (notify_all w) NotifyFinished).

Inductive protocol_step (under_lock : bool) (s s' : Protocol) : Prop :=
  | step_waiter : waiter_step s s' → protocol_step under_lock s s'
  | step_notifier : notifier_step under_lock s s' → protocol_step under_lock s s'
  | step_spurious : waiter s = WaitAsleep → s' = mkProtocol (mutex_held s) (condition s) WaitWoken (notifier s) →
      protocol_step under_lock s s'.

(** The invariant of the locked protocol: who holds the mutex, and that a waiter that sleeps
    while the condition holds still has its notification to come. *)
Definition waiter_holds (w : waiter_pc) : bool := match w with WaitTest | WaitFailed => true | _ => false end.
Definition notifier_holds (n : notifier_pc) : bool := match n with NotifyHolding | NotifyChanged => true | _ => false end.
Definition changed (n : notifier_pc) : bool := match n with NotifyStart | NotifyHolding => false | _ => true end.

Definition protocol_ok (s : Protocol) : Prop :=
  mutex_held s = waiter_holds (waiter s) || notifier_holds (notifier s) ∧
  waiter_holds (waiter s) && notifier_holds (notifier s) = false ∧
  condition s = changed (notifier s) ∧
  match waiter s with
  | WaitFailed => condition s = false
  | WaitAsleep => notifier s ≠ NotifyFinished
  | WaitReturned => condition s = true
  | _ => True
  end.

Lemma protocol_step_ok s s' : protocol_step true s s' → protocol_ok s → protocol_ok s'.
Proof.
  intros [[cnd n|cnd n|m n|m n|m cnd n]|[cnd w|m cnd w|m cnd w|m cnd w Hf|m cnd w]|Hw ->]; try discriminate; unfold protocol_ok; cbn.
  1-5: by destruct n; cbn; intuition (subst; try done).
  1-4: by destruct w; cbn; intuition (subst; try done).
  destruct s as [m cnd w n]; cbn in *. subst. by destruct n; cbn; intuition.
Qed.

Lemma protocol_reachable_ok s : rtc (protocol_step true) protocol_start s → protocol_ok s.
Proof.
  intros H. assert (protocol_ok protocol_start) as H0 by done. revert H0. induction H as [|s1 s2 s3 Hs _ IH]; [done|].
  intros H1. apply IH. by eapply protocol_step_ok.
Qed.

Lemma protocol_continues s :
  protocol_ok s → waiter s = WaitReturned ∨ ∃ s', waiter_step s s' ∨ notifier_step true s s'.
Proof.
  destruct s as [m cnd w n]. intros (H1 & H2 & H3 & H4); cbn in *. destruct w, n; cbn in *; subst; try discriminate;
    try (by left); right; first [eexists; left; by constructor|eexists; right; by constructor|done].
Qed.

(** [Join]: the notification of [Execute] is never lost.  In every interleaving, a
    waiter that sleeps has the notification still to come, a waiter that has returned has
    seen the condition, and until the waiter has returned one of the two threads can make a
    step of its own. *)
Theorem Join_no_lost_wakeup (s : Protocol) :
  rtc (protocol_step true) protocol_start s →
  (waiter s = WaitAsleep → notifier s ≠ NotifyFinished) ∧
  (waiter s = WaitReturned → condition s = true) ∧
  (waiter s = WaitReturned ∨ ∃ s', waiter_step s s' ∨ notifier_step true s s').
Proof.
  intros H%protocol_reachable_ok. split; [|split; [|by apply protocol_continues]]; intros Hw;
    destruct H as (_ & _ & _ & H); by rewrite Hw in H.
Qed.

Lemma Join_no_lost_wakeup_witness :
  rtc (protocol_step true) protocol_start (mkProtocol false false WaitAsleep NotifyStart) ∧
  ∃ s', waiter_step (mkProtocol false false WaitAsleep NotifyStart) s' ∨ notifier_step true (mkProtocol false false WaitAsleep NotifyStart) s'.
Proof.
  assert (rtc (protocol_step true) protocol_start (mkProtocol false false WaitAsleep NotifyStart)) as H.
  { eapply rtc_l; [apply step_waiter, waiter_lock|]. eapply rtc_l; [apply step_waiter, waiter_fail|].
    apply rtc_once, step_waiter, waiter_sleep. }
  split; [exact H|]. destruct (proj2 (proj2 (Join_no_lost_wakeup _ H))) as [Hw|Hs]; [discriminate Hw|exact Hs].
Defined.

(** Without the mutex the notification can be lost: the waiter tests the condition, the
    notifier makes it true and notifies, the waiter goes to sleep; it then sleeps for ever
    unless it wakes up for no reason. *)
Lemma WaitForAllTasks_lost_wakeup :
  ∃ s, rtc (protocol_step false) protocol_start s ∧ condition s = true ∧ waiter s = WaitAsleep ∧ notifier s = NotifyFinished ∧
    ∀ s', ¬ waiter_step s s' ∧ ¬ notifier_step false s s'.
Proof.
  exists (mkProtocol false true WaitAsleep NotifyFinished). split; [|].
  - eapply rtc_l; [apply step_waiter, waiter_lock|]. eapply rtc_l; [apply step_waiter, waiter_fail|].
    eapply rtc_l; [apply step_notifier; by apply notifier_change|].
    eapply rtc_l; [apply step_notifier; by apply notifier_notify|]. cbn.
    apply rtc_once, step_waiter, waiter_sleep.
  - do 3 (split; [done|]). intros s'. split; inversion 1.
Qed.
