(* ===== verification/PipelineScheduler.v ===== *)
(** * The coordinator's pipeline scheduler

    [src/lib/scheduler/coordinator/pqp_pipeline_scheduler.cpp] with the parts of
    [compiler/physical_query_plan/pqp_pipeline.cpp] it uses.  A query is a DAG of pipelines;
    every pipeline is a number of fragments that workers execute.  The scheduler submits a
    pipeline to its executor when its predecessors are finished; the executor answers with
    one call of [OnFragmentExecutionFinishedCallback] per fragment, from threads of its own.
    The callback works under a mutex, but a failed fragment takes it twice, so a callback is
    one or two atomic steps here and the steps of different callbacks interleave freely. *)

From S2P Require Export Types.

Local Open Scope string_scope.

(** ** [std::map] with string keys: the entries in the order of their keys *)
Section Map.
Context {A : Type}.

Fixpoint slookup (k : string) (m : list (string * A)) : option A :=
  match m with
  | [] => None
  | (k', v) :: m' => if decide (k = k') then Some v else slookup k m'
  end.

Fixpoint sinsert (k : string) (v : A) (m : list (string * A)) : list (string * A) :=
  match m with
  | [] => [(k, v)]
  | (k', v') :: m' => if String.ltb k k' then (k, v) :: m else (k', v') :: sinsert k v m'
  end.

(** [emplace] keeps an existing entry. *)
Definition emplace (k : string) (v : A) (m : list (string * A)) : list (string * A) :=
  match slookup k m with Some _ => m | None => sinsert k v m end.

(** [map.at(k)], for reading and for updating in place. *)
Definition map_at (m : list (string * A)) (k : string) : result A := of_option (slookup k m) OutOfRange.

Fixpoint supdate (f : A → A) (k : string) (m : list (string * A)) : list (string * A) :=
  match m with
  | [] => []
  | (k', v) :: m' => if decide (k = k') then (k', f v) :: m' else (k', v) :: supdate f k m'
  end.

Lemma slookup_sinsert k v m i :
  slookup k m = None → slookup i (sinsert k v m) = if decide (i = k) then Some v else slookup i m.
Proof.
  induction m as [|[k' v'] m IH]; cbn; [done|]. destruct (decide (k = k')) as [|Hne]; [done|].
  intros Hk. destruct (String.ltb k k'); cbn; [done|]. rewrite IH by done.
  destruct (decide (i = k')), (decide (i = k)); congruence.
Qed.

Lemma slookup_emplace k v m i :
  slookup i (emplace k v m) = if decide (i = k ∧ slookup k m = None) then Some v else slookup i m.
Proof.
  unfold emplace. destruct (slookup k m) as [w|] eqn:Hk.
  - by rewrite decide_False by (by intros [? ?]).
  - rewrite slookup_sinsert by done. destruct (decide (i = k)); [by rewrite decide_True|by rewrite decide_False by tauto].
Qed.

Lemma slookup_supdate f k m i :
  slookup i (supdate f k m) = if decide (i = k) then f <$> slookup i m else slookup i m.
Proof.
  induction m as [|[k' v] m IH]; cbn; [by destruct (decide _)|].
  destruct (decide (k = k')) as [<-|]; cbn.
  - destruct (decide (i = k)) as [->|]; [done|done].
  - rewrite IH. destruct (decide (i = k')), (decide (i = k)); congruence.
Qed.

Lemma slookup_elem k v m : slookup k m = Some v → (k, v) ∈ m.
Proof.
  induction m as [|[k' v'] m IH]; cbn; [done|]. destruct (decide (k = k')) as [<-|]; [intros [= <-]; by left|].
  intros H. right. by apply IH.
Qed.

Lemma slookup_None k m : slookup k m = None ↔ k ∉ m.*1.
Proof.
  induction m as [|[k' v'] m IH]; cbn; [split; [intros _; apply not_elem_of_nil|done]|].
  rewrite not_elem_of_cons. destruct (decide (k = k')); [split; [done|tauto]|]. rewrite IH. tauto.
Qed.

Lemma elem_slookup k v m : NoDup m.*1 → (k, v) ∈ m → slookup k m = Some v.
Proof.
  induction m as [|[k' v'] m IH]; cbn; intros Hnd Hin; [by apply elem_of_nil in Hin|].
  apply NoDup_cons in Hnd as [Hk Hnd]. apply elem_of_cons in Hin as [[= -> ->]|Hin]; [by rewrite decide_True|].
  rewrite decide_False; [by apply IH|]. intros ->. apply Hk. by apply (list_elem_of_fmap_2 fst) in Hin.
Qed.

Lemma supdate_keys f k m : (supdate f k m).*1 = m.*1.
Proof. induction m as [|[k' v] m IH]; cbn; [done|]. destruct (decide (k = k')); cbn; by rewrite ?IH. Qed.

Lemma sinsert_keys k v m i : i ∈ (sinsert k v m).*1 ↔ i = k ∨ i ∈ m.*1.
Proof.
  induction m as [|[k' v'] m IH]; cbn; [by rewrite list_elem_of_singleton, elem_of_nil; tauto|].
  destruct (String.ltb k k'); cbn; rewrite !elem_of_cons; [done|]. rewrite IH. tauto.
Qed.

Lemma emplace_NoDup k v m : NoDup m.*1 → NoDup (emplace k v m).*1.
Proof.
  unfold emplace. destruct (slookup k m) eqn:Hk; [done|]. apply slookup_None in Hk. revert Hk.
  induction m as [|[k' v'] m IH]; cbn; intros Hk Hnd; [by apply NoDup_singleton|].
  apply not_elem_of_cons in Hk as [Hne Hk]. pose proof Hnd as [Hk' Hnd']%NoDup_cons.
  destruct (String.ltb k k'); cbn; apply NoDup_cons; split; try done.
  - by apply not_elem_of_cons.
  - rewrite sinsert_keys. intros [->|]; done.
  - by apply IH.
Qed.
End Map.

(** ** Pipelines *)

(** The links to other pipelines are pointers; identities are unique, so they stand for the
    pipelines here. *)
Record PqpPipeline : Type := mkPqpPipeline {
  Identity : string;
  FragmentDefinitions : list PipelineFragmentDefinition;
  Predecessors : list string;
  Successors : list string }.

(** Adds an edge to both pipelines, without looking whether it exists (a debug build does). *)
Definition SetAsPredecessorOf (predecessor successor : string) (pipelines : gmap string PqpPipeline)
    : gmap string PqpPipeline :=
  alter (λ p, mkPqpPipeline (Identity p) (FragmentDefinitions p) (Predecessors p) (Successors p ++ [successor]))
    predecessor
    (alter (λ p, mkPqpPipeline (Identity p) (FragmentDefinitions p) (Predecessors p ++ [predecessor]) (Successors p))
      successor pipelines).

(** ** The scheduler *)
(** Without the metering document, which the scheduler passes on. *)
Record FragmentExecutionResult : Set := mkFragmentExecutionResult {
  result_pipeline_id : string;
  worker_id : string;
  is_success : bool;
  message : string;
  runtime_ms : Z;
  function_instance_size_mb : Z;
  export_data_size_bytes : Z;
  import_data_size_bytes : Z }.

Inductive PqpPipelineTaskState : Set := kWaiting | kRunning | kFinished.
#[export] Instance PqpPipelineTaskState_eq_dec : EqDecision PqpPipelineTaskState.
Proof. solve_decision. Defined.

(** The two counters are [size_t]. *)
Record PqpPipelineTask : Type := mkPqpPipelineTask {
  pqp_pipeline : PqpPipeline;
  fragments_to_finish_count : Z;
  pipeline_predecessors_to_finish_count : Z;
  fragment_execution_results : list FragmentExecutionResult;
  task_state : PqpPipelineTaskState }.

Record PqpPipelineScheduler : Type := mkPqpPipelineScheduler {
  tasks_ : list (string * PqpPipelineTask);
  error_message_ : string }.

Definition new_task (p : PqpPipeline) : PqpPipelineTask :=
  mkPqpPipelineTask p (Z.of_nat (length (FragmentDefinitions p))) (Z.of_nat (length (Predecessors p))) [] kWaiting.

Definition make_PqpPipelineScheduler (pqp_pipelines : list PqpPipeline) : result PqpPipelineScheduler :=
  tasks ← foldR (λ m pipeline,
    _ ← assert_ (bool_decide (FragmentDefinitions pipeline ≠ [])) AssertionFailed;
    Ok (emplace (Identity pipeline) (new_task pipeline) m)) [] pqp_pipelines;
  Ok (mkPqpPipelineScheduler tasks EmptyString).

Definition ready (task : PqpPipelineTask) : bool :=
  (pipeline_predecessors_to_finish_count task =? 0)%Z && bool_decide (task_state task = kWaiting).

Definition set_state (st : PqpPipelineTaskState) (task : PqpPipelineTask) : PqpPipelineTask :=
  mkPqpPipelineTask (pqp_pipeline task) (fragments_to_finish_count task)
    (pipeline_predecessors_to_finish_count task) (fragment_execution_results task) st.

(** [Submit] of every ready task, in the order of the map; returns the pipelines handed to
    [executor_->Execute]. *)
Definition SubmitTasksWithFinishedPredecessors (tasks : list (string * PqpPipelineTask))
    : list (string * PqpPipelineTask) * list PqpPipeline :=
  ((λ p, if ready p.2 then (p.1, set_state kRunning p.2) else p) <$> tasks,
   pqp_pipeline ∘ snd <$> filter (λ p, ready p.2 = true) tasks).

Definition AllTasksFinished (s : PqpPipelineScheduler) : bool :=
  forallb (λ p, bool_decide (task_state p.2 = kFinished)) (tasks_ s).

Definition HasError (s : PqpPipelineScheduler) : bool := negb (bool_decide (error_message_ s = EmptyString)).

(** The first critical section of the callback, for a failed fragment. *)
Definition record_error (s : PqpPipelineScheduler) (r : FragmentExecutionResult) : PqpPipelineScheduler :=
  mkPqpPipelineScheduler (tasks_ s)
    ("Worker with id: " +:+ worker_id r +:+ " in pipeline " +:+ result_pipeline_id r +:+
     " has thrown an error: " +:+ message r +:+ String (Ascii.ascii_of_nat 10) EmptyString).

Definition add_result (r : FragmentExecutionResult) (task : PqpPipelineTask) : PqpPipelineTask :=
  mkPqpPipelineTask (pqp_pipeline task) (wrap_uint64 (fragments_to_finish_count task - 1))
    (pipeline_predecessors_to_finish_count task) (fragment_execution_results task ++ [r]) (task_state task).

Definition decrement_predecessors (task : PqpPipelineTask) : PqpPipelineTask :=
  mkPqpPipelineTask (pqp_pipeline task) (fragments_to_finish_count task)
    (wrap_uint64 (pipeline_predecessors_to_finish_count task - 1)) (fragment_execution_results task) (task_state task).

(** The second critical section: count the fragment; when it was the last one of its
    pipeline, finish the pipeline and submit what has become ready. *)
Definition record_result (s : PqpPipelineScheduler) (pipeline_id : string) (r : FragmentExecutionResult)
    : result (PqpPipelineScheduler * list PqpPipeline) :=
  match tasks_ s with
  | [] => _ ← assert_ (HasError s) AssertionFailed; Ok (s, [])
  | _ =>
      task ← map_at (tasks_ s) pipeline_id;
      let task' := add_result r task in
      if (fragments_to_finish_count task' =? 0)%Z then
        tasks ← foldR (λ m successor, _ ← map_at m successor; Ok (supdate decrement_predecessors successor m))
          (supdate (λ t, set_state kFinished (add_result r t)) pipeline_id (tasks_ s))
          (Successors (pqp_pipeline task));
        let '(tasks', submitted) := SubmitTasksWithFinishedPredecessors tasks in
        Ok (mkPqpPipelineScheduler tasks' (error_message_ s), submitted)
      else Ok (mkPqpPipelineScheduler (supdate (add_result r) pipeline_id (tasks_ s)) (error_message_ s), [])
  end.

(** [Execute]: what is returned once the wait is over.  The result of the query is the first
    target object of the last pipeline, in the order of the map, that has no successors. *)
Definition execution_done (s : PqpPipelineScheduler) : bool := AllTasksFinished s || HasError s.

Definition final_result (s : PqpPipelineScheduler) : result (option ObjectReference) :=
  foldR (λ acc p,
    match Successors (pqp_pipeline p.2) with
    | [] => d ← vec_get (FragmentDefinitions (pqp_pipeline p.2)) 0; Ok (Some (target_object d))
    | _ => Ok acc
    end) None (tasks_ s).

(** ** The system: the scheduler and an executor that answers once per fragment *)
Record System : Type := mkSystem {
  scheduler : PqpPipelineScheduler;
  owed : list string;                                       (* fragments without an answer *)
  failed : list (string * FragmentExecutionResult) }.       (* callbacks between their sections *)

Definition calls (submitted : list PqpPipeline) : list string :=
  concat ((λ p, replicate (length (FragmentDefinitions p)) (Identity p)) <$> submitted).

Inductive event : Set :=
  | Answer (k : nat) (r : FragmentExecutionResult)   (* the answer for the k-th owed fragment *)
  | Resume (k : nat).                                (* the second section of a failed callback *)

Definition perform (sys : System) (e : event) : result System :=
  match e with
  | Answer k r =>
      id ← vec_get (owed sys) k;
      let rest := delete k (owed sys) in
      if is_success r then
        '(s, submitted) ← record_result (scheduler sys) id r;
        Ok (mkSystem s (rest ++ calls submitted) (failed sys))
      else Ok (mkSystem (record_error (scheduler sys) r) rest (failed sys ++ [(id, r)]))
  | Resume k =>
      '(id, r) ← vec_get (failed sys) k;
      '(s, submitted) ← record_result (scheduler sys) id r;
      Ok (mkSystem s (owed sys ++ calls submitted) (delete k (failed sys)))
  end.

(** [Execute] up to the wait. *)
Definition start (pqp_pipelines : list PqpPipeline) : result System :=
  s ← make_PqpPipelineScheduler pqp_pipelines;
  let '(tasks, submitted) := SubmitTasksWithFinishedPredecessors (tasks_ s) in
  Ok (mkSystem (mkPqpPipelineScheduler tasks (error_message_ s)) (calls submitted) []).

Definition run (sys : System) (events : list event) : result System := foldR perform sys events.
