(* ===== verification/PipelineSchedulerCorrect.v ===== *)
(** * Correctness of the coordinator's pipeline scheduler

    The invariant of [PipelineScheduler] under every order of answers, and what follows from
    it: pipelines are submitted once and after their predecessors, a run cannot go on for
    ever, and when nothing is outstanding every pipeline is finished. *)

From S2P Require Export PipelineScheduler.

(** How often a string occurs in a list. *)
Definition occurrences (i : string) (l : list string) : nat := length (filter (λ x, x = i) l).

Lemma occurrences_cons i x l :
  occurrences i (x :: l) = ((if decide (x = i) then 1 else 0) + occurrences i l)%nat.
Proof. unfold occurrences. rewrite filter_cons. by destruct (decide (x = i)). Qed.

Lemma occurrences_app i l k : occurrences i (l ++ k) = (occurrences i l + occurrences i k)%nat.
Proof. unfold occurrences. by rewrite filter_app, length_app. Qed.

Lemma occurrences_replicate i n x : occurrences i (replicate n x) = if decide (x = i) then n else 0%nat.
Proof.
  induction n as [|n IH]; [by destruct (decide _)|]. cbn [replicate]. rewrite occurrences_cons, IH.
  by destruct (decide (x = i)).
Qed.

Lemma occurrences_pos i l : (0 < occurrences i l)%nat ↔ i ∈ l.
Proof.
  induction l as [|x l IH]; [split; [cbn; lia|by intros ?%elem_of_nil]|].
  rewrite occurrences_cons, elem_of_cons. destruct (decide (x = i)) as [->|]; [split; [by left|lia]|].
  rewrite <- IH. cbn. split; [by right|intros [->|]; [done|done]].
Qed.

Lemma occurrences_delete i k x l :
  l !! k = Some x → occurrences i l = ((if decide (x = i) then 1 else 0) + occurrences i (delete k l))%nat.
Proof.
  revert k. induction l as [|y l IH]; intros [|k] H; try done; cbn in H.
  - injection H as ->. by rewrite occurrences_cons.
  - change (delete (S k) (y :: l)) with (y :: delete k l). rewrite !occurrences_cons, (IH k H). lia.
Qed.

(** Edges made by [SetAsPredecessorOf] are listed alike by both pipelines, which is what
    [wp_edges] below asks for. *)
Lemma SetAsPredecessorOf_edges (m : gmap string PqpPipeline) predecessor successor :
  is_Some (m !! predecessor) → is_Some (m !! successor) →
  (∀ i j p q, m !! i = Some p → m !! j = Some q → occurrences j (Successors p) = occurrences i (Predecessors q)) →
  ∀ i j p q, SetAsPredecessorOf predecessor successor m !! i = Some p →
    SetAsPredecessorOf predecessor successor m !! j = Some q →
    occurrences j (Successors p) = occurrences i (Predecessors q).
Proof.
  intros [a Ha] [b Hb] H i j p q Hi Hj. unfold SetAsPredecessorOf in Hi, Hj.
  assert (∀ k r, alter (λ p, mkPqpPipeline (Identity p) (FragmentDefinitions p) (Predecessors p) (Successors p ++ [successor]))
      predecessor (alter (λ p, mkPqpPipeline (Identity p) (FragmentDefinitions p) (Predecessors p ++ [predecessor]) (Successors p))
      successor m) !! k = Some r → ∃ o, m !! k = Some o ∧
      Successors r = Successors o ++ (if decide (k = predecessor) then [successor] else []) ∧
      Predecessors r = Predecessors o ++ (if decide (k = successor) then [predecessor] else [])) as Hr.
  { intros k r Hk. destruct (decide (k = predecessor)) as [E|E], (decide (k = successor)) as [F|F]; subst;
      repeat (rewrite lookup_alter_eq in Hk || rewrite lookup_alter_ne in Hk by congruence);
      [| | |exists r; by rewrite !app_nil_r]; apply fmap_Some in Hk as (o & Hk & ->).
    - apply fmap_Some in Hk as (o' & Hk & ->). by exists o'.
    - exists o. cbn. by rewrite app_nil_r.
    - exists o. cbn. by rewrite app_nil_r. }
  destruct (Hr _ _ Hi) as (p0 & Hp & -> & _), (Hr _ _ Hj) as (q0 & Hq & _ & ->).
  rewrite !occurrences_app, (H i j p0 q0 Hp Hq). f_equal.
  destruct (decide (i = predecessor)), (decide (j = successor)); subst; rewrite ?occurrences_cons;
    rewrite ?decide_True, ?decide_False by congruence; done.
Qed.

(** ** Well-formed pipelines *)
Section Pipelines.
Variable ps : list PqpPipeline.

(** Identities are unique and below the width of [size_t]; the pipelines are closed under
    their links, and predecessors and successors list the same edges. *)
Record wf_pipelines : Prop := {
  wp_ids : NoDup (Identity <$> ps);
  wp_fragments : Forall (λ p, FragmentDefinitions p ≠ [] ∧ (Z.of_nat (length (FragmentDefinitions p)) < 2 ^ 64)%Z ∧
    (Z.of_nat (length (Predecessors p)) < 2 ^ 64)%Z) ps;
  wp_closed : Forall (λ p, Forall (λ i, i ∈ Identity <$> ps) (Successors p ++ Predecessors p)) ps;
  wp_edges : Forall (λ p, Forall (λ q,
    occurrences (Identity q) (Successors p) = occurrences (Identity p) (Predecessors q)) ps) ps }.

(** The dependencies can be ranked. *)
Definition acyclic : Prop :=
  ∃ rank : string → nat, Forall (λ p, Forall (λ i, (rank i < rank (Identity p))%nat) (Predecessors p)) ps.

Abbreviation Tasks := (list (string * PqpPipelineTask)).

Definition is_unfinished (m : Tasks) (i : string) : bool :=
  match slookup i m with Some t => negb (bool_decide (task_state t = kFinished)) | None => true end.

Definition unfinished (m : Tasks) (l : list string) : nat := length (filter (λ i, is_unfinished m i = true) l).

Abbreviation fragment_count := (λ t, length (FragmentDefinitions (pqp_pipeline t))).
Abbreviation result_count := (λ t, length (fragment_execution_results t)).

(** A task whose pipeline has [pend] answers outstanding.  [swept] says that ready tasks have
    been submitted. *)
Record task_ok (swept : Prop) (m : Tasks) (pend : nat) (i : string) (t : PqpPipelineTask) : Prop := {
  to_pipeline : pqp_pipeline t ∈ ps ∧ Identity (pqp_pipeline t) = i;
  to_fragments : fragments_to_finish_count t = Z.of_nat (fragment_count t - result_count t);
  to_predecessors : pipeline_predecessors_to_finish_count t = Z.of_nat (unfinished m (Predecessors (pqp_pipeline t)));
  to_state : match task_state t with
    | kWaiting => fragment_execution_results t = [] ∧ pend = 0%nat ∧
        (swept → (0 < unfinished m (Predecessors (pqp_pipeline t)))%nat)
    | kRunning => (result_count t + pend = fragment_count t)%nat ∧ (result_count t < fragment_count t)%nat ∧
        unfinished m (Predecessors (pqp_pipeline t)) = 0%nat
    | kFinished => result_count t = fragment_count t ∧ pend = 0%nat ∧
        unfinished m (Predecessors (pqp_pipeline t)) = 0%nat
    end }.

Record tasks_ok (swept : Prop) (m : Tasks) (pend : string → nat) : Prop := {
  tk_keys : NoDup m.*1;
  tk_domain : ∀ i, i ∈ Identity <$> ps → is_Some (slookup i m);
  tk_tasks : ∀ i t, slookup i m = Some t → task_ok swept m (pend i) i t;
  tk_pending : ∀ i, (0 < pend i)%nat → is_Some (slookup i m) }.

Lemma unfinished_ext m m' l : (∀ i, is_unfinished m i = is_unfinished m' i) → unfinished m l = unfinished m' l.
Proof.
  intros H. unfold unfinished. f_equal. apply list_filter_iff. intros i. by rewrite H.
Qed.

(** ** Submitting what is ready *)
Definition submitted_count (m : Tasks) (i : string) : nat :=
  match slookup i m with Some t => if ready t then fragment_count t else 0%nat | None => 0%nat end.

Lemma slookup_sweep m i :
  slookup i (SubmitTasksWithFinishedPredecessors m).1 =
    (λ t, if ready t then set_state kRunning t else t) <$> slookup i m.
Proof.
  cbn. induction m as [|[k t] m IH]; cbn; [done|]. destruct (ready t) eqn:Hr; cbn;
    destruct (decide (i = k)); cbn; by rewrite ?Hr.
Qed.

Lemma calls_cons p l : calls (p :: l) = replicate (length (FragmentDefinitions p)) (Identity p) ++ calls l.
Proof. done. Qed.

Lemma calls_sweep m i :
  NoDup m.*1 → (∀ k t, slookup k m = Some t → Identity (pqp_pipeline t) = k) →
  occurrences i (calls (SubmitTasksWithFinishedPredecessors m).2) = submitted_count m i.
Proof.
  unfold submitted_count. cbn [SubmitTasksWithFinishedPredecessors snd].
  induction m as [|[k t] m IH]; intros Hnd Hid; [done|].
  apply NoDup_cons in Hnd as [Hk Hnd]. rewrite filter_cons.
  assert (Identity (pqp_pipeline t) = k) as Ht by (apply Hid; cbn; by rewrite decide_True).
  assert (∀ k' t', slookup k' m = Some t' → Identity (pqp_pipeline t') = k') as Hid'.
  { intros k' t' H. apply Hid. cbn. rewrite decide_False; [done|]. intros ->.
    apply slookup_elem, (list_elem_of_fmap_2 fst) in H. done. }
  specialize (IH Hnd Hid'). cbn [slookup snd]. destruct (decide (ready t = true)) as [Hr|Hr].
  - rewrite fmap_cons. rewrite calls_cons, occurrences_app, occurrences_replicate. cbn [compose snd].
    rewrite Ht, IH.
    destruct (decide (k = i)) as [<-|Hne].
    + rewrite decide_True, Hr by done. rewrite (proj2 (slookup_None k m)) by done. lia.
    + by rewrite decide_False by congruence.
  - rewrite IH. destruct (decide (i = k)) as [->|]; [|done].
    destruct (ready t); [done|]. by rewrite (proj2 (slookup_None k m)).
Qed.

Lemma sweep_ok m pend :
  wf_pipelines → tasks_ok False m pend →
  tasks_ok True (SubmitTasksWithFinishedPredecessors m).1
    (λ i, (pend i + occurrences i (calls (SubmitTasksWithFinishedPredecessors m).2))%nat).
Proof.
  intros Hwf [Hk Hd Ht Hp].
  assert (∀ i, is_unfinished (SubmitTasksWithFinishedPredecessors m).1 i = is_unfinished m i) as Hu.
  { intros i. unfold is_unfinished. rewrite slookup_sweep. destruct (slookup i m) as [t|]; [cbn|done].
    unfold ready. destruct (task_state t) eqn:Hs; cbn; try (by rewrite andb_false_r, Hs).
    destruct (_ && _); cbn; by rewrite ?Hs. }
  assert (∀ i, occurrences i (calls (SubmitTasksWithFinishedPredecessors m).2) = submitted_count m i) as Hc.
  { intros i. apply calls_sweep; [done|]. intros k t H. by apply (Ht k t H). }
  assert ((SubmitTasksWithFinishedPredecessors m).1.*1 = m.*1) as Hkeys.
  { cbn. rewrite <- list_fmap_compose. apply list_fmap_ext. intros _ [k t] _. cbn. by destruct (ready t). }
  split.
  - by rewrite Hkeys.
  - intros i Hi. rewrite slookup_sweep. destruct (Hd i Hi) as [t ->]. by eexists.
  - intros i t' H. rewrite slookup_sweep in H. apply fmap_Some in H as (t & Hit & ->).
    rewrite Hc. unfold submitted_count. rewrite Hit. destruct (Ht i t Hit) as [Hpip Hf Hpre Hst].
    pose proof (unfinished_ext _ _ (Predecessors (pqp_pipeline t)) Hu) as Hue.
    destruct (ready t) eqn:Hr.
    + unfold ready in Hr. apply andb_true_iff in Hr as [H0 Hw]. apply bool_decide_eq_true in Hw.
      apply Z.eqb_eq in H0. rewrite Hw in Hst. destruct Hst as (Hres & Hpend & _).
      assert (FragmentDefinitions (pqp_pipeline t) ≠ []) as Hne.
      { pose proof (wp_fragments Hwf) as Hfr. rewrite Forall_forall in Hfr. by apply Hfr, Hpip. }
      split; cbn [set_state pqp_pipeline fragments_to_finish_count pipeline_predecessors_to_finish_count
        fragment_execution_results task_state]; rewrite ?Hue; try done.
      rewrite Hres. cbn. split; [lia|]. split; [|lia]. destruct (FragmentDefinitions (pqp_pipeline t)); [done|cbn; lia].
    + rewrite Nat.add_0_r. split; rewrite ?Hue; try done. destruct (task_state t) eqn:Hs; [|done|done].
      destruct Hst as (Hres & Hpend & _). split; [done|]. split; [done|]. intros _.
      unfold ready in Hr. rewrite Hs, bool_decide_true, andb_true_r in Hr by done. apply Z.eqb_neq in Hr. lia.
  - intros i Hi. rewrite slookup_sweep. rewrite Hc in Hi. unfold submitted_count in Hi.
    destruct (slookup i m) eqn:Him; [by eexists|]. destruct (Hp i) as [t Ht']; [lia|congruence].
Qed.

(** ** One answer *)
Lemma decrement_iter n t :
  (Z.of_nat n <= pipeline_predecessors_to_finish_count t < 2 ^ 64)%Z →
  Nat.iter n decrement_predecessors t =
    mkPqpPipelineTask (pqp_pipeline t) (fragments_to_finish_count t)
      (pipeline_predecessors_to_finish_count t - Z.of_nat n) (fragment_execution_results t) (task_state t).
Proof.
  intros Hn. induction n as [|n IH]; [destruct t; cbn; f_equal; lia|].
  change (Nat.iter (S n) decrement_predecessors t) with (decrement_predecessors (Nat.iter n decrement_predecessors t)).
  rewrite IH by lia. unfold decrement_predecessors. cbn [pqp_pipeline
    fragments_to_finish_count pipeline_predecessors_to_finish_count fragment_execution_results task_state].
  f_equal. unfold wrap_uint64. rewrite Z.mod_small; lia.
Qed.

Lemma decrement_successors (l : list string) (m : Tasks) :
  Forall (λ i, is_Some (slookup i m)) l →
  ∃ m', foldR (λ m i, _ ← map_at m i; Ok (supdate decrement_predecessors i m)) m l = Ok m' ∧ m'.*1 = m.*1 ∧
    ∀ i, slookup i m' = Nat.iter (occurrences i l) decrement_predecessors <$> slookup i m.
Proof.
  revert m. induction l as [|x l IH]; intros m H.
  - exists m. split; [done|]. split; [done|]. intros i. by destruct (slookup i m).
  - apply Forall_cons in H as [[t Hx] H]. destruct (IH (supdate decrement_predecessors x m)) as (m' & Hm & Hk & Hl).
    { eapply Forall_impl; [exact H|]. intros i [u Hu]. rewrite slookup_supdate, Hu. by destruct (decide _); eexists. }
    exists m'. split; [cbn; unfold map_at; rewrite Hx; exact Hm|]. split; [by rewrite Hk, supdate_keys|].
    intros i. rewrite Hl, slookup_supdate, occurrences_cons. destruct (decide (i = x)) as [->|].
    + rewrite decide_True by done. rewrite Hx. cbn [fmap option_fmap option_map]. f_equal.
      symmetry. apply (Nat.iter_succ_r (occurrences x l)).
    + by rewrite decide_False.
Qed.

Lemma unfinished_le m l : (unfinished m l <= length l)%nat.
Proof. apply length_filter. Qed.

(** Finishing one task takes its occurrences out of what is unfinished. *)
Lemma unfinished_finish m m' id l :
  is_unfinished m id = true → is_unfinished m' id = false →
  (∀ i, i ≠ id → is_unfinished m' i = is_unfinished m i) →
  unfinished m l = (unfinished m' l + occurrences id l)%nat.
Proof.
  intros H H' Ho. unfold unfinished. induction l as [|x l IH]; [done|].
  rewrite !filter_cons, occurrences_cons. destruct (decide (x = id)) as [->|Hne].
  - rewrite decide_True, decide_False by congruence. cbn [length]. lia.
  - rewrite Ho by done. destruct (decide (is_unfinished m x = true)); cbn [length]; lia.
Qed.

Lemma count_lt p l :
  wf_pipelines → p ∈ ps → l = Predecessors p ∨ l = Successors p →
  Forall (λ i, i ∈ Identity <$> ps) l.
Proof.
  intros Hwf Hp Hl. pose proof (wp_closed Hwf) as Hc. rewrite Forall_forall in Hc.
  specialize (Hc p Hp). apply Forall_app in Hc as [? ?]. by destruct Hl as [->| ->].
Qed.

Lemma map_at_tasks_ok swept m pend id :
  tasks_ok swept m pend → (0 < pend id)%nat → ∃ t, map_at m id = Ok t ∧ slookup id m = Some t ∧
    task_state t = kRunning ∧ task_ok swept m (pend id) id t.
Proof.
  intros Hok Hp. destruct (tk_pending _ _ _ Hok id Hp) as [t Ht]. exists t.
  pose proof (tk_tasks _ _ _ Hok id t Ht) as Htk. unfold map_at. rewrite Ht. split; [done|]. split; [done|].
  split; [|done]. pose proof (to_state _ _ _ _ _ Htk) as Hst.
  destruct (task_state t); [destruct Hst as (_ & ? & _); lia|done|destruct Hst as (_ & ? & _); lia].
Qed.

(** The answer of a fragment that is not its pipeline's last. *)
Lemma add_result_ok m pend id r t :
  wf_pipelines → tasks_ok True m pend → (0 < pend id)%nat → slookup id m = Some t →
  (fragments_to_finish_count (add_result r t) ≠ 0)%Z →
  tasks_ok True (supdate (add_result r) id m) (λ i, (pend i - if decide (id = i) then 1 else 0)%nat).
Proof.
  intros Hwf Hok Hp Ht Hnz. destruct (map_at_tasks_ok _ _ _ _ Hok Hp) as (t' & _ & Ht' & Hrun & Htk).
  rewrite Ht in Ht'. injection Ht' as <-. pose proof Hok as [Hk Hd Hts Hpd].
  assert (∀ i, is_unfinished (supdate (add_result r) id m) i = is_unfinished m i) as Hu.
  { intros i. unfold is_unfinished. rewrite slookup_supdate. destruct (decide (i = id)) as [->|]; [|done].
    by rewrite Ht. }
  pose proof (λ l, unfinished_ext _ _ l Hu) as Hue.
  split; [by rewrite supdate_keys| | |].
  - intros i Hi. rewrite slookup_supdate. destruct (Hd i Hi) as [u ->]. by destruct (decide _); eexists.
  - intros i u H. rewrite slookup_supdate in H. destruct (decide (i = id)) as [->|Hne].
    + rewrite Ht in H. injection H as <-. rewrite decide_True by done.
      destruct Htk as [Hpip Hf Hpre Hst]. rewrite Hrun in Hst. destruct Hst as (Hs1 & Hs2 & Hs3).
      pose proof (wp_fragments Hwf) as Hfr. rewrite Forall_forall in Hfr.
      destruct (Hfr _ (proj1 Hpip)) as (_ & Hlt & _).
      assert (fragments_to_finish_count (add_result r t) = Z.of_nat (fragment_count t - result_count t - 1)) as Hc.
      { unfold add_result. cbn [fragments_to_finish_count]. rewrite Hf. unfold wrap_uint64. rewrite Z.mod_small; lia. }
      rewrite Hc in Hnz. split; [done| | |].
      * rewrite Hc. cbn. rewrite length_app. cbn. lia.
      * cbn. by rewrite Hue.
      * cbn. rewrite Hrun, Hue, length_app. cbn. lia.
    + rewrite decide_False by congruence. rewrite Nat.sub_0_r. destruct (Hts i u H) as [Hpip Hf Hpre Hst].
      split; rewrite ?Hue; done.
  - intros i Hi. rewrite slookup_supdate. destruct (Hpd i) as [v Hv]; [lia|]. rewrite Hv.
    destruct (decide (i = id)); eexists; reflexivity.
Qed.

(** The state after the last answer of pipeline [id], before the sweep. *)
Lemma pipeline_finish_ok m m2 pend id r t :
  wf_pipelines → tasks_ok True m pend → (0 < pend id)%nat → slookup id m = Some t →
  fragments_to_finish_count (add_result r t) = 0%Z → m2.*1 = m.*1 →
  (∀ i, slookup i m2 = Nat.iter (occurrences i (Successors (pqp_pipeline t))) decrement_predecessors <$>
     slookup i (supdate (λ t, set_state kFinished (add_result r t)) id m)) →
  tasks_ok False m2 (λ i, (pend i - if decide (id = i) then 1 else 0)%nat).
Proof.
  intros Hwf Hok Hp Ht Hz Hkeys Hm2. destruct (map_at_tasks_ok _ _ _ _ Hok Hp) as (t' & _ & Ht' & Hrun & Htk).
  rewrite Ht in Ht'. injection Ht' as <-. pose proof Hok as [Hk Hd Hts Hpd].
  destruct Htk as [Hpip Hf Hpre Hst]. rewrite Hrun in Hst. destruct Hst as (Hs1 & Hs2 & Hs3).
  pose proof (wp_fragments Hwf) as Hfr. rewrite Forall_forall in Hfr.
  pose proof (wp_edges Hwf) as He. rewrite Forall_forall in He.
  assert (result_count t + 1 = fragment_count t ∧ pend id = 1)%nat as [Hlast Hone].
  { destruct (Hfr _ (proj1 Hpip)) as (_ & Hlt & _). unfold add_result in Hz. cbn [fragments_to_finish_count] in Hz.
    rewrite Hf in Hz. unfold wrap_uint64 in Hz. rewrite Z.mod_small in Hz; lia. }
  assert (∀ n u, task_state (Nat.iter n decrement_predecessors u) = task_state u) as Hst'.
  { intros n u. induction n as [|n IH]; [done|exact IH]. }
  assert (is_unfinished m id = true) as Hui by (unfold is_unfinished; by rewrite Ht, Hrun).
  assert (is_unfinished m2 id = false) as Hui2.
  { unfold is_unfinished. rewrite Hm2, slookup_supdate, decide_True, Ht by done. cbn. by rewrite Hst'. }
  assert (∀ i, i ≠ id → is_unfinished m2 i = is_unfinished m i) as Huo.
  { intros i Hne. unfold is_unfinished. rewrite Hm2, slookup_supdate, decide_False by done.
    destruct (slookup i m); [cbn; by rewrite Hst'|done]. }
  pose proof (λ l, unfinished_finish m m2 id l Hui Hui2 Huo) as Hsplit.
  (* the counter of a task after the decrements *)
  assert (∀ i u, slookup i m = Some u →
    Nat.iter (occurrences i (Successors (pqp_pipeline t))) decrement_predecessors u =
      mkPqpPipelineTask (pqp_pipeline u) (fragments_to_finish_count u)
        (Z.of_nat (unfinished m2 (Predecessors (pqp_pipeline u)))) (fragment_execution_results u) (task_state u)) as Hiter.
  { intros i u Hu. destruct (Hts i u Hu) as [[Hup Huid] _ Hupre _].
    pose proof (He _ (proj1 Hpip)) as He1. rewrite Forall_forall in He1. specialize (He1 _ Hup).
    rewrite Huid, (proj2 Hpip) in He1. pose proof (Hsplit (Predecessors (pqp_pipeline u))) as Hsp.
    pose proof (unfinished_le m (Predecessors (pqp_pipeline u))). destruct (Hfr _ Hup) as (_ & _ & Hlt).
    rewrite decrement_iter by lia. f_equal. lia. }
  split; [by rewrite Hkeys| | |].
  - intros i Hi. rewrite Hm2, slookup_supdate. destruct (Hd i Hi) as [u Hu]. rewrite Hu.
    destruct (decide (i = id)); eexists; reflexivity.
  - intros i u' H. rewrite Hm2, slookup_supdate in H. destruct (decide (i = id)) as [->|Hne].
    + rewrite Ht in H. cbn [fmap option_fmap option_map] in H. injection H as <-. rewrite decide_True by done.
      assert (Nat.iter (occurrences id (Successors (pqp_pipeline t))) decrement_predecessors
        (set_state kFinished (add_result r t)) = set_state kFinished (add_result r t)) as ->.
      { assert (occurrences id (Successors (pqp_pipeline t)) = 0%nat) as ->; [|done].
        pose proof (He _ (proj1 Hpip)) as He1. rewrite Forall_forall in He1. specialize (He1 _ (proj1 Hpip)).
        rewrite (proj2 Hpip) in He1. pose proof (Hsplit (Predecessors (pqp_pipeline t))). lia. }
      pose proof (Hsplit (Predecessors (pqp_pipeline t))) as Hsp.
      split; cbn [set_state add_result pqp_pipeline task_state fragment_execution_results
        pipeline_predecessors_to_finish_count fragments_to_finish_count]; [done| | |]; rewrite ?length_app; cbn [length].
      * unfold add_result in Hz. cbn [fragments_to_finish_count] in Hz. rewrite Hz. lia.
      * rewrite Hpre, Hs3. f_equal. lia.
      * lia.
    + destruct (slookup i m) as [u|] eqn:Hu; [|done]. cbn [fmap option_fmap option_map] in H. rewrite (Hiter i u Hu) in H. injection H as <-.
      rewrite decide_False by congruence. rewrite Nat.sub_0_r. destruct (Hts i u Hu) as [Hup Huf Hupre Hust].
      pose proof (Hsplit (Predecessors (pqp_pipeline u))) as Hsp.
      split; cbn [pqp_pipeline task_state fragment_execution_results
        pipeline_predecessors_to_finish_count fragments_to_finish_count]; [done|done|done|].
      destruct (task_state u); [|split; [|split]; try lia; tauto|lia].
      destruct Hust as (? & ? & _). done.
  - intros i Hi. rewrite Hm2, slookup_supdate. destruct (Hpd i) as [u Hu]; [lia|]. rewrite Hu.
    destruct (decide (i = id)); eexists; reflexivity.
Qed.

(** The fragments that are not submitted yet. *)
Definition weight (t : PqpPipelineTask) : nat :=
  if decide (task_state t = kWaiting) then fragment_count t else 0%nat.
Definition waiting_fragments (m : Tasks) : nat := sum_list_with (weight ∘ snd) m.

Lemma waiting_supdate f id m t :
  slookup id m = Some t → weight (f t) = weight t → waiting_fragments (supdate f id m) = waiting_fragments m.
Proof.
  unfold waiting_fragments. intros H Hw. induction m as [|[k u] m IH]; [done|]. cbn in *.
  destruct (decide (id = k)) as [<-|]; [injection H as ->; cbn; lia|]. cbn. by rewrite IH.
Qed.

Lemma waiting_decrements l m m' :
  foldR (λ m i, _ ← map_at m i; Ok (supdate decrement_predecessors i m)) m l = Ok m' →
  waiting_fragments m' = waiting_fragments m.
Proof.
  revert m. induction l as [|x l IH]; intros m; cbn; [by intros [= ->]|]. unfold map_at at 1.
  destruct (slookup x m) as [t|] eqn:Hx; cbn; [|done]. intros H. rewrite (IH _ H). by eapply waiting_supdate.
Qed.

Lemma waiting_sweep m :
  (waiting_fragments (SubmitTasksWithFinishedPredecessors m).1 +
   length (calls (SubmitTasksWithFinishedPredecessors m).2) = waiting_fragments m)%nat.
Proof.
  unfold waiting_fragments. cbn [SubmitTasksWithFinishedPredecessors fst snd].
  induction m as [|[k t] m IH]; [done|]. rewrite filter_cons, fmap_cons. cbn [snd sum_list_with compose].
  destruct (ready t) eqn:Hr.
  - rewrite decide_True by done. rewrite fmap_cons, calls_cons, length_app, length_replicate. cbn [compose snd fst sum_list_with].
    unfold ready in Hr. apply andb_true_iff in Hr as [_ Hr]. apply bool_decide_eq_true in Hr.
    unfold weight at 1 3. cbn [set_state task_state]. rewrite decide_False by done.
    rewrite (decide_True _ _ Hr). cbn in IH |- *. lia.
  - rewrite decide_False by congruence. cbn [compose snd fst sum_list_with]. cbn in IH |- *. lia.
Qed.

(** ** The second critical section *)
Definition pending_after (pend : string → nat) (id : string) (submitted : list PqpPipeline) (i : string) : nat :=
  (pend i - (if decide (id = i) then 1 else 0) + occurrences i (calls submitted))%nat.

Lemma tasks_ok_proper swept m pend pend' :
  (∀ i, pend i = pend' i) → tasks_ok swept m pend → tasks_ok swept m pend'.
Proof.
  intros He [Hk Hd Ht Hp]. split; [done|done| |]; intros i; rewrite <- He; auto.
Qed.

Lemma record_result_ok s pend id r :
  wf_pipelines → tasks_ok True (tasks_ s) pend → (0 < pend id)%nat →
  ∃ s' submitted, record_result s id r = Ok (s', submitted) ∧ error_message_ s' = error_message_ s ∧
    tasks_ok True (tasks_ s') (pending_after pend id submitted) ∧
    (waiting_fragments (tasks_ s') + length (calls submitted) = waiting_fragments (tasks_ s))%nat.
Proof.
  intros Hwf Hok Hp. destruct (map_at_tasks_ok _ _ _ _ Hok Hp) as (t & Hat & Ht & Hrun & Htk).
  assert (Hw : weight t = 0%nat) by (unfold weight; by rewrite Hrun).
  assert (record_result s id r =
    if (fragments_to_finish_count (add_result r t) =? 0)%Z then
      tasks ← foldR (λ m successor, _ ← map_at m successor; Ok (supdate decrement_predecessors successor m))
        (supdate (λ t, set_state kFinished (add_result r t)) id (tasks_ s)) (Successors (pqp_pipeline t));
      let '(tasks', submitted) := SubmitTasksWithFinishedPredecessors tasks in
      Ok (mkPqpPipelineScheduler tasks' (error_message_ s), submitted)
    else Ok (mkPqpPipelineScheduler (supdate (add_result r) id (tasks_ s)) (error_message_ s), [])) as ->.
  { unfold record_result. rewrite Hat. by destruct (tasks_ s). }
  destruct (_ =? 0)%Z eqn:Hz; [apply Z.eqb_eq in Hz|apply Z.eqb_neq in Hz].
  - destruct (decrement_successors (Successors (pqp_pipeline t))
      (supdate (λ t, set_state kFinished (add_result r t)) id (tasks_ s))) as (m2 & Hf & Hk & Hl).
    { pose proof (count_lt _ _ Hwf (proj1 (to_pipeline _ _ _ _ _ Htk)) (or_intror eq_refl)) as Hc.
      eapply Forall_impl; [exact Hc|]. intros i Hi. rewrite slookup_supdate.
      destruct (tk_domain _ _ _ Hok i Hi) as [v Hv]. rewrite Hv. destruct (decide (i = id)); eexists; reflexivity. }
    rewrite supdate_keys in Hk. pose proof (pipeline_finish_ok _ _ _ _ _ _ Hwf Hok Hp Ht Hz Hk Hl) as Hfin.
    rewrite Hf. cbn [rbind]. eexists _, _. split; [reflexivity|]. split; [done|].
    cbn [tasks_]. split; [exact (sweep_ok _ _ Hwf Hfin)|]. pose proof (waiting_sweep m2) as Hs.
    rewrite (waiting_decrements _ _ _ Hf) in Hs. etransitivity; [exact Hs|]. eapply waiting_supdate; [exact Ht|].
    by rewrite Hw.
  - eexists _, _. split; [reflexivity|]. split; [done|]. cbn [tasks_]. split.
    + eapply tasks_ok_proper; [|by eapply add_result_ok]. intros i. unfold pending_after, calls. cbn. lia.
    + cbn. rewrite Nat.add_0_r. by eapply waiting_supdate.
Qed.

(** ** The system *)
Inductive reachable : System → Prop :=
  | reachable_start sys : start ps = Ok sys → reachable sys
  | reachable_step sys e sys' : reachable sys → perform sys e = Ok sys' → reachable sys'.

Definition enabled (sys : System) (e : event) : Prop :=
  match e with Answer k _ => (k < length (owed sys))%nat | Resume k => (k < length (failed sys))%nat end.

(** The answers of a pipeline that the scheduler has not counted. *)
Definition outstanding (sys : System) (i : string) : nat :=
  (occurrences i (owed sys) + occurrences i (failed sys).*1)%nat.

Definition system_ok (sys : System) : Prop := tasks_ok True (tasks_ (scheduler sys)) (outstanding sys).

(** What is left to do. *)
Definition measure (sys : System) : nat :=
  (2 * waiting_fragments (tasks_ (scheduler sys)) + 2 * length (owed sys) + length (failed sys))%nat.

Lemma perform_ok sys e :
  wf_pipelines → system_ok sys → enabled sys e →
  ∃ sys', perform sys e = Ok sys' ∧ system_ok sys' ∧ (measure sys' < measure sys)%nat ∧
    HasError (scheduler sys') = (match e with Answer _ r => negb (is_success r) | Resume _ => false end || HasError (scheduler sys)).
Proof.
  intros Hwf Hok He. unfold system_ok, measure in *. destruct e as [k r|k]; cbn in He.
  - apply lookup_lt_is_Some in He as [id Hid]. cbn. unfold vec_get. rewrite Hid. cbn [of_option rbind].
    pose proof (λ i, occurrences_delete i _ _ _ Hid) as Hocc. pose proof (length_delete _ k (mk_is_Some _ _ Hid)) as Hlen.
    pose proof (lookup_lt_Some _ _ _ Hid) as Hlt.
    destruct (is_success r).
    + destruct (record_result_ok (scheduler sys) (outstanding sys) id r Hwf Hok) as (s' & sub & Hr & Herr & Hok' & Hw).
      { unfold outstanding. rewrite (Hocc id), decide_True by done. lia. }
      rewrite Hr. cbn [rbind]. eexists. split; [reflexivity|]. cbn [scheduler owed failed]. split; [|split].
      * eapply tasks_ok_proper; [|exact Hok']. intros i. unfold pending_after, outstanding. cbn [owed failed].
        rewrite occurrences_app, (Hocc i). lia.
      * rewrite length_app. lia.
      * unfold HasError. by rewrite Herr.
    + eexists. split; [reflexivity|]. cbn [scheduler owed failed record_error tasks_]. split; [|split].
      * eapply tasks_ok_proper; [|exact Hok]. intros i. unfold outstanding. cbn [owed failed].
        rewrite fmap_app, occurrences_app, (Hocc i). cbn [fmap list_fmap fst]. rewrite occurrences_cons. cbn. lia.
      * rewrite length_app. cbn [length]. lia.
      * done.
  - apply lookup_lt_is_Some in He as [[id r] Hid]. cbn. unfold vec_get. rewrite Hid. cbn [of_option rbind].
    assert ((failed sys).*1 !! k = Some id) as Hid1 by (rewrite list_lookup_fmap, Hid; done).
    pose proof (λ i, occurrences_delete i _ _ _ Hid1) as Hocc. pose proof (length_delete _ k (mk_is_Some _ _ Hid)) as Hlen.
    pose proof (lookup_lt_Some _ _ _ Hid) as Hlt.
    destruct (record_result_ok (scheduler sys) (outstanding sys) id r Hwf Hok) as (s' & sub & Hr & Herr & Hok' & Hw).
    { unfold outstanding. rewrite (Hocc id), decide_True by done. lia. }
    rewrite Hr. cbn [rbind]. eexists. split; [reflexivity|]. cbn [scheduler owed failed]. split; [|split].
    + eapply tasks_ok_proper; [|exact Hok']. intros i. unfold pending_after, outstanding. cbn [owed failed].
      rewrite occurrences_app, (Hocc i), <- list_fmap_delete. lia.
    + rewrite length_app. lia.
    + unfold HasError. by rewrite Herr.
Qed.

Lemma perform_enabled sys e sys' : perform sys e = Ok sys' → enabled sys e.
Proof.
  destruct e as [k r|k]; cbn; unfold vec_get.
  - destruct (owed sys !! k) eqn:Hk; [|done]. intros _. by apply lookup_lt_Some in Hk.
  - destruct (failed sys !! k) eqn:Hk; [|done]. intros _. by apply lookup_lt_Some in Hk.
Qed.

(** ** The constructor and the first submissions *)
Lemma waiting_sinsert k t m : waiting_fragments (sinsert k t m) = (weight t + waiting_fragments m)%nat.
Proof.
  unfold waiting_fragments. induction m as [|[k' u] m IH]; [cbn; lia|]. cbn.
  destruct (String.ltb k k'); cbn; lia.
Qed.

Lemma make_tasks (l : list PqpPipeline) (m : Tasks) :
  Forall (λ p, FragmentDefinitions p ≠ []) l → NoDup (Identity <$> l) →
  NoDup m.*1 → (∀ p, p ∈ l → slookup (Identity p) m = None) →
  ∃ m', foldR (λ m pipeline,
      _ ← assert_ (bool_decide (FragmentDefinitions pipeline ≠ [])) AssertionFailed;
      Ok (emplace (Identity pipeline) (new_task pipeline) m)) m l = Ok m' ∧ NoDup m'.*1 ∧
    (∀ p, p ∈ l → slookup (Identity p) m' = Some (new_task p)) ∧
    (∀ i t, slookup i m' = Some t → slookup i m = Some t ∨ ∃ p, p ∈ l ∧ i = Identity p ∧ t = new_task p) ∧
    (∀ i t, slookup i m = Some t → slookup i m' = Some t) ∧
    waiting_fragments m' = (waiting_fragments m + sum_list_with (length ∘ FragmentDefinitions) l)%nat.
Proof.
  revert m. induction l as [|p l IH]; intros m Hne Hnd Hm Hfresh.
  - exists m. cbn. split; [done|]. split; [done|]. split; [by intros p ?%elem_of_nil|].
    split; [by left|]. split; [done|lia].
  - apply Forall_cons in Hne as [Hp Hne]. cbn in Hnd. apply NoDup_cons in Hnd as [Hpl Hnd].
    assert (slookup (Identity p) m = None) as Hpm by (apply Hfresh; by left).
    assert (emplace (Identity p) (new_task p) m = sinsert (Identity p) (new_task p) m) as Hemp
      by (unfold emplace; by rewrite Hpm).
    assert (∀ i, slookup i (emplace (Identity p) (new_task p) m) =
      if decide (i = Identity p) then Some (new_task p) else slookup i m) as Hl.
    { intros i. by rewrite Hemp, slookup_sinsert. }
    destruct (IH (emplace (Identity p) (new_task p) m)) as (m' & Hf & Hm' & Hin & Hout & Hkeep & Hw); [done|done| | |].
    + by apply emplace_NoDup.
    + intros q Hq. rewrite Hl, decide_False; [apply Hfresh; by right|]. intros Heq. apply Hpl.
      rewrite <- Heq. by apply list_elem_of_fmap_2.
    + exists m'. cbn. rewrite bool_decide_true by done. cbn. split; [done|]. split; [done|].
      split; [|split; [|split]].
      * intros q [->|Hq]%elem_of_cons; [|by apply Hin]. apply Hkeep. by rewrite Hl, decide_True.
      * intros i t H. destruct (Hout i t H) as [H'|(q & Hq & -> & ->)].
        -- rewrite Hl in H'. destruct (decide (i = Identity p)) as [->|]; [|by left].
           injection H' as <-. right. exists p. split; [by left|done].
        -- right. exists q. split; [by right|done].
      * intros i t H. apply Hkeep. rewrite Hl, decide_False; [done|]. intros ->. by rewrite Hpm in H.
      * rewrite Hw, Hemp, waiting_sinsert. change (weight (new_task p)) with (length (FragmentDefinitions p)). cbn. lia.
Qed.

Definition fragments_total : nat := sum_list_with (length ∘ FragmentDefinitions) ps.

Lemma start_ok :
  wf_pipelines → ∃ sys, start ps = Ok sys ∧ system_ok sys ∧ measure sys = (2 * fragments_total)%nat ∧
    HasError (scheduler sys) = false.
Proof.
  intros Hwf. pose proof (wp_fragments Hwf) as Hfr.
  destruct (make_tasks ps []) as (m & Hm & Hnd & Hin & Hout & _ & Hw).
  { eapply Forall_impl; [exact Hfr|]. by intros p (? & _). }
  { apply (wp_ids Hwf). }
  { apply NoDup_nil_2. }
  { done. }
  assert (tasks_ok False m (λ _, 0%nat)) as Hok.
  { assert (∀ i, is_unfinished m i = true) as Hu.
    { intros i. unfold is_unfinished. destruct (slookup i m) as [t|] eqn:Ht; [|done].
      destruct (Hout i t Ht) as [?|(p & _ & _ & ->)]; [done|done]. }
    assert (∀ l, unfinished m l = length l) as Hul.
    { intros l. unfold unfinished. induction l as [|x l IH]; [done|]. rewrite filter_cons, decide_True by apply Hu.
      cbn. by rewrite IH. }
    split; [done| | |intros i; lia].
    - intros i Hi. apply list_elem_of_fmap in Hi as (p & -> & Hp). rewrite (Hin p Hp). by eexists.
    - intros i t Ht. destruct (Hout i t Ht) as [?|(p & Hp & -> & ->)]; [done|].
      split; cbn; rewrite ?Hul; [done|f_equal; lia|done|done]. }
  eexists. split; [|split; [|split]].
  - unfold start, make_PqpPipelineScheduler. rewrite Hm. cbn [rbind tasks_]. reflexivity.
  - eapply tasks_ok_proper; [|exact (sweep_ok _ _ Hwf Hok)]. intros i. unfold outstanding.
    rewrite Nat.add_0_l. symmetry. apply Nat.add_0_r.
  - pose proof (waiting_sweep m) as Hs. unfold measure. cbn [scheduler tasks_ owed failed length].
    cbn [SubmitTasksWithFinishedPredecessors fst snd] in Hs. cbn in Hw. unfold fragments_total. lia.
  - done.
Qed.

Lemma pipeline_reachable_ok sys : wf_pipelines → reachable sys → system_ok sys.
Proof.
  intros Hwf. induction 1 as [sys H|sys e sys' _ IH H].
  - destruct (start_ok Hwf) as (sys' & H' & Hok & _). rewrite H in H'. by injection H' as <-.
  - destruct (perform_ok sys e Hwf IH (perform_enabled _ _ _ H)) as (s & H' & Hok & _).
    rewrite H in H'. by injection H' as <-.
Qed.

Lemma pipeline_run_ok sys events sys' :
  wf_pipelines → reachable sys → run sys events = Ok sys' →
  reachable sys' ∧ (length events + measure sys' <= measure sys)%nat ∧
  HasError (scheduler sys') =
    (existsb (λ e, match e with Answer _ r => negb (is_success r) | Resume _ => false end) events
     || HasError (scheduler sys)).
Proof.
  intros Hwf. revert sys. induction events as [|e events IH]; intros sys Hr H; cbn in H.
  - injection H as ->. done.
  - destruct (perform sys e) as [s|] eqn:He; [|done]. cbn in H.
    destruct (perform_ok sys e Hwf (pipeline_reachable_ok _ Hwf Hr) (perform_enabled _ _ _ He)) as (s' & He' & _ & Hm & Herr).
    rewrite He in He'. injection He' as <-.
    destruct (IH s (reachable_step _ _ _ Hr He) H) as (Hr' & Hlen & Herr'). split; [done|]. split; [cbn [length]; lia|].
    rewrite Herr', Herr. cbn. destruct e; cbn; [|done]. destruct (negb _); cbn; by rewrite ?orb_true_r.
Qed.

(** ** What the invariant says *)
Lemma pipeline_of_task sys p t :
  wf_pipelines → system_ok sys → p ∈ ps → slookup (Identity p) (tasks_ (scheduler sys)) = Some t → pqp_pipeline t = p.
Proof.
  intros Hwf Hok Hp Ht. destruct (to_pipeline _ _ _ _ _ (tk_tasks _ _ _ Hok _ _ Ht)) as [Hin Hid].
  apply list_elem_of_lookup in Hin as [a Ha], Hp as [b Hb].
  assert (a = b) as ->; [|congruence]. eapply NoDup_lookup; [exact (wp_ids Hwf)| |].
  - rewrite list_lookup_fmap, Ha. reflexivity.
  - rewrite list_lookup_fmap, Hb. cbn. by rewrite Hid.
Qed.

Definition is_finished (m : Tasks) (i : string) : Prop :=
  ∃ t, slookup i m = Some t ∧ task_state t = kFinished.

Lemma unfinished_zero m l : unfinished m l = 0%nat ↔ Forall (is_finished m) l.
Proof.
  unfold unfinished. induction l as [|i l IH]; [done|]. rewrite filter_cons, Forall_cons, <- IH.
  assert (is_unfinished m i = false ↔ is_finished m i) as <-.
  { unfold is_unfinished, is_finished. destruct (slookup i m) as [t|]; [|split; [done|by intros (? & ? & _)]].
    rewrite negb_false_iff, bool_decide_eq_true. split; [by exists t|by intros (? & [= ->] & ?)]. }
  destruct (is_unfinished m i); [rewrite decide_True by done|rewrite decide_False by done]; cbn; intuition done.
Qed.

(** With nothing outstanding and ranked dependencies, every task is finished. *)
Lemma quiescent_finished sys :
  wf_pipelines → acyclic → system_ok sys → owed sys = [] → failed sys = [] →
  ∀ p, p ∈ ps → is_finished (tasks_ (scheduler sys)) (Identity p).
Proof.
  intros Hwf [rank Hrank] Hok Ho Hf p. rewrite Forall_forall in Hrank.
  remember (rank (Identity p)) as n eqn:Hn. revert p Hn.
  induction (lt_wf n) as [n _ IH]. intros p Hn Hp.
  assert (outstanding sys (Identity p) = 0%nat) as Hout by (unfold outstanding; by rewrite Ho, Hf).
  destruct (tk_domain _ _ _ Hok (Identity p)) as [t Ht]; [by apply list_elem_of_fmap_2|].
  pose proof (pipeline_of_task _ _ _ Hwf Hok Hp Ht) as Hpt.
  pose proof (to_state _ _ _ _ _ (tk_tasks _ _ _ Hok _ _ Ht)) as Hst. rewrite Hout, Hpt in Hst.
  exists t. split; [done|]. destruct (task_state t); [|destruct Hst as (? & ? & _); lia|done].
  destruct Hst as (_ & _ & Hpos). specialize (Hpos I).
  assert (unfinished (tasks_ (scheduler sys)) (Predecessors p) = 0%nat) as Hz; [|lia].
  apply unfinished_zero, Forall_forall. intros i Hi.
  pose proof (count_lt _ _ Hwf Hp (or_introl eq_refl)) as Hc. rewrite Forall_forall in Hc.
  pose proof (Hc i Hi) as Hi'. apply list_elem_of_fmap in Hi' as (q & -> & Hq).
  specialize (Hrank p Hp). rewrite Forall_forall in Hrank. specialize (Hrank _ Hi).
  eapply IH; [|reflexivity|done]. lia.
Qed.

(** A pipeline of the highest rank has no successors. *)
Lemma last_pipeline :
  wf_pipelines → acyclic → ps ≠ [] → ∃ p, p ∈ ps ∧ Successors p = [].
Proof.
  intros Hwf [rank Hrank] Hne. rewrite Forall_forall in Hrank.
  assert (∃ p, p ∈ ps ∧ ∀ q, q ∈ ps → (rank (Identity q) <= rank (Identity p))%nat) as (p & Hp & Hmax).
  { clear Hwf Hrank. induction ps as [|p l IH]; [done|]. destruct l as [|q l].
    - exists p. split; [by left|]. by intros q [->|[]%elem_of_nil]%elem_of_cons.
    - destruct IH as (m & Hm & Hmax); [done|]. destruct (le_lt_dec (rank (Identity m)) (rank (Identity p))).
      + exists p. split; [by left|]. intros r [->|Hr]%elem_of_cons; [lia|]. specialize (Hmax r Hr). lia.
      + exists m. split; [by right|]. intros r [->|Hr]%elem_of_cons; [lia|]. by apply Hmax. }
  exists p. split; [done|]. destruct (Successors p) as [|i l] eqn:Hs; [done|].
  pose proof (count_lt _ _ Hwf Hp (or_intror eq_refl)) as Hc. rewrite Hs in Hc. apply Forall_cons in Hc as [Hi _].
  apply list_elem_of_fmap in Hi as (q & -> & Hq).
  pose proof (wp_edges Hwf) as He. rewrite Forall_forall in He. specialize (He p Hp). rewrite Forall_forall in He.
  specialize (He q Hq). rewrite Hs, occurrences_cons, decide_True in He by done.
  assert (Identity p ∈ Predecessors q) as Hin by (apply occurrences_pos; lia).
  specialize (Hrank q Hq). rewrite Forall_forall in Hrank. specialize (Hrank _ Hin). specialize (Hmax q Hq). lia.
Qed.

(** The object that a pipeline without successors writes first. *)
Definition is_final_object (o : ObjectReference) : Prop :=
  ∃ p d, p ∈ ps ∧ Successors p = [] ∧ head (FragmentDefinitions p) = Some d ∧ o = target_object d.

Lemma final_result_spec s :
  wf_pipelines → (∀ k t, (k, t) ∈ tasks_ s → pqp_pipeline t ∈ ps) →
  (∃ k t, (k, t) ∈ tasks_ s ∧ Successors (pqp_pipeline t) = []) →
  ∃ o, final_result s = Ok (Some o) ∧ is_final_object o.
Proof.
  intros Hwf Hin Hex. unfold final_result.
  assert (∀ (m : Tasks) acc, (∀ k t, (k, t) ∈ m → pqp_pipeline t ∈ ps) →
    (∃ k t, (k, t) ∈ m ∧ Successors (pqp_pipeline t) = []) ∨ (∃ o, acc = Some o ∧ is_final_object o) →
    ∃ o, foldR (λ acc p,
      match Successors (pqp_pipeline p.2) with
      | [] => d ← vec_get (FragmentDefinitions (pqp_pipeline p.2)) 0; Ok (Some (target_object d))
      | _ => Ok acc
      end) acc m = Ok (Some o) ∧ is_final_object o) as Hgen; [|apply Hgen; auto].
  clear Hin Hex. induction m as [|[k t] m IH]; intros acc Hin Hex.
  - destruct Hex as [(k & t & []%elem_of_nil & _)|(o & -> & Ho)]. by exists o.
  - cbn [foldR snd]. assert (Hm : ∀ k' t', (k', t') ∈ m → pqp_pipeline t' ∈ ps) by (intros; eapply Hin; by right).
    assert (Ht : pqp_pipeline t ∈ ps) by (eapply Hin; by left).
    destruct (Successors (pqp_pipeline t)) as [|x l] eqn:Hs.
    + pose proof (wp_fragments Hwf) as Hf. rewrite Forall_forall in Hf. destruct (Hf _ Ht) as (Hne & _).
      destruct (FragmentDefinitions (pqp_pipeline t)) as [|d ds] eqn:Hd; [done|]. cbn. apply IH; [done|].
      right. eexists. split; [done|]. exists (pqp_pipeline t), d. by rewrite Hd.
    + cbn. apply IH; [done|]. destruct Hex as [(k' & t' & [[= -> ->]|Hin']%elem_of_cons & Hs')|Hex]; [congruence| |by right].
      left. by exists k', t'.
Qed.

(** *** Every reachable state has one task per pipeline *)
Lemma task_pipeline sys k t :
  system_ok sys → (k, t) ∈ tasks_ (scheduler sys) → pqp_pipeline t ∈ ps ∧ Identity (pqp_pipeline t) = k.
Proof.
  intros Hok Hin. pose proof (elem_slookup _ _ _ (tk_keys _ _ _ Hok) Hin) as Hl.
  apply (to_pipeline _ _ _ _ _ (tk_tasks _ _ _ Hok _ _ Hl)).
Qed.

Lemma pipeline_task sys p :
  wf_pipelines → system_ok sys → p ∈ ps → ∃ t, (Identity p, t) ∈ tasks_ (scheduler sys) ∧ pqp_pipeline t = p.
Proof.
  intros Hwf Hok Hp. destruct (tk_domain _ _ _ Hok (Identity p)) as [t Ht]; [by apply list_elem_of_fmap_2|].
  exists t. split; [by apply slookup_elem|by eapply pipeline_of_task].
Qed.

Lemma tasks_pipelines sys :
  wf_pipelines → system_ok sys → (λ p, pqp_pipeline p.2) <$> tasks_ (scheduler sys) ≡ₚ ps.
Proof.
  intros Hwf Hok. assert ((λ p, Identity (pqp_pipeline p.2)) <$> tasks_ (scheduler sys) = (tasks_ (scheduler sys)).*1) as Hids.
  { apply list_fmap_ext. intros i [k t] Hi%list_elem_of_lookup_2. cbn. by apply (task_pipeline sys k t). }
  apply NoDup_Permutation.
  - apply (NoDup_fmap_1 Identity). rewrite <- list_fmap_compose. change (Identity ∘ (λ p : string * PqpPipelineTask, pqp_pipeline p.2)) with
      (λ p : string * PqpPipelineTask, Identity (pqp_pipeline p.2)). rewrite Hids. apply (tk_keys _ _ _ Hok).
  - apply (NoDup_fmap_1 Identity), (wp_ids Hwf).
  - intros p. rewrite list_elem_of_fmap. split.
    + intros ([k t] & -> & Hin). by apply (task_pipeline sys k t).
    + intros Hp. destruct (pipeline_task sys p Hwf Hok Hp) as (t & Hin & Ht). by exists (Identity p, t).
Qed.

Lemma final_object sys :
  wf_pipelines → acyclic → ps ≠ [] → system_ok sys →
  ∃ o, final_result (scheduler sys) = Ok (Some o) ∧ is_final_object o.
Proof.
  intros Hwf Hdag Hne Hok. apply final_result_spec; [done|intros k t Hin; by apply (task_pipeline sys k t)|].
  destruct (last_pipeline Hwf Hdag Hne) as (p & Hp & Hsucc). destruct (pipeline_task sys p Hwf Hok Hp) as (t & Hin & Ht).
  exists (Identity p), t. by rewrite Ht.
Qed.

Lemma quiescent_all_finished sys :
  wf_pipelines → acyclic → system_ok sys → owed sys = [] → failed sys = [] → AllTasksFinished (scheduler sys) = true.
Proof.
  intros Hwf Hdag Hok Ho Hf. apply forallb_forall. intros [k t] Hin%list_elem_of_In.
  pose proof (elem_slookup _ _ _ (tk_keys _ _ _ Hok) Hin) as Hl. destruct (task_pipeline sys k t Hok Hin) as [Hp Hid].
  destruct (quiescent_finished sys Hwf Hdag Hok Ho Hf _ Hp) as (t' & Hl' & Hst). rewrite Hid, Hl in Hl'. injection Hl' as <-.
  by apply bool_decide_eq_true.
Qed.

(** Something can happen, or all is done. *)
Lemma scheduler_progress sys :
  wf_pipelines → acyclic → system_ok sys → (∃ e, enabled sys e) ∨ AllTasksFinished (scheduler sys) = true.
Proof.
  intros Hwf Hdag Hok.
  destruct (owed sys) as [|id l] eqn:Ho; [|left; exists (Answer 0 (mkFragmentExecutionResult id id true id 0 0 0 0)); cbn; rewrite Ho; cbn; lia].
  destruct (failed sys) as [|[id r] l] eqn:Hf; [|left; exists (Resume 0); cbn; rewrite Hf; cbn; lia].
  right. by apply quiescent_all_finished.
Qed.

(** A finished task has one answer per fragment. *)
Lemma finished_results sys k t :
  system_ok sys → AllTasksFinished (scheduler sys) = true → (k, t) ∈ tasks_ (scheduler sys) →
  length (fragment_execution_results t) = length (FragmentDefinitions (pqp_pipeline t)).
Proof.
  intros Hok Hall Hin. pose proof (elem_slookup _ _ _ (tk_keys _ _ _ Hok) Hin) as Hl.
  pose proof (to_state _ _ _ _ _ (tk_tasks _ _ _ Hok _ _ Hl)) as Hst.
  unfold AllTasksFinished in Hall. rewrite forallb_forall in Hall. specialize (Hall (k, t) (proj1 (list_elem_of_In _ _) Hin)).
  apply bool_decide_eq_true in Hall. cbn in Hall. rewrite Hall in Hst. apply Hst.
Qed.
End Pipelines.

(** ** The theorems *)

(** C6: In every state that the scheduler and its executor can reach, under any order of
    answers and any interleaving of the callbacks' critical sections, the next callback runs
    without an exception or undefined behaviour, and every pipeline is in a consistent state:
    a waiting one has not been handed out; a running one has been handed out once (answers
    counted and answers outstanding add up to its fragments) and all its predecessors are
    finished; a finished one has all its answers and so have its predecessors. *)
Theorem PqpPipelineScheduler_safe (ps : list PqpPipeline) (sys : System)
    (Hwf : wf_pipelines ps) (Hreach : reachable ps sys) :
  (∀ e, enabled sys e → ∃ sys', perform sys e = Ok sys') ∧
  ∀ p, p ∈ ps → ∃ t, slookup (Identity p) (tasks_ (scheduler sys)) = Some t ∧ pqp_pipeline t = p ∧
    let counted := length (fragment_execution_results t) in
    match task_state t with
    | kWaiting => counted = 0%nat ∧ outstanding sys (Identity p) = 0%nat
    | kRunning => (counted + outstanding sys (Identity p) = length (FragmentDefinitions p))%nat ∧
        Forall (is_finished (tasks_ (scheduler sys))) (Predecessors p)
    | kFinished => counted = length (FragmentDefinitions p) ∧ outstanding sys (Identity p) = 0%nat ∧
        Forall (is_finished (tasks_ (scheduler sys))) (Predecessors p)
    end.
Proof.
  pose proof (pipeline_reachable_ok _ _ Hwf Hreach) as Hok. split.
  - intros e He. destruct (perform_ok _ _ _ Hwf Hok He) as (sys' & ? & _). by exists sys'.
  - intros p Hp. destruct (tk_domain _ _ _ _ Hok (Identity p)) as [t Ht]; [by apply list_elem_of_fmap_2|].
    pose proof (pipeline_of_task _ _ _ _ Hwf Hok Hp Ht) as Hpt. exists t. split; [done|]. split; [done|].
    pose proof (to_state _ _ _ _ _ _ (tk_tasks _ _ _ _ Hok _ _ Ht)) as Hst. cbn beta in Hst. rewrite Hpt in Hst.
    pose proof (proj1 (unfinished_zero (tasks_ (scheduler sys)) (Predecessors p))) as Hz.
    cbn zeta. destruct (task_state t).
    + destruct Hst as (-> & ? & _). done.
    + destruct Hst as (H1 & _ & H2). split; [exact H1|exact (Hz H2)].
    + destruct Hst as (H1 & H2 & H3). split; [exact H1|split; [exact H2|exact (Hz H3)]].
Qed.

(** C7: For dependencies without cycles the scheduler does not hang: [Execute] hands out
    work for any non-empty list of pipelines; a run ends after at most two steps per fragment;
    and when nothing can happen any more every pipeline is finished, which ends the wait, and
    the result is an object that a pipeline without successors writes. *)
Theorem PqpPipelineScheduler_live (ps : list PqpPipeline)
    (Hwf : wf_pipelines ps) (Hdag : acyclic ps) :
  ∃ sys0, start ps = Ok sys0 ∧
    ∀ events sys, run sys0 events = Ok sys →
      (length events <= 2 * fragments_total ps)%nat ∧
      ((∃ e, enabled sys e) ∨
       AllTasksFinished (scheduler sys) = true ∧ execution_done (scheduler sys) = true ∧
       (ps ≠ [] → ∃ o, final_result (scheduler sys) = Ok (Some o) ∧ is_final_object ps o)).
Proof.
  destruct (start_ok ps Hwf) as (sys0 & Hs & _ & Hm & _). exists sys0. split; [done|]. intros events sys Hrun.
  destruct (pipeline_run_ok ps _ _ _ Hwf (reachable_start _ _ Hs) Hrun) as (Hr & Hlen & _). split; [lia|].
  pose proof (pipeline_reachable_ok _ _ Hwf Hr) as Hok.
  destruct (scheduler_progress ps sys Hwf Hdag Hok) as [He|Hall]; [by left|right].
  split; [done|]. split; [unfold execution_done; by rewrite Hall|]. intros Hne. by apply final_object.
Qed.

(** An error is reported exactly when some fragment failed, whatever the order; and a
    failed fragment otherwise counts like any answer, so that the last failed fragment of a
    pipeline finishes it and its successors are handed to the executor. *)
Theorem PqpPipelineScheduler_error (ps : list PqpPipeline) (events : list event) (sys0 sys : System)
    (Hwf : wf_pipelines ps) (Hstart : start ps = Ok sys0) (Hrun : run sys0 events = Ok sys) :
  HasError (scheduler sys) = existsb (λ e, match e with Answer _ r => negb (is_success r) | Resume _ => false end) events ∧
  ∀ k r, is_success r = false → enabled sys (Answer k r) →
    ∃ id sys' s submitted, owed sys !! k = Some id ∧
      run sys [Answer k r; Resume (length (failed sys))] = Ok sys' ∧
      record_result (scheduler sys) id r = Ok (s, submitted) ∧
      tasks_ (scheduler sys') = tasks_ s ∧ owed sys' = delete k (owed sys) ++ calls submitted ∧
      failed sys' = failed sys.
Proof.
  destruct (start_ok ps Hwf) as (sys0' & Hs & _ & _ & Herr0). rewrite Hstart in Hs. injection Hs as <-.
  destruct (pipeline_run_ok ps _ _ _ Hwf (reachable_start _ _ Hstart) Hrun) as (Hr & _ & Herr).
  split; [by rewrite Herr, Herr0, orb_false_r|]. intros k r Hfail He.
  pose proof (pipeline_reachable_ok _ _ Hwf Hr) as Hok. cbn in He. apply lookup_lt_is_Some in He as [id Hid].
  assert (0 < outstanding sys id)%nat as Hpos.
  { unfold outstanding. rewrite (occurrences_delete id _ _ _ Hid), decide_True by done. lia. }
  destruct (record_result_ok _ (scheduler sys) _ id r Hwf Hok Hpos) as (s & sub & Hres & _).
  exists id.
  assert (record_result (record_error (scheduler sys) r) id r =
    Ok (mkPqpPipelineScheduler (tasks_ s) (error_message_ (record_error (scheduler sys) r)), sub)) as Hres'.
  { destruct (map_at_tasks_ok _ _ _ _ _ Hok Hpos) as (t & Hat & _). revert Hres. unfold record_result.
    cbn [record_error tasks_ error_message_]. rewrite Hat. cbn [rbind].
    destruct (tasks_ (scheduler sys)) as [|x m] eqn:Hm; [done|].
    destruct (_ =? 0)%Z; [|by intros [= <- <-]]. destruct (foldR _ _ _) as [m'|]; [|done]. cbn. by intros [= <- <-]. }
  eexists _, s, sub. split; [done|]. split; [|split; [done|split; [|split]]].
  - cbn [run foldR perform]. unfold vec_get. rewrite Hid. cbn [of_option rbind]. rewrite Hfail. cbn [rbind failed].
    rewrite lookup_app_r, Nat.sub_diag by lia. cbn [lookup list_lookup of_option rbind scheduler owed].
    rewrite Hres'. cbn [rbind]. reflexivity.
  - done.
  - done.
  - cbn [failed]. rewrite delete_take_drop, take_app_le, firstn_all by lia. rewrite drop_ge; [by rewrite app_nil_r|].
    rewrite length_app. cbn. lia.
Qed.

(** ** Instances *)
Local Open Scope string_scope.

(** [a] before [b] and [c], both before [d]; [b] has two fragments. *)
Definition example_pipelines : list PqpPipeline :=
  let fragment o := mkPipelineFragmentDefinition ∅ (mkObjectReference "bucket" o "" None) kCsv in
  [mkPqpPipeline "a" [fragment "a0"] [] ["b"; "c"];
   mkPqpPipeline "b" [fragment "b0"; fragment "b1"] ["a"] ["d"];
   mkPqpPipeline "c" [fragment "c0"] ["a"] ["d"];
   mkPqpPipeline "d" [fragment "d0"] ["b"; "c"] []].

Definition example_answer (success : bool) : FragmentExecutionResult := mkFragmentExecutionResult "p" "w" success "m" 12 2048 100 200.

(** The state after the first pipeline and one fragment of the second. *)
Definition example_events : list event := [Answer 0 (example_answer true); Answer 1 (example_answer true)].

Definition example_system (events : list event) : System :=
  match (sys0 ← start example_pipelines; run sys0 events) with Ok sys => sys | Err _ => mkSystem (mkPqpPipelineScheduler [] "") [] [] end.

Lemma example_wf : wf_pipelines example_pipelines.
Proof. split; apply (bool_decide_unpack _); vm_compute; exact I. Qed.

Lemma example_acyclic : acyclic example_pipelines.
Proof.
  exists (λ i, if decide (i = "a") then 0%nat else if decide (i = "d") then 2%nat else 1%nat).
  apply (bool_decide_unpack _). vm_compute. exact I.
Qed.

Lemma PqpPipelineScheduler_safe_witness :
  reachable example_pipelines (example_system example_events) ∧
  ∃ t, slookup "b" (tasks_ (scheduler (example_system example_events))) = Some t ∧ task_state t = kRunning ∧
    Forall (is_finished (tasks_ (scheduler (example_system example_events)))) ["a"].
Proof.
  assert (reachable example_pipelines (example_system example_events)) as Hr.
  { eapply (reachable_step _ (example_system [Answer 0 (example_answer true)]) (Answer 1 (example_answer true)));
      [|vm_compute; reflexivity].
    eapply (reachable_step _ (example_system []) (Answer 0 (example_answer true))); [|vm_compute; reflexivity].
    apply reachable_start. vm_compute. reflexivity. }
  split; [exact Hr|].
  destruct (PqpPipelineScheduler_safe example_pipelines _ example_wf Hr) as [_ H].
  destruct (H (nth 1 example_pipelines (mkPqpPipeline "" [] [] []))) as (t & Ht & _ & Hs); [right; left; reflexivity|].
  exists t. split; [exact Ht|]. vm_compute in Ht. injection Ht as <-. split; [reflexivity|].
  exact (proj2 Hs).
Defined.

Lemma PqpPipelineScheduler_live_witness :
  ∃ sys0, start example_pipelines = Ok sys0 ∧
    AllTasksFinished (scheduler (example_system
      (repeat (Answer 0 (example_answer true)) 5))) = true.
Proof.
  destruct (PqpPipelineScheduler_live example_pipelines example_wf example_acyclic) as (sys0 & Hs & H).
  exists sys0. split; [exact Hs|]. vm_compute in Hs. injection Hs as <-.
  destruct (H (repeat (Answer 0 (example_answer true)) 5)
    (example_system (repeat (Answer 0 (example_answer true)) 5))) as [_ [[[k r|k] He]|Hd]].
  - vm_compute. reflexivity.
  - exfalso. vm_compute in He. lia.
  - exfalso. vm_compute in He. lia.
  - exact (proj1 Hd).
Defined.

(** The only fragment of [a] fails; [b] and [c] are submitted all the same. *)
Lemma PqpPipelineScheduler_error_witness :
  HasError (scheduler (example_system [])) = false ∧
  owed (example_system [Answer 0 (example_answer false); Resume 0]) = ["b"; "b"; "c"].
Proof.
  destruct (PqpPipelineScheduler_error example_pipelines [] (example_system []) (example_system []) example_wf)
    as [He H]; [vm_compute; reflexivity|reflexivity|]. split; [exact He|].
  destruct (H 0%nat (example_answer false) eq_refl) as (id & sys' & s & sub & Hid & Hrun & _ & _ & Ho & _); [vm_compute; lia|].
  vm_compute in Hrun. injection Hrun as <-. vm_compute. reflexivity.
Defined.
