(* ===== verification/Json.v ===== *)
(** * JSON documents and enumerator names

    The interfaces of the two libraries that the serialization code stands on: the JSON
    classes of the AWS SDK ([JsonValue], [JsonView]) and [magic_enum].  Neither is part of the
    repository, so both are parameters: an operational class that the models use, and a class
    of laws, their documented behaviour, that the theorems use.  [utils/json.hpp] is modelled
    on top, and an instance of both classes shows that the laws can hold. *)

From Stdlib Require Import SpecFloat.
From S2P Require Export Values.

Local Open Scope string_scope.

(** ** The AWS SDK *)

(** What a member or an array element can be set to: [WithString] / [AsString], ... *)
Inductive content (J : Type) : Type :=
  | AString (s : string)
  | AInteger (z : Z)        (* int *)
  | AInt64 (z : Z)
  | ADouble (f : spec_float)
  | ABool (b : bool)
  | AArray (l : list J)
  | AObject (j : J).
Arguments AString {J} s.
Arguments AInteger {J} z.
Arguments AInt64 {J} z.
Arguments ADouble {J} f.
Arguments ABool {J} b.
Arguments AArray {J} l.
Arguments AObject {J} j.

(** [With k c j] is [j.WithString(k, ..)], [j.WithInteger(k, ..)], ... according to [c]; [As c]
    is [JsonValue().AsString(..)], ...; the others are the accessors of [JsonView]. *)
Class Json (J : Type) := {
  JsonValue : J;
  With : string → content J → J → J;
  As : content J → J;
  KeyExists : J → string → bool;
  ValueExists : J → string → bool;
  GetString : J → string → string;
  GetInteger : J → string → Z;
  GetInt64 : J → string → Z;
  GetDouble : J → string → spec_float;
  GetBool : J → string → bool;
  GetArray : J → string → list J;
  GetObject : J → string → J;
  GetAllObjects : J → list (string * J);
  AsString : J → string;
  AsInteger : J → Z;
  AsInt64 : J → Z;
  AsBool : J → bool;
  WriteReadable : J → string;
  Parse : string → J }.

(** What [GetBool] makes of a stored boolean.  The SDK documents that it is the boolean; two
    comments of the repository ([aggregate_operator_proxy.cpp] and [import_options.cpp]) say
    that it is always [false], and read some booleans with [GetObject(k).AsBool()] instead.
    Which of them is right is left open. *)
Class BoolReading := get_bool : bool → bool.

(** [field j k] is what member [k] of [j] was last set to, [scalar j] the content of a document
    that [As] made.  An accessor returns what the method of the same type has stored, [GetBool]
    with the reservation above;
    [GetObject] returns a view of any member ([GetObject(k).AsBool()]). *)
Class JsonLaws (J : Type) `{Json J} `{BoolReading} := {
  field : J → string → option (content J);
  scalar : J → option (content J);
  field_JsonValue k : field JsonValue k = None;
  field_With k c j k' : field (With k c j) k' = if decide (k' = k) then Some c else field j k';
  scalar_As c : scalar (As c) = Some c;
  KeyExists_field j k : KeyExists j k = bool_decide (is_Some (field j k));
  ValueExists_field j k : ValueExists j k = bool_decide (is_Some (field j k));
  GetString_field j k s : field j k = Some (AString s) → GetString j k = s;
  GetInteger_field j k z : field j k = Some (AInteger z) → GetInteger j k = z;
  GetInt64_field j k z : field j k = Some (AInt64 z) → GetInt64 j k = z;
  GetDouble_field j k f : field j k = Some (ADouble f) → GetDouble j k = f;
  GetBool_field j k b : field j k = Some (ABool b) → GetBool j k = get_bool b;
  GetArray_field j k l : field j k = Some (AArray l) → GetArray j k = l;
  GetObject_field j k o : field j k = Some (AObject o) → GetObject j k = o;
  GetObject_bool j k b : field j k = Some (ABool b) → AsBool (GetObject j k) = b;
  GetAllObjects_keys j : NoDup (GetAllObjects j).*1;
  GetAllObjects_field j : (∀ k c, field j k = Some c → ∃ o, c = AObject o) →
    ∀ k o, (k, o) ∈ GetAllObjects j ↔ field j k = Some (AObject o);
  AsString_scalar j s : scalar j = Some (AString s) → AsString j = s;
  AsInteger_scalar j z : scalar j = Some (AInteger z) → AsInteger j = z;
  AsInt64_scalar j z : scalar j = Some (AInt64 z) → AsInt64 j = z }.

(** JSON has no infinities and no NaN: a document without them can be written to text and
    read back. *)
Definition is_finite_double (f : spec_float) : bool :=
  match f with S754_zero _ | S754_finite _ _ _ => true | _ => false end.

Class JsonText (J : Type) `{Json J} := {
  Writable : J → Prop;
  Writable_JsonValue : Writable JsonValue;
  Writable_With k c j : Writable j →
    match c with
    | ADouble f => is_finite_double f = true
    | AArray l => Forall Writable l
    | AObject o => Writable o
    | _ => True
    end → Writable (With k c j);
  Writable_As c :
    match c with
    | ADouble f => is_finite_double f = true
    | AArray l => Forall Writable l
    | AObject o => Writable o
    | _ => True
    end → Writable (As c);
  Parse_Write j : Writable j → Parse (WriteReadable j) = j }.

(** ** [magic_enum] *)
Class MagicEnum (E : Type) := { enum_name : E → string; enum_cast : string → option E }.
Class MagicEnumLaws (E : Type) `{MagicEnum E} :=
  { enum_cast_name (e : E) : enum_cast (enum_name e) = Some e }.

(** [enum_cast<E>(s).value()]. *)
Definition enum_value {E} `{MagicEnum E} (s : string) : result E := of_option (enum_cast s) BadOptionalAccess.

Lemma enum_value_name {E} `{MagicEnumLaws E} (e : E) : enum_value (enum_name e) = Ok e.
Proof. unfold enum_value. by rewrite enum_cast_name. Qed.

(** ** The repository's use of them *)
Section Documents.
Context {J : Type} `{Json J}.

Definition WithString (j : J) (k s : string) : J := With k (AString s) j.
Definition WithInteger (j : J) (k : string) (z : Z) : J := With k (AInteger z) j.
Definition WithInt64 (j : J) (k : string) (z : Z) : J := With k (AInt64 z) j.
Definition WithDouble (j : J) (k : string) (f : spec_float) : J := With k (ADouble f) j.
Definition WithBool (j : J) (k : string) (b : bool) : J := With k (ABool b) j.
Definition WithArray (j : J) (k : string) (l : list J) : J := With k (AArray l) j.
Definition WithObject (j : J) (k : string) (o : J) : J := With k (AObject o) j.

(** [VectorToJsonArray<T>] and [JsonArrayToVector<T>] for strings, for integral [T] (with the
    conversion to [T]), and for classes. *)
Definition VectorToJsonArray_string (v : list string) : list J := (λ s, As (AString s)) <$> v.
Definition VectorToJsonArray_integral (v : list Z) : list J := (λ z, As (AInt64 z)) <$> v.
Definition VectorToJsonArray {T} (ToJson : T → J) (v : list T) : list J := ToJson <$> v.
Definition JsonArrayToVector_string (a : list J) : list string := AsString <$> a.
Definition JsonArrayToVector_integral (cast : Z → Z) (a : list J) : list Z := (cast ∘ AsInt64) <$> a.
Definition JsonArrayToVector {T} (FromJson : J → result T) (a : list J) : result (list T) := mapR FromJson a.
End Documents.

(** Reading back: [json_field] computes a member of a document built by a chain of [With]. *)
Ltac json_field :=
  unfold WithString, WithInteger, WithInt64, WithDouble, WithBool, WithArray, WithObject;
  repeat (rewrite field_With; first [rewrite decide_True by reflexivity | rewrite decide_False by discriminate]);
  first [reflexivity | apply field_JsonValue | idtac].

Section Laws.
Context {J : Type} `{JsonLaws J}.

Lemma strings_roundtrip v : JsonArrayToVector_string (VectorToJsonArray_string v : list J) = v.
Proof.
  unfold JsonArrayToVector_string, VectorToJsonArray_string. rewrite <- list_fmap_compose.
  rewrite <- (list_fmap_id v) at 2. apply list_fmap_ext. intros _ s _. cbn. by apply AsString_scalar, scalar_As.
Qed.

Lemma integers_roundtrip (cast : Z → Z) v :
  Forall (λ z, cast z = z) v → JsonArrayToVector_integral cast (VectorToJsonArray_integral v : list J) = v.
Proof.
  unfold JsonArrayToVector_integral, VectorToJsonArray_integral. rewrite <- list_fmap_compose.
  induction 1 as [|z v Hz _ IH]; [done|]. rewrite fmap_cons, IH. cbn.
  by rewrite (AsInt64_scalar _ z) by apply scalar_As; rewrite Hz.
Qed.

Lemma KeyExists_some j k c : field j k = Some c → KeyExists j k = true.
Proof. intros Hk. rewrite KeyExists_field, Hk. apply bool_decide_eq_true. by eexists. Qed.

Lemma KeyExists_none j k : field j k = None → KeyExists j k = false.
Proof. intros Hk. rewrite KeyExists_field, Hk. apply bool_decide_eq_false. apply is_Some_None. Qed.

Lemma ValueExists_some j k c : field j k = Some c → ValueExists j k = true.
Proof. intros Hk. rewrite ValueExists_field, Hk. apply bool_decide_eq_true. by eexists. Qed.

Lemma ValueExists_none j k : field j k = None → ValueExists j k = false.
Proof. intros Hk. rewrite ValueExists_field, Hk. apply bool_decide_eq_false. apply is_Some_None. Qed.
End Laws.
