(* ===== verification/ExpressionSerialization.v ===== *)
(** * Serialization of expressions

    [src/lib/expression/expression_serialization.cpp]: expressions to JSON documents and back.
    The round trip yields the expression's deep copy; what it needs of an expression is
    [serializable].  [ExpressionRoundtrip] supplies that single-precision literals survive the
    conversion to [double]. *)

From Stdlib Require Import SpecFloat.
From S2P Require Export Json Expression.

Local Open Scope string_scope.

(** The enumerations whose names occur in documents. *)
Class ExpressionNames := {
  #[global] names_ExpressionType :: MagicEnum ExpressionType;
  #[global] names_AggregateFunction :: MagicEnum AggregateFunction;
  #[global] names_ArithmeticOperator :: MagicEnum ArithmeticOperator;
  #[global] names_DataType :: MagicEnum DataType;
  #[global] names_DatetimeComponent :: MagicEnum DatetimeComponent;
  #[global] names_LogicalOperator :: MagicEnum LogicalOperator;
  #[global] names_PredicateCondition :: MagicEnum PredicateCondition }.

Class ExpressionNamesLaws `{ExpressionNames} := {
  #[global] laws_ExpressionType :: MagicEnumLaws ExpressionType;
  #[global] laws_AggregateFunction :: MagicEnumLaws AggregateFunction;
  #[global] laws_ArithmeticOperator :: MagicEnumLaws ArithmeticOperator;
  #[global] laws_DataType :: MagicEnumLaws DataType;
  #[global] laws_DatetimeComponent :: MagicEnumLaws DatetimeComponent;
  #[global] laws_LogicalOperator :: MagicEnumLaws LogicalOperator;
  #[global] laws_PredicateCondition :: MagicEnumLaws PredicateCondition }.

Section Serialization.
Context {J : Type} `{Json J} `{ExpressionNames}.

(** ** Serialization *)
Definition SerializeAggregateExpression (result : J) (f : AggregateFunction) : J :=
  WithString result "aggregate_function" (enum_name f).

Definition SerializeArithmeticExpression (result : J) (op : ArithmeticOperator) : J :=
  WithString result "arithmetic_operator" (enum_name op).

Definition SerializeCastExpression (result : J) (t : DataType) : J :=
  WithString result "data_type" (enum_name t).

Definition SerializeExtractExpression (result : J) (c : DatetimeComponent) : J :=
  WithString result "datetime_component" (enum_name c).

Definition SerializeLogicalExpression (result : J) (op : LogicalOperator) : J :=
  WithString result "logical_operator" (enum_name op).

Definition SerializePredicateExpression (result : J) (c : PredicateCondition) : J :=
  WithString result "predicate_condition" (enum_name c).

Definition SerializePqpColumnExpression (result : J) (id : ColumnId) (t : DataType) (nullable : bool) (name : string) : J :=
  WithString (WithInteger (WithString (WithInt64 result "column_id" (Z.of_N id))
    "data_type" (enum_name t)) "is_nullable" (if nullable then 1 else 0)) "column_name" name.

Definition SerializeValueExpression (result : J) (v : AllTypeVariant) : J :=
  let result := WithString result "value_type" (enum_name (DataTypeFromAllTypeVariant v)) in
  match v with
  | VString s => WithString result "value" s
  | VFloat f => WithDouble result "value" (float_convert kDouble f)
  | VDouble f => WithDouble result "value" f
  | VInt z => WithInteger result "value" z
  | VLong z => WithInt64 result "value" z
  | VNull => result
  end.

(** The members of one node.  A [StringAggAggregateExpression] is written as the aggregate
    expression it inherits from. *)
Definition serialize_members (result : J) (e : expr) : J :=
  match e with
  | Value v => SerializeValueExpression result v
  | BinaryPredicate c _ _ | Between c _ _ _ | InExpr c _ _ | IsNullExpr c _ => SerializePredicateExpression result c
  | Arithmetic op _ _ => SerializeArithmeticExpression result op
  | Case _ _ _ => result
  | Cast _ t => SerializeCastExpression result t
  | Extract c _ => SerializeExtractExpression result c
  | ListExpr _ => result
  | Logical op _ _ => SerializeLogicalExpression result op
  | PqpColumn id t n s => SerializePqpColumnExpression result id t n s
  | UnaryMinus _ => result
  | Aggregate f _ => SerializeAggregateExpression result f
  | StringAgg _ _ => SerializeAggregateExpression result kStringAgg
  end.

Definition serialize_node (e : expr) (arguments : list J) : J :=
  serialize_members
    (WithArray (WithString JsonValue "type" (enum_name (GetExpressionType e))) "arguments" arguments) e.

Fixpoint SerializeExpression (e : expr) : J :=
  serialize_node e
    match e with
    | Aggregate _ a | StringAgg a _ | Cast a _ | Extract _ a | IsNullExpr _ a | UnaryMinus a =>
        [SerializeExpression a]
    | Arithmetic _ l r | Logical _ l r | BinaryPredicate _ l r | InExpr _ l r =>
        [SerializeExpression l; SerializeExpression r]
    | Case a b c | Between _ a b c => [SerializeExpression a; SerializeExpression b; SerializeExpression c]
    | ListExpr es => map SerializeExpression es
    | PqpColumn _ _ _ _ | Value _ => []
    end.

(** ** Deserialization *)
Definition ConstructAggregateExpression (json : J) (arguments : list expr) : result expr :=
  _ ← assert_ (KeyExists json "aggregate_function" && (length arguments =? 1)%nat) AssertionFailed;
  f ← enum_value (GetString json "aggregate_function");
  a ← vec_get arguments 0;
  Ok (Aggregate f a).

Definition ConstructArithmeticExpression (json : J) (arguments : list expr) : result expr :=
  op ← enum_value (GetString json "arithmetic_operator");
  match arguments with [l; r] => Ok (Arithmetic op l r) | _ => Err AssertionFailed end.

Definition ConstructCaseExpression (json : J) (arguments : list expr) : result expr :=
  match arguments with [w; t; o] => Ok (Case w t o) | _ => Err AssertionFailed end.

Definition ConstructCastExpression (json : J) (arguments : list expr) : result expr :=
  match arguments with
  | [a] => t ← enum_value (GetString json "data_type"); Ok (Cast a t)
  | _ => Err AssertionFailed
  end.

Definition ConstructExtractExpression (json : J) (arguments : list expr) : result expr :=
  c ← enum_value (GetString json "datetime_component");
  match arguments with [a] => Ok (Extract c a) | _ => Err AssertionFailed end.

Definition ConstructListExpression (json : J) (arguments : list expr) : result expr := Ok (ListExpr arguments).

Definition ConstructLogicalExpression (json : J) (arguments : list expr) : result expr :=
  op ← enum_value (GetString json "logical_operator");
  match arguments with [l; r] => Ok (Logical op l r) | _ => Err AssertionFailed end.

(** The column id is converted to its 32-bit type. *)
Definition ConstructPqpColumnExpression (json : J) (arguments : list expr) : result expr :=
  match arguments with
  | [] =>
      t ← enum_value (GetString json "data_type");
      Ok (PqpColumn (Z.to_N (GetInt64 json "column_id" mod 2 ^ 32)%Z) t
            (GetInteger json "is_nullable" =? 1)%Z (GetString json "column_name"))
  | _ => Err AssertionFailed
  end.

Definition ConstructPredicateExpression (json : J) (arguments : list expr) : result expr :=
  condition ← enum_value (GetString json "predicate_condition");
  match condition with
  | kEquals | kNotEquals | kLessThan | kLessThanEquals | kGreaterThan | kGreaterThanEquals | kLike | kNotLike =>
      match arguments with [l; r] => Ok (BinaryPredicate condition l r) | _ => Err AssertionFailed end
  | kBetweenInclusive | kBetweenLowerExclusive | kBetweenUpperExclusive | kBetweenExclusive =>
      match arguments with [v; l; u] => make_Between condition v l u | _ => Err AssertionFailed end
  | kIn | kNotIn =>
      match arguments with [v; s] => Ok (InExpr condition v s) | _ => Err AssertionFailed end
  | kIsNull | kIsNotNull =>
      match arguments with [a] => make_IsNull condition a | _ => Err AssertionFailed end
  end.

Definition ConstructUnaryMinusExpression (json : J) (arguments : list expr) : result expr :=
  match arguments with [a] => make_UnaryMinus a | _ => Err AssertionFailed end.

Definition ConstructValueExpression (json : J) (arguments : list expr) : result expr :=
  t ← enum_value (GetString json "value_type");
  Ok (Value match t with
      | kString => VString (GetString json "value")
      | kFloat => VFloat (float_convert kFloat (GetDouble json "value"))
      | kDouble => VDouble (GetDouble json "value")
      | kInt => VInt (GetInteger json "value")
      | kLong => VLong (GetInt64 json "value")
      | kNull => VNull
      end).

Definition construct (type : ExpressionType) : J → list expr → result expr :=
  match type with
  | tAggregate => ConstructAggregateExpression
  | tArithmetic => ConstructArithmeticExpression
  | tCase => ConstructCaseExpression
  | tCast => ConstructCastExpression
  | tExtract => ConstructExtractExpression
  | tLogical => ConstructLogicalExpression
  | tList => ConstructListExpression
  | tPqpColumn => ConstructPqpColumnExpression
  | tPredicate => ConstructPredicateExpression
  | tUnaryMinus => ConstructUnaryMinusExpression
  | tValue => ConstructValueExpression
  end.

(** The recursion goes down the document; fuel bounds its depth. *)
Fixpoint DeserializeExpression (fuel : nat) (json : J) : result expr :=
  match fuel with
  | O => Err OutOfFuel
  | S fuel =>
      _ ← assert_ (KeyExists json "type" &&
                   bool_decide (is_Some (enum_cast (E:=ExpressionType) (GetString json "type")))) AssertionFailed;
      type ← enum_value (GetString json "type");
      arguments ← (if KeyExists json "arguments"
                   then mapR (DeserializeExpression fuel) (GetArray json "arguments") else Ok []);
      construct type json arguments
  end.
End Serialization.
