(* ===== verification/JsonInstances.v ===== *)
(** * Instances of the interfaces to the JSON library and to [magic_enum]

    Documents as association lists, with a text form, and the enumerators' names: they show
    that the laws of [Json] can hold, and the witnesses evaluate on them. *)

From Stdlib Require Import SpecFloat Ascii.
From stdpp Require Import countable.
From S2P Require Export ExpressionSerialization.

Local Open Scope string_scope.

(** ** Documents *)
Unset Elimination Schemes.
Inductive doc : Type :=
  | Doc (members : list (string * content doc))
  | Leaf (c : content doc).
Set Elimination Schemes.

Definition doc_members (d : doc) : list (string * content doc) := match d with Doc l => l | Leaf _ => [] end.

Definition doc_field (d : doc) (k : string) : option (content doc) :=
  (list_to_map (doc_members d) : gmap string (content doc)) !! k.

Definition doc_view (c : content doc) : doc := match c with AObject o => o | _ => Leaf c end.
Definition doc_scalar (d : doc) : option (content doc) := match d with Leaf c => Some c | _ => None end.

(** *** Text: a numbering of documents in binary digits *)
Definition spec_float_to (f : spec_float) : (bool + bool) + (unit + bool * positive * Z) :=
  match f with
  | S754_zero s => inl (inl s)
  | S754_infinity s => inl (inr s)
  | S754_nan => inr (inl tt)
  | S754_finite s m e => inr (inr (s, m, e))
  end.
Definition spec_float_of (x : (bool + bool) + (unit + bool * positive * Z)) : spec_float :=
  match x with
  | inl (inl s) => S754_zero s
  | inl (inr s) => S754_infinity s
  | inr (inl _) => S754_nan
  | inr (inr (s, m, e)) => S754_finite s m e
  end.
#[export] Instance spec_float_countable : Countable spec_float.
Proof. refine (inj_countable' spec_float_to spec_float_of _). by intros []. Defined.

(** The leaves of a document's tree: keys and strings, the two integers, doubles, booleans. *)
Abbreviation leaf := (string + (Z + (Z + (spec_float + bool))))%type.

Definition encode_content (encode_doc : doc → gen_tree leaf) (c : content doc) : gen_tree leaf :=
  match c with
  | AString s => GenLeaf (inl s)
  | AInteger z => GenLeaf (inr (inl z))
  | AInt64 z => GenLeaf (inr (inr (inl z)))
  | ADouble f => GenLeaf (inr (inr (inr (inl f))))
  | ABool b => GenLeaf (inr (inr (inr (inr b))))
  | AArray l => GenNode 0 (map encode_doc l)
  | AObject o => GenNode 1 [encode_doc o]
  end.

Fixpoint encode_doc (d : doc) : gen_tree leaf :=
  match d with
  | Doc l => GenNode 0 ((fix go (l : list (string * content doc)) :=
      match l with [] => [] | (k, c) :: l' => GenLeaf (inl k) :: encode_content encode_doc c :: go l' end) l)
  | Leaf c => GenNode 1 [encode_content encode_doc c]
  end.

Definition decode_content (decode_doc : gen_tree leaf → doc) (t : gen_tree leaf) : content doc :=
  match t with
  | GenLeaf (inl s) => AString s
  | GenLeaf (inr (inl z)) => AInteger z
  | GenLeaf (inr (inr (inl z))) => AInt64 z
  | GenLeaf (inr (inr (inr (inl f)))) => ADouble f
  | GenLeaf (inr (inr (inr (inr b)))) => ABool b
  | GenNode 0 l => AArray (map decode_doc l)
  | GenNode _ (o :: _) => AObject (decode_doc o)
  | GenNode _ [] => AArray []
  end.

Fixpoint decode_doc (t : gen_tree leaf) : doc :=
  match t with
  | GenNode 0 l => Doc ((fix go (l : list (gen_tree leaf)) :=
      match l with GenLeaf (inl k) :: t :: l' => (k, decode_content decode_doc t) :: go l' | _ => [] end) l)
  | GenNode _ (t :: _) => Leaf (decode_content decode_doc t)
  | _ => Doc []
  end.

(** Induction through members, arrays and objects. *)
Section doc_induction.
Variable P : doc → Prop.
Definition content_all (c : content doc) : Prop :=
  match c with AArray l => Forall P l | AObject o => P o | _ => True end.
Hypotheses (HDoc : ∀ l, Forall (λ p, content_all p.2) l → P (Doc l)) (HLeaf : ∀ c, content_all c → P (Leaf c)).

Fixpoint doc_ind (d : doc) : P d :=
  let on_content c : content_all c :=
    match c return content_all c with
    | AArray l => (fix go (l : list doc) : Forall P l :=
        match l with [] => Forall_nil_2 _ | d :: l' => Forall_cons_2 _ d l' (doc_ind d) (go l') end) l
    | AObject o => doc_ind o
    | AString _ | AInteger _ | AInt64 _ | ADouble _ | ABool _ => I
    end in
  match d with
  | Doc l => HDoc l ((fix go (l : list (string * content doc)) : Forall (λ p, content_all p.2) l :=
      match l with [] => Forall_nil_2 _ | p :: l' => Forall_cons_2 _ p l' (on_content p.2) (go l') end) l)
  | Leaf c => HLeaf c (on_content c)
  end.
End doc_induction.

Lemma decode_encode_content c :
  content_all (λ d, decode_doc (encode_doc d) = d) c → decode_content decode_doc (encode_content encode_doc c) = c.
Proof.
  destruct c; cbn; try done; intros Hc; f_equal; [|done].
  induction Hc as [|d l Hd _ IH]; [done|]. cbn. by rewrite Hd, IH.
Qed.

Lemma decode_encode_doc d : decode_doc (encode_doc d) = d.
Proof.
  induction d as [l Hl|c Hc] using doc_ind; cbn; f_equal; [|by apply decode_encode_content].
  induction Hl as [|[k c] l Hc _ IH]; [done|]. by rewrite decode_encode_content, IH.
Qed.

Fixpoint digits (p : positive) : string :=
  match p with xH => EmptyString | xO p => String "0"%char (digits p) | xI p => String "1"%char (digits p) end.
Fixpoint undigits (s : string) : positive :=
  match s with EmptyString => xH | String a s => if Ascii.eqb a "0"%char then xO (undigits s) else xI (undigits s) end.
Lemma undigits_digits p : undigits (digits p) = p.
Proof. induction p as [p IH|p IH|]; cbn; by rewrite ?IH. Qed.

Definition write_doc (d : doc) : string := digits (encode (encode_doc d)).
Definition parse_doc (s : string) : doc :=
  match decode (A:=gen_tree leaf) (undigits s) with Some t => decode_doc t | None => Doc [] end.

Lemma parse_write_doc d : parse_doc (write_doc d) = d.
Proof. unfold parse_doc, write_doc. by rewrite undigits_digits, decode_encode, decode_encode_doc. Qed.

(** *** The interface *)
(** [GetBool] as documented, and as the comments of the repository have it. *)
#[export] Instance documented_GetBool : BoolReading | 100 := λ b, b.
Definition commented_GetBool : BoolReading := λ _, false.

Definition doc_Json_with (read : BoolReading) : Json doc := {|
  JsonValue := Doc [];
  With k c d := Doc ((k, c) :: doc_members d);
  As := Leaf;
  KeyExists d k := bool_decide (is_Some (doc_field d k));
  ValueExists d k := bool_decide (is_Some (doc_field d k));
  GetString d k := match doc_field d k with Some (AString s) => s | _ => EmptyString end;
  GetInteger d k := match doc_field d k with Some (AInteger z) => z | Some (AInt64 z) => wrap_int32 z | _ => 0%Z end;
  GetInt64 d k := match doc_field d k with Some (AInteger z | AInt64 z) => z | _ => 0%Z end;
  GetDouble d k := match doc_field d k with Some (ADouble f) => f | _ => S754_zero false end;
  GetBool d k := match doc_field d k with Some (ABool b) => read b | _ => false end;
  GetArray d k := match doc_field d k with Some (AArray l) => l | _ => [] end;
  GetObject d k := match doc_field d k with Some c => doc_view c | None => Doc [] end;
  GetAllObjects d := prod_map id doc_view <$> map_to_list (list_to_map (doc_members d) : gmap string (content doc));
  AsString d := match d with Leaf (AString s) => s | _ => EmptyString end;
  AsInteger d := match d with Leaf (AInteger z) => z | _ => 0%Z end;
  AsInt64 d := match d with Leaf (AInt64 z) => z | _ => 0%Z end;
  AsBool d := match d with Leaf (ABool b) => b | _ => false end;
  WriteReadable := write_doc;
  Parse := parse_doc |}.

(** The laws hold for either. *)
Definition doc_JsonLaws_with (read : BoolReading) : @JsonLaws doc (doc_Json_with read) read.
Proof.
  refine {| field := doc_field; scalar := doc_scalar |}; try done; try (intros j k z Hf; cbn; rewrite Hf; reflexivity).
  - intros k c d k'. unfold doc_field. cbn. destruct (decide (k' = k)) as [->|Hne].
    + by rewrite lookup_insert_eq.
    + by rewrite lookup_insert_ne by congruence.
  - intros j. cbn [GetAllObjects doc_Json_with]. set (m := list_to_map (doc_members j) : gmap string (content doc)).
    assert ((prod_map id doc_view <$> map_to_list m).*1 = (map_to_list m).*1) as ->.
    { rewrite <- list_fmap_compose. apply list_fmap_ext. by intros _ [] _. }
    apply NoDup_fst_map_to_list.
  - intros j Hobj k o. cbn [GetAllObjects doc_Json_with]. rewrite list_elem_of_fmap. split.
    + intros ([k' c] & [= -> ->] & Hin%elem_of_map_to_list). destruct (Hobj k' c Hin) as [o ->]. exact Hin.
    + intros Hin. exists (k, AObject o). split; [done|]. by apply elem_of_map_to_list.
  - intros j s. cbn. destruct j as [|[]]; try done. by intros [= ->].
  - intros j s. cbn. destruct j as [|[]]; try done. by intros [= ->].
  - intros j s. cbn. destruct j as [|[]]; try done. by intros [= ->].
Defined.

#[export] Instance doc_Json : Json doc := doc_Json_with documented_GetBool.
#[export] Instance doc_JsonLaws : @JsonLaws doc doc_Json documented_GetBool := doc_JsonLaws_with documented_GetBool.

Definition doc_JsonText_with (read : BoolReading) : @JsonText doc (doc_Json_with read).
Proof. refine {| Writable := λ _, True |}; try done. intros j _. apply parse_write_doc. Defined.
#[export] Instance doc_JsonText : JsonText doc := doc_JsonText_with documented_GetBool.

(** ** Enumerators *)

(** [enum_cast] looks the name up among the enumerators. *)
Definition names_instance {E} (all : list E) (name : E → string) : MagicEnum E :=
  {| enum_name := name; enum_cast s := snd <$> list_find (λ e, name e = s) all |}.

Lemma names_laws {E} (all : list E) (name : E → string) :
  (∀ e, snd <$> list_find (λ e', name e' = name e) all = Some e) → @MagicEnumLaws E (names_instance all name).
Proof. done. Qed.

Definition ExpressionType_name (t : ExpressionType) : string :=
  match t with
  | tAggregate => "kAggregate" | tArithmetic => "kArithmetic" | tCase => "kCase" | tCast => "kCast"
  | tExtract => "kExtract" | tList => "kList" | tLogical => "kLogical" | tPqpColumn => "kPqpColumn"
  | tPredicate => "kPredicate" | tUnaryMinus => "kUnaryMinus" | tValue => "kValue"
  end.
Definition AggregateFunction_name (f : AggregateFunction) : string :=
  match f with
  | kMin => "kMin" | kMax => "kMax" | kSum => "kSum" | kAvg => "kAvg" | kCount => "kCount"
  | kCountDistinct => "kCountDistinct" | kStandardDeviationSample => "kStandardDeviationSample"
  | kAny => "kAny" | kStringAgg => "kStringAgg"
  end.
Definition ArithmeticOperator_name (o : ArithmeticOperator) : string :=
  match o with
  | kAddition => "kAddition" | kSubtraction => "kSubtraction" | kMultiplication => "kMultiplication"
  | kDivision => "kDivision" | kModulo => "kModulo"
  end.
Definition DataType_name (t : DataType) : string :=
  match t with
  | kNull => "kNull" | kInt => "kInt" | kLong => "kLong" | kFloat => "kFloat" | kDouble => "kDouble" | kString => "kString"
  end.
Definition DatetimeComponent_name (c : DatetimeComponent) : string :=
  match c with
  | kYear => "kYear" | kMonth => "kMonth" | kDay => "kDay" | kHour => "kHour" | kMinute => "kMinute" | kSecond => "kSecond"
  end.
Definition LogicalOperator_name (o : LogicalOperator) : string := match o with kAnd => "kAnd" | kOr => "kOr" end.
Definition PredicateCondition_name (c : PredicateCondition) : string :=
  match c with
  | kEquals => "kEquals" | kNotEquals => "kNotEquals" | kLessThan => "kLessThan" | kLessThanEquals => "kLessThanEquals"
  | kGreaterThan => "kGreaterThan" | kGreaterThanEquals => "kGreaterThanEquals"
  | kBetweenInclusive => "kBetweenInclusive" | kBetweenLowerExclusive => "kBetweenLowerExclusive"
  | kBetweenUpperExclusive => "kBetweenUpperExclusive" | kBetweenExclusive => "kBetweenExclusive"
  | kIn => "kIn" | kNotIn => "kNotIn" | kLike => "kLike" | kNotLike => "kNotLike"
  | kIsNull => "kIsNull" | kIsNotNull => "kIsNotNull"
  end.

#[export] Instance expression_names : ExpressionNames := {
  names_ExpressionType := names_instance [tAggregate; tArithmetic; tCase; tCast; tExtract; tList; tLogical;
    tPqpColumn; tPredicate; tUnaryMinus; tValue] ExpressionType_name;
  names_AggregateFunction := names_instance [kMin; kMax; kSum; kAvg; kCount; kCountDistinct;
    kStandardDeviationSample; kAny; kStringAgg] AggregateFunction_name;
  names_ArithmeticOperator := names_instance [kAddition; kSubtraction; kMultiplication; kDivision; kModulo]
    ArithmeticOperator_name;
  names_DataType := names_instance [kNull; kInt; kLong; kFloat; kDouble; kString] DataType_name;
  names_DatetimeComponent := names_instance [kYear; kMonth; kDay; kHour; kMinute; kSecond] DatetimeComponent_name;
  names_LogicalOperator := names_instance [kAnd; kOr] LogicalOperator_name;
  names_PredicateCondition := names_instance [kEquals; kNotEquals; kLessThan; kLessThanEquals; kGreaterThan;
    kGreaterThanEquals; kBetweenInclusive; kBetweenLowerExclusive; kBetweenUpperExclusive; kBetweenExclusive;
    kIn; kNotIn; kLike; kNotLike; kIsNull; kIsNotNull] PredicateCondition_name }.

#[export] Instance expression_names_laws : ExpressionNamesLaws.
Proof. split; apply names_laws; by intros []. Defined.
