(* ===== verification/ExpressionRoundtrip.v ===== *)
(** * Round trip of expressions

    Deserializing a serialized expression gives its deep copy, for every expression that the
    constructors of its classes accept. *)

From Stdlib Require Import SpecFloat.
From S2P Require Export Values ExpressionSerialization JsonInstances.

(** ** Single precision survives double precision

    [static_cast<float>(static_cast<double>(f))] is [f] for every [float], signed zeros,
    subnormal numbers, infinities and NaN included.  Literals of type [float] travel through
    JSON documents as [double]s. *)

(** A canonical mantissa and an exponent in range, as [float] and [double] have them. *)
Definition float_valid (t : DataType) (f : spec_float) : bool := valid_binary (prec_of t) (emax_of t) f.

(** ** Shifting a mantissa left and back *)
Abbreviation shift d m := (Nat.iter d xO m).

Lemma Pos_iter_nat {A} (f : A → A) x p : Pos.iter f x p = Nat.iter (Pos.to_nat p) f x.
Proof. apply Pos2Nat.inj_iter. Qed.

Lemma iter_pos_nat {A} (f : A → A) p x : SpecFloat.iter_pos f p x = Nat.iter (Pos.to_nat p) f x.
Proof.
  revert x. induction p as [p IH|p IH|]; intros x; cbn [SpecFloat.iter_pos].
  - rewrite !IH, Pos2Nat.inj_xI. rewrite <- Nat.iter_add, <- Nat.iter_succ_r. f_equal. lia.
  - rewrite !IH, Pos2Nat.inj_xO. rewrite <- Nat.iter_add. f_equal. lia.
  - done.
Qed.

Lemma digits_shift d m : Zpos (digits2_pos (shift d m)) = Zpos (digits2_pos m) + Z.of_nat d.
Proof.
  induction d as [|d IH]; [cbn; lia|]. change (shift (S d) m) with (xO (shift d m)). cbn [digits2_pos].
  rewrite Pos2Z.inj_succ, IH. lia.
Qed.

Lemma shr_shift d m :
  Nat.iter d shr_1 {| shr_m := Zpos (shift d m); shr_r := false; shr_s := false |} =
    {| shr_m := Zpos m; shr_r := false; shr_s := false |}.
Proof.
  induction d as [|d IH]; [done|]. rewrite Nat.iter_succ_r. exact IH.
Qed.

Section Format.
Variables prec emax : Z.

Lemma shr_fexp_shift d m e :
  fexp prec emax (Zpos (digits2_pos m) + e) = e →
  shr_fexp prec emax (Zpos (shift d m)) (e - Z.of_nat d) loc_Exact =
    ({| shr_m := Zpos m; shr_r := false; shr_s := false |}, e).
Proof.
  intros He. unfold shr_fexp. cbn [Zdigits2]. rewrite digits_shift.
  replace (Zpos (digits2_pos m) + Z.of_nat d + (e - Z.of_nat d)) with (Zpos (digits2_pos m) + e) by lia. rewrite He.
  replace (e - (e - Z.of_nat d)) with (Z.of_nat d) by lia. destruct d as [|d].
  - cbn [shr Z.of_nat]. by rewrite Z.sub_0_r.
  - change (Z.of_nat (S d)) with (Zpos (Pos.of_succ_nat d)). cbn [shr shr_record_of_loc]. rewrite iter_pos_nat, SuccNat2Pos.id_succ, shr_shift. f_equal. lia.
Qed.

(** Rounding a canonical number, however far its mantissa is shifted, gives that number. *)
Lemma binary_round_aux_shift s d m e :
  fexp prec emax (Zpos (digits2_pos m) + e) = e → e <= emax - prec →
  binary_round_aux prec emax s (Zpos (shift d m)) (e - Z.of_nat d) loc_Exact = S754_finite s m e.
Proof.
  intros He Hmax. unfold binary_round_aux. rewrite shr_fexp_shift by done.
  cbn [shr_m loc_of_shr_record round_nearest_even]. pose proof (shr_fexp_shift 0 m e He) as H0.
  cbn [Nat.iter nat_rect Z.of_nat] in H0. rewrite Z.sub_0_r in H0. rewrite H0. cbn [shr_m].
  by rewrite (proj2 (Z.leb_le _ _) Hmax).
Qed.

Lemma binary_round_shift s d m e :
  fexp prec emax (Zpos (digits2_pos m) + e) = e → e <= emax - prec →
  binary_round prec emax s (shift d m) (e - Z.of_nat d) = S754_finite s m e.
Proof.
  intros He Hmax. unfold binary_round. rewrite digits_shift.
  replace (Zpos (digits2_pos m) + Z.of_nat d + (e - Z.of_nat d)) with (Zpos (digits2_pos m) + e) by lia. rewrite He.
  assert (shl_align (shift d m) (e - Z.of_nat d) e = (shift d m, e - Z.of_nat d)) as ->.
  { unfold shl_align. replace (e - (e - Z.of_nat d)) with (Z.of_nat d) by lia. by destruct d. }
  by apply binary_round_aux_shift.
Qed.

(** Rounding to a wider format shifts the mantissa. *)
Lemma binary_round_widen s m e :
  fexp prec emax (Zpos (digits2_pos m) + e) <= e → fexp prec emax (Zpos (digits2_pos m) + e) <= emax - prec →
  binary_round prec emax s m e =
    let d := Z.to_nat (e - fexp prec emax (Zpos (digits2_pos m) + e)) in
    S754_finite s (shift d m) (e - Z.of_nat d).
Proof.
  intros He Hmax. unfold binary_round. set (e' := fexp prec emax (Zpos (digits2_pos m) + e)) in *. cbv zeta.
  set (d := Z.to_nat (e - e')). assert (e' = e - Z.of_nat d) as Hd by lia.
  assert (shl_align m e e' = (shift d m, e')) as ->.
  { unfold shl_align. destruct (e' - e) as [|p|p] eqn:Hp; [|lia|].
    - replace d with 0%nat by lia. f_equal. lia.
    - rewrite Pos_iter_nat. by replace (Pos.to_nat p) with d by lia. }
  pose proof (binary_round_aux_shift s 0 (shift d m) e') as H0. cbn [Nat.iter nat_rect Z.of_nat] in H0.
  rewrite Z.sub_0_r in H0. rewrite H0; [by rewrite Hd| |done]. rewrite digits_shift.
  replace (Zpos (digits2_pos m) + Z.of_nat d + e') with (Zpos (digits2_pos m) + e) by lia. done.
Qed.
End Format.

Lemma binary_normalize_sign prec emax (s : bool) m e :
  binary_normalize prec emax (if s then Zneg m else Zpos m) e s = binary_round prec emax s m e.
Proof. by destruct s. Qed.

Theorem float_double_float f : float_valid kFloat f = true → float_convert kFloat (float_convert kDouble f) = f.
Proof.
  destruct f as [s|s| |s m e]; try done. unfold float_valid, valid_binary, bounded, canonical_mantissa.
  intros [Hc Hb]%andb_true_iff. apply Z.eqb_eq in Hc. apply Z.leb_le in Hb. cbn [prec_of emax_of] in Hc, Hb.
  unfold float_convert at 2. rewrite binary_normalize_sign. cbn [prec_of emax_of].
  rewrite binary_round_widen; unfold fexp, emin in *; [|lia|lia].
  cbv zeta. unfold float_convert. rewrite binary_normalize_sign. cbn [prec_of emax_of].
  apply binary_round_shift; unfold fexp, emin; lia.
Qed.

(** ** Expressions *)

Local Open Scope string_scope.

(** What the classes' own constructors and the types of their members guarantee. *)
Definition is_binary_condition (c : PredicateCondition) : bool :=
  match c with
  | kEquals | kNotEquals | kLessThan | kLessThanEquals | kGreaterThan | kGreaterThanEquals | kLike | kNotLike => true
  | _ => false
  end.

Fixpoint serializable (e : expr) : bool :=
  match e with
  | Aggregate _ a | StringAgg a _ | Cast a _ | Extract _ a => serializable a
  | UnaryMinus a => is_ok (make_UnaryMinus a) && serializable a
  | IsNullExpr c a => (bool_decide (c = kIsNull) || bool_decide (c = kIsNotNull)) && serializable a
  | Arithmetic _ l r | Logical _ l r => serializable l && serializable r
  | BinaryPredicate c l r => is_binary_condition c && (serializable l && serializable r)
  | InExpr c l r => (bool_decide (c = kIn) || bool_decide (c = kNotIn)) && (serializable l && serializable r)
  | Case a b c => serializable a && (serializable b && serializable c)
  | Between p a b c => IsBetweenPredicateCondition p && (serializable a && (serializable b && serializable c))
  | ListExpr es => forallb serializable es
  | PqpColumn id _ _ _ => bool_decide (id < 2 ^ 32)%N
  | Value (VFloat f) => float_valid kFloat f
  | Value _ => true
  end.

(** The depth of an expression: the fuel its document needs. *)
Fixpoint depth (e : expr) : nat :=
  S match e with
    | Aggregate _ a | StringAgg a _ | Cast a _ | Extract _ a | IsNullExpr _ a | UnaryMinus a => depth a
    | Arithmetic _ l r | Logical _ l r | BinaryPredicate _ l r | InExpr _ l r => Nat.max (depth l) (depth r)
    | Case a b c | Between _ a b c => Nat.max (depth a) (Nat.max (depth b) (depth c))
    | ListExpr es => list_max (map depth es)
    | PqpColumn _ _ _ _ | Value _ => 0
    end.

(** A member of the document of a node. *)
Ltac node_field :=
  cbn; unfold SerializeAggregateExpression, SerializeArithmeticExpression, SerializeCastExpression,
    SerializeExtractExpression, SerializeLogicalExpression, SerializePredicateExpression,
    SerializePqpColumnExpression, SerializeValueExpression;
  cbn; json_field.

Section Roundtrip.
Context {J : Type} `{JsonLaws J} `{ExpressionNamesLaws}.

(** What every node's document contains. *)
Lemma SerializeExpression_node e :
  SerializeExpression (J:=J) e = serialize_node e (SerializeExpression <$> GetArguments e).
Proof. by destruct e. Qed.

Lemma node_type e (arguments : list J) :
  field (serialize_node e arguments) "type" = Some (AString (enum_name (GetExpressionType e))).
Proof. destruct e as [| | | | | | | | | | | | | |[]]; node_field. Qed.

Lemma node_arguments e (arguments : list J) :
  field (serialize_node e arguments) "arguments" = Some (AArray arguments).
Proof. destruct e as [| | | | | | | | | | | | | |[]]; node_field. Qed.

(** One step of deserialization, given the arguments. *)
Lemma DeserializeExpression_node fuel e (documents : list J) arguments :
  mapR (DeserializeExpression fuel) documents = Ok arguments →
  DeserializeExpression (S fuel) (serialize_node e documents) =
    construct (GetExpressionType e) (serialize_node e documents) arguments.
Proof.
  intros Hargs. pose proof (node_type e documents) as Ht. pose proof (node_arguments e documents) as Ha.
  cbn [DeserializeExpression]. rewrite (KeyExists_some _ _ _ Ht), (KeyExists_some _ _ _ Ha).
  rewrite (GetString_field _ _ _ Ht), (GetArray_field _ _ _ Ha), enum_value_name, enum_cast_name, Hargs.
  by rewrite bool_decide_true by by eexists.
Qed.

(** The member [k] of a node's document is read back as the string that was stored. *)
Lemma GetString_name {E} `{MagicEnumLaws E} (j : J) k (x : E) :
  field j k = Some (AString (enum_name x)) → enum_value (GetString j k) = Ok x.
Proof. intros Hf. by rewrite (GetString_field _ _ _ Hf), enum_value_name. Qed.

Lemma construct_value v (documents : list J) :
  serializable (Value v) = true →
  ConstructValueExpression (serialize_node (Value v) documents) [] = Ok (Value v).
Proof.
  intros Hs. unfold ConstructValueExpression.
  rewrite (GetString_name _ _ (DataTypeFromAllTypeVariant v)) by (destruct v; node_field).
  destruct v as [|z|z|f|f|s]; cbn [DataTypeFromAllTypeVariant rbind]; [done| | | | |]; do 2 f_equal.
  - rewrite (GetInteger_field _ _ z); [done|]. node_field.
  - rewrite (GetInt64_field _ _ z); [done|]. node_field.
  - rewrite (GetDouble_field _ _ (float_convert kDouble f)) by (node_field). by rewrite float_double_float.
  - rewrite (GetDouble_field _ _ f); [done|]. node_field.
  - rewrite (GetString_field _ _ s); [done|]. node_field.
Qed.

Lemma construct_column id t n s (documents : list J) :
  serializable (PqpColumn id t n s) = true →
  ConstructPqpColumnExpression (serialize_node (PqpColumn id t n s) documents) [] = Ok (PqpColumn id t n s).
Proof.
  intros Hs. cbn in Hs. apply bool_decide_eq_true in Hs. unfold ConstructPqpColumnExpression.
  rewrite (GetString_name _ _ t) by (node_field). cbn [rbind].
  rewrite (GetInt64_field _ _ (Z.of_N id)) by (node_field).
  rewrite (GetInteger_field _ _ (if n then 1 else 0)) by (node_field).
  rewrite (GetString_field _ _ s) by (node_field).
  rewrite Z.mod_small by (unfold ColumnId in *; lia). rewrite N2Z.id. by destruct n.
Qed.

Lemma construct_predicate e c (documents : list J) :
  GetExpressionType e = tPredicate →
  match e with BinaryPredicate c' _ _ | Between c' _ _ _ | InExpr c' _ _ | IsNullExpr c' _ => c' = c | _ => False end →
  enum_value (GetString (serialize_node e documents) "predicate_condition") = Ok c.
Proof. intros _ He. apply GetString_name. destruct e; try done; subst; node_field. Qed.

(** [construct] undoes [serialize_members] on the copied arguments. *)
Lemma construct_spec e (documents : list J) :
  serializable e = true →
  construct (GetExpressionType e) (serialize_node e documents) (DeepCopy <$> GetArguments e) = Ok (DeepCopy e).
Proof.
  intros Hs. destruct e; cbn [GetExpressionType construct GetArguments fmap list_fmap DeepCopy].
  - unfold ConstructAggregateExpression. rewrite (KeyExists_some _ _ (AString (enum_name f))) by (node_field).
    rewrite (GetString_name _ _ f) by (node_field). done.
  - unfold ConstructAggregateExpression. rewrite (KeyExists_some _ _ (AString (enum_name kStringAgg))) by (node_field).
    rewrite (GetString_name _ _ kStringAgg) by (node_field). done.
  - unfold ConstructArithmeticExpression. rewrite (GetString_name _ _ op) by (node_field). done.
  - done.
  - unfold ConstructCastExpression. rewrite (GetString_name _ _ data_type) by (node_field). done.
  - unfold ConstructExtractExpression. rewrite (GetString_name _ _ component) by (node_field). done.
  - unfold ConstructListExpression. done.
  - unfold ConstructLogicalExpression. rewrite (GetString_name _ _ op) by (node_field). done.
  - by apply construct_column.
  - unfold ConstructPredicateExpression. rewrite (construct_predicate _ c) by done. by destruct c.
  - unfold ConstructPredicateExpression. rewrite (construct_predicate _ c) by done. by destruct c.
  - unfold ConstructPredicateExpression. rewrite (construct_predicate _ c) by done. by destruct c.
  - unfold ConstructPredicateExpression. rewrite (construct_predicate _ c) by done. by destruct c.
  - cbn in Hs. apply andb_true_iff in Hs as [Hs _]. unfold ConstructUnaryMinusExpression, make_UnaryMinus in *.
    rewrite DeepCopy_type. destruct (GetDataType e) as [t|]; [|done]. cbn in Hs |- *.
    by destruct (bool_decide (t ≠ kString)).
  - by apply construct_value.
Qed.

Lemma serializable_arguments e : serializable e = true → Forall (λ a, serializable a = true) (GetArguments e).
Proof.
  intros Hs. destruct e; cbn in Hs |- *; rewrite ?andb_true_iff in Hs; destruct_and?;
    try (repeat (apply Forall_cons_2; [done|]); apply Forall_nil_2).
  apply Forall_forall. intros a Ha. apply (proj1 (forallb_forall _ _) Hs). by apply list_elem_of_In.
Qed.

Lemma depth_arguments e fuel : (depth e <= S fuel)%nat → Forall (λ a, (depth a <= fuel)%nat) (GetArguments e).
Proof.
  destruct e; cbn [depth GetArguments]; intros Hd;
    try (repeat (apply Forall_cons_2; [lia|]); apply Forall_nil_2).
  apply Forall_forall. intros a Ha. apply le_S_n in Hd. pose proof (proj1 (list_max_le _ _) Hd) as Hm.
  rewrite List.Forall_forall in Hm. apply Hm, in_map. by apply list_elem_of_In.
Qed.

Lemma mapR_fmap {A B C} (f : B → result C) (g : A → B) (h : A → C) l :
  Forall (λ a, f (g a) = Ok (h a)) l → mapR f (g <$> l) = Ok (h <$> l).
Proof. induction 1 as [|a l Ha _ IH]; [done|]. cbn. by rewrite Ha, IH. Qed.
End Roundtrip.

(** Deserializing the document of an expression gives the expression's deep copy, for
    every expression that its classes' constructors accept: all expression types, NULL and
    float literals (NaN, infinities and subnormal numbers included), lists of any length, and
    STRING_AGG, which comes back as a plain aggregate like a copy does. *)
Theorem DeserializeExpression_roundtrip {J : Type} `{JsonLaws J} `{ExpressionNamesLaws} (e : expr) (fuel : nat)
    (Hserializable : serializable e = true) (Hfuel : (depth e <= fuel)%nat) :
  DeserializeExpression (J:=J) fuel (SerializeExpression e) = Ok (DeepCopy e).
Proof.
  revert e Hserializable Hfuel. induction fuel as [|fuel IH]; intros e Hs Hd; [destruct e; cbn in Hd; lia|].
  rewrite SerializeExpression_node.
  rewrite (DeserializeExpression_node fuel e _ (DeepCopy <$> GetArguments e)); [by apply construct_spec|].
  apply mapR_fmap. pose proof (serializable_arguments e Hs) as Hsa. pose proof (depth_arguments e fuel Hd) as Hda.
  rewrite Forall_forall in Hsa, Hda |- *. auto.
Qed.

(** [CASE WHEN a BETWEEN 0.5 AND -b OR c IN (NULL, 3) THEN string_agg(d) ELSE 'x' END]. *)
Definition example_expression : expr :=
  Case (Logical kOr
         (Between kBetweenInclusive (PqpColumn 0%N kFloat false "a") (Value (VFloat (S754_finite false 8388608 (-24))))
            (UnaryMinus (PqpColumn 1%N kFloat true "b")))
         (InExpr kIn (PqpColumn 2%N kInt true "c") (ListExpr [Value VNull; Value (VInt 3)])))
    (StringAgg (PqpColumn 3%N kString false "d") None) (Value (VString "x")).

Lemma DeserializeExpression_roundtrip_witness :
  serializable example_expression = true ∧
  DeserializeExpression (J:=doc) 5 (SerializeExpression example_expression) = Ok (DeepCopy example_expression).
Proof.
  assert (serializable example_expression = true) as Hs by (vm_compute; reflexivity).
  split; [exact Hs|]. apply (DeserializeExpression_roundtrip example_expression 5 Hs). vm_compute. lia.
Defined.
