(* ===== verification/ArrowExpression.v ===== *)
(** * Predicates pushed into the Parquet reader

    [src/lib/storage/formats/parquet_expression.cpp]: [CreateArrowExpression] turns a predicate
    into an expression of Arrow's compute library, which the Parquet reader hands to Arrow's
    scanner.  Arrow is not part of the repository: its constructors are the class
    [ArrowCompute], and their documented meaning (each of the six comparison functions on the
    values converted to their common type, comparisons propagate NULL, [and_] and [or_] are
    Kleene's) the class [ArrowSemantics], function by function and without reference to the
    translation.  Against it the translation keeps the meaning of [RowSemantics]. *)

From S2P Require Export RowSemantics.

Class ArrowCompute (A : Type) := {
  field_ref : string → A;
  literal : AllTypeVariant → A;
  and_ : A → A → A;
  or_ : A → A → A;
  not_ : A → A;
  equal : A → A → A;
  not_equal : A → A → A;
  less : A → A → A;
  less_equal : A → A → A;
  greater : A → A → A;
  greater_equal : A → A → A;
  is_null : A → bool → A }.

Section Translation.
Context {A : Type} `{ArrowCompute A}.

Definition arrow_comparison (c : PredicateCondition) : option (A → A → A) :=
  match c with
  | kEquals => Some equal
  | kNotEquals => Some not_equal
  | kLessThan => Some less
  | kLessThanEquals => Some less_equal
  | kGreaterThan => Some greater
  | kGreaterThanEquals => Some greater_equal
  | _ => None
  end.

Definition ConvertLogicalExpressionToArrowExpression (op : LogicalOperator) (left right : result A) : result A :=
  l ← left; r ← right;
  Ok (match op with kOr => or_ l r | kAnd => and_ l r end).

Definition ConvertBinaryPredicateExpressionToArrowExpression (arrow_function : A → A → A) (left right : result A)
    : result A :=
  l ← left; r ← right; Ok (arrow_function l r).

Definition ConvertInBetweenPredicateExpressionToArrowExpression (arrow_lower_function arrow_upper_function : A → A → A)
    (value lower upper : result A) : result A :=
  lower_bound ← lower; upper_bound ← upper; v ← value;
  Ok (and_ (arrow_lower_function v lower_bound) (arrow_upper_function v upper_bound)).

Definition ConvertIsNullExpressionToArrowExpression (arrow_function : A → bool → A) (operand : result A) : result A :=
  o ← operand; Ok (arrow_function o false).

(** The switch over the condition decides which subclass the expression is cast to; a
    condition that does not belong to the expression's class makes the cast undefined. *)
Fixpoint CreateArrowExpression (e : expr) : result A :=
  match e with
  | PqpColumn _ _ _ name => Ok (field_ref name)
  | Value v => ResolveDataType (DataTypeFromAllTypeVariant v) (λ _, Ok (literal v))
  | BinaryPredicate c l r =>
      match arrow_comparison c with
      | Some f => ConvertBinaryPredicateExpressionToArrowExpression f (CreateArrowExpression l) (CreateArrowExpression r)
      | None => Err (if decide (c = kLike ∨ c = kNotLike ∨ c = kIn ∨ c = kNotIn) then AssertionFailed else UndefinedBehaviour)
      end
  | Between c v l u =>
      let convert f g := ConvertInBetweenPredicateExpressionToArrowExpression f g
        (CreateArrowExpression v) (CreateArrowExpression l) (CreateArrowExpression u) in
      match c with
      | kBetweenInclusive => convert greater_equal less_equal
      | kBetweenLowerExclusive => convert greater less_equal
      | kBetweenUpperExclusive => convert greater_equal less
      | kBetweenExclusive => convert greater less
      | kLike | kNotLike | kIn | kNotIn => Err AssertionFailed
      | _ => Err UndefinedBehaviour
      end
  | InExpr c _ _ => Err (if decide (c = kLike ∨ c = kNotLike ∨ c = kIn ∨ c = kNotIn) then AssertionFailed else UndefinedBehaviour)
  | IsNullExpr c a =>
      match c with
      | kIsNull => ConvertIsNullExpressionToArrowExpression is_null (CreateArrowExpression a)
      | kIsNotNull => ConvertIsNullExpressionToArrowExpression (λ x nan_is_null, not_ (is_null x nan_is_null))
                        (CreateArrowExpression a)
      | kLike | kNotLike | kIn | kNotIn => Err AssertionFailed
      | _ => Err UndefinedBehaviour
      end
  | Logical op l r => ConvertLogicalExpressionToArrowExpression op (CreateArrowExpression l) (CreateArrowExpression r)
  | _ => Err AssertionFailed
  end.
End Translation.

(** ** What Arrow's expressions mean for one row *)

(** A value of a column's type, or a Boolean, either possibly NULL. *)
Inductive Datum : Type :=
  | DCell (c : AnyCell)
  | DBool (b : option bool).

(** The order of two cells whose types Arrow can compare, after the conversion to the common
    numeric type: NULL if one of them is, and within that no order if one is NaN. *)
Definition cell_ordering (x y : AnyCell) : result (option (option comparison)) :=
  let 'existT ta a := x in
  let 'existT tb b := y in
  if decide (ta = kNull ∨ tb = kNull ∨ ¬ (ta = kString ↔ tb = kString)) then Err AssertionFailed
  else match a, b with
       | Some a, Some b =>
           a' ← static_cast ta (common_type ta tb) a;
           b' ← static_cast tb (common_type ta tb) b;
           Ok (Some (compare (common_type ta tb) a' b'))
       | _, _ => Ok None
       end.

(** What each of Arrow's comparison functions makes of an order; only [not_equal] holds for NaN. *)
Definition is_equal (o : option comparison) : bool := match o with Some Eq => true | _ => false end.
Definition is_not_equal (o : option comparison) : bool := match o with Some Eq => false | _ => true end.
Definition is_less (o : option comparison) : bool := match o with Some Lt => true | _ => false end.
Definition is_less_equal (o : option comparison) : bool := match o with Some Lt | Some Eq => true | _ => false end.
Definition is_greater (o : option comparison) : bool := match o with Some Gt => true | _ => false end.
Definition is_greater_equal (o : option comparison) : bool := match o with Some Gt | Some Eq => true | _ => false end.

(** [f] compares: it is [test] of the order of its arguments, and NULL when one of them is. *)
Definition compares {A} (denote : A → option Datum) (f : A → A → A) (test : option comparison → bool) : Prop :=
  ∀ a b x y o, denote a = Some (DCell x) → denote b = Some (DCell y) → cell_ordering x y = Ok o →
    denote (f a b) = Some (DBool (test <$> o)).

Class ArrowSemantics (A : Type) `{ArrowCompute A} (columns : string → AnyCell) := {
  denote : A → option Datum;
  denote_field_ref n : denote (field_ref n) = Some (DCell (columns n));
  denote_literal v c : DataTypeFromAllTypeVariant v ≠ kNull →
    variant_cell (DataTypeFromAllTypeVariant v) v = Ok c → denote (literal v) = Some (DCell (any_cell c));
  denote_and a b x y : denote a = Some (DBool x) → denote b = Some (DBool y) →
    denote (and_ a b) = Some (DBool (kleene_and x y));
  denote_or a b x y : denote a = Some (DBool x) → denote b = Some (DBool y) →
    denote (or_ a b) = Some (DBool (kleene_or x y));
  denote_not a x : denote a = Some (DBool x) → denote (not_ a) = Some (DBool (negb <$> x));
  denote_equal : compares denote equal is_equal;
  denote_not_equal : compares denote not_equal is_not_equal;
  denote_less : compares denote less is_less;
  denote_less_equal : compares denote less_equal is_less_equal;
  denote_greater : compares denote greater is_greater;
  denote_greater_equal : compares denote greater_equal is_greater_equal;
  denote_is_null_cell a x : denote a = Some (DCell x) →
    denote (is_null a false) = Some (DBool (Some (negb (bool_decide (is_Some (projT2 x))))));
  denote_is_null_bool a x : denote a = Some (DBool x) →
    denote (is_null a false) = Some (DBool (Some (negb (bool_decide (is_Some x))))) }.

(** Predicates over columns and literals: what the planner pushes down. *)
Definition is_operand (e : expr) : bool :=
  match e with PqpColumn _ t _ _ => bool_decide (t ≠ kNull) | Value v => negb (VariantIsNull v) | _ => false end.

Fixpoint is_predicate (e : expr) : bool :=
  match e with
  | Logical _ l r => is_predicate l && is_predicate r
  | BinaryPredicate _ l r => is_operand l && is_operand r
  | Between _ v l u => is_operand v && is_operand l && is_operand u
  | IsNullExpr _ a => is_operand a || is_predicate a
  | _ => false
  end.

(** The columns of an expression, found under their names. *)
Fixpoint columns_agree (row : ColumnId → result AllTypeVariant) (columns : string → AnyCell) (e : expr) : Prop :=
  match e with
  | PqpColumn id t _ name => ∀ v c, row id = Ok v → variant_cell t v = Ok c → columns name = any_cell c
  | Logical _ l r | BinaryPredicate _ l r => columns_agree row columns l ∧ columns_agree row columns r
  | Between _ v l u => columns_agree row columns v ∧ columns_agree row columns l ∧ columns_agree row columns u
  | IsNullExpr _ a => columns_agree row columns a
  | _ => True
  end.

Section Soundness.
Variable lexical_cast_string : ∀ t, ctype t → string.
Variable try_lexical_convert : ∀ t, string → option (ctype t).
Context {A : Type} (columns : string → AnyCell) `{ArrowSemantics A columns}.
Variable row : ColumnId → result AllTypeVariant.

Abbreviation sem := (sem lexical_cast_string try_lexical_convert row).

Lemma operand_sound e a x :
  is_operand e = true → columns_agree row columns e →
  CreateArrowExpression e = Ok a → resolve_cell e (sem e) = Ok x → denote a = Some (DCell x).
Proof.
  destruct e; try done; cbn; intros Hop Hcol.
  - apply bool_decide_eq_true in Hop. intros [= <-]. unfold resolve_cell. cbn. rewrite decide_False by done.
    destruct (row id) as [v|] eqn:Hv; [|done]. cbn. destruct (variant_cell data_type v) as [c|] eqn:Hc; [|done].
    cbn. intros [= <-]. rewrite denote_field_ref. by rewrite (Hcol v c eq_refl Hc).
  - intros Ha. unfold resolve_cell. cbn. assert (DataTypeFromAllTypeVariant v ≠ kNull) as Hne by by destruct v.
    rewrite ResolveDataType_typed in Ha by done. injection Ha as <-. rewrite decide_False by done.
    destruct (variant_cell _ v) as [c|] eqn:Hc; [|done]. cbn. intros [= <-]. by apply denote_literal.
Qed.

Lemma comparison_numeric c f : arrow_comparison (A:=A) c = Some f → IsBinaryNumericPredicateCondition c = true.
Proof. by destruct c. Qed.

Lemma truth_bool b : truth (any_cell (t := kInt) (bool_to_int <$> b)) = b.
Proof. by destruct b as [[]|]. Qed.

Lemma predicate_cell e x :
  is_predicate e = true → resolve_cell e (sem e) = Ok x → ∃ z, sem e kInt = Ok z ∧ x = any_cell (t := kInt) z.
Proof.
  intros Hp Hx. unfold resolve_cell in Hx. assert (GetDataType e = Ok kInt) as Ht by by destruct e.
  rewrite Ht in Hx. cbn [rbind] in Hx. rewrite decide_False in Hx by done. apply bind_ok in Hx as (z & Hz & Hx).
  injection Hx as <-. by exists z.
Qed.

(** The reference semantics of a comparison is the condition on the order of the cells. *)
Lemma sem_compare_ordering c x y m :
  projT1 x ≠ kNull → projT1 y ≠ kNull → sem_compare c x y = Ok m →
  ∃ o, cell_ordering x y = Ok o ∧ truth (any_cell (t := kInt) m) = holds c <$> o.
Proof.
  destruct x as [ta a], y as [tb b]. cbn [projT1]. intros Hta Htb. unfold sem_compare, cell_ordering.
  destruct (SupportsComparison kInt ta tb) eqn:Hs; [|done]. rewrite decide_False by (destruct ta, tb; try done; intros [?|[?|H1]]; try done; by apply H1).
  destruct a as [a|], b as [b|]; cbn [null_strict]; try (intros [= <-]; by exists None). unfold StlComparison.
  assert (is_null_type ta || is_null_type tb = false) as -> by by destruct ta, tb.
  destruct (static_cast ta _ a) as [a'|]; cbn [rbind]; [|done]. destruct (static_cast tb _ b) as [b'|]; cbn [rbind]; [|done].
  intros [= <-]. eexists. split; [done|]. exact (truth_bool (Some _)).
Qed.

Lemma operand_not_null e x : is_operand e = true → resolve_cell e (sem e) = Ok x → projT1 x ≠ kNull.
Proof.
  unfold resolve_cell. intros Hop Hx. assert (∃ t, GetDataType e = Ok t ∧ t ≠ kNull) as (t & He & Ht).
  { destruct e; try done; cbn in Hop |- *; [apply bool_decide_eq_true in Hop; by eexists|].
    eexists. split; [done|]. by destruct v. }
  rewrite He in Hx. cbn [rbind] in Hx. rewrite decide_False in Hx by done. apply bind_ok in Hx as (c & _ & Hx). by injection Hx as <-.
Qed.

Lemma comparison_sound c f l r a b x y m :
  arrow_comparison c = Some f → is_operand l = true → is_operand r = true →
  columns_agree row columns l → columns_agree row columns r →
  CreateArrowExpression l = Ok a → CreateArrowExpression r = Ok b →
  resolve_cell l (sem l) = Ok x → resolve_cell r (sem r) = Ok y → sem_compare c x y = Ok m →
  denote (f a b) = Some (DBool (truth (any_cell (t := kInt) m))).
Proof.
  intros Hf Hl Hr Hcl Hcr Ha Hb Hx Hy Hm.
  destruct (sem_compare_ordering c x y m) as (o & Ho & ->); [by apply (operand_not_null l)|by apply (operand_not_null r)|done|].
  pose proof (operand_sound l a x Hl Hcl Ha Hx) as Hda. pose proof (operand_sound r b y Hr Hcr Hb Hy) as Hdb.
  destruct c; try done; injection Hf as <-; (etransitivity;
    [first [eapply denote_equal|eapply denote_not_equal|eapply denote_less|eapply denote_less_equal|eapply denote_greater
      |eapply denote_greater_equal]; eassumption|]);
    do 2 f_equal; by destruct o as [[[]|]|].
Qed.

Lemma predicate_sound e a z :
  is_predicate e = true → columns_agree row columns e →
  CreateArrowExpression e = Ok a → sem e kInt = Ok z →
  denote a = Some (DBool (truth (any_cell (t := kInt) z))).
Proof.
  revert a z. induction e using expr_ind; intros a z Hp Hcol Ha Hz; try done; cbn in Hp, Hcol, Ha, Hz.
  - apply andb_true_iff in Hp as [Hp1 Hp2]. destruct Hcol as [Hc1 Hc2].
    unfold ConvertLogicalExpressionToArrowExpression in Ha.
    apply bind_ok in Ha as (al & Hal & Ha), Hz as (x & Hx & Hz). apply bind_ok in Ha as (ar & Har & Ha), Hz as (y & Hy & Hz).
    injection Ha as <-.
    destruct (predicate_cell _ _ Hp1 Hx) as (z1 & Hz1 & ->), (predicate_cell _ _ Hp2 Hy) as (z2 & Hz2 & ->).
    cbn in Hz. injection Hz as <-. rewrite truth_bool.
    pose proof (IHe1 _ _ Hp1 Hc1 Hal Hz1). pose proof (IHe2 _ _ Hp2 Hc2 Har Hz2).
    destruct o; [by apply denote_and|by apply denote_or].
  - apply andb_true_iff in Hp as [Hp1 Hp2]. destruct Hcol as [Hc1 Hc2].
    destruct (arrow_comparison c) as [f|] eqn:Hf; [|done].
    rewrite (comparison_numeric _ _ Hf) in Hz. unfold ConvertBinaryPredicateExpressionToArrowExpression in Ha.
    apply bind_ok in Ha as (al & Hal & Ha), Hz as (x & Hx & Hz). apply bind_ok in Ha as (ar & Har & Ha), Hz as (y & Hy & Hz).
    injection Ha as <-. by apply (comparison_sound c f e1 e2 al ar x y z).
  - rewrite !andb_true_iff in Hp. destruct Hp as [[Hp1 Hp2] Hp3]. destruct Hcol as (Hc1 & Hc2 & Hc3).
    assert (∃ f g, arrow_comparison (between_lower c) = Some f ∧ arrow_comparison (between_upper c) = Some g ∧
      ConvertInBetweenPredicateExpressionToArrowExpression f g (CreateArrowExpression e1) (CreateArrowExpression e2)
        (CreateArrowExpression e3) = Ok a) as (f & g & Hf & Hg & Ha') by (destruct c; try done; by eexists _, _).
    clear Ha. unfold ConvertInBetweenPredicateExpressionToArrowExpression in Ha'.
    apply bind_ok in Ha' as (al & Hal & Ha), Hz as (x & Hx & Hz). apply bind_ok in Ha as (au & Hau & Ha), Hz as (y & Hy & Hz).
    apply bind_ok in Ha as (av & Hav & Ha), Hz as (m & Hm & Hz). apply bind_ok in Hz as (u & Hu & Hz).
    apply bind_ok in Hz as (n & Hn & Hz). injection Ha as <-. injection Hz as <-. rewrite truth_bool.
    apply denote_and; [by apply (comparison_sound (between_lower c) f e1 e2 av al x y m)|by apply (comparison_sound (between_upper c) g e1 e3 av au x u n)].
  - assert (∃ o, CreateArrowExpression e = Ok o ∧ (c = kIsNull ∧ a = is_null o false ∨
      c = kIsNotNull ∧ a = not_ (is_null o false))) as (o & Ho & Hca).
    { destruct c; try done; unfold ConvertIsNullExpressionToArrowExpression in Ha;
        apply bind_ok in Ha as (o & Ho & Ha); injection Ha as <-; exists o; auto. }
    apply bind_ok in Hz as (x & Hx & Hz). injection Hz as <-. set (null := negb (bool_decide (is_Some (projT2 x)))).
    assert (denote (is_null o false) = Some (DBool (Some null))) as Hnull.
    { apply orb_true_iff in Hp as [Hop|Hp].
      - apply denote_is_null_cell. by apply (operand_sound e).
      - destruct (predicate_cell _ _ Hp Hx) as (z & Hz & ->).
        rewrite (denote_is_null_bool o _ (IHe _ _ Hp Hcol Ho Hz)). do 3 f_equal. unfold null. cbn.
        destruct z; [by rewrite !bool_decide_true by by eexists|done]. }
    destruct Hca as [[-> ->]|[-> ->]]; cbn; [|rewrite (denote_not _ _ Hnull)]; rewrite ?Hnull; by destruct null.
Qed.
End Soundness.

(** C10: A predicate that is pushed into the Parquet reader keeps its meaning: for every row,
    Arrow's expression is true, false or NULL exactly as the row semantics has it, NULLs in
    the columns included (Arrow's functions are taken to mean what their names say, each by
    itself: which of them a condition is translated to is the code's); so the rows the scanner keeps are the rows the filter would keep. *)
Theorem CreateArrowExpression_sound {A : Type} (columns : string → AnyCell) `{ArrowSemantics A columns}
    lexical_cast_string try_lexical_convert (row : ColumnId → result AllTypeVariant) (e : expr) (a : A) (z : option Z)
    (Hpredicate : is_predicate e = true) (Hcolumns : columns_agree row columns e)
    (Hcreate : CreateArrowExpression e = Ok a)
    (Hsem : sem lexical_cast_string try_lexical_convert row e kInt = Ok z) :
  denote a = Some (DBool (truth (any_cell (t := kInt) z))).
Proof. by eapply predicate_sound. Qed.

(** ** An instance: Arrow's expressions as a syntax tree *)
Local Open Scope string_scope.

Inductive arrow_tree : Type :=
  | FieldRef (n : string)
  | Literal (v : AllTypeVariant)
  | And (a b : arrow_tree)
  | Or (a b : arrow_tree)
  | Not (a : arrow_tree)
  | Compare (test : option comparison → bool) (a b : arrow_tree)
  | IsNull (a : arrow_tree).

#[export] Instance arrow_tree_compute : ArrowCompute arrow_tree := {
  field_ref := FieldRef; literal := Literal; and_ := And; or_ := Or; not_ := Not;
  equal := Compare is_equal; not_equal := Compare is_not_equal; less := Compare is_less;
  less_equal := Compare is_less_equal; greater := Compare is_greater; greater_equal := Compare is_greater_equal; is_null a _ := IsNull a }.

Fixpoint denote_tree (columns : string → AnyCell) (a : arrow_tree) : option Datum :=
  let boolean2 f a b := match denote_tree columns a, denote_tree columns b with
                        | Some (DBool x), Some (DBool y) => Some (DBool (f x y)) | _, _ => None end in
  match a with
  | FieldRef n => Some (DCell (columns n))
  | Literal v => match variant_cell (DataTypeFromAllTypeVariant v) v with Ok c => Some (DCell (any_cell c)) | Err _ => None end
  | And a b => boolean2 kleene_and a b
  | Or a b => boolean2 kleene_or a b
  | Not a => match denote_tree columns a with Some (DBool x) => Some (DBool (negb <$> x)) | _ => None end
  | Compare test a b =>
      match denote_tree columns a, denote_tree columns b with
      | Some (DCell x), Some (DCell y) =>
          match cell_ordering x y with Ok o => Some (DBool (test <$> o)) | Err _ => None end
      | _, _ => None
      end
  | IsNull a =>
      match denote_tree columns a with
      | Some (DCell x) => Some (DBool (Some (negb (bool_decide (is_Some (projT2 x))))))
      | Some (DBool x) => Some (DBool (Some (negb (bool_decide (is_Some x)))))
      | None => None
      end
  end.

#[export] Instance arrow_tree_semantics columns : ArrowSemantics arrow_tree columns.
Proof.
  refine {| denote := denote_tree columns |}; cbn; try done; try (intros a b x y o; cbn; by intros -> -> ->).
  - by intros v c _ ->.
  - by intros a b x y -> ->.
  - by intros a b x y -> ->.
  - by intros a x ->.
  - by intros a x ->.
  - by intros a x ->.
Defined.

(** [a BETWEEN 1 AND 9 AND b IS NOT NULL] on a row with [a = 5] and [b = 'x']. *)
Definition pushdown_example : expr :=
  Logical kAnd
    (Between kBetweenInclusive (PqpColumn 0%N kInt false "a") (Value (VInt 1)) (Value (VInt 9)))
    (IsNullExpr kIsNotNull (PqpColumn 1%N kString true "b")).

Definition pushdown_row (id : ColumnId) : result AllTypeVariant :=
  if decide (id = 0%N) then Ok (VInt 5) else Ok (VString "x").

Definition pushdown_columns (name : string) : AnyCell :=
  if decide (name = "a") then any_cell (t := kInt) (Some 5) else any_cell (t := kString) (Some "x").

Lemma CreateArrowExpression_sound_witness :
  ∃ a : arrow_tree, CreateArrowExpression pushdown_example = Ok a ∧
    denote (columns:=pushdown_columns) a = Some (DBool (Some true)).
Proof.
  eexists. split; [reflexivity|].
  refine (CreateArrowExpression_sound pushdown_columns (λ _ _, EmptyString) (λ _ _, None) pushdown_row
    pushdown_example _ (Some 1) _ _ _ _); [reflexivity| |reflexivity|vm_compute; reflexivity].
  cbn. repeat split; intros v c; (intros [= <-] || idtac); cbn; (intros [= <-] || idtac); reflexivity.
Defined.
