(* ===== verification/OperatorProxy.v ===== *)
(** * Operator proxies and their documents

    [src/lib/compiler/physical_query_plan/operator_proxy/]: the nodes of a physical query plan
    with what each subclass of [AbstractOperatorProxy] holds, [ToJson] and [FromJson] of every
    operator, and the [ImportOptions].  A plan is a heap: proxies are shared by pointer, so a
    proxy names its inputs by address ([N]).  [operator/partitioning_function.cpp]'s documents
    and the documents of [ObjectReference] ([types.hpp]) are here, too. *)

From Stdlib Require Import Ascii.
From S2P Require Export ExpressionSerialization ArrowExpression Join.

Local Open Scope string_scope.

Inductive OperatorType : Set :=
  | oAggregate | oAlias | oExchange | oExport | oFilter | oImport | oHashJoin | oLimit | oPartition
  | oProjection | oSort | oSortMergeJoin | oUnion.
#[export] Instance OperatorType_eq_dec : EqDecision OperatorType.
Proof. solve_decision. Defined.

Inductive PartitioningFunctionType : Set := kHash | kRange.
#[export] Instance PartitioningFunctionType_eq_dec : EqDecision PartitioningFunctionType.
Proof. solve_decision. Defined.

(** ** Members *)

(** [HashPartitioningFunction]; the set of columns in the order of iteration. *)
Record PartitioningFunction : Set := mkPartitioningFunction {
  partition_column_ids : list ColumnId;
  partition_count : Z }.

Record CsvFormatReaderOptions : Set := mkCsvFormatReaderOptions {
  read_buffer_size : Z;
  delimiter : ascii;
  guess_delimiter : bool;
  guess_has_header : bool;
  guess_has_types : bool;
  has_header : bool;
  has_types : bool;
  csv_expected_schema : option (list TableColumnDefinition) }.

Record OrcFormatReaderOptions : Set := mkOrcFormatReaderOptions {
  orc_parse_dates_as_string : bool;
  orc_include_columns : option (list ColumnId);
  orc_expected_schema : option (list TableColumnDefinition) }.

Record ParquetFormatReaderOptions (A : Type) : Type := mkParquetFormatReaderOptions {
  parquet_parse_dates_as_string : bool;
  parquet_expected_schema : option (list TableColumnDefinition);
  parquet_include_columns : option (list ColumnId);
  row_group_ids : option (list Z);
  arrow_expression : option A;
  skyrise_expression : option expr }.
Arguments mkParquetFormatReaderOptions {A}.
Arguments parquet_parse_dates_as_string {A}.
Arguments parquet_expected_schema {A}.
Arguments parquet_include_columns {A}.
Arguments row_group_ids {A}.
Arguments arrow_expression {A}.
Arguments skyrise_expression {A}.

(** The import format and the reader options: the constructors keep them in step. *)
Inductive ImportOptions (A : Type) : Type :=
  | CsvOptions (o : CsvFormatReaderOptions)
  | OrcOptions (o : OrcFormatReaderOptions)
  | ParquetOptions (o : ParquetFormatReaderOptions A).
Arguments CsvOptions {A} o.
Arguments OrcOptions {A} o.
Arguments ParquetOptions {A} o.

Definition kS3ReadRequestSizeBytes : Z := 16 * 2 ^ 20.

Definition default_csv_options : CsvFormatReaderOptions :=
  mkCsvFormatReaderOptions kS3ReadRequestSizeBytes ","%char true true true false false None.

Definition make_ImportOptions {A} (object_format : FileFormat) (columns : list ColumnId) (partitions : option (list Z))
    : ImportOptions A :=
  match object_format with
  | kCsv => CsvOptions default_csv_options
  | kOrc => OrcOptions (mkOrcFormatReaderOptions false (Some columns) None)
  | kParquet => ParquetOptions (mkParquetFormatReaderOptions false None (Some columns) partitions None None)
  end.

(** [ImportOptions(format, columns)] passes an empty vector on, not an empty optional. *)
Definition make_ImportOptions_columns {A} (object_format : FileFormat) (columns : list ColumnId) : ImportOptions A :=
  make_ImportOptions object_format columns (Some []).

(** ** Proxies *)
Inductive ProxyOperator (A : Type) : Type :=
  | AggregateOperatorProxy (groupby_column_ids : list ColumnId) (aggregates : list expr) (is_pipeline_breaker : bool)
  | AliasOperatorProxy (column_ids : list ColumnId) (aliases : list string)
  | ExchangeOperatorProxy (mode : ExchangeMode) (output_objects_count : Z)
  | ExportOperatorProxy (target_object : ObjectReference) (export_format : FileFormat) (consolidate_row_groups : bool)
  | FilterOperatorProxy (predicate : expr)
  | ImportOperatorProxy (column_ids : list ColumnId) (object_references : list ObjectReference)
      (import_options : option (ImportOptions A)) (output_objects_count : Z)
  | JoinOperatorProxy (sort_merge : bool) (mode : JoinMode) (primary_predicate : option JoinOperatorPredicate)
      (secondary_predicates : list JoinOperatorPredicate)
  | LimitOperatorProxy (row_count : expr)
  | PartitionOperatorProxy (partitioning_function : PartitioningFunction) (sort_within_partition : bool)
  | ProjectionOperatorProxy (expressions : list expr)
  | SortOperatorProxy (sort_definitions : list SortColumnDefinition)
  | UnionOperatorProxy (mode : SetOperationMode).
Arguments AggregateOperatorProxy {A}.
Arguments AliasOperatorProxy {A}.
Arguments ExchangeOperatorProxy {A}.
Arguments ExportOperatorProxy {A}.
Arguments FilterOperatorProxy {A}.
Arguments ImportOperatorProxy {A}.
Arguments JoinOperatorProxy {A}.
Arguments LimitOperatorProxy {A}.
Arguments PartitionOperatorProxy {A}.
Arguments ProjectionOperatorProxy {A}.
Arguments SortOperatorProxy {A}.
Arguments UnionOperatorProxy {A}.

Definition Type_ {A} (op : ProxyOperator A) : OperatorType :=
  match op with
  | AggregateOperatorProxy _ _ _ => oAggregate
  | AliasOperatorProxy _ _ => oAlias
  | ExchangeOperatorProxy _ _ => oExchange
  | ExportOperatorProxy _ _ _ => oExport
  | FilterOperatorProxy _ => oFilter
  | ImportOperatorProxy _ _ _ _ => oImport
  | JoinOperatorProxy sort_merge _ _ _ => if sort_merge then oSortMergeJoin else oHashJoin
  | LimitOperatorProxy _ => oLimit
  | PartitionOperatorProxy _ _ => oPartition
  | ProjectionOperatorProxy _ => oProjection
  | SortOperatorProxy _ => oSort
  | UnionOperatorProxy _ => oUnion
  end.

Definition Name {A} (op : ProxyOperator A) : string :=
  match Type_ op with
  | oAggregate => "Aggregate" | oAlias => "Alias" | oExchange => "DataExchange" | oExport => "Export"
  | oFilter => "Filter" | oImport => "Import" | oHashJoin => "HashJoin" | oLimit => "Limit"
  | oPartition => "Partition" | oProjection => "Projection" | oSort => "Sort"
  | oSortMergeJoin => "SortMergeJoin" | oUnion => "Union"
  end.

(** The constructors' checks. *)
Definition make_proxy_operator {A} (op : ProxyOperator A) : result (ProxyOperator A) :=
  match op with
  | AliasOperatorProxy column_ids aliases =>
      _ ← assert_ (length column_ids =? length aliases)%nat AssertionFailed; Ok op
  | ExportOperatorProxy target _ _ => _ ← assert_ (bool_decide (etag target = EmptyString)) AssertionFailed; Ok op
  | ImportOperatorProxy column_ids _ _ _ => _ ← assert_ (bool_decide (column_ids ≠ [])) AssertionFailed; Ok op
  | SortOperatorProxy sort_definitions => _ ← assert_ (bool_decide (sort_definitions ≠ [])) AssertionFailed; Ok op
  | _ => Ok op
  end.

(** A node whose inputs are pointers of type [P]: addresses in a plan, and identities in the
    map of a deserialized plan, which holds one new proxy per identity.  [identity_] is empty
    until an identity is set or asked for; the two input identities are set between [FromJson]
    and [BindInputs] only. *)
Record Proxy (A P : Type) : Type := mkProxy {
  proxy_operator : ProxyOperator A;
  identity_ : string;
  comment_ : string;
  LeftInput : option P;
  RightInput : option P;
  left_input_identity_ : string;
  right_input_identity_ : string }.
Arguments mkProxy {A P}.
Arguments proxy_operator {A P}.
Arguments identity_ {A P}.
Arguments comment_ {A P}.
Arguments LeftInput {A P}.
Arguments RightInput {A P}.
Arguments left_input_identity_ {A P}.
Arguments right_input_identity_ {A P}.

Abbreviation Plan A := (gmap N (Proxy A N)).

Definition deref {A P} `{Countable P} (plan : gmap P (Proxy A P)) (p : P) : result (Proxy A P) :=
  of_option (plan !! p) UndefinedBehaviour.

(** The inputs in the order in which traversals take them. *)
Definition inputs {A P} (x : Proxy A P) : list P := option_list (LeftInput x) ++ option_list (RightInput x).

Inductive plan_reachable {A P} `{Countable P} (plan : gmap P (Proxy A P)) (root : P) : P → Prop :=
  | plan_reachable_root : plan_reachable plan root root
  | plan_reachable_input p x q :
      plan_reachable plan root p → plan !! p = Some x → q ∈ inputs x → plan_reachable plan root q.

(** [address_text] prints a pointer. *)
Definition Identity {A P} (address_text : P → string) (p : P) (x : Proxy A P) : string :=
  if decide (identity_ x = EmptyString) then Name (proxy_operator x) +:+ address_text p else identity_ x.

(** The further enumerations whose names occur in documents. *)
Class OperatorNames := {
  #[global] names_FileFormat :: MagicEnum FileFormat;
  #[global] names_JoinMode :: MagicEnum JoinMode;
  #[global] names_OperatorType :: MagicEnum OperatorType;
  #[global] names_PartitioningFunctionType :: MagicEnum PartitioningFunctionType;
  #[global] names_SetOperationMode :: MagicEnum SetOperationMode;
  #[global] names_SortMode :: MagicEnum SortMode }.

(** ** Documents *)
Section Documents.
Context {J : Type} `{Json J} `{ExpressionNames} `{OperatorNames} {A : Type} `{ArrowCompute A}.

(** [static_cast<ColumnId>], and column ids as JSON integers. *)
Definition to_column_id (z : Z) : ColumnId := Z.to_N (wrap_uint32 z).
Definition column_ids_ToJson (column_ids : list ColumnId) : list J := VectorToJsonArray_integral (Z.of_N <$> column_ids).
Definition column_ids_FromJson (array : list J) : list ColumnId :=
  Z.to_N <$> JsonArrayToVector_integral wrap_uint32 array.

(** [types.hpp]. *)
Definition ObjectReference_ToJson (o : ObjectReference) : J :=
  let json := WithString (WithString (WithString JsonValue "bucket_name" (bucket_name o))
    "identifier" (identifier o)) "etag" (etag o) in
  match partitions o with
  | Some p => WithArray json "partitions" (VectorToJsonArray_integral p)
  | None => json
  end.

Definition ObjectReference_FromJson (json : J) : result ObjectReference :=
  let partitions := if KeyExists json "partitions"
    then Some (JsonArrayToVector_integral wrap_int32 (GetArray json "partitions")) else None in
  make_ObjectReference (GetString json "bucket_name") (GetString json "identifier") (GetString json "etag") partitions.

(** [operator/partitioning_function.cpp].  [insert] is the one of [std::set]. *)
Definition PartitioningFunction_ToJson (f : PartitioningFunction) : J :=
  WithInteger
    (WithArray (WithString JsonValue "type" (enum_name kHash)) "partition_column_ids"
       ((λ id, As (AInteger (wrap_int32 (Z.of_N id)))) <$> partition_column_ids f))
    "partition_count" (wrap_int32 (partition_count f)).

Fixpoint set_insert (id : ColumnId) (l : list ColumnId) : list ColumnId :=
  match l with
  | [] => [id]
  | x :: l' => if (id <? x)%N then id :: l else if (id =? x)%N then l else x :: set_insert id l'
  end.

Definition PartitioningFunction_FromJson (json : J) : result PartitioningFunction :=
  type ← enum_value (GetString json "type");
  match type with
  | kHash => Ok (mkPartitioningFunction
      (foldl (λ s id, set_insert id s) [] ((to_column_id ∘ AsInteger) <$> GetArray json "partition_column_ids"))
      (wrap_uint64 (GetInteger json "partition_count")))
  | kRange => Err AssertionFailed
  end.

(** *** [import_options.cpp] *)
Definition TableColumnDefinitionsToJsonArray (column_definitions : list TableColumnDefinition) : list J :=
  (λ d, WithBool (WithString (WithString JsonValue "name" (tcd_name d)) "data_type" (enum_name (tcd_data_type d)))
          "nullable" (tcd_nullable d)) <$> column_definitions.

Definition column_definition_FromJson (json : J) : result TableColumnDefinition :=
  _ ← assert_ (ValueExists json "name") AssertionFailed;
  _ ← assert_ (ValueExists json "data_type") AssertionFailed;
  data_type ← enum_value (GetString json "data_type");
  _ ← assert_ (ValueExists json "nullable") AssertionFailed;
  Ok (mkTableColumnDefinition (GetString json "name") data_type (GetBool json "nullable")).

Definition TableColumnDefinitionsFromJsonArray (json_array : list J) : result (list TableColumnDefinition) :=
  _ ← assert_ (bool_decide (json_array ≠ [])) AssertionFailed;
  mapR column_definition_FromJson json_array.

(** [if (value) json.WithArray(k, ..)] and [if (json.KeyExists(k)) value = ..]. *)
Definition with_option {T} (json : J) (k : string) (ToJson : T → content J) (o : option T) : J :=
  match o with Some x => With k (ToJson x) json | None => json end.
Definition get_option {T} (json : J) (k : string) (FromJson : J → result T) : result (option T) :=
  if KeyExists json k then x ← FromJson json; Ok (Some x) else Ok None.

Definition expected_schema_ToJson (d : list TableColumnDefinition) : content J := AArray (TableColumnDefinitionsToJsonArray d).
Definition expected_schema_FromJson (json : J) : result (list TableColumnDefinition) :=
  TableColumnDefinitionsFromJsonArray (GetArray json "expected_schema").

Definition CsvOptions_ToJson (o : CsvFormatReaderOptions) : J :=
  with_option
    (WithBool (WithBool (WithBool (WithBool (WithBool
      (WithString (WithInt64 JsonValue "read_buffer_size" (wrap_int64 (read_buffer_size o)))
         "delimiter" (String (delimiter o) EmptyString))
      "guess_delimiter" (guess_delimiter o)) "guess_has_header" (guess_has_header o))
      "guess_has_types" (guess_has_types o)) "has_header" (has_header o)) "has_types" (has_types o))
    "expected_schema" expected_schema_ToJson (csv_expected_schema o).

Definition OrcOptions_ToJson (o : OrcFormatReaderOptions) : J :=
  let json := WithBool JsonValue "parse_dates_as_string" (orc_parse_dates_as_string o) in
  match orc_expected_schema o with
  | Some d => With "expected_schema" (expected_schema_ToJson d) json
  | None => with_option json "include_columns" (λ c, AArray (column_ids_ToJson c)) (orc_include_columns o)
  end.

Definition ParquetOptions_ToJson (o : ParquetFormatReaderOptions A) : J :=
  let json := WithBool JsonValue "parse_dates_as_string" (parquet_parse_dates_as_string o) in
  let json := with_option json "include_columns" (λ c, AArray (column_ids_ToJson c)) (parquet_include_columns o) in
  let json := with_option json "expected_schema" expected_schema_ToJson (parquet_expected_schema o) in
  let json := with_option json "row_group_ids" (λ r, AArray (VectorToJsonArray_integral r)) (row_group_ids o) in
  with_option json "skyrise_expression" (λ e, AObject (SerializeExpression e)) (skyrise_expression o).

Definition ImportOptions_ToJson (o : ImportOptions A) : J :=
  match o with
  | CsvOptions o => WithObject JsonValue "csv_format_reader_options" (CsvOptions_ToJson o)
  | OrcOptions o => WithObject JsonValue "orc_format_reader_options" (OrcOptions_ToJson o)
  | ParquetOptions o => WithObject JsonValue "parquet_format_reader_options" (ParquetOptions_ToJson o)
  end.

(** Members are read as objects and converted to [bool]. *)
Definition get_object_bool (json : J) (k : string) : bool := AsBool (GetObject json k).

Definition CsvOptions_FromJson (json : J) : result CsvFormatReaderOptions :=
  schema ← get_option json "expected_schema" expected_schema_FromJson;
  Ok (mkCsvFormatReaderOptions (wrap_uint64 (GetInt64 json "read_buffer_size"))
    (match GetString json "delimiter" with String c _ => c | EmptyString => "000"%char end)
    (get_object_bool json "guess_delimiter") (get_object_bool json "guess_has_header")
    (get_object_bool json "guess_has_types") (get_object_bool json "has_header")
    (get_object_bool json "has_types") schema).

Definition OrcOptions_FromJson (json : J) : result OrcFormatReaderOptions :=
  let dates := get_object_bool json "parse_dates_as_string" in
  if KeyExists json "expected_schema" then
    d ← expected_schema_FromJson json; Ok (mkOrcFormatReaderOptions dates None (Some d))
  else if KeyExists json "include_columns" then
    Ok (mkOrcFormatReaderOptions dates (Some (column_ids_FromJson (GetArray json "include_columns"))) None)
  else Ok (mkOrcFormatReaderOptions dates None None).

(** The expression comes back in Arrow's form only. *)
Definition ParquetOptions_FromJson (fuel : nat) (json : J) : result (ParquetFormatReaderOptions A) :=
  schema ← get_option json "expected_schema" expected_schema_FromJson;
  columns ← get_option json "include_columns" (λ json, Ok (column_ids_FromJson (GetArray json "include_columns")));
  arrow ← get_option json "skyrise_expression" (λ json,
    e ← DeserializeExpression fuel (GetObject json "skyrise_expression"); CreateArrowExpression e);
  row_groups ← get_option json "row_group_ids" (λ json,
    Ok (JsonArrayToVector_integral wrap_int32 (GetArray json "row_group_ids")));
  Ok (mkParquetFormatReaderOptions (get_object_bool json "parse_dates_as_string") schema columns row_groups arrow None).

Definition ImportOptions_FromJson (fuel : nat) (json_in : J) : result (ImportOptions A) :=
  if ValueExists json_in "csv_format_reader_options" then
    o ← CsvOptions_FromJson (GetObject json_in "csv_format_reader_options"); Ok (CsvOptions o)
  else if ValueExists json_in "orc_format_reader_options" then
    o ← OrcOptions_FromJson (GetObject json_in "orc_format_reader_options"); Ok (OrcOptions o)
  else if ValueExists json_in "parquet_format_reader_options" then
    o ← ParquetOptions_FromJson fuel (GetObject json_in "parquet_format_reader_options"); Ok (ParquetOptions o)
  else Err AssertionFailed.

(** *** Operators: the members that a subclass adds, and what it reads back *)
Definition SerializePredicate (p : JoinOperatorPredicate) : J :=
  WithString (WithInteger (WithInteger JsonValue "column_id_left" (wrap_int32 (Z.of_nat (column_id_left p))))
    "column_id_right" (wrap_int32 (Z.of_nat (column_id_right p))))
    "predicate_condition" (enum_name (predicate_condition p)).

Definition DeserializePredicate (predicate : J) : result JoinOperatorPredicate :=
  _ ← assert_ (ValueExists predicate "column_id_left") AssertionFailed;
  _ ← assert_ (ValueExists predicate "column_id_right") AssertionFailed;
  _ ← assert_ (ValueExists predicate "predicate_condition") AssertionFailed;
  condition ← enum_value (GetString predicate "predicate_condition");
  Ok (mkJoinOperatorPredicate (Z.to_nat (wrap_uint32 (GetInteger predicate "column_id_left")))
        (Z.to_nat (wrap_uint32 (GetInteger predicate "column_id_right"))) condition).

Definition import_reference_ToJson (o : ObjectReference) : J :=
  WithString (WithString (WithString JsonValue "bucket" (bucket_name o)) "key" (identifier o)) "etag" (etag o).

Definition import_reference_FromJson (json : J) : result ObjectReference :=
  make_ObjectReference (GetString json "bucket") (GetString json "key") (GetString json "etag") None.

Definition sort_definition_ToJson (d : SortColumnDefinition) : J :=
  WithString (WithInteger JsonValue "sort_column_id" (wrap_int32 (Z.of_N (scd_column_id d))))
    "sort_mode" (enum_name (scd_sort_mode d)).

Definition sort_definition_FromJson (json : J) : result SortColumnDefinition :=
  mode ← enum_value (GetString json "sort_mode");
  Ok (mkSortColumnDefinition (to_column_id (GetInteger json "sort_column_id")) mode).

(** **** Aggregate *)
Definition AggregateOperatorProxy_ToJson (json : J) (groupby : list ColumnId) (aggregates : list expr) (breaker : bool) : J :=
  WithBool (WithArray (WithArray json "aggregates" (SerializeExpression <$> aggregates))
    "group_by_column_ids" (column_ids_ToJson groupby)) "is_pipeline_breaker" breaker.

Definition AggregateOperatorProxy_FromJson (fuel : nat) (json : J) : result (ProxyOperator A) :=
  aggregates ← mapR (λ json,
    e ← DeserializeExpression fuel json;
    _ ← assert_ (bool_decide (GetExpressionType e = tAggregate)) AssertionFailed;
    Ok e) (GetArray json "aggregates");
  Ok (AggregateOperatorProxy (column_ids_FromJson (GetArray json "group_by_column_ids")) aggregates
        (get_object_bool json "is_pipeline_breaker")).

(** **** Alias *)
Definition AliasOperatorProxy_ToJson (json : J) (column_ids : list ColumnId) (aliases : list string) : J :=
  WithArray (WithArray json "column_ids" (column_ids_ToJson column_ids)) "aliases" (VectorToJsonArray_string aliases).

Definition AliasOperatorProxy_FromJson (json : J) : result (ProxyOperator A) :=
  make_proxy_operator (AliasOperatorProxy (column_ids_FromJson (GetArray json "column_ids"))
    (JsonArrayToVector_string (GetArray json "aliases"))).

(** **** Export *)
Definition ExportOperatorProxy_ToJson (json : J) (target : ObjectReference) (format : FileFormat) (consolidate : bool) : J :=
  WithBool (WithString (WithString (WithString json "bucket_name" (bucket_name target))
    "target_object_key" (identifier target)) "export_format" (enum_name format))
    "consolidate_row_groups" consolidate.

Definition ExportOperatorProxy_FromJson (json : J) : result (ProxyOperator A) :=
  format ← of_option (enum_cast (GetString json "export_format")) UndefinedBehaviour;
  target ← make_ObjectReference (GetString json "bucket_name") (GetString json "target_object_key") EmptyString None;
  make_proxy_operator (ExportOperatorProxy target format (GetBool json "consolidate_row_groups")).

(** **** Filter *)
Definition FilterOperatorProxy_ToJson (json : J) (predicate : expr) : J :=
  WithObject json "predicate" (SerializeExpression predicate).

Definition FilterOperatorProxy_FromJson (fuel : nat) (json : J) : result (ProxyOperator A) :=
  predicate ← DeserializeExpression fuel (GetObject json "predicate"); Ok (FilterOperatorProxy predicate).

(** **** Import *)
Definition ImportOperatorProxy_ToJson (json : J) (column_ids : list ColumnId) (references : list ObjectReference)
    (options : option (ImportOptions A)) : J :=
  let json := WithArray (WithArray json "column_ids" (column_ids_ToJson column_ids))
    "import_references" (import_reference_ToJson <$> references) in
  with_option json "import_options" (λ o, AObject (ImportOptions_ToJson o)) options.

(** [std::numeric_limits<size_t>::max()]: the output objects of an import are not limited. *)
Definition unlimited_objects : Z := 2 ^ 64 - 1.

Definition ImportOperatorProxy_FromJson (fuel : nat) (json : J) : result (ProxyOperator A) :=
  references ← mapR import_reference_FromJson (GetArray json "import_references");
  op ← make_proxy_operator (ImportOperatorProxy (column_ids_FromJson (GetArray json "column_ids")) references
         None unlimited_objects);
  if ValueExists json "import_options" then
    options ← ImportOptions_FromJson fuel (GetObject json "import_options");
    Ok (ImportOperatorProxy (column_ids_FromJson (GetArray json "column_ids")) references
          (Some options) unlimited_objects)
  else Ok op.

(** **** Join *)
Definition JoinOperatorProxy_ToJson (json : J) (mode : JoinMode) (primary : option JoinOperatorPredicate)
    (secondary : list JoinOperatorPredicate) : J :=
  let json := WithString json "join_mode" (enum_name mode) in
  let json := with_option json "primary_predicate" (λ p, AObject (SerializePredicate p)) primary in
  if decide (secondary = []) then json
  else WithArray json "secondary_predicates" (SerializePredicate <$> secondary).

Definition JoinOperatorProxy_FromJson (type : OperatorType) (json : J) : result (ProxyOperator A) :=
  _ ← assert_ (ValueExists json "join_mode") AssertionFailed;
  mode ← enum_value (GetString json "join_mode");
  primary ← (if ValueExists json "primary_predicate"
             then p ← DeserializePredicate (GetObject json "primary_predicate"); Ok (Some p) else Ok None);
  secondary ← (if ValueExists json "secondary_predicates"
               then mapR DeserializePredicate (GetArray json "secondary_predicates") else Ok []);
  Ok (JoinOperatorProxy (bool_decide (type = oSortMergeJoin)) mode primary secondary).

(** **** Limit *)
Definition LimitOperatorProxy_ToJson (json : J) (row_count : expr) : J :=
  WithObject json "row_count" (SerializeExpression row_count).

Definition LimitOperatorProxy_FromJson (fuel : nat) (json : J) : result (ProxyOperator A) :=
  row_count ← DeserializeExpression fuel (GetObject json "row_count"); Ok (LimitOperatorProxy row_count).

(** **** Partition *)
Definition PartitionOperatorProxy_ToJson (json : J) (f : PartitioningFunction) (sort_within_partition : bool) : J :=
  WithBool (WithObject json "partitioning_function" (PartitioningFunction_ToJson f))
    "sort_within_partition" sort_within_partition.

Definition PartitionOperatorProxy_FromJson (json : J) : result (ProxyOperator A) :=
  f ← PartitioningFunction_FromJson (GetObject json "partitioning_function");
  Ok (PartitionOperatorProxy f (GetBool json "sort_within_partition")).

(** **** Projection *)
Definition ProjectionOperatorProxy_ToJson (json : J) (expressions : list expr) : J :=
  WithArray json "expressions" (SerializeExpression <$> expressions).

Definition ProjectionOperatorProxy_FromJson (fuel : nat) (json : J) : result (ProxyOperator A) :=
  expressions ← mapR (DeserializeExpression fuel) (GetArray json "expressions");
  Ok (ProjectionOperatorProxy expressions).

(** **** Sort *)
Definition SortOperatorProxy_ToJson (json : J) (sort_definitions : list SortColumnDefinition) : J :=
  WithArray json "sort_definitions" (sort_definition_ToJson <$> sort_definitions).

Definition SortOperatorProxy_FromJson (json : J) : result (ProxyOperator A) :=
  sort_definitions ← mapR sort_definition_FromJson (GetArray json "sort_definitions");
  make_proxy_operator (SortOperatorProxy sort_definitions).

(** **** Union *)
Definition UnionOperatorProxy_ToJson (json : J) (mode : SetOperationMode) : J :=
  WithString json "set_operation_mode" (enum_name mode).

Definition UnionOperatorProxy_FromJson (json : J) : result (ProxyOperator A) :=
  mode ← enum_value (GetString json "set_operation_mode"); Ok (UnionOperatorProxy mode).

(** **** The virtual calls *)
Definition operator_ToJson (json : J) (op : ProxyOperator A) : result J :=
  match op with
  | AggregateOperatorProxy groupby aggregates breaker => Ok (AggregateOperatorProxy_ToJson json groupby aggregates breaker)
  | AliasOperatorProxy column_ids aliases => Ok (AliasOperatorProxy_ToJson json column_ids aliases)
  | ExchangeOperatorProxy _ _ => Err AssertionFailed
  | ExportOperatorProxy target format consolidate => Ok (ExportOperatorProxy_ToJson json target format consolidate)
  | FilterOperatorProxy predicate => Ok (FilterOperatorProxy_ToJson json predicate)
  | ImportOperatorProxy column_ids references options _ => Ok (ImportOperatorProxy_ToJson json column_ids references options)
  | JoinOperatorProxy _ mode primary secondary => Ok (JoinOperatorProxy_ToJson json mode primary secondary)
  | LimitOperatorProxy row_count => Ok (LimitOperatorProxy_ToJson json row_count)
  | PartitionOperatorProxy f sort_within_partition => Ok (PartitionOperatorProxy_ToJson json f sort_within_partition)
  | ProjectionOperatorProxy expressions => Ok (ProjectionOperatorProxy_ToJson json expressions)
  | SortOperatorProxy sort_definitions => Ok (SortOperatorProxy_ToJson json sort_definitions)
  | UnionOperatorProxy mode => Ok (UnionOperatorProxy_ToJson json mode)
  end.

(** The cases of [DeserializeOperatorProxy]. *)
Definition operator_FromJson (fuel : nat) (type : OperatorType) (json : J) : result (ProxyOperator A) :=
  match type with
  | oAggregate => AggregateOperatorProxy_FromJson fuel json
  | oAlias => AliasOperatorProxy_FromJson json
  | oExport => ExportOperatorProxy_FromJson json
  | oFilter => FilterOperatorProxy_FromJson fuel json
  | oImport => ImportOperatorProxy_FromJson fuel json
  | oHashJoin | oSortMergeJoin => JoinOperatorProxy_FromJson type json
  | oLimit => LimitOperatorProxy_FromJson fuel json
  | oPartition => PartitionOperatorProxy_FromJson json
  | oProjection => ProjectionOperatorProxy_FromJson fuel json
  | oSort => SortOperatorProxy_FromJson json
  | oUnion => UnionOperatorProxy_FromJson json
  | oExchange => Err AssertionFailed
  end.

(** *** The base class *)
Section Identities.
Variable address_text : N → string.

(** [AbstractOperatorProxy::ToJson] of the proxy at [p], then the subclass. *)
Definition base_ToJson (plan : Plan A) (p : N) (x : Proxy A N) : result J :=
  let json := WithString (WithString JsonValue "operator_type" (enum_name (Type_ (proxy_operator x))))
    "operator_identity" (Identity address_text p x) in
  json ← (match LeftInput x with
          | Some l => y ← deref plan l; Ok (WithString json "left_input_operator_identity" (Identity address_text l y))
          | None => Ok json
          end);
  json ← (match RightInput x with
          | Some r => y ← deref plan r; Ok (WithString json "right_input_operator_identity" (Identity address_text r y))
          | None => Ok json
          end);
  Ok (if decide (comment_ x = EmptyString) then json else WithString json "comment" (comment_ x)).

Definition Proxy_ToJson (plan : Plan A) (p : N) (x : Proxy A N) : result J :=
  json ← base_ToJson plan p x; operator_ToJson json (proxy_operator x).
End Identities.

(** [SetAttributesFromJson] on a new proxy. *)
Definition get_string_if (json : J) (k : string) : string := if KeyExists json k then GetString json k else EmptyString.

Definition SetAttributesFromJson {P} (op : ProxyOperator A) (json : J) : result (Proxy A P) :=
  _ ← assert_ (KeyExists json "operator_identity") AssertionFailed;
  Ok (mkProxy op (GetString json "operator_identity") (get_string_if json "comment") None None
        (get_string_if json "left_input_operator_identity") (get_string_if json "right_input_operator_identity")).

(** [DeserializeOperatorProxy] of [pqp_serialization.cpp]. *)
Definition DeserializeOperatorProxy {P} (fuel : nat) (operator_parameters : J) : result (Proxy A P) :=
  operator_type ← of_option (enum_cast (GetString operator_parameters "operator_type")) AssertionFailed;
  op ← operator_FromJson fuel operator_type operator_parameters;
  SetAttributesFromJson op operator_parameters.
End Documents.

(** The documents of the subclasses, unfolded. *)
Ltac unfold_documents :=
  unfold AggregateOperatorProxy_ToJson, AggregateOperatorProxy_FromJson,
    AliasOperatorProxy_ToJson, AliasOperatorProxy_FromJson,
    ExportOperatorProxy_ToJson, ExportOperatorProxy_FromJson,
    FilterOperatorProxy_ToJson, FilterOperatorProxy_FromJson,
    ImportOperatorProxy_ToJson, ImportOperatorProxy_FromJson,
    JoinOperatorProxy_ToJson, JoinOperatorProxy_FromJson,
    LimitOperatorProxy_ToJson, LimitOperatorProxy_FromJson,
    PartitionOperatorProxy_ToJson, PartitionOperatorProxy_FromJson,
    ProjectionOperatorProxy_ToJson, ProjectionOperatorProxy_FromJson,
    SortOperatorProxy_ToJson, SortOperatorProxy_FromJson,
    UnionOperatorProxy_ToJson, UnionOperatorProxy_FromJson in *.
