(* ===== verification/OperatorRoundtrip.v ===== *)
(** * Round trip of operator proxies

    What arrives when the document of an operator proxy is read: [transmitted] says what is
    copied, what is dropped on the way, and [transmissible] what the document needs.  The
    booleans that the code reads with [GetBool] arrive as [get_bool] has it. *)

From Stdlib Require Import Ascii.
From S2P Require Export OperatorProxy ExpressionRoundtrip.

Local Open Scope string_scope.

Class OperatorNamesLaws `{OperatorNames} := {
  #[global] laws_FileFormat :: MagicEnumLaws FileFormat;
  #[global] laws_JoinMode :: MagicEnumLaws JoinMode;
  #[global] laws_OperatorType :: MagicEnumLaws OperatorType;
  #[global] laws_PartitioningFunctionType :: MagicEnumLaws PartitioningFunctionType;
  #[global] laws_SetOperationMode :: MagicEnumLaws SetOperationMode;
  #[global] laws_SortMode :: MagicEnumLaws SortMode }.

(** ** What arrives *)
Section Transmission.
Context {A : Type} `{ArrowCompute A} `{BoolReading}.

(** The columns of an expected schema; whether they are nullable is read with [GetBool]. *)
Definition transmitted_column (d : TableColumnDefinition) : TableColumnDefinition :=
  mkTableColumnDefinition (tcd_name d) (tcd_data_type d) (get_bool (tcd_nullable d)).
Definition transmitted_columns (l : list TableColumnDefinition) : list TableColumnDefinition := transmitted_column <$> l.
Definition transmitted_schema (o : option (list TableColumnDefinition)) : option (list TableColumnDefinition) :=
  transmitted_columns <$> o.

(** ORC options with a schema lose the column ids; a Parquet expression arrives translated. *)
Definition transmitted_options (o : ImportOptions A) : result (ImportOptions A) :=
  match o with
  | CsvOptions o => Ok (CsvOptions (mkCsvFormatReaderOptions (read_buffer_size o) (delimiter o) (guess_delimiter o)
      (guess_has_header o) (guess_has_types o) (has_header o) (has_types o) (transmitted_schema (csv_expected_schema o))))
  | OrcOptions o => Ok (OrcOptions (mkOrcFormatReaderOptions (orc_parse_dates_as_string o)
      (match orc_expected_schema o with Some _ => None | None => orc_include_columns o end)
      (transmitted_schema (orc_expected_schema o))))
  | ParquetOptions o =>
      arrow ← (match skyrise_expression o with
               | Some e => a ← CreateArrowExpression (DeepCopy e); Ok (Some a) | None => Ok None end);
      Ok (ParquetOptions (mkParquetFormatReaderOptions (parquet_parse_dates_as_string o)
            (transmitted_schema (parquet_expected_schema o)) (parquet_include_columns o) (row_group_ids o) arrow None))
  end.

Definition without_partitions (o : ObjectReference) : ObjectReference :=
  mkObjectReference (bucket_name o) (identifier o) (etag o) None.

Definition transmitted (op : ProxyOperator A) : result (ProxyOperator A) :=
  match op with
  | AggregateOperatorProxy groupby aggregates breaker =>
      Ok (AggregateOperatorProxy groupby (DeepCopy <$> aggregates) breaker)
  | ExportOperatorProxy target format consolidate =>
      Ok (ExportOperatorProxy (without_partitions target) format (get_bool consolidate))
  | FilterOperatorProxy predicate => Ok (FilterOperatorProxy (DeepCopy predicate))
  | ImportOperatorProxy column_ids references options _ =>
      options' ← (match options with Some o => o' ← transmitted_options o; Ok (Some o') | None => Ok None end);
      Ok (ImportOperatorProxy column_ids (without_partitions <$> references) options' unlimited_objects)
  | LimitOperatorProxy row_count => Ok (LimitOperatorProxy (DeepCopy row_count))
  | PartitionOperatorProxy f sort_within_partition => Ok (PartitionOperatorProxy f (get_bool sort_within_partition))
  | ProjectionOperatorProxy expressions => Ok (ProjectionOperatorProxy (DeepCopy <$> expressions))
  | _ => Ok op
  end.

(** ** What the document needs *)
Definition on_option {T} (P : T → Prop) (o : option T) : Prop := match o with Some x => P x | None => True end.

Definition valid_column_ids (l : list ColumnId) : Prop := Forall (λ id, (id < 2 ^ 32)%N) l.
Definition valid_schema (o : option (list TableColumnDefinition)) : Prop := o ≠ Some [].
Definition valid_expression (fuel : nat) (e : expr) : Prop := serializable e = true ∧ (depth e <= fuel)%nat.
Definition valid_predicate (p : JoinOperatorPredicate) : Prop :=
  (Z.of_nat (column_id_left p) < 2 ^ 32)%Z ∧ (Z.of_nat (column_id_right p) < 2 ^ 32)%Z.

Definition valid_options (fuel : nat) (o : ImportOptions A) : Prop :=
  match o with
  | CsvOptions o => (0 <= read_buffer_size o < 2 ^ 64)%Z ∧ valid_schema (csv_expected_schema o)
  | OrcOptions o => valid_schema (orc_expected_schema o) ∧ on_option valid_column_ids (orc_include_columns o)
  | ParquetOptions o =>
      valid_schema (parquet_expected_schema o) ∧ on_option valid_column_ids (parquet_include_columns o) ∧
      on_option (Forall (λ z, in_int32 z = true)) (row_group_ids o) ∧
      on_option (valid_expression fuel) (skyrise_expression o)
  end.

Definition transmissible (fuel : nat) (op : ProxyOperator A) : Prop :=
  make_proxy_operator op = Ok op ∧
  match op with
  | AggregateOperatorProxy groupby aggregates _ =>
      valid_column_ids groupby ∧ Forall (λ e, valid_expression fuel e ∧ GetExpressionType e = tAggregate) aggregates
  | AliasOperatorProxy column_ids _ => valid_column_ids column_ids
  | ExchangeOperatorProxy _ _ => False
  | ExportOperatorProxy target _ _ => valid_reference target
  | FilterOperatorProxy e | LimitOperatorProxy e => valid_expression fuel e
  | ImportOperatorProxy column_ids references options _ =>
      valid_column_ids column_ids ∧ Forall valid_reference references ∧ on_option (valid_options fuel) (options)
  | JoinOperatorProxy _ _ primary secondary => on_option valid_predicate (primary) ∧ Forall valid_predicate secondary
  | PartitionOperatorProxy f _ =>
      valid_column_ids (partition_column_ids f) ∧ Sorted.StronglySorted N.lt (partition_column_ids f) ∧
      (0 <= partition_count f < 2 ^ 31)%Z
  | ProjectionOperatorProxy expressions => Forall (valid_expression fuel) expressions
  | SortOperatorProxy sort_definitions => Forall (λ d, (scd_column_id d < 2 ^ 32)%N) sort_definitions
  | UnionOperatorProxy _ => True
  end.
End Transmission.

(** ** Members of documents *)
Section Members.
Context {J : Type} `{JsonLaws J}.

Lemma field_with_option {T} (j : J) k (f : T → content J) o k' :
  field (with_option j k f o) k' =
    if decide (k' = k) then match o with Some x => Some (f x) | None => field j k' end else field j k'.
Proof. destruct o; cbn; [apply field_With|by destruct (decide _)]. Qed.

Lemma get_option_spec {T U} (j j' : J) k (f : T → content J) o (g : J → result U) (h : T → U) :
  field j k = f <$> o → (∀ x, o = Some x → g j = Ok (h x)) → get_option j k g = Ok (h <$> o).
Proof.
  intros Hk Hg. unfold get_option. destruct o as [x|]; cbn in Hk.
  - rewrite (KeyExists_some _ _ _ Hk), (Hg x eq_refl). done.
  - by rewrite (KeyExists_none _ _ Hk).
Qed.

Lemma get_object_bool_field (j : J) k b : field j k = Some (ABool b) → get_object_bool j k = b.
Proof. apply GetObject_bool. Qed.
End Members.

(** Members of a document built by [With..] and [with_option]. *)
Ltac member :=
  unfold WithString, WithInteger, WithInt64, WithDouble, WithBool, WithArray, WithObject;
  repeat (rewrite ?field_with_option, ?field_With;
          first [rewrite decide_True by reflexivity | rewrite decide_False by discriminate]);
  first [reflexivity | apply field_JsonValue | eassumption | idtac].

(** ** Integers *)
Lemma to_column_id_of_N id : (id < 2 ^ 32)%N → to_column_id (Z.of_N id) = id.
Proof. intros Hid. unfold to_column_id, wrap_uint32. rewrite Z.mod_small by lia. by rewrite N2Z.id. Qed.

Lemma wrap_uint32_int32 z : (0 <= z < 2 ^ 32)%Z → wrap_uint32 (wrap_int32 z) = z.
Proof.
  intros Hz. unfold wrap_uint32, wrap_int32.
  destruct (decide (z < 2 ^ 31)%Z).
  - rewrite (Z.mod_small (z + 2 ^ 31)) by lia. rewrite Z.mod_small; lia.
  - replace ((z + 2 ^ 31) mod 2 ^ 32)%Z with (z - 2 ^ 31)%Z by
      (rewrite <- (Z.mod_small (z - 2 ^ 31) (2 ^ 32)), <- (Z.mod_add (z - 2 ^ 31) 1 (2 ^ 32)) by lia; f_equal; lia).
    replace (z - 2 ^ 31 - 2 ^ 31)%Z with (z + (-1) * 2 ^ 32)%Z by lia. rewrite Z.mod_add by lia. apply Z.mod_small. lia.
Qed.

Lemma column_id_int32 id : (id < 2 ^ 32)%N → to_column_id (wrap_int32 (Z.of_N id)) = id.
Proof. intros Hid. unfold to_column_id. rewrite wrap_uint32_int32 by lia. apply N2Z.id. Qed.

Section Arrays.
Context {J : Type} `{JsonLaws J}.

Lemma column_ids_roundtrip l : valid_column_ids l → column_ids_FromJson (column_ids_ToJson l : list J) = l.
Proof.
  intros Hl. unfold column_ids_FromJson, column_ids_ToJson. rewrite integers_roundtrip.
  - rewrite <- list_fmap_compose. rewrite <- (list_fmap_id l) at 2. apply list_fmap_ext.
    intros _ id _. apply N2Z.id.
  - apply Forall_fmap. eapply Forall_impl; [exact Hl|]. intros id Hid. unfold ColumnId in *. cbn.
    unfold wrap_uint32. apply Z.mod_small. lia.
Qed.

Lemma row_groups_roundtrip l :
  Forall (λ z, in_int32 z = true) l →
  JsonArrayToVector_integral wrap_int32 (VectorToJsonArray_integral l : list J) = l.
Proof. intros Hl. apply integers_roundtrip. eapply Forall_impl; [exact Hl|]. intros z. apply wrap_int32_id. Qed.

Lemma mapR_roundtrip {T} (ToJson : T → J) (FromJson : J → result T) (h : T → T) l :
  Forall (λ x, FromJson (ToJson x) = Ok (h x)) l → mapR FromJson (ToJson <$> l) = Ok (h <$> l).
Proof. apply mapR_fmap. Qed.
End Arrays.

(** ** Members of operators *)
Section Components.
Context {J : Type} `{JsonLaws J} `{ExpressionNamesLaws} `{OperatorNamesLaws} {A : Type} `{ArrowCompute A}.

Lemma make_ObjectReference_valid o e p :
  valid_reference o → make_ObjectReference (bucket_name o) (identifier o) e p = Ok (mkObjectReference (bucket_name o) (identifier o) e p).
Proof. intros [Hb Hi]. unfold make_ObjectReference. by rewrite !bool_decide_true. Qed.

Lemma ObjectReference_roundtrip o :
  valid_reference o → on_option (Forall (λ z, in_int32 z = true)) (partitions o) →
  ObjectReference_FromJson (ObjectReference_ToJson o : J) = Ok o.
Proof.
  intros Ho Hp. unfold ObjectReference_FromJson.
  rewrite (GetString_field _ _ (bucket_name o)), (GetString_field _ _ (identifier o)), (GetString_field _ _ (etag o))
    by (unfold ObjectReference_ToJson; destruct (partitions o); member).
  rewrite make_ObjectReference_valid by done. destruct o as [b i e [p|]]; cbn in *.
  - rewrite (KeyExists_some _ _ (AArray (VectorToJsonArray_integral p))) by member.
    rewrite (GetArray_field _ _ (VectorToJsonArray_integral p)) by member. by rewrite row_groups_roundtrip.
  - by rewrite (KeyExists_none _ "partitions") by member.
Qed.

Lemma import_reference_roundtrip o :
  valid_reference o → import_reference_FromJson (import_reference_ToJson o : J) = Ok (without_partitions o).
Proof.
  intros Ho. unfold import_reference_FromJson, import_reference_ToJson.
  rewrite (GetString_field _ _ (bucket_name o)), (GetString_field _ _ (identifier o)), (GetString_field _ _ (etag o)) by member.
  by rewrite make_ObjectReference_valid.
Qed.

Lemma schema_roundtrip d :
  d ≠ [] → TableColumnDefinitionsFromJsonArray (TableColumnDefinitionsToJsonArray d : list J) = Ok (transmitted_columns d).
Proof.
  intros Hd. unfold TableColumnDefinitionsFromJsonArray, TableColumnDefinitionsToJsonArray.
  rewrite bool_decide_true by (by destruct d). cbn [assert_ rbind].
  apply mapR_fmap. apply Forall_forall. intros [n t b] _.
  unfold column_definition_FromJson. cbn [tcd_name tcd_data_type tcd_nullable].
  rewrite (ValueExists_some _ _ (AString n)), (ValueExists_some _ _ (AString (enum_name t))),
    (ValueExists_some _ _ (ABool b)) by member. cbn [assert_ rbind].
  rewrite (GetString_name _ _ t), (GetString_field _ _ n), (GetBool_field _ _ b) by member. done.
Qed.

Lemma expected_schema_roundtrip (j : J) d :
  d ≠ [] → field j "expected_schema" = Some (expected_schema_ToJson d) →
  expected_schema_FromJson j = Ok (transmitted_columns d).
Proof.
  intros Hd Hj. unfold expected_schema_FromJson. rewrite (GetArray_field _ _ _ Hj). by apply schema_roundtrip.
Qed.

Lemma expected_schema_option (j : J) o :
  valid_schema o → field j "expected_schema" = expected_schema_ToJson <$> o →
  get_option j "expected_schema" expected_schema_FromJson = Ok (transmitted_schema o).
Proof.
  intros Ho Hj. rewrite (get_option_spec j j _ expected_schema_ToJson o _ transmitted_columns Hj); [done|].
  intros d ->. apply expected_schema_roundtrip; [intros ->; by apply Ho|exact Hj].
Qed.

Lemma CsvOptions_roundtrip o :
  (0 <= read_buffer_size o < 2 ^ 64)%Z → valid_schema (csv_expected_schema o) →
  CsvOptions_FromJson (CsvOptions_ToJson o : J) =
    Ok (mkCsvFormatReaderOptions (read_buffer_size o) (delimiter o) (guess_delimiter o)
      (guess_has_header o) (guess_has_types o) (has_header o) (has_types o) (transmitted_schema (csv_expected_schema o))).
Proof.
  intros Hsize Ho. unfold CsvOptions_FromJson. unfold CsvOptions_ToJson.
  rewrite (expected_schema_option _ (csv_expected_schema o)); [|done|destruct (csv_expected_schema o); member].
  cbn [rbind]. rewrite (GetInt64_field _ _ (wrap_int64 (read_buffer_size o))) by member.
  rewrite (GetString_field _ _ (String (delimiter o) EmptyString)) by member.
  rewrite (get_object_bool_field _ _ (guess_delimiter o)), (get_object_bool_field _ _ (guess_has_header o)),
    (get_object_bool_field _ _ (guess_has_types o)), (get_object_bool_field _ _ (has_header o)),
    (get_object_bool_field _ _ (has_types o)) by member.
  replace (wrap_uint64 (wrap_int64 (read_buffer_size o))) with (read_buffer_size o); [by destruct o|].
  unfold wrap_uint64, wrap_int64. rewrite Zminus_mod_idemp_l.
  replace (read_buffer_size o + 2 ^ 63 - 2 ^ 63)%Z with (read_buffer_size o) by lia. by rewrite Z.mod_small.
Qed.

Lemma OrcOptions_roundtrip o :
  valid_schema (orc_expected_schema o) → on_option valid_column_ids (orc_include_columns o) →
  OrcOptions_FromJson (OrcOptions_ToJson o : J) =
    Ok (mkOrcFormatReaderOptions (orc_parse_dates_as_string o)
      (match orc_expected_schema o with Some _ => None | None => orc_include_columns o end)
      (transmitted_schema (orc_expected_schema o))).
Proof.
  intros Ho Hc. unfold OrcOptions_FromJson. destruct o as [dates columns [d|]]; cbn in *; unfold OrcOptions_ToJson; cbn.
  - rewrite (get_object_bool_field _ _ dates) by member.
    rewrite (KeyExists_some _ _ (expected_schema_ToJson d)) by member.
    rewrite (expected_schema_roundtrip _ d); [done|intros ->; by apply Ho|member].
  - rewrite (get_object_bool_field _ _ dates) by member.
    rewrite (KeyExists_none _ "expected_schema") by member. destruct columns as [columns|]; cbn in Hc.
    + rewrite (KeyExists_some _ _ (AArray (column_ids_ToJson columns))) by member.
      rewrite (GetArray_field _ _ (column_ids_ToJson columns)) by member. by rewrite column_ids_roundtrip.
    + by rewrite (KeyExists_none _ "include_columns") by member.
Qed.

Lemma get_option_error {T U} (j : J) k (f : T → content J) o (g : J → result U) e :
  field j k = f <$> o → is_Some o → g j = Err e → get_option j k g = Err e.
Proof. intros Hk [x ->] Hg. unfold get_option. by rewrite (KeyExists_some _ _ _ Hk), Hg. Qed.

Lemma ParquetOptions_roundtrip fuel (o : ParquetFormatReaderOptions A) :
  valid_options fuel (ParquetOptions o) →
  ParquetOptions_FromJson fuel (ParquetOptions_ToJson o : J) =
    (arrow ← (match skyrise_expression o with
              | Some e => a ← CreateArrowExpression (DeepCopy e); Ok (Some a) | None => Ok None end);
     Ok (mkParquetFormatReaderOptions (parquet_parse_dates_as_string o) (transmitted_schema (parquet_expected_schema o))
           (parquet_include_columns o) (row_group_ids o) arrow None)).
Proof.
  intros (Ho & Hc & Hr & He). unfold ParquetOptions_FromJson, ParquetOptions_ToJson. cbv zeta.
  match goal with |- context [get_option ?j _ _] => set (json := j) end.
  rewrite (expected_schema_option json (parquet_expected_schema o)); [|done|];
    [|unfold json; destruct (parquet_expected_schema o); member].
  rewrite (get_option_spec json json _ (λ c, AArray (column_ids_ToJson c)) (parquet_include_columns o) _ id).
  2: { unfold json; destruct (parquet_include_columns o); member. }
  2: { intros c Hs. rewrite Hs in Hc. rewrite (GetArray_field _ _ (column_ids_ToJson c)).
       - cbn in Hc. by rewrite column_ids_roundtrip.
       - unfold json. member. by rewrite Hs. }
  rewrite option_fmap_id. cbn [rbind].
  assert (get_option json "row_group_ids" (λ json,
    Ok (JsonArrayToVector_integral wrap_int32 (GetArray json "row_group_ids"))) = Ok (row_group_ids o)) as Hrow.
  { rewrite (get_option_spec json json _ (λ c, AArray (VectorToJsonArray_integral c)) (row_group_ids o) _ id);
      [by rewrite option_fmap_id| |].
    - unfold json; destruct (row_group_ids o); member.
    - intros c Hs. rewrite Hs in Hr. rewrite (GetArray_field _ _ (VectorToJsonArray_integral c)).
      + by rewrite row_groups_roundtrip.
      + unfold json. member. by rewrite Hs. }
  assert (get_object_bool json "parse_dates_as_string" = parquet_parse_dates_as_string o) as Hdates.
  { apply get_object_bool_field. unfold json. member. }
  assert (field json "skyrise_expression" = (λ e, AObject (SerializeExpression e)) <$> skyrise_expression o) as Hsky.
  { unfold json; destruct (skyrise_expression o); member. }
  rewrite Hdates. clearbody json. unfold get_option at 1. destruct (skyrise_expression o) as [e|]; cbn in Hsky, He.
  - rewrite (KeyExists_some _ _ _ Hsky), (GetObject_field _ _ _ Hsky).
    rewrite DeserializeExpression_roundtrip by apply He. cbn [rbind].
    destruct (CreateArrowExpression (DeepCopy e)) as [a|err]; cbn [rbind]; [by rewrite Hrow|done].
  - rewrite (KeyExists_none _ _ Hsky). cbn [rbind]. by rewrite Hrow.
Qed.

Lemma ImportOptions_roundtrip fuel (o : ImportOptions A) :
  valid_options fuel o → ImportOptions_FromJson fuel (ImportOptions_ToJson o : J) = transmitted_options o.
Proof.
  intros Ho. unfold ImportOptions_FromJson. destruct o as [o|o|o]; cbn [ImportOptions_ToJson transmitted_options].
  - rewrite (ValueExists_some _ _ (AObject (CsvOptions_ToJson o))) by member.
    rewrite (GetObject_field _ _ (CsvOptions_ToJson o)) by member. destruct Ho. by rewrite CsvOptions_roundtrip.
  - rewrite (ValueExists_none _ "csv_format_reader_options") by member.
    rewrite (ValueExists_some _ _ (AObject (OrcOptions_ToJson o))) by member.
    rewrite (GetObject_field _ _ (OrcOptions_ToJson o)) by member. destruct Ho. by rewrite OrcOptions_roundtrip.
  - rewrite (ValueExists_none _ "csv_format_reader_options"), (ValueExists_none _ "orc_format_reader_options") by member.
    rewrite (ValueExists_some _ _ (AObject (ParquetOptions_ToJson o))) by member.
    rewrite (GetObject_field _ _ (ParquetOptions_ToJson o)) by member. rewrite ParquetOptions_roundtrip by done.
    by destruct (skyrise_expression o) as [e|]; [destruct (CreateArrowExpression (DeepCopy e))|].
Qed.

(** A set is rebuilt from its elements in ascending order. *)
Lemma set_insert_last id l : Forall (λ x, (x < id)%N) l → set_insert id l = (l ++ [id])%list.
Proof.
  induction 1 as [|x l Hx _ IH]; [done|]. cbn.
  rewrite (proj2 (N.ltb_ge id x)) by lia. rewrite (proj2 (N.eqb_neq id x)) by lia. by rewrite IH.
Qed.

Lemma set_of_sorted l acc :
  Sorted.StronglySorted N.lt l → Forall (λ x, Forall (λ y, (x < y)%N) l) acc →
  foldl (λ s id, set_insert id s) acc l = (acc ++ l)%list.
Proof.
  intros Hl. revert acc. induction Hl as [|id l _ IH Hid]; intros acc Hacc; cbn [foldl]; [by rewrite app_nil_r|].
  rewrite set_insert_last by (eapply Forall_impl; [exact Hacc|]; intros x Hx; by apply Forall_cons in Hx as [? _]).
  rewrite IH; [by rewrite <- app_assoc|]. apply Forall_app. split.
  - eapply Forall_impl; [exact Hacc|]. intros x Hx. by apply Forall_cons in Hx as [_ ?].
  - apply Forall_cons_2; [done|apply Forall_nil_2].
Qed.

Lemma PartitioningFunction_roundtrip f :
  valid_column_ids (partition_column_ids f) → Sorted.StronglySorted N.lt (partition_column_ids f) →
  (0 <= partition_count f < 2 ^ 31)%Z →
  PartitioningFunction_FromJson (PartitioningFunction_ToJson f : J) = Ok f.
Proof.
  intros Hids Hsorted Hcount. unfold PartitioningFunction_FromJson, PartitioningFunction_ToJson.
  rewrite (GetString_name _ _ kHash) by member. cbn [rbind].
  rewrite (GetInteger_field _ _ (wrap_int32 (partition_count f))) by member.
  rewrite (GetArray_field _ _ ((λ id, As (AInteger (wrap_int32 (Z.of_N id)))) <$> partition_column_ids f)) by member.
  rewrite <- list_fmap_compose.
  rewrite (Forall_fmap_ext_1 _ id).
  - rewrite list_fmap_id. rewrite set_of_sorted by (done || apply Forall_nil_2). cbn [app].
    rewrite wrap_int32_id by (unfold in_int32, int32_min, int32_max; lia).
    unfold wrap_uint64. rewrite Z.mod_small by lia. by destruct f.
  - eapply Forall_impl; [exact Hids|]. intros id Hid. cbn.
    rewrite (AsInteger_scalar _ (wrap_int32 (Z.of_N id))) by apply scalar_As. by apply column_id_int32.
Qed.

Lemma predicate_roundtrip p : valid_predicate p → DeserializePredicate (SerializePredicate p : J) = Ok p.
Proof.
  intros [Hl Hr]. unfold DeserializePredicate, SerializePredicate. destruct p as [l r c]. cbn in *.
  rewrite (ValueExists_some _ _ (AInteger (wrap_int32 (Z.of_nat l)))),
    (ValueExists_some _ _ (AInteger (wrap_int32 (Z.of_nat r)))),
    (ValueExists_some _ _ (AString (enum_name c))) by member. cbn [assert_ rbind].
  rewrite (GetString_name _ _ c) by member. cbn [rbind].
  rewrite (GetInteger_field _ _ (wrap_int32 (Z.of_nat l))), (GetInteger_field _ _ (wrap_int32 (Z.of_nat r))) by member.
  rewrite !wrap_uint32_int32 by lia. by rewrite !Nat2Z.id.
Qed.

Lemma sort_definition_roundtrip d :
  (scd_column_id d < 2 ^ 32)%N → sort_definition_FromJson (sort_definition_ToJson d : J) = Ok d.
Proof.
  intros Hd. unfold sort_definition_FromJson, sort_definition_ToJson. destruct d as [id m]. cbn in *.
  rewrite (GetString_name _ _ m) by member. cbn [rbind].
  rewrite (GetInteger_field _ _ (wrap_int32 (Z.of_N id))) by member. by rewrite column_id_int32.
Qed.

Lemma expressions_roundtrip fuel es :
  Forall (valid_expression fuel) es →
  mapR (DeserializeExpression fuel) (SerializeExpression <$> es : list J) = Ok (DeepCopy <$> es).
Proof.
  intros Hes. apply mapR_fmap. eapply Forall_impl; [exact Hes|]. intros e [Hs Hd].
  by apply DeserializeExpression_roundtrip.
Qed.

Lemma aggregates_roundtrip fuel es :
  Forall (λ e, valid_expression fuel e ∧ GetExpressionType e = tAggregate) es →
  mapR (λ json, e ← DeserializeExpression fuel json;
          _ ← assert_ (bool_decide (GetExpressionType e = tAggregate)) AssertionFailed; Ok e)
    (SerializeExpression <$> es : list J) = Ok (DeepCopy <$> es).
Proof.
  intros Hes. apply mapR_fmap. eapply Forall_impl; [exact Hes|]. intros e [[Hs Hd] Ht].
  rewrite DeserializeExpression_roundtrip by done. cbn [rbind].
  rewrite bool_decide_true; [done|]. by destruct e.
Qed.

(** The members that [operator_ToJson] writes sometimes. *)
Definition optional_keys : list string := ["import_options"; "primary_predicate"; "secondary_predicates"].

Lemma import_roundtrip fuel json doc column_ids references options n :
  transmissible fuel (ImportOperatorProxy column_ids references options n) → field json "import_options" = None →
  operator_ToJson json (ImportOperatorProxy column_ids references options n) = Ok (doc : J) →
  operator_FromJson fuel oImport doc = transmitted (ImportOperatorProxy column_ids references options n).
Proof.
  intros [Hm (Hids & Hrefs & Ho)] Hnone [= <-]. cbn [operator_FromJson transmitted]. unfold_documents.
  match goal with |- context [GetArray ?j _] => set (d := j) end.
  assert (field d "import_options" = (λ o, AObject (ImportOptions_ToJson o)) <$> options) as Hopt
    by (unfold d; destruct options; member).
  rewrite (GetArray_field d _ (import_reference_ToJson <$> references)) by (unfold d; member).
  rewrite (GetArray_field d _ (column_ids_ToJson column_ids)) by (unfold d; member). clearbody d.
  rewrite (mapR_fmap _ _ without_partitions)
    by (eapply Forall_impl; [exact Hrefs|]; intros o; apply import_reference_roundtrip).
  rewrite column_ids_roundtrip by done. cbn [rbind make_proxy_operator].
  cbn [make_proxy_operator] in Hm. destruct (assert_ _ _) as [|] eqn:Ha; [|done]. cbn [rbind].
  destruct options as [o|]; cbn in Hopt, Ho.
  - rewrite (ValueExists_some _ _ _ Hopt), (GetObject_field _ _ _ Hopt), ImportOptions_roundtrip by done.
    by destruct (transmitted_options o).
  - by rewrite (ValueExists_none _ _ Hopt).
Qed.

Lemma join_roundtrip fuel json doc sort_merge mode primary secondary :
  on_option valid_predicate primary → Forall valid_predicate secondary →
  field json "primary_predicate" = None → field json "secondary_predicates" = None →
  operator_ToJson json (JoinOperatorProxy sort_merge mode primary secondary : ProxyOperator A) = Ok (doc : J) →
  operator_FromJson fuel (if sort_merge then oSortMergeJoin else oHashJoin) doc =
    Ok (JoinOperatorProxy sort_merge mode primary secondary : ProxyOperator A).
Proof.
  intros Hp Hs Hn1 Hn2 [= Hdoc]. unfold_documents.
  assert (field doc "join_mode" = Some (AString (enum_name mode))) as Hmode
    by (subst doc; destruct primary, (decide (secondary = [])); member).
  assert (field doc "primary_predicate" = (λ p, AObject (SerializePredicate p)) <$> primary) as Hprimary
    by (subst doc; destruct primary, (decide (secondary = [])); member).
  assert (field doc "secondary_predicates" = if decide (secondary = []) then None
    else Some (AArray (SerializePredicate <$> secondary))) as Hsecondary
    by (subst doc; destruct primary, (decide (secondary = [])); member).
  clear Hdoc.
  assert ((if ValueExists doc "primary_predicate"
           then p ← DeserializePredicate (GetObject doc "primary_predicate"); Ok (Some p) else Ok None) = Ok primary) as H1'.
  { destruct primary as [p|]; cbn in Hprimary.
    - by rewrite (ValueExists_some _ _ _ Hprimary), (GetObject_field _ _ _ Hprimary), predicate_roundtrip.
    - by rewrite (ValueExists_none _ _ Hprimary). }
  assert ((if ValueExists doc "secondary_predicates"
           then mapR DeserializePredicate (GetArray doc "secondary_predicates") else Ok []) = Ok secondary) as H2'.
  { destruct (decide (secondary = [])) as [->|Hne].
    - by rewrite (ValueExists_none _ _ Hsecondary).
    - rewrite (ValueExists_some _ _ _ Hsecondary), (GetArray_field _ _ _ Hsecondary).
      rewrite (mapR_roundtrip _ _ id); [by rewrite list_fmap_id|].
      eapply Forall_impl; [exact Hs|]. intros p. apply predicate_roundtrip. }
  destruct sort_merge; cbn [operator_FromJson]; unfold_documents;
    rewrite (ValueExists_some _ _ _ Hmode), (GetString_name _ _ _ Hmode), H1', H2'; done.
Qed.

Lemma operator_roundtrip fuel json doc (op : ProxyOperator A) :
  transmissible fuel op → (∀ k, k ∈ optional_keys → field json k = None) →
  operator_ToJson json op = Ok (doc : J) →
  operator_FromJson fuel (Type_ op) doc = transmitted op.
Proof.
  intros Hop Hnone Hdoc.
  destruct op; try (injection Hdoc as Hdoc; subst doc);
    cbn [Type_ operator_FromJson transmitted]; pose proof Hop as [Hm Hv]; unfold_documents.
  - rewrite (GetArray_field _ "aggregates" (SerializeExpression <$> aggregates)) by member.
    rewrite (GetArray_field _ "group_by_column_ids" (column_ids_ToJson groupby_column_ids)) by member.
    rewrite (get_object_bool_field _ _ is_pipeline_breaker) by member. destruct Hv.
    by rewrite aggregates_roundtrip, column_ids_roundtrip.
  - rewrite (GetArray_field _ "column_ids" (column_ids_ToJson column_ids)) by member.
    rewrite (GetArray_field _ "aliases" (VectorToJsonArray_string aliases)) by member.
    by rewrite column_ids_roundtrip, strings_roundtrip.
  - done.
  - rewrite (GetString_field _ "export_format" (enum_name export_format)), enum_cast_name by member.
    cbn [of_option rbind].
    rewrite (GetString_field _ "bucket_name" (bucket_name target_object)),
      (GetString_field _ "target_object_key" (identifier target_object)),
      (GetBool_field _ _ consolidate_row_groups) by member.
    rewrite make_ObjectReference_valid by done. cbn [rbind]. apply bind_ok in Hm as ([] & Hm%assert_ok%bool_decide_eq_true & _).
    unfold without_partitions. by rewrite Hm.
  - rewrite (GetObject_field _ _ (SerializeExpression predicate)) by member. destruct Hv.
    by rewrite DeserializeExpression_roundtrip.
  - eapply import_roundtrip; [done| |reflexivity]. apply Hnone. by left.
  - destruct Hv. eapply join_roundtrip; [done|done| | |reflexivity]; apply Hnone; set_solver.
  - rewrite (GetObject_field _ _ (SerializeExpression row_count)) by member. destruct Hv.
    by rewrite DeserializeExpression_roundtrip.
  - rewrite (GetObject_field _ _ (PartitioningFunction_ToJson partitioning_function)) by member.
    rewrite (GetBool_field _ _ sort_within_partition) by member. destruct Hv as (? & ? & ?).
    by rewrite PartitioningFunction_roundtrip.
  - rewrite (GetArray_field _ _ (SerializeExpression <$> expressions)) by member. by rewrite expressions_roundtrip.
  - rewrite (GetArray_field _ _ (sort_definition_ToJson <$> sort_definitions)) by member.
    rewrite (mapR_roundtrip _ _ id), list_fmap_id; [done|].
    eapply Forall_impl; [exact Hv|]. intros d. apply sort_definition_roundtrip.
  - by rewrite (GetString_name _ _ mode) by member.
Qed.
End Components.

(** ** Whole proxies *)
Section Proxies.
Context {J : Type} `{JsonLaws J} `{ExpressionNamesLaws} `{OperatorNamesLaws} {A : Type} `{ArrowCompute A}.
Variable address_text : N → string.
Abbreviation identity := (Identity (A:=A) address_text).

Definition base_keys : list string :=
  ["operator_type"; "operator_identity"; "left_input_operator_identity"; "right_input_operator_identity"; "comment"].

Lemma operator_ToJson_base (json doc : J) (op : ProxyOperator A) :
  operator_ToJson json op = Ok doc → ∀ k, k ∈ base_keys → field doc k = field json k.
Proof.
  intros Hdoc k Hk. destruct op; try done; injection Hdoc as <-; unfold_documents;
    try destruct import_options; try destruct primary_predicate; try destruct (decide (secondary_predicates = []));
    repeat (apply elem_of_cons in Hk as [->|Hk]; [by member|]); by apply elem_of_nil in Hk.
Qed.

Lemma base_ToJson_optional (plan : Plan A) p x (json : J) :
  base_ToJson address_text plan p x = Ok json → ∀ k, k ∈ optional_keys → field json k = None.
Proof.
  intros Hj k Hk. unfold base_ToJson in Hj. apply bind_ok in Hj as (j1 & Hj1 & Hj). apply bind_ok in Hj as (j2 & Hj2 & Hj).
  injection Hj as <-.
  destruct (LeftInput x) as [l|]; [apply bind_ok in Hj1 as (y & _ & [= <-])|injection Hj1 as <-];
    (destruct (RightInput x) as [r|]; [apply bind_ok in Hj2 as (z & _ & [= <-])|injection Hj2 as <-]);
    destruct (decide (comment_ x = EmptyString));
    repeat (apply elem_of_cons in Hk as [->|Hk]; [by member|]); by apply elem_of_nil in Hk.
Qed.

(** The identity of an input, empty if there is none. *)
Definition input_identity (plan : Plan A) (input : option N) : string :=
  match input with
  | Some p => match plan !! p with Some x => identity p x | None => EmptyString end
  | None => EmptyString
  end.

Lemma Identity_nonempty p (x : Proxy A N) : identity p x ≠ EmptyString.
Proof. unfold Identity. destruct (decide _); [|done]. unfold Name. by destruct (Type_ _). Qed.

(** A member that is written unless its value is empty. *)
Definition string_field (s : string) : option (content J) := if decide (s = EmptyString) then None else Some (AString s).

Lemma get_string_if_field (j : J) k s : field j k = string_field s → get_string_if j k = s.
Proof.
  unfold string_field, get_string_if. destruct (decide (s = EmptyString)) as [->|]; intros Hk.
  - by rewrite (KeyExists_none _ _ Hk).
  - by rewrite (KeyExists_some _ _ _ Hk), (GetString_field _ _ _ Hk).
Qed.

Lemma string_field_identity p (x : Proxy A N) : string_field (identity p x) = Some (AString (identity p x)).
Proof. unfold string_field. by rewrite decide_False by apply Identity_nonempty. Qed.

(** What the base class writes. *)
Lemma base_fields (plan : Plan A) p x (json : J) :
  base_ToJson address_text plan p x = Ok json →
  field json "operator_type" = Some (AString (enum_name (Type_ (proxy_operator x)))) ∧
  field json "operator_identity" = Some (AString (identity p x)) ∧
  field json "left_input_operator_identity" = string_field (input_identity plan (LeftInput x)) ∧
  field json "right_input_operator_identity" = string_field (input_identity plan (RightInput x)) ∧
  field json "comment" = string_field (comment_ x).
Proof.
  intros Hj. unfold base_ToJson in Hj. apply bind_ok in Hj as (j1 & Hj1 & Hj). apply bind_ok in Hj as (j2 & Hj2 & Hj).
  injection Hj as <-. unfold input_identity, deref in *.
  destruct (LeftInput x) as [l|]; [apply bind_ok in Hj1 as (y & Hy%of_option_ok & [= <-]); rewrite Hy, string_field_identity|injection Hj1 as <-];
    (destruct (RightInput x) as [r|]; [apply bind_ok in Hj2 as (z & Hz%of_option_ok & [= <-]); rewrite Hz, string_field_identity|injection Hj2 as <-]);
    unfold string_field; destruct (decide (comment_ x = EmptyString)) as [Hc|];
    (split; [by member|split; [by member|split; [|split]]]); by member.
Qed.

Lemma proxy_roundtrip {P} fuel (plan : Plan A) p x (doc : J) :
  transmissible fuel (proxy_operator x) → Proxy_ToJson address_text plan p x = Ok doc →
  DeserializeOperatorProxy (P:=P) fuel doc =
    (op ← transmitted (proxy_operator x);
     Ok (mkProxy op (identity p x) (comment_ x) None None
       (input_identity plan (LeftInput x)) (input_identity plan (RightInput x)))).
Proof.
  intros Hop Hdoc. unfold Proxy_ToJson in Hdoc. apply bind_ok in Hdoc as (json & Hjson & Hdoc).
  pose proof (operator_ToJson_base _ _ _ Hdoc) as Hbase.
  destruct (base_fields _ _ _ _ Hjson) as (Ht & Hi & Hl & Hr & Hc).
  unfold DeserializeOperatorProxy.
  rewrite (GetString_field doc _ (enum_name (Type_ (proxy_operator x)))), enum_cast_name
    by (rewrite Hbase; [done|by left]).
  cbn [of_option rbind].
  rewrite (operator_roundtrip fuel json doc) by (done || by eapply base_ToJson_optional).
  destruct (transmitted (proxy_operator x)) as [op|]; [|done]. cbn [rbind]. unfold SetAttributesFromJson.
  rewrite (KeyExists_some _ _ (AString (identity p x))) by (rewrite Hbase; [done|set_solver]). cbn [assert_ rbind].
  rewrite (GetString_field _ _ (identity p x)) by (rewrite Hbase; [done|set_solver]).
  rewrite (get_string_if_field doc _ (comment_ x)), (get_string_if_field doc _ (input_identity plan (LeftInput x))),
    (get_string_if_field doc _ (input_identity plan (RightInput x))); [done|..]; rewrite Hbase by set_solver; done.
Qed.
End Proxies.
