(* ===== verification/PqpRoundtrip.v ===== *)
(** * Round trip of physical query plans

    A plan that can be sent arrives: the worker gets one proxy per reachable proxy, with the
    same identity, comment and inputs, and with the operator as [transmitted].  The booleans
    read with [GetBool] are what [get_bool] makes of them, whether that is faithful or not. *)

From stdpp Require Import pretty.
From S2P Require Export OperatorRoundtrip.

(** ** Documents that can be written as text

    JSON has no infinities and no NaN.  The document of a proxy can be written when its
    expressions have no such literals. *)

Local Open Scope string_scope.

Fixpoint finite_literals (e : expr) : bool :=
  match e with
  | Value (VFloat f) => is_finite_double (float_convert kDouble f)
  | Value (VDouble f) => is_finite_double f
  | Aggregate _ a | StringAgg a _ | Cast a _ | Extract _ a | IsNullExpr _ a | UnaryMinus a => finite_literals a
  | Arithmetic _ l r | Logical _ l r | BinaryPredicate _ l r | InExpr _ l r => finite_literals l && finite_literals r
  | Case a b c | Between _ a b c => finite_literals a && (finite_literals b && finite_literals c)
  | ListExpr es => forallb finite_literals es
  | PqpColumn _ _ _ _ | Value _ => true
  end.

Definition finite_operator {A} (op : ProxyOperator A) : bool :=
  match op with
  | AggregateOperatorProxy _ es _ | ProjectionOperatorProxy es => forallb finite_literals es
  | FilterOperatorProxy e | LimitOperatorProxy e => finite_literals e
  | ImportOperatorProxy _ _ (Some (ParquetOptions o)) _ =>
      match skyrise_expression o with Some e => finite_literals e | None => true end
  | _ => true
  end.

Create HintDb writable discriminated.

Section Text.
Context {J : Type} `{JsonText J} `{ExpressionNames} `{OperatorNames} {A : Type} `{ArrowCompute A}.

Lemma Writable_WithString j k s : Writable j → Writable (WithString j k s).
Proof. intros Hj. by apply Writable_With. Qed.
Lemma Writable_WithInteger j k s : Writable j → Writable (WithInteger j k s).
Proof. intros Hj. by apply Writable_With. Qed.
Lemma Writable_WithInt64 j k s : Writable j → Writable (WithInt64 j k s).
Proof. intros Hj. by apply Writable_With. Qed.
Lemma Writable_WithBool j k s : Writable j → Writable (WithBool j k s).
Proof. intros Hj. by apply Writable_With. Qed.
Lemma Writable_WithDouble j k f : is_finite_double f = true → Writable j → Writable (WithDouble j k f).
Proof. intros Hf Hj. by apply Writable_With. Qed.
Lemma Writable_WithArray j k l : Forall Writable l → Writable j → Writable (WithArray j k l).
Proof. intros Hl Hj. by apply Writable_With. Qed.
Lemma Writable_WithObject j k o : Writable o → Writable j → Writable (WithObject j k o).
Proof. intros Ho Hj. by apply Writable_With. Qed.

#[local] Hint Resolve Writable_JsonValue Writable_WithString Writable_WithInteger Writable_WithInt64
  Writable_WithBool Writable_WithDouble Writable_WithArray Writable_WithObject : writable.

Lemma Writable_fmap {T} (f : T → J) l : (∀ x, x ∈ l → Writable (f x)) → Forall Writable (f <$> l).
Proof. intros Hf. apply Forall_fmap, Forall_forall. exact Hf. Qed.

Lemma Writable_option {T} j k (f : T → content J) o :
  Writable j → (∀ x, o = Some x → Writable (With k (f x) j)) → Writable (with_option j k f o).
Proof. intros Hj Ho. destruct o; [by apply Ho|done]. Qed.

Lemma Writable_strings l : Forall Writable (VectorToJsonArray_string l : list J).
Proof. apply Writable_fmap. intros s _. by apply Writable_As. Qed.
Lemma Writable_integers l : Forall Writable (VectorToJsonArray_integral l : list J).
Proof. apply Writable_fmap. intros s _. by apply Writable_As. Qed.

Lemma Writable_expression e : finite_literals e = true → Writable (SerializeExpression e : J).
Proof.
  induction e using expr_ind; cbn; intros Hf; rewrite ?andb_true_iff in Hf; destruct_and?;
    unfold serialize_node; cbn; unfold SerializeAggregateExpression, SerializeArithmeticExpression, SerializeCastExpression,
      SerializeExtractExpression, SerializeLogicalExpression, SerializePredicateExpression, SerializePqpColumnExpression;
    auto 12 with writable.
  - apply Writable_WithArray; [|auto with writable]. apply Forall_map.
    rewrite List.Forall_forall in H4 |- *. rewrite forallb_forall in Hf. auto.
  - destruct v; cbn; auto 8 with writable.
Qed.

Lemma Writable_schema d : Forall Writable (TableColumnDefinitionsToJsonArray d : list J).
Proof. apply Writable_fmap. auto 6 with writable. Qed.
Lemma Writable_column_ids l : Forall Writable (column_ids_ToJson l : list J).
Proof. apply Writable_integers. Qed.
#[local] Hint Resolve Writable_strings Writable_integers Writable_schema Writable_column_ids Writable_expression : writable.

Lemma Writable_expected_schema j o : Writable j → Writable (with_option j "expected_schema" expected_schema_ToJson o : J).
Proof. intros Hj. apply Writable_option; [done|]. intros d _. apply Writable_WithArray; auto with writable. Qed.

Lemma Writable_import_options (o : ImportOptions A) :
  match o with ParquetOptions o => match skyrise_expression o with Some e => finite_literals e = true | None => True end
             | _ => True end → Writable (ImportOptions_ToJson o : J).
Proof.
  destruct o as [o|o|o]; cbn; intros Ho; apply Writable_WithObject; auto with writable.
  - apply Writable_expected_schema. auto 10 with writable.
  - unfold OrcOptions_ToJson. destruct (orc_expected_schema o) as [d|].
    + apply Writable_WithArray; auto with writable.
    + apply Writable_option; [auto with writable|]. intros l _. apply Writable_WithArray; auto with writable.
  - unfold ParquetOptions_ToJson. cbv zeta.
    match goal with |- Writable (with_option ?j _ _ _) => assert (Writable j) as Hj end.
    { apply Writable_option; [apply Writable_expected_schema, Writable_option|]; [auto with writable|..];
        intros l _; apply Writable_WithArray; auto with writable.
      apply Writable_expected_schema, Writable_option; [auto with writable|].
      intros l' _. apply Writable_WithArray; auto with writable. }
    apply Writable_option; [done|]. intros e He. rewrite He in Ho. apply Writable_WithObject; auto with writable.
Qed.

Lemma Writable_operator (json doc : J) (op : ProxyOperator A) :
  finite_operator op = true → Writable json → operator_ToJson json op = Ok doc → Writable doc.
Proof.
  intros Hf Hj Hdoc. destruct op; try done; injection Hdoc as <-; cbn in Hf; unfold_documents; auto 10 with writable.
  - repeat (apply Writable_WithArray || apply Writable_WithBool); auto with writable.
    apply Writable_fmap. intros e He. apply Writable_expression. rewrite forallb_forall in Hf. by apply Hf, list_elem_of_In.
  - apply Writable_option.
    + repeat apply Writable_WithArray; auto with writable. apply Writable_fmap. unfold import_reference_ToJson. auto 8 with writable.
    + intros o ->. apply Writable_WithObject.
      * apply Writable_import_options. destruct o; try done. by destruct (skyrise_expression _).
      * repeat apply Writable_WithArray; auto with writable. apply Writable_fmap. unfold import_reference_ToJson. auto 8 with writable.
  - assert (∀ p : JoinOperatorPredicate, Writable (SerializePredicate p : J)) as Hp
      by (intros p; unfold SerializePredicate; auto 8 with writable).
    assert (Writable (with_option (WithString json "join_mode" (enum_name mode)) "primary_predicate"
      (λ p, AObject (SerializePredicate p)) primary_predicate)) as Hw.
    { apply Writable_option; [auto with writable|]. intros p _. apply Writable_WithObject; auto with writable. }
    destruct (decide _); [done|]. apply Writable_WithArray; [|done]. by apply Writable_fmap.
  - apply Writable_WithBool, Writable_WithObject; [|done]. unfold PartitioningFunction_ToJson.
    apply Writable_WithInteger, Writable_WithArray; [|auto with writable]. apply Writable_fmap. intros id _. by apply Writable_As.
  - apply Writable_WithArray; [|done]. apply Writable_fmap. intros e He. apply Writable_expression.
    rewrite forallb_forall in Hf. by apply Hf, list_elem_of_In.
  - apply Writable_WithArray; [|done]. apply Writable_fmap. unfold sort_definition_ToJson. auto 8 with writable.
Qed.

Lemma Writable_proxy address_text (plan : Plan A) p x (doc : J) :
  finite_operator (proxy_operator x) = true → Proxy_ToJson address_text plan p x = Ok doc → Writable doc.
Proof.
  intros Hf Hdoc. unfold Proxy_ToJson in Hdoc. apply bind_ok in Hdoc as (json & Hj & Hdoc).
  eapply Writable_operator; [exact Hf| |exact Hdoc]. unfold base_ToJson in Hj.
  apply bind_ok in Hj as (j1 & Hj1 & Hj). apply bind_ok in Hj as (j2 & Hj2 & Hj). injection Hj as <-.
  assert (Writable j1) as H1w.
  { destruct (LeftInput x); [apply bind_ok in Hj1 as (y & _ & [= <-])|injection Hj1 as <-]; auto 8 with writable. }
  assert (Writable j2) as H2w.
  { destruct (RightInput x); [apply bind_ok in Hj2 as (y & _ & [= <-])|injection Hj2 as <-]; auto 8 with writable. }
  destruct (decide _); auto with writable.
Qed.
End Text.

(** ** Serialization of physical query plans

    [src/lib/compiler/physical_query_plan/pqp_serialization.cpp]: the plan that the coordinator
    sends to its workers.  A DAG of proxies becomes one flat document that lists every
    reachable proxy once under its identity; reading it creates the proxies and then binds
    their inputs by identity. *)

Section Pqp.
Context {J : Type} `{Json J} `{ExpressionNames} `{OperatorNames} {A : Type} `{ArrowCompute A}.
Variable address_text : N → string.

(** The recursion is bounded by the number of proxies of the plan. *)
Fixpoint SerializeOperatorProxiesRecursively (fuel : nat) (plan : Plan A) (operator_proxy : N) (operators_json : J)
    : result J :=
  match fuel with
  | O => Err OutOfFuel
  | S fuel =>
      x ← deref plan operator_proxy;
      let operator_identity := Identity address_text operator_proxy x in
      if KeyExists operators_json operator_identity then Ok operators_json else
      document ← Proxy_ToJson address_text plan operator_proxy x;
      let operators_json := WithObject operators_json operator_identity document in
      operators_json ← (match LeftInput x with
                        | Some l => SerializeOperatorProxiesRecursively fuel plan l operators_json
                        | None => Ok operators_json
                        end);
      match RightInput x with
      | Some r => SerializeOperatorProxiesRecursively fuel plan r operators_json
      | None => Ok operators_json
      end
  end.

Definition pqp_document (plan : Plan A) (root : N) : result J :=
  x ← deref plan root;
  operator_proxies_json ← SerializeOperatorProxiesRecursively (S (size plan)) plan root JsonValue;
  Ok (WithObject (WithString JsonValue "root_operator_identity" (Identity address_text root x))
        "operators" operator_proxies_json).

Definition SerializePqp (plan : Plan A) (root : N) : result string :=
  pqp_json ← pqp_document plan root; Ok (WriteReadable pqp_json).

(** [BindInputs] of one proxy: the map's proxies take the place of the identities. *)
Definition BindInputs (identity_to_operator_proxies : gmap string (Proxy A string)) (x : Proxy A string)
    : result (Proxy A string) :=
  _ ← assert_ (bool_decide (LeftInput x = None) && bool_decide (RightInput x = None)) AssertionFailed;
  if decide (left_input_identity_ x = EmptyString) then
    _ ← assert_ (bool_decide (right_input_identity_ x = EmptyString)) AssertionFailed; Ok x
  else
    _ ← assert_ (bool_decide (is_Some (identity_to_operator_proxies !! left_input_identity_ x))) AssertionFailed;
    if decide (right_input_identity_ x = EmptyString) then
      Ok (mkProxy (proxy_operator x) (identity_ x) (comment_ x) (Some (left_input_identity_ x)) None EmptyString EmptyString)
    else
      _ ← assert_ (bool_decide (is_Some (identity_to_operator_proxies !! right_input_identity_ x))) AssertionFailed;
      Ok (mkProxy (proxy_operator x) (identity_ x) (comment_ x) (Some (left_input_identity_ x))
            (Some (right_input_identity_ x)) EmptyString EmptyString).

(** The proxies by identity, and the identity of the root, whose proxy is the result. *)
Definition DeserializePqp (fuel : nat) (pqp_string : string) : result (gmap string (Proxy A string) * string) :=
  let pqp_json : J := Parse pqp_string in
  _ ← assert_ (KeyExists pqp_json "root_operator_identity") AssertionFailed;
  _ ← assert_ (KeyExists pqp_json "operators") AssertionFailed;
  proxies ← mapR (λ p : string * J, x ← DeserializeOperatorProxy fuel p.2; Ok (p.1, x))
    (GetAllObjects (GetObject pqp_json "operators"));
  let identity_to_operator_proxies := list_to_map proxies in
  bound ← mapR (λ p : string * Proxy A string, x ← BindInputs identity_to_operator_proxies p.2; Ok (p.1, x)) proxies;
  Ok (list_to_map bound, GetString pqp_json "root_operator_identity").
End Pqp.

(** ** Which plans can be sent *)
Section Plans.
Context {A : Type} `{ArrowCompute A}.

(** The predicate of a Parquet import can be translated. *)
Definition translatable (op : ProxyOperator A) : bool :=
  match op with
  | ImportOperatorProxy _ _ (Some (ParquetOptions o)) _ =>
      match skyrise_expression o with Some e => is_ok (CreateArrowExpression (A:=A) (DeepCopy e)) | None => true end
  | _ => true
  end.

Lemma translatable_ok `{BoolReading} op : translatable op = true → is_ok (transmitted op) = true.
Proof.
  destruct op as [| | | | |? ? [[]|] ?| | | | | |]; try done. cbn. destruct (skyrise_expression _) as [e|]; [|done].
  by destruct (CreateArrowExpression _).
Qed.

Variable address_text : N → string.
Variable plan : Plan A.

(** The proxies exist, their identities are unique, and their members can be written and read. *)
Record sendable (fuel : nat) (root : N) : Prop := {
  sendable_closed : ∀ p, plan_reachable plan root p → is_Some (plan !! p);
  sendable_unique : ∀ p q x y, plan_reachable plan root p → plan_reachable plan root q → plan !! p = Some x → plan !! q = Some y →
    Identity address_text p x = Identity address_text q y → p = q;
  sendable_left : ∀ p x, plan_reachable plan root p → plan !! p = Some x → LeftInput x = None → RightInput x = None;
  sendable_operator : ∀ p x, plan_reachable plan root p → plan !! p = Some x →
    transmissible fuel (proxy_operator x) ∧ translatable (proxy_operator x) = true ∧
    finite_operator (proxy_operator x) = true }.
End Plans.

(** ** What arrives *)

(** ** [mapR] that succeeds *)
Lemma mapR_all_ok {A B} (f : A → result B) l :
  (∀ a, a ∈ l → is_ok (f a) = true) → ∃ k, mapR f l = Ok k ∧ Forall2 (λ a b, f a = Ok b) l k.
Proof.
  induction l as [|a l IH]; intros Hl; [by exists []|]. destruct (f a) as [b|] eqn:Ha.
  - destruct IH as (k & Hk & Hf); [intros c Hc; apply Hl; by right|]. exists (b :: k). cbn. rewrite Ha, Hk.
    split; [done|by constructor].
  - specialize (Hl a). rewrite Ha in Hl. discriminate Hl. by left.
Qed.

Lemma Forall2_elem {A B} (P : A → B → Prop) l k b : Forall2 P l k → b ∈ k → ∃ a, a ∈ l ∧ P a b.
Proof.
  induction 1 as [|a' b' l k Hab _ IH]; [by intros []%elem_of_nil|]. intros [->|Hb]%elem_of_cons.
  - exists a'. split; [by left|done].
  - destruct (IH Hb) as (a & Ha & Hp). exists a. split; [by right|done].
Qed.

(** ** Serialization *)
Section Serialize.
Context {J : Type} `{JsonLaws J} `{!JsonText J} `{ExpressionNamesLaws} `{OperatorNamesLaws} {A : Type} `{ArrowCompute A}.
Variable address_text : N → string.
Variable plan : Plan A.
Variables (n : nat) (root : N).
Hypothesis Hsend : sendable address_text plan n root.

Abbreviation reachable := (plan_reachable plan root).
Abbreviation identity := (Identity (A:=A) address_text).

(** The document of the proxies in [V]. *)
Record serialized (V : gset N) (j : J) : Prop := {
  ser_reachable : ∀ p, p ∈ V → reachable p;
  ser_members : ∀ k c, field j k = Some c →
    ∃ p x d, p ∈ V ∧ plan !! p = Some x ∧ k = identity p x ∧ Proxy_ToJson address_text plan p x = Ok d ∧ c = AObject d;
  ser_proxies : ∀ p x, p ∈ V → plan !! p = Some x →
    ∃ d, Proxy_ToJson address_text plan p x = Ok d ∧ field j (identity p x) = Some (AObject d);
  ser_writable : Writable j }.

Lemma Proxy_ToJson_total p x :
  reachable p → plan !! p = Some x → ∃ d : J, Proxy_ToJson address_text plan p x = Ok d.
Proof.
  intros Hp Hx. destruct (sendable_operator _ _ _ _ Hsend p x Hp Hx) as [[_ Hop] _].
  assert (∀ q, q ∈ inputs x → is_Some (plan !! q)) as Hin.
  { intros q Hq. apply (sendable_closed _ _ _ _ Hsend). by eapply plan_reachable_input. }
  assert (∃ json : J, base_ToJson address_text plan p x = Ok json) as [json Hjson].
  { unfold base_ToJson, deref, inputs in *. destruct (LeftInput x) as [l|]; cbn in Hin.
    - destruct (Hin l) as [y Hy]; [by left|]. rewrite Hy. cbn. destruct (RightInput x) as [r|]; cbn in Hin; [|by eexists].
      destruct (Hin r) as [z Hz]; [right; by left|]. rewrite Hz. by eexists.
    - cbn. destruct (RightInput x) as [r|]; cbn in Hin; [|by eexists].
      destruct (Hin r) as [z Hz]; [by left|]. rewrite Hz. by eexists. }
  unfold Proxy_ToJson. rewrite Hjson. cbn. destruct (proxy_operator x); try done; by eexists.
Qed.

(** What a visit of [p] does to the document of [V]. *)
Definition visited (V : gset N) (p : option N) (r : result J) : Prop :=
  ∃ V' j, r = Ok j ∧ serialized V' j ∧ V ⊆ V' ∧ (∀ q, p = Some q → q ∈ V') ∧
    ∀ q x, q ∈ V' → q ∉ V → plan !! q = Some x → ∀ i, i ∈ inputs x → i ∈ V'.

Lemma serialized_add V j p x d :
  reachable p → plan !! p = Some x → Proxy_ToJson address_text plan p x = Ok d →
  serialized V j → serialized ({[p]} ∪ V) (WithObject j (identity p x) d).
Proof.
  intros Hp Hx Hd Hj. assert (∀ q, q ∈ ({[p]} ∪ V : gset N) → q = p ∨ q ∈ V) as Hcase
    by (intros q [->%elem_of_singleton|Hq]%elem_of_union; auto).
  assert (p ∈ ({[p]} ∪ V : gset N)) as HpV by by apply elem_of_union_l, elem_of_singleton.
  unfold WithObject. split.
  - intros q [->|Hq]%Hcase; [done|by apply (ser_reachable _ _ Hj)].
  - intros k c Hk. rewrite field_With in Hk. destruct (decide (k = identity p x)) as [->|].
    + injection Hk as <-. by exists p, x, d.
    + destruct (ser_members _ _ Hj _ _ Hk) as (q & y & e & Hq & Hrest). exists q, y, e.
      split; [by apply elem_of_union_r|done].
  - intros q y Hq Hy. rewrite field_With. destruct (decide (identity q y = identity p x)) as [He|Hne].
    + assert (q = p) as ->.
      { eapply (sendable_unique _ _ _ _ Hsend); [|done|done|done|done].
        apply Hcase in Hq as [->|Hq]; [done|by apply (ser_reachable _ _ Hj)]. }
      rewrite Hx in Hy. injection Hy as <-. by exists d.
    + apply Hcase in Hq as [->|Hq]; [congruence|]. by apply (ser_proxies _ _ Hj).
  - apply Writable_WithObject; [|by apply (ser_writable _ _ Hj)].
    eapply Writable_proxy; [|exact Hd]. by apply (sendable_operator _ _ _ _ Hsend p x Hp Hx).
Qed.

Lemma serialize_visited fuel V p j :
  reachable p → serialized V j → (size (dom plan ∖ V) < fuel)%nat →
  visited V (Some p) (SerializeOperatorProxiesRecursively address_text fuel plan p j).
Proof.
  revert V p j. induction fuel as [|fuel IH]; intros V p j Hp Hj Hfuel; [lia|].
  destruct (sendable_closed _ _ _ _ Hsend p Hp) as [x Hx].
  cbn [SerializeOperatorProxiesRecursively]. unfold deref. rewrite Hx. cbn [of_option rbind].
  destruct (KeyExists j (identity p x)) eqn:Hkey.
  - (* already there *)
    rewrite KeyExists_field in Hkey. apply bool_decide_eq_true in Hkey as [c Hc].
    destruct (ser_members _ _ Hj _ _ Hc) as (p' & x' & d & Hp' & Hx' & Hid & _).
    assert (p = p') as <- by (eapply (sendable_unique _ _ _ _ Hsend); [done|by apply (ser_reachable _ _ Hj)|done|done|done]).
    exists V, j. split; [done|]. split; [done|]. split; [done|]. split; [by intros q [= <-]|]. by intros q y Hq Hnq.
  - assert (p ∉ V) as HpV.
    { intros HpV. destruct (ser_proxies _ _ Hj p x HpV Hx) as (d & _ & Hf). by rewrite (KeyExists_some _ _ _ Hf) in Hkey. }
    destruct (Proxy_ToJson_total p x Hp Hx) as [d Hd]. rewrite Hd. cbn [rbind].
    set (V1 := {[p]} ∪ V). assert (serialized V1 (WithObject j (identity p x) d)) as Hj1 by by apply serialized_add.
    assert (size (dom plan ∖ V1) < fuel)%nat as Hfuel1.
    { assert (dom plan ∖ V1 ⊂ dom plan ∖ V) as Hsub.
      { apply elem_of_dom_2 in Hx. unfold V1. set_solver. }
      apply subset_size in Hsub. lia. }
    assert (∀ W i j', (∀ q, i = Some q → q ∈ inputs x) → serialized W j' → V1 ⊆ W →
      visited W i (match i with Some q => SerializeOperatorProxiesRecursively address_text fuel plan q j' | None => Ok j' end)) as Hinput.
    { intros W [q|] j' Hq Hj' HW.
      - apply IH; [by eapply plan_reachable_input; [exact Hp|exact Hx|apply Hq]|done|].
        eapply Nat.le_lt_trans; [|exact Hfuel1]. apply subseteq_size. set_solver.
      - exists W, j'. split; [done|]. split; [done|]. split; [done|]. split; [done|]. by intros q y Hqw Hnq. }
    destruct (Hinput V1 (LeftInput x) (WithObject j (identity p x) d)) as (V2 & j2 & -> & Hj2 & Hsub2 & Hl2 & Hcl2);
      [intros q Hq; unfold inputs; rewrite Hq; by left|exact Hj1|done|]. cbn [rbind].
    destruct (Hinput V2 (RightInput x) j2) as (V3 & j3 & -> & Hj3 & Hsub3 & Hr3 & Hcl3);
      [intros q Hq; unfold inputs; rewrite Hq; apply elem_of_app; right; by left|done|set_solver|].
    exists V3, j3. split; [done|]. split; [done|]. split; [set_solver|]. split; [intros q [= <-]; set_solver|].
    intros q y Hq HqV Hy i Hi. destruct (decide (q ∈ V2)) as [Hq2|Hq2]; [|by eapply Hcl3].
    destruct (decide (q ∈ V1)) as [Hq1|Hq1]; [|apply Hsub3; by eapply Hcl2].
    assert (q = p) as -> by set_solver. rewrite Hx in Hy. injection Hy as <-.
    unfold inputs in Hi. apply elem_of_app in Hi as [Hi|Hi].
    + apply Hsub3, Hl2. destruct (LeftInput x); [by apply list_elem_of_singleton in Hi as ->|by apply elem_of_nil in Hi].
    + apply Hr3. destruct (RightInput x); [by apply list_elem_of_singleton in Hi as ->|by apply elem_of_nil in Hi].
Qed.

(** The whole plan. *)
Lemma serialize_plan :
  ∃ V j, SerializeOperatorProxiesRecursively address_text (S (size plan)) plan root (JsonValue : J) = Ok j ∧
    serialized V j ∧ ∀ p, reachable p ↔ p ∈ V.
Proof.
  destruct (serialize_visited (S (size plan)) ∅ root JsonValue) as (V & j & Hj & Hs & _ & Hroot & Hcl).
  - constructor.
  - split; [done| |done|apply Writable_JsonValue]. intros k c Hk. by rewrite field_JsonValue in Hk.
  - rewrite difference_empty_L, size_dom. lia.
  - exists V, j. split; [done|]. split; [done|]. intros p. split; [|apply (ser_reachable _ _ Hs)].
    induction 1 as [|p x q _ IH Hx Hq]; [by apply Hroot|]. eapply Hcl; [exact IH|set_solver|exact Hx|exact Hq].
Qed.

(** ** Deserialization *)
Definition arrived_operator (x : Proxy A N) : ProxyOperator A :=
  match transmitted (proxy_operator x) with Ok op => op | Err _ => proxy_operator x end.

Definition unbound (p : N) (x : Proxy A N) : Proxy A string :=
  mkProxy (arrived_operator x) (identity p x) (comment_ x) None None
    (input_identity address_text plan (LeftInput x)) (input_identity address_text plan (RightInput x)).

Definition input_pointer (input : option N) : option string := (λ q, input_identity address_text plan (Some q)) <$> input.

(** The proxy at [p] on the other side. *)
Definition arrived (p : N) (x : Proxy A N) : Proxy A string :=
  mkProxy (arrived_operator x) (identity p x) (comment_ x) (input_pointer (LeftInput x)) (input_pointer (RightInput x))
    EmptyString EmptyString.

(** [m] holds [make p x] for the reachable proxies, and nothing else. *)
Definition holds_plan (make : N → Proxy A N → Proxy A string) (m : gmap string (Proxy A string)) : Prop :=
  ∀ k y, m !! k = Some y ↔ ∃ p x, reachable p ∧ plan !! p = Some x ∧ k = identity p x ∧ y = make p x.

Lemma identity_fun p q x y :
  reachable p → reachable q → plan !! p = Some x → plan !! q = Some y → identity p x = identity q y → p = q ∧ x = y.
Proof.
  intros Hp Hq Hx Hy He. assert (p = q) as -> by by eapply (sendable_unique _ _ _ _ Hsend).
  split; [done|congruence].
Qed.

(** A list with one entry per reachable proxy is such a map. *)
Lemma holds_list make (l : list (string * Proxy A string)) :
  NoDup l.*1 →
  (∀ k y, (k, y) ∈ l ↔ ∃ p x, reachable p ∧ plan !! p = Some x ∧ k = identity p x ∧ y = make p x) →
  holds_plan make (list_to_map l).
Proof. intros Hnd Hl k y. rewrite <- Hl. symmetry. by apply elem_of_list_to_map. Qed.

Lemma mapR_keys {B} (f : B → result (Proxy A string)) (l : list (string * B)) k :
  Forall2 (λ a b, (x ← f a.2; Ok (a.1, x)) = Ok b) l k → k.*1 = l.*1.
Proof.
  induction 1 as [|a b l k Hab _ IH]; [done|]. apply bind_ok in Hab as (y & _ & [= <-]). cbn. by rewrite IH.
Qed.

Lemma input_reachable p x q :
  reachable p → plan !! p = Some x → q ∈ inputs x → ∃ y, reachable q ∧ plan !! q = Some y.
Proof.
  intros Hp Hx Hq. assert (reachable q) as Hr by by eapply plan_reachable_input.
  destruct (sendable_closed _ _ _ _ Hsend q Hr) as [y Hy]. by exists y.
Qed.

Lemma BindInputs_arrived m p x :
  holds_plan unbound m → reachable p → plan !! p = Some x → BindInputs m (unbound p x) = Ok (arrived p x).
Proof.
  intros Hm Hp Hx. pose proof (sendable_left _ _ _ _ Hsend p x Hp Hx) as Hleft.
  assert (∀ q, q ∈ inputs x → ∃ s, input_identity address_text plan (Some q) = s ∧ s ≠ EmptyString ∧ is_Some (m !! s)) as Hin.
  { intros q Hq. destruct (input_reachable p x q Hp Hx Hq) as (y & Hqr & Hy). exists (identity q y). cbn. rewrite Hy.
    split; [done|]. split; [apply Identity_nonempty|]. exists (unbound q y). apply Hm. by exists q, y. }
  unfold BindInputs, arrived, unbound, input_pointer, inputs in *.
  cbn [LeftInput RightInput left_input_identity_ right_input_identity_ proxy_operator identity_ comment_].
  destruct (LeftInput x) as [l|]; [|by rewrite Hleft].
  destruct (Hin l) as (s & Hs & Hne & Hms); [by left|]. rewrite Hs. rewrite (decide_False _ _ Hne), (bool_decide_true _ Hms).
  cbn [fmap option_fmap option_map assert_ rbind bool_decide]. rewrite Hs.
  destruct (RightInput x) as [r|]; [|done].
  destruct (Hin r) as (t & Ht & Hnt & Hmt); [right; by left|]. rewrite Ht, (decide_False _ _ Hnt), (bool_decide_true _ Hmt).
  cbn [fmap option_fmap option_map]. by rewrite Ht.
Qed.

(** The first pass: one proxy per member of the document. *)
Lemma deserialize_proxies V (j : J) :
  serialized V j → (∀ p, reachable p ↔ p ∈ V) →
  ∃ l, mapR (λ p : string * J, x ← DeserializeOperatorProxy (P:=string) n p.2; Ok (p.1, x)) (GetAllObjects j) = Ok l ∧
    NoDup l.*1 ∧
    ∀ k y, (k, y) ∈ l ↔ ∃ p x, reachable p ∧ plan !! p = Some x ∧ k = identity p x ∧ y = unbound p x.
Proof.
  intros Hj HV.
  assert (∀ k o, (k, o) ∈ GetAllObjects j ↔ field j k = Some (AObject o)) as Hall.
  { apply GetAllObjects_field. intros k c Hc. destruct (ser_members _ _ Hj _ _ Hc) as (p & x & d & _ & _ & _ & _ & ->). by exists d. }
  assert (∀ p x d, reachable p → plan !! p = Some x → Proxy_ToJson address_text plan p x = Ok d →
    DeserializeOperatorProxy (J:=J) n d = Ok (unbound p x)) as Hproxy.
  { intros p x d Hp Hx Hd. destruct (sendable_operator _ _ _ _ Hsend p x Hp Hx) as (Hop & Hok%translatable_ok & _).
    rewrite (proxy_roundtrip address_text n plan p x d Hop Hd). unfold unbound, arrived_operator.
    by destruct (transmitted (proxy_operator x)). }
  assert (∀ k o, (k, o) ∈ GetAllObjects j → ∃ p x, reachable p ∧ plan !! p = Some x ∧ k = identity p x ∧
    DeserializeOperatorProxy n o = Ok (unbound p x)) as Hentry.
  { intros k o Hko%Hall. destruct (ser_members _ _ Hj _ _ Hko) as (p & x & d & Hp%HV & Hx & -> & Hd & [= ->]).
    exists p, x. auto. }
  destruct (mapR_all_ok (λ p : string * J, x ← DeserializeOperatorProxy (A:=A) (P:=string) n p.2; Ok (p.1, x)) (GetAllObjects j)) as (l & Hl & Hf).
  { intros [k o] Hko. destruct (Hentry k o Hko) as (p & x & _ & _ & _ & Ho). cbn. by rewrite Ho. }
  exists l. split; [exact Hl|]. split.
  - rewrite (mapR_keys _ _ _ Hf). apply GetAllObjects_keys.
  - intros k y. split.
    + intros Hky. destruct (Forall2_elem _ _ _ _ Hf Hky) as ([k' o] & Hko & Ho). cbn in Ho.
      destruct (Hentry k' o Hko) as (p & x & Hp & Hx & -> & Hd). rewrite Hd in Ho. cbn in Ho. injection Ho as <- <-.
      by exists p, x.
    + intros (p & x & Hp & Hx & -> & ->). destruct (ser_proxies _ _ Hj p x) as (d & Hd & Hfd); [by apply HV|done|].
      apply Hall in Hfd. apply list_elem_of_lookup in Hfd as [i Hi].
      destruct (Forall2_lookup_l _ _ _ _ _ Hf Hi) as ([k y] & Hky & Ho). cbn in Ho.
      rewrite (Hproxy p x d Hp Hx Hd) in Ho. cbn in Ho. injection Ho as <- <-. by eapply list_elem_of_lookup_2.
Qed.

(** The second pass. *)
Lemma bind_proxies l :
  NoDup l.*1 →
  (∀ k y, (k, y) ∈ l ↔ ∃ p x, reachable p ∧ plan !! p = Some x ∧ k = identity p x ∧ y = unbound p x) →
  ∃ b, mapR (λ p : string * Proxy A string, x ← BindInputs (list_to_map l) p.2; Ok (p.1, x)) l = Ok b ∧
    holds_plan arrived (list_to_map b).
Proof.
  intros Hnd Hl. pose proof (holds_list unbound l Hnd Hl) as Hm.
  destruct (mapR_all_ok (λ p : string * Proxy A string, x ← BindInputs (list_to_map l) p.2; Ok (p.1, x)) l) as (b & Hb & Hf).
  { intros [k y] (p & x & Hp & Hx & -> & ->)%Hl. cbn [fst snd]. by rewrite (BindInputs_arrived (list_to_map l) p x Hm Hp Hx). }
  exists b. split; [exact Hb|]. apply holds_list; [by rewrite (mapR_keys _ _ _ Hf)|]. intros k y. split.
  - intros Hky. destruct (Forall2_elem _ _ _ _ Hf Hky) as ([k' y'] & Hky' & Ho). cbn [fst snd] in Ho.
    apply Hl in Hky' as (p & x & Hp & Hx & -> & ->). rewrite (BindInputs_arrived (list_to_map l) p x Hm Hp Hx) in Ho.
    cbn [rbind] in Ho. injection Ho as <- <-. by exists p, x.
  - intros (p & x & Hp & Hx & -> & ->). assert ((identity p x, unbound p x) ∈ l) as Hin by (apply Hl; by exists p, x).
    apply list_elem_of_lookup in Hin as [i Hi]. destruct (Forall2_lookup_l _ _ _ _ _ Hf Hi) as ([k y] & Hky & Ho). cbn [fst snd] in Ho.
    rewrite (BindInputs_arrived (list_to_map l) p x Hm Hp Hx) in Ho. cbn [rbind] in Ho. injection Ho as <- <-. by eapply list_elem_of_lookup_2.
Qed.
End Serialize.

Lemma pqp_roundtrip {J : Type} `{JsonLaws J} `{!JsonText J} `{ExpressionNamesLaws} `{OperatorNamesLaws}
    {A : Type} `{ArrowCompute A} (address_text : N → string) (plan : Plan A) (root : N) (x : Proxy A N) (fuel : nat)
    (Hroot : plan !! root = Some x) (Hsend : sendable address_text plan fuel root) :
  ∃ text, SerializePqp (J:=J) address_text plan root = Ok text ∧
    ∃ m, DeserializePqp (J:=J) fuel text = Ok (m, Identity address_text root x) ∧
      holds_plan address_text plan root (arrived address_text plan) m.
Proof.
  destruct (serialize_plan (J:=J) address_text plan fuel root Hsend) as (V & j & Hj & Hs & HV).
  unfold SerializePqp, pqp_document, deref. rewrite Hroot. cbn [of_option rbind]. rewrite Hj. cbn [rbind].
  eexists. split; [reflexivity|]. unfold DeserializePqp.
  set (doc := WithObject (WithString JsonValue "root_operator_identity" (Identity address_text root x)) "operators" j).
  rewrite Parse_Write.
  2: { apply Writable_WithObject; [by apply (ser_writable _ _ _ _ _ Hs)|]. apply Writable_WithString, Writable_JsonValue. }
  rewrite (KeyExists_some doc "root_operator_identity" (AString (Identity address_text root x))) by (unfold doc; member).
  rewrite (KeyExists_some doc "operators" (AObject j)) by (unfold doc; member). cbn [assert_ rbind].
  rewrite (GetObject_field doc "operators" j) by (unfold doc; member).
  rewrite (GetString_field doc "root_operator_identity" (Identity address_text root x)) by (unfold doc; member).
  destruct (deserialize_proxies address_text plan fuel root Hsend V j Hs HV) as (l & Hl & Hnd & Hin).
  rewrite Hl. cbn [rbind].
  destruct (bind_proxies address_text plan fuel root Hsend l Hnd Hin) as (b & Hb & Hm).
  rewrite Hb. cbn [rbind]. eexists. split; [reflexivity|exact Hm].
Qed.

(** C8: A plan that can be sent arrives: serializing succeeds, the worker's deserialization of
    the text succeeds, and yields exactly one proxy per reachable proxy of the plan, under its
    identity, with its comment, the inputs of the same identities and the operator as
    transmitted; shared proxies stay shared.  Booleans that are read with [GetObject(k).AsBool()]
    arrive unchanged; those that are read with [GetBool] (whether an export consolidates row
    groups, whether partitions are sorted, whether expected columns are nullable) arrive as
    [get_bool] has it: unchanged if [GetBool] is as documented, and as [false] if the comments
    of the repository are right. *)
Theorem DeserializePqp_roundtrip {J : Type} `{JsonLaws J} `{!JsonText J} `{ExpressionNamesLaws} `{OperatorNamesLaws}
    {A : Type} `{ArrowCompute A} (address_text : N → string) (plan : Plan A) (root : N) (x : Proxy A N) (fuel : nat)
    (Hroot : plan !! root = Some x) (Hsend : sendable address_text plan fuel root) :
  ∃ text, SerializePqp (J:=J) address_text plan root = Ok text ∧
    ∃ m, DeserializePqp (J:=J) fuel text = Ok (m, Identity address_text root x) ∧
      holds_plan address_text plan root (arrived address_text plan) m.
Proof. exact (pqp_roundtrip address_text plan root x fuel Hroot Hsend). Qed.

(** ** An instance *)
Definition FileFormat_name (f : FileFormat) : string :=
  match f with kCsv => "kCsv" | kOrc => "kOrc" | kParquet => "kParquet" end.
Definition JoinMode_name (m : JoinMode) : string :=
  match m with
  | kAntiNullAsFalse => "kAntiNullAsFalse" | kAntiNullAsTrue => "kAntiNullAsTrue" | kCross => "kCross"
  | kFullOuter => "kFullOuter" | kInner => "kInner" | kLeftOuter => "kLeftOuter" | kRightOuter => "kRightOuter"
  | kSemi => "kSemi"
  end.
Definition OperatorType_name (t : OperatorType) : string :=
  match t with
  | oAggregate => "kAggregate" | oAlias => "kAlias" | oExchange => "kExchange" | oExport => "kExport"
  | oFilter => "kFilter" | oImport => "kImport" | oHashJoin => "kHashJoin" | oLimit => "kLimit"
  | oPartition => "kPartition" | oProjection => "kProjection" | oSort => "kSort"
  | oSortMergeJoin => "kSortMergeJoin" | oUnion => "kUnion"
  end.
Definition PartitioningFunctionType_name (t : PartitioningFunctionType) : string :=
  match t with kHash => "kHash" | kRange => "kRange" end.
Definition SetOperationMode_name (m : SetOperationMode) : string := match m with kAll => "kAll" | kUnique => "kUnique" end.
Definition SortMode_name (m : SortMode) : string := match m with kAscending => "kAscending" | kDescending => "kDescending" end.

#[export] Instance operator_names : OperatorNames := {
  names_FileFormat := names_instance [kCsv; kOrc; kParquet] FileFormat_name;
  names_JoinMode := names_instance [kAntiNullAsFalse; kAntiNullAsTrue; kCross; kFullOuter; kInner; kLeftOuter;
    kRightOuter; kSemi] JoinMode_name;
  names_OperatorType := names_instance [oAggregate; oAlias; oExchange; oExport; oFilter; oImport; oHashJoin; oLimit;
    oPartition; oProjection; oSort; oSortMergeJoin; oUnion] OperatorType_name;
  names_PartitioningFunctionType := names_instance [kHash; kRange] PartitioningFunctionType_name;
  names_SetOperationMode := names_instance [kAll; kUnique] SetOperationMode_name;
  names_SortMode := names_instance [kAscending; kDescending] SortMode_name }.

#[export] Instance operator_names_laws : OperatorNamesLaws.
Proof. split; apply names_laws; by intros []. Defined.

(** A self join: the import at address 1 feeds the filter at 2 and the join at 3. *)
Definition example_predicate : expr :=
  BinaryPredicate kGreaterThan (PqpColumn 0%N kInt false "a") (Value (VInt 3)).

Definition example_import : ProxyOperator arrow_tree :=
  ImportOperatorProxy [0%N; 2%N] [mkObjectReference "bucket" "key.parquet" "etag" None]
    (Some (ParquetOptions (mkParquetFormatReaderOptions false None (Some [0%N; 2%N]) (Some [0; 1]%Z) None
             (Some example_predicate)))) 1.

Definition example_plan : Plan arrow_tree :=
  {[ 1%N := mkProxy example_import EmptyString EmptyString None None EmptyString EmptyString;
     2%N := mkProxy (FilterOperatorProxy example_predicate) EmptyString "pushed down" (Some 1%N) None EmptyString EmptyString;
     3%N := mkProxy (JoinOperatorProxy false kInner (Some (mkJoinOperatorPredicate 0 1 kEquals)) [])
              "join" EmptyString (Some 2%N) (Some 1%N) EmptyString EmptyString ]}.

Lemma example_lookup p x : example_plan !! p = Some x → p = 1%N ∨ p = 2%N ∨ p = 3%N.
Proof.
  unfold example_plan. intros Hx. destruct (decide (p = 1%N)); [auto|]. destruct (decide (p = 2%N)); [auto|].
  destruct (decide (p = 3%N)); [auto|]. by simplify_map_eq.
Qed.

Lemma example_sendable : sendable pretty example_plan 4 3%N.
Proof.
  assert (∀ p, plan_reachable example_plan 3%N p → is_Some (example_plan !! p)) as Hclosed.
  { induction 1 as [|p x q _ [y Hy] Hx Hq]; [by eexists|]. rewrite Hx in Hy. clear y Hy.
    destruct (example_lookup p x Hx) as [->|[->| ->]]; injection Hx as <-;
      repeat (apply elem_of_cons in Hq as [->|Hq]; [by eexists|]); by apply elem_of_nil in Hq. }
  split; [exact Hclosed| | |].
  - intros p q x y _ _ Hx Hy. pose proof (example_lookup p x Hx) as Hp. pose proof (example_lookup q y Hy) as Hq.
    destruct_or!; subst; injection Hx as <-; injection Hy as <-; try done; vm_compute; discriminate.
  - intros p x _ Hx. destruct (example_lookup p x Hx) as [->|[->| ->]]; by injection Hx as <-.
  - intros p x _ Hx. destruct (example_lookup p x Hx) as [->|[->| ->]]; injection Hx as <-.
    + split; [|by split]. split; [done|]. unfold valid_expression, valid_reference, valid_column_ids. cbn.
      repeat split; try done; repeat constructor; cbn; try done; lia.
    + split; [|by split]. split; [done|]. split; [done|]. cbn. lia.
    + split; [|by split]. split; [done|]. split; [by split|constructor].
Qed.

(** An export that consolidates its row groups. *)
Definition consolidating_plan : Plan arrow_tree :=
  {[ 1%N := mkProxy (ExportOperatorProxy (mkObjectReference "bucket" "key.parquet" EmptyString None) kParquet true)
              "export" EmptyString None None EmptyString EmptyString ]}.

Lemma consolidating_sendable : sendable pretty consolidating_plan 1 1%N.
Proof.
  assert (∀ p x, consolidating_plan !! p = Some x → p = 1%N) as Hone.
  { intros p x Hx. destruct (decide (p = 1%N)) as [|Hne]; [done|]. unfold consolidating_plan in Hx. by simplify_map_eq. }
  split.
  - induction 1 as [|p x q _ _ Hx Hq]; [by eexists|]. pose proof (Hone p x Hx) as ->. injection Hx as <-. by apply elem_of_nil in Hq.
  - intros p q x y _ _ Hx Hy _. by rewrite (Hone p x Hx), (Hone q y Hy).
  - intros p x _ Hx. pose proof (Hone p x Hx) as ->. by injection Hx as <-.
  - intros p x _ Hx. pose proof (Hone p x Hx) as ->. injection Hx as <-. split; [|by split]. split; [done|]. by split.
Qed.

(** A plan that is sent through documents whose [GetBool] is as documented, and one through
    documents whose [GetBool] is as the comments say: its export does not consolidate. *)
Lemma DeserializePqp_roundtrip_witness :
  (∃ text, SerializePqp (J:=doc) pretty example_plan 3%N = Ok text ∧
    ∃ m, DeserializePqp (J:=doc) 4 text = Ok (m, "join") ∧
      holds_plan pretty example_plan 3%N (arrived pretty example_plan) m) ∧
  let json := doc_Json_with commented_GetBool in
  ∃ text, SerializePqp (J:=doc) pretty consolidating_plan 1%N = Ok text ∧
    ∃ m x, DeserializePqp (J:=doc) 1 text = Ok (m, "export") ∧ m !! "export" = Some x ∧
      proxy_operator x =
        ExportOperatorProxy (mkObjectReference "bucket" "key.parquet" EmptyString None) kParquet false.
Proof.
  split.
  - destruct (example_plan !! 3%N) as [x|] eqn:Hx; [|discriminate Hx].
    destruct (DeserializePqp_roundtrip pretty example_plan 3%N x 4 Hx example_sendable) as (text & Htext & m & Hm & Hplan).
    exists text. split; [exact Htext|]. exists m. split; [|exact Hplan]. by injection Hx as <-.
  - intros json. destruct (consolidating_plan !! 1%N) as [x|] eqn:Hx; [|discriminate Hx].
    destruct (@DeserializePqp_roundtrip doc json commented_GetBool (doc_JsonLaws_with _) (doc_JsonText_with _) _ _ _ _ _ _
      pretty consolidating_plan 1%N x 1 Hx consolidating_sendable) as (text & Htext & m & Hm & Hplan).
    exists text. split; [exact Htext|]. exists m, (arrived (H0:=commented_GetBool) pretty consolidating_plan 1%N x).
    injection Hx as <-. split; [exact Hm|]. split; [|done]. apply Hplan. exists 1%N. eexists. split; [constructor|]. split; [done|]. by split.
Defined.
