(* ===== verification/PqpNodes.v ===== *)
(** * Operations on the nodes of a physical query plan

    The rest of [operator_proxy/*.cpp] and [pqp_utils.hpp]: the attributes that the optimizer
    asks for, the setters, copying with shared inputs kept shared, and breadth-first visits.
    A plan is a heap of proxies; pointers are of any countable type, so that the operations
    apply to the coordinator's plans as well as to deserialized ones. *)

From S2P Require Export OperatorProxy.

Local Open Scope string_scope.

(** ** Attributes *)
Section Operators.
Context {A : Type}.

Definition IsPipelineBreaker (op : ProxyOperator A) : bool :=
  match op with
  | AggregateOperatorProxy _ _ is_pipeline_breaker => is_pipeline_breaker
  | JoinOperatorProxy _ _ _ _ | LimitOperatorProxy _ | SortOperatorProxy _ | UnionOperatorProxy _ => true
  | AliasOperatorProxy _ _ | ExchangeOperatorProxy _ _ | ExportOperatorProxy _ _ _ | FilterOperatorProxy _
  | ImportOperatorProxy _ _ _ _ | PartitionOperatorProxy _ _ | ProjectionOperatorProxy _ => false
  end.

Definition RequiresRightInput (op : ProxyOperator A) : bool :=
  match op with JoinOperatorProxy _ _ _ _ | UnionOperatorProxy _ => true | _ => false end.

(** ** Setters of one class: a [static_pointer_cast] of another class is undefined behaviour *)
Definition SetToFullMerge (op : ProxyOperator A) : result (ProxyOperator A) :=
  match op with ExchangeOperatorProxy _ _ => Ok (ExchangeOperatorProxy kFullMerge 1) | _ => Err UndefinedBehaviour end.

Definition SetToPartialMerge (output_objects_count : Z) (op : ProxyOperator A) : result (ProxyOperator A) :=
  match op with
  | ExchangeOperatorProxy _ _ =>
      _ ← assert_ (1 <? output_objects_count)%Z AssertionFailed;
      Ok (ExchangeOperatorProxy kPartialMerge output_objects_count)
  | _ => Err UndefinedBehaviour
  end.

Definition SetTargetObject (target_object : ObjectReference) (export_format : FileFormat) (op : ProxyOperator A)
    : result (ProxyOperator A) :=
  match op with
  | ExportOperatorProxy _ _ consolidate_row_groups =>
      _ ← assert_ (bool_decide (etag target_object = EmptyString)) AssertionFailed;
      Ok (ExportOperatorProxy target_object export_format consolidate_row_groups)
  | _ => Err UndefinedBehaviour
  end.

Definition SetObjectReferences (object_references : list ObjectReference) (op : ProxyOperator A) : result (ProxyOperator A) :=
  match op with
  | ImportOperatorProxy column_ids _ options n => Ok (ImportOperatorProxy column_ids object_references options n)
  | _ => Err UndefinedBehaviour
  end.

(** Only for a proxy that has not created its operator. *)
Definition SetImportOptions (import_options : ImportOptions A) (op : ProxyOperator A) : result (ProxyOperator A) :=
  match op with
  | ImportOperatorProxy column_ids references _ n => Ok (ImportOperatorProxy column_ids references (Some import_options) n)
  | _ => Err UndefinedBehaviour
  end.

Definition SetOutputObjectsCount (output_objects_count : Z) (op : ProxyOperator A) : result (ProxyOperator A) :=
  match op with
  | ImportOperatorProxy column_ids references options _ =>
      _ ← assert_ (1 <=? output_objects_count)%Z AssertionFailed;
      Ok (ImportOperatorProxy column_ids references options output_objects_count)
  | _ => Err UndefinedBehaviour
  end.

Definition SetIsPipelineBreaker (is_pipeline_breaker : bool) (op : ProxyOperator A) : result (ProxyOperator A) :=
  match op with
  | AggregateOperatorProxy groupby aggregates _ => Ok (AggregateOperatorProxy groupby aggregates is_pipeline_breaker)
  | _ => Err UndefinedBehaviour
  end.

Definition SetImplementation (operator_type : OperatorType) (op : ProxyOperator A) : result (ProxyOperator A) :=
  match op with
  | JoinOperatorProxy _ mode primary secondary =>
      _ ← assert_ (bool_decide (operator_type = oHashJoin) || bool_decide (operator_type = oSortMergeJoin)) AssertionFailed;
      Ok (JoinOperatorProxy (bool_decide (operator_type = oSortMergeJoin)) mode primary secondary)
  | _ => Err UndefinedBehaviour
  end.

(** ** [OnDeepCopy]: the operator of the copy *)
Definition AggregateOperatorProxy_OnDeepCopy (groupby : list ColumnId) (aggregates : list expr) (is_pipeline_breaker : bool)
    : result (ProxyOperator A) :=
  Ok (AggregateOperatorProxy groupby (DeepCopy <$> aggregates) is_pipeline_breaker).

Definition AliasOperatorProxy_OnDeepCopy (column_ids : list ColumnId) (aliases : list string) : result (ProxyOperator A) :=
  make_proxy_operator (AliasOperatorProxy column_ids aliases).

Definition ExchangeOperatorProxy_OnDeepCopy (mode : ExchangeMode) (output_objects_count : Z) : result (ProxyOperator A) :=
  let exchange_proxy := ExchangeOperatorProxy kFullMerge 1 in
  match mode with
  | kFullMerge => Ok exchange_proxy
  | kPartialMerge => SetToPartialMerge output_objects_count exchange_proxy
  end.

Definition ExportOperatorProxy_OnDeepCopy (target_object : ObjectReference) (export_format : FileFormat)
    (consolidate_row_groups : bool) : result (ProxyOperator A) :=
  make_proxy_operator (ExportOperatorProxy target_object export_format consolidate_row_groups).

Definition FilterOperatorProxy_OnDeepCopy (predicate : expr) : result (ProxyOperator A) :=
  Ok (FilterOperatorProxy (DeepCopy predicate)).

Definition ImportOperatorProxy_OnDeepCopy (column_ids : list ColumnId) (object_references : list ObjectReference)
    (import_options : option (ImportOptions A)) (output_objects_count : Z) : result (ProxyOperator A) :=
  copy ← make_proxy_operator (ImportOperatorProxy column_ids object_references None unlimited_objects);
  copy ← SetOutputObjectsCount output_objects_count copy;
  match import_options with Some options => SetImportOptions options copy | None => Ok copy end.

Definition JoinOperatorProxy_OnDeepCopy (sort_merge : bool) (mode : JoinMode) (primary_predicate : option JoinOperatorPredicate)
    (secondary_predicates : list JoinOperatorPredicate) : result (ProxyOperator A) :=
  make_proxy_operator (JoinOperatorProxy sort_merge mode primary_predicate secondary_predicates).

Definition LimitOperatorProxy_OnDeepCopy (row_count : expr) : result (ProxyOperator A) :=
  Ok (LimitOperatorProxy (DeepCopy row_count)).

Definition PartitionOperatorProxy_OnDeepCopy (partitioning_function : PartitioningFunction) (sort_within_partition : bool)
    : result (ProxyOperator A) :=
  make_proxy_operator (PartitionOperatorProxy partitioning_function sort_within_partition).

Definition ProjectionOperatorProxy_OnDeepCopy (expressions : list expr) : result (ProxyOperator A) :=
  Ok (ProjectionOperatorProxy (DeepCopy <$> expressions)).

Definition SortOperatorProxy_OnDeepCopy (sort_definitions : list SortColumnDefinition) : result (ProxyOperator A) :=
  make_proxy_operator (SortOperatorProxy sort_definitions).

Definition UnionOperatorProxy_OnDeepCopy (mode : SetOperationMode) : result (ProxyOperator A) :=
  make_proxy_operator (UnionOperatorProxy mode).

Definition OnDeepCopy (op : ProxyOperator A) : result (ProxyOperator A) :=
  match op with
  | AggregateOperatorProxy groupby aggregates breaker => AggregateOperatorProxy_OnDeepCopy groupby aggregates breaker
  | AliasOperatorProxy column_ids aliases => AliasOperatorProxy_OnDeepCopy column_ids aliases
  | ExchangeOperatorProxy mode count => ExchangeOperatorProxy_OnDeepCopy mode count
  | ExportOperatorProxy target format consolidate => ExportOperatorProxy_OnDeepCopy target format consolidate
  | FilterOperatorProxy predicate => FilterOperatorProxy_OnDeepCopy predicate
  | ImportOperatorProxy column_ids references options count => ImportOperatorProxy_OnDeepCopy column_ids references options count
  | JoinOperatorProxy sort_merge mode primary secondary => JoinOperatorProxy_OnDeepCopy sort_merge mode primary secondary
  | LimitOperatorProxy row_count => LimitOperatorProxy_OnDeepCopy row_count
  | PartitionOperatorProxy function sort => PartitionOperatorProxy_OnDeepCopy function sort
  | ProjectionOperatorProxy expressions => ProjectionOperatorProxy_OnDeepCopy expressions
  | SortOperatorProxy definitions => SortOperatorProxy_OnDeepCopy definitions
  | UnionOperatorProxy mode => UnionOperatorProxy_OnDeepCopy mode
  end.

(** The inputs that [OnDeepCopy] passes on. *)
Definition copied_left {P} (op : ProxyOperator A) (left : option P) : option P :=
  match op with ImportOperatorProxy _ _ _ _ => None | _ => left end.
Definition copied_right {P} (op : ProxyOperator A) (right : option P) : option P :=
  if RequiresRightInput op then right else None.
End Operators.

(** The dispatch computes through them. *)
#[global] Arguments AggregateOperatorProxy_OnDeepCopy _ /.
#[global] Arguments AliasOperatorProxy_OnDeepCopy _ /.
#[global] Arguments ExchangeOperatorProxy_OnDeepCopy _ /.
#[global] Arguments ExportOperatorProxy_OnDeepCopy _ /.
#[global] Arguments FilterOperatorProxy_OnDeepCopy _ /.
#[global] Arguments ImportOperatorProxy_OnDeepCopy _ /.
#[global] Arguments JoinOperatorProxy_OnDeepCopy _ /.
#[global] Arguments LimitOperatorProxy_OnDeepCopy _ /.
#[global] Arguments PartitionOperatorProxy_OnDeepCopy _ /.
#[global] Arguments ProjectionOperatorProxy_OnDeepCopy _ /.
#[global] Arguments SortOperatorProxy_OnDeepCopy _ /.
#[global] Arguments UnionOperatorProxy_OnDeepCopy _ /.

(** ** Nodes *)
Section Nodes.
Context {A : Type} {P : Type} `{Countable P}.
Variable address_text : P → string.
Abbreviation Heap := (gmap P (Proxy A P)).

Definition set_operator (x : Proxy A P) (op : ProxyOperator A) : Proxy A P :=
  mkProxy op (identity_ x) (comment_ x) (LeftInput x) (RightInput x) (left_input_identity_ x) (right_input_identity_ x).

Definition SetIdentity (identity : string) (x : Proxy A P) : result (Proxy A P) :=
  _ ← assert_ (bool_decide (identity ≠ EmptyString)) AssertionFailed;
  Ok (mkProxy (proxy_operator x) identity (comment_ x) (LeftInput x) (RightInput x)
        (left_input_identity_ x) (right_input_identity_ x)).

Definition PrefixIdentity (prefix : string) (p : P) (x : Proxy A P) : result (Proxy A P) :=
  _ ← assert_ (bool_decide (prefix ≠ EmptyString)) AssertionFailed;
  SetIdentity (prefix +:+ "-" +:+ Identity address_text p x) x.

(** [static_pointer_cast] and a setter on the proxy at [p]. *)
Definition update_operator (p : P) (set : ProxyOperator A → result (ProxyOperator A)) (plan : Heap) : result Heap :=
  x ← deref plan p; op ← set (proxy_operator x); Ok (<[p := set_operator x op]> plan).

(** *** Counts.  A missing input is a null dereference. *)
Fixpoint OutputObjectsCount (fuel : nat) (plan : Heap) (p : P) : result Z :=
  match fuel with
  | O => Err OutOfFuel
  | S fuel =>
      x ← deref plan p;
      let count input := q ← of_option input UndefinedBehaviour; OutputObjectsCount fuel plan q in
      match proxy_operator x with
      | ExchangeOperatorProxy _ output_objects_count => Ok output_objects_count
      | ImportOperatorProxy _ references _ output_objects_count =>
          _ ← assert_ (bool_decide (references ≠ [])) AssertionFailed;
          Ok (Z.min (Z.of_nat (length references)) output_objects_count)
      | JoinOperatorProxy _ _ _ _ =>
          l ← count (LeftInput x); r ← count (RightInput x); Ok (Z.max l r)
      | _ => count (LeftInput x)
      end
  end.

Definition InputObjectsCount (fuel : nat) (plan : Heap) (p : P) : result Z :=
  x ← deref plan p;
  let count input := match input with Some q => OutputObjectsCount fuel plan q | None => Ok 0%Z end in
  l ← count (LeftInput x); r ← count (RightInput x); Ok (wrap_uint64 (l + r)).

Fixpoint OutputColumnsCount (fuel : nat) (plan : Heap) (p : P) : result nat :=
  match fuel with
  | O => Err OutOfFuel
  | S fuel =>
      x ← deref plan p;
      let count input := q ← of_option input UndefinedBehaviour; OutputColumnsCount fuel plan q in
      match proxy_operator x with
      | AggregateOperatorProxy groupby aggregates _ => Ok (length groupby + length aggregates)%nat
      | AliasOperatorProxy column_ids _ | ImportOperatorProxy column_ids _ _ _ => Ok (length column_ids)
      | JoinOperatorProxy _ _ _ _ => l ← count (LeftInput x); r ← count (RightInput x); Ok (l + r)%nat
      | ProjectionOperatorProxy expressions => Ok (length expressions)
      | UnionOperatorProxy _ =>
          l ← count (LeftInput x); r ← count (RightInput x);
          _ ← assert_ (l =? r)%nat AssertionFailed; Ok l
      | _ => count (LeftInput x)
      end
  end.

(** *** Copies.  [allocate] is the address of a new object, [copied_proxies] the map from the
    proxies to their copies. *)
Variable allocate : gset P → P.

Fixpoint Proxy_DeepCopy (fuel : nat) (p : P) (s : Heap * gmap P P) : result (P * (Heap * gmap P P)) :=
  match fuel with
  | O => Err OutOfFuel
  | S fuel =>
      match s.2 !! p with
      | Some copied => Ok (copied, s)
      | None =>
          let copy_input input (s : Heap * gmap P P) := match input with
            | Some q => '(c, s) ← Proxy_DeepCopy fuel q s; Ok (Some c, s) | None => Ok (None, s) end in
          x ← deref s.1 p;
          '(copied_left_input, s) ← copy_input (LeftInput x) s;
          '(copied_right_input, s) ← copy_input (RightInput x) s;
          op ← OnDeepCopy (proxy_operator x);
          let copied_proxy := mkProxy op (Identity address_text p x) (comment_ x)
            (copied_left op copied_left_input) (copied_right op copied_right_input) EmptyString EmptyString in
          let c := allocate (dom s.1) in
          Ok (c, (<[c := copied_proxy]> s.1, <[p := c]> s.2))
      end
  end.

(** *** Visits *)
Inductive PqpVisitation : Set := kVisitInputs | kDoNotVisitInputs.

Fixpoint VisitPqp {S} (heap : S → Heap) (visitor : P → S → result (PqpVisitation * S))
    (fuel : nat) (queue : list P) (visited : gset P) (s : S) : result S :=
  match queue, fuel with
  | [], _ => Ok s
  | _, O => Err OutOfFuel
  | operator_proxy :: queue, S fuel =>
      if decide (operator_proxy ∈ visited) then VisitPqp heap visitor fuel queue visited s else
      let visited := {[operator_proxy]} ∪ visited in
      '(visitation, s) ← visitor operator_proxy s;
      match visitation with
      | kVisitInputs =>
          x ← deref (heap s) operator_proxy;
          VisitPqp heap visitor fuel (queue ++ inputs x) visited s
      | kDoNotVisitInputs => VisitPqp heap visitor fuel queue visited s
      end
  end%list.

Definition visit_fuel (plan : Heap) : nat := S (2 * size plan).

Definition PqpFindLeaves (plan : Heap) (pqp : P) : result (list P) :=
  leaves ← VisitPqp (λ _, plan)
    (λ operator_proxy leaves,
       x ← deref plan operator_proxy;
       match LeftInput x with
       | Some _ => Ok (kVisitInputs, leaves)
       | None => Ok (kDoNotVisitInputs, leaves ++ [operator_proxy])%list
       end) (visit_fuel plan) [pqp] ∅ [];
  _ ← assert_ (bool_decide (leaves ≠ [])) AssertionFailed;
  Ok leaves.

Definition PrefixOperatorProxyIdentities (plan : Heap) (pqp : P) (prefix : string) : result Heap :=
  VisitPqp id
    (λ operator_proxy plan,
       x ← deref plan operator_proxy;
       x ← PrefixIdentity prefix operator_proxy x;
       Ok (kVisitInputs, <[operator_proxy := x]> plan)) (visit_fuel plan) [pqp] ∅ plan.
End Nodes.
