(* ===== verification/PqpNodesCorrect.v ===== *)
(** * Copies and visits of plans

    [DeepCopy] yields an isomorphic plan at fresh addresses and leaves the original alone;
    [VisitPqp] visits every reachable proxy exactly once, so [PqpFindLeaves] returns each leaf
    once and [PrefixOperatorProxyIdentities] prefixes each identity once. *)

From S2P Require Export PqpNodes.

Local Open Scope string_scope.

(** ** Breadth-first search on a graph *)
Section Bfs.
Context {P : Type} `{Countable P} (next : P → list P).

Fixpoint bfs (fuel : nat) (queue : list P) (visited : gset P) : option (list P) :=
  match queue, fuel with
  | [], _ => Some []
  | _, O => None
  | p :: queue, S fuel =>
      if decide (p ∈ visited) then bfs fuel queue visited
      else (p ::.) <$> bfs fuel (queue ++ next p) ({[p]} ∪ visited)
  end%list.

Inductive leads (root : P) : P → Prop :=
  | leads_root : leads root root
  | leads_next p q : leads root p → q ∈ next p → leads root q.

(** The vertices, closed under [next], and a bound of them. *)
Variables (vertex : P → Prop) (vertices : gset P).
Hypothesis bounded : ∀ p, vertex p → p ∈ vertices.
Hypothesis closed : ∀ p q, vertex p → q ∈ next p → vertex q.
Variable degree : nat.
Hypothesis bounded_degree : ∀ p, (length (next p) <= degree)%nat.

(** What a run from [queue] with [visited] lists. *)
Record lists (queue : list P) (visited : gset P) (l : list P) : Prop := {
  lists_nodup : NoDup l;
  lists_new p : p ∈ l → p ∉ visited;
  lists_queue p : p ∈ queue → p ∈ visited ∨ p ∈ l;
  lists_closed p q : p ∈ l → q ∈ next p → q ∈ visited ∨ q ∈ l;
  lists_vertices p : p ∈ l → vertex p;
  lists_leads p : p ∈ l → ∃ q, q ∈ queue ∧ leads q p }.

Lemma leads_step p q r : q ∈ next p → leads q r → leads p r.
Proof. intros Hq. induction 1 as [|r s _ IH Hs]; [by eapply leads_next; [apply leads_root|]|by eapply leads_next]. Qed.

Lemma lists_nil (visited : gset P) : lists [] visited [].
Proof. split; [constructor|..]; intros; exfalso; by eapply elem_of_nil. Qed.

Lemma lists_skip p queue visited l : p ∈ visited → lists queue visited l → lists (p :: queue) visited l.
Proof.
  intros Hp [L1 L2 L3 L4 L5 L6]. split; try done.
  - intros q [->|Hq]%elem_of_cons; auto.
  - intros q Hq. destruct (L6 q Hq) as (r & Hr & ?). exists r. split; [by right|done].
Qed.

Lemma lists_visit p queue visited l :
  p ∉ visited → vertex p → lists (queue ++ next p) ({[p]} ∪ visited) l → lists (p :: queue) visited (p :: l).
Proof.
  intros Hp Hv [L1 L2 L3 L4 L5 L6].
  assert (∀ q, q ∈ ({[p]} ∪ visited : gset P) ∨ q ∈ l → q ∈ visited ∨ q ∈ p :: l) as Hcase.
  { intros q [[->%elem_of_singleton|]%elem_of_union|]; [right; by left|by left|right; by right]. }
  split.
  - constructor; [|done]. intros Hl. apply L2 in Hl. apply Hl, elem_of_union_l. by apply elem_of_singleton.
  - intros q [->|Hq]%elem_of_cons; [done|]. intros Hqv. apply (L2 q Hq). by apply elem_of_union_r.
  - intros q [->|Hq]%elem_of_cons; [right; by left|]. apply Hcase, L3, elem_of_app. by left.
  - intros q r [->|Hq]%elem_of_cons Hr; apply Hcase; [apply L3, elem_of_app; by right|by eapply L4].
  - intros q [->|Hq]%elem_of_cons; auto.
  - intros q [->|Hq]%elem_of_cons; [exists p; split; [by left|constructor]|].
    destruct (L6 q Hq) as (r & [Hr|Hr]%elem_of_app & Hl).
    + exists r. split; [by right|done].
    + exists p. split; [by left|by eapply leads_step].
Qed.

Lemma unvisited_decreases p (visited : gset P) :
  p ∈ vertices → p ∉ visited → (S (size (vertices ∖ ({[p]} ∪ visited))) <= size (vertices ∖ visited))%nat.
Proof.
  intros Hp Hv. apply subset_size. split; [set_solver|]. intros Hs. specialize (Hs p). set_solver.
Qed.

(** [degree * |unvisited| + |queue|] decreases. *)
Lemma bfs_total fuel queue (visited : gset P) :
  (∀ p, p ∈ queue → vertex p) → (length queue + degree * size (vertices ∖ visited) <= fuel)%nat →
  ∃ l, bfs fuel queue visited = Some l ∧ lists queue visited l.
Proof.
  revert queue visited. induction fuel as [|fuel IH]; intros [|p queue] visited Hq Hf; cbn in Hf; try lia;
    try (exists []; split; [done|apply lists_nil]).
  cbn. destruct (decide (p ∈ visited)) as [Hp|Hp].
  - destruct (IH queue visited) as (l & -> & Hl); [intros q ?; apply Hq; by right|lia|].
    exists l. split; [done|by apply lists_skip].
  - assert (vertex p) as Hv by (apply Hq; by left). pose proof (unvisited_decreases p visited (bounded p Hv) Hp).
    destruct (IH (queue ++ next p)%list ({[p]} ∪ visited)) as (l & -> & Hl).
    + intros q [Hqq|Hqn]%elem_of_app; [apply Hq; by right|by eapply closed].
    + rewrite length_app. pose proof (bounded_degree p). nia.
    + exists (p :: l). split; [done|by apply lists_visit].
Qed.

Lemma bfs_root root fuel :
  vertex root → (S (degree * size vertices) <= fuel)%nat →
  ∃ l, bfs fuel [root] ∅ = Some l ∧ NoDup l ∧ (∀ p, p ∈ l → vertex p) ∧ ∀ p, p ∈ l ↔ leads root p.
Proof.
  intros Hroot Hf. destruct (bfs_total fuel [root] ∅) as (l & Hl & [L1 _ L3 L4 L5 L6]).
  - by intros p ->%list_elem_of_singleton.
  - rewrite difference_empty_L. cbn. lia.
  - exists l. split; [done|]. split; [done|]. split; [done|]. intros p. split.
    + intros Hp. destruct (L6 p Hp) as (q & ->%list_elem_of_singleton & ?). done.
    + induction 1 as [|p q _ IH Hq].
      * destruct (L3 root) as [[]%not_elem_of_empty|]; [by left|done].
      * by destruct (L4 p q IH Hq) as [[]%not_elem_of_empty|].
Qed.
End Bfs.

(** ** Plans *)
Section Plans.
Context {A : Type} {P : Type} `{Countable P}.
Abbreviation Heap := (gmap P (Proxy A P)).

(** Every pointer of the plan leads to a proxy, a right input comes with a left one, and imports have
    no inputs and only joins and unions two. *)
Record well_formed (plan : Heap) (root : P) : Prop := {
  wf_closed p : plan_reachable plan root p → is_Some (plan !! p);
  wf_left p x : plan_reachable plan root p → plan !! p = Some x → LeftInput x = None → RightInput x = None;
  wf_arity p x : plan_reachable plan root p → plan !! p = Some x →
    copied_left (proxy_operator x) (LeftInput x) = LeftInput x ∧ copied_right (proxy_operator x) (RightInput x) = RightInput x }.

(** [rank] witnesses that the plan has no cycle. *)
Definition ranked (plan : Heap) (root : P) (rank : P → nat) : Prop :=
  ∀ p x q, plan_reachable plan root p → plan !! p = Some x → q ∈ inputs x → (rank q < rank p)%nat.

Definition acyclic (plan : Heap) (root : P) (n : nat) : Prop := ∃ rank, ranked plan root rank ∧ (rank root < n)%nat.

Definition leaf (plan : Heap) (root p : P) : Prop :=
  plan_reachable plan root p ∧ ∃ x, plan !! p = Some x ∧ inputs x = [].

Lemma inputs_length (x : Proxy A P) : (length (inputs x) <= 2)%nat.
Proof. unfold inputs. by destruct (LeftInput x), (RightInput x); cbn; lia. Qed.

(** ** [VisitPqp] *)
Section Visit.
Context {S : Type} (heap : S → Heap) (visitor : P → S → result (PqpVisitation * S)).
Context (visit : S → P → S) (next : P → list P) (vertex : P → Prop) (inv : S → Prop).
Hypothesis closed : ∀ p q, vertex p → q ∈ next p → vertex q.
Hypothesis visitor_spec : ∀ s p, inv s → vertex p →
  ∃ v, visitor p s = Ok (v, visit s p) ∧ inv (visit s p) ∧
    match v with
    | kVisitInputs => ∃ x, heap (visit s p) !! p = Some x ∧ inputs x = next p
    | kDoNotVisitInputs => next p = []
    end.

Lemma VisitPqp_bfs fuel queue visited s l :
  inv s → (∀ p, p ∈ queue → vertex p) → bfs next fuel queue visited = Some l →
  VisitPqp heap visitor fuel queue visited s = Ok (foldl visit s l) ∧ inv (foldl visit s l).
Proof.
  revert queue visited s l. induction fuel as [|fuel IH]; intros [|p queue] visited s l Hs Hq Hl; try done;
    try by injection Hl as <-.
  cbn [bfs VisitPqp] in *. destruct (decide (p ∈ visited)) as [Hp|Hp].
  - apply IH; [done| |done]. intros q ?. apply Hq. by right.
  - destruct (bfs next fuel _ _) as [l'|] eqn:Hl'; [|done]. injection Hl as <-.
    assert (vertex p) as Hv by (apply Hq; by left).
    destruct (visitor_spec s p Hs Hv) as (v & -> & Hs' & Hnext). cbn [rbind fst snd foldl].
    destruct v.
    + destruct Hnext as (x & Hx & Hin). unfold deref. rewrite Hx. cbn [of_option rbind]. rewrite Hin.
      apply IH; [done| |done]. intros q [Hqq|Hqn]%elem_of_app; [apply Hq; by right|by eapply closed].
    + apply IH; [done| |by rewrite Hnext, app_nil_r in Hl']. intros q ?. apply Hq. by right.
Qed.
End Visit.

Lemma leads_reachable (plan : Heap) root next :
  (∀ p x, plan_reachable plan root p → plan !! p = Some x → ∀ q, q ∈ next p ↔ q ∈ inputs x) →
  (∀ p, plan_reachable plan root p → is_Some (plan !! p)) →
  ∀ p, leads next root p ↔ plan_reachable plan root p.
Proof.
  intros Hnext Hclosed p. split.
  - induction 1 as [|p q _ IH Hq]; [constructor|]. destruct (Hclosed p IH) as [x Hx].
    eapply plan_reachable_input; [done|done|]. by eapply Hnext.
  - induction 1 as [|p x q Hp IH Hx Hq]; [constructor|]. eapply leads_next; [done|]. by eapply Hnext.
Qed.

(** ** Leaves and prefixes *)
Section Visits.
Variables (plan : Heap) (root : P).
Hypothesis Hwf : well_formed plan root.

Definition edges (p : P) : list P := match plan !! p with Some x => inputs x | None => [] end.

Lemma edges_some p x : plan !! p = Some x → edges p = inputs x.
Proof. unfold edges. by intros ->. Qed.

Lemma edges_closed p q : plan_reachable plan root p → q ∈ edges p → plan_reachable plan root q.
Proof.
  intros Hp Hq. destruct (wf_closed _ _ Hwf p Hp) as [x Hx]. rewrite (edges_some p x Hx) in Hq.
  by eapply plan_reachable_input.
Qed.

(** The order of a visit of the whole plan. *)
Lemma visit_order :
  ∃ l, bfs edges (visit_fuel plan) [root] ∅ = Some l ∧ NoDup l ∧ ∀ p, p ∈ l ↔ plan_reachable plan root p.
Proof.
  destruct (bfs_root edges (plan_reachable plan root) (dom plan)) with (degree := 2%nat) (root := root) (fuel := visit_fuel plan)
    as (l & Hl & Hnd & _ & Hin).
  - intros p Hp. apply elem_of_dom. by apply (wf_closed _ _ Hwf).
  - apply edges_closed.
  - intros p. unfold edges. destruct (plan !! p); [apply inputs_length|cbn; lia].
  - constructor.
  - unfold visit_fuel. rewrite size_dom. lia.
  - exists l. split; [done|]. split; [done|]. intros p. rewrite Hin. apply leads_reachable; [|apply (wf_closed _ _ Hwf)].
    intros q x _ Hx r. by rewrite (edges_some q x Hx).
Qed.

Lemma inputs_left x p : plan_reachable plan root p → plan !! p = Some x → LeftInput x = None → inputs x = [].
Proof. intros Hp Hx Hl. unfold inputs. by rewrite Hl, (wf_left _ _ Hwf p x Hp Hx Hl). Qed.

Lemma foldl_filter {B} (Q : B → Prop) `{∀ b, Decision (Q b)} (k l : list B) :
  foldl (λ k b, if decide (Q b) then k ++ [b] else k)%list k l = (k ++ filter Q l)%list.
Proof.
  revert k. induction l as [|b l IH]; intros k; cbn [foldl]; [by rewrite filter_nil, app_nil_r|]. rewrite IH, filter_cons.
  destruct (decide (Q b)); [by rewrite <- app_assoc|done].
Qed.

Lemma leaf_exists rank p :
  ranked plan root rank → plan_reachable plan root p → ∃ q, leaf plan root q.
Proof.
  intros Hrank. remember (rank p) as n eqn:Hn. revert p Hn. induction (lt_wf n) as [n _ IH]. intros p -> Hp.
  destruct (wf_closed _ _ Hwf p Hp) as [x Hx]. destruct (inputs x) as [|q qs] eqn:Hq; [by exists p; split; [|exists x]|].
  assert (q ∈ inputs x) as Hin by (rewrite Hq; by left).
  eapply (IH (rank q)); [by eapply Hrank|done|by eapply plan_reachable_input].
Qed.

Lemma PqpFindLeaves_spec rank :
  ranked plan root rank →
  ∃ leaves, PqpFindLeaves plan root = Ok leaves ∧ NoDup leaves ∧ ∀ p, p ∈ leaves ↔ leaf plan root p.
Proof.
  intros Hrank. destruct visit_order as (l & Hl & Hnd & Hin). unfold PqpFindLeaves.
  destruct (VisitPqp_bfs (λ _, plan)
    (λ operator_proxy leaves,
       x ← deref plan operator_proxy;
       match LeftInput x with
       | Some _ => Ok (kVisitInputs, leaves)
       | None => Ok (kDoNotVisitInputs, leaves ++ [operator_proxy])%list
       end)
    (λ k p, if decide (edges p = []) then k ++ [p] else k)%list edges (plan_reachable plan root) (λ _, True)
    edges_closed) with (fuel := visit_fuel plan) (queue := [root]) (visited := ∅ : gset P) (s := @nil P) (l := l)
    as [-> _]; try done.
  - intros k p _ Hp. destruct (wf_closed _ _ Hwf p Hp) as [x Hx]. unfold deref. rewrite Hx. cbn [of_option rbind].
    rewrite (edges_some p x Hx). destruct (LeftInput x) as [q|] eqn:Hleft.
    + exists kVisitInputs. rewrite decide_False by (unfold inputs; by rewrite Hleft). split; [done|]. split; [done|]. by exists x.
    + exists kDoNotVisitInputs. rewrite decide_True by by eapply inputs_left. split; [done|]. split; [done|]. by eapply inputs_left.
  - intros p ->%list_elem_of_singleton. constructor.
  - cbn [rbind]. rewrite foldl_filter, app_nil_l.
    assert (∀ p, p ∈ filter (λ p, edges p = []) l ↔ leaf plan root p) as Hleaf.
    { intros p. rewrite list_elem_of_filter, Hin. unfold leaf. split.
      - intros [He Hp]. split; [done|]. destruct (wf_closed _ _ Hwf p Hp) as [x Hx]. exists x. by rewrite <- (edges_some p x Hx).
      - intros [Hp (x & Hx & He)]. by rewrite (edges_some p x Hx). }
    rewrite bool_decide_true.
    + eexists. split; [reflexivity|]. split; [by apply NoDup_filter|done].
    + destruct (leaf_exists rank root Hrank) as [q Hq]; [constructor|]. intros Hnil. apply Hleaf in Hq. rewrite Hnil in Hq.
      by apply elem_of_nil in Hq.
Qed.

(** *** Prefixes *)
Variables (address_text : P → string) (prefix : string).
Hypothesis Hprefix : prefix ≠ EmptyString.

Definition prefixed (p : P) (x : Proxy A P) : Proxy A P :=
  mkProxy (proxy_operator x) (prefix +:+ "-" +:+ Identity address_text p x) (comment_ x) (LeftInput x) (RightInput x)
    (left_input_identity_ x) (right_input_identity_ x).

Lemma PrefixIdentity_ok p (x : Proxy A P) : PrefixIdentity address_text prefix p x = Ok (prefixed p x).
Proof.
  unfold PrefixIdentity, SetIdentity. rewrite bool_decide_true by done. cbn [assert_ rbind].
  rewrite bool_decide_true; [done|]. by destruct prefix.
Qed.

Lemma foldl_alter {V} (f : P → V → V) (m : gmap P V) l p :
  NoDup l → foldl (λ m p, alter (f p) p m) m l !! p = if decide (p ∈ l) then f p <$> m !! p else m !! p.
Proof.
  revert m. induction l as [|q l IH]; intros m Hnd; cbn [foldl].
  - by rewrite decide_False by apply not_elem_of_nil.
  - apply NoDup_cons in Hnd as [Hq Hnd]. rewrite IH by done. destruct (decide (p = q)) as [->|Hne].
    + rewrite decide_False, lookup_alter_eq by done. by rewrite decide_True by by left.
    + rewrite lookup_alter_ne by done.
      destruct (decide (p ∈ l)); [by rewrite decide_True by by right|].
      rewrite decide_False; [done|]. by intros [|]%elem_of_cons.
Qed.

Lemma PrefixOperatorProxyIdentities_spec :
  ∃ plan', PrefixOperatorProxyIdentities address_text plan root prefix = Ok plan' ∧
    (∀ p, plan_reachable plan root p → plan' !! p = prefixed p <$> plan !! p) ∧
    (∀ p, ¬ plan_reachable plan root p → plan' !! p = plan !! p).
Proof.
  destruct visit_order as (l & Hl & Hnd & Hin). unfold PrefixOperatorProxyIdentities.
  destruct (VisitPqp_bfs id
    (λ operator_proxy plan,
       x ← deref plan operator_proxy;
       x ← PrefixIdentity address_text prefix operator_proxy x;
       Ok (kVisitInputs, <[operator_proxy := x]> plan))
    (λ s p, alter (prefixed p) p s) edges (plan_reachable plan root) (λ s, ∀ p, inputs <$> s !! p = inputs <$> plan !! p)
    edges_closed) with (fuel := visit_fuel plan) (queue := [root]) (visited := ∅ : gset P) (s := plan) (l := l)
    as [-> _]; try done.
  - intros s p Hs Hp. destruct (wf_closed _ _ Hwf p Hp) as [x Hx]. specialize (Hs p) as Hsp. rewrite Hx in Hsp.
    destruct (s !! p) as [y|] eqn:Hy; [|done]. cbn in Hsp. injection Hsp as Hyx. exists kVisitInputs.
    unfold deref. rewrite Hy. cbn [of_option rbind]. rewrite PrefixIdentity_ok. cbn [rbind].
    assert (alter (prefixed p) p s = <[p:=prefixed p y]> s) as ->.
    { apply map_eq. intros q. destruct (decide (p = q)) as [->|].
      - by rewrite lookup_alter_eq, lookup_insert_eq, Hy.
      - by rewrite lookup_alter_ne, lookup_insert_ne. }
    split; [done|]. split.
    + intros q. destruct (decide (p = q)) as [->|]; [|by rewrite lookup_insert_ne].
      rewrite lookup_insert_eq, Hx. cbn. by rewrite <- Hyx.
    + exists (prefixed p y). unfold id. rewrite lookup_insert_eq. split; [done|]. by rewrite (edges_some p x Hx).
  - intros p ->%list_elem_of_singleton. constructor.
  - eexists. split; [reflexivity|]. split; intros p Hp; rewrite foldl_alter by done.
    + by rewrite decide_True by by apply Hin.
    + by rewrite decide_False by by rewrite Hin.
Qed.
End Visits.

(** ** [DeepCopy] *)
Section Copy.
Variables (address_text : P → string) (allocate : gset P → P).
Hypothesis Hallocate : ∀ s, allocate s ∉ s.
Variables (plan : Heap) (root : P) (rank : P → nat).
Hypothesis Hwf : well_formed plan root.
Hypothesis Hrank : ranked plan root rank.
Hypothesis Hcopyable : ∀ p x, plan_reachable plan root p → plan !! p = Some x → is_ok (OnDeepCopy (proxy_operator x)) = true.

Definition copied_operator (op : ProxyOperator A) : ProxyOperator A :=
  match OnDeepCopy op with Ok op' => op' | Err _ => op end.

(** The copy of the proxy at [p] when [m] maps proxies to their copies. *)
Definition copy_node (m : gmap P P) (p : P) (x : Proxy A P) : Proxy A P :=
  mkProxy (copied_operator (proxy_operator x)) (Identity address_text p x) (comment_ x)
    (copied_left (proxy_operator x) (LeftInput x ≫= (m !!.)))
    (copied_right (proxy_operator x) (RightInput x ≫= (m !!.))) EmptyString EmptyString.

(** The state of a copy: the original is untouched, and the copies are at fresh addresses. *)
Record copied (h : Heap) (m : gmap P P) : Prop := {
  cp_original : plan ⊆ h;
  cp_dom c : c ∈ dom h ↔ c ∈ dom plan ∨ ∃ p, m !! p = Some c;
  cp_fresh p c : m !! p = Some c → c ∉ dom plan;
  cp_inj p q c : m !! p = Some c → m !! q = Some c → p = q;
  cp_node p c : m !! p = Some c → ∃ x, plan_reachable plan root p ∧ plan !! p = Some x ∧
    (∀ q, q ∈ inputs x → is_Some (m !! q)) ∧ h !! c = Some (copy_node m p x) }.

Lemma OnDeepCopy_shape (op op' : ProxyOperator A) :
  OnDeepCopy op = Ok op' → ∀ (l r : option P), copied_left op' l = copied_left op l ∧ copied_right op' r = copied_right op r.
Proof.
  intros Hop l r. destruct op; cbn in Hop; try (injection Hop as <-; by split);
    try (apply bind_ok in Hop as ([] & _ & [= <-]); by split).
  - destruct mode; cbn in Hop; [injection Hop as <-|apply bind_ok in Hop as ([] & _ & [= <-])]; by split.
  - apply bind_ok in Hop as (c & Hc & Hop). apply bind_ok in Hc as ([] & _ & [= <-]). cbn in Hop.
    apply bind_ok in Hop as (c & Hc & Hop). apply bind_ok in Hc as ([] & _ & [= <-]). cbn in Hop.
    destruct import_options; injection Hop as <-; by split.
Qed.

Lemma copy_node_ext (m m' : gmap P P) p x :
  (∀ q, q ∈ inputs x → m !! q = m' !! q) → copy_node m p x = copy_node m' p x.
Proof.
  intros Hm. unfold copy_node. f_equal.
  - destruct (LeftInput x) as [q|] eqn:Hq; [|done]. cbn. rewrite Hm; [done|]. unfold inputs. rewrite Hq. by left.
  - destruct (RightInput x) as [q|] eqn:Hq; [|done]. cbn. rewrite Hm; [done|]. unfold inputs. rewrite Hq.
    apply elem_of_app. right. by left.
Qed.

Lemma copied_insert h m p x :
  copied h m → m !! p = None → plan_reachable plan root p → plan !! p = Some x → (∀ q, q ∈ inputs x → is_Some (m !! q)) →
  copied (<[allocate (dom h) := copy_node m p x]> h) (<[p := allocate (dom h)]> m).
Proof.
  intros Hc Hp Hr Hx Hin. pose proof (Hallocate (dom h)) as Hnew. set (c := allocate (dom h)) in *.
  assert (∀ q d, m !! q = Some d → d ≠ c) as Hne.
  { intros q d Hq ->. apply Hnew, (cp_dom _ _ Hc). right. by exists q. }
  assert (∀ y : Proxy A P, (∀ q, q ∈ inputs y → is_Some (m !! q)) → ∀ q, q ∈ inputs y → m !! q = <[p:=c]> m !! q) as Hsame.
  { intros y Hy q Hq. destruct (Hy q Hq) as [d Hd]. rewrite lookup_insert_ne; [done|]. intros ->. by rewrite Hp in Hd. }
  assert (c ∉ dom plan) as Hcp by (intros Hd; apply Hnew, (cp_dom _ _ Hc); by left).
  split.
  - transitivity h; [apply (cp_original _ _ Hc)|]. apply insert_subseteq. by apply not_elem_of_dom.
  - intros d. rewrite dom_insert, elem_of_union, elem_of_singleton, (cp_dom _ _ Hc). split.
    + intros [->|[Hd|[q Hq]]]; [right; exists p; by rewrite lookup_insert_eq|by left|].
      right. exists q. rewrite lookup_insert_ne; [done|]. intros ->. by rewrite Hp in Hq.
    + intros [Hd|[q Hq]]; [auto|]. apply lookup_insert_Some in Hq as [[_ <-]|[_ Hq]]; [auto|]. right; right. by exists q.
  - intros q d [[_ <-]|[_ Hq]]%lookup_insert_Some; [done|by eapply (cp_fresh _ _ Hc)].
  - intros q r d [[Hpq Hcd]|[Hpq Hq]]%lookup_insert_Some [[Hpr Hcr]|[Hpr Hrd]]%lookup_insert_Some; subst; try done.
    + by apply Hne in Hrd.
    + by apply Hne in Hq.
    + by eapply (cp_inj _ _ Hc).
  - intros q d [[<- <-]|[Hpq Hq]]%lookup_insert_Some.
    + exists x. split; [done|]. split; [done|]. split.
      * intros q Hq. rewrite <- (Hsame x Hin q Hq). by apply Hin.
      * rewrite lookup_insert_eq. f_equal. apply copy_node_ext. by apply Hsame.
    + destruct (cp_node _ _ Hc q d Hq) as (y & Hry & Hy & Hiny & Hd). exists y. split; [done|]. split; [done|]. split.
      * intros r Hr'. rewrite <- (Hsame y Hiny r Hr'). by apply Hiny.
      * rewrite lookup_insert_ne by (by intros <-; eapply Hne). rewrite Hd. f_equal. apply copy_node_ext. by apply Hsame.
Qed.

(** What a call for [p] does to a state; new entries rank below [n]. *)
Definition grows (n : nat) (s s' : Heap * gmap P P) : Prop :=
  copied s'.1 s'.2 ∧ s.1 ⊆ s'.1 ∧ s.2 ⊆ s'.2 ∧ ∀ q, is_Some (s'.2 !! q) → is_Some (s.2 !! q) ∨ (rank q < n)%nat.

Lemma grows_trans n1 n2 n s1 s2 s3 :
  (n1 <= n)%nat → (n2 <= n)%nat → grows n1 s1 s2 → grows n2 s2 s3 → grows n s1 s3.
Proof.
  intros Hn1 Hn2 (H1 & H2 & H3 & H4) (K1 & K2 & K3 & K4). split; [done|]. split; [by transitivity s2.1|].
  split; [by transitivity s2.2|]. intros q [Hq|Hq]%K4; [apply H4 in Hq as [|]; [by left|right; lia]|right; lia].
Qed.

Lemma Proxy_DeepCopy_grows fuel p s :
  (rank p < fuel)%nat → plan_reachable plan root p → copied s.1 s.2 →
  ∃ c s', Proxy_DeepCopy address_text allocate fuel p s = Ok (c, s') ∧ grows (S (rank p)) s s' ∧ s'.2 !! p = Some c.
Proof.
  revert p s. induction fuel as [|fuel IH]; intros p s Hf Hp Hs; [lia|]. cbn [Proxy_DeepCopy].
  destruct (s.2 !! p) as [c|] eqn:Hc.
  { exists c, s. split; [done|]. split; [|done]. split; [done|]. split; [done|]. split; [done|]. auto. }
  destruct (wf_closed _ _ Hwf p Hp) as [x Hx].
  assert (s.1 !! p = Some x) as Hhx by (eapply lookup_weaken; [exact Hx|apply (cp_original _ _ Hs)]).
  unfold deref. rewrite Hhx. cbn [of_option rbind].
  set (copy_input := λ (input : option P) (s : Heap * gmap P P),
    match input with
    | Some q => '(c, s) ← Proxy_DeepCopy address_text allocate fuel q s; Ok (Some c, s)
    | None => Ok (None, s)
    end).
  assert (∀ input s1, (∀ q, input = Some q → q ∈ inputs x) → copied s1.1 s1.2 →
    ∃ s2, copy_input input s1 = Ok (input ≫= (s2.2 !!.), s2) ∧ grows (rank p) s1 s2 ∧
      ∀ q, input = Some q → is_Some (s2.2 !! q)) as Hinput.
  { intros [q|] s1 Hq Hs1; cbn.
    - assert (q ∈ inputs x) as Hqx by auto. pose proof (Hrank p x q Hp Hx Hqx).
      destruct (IH q s1) as (c & s2 & -> & Hg & Hcq); [lia|by eapply plan_reachable_input|done|].
      exists s2. cbn. rewrite Hcq. split; [done|]. split; [|intros r [= <-]; by exists c].
      destruct Hg as (G1 & G2 & G3 & G4). do 3 (split; [done|]). intros r Hr. destruct (G4 r Hr); [by left|right; lia].
    - exists s1. split; [done|]. split; [|done]. do 3 (split; [done|]). auto. }
  change (match LeftInput x with Some q => _ | None => _ end) with (copy_input (LeftInput x) s).
  destruct (Hinput (LeftInput x) s) as (s2 & -> & Hg2 & Hl2); [|done|].
  { intros q Hq. unfold inputs. rewrite Hq. by left. }
  cbn [rbind]. change (match RightInput x with Some q => _ | None => _ end) with (copy_input (RightInput x) s2).
  destruct (Hinput (RightInput x) s2) as (s3 & -> & Hg3 & Hr3); [|apply Hg2|].
  { intros q Hq. unfold inputs. rewrite Hq. apply elem_of_app. right. by left. }
  cbn [rbind]. destruct (OnDeepCopy (proxy_operator x)) as [op|e] eqn:Hop;
    [|specialize (Hcopyable p x Hp Hx); by rewrite Hop in Hcopyable].
  cbn [rbind]. destruct (OnDeepCopy_shape _ _ Hop (LeftInput x ≫= (s2.2 !!.)) (RightInput x ≫= (s3.2 !!.))) as [-> ->].
  assert (LeftInput x ≫= (s2.2 !!.) = LeftInput x ≫= (s3.2 !!.)) as ->.
  { destruct (LeftInput x) as [q|] eqn:Hq; [|done]. cbn. destruct (Hl2 q eq_refl) as [c Hcq]. rewrite Hcq. symmetry.
    eapply lookup_weaken; [exact Hcq|apply Hg3]. }
  assert (op = copied_operator (proxy_operator x)) as -> by (unfold copied_operator; by rewrite Hop).
  pose proof (grows_trans _ _ (rank p) _ _ _ (le_n _) (le_n _) Hg2 Hg3) as (G1 & G2 & G3 & G4).
  assert (s3.2 !! p = None) as Hp3.
  { destruct (s3.2 !! p) as [c|] eqn:Hc3; [|done]. destruct (G4 p) as [Hsome|Hle]; [by exists c|by rewrite Hc in Hsome; destruct Hsome|].
    lia. }
  assert (∀ q, q ∈ inputs x → is_Some (s3.2 !! q)) as Hin3.
  { unfold inputs. intros q [Hq|Hq]%elem_of_app.
    - destruct (LeftInput x) as [l|]; [|by apply elem_of_nil in Hq]. apply list_elem_of_singleton in Hq as ->.
      destruct (Hl2 l eq_refl) as [c Hcl]. exists c. eapply lookup_weaken; [exact Hcl|apply Hg3].
    - destruct (RightInput x) as [r|]; [|by apply elem_of_nil in Hq]. apply list_elem_of_singleton in Hq as ->. by apply Hr3. }
  pose proof (copied_insert _ _ p x G1 Hp3 Hp Hx Hin3) as Hnew.
  eexists _, _. split; [reflexivity|]. split; [|cbn; by rewrite lookup_insert_eq].
  split; [exact Hnew|]. cbn [fst snd]. split; [|split].
  - etransitivity; [exact G2|]. apply insert_subseteq, not_elem_of_dom. apply Hallocate.
  - etransitivity; [exact G3|]. by apply insert_subseteq.
  - intros q Hq. destruct (decide (q = p)) as [->|Hne]; [right; lia|]. rewrite lookup_insert_ne in Hq by done.
    destruct (G4 q Hq); [by left|right; lia].
Qed.

(** The copy of the whole plan. *)
Lemma Proxy_DeepCopy_spec fuel :
  (rank root < fuel)%nat →
  ∃ c h m, Proxy_DeepCopy address_text allocate fuel root (plan, ∅) = Ok (c, (h, m)) ∧ copied h m ∧ m !! root = Some c ∧
    ∀ p, is_Some (m !! p) ↔ plan_reachable plan root p.
Proof.
  intros Hf. destruct (Proxy_DeepCopy_grows fuel root (plan, ∅)) as (c & [h m] & Hcopy & (Hc & _) & Hroot); [done|constructor| |].
  - split; [done| |by intros p c|by intros p q c|by intros p c].
    intros c. cbn. split; [by left|]. intros [|[p Hp]]; done.
  - exists c, h, m. split; [done|]. split; [done|]. split; [done|]. intros p. split.
    + intros [d Hd]. by destruct (cp_node _ _ Hc p d Hd) as (x & ? & _).
    + induction 1 as [|p x q _ [d Hd] Hx Hq]; [by exists c|].
      destruct (cp_node _ _ Hc p d Hd) as (y & _ & Hy & Hin & _). apply Hin. congruence.
Qed.

(** *** The copy as a plan *)
Section Copied.
Variables (h : Heap) (m : gmap P P) (c : P).
Hypothesis Hcopied : copied h m.
Hypothesis Hroot : m !! root = Some c.

Lemma copy_node_inputs p x :
  plan_reachable plan root p → plan !! p = Some x → LeftInput (copy_node m p x) = LeftInput x ≫= (m !!.) ∧
    RightInput (copy_node m p x) = RightInput x ≫= (m !!.).
Proof.
  intros Hp Hx. destruct (wf_arity _ _ Hwf p x Hp Hx) as [Hl Hr]. unfold copy_node, copied_left, copied_right in *. cbn.
  split.
  - destruct (proxy_operator x); try done. by rewrite <- Hl.
  - destruct (RequiresRightInput _); [done|]. by rewrite <- Hr.
Qed.

Lemma copy_node_input p x e :
  plan_reachable plan root p → plan !! p = Some x →
  e ∈ inputs (copy_node m p x) ↔ ∃ q, q ∈ inputs x ∧ m !! q = Some e.
Proof.
  intros Hp Hx. destruct (copy_node_inputs p x Hp Hx) as [Hl Hr]. unfold inputs at 1. rewrite Hl, Hr, elem_of_app.
  unfold inputs. setoid_rewrite elem_of_app. split.
  - intros [He|He].
    + destruct (LeftInput x) as [q|]; cbn in *; [|by apply elem_of_nil in He].
      destruct (m !! q) eqn:Hq; [|by apply elem_of_nil in He]. apply list_elem_of_singleton in He as ->. exists q.
      split; [left; by left|done].
    + destruct (RightInput x) as [q|]; cbn in *; [|by apply elem_of_nil in He].
      destruct (m !! q) eqn:Hq; [|by apply elem_of_nil in He]. apply list_elem_of_singleton in He as ->. exists q.
      split; [right; by left|done].
  - intros (q & [Hq|Hq] & He).
    + left. destruct (LeftInput x) as [l|]; cbn in *; [|by apply elem_of_nil in Hq].
      apply list_elem_of_singleton in Hq as ->. rewrite He. by left.
    + right. destruct (RightInput x) as [l|]; cbn in *; [|by apply elem_of_nil in Hq].
      apply list_elem_of_singleton in Hq as ->. rewrite He. by left.
Qed.

Lemma copy_reachable d : plan_reachable h c d ↔ ∃ p, plan_reachable plan root p ∧ m !! p = Some d.
Proof.
  split.
  - induction 1 as [|d y e _ (p & Hp & Hd) Hy He]; [exists root; split; [constructor|done]|].
    destruct (cp_node _ _ Hcopied p d Hd) as (x & _ & Hx & _ & Hn). rewrite Hn in Hy. injection Hy as <-.
    apply (copy_node_input p x e Hp Hx) in He as (q & Hq & He). exists q. split; [by eapply plan_reachable_input|done].
  - intros (p & Hp & Hd). revert d Hd. induction Hp as [|p x q Hp IH Hx Hq]; intros d Hd.
    + rewrite Hroot in Hd. injection Hd as <-. constructor.
    + assert (is_Some (m !! p)) as [e He].
      { clear -Hp Hcopied Hroot. induction Hp as [|p x q _ [e He] Hx Hq]; [by exists c|].
        destruct (cp_node _ _ Hcopied p e He) as (y & _ & Hy & Hin & _). apply Hin. congruence. }
      destruct (cp_node _ _ Hcopied p e He) as (y & _ & Hy & _ & Hn). rewrite Hx in Hy. injection Hy as <-.
      eapply plan_reachable_input; [by apply IH|exact Hn|]. apply (copy_node_input p x d Hp Hx). by exists q.
Qed.

(** The proxy behind a reachable copy. *)
Lemma copy_lookup d :
  plan_reachable h c d → ∃ p x, plan_reachable plan root p ∧ m !! p = Some d ∧ plan !! p = Some x ∧
    (∀ q, q ∈ inputs x → is_Some (m !! q)) ∧ h !! d = Some (copy_node m p x).
Proof.
  intros (p & Hp & Hd)%copy_reachable. destruct (cp_node _ _ Hcopied p d Hd) as (x & _ & Hx & Hin & Hn).
  exists p, x. auto.
Qed.

Lemma copied_operator_shape (op : ProxyOperator A) (l r : option P) :
  copied_left (copied_operator op) l = copied_left op l ∧ copied_right (copied_operator op) r = copied_right op r.
Proof.
  unfold copied_operator. destruct (OnDeepCopy op) as [op'|] eqn:Hop; [|done]. by apply OnDeepCopy_shape.
Qed.

Lemma copy_node_arity p x :
  plan_reachable plan root p → plan !! p = Some x →
  let y := copy_node m p x in
  copied_left (proxy_operator y) (LeftInput y) = LeftInput y ∧ copied_right (proxy_operator y) (RightInput y) = RightInput y.
Proof.
  intros Hp Hx y. destruct (copied_operator_shape (proxy_operator x) (LeftInput y) (RightInput y)) as [Hl Hr].
  change (proxy_operator y) with (copied_operator (proxy_operator x)). rewrite Hl, Hr. unfold y, copy_node. cbn.
  unfold copied_left, copied_right. split; [by destruct (proxy_operator x)|by destruct (RequiresRightInput _)].
Qed.

Lemma copy_well_formed : well_formed h c.
Proof.
  split.
  - intros d (p & x & _ & _ & _ & _ & Hn)%copy_lookup. by eexists.
  - intros d y (p & x & Hp & Hd & Hx & Hin & Hn)%copy_lookup Hy. rewrite Hn in Hy. injection Hy as <-.
    destruct (copy_node_inputs p x Hp Hx) as [-> ->]. intros Hl. destruct (LeftInput x) as [q|] eqn:Hq.
    + destruct (Hin q) as [e He]; [unfold inputs; rewrite Hq; by left|]. cbn in Hl. congruence.
    + by rewrite (wf_left _ _ Hwf p x Hp Hx Hq).
  - intros d y (p & x & Hp & Hd & Hx & _ & Hn)%copy_lookup Hy. rewrite Hn in Hy. injection Hy as <-.
    by apply copy_node_arity.
Qed.

Definition copy_rank (d : P) : nat :=
  match list_find (λ e, e.2 = d) (map_to_list m) with Some (_, (p, _)) => rank p | None => 0 end.

Lemma copy_rank_spec p d : m !! p = Some d → copy_rank d = rank p.
Proof.
  intros Hp. unfold copy_rank. destruct (list_find _ _) as [[i [q e]]|] eqn:Hf.
  - apply list_find_Some in Hf as (Hi & He & _). cbn in He. subst e.
    apply list_elem_of_lookup_2, elem_of_map_to_list in Hi. f_equal. by eapply (cp_inj _ _ Hcopied).
  - apply list_find_None in Hf. rewrite Forall_forall in Hf. exfalso. apply (Hf (p, d)); [|done]. by apply elem_of_map_to_list.
Qed.

Lemma copy_ranked : ranked h c copy_rank.
Proof.
  intros d y e (p & x & Hp & Hd & Hx & _ & Hn)%copy_lookup Hy He. rewrite Hn in Hy. injection Hy as <-.
  apply (copy_node_input p x e Hp Hx) in He as (q & Hq & He). rewrite (copy_rank_spec p d Hd), (copy_rank_spec q e He).
  by eapply Hrank.
Qed.

Lemma OnDeepCopy_again (op op' : ProxyOperator A) : OnDeepCopy op = Ok op' → is_ok (OnDeepCopy op') = true.
Proof.
  intros Hop. destruct op; cbn in Hop; try by injection Hop as <-.
  - destruct (assert_ _ _) as [[]|] eqn:Ha; [|done]. injection Hop as <-. cbn. by rewrite Ha.
  - destruct mode; cbn in Hop; [by injection Hop as <-|]. destruct (assert_ _ _) as [[]|] eqn:Ha; [|done].
    injection Hop as <-. cbn. by rewrite Ha.
  - destruct (assert_ _ _) as [[]|] eqn:Ha; [|done]. injection Hop as <-. cbn. by rewrite Ha.
  - destruct (assert_ _ _) as [[]|] eqn:Ha; [|done]. cbn in Hop. destruct (assert_ (1 <=? _)%Z _) as [[]|] eqn:Hb; [|done].
    cbn in Hop. destruct import_options; injection Hop as <-; cbn; rewrite Ha; cbn; by rewrite Hb.
  - destruct (assert_ _ _) as [[]|] eqn:Ha; [|done]. injection Hop as <-. cbn. by rewrite Ha.
Qed.

Lemma copy_copyable d y : plan_reachable h c d → h !! d = Some y → is_ok (OnDeepCopy (proxy_operator y)) = true.
Proof.
  intros (p & x & Hp & Hd & Hx & _ & Hn)%copy_lookup Hy. rewrite Hn in Hy. injection Hy as <-. cbn.
  specialize (Hcopyable p x Hp Hx). unfold copied_operator.
  destruct (OnDeepCopy (proxy_operator x)) as [op|] eqn:Hop; [|done]. by eapply OnDeepCopy_again.
Qed.
End Copied.
End Copy.
End Plans.
