(* ===== verification/PipelineFragments.v ===== *)
(** * Pipeline fragments

    [compiler/physical_query_plan/pipeline_fragment_template.cpp] and the constructor of
    [pqp_pipeline.cpp]: the template of a pipeline is a copy of its plan without objects; a
    fragment is a copy of the template with the objects of one fragment definition.  The
    JSON form of a definition shares the bucket and the prefix of the objects' keys. *)

From S2P Require Export PqpNodes PqpNodesCorrect.

Local Open Scope string_scope.

(** ** Templates and fragments *)
Section Fragments.
Context {A : Type} {P : Type} `{Countable P}.
Variables (address_text : P → string) (allocate : gset P → P).
Abbreviation Heap := (gmap P (Proxy A P)).

Definition kTargetObjectPlaceholder : ObjectReference := mkObjectReference "Placeholder" "Placeholder" EmptyString None.

(** The copy of the plan at [p], without the map of the copies. *)
Definition CopyPlan (fuel : nat) (plan : Heap) (p : P) : result (Heap * P) :=
  '(c, (plan, _)) ← Proxy_DeepCopy address_text allocate fuel p (plan, ∅); Ok (plan, c).

Definition clear_leaf (plan : Heap) (leaf_proxy : P) : result Heap :=
  x ← deref plan leaf_proxy;
  _ ← assert_ (bool_decide (Type_ (proxy_operator x) = oImport)) AssertionFailed;
  update_operator leaf_proxy (SetObjectReferences []) plan.

(** The constructor; the second component is [template_]. *)
Definition make_PipelineFragmentTemplate (fuel : nat) (plan : Heap) (pipeline_plan : P) : result (Heap * P) :=
  x ← deref plan pipeline_plan;
  _ ← assert_ (bool_decide (Type_ (proxy_operator x) = oExport)) AssertionFailed;
  '(plan, mutable_template) ← CopyPlan fuel plan pipeline_plan;
  plan ← update_operator mutable_template (SetTargetObject kTargetObjectPlaceholder kOrc) plan;
  leaf_proxies ← PqpFindLeaves plan mutable_template;
  plan ← foldR clear_leaf plan leaf_proxies;
  Ok (plan, mutable_template).

Definition configure_import (fragment_definition : PipelineFragmentDefinition) (plan : Heap) (leaf_proxy : P) : result Heap :=
  x ← deref plan leaf_proxy;
  object_references ← of_option (identity_to_objects fragment_definition !! Identity address_text leaf_proxy x) AssertionFailed;
  plan ← update_operator leaf_proxy (SetObjectReferences object_references) plan;
  update_operator leaf_proxy (SetOutputObjectsCount 1) plan.

Definition GenerateFragmentPlan (fuel : nat) (plan : Heap) (template_ : P) (fragment_definition : PipelineFragmentDefinition)
    : result (Heap * P) :=
  '(plan, fragment_instance) ← CopyPlan fuel plan template_;
  plan ← update_operator fragment_instance
    (SetTargetObject (target_object fragment_definition) (target_format fragment_definition)) plan;
  leaf_proxies ← PqpFindLeaves plan fragment_instance;
  _ ← assert_ (bool_decide (length leaf_proxies = size (identity_to_objects fragment_definition))) AssertionFailed;
  plan ← foldR (configure_import fragment_definition) plan leaf_proxies;
  Ok (plan, fragment_instance).

(** [PqpPipeline::PqpPipeline]: the identities of the plan's own proxies are prefixed first. *)
Definition make_PqpPipeline (fuel : nat) (identity : string) (plan : Heap) (pipeline_plan : P) : result (Heap * P) :=
  _ ← assert_ (bool_decide (identity ≠ EmptyString)) AssertionFailed;
  plan ← PrefixOperatorProxyIdentities address_text plan pipeline_plan identity;
  make_PipelineFragmentTemplate fuel plan pipeline_plan.
End Fragments.

(** ** Templates and fragments are faithful copies

    The template of a pipeline and every fragment plan is a copy of the pipeline's plan, at
    fresh addresses, that differs from it exactly in the objects of the export and of the
    imports; the plans that exist already are untouched. *)

Local Open Scope string_scope.

Section Correct.
Context {A : Type} {P : Type} `{Countable P}.
Variables (address_text : P → string) (allocate : gset P → P).
Hypothesis Hallocate : ∀ s, allocate s ∉ s.
Abbreviation Heap := (gmap P (Proxy A P)).
Abbreviation identity := (Identity (A:=A) address_text).

Definition copyable (plan : Heap) (root : P) : Prop :=
  ∀ p x, plan_reachable plan root p → plan !! p = Some x → is_ok (OnDeepCopy (proxy_operator x)) = true.

(** Plans of pipelines: an export at the root, imports at the leaves. *)
Definition pipeline_shaped (plan : Heap) (root : P) : Prop :=
  (∃ x, plan !! root = Some x ∧ Type_ (proxy_operator x) = oExport) ∧
  ∀ p x, plan_reachable plan root p → plan !! p = Some x → inputs x = [] → Type_ (proxy_operator x) = oImport.

(** ** Changing operators only *)
Definition shape (x : Proxy A P) : OperatorType * option P * option P := (Type_ (proxy_operator x), LeftInput x, RightInput x).
Definition reshaped (h h' : Heap) : Prop := ∀ p, shape <$> h !! p = shape <$> h' !! p.

Lemma reshaped_lookup h h' p y :
  reshaped h h' → h' !! p = Some y → ∃ x, h !! p = Some x ∧ shape x = shape y.
Proof. intros Hr Hy. specialize (Hr p). rewrite Hy in Hr. destruct (h !! p) as [x|]; [|done]. apply (inj Some) in Hr. eauto. Qed.

Lemma reshaped_sym h h' : reshaped h h' → reshaped h' h.
Proof. intros Hr p. symmetry. apply Hr. Qed.

Lemma shape_inputs x y : shape x = shape y → inputs x = inputs y.
Proof. unfold shape, inputs. by intros [= _ -> ->]. Qed.

Lemma reshaped_reachable h h' root p : reshaped h h' → plan_reachable h root p → plan_reachable h' root p.
Proof.
  intros Hr%reshaped_sym. induction 1 as [|p x q _ IH Hx Hq]; [constructor|].
  destruct (reshaped_lookup _ _ _ _ Hr Hx) as (y & Hy & Hs). eapply plan_reachable_input; [done|exact Hy|].
  by rewrite (shape_inputs _ _ Hs).
Qed.

Lemma arity_type (op op' : ProxyOperator A) (l r : option P) :
  Type_ op = Type_ op' → copied_left op l = copied_left op' l ∧ copied_right op r = copied_right op' r.
Proof. unfold copied_right. destruct op, op'; cbn; intros Ht; repeat (case_match; try done); done. Qed.

Lemma reshaped_well_formed h h' root : reshaped h h' → well_formed h root → well_formed h' root.
Proof.
  intros Hr Hwf. pose proof (reshaped_sym _ _ Hr) as Hr'. split.
  - intros p Hp%(reshaped_reachable _ _ _ _ Hr'). destruct (wf_closed _ _ Hwf p Hp) as [x Hx].
    destruct (reshaped_lookup _ _ _ _ Hr' Hx) as (y & Hy & _). by exists y.
  - intros p y Hp%(reshaped_reachable _ _ _ _ Hr') Hy. destruct (reshaped_lookup _ _ _ _ Hr Hy) as (x & Hx & [= _ <- <-]).
    by apply (wf_left _ _ Hwf p).
  - intros p y Hp%(reshaped_reachable _ _ _ _ Hr') Hy.
    destruct (reshaped_lookup _ _ _ _ Hr Hy) as (x & Hx & [= Ht <- <-]).
    destruct (arity_type _ _ (LeftInput x) (RightInput x) Ht) as [<- <-]. by apply (wf_arity _ _ Hwf p).
Qed.

Lemma reshaped_ranked h h' root rank : reshaped h h' → ranked h root rank → ranked h' root rank.
Proof.
  intros Hr Hrank p y q Hp Hy Hq. destruct (reshaped_lookup _ _ _ _ Hr Hy) as (x & Hx & Hs).
  apply (Hrank p x q); [|done|by rewrite (shape_inputs _ _ Hs)]. eapply reshaped_reachable; [by apply reshaped_sym|done].
Qed.

Lemma reshaped_leaf h h' root p : reshaped h h' → leaf h root p → leaf h' root p.
Proof.
  intros Hr [Hp (x & Hx & Hin)]. split; [by eapply reshaped_reachable|].
  destruct (reshaped_lookup _ _ _ _ (reshaped_sym _ _ Hr) Hx) as (y & Hy & Hs). exists y.
  split; [done|]. by rewrite (shape_inputs _ _ Hs).
Qed.

Lemma reshaped_insert h p x op :
  h !! p = Some x → Type_ op = Type_ (proxy_operator x) → reshaped h (<[p := set_operator x op]> h).
Proof.
  intros Hx Ht q. destruct (decide (p = q)) as [->|]; [|by rewrite lookup_insert_ne].
  rewrite lookup_insert_eq, Hx. unfold shape. cbn. by rewrite Ht.
Qed.

Lemma update_operator_ok (h : Heap) p x set op :
  h !! p = Some x → set (proxy_operator x) = Ok op → update_operator p set h = Ok (<[p := set_operator x op]> h).
Proof. intros Hx Hop. unfold update_operator, deref. rewrite Hx. cbn. by rewrite Hop. Qed.

(** A step at every leaf, each touching its own proxy. *)
Lemma foldR_leaves (step : Heap → P → result Heap) (g : P → Proxy A P → Proxy A P) leaves h :
  NoDup leaves → (∀ p, p ∈ leaves → ∃ x, h !! p = Some x ∧ ∀ h', h' !! p = Some x → step h' p = Ok (<[p := g p x]> h')) →
  ∃ h', foldR step h leaves = Ok h' ∧ ∀ p, h' !! p = if decide (p ∈ leaves) then g p <$> h !! p else h !! p.
Proof.
  revert h. induction leaves as [|q leaves IH]; intros h Hnd Hstep.
  - exists h. split; [done|]. intros p. rewrite decide_False; [done|]. apply not_elem_of_nil.
  - apply NoDup_cons in Hnd as [Hq Hnd]. destruct (Hstep q) as (x & Hx & Hs); [by left|]. cbn. rewrite (Hs h Hx). cbn.
    destruct (IH (<[q:=g q x]> h) Hnd) as (h' & -> & Hh').
    + intros p Hp. destruct (Hstep p) as (y & Hy & Hsy); [by right|]. exists y. split; [|done].
      rewrite lookup_insert_ne; [done|]. by intros ->.
    + exists h'. split; [done|]. intros p. rewrite Hh'. destruct (decide (p = q)) as [->|Hne].
      * rewrite decide_False, lookup_insert_eq, Hx by done. by rewrite decide_True by by left.
      * rewrite lookup_insert_ne by done.
        destruct (decide (p ∈ leaves)); [by rewrite decide_True by by right|].
        rewrite decide_False; [done|]. by intros [|]%elem_of_cons.
Qed.

(** A definition names exactly the imports, and its target has no ETag. *)
Record defines (plan : Heap) (root : P) (d : PipelineFragmentDefinition) : Prop := {
  def_etag : etag (target_object d) = EmptyString;
  def_unique p q x y : leaf plan root p → leaf plan root q → plan !! p = Some x → plan !! q = Some y →
    identity p x = identity q y → p = q;
  def_exact k : is_Some (identity_to_objects d !! k) ↔ ∃ p x, leaf plan root p ∧ plan !! p = Some x ∧ k = identity p x }.

(** ** A copy with some operators exchanged *)
Section Instance.
Variables (plan : Heap) (root : P) (rank : P → nat) (fuel : nat).
Hypothesis Hwf : well_formed plan root.
Hypothesis Hrank : ranked plan root rank.
Hypothesis Hfuel : (rank root < fuel)%nat.
Hypothesis Hcopyable : copyable plan root.
Hypothesis Hshaped : pipeline_shaped plan root.

Abbreviation copy_node := (copy_node address_text).

(** The setters and what they make of the operators of copies. *)
Variables (set_root : ProxyOperator A → result (ProxyOperator A)) (root_operator : ProxyOperator A → ProxyOperator A).
Variables (step : Heap → P → result Heap) (leaf_operator : string → ProxyOperator A → ProxyOperator A).
Hypothesis Hset_root : ∀ op, Type_ op = oExport → set_root op = Ok (root_operator op) ∧ Type_ (root_operator op) = oExport.
Hypothesis Hstep : ∀ p x h c y, leaf plan root p → plan !! p = Some x → h !! c = Some y →
  identity c y = identity p x → Type_ (proxy_operator y) = oImport →
  step h c = Ok (<[c := set_operator y (leaf_operator (identity p x) (proxy_operator y))]> h).

Hypothesis Hleaf_type : ∀ k op, Type_ (leaf_operator k op) = Type_ op.

Definition instance_operator (p : P) (x : Proxy A P) (op : ProxyOperator A) : ProxyOperator A :=
  if decide (p = root) then root_operator op
  else if decide (inputs x = []) then leaf_operator (identity p x) op
  else op.

(** The heap [h] holds a copy of the plan at [root], the one at [r], through [m]. *)
Record instance_of (h : Heap) (r : P) (m : gmap P P) : Prop := {
  io_original : plan ⊆ h;
  io_root : m !! root = Some r;
  io_dom p : is_Some (m !! p) ↔ plan_reachable plan root p;
  io_inj p q c : m !! p = Some c → m !! q = Some c → p = q;
  io_fresh p c : m !! p = Some c → c ∉ dom plan;
  io_copied : ∃ h1, copied address_text plan root h1 m ∧ reshaped h1 h;
  io_node p c x : m !! p = Some c → plan !! p = Some x →
    h !! c = Some (set_operator (copy_node m p x) (instance_operator p x (copied_operator (proxy_operator x)))) }.

Lemma copied_operator_type (op : ProxyOperator A) : Type_ (copied_operator op) = Type_ op.
Proof.
  unfold copied_operator. destruct (OnDeepCopy op) as [op'|] eqn:Hop; [|done].
  destruct op; cbn in Hop; try by injection Hop as <-.
  all: try (apply bind_ok in Hop as ([] & _ & Hop); by injection Hop as <-).
  - destruct mode; cbn in Hop; [by injection Hop as <-|]. apply bind_ok in Hop as ([] & _ & Hop). by injection Hop as <-.
  - apply bind_ok in Hop as (c & Hc & Hop). apply bind_ok in Hc as ([] & _ & Hc). injection Hc as <-. cbn in Hop.
    apply bind_ok in Hop as (c & Hc & Hop). apply bind_ok in Hc as ([] & _ & Hc). injection Hc as <-.
    destruct import_options; by injection Hop as <-.
Qed.

Lemma identity_instance m p x op c : identity c (set_operator (copy_node m p x) op) = identity p x.
Proof.
  unfold Identity at 1. cbn. rewrite decide_False; [done|]. unfold Identity. destruct (decide _); [|done].
  unfold Name. by destruct (Type_ _).
Qed.

Lemma identity_copy m p x c : identity c (copy_node m p x) = identity p x.
Proof. apply (identity_instance m p x (copied_operator (proxy_operator x))). Qed.

Lemma root_not_leaf : ¬ leaf plan root root.
Proof.
  intros [Hp (x & Hx & Hin)]. destruct Hshaped as [(y & Hy & Hey) Hleaf]. pose proof (Hleaf root x Hp Hx Hin).
  congruence.
Qed.

(** The leaves of a copy are the copies of the leaves. *)
Lemma copy_leaf h m c d :
  copied address_text plan root h m → m !! root = Some c →
  leaf h c d ↔ ∃ p, leaf plan root p ∧ m !! p = Some d.
Proof.
  intros Hc Hroot. unfold leaf at 1. rewrite (copy_reachable address_text plan root Hwf h m c Hc Hroot). split.
  - intros [(p & Hp & Hd) (y & Hy & Hin)]. destruct (cp_node _ _ _ _ _ Hc p d Hd) as (x & _ & Hx & Hsome & Hn).
    rewrite Hn in Hy. injection Hy as <-. exists p. split; [|done]. split; [done|]. exists x. split; [done|].
    destruct (inputs x) as [|q l] eqn:Hq; [done|]. destruct (Hsome q) as [e He]; [by left|]. exfalso.
    assert (e ∈ inputs (copy_node m p x)) as Hel.
    { apply (copy_node_input address_text plan root Hwf m p x e Hp Hx). exists q. split; [rewrite Hq; by left|done]. }
    rewrite Hin in Hel. by apply elem_of_nil in Hel.
  - intros (p & [Hp (x & Hx & Hin)] & Hd). split; [by exists p|].
    destruct (cp_node _ _ _ _ _ Hc p d Hd) as (y & _ & Hy & _ & Hn). rewrite Hx in Hy. injection Hy as <-.
    exists (copy_node m p x). split; [done|]. destruct (inputs (copy_node m p x)) as [|e l] eqn:He; [done|].
    assert (e ∈ inputs (copy_node m p x)) as Hel by (rewrite He; by left).
    apply (copy_node_input address_text plan root Hwf m p x e Hp Hx) in Hel as (q & Hq & _). rewrite Hin in Hq.
    by apply elem_of_nil in Hq.
Qed.

(** The leaf of the original behind a copy. *)
Lemma copy_leaf_node h m c d :
  copied address_text plan root h m → m !! root = Some c → leaf h c d →
  ∃ p x, leaf plan root p ∧ plan !! p = Some x ∧ m !! p = Some d ∧ h !! d = Some (copy_node m p x) ∧
    Type_ (proxy_operator (copy_node m p x)) = oImport.
Proof.
  intros Hc Hroot (p & Hp & Hd)%(copy_leaf h m c d Hc Hroot).
  destruct (cp_node _ _ _ _ _ Hc p d Hd) as (x & Hr & Hx & _ & Hn). exists p, x. do 4 (split; [done|]).
  destruct Hp as [_ (y & Hy & Hin)]. rewrite Hx in Hy. injection Hy as <-. cbn. rewrite copied_operator_type.
  by apply (proj2 Hshaped p).
Qed.

(** Copying, setting the root's operator and finding the leaves. *)
Lemma instantiate :
  ∃ h1 h2 r m leaves, CopyPlan address_text allocate fuel plan root = Ok (h1, r) ∧
    update_operator r set_root h1 = Ok h2 ∧ PqpFindLeaves h2 r = Ok leaves ∧
    NoDup leaves ∧ (∀ d, d ∈ leaves ↔ ∃ p, leaf plan root p ∧ m !! p = Some d) ∧
    ∃ h, foldR step h2 leaves = Ok h ∧ instance_of h r m.
Proof.
  destruct (Proxy_DeepCopy_spec address_text allocate Hallocate plan root rank Hwf Hrank Hcopyable fuel Hfuel)
    as (r & h1 & m & Hcopy & Hc & Hroot & Hdom).
  destruct (cp_node _ _ _ _ _ Hc root r Hroot) as (xr & _ & Hxr & _ & Hnr).
  assert (Type_ (proxy_operator (copy_node m root xr)) = oExport) as Htype.
  { destruct Hshaped as [(y & Hy & Ht) _]. rewrite Hxr in Hy. injection Hy as <-. cbn. by rewrite copied_operator_type. }
  destruct (Hset_root _ Htype) as [Hset Htr].
  set (h2 := <[r := set_operator (copy_node m root xr) (root_operator (proxy_operator (copy_node m root xr)))]> h1).
  assert (reshaped h1 h2) as Hre by (apply reshaped_insert; [done|congruence]).
  pose proof (copy_well_formed address_text plan root Hwf h1 m r Hc Hroot) as Hwf1.
  pose proof (copy_ranked address_text plan root rank Hwf Hrank h1 m r Hc Hroot) as Hrank1.
  destruct (PqpFindLeaves_spec h2 r (reshaped_well_formed _ _ _ Hre Hwf1) _ (reshaped_ranked _ _ _ _ Hre Hrank1))
    as (leaves & Hleaves & Hnd & Hin).
  assert (∀ d, d ∈ leaves ↔ leaf h1 r d) as Hin1.
  { intros d. rewrite Hin. split; eapply reshaped_leaf; [by apply reshaped_sym|done]. }
  assert (∀ p d, m !! p = Some d → p ≠ root → h2 !! d = h1 !! d) as Hh2.
  { intros p d Hd Hp. unfold h2. rewrite lookup_insert_ne; [done|]. intros <-. by apply Hp, (cp_inj _ _ _ _ _ Hc p root r). }
  destruct (foldR_leaves step
    (λ d y, set_operator y (leaf_operator (identity d y) (proxy_operator y))) leaves h2 Hnd) as (h & Hfold & Hh).
  { intros d Hd%Hin1. destruct (copy_leaf_node h1 m r d Hc Hroot Hd) as (p & x & Hp & Hx & Hmd & Hn & Ht).
    assert (p ≠ root) as Hpr by (intros ->; by apply root_not_leaf).
    exists (copy_node m p x). split; [by rewrite (Hh2 p d Hmd Hpr)|]. intros h' Hh'.
    rewrite (Hstep p x h' d (copy_node m p x)), identity_copy; [done|done|done|done| |done]. apply identity_copy. }
  exists h1, h2, r, m, leaves. split; [unfold CopyPlan; by rewrite Hcopy|]. split; [by apply update_operator_ok|].
  split; [done|]. split; [done|]. split; [intros d; by rewrite Hin1, (copy_leaf h1 m r d Hc Hroot)|].
  exists h. split; [done|]. split; [|done|done|by apply (cp_inj _ _ _ _ _ Hc)|by apply (cp_fresh _ _ _ _ _ Hc)| |].
  - apply map_subseteq_spec. intros p x Hx. rewrite Hh, decide_False.
    + unfold h2. rewrite lookup_insert_ne; [by eapply lookup_weaken; [|apply (cp_original _ _ _ _ _ Hc)]|].
      intros <-. apply (cp_fresh _ _ _ _ _ Hc root r Hroot). by eapply elem_of_dom_2.
    + intros (q & _ & Hq)%Hin1%(copy_leaf h1 m r p Hc Hroot). apply (cp_fresh _ _ _ _ _ Hc q p Hq). by eapply elem_of_dom_2.
  - exists h1. split; [done|]. intros d. rewrite (Hre d), Hh. destruct (decide (d ∈ leaves)) as [Hd|Hd]; [|done].
    apply Hin1 in Hd. destruct (copy_leaf_node h1 m r d Hc Hroot Hd) as (p & x & Hp & Hx & Hmd & Hn & Ht).
    rewrite (Hh2 p d Hmd), Hn by (intros ->; by apply root_not_leaf). cbn. unfold shape. cbn. rewrite identity_copy.
    by rewrite Hleaf_type.
  - intros p d x Hd Hx. destruct (cp_node _ _ _ _ _ Hc p d Hd) as (y & Hp & Hy & _ & Hn).
    rewrite Hx in Hy. injection Hy as <-. unfold instance_operator.
    assert (d ∈ leaves ↔ inputs x = []) as Hleaf.
    { rewrite Hin1, (copy_leaf h1 m r d Hc Hroot). split.
      - intros (q & [_ (y & Hy & Hyin)] & Hq). assert (q = p) as -> by by eapply (cp_inj _ _ _ _ _ Hc). congruence.
      - intros Hxin. exists p. split; [|done]. split; [done|]. by exists x. }
    rewrite Hh. destruct (decide (p = root)) as [->|Hpr].
    + rewrite decide_False.
      * rewrite Hroot in Hd. injection Hd as <-. rewrite Hxr in Hx. injection Hx as <-. unfold h2. by rewrite lookup_insert_eq.
      * rewrite Hleaf. intros Hxin. apply root_not_leaf. split; [done|]. by exists x.
    + rewrite (Hh2 p d Hd Hpr), Hn. destruct (decide (inputs x = [])) as [Hxin|Hxin].
      * rewrite decide_True by by apply Hleaf. cbn [fmap option_fmap option_map]. by rewrite identity_copy.
      * by rewrite decide_False by by rewrite Hleaf.
Qed.

(** *** The instance as a plan *)
Section Plan.
Variables (h : Heap) (r : P) (m : gmap P P).
Hypothesis Hinst : instance_of h r m.

Lemma instance_reachable d : plan_reachable h r d ↔ ∃ p, plan_reachable plan root p ∧ m !! p = Some d.
Proof.
  destruct (io_copied _ _ _ Hinst) as (h1 & Hc & Hre).
  rewrite <- (copy_reachable address_text plan root Hwf h1 m r Hc (io_root _ _ _ Hinst)).
  split; apply reshaped_reachable; [by apply reshaped_sym|done].
Qed.

Lemma instance_leaf d : leaf h r d ↔ ∃ p, leaf plan root p ∧ m !! p = Some d.
Proof.
  destruct (io_copied _ _ _ Hinst) as (h1 & Hc & Hre). rewrite <- (copy_leaf h1 m r d Hc (io_root _ _ _ Hinst)).
  split; apply reshaped_leaf; [by apply reshaped_sym|done].
Qed.

Lemma instance_well_formed : well_formed h r.
Proof.
  destruct (io_copied _ _ _ Hinst) as (h1 & Hc & Hre). eapply reshaped_well_formed; [exact Hre|].
  eapply copy_well_formed; [exact Hwf|exact Hc|apply (io_root _ _ _ Hinst)].
Qed.

Lemma instance_acyclic : acyclic h r fuel.
Proof.
  destruct (io_copied _ _ _ Hinst) as (h1 & Hc & Hre). exists (copy_rank rank m). split.
  - eapply reshaped_ranked; [exact Hre|]. eapply copy_ranked; [done|done|exact Hc|apply (io_root _ _ _ Hinst)].
  - by rewrite (copy_rank_spec address_text plan root rank h1 m Hc root r (io_root _ _ _ Hinst)).
Qed.

Lemma instance_lookup d :
  plan_reachable h r d → ∃ p x, plan_reachable plan root p ∧ m !! p = Some d ∧ plan !! p = Some x ∧
    h !! d = Some (set_operator (copy_node m p x) (instance_operator p x (copied_operator (proxy_operator x)))).
Proof.
  intros (p & Hp & Hd)%instance_reachable. destruct (wf_closed _ _ Hwf p Hp) as [x Hx].
  exists p, x. do 3 (split; [done|]). by apply (io_node _ _ _ Hinst).
Qed.

(** The node of a proxy in the instance. *)
Lemma instance_node p x :
  plan_reachable plan root p → plan !! p = Some x →
  ∃ c, m !! p = Some c ∧ (c = r ↔ p = root) ∧ plan_reachable h r c ∧ ∃ y, h !! c = Some y ∧
    y = mkProxy (instance_operator p x (copied_operator (proxy_operator x))) (identity p x) (comment_ x)
      (LeftInput x ≫= (m !!.)) (RightInput x ≫= (m !!.)) EmptyString EmptyString ∧ (inputs y = [] ↔ inputs x = []).
Proof.
  intros Hp Hx. pose proof (proj2 (io_dom _ _ _ Hinst p) Hp) as [c Hc]. exists c. split; [done|].
  assert (plan_reachable h r c) as Hr by (apply instance_reachable; by exists p).
  assert (c = r ↔ p = root) as Heq.
  { split; [intros ->|intros ->].
    - eapply (io_inj _ _ _ Hinst); [exact Hc|apply (io_root _ _ _ Hinst)].
    - pose proof (io_root _ _ _ Hinst). congruence. }
  split; [done|]. split; [done|]. eexists. split; [by apply (io_node _ _ _ Hinst p c x)|]. split.
  - destruct (copy_node_inputs address_text plan root Hwf m p x Hp Hx) as [<- <-]. done.
  - split; intros Hin.
    + assert (leaf h r c) as Hleaf by (split; [done|]; eexists; split; [by apply (io_node _ _ _ Hinst p c x)|done]).
      apply instance_leaf in Hleaf as (q & [_ (z & Hz & Hzin)] & Hq).
      assert (q = p) as -> by by eapply (io_inj _ _ _ Hinst). congruence.
    + assert (leaf plan root p) as Hleaf by (split; [done|by exists x]).
      destruct (proj2 (instance_leaf c)) as [_ (y & Hy & Hyin)]; [by exists p|].
      rewrite (io_node _ _ _ Hinst p c x Hc Hx) in Hy. by injection Hy as <-.
Qed.

Lemma instance_identity p x d y : m !! p = Some d → plan !! p = Some x → h !! d = Some y → identity d y = identity p x.
Proof.
  intros Hd Hx Hy. rewrite (io_node _ _ _ Hinst p d x Hd Hx) in Hy. injection Hy as <-. apply identity_instance.
Qed.

Lemma instance_operator_type p x :
  plan_reachable plan root p → plan !! p = Some x →
  Type_ (instance_operator p x (copied_operator (proxy_operator x))) = Type_ (proxy_operator x).
Proof.
  intros Hp Hx. unfold instance_operator. destruct (decide (p = root)) as [->|].
  - destruct Hshaped as [(y & Hy & Ht) _]. rewrite Hx in Hy. injection Hy as <-.
    destruct (Hset_root (copied_operator (proxy_operator x))) as [_ ->]; by rewrite ?copied_operator_type.
  - destruct (decide _); rewrite ?Hleaf_type; apply copied_operator_type.
Qed.

Lemma instance_shaped : pipeline_shaped h r.
Proof.
  split.
  - destruct (instance_lookup r) as (p & x & Hp & Hd & Hx & Hy); [constructor|].
    eexists. split; [exact Hy|]. cbn. rewrite instance_operator_type by done.
    assert (p = root) as -> by by eapply (io_inj _ _ _ Hinst); [exact Hd|apply (io_root _ _ _ Hinst)].
    destruct Hshaped as [(y & Hy' & Ht) _]. congruence.
  - intros d y Hd Hy Hin. assert (leaf h r d) as Hleaf by (split; [done|by exists y]).
    apply instance_leaf in Hleaf as (p & [Hp (x & Hx & Hxin)] & Hmd).
    rewrite (io_node _ _ _ Hinst p d x Hmd Hx) in Hy. injection Hy as <-. cbn. rewrite instance_operator_type by done.
    by apply (proj2 Hshaped p).
Qed.

Hypothesis Hroot_copyable : ∀ op, is_ok (OnDeepCopy op) = true → is_ok (OnDeepCopy (root_operator op)) = true.
Hypothesis Hleaf_copyable : ∀ k op, is_ok (OnDeepCopy op) = true → is_ok (OnDeepCopy (leaf_operator k op)) = true.

Lemma instance_copyable : copyable h r.
Proof.
  intros d y (p & x & Hp & Hd & Hx & Hn)%instance_lookup Hy. rewrite Hn in Hy. injection Hy as <-. cbn.
  assert (is_ok (OnDeepCopy (copied_operator (proxy_operator x))) = true) as Hok.
  { unfold copied_operator. specialize (Hcopyable p x Hp Hx).
    destruct (OnDeepCopy (proxy_operator x)) as [op|] eqn:Hop; [|done]. by eapply OnDeepCopy_again. }
  unfold instance_operator. repeat destruct (decide _); auto.
Qed.

Lemma instance_defines d : defines plan root d → defines h r d.
Proof.
  intros Hd. split; [apply (def_etag _ _ _ Hd)| |].
  - intros c e y z (p & Hp & Hc)%instance_leaf (q & Hq & He)%instance_leaf Hy Hz Hid.
    pose proof Hp as [_ (x & Hx & _)]. pose proof Hq as [_ (x' & Hx' & _)].
    rewrite (instance_identity p x c y Hc Hx Hy), (instance_identity q x' e z He Hx' Hz) in Hid.
    assert (p = q) as -> by by eapply (def_unique _ _ _ Hd). congruence.
  - intros k. rewrite (def_exact _ _ _ Hd). split.
    + intros (p & x & Hp & Hx & ->). pose proof Hp as [Hpr _]. apply (io_dom _ _ _ Hinst) in Hpr as [c Hc].
      exists c, (set_operator (copy_node m p x) (instance_operator p x (copied_operator (proxy_operator x)))).
      pose proof (io_node _ _ _ Hinst p c x Hc Hx) as Hn. split; [apply instance_leaf; by exists p|]. split; [done|].
      symmetry. by apply (instance_identity p x c).
    + intros (c & y & (p & Hp & Hc)%instance_leaf & Hy & ->). pose proof Hp as [_ (x & Hx & _)].
      exists p, x. split; [done|]. split; [done|]. by apply (instance_identity p x c).
Qed.
End Plan.
End Instance.

(** ** Templates *)
Definition without_target (op : ProxyOperator A) : ProxyOperator A :=
  match op with
  | ExportOperatorProxy _ _ consolidate => ExportOperatorProxy kTargetObjectPlaceholder kOrc consolidate
  | _ => op
  end.
Definition without_objects (identity : string) (op : ProxyOperator A) : ProxyOperator A :=
  match op with
  | ImportOperatorProxy column_ids _ options n => ImportOperatorProxy column_ids [] options n
  | _ => op
  end.

Lemma without_target_setter op :
  Type_ op = oExport →
  SetTargetObject kTargetObjectPlaceholder kOrc op = Ok (without_target op) ∧ Type_ (without_target op) = oExport.
Proof. intros Hop. by destruct op as [| | | | | |[]| | | | |]. Qed.

Lemma without_objects_type k op : Type_ (without_objects k op) = Type_ op.
Proof. by destruct op. Qed.

Lemma without_target_copyable op : is_ok (OnDeepCopy op) = true → is_ok (OnDeepCopy (without_target op)) = true.
Proof. by destruct op. Qed.

Lemma without_objects_copyable k op : is_ok (OnDeepCopy op) = true → is_ok (OnDeepCopy (without_objects k op)) = true.
Proof.
  destruct op; try done. cbn. destruct (assert_ _ _) as [[]|]; [cbn|done]. destruct (assert_ _ _) as [[]|]; [cbn|done].
  by destruct import_options.
Qed.

(** The template can in turn be copied. *)
Record ready (plan : Heap) (root : P) (fuel : nat) : Prop := {
  ready_well_formed : well_formed plan root;
  ready_acyclic : acyclic plan root fuel;
  ready_copyable : copyable plan root;
  ready_shaped : pipeline_shaped plan root }.

Lemma make_PipelineFragmentTemplate_spec plan root fuel :
  ready plan root fuel →
  ∃ h r m, make_PipelineFragmentTemplate address_text allocate fuel plan root = Ok (h, r) ∧
    instance_of plan root without_target without_objects h r m ∧ ready h r fuel ∧
    ∀ d, defines plan root d → defines h r d.
Proof.
  intros [Hwf (rank & Hrank & Hfuel) Hcopy Hshaped].
  assert (∀ (p : P) x h c (y : Proxy A P), leaf plan root p → plan !! p = Some x → h !! c = Some y → identity c y = identity p x →
    Type_ (proxy_operator y) = oImport →
    clear_leaf h c = Ok (<[c := set_operator y (without_objects (identity p x) (proxy_operator y))]> h)) as Hstep.
  { intros p x h c y _ _ Hc _ Ht. unfold clear_leaf, update_operator, deref. rewrite Hc. cbn [of_option rbind].
    rewrite bool_decide_true by done. cbn [assert_ rbind]. by destruct (proxy_operator y) as [| | | | | |[]| | | | |]. }
  destruct (instantiate plan root rank fuel Hwf Hrank Hfuel Hcopy Hshaped _ _ _ _ without_target_setter Hstep without_objects_type)
    as (h1 & h2 & r & m & leaves & Hc & Hu & Hl & _ & _ & h & Hf & Hinst).
  exists h, r, m. split; [|split; [exact Hinst|split]].
  - unfold make_PipelineFragmentTemplate, deref.
    destruct Hshaped as [(x & Hx & Ht) _]. rewrite Hx. cbn [of_option rbind]. rewrite bool_decide_true by done.
    cbn [assert_ rbind]. rewrite Hc. cbn [rbind]. rewrite Hu. cbn [rbind]. rewrite Hl. cbn [rbind]. by rewrite Hf.
  - split.
    + by eapply instance_well_formed.
    + by eapply instance_acyclic.
    + eapply instance_copyable; eauto using without_target_setter, without_objects_type, without_target_copyable, without_objects_copyable.
    + eapply instance_shaped; eauto using without_target_setter, without_objects_type.
  - intros d. eapply instance_defines; eauto.
Qed.

(** ** Fragments *)
Definition with_target (d : PipelineFragmentDefinition) (op : ProxyOperator A) : ProxyOperator A :=
  match op with
  | ExportOperatorProxy _ _ consolidate => ExportOperatorProxy (target_object d) (target_format d) consolidate
  | _ => op
  end.
Definition with_objects (d : PipelineFragmentDefinition) (identity : string) (op : ProxyOperator A) : ProxyOperator A :=
  match op with
  | ImportOperatorProxy column_ids _ options _ =>
      ImportOperatorProxy column_ids (from_option id [] (identity_to_objects d !! identity)) options 1
  | _ => op
  end.

Lemma bijection_length {B C} (f : B → C) (l : list B) (k : list C) :
  NoDup l → NoDup k → (∀ a b, a ∈ l → b ∈ l → f a = f b → a = b) → (∀ c, c ∈ k ↔ ∃ a, a ∈ l ∧ f a = c) →
  length k = length l.
Proof.
  intros Hl Hk Hf Hin. rewrite <- (length_fmap f l). apply Permutation_length, NoDup_Permutation; [done| |].
  - apply NoDup_fmap_2_strong; [|done]. intros a b Ha Hb. by apply Hf.
  - intros c. rewrite Hin, list_elem_of_fmap. split; intros (a & ? & ?); exists a; auto.
Qed.

Lemma definition_size (plan : Heap) root rank d (m : gmap P P) leaves :
  well_formed plan root → ranked plan root rank → defines plan root d → NoDup leaves →
  (∀ p, is_Some (m !! p) ↔ plan_reachable plan root p) → (∀ p q (c : P), m !! p = Some c → m !! q = Some c → p = q) →
  (∀ c, c ∈ leaves ↔ ∃ p, leaf plan root p ∧ m !! p = Some c) →
  length leaves = size (identity_to_objects d).
Proof.
  intros Hwf Hrank Hd Hnd Hdom Hinj Hin. destruct (PqpFindLeaves_spec plan root Hwf rank Hrank) as (l & _ & Hndl & Hinl).
  transitivity (length l).
  - apply (bijection_length (λ p, from_option id p (m !! p))); [done|done| |].
    + intros p q [Hp _]%Hinl [Hq _]%Hinl. apply Hdom in Hp as [c Hc], Hq as [e He]. rewrite Hc, He. cbn. intros ->.
      by eapply Hinj.
    + intros c. rewrite Hin. split; intros (p & Hp & Hc); exists p; (split; [by apply Hinl|]).
      * by rewrite Hc.
      * apply Hinl in Hp as [Hp _]. apply Hdom in Hp as [e He]. by rewrite He in Hc |- *; cbn in Hc; subst.
  - rewrite <- size_dom. symmetry. rewrite <- (list_to_set_elements_L (dom (identity_to_objects d))).
    rewrite size_list_to_set by apply NoDup_elements.
    apply (bijection_length (λ p, from_option (identity p) EmptyString (plan !! p))); [done|apply NoDup_elements| |].
    + intros p q Hp%Hinl Hq%Hinl. pose proof Hp as [_ (x & Hx & _)]. pose proof Hq as [_ (y & Hy & _)]. rewrite Hx, Hy. cbn.
      by apply (def_unique _ _ _ Hd).
    + intros k. rewrite elem_of_elements, elem_of_dom, (def_exact _ _ _ Hd). split.
      * intros (p & x & Hp & Hx & ->). exists p. split; [by apply Hinl|]. by rewrite Hx.
      * intros (p & Hp%Hinl & Hk). pose proof Hp as [_ (x & Hx & _)]. rewrite Hx in Hk. cbn in Hk. by exists p, x.
Qed.

Lemma GenerateFragmentPlan_spec plan root fuel d :
  ready plan root fuel → defines plan root d →
  ∃ h r m, GenerateFragmentPlan address_text allocate fuel plan root d = Ok (h, r) ∧
    instance_of plan root (with_target d) (with_objects d) h r m.
Proof.
  intros [Hwf (rank & Hrank & Hfuel) Hcopy Hshaped] Hd.
  destruct (instantiate plan root rank fuel Hwf Hrank Hfuel Hcopy Hshaped
    (SetTargetObject (target_object d) (target_format d)) (with_target d) (configure_import address_text d) (with_objects d))
    as (h1 & h2 & r & m & leaves & Hc & Hu & Hl & Hnd & Hin & h & Hf & Hinst).
  - intros op Hop. destruct op as [| | | | | |[]| | | | |]; try done. cbn.
    by rewrite bool_decide_true by apply (def_etag _ _ _ Hd).
  - intros p x h c y Hp Hx Hc Hid Ht. unfold configure_import, deref. rewrite Hc. cbn [of_option rbind]. rewrite Hid.
    assert (is_Some (identity_to_objects d !! identity p x)) as [refs Hrefs] by (apply (def_exact _ _ _ Hd); eauto).
    rewrite Hrefs. cbn [of_option rbind].
    destruct (proxy_operator y) as [| | | | |ids orefs opts n|[]| | | | |] eqn:Hop; try done.
    erewrite update_operator_ok by (try exact Hc; by rewrite Hop). cbn [rbind].
    erewrite update_operator_ok by (try apply lookup_insert_eq; done). rewrite insert_insert_eq. cbn. by rewrite Hrefs.
  - by intros k [].
  - exists h, r, m. split; [|done]. unfold GenerateFragmentPlan. rewrite Hc. cbn [rbind]. rewrite Hu. cbn [rbind].
    rewrite Hl. cbn [rbind]. rewrite bool_decide_true.
    + cbn [assert_ rbind]. by rewrite Hf.
    + eapply definition_size; [done|done|done|done|apply (io_dom _ _ _ _ _ _ _ Hinst)|apply (io_inj _ _ _ _ _ _ _ Hinst)|done].
Qed.
End Correct.
