(* ===== verification/WorkerPlan.v ===== *)
(** * From the coordinator's pipeline to the worker's fragment plan

    The composition of [lambda_executor.cpp] (the request holds the serialized template),
    [pqp_serialization.cpp] and [pipeline_fragment_template.cpp] in
    [bin/function/worker_function.cpp]: what a worker executes is the pipeline's plan with
    the objects of its fragment definition. *)

From stdpp Require Import pretty fin_sets infinite.
From S2P Require Export PqpRoundtrip PipelineFragments.

Local Open Scope string_scope.

Section Worker.
Context {J : Type} `{JsonLaws J} `{!JsonText J} `{ExpressionNamesLaws} `{OperatorNamesLaws} {A : Type} `{ArrowCompute A}.
Variable address_text : N → string.
Variables (worker_address_text : string → string) (allocate : gset string → string).
Hypothesis Hallocate : ∀ s, allocate s ∉ s.

(** [OnHandleRequest] between reading the request and creating the operators. *)
Definition worker_plan (fuel : nat) (serialized_pqp_pipeline : string) (fragment_definition : PipelineFragmentDefinition)
    : result (gmap string (Proxy A string) * string) :=
  '(plan, pqp_pipeline) ← DeserializePqp (J:=J) fuel serialized_pqp_pipeline;
  _ ← assert_ (bool_decide (is_Some (plan !! pqp_pipeline))) AssertionFailed;
  '(plan, fragment_template) ← make_PipelineFragmentTemplate worker_address_text allocate fuel plan pqp_pipeline;
  GenerateFragmentPlan worker_address_text allocate fuel plan fragment_template fragment_definition.

(** ** The deserialized plan *)
Section Arrived.
Variables (plan : Plan A) (fuel : nat) (root : N) (xroot : Proxy A N).
Hypothesis Hroot : plan !! root = Some xroot.
Hypothesis Hsend : sendable address_text plan fuel root.
Hypothesis Hwf : well_formed plan root.
Variable rank : N → nat.
Hypothesis Hrank : ranked plan root rank.
Hypothesis Hshaped : pipeline_shaped plan root.
Variable m : gmap string (Proxy A string).
Hypothesis Hm : holds_plan address_text plan root (arrived address_text plan) m.

Abbreviation identity := (Identity (A:=A) address_text).
Abbreviation arrived := (arrived address_text plan).
Abbreviation reachable := (plan_reachable plan root).

Lemma arrived_lookup p x : reachable p → plan !! p = Some x → m !! identity p x = Some (arrived p x).
Proof. intros Hp Hx. apply Hm. by exists p, x. Qed.

Lemma arrived_inputs p x k :
  reachable p → plan !! p = Some x →
  k ∈ inputs (arrived p x) ↔ ∃ q y, q ∈ inputs x ∧ plan !! q = Some y ∧ k = identity q y.
Proof.
  intros Hp Hx. assert (∀ q, q ∈ inputs x → ∃ y, plan !! q = Some y ∧ input_identity address_text plan (Some q) = identity q y) as Hin.
  { intros q Hq. destruct (wf_closed _ _ Hwf q) as [y Hy]; [by eapply plan_reachable_input|]. exists y. split; [done|].
    cbn. by rewrite Hy. }
  unfold arrived, input_pointer, inputs in *. cbn [LeftInput RightInput]. rewrite elem_of_app. setoid_rewrite elem_of_app. split.
  - intros [Hk|Hk].
    + destruct (LeftInput x) as [q|]; cbn -[input_identity] in *; [|by apply elem_of_nil in Hk].
      apply list_elem_of_singleton in Hk as ->. destruct (Hin q) as (y & Hy & ->); [by left|]. exists q, y. split; [left; by left|done].
    + destruct (RightInput x) as [q|]; cbn -[input_identity] in *; [|by apply elem_of_nil in Hk].
      apply list_elem_of_singleton in Hk as ->. destruct (Hin q) as (y & Hy & ->); [apply elem_of_app; right; by left|].
      exists q, y. split; [right; by left|done].
  - intros (q & y & [Hq|Hq] & Hy & ->).
    + left. destruct (LeftInput x) as [l|]; [|by apply elem_of_nil in Hq]. apply list_elem_of_singleton in Hq as ->.
      cbn. rewrite Hy. by left.
    + right. destruct (RightInput x) as [l|]; [|by apply elem_of_nil in Hq]. apply list_elem_of_singleton in Hq as ->.
      cbn. rewrite Hy. by left.
Qed.

Lemma arrived_reachable k :
  plan_reachable m (identity root xroot) k ↔ ∃ p x, reachable p ∧ plan !! p = Some x ∧ k = identity p x.
Proof.
  split.
  - induction 1 as [|k y l _ (p & x & Hp & Hx & ->) Hy Hl]; [exists root, xroot; by split; [constructor|]|].
    rewrite (arrived_lookup p x Hp Hx) in Hy. injection Hy as <-.
    apply (arrived_inputs p x l Hp Hx) in Hl as (q & z & Hq & Hz & ->). exists q, z. split; [by eapply plan_reachable_input|done].
  - intros (p & x & Hp & Hx & ->). revert x Hx. induction Hp as [|p y q Hp IH Hy Hq]; intros x Hx.
    + rewrite Hroot in Hx. injection Hx as <-. constructor.
    + eapply plan_reachable_input; [by apply IH|by apply arrived_lookup|]. apply (arrived_inputs p y _ Hp Hy). by exists q, x.
Qed.

(** The proxy behind a reachable identity. *)
Lemma arrived_proxy k y :
  plan_reachable m (identity root xroot) k → m !! k = Some y →
  ∃ p x, reachable p ∧ plan !! p = Some x ∧ k = identity p x ∧ y = arrived p x.
Proof.
  intros (p & x & Hp & Hx & ->)%arrived_reachable Hy. rewrite (arrived_lookup p x Hp Hx) in Hy. injection Hy as <-.
  by exists p, x.
Qed.

Lemma transmitted_type (op op' : ProxyOperator A) : transmitted op = Ok op' → Type_ op' = Type_ op.
Proof.
  destruct op; cbn; try by intros [= <-]. intros (o & _ & [= <-])%bind_ok. done.
Qed.

Lemma arrived_type p x : Type_ (proxy_operator (arrived p x)) = Type_ (proxy_operator x).
Proof. cbn. unfold arrived_operator. destruct (transmitted _) as [op|] eqn:Hop; [by apply transmitted_type|done]. Qed.

Lemma arrived_leaf k :
  leaf m (identity root xroot) k ↔ ∃ p x, leaf plan root p ∧ plan !! p = Some x ∧ k = identity p x.
Proof.
  split.
  - intros [Hk (y & Hy & Hin)]. destruct (arrived_proxy k y Hk Hy) as (p & x & Hp & Hx & -> & ->). exists p, x.
    split; [|done]. split; [done|]. exists x. split; [done|]. destruct (inputs x) as [|q l] eqn:Hq; [done|]. exfalso.
    destruct (wf_closed _ _ Hwf q) as [z Hz]; [eapply plan_reachable_input; [exact Hp|exact Hx|rewrite Hq; by left]|].
    assert (identity q z ∈ inputs (arrived p x)) as Hel by (apply (arrived_inputs p x _ Hp Hx); exists q, z; rewrite Hq; split; [by left|done]).
    rewrite Hin in Hel. by apply elem_of_nil in Hel.
  - intros (p & x & [Hp (x' & Hx' & Hin)] & Hx & ->). rewrite Hx in Hx'. injection Hx' as <-.
    split; [apply arrived_reachable; by exists p, x|]. exists (arrived p x). split; [by apply arrived_lookup|].
    destruct (inputs (arrived p x)) as [|e l] eqn:He; [done|]. exfalso.
    assert (e ∈ inputs (arrived p x)) as Hel by (rewrite He; by left).
    apply (arrived_inputs p x e Hp Hx) in Hel as (q & y & Hq & _). rewrite Hin in Hq. by apply elem_of_nil in Hq.
Qed.

Lemma arrived_well_formed : well_formed m (identity root xroot).
Proof.
  split.
  - intros k (p & x & Hp & Hx & ->)%arrived_reachable. rewrite (arrived_lookup p x Hp Hx). by eexists.
  - intros k y Hk Hy. destruct (arrived_proxy k y Hk Hy) as (p & x & Hp & Hx & -> & ->). cbn. unfold input_pointer.
    destruct (LeftInput x) eqn:Hl; [done|]. by rewrite (wf_left _ _ Hwf p x Hp Hx Hl).
  - intros k y Hk Hy. destruct (arrived_proxy k y Hk Hy) as (p & x & Hp & Hx & -> & ->).
    destruct (arity_type _ _ (LeftInput (arrived p x)) (RightInput (arrived p x)) (arrived_type p x)) as [-> ->].
    destruct (wf_arity _ _ Hwf p x Hp Hx) as [Hl Hr]. unfold copied_left, copied_right in *. cbn. unfold input_pointer. split.
    + destruct (proxy_operator x); try done. by rewrite <- Hl.
    + destruct (RequiresRightInput _); [done|]. by rewrite <- Hr.
Qed.

Lemma arrived_shaped : pipeline_shaped m (identity root xroot).
Proof.
  split.
  - exists (arrived root xroot). split; [apply arrived_lookup; [constructor|done]|]. rewrite arrived_type.
    destruct Hshaped as [(x & Hx & Ht) _]. congruence.
  - intros k y Hk Hy Hin. assert (leaf m (identity root xroot) k) as Hleaf by (split; [done|by exists y]).
    apply arrived_leaf in Hleaf as (p & x & [Hp (x' & Hx' & Hxin)] & Hx & ->). rewrite (arrived_lookup p x Hp Hx) in Hy.
    injection Hy as <-. rewrite arrived_type. apply (proj2 Hshaped p); [done|done|congruence].
Qed.

Lemma arrived_acyclic : (rank root < fuel)%nat → acyclic m (identity root xroot) fuel.
Proof.
  intros Hfuel. destruct (visit_order plan root Hwf) as (l & _ & _ & Hl).
  set (rank' k := match list_find (λ p, from_option (identity p) EmptyString (plan !! p) = k) l with
                  | Some (_, p) => rank p | None => 0%nat end).
  assert (∀ p x, reachable p → plan !! p = Some x → rank' (identity p x) = rank p) as Hrank'.
  { intros p x Hp Hx. unfold rank'. destruct (list_find _ l) as [[i q]|] eqn:Hf.
    - apply list_find_Some in Hf as (Hq%list_elem_of_lookup_2%Hl & Hid & _).
      destruct (wf_closed _ _ Hwf q Hq) as [y Hy]. rewrite Hy in Hid. cbn in Hid.
      by rewrite (sendable_unique _ _ _ _ Hsend q p y x Hq Hp Hy Hx Hid).
    - apply list_find_None in Hf. rewrite Forall_forall in Hf. exfalso. apply (Hf p); [by apply Hl|]. by rewrite Hx. }
  exists rank'. split.
  - intros k y e Hk Hy He. destruct (arrived_proxy k y Hk Hy) as (p & x & Hp & Hx & -> & ->).
    apply (arrived_inputs p x e Hp Hx) in He as (q & z & Hq & Hz & ->).
    rewrite (Hrank' p x Hp Hx), (Hrank' q z) by (try done; by eapply plan_reachable_input). by eapply Hrank.
  - rewrite (Hrank' root xroot); [done|constructor|done].
Qed.

Lemma arrived_defines (address : string → string) d :
  defines address_text plan root d → defines address m (identity root xroot) d.
Proof.
  intros Hd. assert (∀ k p x, Identity address k (arrived p x) = identity p x) as Hid.
  { intros k p x. unfold Identity at 1. cbn. by rewrite decide_False by apply Identity_nonempty. }
  split; [apply (def_etag _ _ _ _ Hd)| |].
  - intros k l y z (p & x & Hp & Hx & ->)%arrived_leaf (q & x' & Hq & Hx' & ->)%arrived_leaf Hy Hz.
    pose proof (proj1 Hp) as Hpr. pose proof (proj1 Hq) as Hqr.
    rewrite (arrived_lookup p x Hpr Hx) in Hy. rewrite (arrived_lookup q x' Hqr Hx') in Hz.
    injection Hy as <-. injection Hz as <-. by rewrite !Hid.
  - intros k. rewrite (def_exact _ _ _ _ Hd). split.
    + intros (p & x & Hp & Hx & ->). exists (identity p x), (arrived p x). split; [apply arrived_leaf; by exists p, x|].
      split; [by apply arrived_lookup; [apply Hp|]|by rewrite Hid].
    + intros (l & y & (p & x & Hp & Hx & ->)%arrived_leaf & Hy & ->). exists p, x. split; [done|]. split; [done|].
      rewrite (arrived_lookup p x (proj1 Hp) Hx) in Hy. injection Hy as <-. by rewrite Hid.
Qed.

(** *** Operators that arrived are their own copies *)
Lemma DeepCopy_idempotent e : DeepCopy (DeepCopy e) = DeepCopy e.
Proof.
  induction e using expr_ind; cbn; try congruence. f_equal. rewrite map_map.
  match goal with Hes : Forall _ es |- _ => induction Hes as [|e es He _ IH] end; [done|]. cbn. by rewrite He, IH.
Qed.

Lemma DeepCopy_list_idempotent (es : list expr) : DeepCopy <$> (DeepCopy <$> es) = DeepCopy <$> es.
Proof. rewrite <- list_fmap_compose. apply list_fmap_ext. intros _ e _. apply DeepCopy_idempotent. Qed.

Lemma transmitted_copy (op op' : ProxyOperator A) :
  transmissible fuel op → transmitted op = Ok op' → OnDeepCopy op' = Ok op'.
Proof.
  intros [Hmake Hvalid] Hop. destruct op; cbn in Hop; try (injection Hop as <-); try done; cbn in Hmake |- *.
  - by rewrite DeepCopy_list_idempotent.
  - apply bind_ok in Hmake as ([] & Hetag & _). by rewrite Hetag.
  - by rewrite DeepCopy_idempotent.
  - apply bind_ok in Hop as (o & _ & [= <-]). apply bind_ok in Hmake as ([] & Hids & _). cbn. rewrite Hids. cbn. by destruct o.
  - by rewrite DeepCopy_idempotent.
  - by rewrite DeepCopy_list_idempotent.
Qed.

Lemma arrived_copy p x :
  reachable p → plan !! p = Some x → OnDeepCopy (arrived_operator x) = Ok (arrived_operator x).
Proof.
  intros Hp Hx. destruct (sendable_operator _ _ _ _ Hsend p x Hp Hx) as (Hop & Hok%translatable_ok & _).
  unfold arrived_operator. destruct (transmitted _) as [op|] eqn:Ht; [|done]. by eapply transmitted_copy.
Qed.

Lemma arrived_ready : (rank root < fuel)%nat → ready m (identity root xroot) fuel.
Proof.
  intros Hfuel. split; [apply arrived_well_formed|by apply arrived_acyclic| |apply arrived_shaped].
  intros k y Hk Hy. destruct (arrived_proxy k y Hk Hy) as (p & x & Hp & Hx & -> & ->). cbn.
  by rewrite (arrived_copy p x Hp Hx).
Qed.
End Arrived.

(** ** The whole way *)

(** The operator that a worker executes for the proxy [x] at [p]. *)
Definition fragment_operator (root : N) (d : PipelineFragmentDefinition) (p : N) (x : Proxy A N) : ProxyOperator A :=
  if decide (p = root) then with_target d (arrived_operator x)
  else if decide (inputs x = []) then with_objects d (Identity address_text p x) (arrived_operator x)
  else arrived_operator x.

(** [h] holds at [r] a copy of the plan, through [w], with the fragment's operators. *)
Record worker_copy (plan : Plan A) (root : N) (d : PipelineFragmentDefinition)
    (h : gmap string (Proxy A string)) (r : string) (w : N → option string) : Prop := {
  wc_root : w root = Some r;
  wc_injective p q c : plan_reachable plan root p → plan_reachable plan root q → w p = Some c → w q = Some c → p = q;
  wc_reachable c : plan_reachable h r c ↔ ∃ p, plan_reachable plan root p ∧ w p = Some c;
  wc_node p x : plan_reachable plan root p → plan !! p = Some x → ∃ c, w p = Some c ∧
    h !! c = Some (mkProxy (fragment_operator root d p x) (Identity address_text p x) (comment_ x)
      (LeftInput x ≫= w) (RightInput x ≫= w) EmptyString EmptyString) }.
End Worker.

(** The operators after the three copies. *)
Section Settled.
Context {A : Type}.

Lemma settled_root d (op : ProxyOperator A) :
  OnDeepCopy op = Ok op → with_target d (copied_operator (without_target (copied_operator op))) = with_target d op.
Proof.
  intros Hop. unfold copied_operator at 2. rewrite Hop. unfold copied_operator.
  destruct op; cbn [without_target]; rewrite ?Hop; done.
Qed.

Lemma settled_leaf d k (op : ProxyOperator A) :
  OnDeepCopy op = Ok op → with_objects d k (copied_operator (without_objects k (copied_operator op))) = with_objects d k op.
Proof.
  intros Hop. unfold copied_operator at 2. rewrite Hop. unfold copied_operator.
  destruct op; cbn [without_objects]; rewrite ?Hop; try done.
  cbn in Hop |- *. destruct (assert_ _ _) as [[]|]; [cbn in Hop |- *|done]. destruct (assert_ _ _) as [[]|]; [cbn in Hop |- *|done].
  by destruct import_options.
Qed.

Lemma settled_inner (op : ProxyOperator A) :
  OnDeepCopy op = Ok op → copied_operator (copied_operator op) = op.
Proof. intros Hop. unfold copied_operator at 2. rewrite Hop. unfold copied_operator. by rewrite Hop. Qed.
End Settled.

Section Composition.
Context {J : Type} `{JsonLaws J} `{!JsonText J} `{ExpressionNamesLaws} `{OperatorNamesLaws} {A : Type} `{ArrowCompute A}.
Variables (address_text : N → string) (worker_address_text : string → string) (allocate : gset string → string).
Hypothesis Hallocate : ∀ s, allocate s ∉ s.
Variables (plan : Plan A) (root : N) (xroot : Proxy A N) (fuel : nat) (d : PipelineFragmentDefinition).
Hypothesis Hroot : plan !! root = Some xroot.
Hypothesis Hsend : sendable address_text plan fuel root.
Hypothesis Hready : ready plan root fuel.

Abbreviation identity := (Identity (A:=A) address_text).
Abbreviation reachable := (plan_reachable plan root).

(** The two instances of the deserialized plan. *)
Section Maps.
Variables (m h1 h : gmap string (Proxy A string)) (t r : string) (m1 m2 : gmap string string).
Hypothesis Hm : holds_plan address_text plan root (arrived address_text plan) m.
Hypothesis Hwf : well_formed m (identity root xroot).
Hypothesis Hwf1 : well_formed h1 t.
Hypothesis Hfirst : instance_of worker_address_text m (identity root xroot) without_target without_objects h1 t m1.
Hypothesis Hsecond : instance_of worker_address_text h1 t (with_target d) (with_objects d) h r m2.

(** Where the worker keeps the proxy that the coordinator has at [p]. *)
Definition worker_address (p : N) : option string :=
  match plan !! p with Some x => m1 !! identity p x ≫= (m2 !!.) | None => None end.

Lemma worker_address_input p (x : Proxy A N) (input : option N) :
  reachable p → plan !! p = Some x → (∀ q, input = Some q → q ∈ inputs x) →
  (input_pointer address_text plan input ≫= (m1 !!.)) ≫= (m2 !!.) = input ≫= worker_address.
Proof.
  intros Hp Hx Hin. destruct input as [q|]; [|done].
  destruct (wf_closed _ _ (ready_well_formed _ _ _ Hready) q) as [y Hy]; [eapply plan_reachable_input; eauto|].
  cbn. unfold worker_address. by rewrite Hy.
Qed.

(** Both steps for one proxy. *)
Lemma worker_address_node p x :
  reachable p → plan !! p = Some x →
  ∃ k c y, m1 !! identity p x = Some k ∧ m2 !! k = Some c ∧ plan_reachable h r c ∧ h !! c = Some y ∧
    y = mkProxy (fragment_operator address_text root d p x) (identity p x) (comment_ x)
      (LeftInput x ≫= worker_address) (RightInput x ≫= worker_address) EmptyString EmptyString.
Proof.
  intros Hp Hx. pose proof (arrived_lookup address_text plan root m Hm p x Hp Hx) as Hmp.
  assert (plan_reachable m (identity root xroot) (identity p x)) as Hmr
    by (eapply arrived_reachable; [exact Hroot|apply Hready|exact Hm|]; by exists p, x).
  destruct (instance_node worker_address_text m (identity root xroot) Hwf _ _ _ _ _ Hfirst _ _ Hmr Hmp)
    as (k & Hk & Hkt & Hkr & y1 & Hy1 & Hy1e & Hin1).
  destruct (instance_node worker_address_text h1 t Hwf1 _ _ _ _ _ Hsecond _ _ Hkr Hy1)
    as (c & Hc & _ & Hcr & y2 & Hy2 & Hy2e & _).
  exists k, c, y2. do 4 (split; [done|]). rewrite Hy2e.
  assert (∀ (addr : string → string) l (y : Proxy A string), identity_ y = identity p x → Identity addr l y = identity p x) as Hid.
  { intros addr l y Hy. unfold Identity at 1. rewrite Hy. by rewrite decide_False by apply Identity_nonempty. }
  assert (identity_ y1 = identity p x) as Hid1 by (rewrite Hy1e; cbn [identity_]; by apply Hid).
  assert (LeftInput y1 = input_pointer address_text plan (LeftInput x) ≫= (m1 !!.)) as -> by by rewrite Hy1e.
  assert (RightInput y1 = input_pointer address_text plan (RightInput x) ≫= (m1 !!.)) as -> by by rewrite Hy1e.
  assert (comment_ y1 = comment_ x) as -> by by rewrite Hy1e.
  rewrite (Hid _ _ _ Hid1), (worker_address_input p x (LeftInput x)), (worker_address_input p x (RightInput x)); try done;
    try (intros q Hq; unfold inputs; rewrite elem_of_app, Hq; first [left; by left|right; by left]).
  f_equal. assert (proxy_operator y1 = instance_operator worker_address_text (identity root xroot) without_target without_objects
    (identity p x) (arrived address_text plan p x) (copied_operator (arrived_operator x))) as -> by by rewrite Hy1e.
  pose proof (arrived_copy address_text plan fuel root Hsend p x Hp Hx) as Hcopy.
  unfold instance_operator, fragment_operator. rewrite !(Hid worker_address_text _ (arrived address_text plan p x)) by done.
  rewrite (Hid worker_address_text k y1 Hid1).
  assert (identity p x = identity root xroot ↔ p = root) as Hids.
  { split; [|intros ->; congruence].
    intros He. eapply (sendable_unique _ _ _ _ Hsend); [done|constructor|done|done|done]. }
  assert (inputs (arrived address_text plan p x) = [] ↔ inputs x = []) as Hempty.
  { unfold inputs, arrived, input_pointer. by destruct (LeftInput x), (RightInput x). }
  destruct (decide (p = root)) as [Hpr|Hpr].
  - rewrite (decide_True (P := k = t)), (decide_True (P := identity p x = identity root xroot)) by tauto.
    by apply settled_root.
  - rewrite (decide_False (P := k = t)), (decide_False (P := identity p x = identity root xroot)) by tauto.
    destruct (decide (inputs x = [])) as [Hx0|Hx0].
    + rewrite (decide_True (P := inputs y1 = [])), (decide_True (P := inputs (arrived address_text plan p x) = []))
        by tauto. by apply settled_leaf.
    + rewrite (decide_False (P := inputs y1 = [])), (decide_False (P := inputs (arrived address_text plan p x) = []))
        by tauto. by apply settled_inner.
Qed.

Lemma worker_address_copy : worker_copy address_text plan root d h r worker_address.
Proof.
  assert (∀ p, reachable p → ∃ x, plan !! p = Some x) as Hclosed.
  { intros p Hp. apply (wf_closed _ _ (ready_well_formed _ _ _ Hready) p Hp). }
  assert (∀ p x k c, plan !! p = Some x → m1 !! identity p x = Some k → m2 !! k = Some c → worker_address p = Some c) as Hw.
  { intros p x k c Hx Hk Hc. unfold worker_address. rewrite Hx, Hk. exact Hc. }
  split.
  - eapply Hw; [exact Hroot|apply (io_root _ _ _ _ _ _ _ _ Hfirst)|apply (io_root _ _ _ _ _ _ _ _ Hsecond)].
  - intros p q c Hp Hq Hpc Hqc. destruct (Hclosed p Hp) as [x Hx], (Hclosed q Hq) as [y Hy].
    unfold worker_address in Hpc, Hqc. rewrite Hx in Hpc. rewrite Hy in Hqc.
    destruct (m1 !! identity p x) as [k|] eqn:Hk; [|done]. destruct (m1 !! identity q y) as [l|] eqn:Hl; [|done].
    assert (k = l) as -> by by eapply (io_inj _ _ _ _ _ _ _ _ Hsecond).
    eapply (sendable_unique _ _ _ _ Hsend); [exact Hp|exact Hq|exact Hx|exact Hy|].
    by eapply (io_inj _ _ _ _ _ _ _ _ Hfirst).
  - intros c. split.
    + intros (k & (l & Hl & Hlk)%(instance_reachable worker_address_text _ _ Hwf _ _ _ _ _ Hfirst) & Hc)%(instance_reachable
        worker_address_text _ _ Hwf1 _ _ _ _ _ Hsecond).
      eapply arrived_reachable in Hl as (p & x & Hp & Hx & ->); [|exact Hroot|apply Hready|exact Hm].
      exists p. split; [done|]. by eapply Hw.
    + intros (p & Hp & Hc). destruct (Hclosed p Hp) as [x Hx].
      destruct (worker_address_node p x Hp Hx) as (k & c' & y & Hk & Hc' & Hr & _).
      pose proof (Hw p x k c' Hx Hk Hc'). congruence.
  - intros p x Hp Hx. destruct (worker_address_node p x Hp Hx) as (k & c & y & Hk & Hc & _ & Hy & ->).
    exists c. split; [by eapply Hw|done].
Qed.
End Maps.
End Composition.

(** C11: What a worker executes is the coordinator's pipeline with the objects of its fragment
    definition.  Serializing the pipeline's template succeeds; the worker deserializes it,
    builds a template of its own and generates the fragment plan without an error; and the
    result has one proxy per proxy of the template, connected in the same way, shared inputs
    shared, with its identity, comment and transmitted operator (the booleans read with
    [GetBool] as [get_bool] has it, as documented or always [false]), except that the export at
    the root gets the definition's target and format and every import the definition's
    objects for its identity and a single output object. *)
Theorem worker_plan_correct {J : Type} `{JsonLaws J} `{!JsonText J} `{ExpressionNamesLaws} `{OperatorNamesLaws}
    {A : Type} `{ArrowCompute A} (address_text : N → string) (worker_address_text : string → string)
    (allocate : gset string → string) (plan : Plan A) (root : N) (fuel : nat) (d : PipelineFragmentDefinition)
    (Hallocate : ∀ s, allocate s ∉ s) (Hsend : sendable address_text plan fuel root) (Hready : ready plan root fuel)
    (Hdefines : defines address_text plan root d) :
  ∃ text, SerializePqp (J:=J) address_text plan root = Ok text ∧
    ∃ h r w, worker_plan (J:=J) worker_address_text allocate fuel text d = Ok (h, r) ∧
      worker_copy address_text plan root d h r w.
Proof.
  destruct (ready_well_formed _ _ _ Hready) as [Hclosed _ _]. destruct (Hclosed root) as [x Hx]; [constructor|].
  destruct (pqp_roundtrip (J:=J) address_text plan root x fuel Hx Hsend) as (text & Htext & m & Hm & Hplan).
  exists text. split; [exact Htext|].
  destruct (ready_acyclic _ _ _ Hready) as (rank & Hrank & Hfuel).
  assert (ready m (Identity address_text root x) fuel) as Hready'.
  { eapply arrived_ready; eauto; try apply Hready. }
  assert (defines worker_address_text m (Identity address_text root x) d) as Hdefines'.
  { eapply arrived_defines; eauto; try apply Hready. }
  destruct (make_PipelineFragmentTemplate_spec worker_address_text allocate Hallocate m _ fuel Hready')
    as (h1 & t & m1 & Htemplate & Hfirst & Hready1 & Hdef1).
  destruct (GenerateFragmentPlan_spec worker_address_text allocate Hallocate h1 t fuel d Hready1 (Hdef1 d Hdefines'))
    as (h & r & m2 & Hfragment & Hsecond).
  exists h, r, (worker_address address_text plan m1 m2). split.
  - unfold worker_plan. rewrite Hm. cbn [rbind]. rewrite bool_decide_true.
    + cbn [assert_ rbind]. rewrite Htemplate. cbn [rbind]. exact Hfragment.
    + exists (arrived address_text plan root x). apply Hplan. exists root, x. by split; [constructor|].
  - eapply worker_address_copy; eauto; [apply Hready'|apply Hready1].
Qed.

(** The self join of the serialization's example, below an export. *)
Definition worker_example : Plan arrow_tree :=
  <[4%N := mkProxy (ExportOperatorProxy kTargetObjectPlaceholder kOrc false) EmptyString EmptyString (Some 3%N) None
             EmptyString EmptyString]> example_plan.

Definition worker_definition : PipelineFragmentDefinition :=
  mkPipelineFragmentDefinition {[ "Import1" := [mkObjectReference "bucket" "part-7.parquet" "etag7" None] ]}
    (mkObjectReference "results" "pipeline/7.orc" EmptyString None) kOrc.

Lemma worker_example_lookup p x : worker_example !! p = Some x → p = 1%N ∨ p = 2%N ∨ p = 3%N ∨ p = 4%N.
Proof.
  unfold worker_example. destruct (decide (p = 4%N)) as [->|]; [auto|]. rewrite lookup_insert_ne by done.
  intros Hx%example_lookup. tauto.
Qed.

Lemma worker_example_closed p : plan_reachable worker_example 4%N p → is_Some (worker_example !! p).
Proof.
  induction 1 as [|p x q _ [y Hy] Hx Hq]; [by eexists|]. rewrite Hx in Hy. clear y Hy.
  destruct (worker_example_lookup p x Hx) as [->|[->|[->| ->]]]; injection Hx as <-;
    repeat (apply elem_of_cons in Hq as [->|Hq]; [by eexists|]); by apply elem_of_nil in Hq.
Qed.

Lemma worker_example_sendable : sendable pretty worker_example 8 4%N.
Proof.
  split; [exact worker_example_closed| | |].
  - intros p q x y _ _ Hx Hy. pose proof (worker_example_lookup p x Hx). pose proof (worker_example_lookup q y Hy).
    destruct_or!; subst; injection Hx as <-; injection Hy as <-; try done; vm_compute; discriminate.
  - intros p x _ Hx. destruct (worker_example_lookup p x Hx) as [->|[->|[->| ->]]]; by injection Hx as <-.
  - intros p x _ Hx. destruct (worker_example_lookup p x Hx) as [->|[->|[->| ->]]]; injection Hx as <-.
    + split; [|by split]. split; [done|]. unfold valid_expression, valid_reference, valid_column_ids. cbn.
      repeat split; try done; repeat constructor; cbn; try done; lia.
    + split; [|by split]. split; [done|]. split; [done|]. cbn. lia.
    + split; [|by split]. split; [done|]. split; [by split|constructor].
    + split; [|by split]. by split.
Qed.

Lemma worker_example_ready : ready worker_example 4%N 8.
Proof.
  split.
  - split; [exact worker_example_closed| |];
      intros p x _ Hx; destruct (worker_example_lookup p x Hx) as [->|[->|[->| ->]]]; by injection Hx as <-.
  - exists N.to_nat. split; [|cbn; lia]. intros p x q _ Hx Hq.
    destruct (worker_example_lookup p x Hx) as [->|[->|[->| ->]]]; injection Hx as <-;
      repeat (apply elem_of_cons in Hq as [->|Hq]; [cbn; lia|]); by apply elem_of_nil in Hq.
  - intros p x _ Hx. destruct (worker_example_lookup p x Hx) as [->|[->|[->| ->]]]; by injection Hx as <-.
  - split; [by eexists|]. intros p x _ Hx.
    destruct (worker_example_lookup p x Hx) as [->|[->|[->| ->]]]; by injection Hx as <-.
Qed.

Lemma worker_example_defines : defines pretty worker_example 4%N worker_definition.
Proof.
  assert (∀ p, leaf worker_example 4%N p → p = 1%N) as Hleaf.
  { intros p [_ (x & Hx & Hin)]. destruct (worker_example_lookup p x Hx) as [->|[->|[->| ->]]]; injection Hx as <-; done. }
  assert (leaf worker_example 4%N 1%N) as H1.
  { split; [|by eexists]. eapply plan_reachable_input with (p := 3%N); [|done|right; by left].
    eapply plan_reachable_input; [constructor|done|by left]. }
  split; [done| |].
  - intros p q x y Hp%Hleaf Hq%Hleaf _ _ _. congruence.
  - intros k. cbn. rewrite lookup_singleton_is_Some. split.
    + intros <-. eexists 1%N, _. split; [done|]. split; [reflexivity|]. by vm_compute.
    + intros (p & x & ->%Hleaf & Hx & ->). injection Hx as <-. by vm_compute.
Qed.

Lemma worker_plan_correct_witness :
  ∃ text, SerializePqp (J:=doc) pretty worker_example 4%N = Ok text ∧
    ∃ h r w, worker_plan (J:=doc) id fresh 8 text worker_definition = Ok (h, r) ∧
      worker_copy pretty worker_example 4%N worker_definition h r w.
Proof.
  exact (worker_plan_correct (J:=doc) pretty id fresh worker_example 4%N 8 worker_definition
    (λ s, is_fresh s) worker_example_sendable worker_example_ready worker_example_defines).
Defined.
