(* ===== verification/FragmentJson.v ===== *)
(** * The JSON form of fragment definitions

    [PipelineFragmentDefinition::ToJson] and [FromJson] of [pipeline_fragment_template.cpp].
    The objects of one import share the bucket, the partitions and the beginning of their
    keys, up to the second to last separator. *)

From Stdlib Require Import Ascii.
From S2P Require Export PqpRoundtrip.

Local Open Scope string_scope.

(** ** Strings: [find_last_of] and [substr] *)
Fixpoint find_last_of (c : ascii) (s : string) : option nat :=
  match s with
  | EmptyString => None
  | String a s' =>
      match find_last_of c s' with
      | Some i => Some (S i)
      | None => if Ascii.eqb a c then Some 0%nat else None
      end
  end.

Fixpoint take_chars (n : nat) (s : string) : string :=
  match n, s with S n, String a s => String a (take_chars n s) | _, _ => EmptyString end.
Fixpoint drop_chars (n : nat) (s : string) : string :=
  match n, s with S n, String _ s => drop_chars n s | _, _ => s end.

(** [substr(0, pos)] and [substr(pos + 1, size())]; [None] is [npos], whose successor is 0. *)
Definition substr_before (s : string) (pos : option nat) : string :=
  match pos with Some n => take_chars n s | None => s end.
Definition substr_after (s : string) (pos : option nat) : string :=
  match pos with Some n => drop_chars (S n) s | None => s end.

Definition separator : ascii := "/"%char.

Definition second_to_last_separator_position (identifier : string) : option nat :=
  find_last_of separator (substr_before identifier (find_last_of separator identifier)).

Definition key_prefix (identifier : string) : string := substr_before identifier (second_to_last_separator_position identifier).
Definition key_suffix (identifier : string) : string := substr_after identifier (second_to_last_separator_position identifier).

(** ** Both directions *)
Section Documents.
Context {J : Type} `{Json J} `{OperatorNames}.

Definition fragment_object_ToJson (o : ObjectReference) : J :=
  WithString (WithString JsonValue "source_suffix" (key_suffix (identifier o))) "etag" (etag o).

(** [bucket], [prefix] and [partitions] are declared outside of the loop over the imports. *)
Definition Shared : Type := string * string * option (list Z).
Definition shared_of (shared : Shared) (objects : list ObjectReference) : Shared :=
  match objects with
  | [] => shared
  | o :: _ => (bucket_name o, key_prefix (identifier o), partitions o)
  end.

Definition identity_json (shared : Shared) (objects : list ObjectReference) : J :=
  let '(bucket, prefix, partitions) := shared in
  let json := WithString (WithString (WithArray JsonValue "objects" (fragment_object_ToJson <$> objects))
    "source_bucket" bucket) "source_prefix" prefix in
  match partitions with
  | Some p => WithArray json "source_partitions" (VectorToJsonArray_integral p)
  | None => json
  end.

(** The loop, over the entries of the hash map in the order of its iteration. *)
Fixpoint inputs_ToJson (shared : Shared) (entries : list (string * list ObjectReference)) (inputs : J) : J :=
  match entries with
  | [] => inputs
  | (identity, objects) :: entries =>
      let shared := shared_of shared objects in
      inputs_ToJson shared entries (WithObject inputs identity (identity_json shared objects))
  end.

Definition FragmentDefinition_ToJson (entries : list (string * list ObjectReference)) (target : ObjectReference)
    (format : FileFormat) : J :=
  WithString (WithObject (WithObject JsonValue "inputs" (inputs_ToJson (EmptyString, EmptyString, None) entries JsonValue))
    "target_object" (ObjectReference_ToJson target)) "target_format" (enum_name format).

Definition fragment_objects_FromJson (json_inputs : J) : result (list ObjectReference) :=
  let bucket := GetString json_inputs "source_bucket" in
  let prefix := GetString json_inputs "source_prefix" in
  let partitions := if KeyExists json_inputs "source_partitions"
    then Some (JsonArrayToVector_integral wrap_int32 (GetArray json_inputs "source_partitions")) else None in
  mapR (λ o, make_ObjectReference bucket (prefix +:+ "/" +:+ GetString o "source_suffix") (GetString o "etag") partitions)
    (GetArray json_inputs "objects").

(** An import gets an entry with its first object. *)
Definition FragmentDefinition_FromJson (json : J) : result PipelineFragmentDefinition :=
  entries ← mapR (λ e : string * J, objects ← fragment_objects_FromJson e.2; Ok (e.1, objects))
    (GetAllObjects (GetObject json "inputs"));
  target ← ObjectReference_FromJson (GetObject json "target_object");
  format ← enum_value (GetString json "target_format");
  Ok (mkPipelineFragmentDefinition (list_to_map (filter (λ e, e.2 ≠ []) entries)) target format).
End Documents.

(** ** Keys *)
Lemma find_last_of_get c s n : find_last_of c s = Some n → String.get n s = Some c.
Proof.
  revert n. induction s as [|a s IH]; cbn; intros n Hn; [done|]. destruct (find_last_of c s) as [i|].
  - injection Hn as <-. by apply IH.
  - destruct (Ascii.eqb a c) eqn:Ha; [|done]. injection Hn as <-. apply Ascii.eqb_eq in Ha. by subst.
Qed.

Lemma get_take_chars l s n c : String.get n (take_chars l s) = Some c → String.get n s = Some c.
Proof. revert s n. induction l as [|l IH]; intros [|a s] [|n]; cbn; try done. apply IH. Qed.

Lemma split_at s n c : String.get n s = Some c → s = take_chars n s +:+ String c (drop_chars (S n) s).
Proof.
  revert n. induction s as [|a s IH]; intros [|n]; cbn; try done; [by intros [= ->]|]. intros Hn.
  change (String a s = String a (take_chars n s +:+ String c (drop_chars (S n) s))). f_equal. by apply IH.
Qed.

(** A key with two separators is the prefix, a separator, and the suffix. *)
Lemma key_split k : is_Some (second_to_last_separator_position k) → k = key_prefix k +:+ "/" +:+ key_suffix k.
Proof.
  intros [n Hn]. unfold key_prefix, key_suffix. rewrite Hn. cbn [substr_before substr_after]. apply split_at.
  apply find_last_of_get in Hn. destruct (find_last_of separator k) as [l|]; [|done]. by eapply get_take_chars.
Qed.

(** ** Round trip *)
Section Roundtrip.
Context {J : Type} `{JsonLaws J} `{OperatorNamesLaws}.

(** What arrives of the objects of an import: the first object's bucket, prefix and partitions. *)
Definition transmitted_object (o0 o : ObjectReference) : ObjectReference :=
  mkObjectReference (bucket_name o0) (key_prefix (identifier o0) +:+ "/" +:+ key_suffix (identifier o)) (etag o) (partitions o0).

Definition transmitted_objects (objects : list ObjectReference) : list ObjectReference :=
  match objects with [] => [] | o0 :: _ => transmitted_object o0 <$> objects end.

Definition transmitted_definition (d : PipelineFragmentDefinition) : PipelineFragmentDefinition :=
  mkPipelineFragmentDefinition
    (omap (λ objects, if decide (objects = []) then None else Some (transmitted_objects objects)) (identity_to_objects d))
    (target_object d) (target_format d).

Definition valid_partitions (parts : option (list Z)) : Prop := on_option (Forall (λ z, in_int32 z = true)) parts.

(** What the constructors check when the definition is read. *)
Record transferable (d : PipelineFragmentDefinition) : Prop := {
  transferable_objects k o objects : identity_to_objects d !! k = Some (o :: objects) →
    bucket_name o ≠ EmptyString ∧ valid_partitions (partitions o);
  transferable_target : valid_reference (target_object d) ∧ valid_partitions (partitions (target_object d)) }.

(** The objects of every import are in the form that the document assumes. *)
Definition uniform (d : PipelineFragmentDefinition) : Prop :=
  ∀ k objects, identity_to_objects d !! k = Some objects → ∃ o0 objects', objects = o0 :: objects' ∧
    Forall (λ o, bucket_name o = bucket_name o0 ∧ partitions o = partitions o0 ∧
      is_Some (second_to_last_separator_position (identifier o)) ∧ key_prefix (identifier o) = key_prefix (identifier o0)) objects.

Lemma transmitted_uniform d : uniform d → transmitted_definition d = d.
Proof.
  intros Hd. destruct d as [m target format]. unfold transmitted_definition. cbn in *. f_equal. apply map_eq. intros k.
  rewrite lookup_omap. destruct (m !! k) as [objects|] eqn:Hk; [|done]. cbn.
  destruct (Hd k objects Hk) as (o0 & objects' & -> & Hall). rewrite decide_False by done. f_equal. unfold transmitted_objects.
  rewrite <- (list_fmap_id (o0 :: objects')) at 2. apply list_fmap_ext. intros i o Ho.
  rewrite Forall_lookup in Hall. destruct (Hall i o Ho) as (Hb & Hp & Hkey & Hpre). unfold transmitted_object.
  rewrite <- Hb, <- Hp, <- Hpre, <- (key_split _ Hkey). by destruct o.
Qed.

Lemma partitions_roundtrip (json : J) k parts :
  valid_partitions parts →
  field json k = (λ p, AArray (VectorToJsonArray_integral p)) <$> parts →
  (if KeyExists json k then Some (JsonArrayToVector_integral wrap_int32 (GetArray json k)) else None) = parts.
Proof.
  intros Hp Hk. destruct parts as [p|]; cbn in Hk.
  - rewrite (KeyExists_some _ _ _ Hk), (GetArray_field _ _ _ Hk), integers_roundtrip; [done|].
    eapply Forall_impl; [exact Hp|]. intros z. apply wrap_int32_id.
  - by rewrite (KeyExists_none _ _ Hk).
Qed.

Lemma fragment_objects_roundtrip shared objects :
  (∀ o objects', objects = o :: objects' → bucket_name o ≠ EmptyString ∧ valid_partitions (partitions o)) →
  fragment_objects_FromJson (identity_json (shared_of shared objects) objects : J) = Ok (transmitted_objects objects).
Proof.
  intros Hvalid. unfold fragment_objects_FromJson.
  destruct (shared_of shared objects) as [[bucket prefix] parts] eqn:Hshared.
  set (json := identity_json (bucket, prefix, parts) objects).
  rewrite (GetArray_field json "objects" (fragment_object_ToJson <$> objects)) by (unfold json, identity_json; destruct parts; member).
  destruct objects as [|o0 objects]; [done|]. destruct (Hvalid o0 objects eq_refl) as [Hbucket Hparts].
  cbn in Hshared. injection Hshared as <- <- <-.
  assert (field json "source_partitions" = (λ p, AArray (VectorToJsonArray_integral p)) <$> partitions o0) as Hfield
    by (unfold json, identity_json; destruct (partitions o0); member).
  rewrite (partitions_roundtrip _ _ _ Hparts Hfield).
  rewrite (GetString_field json "source_bucket" (bucket_name o0)), (GetString_field json "source_prefix" (key_prefix (identifier o0)))
    by (unfold json, identity_json; destruct (partitions o0); member).
  apply mapR_fmap, Forall_forall. intros o _.
  rewrite (GetString_field _ "source_suffix" (key_suffix (identifier o))), (GetString_field _ "etag" (etag o))
    by (unfold fragment_object_ToJson; member).
  unfold make_ObjectReference. rewrite !bool_decide_true; [done| |done].
  by destruct (key_prefix (identifier o0)).
Qed.

Lemma fragment_target_roundtrip (o : ObjectReference) :
  valid_reference o → valid_partitions (partitions o) →
  ObjectReference_FromJson (ObjectReference_ToJson o : J) = Ok o.
Proof.
  intros [Hb Hi] Hp. unfold ObjectReference_FromJson. set (json := ObjectReference_ToJson o).
  assert (field json "partitions" = (λ p, AArray (VectorToJsonArray_integral p)) <$> partitions o) as Hfield
    by (unfold json, ObjectReference_ToJson; destruct (partitions o); member).
  rewrite (partitions_roundtrip _ _ _ Hp Hfield).
  rewrite (GetString_field json "bucket_name" (bucket_name o)), (GetString_field json "identifier" (identifier o)),
    (GetString_field json "etag" (etag o)) by (unfold json, ObjectReference_ToJson; destruct (partitions o); member).
  rewrite make_ObjectReference_valid by done. by destruct o.
Qed.

(** The document of the imports has one member per entry. *)
Lemma inputs_fields shared entries (j : J) :
  NoDup entries.*1 →
  (∀ k objects, (k, objects) ∈ entries →
    ∃ sh, field (inputs_ToJson shared entries j) k = Some (AObject (identity_json (shared_of sh objects) objects))) ∧
  (∀ k, k ∉ entries.*1 → field (inputs_ToJson shared entries j) k = field j k).
Proof.
  revert shared j. induction entries as [|[k0 objects0] entries IH]; intros shared j Hnd.
  - split; [by intros k objects []%elem_of_nil|done].
  - apply NoDup_cons in Hnd as [Hk0 Hnd]. cbn [inputs_ToJson].
    destruct (IH (shared_of shared objects0) (WithObject j k0 (identity_json (shared_of shared objects0) objects0)) Hnd)
      as [IH1 IH2]. unfold WithObject in *. split.
    + intros k objects [[= -> ->]|Hin]%elem_of_cons; [|by apply IH1]. exists shared.
      by rewrite IH2, field_With, decide_True by done.
    + intros k [Hne' Hk]%not_elem_of_cons. rewrite IH2 by done. by rewrite field_With, decide_False.
Qed.

Lemma mapR_members {B C} (f : B → result C) (l : list (string * B)) :
  (∀ e, e ∈ l → is_ok (f e.2) = true) →
  ∃ k, mapR (λ e, c ← f e.2; Ok (e.1, c)) l = Ok k ∧ k.*1 = l.*1 ∧
    ∀ i c, (i, c) ∈ k ↔ ∃ b, (i, b) ∈ l ∧ f b = Ok c.
Proof.
  induction l as [|[i b] l IH]; intros Hl.
  - exists []. split; [done|]. split; [done|]. intros i c. split; [by intros []%elem_of_nil|by intros (b & []%elem_of_nil & _)].
  - destruct IH as (k & Hk & Hkeys & Hin); [intros e He; apply Hl; by right|]. pose proof (Hl (i, b)) as Hb. cbn in Hb |- *.
    destruct (f b) as [c|] eqn:Hfb; [|by discriminate Hb; left]. cbn. rewrite Hk. exists ((i, c) :: k).
    split; [done|]. split; [cbn; by rewrite Hkeys|]. intros i' c'. rewrite elem_of_cons, Hin. split.
    + intros [[= -> ->]|(b' & Hb' & Hf)]; [exists b; split; [by left|done]|exists b'; split; [by right|done]].
    + intros (b' & [[= -> ->]|Hb']%elem_of_cons & Hf); [left; congruence|right; by exists b'].
Qed.

Lemma NoDup_keys_filter {C} (Q : string * C → Prop) `{∀ e, Decision (Q e)} l : NoDup l.*1 → NoDup (filter Q l).*1.
Proof.
  induction l as [|e l IH]; [done|]. intros [He Hnd]%NoDup_cons. rewrite filter_cons. destruct (decide (Q e)); [|by apply IH].
  apply NoDup_cons. split; [|by apply IH]. intros (e' & Hee & Hin)%list_elem_of_fmap. apply He. rewrite Hee.
  apply list_elem_of_filter in Hin as [_ Hin]. by apply list_elem_of_fmap_2.
Qed.

(** [entries] lists the hash map in some order. *)
Lemma FragmentDefinition_transmitted d entries :
  transferable d → NoDup entries.*1 → (∀ k objects, (k, objects) ∈ entries ↔ identity_to_objects d !! k = Some objects) →
  FragmentDefinition_FromJson (FragmentDefinition_ToJson entries (target_object d) (target_format d) : J) =
    Ok (transmitted_definition d).
Proof.
  intros [Hobjects [Htarget Hparts]] Hnd Hentries. unfold FragmentDefinition_FromJson.
  set (j := inputs_ToJson (EmptyString, EmptyString, None) entries JsonValue).
  rewrite (GetObject_field _ "inputs" j), (GetObject_field _ "target_object" (ObjectReference_ToJson (target_object d))),
    (GetString_name _ "target_format" (target_format d)) by (unfold FragmentDefinition_ToJson; member).
  rewrite fragment_target_roundtrip by done.
  destruct (inputs_fields (EmptyString, EmptyString, None) entries JsonValue Hnd) as [Hin Hout]. fold j in Hin, Hout.
  assert (∀ k c, field j k = Some c → ∃ objects sh, (k, objects) ∈ entries ∧ c = AObject (identity_json (shared_of sh objects) objects))
    as Hfield.
  { intros k c Hc. destruct (decide (k ∈ entries.*1)) as [Hk|Hk].
    - apply list_elem_of_fmap in Hk as ([k' objects] & He & Hk). cbn in He. subst k'. destruct (Hin _ _ Hk) as [sh Hsh].
      exists objects, sh. split; [done|congruence].
    - by rewrite (Hout k Hk), field_JsonValue in Hc. }
  assert (∀ k o, (k, o) ∈ GetAllObjects j ↔ field j k = Some (AObject o)) as Hall.
  { apply GetAllObjects_field. intros k c Hc. destruct (Hfield k c Hc) as (objects & sh & _ & ->). by eexists. }
  assert (∀ k objects sh, (k, objects) ∈ entries →
    fragment_objects_FromJson (identity_json (shared_of sh objects) objects : J) = Ok (transmitted_objects objects)) as Hentry.
  { intros k objects sh Hk. apply Hentries in Hk. apply fragment_objects_roundtrip. intros o objects' ->. by eapply Hobjects. }
  destruct (mapR_members fragment_objects_FromJson (GetAllObjects j)) as (l & Hl & Hkeys & Hlin).
  { intros [k o] Hk. apply Hall, Hfield in Hk as (objects & sh & Hk & [= ->]). cbn. by rewrite (Hentry k objects sh Hk). }
  rewrite Hl. cbn [rbind]. unfold transmitted_definition. do 2 f_equal. apply map_eq. intros k. apply option_eq. intros arrived.
  assert (∀ k' arrived, (k', arrived) ∈ l ↔ ∃ objects, (k', objects) ∈ entries ∧ arrived = transmitted_objects objects) as Hsame.
  { intros k' arrived'. rewrite Hlin. split.
    - intros (o & Ho & Hf). apply Hall, Hfield in Ho as (objects & sh & Ho & [= ->]). rewrite (Hentry _ _ _ Ho) in Hf.
      exists objects. split; [done|congruence].
    - intros (objects & Hk' & ->). destruct (Hin _ _ Hk') as [sh Hsh]. exists (identity_json (shared_of sh objects) objects).
      split; [by apply Hall|by eapply Hentry]. }
  rewrite <- elem_of_list_to_map, list_elem_of_filter, Hsame, lookup_omap, bind_Some.
  - split.
    + intros [Hne (objects & Hk & ->)]. exists objects. split; [by apply Hentries|]. rewrite decide_False; [done|].
      intros ->. by apply Hne.
    + intros (objects & Hk & He). destruct (decide (objects = [])) as [|Hne]; [done|]. injection He as <-. split.
      * cbn. by destruct objects.
      * exists objects. split; [by apply Hentries|done].
  - apply NoDup_keys_filter. rewrite Hkeys. apply GetAllObjects_keys.
Qed.
End Roundtrip.

(** C9: What arrives of a fragment definition: for every import with an object, each object
    with its own ETag and suffix but with the bucket, the partitions and the prefix of the
    import's first object, in whatever order the hash map of the imports is traversed.  If
    the objects of every import share them and their keys have two separators, the
    definition arrives as it was sent. *)
Theorem FragmentDefinition_roundtrip {J : Type} `{JsonLaws J} `{OperatorNamesLaws} (d : PipelineFragmentDefinition)
    (entries : list (string * list ObjectReference)) (Hd : transferable d) (Hnd : NoDup entries.*1)
    (Hentries : ∀ k objects, (k, objects) ∈ entries ↔ identity_to_objects d !! k = Some objects) :
  FragmentDefinition_FromJson (FragmentDefinition_ToJson entries (target_object d) (target_format d) : J) =
    Ok (transmitted_definition d) ∧ (uniform d → transmitted_definition d = d).
Proof. split; [by apply FragmentDefinition_transmitted|apply transmitted_uniform]. Qed.

(** Two imports; the key of the second has no separator and arrives changed. *)
Definition fragment_example : PipelineFragmentDefinition :=
  mkPipelineFragmentDefinition
    (list_to_map [("Import1", [mkObjectReference "bucket" "query/p1/0.orc" "e0" (Some [4%Z]);
                               mkObjectReference "bucket" "query/p1/1.orc" "e1" (Some [4%Z])]);
                  ("Import2", [mkObjectReference "bucket" "flat.csv" EmptyString None])])
    (mkObjectReference "results" "query/p2/0.orc" EmptyString None) kOrc.

Lemma FragmentDefinition_roundtrip_witness :
  FragmentDefinition_FromJson
    (FragmentDefinition_ToJson (map_to_list (identity_to_objects fragment_example)) (target_object fragment_example) kOrc : doc) =
  Ok (mkPipelineFragmentDefinition
    (list_to_map [("Import1", [mkObjectReference "bucket" "query/p1/0.orc" "e0" (Some [4%Z]);
                               mkObjectReference "bucket" "query/p1/1.orc" "e1" (Some [4%Z])]);
                  ("Import2", [mkObjectReference "bucket" "flat.csv/flat.csv" EmptyString None])])
    (mkObjectReference "results" "query/p2/0.orc" EmptyString None) kOrc).
Proof.
  destruct (FragmentDefinition_roundtrip (J:=doc) fragment_example (map_to_list (identity_to_objects fragment_example)))
    as [Hok _].
  - split; [|by split]. intros k o objects Hk. cbn in Hk. apply lookup_insert_Some in Hk as [[_ Hk]|[_ Hk]].
    + injection Hk as <- _. split; [done|]. cbn. by repeat constructor.
    + apply lookup_insert_Some in Hk as [[_ Hk]|[_ Hk]]; [|done]. injection Hk as <- _. by split.
  - apply NoDup_fst_map_to_list.
  - intros k objects. apply elem_of_map_to_list.
  - refine (eq_trans Hok _). vm_compute. reflexivity.
Defined.
