(* ===== verification/Invocation.v ===== *)
(** * The invocation of workers

    [LambdaExecutor::Execute] of [scheduler/coordinator/lambda_executor.cpp] hands the
    fragments of a pipeline to at most 32 workers; a worker that receives several keeps the
    first and invokes a further worker for each of the others ([WorkerFunction] of
    [bin/function/worker_function.cpp]).  The array of a request is allocated for
    [fragments_per_worker_count] elements, so the last one can have elements that were never
    set; whether the JSON library writes such elements is the parameter [writes_unset]. *)

From Stdlib Require Import Ascii.
From stdpp Require Import pretty.
From S2P Require Export Prelude.

Local Open Scope string_scope.

(** ** Numbers as text contain no dash *)
Fixpoint no_dash (s : string) : Prop :=
  match s with EmptyString => True | String a s => a ≠ "-"%char ∧ no_dash s end.

Lemma pretty_N_go_no_dash x s : no_dash s → no_dash (pretty_N_go x s).
Proof.
  revert s. induction (N.lt_wf_0 x) as [x _ IH]. intros s Hs. destruct (decide (0 < x)%N) as [Hx|Hx].
  - rewrite pretty_N_go_step by done. apply IH; [by apply N.div_lt|]. split; [|done].
    pose proof (N.mod_lt x 10). unfold pretty_N_char. repeat case_match; done.
  - assert (x = 0%N) as -> by lia. by rewrite pretty_N_go_0.
Qed.

Lemma pretty_no_dash (x : N) : no_dash (pretty x).
Proof. unfold pretty, pretty_N. destruct (decide _); [done|]. by apply pretty_N_go_no_dash. Qed.

(** A text without a dash ends where a suffix with one begins. *)
Definition dashed (s : string) : Prop := s = EmptyString ∨ ∃ t, s = String "-"%char t.

Lemma no_dash_split s1 s2 t1 t2 :
  no_dash s1 → no_dash s2 → dashed t1 → dashed t2 → s1 +:+ t1 = s2 +:+ t2 → s1 = s2 ∧ t1 = t2.
Proof.
  revert s2. induction s1 as [|a s1 IH]; intros [|b s2] Hs1 Hs2 Ht1 Ht2 He; [done| | |].
  - destruct Ht1 as [->|[t ->]]; [done|]. injection He as <- _. by destruct Hs2.
  - destruct Ht2 as [->|[t ->]]; [done|]. injection He as -> _. by destruct Hs1.
  - injection He as -> He. destruct (IH s2) as [-> ->]; try done; [apply Hs1|apply Hs2].
Qed.

Lemma string_app_inj (s t1 t2 : string) : s +:+ t1 = s +:+ t2 → t1 = t2.
Proof. induction s as [|a s IH]; [done|]. intros He. injection He as He. by apply IH. Qed.

Lemma string_app_nil_r (s : string) : s +:+ EmptyString = s.
Proof. induction s as [|a s IH]; [done|]. exact (f_equal (String a) IH). Qed.

Lemma string_app_assoc (s1 s2 s3 : string) : (s1 +:+ s2) +:+ s3 = s1 +:+ (s2 +:+ s3).
Proof. induction s1 as [|a s1 IH]; [done|]. exact (f_equal (String a) IH). Qed.

(** ** Requests *)
Definition kWorkerRecursiveInvocationThreshold : nat := 32.

(** [std::ceil(n / 32.0)]: exact, because the division by a power of two is. *)
Definition fragments_per_worker_count (fragment_count : nat) : nat :=
  (fragment_count + (kWorkerRecursiveInvocationThreshold - 1)) / kWorkerRecursiveInvocationThreshold.

Section Requests.
Context {F : Type}.

(** The members of a request that differ between the workers of a pipeline. *)
Record WorkerRequest : Type := mkWorkerRequest {
  request_worker_id : string;
  request_fragment_definitions : list (option F) }.

(** [fragment_array]. *)
Definition fragment_array (size : nat) (fragments : list F) : list (option F) :=
  (Some <$> take size fragments) ++ replicate (size - length fragments) None.

(** The loop of [Execute] from the fragments that are left. *)
Fixpoint invoke_workers (fuel size : nat) (worker_id_prefix : string) (worker_count : N) (fragments : list F)
    : list WorkerRequest :=
  match fuel, fragments with
  | S fuel, _ :: _ =>
      mkWorkerRequest (worker_id_prefix +:+ pretty worker_count) (fragment_array size fragments)
        :: invoke_workers fuel size worker_id_prefix (worker_count + 1) (drop size fragments)
  | _, _ => []
  end.

Definition Execute (pipeline_id : string) (fragment_definitions : list F) : list WorkerRequest :=
  let fragment_count := length fragment_definitions in
  invoke_workers fragment_count (fragments_per_worker_count fragment_count) (pipeline_id +:+ "-worker") 0 fragment_definitions.

(** ** Workers *)
Variable writes_unset : bool.

(** The array as the worker reads it. *)
Definition received (fragments : list (option F)) : list (option F) :=
  if writes_unset then fragments else filter (λ f, is_Some f) fragments.

(** [InvokeRecursive]: the second and later definitions, one worker each. *)
Definition InvokeRecursive (worker_id : string) (fragments : list (option F)) : list WorkerRequest :=
  imap (λ i f, mkWorkerRequest (worker_id +:+ "-" +:+ pretty (N.of_nat (S i))) [f]) (tail fragments).

(** [OnHandleRequest]: the worker's own fragment and the requests that it makes; a request
    without a definition is refused by [ValidateRequest]. *)
Definition OnHandleRequest (request : WorkerRequest) : option (string * option F * list WorkerRequest) :=
  match received (request_fragment_definitions request) with
  | [] => None
  | f :: fragments => Some (request_worker_id request, f, InvokeRecursive (request_worker_id request) (f :: fragments))
  end.

(** The executions that follow from the requests, to depth [fuel]. *)
Fixpoint executions (fuel : nat) (requests : list WorkerRequest) : list (string * option F) :=
  match fuel with
  | O => []
  | S fuel =>
      requests ≫= λ request,
        match OnHandleRequest request with
        | Some (worker_id, f, recursive) => (worker_id, f) :: executions fuel recursive
        | None => []
        end
  end.
End Requests.

Section Distribution.
Context {F : Type}.
Variable writes_unset : bool.
Abbreviation WorkerRequest := (@WorkerRequest F).

(** The id of the [i]-th execution that a request for [worker_id] causes. *)
Definition execution_id (worker_id : string) (i : nat) : string :=
  worker_id +:+ match i with O => EmptyString | S _ => "-" +:+ pretty (N.of_nat i) end.

Lemma executions_app fuel (r1 r2 : list WorkerRequest) :
  executions writes_unset fuel (r1 ++ r2) = (executions writes_unset fuel r1 ++ executions writes_unset fuel r2)%list.
Proof. destruct fuel; [done|]. apply bind_app. Qed.

Lemma received_again (f : option F) fragments :
  f ∈ received writes_unset fragments → received writes_unset [f] = [f].
Proof.
  unfold received. destruct writes_unset; [done|]. intros [Hf _]%list_elem_of_filter. rewrite filter_cons.
  by rewrite decide_True.
Qed.

Lemma executions_single fuel (name : nat → string) (l : list (option F)) :
  (∀ f, f ∈ l → received writes_unset [f] = [f]) →
  executions writes_unset (S fuel) (imap (λ i f, mkWorkerRequest (name i) [f]) l) = imap (λ i f, (name i, f)) l.
Proof.
  revert name. induction l as [|f l IH]; intros name Hl; [done|].
  rewrite !imap_cons. cbn [executions]. rewrite bind_cons. unfold OnHandleRequest at 1. cbn [request_fragment_definitions].
  rewrite Hl by by left. cbn [request_worker_id].
  assert (executions writes_unset fuel (InvokeRecursive (name 0%nat) [f]) = []) as -> by by destruct fuel.
  cbn [app]. f_equal. apply (IH (λ i, name (S i))). intros g Hg. apply Hl. by right.
Qed.

Lemma executions_recursive fuel worker_id (fragments : list (option F)) :
  (∀ f, f ∈ tail fragments → received writes_unset [f] = [f]) →
  executions writes_unset (S fuel) (InvokeRecursive worker_id fragments) =
    imap (λ i f, (execution_id worker_id (S i), f)) (tail fragments).
Proof. apply (executions_single fuel (λ i, execution_id worker_id (S i))). Qed.

Lemma executions_request fuel worker_id (fragments : list (option F)) :
  executions writes_unset (S (S fuel)) [mkWorkerRequest worker_id fragments] =
    imap (λ i f, (execution_id worker_id i, f)) (received writes_unset fragments).
Proof.
  remember (S fuel) as n eqn:Hn. cbn [executions]. rewrite bind_cons. unfold OnHandleRequest at 1. cbn [request_fragment_definitions].
  destruct (received writes_unset fragments) as [|f l] eqn:Hl; [done|]. rewrite imap_cons. cbn [request_worker_id].
  subst n. rewrite executions_recursive.
  - cbn [tail]. rewrite app_nil_r. f_equal. unfold execution_id. f_equal. by rewrite string_app_nil_r.
  - intros g Hg. eapply received_again. rewrite Hl. by right.
Qed.

(** ** All workers of a pipeline *)

(** The ids determine the request and the position in it. *)
Definition worker_name (prefix : string) (c : N) (i : nat) : string := execution_id (prefix +:+ pretty c) i.


Lemma worker_name_inj prefix c c' i i' : worker_name prefix c i = worker_name prefix c' i' → c = c' ∧ i = i'.
Proof.
  unfold worker_name, execution_id. rewrite !string_app_assoc. intros He%string_app_inj.
  assert (∀ j, dashed (match j with O => EmptyString | S _ => "-" +:+ pretty (N.of_nat j) end)) as Hdash
    by (intros [|j]; [by left|right; by eexists]).
  apply no_dash_split in He as [Hc Hi]; auto using pretty_no_dash. split; [by apply (inj pretty)|].
  destruct i as [|i], i' as [|i']; try done. apply (string_app_inj "-"), (inj pretty), Nat2N.inj in Hi. done.
Qed.

Lemma received_omap (fragments : list (option F)) : omap id (received writes_unset fragments) = omap id fragments.
Proof.
  unfold received. destruct writes_unset; [done|]. induction fragments as [|[f|] l IH]; [done| |].
  - rewrite filter_cons_True by done. exact (f_equal (cons f) IH).
  - rewrite filter_cons_False by (intros [x Hx]; done). exact IH.
Qed.

Lemma fragment_array_omap size (fragments : list F) : omap id (fragment_array size fragments) = take size fragments.
Proof.
  unfold fragment_array. rewrite omap_app.
  assert (∀ n, omap id (replicate n (@None F)) = []) as -> by (induction n; done). rewrite app_nil_r.
  induction (take size fragments) as [|f l IH]; [done|]. exact (f_equal (cons f) IH).
Qed.

Lemma imap_pairs {B} (name : nat → string) (l : list B) : (imap (λ i f, (name i, f)) l).*1 = name <$> seq 0 (length l) ∧
  (imap (λ i f, (name i, f)) l).*2 = l.
Proof.
  revert name. induction l as [|f l IH]; intros name; [done|]. rewrite imap_cons. destruct (IH (λ i, name (S i))) as [IH1 IH2].
  split; cbn.
  - f_equal. etransitivity; [exact IH1|]. rewrite <- fmap_S_seq, <- list_fmap_compose. done.
  - f_equal. exact IH2.
Qed.

Lemma omap_seconds {A B} (l : list (A * option B)) : omap snd l = omap id l.*2.
Proof. induction l as [|[a [b|]] l IH]; [done| |exact IH]. exact (f_equal (cons b) IH). Qed.

(** From the [c]-th request on. *)
Lemma invoke_workers_spec fuel size prefix c (fragments : list F) k :
  (0 < size)%nat → (length fragments <= fuel)%nat →
  let run := executions writes_unset (S (S k)) (invoke_workers fuel size prefix c fragments) in
  omap snd run = fragments ∧ NoDup run.*1 ∧ ∀ id, id ∈ run.*1 → ∃ c' i, (c <= c')%N ∧ id = worker_name prefix c' i.
Proof.
  intros Hsize. revert c fragments. induction fuel as [|fuel IH]; intros c fragments Hlen run.
  - destruct fragments; [|cbn in Hlen; lia]. split; [done|]. split; [constructor|by intros id []%elem_of_nil].
  - destruct fragments as [|f fragments]; [split; [done|]; split; [constructor|by intros id []%elem_of_nil]|].
    destruct (IH (c + 1)%N (drop size (f :: fragments))) as (IH1 & IH2 & IH3).
    { rewrite length_drop. cbn in *. lia. }
    assert (run = imap (λ i g, (worker_name prefix c i, g)) (received writes_unset (fragment_array size (f :: fragments))) ++
      executions writes_unset (S (S k)) (invoke_workers fuel size prefix (c + 1) (drop size (f :: fragments))))%list as ->.
    { unfold run. cbn [invoke_workers]. etransitivity; [apply (executions_app _ [_])|]. by rewrite executions_request. }
    destruct (imap_pairs (worker_name prefix c) (received writes_unset (fragment_array size (f :: fragments)))) as [Hids Hfs].
    split; [|split].
    + rewrite omap_app, IH1. rewrite <- (take_drop size (f :: fragments)) at 3. f_equal.
      rewrite <- fragment_array_omap, <- received_omap, omap_seconds, Hfs. done.
    + rewrite fmap_app, Hids. apply NoDup_app. split; [|split; [|done]].
      * apply NoDup_fmap_2_strong; [|apply NoDup_seq]. intros i j _ _ He. by apply worker_name_inj in He as [_ ->].
      * intros id (i & -> & _)%list_elem_of_fmap (c' & j & Hc & He)%IH3. apply worker_name_inj in He as [-> _]. lia.
    + intros id. rewrite fmap_app, elem_of_app, Hids. intros [(i & -> & _)%list_elem_of_fmap|Hid].
      * exists c, i. split; [lia|done].
      * destruct (IH3 id Hid) as (c' & i & Hc & ->). exists c', i. split; [lia|done].
Qed.

(** With enough unset elements left out, and the requests of one invocation. *)
Lemma invoke_workers_length fuel size prefix c (fragments : list F) :
  (0 < size)%nat → (length fragments <= fuel)%nat →
  (length (invoke_workers fuel size prefix c fragments) * size < length fragments + size)%nat.
Proof.
  intros Hsize. revert c fragments. induction fuel as [|fuel IH]; intros c fragments Hlen.
  - destruct fragments; [cbn; lia|cbn in Hlen; lia].
  - destruct fragments as [|f fragments]; [cbn; lia|]. cbn [invoke_workers length].
    specialize (IH (c + 1)%N (drop size (f :: fragments))). rewrite length_drop in IH. cbn [length] in *.
    destruct (decide (size <= S (length fragments))%nat); [lia|].
    assert (length (drop size (f :: fragments)) = 0%nat) as Hd by (rewrite length_drop; cbn; lia).
    apply length_zero_iff_nil in Hd. rewrite Hd. destruct fuel; cbn; lia.
Qed.

Lemma fragment_array_length size (fragments : list F) : length (fragment_array size fragments) = size.
Proof. unfold fragment_array. rewrite length_app, length_fmap, length_replicate, length_take. lia. Qed.

Lemma received_written (fragments : list (option F)) : writes_unset = true → received writes_unset fragments = fragments.
Proof. unfold received. by intros ->. Qed.

Lemma invoke_workers_executions fuel size prefix c (fragments : list F) k :
  writes_unset = true →
  length (executions writes_unset (S (S k)) (invoke_workers fuel size prefix c fragments)) =
    (length (invoke_workers fuel size prefix c fragments) * size)%nat.
Proof.
  intros Hw. revert c fragments. induction fuel as [|fuel IH]; intros c fragments; [done|].
  destruct fragments as [|f fragments]; [done|]. cbn [invoke_workers].
  etransitivity; [apply (f_equal length), (executions_app _ [_])|].
  rewrite length_app, IH, executions_request, length_imap, received_written, fragment_array_length by done. done.
Qed.

Lemma received_unwritten size (fragments : list F) :
  writes_unset = false → received writes_unset (fragment_array size fragments) = Some <$> take size fragments.
Proof.
  unfold received, fragment_array. intros ->. rewrite filter_app.
  assert (∀ n, filter (λ f, is_Some f) (replicate n (@None F)) = []) as ->.
  { induction n as [|n IH]; [done|]. cbn [replicate]. rewrite filter_cons_False by (by intros [x Hx]). exact IH. }
  rewrite app_nil_r. induction (take size fragments) as [|f l IH]; [done|]. cbn [fmap list_fmap].
  rewrite filter_cons_True by done. by f_equal.
Qed.

Lemma invoke_workers_unwritten fuel size prefix c (fragments : list F) k :
  (0 < size)%nat → (length fragments <= fuel)%nat → writes_unset = false →
  length (executions writes_unset (S (S k)) (invoke_workers fuel size prefix c fragments)) = length fragments.
Proof.
  intros Hsize Hlen Hw. revert c fragments Hlen. induction fuel as [|fuel IH]; intros c fragments Hlen.
  - destruct fragments; [done|cbn in Hlen; lia].
  - destruct fragments as [|f fragments]; [done|]. cbn [invoke_workers].
    etransitivity; [apply (f_equal length), (executions_app _ [_])|].
    rewrite length_app, IH, executions_request, length_imap, received_unwritten, length_fmap, length_take by
      (done || (rewrite length_drop; cbn in *; lia)).
    rewrite length_drop. lia.
Qed.

Lemma fragments_per_worker_count_spec n :
  (n <= kWorkerRecursiveInvocationThreshold * fragments_per_worker_count n < n + kWorkerRecursiveInvocationThreshold)%nat.
Proof.
  unfold fragments_per_worker_count. remember kWorkerRecursiveInvocationThreshold as t eqn:Ht.
  assert (t ≠ 0%nat) as Hnz by (by subst t). clear Ht.
  pose proof (Nat.div_mod_eq (n + (t - 1)) t). pose proof (Nat.mod_upper_bound (n + (t - 1)) t Hnz). lia.
Qed.

(** C17: (lambda_executor.cpp and worker_function.cpp: Execute, InvokeRecursive) Executing a
    pipeline sends at most 32 requests, and the workers that the requests and the recursive
    invocations start execute every fragment definition of the pipeline exactly once, in the
    order of the definitions, with ids that are all distinct.  If the JSON library leaves
    out the elements of the request's array that were never set, there are no further
    executions; if it writes them, each request starts exactly as many workers as its array has
    elements, and those beyond the fragments execute a value that was never set. *)
Theorem Execute_distribution pipeline_id (fragment_definitions : list F) k :
  let requests := Execute pipeline_id fragment_definitions in
  let run := executions writes_unset (S (S k)) requests in
  (length requests <= kWorkerRecursiveInvocationThreshold)%nat ∧
  omap snd run = fragment_definitions ∧
  NoDup run.*1 ∧
  length run = (if writes_unset then length requests * fragments_per_worker_count (length fragment_definitions)
                else length fragment_definitions)%nat.
Proof.
  unfold Execute. pose proof (fragments_per_worker_count_spec (length fragment_definitions)) as Hcount.
  destruct fragment_definitions as [|f l]; [repeat split; [cbn; lia|constructor|by destruct writes_unset]|].
  remember (f :: l) as fragments eqn:Hf. assert (0 < length fragments)%nat as Hpos by (subst; cbn; lia). clear Hf.
  remember (fragments_per_worker_count _) as size. assert (0 < size)%nat as Hsize by (destruct size; lia).
  cbv zeta. split; [|split; [|split]].
  - pose proof (invoke_workers_length (length fragments) size (pipeline_id +:+ "-worker") 0 fragments Hsize).
    apply Nat.lt_succ_r, (Nat.mul_lt_mono_pos_r size); [done|]. lia.
  - by apply invoke_workers_spec.
  - by apply invoke_workers_spec.
  - pose proof (invoke_workers_executions (length fragments) size (pipeline_id +:+ "-worker") 0 fragments k) as Hwritten.
    pose proof (invoke_workers_unwritten (length fragments) size (pipeline_id +:+ "-worker") 0 fragments k Hsize) as Hleft.
    destruct writes_unset; [by apply Hwritten|by apply Hleft].
Qed.
End Distribution.

(** Seventy fragments: 24 requests of three, the last of which has two elements left over. *)
Example seventy_fragments :
  let requests := Execute "p" (seq 0 70) in
  (length requests, length (executions false 2 requests), length (executions true 2 requests),
   fst <$> take 4 (executions false 2 requests), last (executions false 2 requests)) =
    (24%nat, 70%nat, 72%nat, ["p-worker0"; "p-worker0-1"; "p-worker0-2"; "p-worker1"], Some ("p-worker23", Some 69%nat)).
Proof. vm_compute. reflexivity. Qed.
