(* ===== verification/SqsCollector.v ===== *)
(** * Collecting the answers of workers

    [LambdaExecutor::CollectSqsMessages] of [scheduler/coordinator/lambda_executor.cpp].  The
    collector receives batches of messages from the response queue of a pipeline and starts a
    thread per batch; a thread examines its messages one after the other.  The test for a
    duplicate is one section of [dedup_mutex]; the counter is loaded and stored in two separate
    atomic operations.  The queue delivers at least once, so that the batches of the model are
    arbitrary lists of messages. *)

From S2P Require Export PipelineScheduler.


(** ** State *)
(** The body is the answer of [WorkerFunction::OnHandleRequest]; [result_pipeline_id] of it is
    the pipeline that the worker names. *)
Record Message : Set := mkMessage {
  receipt_handle : string;
  body : FragmentExecutionResult }.

(** Where a thread is in the loop of [handle_message]. *)
Inductive Handler : Set :=
  | Examining (messages : list Message)
  | Reporting (m : Message) (messages : list Message)
  | Deleting (is_duplicate : bool) (m : Message) (messages : list Message)
  | Loading (messages : list Message)
  | Storing (loaded : nat) (messages : list Message).

Inductive CollectorPhase : Set := kTesting | kReceiving | kJoining | kReturned | kTerminated.
#[export] Instance CollectorPhase_eq_dec : EqDecision CollectorPhase.
Proof. solve_decision. Defined.

(** [callbacks] are the arguments of [on_finished_callback], [deletions] the receipt handles
    of the [DeleteMessage] requests. *)
Record Collector : Type := mkCollector {
  phase : CollectorPhase;
  processed_count : nat;
  processed_worker_ids : gset string;
  threads : list Handler;
  callbacks : list FragmentExecutionResult;
  deletions : list string }.

Definition set_phase (s : Collector) (p : CollectorPhase) : Collector :=
  mkCollector p (processed_count s) (processed_worker_ids s) (threads s) (callbacks s) (deletions s).

Definition set_threads (s : Collector) (l : list Handler) : Collector :=
  mkCollector (phase s) (processed_count s) (processed_worker_ids s) l (callbacks s) (deletions s).

Definition initial_collector : Collector := mkCollector kTesting 0 ∅ [] [] [].

(** ** Steps *)
Definition fragment_result (pipeline_id : string) (r : FragmentExecutionResult) : FragmentExecutionResult :=
  mkFragmentExecutionResult pipeline_id (worker_id r) (is_success r) (message r) (runtime_ms r)
    (function_instance_size_mb r) (export_data_size_bytes r) (import_data_size_bytes r).

(** One step of a thread: what becomes of the thread and of the shared state.  A violated
    assertion leaves the thread by an exception, which terminates the process. *)
Definition handle_message (pipeline_id : string) (s : Collector) (h : Handler) : option (Collector * Handler) :=
  match h with
  | Examining [] => None
  | Examining (m :: messages) =>
      if is_success (body m) then
        if decide (worker_id (body m) ∈ processed_worker_ids s) then Some (s, Deleting true m messages)
        else Some (mkCollector (phase s) (processed_count s) ({[worker_id (body m)]} ∪ processed_worker_ids s)
                     (threads s) (callbacks s) (deletions s), Reporting m messages)
      else Some (s, Reporting m messages)
  | Reporting m messages =>
      if decide (pipeline_id = result_pipeline_id (body m)) then
        Some (mkCollector (phase s) (processed_count s) (processed_worker_ids s) (threads s)
                (callbacks s ++ [fragment_result pipeline_id (body m)]) (deletions s), Deleting false m messages)
      else Some (set_phase s kTerminated, h)
  | Deleting is_duplicate m messages =>
      Some (mkCollector (phase s) (processed_count s) (processed_worker_ids s) (threads s) (callbacks s)
              (deletions s ++ [receipt_handle m]), if is_duplicate then Examining messages else Loading messages)
  | Loading messages => Some (s, Storing (processed_count s) messages)
  | Storing loaded messages =>
      Some (mkCollector (phase s) (loaded + 1) (processed_worker_ids s) (threads s) (callbacks s) (deletions s),
            Examining messages)
  end.

Inductive collector_event : Set :=
  | TestCount                              (* the condition of the loop *)
  | ReceiveMessages (messages : list Message)
  | Handle (thread : nat)
  | Join.

Definition finished (h : Handler) : bool := match h with Examining [] => true | _ => false end.

Definition collector_step (pipeline_id : string) (invocation_count : nat) (s : Collector) (e : collector_event)
    : option Collector :=
  match e, phase s with
  | _, kTerminated => None
  | TestCount, kTesting => Some (set_phase s (if (processed_count s <? invocation_count)%nat then kReceiving else kJoining))
  | ReceiveMessages messages, kReceiving => Some (set_phase (set_threads s (threads s ++ [Examining messages])) kTesting)
  | Handle i, _ =>
      match threads s !! i with
      | Some h =>
          match handle_message pipeline_id s h with
          | Some (s', h') => Some (set_threads s' (<[i := h']> (threads s')))
          | None => None
          end
      | None => None
      end
  | Join, kJoining => if forallb finished (threads s) then Some (set_phase s kReturned) else None
  | _, _ => None
  end.

Fixpoint CollectSqsMessages (pipeline_id : string) (invocation_count : nat) (s : Collector) (events : list collector_event)
    : option Collector :=
  match events with
  | [] => Some s
  | e :: events =>
      match collector_step pipeline_id invocation_count s e with
      | Some s' => CollectSqsMessages pipeline_id invocation_count s' events
      | None => None
      end
  end.

(** ** What the threads still have to do *)
Definition unexamined (h : Handler) : list Message :=
  match h with
  | Examining l | Reporting _ l | Deleting _ _ l | Loading l | Storing _ l => l
  end.

Definition unreported (h : Handler) : list Message :=
  match h with Reporting m l => m :: l | _ => unexamined h end.

Definition undeleted (h : Handler) : list Message :=
  match h with Reporting m l | Deleting _ m l => m :: l | _ => unexamined h end.

Definition reporting_ids (h : Handler) : list string :=
  match h with Reporting m _ => if is_success (body m) then [worker_id (body m)] else [] | _ => [] end.

(** An element per callback that has not been counted yet. *)
Definition uncounted (h : Handler) : list unit :=
  match h with Deleting false _ _ | Loading _ | Storing _ _ => [()] | _ => [] end.

Definition failures (l : list FragmentExecutionResult) : list FragmentExecutionResult := filter (λ r, is_success r = false) l.
Definition success_ids (l : list FragmentExecutionResult) : list string := worker_id <$> filter (λ r, is_success r = true) l.

#[export] Instance failures_proper : Proper ((≡ₚ) ==> (≡ₚ)) failures.
Proof. intros l l' Hl. unfold failures. by rewrite Hl. Qed.

Ltac simpl_handlers :=
  repeat change ((?h :: ?l) ≫= ?f) with (f h ++ (l ≫= f)) in *;
  cbn [unreported unexamined undeleted uncounted reporting_ids app] in *.

Definition received_messages (events : list collector_event) : list Message :=
  events ≫= λ e, match e with ReceiveMessages l => l | _ => [] end.

(** ** The invariant *)
Section Invariant.
Context (pipeline_id : string) (invocation_count : nat).
Abbreviation fr := (fragment_result pipeline_id).
Abbreviation results l := ((λ m, fr (body m)) <$> l).

Record collector_ok (received : list Message) (s : Collector) (l : list Handler) : Prop := mk_collector_ok {
  ok_failures : failures (results received) ≡ₚ failures (callbacks s) ++ failures (results (l ≫= unreported));
  ok_distinct : NoDup (success_ids (callbacks s) ++ (l ≫= reporting_ids));
  ok_processed : ∀ id, id ∈ processed_worker_ids s ↔ id ∈ success_ids (callbacks s) ++ (l ≫= reporting_ids);
  ok_successes : ∀ m, m ∈ received → is_success (body m) = true →
    worker_id (body m) ∈ processed_worker_ids s ∨ m ∈ l ≫= unexamined;
  ok_origin : ∀ r, r ∈ callbacks s → ∃ m, m ∈ received ∧ r = fr (body m) ∧ result_pipeline_id (body m) = pipeline_id;
  ok_pending : ∀ m, m ∈ l ≫= unreported → m ∈ received;
  ok_deletions : receipt_handle <$> received ≡ₚ deletions s ++ (receipt_handle <$> (l ≫= undeleted));
  ok_count : (processed_count s + length (l ≫= uncounted) <= length (callbacks s))%nat;
  ok_stores : ∀ n messages, Storing n messages ∈ l → (n + length (l ≫= uncounted) <= length (callbacks s))%nat;
  ok_exit : phase s = kJoining ∨ phase s = kReturned → (invocation_count <= length (callbacks s))%nat;
  ok_returned : phase s = kReturned → ∀ h, h ∈ l → finished h = true }.

#[local] Instance collector_ok_proper received s : Proper ((≡ₚ) ==> impl) (collector_ok received s).
Proof.
  intros l l' Hl [H1 H2 H3 H4 H5 H6 H7 H8 H9 H10 H11]. split; try done.
  - by rewrite <- Hl.
  - by rewrite <- Hl.
  - intros id. rewrite <- Hl. apply H3.
  - intros m. rewrite <- Hl. apply H4.
  - intros m. rewrite <- Hl. apply H6.
  - by rewrite <- Hl.
  - by rewrite <- Hl.
  - intros n messages. rewrite <- Hl. apply H9.
  - intros Hp h. rewrite <- Hl. by apply H11.
Qed.

(** A thread's step changes one element of the threads. *)
Lemma insert_split {A} (l : list A) i x y : l !! i = Some x → ∃ rest, l ≡ₚ x :: rest ∧ <[i := y]> l ≡ₚ y :: rest.
Proof.
  intros Hi. exists (take i l ++ drop (S i) l). split.
  - rewrite <- (take_drop_middle l i x Hi) at 1. by rewrite Permutation_middle.
  - rewrite insert_take_drop by by eapply lookup_lt_Some. by rewrite Permutation_middle.
Qed.

(** ** Every step keeps it *)
Lemma failures_cons m l :
  failures (results (m :: l)) = if is_success (body m) then failures (results l) else fr (body m) :: failures (results l).
Proof.
  unfold failures. rewrite fmap_cons. destruct (is_success (body m)) eqn:Hm.
  - by rewrite filter_cons_False by (cbn; congruence).
  - by rewrite filter_cons_True by done.
Qed.

Lemma success_ids_snoc l r :
  success_ids (l ++ [fr r]) = success_ids l ++ if is_success r then [worker_id r] else [].
Proof.
  unfold success_ids. rewrite filter_app, fmap_app. f_equal. destruct (is_success r) eqn:Hr.
  - by rewrite filter_cons_True by done.
  - by rewrite filter_cons_False by (cbn; congruence).
Qed.

Lemma failures_snoc l r : failures (l ++ [fr r]) = failures l ++ if is_success r then [] else [fr r].
Proof.
  unfold failures. rewrite filter_app. f_equal. destruct (is_success r) eqn:Hr.
  - by rewrite filter_cons_False by (cbn; congruence).
  - by rewrite filter_cons_True by done.
Qed.

Lemma examine_ok received s m messages rest s' h' :
  collector_ok received s (Examining (m :: messages) :: rest) →
  handle_message pipeline_id s (Examining (m :: messages)) = Some (s', h') →
  collector_ok received s' (h' :: rest).
Proof.
  intros [H1 H2 H3 H4 H5 H6 H7 H8 H9 H10 H11] Hstep. cbn [handle_message] in Hstep.
  assert (phase s ≠ kReturned) as Hphase by (intros Hp; by specialize (H11 Hp _ ltac:(by left))).
  simpl_handlers.
  rewrite failures_cons in H1.
  assert (∀ h, (∀ n l, h ≠ Storing n l) → ∀ n l, Storing n l ∈ h :: rest →
    (n + length (rest ≫= uncounted) <= length (callbacks s))%nat) as Hstores.
  { intros h Hh n l [Hn|Hn]%elem_of_cons; [by destruct (Hh n l)|]. eapply H9. by right. }
  destruct (is_success (body m)) eqn:Hm; [case_decide as Hid|]; injection Hstep as <- <-; split; try done.
  all: cbn [callbacks processed_count processed_worker_ids phase deletions]; simpl_handlers; try (by apply Hstores); rewrite ?Hm.
  - intros m' Hin Hm'. destruct (H4 m' Hin Hm') as [|[->|]%elem_of_cons]; auto.
  - intros m' Hin. apply H6. by right.
  - by rewrite failures_cons, Hm.
  - cbn [app]. rewrite <- Permutation_middle. apply NoDup_cons. by rewrite <- H3.
  - cbn [app]. intros id. rewrite <- Permutation_middle, elem_of_cons, <- H3. set_unfold. tauto.
  - intros m' Hin Hm'. rewrite elem_of_union, elem_of_singleton. destruct (H4 m' Hin Hm') as [|[->|]%elem_of_cons]; auto.
  - by rewrite failures_cons, Hm.
  - exact H2.
  - exact H3.
  - intros m' Hin Hm'. destruct (H4 m' Hin Hm') as [|[->|]%elem_of_cons]; auto. congruence.
Qed.

Lemma report_ok received s m messages rest s' h' :
  collector_ok received s (Reporting m messages :: rest) →
  handle_message pipeline_id s (Reporting m messages) = Some (s', h') →
  phase s' ≠ kTerminated →
  collector_ok received s' (h' :: rest).
Proof.
  intros [H1 H2 H3 H4 H5 H6 H7 H8 H9 H10 H11] Hstep Hterm. cbn [handle_message] in Hstep.
  assert (phase s ≠ kReturned) as Hphase by (intros Hp; by specialize (H11 Hp _ ltac:(by left))).
  case_decide as Hid; [|injection Hstep as <- <-; done]. injection Hstep as <- <-.
  simpl_handlers. rewrite failures_cons in H1.
  assert (success_ids (callbacks s ++ [fr (body m)]) ++ (rest ≫= reporting_ids) =
    success_ids (callbacks s) ++ (if is_success (body m) then [worker_id (body m)] else []) ++ (rest ≫= reporting_ids)) as Hids
    by by rewrite success_ids_snoc, <- app_assoc.
  split; cbn [callbacks processed_count processed_worker_ids phase deletions]; simpl_handlers; try done.
  - rewrite H1, failures_snoc. destruct (is_success (body m)); by rewrite <- app_assoc.
  - by rewrite Hids.
  - intros id. rewrite Hids. apply H3.
  - intros r [Hr|Hr%list_elem_of_singleton]%elem_of_app; [by apply H5|]. subst r. exists m. split; [apply H6; by left|done].
  - intros m' Hin. apply H6. by right.
  - cbn [length]. rewrite length_app. cbn [length]. lia.
  - intros n l [Hn|Hn]%elem_of_cons; [done|]. rewrite length_app. cbn [length].
    specialize (H9 n l ltac:(by right)). lia.
  - intros Hp. rewrite length_app. specialize (H10 Hp). lia.
Qed.

Lemma delete_ok received s is_duplicate m messages rest s' h' :
  collector_ok received s (Deleting is_duplicate m messages :: rest) →
  handle_message pipeline_id s (Deleting is_duplicate m messages) = Some (s', h') →
  collector_ok received s' (h' :: rest).
Proof.
  intros [H1 H2 H3 H4 H5 H6 H7 H8 H9 H10 H11] Hstep. cbn [handle_message] in Hstep.
  assert (phase s ≠ kReturned) as Hphase by (intros Hp; by specialize (H11 Hp _ ltac:(by left))).
  injection Hstep as <- <-. simpl_handlers.
  split; cbn [callbacks processed_count processed_worker_ids phase deletions]; destruct is_duplicate; simpl_handlers; try done.
  1, 2: rewrite H7, <- app_assoc; reflexivity.
  all: intros n l [Hn|Hn]%elem_of_cons; [done|]; specialize (H9 n l ltac:(by right)); done.
Qed.

Lemma load_ok received s messages rest s' h' :
  collector_ok received s (Loading messages :: rest) →
  handle_message pipeline_id s (Loading messages) = Some (s', h') →
  collector_ok received s' (h' :: rest).
Proof.
  intros [H1 H2 H3 H4 H5 H6 H7 H8 H9 H10 H11] Hstep. cbn [handle_message] in Hstep.
  injection Hstep as <- <-. simpl_handlers. split; simpl_handlers; try done.
  - intros n l [[= -> _]|Hn]%elem_of_cons; [done|]. apply (H9 n l). by right.
  - intros Hp h Hh. by specialize (H11 Hp _ ltac:(by left)).
Qed.

Lemma store_ok received s n messages rest s' h' :
  collector_ok received s (Storing n messages :: rest) →
  handle_message pipeline_id s (Storing n messages) = Some (s', h') →
  collector_ok received s' (h' :: rest).
Proof.
  intros [H1 H2 H3 H4 H5 H6 H7 H8 H9 H10 H11] Hstep. cbn [handle_message] in Hstep.
  injection Hstep as <- <-. simpl_handlers.
  split; cbn [callbacks processed_count processed_worker_ids phase deletions]; simpl_handlers; try done.
  - specialize (H9 n messages ltac:(by left)). cbn [length] in *. lia.
  - intros k l [Hn|Hn]%elem_of_cons; [done|]. specialize (H9 k l ltac:(by right)). cbn [length] in *. lia.
  - intros Hp h Hh. by specialize (H11 Hp _ ltac:(by left)).
Qed.

Lemma handle_ok received s h rest s' h' :
  collector_ok received s (h :: rest) → handle_message pipeline_id s h = Some (s', h') → phase s' ≠ kTerminated →
  collector_ok received s' (h' :: rest).
Proof.
  destruct h as [[|m l]|m l|d m l|l|n l]; intros; [done|by eapply examine_ok|by eapply report_ok|by eapply delete_ok
    |by eapply load_ok|by eapply store_ok].
Qed.

(** The test, a batch and the join. *)
Lemma exit_ok received s p :
  collector_ok received s (threads s) →
  (p = kJoining ∨ p = kReturned → (invocation_count <= length (callbacks s))%nat) →
  (p = kReturned → forallb finished (threads s) = true) →
  collector_ok received (set_phase s p) (threads s).
Proof.
  intros [H1 H2 H3 H4 H5 H6 H7 H8 H9 H10 H11] Hexit Hret. split; try done.
  intros Hp h Hh. specialize (Hret Hp). rewrite forallb_forall in Hret. by apply Hret, list_elem_of_In.
Qed.

Lemma receive_ok received s messages :
  collector_ok received s (threads s) → phase s ≠ kReturned →
  collector_ok (received ++ messages) s (Examining messages :: threads s).
Proof.
  intros [H1 H2 H3 H4 H5 H6 H7 H8 H9 H10 H11] Hp. split; simpl_handlers; try done.
  - rewrite !fmap_app. unfold failures in *. rewrite !filter_app, H1. by rewrite <- app_assoc, (Permutation_app_comm (filter _ _) (filter _ _)).
  - intros m [Hm|Hm]%elem_of_app Hs; [destruct (H4 m Hm Hs); [by left|]|]; right; apply elem_of_app; auto.
  - intros r Hr. destruct (H5 r Hr) as (m & Hm & ?). exists m. split; [|done]. apply elem_of_app. by left.
  - intros m [Hm|Hm]%elem_of_app; apply elem_of_app; auto.
  - rewrite !fmap_app, H7. by rewrite <- app_assoc, (Permutation_app_comm (_ <$> (_ ≫= _))).
  - intros n l [Hn|Hn]%elem_of_cons; [done|]. by eapply H9.
Qed.

Lemma handle_inv s i s' :
  collector_step pipeline_id invocation_count s (Handle i) = Some s' →
  ∃ h s1 h', threads s !! i = Some h ∧ handle_message pipeline_id s h = Some (s1, h') ∧ threads s1 = threads s ∧
    s' = set_threads s1 (<[i := h']> (threads s)) ∧ phase s ≠ kTerminated.
Proof.
  intros Hstep. cbn [collector_step] in Hstep.
  assert (phase s ≠ kTerminated) as Hp by (intros Hp; by rewrite Hp in Hstep).
  destruct (threads s !! i) as [h|] eqn:Hi; [|by destruct (phase s)].
  destruct (handle_message pipeline_id s h) as [[s1 h']|] eqn:Hh; [|by destruct (phase s)].
  assert (threads s1 = threads s) as Hthreads.
  { destruct h as [[|m l]|m l|d m l|l|n l]; cbn in Hh; repeat case_match; simplify_eq; done. }
  exists h, s1, h'. rewrite <- Hthreads. destruct (phase s); simplify_eq; done.
Qed.

Lemma handle_terminated s h s1 h' :
  handle_message pipeline_id s h = Some (s1, h') → phase s ≠ kTerminated → phase s1 = kTerminated →
  ∃ m l, h = Reporting m l ∧ pipeline_id ≠ result_pipeline_id (body m).
Proof.
  destruct h as [[|m l]|m l|d m l|l|n l]; cbn; intros Hh Hp Hp1; repeat case_match; simplify_eq; try done. by exists m, l.
Qed.

Lemma collector_step_ok received s e s' :
  collector_ok received s (threads s) → collector_step pipeline_id invocation_count s e = Some s' → phase s' ≠ kTerminated →
  collector_ok (received ++ received_messages [e]) s' (threads s').
Proof.
  intros Hok Hstep Hterm. pose proof (ok_count _ _ _ Hok) as Hcount. unfold received_messages.
  destruct e as [|messages|i|]; cbn [mbind list_bind app collector_step] in *; rewrite ?app_nil_r.
  - destruct (phase s); try done. injection Hstep as <-. destruct (Nat.ltb_spec (processed_count s) invocation_count) as [Hlt|Hge].
    + apply (exit_ok _ s); [done| |done]. by intros [|].
    + apply (exit_ok _ s); [done| |done]. lia.
  - destruct (phase s) eqn:Hp; try done. injection Hstep as <-.
    assert (collector_ok (received ++ messages) s (threads s ++ [Examining messages])) as H.
    { rewrite <- Permutation_cons_append. apply receive_ok; [done|congruence]. }
    destruct H as [H1 H2 H3 H4 H5 H6 H7 H8 H9 H10 H11]. split; try done; cbn; by intros [|] || done.
  - apply handle_inv in Hstep as (h & s1 & h' & Hi & Hh & Hthreads & -> & _).
    destruct (insert_split (threads s) i h h' Hi) as (rest & Hl & Hl').
    assert (collector_ok received s1 (<[i := h']> (threads s))) as [H1 H2 H3 H4 H5 H6 H7 H8 H9 H10 H11].
    { rewrite Hl'. eapply handle_ok; [by rewrite <- Hl|done|done]. }
    split; cbn [threads set_threads]; done.
  - destruct (phase s) eqn:Hp; try done. destruct (forallb finished (threads s)) eqn:Hf; [|done]. injection Hstep as <-.
    apply (exit_ok _ s); [done| |done]. intros _. apply (ok_exit _ _ _ Hok). by left.
Qed.

Lemma terminated_stuck s e : phase s = kTerminated → collector_step pipeline_id invocation_count s e = None.
Proof. intros Hp. unfold collector_step. rewrite Hp. by destruct e. Qed.

Lemma CollectSqsMessages_ok received s events s' :
  collector_ok received s (threads s) → CollectSqsMessages pipeline_id invocation_count s events = Some s' →
  phase s' ≠ kTerminated →
  collector_ok (received ++ received_messages events) s' (threads s').
Proof.
  revert received s. induction events as [|e events IH]; intros received s Hok Hrun Hterm.
  - injection Hrun as <-. by rewrite app_nil_r.
  - cbn [CollectSqsMessages] in Hrun. destruct (collector_step _ _ s e) as [s1|] eqn:Hs; [|done].
    change (received_messages (e :: events)) with (received_messages ([e] ++ events)).
    unfold received_messages. rewrite bind_app, app_assoc. apply (IH _ s1); [|done|done]. apply (collector_step_ok _ s); [done|done|].
    intros Hp. destruct events as [|e' events]; [injection Hrun as <-; done|]. cbn [CollectSqsMessages] in Hrun.
    by rewrite terminated_stuck in Hrun.
Qed.

Lemma initial_collector_ok : collector_ok [] initial_collector (threads initial_collector).
Proof.
  split; cbn; try done; try lia; try constructor; try (by intros ? []%elem_of_nil); try (by intros [|]); set_solver.
Qed.

(** The assertion holds for the answers of the pipeline's own workers. *)
Lemma step_not_terminated received s e s' :
  collector_ok received s (threads s) → collector_step pipeline_id invocation_count s e = Some s' →
  (∀ m, m ∈ received → result_pipeline_id (body m) = pipeline_id) → phase s' ≠ kTerminated.
Proof.
  intros Hok Hstep Hown Hterm. destruct e as [|messages|i|].
  1, 2, 4: cbn in Hstep; destruct (phase s); simplify_eq; repeat case_match; simplify_eq; done.
  apply handle_inv in Hstep as (h & s1 & h' & Hi & Hh & _ & -> & Hp).
  destruct (handle_terminated s h s1 h') as (m & l & -> & Hne); [done..|]. apply Hne. symmetry. apply Hown, (ok_pending _ _ _ Hok).
  destruct (insert_split (threads s) i _ h' Hi) as (rest & Hl & _). rewrite (bind_Permutation unreported _ _ Hl). by left.
Qed.

Lemma run_not_terminated received s events s' :
  collector_ok received s (threads s) → phase s ≠ kTerminated →
  CollectSqsMessages pipeline_id invocation_count s events = Some s' →
  (∀ m, m ∈ received ++ received_messages events → result_pipeline_id (body m) = pipeline_id) → phase s' ≠ kTerminated.
Proof.
  revert received s. induction events as [|e events IH]; intros received s Hok Hterm Hrun Hown; [injection Hrun as <-; done|].
  cbn [CollectSqsMessages] in Hrun. destruct (collector_step _ _ s e) as [s1|] eqn:Hs; [|done].
  change (received_messages (e :: events)) with (received_messages ([e] ++ events)) in Hown.
  unfold received_messages in Hown. rewrite bind_app, app_assoc in Hown.
  assert (phase s1 ≠ kTerminated) as Hterm1.
  { eapply step_not_terminated; [done|done|]. intros m Hm. apply Hown. by do 2 (apply elem_of_app; left). }
  eapply (IH (received ++ received_messages [e])); [by eapply collector_step_ok|done|done|exact Hown].
Qed.
End Invariant.

(** ** What the collector promises *)
Lemma fragment_result_own pipeline_id r : result_pipeline_id r = pipeline_id → fragment_result pipeline_id r = r.
Proof. intros <-. by destruct r. Qed.

Lemma results_own pipeline_id (l : list Message) :
  (∀ m, m ∈ l → result_pipeline_id (body m) = pipeline_id) →
  (λ m, fragment_result pipeline_id (body m)) <$> l = body <$> l.
Proof. intros Hl. apply list_fmap_ext. intros i m Hm%list_elem_of_lookup_2. by apply fragment_result_own, Hl. Qed.

Lemma finished_nothing {B} (f : Handler → list B) l :
  f (Examining []) = [] → (∀ h, h ∈ l → finished h = true) → l ≫= f = [].
Proof.
  intros Hf Hl. induction l as [|h l IH]; [done|]. change (f h ++ (l ≫= f) = []).
  rewrite IH by (intros h' Hh'; apply Hl; by right). specialize (Hl h ltac:(by left)).
  destruct h as [[|]| | | |]; try done. by rewrite Hf.
Qed.

Lemma success_ids_elem l id : id ∈ success_ids l ↔ ∃ r, r ∈ l ∧ is_success r = true ∧ worker_id r = id.
Proof.
  unfold success_ids. rewrite list_elem_of_fmap. split.
  - intros (r & -> & [Hs Hr]%list_elem_of_filter). by exists r.
  - intros (r & Hr & Hs & <-). exists r. split; [done|]. by apply list_elem_of_filter.
Qed.

(** C19: (lambda_executor.cpp: CollectSqsMessages) Whatever batches the queue delivers, with
    repetitions and in any interleaving of the threads, as long as the messages are answers of
    the pipeline's own workers: no assertion fails; every callback passes on a message that was
    received; a worker's success is passed on at most once; and the counter never exceeds the
    number of callbacks.  When the collector returns, it has made at least [invocation_count]
    callbacks, the successful workers it has reported are exactly those that a message
    of success was received from, every message of a failure was passed on as often as it was
    received, and every received message was deleted. *)
Theorem CollectSqsMessages_safe pipeline_id invocation_count events s :
  CollectSqsMessages pipeline_id invocation_count initial_collector events = Some s →
  (∀ m, m ∈ received_messages events → result_pipeline_id (body m) = pipeline_id) →
  let received := received_messages events in
  phase s ≠ kTerminated ∧
  (∀ r, r ∈ callbacks s → ∃ m, m ∈ received ∧ r = body m) ∧
  NoDup (success_ids (callbacks s)) ∧
  (processed_count s <= length (callbacks s))%nat ∧
  (phase s = kReturned →
    (invocation_count <= length (callbacks s))%nat ∧
    (∀ id, id ∈ success_ids (callbacks s) ↔ ∃ m, m ∈ received ∧ is_success (body m) = true ∧ worker_id (body m) = id) ∧
    failures (callbacks s) ≡ₚ failures (body <$> received) ∧
    deletions s ≡ₚ receipt_handle <$> received).
Proof.
  intros Hrun Hown received.
  assert (phase s ≠ kTerminated) as Hterm
    by (eapply run_not_terminated; [apply (initial_collector_ok pipeline_id invocation_count)|done|exact Hrun|exact Hown]).
  pose proof (CollectSqsMessages_ok _ _ _ _ _ _ (initial_collector_ok pipeline_id invocation_count) Hrun Hterm) as Hok.
  change ([] ++ received_messages events) with received in Hok.
  assert (∀ r, r ∈ callbacks s → ∃ m, m ∈ received ∧ r = body m) as Horigin.
  { intros r Hr. destruct (ok_origin _ _ _ _ _ Hok r Hr) as (m & Hm & -> & Hid). exists m. by rewrite fragment_result_own. }
  split; [done|]. split; [done|].
  split; [pose proof (ok_distinct _ _ _ _ _ Hok) as Hd; apply NoDup_app in Hd as [? _]; done|].
  split; [pose proof (ok_count _ _ _ _ _ Hok); lia|].
  intros Hp. pose proof (ok_returned _ _ _ _ _ Hok Hp) as Hfin.
  split; [apply (ok_exit _ _ _ _ _ Hok); by right|]. split; [|split].
  - intros id. split.
    + intros (r & Hr & Hs & Hid)%success_ids_elem. destruct (Horigin r Hr) as (m & Hm & ->). by exists m.
    + intros (m & Hm & Hs & <-). destruct (ok_successes _ _ _ _ _ Hok m Hm Hs) as [Hid|Hid].
      * apply (ok_processed _ _ _ _ _ Hok) in Hid. by rewrite (finished_nothing reporting_ids), app_nil_r in Hid.
      * rewrite (finished_nothing unexamined) in Hid by done. by apply elem_of_nil in Hid.
  - pose proof (ok_failures _ _ _ _ _ Hok) as Hf. rewrite (finished_nothing unreported), app_nil_r in Hf by done.
    rewrite <- Hf. by rewrite results_own.
  - pose proof (ok_deletions _ _ _ _ _ Hok) as Hd. by rewrite (finished_nothing undeleted), app_nil_r in Hd by done.
Qed.

(** ** The counter's two operations *)
(** A message that will be dropped, and a thread with nothing else. *)
Definition repeated (s : Collector) (m : Message) : Prop :=
  is_success (body m) = true ∧ worker_id (body m) ∈ processed_worker_ids s.

Definition harmless (s : Collector) (h : Handler) : Prop :=
  match h with
  | Examining l => Forall (repeated s) l
  | Deleting true m l => repeated s m ∧ Forall (repeated s) l
  | _ => False
  end.

Definition stuck (invocation_count : nat) (s : Collector) : Prop :=
  (phase s = kTesting ∨ phase s = kReceiving) ∧ (processed_count s < invocation_count)%nat ∧ Forall (harmless s) (threads s).

Lemma stuck_step pipeline_id invocation_count s e s' :
  stuck invocation_count s → collector_step pipeline_id invocation_count s e = Some s' →
  Forall (repeated s) (received_messages [e]) →
  stuck invocation_count s' ∧ processed_worker_ids s' = processed_worker_ids s ∧ callbacks s' = callbacks s.
Proof.
  intros (Hp & Hcount & Hl) Hstep Hmessages. destruct e as [|messages|i|].
  - cbn [collector_step] in Hstep. destruct Hp as [Hp|Hp]; rewrite Hp in Hstep; [|done]. injection Hstep as <-.
    rewrite (proj2 (Nat.ltb_lt _ _) Hcount). split; [|done]. split; [by right|done].
  - cbn in Hstep. destruct Hp as [Hp|Hp]; rewrite Hp in Hstep; [done|]. injection Hstep as <-.
    split; [|done]. split; [by left|]. split; [done|]. cbn. apply Forall_app. split; [done|]. constructor; [|done].
    unfold received_messages in Hmessages. cbn in Hmessages. rewrite app_nil_r in Hmessages. exact Hmessages.
  - apply handle_inv in Hstep as (h & s1 & h' & Hi & Hh & Hthreads & -> & _).
    pose proof (Forall_lookup_1 _ _ _ _ Hl Hi) as Hharm.
    assert (harmless s h' ∧ processed_count s1 = processed_count s ∧ phase s1 = phase s ∧
      processed_worker_ids s1 = processed_worker_ids s ∧ callbacks s1 = callbacks s) as (H1 & H2 & H3 & H4 & H5).
    { destruct h as [[|m l]|m l|[] m l|l|n l]; cbn in Hh, Hharm; try done; [|simplify_eq; by destruct Hharm].
      apply Forall_cons in Hharm as [[Hs Hid] Hharm]. rewrite Hs, decide_True in Hh by done. by simplify_eq. }
    unfold stuck. cbn. rewrite H2, H3, H4, H5. split; [|done]. split; [done|]. split; [done|].
    assert (harmless s1 = harmless s) as Heq by (unfold harmless, repeated; by rewrite H4).
    change (Forall (harmless s1) (<[i:=h']> (threads s))). rewrite Heq. by apply Forall_insert.
  - cbn in Hstep. by destruct Hp as [Hp|Hp]; rewrite Hp in Hstep.
Qed.

Lemma stuck_run pipeline_id invocation_count s events s' :
  stuck invocation_count s → CollectSqsMessages pipeline_id invocation_count s events = Some s' →
  Forall (repeated s) (received_messages events) → stuck invocation_count s'.
Proof.
  revert s. induction events as [|e events IH]; intros s Hs Hrun Hm; [by injection Hrun as <-|].
  cbn [CollectSqsMessages] in Hrun. destruct (collector_step pipeline_id invocation_count s e) as [s1|] eqn:He; [|done].
  change (received_messages (e :: events)) with (received_messages ([e] ++ events)) in Hm.
  unfold received_messages in Hm. rewrite bind_app in Hm. apply Forall_app in Hm as [Hm1 Hm2].
  destruct (stuck_step _ _ _ _ _ Hs He Hm1) as (Hs1 & Hids & _). apply (IH s1); [done|done|].
  eapply Forall_impl; [exact Hm2|]. unfold repeated. by rewrite Hids.
Qed.

(** Two batches of one message each, examined by two threads whose loads both come first. *)
Definition lost_update (m1 m2 : Message) : list collector_event :=
  [TestCount; ReceiveMessages [m1]; TestCount; ReceiveMessages [m2]] ++
  replicate 3 (Handle 0) ++ replicate 3 (Handle 1) ++ [Handle 0; Handle 1; Handle 0; Handle 1].

(** (lambda_executor.cpp: [processed_count.store(processed_count.load() + 1)]) Two workers of
    a pipeline of two fragments succeed and their messages arrive in two batches.  Both
    callbacks are made and both messages deleted, but there is an interleaving of the two
    threads that counts one of them only; and from there the collector never leaves its loop,
    whatever copies of the two messages the queue still delivers. *)
Theorem CollectSqsMessages_lost_update pipeline_id (m1 m2 : Message) :
  is_success (body m1) = true → is_success (body m2) = true → worker_id (body m1) ≠ worker_id (body m2) →
  result_pipeline_id (body m1) = pipeline_id → result_pipeline_id (body m2) = pipeline_id →
  ∃ s, CollectSqsMessages pipeline_id 2 initial_collector (lost_update m1 m2) = Some s ∧
    callbacks s = [body m1; body m2] ∧ deletions s = [receipt_handle m1; receipt_handle m2] ∧
    forallb finished (threads s) = true ∧
    ∀ events s', CollectSqsMessages pipeline_id 2 s events = Some s' →
      (∀ m, m ∈ received_messages events → body m = body m1 ∨ body m = body m2) →
      phase s' = kTesting ∨ phase s' = kReceiving.
Proof.
  intros Hs1 Hs2 Hne Hp1 Hp2.
  exists (mkCollector kTesting 1 ({[worker_id (body m2)]} ∪ ({[worker_id (body m1)]} ∪ ∅)) [Examining []; Examining []]
    [body m1; body m2] [receipt_handle m1; receipt_handle m2]).
  split.
  - assert (worker_id (body m1) ∉ (∅ : gset string)) as Hnew1 by apply not_elem_of_empty.
    assert (worker_id (body m2) ∉ ({[worker_id (body m1)]} ∪ ∅ : gset string)) as Hnew2 by (rewrite right_id_L, elem_of_singleton by apply _; congruence).
    unfold lost_update. cbn -[decide union fragment_result]. rewrite Hs1, (decide_False _ _ Hnew1).
    cbn -[decide union fragment_result]. rewrite (decide_True _ _ (eq_sym Hp1)).
    cbn -[decide union fragment_result]. rewrite Hs2, (decide_False _ _ Hnew2).
    cbn -[decide union fragment_result]. rewrite (decide_True _ _ (eq_sym Hp2)).
    cbn -[decide union fragment_result]. by rewrite !fragment_result_own.
  - split; [done|]. split; [done|]. split; [done|]. intros events s' Hrun Hm.
    eapply stuck_run; [|exact Hrun|].
    + split; [by left|]. split; [cbn; lia|]. repeat constructor.
    + apply Forall_forall. intros m Hin. unfold repeated. cbn [processed_worker_ids].
      destruct (Hm m Hin) as [->| ->]; (split; [done|]); rewrite !elem_of_union, !elem_of_singleton; auto.
Qed.

(** A failed worker's message that the queue delivers twice. *)
Definition failure_twice (m : Message) : list collector_event :=
  [TestCount; ReceiveMessages [m; m]] ++ replicate 10 (Handle 0) ++ [TestCount; Join].

(** (lambda_executor.cpp: [is_duplicate] is decided for successes only) When the queue delivers
    the message of a failed worker twice, both deliveries are passed on and counted: for a
    pipeline of two fragments the collector returns although the other worker has never
    answered. *)
Theorem CollectSqsMessages_failure_twice pipeline_id (m : Message) :
  is_success (body m) = false → result_pipeline_id (body m) = pipeline_id →
  ∃ s, CollectSqsMessages pipeline_id 2 initial_collector (failure_twice m) = Some s ∧
    phase s = kReturned ∧ callbacks s = [body m; body m] ∧ processed_count s = 2%nat.
Proof.
  intros Hs Hp. eexists. split; [|split; [|split]].
  - unfold failure_twice. do 2 (cbn -[decide fragment_result]; rewrite Hs; cbn -[decide fragment_result];
      rewrite (decide_True _ _ (eq_sym Hp))). cbn -[fragment_result]. rewrite fragment_result_own by done. reflexivity.
  - reflexivity.
  - reflexivity.
  - reflexivity.
Qed.

Section Example.
Local Open Scope string_scope.

Definition example_message (worker : string) (success : bool) : Message :=
  mkMessage ("r" ++ worker) (mkFragmentExecutionResult "p" worker success "m" 12 2048 100 200).

(** Two workers, the first of which is delivered twice. *)
Definition example_events : list collector_event :=
  ([TestCount; ReceiveMessages [example_message "w0" true; example_message "w0" true]; TestCount;
    ReceiveMessages [example_message "w1" true]] ++
  replicate 7 (Handle 0) ++ replicate 5 (Handle 1) ++ [TestCount; Join])%list.

Lemma CollectSqsMessages_safe_witness :
  ∃ s, CollectSqsMessages "p" 2 initial_collector example_events = Some s ∧ phase s = kReturned ∧
    callbacks s = [body (example_message "w0" true); body (example_message "w1" true)] ∧
    (2 <= length (callbacks s))%nat ∧ phase s ≠ kTerminated.
Proof.
  assert ((λ s, (phase s, callbacks s)) <$> CollectSqsMessages "p" 2 initial_collector example_events =
    Some (kReturned, [body (example_message "w0" true); body (example_message "w1" true)])) as Hend by (vm_compute; reflexivity).
  apply fmap_Some in Hend as (s & Hrun & Heq). injection Heq as Hphase Hcallbacks.
  exists s. split; [exact Hrun|]. split; [done|]. split; [done|]. split; [rewrite <- Hcallbacks; cbn; lia|].
  eapply (CollectSqsMessages_safe "p" 2 example_events); [exact Hrun|].
  assert (received_messages example_events =
    [example_message "w0" true; example_message "w0" true; example_message "w1" true]) as -> by reflexivity.
  apply Forall_forall. repeat constructor.
Defined.

Lemma CollectSqsMessages_lost_update_witness :
  ∃ s, CollectSqsMessages "p" 2 initial_collector
    (lost_update (example_message "w0" true) (example_message "w1" true)) = Some s ∧ length (callbacks s) = 2%nat.
Proof.
  destruct (CollectSqsMessages_lost_update "p" (example_message "w0" true) (example_message "w1" true)) as (s & Hs & Hc & _);
    [done..|]. exists s. split; [exact Hs|]. by rewrite Hc.
Defined.

Lemma CollectSqsMessages_failure_twice_witness :
  ∃ s, CollectSqsMessages "p" 2 initial_collector (failure_twice (example_message "w0" false)) = Some s ∧
    phase s = kReturned.
Proof.
  destruct (CollectSqsMessages_failure_twice "p" (example_message "w0" false)) as (s & Hs & Hp & _); [done..|].
  exists s. split; [exact Hs|exact Hp].
Defined.
End Example.
