(* ===== verification/OperatorInstances.v ===== *)
(** * Operators from proxies

    [GetOrCreateOperatorInstance] of [operator_proxy/*.cpp]: every proxy of a fragment plan
    creates its operator once, after the operators of its inputs, and the constructors of
    [operator/*.cpp] check their arguments.  Operators are objects at consecutive
    addresses; an operator's inputs are addresses.  [GetAllSubOperators] of
    [operator/abstract_operator.cpp] is here, too. *)

From S2P Require Export PqpNodesCorrect.

Local Open Scope string_scope.

(** ** Operators *)
(** The members that the constructors store.  A [dynamic_pointer_cast] that fails leaves a null
    pointer among the aggregates. *)
Inductive Operator (A : Type) : Type :=
  | AggregateHashOperator (aggregates : list (option expr)) (group_by_column_ids : list ColumnId)
  | AliasOperator (column_ids : list ColumnId) (aliases : list string)
  | ExportOperator (bucket_name target_object_key : string) (export_format : FileFormat) (consolidate_row_groups : bool)
  | FilterOperator (predicate : expr)
  | HashJoinOperator (predicate : JoinOperatorPredicate) (join_mode : JoinMode)
  | ImportOperator (object_references : list ObjectReference) (column_ids : list ColumnId) (options : ImportOptions A)
  | LimitOperator (row_count : expr)
  | PartitionOperator (partitioning_function : PartitioningFunction) (sort_within_partition : bool)
  | ProjectionOperator (expressions : list expr)
  | SortOperator (sort_definitions : list SortColumnDefinition)
  | SortedMergeJoinOperator (predicate : JoinOperatorPredicate) (join_mode : JoinMode).
Arguments AggregateHashOperator {A}.
Arguments AliasOperator {A}.
Arguments ExportOperator {A}.
Arguments FilterOperator {A}.
Arguments HashJoinOperator {A}.
Arguments ImportOperator {A}.
Arguments LimitOperator {A}.
Arguments PartitionOperator {A}.
Arguments ProjectionOperator {A}.
Arguments SortOperator {A}.
Arguments SortedMergeJoinOperator {A}.

Record OperatorNode (A : Type) : Type := mkOperatorNode {
  node_operator : Operator A;
  left_input_ : option nat;
  right_input_ : option nat }.
Arguments mkOperatorNode {A}.
Arguments node_operator {A}.
Arguments left_input_ {A}.
Arguments right_input_ {A}.

(** [std::dynamic_pointer_cast<AggregateExpression>]. *)
Definition as_aggregate (e : expr) : option expr :=
  match e with Aggregate _ _ | StringAgg _ _ => Some e | _ => None end.

(** [std::all_of] in the initialisation of [has_aggregate_functions_]: it dereferences the
    aggregates up to the first one that is not ANY. *)
Fixpoint check_aggregates (aggregates : list (option expr)) : result unit :=
  match aggregates with
  | [] => Ok tt
  | None :: _ => Err UndefinedBehaviour
  | Some (Aggregate kAny _) :: aggregates => check_aggregates aggregates
  | Some _ :: _ => Ok tt
  end.

Definition check_join_operator (predicate : JoinOperatorPredicate) (join_mode : JoinMode) : result unit :=
  _ ← assert_ (bool_decide (predicate_condition predicate = kEquals)) AssertionFailed;
  assert_ (supported_mode join_mode) AssertionFailed.

(** The constructors' checks. *)
Definition make_operator {A} (op : Operator A) : result (Operator A) :=
  match op with
  | AggregateHashOperator aggregates group_by_column_ids =>
      _ ← assert_ (negb (bool_decide (aggregates = []) && bool_decide (group_by_column_ids = []))) AssertionFailed;
      _ ← check_aggregates aggregates; Ok op
  | AliasOperator column_ids aliases => _ ← assert_ (length column_ids =? length aliases)%nat AssertionFailed; Ok op
  | HashJoinOperator predicate join_mode | SortedMergeJoinOperator predicate join_mode =>
      _ ← check_join_operator predicate join_mode; Ok op
  | SortOperator sort_definitions => _ ← assert_ (bool_decide (sort_definitions ≠ [])) AssertionFailed; Ok op
  | _ => Ok op
  end.

(** ** Import options from the first key's extension *)
Definition GetFormatName (format : FileFormat) : string :=
  match format with kCsv => "csv" | kOrc => "orc" | kParquet => "parquet" end.
Definition GetFormatExtension (format : FileFormat) : string := "." +:+ GetFormatName format.

(** [find(file_extension, file_extension_start_pos) != npos]. *)
Definition specifies_format (first_object_key file_extension : string) : bool :=
  if (String.length first_object_key <=? String.length file_extension)%nat then false
  else match String.index (String.length first_object_key - String.length file_extension) file_extension first_object_key with
       | Some _ => true | None => false end.

Definition default_import_options {A} (column_ids : list ColumnId) (first_object : ObjectReference) : result (ImportOptions A) :=
  let specifies format := specifies_format (identifier first_object) (GetFormatExtension format) in
  if specifies kCsv then Ok (make_ImportOptions_columns kCsv column_ids)
  else if specifies kOrc then Ok (make_ImportOptions_columns kOrc column_ids)
  else if specifies kParquet then Ok (make_ImportOptions kParquet column_ids (partitions first_object))
  else Err AssertionFailed.

(** ** Creation *)
Section Instances.
Context {A : Type} {P : Type} `{Countable P}.
Abbreviation Heap := (gmap P (Proxy A P)).

(** The proxies, their [operator_instance_] and all operators that exist. *)
Record Instances : Type := mkInstances {
  proxies : Heap;
  operator_instance_ : gmap P nat;
  operators_ : list (OperatorNode A) }.

Definition new_operator (op : Operator A) (left right : option nat) (s : Instances) : result (nat * Instances) :=
  op ← make_operator op;
  Ok (length (operators_ s),
      mkInstances (proxies s) (operator_instance_ s) (operators_ s ++ [mkOperatorNode op left right])%list).

Section CreateOperatorInstanceRecursively.
(** [GetOrCreateOperatorInstance] of an input. *)
Variable get : P → Instances → result (nat * Instances).

(** [LeftInput()->GetOrCreateOperatorInstance()]. *)
Definition get_input (input : option P) (s : Instances) : result (nat * Instances) :=
  q ← of_option input UndefinedBehaviour; get q s.

Definition unary_operator (op : Operator A) (left : option P) (s : Instances) : result (nat * Instances) :=
  '(l, s) ← get_input left s; new_operator op (Some l) None s.

Definition AggregateOperatorProxy_Create (groupby_column_ids : list ColumnId) (aggregates : list expr) (left : option P)
    (s : Instances) : result (nat * Instances) :=
  _ ← assert_ (bool_decide (is_Some left)) AssertionFailed;
  _ ← assert_ (bool_decide (aggregates ≠ [])) AssertionFailed;
  unary_operator (AggregateHashOperator (as_aggregate <$> aggregates) groupby_column_ids) left s.

Definition AliasOperatorProxy_Create (column_ids : list ColumnId) (aliases : list string) (left : option P) (s : Instances)
    : result (nat * Instances) :=
  _ ← assert_ (bool_decide (is_Some left)) AssertionFailed;
  _ ← assert_ (bool_decide (aliases ≠ [])) AssertionFailed;
  _ ← assert_ (bool_decide (column_ids ≠ [])) AssertionFailed;
  _ ← assert_ (length aliases =? length column_ids)%nat AssertionFailed;
  unary_operator (AliasOperator column_ids aliases) left s.

Definition ExchangeOperatorProxy_Create : result (nat * Instances) := Err AssertionFailed.

Definition ExportOperatorProxy_Create (target_object : ObjectReference) (export_format : FileFormat)
    (consolidate_row_groups : bool) (left : option P) (s : Instances) : result (nat * Instances) :=
  _ ← assert_ (bool_decide (is_Some left)) AssertionFailed;
  unary_operator (ExportOperator (bucket_name target_object) (identifier target_object) export_format consolidate_row_groups)
    left s.

(** The predicate is an [expr] here: the pointer is not null. *)
Definition FilterOperatorProxy_Create (predicate : expr) (left : option P) (s : Instances) : result (nat * Instances) :=
  _ ← assert_ (bool_decide (is_Some left)) AssertionFailed;
  unary_operator (FilterOperator predicate) left s.

(** The options are remembered in the proxy [x] at [p]. *)
Definition ImportOperatorProxy_Create (column_ids : list ColumnId) (object_references : list ObjectReference)
    (import_options : option (ImportOptions A)) (output_objects_count : Z) (p : P) (x : Proxy A P) (s : Instances)
    : result (nat * Instances) :=
  _ ← assert_ (bool_decide (object_references ≠ [])) AssertionFailed;
  _ ← assert_ (bool_decide (column_ids ≠ [])) AssertionFailed;
  first_object ← of_option (head object_references) UndefinedBehaviour;
  options ← match import_options with Some options => Ok options | None => default_import_options column_ids first_object end;
  let x' := set_operator x (ImportOperatorProxy column_ids object_references (Some options) output_objects_count) in
  new_operator (ImportOperator object_references column_ids options) None None
    (mkInstances (<[p := x']> (proxies s)) (operator_instance_ s) (operators_ s)).

(** The order in which the two arguments of [make_shared] are evaluated is unspecified; it
    determines addresses only. *)
Definition JoinOperatorProxy_Create (sort_merge : bool) (mode : JoinMode) (primary_predicate : option JoinOperatorPredicate)
    (secondary_predicates : list JoinOperatorPredicate) (left right : option P) (s : Instances) : result (nat * Instances) :=
  _ ← assert_ (bool_decide (secondary_predicates = [])) AssertionFailed;
  _ ← assert_ (bool_decide (is_Some left)) AssertionFailed;
  _ ← assert_ (bool_decide (is_Some right)) AssertionFailed;
  '(l, s) ← get_input left s;
  '(r, s) ← get_input right s;
  predicate ← of_option primary_predicate UndefinedBehaviour;
  new_operator (if sort_merge then SortedMergeJoinOperator predicate mode else HashJoinOperator predicate mode)
    (Some l) (Some r) s.

Definition LimitOperatorProxy_Create (row_count : expr) (left : option P) (s : Instances) : result (nat * Instances) :=
  unary_operator (LimitOperator row_count) left s.

Definition PartitionOperatorProxy_Create (partitioning_function : PartitioningFunction) (sort_within_partition : bool)
    (left : option P) (s : Instances) : result (nat * Instances) :=
  _ ← assert_ (bool_decide (is_Some left)) AssertionFailed;
  unary_operator (PartitionOperator partitioning_function sort_within_partition) left s.

Definition ProjectionOperatorProxy_Create (expressions : list expr) (left : option P) (s : Instances)
    : result (nat * Instances) :=
  _ ← assert_ (bool_decide (is_Some left)) AssertionFailed;
  _ ← assert_ (bool_decide (expressions ≠ [])) AssertionFailed;
  unary_operator (ProjectionOperator expressions) left s.

Definition SortOperatorProxy_Create (sort_definitions : list SortColumnDefinition) (left : option P) (s : Instances)
    : result (nat * Instances) :=
  _ ← assert_ (bool_decide (is_Some left)) AssertionFailed;
  _ ← assert_ (bool_decide (sort_definitions ≠ [])) AssertionFailed;
  unary_operator (SortOperator sort_definitions) left s.

Definition UnionOperatorProxy_Create : result (nat * Instances) := Err AssertionFailed.

Definition CreateOperatorInstance (p : P) (x : Proxy A P) (s : Instances) : result (nat * Instances) :=
  let left := LeftInput x in let right := RightInput x in
  match proxy_operator x with
  | AggregateOperatorProxy groupby aggregates _ => AggregateOperatorProxy_Create groupby aggregates left s
  | AliasOperatorProxy column_ids aliases => AliasOperatorProxy_Create column_ids aliases left s
  | ExchangeOperatorProxy _ _ => ExchangeOperatorProxy_Create
  | ExportOperatorProxy target format consolidate => ExportOperatorProxy_Create target format consolidate left s
  | FilterOperatorProxy predicate => FilterOperatorProxy_Create predicate left s
  | ImportOperatorProxy column_ids references options count =>
      ImportOperatorProxy_Create column_ids references options count p x s
  | JoinOperatorProxy sort_merge mode primary secondary => JoinOperatorProxy_Create sort_merge mode primary secondary left right s
  | LimitOperatorProxy row_count => LimitOperatorProxy_Create row_count left s
  | PartitionOperatorProxy function sort => PartitionOperatorProxy_Create function sort left s
  | ProjectionOperatorProxy expressions => ProjectionOperatorProxy_Create expressions left s
  | SortOperatorProxy definitions => SortOperatorProxy_Create definitions left s
  | UnionOperatorProxy _ => UnionOperatorProxy_Create
  end.
End CreateOperatorInstanceRecursively.

Fixpoint GetOrCreateOperatorInstance (fuel : nat) (p : P) (s : Instances) : result (nat * Instances) :=
  match fuel with
  | O => Err OutOfFuel
  | S fuel =>
      x ← deref (proxies s) p;
      match operator_instance_ s !! p with
      | Some o => Ok (o, s)
      | None =>
          '(o, s) ← CreateOperatorInstance (GetOrCreateOperatorInstance fuel) p x s;
          Ok (o, mkInstances (proxies s) (<[p := o]> (operator_instance_ s)) (operators_ s))
      end
  end.
End Instances.
Arguments Instances : clear implicits.
Arguments Instances A P {_ _}.

(** ** [GetAllSubOperators]: in post-order, once per path from the root *)
Fixpoint CollectSubOperatorsRecursive {A} (fuel : nat) (operators : list (OperatorNode A)) (o : nat) : result (list nat) :=
  match fuel with
  | O => Err OutOfFuel
  | S fuel =>
      node ← of_option (operators !! o) UndefinedBehaviour;
      let collect input := match input with Some i => CollectSubOperatorsRecursive fuel operators i | None => Ok [] end in
      l ← collect (left_input_ node);
      r ← collect (right_input_ node);
      Ok (l ++ r ++ [o])%list
  end.

(** ** Operators from proxies: correctness

    The operators that [GetOrCreateOperatorInstance] creates are a copy of the plan: one
    operator per proxy, with the operators of the proxy's inputs as its inputs, a shared
    input shared.  Inputs have smaller addresses than their readers. *)

Section Correct.
Context {A : Type} {P : Type} `{Countable P}.
Abbreviation Heap := (gmap P (Proxy A P)).

(** ** What a proxy becomes *)
Definition import_options_of (column_ids : list ColumnId) (references : list ObjectReference) (options : option (ImportOptions A))
    : result (ImportOptions A) :=
  first_object ← of_option (head references) UndefinedBehaviour;
  match options with Some options => Ok options | None => default_import_options column_ids first_object end.

Definition operator_of (op : ProxyOperator A) : result (Operator A) :=
  match op with
  | AggregateOperatorProxy groupby aggregates _ =>
      _ ← assert_ (bool_decide (aggregates ≠ [])) AssertionFailed;
      make_operator (AggregateHashOperator (as_aggregate <$> aggregates) groupby)
  | AliasOperatorProxy column_ids aliases =>
      _ ← assert_ (bool_decide (aliases ≠ [])) AssertionFailed;
      _ ← assert_ (bool_decide (column_ids ≠ [])) AssertionFailed;
      _ ← assert_ (length aliases =? length column_ids)%nat AssertionFailed;
      make_operator (AliasOperator column_ids aliases)
  | ExchangeOperatorProxy _ _ | UnionOperatorProxy _ => Err AssertionFailed
  | ExportOperatorProxy target format consolidate =>
      make_operator (ExportOperator (bucket_name target) (identifier target) format consolidate)
  | FilterOperatorProxy predicate => make_operator (FilterOperator predicate)
  | ImportOperatorProxy column_ids references options _ =>
      _ ← assert_ (bool_decide (references ≠ [])) AssertionFailed;
      _ ← assert_ (bool_decide (column_ids ≠ [])) AssertionFailed;
      options ← import_options_of column_ids references options;
      make_operator (ImportOperator references column_ids options)
  | JoinOperatorProxy sort_merge mode primary secondary =>
      _ ← assert_ (bool_decide (secondary = [])) AssertionFailed;
      predicate ← of_option primary UndefinedBehaviour;
      make_operator (if sort_merge then SortedMergeJoinOperator predicate mode else HashJoinOperator predicate mode)
  | LimitOperatorProxy row_count => make_operator (LimitOperator row_count)
  | PartitionOperatorProxy function sort => make_operator (PartitionOperator function sort)
  | ProjectionOperatorProxy expressions =>
      _ ← assert_ (bool_decide (expressions ≠ [])) AssertionFailed; make_operator (ProjectionOperator expressions)
  | SortOperatorProxy definitions =>
      _ ← assert_ (bool_decide (definitions ≠ [])) AssertionFailed; make_operator (SortOperator definitions)
  end.

(** An import remembers its options. *)
Definition settled (x : Proxy A P) : Proxy A P :=
  match proxy_operator x with
  | ImportOperatorProxy column_ids references options count =>
      match import_options_of column_ids references options with
      | Ok options => set_operator x (ImportOperatorProxy column_ids references (Some options) count)
      | Err _ => x
      end
  | _ => x
  end.

(** The proxies that have an operator. *)
Record instantiable (x : Proxy A P) : Prop := {
  in_operator : is_ok (operator_of (proxy_operator x)) = true;
  in_left : Type_ (proxy_operator x) ≠ oImport → is_Some (LeftInput x);
  in_right : RequiresRightInput (proxy_operator x) = true → is_Some (RightInput x);
  in_arity : copied_left (proxy_operator x) (LeftInput x) = LeftInput x ∧
    copied_right (proxy_operator x) (RightInput x) = RightInput x }.

Definition get_optional (get : P → Instances A P → result (nat * Instances A P)) (input : option P) (s : Instances A P)
    : result (option nat * Instances A P) :=
  match input with Some q => '(o, s) ← get q s; Ok (Some o, s) | None => Ok (None, s) end.

Definition settle (p : P) (x : Proxy A P) (h : Heap) : Heap :=
  if decide (Type_ (proxy_operator x) = oImport) then <[p := settled x]> h else h.

Lemma is_ok_bind {B C} (r : result B) (k : B → result C) : is_ok (rbind r k) = true → ∃ b, r = Ok b ∧ is_ok (k b) = true.
Proof. destruct r as [b|]; [|done]. intros Hk. by exists b. Qed.

Lemma is_ok_inv {B} (r : result B) : is_ok r = true → ∃ b, r = Ok b.
Proof. destruct r as [b|]; [|done]. intros _. by exists b. Qed.

Lemma new_operator_made op op' l r (s : Instances A P) :
  make_operator op = Ok op' →
  new_operator op l r s = Ok (length (operators_ s),
    mkInstances (proxies s) (operator_instance_ s) (operators_ s ++ [mkOperatorNode op' l r])).
Proof. unfold new_operator. by intros ->. Qed.

Lemma unary_operator_made get op op' left (s : Instances A P) :
  make_operator op = Ok op' → is_Some left →
  unary_operator get op left s =
    ('(l, s) ← get_optional get left s;
     Ok (length (operators_ s), mkInstances (proxies s) (operator_instance_ s) (operators_ s ++ [mkOperatorNode op' l None]))).
Proof.
  intros Hop [q ->]. unfold unary_operator, get_input. cbn [of_option rbind get_optional].
  destruct (get q s) as [[l s1]|]; [|done]. cbn [rbind]. by apply new_operator_made.
Qed.

Ltac assertions Hop :=
  repeat (let Ha := fresh in match type of Hop with rbind _ _ = _ => apply bind_ok in Hop as ([] & Ha & Hop); rewrite Ha; cbn [rbind] end).

(** All classes at once. *)
Lemma CreateOperatorInstance_spec get p x s :
  instantiable x → ∃ op, operator_of (proxy_operator x) = Ok op ∧
    CreateOperatorInstance get p x s =
      ('(l, s) ← get_optional get (LeftInput x) s;
       '(r, s) ← get_optional get (RightInput x) s;
       Ok (length (operators_ s), mkInstances (settle p x (proxies s)) (operator_instance_ s)
             (operators_ s ++ [mkOperatorNode op l r]))).
Proof.
  intros [Hop Hl Hr [Hal Har]]. unfold CreateOperatorInstance, settle, settled.
  destruct x as [op identity comment left right left_identity right_identity]. cbn [proxy_operator LeftInput RightInput] in *.
  apply is_ok_inv in Hop as [op' Hop]. exists op'. split; [exact Hop|].
  destruct op as [| | | | |column_ids references options count|sort_merge mode primary secondary| | | | |];
    cbn [Type_ copied_left copied_right RequiresRightInput operator_of] in *; try done;
    unfold copied_right in Har; cbn [RequiresRightInput] in Har; try subst right; try specialize (Hl ltac:(done)).
  all: try (unfold AggregateOperatorProxy_Create, AliasOperatorProxy_Create, ExportOperatorProxy_Create, FilterOperatorProxy_Create,
    LimitOperatorProxy_Create, PartitionOperatorProxy_Create, ProjectionOperatorProxy_Create, SortOperatorProxy_Create;
    rewrite ?(bool_decide_true (is_Some left)) by done; cbn [assert_ rbind]).
  all: try (assertions Hop; erewrite unary_operator_made by done; reflexivity).
  - unfold ImportOperatorProxy_Create. apply bind_ok in Hop as ([] & Ha & Hop). apply bind_ok in Hop as ([] & Hb & Hop).
    apply bind_ok in Hop as (options' & Hc & Hop). rewrite Ha, Hb. cbn [rbind]. rewrite Hc. unfold import_options_of in Hc.
    apply bind_ok in Hc as (first & Hfirst & Hc). rewrite Hfirst. cbn [rbind]. rewrite Hc. cbn [rbind].
    rewrite (new_operator_made _ op') by done. subst left. reflexivity.
  - unfold JoinOperatorProxy_Create. apply bind_ok in Hop as ([] & Ha & Hop). apply bind_ok in Hop as (predicate & Hb & Hop).
    rewrite Ha, Hb. cbn [rbind]. destruct Hl as [l ->]; [by destruct sort_merge|]. destruct (Hr eq_refl) as [r ->].
    cbn [bool_decide is_Some]. rewrite !bool_decide_true by done. cbn [assert_ rbind get_input of_option get_optional].
    destruct (get l s) as [[lo s1]|]; [|done]. cbn [rbind]. destruct (get r s1) as [[ro s2]|]; [|done]. cbn [rbind].
    rewrite (new_operator_made _ op') by done. by destruct sort_merge.
Qed.

(** ** The recursion *)
Section Creation.
Variables (plan : Heap) (root : P) (rank : P → nat).
Hypothesis Hclosed : ∀ p, plan_reachable plan root p → is_Some (plan !! p).
Hypothesis Hrank : ranked plan root rank.
Hypothesis Hinstantiable : ∀ p x, plan_reachable plan root p → plan !! p = Some x → instantiable x.

(** What holds after every call: [operator_instance_] is a bijection between the proxies
    that have an operator and the operators. *)
Record created (s : Instances A P) : Prop := {
  cr_proxies p : proxies s !! p =
    match operator_instance_ s !! p with Some _ => settled <$> plan !! p | None => plan !! p end;
  cr_inj p q o : operator_instance_ s !! p = Some o → operator_instance_ s !! q = Some o → p = q;
  cr_node p o : operator_instance_ s !! p = Some o → ∃ x op, plan_reachable plan root p ∧ plan !! p = Some x ∧
    operator_of (proxy_operator x) = Ok op ∧
    (∀ q, q ∈ inputs x → ∃ i, operator_instance_ s !! q = Some i ∧ (i < o)%nat) ∧
    operators_ s !! o = Some (mkOperatorNode op (LeftInput x ≫= (operator_instance_ s !!.)) (RightInput x ≫= (operator_instance_ s !!.)));
  cr_all o : (o < length (operators_ s))%nat → ∃ p, operator_instance_ s !! p = Some o }.

Definition creates (n : nat) (s s' : Instances A P) : Prop :=
  created s' ∧ operator_instance_ s ⊆ operator_instance_ s' ∧ operators_ s `prefix_of` operators_ s' ∧
  ∀ q, is_Some (operator_instance_ s' !! q) → is_Some (operator_instance_ s !! q) ∨ (rank q < n)%nat.

Lemma creates_refl n s : created s → creates n s s.
Proof. intros Hs. split; [done|]. split; [done|]. split; [done|]. by left. Qed.

Lemma creates_trans n1 n2 n s1 s2 s3 :
  (n1 <= n)%nat → (n2 <= n)%nat → creates n1 s1 s2 → creates n2 s2 s3 → creates n s1 s3.
Proof.
  intros Hn1 Hn2 (H1 & H2 & H3 & H4) (K1 & K2 & K3 & K4). split; [done|]. split; [by transitivity (operator_instance_ s2)|].
  split; [by transitivity (operators_ s2)|]. intros q [Hq|Hq]%K4; [apply H4 in Hq as [|]; [by left|right; lia]|right; lia].
Qed.

Lemma instance_bound s p o : created s → operator_instance_ s !! p = Some o → (o < length (operators_ s))%nat.
Proof. intros Hs Hp. destruct (cr_node _ Hs p o Hp) as (x & op & _ & _ & _ & _ & Ho). by eapply lookup_lt_Some. Qed.

Lemma settle_lookup p x h q : h !! p = Some x → settle p x h !! q = if decide (q = p) then Some (settled x) else h !! q.
Proof.
  intros Hp. unfold settle. case_decide as Ht.
  - destruct (decide (q = p)) as [->|Hne]; [by rewrite lookup_insert_eq|by rewrite lookup_insert_ne].
  - destruct (decide (q = p)) as [->|Hne]; [|done]. rewrite Hp. unfold settled. by destruct (proxy_operator x).
Qed.

(** The new entry of [p]. *)
Lemma created_insert s p x op :
  created s → operator_instance_ s !! p = None → plan_reachable plan root p → plan !! p = Some x →
  operator_of (proxy_operator x) = Ok op → (∀ q, q ∈ inputs x → is_Some (operator_instance_ s !! q)) →
  created (mkInstances (settle p x (proxies s)) (<[p := length (operators_ s)]> (operator_instance_ s))
    (operators_ s ++ [mkOperatorNode op (LeftInput x ≫= (operator_instance_ s !!.)) (RightInput x ≫= (operator_instance_ s !!.))])).
Proof.
  intros Hs Hp Hr Hx Hop Hin. set (o := length (operators_ s)). set (m := operator_instance_ s).
  assert (proxies s !! p = Some x) as Hpx by (rewrite (cr_proxies _ Hs), Hp; done).
  assert (∀ q i, m !! q = Some i → (i < o)%nat) as Hold by (intros q i Hq; by apply (instance_bound s q)).
  assert (∀ q, is_Some (m !! q) → <[p := o]> m !! q = m !! q) as Hsame.
  { intros q [i Hq]. rewrite lookup_insert_ne; [done|]. intros <-. unfold m in Hq. congruence. }
  assert (∀ y : Proxy A P, (∀ q, q ∈ inputs y → is_Some (m !! q)) →
    LeftInput y ≫= (<[p := o]> m !!.) = LeftInput y ≫= (m !!.) ∧ RightInput y ≫= (<[p := o]> m !!.) = RightInput y ≫= (m !!.)) as Hinputs.
  { intros y Hy. unfold inputs in Hy. split.
    - destruct (LeftInput y) as [q|]; [|done]. cbn. apply Hsame, Hy. by left.
    - destruct (RightInput y) as [q|]; [|done]. cbn. apply Hsame, Hy, elem_of_app. right. by left. }
  split; cbn [proxies operator_instance_ operators_].
  - intros q. rewrite (settle_lookup p x) by done. destruct (decide (q = p)) as [->|Hne].
    + by rewrite lookup_insert_eq, Hx.
    + rewrite lookup_insert_ne by done. apply (cr_proxies _ Hs).
  - intros q r i [[<- <-]|[Hq1 Hq2]]%lookup_insert_Some [[<- Hi]|[Hr1 Hr2]]%lookup_insert_Some; try done.
    + apply Hold in Hr2. lia.
    + apply Hold in Hq2. lia.
    + by eapply (cr_inj _ Hs).
  - intros q i [[<- <-]|[Hq1 Hq2]]%lookup_insert_Some.
    + exists x, op. do 3 (split; [done|]). split.
      * intros q Hq. rewrite (Hsame q) by by apply Hin. destruct (Hin q Hq) as [i Hi]. exists i. split; [done|]. by apply (Hold q).
      * destruct (Hinputs x Hin) as [-> ->]. rewrite lookup_app_r by done. by rewrite Nat.sub_diag.
    + destruct (cr_node _ Hs q i Hq2) as (y & op' & Hry & Hy & Hop' & Hiny & Hi). exists y, op'. do 3 (split; [done|]).
      assert (∀ r, r ∈ inputs y → is_Some (m !! r)) as Hys by (intros r Hr'; destruct (Hiny r Hr') as (j & Hj & _); by exists j).
      split.
      * intros r Hr'. rewrite (Hsame r) by by apply Hys. by apply Hiny.
      * destruct (Hinputs y Hys) as [-> ->]. by apply lookup_app_l_Some.
  - intros i Hi. rewrite length_app in Hi. cbn in Hi. destruct (decide (i = o)) as [->|Hne].
    + exists p. by rewrite lookup_insert_eq.
    + destruct (cr_all _ Hs i) as [q Hq]; [unfold o in Hne; lia|]. exists q. rewrite Hsame; [done|by exists i].
Qed.

Lemma GetOrCreateOperatorInstance_creates fuel p s :
  (rank p < fuel)%nat → plan_reachable plan root p → created s →
  ∃ o s', GetOrCreateOperatorInstance fuel p s = Ok (o, s') ∧ creates (S (rank p)) s s' ∧ operator_instance_ s' !! p = Some o.
Proof.
  revert p s. induction fuel as [|fuel IH]; intros p s Hf Hp Hs; [lia|]. cbn [GetOrCreateOperatorInstance].
  destruct (Hclosed p Hp) as [x Hx]. unfold deref. rewrite (cr_proxies _ Hs), Hx.
  destruct (operator_instance_ s !! p) as [o|] eqn:Ho.
  { cbn [fmap option_fmap option_map of_option rbind]. exists o, s. split; [done|]. split; [by apply creates_refl|done]. }
  cbn [of_option rbind].
  assert (∀ input s1, (∀ q, input = Some q → q ∈ inputs x) → created s1 →
    ∃ s2, get_optional (GetOrCreateOperatorInstance fuel) input s1 = Ok (input ≫= (operator_instance_ s2 !!.), s2) ∧
      creates (rank p) s1 s2 ∧ ∀ q, input = Some q → is_Some (operator_instance_ s2 !! q)) as Hinput.
  { intros [q|] s1 Hq Hs1; cbn.
    - assert (q ∈ inputs x) as Hqx by auto. pose proof (Hrank p x q Hp Hx Hqx).
      destruct (IH q s1) as (i & s2 & -> & Hg & Hi); [lia|by eapply plan_reachable_input|done|].
      exists s2. cbn. rewrite Hi. split; [done|]. split; [|intros r [= <-]; by exists i].
      eapply creates_trans; [| |exact Hg|apply creates_refl, Hg]; [lia|reflexivity].
    - exists s1. split; [done|]. split; [by apply creates_refl|done]. }
  destruct (CreateOperatorInstance_spec (GetOrCreateOperatorInstance fuel) p x s) as (op & Hop & ->); [by eapply Hinstantiable|].
  destruct (Hinput (LeftInput x) s) as (s2 & -> & Hg2 & Hl2); [|done|].
  { intros q Hq. unfold inputs. rewrite Hq. by left. }
  cbn [rbind]. destruct (Hinput (RightInput x) s2) as (s3 & -> & Hg3 & Hr3); [|apply Hg2|].
  { intros q Hq. unfold inputs. rewrite Hq. apply elem_of_app. right. by left. }
  cbn [rbind proxies operator_instance_ operators_].
  assert (LeftInput x ≫= (operator_instance_ s2 !!.) = LeftInput x ≫= (operator_instance_ s3 !!.)) as ->.
  { destruct (LeftInput x) as [q|] eqn:Hq; [|done]. cbn. destruct (Hl2 q eq_refl) as [c Hc]. rewrite Hc. symmetry.
    eapply lookup_weaken; [exact Hc|apply Hg3]. }
  pose proof (creates_trans _ _ (rank p) _ _ _ (le_n _) (le_n _) Hg2 Hg3) as (G1 & G2 & G3 & G4).
  assert (operator_instance_ s3 !! p = None) as Hp3.
  { destruct (operator_instance_ s3 !! p) as [c|] eqn:Hc3; [|done].
    destruct (G4 p) as [Hsome|Hle]; [by exists c|by rewrite Ho in Hsome; destruct Hsome|lia]. }
  assert (∀ q, q ∈ inputs x → is_Some (operator_instance_ s3 !! q)) as Hin3.
  { unfold inputs. intros q [Hq|Hq]%elem_of_app.
    - destruct (LeftInput x) as [l|]; [|by apply elem_of_nil in Hq]. apply list_elem_of_singleton in Hq as ->.
      destruct (Hl2 l eq_refl) as [c Hcl]. exists c. eapply lookup_weaken; [exact Hcl|apply Hg3].
    - destruct (RightInput x) as [r|]; [|by apply elem_of_nil in Hq]. apply list_elem_of_singleton in Hq as ->. by apply Hr3. }
  pose proof (created_insert s3 p x op G1 Hp3 Hp Hx Hop Hin3) as Hnew.
  eexists _, _. split; [reflexivity|]. split; [|cbn; by rewrite lookup_insert_eq].
  split; [exact Hnew|]. cbn [operator_instance_ operators_]. split; [|split].
  - etransitivity; [exact G2|]. by apply insert_subseteq.
  - etransitivity; [exact G3|]. by eexists.
  - intros q Hq. destruct (decide (q = p)) as [->|Hne]; [right; lia|]. rewrite lookup_insert_ne in Hq by done.
    destruct (G4 q Hq); [by left|right; lia].
Qed.

Lemma created_initial : created (mkInstances plan ∅ []).
Proof. split; cbn; try done. intros o Ho. lia. Qed.

(** From a plan without operators. *)
Lemma GetOrCreateOperatorInstance_spec fuel :
  (rank root < fuel)%nat →
  ∃ o s, GetOrCreateOperatorInstance fuel root (mkInstances plan ∅ []) = Ok (o, s) ∧ created s ∧
    operator_instance_ s !! root = Some o ∧ ∀ p, is_Some (operator_instance_ s !! p) ↔ plan_reachable plan root p.
Proof.
  intros Hf. destruct (GetOrCreateOperatorInstance_creates fuel root (mkInstances plan ∅ [])) as (o & s & Hget & (Hc & _) & Hroot);
    [done|constructor|exact created_initial|].
  exists o, s. split; [done|]. split; [done|]. split; [done|]. intros p. split.
  - intros [i Hi]. by destruct (cr_node _ Hc p i Hi) as (x & op & ? & _).
  - induction 1 as [|p x q _ [i Hi] Hx Hq]; [by exists o|].
    destruct (cr_node _ Hc p i Hi) as (y & op & _ & Hy & _ & Hin & _). rewrite Hx in Hy. injection Hy as <-.
    destruct (Hin q Hq) as (j & Hj & _). by exists j.
Qed.
End Creation.
End Correct.
