(* ===== verification/OperatorExecution.v ===== *)
(** * The execution of a fragment's operators

    [AbstractOperator::Execute] under the task scheduler: the tasks of [OperatorTask] read the
    outputs of their inputs, store their own and clear outputs that nobody needs any more.
    Whatever the interleaving, every operator finds its inputs and the root's output is the
    value of the operator tree.  What an operator computes from its input tables is a
    parameter here; [Limit], [Filter], [Sort] and the other operator files have it. *)

From S2P Require Import Scheduler SchedulerCorrect OperatorTask.
From S2P Require Export OperatorInstances.

Section Execution.
Context {A : Type} {T : Type}.
(** [OnExecute] of an operator, from its input tables. *)
Variable OnExecute : Operator A → option T → option T → result T.
Variable operators : list (OperatorNode A).

Definition MutableLeftInput (o : nat) : option nat := operators !! o ≫= left_input_.
Definition MutableRightInput (o : nat) : option nat := operators !! o ≫= right_input_.

(** [LeftInputTable] and [RightInputTable]: a null output is not dereferenced. *)
Definition InputTable (outputs : gmap nat T) (input : option nat) : result (option T) :=
  match input with
  | Some i => table ← of_option (outputs !! i) UndefinedBehaviour; Ok (Some table)
  | None => Ok None
  end.

(** [AbstractOperator::Execute]. *)
Definition ExecuteOperator (o : nat) (outputs : gmap nat T) : result T :=
  node ← of_option (operators !! o) UndefinedBehaviour;
  left ← InputTable outputs (left_input_ node);
  right ← InputTable outputs (right_input_ node);
  OnExecute (node_operator node) left right.

(** The value of the operator tree below [o]. *)
Fixpoint value (fuel : nat) (o : nat) : result T :=
  match fuel with
  | O => Err OutOfFuel
  | S fuel =>
      node ← of_option (operators !! o) UndefinedBehaviour;
      let input i := match i with Some i => v ← value fuel i; Ok (Some v) | None => Ok None end in
      left ← input (left_input_ node);
      right ← input (right_input_ node);
      OnExecute (node_operator node) left right
  end.

(** ** The scheduler with the operators' outputs *)
Context (IsExecutorThread : nat → bool).
Abbreviation sched_step := (step (λ _, None) IsExecutorThread).

(** [OperatorTask::OnExecute] is [RunTask]: it first executes the operator, then clears outputs
    one after the other, and only then goes on.  [output_] is null before.  Tasks without an
    operator are the jobs that operators schedule. *)
Inductive execution_step : System * gmap nat T → System * gmap nat T → Prop :=
  | execute_operator s outputs t v :
      RunTask t ∈ concat (threads s) → outputs !! t = None → ExecuteOperator t outputs = Ok v →
      execution_step (s, outputs) (s, <[t := v]> outputs)
  | clear_output s outputs t p :
      RunTask t ∈ concat (threads s) → is_Some (outputs !! t) → p ∈ cleared_outputs t (core s) →
      execution_step (s, outputs) (s, delete p outputs)
  | schedule s s' outputs :
      sched_step s s' →
      (∀ t, is_Some (operators !! t) → RunTask t ∈ concat (threads s) → RunTask t ∈ concat (threads s') ∨ is_Some (outputs !! t)) →
      execution_step (s, outputs) (s', outputs).

Inductive execution_reachable (s0 : System) : System * gmap nat T → Prop :=
  | execution_refl : execution_reachable s0 (s0, ∅)
  | execution_next c c' : execution_reachable s0 c → execution_step c c' → execution_reachable s0 c'.

Lemma execution_scheduled s0 s outputs :
  execution_reachable s0 (s, outputs) → reachable (λ _, None) IsExecutorThread s0 s.
Proof.
  intros Hr. remember (s, outputs) as c eqn:Hc. revert s outputs Hc.
  induction Hr as [|c c' _ IH Hs]; intros s outputs Hc; [injection Hc as <- _; constructor|]. subst c'.
  inversion Hs; subst; try by eapply IH. eapply reachable_step; [by eapply IH|done].
Qed.

(** ** Where a task stands *)
Definition executed (s : System) (outputs : gmap nat T) (t : nat) : Prop :=
  finished (concat (threads s)) (core s) t ∨ (RunTask t ∈ concat (threads s) ∧ is_Some (outputs !! t)).

Lemma step_acts s s' :
  sched_step s s' →
  (∃ L R a c' new, concat (threads s) = L ++ a :: R ∧ concat (threads s') = L ++ new ++ R ∧
     perform (λ _, None) a (core s) = Ok (c', new) ∧ core s' = c') ∨
  (tasks (core s') = tasks (core s) ∧ ∃ L R a, concat (threads s) = L ++ R ∧ concat (threads s') = L ++ a :: R ∧
     ((∃ t, a = StartTask t) ∨ ∃ t, a = ScheduleCall t)).
Proof.
  intros [? ? [before a rest after c c' new Hp|before stack after t q ts n _ _]|before stack after c t _]; cbn [threads core];
    rewrite !concat_middle.
  - left. exists (concat before), (rest ++ concat after), a, c', new. rewrite <- app_assoc. by rewrite <- app_comm_cons.
  - right. split; [done|]. exists (concat before), (stack ++ concat after), (StartTask t). eauto 6.
  - right. split; [done|]. exists (concat before), (stack ++ concat after), (ScheduleCall t). eauto 6.
Qed.

(** Only [StartTask] adds [RunTask]. *)
Lemma perform_run a c c' new t :
  perform (λ _, None) a c = Ok (c', new) → RunTask t ∈ new → a = StartTask t.
Proof.
  unfold perform, Schedule, Schedule_ready, Submit, Execute_start, Execute_run, Execute_finish. intros H Ht.
  destruct a as [u| |u|u|u|u|u|u|u|u|]; cbn in H;
    try (apply bind_ok in H as ([s b] & _ & H)); try destruct (IsReady _); try destruct (IsScheduled _);
    try destruct b; cbn in H; try injection H as <- <-; pending; try congruence.
Qed.

Lemma finished_step s s' t :
  system_ok s → sched_step s s' → finished (concat (threads s')) (core s') t →
  finished (concat (threads s)) (core s) t ∨ (RunTask t ∈ concat (threads s) ∧ ¬ (RunTask t ∈ concat (threads s'))).
Proof.
  intros Hok [(L & R & a & c' & new & Ha & Ha' & Hp & <-)|(Ht & L & R & a & Ha & Ha' & Hnew)]%step_acts Hf.
  - rewrite Ha, Ha'. unfold finished in *. rewrite Ha' in Hf. destruct (decide (a = RunTask t)) as [->|Hne].
    + right. split; [apply elem_of_app; right; by left|]. unfold perform, Execute_run in Hp. injection Hp as _ <-.
      pose proof (inv_task _ _ Hok t) as Hl. unfold task_ok in Hl. rewrite Ha in Hl. rewrite <- occ_elem.
      rewrite !occ_app, !occ_cons in *. rewrite (decide_True (P := RunTask t = RunTask t)) in Hl by done.
      rewrite decide_False by done. rewrite occ_nil. lia.
    + left. assert (∀ u, a = RunTask u → u ≠ t) as Hrun by (intros u -> ->; done).
      assert ((∃ u, a = RunTask u) ∨ ∀ u, a ≠ RunTask u) as [[u ->]|Hno] by (destruct a; eauto).
      * unfold perform, Execute_run in Hp. injection Hp as Hc <-. rewrite Hc. specialize (Hrun u eq_refl).
        rewrite !elem_of_app, elem_of_cons in *. rewrite elem_of_nil in Hf. intuition congruence.
      * destruct (perform_effect _ a _ _ new t Hp) as (_ & Hnew & Hdone); [done|].
        rewrite !elem_of_app, elem_of_cons in *. rewrite Hdone in Hf. intuition congruence.
  - left. unfold finished in *. rewrite Ha, Ht in *. rewrite Ha' in Hf. rewrite !elem_of_app, elem_of_cons in *.
    destruct Hnew as [[u ->]|[u ->]]; intuition congruence.
Qed.

Lemma run_step s s' t :
  system_ok s → sched_step s s' → RunTask t ∈ concat (threads s') →
  RunTask t ∈ concat (threads s) ∨ (progress (state_ (tasks (core s) t)) < 3)%nat.
Proof.
  intros Hok [(L & R & a & c' & new & Ha & Ha' & Hp & <-)|(Ht & L & R & a & Ha & Ha' & Hnew)]%step_acts Hf; rewrite Ha' in Hf.
  - destruct (decide (RunTask t ∈ new)) as [Hnew|Hnew].
    + right. rewrite (perform_run _ _ _ _ t Hp Hnew) in Ha. pose proof (inv_task _ _ Hok t) as Hl. unfold task_ok in Hl.
      rewrite Ha in Hl. rewrite !occ_app, !occ_cons in Hl. rewrite (decide_True (P := StartTask t = StartTask t)) in Hl by done. lia.
    + left. rewrite Ha. rewrite !elem_of_app, elem_of_cons in *. intuition.
  - left. rewrite Ha. rewrite !elem_of_app, elem_of_cons in *. destruct Hnew as [[u ->]|[u ->]]; intuition congruence.
Qed.

(** ** The invariant *)
Section Run.
Variables (edges : list (nat * nat)) (n : nat).
Abbreviation op_inputs := (OperatorTask.inputs MutableLeftInput MutableRightInput).
Hypothesis Hsmaller : ∀ o i, i ∈ op_inputs o → (i < o)%nat.
Hypothesis Hedges : ∀ i o, (i, o) ∈ edges ↔ i ∈ op_inputs o.
Hypothesis Hinputs_exist : ∀ o i, i ∈ op_inputs o → is_Some (operators !! i).
Hypothesis Hvalue : ∀ o, is_Some (operators !! o) → is_ok (value (S o) o) = true.

Lemma node_input o node i :
  operators !! o = Some node → left_input_ node = Some i ∨ right_input_ node = Some i → i ∈ op_inputs o.
Proof.
  intros Ho Hi. unfold OperatorTask.inputs, MutableLeftInput, MutableRightInput.
  apply list_elem_of_omap. exists (Some i). split; [|done]. rewrite Ho. cbn. destruct Hi as [Hi|Hi]; rewrite Hi; [by left|right; by left].
Qed.

Lemma value_enough fuel o : (o < fuel)%nat → value fuel o = value (S o) o.
Proof.
  revert fuel. induction o as [o IH] using lt_wf_ind. intros [|fuel] Hf; [lia|]. cbn [value].
  destruct (operators !! o) as [node|] eqn:Ho; [|done]. cbn [of_option rbind].
  assert (∀ i, left_input_ node = Some i ∨ right_input_ node = Some i → value fuel i = value o i) as Heq.
  { intros i Hi. pose proof (Hsmaller o i (node_input o node i Ho Hi)). rewrite (IH i) by lia.
    symmetry. apply IH; lia. }
  destruct (left_input_ node) as [l|]; [rewrite (Heq l) by by left|];
    (destruct (right_input_ node) as [r|]; [rewrite (Heq r) by by right|]); reflexivity.
Qed.

Definition needed (s : System) (outputs : gmap nat T) (o : nat) : Prop :=
  (∀ u, ¬ ((o, u) ∈ edges)) ∨ ∃ u, (o, u) ∈ edges ∧ ¬ executed s outputs u.

Record execution_ok (s : System) (outputs : gmap nat T) : Prop := {
  ex_value o v : outputs !! o = Some v → value (S o) o = Ok v;
  ex_started o : is_Some (outputs !! o) → (3 ≤ progress (state_ (tasks (core s) o)))%nat;
  ex_available o : is_Some (operators !! o) → executed s outputs o → needed s outputs o → is_Some (outputs !! o) }.

Section Reached.
Variable s : System.
Hypothesis Hr : reachable (λ _, None) IsExecutorThread (initial edges n) s.

Lemma reached_ok : system_ok s.
Proof. eapply reachable_ok; [exact None_survives|apply initial_ok|exact Hr]. Qed.

Lemma running_started t : RunTask t ∈ concat (threads s) → progress (state_ (tasks (core s) t)) = 3%nat.
Proof.
  intros Ht%occ_elem. pose proof (inv_task _ _ reached_ok t) as Hl. unfold task_ok in Hl. lia.
Qed.

Lemma running_not_finished t : RunTask t ∈ concat (threads s) → ¬ finished (concat (threads s)) (core s) t.
Proof.
  intros Ht. pose proof (running_started t Ht) as Hp. apply occ_elem in Ht. pose proof (inv_task _ _ reached_ok t) as Hl.
  unfold task_ok in Hl. intros [Hf%occ_elem|Hd]; [lia|]. by rewrite Hd in Hp.
Qed.

(** The inputs of a running task are done. *)
Lemma running_inputs t i : RunTask t ∈ concat (threads s) → i ∈ op_inputs t → state_ (tasks (core s) i) = kDone.
Proof.
  intros Ht Hi. eapply started_predecessors; [exact None_survives|exact Hr|by apply Hedges|]. rewrite (running_started t Ht). lia.
Qed.

(** A task that has not stored its output finds its inputs, and computes its value. *)
Lemma ExecuteOperator_value t outputs :
  execution_ok s outputs → RunTask t ∈ concat (threads s) → outputs !! t = None → is_Some (operators !! t) →
  ∃ v, ExecuteOperator t outputs = Ok v ∧ value (S t) t = Ok v.
Proof.
  intros Hex Ht Hnone [node Hnode].
  assert (∀ i, left_input_ node = Some i ∨ right_input_ node = Some i → ∃ v, outputs !! i = Some v ∧ value t i = Ok v) as Hin.
  { intros i Hi%(node_input t node i Hnode). destruct (ex_available _ _ Hex i) as [v Hv].
    - by eapply Hinputs_exist.
    - left. right. by apply (running_inputs t).
    - right. exists t. split; [by apply Hedges|]. intros [Hf|[_ Hs]]; [by eapply running_not_finished|].
      rewrite Hnone in Hs. by destruct Hs.
    - exists v. split; [done|]. rewrite value_enough by by apply Hsmaller. by apply (ex_value _ _ Hex). }
  assert (ExecuteOperator t outputs = value (S t) t) as Heq.
  { unfold ExecuteOperator. cbn [value]. rewrite Hnode. cbn [of_option rbind].
    assert (∀ input, (∀ i, input = Some i → left_input_ node = Some i ∨ right_input_ node = Some i) →
      InputTable outputs input = match input with Some i => v ← value t i; Ok (Some v) | None => Ok None end) as Hinput.
    { intros [i|] Hi; [|done]. destruct (Hin i (Hi i eq_refl)) as (v & Hv & Hval). cbn. by rewrite Hv, Hval. }
    rewrite (Hinput (left_input_ node)), (Hinput (right_input_ node)) by auto. done. }
  pose proof (Hvalue t (mk_is_Some _ _ Hnode)) as Hok. rewrite Heq. destruct (value (S t) t) as [v|]; [by exists v|done].
Qed.
End Reached.

(** ** Every step keeps the invariant *)
Lemma execute_ok s outputs t v :
  execution_ok s outputs → RunTask t ∈ concat (threads s) → reachable (λ _, None) IsExecutorThread (initial edges n) s →
  value (S t) t = Ok v → execution_ok s (<[t := v]> outputs).
Proof.
  intros [H1 H2 H3] Ht Hr Hv. split.
  - intros o w [[<- <-]|[_ Ho]]%lookup_insert_Some; [done|by apply H1].
  - intros o [w [[<- <-]|[_ Ho]]%lookup_insert_Some]; [by rewrite running_started|by apply H2].
  - intros o Hop Hexec Hneed. destruct (decide (o = t)) as [->|Hne]; [by rewrite lookup_insert_eq|].
    rewrite lookup_insert_ne by done. apply H3; [done| |].
    + destruct Hexec as [Hf|[Hrun Ho]]; [by left|right]. by rewrite lookup_insert_ne in Ho.
    + destruct Hneed as [Hno|(u & Hu & Hnot)]; [by left|right]. exists u. split; [done|].
      intros [Hf|[Hrun Ho]]; apply Hnot; [by left|right]. split; [done|].
      destruct (decide (u = t)) as [->|]; [by rewrite lookup_insert_eq|by rewrite lookup_insert_ne].
Qed.

Lemma clear_ok s outputs t p :
  execution_ok s outputs → RunTask t ∈ concat (threads s) → reachable (λ _, None) IsExecutorThread (initial edges n) s →
  is_Some (outputs !! t) → p ∈ cleared_outputs t (core s) → execution_ok s (delete p outputs).
Proof.
  intros [H1 H2 H3] Ht Hr Hout [Hunneeded Hp]%list_elem_of_filter.
  apply (reachable_edges (λ _, None) IsExecutorThread edges n s p t Hr) in Hp.
  assert (state_ (tasks (core s) p) = kDone) as Hdone by (eapply running_inputs; [done|done|by apply Hedges]).
  assert (t ≠ p) as Hne by (intros ->; apply Hedges, Hsmaller in Hp; lia).
  assert (∀ u, executed s outputs u → executed s (delete p outputs) u) as Hkeep.
  { intros u [Hf|[Hrun Hu]]; [by left|]. destruct (decide (u = p)) as [->|]; [left; by right|right].
    split; [done|]. by rewrite lookup_delete_ne. }
  split.
  - intros o v [_ Ho]%lookup_delete_Some. by apply H1.
  - intros o [v [_ Ho]%lookup_delete_Some]. by apply H2.
  - intros o Hoper Hexec Hneed. destruct (decide (o = p)) as [->|Hop].
    + exfalso. destruct Hneed as [Hno|(u & Hu & Hnot)]; [by apply (Hno t)|]. apply Hnot. destruct (decide (u = t)) as [->|Hut].
      * right. split; [done|]. by rewrite lookup_delete_ne.
      * left. right. eapply not_needed; [exact Hunneeded| |done].
        apply (graph_edge _ (inv_graph _ _ (reached_ok s Hr))). by eapply reachable_edges.
    + rewrite lookup_delete_ne by done. apply H3; [done| |].
      * destruct Hexec as [Hf|[Hrun Ho]]; [by left|right]. by rewrite lookup_delete_ne in Ho.
      * destruct Hneed as [Hno|(u & Hu & Hnot)]; [by left|right]. exists u. split; [done|]. intros He%Hkeep. done.
Qed.

Lemma schedule_ok s s' outputs :
  execution_ok s outputs → reachable (λ _, None) IsExecutorThread (initial edges n) s → sched_step s s' →
  (∀ t, is_Some (operators !! t) → RunTask t ∈ concat (threads s) → RunTask t ∈ concat (threads s') ∨ is_Some (outputs !! t)) →
  execution_ok s' outputs.
Proof.
  intros [H1 H2 H3] Hr Hs Hguard. pose proof (reached_ok s Hr) as Hok.
  assert (reachable (λ _, None) IsExecutorThread (initial edges n) s') as Hr' by by eapply reachable_step.
  assert (∀ u, is_Some (operators !! u) → executed s' outputs u → executed s outputs u) as Hback.
  { intros u Hoper [Hf|[Hrun Hu]].
    - destruct (finished_step s s' u Hok Hs Hf) as [|[Hrun Hgone]]; [by left|right]. split; [done|].
      by destruct (Hguard u Hoper Hrun).
    - destruct (run_step s s' u Hok Hs Hrun) as [|Hlow]; [by right|]. specialize (H2 u Hu). lia. }
  assert (∀ u, executed s outputs u → executed s' outputs u) as Hforth.
  { intros u [[Hf|Hd]|[Hrun Hu]].
    - destruct (decide (FinishTask u ∈ concat (threads s'))); [by left; left|left; right].
      pose proof (inv_task _ _ Hok u) as Hl. pose proof (inv_task _ _ (reached_ok s' Hr') u) as Hl'. unfold task_ok in *.
      pose proof (proj2 (proj2 (step_frame (λ _, None) IsExecutorThread s s' u Hs))) as Hmono.
      apply occ_elem in Hf. rewrite <- occ_elem in *.
      destruct (decide (RunTask u ∈ concat (threads s'))) as [Hrun'|Hrun'].
      + destruct (run_step s s' u Hok Hs Hrun') as [Hrun%occ_elem|Hlow]; lia.
      + rewrite <- occ_elem in Hrun'. destruct (state_ (tasks (core s') u)); cbn [progress] in *; lia || done.
    - left. right. pose proof (proj2 (proj2 (step_frame (λ _, None) IsExecutorThread s s' u Hs))) as Hmono. rewrite Hd in Hmono.
      destruct (state_ (tasks (core s') u)); cbn [progress] in *; lia || done.
    - destruct (decide (RunTask u ∈ concat (threads s'))); [by right|left].
      pose proof (inv_task _ _ (reached_ok s' Hr') u) as Hl'. unfold task_ok in Hl'.
      pose proof (proj2 (proj2 (step_frame (λ _, None) IsExecutorThread s s' u Hs))) as Hmono. rewrite (running_started s Hr u Hrun) in Hmono.
      rewrite <- occ_elem in *. unfold finished. rewrite <- occ_elem.
      destruct (state_ (tasks (core s') u)) eqn:Hu'; cbn [progress] in *; lia || auto with lia. }
  split; [done| |].
  - intros o Ho%H2. pose proof (proj2 (proj2 (step_frame (λ _, None) IsExecutorThread s s' o Hs))). lia.
  - intros o Hoper He%Hback Hneed; [|done]. apply H3; [done|done|]. destruct Hneed as [Hno|(u & Hu & Hnot)]; [by left|right].
    exists u. split; [done|]. intros Hex%Hforth. done.
Qed.

Lemma execution_invariant s outputs :
  execution_reachable (initial edges n) (s, outputs) → execution_ok s outputs.
Proof.
  intros Hr. remember (s, outputs) as c eqn:Hc. revert s outputs Hc.
  induction Hr as [|c c' Hr IH Hs]; intros s outputs Hc.
  - injection Hc as <- <-.
    assert (concat (replicate n (@nil action)) = []) as Hnil by (clear; induction n; done). split.
    + intros o v Ho. done.
    + intros o [v Ho]. done.
    + intros o _ [[Hf|Hd]|[Hrun _]] _; exfalso.
      * unfold initial in Hf. cbn [threads core] in Hf. rewrite Hnil in Hf. by apply elem_of_nil in Hf.
      * unfold initial in Hd. cbn [core] in Hd. destruct (link_ok edges) as [(_ & Hfresh & _) _]. destruct (Hfresh o) as [Hst _].
        by rewrite Hst in Hd.
      * unfold initial in Hrun. cbn [threads core] in Hrun. rewrite Hnil in Hrun. by apply elem_of_nil in Hrun.
  - subst c'. inversion Hs as [s0 o0 t v Ht Hnone Hv|s0 o0 t p Ht Hout Hp|s0 s1 o0 Hstep Hguard]; subst.
    + pose proof (IH _ _ eq_refl) as Hok. pose proof (execution_scheduled _ _ _ Hr) as Hr'.
      assert (is_Some (operators !! t)) as Ht'.
      { unfold ExecuteOperator in Hv. destruct (operators !! t); [by eexists|done]. }
      destruct (ExecuteOperator_value s Hr' t o0 Hok Ht Hnone Ht') as (w & Hw & Hval).
      eapply execute_ok; [done|done|done|]. congruence.
    + eapply clear_ok; eauto. by eapply execution_scheduled.
    + eapply schedule_ok; eauto. by eapply execution_scheduled.
Qed.

(** A work step of the scheduler, with the operator's execution before it if it is due. *)
Lemma work_step_lift s s' outputs :
  execution_reachable (initial edges n) (s, outputs) → work_step (λ _, None) IsExecutorThread s s' →
  ∃ outputs', rtc execution_step (s, outputs) (s', outputs').
Proof.
  intros Hr Hw. pose proof (execution_scheduled _ _ _ Hr) as Hr'. pose proof (execution_invariant _ _ Hr) as Hok.
  assert (sched_step s s') as Hs by by constructor.
  assert (∀ outputs', (∀ t, is_Some (operators !! t) → RunTask t ∈ concat (threads s) →
      RunTask t ∈ concat (threads s') ∨ is_Some (outputs' !! t)) → rtc execution_step (s, outputs') (s', outputs')) as Hdirect.
  { intros outputs' Hg. eapply rtc_l; [by apply schedule|apply rtc_refl]. }
  destruct (step_acts s s' Hs) as [(L & R & a & c' & new & Ha & Ha' & Hp & <-)|(_ & L & R & a & Ha & Ha' & _)].
  - assert (∀ t, a ≠ RunTask t → RunTask t ∈ concat (threads s) → RunTask t ∈ concat (threads s')) as Hother.
    { intros t Hne. rewrite Ha, Ha', !elem_of_app, elem_of_cons. intuition congruence. }
    assert ((∃ t, a = RunTask t) ∨ ∀ t, a ≠ RunTask t) as [[t ->]|Hno] by (destruct a; eauto).
    + assert (RunTask t ∈ concat (threads s)) as Hrun by (rewrite Ha; apply elem_of_app; right; by left).
      destruct (operators !! t) as [node|] eqn:Hnode; [destruct (outputs !! t) as [w|] eqn:Hout|].
      * exists outputs. apply Hdirect. intros u _ Hu. destruct (decide (u = t)) as [->|]; [right; by exists w|left].
        apply Hother; congruence.
      * destruct (ExecuteOperator_value s Hr' t outputs Hok Hrun Hout) as (v & Hv & _); [by exists node|].
        exists (<[t := v]> outputs). eapply rtc_l; [by apply execute_operator|]. apply Hdirect.
        intros u _ Hu. destruct (decide (u = t)) as [->|]; [right; by rewrite lookup_insert_eq|left]. apply Hother; congruence.
      * exists outputs. apply Hdirect. intros u Hu Hrunu. left. apply Hother; [|done]. intros [= <-]. rewrite Hnode in Hu.
        by destruct Hu.
    + exists outputs. apply Hdirect. intros u _ Hu. left. by apply Hother.
  - exists outputs. apply Hdirect. intros u _. left. rewrite Ha, Ha', !elem_of_app, elem_of_cons in *. intuition.
Qed.

Lemma execution_reachable_rtc s0 c c' :
  execution_reachable s0 c → rtc execution_step c c' → execution_reachable s0 c'.
Proof. intros Hr. induction 1 as [|c c1 c2 Hs _ IH]; [done|]. apply IH. by eapply execution_next. Qed.

Lemma work_lift s s' outputs :
  execution_reachable (initial edges n) (s, outputs) → rtc (work_step (λ _, None) IsExecutorThread) s s' →
  ∃ outputs', rtc execution_step (s, outputs) (s', outputs').
Proof.
  intros Hr Hw. revert outputs Hr. induction Hw as [s|s s1 s2 Hs _ IH]; intros outputs Hr; [by exists outputs|].
  destruct (work_step_lift s s1 outputs Hr Hs) as [o1 H1].
  destruct (IH o1) as [o2 H2]; [by eapply execution_reachable_rtc|]. exists o2. by etransitivity.
Qed.

Lemma execution_steps_progress s outputs s' outputs' t :
  rtc execution_step (s, outputs) (s', outputs') →
  (progress (state_ (tasks (core s) t)) <= progress (state_ (tasks (core s') t)))%nat.
Proof.
  intros Hs. remember (s, outputs) as c eqn:Hc. remember (s', outputs') as c' eqn:Hc'. revert s outputs Hc.
  induction Hs as [c|c c1 c2 Hstep _ IH]; intros s outputs Hc; [by simplify_eq|]. subst c. destruct c1 as [s1 o1].
  specialize (IH Hc' s1 o1 eq_refl). etransitivity; [|exact IH]. inversion Hstep; subst; [done|done|].
  by eapply step_frame.
Qed.

(** The threads can finish, and then every task that was scheduled is done. *)
Lemma execution_finishes s outputs :
  execution_reachable (initial edges n) (s, outputs) → executes IsExecutorThread s →
  ∃ s' outputs', rtc execution_step (s, outputs) (s', outputs') ∧ quiescent s' ∧
    ∀ t, scheduled (core s') t → state_ (tasks (core s') t) = kDone.
Proof.
  intros Hr Hex. pose proof (execution_scheduled _ _ _ Hr) as Hr'.
  destruct (reachable_measurable (λ _, None) IsExecutorThread edges n s None_survives Hr') as (ids & d & e & Hm).
  destruct (work_to_quiescent (λ _, None) IsExecutorThread ids d e s None_survives (reached_ok s Hr') Hex Hm) as (s' & Hw & Hq).
  destruct (work_lift s s' outputs Hr Hw) as [outputs' Hs']. exists s', outputs'. split; [done|]. split; [done|].
  assert (reachable (λ _, None) IsExecutorThread (initial edges n) s') as Hreach
    by (eapply execution_scheduled, execution_reachable_rtc; done).
  intros t Ht. eapply (quiescent_done s' id (reached_ok s' Hreach) Hq); [|done].
  intros u p Hp. apply Hsmaller, Hedges. by eapply reachable_edges.
Qed.
End Run.
End Execution.

(** ** The operators of a plan *)
Section Plan.
Context {A : Type} {P : Type} `{Countable P} {T : Type}.
Variable OnExecute : Operator A → option T → option T → result T.
Variables (plan : gmap P (Proxy A P)) (root : P) (rank : P → nat).
Hypothesis Hclosed : ∀ p, plan_reachable plan root p → is_Some (plan !! p).
Hypothesis Hrank : ranked plan root rank.
Hypothesis Hinstantiable : ∀ p x, plan_reachable plan root p → plan !! p = Some x → instantiable x.

(** The table that the plan below [p] describes: its operator applied to its inputs' tables. *)
Fixpoint plan_value (fuel : nat) (p : P) : result T :=
  match fuel with
  | O => Err OutOfFuel
  | S fuel =>
      x ← deref plan p;
      op ← operator_of (proxy_operator x);
      let input q := match q with Some q => v ← plan_value fuel q; Ok (Some v) | None => Ok None end in
      left ← input (LeftInput x);
      right ← input (RightInput x);
      OnExecute op left right
  end.

Section Created.
Variable st : Instances A P.
Hypothesis Hst : created plan root st.
Hypothesis Hall : ∀ p, is_Some (operator_instance_ st !! p) ↔ plan_reachable plan root p.
Abbreviation left_of := (MutableLeftInput (operators_ st)).
Abbreviation right_of := (MutableRightInput (operators_ st)).

Lemma created_node o node :
  operators_ st !! o = Some node → ∃ p x, operator_instance_ st !! p = Some o ∧ plan_reachable plan root p ∧
    plan !! p = Some x ∧ operator_of (proxy_operator x) = Ok (node_operator node) ∧
    left_input_ node = LeftInput x ≫= (operator_instance_ st !!.) ∧
    right_input_ node = RightInput x ≫= (operator_instance_ st !!.) ∧
    ∀ q, q ∈ inputs x → ∃ i, operator_instance_ st !! q = Some i ∧ (i < o)%nat.
Proof.
  intros Ho. destruct (cr_all _ _ _ Hst o) as [p Hp]; [by eapply lookup_lt_Some|].
  destruct (cr_node _ _ _ Hst p o Hp) as (x & op & Hr & Hx & Hop & Hin & Hnode). rewrite Ho in Hnode. injection Hnode as ->.
  exists p, x. done.
Qed.

Lemma created_inputs o i :
  i ∈ OperatorTask.inputs left_of right_of o ↔
  ∃ p x q, operator_instance_ st !! p = Some o ∧ plan_reachable plan root p ∧ plan !! p = Some x ∧ q ∈ inputs x ∧
    operator_instance_ st !! q = Some i.
Proof.
  unfold OperatorTask.inputs, MutableLeftInput, MutableRightInput. rewrite list_elem_of_omap. unfold inputs. split.
  - intros (input & Hin & Hi). cbn in Hi. subst input.
    destruct (operators_ st !! o) as [node|] eqn:Ho.
    2:{ cbn in Hin. repeat (apply elem_of_cons in Hin as [Hin|Hin]; [done|]). by apply elem_of_nil in Hin. }
    destruct (created_node o node Ho) as (p & x & Hp & Hr & Hx & _ & Hl & Hri & _). cbn in Hin. rewrite Hl, Hri in Hin.
    exists p, x. apply elem_of_cons in Hin as [Hin|Hin%list_elem_of_singleton].
    + destruct (LeftInput x) as [q|]; [|done]. exists q. do 3 (split; [done|]). split; [apply elem_of_app; left; by left|done].
    + destruct (RightInput x) as [q|]; [|done]. exists q. do 3 (split; [done|]). split; [apply elem_of_app; right; by left|done].
  - intros (p & x & q & Hp & Hr & Hx & Hq & Hi). exists (Some i). split; [|done].
    destruct (cr_node _ _ _ Hst p o Hp) as (y & op & _ & Hy & _ & _ & Hnode). rewrite Hx in Hy. injection Hy as <-.
    rewrite Hnode. cbn. apply elem_of_app in Hq as [Hq|Hq].
    + destruct (LeftInput x) as [l|]; [|by apply elem_of_nil in Hq]. apply list_elem_of_singleton in Hq as ->. cbn. rewrite Hi. by left.
    + destruct (RightInput x) as [l|]; [|by apply elem_of_nil in Hq]. apply list_elem_of_singleton in Hq as ->. cbn. rewrite Hi.
      right. by left.
Qed.

Lemma created_smaller o i : i ∈ OperatorTask.inputs left_of right_of o → (i < o)%nat.
Proof.
  intros (p & x & q & Hp & _ & Hx & Hq & Hi)%created_inputs.
  destruct (cr_node _ _ _ Hst p o Hp) as (y & op & _ & Hy & _ & Hin & _). rewrite Hx in Hy. injection Hy as <-.
  destruct (Hin q Hq) as (j & Hj & Hlt). rewrite Hi in Hj. by injection Hj as <-.
Qed.

Lemma created_feeds o p r :
  operator_instance_ st !! root = Some r → plan_reachable plan root p → operator_instance_ st !! p = Some o →
  feeds left_of right_of r o.
Proof.
  intros Hroot Hp. revert o. induction Hp as [|p x q Hp IH Hx Hq]; intros o Ho.
  - rewrite Hroot in Ho. injection Ho as <-. constructor.
  - apply Hall in Hp as Hi. destruct Hi as [i Hi]. eapply feeds_input; [by apply IH|]. apply created_inputs.
    exists p, x, q. done.
Qed.

(** The operator's value is the plan's. *)
Lemma created_value fuel p o :
  (rank p < fuel)%nat → operator_instance_ st !! p = Some o →
  value OnExecute (operators_ st) (S o) o = plan_value fuel p.
Proof.
  revert p o. induction fuel as [|fuel IH]; intros p o Hf Hp; [lia|].
  destruct (cr_node _ _ _ Hst p o Hp) as (x & op & Hr & Hx & Hop & Hin & Hnode).
  cbn [value plan_value]. unfold deref. rewrite Hnode, Hx. cbn [of_option rbind]. rewrite Hop. cbn [rbind].
  assert (∀ input, (∀ q, input = Some q → q ∈ inputs x) →
    match input ≫= (operator_instance_ st !!.) with
    | Some i => v ← value OnExecute (operators_ st) o i; Ok (Some v) | None => Ok None end =
    match input with Some q => v ← plan_value fuel q; Ok (Some v) | None => Ok None end) as Hinput.
  { intros [q|] Hq; [|done]. destruct (Hin q (Hq q eq_refl)) as (i & Hi & Hlt). cbn. rewrite Hi.
    rewrite (value_enough OnExecute (operators_ st) created_smaller o i Hlt).
    rewrite (IH q i); [done| |done]. pose proof (Hrank p x q Hr Hx (Hq q eq_refl)). lia. }
  cbn [left_input_ right_input_ node_operator]. rewrite (Hinput (LeftInput x)), (Hinput (RightInput x)); [done| |].
  - intros q Hq. unfold inputs. rewrite Hq. apply elem_of_app. right. by left.
  - intros q Hq. unfold inputs. rewrite Hq. by left.
Qed.
End Created.

(** Operators, tasks and execution of the plan together. *)
Lemma plan_execution fuel :
  (rank root < fuel)%nat →
  (∀ p, plan_reachable plan root p → is_ok (plan_value fuel p) = true) →
  ∃ r st g, GetOrCreateOperatorInstance fuel root (mkInstances plan ∅ []) = Ok (r, st) ∧
    operator_instance_ st !! root = Some r ∧
    GenerateTasksFromOperator (MutableLeftInput (operators_ st)) (MutableRightInput (operators_ st)) (S r) r = Some g ∧
    ∀ IsExecutorThread n s outputs,
      execution_reachable OnExecute (operators_ st) IsExecutorThread (initial (OperatorTask.edges g) n) (s, outputs) →
      (∀ t, t ∈ OperatorTask.operators g → RunTask t ∈ concat (threads s) → outputs !! t = None →
        is_ok (ExecuteOperator OnExecute (operators_ st) t outputs) = true) ∧
      (∀ p o v, operator_instance_ st !! p = Some o → outputs !! o = Some v → plan_value fuel p = Ok v) ∧
      (state_ (tasks (core s) r) = kDone → ∃ v, outputs !! r = Some v ∧ plan_value fuel root = Ok v) ∧
      (executes IsExecutorThread s → ∃ s' outputs',
        rtc (execution_step OnExecute (operators_ st) IsExecutorThread) (s, outputs) (s', outputs') ∧ quiescent s' ∧
        (scheduled (core s) r → state_ (tasks (core s') r) = kDone)).
Proof.
  intros Hfuel Hvalues.
  destruct (GetOrCreateOperatorInstance_spec plan root rank Hclosed Hrank Hinstantiable fuel Hfuel) as (r & st & Hget & Hst & Hroot & Hall).
  pose proof (created_smaller st Hst) as Hsmaller.
  destruct (tasks_from_operator (MutableLeftInput (operators_ st)) (MutableRightInput (operators_ st)) id r (S r) Hsmaller)
    as (g & Hg & _ & Hops & Hedges); [cbn; lia|].
  assert (∀ o, is_Some (operators_ st !! o) → ∃ p, operator_instance_ st !! p = Some o ∧ plan_reachable plan root p) as Hoperator.
  { intros o [node Ho]. destruct (created_node st Hst o node Ho) as (p & x & Hp & Hr & _). by exists p. }
  assert (∀ o i, i ∈ OperatorTask.inputs (MutableLeftInput (operators_ st)) (MutableRightInput (operators_ st)) o →
    is_Some (operators_ st !! o) ∧ is_Some (operators_ st !! i)) as Hexist.
  { intros o i (p & x & q & Hp & _ & _ & _ & Hq)%(created_inputs st Hst).
    destruct (cr_node _ _ _ Hst p o Hp) as (? & ? & _ & _ & _ & _ & Ho), (cr_node _ _ _ Hst q i Hq) as (? & ? & _ & _ & _ & _ & Hi).
    split; by eexists. }
  assert (∀ i o, (i, o) ∈ OperatorTask.edges g ↔
    i ∈ OperatorTask.inputs (MutableLeftInput (operators_ st)) (MutableRightInput (operators_ st)) o) as Hedges'.
  { intros i o. rewrite Hedges. split; [by intros [_ Hi]|]. intros Hi. split; [|done]. destruct (Hexist o i Hi) as [Ho _].
    destruct (Hoperator o Ho) as (p & Hp & Hr). by apply (created_feeds st Hst Hall o p r Hroot Hr). }
  assert (∀ p o, operator_instance_ st !! p = Some o → value OnExecute (operators_ st) (S o) o = plan_value fuel p) as Hval.
  { intros p o Hp. apply (created_value st Hst fuel p o); [|done].
    destruct (cr_node _ _ _ Hst p o Hp) as (x & op & Hr & _). clear -Hr Hrank Hfuel Hclosed. 
    enough (rank p <= rank root)%nat by lia. induction Hr as [|p x q Hr IH Hx Hq]; [done|].
    specialize (Hrank p x q Hr Hx Hq). lia. }
  assert (∀ o, is_Some (operators_ st !! o) → is_ok (value OnExecute (operators_ st) (S o) o) = true) as Hok.
  { intros o (p & Hp & Hr)%Hoperator. rewrite (Hval p o Hp). by apply Hvalues. }
  exists r, st, g. do 3 (split; [done|]). intros IsExecutorThread n s outputs Hreach.
  pose proof (execution_scheduled _ _ _ _ _ _ Hreach) as Hsched.
  pose proof (execution_invariant OnExecute (operators_ st) IsExecutorThread (OperatorTask.edges g) n Hsmaller Hedges'
    (λ o i Hi, proj2 (Hexist o i Hi)) Hok s outputs Hreach) as Hinv.
  split; [|split; [|split]].
  - intros t Ht Hrun Hnone.
    destruct (ExecuteOperator_value OnExecute (operators_ st) IsExecutorThread (OperatorTask.edges g) n Hsmaller Hedges'
      (λ o i Hi, proj2 (Hexist o i Hi)) Hok s Hsched t outputs Hinv Hrun Hnone) as (v & -> & _); [|done].
    apply Hops in Ht. destruct Ht as [|o i Hf Hi]; [|by apply (Hexist o i Hi)].
    destruct (cr_node _ _ _ Hst root r Hroot) as (? & ? & _ & _ & _ & _ & Ho). by eexists.
  - intros p o v Hp Hv. rewrite <- (Hval p o Hp). by eapply ex_value.
  - intros Hdone. edestruct (ex_available _ _ _ _ _ Hinv r) as [v Hv].
    + destruct (cr_node _ _ _ Hst root r Hroot) as (? & ? & _ & _ & _ & _ & Ho). by eexists.
    + left. by right.
    + left. intros u Hu%Hedges'. pose proof (Hsmaller u r Hu) as Hlt. destruct (Hexist u r Hu) as [Hue _].
      destruct (Hoperator u Hue) as (p & Hp & Hr). pose proof (created_feeds st Hst Hall u p r Hroot Hr Hp) as Hf.
      assert (u <= r)%nat; [|lia]. clear -Hf Hsmaller. induction Hf as [|o i _ IH Hi]; [done|]. specialize (Hsmaller o i Hi). lia.
    + exists v. split; [done|]. rewrite <- (Hval root r Hroot). by eapply ex_value.
  - intros Hex. destruct (execution_finishes OnExecute (operators_ st) IsExecutorThread (OperatorTask.edges g) n Hsmaller Hedges'
      (λ o i Hi, proj2 (Hexist o i Hi)) Hok s outputs Hreach Hex) as (s' & outputs' & Hsteps & Hq & Hdone).
    exists s', outputs'. split; [done|]. split; [done|]. intros Hsr. apply Hdone. unfold scheduled in *.
    etransitivity; [exact Hsr|]. eapply execution_steps_progress; exact Hsteps.
Qed.
End Plan.
