(* ===== verification/FragmentExecution.v ===== *)
(** * What a fragment computes

    [OnExecute] of every operator class on tables, dispatched as the virtual call does, and
    the execution of a whole fragment plan: from the proxies to the operators, their tasks,
    the worker's threads and the output of the export at the root.  Reading objects and
    serializing a table to an object are members of the environment. *)

From S2P Require Import Storage Positions.
From S2P Require Alias Limit Filter Sort Projection Partition HashJoin SortedMergeJoin AggregateHash.
From S2P Require Import Scheduler SchedulerCorrect OperatorTask.
From S2P Require Export OperatorExecution.

(** ** Operators on tables *)
(** The [output_] of an operator; an export has a null [output_] and writes an object. *)
Inductive OperatorOutput (O : Type) : Type :=
  | OutputTable (t : Table)
  | ExportedObject (bucket_name target_object_key : string) (object : O).
Arguments OutputTable {O}.
Arguments ExportedObject {O}.

(** The libraries and the storage, and the choices of the worker's threads and of the hash
    table: [filter_schedule] is the completion order of the filter's jobs,
    [projection_schedule] the interleaving of the projection's jobs. *)
Record Environment (A O : Type) : Type := mkEnvironment {
  env_lexical_cast_string : ∀ t, ctype t → string;
  env_try_lexical_convert : ∀ t, string → option (ctype t);
  env_print_float : ctype kFloat → string;
  env_print_double : ctype kDouble → string;
  env_hash_combine : N → ∀ dt, ctype dt → N;
  env_iteration : ∀ dt, list (ctype dt * RowId) → list (ctype dt * RowId);
  filter_schedule : expr → Table → list nat;
  projection_schedule : list expr → Table → list nat;
  import_table : list ObjectReference → list ColumnId → ImportOptions A → result Table;
  export_object : FileFormat → bool → Table → result O }.
Arguments env_lexical_cast_string {A O}.
Arguments env_try_lexical_convert {A O}.
Arguments env_print_float {A O}.
Arguments env_print_double {A O}.
Arguments env_hash_combine {A O}.
Arguments env_iteration {A O}.
Arguments filter_schedule {A O}.
Arguments projection_schedule {A O}.
Arguments import_table {A O}.
Arguments export_object {A O}.

Section Dispatch.
Context {A O : Type} (env : Environment A O).

(** [LeftInputTable()] of an operator that reads it: null after an export. *)
Definition InputOf (input : option (OperatorOutput O)) : result Table :=
  match input with Some (OutputTable t) => Ok t | _ => Err UndefinedBehaviour end.

Definition OnExecute (op : Operator A) (left right : option (OperatorOutput O)) : result (OperatorOutput O) :=
  match op with
  | AggregateHashOperator aggregates group_by_column_ids =>
      t ← InputOf left;
      aggregates ← mapR (λ e, of_option e UndefinedBehaviour) aggregates;
      t' ← AggregateHash.AggregateHashOperator aggregates (N.to_nat <$> group_by_column_ids) t; Ok (OutputTable t')
  | AliasOperator column_ids aliases =>
      t ← InputOf left; t' ← Alias.AliasOperator column_ids aliases t; Ok (OutputTable t')
  | ExportOperator bucket_name target_object_key export_format consolidate_row_groups =>
      t ← InputOf left; object ← export_object env export_format consolidate_row_groups t;
      Ok (ExportedObject bucket_name target_object_key object)
  | FilterOperator predicate =>
      t ← InputOf left;
      t' ← Filter.FilterOperator (env_lexical_cast_string env) (env_try_lexical_convert env) predicate
             (filter_schedule env predicate t) t;
      Ok (OutputTable t')
  | HashJoinOperator predicate join_mode =>
      l ← InputOf left; r ← InputOf right;
      t' ← HashJoin.HashJoinOperator (env_iteration env) l r predicate join_mode; Ok (OutputTable t')
  | ImportOperator object_references column_ids options =>
      t ← import_table env object_references column_ids options; Ok (OutputTable t)
  | LimitOperator row_count =>
      t ← InputOf left;
      t' ← Limit.LimitOperator (env_lexical_cast_string env) (env_try_lexical_convert env) t row_count; Ok (OutputTable t')
  | PartitionOperator partitioning_function sort_within_partition =>
      t ← InputOf left;
      t' ← Partition.PartitionOperator (env_hash_combine env) (N.to_nat <$> partition_column_ids partitioning_function)
             (Z.to_nat (partition_count partitioning_function)) sort_within_partition t;
      Ok (OutputTable t')
  | ProjectionOperator expressions =>
      t ← InputOf left;
      t' ← Projection.ProjectionOperator (env_lexical_cast_string env) (env_try_lexical_convert env) (env_print_float env)
             (env_print_double env) expressions (projection_schedule env expressions t) t;
      Ok (OutputTable t')
  | SortOperator sort_definitions => t ← InputOf left; t' ← Sort.SortOperator sort_definitions t; Ok (OutputTable t')
  | SortedMergeJoinOperator predicate join_mode =>
      l ← InputOf left; r ← InputOf right;
      t' ← SortedMergeJoin.SortedMergeJoinOperator l r predicate join_mode; Ok (OutputTable t')
  end.
End Dispatch.

(** C12: (operator_proxy/*.cpp, operator_task.cpp, abstract_operator.cpp, fragment_scheduler.cpp) The
    execution of a fragment plan.  Creating the operators of an acyclic plan whose proxies
    are instantiable and whose operators succeed gives one operator per proxy, and their
    tasks; and under every interleaving of the worker's threads, of the jobs that the
    operators schedule and of the clearing of outputs: an operator that runs finds the tables
    of its inputs; every output is the value of the plan below its proxy; once the root's
    task is done its output is there and is the value of the plan; and while there is an
    executor thread, the threads can finish with the scheduled root done. *)
Theorem fragment_execution_correct {A O P : Type} `{Countable P} (env : Environment A O) (plan : gmap P (Proxy A P)) (root : P)
    (rank : P → nat) (fuel : nat) :
  (∀ p, plan_reachable plan root p → is_Some (plan !! p)) →
  ranked plan root rank → (rank root < fuel)%nat →
  (∀ p x, plan_reachable plan root p → plan !! p = Some x → instantiable x) →
  (∀ p, plan_reachable plan root p → is_ok (plan_value (OnExecute env) plan fuel p) = true) →
  ∃ r st g, GetOrCreateOperatorInstance fuel root (mkInstances plan ∅ []) = Ok (r, st) ∧
    operator_instance_ st !! root = Some r ∧
    GenerateTasksFromOperator (MutableLeftInput (operators_ st)) (MutableRightInput (operators_ st)) (S r) r = Some g ∧
    ∀ IsExecutorThread n s outputs,
      execution_reachable (OnExecute env) (operators_ st) IsExecutorThread (initial (OperatorTask.edges g) n) (s, outputs) →
      (∀ t, t ∈ OperatorTask.operators g → RunTask t ∈ concat (threads s) → outputs !! t = None →
        is_ok (ExecuteOperator (OnExecute env) (operators_ st) t outputs) = true) ∧
      (∀ p o v, operator_instance_ st !! p = Some o → outputs !! o = Some v → plan_value (OnExecute env) plan fuel p = Ok v) ∧
      (state_ (tasks (core s) r) = kDone → ∃ v, outputs !! r = Some v ∧ plan_value (OnExecute env) plan fuel root = Ok v) ∧
      (executes IsExecutorThread s → ∃ s' outputs',
        rtc (execution_step (OnExecute env) (operators_ st) IsExecutorThread) (s, outputs) (s', outputs') ∧ quiescent s' ∧
        (scheduled (core s) r → state_ (tasks (core s') r) = kDone)).
Proof.
  intros Hclosed Hrank Hfuel Hinst Hvalues. by apply (plan_execution (OnExecute env) plan root rank).
Qed.

(** ** An example *)
Definition demo_environment : Environment unit (list (list AllTypeVariant)) := {|
  env_lexical_cast_string := λ _ _, "?"%string;
  env_try_lexical_convert := λ _ _, None;
  env_print_float := λ _, "?"%string;
  env_print_double := λ _, "?"%string;
  env_hash_combine := λ seed _ _, seed;
  env_iteration := λ _ l, l;
  filter_schedule := λ _ _, [];
  projection_schedule := λ _ _, [];
  import_table := λ _ _ _, Ok Limit.limit_example;
  export_object := λ _ _ t, table_rows t |}.

Definition demo_fragment : gmap N (Proxy unit N) :=
  {[ 1%N := mkProxy (ImportOperatorProxy [0%N] [mkObjectReference "bucket" "key.orc" "etag" None] None 1)
       "import" EmptyString None None EmptyString EmptyString;
     2%N := mkProxy (LimitOperatorProxy (Value (VInt 4))) "limit" EmptyString (Some 1%N) None EmptyString EmptyString;
     3%N := mkProxy (ExportOperatorProxy (mkObjectReference "bucket" "result.orc" EmptyString None) kOrc false)
       "export" EmptyString (Some 2%N) None EmptyString EmptyString ]}%string.

Lemma demo_fragment_lookup p x : demo_fragment !! p = Some x → p = 1%N ∨ p = 2%N ∨ p = 3%N.
Proof.
  unfold demo_fragment. intros Hx. destruct (decide (p = 1%N)); [auto|]. destruct (decide (p = 2%N)); [auto|].
  destruct (decide (p = 3%N)); [auto|]. by simplify_map_eq.
Qed.

Ltac demo_node Hx :=
  destruct (demo_fragment_lookup _ _ Hx) as [->|[->| ->]]; injection Hx as <-.

Lemma demo_fragment_closed p : plan_reachable demo_fragment 3%N p → p = 1%N ∨ p = 2%N ∨ p = 3%N.
Proof.
  induction 1 as [|p x q _ _ Hx Hq]; [auto|]. demo_node Hx;
    repeat (apply elem_of_cons in Hq as [->|Hq]; [auto|]); by apply elem_of_nil in Hq.
Qed.

Lemma demo_fragment_ranked : ranked demo_fragment 3%N N.to_nat.
Proof.
  intros p x q _ Hx Hq. demo_node Hx;
    repeat (apply elem_of_cons in Hq as [->|Hq]; [cbn; lia|]); by apply elem_of_nil in Hq.
Qed.

Lemma demo_fragment_instantiable p x : demo_fragment !! p = Some x → instantiable x.
Proof. intros Hx. demo_node Hx; (split; [by vm_compute|intros Hkind; vm_compute in Hkind; first [discriminate Hkind|by destruct (Hkind eq_refl)|by eexists]|by vm_compute|done]). Qed.

Lemma fragment_execution_correct_witness :
  ∃ r st g s outputs, GetOrCreateOperatorInstance 4 3%N (mkInstances demo_fragment ∅ []) = Ok (r, st) ∧
    GenerateTasksFromOperator (MutableLeftInput (operators_ st)) (MutableRightInput (operators_ st)) (S r) r = Some g ∧
    execution_reachable (OnExecute demo_environment) (operators_ st) (λ i, (i =? 0)%nat)
      (initial (OperatorTask.edges g) 1) (s, outputs) ∧
    outputs !! r = Some (ExportedObject "bucket" "result.orc" [[VInt 1]; [VInt 2]; [VInt 3]; [VInt 4]]).
Proof.
  destruct (fragment_execution_correct demo_environment demo_fragment 3%N N.to_nat 4) as (r & st & g & Hget & _ & Hg & Hrun).
  - intros p [->|[->| ->]]%demo_fragment_closed; by eexists.
  - exact demo_fragment_ranked.
  - cbn. lia.
  - intros p x _ Hx. by eapply demo_fragment_instantiable.
  - intros p [->|[->| ->]]%demo_fragment_closed; by vm_compute.
  - vm_compute in Hget. injection Hget as <- <-. vm_compute in Hg. injection Hg as <-.
    match type of Hrun with context [operators_ ?st] => set (instances := st) in * end.
    match type of Hrun with context [OperatorTask.edges ?g] => set (graph := g) in * end.
    set (executor := λ i, (i =? 0)%nat).
    destruct (perform (λ _, None) (ScheduleCall 2) (link (OperatorTask.edges graph))) as [[c new]|] eqn:Hp; [|by vm_compute in Hp].
    assert (execution_reachable (OnExecute demo_environment) (operators_ instances) executor
      (initial (OperatorTask.edges graph) 1) (mkSystem [new ++ []] c, ∅)) as Hreach.
    { eapply execution_next; [eapply execution_next; [constructor|]|].
      - apply schedule; [by apply (step_schedule _ _ [] [] [] _ 2)|]. intros t _ Ht. by apply elem_of_nil in Ht.
      - apply schedule; [by apply step_work, (work_perform _ _ [] (ScheduleCall 2) [] [])|].
        intros t _ Ht. apply elem_of_cons in Ht as [|Ht]; [done|]. by apply elem_of_nil in Ht. }
    destruct (Hrun executor 1%nat _ _ Hreach) as (_ & _ & _ & Hfinish).
    destruct Hfinish as (s & outputs & Hsteps & _ & Hdone); [exists 0%nat; split; [cbn; lia|done]|].
    pose proof (execution_reachable_rtc _ _ _ _ _ _ Hreach Hsteps) as Hend.
    destruct (Hrun executor 1%nat _ _ Hend) as (_ & _ & Hout & _).
    destruct Hout as (v & Hv & Hvalue).
    { apply Hdone. cbn [core]. vm_compute in Hp. injection Hp as <- _. vm_compute. lia. }
    exists 2%nat, instances, graph, s, outputs. do 2 (split; [by vm_compute|]). split; [exact Hend|].
    rewrite Hv. vm_compute in Hvalue. by injection Hvalue as <-.
Defined.
