(* ===== verification/FunctionalDependency.v ===== *)
(** * Functional dependencies

    [compiler/logical_query_plan/functional_dependency.cpp]: the sets of expressions, the
    comparison of dependencies, inflating, deflating, unions and intersections.  An
    [ExpressionUnorderedSet] is the list of its elements in iteration order, compared by
    [operator==] of expressions; of the hashes only that equal elements have equal hashes is
    used. *)

From S2P Require Export Expression.
From S2P Require AggregateKeys.

(** ** Sets of expressions *)
Definition ExpressionUnorderedSet : Type := list expr.

Definition contains (s : ExpressionUnorderedSet) (e : expr) : bool := existsb (expr_eqb e) s.
Definition set_insert (s : ExpressionUnorderedSet) (e : expr) : ExpressionUnorderedSet :=
  if contains s e then s else s ++ [e].

(** ** Dependencies *)
Record FunctionalDependency : Type := mkFunctionalDependency {
  determinant_expressions : ExpressionUnorderedSet;
  dependent_expressions : ExpressionUnorderedSet }.

Definition make_FunctionalDependency (debug : bool) (determinants dependents : ExpressionUnorderedSet)
    : result FunctionalDependency :=
  _ ← assert_ (negb debug || (negb (bool_decide (determinants = [])) && negb (bool_decide (dependents = [])))) AssertionFailed;
  Ok (mkFunctionalDependency determinants dependents).

(** [this == other], with the comparison of the dependents as it is written. *)
Definition FunctionalDependency_eqb (this other : FunctionalDependency) : bool :=
  if negb (length (determinant_expressions this) =? length (determinant_expressions other))%nat
     || negb (length (dependent_expressions this) =? length (dependent_expressions other))%nat then false
  else if negb (forallb (contains (determinant_expressions this)) (determinant_expressions other)) then false
  else forallb (λ e, negb (contains (dependent_expressions this) e)) (dependent_expressions other).

(** [std::unordered_set<FunctionalDependency>]. *)
Definition fd_contains (s : list FunctionalDependency) (fd : FunctionalDependency) : bool :=
  existsb (FunctionalDependency_eqb fd) s.
Definition fd_insert (s : list FunctionalDependency) (fd : FunctionalDependency) : list FunctionalDependency :=
  if fd_contains s fd then s else s ++ [fd].

Definition InflateFunctionalDependencies (fds : list FunctionalDependency) : list FunctionalDependency :=
  foldl (λ inflated fd,
    if (length (dependent_expressions fd) =? 1)%nat then fd_insert inflated fd
    else foldl (λ inflated e, fd_insert inflated (mkFunctionalDependency (determinant_expressions fd) [e]))
           inflated (dependent_expressions fd)) [] fds.

Definition same_determinants (fd_to_add fd : FunctionalDependency) : bool :=
  (length (determinant_expressions fd) =? length (determinant_expressions fd_to_add))%nat
  && forallb (contains (determinant_expressions fd)) (determinant_expressions fd_to_add).

(** [find_if], then [push_back] or [insert] into the existing dependents. *)
Fixpoint deflate_step (deflated : list FunctionalDependency) (fd_to_add : FunctionalDependency) : list FunctionalDependency :=
  match deflated with
  | [] => [fd_to_add]
  | fd :: deflated =>
      if same_determinants fd_to_add fd
      then mkFunctionalDependency (determinant_expressions fd)
             (foldl set_insert (dependent_expressions fd) (dependent_expressions fd_to_add)) :: deflated
      else fd :: deflate_step deflated fd_to_add
  end.

Definition DeflateFunctionalDependencies (fds : list FunctionalDependency) : list FunctionalDependency :=
  foldl deflate_step [] fds.

Definition UnionFunctionalDependencies (debug : bool) (a b : list FunctionalDependency) : result (list FunctionalDependency) :=
  let count fds := length (foldl fd_insert [] fds) in
  _ ← assert_ (negb debug || ((length a =? count a)%nat && (length b =? count b)%nat)) AssertionFailed;
  Ok (if bool_decide (a = []) then b else if bool_decide (b = []) then a else DeflateFunctionalDependencies (a ++ b)).

(** [iteration] is the order in which the elements of the inflated set are visited. *)
Definition IntersectFunctionalDependencies (iteration : list FunctionalDependency → list FunctionalDependency)
    (a b : list FunctionalDependency) : list FunctionalDependency :=
  if bool_decide (a = []) || bool_decide (b = []) then []
  else DeflateFunctionalDependencies
         (List.filter (fd_contains (InflateFunctionalDependencies b)) (iteration (InflateFunctionalDependencies a))).

(** ** Equality of expressions is equality of keys, NaN constants aside *)
Fixpoint expr_key (e : expr) : expr :=
  match e with
  | Aggregate f a => Aggregate f (expr_key a)
  | StringAgg a _ => Aggregate kStringAgg (expr_key a)
  | Arithmetic o l r => Arithmetic o (expr_key l) (expr_key r)
  | Case w t o => Case (expr_key w) (expr_key t) (expr_key o)
  | Cast a t => Cast (expr_key a) t
  | Extract c a => Extract c (expr_key a)
  | ListExpr es => ListExpr (map expr_key es)
  | Logical o l r => Logical o (expr_key l) (expr_key r)
  | PqpColumn i t n s => PqpColumn i t n s
  | BinaryPredicate c l r | InExpr c l r => BinaryPredicate c (expr_key l) (expr_key r)
  | Between c v l u => Between c (expr_key v) (expr_key l) (expr_key u)
  | IsNullExpr c a => IsNullExpr c (expr_key a)
  | UnaryMinus a => UnaryMinus (expr_key a)
  | Value v => Value (AggregateKeys.variant_class v)
  end.

Lemma expr_eqb_key a b : nan_free a = true → expr_eqb a b = true ↔ expr_key a = expr_key b.
Proof.
  revert b. induction a using expr_ind; intros b Hn; cbn in Hn; rewrite ?andb_true_iff in Hn; destruct_and?;
    destruct b; cbn; rewrite ?andb_true_iff, ?bool_decide_eq_true;
    repeat match goal with IH : ∀ b, nan_free ?x = true → _ |- context [expr_eqb ?x _] => rewrite IH by done end;
    try (split; [intros; destruct_and?; congruence|intros Hk; first [discriminate Hk|injection Hk; clear Hk; intros; subst; auto 10]]).
  - transitivity (map expr_key es = map expr_key elements); [|split; congruence].
    clear -H Hn. revert elements. induction H as [|a es Ha _ IH]; intros [|b elements]; cbn in *; [done|split; [by intros [_ [=]]|done]|split; [by intros [_ [=]]|done]|].
    apply andb_true_iff in Hn as [Hna Hn]. specialize (IH Hn elements). rewrite andb_true_iff, (Ha b Hna).
    split; [intros [_ [-> Hes]]; f_equal; by apply IH|intros [= -> Hes]; apply IH in Hes as [_ Hes]; done].
  - assert (AggregateKeys.nan_free v) as Hv by (unfold is_nan_value in Hn; split; intros ->; by cbn in Hn).
    pose proof (AggregateKeys.same_cell_class v v0 Hv) as Hk. unfold AggregateKeys.same_cell in Hk. rewrite Hk. split; [by intros [[_ ->] _]|by intros [= ->]].
Qed.

(** ** Sets by their keys *)
Definition keys (s : ExpressionUnorderedSet) : list expr := expr_key <$> s.

Record wf_set (s : ExpressionUnorderedSet) : Prop := {
  wfs_unique : NoDup (keys s);
  wfs_nan_free : Forall (λ e, nan_free e = true) s }.

Lemma contains_key s e : nan_free e = true → contains s e = true ↔ expr_key e ∈ keys s.
Proof.
  intros He. unfold contains, keys. rewrite existsb_exists, list_elem_of_fmap. setoid_rewrite list_elem_of_In.
  setoid_rewrite (expr_eqb_key e _ He).
  split; intros (x & H1 & H2); by exists x.
Qed.

Lemma set_insert_wf s e : wf_set s → nan_free e = true → wf_set (set_insert s e).
Proof.
  intros [Hu Hn] He. unfold set_insert. destruct (contains s e) eqn:Hc; [done|]. split.
  - unfold keys. rewrite fmap_app. apply NoDup_app. repeat split; [done| |apply NoDup_singleton].
    intros k Hk ->%list_elem_of_singleton. apply (contains_key s e He) in Hk. congruence.
  - by apply Forall_app_2; [|constructor].
Qed.

Lemma set_insert_keys s e k : nan_free e = true → k ∈ keys (set_insert s e) ↔ k ∈ keys s ∨ k = expr_key e.
Proof.
  intros He. unfold set_insert. destruct (contains s e) eqn:Hc.
  - apply (contains_key s e He) in Hc. split; [tauto|]. by intros [| ->].
  - unfold keys. rewrite fmap_app, elem_of_app. cbn. by rewrite list_elem_of_singleton.
Qed.

Lemma set_insert_all s t :
  wf_set s → Forall (λ e, nan_free e = true) t →
  wf_set (foldl set_insert s t) ∧ ∀ k, k ∈ keys (foldl set_insert s t) ↔ k ∈ keys s ∨ k ∈ keys t.
Proof.
  intros Hs Ht. revert s Hs. induction Ht as [|e t He Ht IH]; intros s Hs; cbn [foldl].
  - split; [done|]. intros k. cbn. rewrite elem_of_nil. tauto.
  - destruct (IH _ (set_insert_wf s e Hs He)) as [Hw Hk]. split; [done|]. intros k. rewrite Hk, set_insert_keys by done.
    cbn. rewrite elem_of_cons. tauto.
Qed.

(** Equal sizes and inclusion make the sets equal. *)
Lemma same_set s t :
  wf_set s → wf_set t →
  (length s =? length t)%nat && forallb (contains s) t = true ↔ keys s ≡ₚ keys t.
Proof.
  intros [Hs Hns] [Ht Hnt]. rewrite andb_true_iff, Nat.eqb_eq, forallb_forall. setoid_rewrite <- list_elem_of_In.
  assert ((∀ e, e ∈ t → contains s e = true) ↔ ∀ k, k ∈ keys t → k ∈ keys s) as Hin.
  { rewrite Forall_forall in Hnt. split.
    - intros H k (e & -> & He)%list_elem_of_fmap. apply contains_key; [by apply Hnt|by apply H].
    - intros H e He. apply contains_key; [by apply Hnt|]. apply H, list_elem_of_fmap. by exists e. }
  rewrite Hin. split.
  - intros [Hl Hk]. symmetry. apply submseteq_length_Permutation; [by apply NoDup_submseteq|]. unfold keys.
    rewrite !length_fmap. lia.
  - intros Hp. split; [|by intros k Hk; rewrite Hp]. apply Permutation_length in Hp. unfold keys in Hp.
    by rewrite !length_fmap in Hp.
Qed.

(** ** Dependencies by their keys *)
Record wf_fd (fd : FunctionalDependency) : Prop := {
  wffd_determinants : wf_set (determinant_expressions fd);
  wffd_dependents : wf_set (dependent_expressions fd);
  wffd_determined : dependent_expressions fd ≠ [] }.

Definition determinants (fd : FunctionalDependency) : list expr := keys (determinant_expressions fd).
Definition dependents (fd : FunctionalDependency) : list expr := keys (dependent_expressions fd).

(** The comparison asks for disjoint dependents. *)
Lemma FunctionalDependency_eqb_spec a b :
  wf_fd a → wf_fd b →
  FunctionalDependency_eqb a b = true ↔
  determinants a ≡ₚ determinants b ∧ length (dependents a) = length (dependents b) ∧ (∀ k, k ∈ dependents b → k ∉ dependents a).
Proof.
  intros [Ha Hda _] [Hb Hdb _]. unfold FunctionalDependency_eqb, determinants, dependents.
  rewrite <- (same_set _ _ Ha Hb), andb_true_iff, Nat.eqb_eq. unfold keys at 1 2. rewrite !length_fmap.
  destruct (Nat.eqb_spec (length (determinant_expressions a)) (length (determinant_expressions b))) as [Hl1|Hl]; cbn;
    [|split; [done|by intros [[? _] _]]].
  destruct (Nat.eqb_spec (length (dependent_expressions a)) (length (dependent_expressions b))) as [Hl2|Hl]; cbn;
    [|split; [done|by intros (_ & ? & _)]].
  destruct (forallb (contains (determinant_expressions a)) (determinant_expressions b)); cbn; [|split; [done|by intros [[_ [=]] _]]].
  rewrite forallb_forall. setoid_rewrite <- list_elem_of_In. setoid_rewrite negb_true_iff.
  destruct Hdb as [_ Hdb]. rewrite Forall_forall in Hdb. split.
  - intros H. do 2 (split; [done|]). intros k (e & -> & He)%list_elem_of_fmap Hk.
    apply (contains_key _ e (Hdb e He)) in Hk. by rewrite (H e He) in Hk.
  - intros (_ & _ & H) e He. apply not_true_iff_false. intros Hk%(contains_key _ e (Hdb e He)).
    apply (H (expr_key e)); [|done]. apply list_elem_of_fmap. by exists e.
Qed.

Lemma FunctionalDependency_eqb_irreflexive fd : wf_fd fd → FunctionalDependency_eqb fd fd = false.
Proof.
  intros Hw. apply not_true_iff_false. rewrite FunctionalDependency_eqb_spec by done. intros (_ & _ & H).
  destruct Hw as [_ _ Hne]. unfold dependents, keys in H. destruct (dependent_expressions fd) as [|e es]; [done|].
  apply (H (expr_key e)); by left.
Qed.

Lemma FunctionalDependency_eqb_sym a b :
  wf_fd a → wf_fd b → FunctionalDependency_eqb a b = true → FunctionalDependency_eqb b a = true.
Proof.
  intros Ha Hb. rewrite !FunctionalDependency_eqb_spec by done. intros (Hp & Hl & Hd). do 2 (split; [done|]).
  intros k Hka Hkb. by apply (Hd k).
Qed.

(** ** Inflation *)
(** The elements of a set of dependencies are unequal to each other, and to themselves. *)
Definition fd_set (s : list FunctionalDependency) : Prop :=
  Forall wf_fd s ∧ ∀ x y, x ∈ s → y ∈ s → FunctionalDependency_eqb x y = false.

Lemma fd_insert_set s fd : fd_set s → wf_fd fd → fd_set (fd_insert s fd).
Proof.
  intros [Hw Hs] Hfd. unfold fd_insert. destruct (fd_contains s fd) eqn:Hc; [done|].
  rewrite Forall_forall in Hw.
  assert (∀ x, x ∈ s → FunctionalDependency_eqb fd x = false) as Hnew.
  { intros x Hx. apply not_true_iff_false. intros Heq. apply not_true_iff_false in Hc. apply Hc, existsb_exists.
    exists x. by rewrite <- list_elem_of_In. }
  split.
  - apply Forall_app_2; [by apply Forall_forall|by constructor].
  - intros x y [Hx| ->%list_elem_of_singleton]%elem_of_app [Hy| ->%list_elem_of_singleton]%elem_of_app.
    + by apply Hs.
    + apply not_true_iff_false. intros Heq%FunctionalDependency_eqb_sym; [|by apply Hw|done]. by rewrite Hnew in Heq.
    + by apply Hnew.
    + by apply FunctionalDependency_eqb_irreflexive.
Qed.

Lemma singleton_wf fd e : wf_fd fd → e ∈ dependent_expressions fd → wf_fd (mkFunctionalDependency (determinant_expressions fd) [e]).
Proof.
  intros [Hd [_ Hn] _] He. rewrite Forall_forall in Hn. split; cbn; [done| |done].
  split; [apply NoDup_singleton|by constructor; [apply Hn|]].
Qed.

Lemma foldl_set {B} (f : list FunctionalDependency → B → list FunctionalDependency) (l : list B) s :
  fd_set s → (∀ s x, fd_set s → x ∈ l → fd_set (f s x)) → fd_set (foldl f s l).
Proof.
  revert s. induction l as [|x l IH]; intros s Hs Hf; [done|]. cbn. apply IH; [apply Hf; [done|by left]|].
  intros t y Ht Hy. apply Hf; [done|by right].
Qed.

Lemma Inflate_set fds : Forall wf_fd fds → fd_set (InflateFunctionalDependencies fds).
Proof.
  intros Hw. rewrite Forall_forall in Hw. apply foldl_set; [split; [done|]; by intros x y Hx%elem_of_nil|].
  intros s fd Hs Hfd. destruct (_ =? 1)%nat; [by apply fd_insert_set; [|apply Hw]|].
  apply foldl_set; [done|]. intros t e Ht He. by apply fd_insert_set; [|apply singleton_wf; [apply Hw|]].
Qed.

Lemma Inflate_singleton D e es :
  wf_fd (mkFunctionalDependency D (e :: es)) →
  InflateFunctionalDependencies [mkFunctionalDependency D (e :: es)] = [mkFunctionalDependency D [e]].
Proof.
  intros Hw. unfold InflateFunctionalDependencies. cbn [foldl dependent_expressions determinant_expressions].
  destruct (length (e :: es) =? 1)%nat eqn:Hl; [apply Nat.eqb_eq in Hl; destruct es; [done|]; cbn in Hl; lia|].
  cbn [foldl]. change (fd_insert [] (mkFunctionalDependency D [e])) with [mkFunctionalDependency D [e]].
  assert (wf_fd (mkFunctionalDependency D [e])) as He by (apply (singleton_wf _ e Hw); by left).
  clear Hl. assert (∀ x, x ∈ es → FunctionalDependency_eqb (mkFunctionalDependency D [x]) (mkFunctionalDependency D [e]) = true) as Hes.
  { intros x Hx. assert (wf_fd (mkFunctionalDependency D [x])) as Hwx by (apply (singleton_wf _ x Hw); by right).
    apply FunctionalDependency_eqb_spec; [done|done|]. do 2 (split; [done|]). intros k ->%list_elem_of_singleton Hk.
    apply list_elem_of_singleton in Hk. destruct Hw as [_ [Hu _] _]. apply NoDup_cons in Hu as [Hu _]. apply Hu.
    cbn in Hk. rewrite Hk. apply list_elem_of_fmap. by exists x. }
  induction es as [|x es IH]; [done|]. cbn [foldl]. unfold fd_insert at 2. unfold fd_contains. cbn [existsb].
  rewrite (Hes x) by (by left). cbn [orb]. apply IH; [|intros y Hy; apply Hes; by right].
  destruct Hw as [HD [Hu Hn] _]. split; [done| |done]. split; cbn in *.
  - apply NoDup_cons in Hu as [Hu Hu']. apply NoDup_cons in Hu' as [_ Hu']. apply NoDup_cons. split; [|done].
    intros H. apply Hu. by right.
  - inversion_clear Hn as [|? ? H1 H2]. inversion_clear H2. by constructor.
Qed.

(** (functional_dependency.cpp) [operator==] of functional dependencies is inverted: it
    compares the dependents by disjointness.  So no dependency equals itself, inflating a
    dependency keeps only the first of its dependents, and the intersection of a list of
    dependencies with itself is empty, in whatever order the sets are iterated. *)
Theorem FunctionalDependency_equality_inverted fd fds iteration :
  wf_fd fd → Forall wf_fd fds → (∀ s, iteration s ≡ₚ s) →
  FunctionalDependency_eqb fd fd = false ∧
  InflateFunctionalDependencies [fd] = match dependent_expressions fd with
    | e :: _ => [mkFunctionalDependency (determinant_expressions fd) [e]] | [] => [] end ∧
  IntersectFunctionalDependencies iteration fds fds = [].
Proof.
  intros Hfd Hfds Hiteration. split; [by apply FunctionalDependency_eqb_irreflexive|]. split.
  - destruct fd as [D [|e es]]; [by destruct Hfd|]. by apply Inflate_singleton.
  - unfold IntersectFunctionalDependencies. destruct (_ || _); [done|]. destruct (Inflate_set fds Hfds) as [_ Hne].
    assert (∀ l, (∀ x, x ∈ l → x ∈ InflateFunctionalDependencies fds) →
      List.filter (fd_contains (InflateFunctionalDependencies fds)) l = []) as Hnone.
    { induction l as [|x l IH]; intros Hin; [done|]. cbn.
      assert (fd_contains (InflateFunctionalDependencies fds) x = false) as ->; [|by apply IH; intros y Hy; apply Hin; right].
      apply not_true_iff_false. unfold fd_contains. rewrite existsb_exists. intros (y & Hy%list_elem_of_In & Heq).
      rewrite Hne in Heq; [done| |done]. apply Hin. by left. }
    rewrite Hnone; [done|]. intros x. by rewrite Hiteration.
Qed.

(** ** Deflation *)
(** [D] determines [k] by one of the dependencies. *)
Definition determines (fds : list FunctionalDependency) (D : list expr) (k : expr) : Prop :=
  ∃ fd, fd ∈ fds ∧ determinants fd ≡ₚ D ∧ k ∈ dependents fd.

(** No two dependencies have the same determinants. *)
Inductive deflated : list FunctionalDependency → Prop :=
  | deflated_nil : deflated []
  | deflated_cons fd fds : (∀ x, x ∈ fds → ¬ determinants fd ≡ₚ determinants x) → deflated fds → deflated (fd :: fds).

Lemma same_determinants_spec a b : wf_fd a → wf_fd b → same_determinants a b = true ↔ determinants b ≡ₚ determinants a.
Proof. intros [Ha _ _] [Hb _ _]. by apply same_set. Qed.

Lemma determines_nil D k : ¬ determines [] D k.
Proof. intros (fd & Hfd%elem_of_nil & _). done. Qed.

Lemma determines_cons fd fds D k :
  determines (fd :: fds) D k ↔ (determinants fd ≡ₚ D ∧ k ∈ dependents fd) ∨ determines fds D k.
Proof.
  unfold determines. setoid_rewrite elem_of_cons. split.
  - intros (x & [-> |Hx] & H); [by left|right; by exists x].
  - intros [H|(x & Hx & H)]; [exists fd; auto|exists x; auto].
Qed.

Lemma determines_app a b D k : determines (a ++ b) D k ↔ determines a D k ∨ determines b D k.
Proof.
  induction a as [|fd a IH]; cbn [app]; [pose proof (determines_nil D k); tauto|]. rewrite !determines_cons, IH. tauto.
Qed.

Lemma deflate_step_spec fds fd :
  Forall wf_fd fds → wf_fd fd → deflated fds →
  Forall wf_fd (deflate_step fds fd) ∧ deflated (deflate_step fds fd) ∧
  (∀ x, x ∈ deflate_step fds fd → determinants x ≡ₚ determinants fd ∨ ∃ y, y ∈ fds ∧ determinants x = determinants y) ∧
  ∀ D k, determines (deflate_step fds fd) D k ↔ determines fds D k ∨ determines [fd] D k.
Proof.
  intros Hw Hfd Hd. induction Hd as [|x fds Hx Hd IH].
  - cbn. split; [by constructor|]. split; [repeat constructor; by intros x Hx%elem_of_nil|]. split.
    + intros x ->%list_elem_of_singleton. by left.
    + intros D k. pose proof (determines_nil D k). tauto.
  - inversion_clear Hw as [|? ? Hwx Hwfds]. cbn [deflate_step]. destruct (same_determinants fd x) eqn:Hs.
    + apply (same_determinants_spec fd x Hfd Hwx) in Hs.
      destruct (set_insert_all (dependent_expressions x) (dependent_expressions fd)) as [Hws Hks]; [by destruct Hwx|by destruct Hfd as [_ [_ ?] _]|].
      assert (wf_fd (mkFunctionalDependency (determinant_expressions x) (foldl set_insert (dependent_expressions x) (dependent_expressions fd)))) as Hwn.
      { destruct Hwx as [H1 H2 H3]. split; cbn; [done|done|]. intros He. rewrite He in Hks.
        destruct (dependent_expressions x) as [|e es]; [done|]. apply (elem_of_nil (expr_key e)), Hks. left. by left. }
      split; [by constructor|]. split; [by constructor|]. split.
      * intros y [-> |Hy]%elem_of_cons; right; [exists x; split; [by left|done]|exists y; split; [by right|done]].
      * intros D k. rewrite !determines_cons. pose proof (determines_nil D k).
        assert (determinants x ≡ₚ D ↔ determinants fd ≡ₚ D) as HD by (by rewrite Hs).
        unfold determinants, dependents in *. cbn [determinant_expressions dependent_expressions]. rewrite Hks. tauto.
    + destruct (IH Hwfds) as (IHw & IHd & IHx & IHk). split; [by constructor|]. split; [|split].
      * constructor; [|done]. intros y Hy Hp. destruct (IHx y Hy) as [Hyf|(z & Hz & Hyz)].
        -- apply not_true_iff_false in Hs. apply Hs, (same_determinants_spec fd x Hfd Hwx). by rewrite Hp.
        -- apply (Hx z Hz). by rewrite <- Hyz.
      * intros y [-> |Hy]%elem_of_cons; [right; exists x; split; [by left|done]|].
        destruct (IHx y Hy) as [|(z & Hz & ?)]; [by left|right; exists z; split; [by right|done]].
      * intros D k. rewrite !(determines_cons x), IHk. tauto.
Qed.

Lemma DeflateFunctionalDependencies_spec fds :
  Forall wf_fd fds →
  Forall wf_fd (DeflateFunctionalDependencies fds) ∧ deflated (DeflateFunctionalDependencies fds) ∧
  ∀ D k, determines (DeflateFunctionalDependencies fds) D k ↔ determines fds D k.
Proof.
  intros Hw. unfold DeflateFunctionalDependencies.
  enough (∀ acc, Forall wf_fd acc → deflated acc → Forall wf_fd (foldl deflate_step acc fds) ∧ deflated (foldl deflate_step acc fds) ∧
    ∀ D k, determines (foldl deflate_step acc fds) D k ↔ determines acc D k ∨ determines fds D k) as H.
  { destruct (H [] (Forall_nil_2 _) deflated_nil) as (H1 & H2 & H3). do 2 (split; [done|]). intros D k. rewrite H3.
    pose proof (determines_nil D k). tauto. }
  induction Hw as [|fd fds Hfd _ IH]; intros acc Ha Hd.
  - do 2 (split; [done|]). intros D k. pose proof (determines_nil D k). cbn. tauto.
  - destruct (deflate_step_spec acc fd Ha Hfd Hd) as (Ha' & Hd' & _ & Hk). cbn [foldl].
    destruct (IH _ Ha' Hd') as (H1 & H2 & H3). do 2 (split; [done|]). intros D k. rewrite H3, Hk.
    rewrite (determines_cons fd fds), (determines_cons fd []). pose proof (determines_nil D k). tauto.
Qed.

(** (functional_dependency.cpp) The union of two lists of dependencies determines exactly
    what one of them determines; if neither is empty, dependencies with the same determinants
    are merged. *)
Theorem UnionFunctionalDependencies_correct a b :
  Forall wf_fd a → Forall wf_fd b →
  ∃ r, UnionFunctionalDependencies false a b = Ok r ∧ Forall wf_fd r ∧
    (∀ D k, determines r D k ↔ determines a D k ∨ determines b D k) ∧
    (a ≠ [] → b ≠ [] → deflated r).
Proof.
  intros Ha Hb. unfold UnionFunctionalDependencies. cbn [negb orb]. eexists. split; [done|].
  destruct (decide (a = [])) as [->|Hna]; [|destruct (decide (b = [])) as [->|Hnb]].
  - split; [done|]. split; [|done]. intros D k. pose proof (determines_nil D k). cbn. tauto.
  - rewrite bool_decide_false by done. cbn. split; [done|]. split; [|done]. intros D k. pose proof (determines_nil D k). tauto.
  - rewrite !bool_decide_false by done. destruct (DeflateFunctionalDependencies_spec (a ++ b)) as (H1 & H2 & H3); [by apply Forall_app_2|].
    split; [done|]. split; [|done]. intros D k. by rewrite H3, determines_app.
Qed.

(** ** Examples *)
Definition fd_column (i : N) : expr := PqpColumn i kInt false EmptyString.
Definition fd_example : FunctionalDependency := mkFunctionalDependency [fd_column 0] [fd_column 1; fd_column 2].
Definition fd_example' : FunctionalDependency := mkFunctionalDependency [fd_column 0] [fd_column 3; fd_column 1].

Lemma fd_columns_wf l : NoDup l → wf_set (fd_column <$> l).
Proof.
  intros Hl. split; [|by apply Forall_fmap, Forall_true].
  unfold keys. rewrite <- list_fmap_compose. apply NoDup_fmap_2; [|done]. by intros i j [= ->].
Qed.

Lemma fd_example_wf : wf_fd fd_example ∧ wf_fd fd_example'.
Proof.
  split; (split; [apply (fd_columns_wf [0%N])|first [apply (fd_columns_wf [1; 2]%N)|apply (fd_columns_wf [3; 1]%N)]|done]);
    by apply (bool_decide_unpack _).
Qed.

Lemma FunctionalDependency_equality_inverted_witness :
  InflateFunctionalDependencies [fd_example] = [mkFunctionalDependency [fd_column 0] [fd_column 1]] ∧
  IntersectFunctionalDependencies id [fd_example; fd_example'] [fd_example; fd_example'] = [].
Proof.
  destruct (FunctionalDependency_equality_inverted fd_example [fd_example; fd_example'] id) as (_ & H1 & H2);
    [apply fd_example_wf|repeat (apply Forall_cons_2; [apply fd_example_wf|]); apply Forall_nil_2|done|]. by split.
Defined.

Lemma UnionFunctionalDependencies_correct_witness :
  ∃ r, UnionFunctionalDependencies false [fd_example] [fd_example'] = Ok r ∧
    determines r [fd_column 0] (fd_column 3) ∧ deflated r.
Proof.
  destruct (UnionFunctionalDependencies_correct [fd_example] [fd_example']) as (r & H1 & _ & H2 & H3);
    [apply Forall_cons_2; [apply fd_example_wf|apply Forall_nil_2]..|]. exists r. split; [exact H1|]. split; [|by apply H3].
  apply H2. right. exists fd_example'. split; [by left|]. split; [done|by left].
Defined.
