(* ===== verification/IoBuffers.v ===== *)
(** * Buffers for input

    [storage/io_handle/byte_buffer.cpp]: bytes that live in external memory as long as they
    fit.  [storage/io_handle/object_buffer.cpp]: the parts of an object that have been read,
    addressed by the positions in the object.  Bytes are characters; sizes and offsets are
    far below 2^64 and do not wrap. *)

From Stdlib Require Import Ascii.
From S2P Require Export Storage.

Abbreviation bytes := (list ascii).
Definition zero_byte : ascii := "000"%char.

(** [std::copy_n] of [src] to the position [pos] of [l]. *)
Definition splice (pos : nat) (src l : bytes) : bytes := take pos l ++ src ++ drop (pos + length src) l.

(** The bytes of [l] in the half-open range. *)
Definition slice (l : bytes) (first second : nat) : bytes := take (second - first) (drop first l).

Lemma lookup_splice pos src l i :
  (pos + length src <= length l)%nat →
  splice pos src l !! i =
    if decide (pos <= i < pos + length src)%nat then src !! (i - pos)%nat else l !! i.
Proof.
  intros Hl. unfold splice. case_decide as Hi.
  - rewrite lookup_app_r, lookup_app_l; rewrite ?length_take; [|lia..]. f_equal. lia.
  - destruct (decide (i < pos)%nat).
    + rewrite lookup_app_l by (rewrite length_take; lia). by rewrite lookup_take_lt by lia.
    + rewrite lookup_app_r by (rewrite length_take; lia). rewrite length_take, lookup_app_r by lia.
      rewrite lookup_drop. f_equal. lia.
Qed.

Lemma length_splice pos src l : (pos + length src <= length l)%nat → length (splice pos src l) = length l.
Proof. intros H. unfold splice. rewrite !length_app, length_take, length_drop. lia. Qed.

Lemma lookup_slice l a b i : (b <= length l)%nat → (i < b - a)%nat → slice l a b !! i = l !! (a + i)%nat.
Proof. intros Hb Hi. unfold slice. by rewrite lookup_take_lt, lookup_drop by lia. Qed.

Lemma length_slice l a b : (b <= length l)%nat → length (slice l a b) = (b - a)%nat.
Proof. intros Hb. unfold slice. rewrite length_take, length_drop. lia. Qed.

(** ** Byte buffers *)
(** [external_data_] with its capacity: the wrapped memory. *)
Record ByteBuffer : Type := mkByteBuffer {
  external_data_ : option bytes;
  external_data_size_ : nat;
  internal_data_ : option bytes }.

(** The two constructors; a capacity is reserved without being visible. *)
Definition ByteBuffer_reserve : ByteBuffer := mkByteBuffer None 0 (Some []).
Definition ByteBuffer_wrap (memory : bytes) : ByteBuffer := mkByteBuffer (Some memory) (length memory) None.

Definition external_data_capacity_ (b : ByteBuffer) : nat := from_option length 0%nat (external_data_ b).

Definition Data (b : ByteBuffer) : bytes :=
  match internal_data_ b with Some d => d | None => take (external_data_size_ b) (from_option id [] (external_data_ b)) end.
Definition Size (b : ByteBuffer) : nat :=
  match internal_data_ b with Some d => length d | None => external_data_size_ b end.

(** Reading more than the internal data from [data()] is out of bounds. *)
Definition UseExternalDataAgain (internal memory : bytes) (new_size : nat) : result ByteBuffer :=
  _ ← assert_ (new_size <=? length internal)%nat UndefinedBehaviour;
  Ok (mkByteBuffer (Some (splice 0 (take new_size internal) memory)) new_size None).

Definition Resize (b : ByteBuffer) (new_size : nat) : result ByteBuffer :=
  match internal_data_ b with
  | Some d =>
      match external_data_ b with
      | Some memory =>
          if (new_size <=? length memory)%nat then UseExternalDataAgain d memory new_size
          else Ok (mkByteBuffer (external_data_ b) (external_data_size_ b) (Some (resize zero_byte new_size d)))
      | None => Ok (mkByteBuffer None (external_data_size_ b) (Some (resize zero_byte new_size d)))
      end
  | None =>
      if (external_data_capacity_ b <? new_size)%nat
      then Ok (mkByteBuffer (external_data_ b) (external_data_size_ b) (Some (splice 0 (Data b) (replicate new_size zero_byte))))
      else Ok (mkByteBuffer (external_data_ b) new_size None)
  end.

(** The data is internal exactly when it does not fit in the wrapped memory. *)
Definition wf_buffer (b : ByteBuffer) : Prop :=
  match internal_data_ b with
  | Some d => ∀ memory, external_data_ b = Some memory → (length memory < length d)%nat
  | None => is_Some (external_data_ b) ∧ (external_data_size_ b <= external_data_capacity_ b)%nat
  end.

Lemma ByteBuffer_reserve_wf : wf_buffer ByteBuffer_reserve.
Proof. by intros m. Qed.
Lemma ByteBuffer_wrap_wf memory : wf_buffer (ByteBuffer_wrap memory).
Proof. split; [by eexists|]. cbn. lia. Qed.

Lemma wf_Size b : wf_buffer b → Size b = length (Data b).
Proof.
  unfold wf_buffer, Size, Data, external_data_capacity_. destruct (internal_data_ b); [done|].
  intros [[m ->] H]. cbn in *. rewrite length_take. lia.
Qed.

Lemma take_resize {A} (z : A) n d : take (length d) (resize z n d) = take n d.
Proof.
  unfold resize. destruct (decide (n <= length d)%nat).
  - replace (n - length d)%nat with 0%nat by lia. cbn. rewrite app_nil_r, take_take. f_equal. lia.
  - rewrite (take_ge d n) by lia. by rewrite take_app_length.
Qed.

Lemma length_resized {A} (z : A) n d : length (resize z n d) = n.
Proof. unfold resize. rewrite length_app, length_take, length_replicate. lia. Qed.

Lemma splice_prefix src l : (length src <= length l)%nat → take (length src) (splice 0 src l) = src.
Proof. intros _. unfold splice. change (take 0 l) with (@nil ascii). cbn [app]. apply take_app_length. Qed.

(** (byte_buffer.cpp) Resizing a byte buffer never reads out of bounds, keeps the data in
    the wrapped memory exactly as long as it fits, gives the buffer the requested size and
    keeps the bytes up to the smaller of the two sizes; wrapped memory that data returns to
    after having outgrown it gets the current bytes. *)
Theorem Resize_spec b n :
  wf_buffer b →
  ∃ b', Resize b n = Ok b' ∧ wf_buffer b' ∧ Size b' = n ∧ length (Data b') = n ∧
    take (Size b) (Data b') = take n (Data b).
Proof.
  intros Hw. enough (∃ b', Resize b n = Ok b' ∧ wf_buffer b' ∧ Size b' = n ∧ take (Size b) (Data b') = take n (Data b))
    as (b' & H & Hw' & Hs & Hd) by (exists b'; rewrite <- (wf_Size b' Hw'); auto).
  destruct b as [[m|] es [d|]]; unfold wf_buffer, Resize, UseExternalDataAgain in *;
    cbn [internal_data_ external_data_ external_data_size_ external_data_capacity_ from_option Size] in *.
  - specialize (Hw m eq_refl). destruct (Nat.leb_spec n (length m)) as [Hn|Hn].
    + replace (n <=? length d)%nat with true by (symmetry; apply Nat.leb_le; lia). eexists. split; [done|].
      assert (length (take n d) = n) as Hl by (rewrite length_take; lia). unfold Data, external_data_capacity_. cbn.
      rewrite length_splice by lia. split; [split; [by eexists|lia]|]. split; [done|].
      pose proof (splice_prefix (take n d) m) as Hp. rewrite Hl in Hp. rewrite Hp by lia. rewrite take_take. f_equal. lia.
    + eexists. split; [done|]. unfold Data. cbn. rewrite length_resized. split; [intros ? [= <-]; lia|]. split; [done|].
      apply take_resize.
  - destruct Hw as [_ Hw]. unfold external_data_capacity_, Data in *. cbn [external_data_ from_option internal_data_ external_data_size_ id] in *.
    destruct (Nat.ltb_spec (length m) n) as [Hn|Hn]; (eexists; split; [done|]); cbn.
    + assert (length (take es m) = es) as Hl by (rewrite length_take; lia).
      rewrite length_splice, length_replicate by (rewrite length_replicate; lia). split; [intros ? [= <-]; lia|]. split; [done|].
      pose proof (splice_prefix (take es m) (replicate n zero_byte)) as Hp. rewrite Hl, length_replicate in Hp. rewrite Hp by lia.
      rewrite take_take. f_equal. lia.
    + split; [split; [by eexists|lia]|]. split; [done|]. rewrite !take_take. f_equal. lia.
  - eexists. split; [done|]. unfold Data. cbn. rewrite length_resized. split; [by intros ? [=]|]. split; [done|]. apply take_resize.
  - by destruct Hw as [[? [=]] _].
Qed.

Lemma Resize_spec_witness :
  ∃ b b', Resize (ByteBuffer_wrap ["a"; "b"]%char) 3 = Ok b ∧ Resize b 1 = Ok b' ∧ wf_buffer b' ∧
    external_data_ b' = Some ["a"; "b"]%char ∧ take 1 (Data b') = ["a"%char].
Proof.
  destruct (Resize_spec (ByteBuffer_wrap ["a"; "b"]%char) 3 (ByteBuffer_wrap_wf _)) as (b & H & Hw & _).
  destruct (Resize_spec b 1 Hw) as (b' & H' & Hw' & _). exists b, b'. split; [exact H|]. split; [exact H'|]. split; [exact Hw'|].
  vm_compute in H. injection H as <-. vm_compute in H'. injection H' as <-. by split.
Defined.

(** ** Object buffers *)
Abbreviation Range := (nat * nat)%type.

(** [std::map<Range, ...>]: in ascending order of the ranges. *)
Abbreviation RequestBuffer := (list (Range * bytes)).

Definition range_lt (a b : Range) : bool := (a.1 <? b.1)%nat || ((a.1 =? b.1)%nat && (a.2 <? b.2)%nat).

(** [emplace]: a range that exists already keeps its buffer. *)
Fixpoint AddBuffer (buffer : Range * bytes) (request_buffer_ : RequestBuffer) : RequestBuffer :=
  match request_buffer_ with
  | [] => [buffer]
  | b :: bs => if range_lt buffer.1 b.1 then buffer :: b :: bs
               else if range_lt b.1 buffer.1 then b :: AddBuffer buffer bs else b :: bs
  end.

Fixpoint merge_loop (offset capacity end_offset : nat) (buffers : RequestBuffer) (result_buffer : bytes) : result bytes :=
  match buffers with
  | [] => Ok result_buffer
  | ((first, second), buffer) :: buffers =>
      _ ← assert_ (length buffer =? second - first)%nat AssertionFailed;
      _ ← assert_ (second <=? end_offset)%nat AssertionFailed;
      let start_offset := if (first <? offset)%nat then (offset - first)%nat else 0%nat in
      _ ← assert_ (start_offset <? length buffer)%nat AssertionFailed;
      let write_position := if (first <? offset)%nat then 0%nat else (first - offset)%nat in
      let bytes_to_write := Nat.min (length buffer - start_offset) (capacity - write_position) in
      _ ← assert_ (write_position + bytes_to_write <=? capacity)%nat AssertionFailed;
      _ ← assert_ (start_offset + bytes_to_write <=? length buffer)%nat AssertionFailed;
      merge_loop offset capacity end_offset buffers
        (splice write_position (take bytes_to_write (drop start_offset buffer)) result_buffer)
  end.

Definition MergeBuffers (buffers_to_merge : RequestBuffer) (offset n_bytes : nat) : result bytes :=
  match buffers_to_merge with
  | [] => Ok []
  | b :: _ =>
      _ ← assert_ (b.1.1 <=? offset)%nat AssertionFailed;
      let end_offset := foldr (λ b, Nat.max b.1.2) 0%nat buffers_to_merge in
      _ ← assert_ (offset <=? end_offset)%nat AssertionFailed;
      let capacity := Nat.min n_bytes (end_offset - offset) in
      merge_loop offset capacity end_offset buffers_to_merge (replicate capacity zero_byte)
  end.

(** The loop of [Read]; a request within one buffer is served by a view of it. *)
Fixpoint read_loop (offset n_bytes : nat) (request_buffer_ merge_buffers : RequestBuffer) : result bytes :=
  match request_buffer_ with
  | [] => MergeBuffers merge_buffers offset n_bytes
  | ((first, second), buffer) :: rest =>
      if (first <=? offset)%nat then
        if (offset + n_bytes <=? second)%nat then
          _ ← assert_ (offset + n_bytes - first <=? length buffer)%nat UndefinedBehaviour;
          Ok (take n_bytes (drop (offset - first) buffer))
        else if (offset <? second)%nat
        then read_loop offset n_bytes rest (merge_buffers ++ [((first, second), buffer)])
        else read_loop offset n_bytes rest merge_buffers
      else if negb (bool_decide (merge_buffers = [])) && negb (offset + n_bytes <=? first)%nat
      then read_loop offset n_bytes rest (merge_buffers ++ [((first, second), buffer)])
      else read_loop offset n_bytes rest merge_buffers
  end.

Definition Read (request_buffer_ : RequestBuffer) (offset n_bytes : nat) : result bytes :=
  read_loop offset n_bytes request_buffer_ [].

(** ** The buffers of an object *)
Section Object.
Variable object : bytes.

(** Disjoint parts of the object in ascending order, from [a] on. *)
Inductive parts : nat → RequestBuffer → Prop :=
  | parts_nil a : parts a []
  | parts_cons a first second bs :
      (a <= first)%nat → (first < second)%nat → (second <= length object)%nat → parts second bs →
      parts a (((first, second), slice object first second) :: bs).

(** Parts without a gap from [a] to [e]. *)
Inductive contiguous : nat → RequestBuffer → nat → Prop :=
  | contiguous_nil a : contiguous a [] a
  | contiguous_cons a b e bs :
      (a < b)%nat → (b <= length object)%nat → contiguous b bs e →
      contiguous a (((a, b), slice object a b) :: bs) e.

Definition covers (b : Range * bytes) (i : nat) : Prop := (b.1.1 <= i < b.1.2)%nat.
#[export] Instance covers_dec b i : Decision (covers b i).
Proof. unfold covers. apply _. Defined.

(** What a merged buffer holds at position [i] of the object. *)
Definition byte_at (bs : RequestBuffer) (i : nat) : option ascii :=
  if decide (Exists (λ b, covers b i) bs) then object !! i else Some zero_byte.

Definition end_of (bs : RequestBuffer) : nat := foldr (λ b, Nat.max b.1.2) 0%nat bs.

Lemma parts_weaken a b bs : (b <= a)%nat → parts a bs → parts b bs.
Proof. intros Hab H. destruct H; constructor; try done; lia. Qed.

Lemma merge_loop_spec offset capacity end_offset bs done_ res :
  parts offset bs ∨ (∃ first second bs', bs = ((first, second), slice object first second) :: bs' ∧ (first <= offset < second)%nat ∧
     (second <= length object)%nat ∧ parts second bs') →
  (∀ b, b ∈ bs → (b.1.1 <= offset + capacity)%nat ∧ (b.1.2 <= end_offset)%nat) →
  length res = capacity → (∀ i, (i < capacity)%nat → res !! i = byte_at done_ (offset + i)) →
  ∃ r, merge_loop offset capacity end_offset bs res = Ok r ∧ length r = capacity ∧
    ∀ i, (i < capacity)%nat → r !! i = byte_at (done_ ++ bs) (offset + i).
Proof.
  revert done_ res. induction bs as [|[[first second] buffer] bs IH]; intros done_ res Hp Hin Hl Hres.
  - exists res. cbn. by rewrite app_nil_r.
  - assert (parts offset bs ∧ buffer = slice object first second ∧ (first < second)%nat ∧ (offset < second)%nat ∧
      (second <= length object)%nat) as (Hbs & -> & Hfs & Hos & Hso).
    { destruct Hp as [Hp|(f & s & bs' & [= <- <- -> <-] & ? & ? & Hbs')].
      - inversion Hp; subst. split; [eapply parts_weaken; [|done]; lia|]. repeat split; try done; lia.
      - split; [eapply parts_weaken; [|done]; lia|]. repeat split; try done; lia. }
    destruct (Hin _ (list_elem_of_here _ _)) as [Hf He]. cbn in Hf, He. cbn [merge_loop]. rewrite length_slice by done.
    rewrite Nat.eqb_refl. rewrite (proj2 (Nat.leb_le second end_offset) He). cbn [assert_ rbind].
    set (start := if (first <? offset)%nat then _ else _). set (pos := if (first <? offset)%nat then _ else _).
    assert (first + start = offset + pos ∧ start < second - first ∧ pos <= capacity ∧ (start = 0 ∨ pos = 0))%nat as (Hsp & Hstart & Hpos & Hz)
      by (subst start pos; destruct (Nat.ltb_spec first offset); lia).
    rewrite (proj2 (Nat.ltb_lt _ _) Hstart). set (n := Nat.min _ _).
    assert (pos + n <= capacity ∧ start + n <= second - first ∧ (n = second - first - start ∨ n = capacity - pos))%nat as (H1 & H2 & H3)
      by (subst n; lia).
    clearbody n start pos. rewrite (proj2 (Nat.leb_le _ _) H1), (proj2 (Nat.leb_le _ _) H2). cbn [assert_ rbind].
    assert (length (take n (drop start (slice object first second))) = n) as Hlen
      by (rewrite length_take, length_drop, length_slice by done; lia).
    destruct (IH (done_ ++ [((first, second), slice object first second)])
      (splice pos (take n (drop start (slice object first second))) res)) as (r & -> & Hr & Hb).
    + by left.
    + intros b Hb. apply Hin. by right.
    + rewrite length_splice; lia.
    + intros i Hi. rewrite lookup_splice by lia. rewrite Hlen. unfold byte_at.
      case_decide as Hr.
      * rewrite lookup_take_lt, lookup_drop, lookup_slice by (done || lia).
        rewrite decide_True by (apply Exists_app; right; left; unfold covers; cbn; lia). f_equal. lia.
      * rewrite Hres by done. unfold byte_at. f_equal. apply decide_ext. rewrite Exists_app, Exists_cons, Exists_nil. unfold covers at 3. cbn.
        intuition lia.
    + exists r. split; [done|]. split; [done|]. intros i Hi. rewrite Hb by done. by rewrite <- app_assoc.
Qed.

Lemma parts_in a bs b :
  parts a bs → b ∈ bs → (a <= b.1.1 < b.1.2)%nat ∧ (b.1.2 <= length object)%nat ∧ b.2 = slice object b.1.1 b.1.2.
Proof.
  induction 1 as [|a first second bs ? ? ? ? IH]; intros Hb; [by apply elem_of_nil in Hb|].
  apply elem_of_cons in Hb as [->|Hb]; [done|]. destruct (IH Hb) as (? & ? & ?). repeat split; try done; lia.
Qed.

Lemma end_of_cons b bs : end_of (b :: bs) = Nat.max b.1.2 (end_of bs).
Proof. reflexivity. Qed.

Lemma end_of_in bs b : b ∈ bs → (b.1.2 <= end_of bs)%nat.
Proof. induction bs as [|c bs IH]; [by intros Hb%elem_of_nil|]. rewrite end_of_cons. intros [->|Hb]%elem_of_cons; [lia|]. specialize (IH Hb). lia. Qed.

Definition starts_before (position : nat) (b : Range * bytes) : Prop := (b.1.1 < position)%nat.
#[export] Instance starts_before_dec position b : Decision (starts_before position b).
Proof. unfold starts_before. apply _. Defined.

Lemma read_loop_merge offset n a bs acc :
  (offset < a)%nat → parts a bs → acc ≠ [] →
  read_loop offset n bs acc = MergeBuffers (acc ++ filter (starts_before (offset + n)) bs) offset n.
Proof.
  intros Ha Hp. revert acc. induction Hp as [|a first second bs ? ? ? _ IH]; intros acc Hacc; cbn [read_loop].
  - by rewrite filter_nil, app_nil_r.
  - rewrite (proj2 (Nat.leb_gt first offset)) by lia. rewrite bool_decide_false by done. cbn [negb andb].
    rewrite filter_cons. destruct (Nat.leb_spec (offset + n) first); cbn [negb].
    + rewrite decide_False by (unfold starts_before; cbn; lia). apply IH; [lia|done].
    + rewrite decide_True by (unfold starts_before; cbn; lia). rewrite IH; [|lia|by destruct acc]. by rewrite <- app_assoc.
Qed.

(** A request that no single part serves. *)
Lemma merge_from offset n first second bs :
  (first <= offset < second)%nat → (second <= length object)%nat → parts second bs →
  let part := ((first, second), slice object first second) in
  let merged := part :: filter (starts_before (offset + n)) bs in
  ∃ r, MergeBuffers merged offset n = Ok r ∧ length r = Nat.min n (end_of merged - offset) ∧
    ∀ i, (i < length r)%nat → r !! i = byte_at (part :: bs) (offset + i).
Proof.
  intros Hf Hs Hp part merged. unfold MergeBuffers. subst merged. cbn [part fst snd].
  rewrite (proj2 (Nat.leb_le first offset)) by lia. cbn [assert_ rbind].
  set (merged := part :: filter _ bs). fold (end_of merged).
  assert (second <= end_of merged)%nat as He by (apply (end_of_in merged part); by left).
  rewrite (proj2 (Nat.leb_le offset (end_of merged))) by lia. cbn [assert_ rbind].
  set (capacity := Nat.min n (end_of merged - offset)).
  assert (∀ b, b ∈ filter (starts_before (offset + n)) bs → b ∈ bs ∧ (b.1.1 < offset + n)%nat) as Hfilter.
  { intros b [Hb Hin]%list_elem_of_filter. done. }
  assert (parts second (filter (starts_before (offset + n)) bs)) as Hpf.
  { clear -Hp. induction Hp as [|a f s bs H1 H2 H3 Hp IH]; [constructor|]. rewrite filter_cons. case_decide; [by constructor|].
    eapply parts_weaken; [|exact IH]. lia. }
  destruct (merge_loop_spec offset capacity (end_of merged) merged [] (replicate capacity zero_byte)) as (r & Hm & Hl & Hr).
  - right. by exists first, second, (filter (starts_before (offset + n)) bs).
  - intros b [-> |Hb]%elem_of_cons.
    + cbn. lia.
    + destruct (Hfilter b Hb) as [Hin Hlt]. destruct (parts_in second bs b Hp Hin) as (? & ? & _).
      assert (b.1.2 <= end_of merged)%nat by (apply end_of_in; by right). split; [|done]. subst capacity. lia.
  - apply length_replicate.
  - intros i Hi. rewrite lookup_replicate_2 by done. unfold byte_at. rewrite decide_False; [done|]. by intros Hn%Exists_nil.
  - exists r. split; [exact Hm|]. split; [done|]. intros i Hi. rewrite Hl in Hi. rewrite Hr by done. cbn [app]. unfold byte_at.
    f_equal. apply decide_ext. subst merged. rewrite !Exists_cons, !Exists_exists. split.
    + intros [H|(b & [Hb _]%Hfilter & H)]; [by left|right; by exists b].
    + intros [H|(b & Hb & H)]; [by left|]. right. exists b. split; [|done]. apply list_elem_of_filter. split; [|done].
      unfold starts_before. unfold covers in H. lia.
Qed.

(** Every request for bytes is answered with the bytes of the object that have been read. *)
Lemma Read_parts a bs offset n :
  parts a bs →
  ∃ r, Read bs offset n = Ok r ∧
    length r = (if decide (Exists (λ b, covers b offset) bs)
                then Nat.min n (end_of (filter (starts_before (offset + n)) bs) - offset) else 0%nat) ∧
    ∀ i, (i < length r)%nat → r !! i = byte_at bs (offset + i).
Proof.
  unfold Read. induction 1 as [a|a first second bs Ha Hfs Hs Hp IH].
  { exists []. split; [done|]. rewrite decide_False by (by intros Hn%Exists_nil). split; [done|]. cbn. lia. }
  cbn [read_loop].
  set (part := ((first, second), slice object first second)).
  assert (∀ b, b ∈ bs → (second <= b.1.1 < b.1.2)%nat) as Hrest by (intros b Hb; exact (proj1 (parts_in second bs b Hp Hb))).
  assert ((second <= offset ∨ offset < first)%nat → ∃ r, read_loop offset n bs [] = Ok r ∧
    length r = (if decide (Exists (λ b, covers b offset) (part :: bs))
                then Nat.min n (end_of (filter (starts_before (offset + n)) (part :: bs)) - offset) else 0%nat) ∧
    ∀ i, (i < length r)%nat → r !! i = byte_at (part :: bs) (offset + i)) as Hskip.
  { intros Hout. destruct IH as (r & Hr & Hl & Hb). exists r. split; [done|]. split.
    - rewrite Hl. destruct (decide (Exists _ bs)) as [He|He].
      + rewrite decide_True by (apply Exists_cons; by right). rewrite filter_cons. case_decide; [|done].
        rewrite end_of_cons. cbn [part fst snd]. apply Exists_exists in He as (b & Hb' & Hc). specialize (Hrest b Hb').
        unfold covers in Hc. lia.
      + rewrite decide_False; [done|]. intros [Hc|Hc]%Exists_cons; [unfold covers in Hc; cbn in Hc; lia|done].
    - intros i Hi. rewrite Hb by done. unfold byte_at. f_equal. apply decide_ext. rewrite Exists_cons.
      split; [by right|]. intros [Hc|Hc]; [|done]. unfold covers in Hc. cbn in Hc. destruct Hout as [|Hout]; [lia|].
      rewrite Hl in Hi. case_decide as He; [|lia]. apply Exists_exists in He as (b & Hb' & Hcb). specialize (Hrest b Hb').
      unfold covers in Hcb. lia. }
  destruct (Nat.leb_spec first offset) as [Hf|Hf]; [|by apply Hskip; right].
  destruct (Nat.leb_spec (offset + n) second) as [Hn|Hn].
  - rewrite length_slice by done. rewrite (proj2 (Nat.leb_le (offset + n - first) (second - first))) by lia. cbn [assert_ rbind].
    eexists. split; [done|]. assert (length (take n (drop (offset - first) (slice object first second))) = n) as Hl
      by (rewrite length_take, length_drop, length_slice by done; lia). rewrite Hl. split.
    + destruct (decide (n = 0)%nat) as [->|Hn0]; [by case_decide|].
      rewrite decide_True by (left; unfold covers; cbn; lia). rewrite filter_cons, decide_True by (unfold starts_before; cbn; lia).
      rewrite end_of_cons. cbn [part fst snd]. lia.
    + intros i Hi. rewrite lookup_take_lt, lookup_drop, lookup_slice by (done || lia). unfold byte_at.
      rewrite decide_True by (left; unfold covers; cbn; lia). f_equal. lia.
  - destruct (Nat.ltb_spec offset second) as [Hos|Hos]; [|apply Hskip; by left]. cbn [app].
    rewrite (read_loop_merge offset n second) by done. destruct (merge_from offset n first second bs) as (r & Hm & Hl & Hr); [lia|done|done|].
    exists r. split; [exact Hm|]. split; [|exact Hr]. rewrite Hl, decide_True by (left; unfold covers; cbn; lia).
    by rewrite filter_cons, decide_True by (unfold starts_before; cbn; lia).
Qed.

(** ** Parts without gaps *)
Lemma contiguous_parts a bs e : contiguous a bs e → parts a bs ∧ (a <= e)%nat ∧ (bs = [] ∧ a = e ∨ end_of bs = e) ∧
  ∀ i, (a <= i < e)%nat ↔ Exists (λ b, covers b i) bs.
Proof.
  induction 1 as [a|a b e bs Hab Hb _ (IHp & IHe & IHl & IHc)].
  - split; [constructor|]. split; [done|]. split; [by left|]. intros i. rewrite Exists_nil. lia.
  - split; [by constructor|]. split; [lia|]. split.
    + right. rewrite end_of_cons. cbn. destruct IHl as [[-> ->]|]; cbn; lia.
    + intros i. rewrite Exists_cons, <- IHc. unfold covers. cbn. lia.
Qed.

(** The end of the parts before a position beyond the first: that position is reached. *)
Lemma contiguous_end a bs e p : contiguous a bs e → (a < p)%nat →
  (Nat.min p e <= end_of (filter (starts_before p) bs) <= e ∨ bs = [])%nat.
Proof.
  induction 1 as [a|a b e bs Hab Hb Hc IH]; [by right|]. intros Hp. left. destruct (contiguous_parts b bs e Hc) as (_ & He & _).
  rewrite filter_cons, decide_True by (unfold starts_before; cbn; lia). rewrite end_of_cons. cbn.
  destruct (decide (b < p)%nat) as [Hbp|Hbp].
  - destruct (IH Hbp) as [| ->]; [lia|]. inversion Hc; subst. cbn. lia.
  - assert (filter (starts_before p) bs = []) as ->; [|cbn; lia].
    destruct (contiguous_parts b bs e Hc) as (Hparts & _). clear -Hparts Hbp.
    induction Hparts as [|a f s bs H1 H2 H3 Hp IH]; [done|]. rewrite filter_cons, decide_False by (unfold starts_before; cbn; lia).
    apply IH. lia.
Qed.

Lemma Read_contiguous a bs e offset n :
  contiguous a bs e → (a <= offset)%nat → Read bs offset n = Ok (slice object offset (Nat.min (offset + n) e)).
Proof.
  intros Hc Ha. destruct (contiguous_parts a bs e Hc) as (Hp & Hae & Hend & Hcov).
  destruct (Read_parts a bs offset n Hp) as (r & -> & Hl & Hr). f_equal.
  assert (e <= length object ∨ bs = [])%nat as He.
  { destruct Hend as [[-> _]|He]; [by right|]. left. clear -Hp He. revert e He.
    induction Hp as [|a f s bs H1 H2 H3 Hp IH]; intros e; [cbn; lia|]. rewrite end_of_cons. cbn [fst snd]. specialize (IH _ eq_refl). lia. }
  assert (length r = Nat.min (offset + n) e - offset)%nat as Hlen.
  { rewrite Hl. destruct (decide (Exists _ bs)) as [Hx|Hx].
    - apply Hcov in Hx. destruct (decide (n = 0)%nat) as [->|]; [lia|].
      destruct (contiguous_end a bs e (offset + n) Hc) as [|Hb]; [lia|lia|]. subst bs. inversion Hc; subst. lia.
    - rewrite <- Hcov in Hx. lia. }
  apply list_eq. intros i. destruct (decide (i < length r)%nat) as [Hi|Hi].
  - rewrite Hr by done. unfold byte_at. rewrite decide_True by (apply Hcov; lia).
    destruct He as [He| ->]; [|inversion Hc; subst; lia]. rewrite lookup_slice by lia. done.
  - rewrite !lookup_ge_None_2; [done| |lia]. unfold slice. rewrite length_take, length_drop. lia.
Qed.
End Object.

(** (object_buffer.cpp) Reading from an object buffer whose parts are disjoint never fails
    an assertion.  A request that starts in a part is answered with the bytes of the object,
    and zeros in the gaps, up to the requested size or the end of the last part that the
    request reaches; any other request is answered with nothing.  If the parts have no gap,
    the answer is the requested slice of what has been read. *)
Theorem ObjectBuffer_Read_correct (object : bytes) (bs : RequestBuffer) (offset n : nat) :
  parts object 0 bs →
  (∃ r, Read bs offset n = Ok r ∧
    length r = (if decide (Exists (λ b, covers b offset) bs)
                then Nat.min n (end_of (filter (starts_before (offset + n)) bs) - offset) else 0%nat) ∧
    ∀ i, (i < length r)%nat → r !! i = byte_at object bs (offset + i)) ∧
  (∀ a e, contiguous object a bs e → (a <= offset)%nat → Read bs offset n = Ok (slice object offset (Nat.min (offset + n) e))).
Proof. intros Hp. split; [by apply (Read_parts object 0)|]. intros a e Hc Ha. by apply (Read_contiguous object a). Qed.

Lemma ObjectBuffer_Read_correct_witness :
  ∃ r, Read [((0, 2), ["a"; "b"]%char); ((3, 5), ["d"; "e"]%char)]%nat 1 3 = Ok r ∧ r = ["b"%char; zero_byte; "d"%char].
Proof.
  destruct (ObjectBuffer_Read_correct ["a"; "b"; "c"; "d"; "e"]%char [((0, 2), ["a"; "b"]%char); ((3, 5), ["d"; "e"]%char)]%nat 1 3)
    as [(r & H & _) _].
  - set (object := ["a"; "b"; "c"; "d"; "e"]%char).
    apply (parts_cons object 0 0 2 [((3, 5)%nat, slice object 3 5)]); [lia|lia|cbn; lia|].
    apply (parts_cons object 2 3 5 []); [lia|lia|cbn; lia|constructor].
  - exists r. split; [exact H|]. vm_compute in H. by injection H as <-.
Defined.
