(* ===== verification/ChunkReader.v ===== *)
(** * Chunk readers

    The interface of [storage/formats/abstract_chunk_reader.hpp]: a reader of a file format
    delivers the chunks of one object.  The CSV reader is an instance; the import operator is
    written against the interface. *)

From S2P Require Export IoBuffers Relations.

(** [StorageErrorType] of [backend/errors.hpp]; the messages are left out. *)
Inductive StorageErrorType : Set :=
  | kNoError | kAlreadyExist | kNotFound | kNotReady | kInternalError | kInvalidArgument | kInvalidState | kIOError
  | kOperationNotSupported | kPermissionDenied | kTemporary | kUninitialized | kUnknown.
#[export] Instance StorageErrorType_eq_dec : EqDecision StorageErrorType.
Proof. solve_decision. Defined.

Definition IsError (e : StorageErrorType) : bool := negb (bool_decide (e = kNoError)).

(** A reader object: [Next] changes it and returns null when it sets an error. *)
Class ChunkReader (R : Type) : Type := {
  HasNext : R → bool;
  Next : R → result (option Chunk * R);
  GetError : R → StorageErrorType;
  GetSchema : R → option TableColumnDefinitions }.

Definition HasError {R} `{ChunkReader R} (r : R) : bool := IsError (GetError r).

(** Everything that a reader delivers, until it has no more or fails. *)
Fixpoint drain {R} `{ChunkReader R} (fuel : nat) (r : R) : result (list Chunk * R) :=
  match fuel with
  | O => Err OutOfFuel
  | S fuel =>
      if HasNext r then
        '(chunk, r) ← Next r;
        match chunk with
        | Some chunk => '(chunks, r) ← drain fuel r; Ok (chunk :: chunks, r)
        | None => Ok ([], r)
        end
      else Ok ([], r)
  end.
