(* ===== verification/CsvReader.v ===== *)
(** * The CSV reader

    [storage/formats/csv_reader.cpp]: an object is consumed in buffers that end with a line;
    the lines of a buffer become the columns of a chunk.  The options are those of
    [OperatorProxy].  [convert] is [boost::convert] with the strtol backend. *)

From Stdlib Require Import Ascii.
From stdpp Require Import pretty.
From S2P Require Export OperatorProxy ChunkReader.

Local Open Scope string_scope.

Definition newline : ascii := "010"%char.

(** ** Splitting *)
(** [find] the delimiter: the text before it and, unless it is missing, the text after it. *)
Fixpoint break_at (delimiter : ascii) (data : bytes) : bytes * option bytes :=
  match data with
  | [] => ([], None)
  | c :: data =>
      if decide (c = delimiter) then ([], Some data)
      else let '(token, rest) := break_at delimiter data in (c :: token, rest)
  end.

(** The do-while loop; every round consumes a delimiter. *)
Fixpoint split_loop (fuel : nat) (delimiter : ascii) (max_split_elements counter : nat) (data : bytes) : list bytes :=
  match fuel with
  | O => []
  | S fuel =>
      let '(token, rest) := break_at delimiter data in
      let counter := S counter in
      token :: match rest with
               | Some rest =>
                   if (max_split_elements =? 0)%nat || (counter <? max_split_elements)%nat
                   then split_loop fuel delimiter max_split_elements counter rest else []
               | None => []
               end
  end.

Definition Split (data : bytes) (delimiter : ascii) (max_split_elements : nat) : list bytes :=
  split_loop (S (length data)) delimiter max_split_elements 0 data.

(** ** Columns *)
Abbreviation Lines := (list bytes).
Abbreviation Columns := (list (list bytes)).

(** A token goes to the column with its number; the columns grow by one. *)
Fixpoint add_line (columns : Columns) (tokens : list bytes) : Columns :=
  match tokens, columns with
  | [], _ => columns
  | token :: tokens, [] => [token] :: add_line [] tokens
  | token :: tokens, column :: columns => (column ++ [token])%list :: add_line columns tokens
  end.

Definition ExtractColumns (buffer : bytes) (delimiter : ascii) : Columns :=
  foldl (λ columns line, if bool_decide (line = []) then columns else add_line columns (Split line delimiter 0))
    [] (Split buffer newline 0).

(** ** Guessing *)
Definition kPossibleDelimiters : list ascii := ["|"; ";"; ","; "009"; " "]%char.

(** [std::isalpha] in the C locale. *)
Definition isalpha (c : ascii) : bool :=
  let n := nat_of_ascii c in ((65 <=? n)%nat && (n <=? 90)%nat) || ((97 <=? n)%nat && (n <=? 122)%nat).

Definition starts_alpha (s : bytes) : bool := match s with c :: _ => isalpha c | [] => false end.

Definition is_type_name (s : bytes) : bool :=
  existsb (λ t, bool_decide (s = String.list_ascii_of_string t)) ["int"; "long"; "float"; "double"; "string"].

Definition GuessHasTypeInformation (columns : Columns) : bool :=
  if (length columns <? 2)%nat then false
  else forallb (λ lines, match lines with _ :: second :: _ => is_type_name second | _ => false end) columns.

Definition GuessHasHeader (columns : Columns) : bool :=
  match columns with
  | [] | [] :: _ => false
  | _ =>
      if negb (forallb (λ column, match column with first :: _ => starts_alpha first | [] => false end) columns) then false
      else existsb (λ column, existsb (λ s, negb (starts_alpha s)) (take 4 (drop 1 column))) columns
  end.

Definition count (c : ascii) (line : bytes) : nat := length (filter (λ d, d = c) line).

(** 2, 1 if the delimiter is missing in the first line, 0 if a line has another number of it. *)
Definition delimiter_probability (lines : Lines) (c : ascii) : nat :=
  match lines with
  | [] => 2%nat
  | first :: lines =>
      if existsb (λ line, negb (count c first =? count c line)%nat) lines then 0%nat
      else if (count c first =? 0)%nat then 1%nat else 2%nat
  end.

(** [std::max_element]: the first of the largest. *)
Fixpoint max_element (best : ascii * nat) (rest : list (ascii * nat)) : ascii :=
  match rest with
  | [] => best.1
  | x :: rest => max_element (if (best.2 <? x.2)%nat then x else best) rest
  end.

Definition GuessDelimiter (lines : Lines) : ascii :=
  match lines with
  | [] => "|"%char
  | _ => match (λ c, (c, delimiter_probability lines c)) <$> kPossibleDelimiters with
         | best :: rest => max_element best rest
         | [] => "|"%char
         end
  end.

(** ** The schema of a file *)
Definition IdentifierToType (identifier : bytes) : result DataType :=
  if bool_decide (identifier = String.list_ascii_of_string "int") then Ok kInt
  else if bool_decide (identifier = String.list_ascii_of_string "long") then Ok kLong
  else if bool_decide (identifier = String.list_ascii_of_string "float") then Ok kFloat
  else if bool_decide (identifier = String.list_ascii_of_string "double") then Ok kDouble
  else if bool_decide (identifier = String.list_ascii_of_string "string") then Ok kString
  else Err AssertionFailed.

Definition default_definition (name : string) : TableColumnDefinition := mkTableColumnDefinition name kInt false.

Fixpoint header_names (columns : Columns) : list string :=
  match columns with
  | (name :: _) :: columns => String.string_of_list_ascii name :: header_names columns
  | _ => []
  end.

(** The string stream is cleared of its error flags, not of its content. *)
Fixpoint generated_names (headline : string) (i n : nat) : list string :=
  match n with
  | O => []
  | S n => let headline := headline +:+ "Column" +:+ pretty (i + 1)%nat in headline :: generated_names headline (S i) n
  end.

Definition BuildColumnNames (has_header : bool) (columns : Columns) : TableColumnDefinitions :=
  default_definition <$> (if has_header then header_names columns else generated_names "" 0 (length columns)).

Definition set_type (d : TableColumnDefinition) (t : DataType) : TableColumnDefinition :=
  mkTableColumnDefinition (tcd_name d) t (tcd_nullable d).

Definition BuildColumnTypes (has_types : bool) (columns : Columns) (schema : TableColumnDefinitions) : result TableColumnDefinitions :=
  if has_types then
    mapR (λ '(i, d),
      column ← vec_get columns i;
      identifier ← vec_get column 1;
      t ← IdentifierToType identifier;
      Ok (set_type d t)) (imap (λ i d, (i, d)) schema)
  else Ok ((λ d, set_type d kString) <$> schema).

Definition BuildSchema (o : CsvFormatReaderOptions) (columns : Columns) : result TableColumnDefinitions :=
  BuildColumnTypes (has_types o) columns (BuildColumnNames (has_header o) columns).

(** ** Values *)
Section Convert.
Variable convert : ∀ t, string → option (ctype t).

Definition ToNumber (t : DataType) (data : bytes) : result (ctype t) :=
  of_option (convert t (String.string_of_list_ascii data)) ConversionError.

Definition CreateSegment (t : DataType) (column_values : list bytes) (num_skip_lines : nat) (callback : bytes → result (ctype t))
    : result ValueSegment :=
  values ← mapR callback (drop num_skip_lines column_values); Ok (mkValueSegment t values None).

Definition ParseSegmentForDataType (type : DataType) (column : list bytes) (skip_lines : nat) : result ValueSegment :=
  match type with
  | kString => CreateSegment kString column skip_lines (λ value, Ok (String.string_of_list_ascii value))
  | kNull => Err AssertionFailed
  | t => CreateSegment t column skip_lines (ToNumber t)
  end.

(** ** The reader *)
Record CsvFormatReader : Type := mkCsvFormatReader {
  source_ : RequestBuffer;
  configuration_ : CsvFormatReaderOptions;
  buffer_ : bytes;
  chunk_offset_ : nat;
  read_full_file_ : bool;
  columns_ : Columns;
  num_ignore_lines_in_next_chunk_ : nat;
  schema_ : option TableColumnDefinitions;
  error_ : StorageErrorType }.

(** The prefix up to and with the last character that satisfies [P]; everything if none does. *)
Definition up_to_last (P : ascii → bool) (l : bytes) : bytes :=
  if existsb P l then rev ((fix drop_while r := match r with c :: r' => if P c then r else drop_while r' | [] => [] end) (rev l)) else l.

Definition strip_trailing_newlines (l : bytes) : bytes :=
  rev ((fix drop_while r := match r with c :: r' => if bool_decide (c = newline) then drop_while r' else r | [] => [] end) (rev l)).

Definition FillBuffer (r : CsvFormatReader) : result CsvFormatReader :=
  if read_full_file_ r
  then Ok (mkCsvFormatReader (source_ r) (configuration_ r) [] (chunk_offset_ r) true (columns_ r)
             (num_ignore_lines_in_next_chunk_ r) (schema_ r) (error_ r))
  else
    let size := Z.to_nat (read_buffer_size (configuration_ r)) in
    buffer ← Read (source_ r) (chunk_offset_ r) size;
    let full := negb (length buffer =? size)%nat in
    let buffer := strip_trailing_newlines (if full then buffer else up_to_last (λ c, bool_decide (c = newline)) buffer) in
    Ok (mkCsvFormatReader (source_ r) (configuration_ r) buffer (chunk_offset_ r + length buffer) full (columns_ r)
          (num_ignore_lines_in_next_chunk_ r) (schema_ r) (error_ r)).

Definition set_columns (r : CsvFormatReader) (columns : Columns) : CsvFormatReader :=
  mkCsvFormatReader (source_ r) (configuration_ r) (buffer_ r) (chunk_offset_ r) (read_full_file_ r) columns
    (num_ignore_lines_in_next_chunk_ r) (schema_ r) (error_ r).

(** The first lines decide what the options leave to be guessed. *)
Definition InitialSetup (r : CsvFormatReader) : result CsvFormatReader :=
  let o := configuration_ r in
  let lines := Split (buffer_ r) newline 5 in
  let delimiter := if guess_delimiter o then GuessDelimiter lines else delimiter o in
  let columns := ExtractColumns (buffer_ r) delimiter in
  let has_header := if guess_has_header o then GuessHasHeader columns else has_header o in
  let has_types := if has_header && guess_has_types o then GuessHasTypeInformation columns else has_types o in
  let o := mkCsvFormatReaderOptions (read_buffer_size o) delimiter false false false has_header has_types (csv_expected_schema o) in
  let ignore := ((if has_header then 1 else 0) + (if has_types then 1 else 0))%nat in
  schema ← match csv_expected_schema o with
           | Some _ => Ok (schema_ r)
           | None => schema ← BuildSchema o columns; Ok (Some schema)
           end;
  Ok (mkCsvFormatReader (source_ r) o (buffer_ r) (chunk_offset_ r) (read_full_file_ r) columns ignore schema (error_ r)).

Definition make_CsvFormatReader (source : RequestBuffer) (configuration : CsvFormatReaderOptions) : result CsvFormatReader :=
  r ← FillBuffer (mkCsvFormatReader source configuration [] 0 false [] 0 (csv_expected_schema configuration) kNoError);
  InitialSetup r.

Definition Csv_HasNext (r : CsvFormatReader) : bool :=
  negb (IsError (error_ r)) && negb (bool_decide (buffer_ r = [])) &&
  match columns_ r with
  | [] => false
  | column :: _ => (num_ignore_lines_in_next_chunk_ r <? length column)%nat
  end.

Definition parse_segments (r : CsvFormatReader) : result Chunk :=
  schema ← of_option (schema_ r) UndefinedBehaviour;
  mapR (λ '(i, d),
    column ← vec_at (columns_ r) i;
    ParseSegmentForDataType (tcd_data_type d) column (num_ignore_lines_in_next_chunk_ r)) (imap (λ i d, (i, d)) schema).

(** [std::out_of_range] and [std::invalid_argument] are caught, other exceptions pass. *)
Definition Csv_Next (r : CsvFormatReader) : result (option Chunk * CsvFormatReader) :=
  match parse_segments r with
  | Ok segments =>
      r ← FillBuffer (mkCsvFormatReader (source_ r) (configuration_ r) (buffer_ r) (chunk_offset_ r) (read_full_file_ r)
                        (columns_ r) 0 (schema_ r) (error_ r));
      Ok (Some segments, set_columns r (ExtractColumns (buffer_ r) (delimiter (configuration_ r))))
  | Err OutOfRange | Err ConversionError =>
      Ok (None, mkCsvFormatReader (source_ r) (configuration_ r) (buffer_ r) (chunk_offset_ r) (read_full_file_ r) (columns_ r)
                  (num_ignore_lines_in_next_chunk_ r) (schema_ r) kInvalidArgument)
  | Err e => Err e
  end.

#[export] Instance CsvFormatReader_reader : ChunkReader CsvFormatReader :=
  {| HasNext := Csv_HasNext; Next := Csv_Next; GetError := error_; GetSchema := schema_ |}.
End Convert.
