(* ===== verification/CsvWriter.v ===== *)
(** * The CSV writer and the export operator

    [storage/formats/csv_writer.cpp] and [storage/formats/abstract_chunk_writer.cpp]: a header
    and one line per row, without any escaping.  [operator/export_operator.cpp]: the chunks of
    the input table go through the writer of the export format to an object.  The writers of
    the other formats are instances of the same interface. *)

From Stdlib Require Import Ascii.
From stdpp Require Import pretty.
From S2P Require Export CsvReader.

Local Open Scope string_scope.

(** ** The interface of the format writers *)
(** Each operation returns the calls of the output handler it makes, in their order. *)
Class FormatWriter (W : Type) : Type := {
  Initialize : W → TableColumnDefinitions → result (W * list bytes);
  ProcessChunk : W → Chunk → result (W * list bytes);
  Finalize : W → result (W * list bytes) }.

(** ** CSV *)
Record CsvFormatWriterOptions : Set := mkCsvFormatWriterOptions {
  field_separator : string;
  record_separator : string;
  include_headers : bool }.

Definition default_csv_writer_options : CsvFormatWriterOptions :=
  mkCsvFormatWriterOptions ";" (String.string_of_list_ascii [newline]) true.

Record CsvFormatWriter : Set := mkCsvFormatWriter {
  options_ : CsvFormatWriterOptions;
  num_fields_ : nat }.

(** The loop that puts separators between the fields. *)
Fixpoint separated (separator : bytes) (fields : list bytes) : bytes :=
  match fields with
  | [] => []
  | [field] => field
  | field :: fields => (field ++ separator ++ separated separator fields)%list
  end.

Definition csv_line (o : CsvFormatWriterOptions) (fields : list bytes) : bytes :=
  (separated (String.list_ascii_of_string (field_separator o)) fields ++ String.list_ascii_of_string (record_separator o))%list.

Section Print.
(** Output of floating point numbers with [max_digits10] digits. *)
Variable print_float : ctype kFloat → string.
Variable print_double : ctype kDouble → string.

(** [buffer << unpacked_value]. *)
Definition csv_text (v : AllTypeVariant) : bytes :=
  String.list_ascii_of_string
    match v with
    | VNull => "NULL"
    | VInt z | VLong z => pretty z
    | VFloat f => print_float f
    | VDouble f => print_double f
    | VString s => s
    end.

Definition Csv_Initialize (w : CsvFormatWriter) (schema : TableColumnDefinitions) : result (CsvFormatWriter * list bytes) :=
  let w := mkCsvFormatWriter (options_ w) (length schema) in
  Ok (w, if include_headers (options_ w)
         then [csv_line (options_ w) ((λ d, String.list_ascii_of_string (tcd_name d)) <$> schema)] else []).

Definition Csv_ProcessChunk (w : CsvFormatWriter) (chunk : Chunk) : result (CsvFormatWriter * list bytes) :=
  if (num_fields_ w =? 0)%nat then Ok (w, [])
  else
    _ ← assert_ (chunk_GetColumnCount chunk =? num_fields_ w)%nat AssertionFailed;
    lines ← for_range (chunk_Size chunk) (λ row_id,
      fields ← for_range (num_fields_ w) (λ column_id,
        column ← chunk_GetSegment chunk column_id;
        value ← seg_index column row_id;
        Ok (csv_text value));
      Ok (csv_line (options_ w) fields));
    Ok (w, lines).

#[export] Instance CsvFormatWriter_writer : FormatWriter CsvFormatWriter :=
  {| Initialize := Csv_Initialize; ProcessChunk := Csv_ProcessChunk; Finalize := λ w, Ok (w, []) |}.

Definition make_CsvFormatWriter (o : CsvFormatWriterOptions) : CsvFormatWriter := mkCsvFormatWriter o 0.
End Print.

(** ** The export operator *)
Section ExportTable.
Context {W : Type} `{FormatWriter W}.
(** [ObjectWriter::Write], from what has been written: a storage error or none. *)
Variable Write : list bytes → bytes → StorageErrorType.

(** The object so far, the error that the output handler remembers, and [bytes_written_]. *)
Record Output : Type := mkOutput {
  written : list bytes;
  write_error : StorageErrorType;
  bytes_written : nat }.

(** [WriteToOutput] with the handler of the operator: after an error nothing is written. *)
Definition handle_output (o : Output) (data : bytes) : Output :=
  let count := (bytes_written o + length data)%nat in
  if IsError (write_error o) then mkOutput (written o) (write_error o) count
  else match Write (written o) data with
       | kNoError => mkOutput (written o ++ [data])%list kNoError count
       | e => mkOutput (written o) e count
       end.

Fixpoint process_chunks (formatter : W) (chunks : list Chunk) (o : Output) : result (W * Output) :=
  match chunks with
  | [] => Ok (formatter, o)
  | chunk :: chunks =>
      '(formatter, pieces) ← ProcessChunk formatter chunk;
      process_chunks formatter chunks (foldl handle_output o pieces)
  end.

(** [ExportOperator::OnExecute]; the error of [Close] is ignored by the code. *)
Definition ExportOperator_OnExecute (formatter : W) (input : Table) : result Output :=
  '(formatter, header) ← Initialize formatter (column_definitions input);
  let o := foldl handle_output (mkOutput [] kNoError 0) header in
  '(formatter, o) ← process_chunks formatter (chunks input) o;
  '(_, footer) ← Finalize formatter;
  let o := foldl handle_output o footer in
  _ ← assert_ (negb (IsError (write_error o))) AssertionFailed;
  Ok o.
End ExportTable.
