(* ===== verification/CsvRoundtrip.v ===== *)
(** * CSV objects: writing and reading back

    A table that is exported with the default options and imported with its own schema comes
    back with the same rows, whatever the size of the read buffer, as long as every line fits
    in it; reading ends without an error. *)

From Stdlib Require Import Ascii.
From S2P Require Export CsvReader CsvWriter.

(** ** The lines of a CSV object

    How [FillBuffer] cuts an object into buffers: every buffer ends at the end of a line, and
    no line is lost, repeated or torn as long as the lines fit in the buffer. *)

(** ** Splitting *)
Lemma break_at_app d l rest : d ∉ l → break_at d (l ++ d :: rest) = (l, Some rest).
Proof.
  induction l as [|c l IH]; cbn; intros Hd.
  - by rewrite decide_True.
  - apply not_elem_of_cons in Hd as [Hne Hd]. rewrite decide_False by congruence. by rewrite IH.
Qed.

Lemma break_at_none d l : d ∉ l → break_at d l = (l, None).
Proof.
  induction l as [|c l IH]; cbn; intros Hd; [done|].
  apply not_elem_of_cons in Hd as [Hne Hd]. rewrite decide_False by congruence. by rewrite IH.
Qed.

(** Every text is a line without the delimiter, followed by nothing or by the delimiter. *)
Lemma break_at_inv d l : ∃ t, (d ∉ t) ∧ ((l = t ∧ break_at d l = (t, None)) ∨ (∃ rest, l = t ++ d :: rest ∧ break_at d l = (t, Some rest))).
Proof.
  induction l as [|c l (t & Ht & IH)]; [exists []; split; [apply not_elem_of_nil|by left]|]. cbn. destruct (decide (c = d)) as [->|Hc].
  - exists []. split; [apply not_elem_of_nil|]. right. by exists l.
  - exists (c :: t). split; [by apply not_elem_of_cons; split|]. destruct IH as [[-> ->]|(rest & -> & ->)]; [by left|right; by exists rest].
Qed.

Lemma split_loop_fuel d counter fuel fuel' l :
  (length l < fuel)%nat → (length l < fuel')%nat → split_loop fuel d 0 counter l = split_loop fuel' d 0 counter l.
Proof.
  revert counter fuel' l. induction fuel as [|fuel IH]; intros counter [|fuel'] l H H'; try lia. cbn [split_loop].
  destruct (break_at_inv d l) as (t & _ & [[-> ->]|(rest & -> & ->)]); [done|]. f_equal. cbn.
  rewrite length_app in H, H'. cbn in H, H'. apply IH; lia.
Qed.

Lemma split_loop_counter d counter counter' fuel l : split_loop fuel d 0 counter l = split_loop fuel d 0 counter' l.
Proof.
  revert counter counter' l. induction fuel as [|fuel IH]; intros counter counter' l; [done|]. cbn [split_loop].
  destruct (break_at d l) as [t [rest|]]; [|done]. f_equal. cbn. apply IH.
Qed.

Lemma Split_app d l rest : d ∉ l → Split (l ++ d :: rest) d 0 = l :: Split rest d 0.
Proof.
  intros Hd. unfold Split at 1. cbn [split_loop]. rewrite break_at_app by done. f_equal. cbn [Nat.eqb orb].
  rewrite (split_loop_counter d 1 0). unfold Split. apply split_loop_fuel; rewrite ?length_app; cbn; lia.
Qed.

Lemma Split_none d l : d ∉ l → Split l d 0 = [l].
Proof. intros Hd. unfold Split. cbn [split_loop]. by rewrite break_at_none. Qed.

(** Splitting undoes joining. *)
Fixpoint joined (d : ascii) (fields : list bytes) : bytes :=
  match fields with
  | [] => []
  | [field] => field
  | field :: fields => field ++ d :: joined d fields
  end.

Lemma Split_joined d fields : fields ≠ [] → Forall (λ f, d ∉ f) fields → Split (joined d fields) d 0 = fields.
Proof.
  intros Hne Hd. induction Hd as [|f fields Hf Hd IH]; [done|]. destruct fields as [|g fields]; [by apply Split_none|].
  change (joined d (f :: g :: fields)) with (f ++ d :: joined d (g :: fields)).
  rewrite Split_app by done. f_equal. by apply IH.
Qed.

(** ** The lines that are not empty *)
Definition nonempty (l : bytes) : Prop := l ≠ [].
#[export] Instance nonempty_dec l : Decision (nonempty l).
Proof. unfold nonempty. apply _. Defined.

Definition lines_of (text : bytes) : list bytes := filter nonempty (Split text newline 0).

Lemma lines_of_nil : lines_of [] = [].
Proof. reflexivity. Qed.

Lemma lines_of_newline text : lines_of (newline :: text) = lines_of text.
Proof.
  unfold lines_of. change (newline :: text) with ([] ++ newline :: text). rewrite Split_app by apply not_elem_of_nil.
  rewrite filter_cons, decide_False; [done|]. by intros H.
Qed.

Lemma lines_of_line l text : newline ∉ l → l ≠ [] → lines_of (l ++ newline :: text) = l :: lines_of text.
Proof. intros Hl Hne. unfold lines_of. by rewrite Split_app, filter_cons, decide_True. Qed.

Lemma lines_of_last l : newline ∉ l → l ≠ [] → lines_of l = [l].
Proof. intros Hl Hne. unfold lines_of. by rewrite Split_none, filter_cons, decide_True. Qed.

Lemma ExtractColumns_lines buffer d :
  ExtractColumns buffer d = foldl (λ columns line, add_line columns (Split line d 0)) [] (lines_of buffer).
Proof.
  unfold ExtractColumns, lines_of. generalize (@nil (list bytes)). induction (Split buffer newline 0) as [|l ls IH]; intros columns; [done|].
  cbn [foldl]. rewrite filter_cons. destruct (decide (nonempty l)) as [Hl|Hl].
  - rewrite bool_decide_false by done. apply IH.
  - rewrite bool_decide_true; [apply IH|]. destruct l; [done|by destruct Hl].
Qed.

Lemma ExtractColumns_fields buffer d :
  ExtractColumns buffer d = foldl add_line [] ((λ l, Split l d 0) <$> lines_of buffer).
Proof.
  rewrite ExtractColumns_lines. generalize (@nil (list bytes)).
  induction (lines_of buffer) as [|l ls IH]; intros cs; [done|]. cbn [foldl fmap list_fmap]. apply IH.
Qed.

(** A text of lines, each with its newline. *)
Definition unlines (lines : list bytes) : bytes := concat ((λ l, l ++ [newline]) <$> lines).

Definition text_line (l : bytes) : Prop := (newline ∉ l) ∧ l ≠ [].

Lemma unlines_cons l ls : unlines (l :: ls) = l ++ newline :: unlines ls.
Proof. unfold unlines. cbn. by rewrite <- app_assoc. Qed.

Lemma unlines_app ls ks : unlines (ls ++ ks) = unlines ls ++ unlines ks.
Proof. unfold unlines. by rewrite fmap_app, concat_app. Qed.

(** A text of lines, cut before a newline, is cut between two lines. *)
Lemma unlines_cut ls b rest :
  Forall text_line ls → unlines ls = b ++ newline :: rest →
  ∃ l1 l2, ls = l1 ++ l2 ∧ b ++ [newline] = unlines l1 ∧ rest = unlines l2 ∧ l1 ≠ [].
Proof.
  intros Hls. revert b. induction Hls as [|l ls [Hl Hne] _ IH]; intros b; [cbn; by destruct b|].
  rewrite unlines_cons. intros Heq. destruct (decide (length b <= length l)%nat) as [Hlen|Hlen].
  - assert (b = l) as ->.
    { destruct (decide (length b = length l)) as [He|He]; [by apply app_inj_1 in Heq as [-> _]|]. exfalso. apply Hl.
      assert (l !! length b = Some newline) as Hb; [|by eapply list_elem_of_lookup_2].
      rewrite <- (lookup_app_l l (newline :: unlines ls)) by lia. rewrite Heq, lookup_app_r by lia. by rewrite Nat.sub_diag. }
    apply app_inv_head in Heq. injection Heq as <-. exists [l], ls. split; [done|]. rewrite unlines_cons. done.
  - destruct (app_eq_inv _ _ _ _ Heq) as [(k & -> & Hk)|(k & -> & Hk)].
    + rewrite length_app in Hlen. lia.
    + destruct k as [|c k]; [rewrite app_nil_r in Hlen; lia|]. cbn in Hk. injection Hk as <- Hk.
      destruct (IH k Hk) as (l1 & l2 & -> & Hk1 & Hr & _). exists (l :: l1), l2. split; [done|]. split; [|done].
      rewrite unlines_cons, <- Hk1, <- app_assoc. done.
Qed.

(** The last line may lack its newline, and a newline may precede. *)
Lemma lines_of_unlines b ls : Forall text_line ls → b ++ [newline] = unlines ls → lines_of b = ls.
Proof.
  intros Hls. revert b. induction Hls as [|l ls [Hl Hne] Hls IH]; intros b; [cbn; by destruct b|].
  rewrite unlines_cons. destruct ls as [|k ls].
  - cbn. intros Heq. apply app_inj_2 in Heq as [-> _]; [|done]. by apply lines_of_last.
  - intros Heq. assert (∃ c, b = l ++ newline :: c ∧ c ++ [newline] = unlines (k :: ls)) as (c & -> & Hc).
    { destruct (app_eq_inv _ _ _ _ Heq) as [(m & -> & Hm)|(m & Hb & Hm)].
      - destruct m as [|x m]; cbn [app] in Hm.
        + injection Hm as Hm. rewrite unlines_cons in Hm. by destruct k.
        + injection Hm as <- Hm. by exists m.
      - destruct m as [|x m]; [|by destruct m]. cbn [app] in Hm. injection Hm as Hm. rewrite unlines_cons in Hm. by destruct k. }
    rewrite lines_of_line by done. f_equal. by apply IH.
Qed.

(** ** Cutting a buffer *)
Lemma strip_newline x : strip_trailing_newlines (x ++ [newline]) = strip_trailing_newlines x.
Proof. unfold strip_trailing_newlines. rewrite rev_app_distr. cbn. reflexivity. Qed.

Lemma strip_other x c : c ≠ newline → strip_trailing_newlines (x ++ [c]) = x ++ [c].
Proof.
  intros Hc. unfold strip_trailing_newlines. rewrite rev_app_distr. cbn. rewrite bool_decide_false by done. cbn. by rewrite rev_involutive.
Qed.

Lemma unlines_end ls : Forall text_line ls → ls ≠ [] → ∃ b c, unlines ls = b ++ [c; newline] ∧ c ≠ newline.
Proof.
  intros Hls Hne. destruct (exists_last Hne) as (ks & l & ->). apply Forall_app in Hls as [_ Hl].
  apply Forall_singleton in Hl as [Hl Hlne]. destruct (exists_last Hlne) as (m & c & ->).
  exists (unlines ks ++ m), c. rewrite unlines_app, unlines_cons. cbn. rewrite <- !app_assoc. split; [done|].
  intros ->. apply Hl, elem_of_app. right. by left.
Qed.

Lemma up_to_last_cut x y : newline ∉ y → up_to_last (λ c, bool_decide (c = newline)) (x ++ newline :: y) = x ++ [newline].
Proof.
  intros Hy. unfold up_to_last. rewrite existsb_app. cbn [existsb]. rewrite bool_decide_true by done. rewrite orb_true_r.
  rewrite rev_app_distr. cbn [rev]. rewrite <- app_assoc.
  assert (∀ k, newline ∉ rev y → ∀ r, r = rev y ++ newline :: k →
    (fix drop_while r := match r with c :: r' => if bool_decide (c = newline) then r else drop_while r' | [] => [] end) r = newline :: k) as H.
  { intros k. generalize (rev y). intros l Hl r ->. induction l as [|c l IH]; cbn; [done|].
    apply not_elem_of_cons in Hl as [Hc Hl]. rewrite bool_decide_false by congruence. by apply IH. }
  erewrite H; [|by rewrite list_elem_of_In, <- in_rev, <- list_elem_of_In|reflexivity]. cbn. by rewrite rev_involutive.
Qed.

Lemma last_newline b : newline ∈ b → ∃ x y, b = x ++ newline :: y ∧ newline ∉ y.
Proof.
  induction b as [|c b IH] using rev_ind; [by intros H%elem_of_nil|]. intros Hb. destruct (decide (c = newline)) as [->|Hc].
  - exists b, []. split; [done|apply not_elem_of_nil].
  - apply elem_of_app in Hb as [Hb|Hb%list_elem_of_singleton]; [|congruence]. destruct (IH Hb) as (x & y & -> & Hy).
    exists x, (y ++ [c]). rewrite <- app_assoc. split; [done|]. rewrite not_elem_of_app. split; [done|].
    intros Hn%list_elem_of_singleton. congruence.
Qed.

(** What [FillBuffer] keeps of the next [size] bytes. *)
Definition cut_buffer (size : nat) (rem : bytes) : bytes :=
  let buffer := take size rem in
  strip_trailing_newlines (if negb (length buffer =? size)%nat then buffer else up_to_last (λ c, bool_decide (c = newline)) buffer).

Definition leading (lead : bytes) : Prop := lead = [] ∨ lead = [newline].

Lemma lines_of_leading lead b ls : leading lead → Forall text_line ls → b ++ [newline] = unlines ls → lines_of (lead ++ b) = ls.
Proof. intros [-> | ->] Hls Hb; cbn [app]; [|rewrite lines_of_newline]; by apply lines_of_unlines. Qed.

Lemma strip_leading lead ls :
  leading lead → Forall text_line ls →
  ∃ b, strip_trailing_newlines (lead ++ unlines ls) = b ∧ lines_of b = ls ∧ (b = [] ↔ ls = []) ∧
    (ls ≠ [] → lead ++ unlines ls = b ++ [newline]).
Proof.
  intros Hlead Hls. destruct (decide (ls = [])) as [->|Hne].
  - exists []. destruct Hlead as [-> | ->]; done.
  - destruct (unlines_end ls Hls Hne) as (b & c & Hb & Hc). exists (lead ++ b ++ [c]). rewrite Hb.
    change [c; newline] with ([c] ++ [newline]). rewrite !app_assoc, strip_newline, strip_other, <- !app_assoc by done.
    split; [done|]. split; [apply lines_of_leading; [done|done|]; by rewrite Hb, <- app_assoc|]. split; [|done].
    split; [|done]. intros H%(f_equal length). rewrite !length_app in H. cbn in H. lia.
Qed.

Lemma prefix_unlines p q l1 l2 :
  p ++ q = l1 ++ l2 → (length (unlines p) <= length (unlines l1))%nat → p `prefix_of` l1.
Proof.
  intros Heq Hl. destruct (app_eq_inv _ _ _ _ Heq) as [(k & -> & _)|(k & -> & _)]; [|by exists k].
  destruct k as [|x k]; [exists []; by rewrite !app_nil_r|]. rewrite unlines_app, length_app, unlines_cons, length_app in Hl.
  cbn in Hl. lia.
Qed.

Lemma newline_after lead p q :
  p ≠ [] → (lead ++ unlines (p ++ q)) !! (length (lead ++ unlines p) - 1)%nat = Some newline.
Proof.
  intros Hne. destruct (exists_last Hne) as (ks & l & ->). rewrite !unlines_app, unlines_cons.
  replace (lead ++ (unlines ks ++ l ++ newline :: unlines []) ++ unlines q)
    with ((lead ++ unlines ks ++ l) ++ newline :: unlines q) by (by rewrite <- !app_assoc).
  replace (length (lead ++ unlines ks ++ l ++ newline :: unlines []) - 1)%nat with (length (lead ++ unlines ks ++ l)).
  - by rewrite lookup_app_r, Nat.sub_diag by lia.
  - rewrite !length_app. cbn. lia.
Qed.

(** A buffer that has room for the lines [p] gets them, and only whole lines; the rest begins
    with the newline of the last of them. *)
Lemma cut_buffer_spec size lead p q :
  leading lead → Forall text_line (p ++ q) → (p = [] → q = []) → (1 < size)%nat →
  (length (lead ++ unlines p) <= size)%nat →
  ∃ l1 l2, p ++ q = l1 ++ l2 ∧ p `prefix_of` l1 ∧ lines_of (cut_buffer size (lead ++ unlines (p ++ q))) = l1 ∧
    (cut_buffer size (lead ++ unlines (p ++ q)) = [] ↔ l1 = []) ∧
    (if (length (take size (lead ++ unlines (p ++ q))) =? size)%nat
     then drop (length (cut_buffer size (lead ++ unlines (p ++ q)))) (lead ++ unlines (p ++ q)) = newline :: unlines l2
     else l2 = []).
Proof.
  intros Hlead Hls Hpq Hsize Hp. set (rem := lead ++ unlines (p ++ q)). unfold cut_buffer.
  destruct (Nat.eqb_spec (length (take size rem)) size) as [Hfull|Hfull]; cbn [negb].
  - assert (newline ∈ take size rem) as Hnl.
    { destruct (decide (p = [])) as [->|Hne].
      - specialize (Hpq eq_refl) as ->. subst rem. cbn in Hfull. rewrite app_nil_r, length_take in Hfull.
        destruct Hlead as [-> | ->]; cbn in Hfull; lia.
      - apply (list_elem_of_lookup_2 _ (length (lead ++ unlines p) - 1)). pose proof (newline_after lead p q Hne).
        assert (length (lead ++ unlines p) ≠ 0)%nat; [|by rewrite lookup_take_lt by lia].
        destruct p; [done|]. rewrite unlines_cons, !length_app. cbn. lia. }
    destruct (last_newline _ Hnl) as (x & y & Hxy & Hy). rewrite Hxy, up_to_last_cut by done.
    assert (rem = x ++ newline :: y ++ drop size rem) as Hrem.
    { rewrite <- (take_drop size rem) at 1. by rewrite Hxy, <- app_assoc. }
    assert (length (lead ++ unlines p) <= length x + 1)%nat as Hlen.
    { destruct (decide (p = [])) as [->|Hne].
      { specialize (Hpq eq_refl) as ->. destruct Hlead as [-> | ->]; cbn; lia. }
      destruct (decide (length (lead ++ unlines p) <= length x + 1)%nat) as [|Hgt]; [done|]. exfalso. apply Hy.
      apply (list_elem_of_lookup_2 _ (length (lead ++ unlines p) - 1 - (length x + 1))).
      pose proof (newline_after lead p q Hne) as Hat. fold rem in Hat.
      rewrite <- (lookup_take_lt rem size), Hxy, lookup_app_r in Hat by lia.
      by replace (length (lead ++ unlines p) - 1 - length x)%nat
        with (S (length (lead ++ unlines p) - 1 - (length x + 1))) in Hat by lia. }
    assert (∃ b, x = lead ++ b ∧ unlines (p ++ q) = b ++ newline :: y ++ drop size rem) as (b & -> & Hb).
    { subst rem. destruct (app_eq_inv _ _ _ _ Hrem) as [(k & Hk & Hk')|(k & -> & Hk)]; [|by exists k].
      destruct k as [|d k]; [exists []; rewrite app_nil_r in Hk |- *; split; [done|exact (eq_sym Hk')]|]. exfalso.
      destruct Hlead as [-> | ->]; [by destruct x|].
      destruct x as [|e x]; [|apply (f_equal length) in Hk; rewrite length_app in Hk; cbn in Hk; lia]. cbn in Hk. injection Hk as <- <-.
      rewrite length_app in Hlen. cbn in Hlen. assert (p = []) as ->;
        [|rewrite (Hpq eq_refl) in Hfull; rewrite length_take in Hfull; cbn in Hfull; lia].
      destruct p as [|l p]; [done|]. rewrite unlines_cons, length_app in Hlen. cbn in Hlen. lia. }
    destruct (unlines_cut (p ++ q) b _ Hls Hb) as (l1 & l2 & Hl & Hb1 & Hr & Hl1).
    rewrite Hl in Hls. apply Forall_app in Hls as [Hls1 _].
    destruct (strip_leading lead l1 Hlead Hls1) as (s & Hs & Hsl & Hse & Hsb). specialize (Hsb Hl1).
    rewrite <- Hb1, app_assoc in Hsb, Hs. apply app_inj_2 in Hsb as [Hsb _]; [|done].
    rewrite <- Hsb in Hs, Hsl, Hse.
    exists l1, l2. rewrite Hs. split; [done|]. split; [|split; [done|]; split; [done|]].
    + apply (prefix_unlines p q l1 l2 Hl). rewrite <- Hb1. rewrite !length_app in *. cbn. lia.
    + rewrite Hrem, drop_app_length. by rewrite Hr.
  - assert (take size rem = rem) as Htake by (apply take_ge; rewrite length_take in Hfull; lia). rewrite Htake.
    destruct (strip_leading lead (p ++ q) Hlead Hls) as (b & Hb & Hl & Hbe & _). exists (p ++ q), []. fold rem in Hb. rewrite Hb, app_nil_r.
    split; [done|]. split; [by exists q|]. done.
Qed.

(** ** Columns of lines *)
(** Column [c] of rows of fields. *)
Definition column_of {X} (d : X) (c : nat) (rows : list (list X)) : list X := (λ row, from_option id d (row !! c)) <$> rows.

Lemma add_line_lookup columns row c col f :
  length columns = length row → columns !! c = Some col → row !! c = Some f → add_line columns row !! c = Some (col ++ [f]).
Proof.
  revert row c. induction columns as [|col' columns IH]; intros [|f' row] [|c] Hl Hc Hf; cbn in *; try done; [congruence|].
  apply IH; [lia|done|done].
Qed.

Lemma add_line_length columns row : length columns = length row → length (add_line columns row) = length row.
Proof.
  revert row. induction columns as [|col columns IH]; intros [|f row] Hl; cbn in *; try lia. rewrite IH; lia.
Qed.

Lemma add_line_first row : add_line [] row = (λ f, [f]) <$> row.
Proof. induction row as [|f row IH]; cbn; [done|]. by rewrite IH. Qed.

Lemma add_lines_from k rows columns :
  length columns = k → Forall (λ row, length row = k) rows →
  length (foldl add_line columns rows) = k ∧
  ∀ c col, columns !! c = Some col → foldl add_line columns rows !! c = Some (col ++ column_of [] c rows).
Proof.
  intros Hk Hrows. revert columns Hk. induction Hrows as [|row rows Hrow _ IH]; intros columns Hk; cbn [foldl].
  - split; [done|]. intros c col Hc. by rewrite app_nil_r.
  - destruct (IH (add_line columns row)) as [H1 H2]; [by rewrite add_line_length; congruence|]. split; [done|]. intros c col Hc.
    destruct (lookup_lt_is_Some_2 row c) as [f Hf]; [apply lookup_lt_Some in Hc; congruence|].
    rewrite (H2 c (col ++ [f])) by (apply add_line_lookup; congruence).
    unfold column_of. cbn. by rewrite Hf, <- app_assoc.
Qed.

Lemma add_lines k row rows :
  Forall (λ row, length row = k) (row :: rows) →
  length (foldl add_line [] (row :: rows)) = k ∧
  ∀ c, (c < k)%nat → foldl add_line [] (row :: rows) !! c = Some (column_of [] c (row :: rows)).
Proof.
  intros [Hrow Hrows]%Forall_cons. cbn [foldl]. rewrite add_line_first.
  destruct (add_lines_from k rows ((λ f, [f]) <$> row)) as [H1 H2]; [by rewrite length_fmap|done|]. split; [done|]. intros c Hc.
  destruct (lookup_lt_is_Some_2 row c) as [f Hf]; [lia|]. rewrite (H2 c [f]) by (by rewrite list_lookup_fmap, Hf).
  unfold column_of. cbn. by rewrite Hf.
Qed.

Section Roundtrip.
Variable convert : ∀ t, string → option (ctype t).
Variables (print_float : ctype kFloat → string) (print_double : ctype kDouble → string).
Abbreviation text_of := (csv_text print_float print_double).

(** ** Values that survive *)
Definition parse_value (t : DataType) (data : bytes) : result (ctype t) :=
  match t with
  | kString => Ok (String.string_of_list_ascii data)
  | kNull => Err AssertionFailed
  | t => ToNumber convert t data
  end.

(** A value of the column's type whose text can be converted back and has no separator. *)
Definition csv_value (t : DataType) (v : AllTypeVariant) : Prop :=
  (∃ x, v = to_variant t x ∧ parse_value t (text_of v) = Ok x) ∧ (newline ∉ text_of v) ∧ ";"%char ∉ text_of v.

Lemma ParseSegmentForDataType_spec t column skip :
  ParseSegmentForDataType convert t column skip =
  if decide (t = kNull) then Err AssertionFailed
  else values ← mapR (parse_value t) (drop skip column); Ok (mkValueSegment t values None).
Proof. by destruct t. Qed.

Lemma parse_column t vs :
  Forall (csv_value t) vs → t ≠ kNull →
  ∃ xs, mapR (parse_value t) (text_of <$> vs) = Ok xs ∧ vs = to_variant t <$> xs.
Proof.
  intros Hvs Ht. induction Hvs as [|v vs [(x & Hv & Hp) _] _ (xs & Hx & ->)]; [by exists []|].
  exists (x :: xs). cbn. rewrite Hp. cbn. rewrite Hx. cbn. by rewrite Hv.
Qed.

Lemma seg_index_plain t xs i : seg_index (mkValueSegment t xs None) i = (x ← vec_at xs i; Ok (to_variant t x)).
Proof. reflexivity. Qed.

(** ** Chunks from columns *)
Section Chunk.
Context (schema : TableColumnDefinitions).
Hypothesis Htyped : Forall (λ d, tcd_data_type d ≠ kNull) schema.

Definition csv_row (row : Row) : Prop := Forall2 (λ d v, csv_value (tcd_data_type d) v) schema row.

Lemma parse_chunk columns header rows :
  (0 < length schema)%nat → (N.of_nat (length rows) < 2 ^ 32)%N → Forall csv_row rows →
  (∀ c, (c < length schema)%nat → ∃ h, columns !! c = Some (h ++ (text_of <$> column_of VNull c rows)) ∧ length h = header) →
  ∃ chunk, mapR (λ '(i, d), column ← vec_at columns i;
      ParseSegmentForDataType convert (tcd_data_type d) column header) (imap (λ i d, (i, d)) schema) = Ok chunk ∧
    chunk_rows chunk = Ok rows ∧ seg_type <$> chunk = tcd_data_type <$> schema.
Proof.
  intros Hwidth Hcount Hrows Hcolumns.
  set (segment := λ '(i, d), values ← mapR (parse_value (tcd_data_type d)) (text_of <$> column_of VNull i rows);
    Ok (mkValueSegment (tcd_data_type d) values None)).
  assert (∀ i d, schema !! i = Some d → ∃ xs, segment (i, d) = Ok (mkValueSegment (tcd_data_type d) xs None) ∧
    column_of VNull i rows = to_variant (tcd_data_type d) <$> xs) as Hsegment.
  { intros i d Hd. destruct (parse_column (tcd_data_type d) (column_of VNull i rows)) as (xs & Hx & Hv).
    - apply Forall_fmap. rewrite Forall_forall in Hrows |- *. intros row Hr. specialize (Hrows row Hr). cbn.
      destruct (Forall2_lookup_l _ _ _ _ _ Hrows Hd) as (v & -> & Hv). done.
    - by eapply Forall_lookup_1 in Htyped.
    - exists xs. split; [|done]. unfold segment. by rewrite Hx. }
  assert (mapR (λ '(i, d), column ← vec_at columns i;
      ParseSegmentForDataType convert (tcd_data_type d) column header) (imap (λ i d, (i, d)) schema) =
    mapR segment (imap (λ i d, (i, d)) schema)) as ->.
  { apply mapR_ext. intros [i d] (j & d' & Heq & Hd)%elem_of_lookup_imap. injection Heq as -> ->. unfold vec_at.
    destruct (Hcolumns j) as (h & -> & Hh); [by eapply lookup_lt_Some|]. cbn [of_option rbind].
    rewrite ParseSegmentForDataType_spec, decide_False by (by eapply (Forall_lookup_1 _ _ _ _ Htyped Hd)).
    by rewrite <- Hh, drop_app_length. }
  assert (∃ chunk, mapR segment (imap (λ i d, (i, d)) schema) = Ok chunk ∧ Forall2 (λ id s, segment id = Ok s) (imap (λ i d, (i, d)) schema) chunk)
    as (chunk & Hchunk & Hall).
  { destruct (mapR segment (imap (λ i d, (i, d)) schema)) as [chunk|e] eqn:Hm.
    - exists chunk. split; [done|]. by apply mapR_ok_Forall2.
    - apply mapR_err in Hm as ([i d] & (j & d' & Heq & Hd)%elem_of_lookup_imap & He). injection Heq as -> ->.
      destruct (Hsegment j d' Hd) as (xs & Hs & _). congruence. }
  exists chunk. split; [done|].
  assert (∀ i d, schema !! i = Some d → ∃ xs, chunk !! i = Some (mkValueSegment (tcd_data_type d) xs None) ∧
    column_of VNull i rows = to_variant (tcd_data_type d) <$> xs) as Hlookup.
  { intros i d Hd. destruct (Hsegment i d Hd) as (xs & Hs & Hv). exists xs. split; [|done].
    destruct (Forall2_lookup_l _ _ _ i (i, d) Hall) as (s & Hs' & Hseg); [by rewrite list_lookup_imap, Hd|].
    rewrite Hs'. congruence. }
  assert (length chunk = length schema) as Hlen by (apply Forall2_length in Hall; by rewrite length_imap in Hall).
  split.
  - apply for_range_eq.
    + destruct (lookup_lt_is_Some_2 schema 0 Hwidth) as [d Hd]. destruct (Hlookup 0%nat d Hd) as (xs & Hs & Hv).
      destruct chunk as [|s chunk]; [done|]. injection Hs as ->. cbn. apply (f_equal length) in Hv.
      unfold column_of in Hv. rewrite !length_fmap in Hv. unfold seg_size. cbn. rewrite <- Hv. symmetry. by apply u32_id.
    + intros i row Hrow. apply mapR_ok_Forall2, Forall2_same_length_lookup_2.
      * rewrite Hlen. by apply Forall_lookup_1 with (2 := Hrow) in Hrows as ->%Forall2_length.
      * intros c s v Hs Hv. destruct (lookup_lt_is_Some_2 schema c) as [d Hd]; [rewrite <- Hlen; by eapply lookup_lt_Some|].
        destruct (Hlookup c d Hd) as (xs & Hs' & Hxs). rewrite Hs in Hs'. injection Hs' as ->. rewrite seg_index_plain.
        assert (column_of VNull c rows !! i = Some v) as Hi by (unfold column_of; rewrite list_lookup_fmap, Hrow; cbn; by rewrite Hv).
        rewrite Hxs, list_lookup_fmap in Hi. apply fmap_Some in Hi as (x & Hx & ->). unfold vec_at. by rewrite Hx.
  - apply list_eq. intros i. rewrite !list_lookup_fmap. destruct (schema !! i) as [d|] eqn:Hd.
    + by destruct (Hlookup i d Hd) as (xs & -> & _).
    + rewrite lookup_ge_None_2; [done|]. rewrite Hlen. by apply lookup_ge_None_1.
Qed.

(** ** Reading the object *)
Section Reading.
Context (text : bytes) (o : CsvFormatReaderOptions) (size : nat).
Hypothesis Htext : text ≠ [].
Hypothesis Hwidth : (0 < length schema)%nat.
Hypothesis Hsize : read_buffer_size o = Z.of_nat size.
Hypothesis Hsize1 : (1 < size)%nat.
Hypothesis Hdelimiter : delimiter o = ";"%char.

Definition line_of (row : Row) : bytes := joined ";"%char (text_of <$> row).

(** A row whose line fits in the buffer together with the newlines around it. *)
Definition fitting_row (row : Row) : Prop := csv_row row ∧ line_of row ≠ [] ∧ (length (line_of row) + 2 <= size)%nat.

Lemma joined_no_newline fields : Forall (λ f, newline ∉ f) fields → newline ∉ joined ";"%char fields.
Proof.
  induction 1 as [|f fields Hf Hfs IH]; [by intros H%elem_of_nil|]. destruct fields as [|g fields]; [done|].
  change (joined ";"%char (f :: g :: fields)) with (f ++ ";"%char :: joined ";"%char (g :: fields)).
  rewrite elem_of_app, elem_of_cons. intros [H|[H|H]]; [done|discriminate|done].
Qed.

Lemma csv_row_fields row : csv_row row → Forall (λ f, (newline ∉ f) ∧ ";"%char ∉ f) (text_of <$> row).
Proof.
  intros Hr. apply Forall_fmap, Forall_lookup. intros i v Hv. destruct (Forall2_lookup_r _ _ _ _ _ Hr Hv) as (d & _ & _ & H1 & H2).
  by split.
Qed.

Lemma line_of_text row : fitting_row row → text_line (line_of row).
Proof.
  intros (Hr & Hne & _). split; [|done]. apply joined_no_newline. eapply Forall_impl; [by apply csv_row_fields|]. by intros f [? _].
Qed.

Lemma csv_row_length row : csv_row row → length row = length schema.
Proof. by intros H%Forall2_length. Qed.

Lemma Split_line row : csv_row row → Split (line_of row) ";"%char 0 = text_of <$> row.
Proof.
  intros Hr. apply Split_joined.
  - intros H%(f_equal length). rewrite length_fmap, (csv_row_length row Hr) in H. cbn in H. lia.
  - eapply Forall_impl; [by apply csv_row_fields|]. by intros f [_ ?].
Qed.

(** A reader whose buffer holds the lines [l1] and whose object goes on with the lines [l2]. *)
Record at_lines (r : CsvFormatReader) (l1 l2 : list bytes) (skip : nat) : Prop := {
  al_source : source_ r = [((0%nat, length text), text)];
  al_options : configuration_ r = o;
  al_columns : columns_ r = foldl add_line [] ((λ l, Split l ";"%char 0) <$> l1);
  al_empty : buffer_ r = [] ↔ l1 = [];
  al_skip : num_ignore_lines_in_next_chunk_ r = skip;
  al_schema : schema_ r = Some schema;
  al_error : error_ r = kNoError;
  al_rest : if read_full_file_ r then l2 = [] else drop (chunk_offset_ r) text = newline :: unlines l2 }.

Lemma Read_object offset n :
  Read [((0%nat, length text), text)] offset n = Ok (take n (drop offset text)).
Proof.
  assert (slice text 0 (length text) = text) as Hs by (unfold slice; rewrite Nat.sub_0_r; apply take_ge; cbn; lia).
  rewrite <- Hs at 2. rewrite (Read_contiguous text 0 _ (length text)); [|constructor; [destruct text; [done|cbn; lia]|done|constructor]|lia].
  f_equal. unfold slice. destruct (decide (offset + n <= length text)%nat).
  - f_equal. lia.
  - rewrite !take_ge; [done|rewrite length_drop; lia..].
Qed.

Lemma FillBuffer_lines r lead p q :
  source_ r = [((0%nat, length text), text)] → read_buffer_size (configuration_ r) = Z.of_nat size → read_full_file_ r = false →
  drop (chunk_offset_ r) text = lead ++ unlines (p ++ q) → leading lead → Forall text_line (p ++ q) → (p = [] → q = []) →
  (length (lead ++ unlines p) <= size)%nat →
  ∃ l1 l2 buffer offset full, p ++ q = l1 ++ l2 ∧ p `prefix_of` l1 ∧ lines_of buffer = l1 ∧ (buffer = [] ↔ l1 = []) ∧
    (if full : bool then l2 = [] else drop offset text = newline :: unlines l2) ∧
    FillBuffer r = Ok (mkCsvFormatReader (source_ r) (configuration_ r) buffer offset full (columns_ r)
      (num_ignore_lines_in_next_chunk_ r) (schema_ r) (error_ r)).
Proof.
  intros Hsrc Hcap Hfull Hdrop Hlead Hls Hpq Hfit. unfold FillBuffer. rewrite Hfull, Hsrc, Hcap, Nat2Z.id, Read_object, Hdrop.
  cbn [rbind]. destruct (cut_buffer_spec size lead p q Hlead Hls Hpq Hsize1 Hfit) as (l1 & l2 & H1 & H2 & H3 & H4 & H5).
  unfold cut_buffer in *. set (buffer := strip_trailing_newlines _) in *.
  exists l1, l2, buffer, (chunk_offset_ r + length buffer)%nat, (negb (length (take size (lead ++ unlines (p ++ q))) =? size)%nat).
  do 4 (split; [done|]). split; [|done]. destruct (_ =? size)%nat; cbn [negb]; [|done].
  by rewrite <- drop_drop, Hdrop.
Qed.

Lemma at_lines_next r l1 l2 skip :
  at_lines r l1 l2 skip → Forall text_line l2 → (∀ l, l ∈ l2 → (length l + 2 <= size)%nat) →
  ∃ r' k1 k2, (r' ← FillBuffer (mkCsvFormatReader (source_ r) (configuration_ r) (buffer_ r) (chunk_offset_ r) (read_full_file_ r)
                 (columns_ r) 0 (schema_ r) (error_ r));
    Ok (set_columns r' (ExtractColumns (buffer_ r') (delimiter (configuration_ r'))))) = Ok r' ∧
    l2 = k1 ++ k2 ∧ (k1 = [] → k2 = []) ∧ at_lines r' k1 k2 0.
Proof.
  intros [Hsrc Hopt _ _ _ Hsch Herr Hrest] Hl2 Hfit. destruct (read_full_file_ r) eqn:Hfull.
  - subst l2. unfold FillBuffer. cbn [read_full_file_ rbind]. eexists _, [], []. split; [done|]. split; [done|]. split; [done|].
    by split; cbn.
  - edestruct (FillBuffer_lines (mkCsvFormatReader (source_ r) (configuration_ r) (buffer_ r) (chunk_offset_ r) false (columns_ r) 0
      (schema_ r) (error_ r)) [newline] (take 1 l2) (drop 1 l2)) as (k1 & k2 & buffer & offset & full & H1 & H2 & H3 & H4 & H5 & H6);
      cbn [source_ configuration_ read_full_file_ chunk_offset_]; rewrite ?take_drop; try done.
    + by rewrite Hopt.
    + by right.
    + by destruct l2.
    + destruct l2 as [|l l2]; cbn; [lia|]. specialize (Hfit l (list_elem_of_here _ _)).
      rewrite take_0. cbn. rewrite !length_app. cbn. lia.
    + rewrite H6. cbn [rbind source_ configuration_ columns_ schema_ error_ num_ignore_lines_in_next_chunk_].
      eexists _, k1, k2. split; [done|]. rewrite take_drop in H1. split; [done|]. split.
      * intros ->. apply prefix_nil_inv in H2. destruct l2; [|done]. by destruct k2.
      * split; unfold set_columns;
          cbn [source_ configuration_ columns_ buffer_ num_ignore_lines_in_next_chunk_ schema_ error_ read_full_file_ chunk_offset_]; try done.
        by rewrite Hopt, Hdelimiter, ExtractColumns_fields, H3.
Qed.

(** A header of [hs] lines that is skipped. *)
Definition header_line (fields : list bytes) : Prop :=
  length fields = length schema ∧ Forall (λ f, ";"%char ∉ f) fields.

Definition fields_of (row : Row) : list bytes := text_of <$> row.
Definition lines (hs : list (list bytes)) (rows : list Row) : list bytes := (joined ";"%char <$> hs) ++ (line_of <$> rows).

Lemma fields_columns hs rows :
  Forall header_line hs → Forall csv_row rows → hs ++ (fields_of <$> rows) ≠ [] →
  let columns := foldl add_line [] ((λ l, Split l ";"%char 0) <$> lines hs rows) in
  length columns = length schema ∧
  ∀ c, (c < length schema)%nat → ∃ h, columns !! c = Some (h ++ (text_of <$> column_of VNull c rows)) ∧ length h = length hs.
Proof.
  intros Hhs Hrows Hne columns.
  assert ((λ l, Split l ";"%char 0) <$> lines hs rows = hs ++ (fields_of <$> rows)) as Hsplit.
  { unfold lines. rewrite fmap_app, <- !list_fmap_compose. f_equal.
    - transitivity (id <$> hs); [|apply list_fmap_id]. apply list_fmap_ext. intros i h Hh. cbn.
      eapply Forall_lookup_1 in Hhs as [Hl Hs]; [|done]. apply Split_joined; [|done]. intros ->. cbn in Hl. lia.
    - apply list_fmap_ext. intros i row Hrow. cbn. apply Split_line. by eapply Forall_lookup_1 in Hrows. }
  subst columns. rewrite Hsplit. destruct (hs ++ (fields_of <$> rows)) as [|f fs] eqn:Hfs; [done|].
  destruct (add_lines (length schema) f fs) as [H1 H2].
  { rewrite <- Hfs. apply Forall_app_2; [eapply Forall_impl; [exact Hhs|]; by intros h [? _]|]. apply Forall_fmap.
    eapply Forall_impl; [exact Hrows|]. intros row Hr. cbn. unfold fields_of. rewrite length_fmap. by apply csv_row_length. }
  split; [done|]. intros c Hc. rewrite H2, <- Hfs by done. unfold column_of. rewrite fmap_app.
  exists ((λ row, from_option id [] (row !! c)) <$> hs). split; [|by rewrite length_fmap]. do 2 f_equal.
  rewrite <- !list_fmap_compose. apply list_fmap_ext. intros i row Hrow. cbn. unfold fields_of. rewrite list_lookup_fmap.
  eapply Forall_lookup_1 in Hrows; [|exact Hrow]. destruct (lookup_lt_is_Some_2 row c) as [v ->]; [|done].
  by rewrite (csv_row_length row Hrows).
Qed.

Lemma next_rows r hs rows l2 :
  at_lines r (lines hs rows) l2 (length hs) → Forall header_line hs → Forall csv_row rows →
  (N.of_nat (length rows) < 2 ^ 32)%N →
  Csv_HasNext r = negb (bool_decide (rows = [])) ∧
  (rows ≠ [] → ∃ chunk, parse_segments convert r = Ok chunk ∧ chunk_rows chunk = Ok rows ∧
     seg_type <$> chunk = tcd_data_type <$> schema).
Proof.
  intros [Hsrc Hopt Hcol Hempty Hskip Hsch Herr _] Hhs Hrows Hcount.
  unfold Csv_HasNext, parse_segments. rewrite Herr, Hsch, Hskip, Hcol. cbn [of_option rbind IsError].
  destruct (decide (hs ++ (fields_of <$> rows) = [])) as [Hnil|Hne].
  { apply app_eq_nil in Hnil as [-> Hnil]. apply fmap_nil_inv in Hnil as ->. cbn. by rewrite andb_false_r. }
  destruct (fields_columns hs rows Hhs Hrows Hne) as [Hl Hc]. split.
  - rewrite bool_decide_false; cbn [negb andb].
    2:{ rewrite Hempty. intros [Hh Hr]%app_eq_nil. apply fmap_nil_inv in Hh, Hr. by subst. }
    destruct (Hc 0%nat Hwidth) as (h & Hh & Hlen). destruct (foldl add_line _ _) as [|column columns]; [done|].
    injection Hh as ->. rewrite length_app, !length_fmap, Hlen. unfold column_of. rewrite length_fmap.
    destruct rows; cbn; [rewrite Nat.add_0_r; by apply Nat.ltb_ge|]. apply Nat.ltb_lt. lia.
  - intros Hr. apply (parse_chunk _ (length hs) rows Hwidth Hcount Hrows Hc).
Qed.

(** Every chunk of the object, in order. *)
Lemma drain_lines fuel r hs rows rest :
  at_lines r (lines hs rows) (line_of <$> rest) (length hs) →
  (rows = [] → rest = []) → Forall header_line hs → Forall csv_row rows → Forall fitting_row rest →
  (N.of_nat (length rows + length rest) < 2 ^ 32)%N → (length rows + length rest < fuel)%nat →
  ∃ cs r', drain (H := CsvFormatReader_reader convert) fuel r = Ok (cs, r') ∧ error_ r' = kNoError ∧
    chunks_rows cs = Ok (rows ++ rest) ∧ Forall (λ c, seg_type <$> c = tcd_data_type <$> schema) cs.
Proof.
  revert r hs rows rest. induction fuel as [|fuel IH]; intros r hs rows rest Hat Hend Hhs Hrows Hrest Hcount Hfuel; [lia|].
  destruct (next_rows r hs rows _ Hat Hhs Hrows) as [Hhas Hnext]; [lia|]. cbn [drain].
  change (HasNext r) with (Csv_HasNext r). rewrite Hhas. destruct (decide (rows = [])) as [->|Hne].
  - rewrite (Hend eq_refl). exists [], r. split; [done|]. split; [by apply (al_error _ _ _ _ Hat)|done].
  - rewrite bool_decide_false by done. cbn [negb]. destruct (Hnext Hne) as (chunk & Hparse & Hchunk & Htypes).
    change (Next r) with (Csv_Next convert r). unfold Csv_Next. rewrite Hparse.
    destruct (at_lines_next r _ _ _ Hat) as (r' & k1 & k2 & Hfill & Hk & Hk12 & Hat').
    { apply Forall_fmap. eapply Forall_impl; [exact Hrest|]. intros row. apply line_of_text. }
    { intros l (row & -> & Hin)%list_elem_of_fmap. rewrite Forall_forall in Hrest. by destruct (Hrest row Hin) as (_ & _ & ?). }
    apply fmap_app_inv in Hk as (rows' & rest' & -> & -> & ->). apply Forall_app in Hrest as [Hrows' Hrest'].
    destruct (FillBuffer _) as [filled|e] eqn:Hf; [|done]. cbn [rbind] in Hfill |- *. injection Hfill as <-.
    rewrite !length_app in *. assert (0 < length rows)%nat by (destruct rows; [done|cbn; lia]).
    edestruct (IH _ [] rows' rest' Hat') as (cs & r' & Hd & Herr & Hr & Ht).
    + intros ->. specialize (Hk12 eq_refl). by apply fmap_nil_inv in Hk12.
    + constructor.
    + eapply Forall_impl; [exact Hrows'|]. by intros row [? _].
    + done.
    + lia.
    + lia.
    + rewrite Hd. cbn [rbind]. exists (chunk :: cs), r'. split; [done|]. split; [done|]. split; [|by constructor].
      by rewrite chunks_rows_cons, Hchunk, Hr.
Qed.

(** The constructor, on an object with a header. *)
Lemma make_lines names rows :
  o = mkCsvFormatReaderOptions (Z.of_nat size) ";"%char false false false true false (Some schema) →
  header_line names → text_line (joined ";"%char names) → Forall fitting_row rows →
  text = unlines (joined ";"%char names :: (line_of <$> rows)) →
  (length (joined ";"%char names) + 1 <= size)%nat →
  (∀ row, row ∈ rows → (length (joined ";"%char names) + length (line_of row) + 2 <= size)%nat) →
  ∃ r rows1 rows2, make_CsvFormatReader [((0%nat, length text), text)] o = Ok r ∧ rows = rows1 ++ rows2 ∧
    (rows1 = [] → rows2 = []) ∧ at_lines r (lines [names] rows1) (line_of <$> rows2) 1.
Proof.
  intros Ho Hnames Hline Hrows Ht Hfit Hfits. unfold make_CsvFormatReader.
  set (header := joined ";"%char names) in *. set (r0 := mkCsvFormatReader _ _ _ _ _ _ _ _ _).
  edestruct (FillBuffer_lines r0 [] (header :: take 1 (line_of <$> rows)) (drop 1 (line_of <$> rows)))
    as (l1 & l2 & buffer & offset & full & H1 & H2 & H3 & H4 & H5 & H6);
    rewrite <- ?app_comm_cons, ?take_drop in *; try done.
  - by left.
  - constructor; [done|]. apply Forall_fmap. eapply Forall_impl; [exact Hrows|]. intros row. apply line_of_text.
  - rewrite unlines_cons. destruct rows as [|row rows]; cbn [app take fmap list_fmap]; [rewrite length_app; cbn; lia|].
    rewrite take_0, unlines_cons, !length_app. cbn. rewrite length_app. cbn. specialize (Hfits row (list_elem_of_here _ _)). lia.
  - rewrite H6. cbn [rbind]. destruct l1 as [|h l1]; [by apply prefix_nil_inv in H2|]. cbn in H1. injection H1 as <- H1.
    apply fmap_app_inv in H1 as (rows1 & rows2 & -> & -> & ->). unfold InitialSetup.
    cbn [configuration_ r0 buffer_]. rewrite Ho. cbn [guess_delimiter guess_has_header guess_has_types csv_expected_schema has_header has_types
      andb delimiter read_buffer_size rbind schema_ Nat.add].
    eexists _, rows1, rows2. split; [done|]. split; [done|]. split.
    + intros ->. destruct rows2 as [|row rows2]; [done|]. apply prefix_cons_inv_2 in H2. by apply prefix_nil_inv in H2.
    + split; cbn [source_ configuration_ columns_ buffer_ num_ignore_lines_in_next_chunk_ schema_ error_ read_full_file_ chunk_offset_]; try done.
      * by rewrite ExtractColumns_fields, H3.
      * cbn [r0 schema_]. by rewrite Ho.
Qed.
End Reading.
End Chunk.

(** ** Writing the object *)
Lemma separated_joined fields : separated (String.list_ascii_of_string ";") fields = joined ";"%char fields.
Proof. induction fields as [|f [|g fields] IH]; [done|done|]. cbn in *. by rewrite IH. Qed.

Lemma csv_line_default fields : csv_line default_csv_writer_options fields = joined ";"%char fields ++ [newline].
Proof. unfold csv_line. cbn [field_separator record_separator default_csv_writer_options]. by rewrite separated_joined. Qed.

Lemma process_chunk_lines n chunk rows :
  (0 < n)%nat → length chunk = n → (N.of_nat n < 2 ^ 32)%N → chunk_rows chunk = Ok rows →
  Csv_ProcessChunk print_float print_double (mkCsvFormatWriter default_csv_writer_options n) chunk =
    Ok (mkCsvFormatWriter default_csv_writer_options n, (λ row, line_of row ++ [newline]) <$> rows).
Proof.
  intros Hn Hl Hw [Hlen Hrows]%for_range_ok. unfold Csv_ProcessChunk. cbn [num_fields_ options_].
  rewrite (proj2 (Nat.eqb_neq n 0)) by lia. unfold chunk_GetColumnCount. rewrite Hl, u32_id, Nat.eqb_refl by done. cbn [assert_ rbind].
  erewrite for_range_eq; [reflexivity|by rewrite length_fmap|].
  intros i line Hi. rewrite list_lookup_fmap in Hi. apply fmap_Some in Hi as (row & Hrow & ->).
  destruct (Hrows i) as (row' & Hrow' & Hr); [rewrite <- Hlen; by eapply lookup_lt_Some|]. rewrite Hrow in Hrow'. injection Hrow' as <-.
  apply mapR_ok_Forall2 in Hr. pose proof (Forall2_length _ _ _ Hr) as Hrl.
  rewrite (for_range_eq n _ (fields_of row)).
  - cbn [rbind]. by rewrite csv_line_default.
  - unfold fields_of. rewrite length_fmap. congruence.
  - intros c f Hf. unfold fields_of in Hf. rewrite list_lookup_fmap in Hf. apply fmap_Some in Hf as (v & Hv & ->).
    destruct (Forall2_lookup_r _ _ _ _ _ Hr Hv) as (s & Hs & Hsi). unfold chunk_GetSegment, vec_at. rewrite Hs. cbn [of_option rbind].
    by rewrite Hsi.
Qed.

Abbreviation export := (ExportOperator_OnExecute (H := CsvFormatWriter_writer print_float print_double) (λ _ _, kNoError)
  (make_CsvFormatWriter default_csv_writer_options)).

Lemma handle_all pieces out :
  write_error out = kNoError →
  write_error (foldl (handle_output (λ _ _, kNoError)) out pieces) = kNoError ∧
  written (foldl (handle_output (λ _ _, kNoError)) out pieces) = written out ++ pieces.
Proof.
  revert out. induction pieces as [|piece pieces IH]; intros out Hout; cbn [foldl]; [by rewrite app_nil_r|].
  assert (handle_output (λ _ _, kNoError) out piece = mkOutput (written out ++ [piece]) kNoError (bytes_written out + length piece)) as ->
    by (unfold handle_output; by rewrite Hout).
  destruct (IH (mkOutput (written out ++ [piece]) kNoError (bytes_written out + length piece)) eq_refl) as [H1 H2].
  split; [done|]. rewrite H2. cbn [written]. by rewrite <- app_assoc.
Qed.

Lemma process_chunks_lines n cs rows out :
  (0 < n)%nat → (N.of_nat n < 2 ^ 32)%N → Forall (λ c, length c = n) cs → chunks_rows cs = Ok rows → write_error out = kNoError →
  ∃ out', process_chunks (H := CsvFormatWriter_writer print_float print_double) (λ _ _, kNoError)
      (mkCsvFormatWriter default_csv_writer_options n) cs out = Ok (mkCsvFormatWriter default_csv_writer_options n, out') ∧
    write_error out' = kNoError ∧ written out' = written out ++ ((λ row, line_of row ++ [newline]) <$> rows).
Proof.
  intros Hn Hw Hcs. revert rows out. induction Hcs as [|c cs Hc _ IH]; intros rows out Hrows Hout.
  - injection Hrows as <-. exists out. cbn. by rewrite app_nil_r.
  - rewrite chunks_rows_cons in Hrows. destruct (chunk_rows c) as [r1|] eqn:Hr1; [|done]. cbn in Hrows.
    destruct (chunks_rows cs) as [r2|]; [|done]. injection Hrows as <-. cbn [process_chunks].
    change (ProcessChunk (mkCsvFormatWriter default_csv_writer_options n) c)
      with (Csv_ProcessChunk print_float print_double (mkCsvFormatWriter default_csv_writer_options n) c).
    rewrite (process_chunk_lines n c r1 Hn Hc Hw Hr1). cbn [rbind].
    destruct (handle_all ((λ row, line_of row ++ [newline]) <$> r1) out Hout) as [He Hwr].
    destruct (IH r2 _ eq_refl He) as (out' & -> & He' & Hwr'). exists out'. do 2 (split; [done|]).
    by rewrite Hwr', Hwr, fmap_app, app_assoc.
Qed.

Lemma export_lines t rows :
  wf_table t → table_rows t = Ok rows →
  ∃ out, export t = Ok out ∧
    concat (written out) = unlines (joined ";"%char ((λ d, String.list_ascii_of_string (tcd_name d)) <$> column_definitions t) :: (line_of <$> rows)).
Proof.
  intros [Hwidth Hw _ Hchunks _] Hrows. unfold ExportOperator_OnExecute.
  set (names := (λ d, String.list_ascii_of_string (tcd_name d)) <$> column_definitions t).
  change (Initialize (make_CsvFormatWriter default_csv_writer_options) (column_definitions t))
    with (Ok (mkCsvFormatWriter default_csv_writer_options (length (column_definitions t)), [csv_line default_csv_writer_options names])).
  cbn [rbind]. destruct (handle_all [csv_line default_csv_writer_options names] (mkOutput [] kNoError 0) eq_refl) as [He Hwr].
  assert (Forall (λ c, length c = length (column_definitions t)) (chunks t)) as Hlen.
  { apply Forall_forall. intros c Hc. destruct (Hchunks c Hc) as [m Hm]. by eapply chunk_length. }
  destruct (process_chunks_lines (length (column_definitions t)) (chunks t) rows
    (foldl (handle_output (λ _ _, kNoError)) (mkOutput [] kNoError 0) [csv_line default_csv_writer_options names])
    Hwidth Hw Hlen Hrows He) as (out & -> & He' & Hwr').
  - cbn [rbind Finalize CsvFormatWriter_writer foldl]. rewrite He'. change (negb (IsError kNoError)) with true. cbn [assert_ rbind]. exists out. split; [done|].
    rewrite Hwr', Hwr. cbn [app concat written]. rewrite csv_line_default, unlines_cons, <- app_assoc. cbn [app]. do 2 f_equal.
    unfold unlines. by rewrite <- list_fmap_compose.
Qed.
End Roundtrip.

(** The options of an import that says what the export wrote. *)
Definition reader_options (size : nat) (schema : TableColumnDefinitions) : CsvFormatReaderOptions :=
  mkCsvFormatReaderOptions (Z.of_nat size) ";"%char false false false true false (Some schema).

(** The column names as the header's fields. *)
Definition header_fields (schema : TableColumnDefinitions) : list bytes := (λ d, String.list_ascii_of_string (tcd_name d)) <$> schema.

(** A table that can be exported as CSV and read back with a buffer of [size] bytes: the values
    and names do not contain the separators, the texts of the values convert back, no line is
    empty, and the header with one row, and every row with two newlines, fit in the buffer. *)
Record csv_exportable convert print_float print_double (size : nat) (t : Table) (rows : list Row) : Prop := {
  ce_table : wf_table t;
  ce_rows : table_rows t = Ok rows;
  ce_count : (N.of_nat (length rows) < 2 ^ 32)%N;
  ce_names : Forall (λ f, (newline ∉ f) ∧ ";"%char ∉ f) (header_fields (column_definitions t));
  ce_header : joined ";"%char (header_fields (column_definitions t)) ≠ [];
  ce_fits : Forall (fitting_row convert print_float print_double (column_definitions t) size) rows;
  ce_size : (1 < size)%nat;
  ce_header_fits : (length (joined ";"%char (header_fields (column_definitions t))) + 1 <= size)%nat;
  ce_first_fits row : row ∈ rows → (length (joined ";"%char (header_fields (column_definitions t))) +
    length (line_of print_float print_double row) + 2 <= size)%nat }.

Lemma csv_object convert print_float print_double (t : Table) (rows : list Row) (size : nat) :
  csv_exportable convert print_float print_double size t rows →
  ∃ out r cs r',
    ExportOperator_OnExecute (H := CsvFormatWriter_writer print_float print_double) (λ _ _, kNoError)
      (make_CsvFormatWriter default_csv_writer_options) t = Ok out ∧
    make_CsvFormatReader [((0%nat, length (concat (written out))), concat (written out))] (reader_options size (column_definitions t)) = Ok r ∧
    schema_ r = Some (column_definitions t) ∧
    drain (H := CsvFormatReader_reader convert) (S (length rows)) r = Ok (cs, r') ∧ error_ r' = kNoError ∧
    chunks_rows cs = Ok rows ∧ Forall (λ c, seg_type <$> c = tcd_data_type <$> column_definitions t) cs.
Proof.
  intros [Hwf Hrows Hcount Hnames Hheader Hfit Hsize Hfit1 Hfits].
  destruct (export_lines print_float print_double t rows Hwf Hrows) as (out & Hout & Htext).
  destruct Hwf as [Hwidth _ _ _ Htyped]. set (names := header_fields (column_definitions t)) in *.
  assert (header_line (column_definitions t) names) as Hh.
  { split; [by unfold names, header_fields; rewrite length_fmap|]. eapply Forall_impl; [exact Hnames|]. by intros f [_ ?]. }
  assert (text_line (joined ";"%char names)) as Hline.
  { split; [|done]. apply joined_no_newline. eapply Forall_impl; [exact Hnames|]. by intros f [? _]. }
  assert (concat (written out) ≠ []) as Hne by (rewrite Htext, unlines_cons; by destruct (joined _ _)).
  destruct (make_lines convert print_float print_double (column_definitions t) (concat (written out)) (reader_options size (column_definitions t))
    size Hne Hwidth eq_refl Hsize names rows eq_refl Hh Hline Hfit Htext Hfit1 Hfits) as (r & rows1 & rows2 & Hr & -> & Hend & Hat).
  apply Forall_app in Hfit as [Hfit1' Hfit2]. rewrite length_app in *.
  destruct (drain_lines convert print_float print_double (column_definitions t) Htyped (concat (written out))
    (reader_options size (column_definitions t)) size Hne Hwidth eq_refl Hsize eq_refl (S (length rows1 + length rows2)) r [names] rows1 rows2)
    as (cs & r' & Hd & He & Hrs & Hts); [done|done|by constructor| |done|lia|lia|].
  { eapply Forall_impl; [exact Hfit1'|]. by intros row [? _]. }
  exists out, r, cs, r'. do 2 (split; [done|]). split; [by apply (al_schema _ _ _ _ _ _ _ Hat)|done].
Qed.

(** C29: (csv_writer.cpp, export_operator.cpp, csv_reader.cpp, object_buffer.cpp) Exporting a table
    as CSV and reading the object with the table's schema gives the rows of the table back,
    for every size of the read buffer that has room for its lines.  The export succeeds; the
    reader delivers chunks whose types are the schema's, then has no more and has no error. *)
Theorem csv_roundtrip convert print_float print_double (t : Table) (rows : list Row) (size : nat) :
  csv_exportable convert print_float print_double size t rows →
  ∃ out r cs r',
    ExportOperator_OnExecute (H := CsvFormatWriter_writer print_float print_double) (λ _ _, kNoError)
      (make_CsvFormatWriter default_csv_writer_options) t = Ok out ∧
    make_CsvFormatReader [((0%nat, length (concat (written out))), concat (written out))] (reader_options size (column_definitions t)) = Ok r ∧
    schema_ r = Some (column_definitions t) ∧
    drain (H := CsvFormatReader_reader convert) (S (length rows)) r = Ok (cs, r') ∧ error_ r' = kNoError ∧
    chunks_rows cs = Ok rows ∧ Forall (λ c, seg_type <$> c = tcd_data_type <$> column_definitions t) cs.
Proof. by apply csv_object. Qed.

(** ** Examples *)
Definition demo_convert (t : DataType) : string → option (ctype t) :=
  match t with
  | kInt => λ s, if decide (s = "1"%string) then Some 1 else if decide (s = "2"%string) then Some 2 else None
  | _ => λ _, None
  end.

Definition csv_example : Table :=
  mkTable [mkTableColumnDefinition "a" kInt false; mkTableColumnDefinition "b" kString false]
    [[mkValueSegment kInt [1; 2] None; mkValueSegment kString ["x"; "y"]%string None]] None.

Lemma csv_example_wf : wf_table csv_example.
Proof.
  split; cbn; [lia|done|done| |by repeat constructor]. intros c ->%list_elem_of_singleton. exists 2%nat.
  split; [done|repeat constructor|repeat constructor|repeat constructor|done|repeat constructor]; done.
Qed.

Abbreviation demo_fits := (fitting_row demo_convert (λ _, EmptyString) (λ _, EmptyString) (column_definitions csv_example) 8).

Lemma not_elem_of_computed (x : ascii) (l : bytes) : bool_decide (x ∈ l) = false → x ∉ l.
Proof. by intros H%bool_decide_eq_false. Qed.

Lemma csv_example_fits : Forall demo_fits [[VInt 1; VString "x"%string]; [VInt 2; VString "y"%string]].
Proof.
  assert (∀ t v x, v = to_variant t x → parse_value demo_convert t (csv_text (λ _, EmptyString) (λ _, EmptyString) v) = Ok x →
    bool_decide (newline ∈ csv_text (λ _, EmptyString) (λ _, EmptyString) v) = false →
    bool_decide (";"%char ∈ csv_text (λ _, EmptyString) (λ _, EmptyString) v) = false →
    csv_value demo_convert (λ _, EmptyString) (λ _, EmptyString) t v) as Hvalue.
  { intros t v x Hv Hp H1 H2. split; [by exists x|]. split; by apply not_elem_of_computed. }
  repeat constructor; first [by apply (Hvalue kInt _ 1)|by apply (Hvalue kInt _ 2)|by apply (Hvalue kString _ "x"%string)
    |by apply (Hvalue kString _ "y"%string)|discriminate|vm_compute; lia].
Qed.

Lemma csv_example_exportable :
  csv_exportable demo_convert (λ _, EmptyString) (λ _, EmptyString) 8 csv_example [[VInt 1; VString "x"%string]; [VInt 2; VString "y"%string]].
Proof.
  split.
  - exact csv_example_wf.
  - by vm_compute.
  - by vm_compute.
  - repeat constructor; by apply not_elem_of_computed.
  - by vm_compute.
  - exact csv_example_fits.
  - lia.
  - vm_compute. lia.
  - intros row Hrow. rewrite !elem_of_cons, elem_of_nil in Hrow. destruct_or!; subst; try done; vm_compute; lia.
Qed.

Lemma csv_roundtrip_witness :
  ∃ out r cs r',
    ExportOperator_OnExecute (H := CsvFormatWriter_writer (λ _, EmptyString) (λ _, EmptyString)) (λ _ _, kNoError)
      (make_CsvFormatWriter default_csv_writer_options) csv_example = Ok out ∧
    make_CsvFormatReader [((0%nat, 12%nat), concat (written out))] (reader_options 8 (column_definitions csv_example)) = Ok r ∧
    drain (H := CsvFormatReader_reader demo_convert) 3 r = Ok (cs, r') ∧ length cs = 2%nat ∧
    chunks_rows cs = Ok [[VInt 1; VString "x"%string]; [VInt 2; VString "y"%string]].
Proof.
  destruct (csv_roundtrip demo_convert (λ _, EmptyString) (λ _, EmptyString) csv_example
    [[VInt 1; VString "x"%string]; [VInt 2; VString "y"%string]] 8 csv_example_exportable) as (out & r & cs & r' & H1 & H2 & _ & H3 & _ & H4 & _).
  exists out, r, cs, r'. split; [exact H1|]. assert (length (concat (written out)) = 12%nat) as Hl
    by (vm_compute in H1; injection H1 as <-; by vm_compute). rewrite Hl in H2. split; [exact H2|]. split; [exact H3|].
  split; [|exact H4]. vm_compute in H1. injection H1 as <-. vm_compute in H2. injection H2 as <-. vm_compute in H3.
  by injection H3 as <- _.
Defined.

(** A line that does not fit in the read buffer ends the reading: no error, and the rows that
    follow are lost. *)
Definition long_line_object : bytes := String.list_ascii_of_string "a" ++ [newline] ++ String.list_ascii_of_string "b" ++ [newline] ++
  String.list_ascii_of_string "long line" ++ [newline] ++ String.list_ascii_of_string "c".

Lemma long_line_stops :
  (r ← make_CsvFormatReader [((0%nat, length long_line_object), long_line_object)]
         (reader_options 5 [mkTableColumnDefinition "a" kString false]);
   '(cs, r) ← drain (H := CsvFormatReader_reader demo_convert) 9 r;
   rows ← chunks_rows cs; Ok (rows, HasError (H := CsvFormatReader_reader demo_convert) r)) = Ok ([[VString "b"%string]], false).
Proof. by vm_compute. Qed.

(** The generated names accumulate. *)
Lemma generated_names_accumulate :
  generated_names EmptyString 0 3 = ["Column1"; "Column1Column2"; "Column1Column2Column3"]%string.
Proof. reflexivity. Qed.
