(* ===== verification/ImportOperator.v ===== *)
(** * The import operator

    [operator/import_operator.cpp]: one job per object drains its reader and appends the
    chunks, reduced to the imported columns, to a shared list; the jobs run concurrently and
    share [reader_error].  [HasError] of a chunk that was read is looked at before the chunk
    is stored. *)

From S2P Require Export ChunkReader.

(** [WaitForTasks] on jobs that have ended, each with the exception it threw.  Only failed
    assertions are captured by a task; waiting on an executor thread does not rethrow them. *)
Definition WaitForJobs (executor_thread : bool) (exceptions : list (option error)) : result unit :=
  _ ← mapR (λ e, match e with
                 | Some AssertionFailed => if executor_thread then Ok tt else Err AssertionFailed
                 | Some e => Err e
                 | None => Ok tt end) exceptions;
  Ok tt.

Lemma WaitForJobs_none executor_thread exceptions : Forall (λ e, e = None) exceptions → WaitForJobs executor_thread exceptions = Ok tt.
Proof. intros He. unfold WaitForJobs. by rewrite (mapR_total _ (λ _, tt)) by (intros e Hin; rewrite Forall_forall in He; by rewrite (He e Hin)). Qed.

Lemma WaitForJobs_executor exceptions :
  Forall (λ e, e = None ∨ e = Some AssertionFailed) exceptions → WaitForJobs true exceptions = Ok tt.
Proof.
  intros He. unfold WaitForJobs. rewrite (mapR_total _ (λ _, tt)); [done|]. intros e Hin. rewrite Forall_forall in He.
  by destruct (He e Hin) as [-> | ->].
Qed.

Lemma WaitForJobs_rethrows exceptions :
  Forall (λ e, e = None ∨ e = Some AssertionFailed) exceptions → Some AssertionFailed ∈ exceptions →
  WaitForJobs false exceptions = Err AssertionFailed.
Proof.
  intros He Hin. unfold WaitForJobs. induction He as [|e es [-> | ->] _ IH]; [by apply elem_of_nil in Hin| |done].
  apply elem_of_cons in Hin as [?|Hin]; [done|]. specialize (IH Hin). cbn. by destruct (mapR _ es).
Qed.

Section ImportTable.
Context {R : Type} `{ChunkReader R}.
Variable column_ids : list nat.

Definition ExtractSchema (reader_schema : option TableColumnDefinitions) : result TableColumnDefinitions :=
  reader_schema ← of_option reader_schema AssertionFailed;
  _ ← assert_ (negb (bool_decide (column_ids = [])) && (length column_ids <=? length reader_schema)%nat) AssertionFailed;
  if (length column_ids =? length reader_schema)%nat then Ok reader_schema
  else mapR (λ id, vec_get reader_schema id) column_ids.

Definition select_columns (chunk : Chunk) : result Chunk :=
  if (chunk_GetColumnCount chunk =? length column_ids)%nat then Ok chunk else mapR (chunk_GetSegment chunk) column_ids.

Definition GetNextChunk (r : R) : result (option Chunk * R) :=
  if HasNext r then
    '(chunk, r) ← Next r;
    match chunk with
    | Some chunk => chunk ← select_columns chunk; Ok (Some chunk, r)
    | None => Ok (None, r)
    end
  else Ok (None, r).

(** ** The jobs *)
Inductive Job : Type :=
  | CheckSchema (r : R)
  | ReadChunk (r : R)
  | StoreChunk (r : R) (chunk : Chunk)
  | CheckError (r : R)
  | JobDone
  | JobException (e : error).

Record ImportState : Type := mkImportState {
  stored_chunks : list Chunk;
  reader_error : StorageErrorType;
  reader_jobs : list Job }.

(** The next access of a job to what the jobs share: its continuation, the chunk it stores and
    the error it writes. *)
Definition job_run (base_table_schema : TableColumnDefinitions) (reader_error : StorageErrorType) (j : Job)
    : Job * option Chunk * option StorageErrorType :=
  match j with
  | CheckSchema r =>
      match GetSchema r with
      | Some schema => if decide (schema = base_table_schema) then (ReadChunk r, None, None) else (JobDone, None, Some kInvalidState)
      | None => (JobException UndefinedBehaviour, None, None)
      end
  | ReadChunk r =>
      match GetNextChunk r with
      | Ok (Some chunk, r) => (if negb (IsError reader_error) && negb (HasError r) then StoreChunk r chunk else CheckError r, None, None)
      | Ok (None, r) => (CheckError r, None, None)
      | Err e => (JobException e, None, None)
      end
  | StoreChunk r chunk => (ReadChunk r, Some chunk, None)
  | CheckError r => (JobDone, None, if HasError r then Some (GetError r) else None)
  | JobDone | JobException _ => (j, None, None)
  end.

Definition ended (j : Job) : bool := match j with JobDone | JobException _ => true | _ => false end.

(** One access of one job, whichever it is. *)
Inductive import_step (base_table_schema : TableColumnDefinitions) : ImportState → ImportState → Prop :=
  | import_job cs err before j after j' chunk err' :
      ended j = false → job_run base_table_schema err j = (j', chunk, err') →
      import_step base_table_schema (mkImportState cs err (before ++ j :: after))
        (mkImportState (cs ++ option_list chunk) (from_option id err err') (before ++ j' :: after)).

Definition initial_import (readers : list R) : ImportState := mkImportState [] kNoError (CheckSchema <$> readers).

Definition job_exception (j : Job) : option error := match j with JobException e => Some e | _ => None end.

(** What [OnExecute] does when all jobs have ended. *)
Definition import_end (executor_thread : bool) (loaded_table_schema : TableColumnDefinitions) (s : ImportState) : result Table :=
  _ ← WaitForJobs executor_thread (job_exception <$> reader_jobs s);
  _ ← assert_ (negb (IsError (reader_error s))) AssertionFailed;
  Ok (mkTable loaded_table_schema (stored_chunks s) None).

(** [OnExecute] up to the scheduling of the jobs: the base and the loaded schema. *)
Definition import_schemas (readers : list R) : result (TableColumnDefinitions * TableColumnDefinitions) :=
  first ← of_option (head readers) UndefinedBehaviour;
  loaded ← ExtractSchema (GetSchema first);
  base ← of_option (GetSchema first) UndefinedBehaviour;
  Ok (base, loaded).

(** The results that the operator can have, given the readers in the order of the queue. *)
Definition ImportResult (executor_thread : bool) (readers : list R) (result : result Table) : Prop :=
  match import_schemas readers with
  | Err e => result = Err e
  | Ok (base, loaded) =>
      ∃ s, rtc (import_step base) (initial_import readers) s ∧ (∀ s', ¬ import_step base s s') ∧
        result = import_end executor_thread loaded s
  end.

(** ** What a reader delivers to its job when no other job interferes *)
Inductive delivers : R → list Chunk → R → Prop :=
  | delivers_end r r' : GetNextChunk r = Ok (None, r') → delivers r [] r'
  | delivers_error r r' chunk : GetNextChunk r = Ok (Some chunk, r') → HasError r' = true → delivers r [] r'
  | delivers_chunk r r' chunk cs r'' :
      GetNextChunk r = Ok (Some chunk, r') → HasError r' = false → delivers r' cs r'' → delivers r (chunk :: cs) r''.

Section Run.
Variable base : TableColumnDefinitions.

(** What is left to be stored by a job, whether it will report an error, and how many steps
    it takes at most. *)
Inductive job_owes : Job → list Chunk → bool → nat → Prop :=
  | owes_mismatch r schema : GetSchema r = Some schema → schema ≠ base → job_owes (CheckSchema r) [] true 1
  | owes_check r cs r' n : GetSchema r = Some base → job_owes (ReadChunk r) cs r' n → job_owes (CheckSchema r) cs r' (S n)
  | owes_read r cs r' : delivers r cs r' → job_owes (ReadChunk r) cs (HasError r') (2 * length cs + 2)
  | owes_store r chunk cs bad n : job_owes (ReadChunk r) cs bad n → job_owes (StoreChunk r chunk) (chunk :: cs) bad (S n)
  | owes_error r : job_owes (CheckError r) [] (HasError r) 1
  | owes_done : job_owes JobDone [] false 0.

Inductive jobs_owe : list Job → list Chunk → bool → nat → Prop :=
  | jobs_owe_nil : jobs_owe [] [] false 0
  | jobs_owe_cons j js cs cs' bad bad' n n' :
      job_owes j cs bad n → jobs_owe js cs' bad' n' → jobs_owe (j :: js) (cs ++ cs') (bad || bad') (n + n').

Lemma jobs_owe_app before after cs bad n :
  jobs_owe (before ++ after) cs bad n ↔
  ∃ cs1 cs2 b1 b2 n1 n2, jobs_owe before cs1 b1 n1 ∧ jobs_owe after cs2 b2 n2 ∧ cs = cs1 ++ cs2 ∧ bad = b1 || b2 ∧ n = (n1 + n2)%nat.
Proof.
  revert cs bad n. induction before as [|j before IH]; intros cs bad n; cbn.
  - split; [intros Ho; exists [], cs, false, bad, 0%nat, n; split; [constructor|done]|].
    intros (cs1 & cs2 & b1 & b2 & n1 & n2 & H1 & H2 & -> & -> & ->). by inversion H1; subst.
  - split.
    + intros Ho. inversion Ho as [|? ? c1 c2 d1 d2 m1 m2 Hj Hjs]; subst. apply IH in Hjs as (cs1 & cs2 & b1 & b2 & n1 & n2 & H1 & H2 & -> & -> & ->).
      exists (c1 ++ cs1), cs2, (d1 || b1), b2, (m1 + n1)%nat, n2. split; [by constructor|]. split; [done|].
      split; [by rewrite app_assoc|]. split; [by rewrite orb_assoc|]. lia.
    + intros (cs1 & cs2 & b1 & b2 & n1 & n2 & H1 & H2 & -> & -> & ->). inversion H1 as [|? ? c1 c2 d1 d2 m1 m2 Hj Hjs]; subst.
      rewrite <- app_assoc, <- orb_assoc, <- Nat.add_assoc. constructor; [done|]. apply IH. by exists c2, cs2, d2, b2, m2, n2.
Qed.

(** A step of a job that owes something: it stores what it owes or reports an error. *)
Lemma job_run_owes err j cs bad n :
  job_owes j cs bad n → ended j = false →
  ∃ j' chunk err' cs' bad' n', job_run base err j = (j', chunk, err') ∧ job_owes j' cs' bad' n' ∧ (n' < n)%nat ∧
    (IsError (from_option id err err') = false → IsError err = false ∧ cs = option_list chunk ++ cs' ∧ bad' = bad) ∧
    (IsError err = true → IsError (from_option id err err') = true) ∧ (bad = true → bad' = true ∨ IsError (from_option id err err') = true) ∧
    (bad' = true → bad = true) ∧ (IsError (from_option id err err') = true → IsError err = true ∨ bad = true).
Proof.
  intros Ho He. inversion Ho as [r schema Hs Hne|r ? r' ? Hs Hr|r ? r' Hd|r chunk ? ? ? Hr|r|]; subst; cbn [job_run ended] in *.
  - rewrite Hs, decide_False by done. eexists JobDone, None, (Some kInvalidState), [], false, 0%nat.
    split; [done|]. split; [constructor|]. split; [lia|]. cbn. repeat split; auto; first [done|congruence].
  - rewrite Hs, decide_True by done. eexists (ReadChunk r), None, None, cs, bad, _. split; [done|]. split; [exact Hr|].
    split; [lia|]. cbn. repeat split; auto.
  - inversion Hd as [? ? Hn|? ? chunk Hn Hb|? r1 chunk cs' ? Hn Hb Hd']; subst; rewrite Hn.
    + eexists (CheckError r'), None, None, [], (HasError r'), 1%nat. split; [done|]. split; [constructor|]. cbn. repeat split; auto; lia.
    + rewrite Hb, andb_false_r. eexists (CheckError r'), None, None, [], (HasError r'), 1%nat. split; [done|]. split; [constructor|].
      rewrite Hb. cbn. repeat split; auto; lia.
    + rewrite Hb. destruct (IsError err) eqn:Herr; cbn [negb andb].
      * eexists (CheckError r1), None, None, [], (HasError r1), 1%nat. split; [done|]. split; [constructor|]. split; [cbn; lia|]. cbn.
        rewrite Herr. repeat split; auto; first [done|congruence].
      * eexists (StoreChunk r1 chunk), None, None, (chunk :: cs'), (HasError r'), _. split; [done|]. split; [by repeat constructor|].
        split; [cbn; lia|]. cbn. rewrite Herr. repeat split; auto.
  - eexists (ReadChunk r), (Some chunk), None, _, bad, _. split; [done|]. split; [exact Hr|]. split; [lia|]. cbn. repeat split; auto.
  - eexists JobDone, None, _, [], false, 0%nat. split; [done|]. split; [constructor|]. split; [lia|]. destruct (HasError r) eqn:Hr; cbn.
    + unfold HasError in Hr. rewrite Hr. repeat split; auto; first [done|congruence].
    + repeat split; auto; first [done|congruence].
  - done.
Qed.

Definition import_inv (total : list Chunk) (bad : bool) (budget : nat) (s : ImportState) : Prop :=
  ∃ cs b n, jobs_owe (reader_jobs s) cs b n ∧ (n <= budget)%nat ∧
    (IsError (reader_error s) = false → stored_chunks s ++ cs ≡ₚ total ∧ b = bad) ∧
    (bad = true → b = true ∨ IsError (reader_error s) = true) ∧ (b = true ∨ IsError (reader_error s) = true → bad = true).

Lemma import_step_inv total bad budget s s' :
  import_inv total bad budget s → import_step base s s' → ∃ budget', (budget' < budget)%nat ∧ import_inv total bad budget' s'.
Proof.
  intros Hi Hs. destruct Hs as [cs0 err before j after j' chunk err' He Hrun]. destruct Hi as (cs & b & n & Ho & Hn & Hok & Hbad & Hbad').
  cbn [reader_jobs reader_error stored_chunks] in *.
  apply jobs_owe_app in Ho as (c1 & c2 & b1 & b2 & n1 & n2 & H1 & H2 & -> & -> & ->).
  inversion H2 as [|? ? cj ca bj ba nj na Hj Ha]; subst.
  destruct (job_run_owes err j cj bj nj Hj He) as (k & chunk' & err'' & cj' & bj' & nj' & Hrun' & Hj' & Hlt & Hc & He1 & He2 & He3 & He4).
  rewrite Hrun in Hrun'. injection Hrun' as <- <- <-.
  exists (n1 + (nj' + na))%nat. split; [lia|]. exists (c1 ++ cj' ++ ca), (b1 || (bj' || ba)), (n1 + (nj' + na))%nat.
  cbn [reader_jobs reader_error stored_chunks]. split.
  { apply jobs_owe_app. exists c1, (cj' ++ ca), b1, (bj' || ba), n1, (nj' + na)%nat. split; [done|]. split; [by constructor|done]. }
  split; [done|]. split; [|split].
  - intros Herr'. destruct (Hc Herr') as (Herr & -> & ->). destruct (Hok Herr) as [Hp <-]. split; [|done]. rewrite <- Hp.
    rewrite <- !app_assoc. apply Permutation_app_head. by rewrite Permutation_app_swap_app.
  - intros Hb. destruct (Hbad Hb) as [Hb'|Herr]; [|right; by apply He1].
    apply orb_true_iff in Hb' as [->|Hb']; [by left|]. apply orb_true_iff in Hb' as [Hb'| ->]; [|left; by rewrite !orb_true_r].
    destruct (He2 Hb') as [-> |]; [left; by rewrite orb_true_r|by right].
  - intros Hb. apply Hbad'. rewrite !orb_true_iff in *. intuition.
Qed.

Lemma import_nsteps_inv total bad budget k s s' :
  import_inv total bad budget s → nsteps (import_step base) k s s' → (k <= budget)%nat ∧ import_inv total bad (budget - k) s'.
Proof.
  intros Hi Hs. revert budget Hi. induction Hs as [s|k s s1 s2 Hstep _ IH]; intros budget Hi.
  - split; [lia|]. by rewrite Nat.sub_0_r.
  - destruct (import_step_inv total bad budget s s1 Hi Hstep) as (budget' & Hlt & Hi').
    assert (import_inv total bad (budget - 1) s1) as Hi1.
    { destruct Hi' as (cs & b & n & ? & ? & ?). exists cs, b, n. split; [done|]. split; [lia|done]. }
    destruct (IH _ Hi1) as [Hk Hi2]. split; [lia|]. by replace (budget - S k)%nat with (budget - 1 - k)%nat by lia.
Qed.

(** A state without a next step. *)
Lemma import_stuck s : (∀ s', ¬ import_step base s s') → Forall (λ j, ended j = true) (reader_jobs s).
Proof.
  intros Hstuck. apply Forall_forall. intros j (before & after & Hj)%list_elem_of_split. apply not_false_iff_true. intros He.
  destruct s as [cs err js]. cbn in Hj. subst js. destruct (job_run base err j) as [[j' chunk] err'] eqn:Hrun.
  by eapply Hstuck, import_job.
Qed.

Lemma ended_owe js cs b n : jobs_owe js cs b n → Forall (λ j, ended j = true) js → cs = [] ∧ b = false ∧ Forall (λ j, j = JobDone) js.
Proof.
  induction 1 as [|j js c1 c2 b1 b2 n1 n2 Hj _ IH]; intros Hall; [done|]. apply Forall_cons in Hall as [He Hall].
  destruct (IH Hall) as (-> & -> & Hd). inversion Hj; subst; try done. split; [done|]. split; [done|]. by constructor.
Qed.

(** A reader with the chunks it would deliver and whether the import must fail because of it. *)
Definition reader_outcome (r : R) (cs : list Chunk) (bad : bool) : Prop :=
  ∃ schema, GetSchema r = Some schema ∧
    if decide (schema = base) then ∃ r', delivers r cs r' ∧ bad = HasError r' else cs = [] ∧ bad = true.

Lemma initial_owe readers css bads :
  Forall2 (λ r cb, reader_outcome r cb.1 cb.2) readers (zip css bads) → length css = length bads →
  ∃ n, jobs_owe (CheckSchema <$> readers) (concat css) (existsb id bads) n.
Proof.
  revert css bads. induction readers as [|r readers IH]; intros [|cs css] [|bad bads] Hall Hl; cbn in *; try (by inversion Hall); try done.
  - exists 0%nat. constructor.
  - apply Forall2_cons in Hall as [(schema & Hs & Hr) Hall]. destruct (IH css bads Hall) as [n Hn]; [lia|]. cbn in Hr.
    destruct (decide (schema = base)) as [->|Hne].
    + destruct Hr as (r' & Hd & ->). eexists. constructor; [|exact Hn]. eapply owes_check; [done|]. by constructor.
    + destruct Hr as [-> ->]. eexists. constructor; [|exact Hn]. by eapply owes_mismatch.
Qed.

Lemma initial_inv readers cs b n : jobs_owe (CheckSchema <$> readers) cs b n → import_inv cs b n (initial_import readers).
Proof. intros Hn. exists cs, b, n. cbn. repeat (split; [by auto|]). by intros [?|?]. Qed.

Lemma import_result executor_thread loaded readers css bads k s :
  Forall2 (λ r cb, reader_outcome r cb.1 cb.2) readers (zip css bads) → length css = length bads →
  nsteps (import_step base) k (initial_import readers) s → (∀ s', ¬ import_step base s s') →
  if existsb id bads then import_end executor_thread loaded s = Err AssertionFailed
  else ∃ cs, import_end executor_thread loaded s = Ok (mkTable loaded cs None) ∧ cs ≡ₚ concat css.
Proof.
  intros Hall Hl Hsteps Hstuck. destruct (initial_owe readers css bads Hall Hl) as [n Hn].
  pose proof (initial_inv readers _ _ _ Hn) as Hi.
  destruct (import_nsteps_inv _ _ _ _ _ _ Hi Hsteps) as (_ & cs & b & m & Ho & _ & Hok & Hbad & Hbad').
  destruct (ended_owe _ _ _ _ Ho (import_stuck s Hstuck)) as (-> & -> & Hdone). unfold import_end.
  rewrite WaitForJobs_none by (apply Forall_fmap; eapply Forall_impl; [exact Hdone|]; by intros j ->). cbn [rbind].
  destruct (IsError (reader_error s)) eqn:Herr; cbn [negb assert_ rbind].
  - by rewrite (Hbad' (or_intror eq_refl)).
  - destruct (existsb id bads); [by destruct (Hbad eq_refl)|]. exists (stored_chunks s). split; [done|].
    destruct (Hok eq_refl) as [Hp _]. by rewrite app_nil_r in Hp.
Qed.

(** The number of steps is bounded. *)
Lemma import_bounded readers css bads :
  Forall2 (λ r cb, reader_outcome r cb.1 cb.2) readers (zip css bads) → length css = length bads →
  ∃ n, ∀ k s, nsteps (import_step base) k (initial_import readers) s → (k <= n)%nat.
Proof.
  intros Hall Hl. destruct (initial_owe readers css bads Hall Hl) as [n Hn]. exists n. intros k s Hs.
  pose proof (initial_inv readers _ _ _ Hn) as Hi.
  by apply (import_nsteps_inv _ _ _ _ _ _ Hi Hs).
Qed.

(** A run can be continued until every job has ended. *)
Lemma import_runs total bad budget s :
  import_inv total bad budget s → ∃ s', rtc (import_step base) s s' ∧ ∀ s'', ¬ import_step base s' s''.
Proof.
  revert s. induction (lt_wf budget) as [budget _ IH]; intros s Hi.
  destruct (decide (Exists (λ j, ended j = false) (reader_jobs s))) as [He|He].
  - apply Exists_exists in He as (j & (before & after & Hj)%list_elem_of_split & He).
    destruct (job_run base (reader_error s) j) as [[j' chunk] err'] eqn:Hrun.
    destruct s as [cs err js]. cbn in Hj, Hrun. subst js.
    pose proof (import_job base cs err before j after j' chunk err' He Hrun) as Hstep.
    destruct (import_step_inv total bad budget _ _ Hi Hstep) as (budget' & Hlt & Hi').
    destruct (IH budget' Hlt _ Hi') as (s' & Hs & Hstuck). exists s'. split; [|done]. by eapply rtc_l.
  - exists s. split; [constructor|]. intros s' Hstep. apply He. destruct Hstep as [cs err before j after j' chunk err' Hj _].
    apply Exists_exists. exists j. cbn. split; [|done]. apply elem_of_app. right. by left.
Qed.
End Run.
End ImportTable.

Lemma import_outcomes {R : Type} `{ChunkReader R} (column_ids : list nat) (readers : list R) base loaded
    (css : list (list Chunk)) (bads : list bool) (executor_thread : bool) :
  import_schemas column_ids readers = Ok (base, loaded) →
  Forall2 (λ r cb, reader_outcome column_ids base r cb.1 cb.2) readers (zip css bads) → length css = length bads →
  (∃ result, ImportResult column_ids executor_thread readers result) ∧
  ∀ result, ImportResult column_ids executor_thread readers result →
    if existsb id bads then result = Err AssertionFailed
    else ∃ cs, result = Ok (mkTable loaded cs None) ∧ cs ≡ₚ concat css.
Proof.
  intros Hschemas Hall Hl. unfold ImportResult. rewrite Hschemas. split.
  - destruct (initial_owe column_ids base readers css bads Hall Hl) as [n Hn].
    destruct (import_runs column_ids base _ _ _ _ (initial_inv column_ids base readers _ _ _ Hn)) as (s & Hs & Hstuck). eauto.
  - intros result (s & [k Hs]%rtc_nsteps_1 & Hstuck & ->).
    by apply (import_result column_ids base executor_thread loaded readers css bads k s).
Qed.

(** C30: (import_operator.cpp) The import of the objects that have been read.  However the jobs of
    the readers interleave, they end after a bounded number of steps.  If the schema of every
    reader is the first one's and no reader reports an error, the result is a table with the
    selected columns of that schema and with exactly the chunks of all readers, in some order;
    if a schema differs or a reader reports an error, the import fails. *)
Theorem ImportOperator_correct {R : Type} `{ChunkReader R} (column_ids : list nat) (readers : list R) base loaded
    (css : list (list Chunk)) (bads : list bool) (executor_thread : bool) :
  import_schemas column_ids readers = Ok (base, loaded) →
  Forall2 (λ r cb, reader_outcome column_ids base r cb.1 cb.2) readers (zip css bads) → length css = length bads →
  (∃ n, ∀ k s, nsteps (import_step column_ids base) k (initial_import readers) s → (k <= n)%nat) ∧
  (∃ result, ImportResult column_ids executor_thread readers result) ∧
  ∀ result, ImportResult column_ids executor_thread readers result →
    if existsb id bads then result = Err AssertionFailed
    else ∃ cs, result = Ok (mkTable loaded cs None) ∧ cs ≡ₚ concat css.
Proof.
  intros Hschemas Hall Hl. split; [by apply (import_bounded column_ids base readers css bads)|].
  by apply (import_outcomes column_ids readers base loaded css bads).
Qed.

(** ** An example: readers that hold their chunks *)
Record ListReader : Type := mkListReader { list_schema : TableColumnDefinitions; list_chunks : list Chunk }.

#[export] Instance ListReader_reader : ChunkReader ListReader :=
  {| HasNext r := negb (bool_decide (length (list_chunks r) = 0%nat));
     Next r := match list_chunks r with
               | c :: cs => Ok (Some c, mkListReader (list_schema r) cs) | [] => Ok (None, r) end;
     GetError _ := kNoError;
     GetSchema r := Some (list_schema r) |}.

Definition demo_schema : TableColumnDefinitions :=
  [mkTableColumnDefinition "a" kInt false; mkTableColumnDefinition "b" kInt false]%string.
Definition demo_chunk (z : Z) : Chunk := [mkValueSegment kInt [z] None; mkValueSegment kInt [z + 1] None].
Definition demo_readers : list ListReader := [mkListReader demo_schema [demo_chunk 1; demo_chunk 2]; mkListReader demo_schema [demo_chunk 3]].

Lemma ImportOperator_correct_witness :
  ∃ cs, ImportResult [1%nat] true demo_readers (Ok (mkTable (drop 1 demo_schema) cs None)) ∧
    cs ≡ₚ (λ z, [mkValueSegment kInt [z] None]) <$> [2; 3; 4].
Proof.
  destruct (ImportOperator_correct [1%nat] demo_readers demo_schema (drop 1 demo_schema)
    [(λ z, [mkValueSegment kInt [z] None]) <$> [2; 3]; [[mkValueSegment kInt [4] None]]] [false; false] true)
    as (_ & (result & Hr) & Hall).
  - reflexivity.
  - constructor; [|constructor; [|constructor]]; (exists demo_schema; split; [reflexivity|]; cbn [fst snd]).
    + exists (mkListReader demo_schema []). split; [|reflexivity].
      eapply (delivers_chunk _ _ (mkListReader demo_schema [demo_chunk 2])); [reflexivity|reflexivity|].
      eapply (delivers_chunk _ _ (mkListReader demo_schema [])); [reflexivity|reflexivity|]. by apply delivers_end.
    + exists (mkListReader demo_schema []). split; [|reflexivity].
      eapply (delivers_chunk _ _ (mkListReader demo_schema [])); [reflexivity|reflexivity|]. by apply delivers_end.
  - reflexivity.
  - destruct (Hall result Hr) as (cs & -> & Hp). exists cs. split; [exact Hr|exact Hp].
Defined.
