(* ===== verification/InputHandler.v ===== *)
(** * The input handler

    [storage/io_handle/input_handler.cpp]: the objects of an import are opened by one set of
    tasks and read by another; the readers are queued as the reads complete.  The object
    store, the reader factory and the metadata of Parquet files are parameters. *)

From Stdlib Require Import Ascii.
From S2P Require Export OperatorProxy ImportOperator.

(** What [OpenForReading] finds under a key, and what [Read] returns. *)
Record StoredObject : Type := mkStoredObject {
  checksum : string;
  status_error : StorageErrorType;
  content : bytes;
  read_error : StorageErrorType }.

Abbreviation BufferedObject := (RequestBuffer * nat)%type.

Section InputHandler.
Variable storage : string → string → StoredObject.
(** [ParquetFormatMetadataReader::CalculatePageOffsets] and the reads of the ranges. *)
Variable CalculatePageOffsets : StoredObject → nat → option (list Z) → result RequestBuffer.
Variable executor_thread : bool.
(** The orders in which the tasks complete. *)
Variable open_order : list ObjectReference → list ObjectReference.
Variable read_order : list (ObjectReference * (nat * StoredObject)) → list (ObjectReference * (nat * StoredObject)).

Definition exception_of {A} (r : result A) : option error := match r with Err e => Some e | Ok _ => None end.

(** One task of [InitializeObjectReaders]. *)
Definition open_task (reference : ObjectReference) : result (string * (nat * StoredObject)) :=
  let object := storage (bucket_name reference) (identifier reference) in
  _ ← assert_ (bool_decide (etag reference = EmptyString) || bool_decide (checksum object = etag reference)) AssertionFailed;
  _ ← assert_ (negb (IsError (status_error object))) AssertionFailed;
  Ok (identifier reference, (length (content object), object)).

(** [insert] of [std::unordered_map] keeps an entry that exists. *)
Definition insert_new {A} (m : gmap string A) (entry : string * A) : gmap string A :=
  match m !! entry.1 with Some _ => m | None => <[entry.1 := entry.2]> m end.

Definition InitializeObjectReaders (references : list ObjectReference) : result (gmap string (nat * StoredObject)) :=
  _ ← WaitForJobs executor_thread ((λ r, exception_of (open_task r)) <$> references);
  Ok (foldl (λ m r, match open_task r with Ok entry => insert_new m entry | Err _ => m end) ∅ (open_order references)).

(** [PrecomputeByteRanges]. *)
Definition PrecomputeByteRanges (import_format : FileFormat) (object : StoredObject) (object_size : nat)
    (partitions : option (list Z)) : result (option RequestBuffer) :=
  match import_format with
  | kCsv | kOrc => Ok None
  | kParquet => buffer ← CalculatePageOffsets object object_size partitions; Ok (Some buffer)
  end.

Definition ReadObjectSyncTask (object : StoredObject) (object_size : nat) : result BufferedObject :=
  _ ← assert_ (negb (IsError (read_error object))) AssertionFailed;
  Ok ([((0%nat, object_size), content object)], object_size).

(** [object_buffer.value()] throws on an empty optional. *)
Definition ReadObjectAsyncTask (import_format : FileFormat) (object : StoredObject) (object_size : nat)
    (partitions : option (list Z)) : result BufferedObject :=
  buffer ← PrecomputeByteRanges import_format object object_size partitions;
  buffer ← of_option buffer BadOptionalAccess;
  _ ← assert_ (negb (IsError (read_error object))) AssertionFailed;
  Ok (buffer, object_size).

Definition read_task (import_format : FileFormat) (task : ObjectReference * (nat * StoredObject)) : result BufferedObject :=
  let '(reference, (object_size, object)) := task in
  if Z.of_nat object_size <? kS3ReadRequestSizeBytes
  then ReadObjectSyncTask object object_size
  else ReadObjectAsyncTask import_format object object_size (partitions reference).

(** [object_readers.find(...)->second]: the end of the map is not an entry. *)
Definition find_reader (object_readers : gmap string (nat * StoredObject)) (reference : ObjectReference)
    : result (ObjectReference * (nat * StoredObject)) :=
  entry ← of_option (object_readers !! identifier reference) UndefinedBehaviour; Ok (reference, entry).

Definition CreateBufferedFormatReaders (import_format : FileFormat) (references : list ObjectReference) : result (list BufferedObject) :=
  object_readers ← InitializeObjectReaders references;
  get_object_tasks ← mapR (find_reader object_readers) references;
  _ ← WaitForJobs executor_thread ((λ t, exception_of (read_task import_format t)) <$> get_object_tasks);
  Ok (omap (λ t, match read_task import_format t with Ok b => Some b | Err _ => None end) (read_order get_object_tasks)).

(** ** The import *)
Context {R : Type} `{ChunkReader R}.
(** [factory->Get(buffer, object_size)]. *)
Variable factory : RequestBuffer → nat → result R.

Definition ImportOperator_OnExecute (references : list ObjectReference) (column_ids : list nat) (import_format : FileFormat)
    (result : result Table) : Prop :=
  match (buffers ← CreateBufferedFormatReaders import_format references; mapR (λ b, factory b.1 b.2) buffers) with
  | Err e => result = Err e
  | Ok readers => ImportResult column_ids executor_thread readers result
  end.

(** ** The objects that are read *)
Definition object_of (reference : ObjectReference) : StoredObject := storage (bucket_name reference) (identifier reference).
Definition readable (reference : ObjectReference) : Prop := IsError (read_error (object_of reference)) = false.
#[export] Instance readable_dec r : Decision (readable r).
Proof. unfold readable. apply _. Defined.

Definition buffer_of (reference : ObjectReference) : BufferedObject :=
  let object := object_of reference in ([((0%nat, length (content object)), content object)], length (content object)).

(** Keys identify objects among the references, and every object can be opened and is small. *)
Record available (references : list ObjectReference) : Prop := {
  av_open r : r ∈ references → ∃ entry, open_task r = Ok entry;
  av_small r : r ∈ references → Z.of_nat (length (content (object_of r))) < kS3ReadRequestSizeBytes;
  av_keys r r' : r ∈ references → r' ∈ references → identifier r = identifier r' → bucket_name r = bucket_name r' }.

Hypothesis Hopen : ∀ l, open_order l ≡ₚ l.
Hypothesis Hread : ∀ l, read_order l ≡ₚ l.

Lemma open_task_ok r entry : open_task r = Ok entry → entry = (identifier r, (length (content (object_of r)), object_of r)).
Proof. unfold open_task. intros Ht. destruct (_ || _); [|done]. destruct (IsError _); [done|]. by injection Ht as <-. Qed.

Lemma open_task_err r e : open_task r = Err e → e = AssertionFailed.
Proof. unfold open_task. intros Ht. destruct (_ || _); [|by injection Ht]. destruct (IsError _); [by injection Ht|done]. Qed.

Lemma opened_lookup references l m :
  available references → (∀ r, r ∈ l → r ∈ references) →
  (∀ r e, r ∈ references → m !! identifier r = Some e → e = (length (content (object_of r)), object_of r)) →
  let m' := foldl (λ m r, match open_task r with Ok entry => insert_new m entry | Err _ => m end) m l in
  (∀ r e, r ∈ references → m' !! identifier r = Some e → e = (length (content (object_of r)), object_of r)) ∧
  ∀ r, r ∈ l ∨ is_Some (m !! identifier r) → is_Some (m' !! identifier r).
Proof.
  intros Hav. revert m. induction l as [|x l IH]; intros m Hl Hm; cbn [foldl]; [split; [done|]; by intros r [?%elem_of_nil|]|].
  assert (x ∈ references) as Hx by (apply Hl; by left). destruct (av_open _ Hav x Hx) as [entry He]. rewrite He.
  apply open_task_ok in He as ->. set (m1 := insert_new m _).
  assert (∀ r e, r ∈ references → m1 !! identifier r = Some e → e = (length (content (object_of r)), object_of r)) as Hm1.
  { intros r e Hr. unfold m1, insert_new. cbn [fst snd]. destruct (m !! identifier x); [by apply Hm|].
    destruct (decide (identifier x = identifier r)) as [Heq|Hne].
    - rewrite Heq, lookup_insert_eq. intros [= <-]. unfold object_of. by rewrite Heq, (av_keys _ Hav x r Hx Hr Heq).
    - rewrite lookup_insert_ne by done. by apply Hm. }
  assert (∀ r, r ∈ x :: l ∨ is_Some (m !! identifier r) → r ∈ l ∨ is_Some (m1 !! identifier r)) as Hsome.
  { intros r Hr. unfold m1, insert_new. cbn [fst snd]. destruct (m !! identifier x) as [e|] eqn:Hex.
    - destruct Hr as [[-> |Hr]%elem_of_cons|Hr]; [right; by eexists|by left|by right].
    - destruct Hr as [[-> |Hr]%elem_of_cons|Hr]; [right; by rewrite lookup_insert_eq|by left|right].
      destruct (decide (identifier x = identifier r)) as [->|]; [by rewrite lookup_insert_eq|by rewrite lookup_insert_ne]. }
  destruct (IH m1) as [H1 H2]; [intros r Hr; apply Hl; by right|done|]. split; [done|]. intros r Hr. by apply H2, Hsome.
Qed.

(** Every reference finds its own object. *)
Lemma readers_found references :
  available references →
  ∃ m, InitializeObjectReaders references = Ok m ∧
    mapR (find_reader m) references = Ok ((λ r, (r, (length (content (object_of r)), object_of r))) <$> references).
Proof.
  intros Hav. unfold InitializeObjectReaders. rewrite WaitForJobs_none.
  2:{ apply Forall_fmap, Forall_forall. intros r Hr. cbn. by destruct (av_open _ Hav r Hr) as [entry ->]. }
  cbn [rbind]. eexists. split; [done|].
  destruct (opened_lookup references (open_order references) ∅ Hav) as [H1 H2].
  { intros r. by rewrite Hopen. }
  { intros r e _. by rewrite lookup_empty. }
  apply mapR_total. intros r Hr. unfold find_reader. destruct (H2 r) as [e He]; [left; by rewrite Hopen|]. rewrite He.
  by rewrite (H1 r e Hr He).
Qed.

Lemma read_small import_format references r :
  available references → r ∈ references →
  read_task import_format (r, (length (content (object_of r)), object_of r)) =
    if decide (readable r) then Ok (buffer_of r) else Err AssertionFailed.
Proof.
  intros Hav Hr. unfold read_task. rewrite (proj2 (Z.ltb_lt _ _) (av_small _ Hav r Hr)). unfold ReadObjectSyncTask.
  case_decide as Hread'; unfold readable in Hread'; by destruct (IsError (read_error (object_of r))).
Qed.

(** On an executor thread the objects that cannot be read are left out; on another thread the
    first failed read is rethrown. *)
Lemma CreateBufferedFormatReaders_available import_format references :
  available references →
  if executor_thread || bool_decide (Forall readable references)
  then ∃ queue, CreateBufferedFormatReaders import_format references = Ok queue ∧ queue ≡ₚ buffer_of <$> filter readable references
  else CreateBufferedFormatReaders import_format references = Err AssertionFailed.
Proof.
  intros Hav. unfold CreateBufferedFormatReaders. destruct (readers_found references Hav) as (m & -> & Hm). cbn [rbind]. rewrite Hm.
  cbn [rbind]. set (tasks := _ <$> references).
  assert (∀ t, t ∈ tasks → exception_of (read_task import_format t) = if decide (readable t.1) then None else Some AssertionFailed) as Htask.
  { intros t (r & -> & Hr)%list_elem_of_fmap. rewrite (read_small import_format references r Hav Hr). cbn. by case_decide. }
  assert (Forall (λ e, e = None ∨ e = Some AssertionFailed) ((λ t, exception_of (read_task import_format t)) <$> tasks)) as Hex.
  { apply Forall_fmap, Forall_forall. intros t Ht. cbn. rewrite (Htask t Ht). case_decide; auto. }
  assert (∃ queue, omap (λ t, match read_task import_format t with Ok b => Some b | Err _ => None end) (read_order tasks) = queue ∧
    queue ≡ₚ buffer_of <$> filter readable references) as (queue & -> & Hq).
  { eexists. split; [done|]. rewrite Hread. subst tasks. clear -Hav. 
    assert (∀ r, r ∈ references → r ∈ references) as Hin by done. revert Hin. generalize references at 1 3 4. intros l Hin.
    induction l as [|r l IH]; [done|]. cbn [fmap list_fmap omap list_omap]. rewrite (read_small import_format references r Hav) by (apply Hin; by left).
    rewrite filter_cons. case_decide; cbn; rewrite IH by (intros x Hx; apply Hin; by right); done. }
  destruct (bool_decide (Forall readable references)) eqn:Hall.
  - rewrite orb_true_r. rewrite WaitForJobs_none; [cbn; by exists queue|]. apply Forall_fmap, Forall_forall. intros t Ht. cbn. rewrite (Htask t Ht).
    apply bool_decide_eq_true in Hall. rewrite Forall_forall in Hall. apply list_elem_of_fmap in Ht as (r & -> & Hr). by rewrite decide_True by (by apply Hall).
  - rewrite orb_false_r. destruct executor_thread.
    + rewrite WaitForJobs_executor by done. cbn. by exists queue.
    + rewrite WaitForJobs_rethrows; [done|done|]. apply bool_decide_eq_false, not_Forall_Exists in Hall; [|apply _].
      apply Exists_exists in Hall as (r & Hr & Hn). apply list_elem_of_fmap. exists (r, (length (content (object_of r)), object_of r)).
      assert ((r, (length (content (object_of r)), object_of r)) ∈ tasks) as Ht by (apply list_elem_of_fmap; by exists r).
      split; [|done]. by rewrite (Htask _ Ht), decide_False.
Qed.

Lemma opened_only k l m :
  foldl (λ m r, match open_task r with Ok entry => insert_new m entry | Err _ => m end) m l !! k ≠ None →
  m !! k ≠ None ∨ ∃ r entry, r ∈ l ∧ identifier r = k ∧ open_task r = Ok entry.
Proof.
  revert m. induction l as [|x l IH]; intros m Hk; [by left|]. cbn [foldl] in Hk. destruct (IH _ Hk) as [Hm|(r & entry & Hr & Heq & Ho)].
  - destruct (open_task x) as [entry|] eqn:Ho; [|by left]. unfold insert_new in Hm. destruct (m !! entry.1) eqn:He; [by left|].
    destruct (decide (entry.1 = k)) as [<-|Hne]; [|left; by rewrite lookup_insert_ne in Hm].
    right. exists x, entry. split; [by left|]. split; [|done]. by rewrite (open_task_ok _ _ Ho).
  - right. exists r, entry. split; [by right|done].
Qed.

(** An object that cannot be opened: the entry is missing in the map, and it is dereferenced. *)
Lemma CreateBufferedFormatReaders_missing import_format references r :
  executor_thread = true → r ∈ references →
  (∀ r', r' ∈ references → identifier r' = identifier r → ∃ e, open_task r' = Err e) →
  CreateBufferedFormatReaders import_format references = Err UndefinedBehaviour.
Proof.
  intros Hexec Hr Hfail. unfold CreateBufferedFormatReaders, InitializeObjectReaders. rewrite Hexec, WaitForJobs_executor.
  2:{ apply Forall_fmap, Forall_forall. intros x _. cbn. destruct (open_task x) as [|e] eqn:He; [by left|].
      right. by rewrite (open_task_err x e He). }
  cbn [rbind]. set (m := foldl _ ∅ _).
  assert (m !! identifier r = None) as Hm.
  { destruct (m !! identifier r) eqn:He; [|done]. destruct (opened_only (identifier r) (open_order references) ∅) as [He'|(x & entry & Hx & Heq & Ho)].
    - unfold m in He. by rewrite He.
    - by rewrite lookup_empty in He'.
    - rewrite Hopen in Hx. destruct (Hfail x Hx Heq) as [e He']. congruence. }
  destruct (mapR (find_reader m) references) as [tasks|e] eqn:Hmap; cbn [rbind].
  - exfalso. apply mapR_ok_Forall2 in Hmap. apply list_elem_of_lookup in Hr as [i Hi].
    destruct (Forall2_lookup_l _ _ _ _ _ Hmap Hi) as (y & _ & Hy). unfold find_reader in Hy. by rewrite Hm in Hy.
  - apply mapR_err in Hmap as (x & _ & Hx). unfold find_reader in Hx. destruct (m !! identifier x); [done|]. by injection Hx as <-.
Qed.
End InputHandler.

(** (input_handler.cpp, fragment_scheduler.cpp, abstract_task.cpp) Objects that cannot be
    read.  The operators of a fragment run on executor threads, where waiting for the reading
    tasks does not rethrow: if every object can be opened and is smaller than a read request,
    the import goes on with the objects whose read succeeded, each buffered completely under
    its own key, and the others are left out without an error.  Only on another thread is a
    failed read reported.  If an object cannot be opened, its missing entry in the map of
    readers is dereferenced. *)
Theorem CreateBufferedFormatReaders_failures storage CalculatePageOffsets executor_thread open_order read_order import_format references :
  (∀ l, open_order l ≡ₚ l) → (∀ l, read_order l ≡ₚ l) →
  let readers := CreateBufferedFormatReaders storage CalculatePageOffsets executor_thread open_order read_order import_format references in
  (available storage references →
     if executor_thread || bool_decide (Forall (readable storage) references)
     then ∃ queue, readers = Ok queue ∧ queue ≡ₚ buffer_of storage <$> filter (readable storage) references
     else readers = Err AssertionFailed) ∧
  (∀ r, executor_thread = true → r ∈ references →
     (∀ r', r' ∈ references → identifier r' = identifier r → ∃ e, open_task storage r' = Err e) →
     readers = Err UndefinedBehaviour).
Proof.
  intros Hopen Hread readers. split.
  - by apply CreateBufferedFormatReaders_available.
  - intros r. by apply CreateBufferedFormatReaders_missing.
Qed.

(** ** An example: the second object cannot be read *)
Definition demo_storage (bucket key : string) : StoredObject :=
  mkStoredObject EmptyString kNoError ["a"%char] (if decide (key = "broken"%string) then kIOError else kNoError).
Definition demo_references : list ObjectReference :=
  [mkObjectReference "bucket" "intact" EmptyString None; mkObjectReference "bucket" "broken" EmptyString None]%string.

Lemma CreateBufferedFormatReaders_failures_witness :
  ∃ queue, CreateBufferedFormatReaders demo_storage (λ _ _ _, Err UndefinedBehaviour) true id id kCsv demo_references = Ok queue ∧
    length queue = 1%nat.
Proof.
  destruct (CreateBufferedFormatReaders_failures demo_storage (λ _ _ _, Err UndefinedBehaviour) true id id kCsv demo_references)
    as [Hav _]; [done|done|].
  destruct Hav as (queue & Hq & Hp).
  - split.
    + intros r [-> | ->%list_elem_of_singleton]%elem_of_cons; by eexists.
    + intros r [-> | ->%list_elem_of_singleton]%elem_of_cons; done.
    + intros r r' [-> | ->%list_elem_of_singleton]%elem_of_cons [-> | ->%list_elem_of_singleton]%elem_of_cons; done.
  - exists queue. split; [exact Hq|]. by rewrite Hp.
Defined.
