(* ===== verification/ExportImport.v ===== *)
(** * What is exported is imported

    The composition of [CsvRoundtrip], [InputHandler] and [ImportOperator]: the objects that
    the exports of one pipeline write are the rows that the import of the next reads, for
    every order in which tasks complete and jobs interleave. *)

From Stdlib Require Import Ascii Permutation.
From S2P Require Import Filter.
From S2P Require Export CsvRoundtrip InputHandler.

(** A reader that stops at its first error delivers to its job what it delivers alone. *)
Lemma drain_delivers {R : Type} `{ChunkReader R} (column_ids : list nat) fuel (r : R) cs r' :
  (∀ r : R, HasError r = true → HasNext r = false) →
  drain fuel r = Ok (cs, r') → HasError r' = false → Forall (λ c, chunk_GetColumnCount c = length column_ids) cs →
  delivers column_ids r cs r'.
Proof.
  intros Hstop. revert r cs. induction fuel as [|fuel IH]; intros r cs Hd Hok Hcs; cbn [drain] in Hd; [done|].
  destruct (HasNext r) eqn:Hnext; [|injection Hd as <- <-; apply delivers_end; unfold GetNextChunk; by rewrite Hnext].
  destruct (Next r) as [[[chunk|] r1]|e] eqn:Hn; cbn [rbind] in Hd; [| |done].
  - destruct (drain fuel r1) as [[cs' r2]|e] eqn:Hd'; cbn [rbind] in Hd; [|done]. injection Hd as <- <-.
    apply Forall_cons in Hcs as [Hc Hcs]. apply delivers_chunk with r1.
    + unfold GetNextChunk. rewrite Hnext, Hn. cbn [rbind]. unfold select_columns. by rewrite Hc, Nat.eqb_refl.
    + destruct (HasError r1) eqn:Herr; [|done]. destruct fuel as [|fuel]; [done|]. cbn [drain] in Hd'.
      rewrite (Hstop _ Herr) in Hd'. injection Hd' as <- <-. congruence.
    + by apply IH.
  - injection Hd as <- <-. apply delivers_end. unfold GetNextChunk. by rewrite Hnext, Hn.
Qed.

Lemma mapR_exists {A B} (f : A → result B) (P : A → B → Prop) (l : list A) :
  Forall (λ x, ∃ y, f x = Ok y ∧ P x y) l → ∃ ys, mapR f l = Ok ys ∧ Forall2 P l ys.
Proof.
  induction 1 as [|x l (y & Hy & HP) _ (ys & Hys & HF)]; [by exists []|].
  exists (y :: ys). cbn. rewrite Hy. cbn. rewrite Hys. split; [done|by constructor].
Qed.

Lemma chunks_rows_concat (css : list (list Chunk)) (rss : list (list Row)) :
  Forall2 (λ cs rows, chunks_rows cs = Ok rows) css rss → chunks_rows (concat css) = Ok (concat rss).
Proof.
  unfold chunks_rows. induction 1 as [|cs rows css rss Hc _ IH]; [done|]. cbn [concat]. rewrite mapR_app.
  destruct (mapR chunk_rows cs) as [x|]; [|done]. destruct (mapR chunk_rows (concat css)) as [y|]; [|done].
  cbn in *. injection Hc as <-. injection IH as IH. by rewrite concat_app, IH.
Qed.

Lemma chunks_rows_Permutation cs cs' rows :
  cs ≡ₚ cs' → chunks_rows cs = Ok rows → ∃ rows', chunks_rows cs' = Ok rows' ∧ rows ≡ₚ rows'.
Proof.
  unfold chunks_rows. intros HP Hrows. destruct (mapR chunk_rows cs) as [x|] eqn:Hx; [|done]. cbn in Hrows. injection Hrows as <-.
  destruct (mapR_Permutation _ _ _ _ HP Hx) as (y & -> & HP'). eexists. split; [done|]. by apply concat_Permutation.
Qed.

Lemma filter_Forall {A} (P : A → Prop) `{∀ x, Decision (P x)} (l : list A) : Forall P l → filter P l = l.
Proof. induction 1 as [|x l Hx _ IH]; [done|]. by rewrite filter_cons, decide_True, IH. Qed.

Section Pipeline.
Variable convert : ∀ t, string → option (ctype t).
Variables (print_float : ctype kFloat → string) (print_double : ctype kDouble → string).
Variable schema : TableColumnDefinitions.
Variable size : nat.
Variable storage : string → string → StoredObject.

(** A reference whose object is what the export of a table has written. *)
Record exported (reference : ObjectReference) (t : Table) (rows : list Row) : Prop := {
  ex_table : csv_exportable convert print_float print_double size t rows;
  ex_schema : column_definitions t = schema;
  ex_etag : etag reference = EmptyString ∨ checksum (object_of storage reference) = etag reference;
  ex_status : status_error (object_of storage reference) = kNoError;
  ex_read : read_error (object_of storage reference) = kNoError;
  ex_content out : ExportOperator_OnExecute (H := CsvFormatWriter_writer print_float print_double) (λ _ _, kNoError)
      (make_CsvFormatWriter default_csv_writer_options) t = Ok out → content (object_of storage reference) = concat (written out);
  ex_small : Z.of_nat (length (content (object_of storage reference))) < kS3ReadRequestSizeBytes }.

Abbreviation factory := (λ (b : RequestBuffer) (_ : nat), make_CsvFormatReader b (reader_options size schema)).

(** The reader of an exported object delivers the rows of its table. *)
Lemma exported_reader reference t rows :
  exported reference t rows →
  ∃ r cs, factory (buffer_of storage reference).1 (buffer_of storage reference).2 = Ok r ∧
    reader_outcome (H := CsvFormatReader_reader convert) (seq 0 (length schema)) schema r cs false ∧ chunks_rows cs = Ok rows ∧
    GetSchema (ChunkReader := CsvFormatReader_reader convert) r = Some schema.
Proof.
  intros [Ht Hs _ _ _ Hc _]. pose proof (wft_width _ (ce_table _ _ _ _ _ _ Ht)) as Hw. rewrite Hs in Hw.
  destruct (csv_object _ _ _ _ _ _ Ht) as (out & r & cs & r' & Hout & Hr & Hsch & Hd & He & Hrows & Htypes). rewrite Hs in *.
  exists r, cs. cbn [fst buffer_of]. rewrite (Hc _ Hout). split; [done|]. split; [|by split].
  exists schema. split; [done|]. rewrite decide_True by done. exists r'.
  assert (HasError (H := CsvFormatReader_reader convert) r' = false) as Hno.
  { unfold HasError. change (GetError r') with (error_ r'). by rewrite He. }
  split; [|by rewrite Hno]. apply (drain_delivers _ (S (length rows))); [|done|done|].
  - intros r1. unfold HasError. change (GetError r1) with (error_ r1). change (HasNext r1) with (Csv_HasNext r1).
    unfold Csv_HasNext. by intros ->.
  - eapply Forall_impl; [exact Htypes|]. intros c Hc'. apply (f_equal length) in Hc'. rewrite !length_fmap in Hc'.
    unfold chunk_GetColumnCount. rewrite length_seq, Hc'. by apply u32_id.
Qed.

Abbreviation Exported := (ObjectReference * Table * list Row)%type.
Abbreviation is_exported := (λ x : Exported, exported x.1.1 x.1.2 x.2).

Lemma exported_available (objects : list Exported) :
  Forall is_exported objects →
  (∀ x y, x ∈ objects → y ∈ objects → identifier x.1.1 = identifier y.1.1 → bucket_name x.1.1 = bucket_name y.1.1) →
  available storage ((λ x, x.1.1) <$> objects) ∧ Forall (readable storage) ((λ x, x.1.1) <$> objects).
Proof.
  intros Hall Hkeys. rewrite Forall_forall in Hall. split; [split|].
  - intros r (x & -> & Hx)%list_elem_of_fmap. destruct (Hall x Hx) as [_ _ He Hs _ _ _]. unfold open_task, object_of in *.
    rewrite Hs. destruct He as [->| ->]; eexists; [by rewrite bool_decide_true|]. by rewrite (bool_decide_true (etag _ = etag _)), orb_true_r.
  - intros r (x & -> & Hx)%list_elem_of_fmap. by apply (ex_small _ _ _ (Hall x Hx)).
  - intros r r' (x & -> & Hx)%list_elem_of_fmap (y & -> & Hy)%list_elem_of_fmap. by apply Hkeys.
  - apply Forall_fmap, Forall_forall. intros x Hx. unfold readable, compose. cbn. by rewrite (ex_read _ _ _ (Hall x Hx)).
Qed.

(** The readers of a permutation of the objects, with what they deliver. *)
Lemma exported_readers (objects : list Exported) :
  Forall is_exported objects →
  ∃ readers css, mapR (λ b, factory b.1 b.2) ((λ x : Exported, buffer_of storage x.1.1) <$> objects) = Ok readers ∧
    Forall2 (λ r cb, reader_outcome (H := CsvFormatReader_reader convert) (seq 0 (length schema)) schema r cb.1 cb.2)
      readers (zip css (replicate (length objects) false)) ∧
    Forall2 (λ cs rows, chunks_rows cs = Ok rows) css (snd <$> objects) ∧
    Forall (λ r, GetSchema (ChunkReader := CsvFormatReader_reader convert) r = Some schema) readers ∧
    length readers = length objects.
Proof.
  induction 1 as [|x objects Hx _ (readers & css & Hr & Ho & Hc & Hs & Hl)]; [by exists [], []|].
  destruct (exported_reader _ _ _ Hx) as (r & cs & Hr1 & Ho1 & Hc1 & Hs1). exists (r :: readers), (cs :: css).
  cbn [fmap list_fmap mapR length]. rewrite Hr1. cbn [rbind]. rewrite Hr. cbn. split; [done|]. repeat split; try by constructor. lia.
Qed.
End Pipeline.

(** C31: (export_operator.cpp, csv_writer.cpp, input_handler.cpp, csv_reader.cpp, import_operator.cpp)
    What one pipeline exports, the next imports.  If every referenced object holds what the
    CSV export of a table wrote, all tables have the same schema, keys identify the objects
    and the objects are smaller than a read request, then, however the tasks complete and the
    readers' jobs interleave, the import of all columns ends, and always with a table of that
    schema whose rows are exactly the rows of all tables. *)
Theorem exported_tables_imported convert print_float print_double schema size storage CalculatePageOffsets executor_thread
    open_order read_order (objects : list (ObjectReference * Table * list Row)) :
  (∀ l, open_order l ≡ₚ l) → (∀ l, read_order l ≡ₚ l) → objects ≠ [] →
  Forall (λ x, exported convert print_float print_double schema size storage x.1.1 x.1.2 x.2) objects →
  (∀ x y, x ∈ objects → y ∈ objects → identifier x.1.1 = identifier y.1.1 → bucket_name x.1.1 = bucket_name y.1.1) →
  let import := ImportOperator_OnExecute (H := CsvFormatReader_reader convert) storage CalculatePageOffsets executor_thread open_order
    read_order (λ b _, make_CsvFormatReader b (reader_options size schema)) ((λ x, x.1.1) <$> objects) (seq 0 (length schema)) kCsv in
  (∃ result, import result) ∧
  ∀ result, import result →
    ∃ t rows, result = Ok t ∧ column_definitions t = schema ∧ table_rows t = Ok rows ∧ rows ≡ₚ concat (snd <$> objects).
Proof.
  intros Hopen Hread Hne Hall Hkeys import. destruct (exported_available _ _ _ _ _ _ objects Hall Hkeys) as [Hav Hrd].
  pose proof (CreateBufferedFormatReaders_available storage CalculatePageOffsets executor_thread open_order read_order Hopen Hread kCsv _ Hav) as Hq.
  rewrite (bool_decide_true _ Hrd), orb_true_r in Hq. destruct Hq as (queue & Hq & HP).
  rewrite (filter_Forall _ _ Hrd), <- list_fmap_compose in HP. apply Permutation_map_inv in HP as (objects' & -> & HP').
  assert (Forall (λ x, exported convert print_float print_double schema size storage x.1.1 x.1.2 x.2) objects') as Hall' by (by rewrite <- HP').
  destruct (exported_readers _ _ _ _ _ _ objects' Hall') as (readers & css & Hr & Ho & Hc & Hs & Hl).
  assert (import_schemas (H := CsvFormatReader_reader convert) (seq 0 (length schema)) readers = Ok (schema, schema)) as Hschemas.
  { destruct readers as [|r readers]; [destruct objects' as [|x objects']; [by apply Permutation_nil_r in HP'|done]|].
    apply Forall_cons in Hs as [Hs _]. unfold import_schemas. cbn [head of_option rbind]. rewrite Hs. unfold ExtractSchema. cbn [of_option rbind].
    rewrite length_seq, Nat.eqb_refl, Nat.leb_refl. destruct objects' as [|x objects']; [done|]. apply Forall_cons in Hall' as [Hx _].
    pose proof (wft_columns _ (ce_table _ _ _ _ _ _ (ex_table _ _ _ _ _ _ _ _ _ Hx))) as Hw. rewrite (ex_schema _ _ _ _ _ _ _ _ _ Hx) in Hw.
    by destruct schema as [|d schema']; [cbn in Hw; lia|]. }
  destruct (import_outcomes (H := CsvFormatReader_reader convert) _ readers schema schema css (replicate (length objects') false) executor_thread
    Hschemas Ho) as [Hex Himp]; [apply Forall2_length in Hc; by rewrite length_fmap in Hc; rewrite length_replicate|].
  assert (∀ result, import result ↔ ImportResult (H := CsvFormatReader_reader convert) (seq 0 (length schema)) executor_thread readers result) as Hiff.
  { intros result. unfold import, ImportOperator_OnExecute. rewrite Hq. cbn [rbind].
    by rewrite (Hr : mapR _ (map (buffer_of storage ∘ (λ x : ObjectReference * Table * list Row, x.1.1)) objects') = Ok readers). }
  split; [destruct Hex as [result Hres]; exists result; by apply Hiff|]. intros result Hres%Hiff%Himp.
  assert (existsb id (replicate (length objects') false) = false) as Hno by (clear; by induction (length objects')). rewrite Hno in Hres.
  destruct Hres as (cs & -> & Hcs). symmetry in Hcs. destruct (chunks_rows_Permutation _ _ _ Hcs (chunks_rows_concat _ _ Hc)) as (rows & Hrows & HPr).
  exists (mkTable schema cs None), rows. do 3 (split; [done|]). rewrite <- HPr. apply concat_Permutation. by rewrite HP'.
Qed.

(** Two objects with the table of [csv_example], read in the opposite order. *)
Definition stored_example (bucket key : string) : StoredObject :=
  mkStoredObject EmptyString kNoError (String.list_ascii_of_string "a;b" ++ [newline] ++ String.list_ascii_of_string "1;x" ++ [newline] ++
    String.list_ascii_of_string "2;y" ++ [newline])%list kNoError.
Definition example_references : list ObjectReference :=
  [mkObjectReference "b" "k1" EmptyString None; mkObjectReference "b" "k2" EmptyString None]%string.
Definition example_rows : list Row := [[VInt 1; VString "x"]; [VInt 2; VString "y"]]%string.

Lemma stored_example_exported r : etag r = EmptyString → exported demo_convert (λ _, EmptyString) (λ _, EmptyString) (column_definitions csv_example) 8 stored_example r csv_example example_rows.
Proof.
  intros He. split; [exact csv_example_exportable|done|by left|done|done| |done]. intros out Hout.
  vm_compute in Hout. injection Hout as <-. by vm_compute.
Qed.

Lemma exported_tables_imported_witness :
  ∃ t rows,
    ImportOperator_OnExecute (H := CsvFormatReader_reader demo_convert) stored_example (λ _ _ _, Err UndefinedBehaviour) true
      (@rev _) (@rev _) (λ b _, make_CsvFormatReader b (reader_options 8 (column_definitions csv_example))) example_references [0%nat; 1%nat] kCsv (Ok t) ∧
    table_rows t = Ok rows ∧ rows ≡ₚ example_rows ++ example_rows.
Proof.
  destruct (exported_tables_imported demo_convert (λ _, EmptyString) (λ _, EmptyString) (column_definitions csv_example) 8 stored_example
    (λ _ _ _, Err UndefinedBehaviour) true (@rev _) (@rev _) ((λ r, (r, csv_example, example_rows)) <$> example_references)) as [[result Hres] Hall].
  - intros l. symmetry. apply Permutation_rev.
  - intros l. symmetry. apply Permutation_rev.
  - done.
  - apply Forall_fmap, Forall_forall. intros r Hr. apply stored_example_exported.
    unfold example_references in Hr. rewrite !elem_of_cons, elem_of_nil in Hr. destruct_or!; by subst.
  - intros x y (r & -> & Hr)%list_elem_of_fmap (r' & -> & Hr')%list_elem_of_fmap _.
    unfold example_references in Hr, Hr'. rewrite !elem_of_cons, elem_of_nil in Hr, Hr'. destruct_or!; by subst.
  - destruct (Hall result Hres) as (t & rows & -> & _ & Hrows & HP). exists t, rows. split; [exact Hres|]. split; [exact Hrows|].
    rewrite HP. done.
Defined.
