(* ===== verification/S3Uploader.v ===== *)
(** * The multipart upload of an S3 object

    [S3ObjectWriter] and [S3MultipartUploader] of [storage/backend/s3_storage.cpp].  The writer
    cuts the data into the uploader's calls.  The uploader is a step system: the thread that
    writes the object and the client's threads that run the callbacks of the uploaded parts
    make one access to the shared members at a time, in any order, and [race] says when two of
    them are about to make conflicting ones.  The service is a parameter. *)

From Stdlib Require Import Ascii.
From S2P Require Export ChunkReader.

(** ** Writing an S3 object

    [S3ObjectWriter] of [storage/backend/s3_storage.cpp]: small objects are buffered and put in
    one request, larger ones are cut into parts for the multipart uploader.
    The writer is modelled by the calls it makes; the two sizes, 16 MB each in
    [s3_storage.hpp], are parameters. *)

(** The calls of the multipart uploader and of the client, in the order they are made. *)
Inductive UploaderCall : Type :=
  | CallInitialize
  | CallUploadPart (part : bytes)
  | CallFinalize
  | CallPutObject (body : bytes).

Record S3ObjectWriterStatistics : Type := mkS3ObjectWriterStatistics {
  was_multipart_upload : bool;
  put_request_count : nat;
  bytes_transferred : nat }.

(** The callback of an uploaded part empties its buffer in [parts_]; only the number of the
    earlier parts is read again. *)
Record S3ObjectWriter : Type := mkS3ObjectWriter {
  parts_ : list bytes;
  current_part_size_bytes_ : nat;
  closed_ : bool;
  use_multipart_upload_ : bool;
  statistics_ : S3ObjectWriterStatistics }.

Definition make_S3ObjectWriter : S3ObjectWriter :=
  mkS3ObjectWriter [[]] 0 false false (mkS3ObjectWriterStatistics false 0 0).

Definition current_part (w : S3ObjectWriter) : bytes := from_option id [] (last (parts_ w)).

(** [current_part->sputn] with the update of the size. *)
Definition append_to_part (data : bytes) (w : S3ObjectWriter) : S3ObjectWriter :=
  mkS3ObjectWriter (take (length (parts_ w) - 1) (parts_ w) ++ [current_part w ++ data]) (current_part_size_bytes_ w + length data)
    (closed_ w) (use_multipart_upload_ w) (statistics_ w).

Definition UploadNextPartAsync (w : S3ObjectWriter) : S3ObjectWriter * list UploaderCall :=
  let s := statistics_ w in
  (mkS3ObjectWriter (parts_ w ++ [[]]) 0 (closed_ w) (use_multipart_upload_ w)
     (mkS3ObjectWriterStatistics (was_multipart_upload s) (put_request_count s + 1) (bytes_transferred s + current_part_size_bytes_ w)),
   [CallUploadPart (current_part w)]).

Section Writer.
Variables kMultipartThresholdBytes kMultipartSizeBytes : nat.

(** The loop over full parts; the result is what is left of the data. *)
Fixpoint write_loop (fuel : nat) (w : S3ObjectWriter) (data : bytes) : result (S3ObjectWriter * list UploaderCall * bytes) :=
  if (kMultipartSizeBytes <=? length data + current_part_size_bytes_ w)%nat then
    match fuel with
    | O => Err OutOfFuel
    | S fuel =>
        let left_to_write := (kMultipartSizeBytes - current_part_size_bytes_ w)%nat in
        let w := if (0 <? left_to_write)%nat then append_to_part (take left_to_write data) w else w in
        let '(w, calls) := UploadNextPartAsync w in
        '(w, calls', data) ← write_loop fuel w (drop left_to_write data);
        Ok (w, calls ++ calls', data)
    end
  else Ok (w, [], data).

(** Fewer iterations than bytes: every iteration but the first takes a whole part. *)
Definition S3ObjectWriter_Write (w : S3ObjectWriter) (data : bytes) : result (S3ObjectWriter * list UploaderCall * StorageErrorType) :=
  if closed_ w then Ok (w, [], kInvalidState)
  else if (length data =? 0)%nat then Ok (w, [], kNoError)
  else
    let expected_buffer_size := (current_part_size_bytes_ w + length data)%nat in
    let s := statistics_ w in
    let '(w, calls) :=
      if negb (use_multipart_upload_ w) && (kMultipartThresholdBytes <? expected_buffer_size)%nat
      then (mkS3ObjectWriter (parts_ w) (current_part_size_bytes_ w) (closed_ w) true
              (mkS3ObjectWriterStatistics true (put_request_count s + 1) (bytes_transferred s)), [CallInitialize])
      else (w, []) in
    '(w, calls', data) ←
      (if use_multipart_upload_ w && (kMultipartSizeBytes <? expected_buffer_size)%nat
       then write_loop (S (length data)) w data else Ok (w, [], data));
    Ok (append_to_part data w, calls ++ calls', kNoError).

(** The outcomes of [PutObject] and of the uploader's [Finalize]. *)
Section Close.
Variable put_outcome finalize_outcome : StorageErrorType.

Definition SinglePutUpload (w : S3ObjectWriter) : S3ObjectWriter * list UploaderCall * StorageErrorType :=
  if (1 <? length (parts_ w))%nat then (w, [], kInternalError)
  else
    let s := statistics_ w in
    let w' := mkS3ObjectWriter (parts_ w) (current_part_size_bytes_ w) (closed_ w) (use_multipart_upload_ w)
                (mkS3ObjectWriterStatistics (was_multipart_upload s) (put_request_count s + 1) (bytes_transferred s + current_part_size_bytes_ w)) in
    (if IsError put_outcome then w else w', [CallPutObject (current_part w)], put_outcome).

Definition FinalizeUpload (w : S3ObjectWriter) : S3ObjectWriter * list UploaderCall * StorageErrorType :=
  if closed_ w then (w, [], kNoError)
  else
    let w := mkS3ObjectWriter (parts_ w) (current_part_size_bytes_ w) true (use_multipart_upload_ w) (statistics_ w) in
    if negb (use_multipart_upload_ w) then SinglePutUpload w
    else
      let '(w, calls) := if (0 <? current_part_size_bytes_ w)%nat then UploadNextPartAsync w else (w, []) in
      let s := statistics_ w in
      (mkS3ObjectWriter (parts_ w) (current_part_size_bytes_ w) (closed_ w) (use_multipart_upload_ w)
         (mkS3ObjectWriterStatistics (was_multipart_upload s) (put_request_count s + 1) (bytes_transferred s)),
       calls ++ [CallFinalize], finalize_outcome).

(** [Write] for every piece, then [Close]. *)
Fixpoint write_pieces (w : S3ObjectWriter) (pieces : list bytes) : result (S3ObjectWriter * list UploaderCall) :=
  match pieces with
  | [] => Ok (w, [])
  | piece :: pieces =>
      '(w, calls, _) ← S3ObjectWriter_Write w piece;
      '(w, calls') ← write_pieces w pieces;
      Ok (w, calls ++ calls')
  end.

Definition write_and_close (pieces : list bytes) : result (S3ObjectWriter * list UploaderCall * StorageErrorType) :=
  '(w, calls) ← write_pieces make_S3ObjectWriter pieces;
  let '(w, calls', error) := FinalizeUpload w in
  Ok (w, calls ++ calls', error).
End Close.
End Writer.

(** ** What the calls upload *)
Section Correct.
Variables threshold size : nat.
Hypothesis Hsize : (0 < size)%nat.
Hypothesis Hthreshold : (threshold <= size)%nat.

(** The writer during a multipart upload: full parts have been handed over. *)
Record uploading (full : list bytes) (part : bytes) (w : S3ObjectWriter) : Prop := {
  up_open : closed_ w = false;
  up_multipart : use_multipart_upload_ w = true;
  up_part : ∃ front, parts_ w = front ++ [part];
  up_size : current_part_size_bytes_ w = length part;
  up_fits : (length part <= size)%nat;
  up_full : Forall (λ p, length p = size) full;
  up_statistics : statistics_ w = mkS3ObjectWriterStatistics true (S (length full)) (length (concat full)) }.

(** The writer before: everything is in the one part. *)
Record buffering (data : bytes) (w : S3ObjectWriter) : Prop := {
  bu_open : closed_ w = false;
  bu_single : use_multipart_upload_ w = false;
  bu_part : parts_ w = [data];
  bu_size : current_part_size_bytes_ w = length data;
  bu_fits : (length data <= threshold)%nat;
  bu_statistics : statistics_ w = mkS3ObjectWriterStatistics false 0 0 }.

Lemma current_part_last w front part : parts_ w = front ++ [part] → current_part w = part.
Proof. unfold current_part. intros ->. by rewrite last_snoc. Qed.

Lemma append_uploading full part w data :
  uploading full part w → (length part + length data <= size)%nat → uploading full (part ++ data) (append_to_part data w).
Proof.
  intros [H1 H2 [front H3] H4 H5 H6 H7] Hfit. split; cbn; try done; rewrite ?H4, ?length_app; try lia.
  exists front. rewrite (current_part_last w front part H3), H3, length_app. cbn. f_equal. by rewrite Nat.add_sub, take_app_length.
Qed.

Lemma upload_uploading full part w :
  uploading full part w → length part = size →
  ∃ w', UploadNextPartAsync w = (w', [CallUploadPart part]) ∧ uploading (full ++ [part]) [] w'.
Proof.
  intros [H1 H2 [front H3] H4 H5 H6 H7] Hfull. unfold UploadNextPartAsync. rewrite (current_part_last w front part H3).
  eexists. split; [done|]. split; cbn; try done; try lia.
  - by exists (parts_ w).
  - apply Forall_app. by repeat constructor.
  - rewrite H7, H4. cbn. rewrite concat_app, !length_app. cbn. rewrite app_nil_r. f_equal; lia.
Qed.

(** The loop takes full parts off the data. *)
Lemma write_loop_parts fuel full part w data :
  uploading full part w → (length data + (if (length part =? size)%nat then 1 else 0) <= fuel)%nat →
  ∃ w' full' part' rest, write_loop size fuel w data = Ok (w', CallUploadPart <$> full', rest) ∧ uploading (full ++ full') part' w' ∧
    concat full' ++ part' ++ rest = part ++ data ∧ (length part' + length rest < size)%nat.
Proof.
  revert full part w data. induction fuel as [|fuel IH]; intros full part w data Hup Hfuel; cbn [write_loop];
    rewrite (up_size _ _ _ Hup); pose proof (up_fits _ _ _ Hup); (destruct (Nat.leb_spec size (length data + length part)) as [Hle|Hlt];
    [|exists w, [], part, data; rewrite app_nil_r; split; [done|]; split; [done|]; split; [done|lia]]).
  - destruct (Nat.eqb_spec (length part) size); lia.
  - set (left := (size - length part)%nat). set (w1 := if (0 <? left)%nat then _ else w).
    assert (uploading full (part ++ take left data) w1) as Hup1.
    { unfold w1. destruct (Nat.ltb_spec 0 left).
      - apply append_uploading; [done|]. rewrite length_take. unfold left. lia.
      - replace left with 0%nat by lia. by rewrite take_0, app_nil_r. }
    destruct (upload_uploading _ _ _ Hup1) as (w2 & -> & Hup2); [rewrite length_app, length_take; unfold left; lia|].
    destruct (IH _ _ w2 (drop left data) Hup2) as (w' & full' & part' & rest & -> & Hup' & Hdata & Hlt).
    { rewrite length_drop. cbn [length]. destruct (Nat.eqb_spec (length part) size), (Nat.eqb_spec 0 size); unfold left in *; lia. }
    exists w', ((part ++ take left data) :: full'), part', rest. cbn [rbind fmap list_fmap app concat]. split; [done|].
    rewrite <- app_assoc in Hup'. split; [done|]. split; [|done]. rewrite <- !app_assoc, Hdata. cbn [app]. by rewrite take_drop.
Qed.

(** The part of [Write] that follows the switch to a multipart upload. *)
Lemma write_uploading full part w data :
  uploading full part w →
  ∃ w' full' part', ('(w1, calls, data) ← (if use_multipart_upload_ w && (size <? current_part_size_bytes_ w + length data)%nat
       then write_loop size (S (length data)) w data else Ok (w, [], data));
      Ok (append_to_part data w1, calls)) = Ok (w', CallUploadPart <$> full') ∧ uploading (full ++ full') part' w' ∧
    concat full' ++ part' = part ++ data.
Proof.
  intros Hup. rewrite (up_multipart _ _ _ Hup), (up_size _ _ _ Hup). cbn [andb]. destruct (Nat.ltb_spec size (length part + length data)) as [Hlt|Hle].
  - destruct (write_loop_parts (S (length data)) full part w data Hup) as (w1 & full' & part' & rest & -> & Hup1 & Hdata & Hfit);
      [destruct (_ =? _)%nat; lia|]. cbn [rbind]. exists (append_to_part rest w1), full', (part' ++ rest). split; [done|]. split; [|done].
    apply append_uploading; [done|lia].
  - cbn [rbind]. exists (append_to_part data w), [], (part ++ data). rewrite app_nil_r. split; [done|]. split; [|done].
    by apply append_uploading.
Qed.

(** What has been written is in the calls so far and in the current part. *)
Definition written_so_far (data : bytes) (calls : list UploaderCall) (w : S3ObjectWriter) : Prop :=
  (calls = [] ∧ buffering data w) ∨
  ∃ full part, calls = CallInitialize :: (CallUploadPart <$> full) ∧ uploading full part w ∧ data = concat full ++ part ∧
    (threshold < length data)%nat.

Lemma Write_written data calls w piece :
  written_so_far data calls w →
  ∃ w' calls', S3ObjectWriter_Write threshold size w piece = Ok (w', calls', kNoError) ∧ written_so_far (data ++ piece) (calls ++ calls') w'.
Proof.
  intros Hw. assert (closed_ w = false) as Hopen by (destruct Hw as [[_ H]|(? & ? & _ & H & _)]; apply H).
  unfold S3ObjectWriter_Write. rewrite Hopen. destruct (Nat.eqb_spec (length piece) 0) as [Hnil|Hne].
  { apply nil_length_inv in Hnil as ->. exists w, []. by rewrite !app_nil_r. }
  destruct Hw as [[-> Hb]|(full & part & -> & Hup & -> & Hlong)].
  - rewrite (bu_single _ _ Hb), (bu_size _ _ Hb). cbn [negb andb].
    destruct (Nat.ltb_spec threshold (length data + length piece)) as [Hlt|Hle]; cbn [use_multipart_upload_].
    + set (w1 := mkS3ObjectWriter _ _ _ _ _). assert (uploading [] data w1) as Hup.
      { destruct Hb as [H1 H2 H3 H4 H5 H6]. split; cbn; try done; [exists []; by rewrite H3|lia|by rewrite H6]. }
      destruct (write_uploading [] data w1 piece Hup) as (w' & full' & part' & Hw & Hup' & Hdata).
      rewrite (up_size _ _ _ Hup) in Hw.
      destruct (if use_multipart_upload_ w1 && _ then _ else _) as [[[w2 calls] rest]|]; cbn [rbind] in Hw |- *; [|done].
      injection Hw as <- ->. do 2 eexists. split; [done|]. right. exists full', part'. cbn. split; [done|]. split; [done|].
      split; [by rewrite Hdata|]. rewrite length_app. lia.
    + rewrite (bu_single _ _ Hb). cbn [andb rbind app]. do 2 eexists. split; [done|]. left. split; [done|]. destruct Hb as [H1 H2 H3 H4 H5 H6].
      split; cbn; try done; rewrite ?length_app, ?H4; try lia. unfold current_part. by rewrite H3.
  - pose proof (up_multipart _ _ _ Hup) as Hm. rewrite Hm. cbn [negb andb]. rewrite Hm. cbn [andb].
    destruct (write_uploading full part w piece Hup) as (w' & full' & part' & Hw & Hup' & Hdata). rewrite Hm in Hw. cbn [andb] in Hw.
    destruct (if (size <? _)%nat then _ else _) as [[[w2 calls] rest]|]; cbn [rbind] in Hw |- *; [|done].
    injection Hw as <- ->. do 2 eexists. split; [done|]. right. exists (full ++ full'), part'. cbn [app].
    rewrite fmap_app. split; [done|]. split; [done|]. rewrite concat_app, <- !app_assoc, Hdata. split; [done|].
    rewrite !length_app in *. lia.
Qed.

Lemma write_pieces_written pieces data calls w :
  written_so_far data calls w →
  ∃ w' calls', write_pieces threshold size w pieces = Ok (w', calls') ∧ written_so_far (data ++ concat pieces) (calls ++ calls') w'.
Proof.
  revert data calls w. induction pieces as [|piece pieces IH]; intros data calls w Hw; cbn [write_pieces concat].
  - exists w, []. by rewrite !app_nil_r.
  - destruct (Write_written data calls w piece Hw) as (w1 & calls1 & -> & Hw1). cbn [rbind].
    destruct (IH _ _ _ Hw1) as (w2 & calls2 & -> & Hw2). cbn [rbind]. exists w2, (calls1 ++ calls2). by rewrite !app_assoc.
Qed.

(** The parts of a multipart upload: all full but the last, which is not empty. *)
Definition upload_parts (data : bytes) (parts : list bytes) : Prop :=
  concat parts = data ∧ parts ≠ [] ∧ ∃ full lasts, parts = full ++ lasts ∧ (length lasts <= 1)%nat ∧
    Forall (λ p, length p = size) full ∧ Forall (λ p, (0 < length p <= size)%nat) lasts.

Lemma write_and_close_calls put_outcome finalize_outcome pieces :
  let data := concat pieces in
  ∃ w calls error, write_and_close threshold size put_outcome finalize_outcome pieces = Ok (w, calls, error) ∧ closed_ w = true ∧
    if (length data <=? threshold)%nat
    then calls = [CallPutObject data] ∧ error = put_outcome ∧
      statistics_ w = if IsError put_outcome then mkS3ObjectWriterStatistics false 0 0 else mkS3ObjectWriterStatistics false 1 (length data)
    else ∃ parts, calls = CallInitialize :: (CallUploadPart <$> parts) ++ [CallFinalize] ∧ error = finalize_outcome ∧
      upload_parts data parts ∧ statistics_ w = mkS3ObjectWriterStatistics true (length parts + 2) (length data).
Proof.
  intros data. unfold write_and_close.
  destruct (write_pieces_written pieces [] [] make_S3ObjectWriter) as (w & calls & -> & Hw); [left; split; [done|]; by split; cbn; try lia|].
  cbn [rbind app] in *. fold data in Hw. destruct Hw as [[-> [H1 H2 H3 H4 H5 H6]]|(full & part & -> & [H1 H2 [front H3] H4 H5 H6 H7] & Hdata & Hlong)];
    unfold FinalizeUpload; rewrite H1; cbn [use_multipart_upload_]; rewrite H2; cbn [negb].
  - rewrite (proj2 (Nat.leb_le _ _)) by done. unfold SinglePutUpload. cbn. rewrite H3. cbn. unfold current_part. cbn. rewrite ?H3. cbn.
    destruct (IsError put_outcome); do 3 eexists; (split; [done|]); repeat split; cbn; [done|]. by rewrite H6, H4.
  - rewrite (proj2 (Nat.leb_gt _ _)) by done. cbn [current_part_size_bytes_]. rewrite H4. destruct (Nat.ltb_spec 0 (length part)) as [Hpos|Hz].
    + unfold UploadNextPartAsync, current_part. cbn. rewrite H3, last_snoc. cbn. do 3 eexists. split; [done|]. split; [done|].
      exists (full ++ [part]). rewrite fmap_app. cbn. rewrite <- app_assoc. split; [done|]. split; [done|]. split.
      * split; [by rewrite concat_app; cbn; rewrite app_nil_r|]. split; [by destruct full|]. exists full, [part].
        split; [done|]. split; [cbn; lia|]. split; [done|]. constructor; [lia|constructor].
      * rewrite H7, ?H4, Hdata. cbn. rewrite !length_app. cbn. f_equal; lia.
    + destruct part; [|cbn in Hz; lia]. rewrite app_nil_r in Hdata. do 3 eexists. split; [done|]. split; [done|].
      exists full. split; [done|]. split; [done|]. split.
      * split; [done|]. split; [intros ->; rewrite Hdata in Hlong; cbn in Hlong; lia|]. exists full, []. rewrite app_nil_r. split; [done|]. cbn.
        split; [lia|]. by split.
      * cbn. rewrite H7, Hdata. cbn. f_equal. lia.
Qed.
End Correct.

(** ** The uploader

    The members of [S3MultipartUploader] that its threads share.  The thread that writes the
    object and the client's threads that run the callbacks read and write them one at a time:
    [x++] is a read and a write, [parts_.emplace_back()] reads the elements, which may move,
    and writes them back with a new one. *)

(** [CompletedPart]: a part number and an ETag; an element that no callback has set is empty. *)
Abbreviation CompletedPart := (option (nat * string)).

Record S3MultipartUploader : Type := mkS3MultipartUploader {
  is_initialized_ : bool;
  part_count_ : nat;
  upload_id_ : string;
  completed_parts_ : list CompletedPart;
  in_process_parts_count_ : Z;
  storage_error_ : StorageErrorType }.

Definition make_S3MultipartUploader : S3MultipartUploader := mkS3MultipartUploader false 1 EmptyString [] 0 kNoError.

Definition set_part_count (n : nat) (u : S3MultipartUploader) : S3MultipartUploader :=
  mkS3MultipartUploader (is_initialized_ u) n (upload_id_ u) (completed_parts_ u) (in_process_parts_count_ u) (storage_error_ u).
Definition set_parts (l : list CompletedPart) (u : S3MultipartUploader) : S3MultipartUploader :=
  mkS3MultipartUploader (is_initialized_ u) (part_count_ u) (upload_id_ u) l (in_process_parts_count_ u) (storage_error_ u).
Definition set_in_process (z : Z) (u : S3MultipartUploader) : S3MultipartUploader :=
  mkS3MultipartUploader (is_initialized_ u) (part_count_ u) (upload_id_ u) (completed_parts_ u) z (storage_error_ u).
(** The assignment of [SetError], under its lock. *)
Definition SetError (e : StorageErrorType) (u : S3MultipartUploader) : S3MultipartUploader :=
  mkS3MultipartUploader (is_initialized_ u) (part_count_ u) (upload_id_ u) (completed_parts_ u) (in_process_parts_count_ u) e.

(** The shared members, and an access to one of them: [true] for a write. *)
Inductive Member : Type := MInitialized | MPartCount | MUploadId | MParts | MInProcess | MError.
#[export] Instance Member_eq_dec : EqDecision Member.
Proof. solve_decision. Defined.
Abbreviation Access := (Member * bool)%type.

(** The four assignments at the end of [CancelUpload] and of [Finalize], one by one. *)
Definition reset_order : list Member := [MInitialized; MParts; MPartCount; MUploadId].
Definition reset_member (m : Member) (u : S3MultipartUploader) : S3MultipartUploader :=
  match m with
  | MInitialized => mkS3MultipartUploader false (part_count_ u) (upload_id_ u) (completed_parts_ u) (in_process_parts_count_ u) (storage_error_ u)
  | MParts => set_parts [] u
  | MPartCount => set_part_count 1 u
  | MUploadId => mkS3MultipartUploader (is_initialized_ u) (part_count_ u) EmptyString (completed_parts_ u) (in_process_parts_count_ u) (storage_error_ u)
  | MInProcess | MError => u
  end.

(** The service as the client sees it. *)
Record S3Service : Type := mkS3Service {
  CreateMultipartUpload : StorageErrorType * string;
  UploadPart : string → nat → bytes → StorageErrorType * string;
  CompleteMultipartUpload : gmap nat bytes → list CompletedPart → StorageErrorType + bytes;
  AbortMultipartUpload : string → StorageErrorType;
  PutObject : bytes → StorageErrorType }.

(** A part given to the client: the upload's id, the part's number and its content. *)
Abbreviation PartInFlight := (string * nat * bytes)%type.

(** Where a thread is in [CancelUpload]. *)
Inductive CancelState : Type :=
  | CancelTesting
  | CancelAborting
  | CancelResetting (todo : list Member).

(** Where the writing thread is: between two calls, in [UploadPartAsync], or in [Finalize]. *)
Inductive WriterState : Type :=
  | Calling
  | NumberRead (part : bytes) (part_number : nat)
  | RequestMade (p : PartInFlight)
  | InProcessRead (p : PartInFlight) (n : Z)
  | InProcessWritten (p : PartInFlight)
  | PartCountRead (p : PartInFlight) (n : nat)
  | PartCountWritten (p : PartInFlight)
  | PartsRead (p : PartInFlight) (elements : list CompletedPart)
  | PartsWritten (p : PartInFlight)
  | Locking
  | Testing
  | Asleep
  | Checking
  | Completing
  | Cancelling (e : StorageErrorType) (c : CancelState)
  | Resetting (todo : list Member).

(** Where a part is: its request under way, or its callback in the branch of a success or of
    a failure. *)
Inductive CallbackState : Type :=
  | Uploading
  | SuccessLocking (etag : string)
  | ElementWriting (etag : string)
  | CounterReading
  | CounterWriting (n : Z)
  | Notifying
  | FailureCancelling (e : StorageErrorType) (c : CancelState)
  | FailureLocking (e : StorageErrorType)
  | ErrorWriting (e : StorageErrorType).

Abbreviation PartCallback := (PartInFlight * CallbackState)%type.

(** [locked] is [multipart_outcome_mutex_]; [failures] counts the callbacks that ended in an
    error, and [undefined] is set by an access out of bounds. *)
Record UploadSystem : Type := mkUploadSystem {
  calls : list UploaderCall;
  writer : WriterState;
  uploader : S3MultipartUploader;
  locked : bool;
  callbacks : list PartCallback;
  uploaded : gmap nat bytes;
  object : option bytes;
  returned : option StorageErrorType;
  failures : nat;
  undefined : bool }.

Section Upload.
Variable service : S3Service.

(** No callback exists yet when the upload is initialized. *)
Definition S3MultipartUploader_Initialize (u : S3MultipartUploader) : S3MultipartUploader :=
  let '(e, id) := CreateMultipartUpload service in
  let u := if IsError e then SetError e u else u in
  mkS3MultipartUploader true (part_count_ u) (if IsError e then EmptyString else id) (completed_parts_ u) (in_process_parts_count_ u) (storage_error_ u).

(** One step of [CancelUpload]; [None] when it returns.  [AbortMultipartUpload] discards what
    was uploaded. *)
Definition CancelUpload (c : CancelState) (u : S3MultipartUploader) (uploaded : gmap nat bytes)
    : S3MultipartUploader * gmap nat bytes * option CancelState :=
  match c with
  | CancelTesting => (u, uploaded, if is_initialized_ u then Some CancelAborting else None)
  | CancelAborting =>
      if IsError (AbortMultipartUpload service (upload_id_ u)) then (u, uploaded, None)
      else (u, ∅, Some (CancelResetting reset_order))
  | CancelResetting (m :: todo) => (reset_member m u, uploaded, Some (CancelResetting todo))
  | CancelResetting [] => (u, uploaded, None)
  end.

(** The next step of the writing thread, if it is not blocked or done.  [wait] holds the lock
    when it evaluates its condition and releases it to sleep. *)
Definition writer_step (s : UploadSystem) : option UploadSystem :=
  let '(mkUploadSystem cs w u lk cbs up ob ret n un) := s in
  if un then None else
  let to w u := Some (mkUploadSystem cs w u lk cbs up ob ret n un) in
  match w with
  | Calling =>
      match cs with
      | [] => None
      | CallInitialize :: cs => Some (mkUploadSystem cs Calling (S3MultipartUploader_Initialize u) lk cbs up ob ret n un)
      | CallUploadPart part :: cs => Some (mkUploadSystem cs (NumberRead part (part_count_ u)) u lk cbs up ob ret n un)
      | CallFinalize :: cs => Some (mkUploadSystem cs Locking u lk cbs up ob ret n un)
      | CallPutObject body :: cs =>
          Some (mkUploadSystem cs Calling u lk cbs up (if IsError (PutObject service body) then ob else Some body)
                  (Some (PutObject service body)) n un)
      end
  | NumberRead part part_number => to (RequestMade (upload_id_ u, part_number, part)) u
  | RequestMade p => to (InProcessRead p (in_process_parts_count_ u)) u
  | InProcessRead p z => to (InProcessWritten p) (set_in_process (z + 1) u)
  | InProcessWritten p => to (PartCountRead p (part_count_ u)) u
  | PartCountRead p k => to (PartCountWritten p) (set_part_count (k + 1) u)
  | PartCountWritten p => to (PartsRead p (completed_parts_ u)) u
  | PartsRead p elements => to (PartsWritten p) (set_parts (elements ++ [None]) u)
  | PartsWritten p => Some (mkUploadSystem cs Calling u lk (cbs ++ [(p, Uploading)]) up ob ret n un)
  | Locking => if lk then None else Some (mkUploadSystem cs Testing u true cbs up ob ret n un)
  | Testing =>
      if decide (in_process_parts_count_ u = 0) then to Checking u
      else Some (mkUploadSystem cs Asleep u false cbs up ob ret n un)
  | Asleep => None
  | Checking =>
      if IsError (storage_error_ u) then Some (mkUploadSystem cs Calling u false cbs up ob (Some (storage_error_ u)) n un)
      else to Completing u
  | Completing =>
      match CompleteMultipartUpload service up (completed_parts_ u) with
      | inl e => to (Cancelling e CancelTesting) u
      | inr body => Some (mkUploadSystem cs (Resetting reset_order) u lk cbs ∅ (Some body) ret n un)
      end
  | Cancelling e c =>
      match CancelUpload c u up with
      | (u, up, Some c) => Some (mkUploadSystem cs (Cancelling e c) u lk cbs up ob ret n un)
      | (u, up, None) => Some (mkUploadSystem cs Calling u false cbs up ob (Some e) n un)
      end
  | Resetting (m :: todo) => to (Resetting todo) (reset_member m u)
  | Resetting [] => Some (mkUploadSystem cs Calling u false cbs up ob (Some kNoError) n un)
  end.

(** The next step of a callback.  [notify_one] wakes the writing thread if it sleeps, and the
    callback's lock is released with it; [parts_[part_index]] is not checked. *)
Definition callback_step (i : nat) (s : UploadSystem) : option UploadSystem :=
  let '(mkUploadSystem cs w u lk cbs up ob ret n un) := s in
  if un then None else
  match cbs !! i with
  | None => None
  | Some ((id, part_number, part) as p, c) =>
      let to c := <[i := (p, c)]> cbs in
      match c with
      | Uploading =>
          let '(e, etag) := UploadPart service id part_number part in
          if IsError e then Some (mkUploadSystem cs w u lk (to (FailureCancelling e CancelTesting)) up ob ret n un)
          else Some (mkUploadSystem cs w u lk (to (SuccessLocking etag)) (<[part_number := part]> up) ob ret n un)
      | SuccessLocking etag => if lk then None else Some (mkUploadSystem cs w u true (to (ElementWriting etag)) up ob ret n un)
      | ElementWriting etag =>
          let part_index := (part_number - 1)%nat in
          if (part_index <? length (completed_parts_ u))%nat
          then Some (mkUploadSystem cs w (set_parts (<[part_index := Some (part_number, etag)]> (completed_parts_ u)) u) lk
                       (to CounterReading) up ob ret n un)
          else Some (mkUploadSystem cs w u lk cbs up ob ret n true)
      | CounterReading => Some (mkUploadSystem cs w u lk (to (CounterWriting (in_process_parts_count_ u))) up ob ret n un)
      | CounterWriting z => Some (mkUploadSystem cs w (set_in_process (z - 1) u) lk (to Notifying) up ob ret n un)
      | Notifying =>
          Some (mkUploadSystem cs (match w with Asleep => Locking | _ => w end) u false (delete i cbs) up ob ret n un)
      | FailureCancelling e c =>
          match CancelUpload c u up with
          | (u, up, Some c) => Some (mkUploadSystem cs w u lk (to (FailureCancelling e c)) up ob ret n un)
          | (u, up, None) => Some (mkUploadSystem cs w u lk (to (FailureLocking e)) up ob ret n un)
          end
      | FailureLocking e => if lk then None else Some (mkUploadSystem cs w u true (to (ErrorWriting e)) up ob ret n un)
      | ErrorWriting e => Some (mkUploadSystem cs w (SetError e u) false (delete i cbs) up ob ret (S n) un)
      end
  end.

(** The threads run in any order. *)
Inductive upload_step (s : UploadSystem) : UploadSystem → Prop :=
  | writer_steps s' : writer_step s = Some s' → upload_step s s'
  | callback_steps i s' : callback_step i s = Some s' → upload_step s s'.

Definition initial_upload (calls : list UploaderCall) : UploadSystem :=
  mkUploadSystem calls Calling make_S3MultipartUploader false [] ∅ None None 0 false.

(** ** Data races

    The accesses of the next step of each thread.  C++ leaves a program undefined in which two
    threads are about to access the same member, one of them to write it.  The steps above go
    on in such a state with what the accesses do one after the other.  [parts_] counts as one
    member, since [emplace_back] may move all its elements; the runs in which it moves none
    while a callback writes one are not distinguished, and count as racing. *)
Definition cancel_accesses (c : CancelState) : list Access :=
  match c with
  | CancelTesting => [(MInitialized, false)]
  | CancelAborting => [(MUploadId, false)]
  | CancelResetting (m :: _) => [(m, true)]
  | CancelResetting [] => []
  end.

Definition writer_accesses (s : UploadSystem) : list Access :=
  match writer s with
  | Calling =>
      match calls s with
      | CallInitialize :: _ => [(MUploadId, true); (MInitialized, true); (MError, true)]
      | CallUploadPart _ :: _ => [(MPartCount, false)]
      | _ => []
      end
  | NumberRead _ _ => [(MUploadId, false)]
  | RequestMade _ => [(MInProcess, false)]
  | InProcessRead _ _ => [(MInProcess, true)]
  | InProcessWritten _ => [(MPartCount, false)]
  | PartCountRead _ _ => [(MPartCount, true)]
  | PartCountWritten _ => [(MParts, false)]
  | PartsRead _ _ => [(MParts, true)]
  | PartsWritten _ | Locking | Asleep => []
  | Testing => [(MInProcess, false)]
  | Checking => [(MError, false)]
  | Completing => [(MParts, false); (MUploadId, false)]
  | Cancelling _ c => cancel_accesses c
  | Resetting (m :: _) => [(m, true)]
  | Resetting [] => []
  end.

Definition callback_accesses (c : CallbackState) : list Access :=
  match c with
  | Uploading | SuccessLocking _ | FailureLocking _ | Notifying => []
  | ElementWriting _ => [(MParts, true)]
  | CounterReading => [(MInProcess, false)]
  | CounterWriting _ => [(MInProcess, true)]
  | FailureCancelling _ c => cancel_accesses c
  | ErrorWriting _ => [(MError, true)]
  end.

Definition conflict (xs ys : list Access) : bool :=
  existsb (λ a, existsb (λ b, bool_decide (a.1 = b.1) && (a.2 || b.2)) ys) xs.

Fixpoint races (threads : list (list Access)) : bool :=
  match threads with [] => false | t :: ts => existsb (conflict t) ts || races ts end.

Definition race (s : UploadSystem) : bool :=
  races (writer_accesses s :: ((λ cb : PartCallback, callback_accesses cb.2) <$> callbacks s)).

Definition race_free_step (s s' : UploadSystem) : Prop := race s = false ∧ upload_step s s'.
End Upload.
