(* ===== verification/S3UploadCorrect.v ===== *)
(** * Uploads to S3 end, and end right

    The runs of the step system of [S3Uploader].  Every run is bounded.  In a run without a data
    race the counter of the parts in process is exact, the lock has one holder and no wake-up is
    lost; from this follow what [Close] does when every request succeeds and that it blocks when
    a part fails.  The examples at the end show what a race can do. *)

From Stdlib Require Import Ascii.
From S2P Require Export S3Uploader.

(** ** Every run ends *)
Definition cancel_rank (c : CancelState) : nat :=
  match c with CancelTesting => 7 | CancelAborting => 6 | CancelResetting todo => S (length todo) end.

Definition writer_rank (w : WriterState) : nat :=
  match w with
  | Calling => 0
  | NumberRead _ _ => 18 | RequestMade _ => 17 | InProcessRead _ _ => 16 | InProcessWritten _ => 15
  | PartCountRead _ _ => 14 | PartCountWritten _ => 13 | PartsRead _ _ => 12 | PartsWritten _ => 11
  | Locking => 12 | Testing => 11 | Asleep => 10 | Checking => 9 | Completing => 8
  | Cancelling _ c => cancel_rank c
  | Resetting todo => S (length todo)
  end.

Definition callback_rank (c : CallbackState) : nat :=
  match c with
  | Uploading => 10
  | SuccessLocking _ => 7 | ElementWriting _ => 6 | CounterReading => 5 | CounterWriting _ => 4 | Notifying => 3
  | FailureCancelling _ c => 2 + cancel_rank c
  | FailureLocking _ => 2 | ErrorWriting _ => 1
  end.

Definition call_rank (c : UploaderCall) : nat :=
  match c with CallInitialize | CallPutObject _ => 1 | CallUploadPart _ => 19 | CallFinalize => 13 end.

(** The sum of [f] over the callbacks. *)
Definition tally (f : CallbackState → nat) (cbs : list PartCallback) : nat := sum_list_with (λ cb, f cb.2) cbs.

Lemma tally_app f a b : tally f (a ++ b) = (tally f a + tally f b)%nat.
Proof. apply sum_list_with_app. Qed.

Lemma tally_cons f p c b : tally f ((p, c) :: b) = (f c + tally f b)%nat.
Proof. done. Qed.

Lemma tally_nil f : tally f [] = 0%nat.
Proof. done. Qed.

Definition calls_rank (cs : list UploaderCall) : nat := sum_list_with call_rank cs.
Lemma calls_rank_cons c cs : calls_rank (c :: cs) = (call_rank c + calls_rank cs)%nat.
Proof. done. Qed.

#[global] Arguments tally : simpl never.
#[global] Arguments calls_rank : simpl never.

(** A callback in the middle of the others. *)
Lemma callback_split {X} (cbs : list X) i cb :
  cbs !! i = Some cb →
  ∃ a b, cbs = a ++ cb :: b ∧ delete i cbs = a ++ b ∧ ∀ cb', <[i := cb']> cbs = a ++ cb' :: b.
Proof.
  intros Hi. exists (take i cbs), (drop (S i) cbs). pose proof (lookup_lt_Some _ _ _ Hi) as Hlt.
  split; [by rewrite take_drop_middle|]. split; [apply delete_take_drop|]. intros cb'. by apply insert_take_drop.
Qed.

Definition upload_measure (s : UploadSystem) : nat :=
  (calls_rank (calls s) + writer_rank (writer s) + tally callback_rank (callbacks s) + if undefined s then 0 else 1)%nat.

(** A step of the writing thread, or of a callback among the others. *)
Lemma upload_step_inv service s s' :
  upload_step service s s' →
  writer_step service s = Some s' ∨
  ∃ i a p c b, callback_step service i s = Some s' ∧ callbacks s !! i = Some (p, c) ∧ callbacks s = a ++ (p, c) :: b ∧
    delete i (callbacks s) = a ++ b ∧ ∀ cb, <[i := cb]> (callbacks s) = a ++ cb :: b.
Proof.
  intros [s1 H1|i s1 H1]; [by left|right]. destruct (callbacks s !! i) as [[p c]|] eqn:Hi.
  - destruct (callback_split _ _ _ Hi) as (a & b & Hs). exists i, a, p, c, b. done.
  - exfalso. destruct s as [cs w u lk cbs up ob ret n un]. cbn in Hi, H1. rewrite Hi in H1. by destruct un.
Qed.

(** All cases of a step's definition. *)
Ltac step_cases Hs := repeat (case_match; try done); simplify_eq/=.

Lemma CancelUpload_rank service c u up u' up' c' :
  CancelUpload service c u up = (u', up', Some c') → (cancel_rank c' < cancel_rank c)%nat.
Proof.
  destruct c as [| |[|m todo]]; cbn; [destruct (is_initialized_ u)|destruct (IsError _)|..]; intros [= <- <- <-]; cbn; lia.
Qed.

Lemma cancel_rank_positive c : (0 < cancel_rank c)%nat.
Proof. destruct c; cbn; lia. Qed.

Lemma upload_step_measure service s s' : upload_step service s s' → (upload_measure s' < upload_measure s)%nat.
Proof.
  intros [Hs|(i & a & p & c & b & Hs & Hi & Hcbs & Hd & Hins)]%upload_step_inv;
    destruct s as [cs w u lk cbs up ob ret n un]; cbn in *; unfold upload_measure.
  - step_cases Hs; rewrite ?tally_app, ?tally_cons, ?tally_nil, ?calls_rank_cons; cbn -[cancel_rank]; try (cbn; lia);
      match goal with H : CancelUpload _ ?c _ _ = _ |- _ => pose proof (cancel_rank_positive c); try apply CancelUpload_rank in H; lia end.
  - rewrite Hi in Hs. step_cases Hs; rewrite ?Hins, ?Hd, ?tally_app, ?tally_cons; cbn -[cancel_rank]; try (cbn; lia);
      match goal with H : CancelUpload _ ?c _ _ = _ |- _ => pose proof (cancel_rank_positive c); try apply CancelUpload_rank in H; lia end.
Qed.

Lemma upload_bounded service k s s' : nsteps (upload_step service) k s s' → (k + upload_measure s' <= upload_measure s)%nat.
Proof. induction 1 as [|k s1 s2 s3 Hstep _ IH]; [lia|]. apply upload_step_measure in Hstep. lia. Qed.

Lemma initial_measure cs : (upload_measure (initial_upload cs) <= 19 * length cs + 1)%nat.
Proof.
  unfold upload_measure. cbn -[Nat.mul]. rewrite tally_nil.
  assert (calls_rank cs <= 19 * length cs)%nat; [|lia].
  induction cs as [|c cs IH]; [done|]. rewrite calls_rank_cons. destruct c; cbn -[Nat.mul] in *; lia.
Qed.

(** ** The counter, the lock and the wake-ups *)

(** The parts that are counted as in process: all but those that wait to notify. *)
Definition active (c : CallbackState) : nat := match c with Notifying => 0 | _ => 1 end.

(** The writing thread has counted a part that the client does not have yet. *)
Definition counted_early (w : WriterState) : nat :=
  match w with InProcessWritten _ | PartCountRead _ _ | PartCountWritten _ | PartsRead _ _ | PartsWritten _ => 1 | _ => 0 end.

Definition writer_holds (w : WriterState) : nat :=
  match w with Testing | Checking | Completing | Cancelling _ _ | Resetting _ => 1 | _ => 0 end.
Definition callback_holds (c : CallbackState) : nat :=
  match c with ElementWriting _ | CounterReading | CounterWriting _ | Notifying | ErrorWriting _ => 1 | _ => 0 end.

(** What a callback has read of the counter, and the error it will store. *)
Definition callback_exact (u : S3MultipartUploader) (c : CallbackState) : Prop :=
  match c with
  | CounterWriting z => z = in_process_parts_count_ u
  | FailureCancelling e _ | FailureLocking e | ErrorWriting e => IsError e = true
  | _ => True
  end.

Record exact (s : UploadSystem) : Prop := {
  ex_count : in_process_parts_count_ (uploader s) =
    Z.of_nat (tally active (callbacks s) + failures s + counted_early (writer s));
  ex_writer : ∀ p z, writer s = InProcessRead p z → z = in_process_parts_count_ (uploader s);
  ex_callbacks : Forall (λ cb, callback_exact (uploader s) cb.2) (callbacks s);
  ex_lock : (writer_holds (writer s) + tally callback_holds (callbacks s))%nat = Nat.b2n (locked s);
  ex_asleep : writer s = Asleep → in_process_parts_count_ (uploader s) ≠ 0 ∨ Exists (λ cb, cb.2 = Notifying) (callbacks s);
  ex_error : (0 < failures s)%nat → IsError (storage_error_ (uploader s)) = true }.

Lemma tally_zero f l : tally f l = 0%nat → Forall (λ cb, f cb.2 = 0%nat) l.
Proof. induction l as [|[p c] l IH]; [constructor|]. rewrite tally_cons. intros Hl. constructor; [cbn; lia|apply IH; lia]. Qed.

Lemma CancelUpload_keeps service c u up u' up' c' :
  CancelUpload service c u up = (u', up', c') →
  in_process_parts_count_ u' = in_process_parts_count_ u ∧ storage_error_ u' = storage_error_ u.
Proof.
  destruct c as [| |[|m todo]]; cbn; [|destruct (IsError _)|..]; try (by intros [= <- _ _]). by destruct m; intros [= <- _ _].
Qed.

Lemma races_cons t ts : races (t :: ts) = false → ∀ t', t' ∈ ts → conflict t t' = false.
Proof.
  cbn. intros [Hc _]%orb_false_iff t' Ht. destruct (conflict t t') eqn:Heq; [|done].
  assert (existsb (conflict t) ts = true); [|congruence]. apply existsb_exists. exists t'. by rewrite <- list_elem_of_In.
Qed.

(** In a state without a race no callback is about to access what the writing thread is. *)
Lemma race_callback s : race s = false → Forall (λ cb, conflict (writer_accesses s) (callback_accesses cb.2) = false) (callbacks s).
Proof.
  intros Hr. apply Forall_forall. intros cb Hcb. eapply races_cons; [exact Hr|]. apply list_elem_of_fmap. by exists cb.
Qed.

Lemma callback_exact_ext u u' l :
  in_process_parts_count_ u' = in_process_parts_count_ u →
  Forall (λ cb : PartCallback, callback_exact u cb.2) l → Forall (λ cb, callback_exact u' cb.2) l.
Proof. intros Hu Hl. eapply Forall_impl; [exact Hl|]. intros [p []]; cbn; congruence. Qed.

(** Nobody has read the counter. *)
Lemma callback_exact_unread u u' l :
  Forall (λ cb : PartCallback, ∀ z, cb.2 ≠ CounterWriting z) l →
  Forall (λ cb, callback_exact u cb.2) l → Forall (λ cb, callback_exact u' cb.2) l.
Proof.
  intros Hn He. apply Forall_forall. intros cb Hcb. rewrite Forall_forall in Hn, He. specialize (Hn cb Hcb). specialize (He cb Hcb).
  destruct cb as [p []]; try done. by destruct (Hn n).
Qed.

Lemma Initialize_keeps service u :
  in_process_parts_count_ (S3MultipartUploader_Initialize service u) = in_process_parts_count_ u ∧
  (IsError (storage_error_ u) = true → IsError (storage_error_ (S3MultipartUploader_Initialize service u)) = true).
Proof. unfold S3MultipartUploader_Initialize. destruct (CreateMultipartUpload service) as [e id]. by destruct (IsError e) eqn:He. Qed.

Lemma exact_writer_step service s s' : race s = false → exact s → writer_step service s = Some s' → exact s'.
Proof.
  intros Hr%race_callback [H1 H2 H3 H4 H5 H6] Hs. destruct s as [cs w u lk cbs up ob ret n un].
  pose proof (Initialize_keeps service u) as [Hi1 Hi2]. cbn in *. step_cases Hs.
  all: try match goal with H : CancelUpload _ _ _ _ = _ |- _ => apply CancelUpload_keeps in H as [Hk1 Hk2] end.
  all: try match goal with m : Member |- _ => destruct m end.
  all: split; cbn; rewrite ?tally_app, ?tally_cons, ?tally_nil; try done; cbn in *; try lia; try (by left); try (by rewrite ?Hk2; auto).
  all: try (by eapply callback_exact_ext; [|exact H3]; cbn).
  all: try (intros ? ? [= <- <-]; done).
  all: try (apply Forall_app; split; [done|by repeat constructor]).
  all: try (destruct lk; cbn in *; lia).
  - pose proof (H2 _ _ eq_refl). lia.
  - eapply callback_exact_unread; [|exact H3]. eapply Forall_impl; [exact Hr|]. by intros [q []].
Qed.

(** The member that the callback writes is not about to be written by the others. *)
Lemma exact_callback_step service i s s' : race s = false → exact s → callback_step service i s = Some s' → exact s'.
Proof.
  intros Hr%race_callback He Hs. 
  assert (∃ a p c b, callbacks s !! i = Some (p, c) ∧ callbacks s = a ++ (p, c) :: b ∧
    delete i (callbacks s) = a ++ b ∧ ∀ cb, <[i := cb]> (callbacks s) = a ++ cb :: b) as (a & p & c & b & Hi & Hcbs & Hd & Hins).
  { destruct (callbacks s !! i) as [[p c]|] eqn:Hi; [|destruct s as [cs w u lk cbs up ob ret n un]; cbn in *; rewrite Hi in Hs; by destruct un].
    destruct (callback_split _ _ _ Hi) as (a & b & ?). by exists a, p, c, b. }
  destruct He as [H1 H2 H3 H4 H5 H6]. destruct s as [cs w u lk cbs up ob ret n un]. cbn in *. rewrite Hi in Hs. rewrite Hcbs in *.
  rewrite ?tally_app, ?tally_cons in *. apply Forall_app in H3 as [H3a [H3c H3b]%Forall_cons].
  apply Forall_app in Hr as [_ [Hr _]%Forall_cons]. rewrite Exists_app, Exists_cons in H5.
  step_cases Hs.
  all: try match goal with H : CancelUpload _ _ _ _ = _ |- _ => apply CancelUpload_keeps in H as [Hk1 Hk2] end.
  all: split; cbn; rewrite ?Hins, ?Hd, ?tally_app, ?tally_cons, ?Forall_app, ?Forall_cons, ?Exists_app, ?Exists_cons;
    try done; cbn in *; try lia; try (by left); try (by rewrite ?Hk2; auto).
  all: try (destruct lk; cbn in *; lia); try (rewrite Hk1; auto).
  all: try (split; [|split]; [by eapply callback_exact_ext| |by eapply callback_exact_ext]; done).
  - by intros q z ->.
  - split; [|split; [done|]]; (eapply callback_exact_unread; [|eassumption]);
      (eapply Forall_impl; [apply (tally_zero callback_holds); destruct lk; cbn in H4; lia|]); by intros [q []].
Qed.

Lemma exact_step service s s' : race_free_step service s s' → exact s → exact s'.
Proof. intros [Hr [s1 H1|i s1 H1]] He; [by eapply exact_writer_step|by eapply exact_callback_step]. Qed.

Lemma exact_initial cs : exact (initial_upload cs).
Proof. by split; cbn; try constructor; try lia. Qed.

Lemma exact_reachable service s s' : rtc (race_free_step service) s s' → exact s → exact s'.
Proof. induction 1 as [|x y z Hxy _ IH]; [done|]. intros Hx. apply IH. by eapply exact_step. Qed.

(** A thread that cannot go on waits for the lock, sleeps, or is done. *)
Lemma callback_enabled service s i p c :
  undefined s = false → callbacks s !! i = Some (p, c) → callback_step service i s = None →
  locked s = true ∧ callback_holds c = 0%nat.
Proof.
  destruct s as [cs w u lk cbs up ob ret n un]. cbn. intros -> Hi Hs. rewrite Hi in Hs. by step_cases Hs.
Qed.

Lemma writer_enabled service s :
  undefined s = false → writer_step service s = None →
  writer s = Asleep ∨ (writer s = Locking ∧ locked s = true) ∨ (writer s = Calling ∧ calls s = []).
Proof. destruct s as [cs w u lk cbs up ob ret n un]. cbn. intros -> Hs. step_cases Hs; auto. Qed.

Definition stuck service (s : UploadSystem) : Prop := ∀ s', ¬ upload_step service s s'.

(** No deadlock over the lock: in a state without a step every callback is done. *)
Lemma exact_stuck service s :
  exact s → undefined s = false → stuck service s →
  callbacks s = [] ∧ (writer s = Asleep ∨ (writer s = Calling ∧ calls s = [])).
Proof.
  intros He Hu Hstuck.
  assert (writer_step service s = None) as Hw.
  { destruct (writer_step service s) as [s'|] eqn:Hs; [|done]. destruct (Hstuck s'). by constructor. }
  assert (∀ i p c, callbacks s !! i = Some (p, c) → locked s = true ∧ callback_holds c = 0%nat) as Hc.
  { intros i p c Hi. eapply callback_enabled; [done|exact Hi|].
    destruct (callback_step service i s) as [s'|] eqn:Hs; [|done]. destruct (Hstuck s'). by econstructor. }
  apply writer_enabled in Hw; [|done]. assert (locked s = false) as Hl.
  { destruct (locked s) eqn:Hl; [|done]. pose proof (ex_lock s He) as Ht. rewrite Hl in Ht.
    assert (tally callback_holds (callbacks s) = 0%nat) as Hz.
    { assert (Forall (λ cb, callback_holds cb.2 = 0%nat) (callbacks s)) as Hall.
      { apply Forall_lookup. intros i [p c] Hi. by apply (Hc i p). }
      clear -Hall. induction Hall as [|[p c] l Hpc _ IH]; [done|]. rewrite tally_cons, IH. cbn in *. lia. }
    rewrite Hz in Ht. by destruct Hw as [Hw|[[Hw _]|[Hw _]]]; rewrite Hw in Ht. }
  split; [|rewrite Hl in Hw; destruct Hw as [|[[_ ?]|]]; auto; done].
  destruct (callbacks s) as [|[p c] l]; [done|]. destruct (Hc 0%nat p c eq_refl) as [Hl' _]. congruence.
Qed.

(** ** The calls of a multipart upload, and a failed part *)
Definition pending (cs : list UploaderCall) : Prop :=
  ∃ l, cs = l ++ [CallFinalize] ∧ Forall (λ c, c = CallInitialize ∨ ∃ part, c = CallUploadPart part) l.

(** Nothing is returned or made until [Finalize] has found the counter at 0; then no part is
    left and none has failed. *)
Definition phase (s : UploadSystem) : Prop :=
  match writer s with
  | Calling => (returned s = None ∧ object s = None ∧ pending (calls s)) ∨ (calls s = [] ∧ callbacks s = [] ∧ failures s = 0%nat)
  | Locking | Testing | Asleep => returned s = None ∧ object s = None ∧ calls s = []
  | Checking | Completing | Cancelling _ _ | Resetting _ => calls s = [] ∧ callbacks s = [] ∧ failures s = 0%nat
  | _ => returned s = None ∧ object s = None ∧ pending (calls s)
  end.

Lemma pending_cons c cs :
  pending (c :: cs) → (c = CallFinalize ∧ cs = []) ∨ ((c = CallInitialize ∨ ∃ part, c = CallUploadPart part) ∧ pending cs).
Proof.
  intros ([|c' l] & Heq & Hl); [by injection Heq as -> ->; left|]. injection Heq as <- ->. apply Forall_cons in Hl as [Hc Hl].
  right. split; [done|]. by exists l.
Qed.

(** The lock is held for the test, so no callback is between its decrement and its notification. *)
Lemma exact_tested s :
  exact s → writer s = Testing → in_process_parts_count_ (uploader s) = 0 → callbacks s = [] ∧ failures s = 0%nat.
Proof.
  intros [H1 _ _ H4 _ _] Hw Hz. rewrite Hw in *. rewrite Hz in H1. cbn in *.
  assert (tally callback_holds (callbacks s) = 0%nat) as Hh by (destruct (locked s); cbn in H4; lia).
  split; [|lia]. destruct (callbacks s) as [|[p c] l]; [done|]. rewrite tally_cons in H1, Hh. destruct c; cbn in *; lia.
Qed.

(** As long as there are callbacks, the phase does not depend on what they change. *)
Lemma phase_others cs w u lk cbs up ob ret n un u' lk' cbs' up' n' un' :
  cbs ≠ [] → phase (mkUploadSystem cs w u lk cbs up ob ret n un) →
  phase (mkUploadSystem cs w u' lk' cbs' up' ob ret n' un') ∧
  phase (mkUploadSystem cs (match w with Asleep => Locking | _ => w end) u' lk' cbs' up' ob ret n' un').
Proof. unfold phase. destruct w; cbn; tauto. Qed.

Lemma phase_step service s s' : exact s → upload_step service s s' → phase s → phase s'.
Proof.
  intros He [Hs|(i & a & p & c & b & Hs & Hi & Hcbs & Hd & Hins)]%upload_step_inv Hph.
  - pose proof (exact_tested s He) as Htest. clear He. destruct s as [cs w u lk cbs up ob ret n un]. unfold phase in *. cbn in *.
    step_cases Hs; try done; try (by destruct Htest); try tauto.
    all: destruct Hph as [(? & ? & Hp)|[? ?]]; [|done]; apply pending_cons in Hp as [[? ?]|[[?|[? ?]] Hp]]; try done; auto.
  - assert (callbacks s ≠ []) as Hne by (rewrite Hcbs; by destruct a).
    destruct s as [cs w u lk cbs up ob ret n un]. cbn in Hne, Hs, Hi. rewrite Hi in Hs. clear He Hi Hcbs Hd Hins.
    destruct un; [done|]. pose proof (λ u' lk' cbs' up' n' un', phase_others _ _ _ _ _ _ _ _ _ _ u' lk' cbs' up' n' un' Hne Hph) as Hall.
    clear Hph. destruct p as [[id k] part], c; repeat (case_match; try done); injection Hs as <-; apply Hall.
Qed.

(** A part whose request has failed. *)
Definition failing (c : CallbackState) : Prop :=
  match c with FailureCancelling _ _ | FailureLocking _ | ErrorWriting _ => True | _ => False end.
Definition failed_part (s : UploadSystem) : Prop := (0 < failures s)%nat ∨ Exists (λ cb, failing cb.2) (callbacks s).

Lemma failed_step service s s' : upload_step service s s' → failed_part s → failed_part s'.
Proof.
  unfold failed_part. intros [Hs|(i & a & p & c & b & Hs & Hi & Hcbs & Hd & Hins)]%upload_step_inv;
    destruct s as [cs w u lk cbs up ob ret n un]; cbn in *.
  - step_cases Hs; rewrite ?Exists_app; auto; intros [?|?]; auto.
  - rewrite Hi in Hs. rewrite Hcbs in *. rewrite Exists_app, Exists_cons.
    step_cases Hs; rewrite ?Hins, ?Hd, ?Exists_app, ?Exists_cons; cbn; try tauto; lia.
Qed.

Lemma initial_phase parts : phase (initial_upload (CallInitialize :: (CallUploadPart <$> parts) ++ [CallFinalize])).
Proof.
  left. split; [done|]. split; [done|]. exists (CallInitialize :: (CallUploadPart <$> parts)). split; [done|].
  constructor; [by left|]. apply Forall_fmap, Forall_forall. intros part _. right. by exists part.
Qed.

Lemma phase_reachable service s s' :
  rtc (race_free_step service) s s' → exact s → phase s → exact s' ∧ phase s'.
Proof.
  induction 1 as [|x y z Hxy _ IH]; [done|]. intros He Hp. apply IH; [by eapply exact_step|]. destruct Hxy. by eapply phase_step.
Qed.

Lemma failed_reachable service s s' : rtc (race_free_step service) s s' → failed_part s → failed_part s'.
Proof. induction 1 as [|x y z [_ Hxy] _ IH]; [done|]. intros Hf. by eapply IH, failed_step. Qed.

Lemma failed_blocks s : phase s → failed_part s → returned s = None ∧ object s = None.
Proof.
  unfold phase, failed_part. intros Hp Hf. destruct (writer s); try tauto.
  all: destruct Hp as [?|(_ & Hc & Hn)] || destruct Hp as (_ & Hc & Hn); try tauto; rewrite Hc, Hn in Hf; destruct Hf as [?|?%Exists_nil]; lia || done.
Qed.

(** In a state without a step, the writing thread sleeps in [Finalize] with the error stored. *)
Lemma failed_stuck service s :
  exact s → phase s → failed_part s → undefined s = false → stuck service s →
  writer s = Asleep ∧ callbacks s = [] ∧ IsError (storage_error_ (uploader s)) = true.
Proof.
  intros He Hp Hf Hu Hs. destruct (exact_stuck service s He Hu Hs) as [Hc Hw]. unfold failed_part in Hf. rewrite Hc, Exists_nil in Hf.
  destruct Hf as [Hf|?]; [|done]. pose proof (ex_error s He Hf). destruct Hw as [|[Hw Hcalls]]; [done|exfalso].
  unfold phase in Hp. rewrite Hw, Hcalls in Hp. destruct Hp as [(_ & _ & ([|? ?] & ? & _))|(_ & _ & ?)]; [done..|lia].
Qed.

(** ** An upload without failures *)
Section Success.
Variable service : S3Service.
Definition granted_id : string := (CreateMultipartUpload service).2.
Definition part_etag (n : nat) (part : bytes) : string := (UploadPart service granted_id n part).2.

(** The parts of a completed upload, numbered from 1 and with the ETags of their uploads. *)
Definition completed (contents : list bytes) : list CompletedPart := imap (λ i part, Some (S i, part_etag (S i) part)) contents.

(** No request fails, and a completed upload is the concatenation of its parts. *)
Record reliable : Prop := {
  re_create : (CreateMultipartUpload service).1 = kNoError;
  re_upload n part : (UploadPart service granted_id n part).1 = kNoError;
  re_put body : PutObject service body = kNoError;
  re_complete contents (uploaded : gmap nat bytes) :
    contents ≠ [] → (∀ i part, contents !! i = Some part → uploaded !! S i = Some part) →
    CompleteMultipartUpload service uploaded (completed contents) = inr (concat contents) }.

Hypothesis Hreliable : reliable.
Variable contents : list bytes.
Hypothesis Hcontents : contents ≠ [].

Definition content (i : nat) : bytes := nth i contents [].
Definition flight (i : nat) : PartInFlight := (granted_id, S i, content i).

(** The element of part [i] is set, and its content is with the service. *)
Definition part_stored (i : nat) (elements : list CompletedPart) (up : gmap nat bytes) : Prop :=
  elements !! i = Some (Some (S i, part_etag (S i) (content i))) ∧ up !! S i = Some (content i).

Definition callback_right (i : nat) (c : CallbackState) (elements : list CompletedPart) (up : gmap nat bytes) : Prop :=
  match c with
  | Uploading => True
  | SuccessLocking etag | ElementWriting etag => etag = part_etag (S i) (content i) ∧ up !! S i = Some (content i)
  | CounterReading | CounterWriting _ | Notifying => part_stored i elements up
  | FailureCancelling _ _ | FailureLocking _ | ErrorWriting _ => False
  end.

(** The first [k] parts have been given to the client; [l] are the callbacks that are left. *)
Record parts_right (k : nat) (l : list (nat * CallbackState)) (elements : list CompletedPart) (up : gmap nat bytes) : Prop := {
  pr_nodup : NoDup l.*1;
  pr_callbacks : Forall (λ ic, (ic.1 < k)%nat ∧ callback_right ic.1 ic.2 elements up) l;
  pr_done i : (i < k)%nat → i ∉ l.*1 → part_stored i elements up }.

(** What a step of callback [i] may change. *)
Lemma parts_right_step k a i c c' b elements up elements' up' :
  parts_right k (a ++ (i, c) :: b) elements up →
  (∀ j, j ≠ i → elements' !! j = elements !! j ∧ up' !! S j = up !! S j) → callback_right i c' elements' up' →
  parts_right k (a ++ (i, c') :: b) elements' up'.
Proof.
  intros [H1 H2 H3] Hsame Hc'. rewrite fmap_app, fmap_cons in H1, H3. cbn in H1, H3.
  assert (∀ j c, j ≠ i → callback_right j c elements up → callback_right j c elements' up') as Hright.
  { intros j d Hj. destruct (Hsame j Hj) as [He Hu]. destruct d; cbn; unfold part_stored; by rewrite ?He, ?Hu. }
  assert (∀ l : list (nat * CallbackState), i ∉ l.*1 → Forall (λ ic, (ic.1 < k)%nat ∧ callback_right ic.1 ic.2 elements up) l →
    Forall (λ ic, (ic.1 < k)%nat ∧ callback_right ic.1 ic.2 elements' up') l) as Hother.
  { intros l Hl. rewrite !Forall_forall. intros Hall [j d] Hjd. destruct (Hall _ Hjd). split; [done|]. apply Hright; [|done].
    cbn. intros ->. apply Hl, list_elem_of_fmap. by exists (i, d). }
  apply Forall_app in H2 as [Ha [[Hik Hc] Hb]%Forall_cons]. pose proof H1 as (_ & Hia & [Hib _]%NoDup_cons)%NoDup_app.
  split; rewrite ?fmap_app, ?fmap_cons; cbn; [done| |].
  - apply Forall_app. split; [apply Hother; [|done]|apply Forall_cons; split; [done|by apply Hother]].
    intros Hin. apply (Hia i Hin). by left.
  - intros j Hj Hjn. destruct (Hsame j) as [He Hu]; [intros ->; apply Hjn, elem_of_app; right; by left|].
    unfold part_stored. rewrite He, Hu. by apply H3.
Qed.

Lemma parts_right_remove k a i b elements up :
  parts_right k (a ++ (i, Notifying) :: b) elements up → parts_right k (a ++ b) elements up.
Proof.
  intros [H1 H2 H3]. rewrite fmap_app, fmap_cons in H1, H3. cbn in H1, H3. apply Forall_app in H2 as [Ha [[_ Hi] Hb]%Forall_cons].
  apply NoDup_app in H1 as (H1a & H1ab & [H1i H1b]%NoDup_cons). split; rewrite ?fmap_app.
  - apply NoDup_app. split; [done|]. split; [|done]. intros j Hj Hj'. apply (H1ab j Hj). by right.
  - by apply Forall_app.
  - intros j Hj Hjn. destruct (decide (j = i)) as [->|]; [done|]. apply H3; [done|].
    rewrite elem_of_app, elem_of_cons. rewrite elem_of_app in Hjn. tauto.
Qed.

Lemma parts_right_add k l elements up : parts_right k l elements up → parts_right (S k) (l ++ [(k, Uploading)]) elements up.
Proof.
  intros [H1 H2 H3]. split; rewrite ?fmap_app; cbn.
  - apply NoDup_app. split; [done|]. split; [|apply NoDup_singleton]. intros i (ic & -> & Hic)%list_elem_of_fmap Hk%list_elem_of_singleton.
    rewrite Forall_forall in H2. apply H2 in Hic as [? _]. lia.
  - apply Forall_app. split; [|repeat constructor; cbn; lia]. eapply Forall_impl; [exact H2|]. intros ic [? ?]. split; [lia|done].
  - intros i Hi Hin. rewrite elem_of_app, list_elem_of_singleton in Hin. apply H3; [lia|tauto].
Qed.

Lemma parts_right_append k l elements up x :
  length elements = k → parts_right k l elements up → parts_right k l (elements ++ [x]) up.
Proof.
  intros Hlen [H1 H2 H3]. assert (∀ i, (i < k)%nat → part_stored i elements up → part_stored i (elements ++ [x]) up) as Hkeep.
  { intros i Hi [He Hu]. split; [|done]. by rewrite lookup_app_l by lia. }
  split; [done| |auto]. eapply Forall_impl; [exact H2|]. intros [i c] [Hi Hc]. split; [done|]. destruct c; try done; by apply Hkeep.
Qed.

(** Where the writing thread is when it has given the client the first [k] parts. *)
Definition writer_right (k : nat) (cs : list UploaderCall) (w : WriterState) (u : S3MultipartUploader) : Prop :=
  let left j := cs = (CallUploadPart <$> drop j contents) ++ [CallFinalize] in
  let part_is p := (k < length contents)%nat ∧ p = flight k ∧ left (S k) in
  match w with
  | Calling => (k <= length contents)%nat ∧ left k ∧ part_count_ u = S k ∧ length (completed_parts_ u) = k
  | NumberRead part m =>
      contents !! k = Some part ∧ m = S k ∧ left (S k) ∧ part_count_ u = S k ∧ length (completed_parts_ u) = k
  | RequestMade p | InProcessRead p _ | InProcessWritten p =>
      part_is p ∧ part_count_ u = S k ∧ length (completed_parts_ u) = k
  | PartCountRead p m => part_is p ∧ m = S k ∧ length (completed_parts_ u) = k
  | PartCountWritten p => part_is p ∧ part_count_ u = S (S k) ∧ length (completed_parts_ u) = k
  | PartsRead p elements => part_is p ∧ part_count_ u = S (S k) ∧ length (completed_parts_ u) = k ∧ elements = completed_parts_ u
  | PartsWritten p => part_is p ∧ part_count_ u = S (S k) ∧ length (completed_parts_ u) = S k
  | Locking | Testing | Asleep | Checking | Completing => cs = [] ∧ k = length contents ∧ length (completed_parts_ u) = k
  | Cancelling _ _ | Resetting _ => False
  end.

Record uploading_parts (k : nat) (l : list (nat * CallbackState)) (s : UploadSystem) : Prop := {
  ug_writer : writer_right k (calls s) (writer s) (uploader s);
  ug_id : upload_id_ (uploader s) = granted_id;
  ug_error : storage_error_ (uploader s) = kNoError;
  ug_callbacks : callbacks s = (λ ic, (flight ic.1, ic.2)) <$> l;
  ug_parts : parts_right k l (completed_parts_ (uploader s)) (uploaded s);
  ug_undefined : undefined s = false }.

Definition upload_done (data : bytes) (s : UploadSystem) : Prop :=
  calls s = [] ∧ callbacks s = [] ∧ writer s = Calling ∧ returned s = Some kNoError ∧ object s = Some data ∧ undefined s = false.

Definition multipart_upload : UploadSystem := initial_upload (CallInitialize :: (CallUploadPart <$> contents) ++ [CallFinalize]).

Inductive upload_state : UploadSystem → Prop :=
  | upload_started : upload_state multipart_upload
  | upload_running k l s : uploading_parts k l s → upload_state s
  | upload_resetting todo s : writer s = Resetting todo → calls s = [] → callbacks s = [] → object s = Some (concat contents) →
      undefined s = false → upload_state s
  | upload_finished s : upload_done (concat contents) s → upload_state s.

Lemma started_step s' : upload_step service multipart_upload s' → upload_state s'.
Proof.
  intros [Hs|(i & a & p & c & b & _ & Hi & _)]%upload_step_inv; [|done]. cbn in Hs. injection Hs as <-.
  pose proof (re_create Hreliable) as Hc. unfold S3MultipartUploader_Initialize.
  destruct (CreateMultipartUpload service) as [e i] eqn:He. cbn [fst] in Hc. subst e. cbn.
  apply (upload_running 0 []). split; cbn; try done; [split; [lia|done]|by unfold granted_id; rewrite He|].
  split; [constructor|constructor|lia].
Qed.

(** The elements of a finished upload. *)
Lemma all_parts_completed elements up :
  parts_right (length contents) [] elements up → length elements = length contents →
  elements = completed contents ∧ ∀ i part, contents !! i = Some part → up !! S i = Some part.
Proof.
  intros [_ _ Hd] Hlen. split.
  - apply list_eq. intros i. unfold completed. rewrite list_lookup_imap. destruct (decide (i < length contents)%nat) as [Hi|Hi].
    + destruct (lookup_lt_is_Some_2 contents i Hi) as [part Hp]. rewrite Hp. cbn.
      destruct (Hd i Hi) as [-> _]; [by apply not_elem_of_nil|]. unfold content. by rewrite (nth_lookup_Some _ _ [] _ Hp).
    + by rewrite !lookup_ge_None_2 by lia.
  - intros i part Hi. destruct (Hd i) as [_ ->]; [by eapply lookup_lt_Some|by apply not_elem_of_nil|].
    unfold content. by rewrite (nth_lookup_Some _ _ [] _ Hi).
Qed.

Lemma running_writer_step k l s s' :
  exact s → phase s → uploading_parts k l s → writer_step service s = Some s' → upload_state s'.
Proof.
  intros He Hph [H1 H2 H3 H4 H5 H6] Hs. destruct s as [cs w u lk cbs up ob ret n un]. cbn in *. subst un.
  destruct w; cbn in H1; try done.
  - destruct H1 as (Hk & -> & Hpc & Hlen). destruct (drop k contents) as [|part rest] eqn:Hd; cbn in Hs; injection Hs as <-.
    + assert (k = length contents) by (apply (f_equal length) in Hd; rewrite length_drop in Hd; cbn in Hd; lia).
      by apply (upload_running k l).
    + assert (contents !! k = Some part) as Hp by (rewrite <- (Nat.add_0_r k), <- lookup_drop, Hd; done).
      apply (upload_running k l). split; try done. cbn. rewrite Hpc. do 2 (split; [done|]). split; [|done].
      by rewrite <- Nat.add_1_r, <- drop_drop, Hd.
  - destruct H1 as (Hp & -> & Hl & Hpc & Hlen). injection Hs as <-. apply (upload_running k l). split; try done. cbn.
    split; [|done]. split; [by eapply lookup_lt_Some|]. split; [|done]. unfold flight, content. by rewrite H2, (nth_lookup_Some _ _ [] _ Hp).
  - injection Hs as <-. by apply (upload_running k l).
  - injection Hs as <-. by apply (upload_running k l).
  - destruct H1 as (Hp & Hpc & Hlen). injection Hs as <-. by apply (upload_running k l).
  - destruct H1 as (Hp & -> & Hlen). injection Hs as <-. apply (upload_running k l). split; try done. cbn. by rewrite Nat.add_1_r.
  - destruct H1 as (Hp & Hpc & Hlen). injection Hs as <-. by apply (upload_running k l).
  - destruct H1 as (Hp & Hpc & Hlen & ->). injection Hs as <-. apply (upload_running k l). split; try done; cbn.
    + rewrite length_app. cbn. rewrite Hlen, Nat.add_1_r. done.
    + by apply parts_right_append.
  - destruct H1 as ((Hk & -> & Hl) & Hpc & Hlen). injection Hs as <-. apply (upload_running (S k) (l ++ [(k, Uploading)])). split; try done; cbn.
    + by rewrite fmap_app, H4.
    + by apply parts_right_add.
  - destruct lk; [done|]. injection Hs as <-. by apply (upload_running k l).
  - destruct (decide _); injection Hs as <-; by apply (upload_running k l).
  - rewrite H3 in Hs. injection Hs as <-. by apply (upload_running k l).
  - destruct H1 as (-> & -> & Hlen). destruct Hph as (_ & Hc & _). cbn in Hc. rewrite Hc in H4. symmetry in H4. apply fmap_nil_inv in H4 as ->.
    destruct (all_parts_completed _ _ H5 Hlen) as [Hcomp Hup]. rewrite Hcomp, (re_complete Hreliable contents up Hcontents Hup) in Hs.
    injection Hs as <-. by eapply upload_resetting.
Qed.

Lemma running_callback_step k l i s s' :
  race s = false → uploading_parts k l s → callback_step service i s = Some s' → upload_state s'.
Proof.
  intros Hr [H1 H2 H3 H4 H5 H6] Hs. apply race_callback in Hr. destruct s as [cs w u lk cbs up ob ret n un]. cbn in *. subst un cbs.
  rewrite list_lookup_fmap in Hs. destruct (l !! i) as [[j c]|] eqn:Hi; cbn in Hs; [|done].
  destruct (callback_split _ _ _ Hi) as (a & b & Hl & Hd & Hins).
  assert (∀ c', <[i := (flight j, c')]> ((λ ic, (flight ic.1, ic.2)) <$> l) = (λ ic, (flight ic.1, ic.2)) <$> (a ++ (j, c') :: b)) as Hmap.
  { intros c'. rewrite <- Hins. by rewrite list_fmap_insert. }
  pose proof (pr_callbacks _ _ _ _ H5) as Hcbs. rewrite Hl in H5, Hcbs. apply Forall_app in Hcbs as [_ [[Hjk Hc] _]%Forall_cons].
  rewrite Forall_lookup in Hr. specialize (Hr i (flight j, c)). rewrite list_lookup_fmap, Hi in Hr. specialize (Hr eq_refl). cbn in Hr.
  (* a step that changes neither the elements nor what was uploaded *)
  assert (∀ c' u' lk', callback_right j c' (completed_parts_ u) up → writer_right k cs w u' →
    upload_id_ u' = upload_id_ u → storage_error_ u' = storage_error_ u → completed_parts_ u' = completed_parts_ u →
    upload_state (mkUploadSystem cs w u' lk' (<[i := (flight j, c')]> ((λ ic, (flight ic.1, ic.2)) <$> l)) up ob ret n false)) as Hmove.
  { intros c' u' lk' Hc' Hw Hid Herr Hcp. rewrite Hmap. apply (upload_running k (a ++ (j, c') :: b)). split; cbn; try done; try congruence.
    eapply parts_right_step; [exact H5|by rewrite Hcp|by rewrite Hcp]. }
  destruct c as [|etag|etag| |z| |e c|e|e]; try done.
  - pose proof (re_upload Hreliable (S j) (content j)) as Hok. destruct (UploadPart service granted_id (S j) (content j)) as [e etag] eqn:Hup.
    cbn in Hok. subst e. cbn in Hs. injection Hs as <-. rewrite Hmap. apply (upload_running k (a ++ (j, SuccessLocking etag) :: b)).
    split; try done; cbn. eapply parts_right_step; [exact H5| |].
    + intros j' Hj'. by rewrite lookup_insert_ne by congruence.
    + split; [unfold part_etag; by rewrite Hup|by rewrite lookup_insert_eq].
  - destruct lk; [done|]. injection Hs as <-. by apply Hmove.
  - cbn in Hc. destruct Hc as [-> Hup]. rewrite Nat.sub_0_r in Hs.
    assert (j < length (completed_parts_ u))%nat as Hlt by (destruct w; cbn in H1; try done; destruct_and?; cbn in Hjk; lia).
    apply Nat.ltb_lt in Hlt as Hb. cbn in Hb. rewrite Hb in Hs. injection Hs as <-. rewrite Hmap.
    apply (upload_running k (a ++ (j, CounterReading) :: b)). split; try done; cbn.
    + destruct w; cbn in *; rewrite ?length_insert; try done.
    + eapply parts_right_step; [exact H5| |].
      * intros j' Hj'. by rewrite list_lookup_insert_ne by congruence.
      * split; [by rewrite list_lookup_insert_eq|done].
  - injection Hs as <-. by apply Hmove.
  - injection Hs as <-. by apply Hmove.
  - injection Hs as <-. rewrite <- list_fmap_delete, Hd. apply (upload_running k (a ++ b)). split; try done; cbn; [|by eapply parts_right_remove].
    by destruct w.
Qed.

Lemma upload_state_step s s' : exact s → phase s → race_free_step service s s' → upload_state s → upload_state s'.
Proof.
  intros He Hph [Hr Hstep] Hst. destruct Hst as [|k l s Hu|todo s Hw Hc Hf Ho Hu|s Hd].
  - by apply started_step.
  - destruct Hstep as [s' Hs|i s' Hs]; [by eapply running_writer_step|by eapply running_callback_step].
  - apply upload_step_inv in Hstep as [Hs|(i & _ & p & c & _ & _ & Hi & _)]; [|by rewrite Hf in Hi].
    destruct s as [cs w u lk cbs up ob ret n un]. cbn in *. subst. destruct todo as [|m todo]; injection Hs as <-.
    + by apply upload_finished.
    + by eapply upload_resetting.
  - destruct Hd as (Hc & Hf & Hw & Hret & Ho & Hu). apply upload_step_inv in Hstep as [Hs|(i & _ & p & c & _ & _ & Hi & _)]; [|by rewrite Hf in Hi].
    destruct s as [cs w u lk cbs up ob ret n un]. cbn in *. by subst.
Qed.

(** The run is right in every state it reaches without a race, and it can stop only when it is done. *)
Lemma upload_state_reachable s :
  rtc (race_free_step service) multipart_upload s → exact s ∧ phase s ∧ upload_state s.
Proof.
  intros Hr. assert (∀ x, rtc (race_free_step service) x s → exact x → phase x → upload_state x → exact s ∧ phase s ∧ upload_state s) as Hall.
  { clear Hr. induction 1 as [|x y z Hxy _ IH]; [done|]. intros He Hp Hu. apply IH; [by eapply exact_step|destruct Hxy; by eapply phase_step|].
    by eapply upload_state_step. }
  apply (Hall multipart_upload); [done|apply exact_initial|apply initial_phase|constructor].
Qed.

(** No wake-up is lost: while the writing thread sleeps, there are callbacks. *)
Lemma asleep_callbacks s : exact s → upload_state s → writer s = Asleep → callbacks s ≠ [].
Proof.
  intros He Hst Hw Hc. destruct Hst as [|k l s Hup|todo s Hw'|s Hd]; [done| |congruence|destruct Hd as (_ & _ & ? & _); congruence].
  destruct (ex_asleep s He Hw) as [Hne|Hex]; [|rewrite Hc in Hex; by apply Exists_nil in Hex].
  apply Hne. rewrite (ex_count s He), Hc, Hw. cbn. rewrite tally_nil.
  destruct (failures s) as [|f] eqn:Hf; [done|]. exfalso. assert (IsError (storage_error_ (uploader s)) = true) as Herr
    by (apply (ex_error s He); lia). by rewrite (ug_error _ _ _ Hup) in Herr.
Qed.

Lemma upload_state_defined s : upload_state s → undefined s = false.
Proof. destruct 1 as [|k l s Hu| |s Hd]; [done|apply Hu|done|apply Hd]. Qed.

(** The writing thread returns from its last call. *)
Lemma upload_state_done s : upload_state s → writer s = Calling → calls s = [] → upload_done (concat contents) s.
Proof.
  destruct 1 as [|k l s Hup|todo s Hw|s Hd]; [done| |congruence|done]. intros Hw Hcs. destruct Hup as [H1 _ _ _ _ _].
  rewrite Hw in H1. cbn in H1. destruct H1 as (_ & H1 & _). rewrite Hcs in H1. by destruct (drop k contents).
Qed.

Lemma upload_state_stuck s : exact s → upload_state s → stuck service s → upload_done (concat contents) s.
Proof.
  intros He Hst Hstuck. destruct (exact_stuck service s He (upload_state_defined s Hst) Hstuck) as [Hc [Hw|[Hw Hcs]]].
  - by destruct (asleep_callbacks s He Hst Hw).
  - by apply upload_state_done.
Qed.

(** *** A run without a race

    The writing thread runs until it sleeps, and then the callbacks one after the other. *)
Definition waiting (cbs : list PartCallback) : Prop := Forall (λ cb, cb.2 = Uploading) cbs.

Definition exclusive (s : UploadSystem) : Prop :=
  waiting (callbacks s) ∨
  (writer s = Asleep ∧ ∃ a p c b, callbacks s = a ++ (p, c) :: b ∧ waiting a ∧ waiting b).

Lemma races_single xs t ys : Forall (eq []) xs → Forall (eq []) ys → races (xs ++ t :: ys) = false.
Proof.
  assert (∀ t, conflict t [] = false) as Hnil by (intros t'; by induction t').
  induction 1 as [|x xs <- _ IH]; intros Hys; cbn; apply orb_false_iff.
  - split.
    + induction Hys as [|y ys <- _ IH]; [done|]. cbn. by rewrite Hnil.
    + induction Hys as [|y ys <- Hys IH]; [done|]. cbn. rewrite IH, orb_false_r. clear. by induction ys.
  - split; [|by apply IH]. generalize (xs ++ t :: ys). intros l. by induction l.
Qed.

Lemma waiting_accesses cbs : waiting cbs → Forall (eq []) ((λ cb : PartCallback, callback_accesses cb.2) <$> cbs).
Proof. intros Hq. apply Forall_fmap. eapply Forall_impl; [exact Hq|]. intros [p c]. cbn. by intros ->. Qed.

Lemma exclusive_race s : exclusive s → race s = false.
Proof.
  unfold race. intros [Hq|(Hw & a & p & c & b & -> & Ha & Hb)].
  - apply (races_single []); [constructor|by apply waiting_accesses].
  - unfold writer_accesses. rewrite Hw, fmap_app, fmap_cons. apply (races_single ([] :: _)); [constructor; [done|]|]; by apply waiting_accesses.
Qed.

Lemma waiting_holds cbs : waiting cbs → tally callback_holds cbs = 0%nat.
Proof. induction 1 as [|[p c] cbs Hc _ IH]; [done|]. rewrite tally_cons, IH. cbn in Hc. by subst c. Qed.

Lemma exclusive_writer_step s s' : waiting (callbacks s) → writer_step service s = Some s' → waiting (callbacks s').
Proof.
  destruct s as [cs w u lk cbs up ob ret n un]. cbn. intros Hq Hs. step_cases Hs; try exact Hq.
  apply Forall_app. split; [done|by repeat constructor].
Qed.

Lemma exclusive_callback_step s a p c b :
  exact s → undefined s = false → writer s = Asleep → callbacks s = a ++ (p, c) :: b → waiting a → waiting b →
  ∃ s', callback_step service (length a) s = Some s' ∧ exclusive s'.
Proof.
  intros He Hu Hw Hcbs Ha Hb. assert (callbacks s !! length a = Some (p, c)) as Hi by (rewrite Hcbs; by apply list_lookup_middle).
  destruct (callback_step service (length a) s) as [s'|] eqn:Hs.
  2: { destruct (callback_enabled _ _ _ _ _ Hu Hi Hs) as [Hl Hh]. pose proof (ex_lock s He) as Hlock.
       rewrite Hl, Hw, Hcbs, tally_app, tally_cons, !waiting_holds, Hh in Hlock by done. done. }
  exists s'. split; [done|].
  assert (delete (length a) (callbacks s) = a ++ b) as Hd' by (rewrite Hcbs; clear; induction a as [|x a IH]; cbn; by f_equal).
  assert (∀ cb, <[length a := cb]> (callbacks s) = a ++ cb :: b) as Hins' by (intros cb; rewrite Hcbs; clear; induction a as [|x a IH]; cbn; by f_equal).
  destruct s as [cs w u lk cbs up ob ret n un]. cbn in *. subst un w. rewrite Hi in Hs. clear Hi He.
  destruct p as [[id m] part]. unfold exclusive. destruct c; repeat (case_match; try done); injection Hs as <-; cbn;
    rewrite ?Hins', ?Hd'; try (left; by apply Forall_app); right; (split; [done|]); do 4 eexists; by (split; [done|]).
Qed.

Lemma exclusive_progress s :
  exact s → upload_state s → exclusive s → upload_done (concat contents) s ∨ ∃ s', race_free_step service s s' ∧ exclusive s'.
Proof.
  intros He Hst Hex. pose proof (exclusive_race s Hex) as Hr. pose proof (upload_state_defined s Hst) as Hu.
  destruct Hex as [Hq|(Hw & a & p & c & b & Hcbs & Ha & Hb)].
  - destruct (writer_step service s) as [s'|] eqn:Hs.
    { right. exists s'. split; [split; [done|by constructor]|]. left. by eapply exclusive_writer_step. }
    destruct (writer_enabled service s Hu Hs) as [Hw|[[Hw Hl]|[Hw Hcs]]].
    + right. pose proof (asleep_callbacks s He Hst Hw) as Hne. destruct (callbacks s) as [|[p c] b] eqn:Hcbs; [done|].
      apply Forall_cons in Hq as [_ Hb]. destruct (exclusive_callback_step s [] p c b He Hu Hw Hcbs) as (s' & Hs' & Hex'); [constructor|done|].
      exists s'. split; [|done]. split; [done|by econstructor].
    + pose proof (ex_lock s He) as Hlock. by rewrite Hw, Hl, waiting_holds in Hlock by done.
    + left. by apply upload_state_done.
  - right. destruct (exclusive_callback_step s a p c b He Hu Hw Hcbs Ha Hb) as (s' & Hs' & Hex').
    exists s'. split; [|done]. split; [done|by econstructor].
Qed.

Lemma race_free_run : ∃ s, rtc (race_free_step service) multipart_upload s ∧ upload_done (concat contents) s.
Proof.
  assert (∀ m s, upload_measure s = m → exact s → phase s → upload_state s → exclusive s →
    ∃ s', rtc (race_free_step service) s s' ∧ upload_done (concat contents) s') as Hall.
  { induction m as [m IH] using lt_wf_ind. intros s Hm He Hp Hst Hex.
    destruct (exclusive_progress s He Hst Hex) as [|(s1 & Hs1 & Hex1)]; [by exists s|]. pose proof Hs1 as [_ Hstep].
    pose proof (upload_step_measure _ _ _ Hstep). destruct (IH (upload_measure s1)) with (s := s1) as (s2 & Hs2 & Hd); try done; [lia|..].
    - by eapply exact_step.
    - by eapply phase_step.
    - by eapply upload_state_step.
    - exists s2. split; [by eapply rtc_l|done]. }
  eapply Hall; [done|apply exact_initial|apply initial_phase|constructor|]. left. constructor.
Qed.
End Success.

(** ** Writing an object *)

(** An object that is put in one request. *)
Lemma put_runs service body s :
  PutObject service body = kNoError → rtc (race_free_step service) (initial_upload [CallPutObject body]) s →
  s = initial_upload [CallPutObject body] ∨ upload_done body s.
Proof.
  intros Hput Hr. apply rtc_inv in Hr as [->|(s1 & [_ Hs] & Hr)]; [by left|right].
  assert (upload_done body s1) as Hd.
  { apply upload_step_inv in Hs as [Hs|(i & _ & p & c & _ & _ & Hi & _)]; [|done]. cbn in Hs. injection Hs as <-. by rewrite Hput. }
  apply rtc_inv in Hr as [->|(s2 & [_ Hs2] & _)]; [done|exfalso]. destruct Hd as (Hc & Hf & Hw & _).
  apply upload_step_inv in Hs2 as [Hs2|(i & _ & p & c & _ & _ & Hi & _)]; [|by rewrite Hf in Hi].
  destruct s1 as [cs w u lk cbs up ob ret n un]. cbn in *. subst. by destruct un.
Qed.

Lemma put_step service body : ∃ s', race_free_step service (initial_upload [CallPutObject body]) s'.
Proof. eexists. split; [done|]. by apply writer_steps. Qed.

(** C32: (s3_storage.cpp) Writing an object to S3.  However the data is cut into writes, the
    calls of the uploader are one request for an object up to the threshold, and above it an
    upload in parts of which all but the last have the full size.  If every request succeeds,
    every interleaving of the accesses of the writing thread and of the callbacks ends after a
    bounded number of steps; and one in which no two threads are ever about to make conflicting
    accesses makes none out of bounds and can end only when [Close] has reported success with
    exactly the written bytes as the object.  There is such a run.  (The code does not exclude
    the others: [UploadPartAsync] changes the counter and the parts without the lock, and
    [lost_decrement_blocks] and [lost_increment_completes] show what comes of it.) *)
Theorem S3ObjectWriter_correct threshold size service pieces :
  (0 < size)%nat → (threshold <= size)%nat → reliable service →
  ∃ w cs, write_and_close threshold size kNoError kNoError pieces = Ok (w, cs, kNoError) ∧
    (if (length (concat pieces) <=? threshold)%nat then cs = [CallPutObject (concat pieces)]
     else ∃ parts, cs = CallInitialize :: (CallUploadPart <$> parts) ++ [CallFinalize] ∧ upload_parts size (concat pieces) parts) ∧
    (∀ k s, nsteps (upload_step service) k (initial_upload cs) s → (k <= 20 * length cs)%nat) ∧
    (∃ s, rtc (race_free_step service) (initial_upload cs) s ∧ upload_done (concat pieces) s) ∧
    ∀ s, rtc (race_free_step service) (initial_upload cs) s →
      undefined s = false ∧ (stuck service s → upload_done (concat pieces) s).
Proof.
  intros Hsize Hthreshold Hr. destruct (write_and_close_calls threshold size Hsize Hthreshold kNoError kNoError pieces) as (w & cs & e & Hw & _ & Hcs).
  assert (cs ≠ [] → ∀ k s, nsteps (upload_step service) k (initial_upload cs) s → (k <= 20 * length cs)%nat) as Hbound.
  { intros Hne k s Hk. apply upload_bounded in Hk. pose proof (initial_measure cs). destruct cs; [done|]. cbn [length] in *. lia. }
  exists w, cs. destruct (_ <=? _)%nat.
  - destruct Hcs as (-> & -> & _). do 2 (split; [done|]). split; [by apply Hbound|]. pose proof (re_put service Hr (concat pieces)) as Hput.
    destruct (put_step service (concat pieces)) as [s' Hs']. split.
    + exists s'. split; [by apply rtc_once|]. destruct (put_runs service (concat pieces) s' Hput) as [->|]; [by apply rtc_once| |done].
      destruct Hs' as [_ Hs']. apply upload_step_measure in Hs'. lia.
    + intros s Hs. destruct (put_runs service (concat pieces) s Hput Hs) as [->|Hd]; [|split; [apply Hd|done]].
      split; [done|]. intros Hstuck. destruct Hs' as [_ Hs']. by apply Hstuck in Hs'.
  - destruct Hcs as (parts & -> & -> & Hparts & _). split; [done|]. split; [by exists parts|]. split; [by apply Hbound|].
    destruct Hparts as (<- & Hne & _). split; [by apply race_free_run|]. intros s Hs.
    destruct (upload_state_reachable service Hr parts Hne s Hs) as (He & _ & Hst).
    split; [by eapply upload_state_defined|by apply upload_state_stuck].
Qed.

(** C36: (s3_storage.cpp) The callback of a part that could not be uploaded stores the error but
    does not take the part off the counter that [Finalize] waits for.  From then on, in a run
    without a data race and as long as no callback of another part writes to [parts_] out of
    bounds (as it can after the cancellation has cleared [parts_]), [Close] does not return and
    there is no object; and when the run can go no further, the error is stored, all callbacks
    are done, and the writing thread sleeps in [Finalize]. *)
Theorem S3ObjectWriter_failure_blocks threshold size service pieces :
  (0 < size)%nat → (threshold <= size)%nat → (threshold < length (concat pieces))%nat →
  ∃ w cs, write_and_close threshold size kNoError kNoError pieces = Ok (w, cs, kNoError) ∧
    ∀ s s', rtc (race_free_step service) (initial_upload cs) s → failed_part s →
      rtc (race_free_step service) s s' → undefined s' = false →
      returned s' = None ∧ object s' = None ∧
      (stuck service s' → writer s' = Asleep ∧ callbacks s' = [] ∧ IsError (storage_error_ (uploader s')) = true).
Proof.
  intros Hsize Hthreshold Hlong. destruct (write_and_close_calls threshold size Hsize Hthreshold kNoError kNoError pieces) as (w & cs & e & Hw & _ & Hcs).
  rewrite (proj2 (Nat.leb_gt _ _) Hlong) in Hcs. destruct Hcs as (parts & -> & -> & _). eexists w, _. split; [exact Hw|].
  intros s s' Hs Hf Hs' Hu.
  destruct (phase_reachable service _ s Hs (exact_initial _) (initial_phase parts)) as [He Hp].
  destruct (phase_reachable service s s' Hs' He Hp) as [He' Hp']. pose proof (failed_reachable service s s' Hs' Hf) as Hf'.
  destruct (failed_blocks s' Hp' Hf'). do 2 (split; [done|]). intros Hstuck. by eapply failed_stuck.
Qed.

(** ** Examples *)

(** A run by its schedule: the writing thread for [None], a callback for [Some i]. *)
Section Schedules.
Variable service : S3Service.
Variable race_free : bool.

Fixpoint run (schedule : list (option nat)) (s : UploadSystem) : option UploadSystem :=
  match schedule with
  | [] => Some s
  | t :: schedule =>
      if race_free && race s then None else
      match match t with None => writer_step service s | Some i => callback_step service i s end with
      | Some s => run schedule s
      | None => None
      end
  end.

Lemma run_steps schedule s s' :
  run schedule s = Some s' → rtc (if race_free then race_free_step service else upload_step service) s s'.
Proof.
  revert s. induction schedule as [|t schedule IH]; intros s; cbn [run]; [by intros [= ->]|].
  destruct (race_free && race s) eqn:Hr; [done|]. destruct (match t with None => _ | Some i => _ end) as [s1|] eqn:Ht; [|done].
  intros Hs. eapply rtc_l; [|by apply IH].
  assert (upload_step service s s1) as Hstep by (destruct t; by econstructor). destruct race_free; [by split|done].
Qed.
End Schedules.

Definition demo_service : S3Service := mkS3Service (kNoError, "upload"%string) (λ _ _ _, (kNoError, "etag"%string))
  (λ uploaded parts, inr (concat ((λ p, match p with Some (n, _) => from_option id [] (uploaded !! n) | None => [] end) <$> parts))) (λ _, kNoError) (λ _, kNoError).

Lemma demo_service_reliable : reliable demo_service.
Proof.
  split; try done. intros contents uploaded _ Hup. cbn. do 2 f_equal. apply list_eq. intros i. unfold completed.
  rewrite list_lookup_fmap, list_lookup_imap. destruct (contents !! i) as [part|] eqn:Hi; [|done]. cbn. by rewrite (Hup i part Hi).
Qed.

Lemma S3ObjectWriter_correct_witness :
  ∃ w cs s, write_and_close 2 2 kNoError kNoError [["a"]; ["b"; "c"]; ["d"; "e"]]%char = Ok (w, cs, kNoError) ∧
    cs = [CallInitialize; CallUploadPart ["a"; "b"]; CallUploadPart ["c"; "d"]; CallUploadPart ["e"]; CallFinalize]%char ∧
    rtc (race_free_step demo_service) (initial_upload cs) s ∧ object s = Some ["a"; "b"; "c"; "d"; "e"]%char.
Proof.
  destruct (S3ObjectWriter_correct 2 2 demo_service [["a"]; ["b"; "c"]; ["d"; "e"]]%char) as (w & cs & Hw & _ & _ & (s & Hs & Hd) & _);
    [lia|lia|exact demo_service_reliable|]. exists w, cs, s. split; [exact Hw|]. split; [|split; [exact Hs|apply Hd]].
  vm_compute in Hw. by injection Hw as _ <-.
Defined.

Definition two_parts : list UploaderCall := [CallInitialize; CallUploadPart ["a"]; CallUploadPart ["b"]; CallFinalize]%char.

(** One call of [UploadPartAsync], and all steps of a callback that succeeds. *)
Abbreviation upload_a_part := (replicate 9 None).
Abbreviation complete_part i := (replicate 6 (Some i)).

(** The callback of the first part runs between the read and the write of the counter for the
    second: its decrement is lost.  Both parts are uploaded and no request has failed, but the
    counter stays at 1, and [Close] never returns. *)
Lemma lost_decrement_blocks :
  ∃ s, rtc (upload_step demo_service) (initial_upload two_parts) s ∧ stuck demo_service s ∧
    writer s = Asleep ∧ returned s = None ∧ callbacks s = [] ∧ failures s = 0%nat ∧ in_process_parts_count_ (uploader s) = 1 ∧
    uploaded s = {[ 1%nat := ["a"%char]; 2%nat := ["b"%char] ]} ∧
    completed_parts_ (uploader s) = [Some (1%nat, "etag"%string); Some (2%nat, "etag"%string)].
Proof.
  eexists. split.
  { apply (run_steps demo_service false ([None] ++ upload_a_part ++ replicate 3 None ++ complete_part 0%nat ++ replicate 6 None ++
      complete_part 0%nat ++ replicate 3 None)). vm_compute. reflexivity. }
  split; [|done]. by intros s' [Hs|(i & _ & p & c & _ & _ & Hi & _)]%upload_step_inv.
Qed.

(** The callback of the first part has read the counter before the increment for the second
    and writes it after: the increment is lost.  The counter is 0 while the second part is on
    its way, and [Close] completes the upload without it. *)
Lemma lost_increment_completes :
  ∃ s, rtc (upload_step demo_service) (initial_upload two_parts) s ∧
    returned s = Some kNoError ∧ object s = Some ["a"]%char ∧ callbacks s = [(("upload"%string, 2%nat, ["b"]%char), Uploading)].
Proof.
  eexists. split.
  { apply (run_steps demo_service false ([None] ++ upload_a_part ++ replicate 3 None ++ replicate 4 (Some 0%nat) ++ replicate 1 None ++
      replicate 2 (Some 0%nat) ++ replicate 5 None ++ replicate 10 None)). vm_compute. reflexivity. }
  done.
Qed.

(** The first part cannot be uploaded. *)
Definition failing_service : S3Service := mkS3Service (kNoError, "upload"%string)
  (λ _ n _, if decide (n = 1%nat) then (kIOError, EmptyString) else (kNoError, "etag"%string)) (λ _ _, inl kInvalidState) (λ _, kNoError) (λ _, kNoError).

(** Its callback has cleared [parts_] when the one of the second part writes there; this needs
    no data race. *)
Lemma store_after_cancel_undefined :
  ∃ s, rtc (race_free_step failing_service) (initial_upload two_parts) s ∧ undefined s = true.
Proof.
  eexists. split.
  { apply (run_steps failing_service true ([None] ++ upload_a_part ++ upload_a_part ++ replicate 10 (Some 0%nat) ++ replicate 3 (Some 0%nat))).
    vm_compute. reflexivity. }
  done.
Qed.

Lemma S3ObjectWriter_failure_blocks_witness :
  ∃ w cs s, write_and_close 1 1 kNoError kNoError [["a"; "b"]]%char = Ok (w, cs, kNoError) ∧
    rtc (race_free_step failing_service) (initial_upload cs) s ∧ failures s = 1%nat ∧ stuck failing_service s ∧
    returned s = None ∧ writer s = Asleep.
Proof.
  destruct (S3ObjectWriter_failure_blocks 1 1 failing_service [["a"; "b"]]%char) as (w & cs & Hw & Hblock); [lia|lia|cbn; lia|].
  assert (cs = two_parts) as -> by (vm_compute in Hw; by injection Hw as _ <-).
  set (schedule := [None] ++ upload_a_part ++ upload_a_part ++ replicate 6 (Some 1%nat) ++ replicate 10 (Some 0%nat) ++ replicate 3 None).
  destruct (run failing_service true schedule (initial_upload two_parts)) as [s|] eqn:Hrun; [|by vm_compute in Hrun].
  pose proof (run_steps failing_service true schedule _ s Hrun) as Hs.
  assert (failures s = 1%nat ∧ undefined s = false ∧ callbacks s = [] ∧ writer_step failing_service s = None) as (Hn & Hu & Hc & Hnone)
    by (vm_compute in Hrun; by injection Hrun as <-).
  assert (stuck failing_service s) as Hstuck.
  { intros s' [Hs'|(i & _ & p & c & _ & _ & Hi & _)]%upload_step_inv; [congruence|by rewrite Hc in Hi]. }
  destruct (Hblock s s Hs) as (Hr & _ & Ha); [left; rewrite Hn; lia|constructor|exact Hu|].
  exists w, two_parts, s. split; [exact Hw|]. split; [exact Hs|]. split; [exact Hn|]. split; [exact Hstuck|].
  split; [exact Hr|]. by apply Ha.
Defined.
