(* ===== verification/ObjectReader.v ===== *)
(** * Object readers and streams over them

    The interface [ObjectReader] of [storage/backend/abstract_storage.hpp] with the contract its
    comments state, and [ObjectReaderStreamBuffer] of [storage/backend/stream.cpp], an input
    stream that refills a buffer from any reader. *)

From Stdlib Require Import Ascii.
From S2P Require Export ChunkReader.
From S2P Require Import IoBuffers.

(** ** Stream buffers

    [storage/backend/stream.cpp]: [DelegateStreamBuffer], through which the HTTP client writes
    a response into a byte buffer, and [ObjectReaderStreamBuffer], an input stream over any
    [ObjectReader].  Pointers into a buffer are offsets from its start. *)

(** ** [DelegateStreamBuffer] *)
Record DelegateStreamBuffer : Type := mkDelegateStreamBuffer {
  delegate_buffer : ByteBuffer;
  gptr : nat;
  egptr : nat;
  pptr : nat;
  epptr : nat }.

(** Bytes stored through [CharData()]. *)
Definition write_data (position : nat) (s : bytes) (b : ByteBuffer) : ByteBuffer :=
  match internal_data_ b with
  | Some d => mkByteBuffer (external_data_ b) (external_data_size_ b) (Some (splice position s d))
  | None => mkByteBuffer (splice position s <$> external_data_ b) (external_data_size_ b) None
  end.

Definition Delegate_Reset (b : ByteBuffer) : DelegateStreamBuffer := mkDelegateStreamBuffer b 0 (Size b) 0 0.

Definition xsputn (s : bytes) (d : DelegateStreamBuffer) : result DelegateStreamBuffer :=
  let write_offset := pptr d in
  let read_offset := gptr d in
  let resulting_write_offset := (write_offset + length s)%nat in
  b ← (if (Size (delegate_buffer d) <? resulting_write_offset)%nat then Resize (delegate_buffer d) resulting_write_offset else Ok (delegate_buffer d));
  let b := write_data write_offset s b in
  Ok (mkDelegateStreamBuffer b read_offset (Size b) resulting_write_offset (Size b)).

(** [overflow] of a character. *)
Definition Delegate_overflow (ch : option ascii) (d : DelegateStreamBuffer) : result DelegateStreamBuffer :=
  match ch with Some c => xsputn [c] d | None => Ok d end.

(** [std::ios::in] and [std::ios::out] of [which]. *)
Record OpenMode : Set := mkOpenMode { is_in : bool; is_out : bool }.

(** A position below zero is beyond every size once converted to [size_t]. *)
Definition Delegate_seekpos (pos : Z) (which : OpenMode) (d : DelegateStreamBuffer) : Z * DelegateStreamBuffer :=
  let max_position := Size (delegate_buffer d) in
  if (pos <? 0) || (Z.of_nat max_position <? pos) then (-1, d)
  else
    let p := Z.to_nat pos in
    (pos, mkDelegateStreamBuffer (delegate_buffer d) (if is_in which then p else gptr d) (if is_in which then max_position else egptr d)
            (if is_out which then p else pptr d) (if is_out which then max_position else epptr d)).

Inductive SeekDir : Set := SeekBeg | SeekCur | SeekEnd.

Definition Delegate_seekoff (off : Z) (dir : SeekDir) (which : OpenMode) (d : DelegateStreamBuffer) : Z * DelegateStreamBuffer :=
  match dir with
  | SeekBeg => Delegate_seekpos off which d
  | SeekEnd => Delegate_seekpos (Z.of_nat (Size (delegate_buffer d)) - off) which d
  | SeekCur =>
      let '(r, d) := if is_in which then Delegate_seekpos (Z.of_nat (gptr d) + off) (mkOpenMode true false) d else (-1, d) in
      if is_out which then Delegate_seekpos (Z.of_nat (pptr d) + off) (mkOpenMode false true) d else (r, d)
  end.

(** The buffer with its pointers inside. *)
Record wf_delegate (d : DelegateStreamBuffer) : Prop := {
  wd_buffer : wf_buffer (delegate_buffer d);
  wd_get : (gptr d <= Size (delegate_buffer d))%nat;
  wd_put : (pptr d <= Size (delegate_buffer d))%nat }.

Lemma take_splice es position s mem :
  (position + length s <= es <= length mem)%nat → take es (splice position s mem) = splice position s (take es mem).
Proof.
  intros H. apply list_eq. intros i. destruct (decide (i < es)%nat) as [Hi|Hi].
  - rewrite lookup_take_lt by done. rewrite !lookup_splice by (rewrite ?length_take; lia). case_decide; [done|]. by rewrite lookup_take_lt.
  - rewrite !lookup_ge_None_2; [done|rewrite length_splice; rewrite length_take; lia|rewrite length_take; lia].
Qed.

Lemma Data_write_data position s b :
  wf_buffer b → (position + length s <= Size b)%nat →
  Data (write_data position s b) = splice position s (Data b) ∧ wf_buffer (write_data position s b) ∧ Size (write_data position s b) = Size b.
Proof.
  unfold wf_buffer, Data, Size, write_data, external_data_capacity_. destruct b as [m es [d|]]; cbn.
  - intros Hw Hs. rewrite length_splice by done. auto.
  - intros [[mem ->] Hw] Hs. cbn in *. rewrite length_splice by lia. split; [by apply take_splice|]. split; [|done]. split; [by eexists|done].
Qed.

(** Writing replaces the bytes at the put position and grows the buffer by what is missing. *)
Lemma xsputn_spec s d :
  wf_delegate d →
  ∃ d', xsputn s d = Ok d' ∧ wf_delegate d' ∧ gptr d' = gptr d ∧ pptr d' = (pptr d + length s)%nat ∧
    Data (delegate_buffer d') = take (pptr d) (Data (delegate_buffer d)) ++ s ++ drop (pptr d + length s) (Data (delegate_buffer d)) ∧
    egptr d' = length (Data (delegate_buffer d')) ∧ epptr d' = length (Data (delegate_buffer d')).
Proof.
  intros [Hb Hg Hp]. unfold xsputn. set (n := (pptr d + length s)%nat).
  assert (∃ b, (if (Size (delegate_buffer d) <? n)%nat then Resize (delegate_buffer d) n else Ok (delegate_buffer d)) = Ok b ∧ wf_buffer b ∧
    Size b = Nat.max n (Size (delegate_buffer d)) ∧ take (Size (delegate_buffer d)) (Data b) = Data (delegate_buffer d)) as (b & -> & Hw & Hs & Hd).
  { destruct (Nat.ltb_spec (Size (delegate_buffer d)) n) as [Hlt|Hle].
    - destruct (Resize_spec (delegate_buffer d) n Hb) as (b & Hr & Hw & Hs & _ & Hd). exists b. split; [done|]. split; [done|]. split; [lia|].
      rewrite Hd. apply take_ge. rewrite <- (wf_Size _ Hb). lia.
    - exists (delegate_buffer d). split; [done|]. split; [done|]. split; [lia|]. apply take_ge. by rewrite <- (wf_Size _ Hb). }
  cbn [rbind]. destruct (Data_write_data (pptr d) s b Hw) as (Hdata & Hw' & Hsize); [lia|]. eexists. split; [done|].
  cbn [gptr pptr delegate_buffer egptr epptr]. rewrite (wf_Size _ Hw'). split; [split; cbn; [done|rewrite Hsize; lia..]|]. do 2 (split; [done|]).
  rewrite Hdata. split; [|done]. unfold splice. fold n. rewrite <- Hd. f_equal; [by rewrite take_take; f_equal; lia|]. f_equal.
  rewrite (wf_Size _ Hw) in Hs. rewrite (wf_Size _ Hb) in *. destruct (decide (n <= length (Data (delegate_buffer d)))%nat).
  - rewrite (take_ge (Data b)); [done|lia].
  - rewrite !drop_ge; [done|rewrite length_take; lia|lia].
Qed.

Lemma Delegate_Reset_wf b : wf_buffer b → wf_delegate (Delegate_Reset b).
Proof. intros Hb. split; cbn; [done|lia|lia]. Qed.

(** The pieces of a response, written one after the other into an emptied buffer. *)
Fixpoint receive (pieces : list bytes) (d : DelegateStreamBuffer) : result DelegateStreamBuffer :=
  match pieces with
  | [] => Ok d
  | piece :: pieces => d ← xsputn piece d; receive pieces d
  end.

Lemma receive_spec pieces d :
  wf_delegate d → pptr d = Size (delegate_buffer d) →
  ∃ d', receive pieces d = Ok d' ∧ wf_delegate d' ∧ Data (delegate_buffer d') = Data (delegate_buffer d) ++ concat pieces.
Proof.
  revert d. induction pieces as [|piece pieces IH]; intros d Hd Hp; cbn [receive concat].
  - exists d. by rewrite app_nil_r.
  - destruct (xsputn_spec piece d Hd) as (d1 & -> & Hd1 & _ & Hp1 & Hdata & _ & Hep). cbn [rbind].
    pose proof (wd_buffer _ Hd) as Hb. pose proof (wf_Size _ Hb) as Hs.
    rewrite (take_ge (Data _)), (drop_ge (Data _)), app_nil_r in Hdata by lia.
    destruct (IH d1 Hd1) as (d' & -> & Hd' & Hdata'); [rewrite Hp1, (wf_Size _ (wd_buffer _ Hd1)), Hdata, length_app; lia|].
    exists d'. by rewrite Hdata', Hdata, app_assoc.
Qed.

(** ** The interface *)
Record ObjectStatus : Type := mkObjectStatus {
  status_identifier : string;
  last_modified_timestamp : Z;
  status_checksum : string;
  object_size : N;
  object_error : StorageErrorType }.

Definition no_status : ObjectStatus := mkObjectStatus EmptyString 0 EmptyString 0 kUninitialized.
Definition error_status (e : StorageErrorType) : ObjectStatus := mkObjectStatus EmptyString 0 EmptyString 0 e.

Definition kLastByteInFile : N := 2 ^ 64 - 1.
(** [size_t] arithmetic. *)
Definition size_t (n : Z) : N := Z.to_N (n mod 2 ^ 64).

(** [Read] takes both bytes inclusive. *)
Class ObjectReader (R : Type) : Type := {
  reader_Read : R → N → N → ByteBuffer → result (StorageErrorType * ByteBuffer * R);
  reader_ReadTail : R → N → ByteBuffer → result (StorageErrorType * ByteBuffer * R);
  reader_GetStatus : R → ObjectStatus * R }.

(** [ObjectReader::ReadTail], for backends that do not override it. *)
Definition generic_ReadTail {R} (Read : R → N → N → ByteBuffer → result (StorageErrorType * ByteBuffer * R))
    (GetStatus : R → ObjectStatus * R) (r : R) (num_last_bytes : N) (buffer : ByteBuffer) : result (StorageErrorType * ByteBuffer * R) :=
  let '(status, r) := GetStatus r in
  if IsError (object_error status) then Ok (object_error status, buffer, r)
  else
    let first_byte := if (num_last_bytes <? object_size status)%N then (object_size status - num_last_bytes)%N else 0%N in
    Read r first_byte (size_t (Z.of_N (object_size status) - 1)) buffer.

(** What the comments of the interface promise: [Read] delivers the bytes from [first_byte] to
    [last_byte], both inclusive, in the caller's memory when they fit. *)
Record serves {R} `{ObjectReader R} (open : R → Prop) (object : bytes) : Prop := {
  sv_status r : open r → ∃ status r', reader_GetStatus r = (status, r') ∧ open r' ∧ object_error status = kNoError ∧
    object_size status = N.of_nat (length object);
  sv_read r first last memory : open r → (first <= last < length object)%nat → (last - first < length memory)%nat →
    ∃ memory' r', reader_Read r (N.of_nat first) (N.of_nat last) (ByteBuffer_wrap memory) =
        Ok (kNoError, mkByteBuffer (Some memory') (S last - first) None, r') ∧ open r' ∧ length memory' = length memory ∧
      take (S last - first) memory' = slice object first (S last) }.

(** ** [ObjectReaderStreamBuffer] *)
(** The get pointer is null or an offset into [stream_buffer]; its end is the buffer's. *)
Record StreamBuffer (R : Type) : Type := mkStreamBuffer {
  stream_reader : R;
  stream_buffer : bytes;
  get_position : option nat;
  current_offset_ : nat }.
Arguments mkStreamBuffer {R}. Arguments stream_reader {R}. Arguments stream_buffer {R}.
Arguments get_position {R}. Arguments current_offset_ {R}.

Section Stream.
Context {R : Type} `{ObjectReader R}.
(** 20 MB in [stream.hpp]. *)
Variable kBufferSize : nat.

Definition make_StreamBuffer (reader : R) : StreamBuffer R := mkStreamBuffer reader [] None 0.

(** The size is written through an empty optional and read back; it is looked up every time. *)
Definition GetObjectSize (s : StreamBuffer R) : result (nat * StreamBuffer R) :=
  let '(status, r) := reader_GetStatus (stream_reader s) in
  _ ← assert_ (negb (IsError (object_error status))) LogicError;
  Ok (N.to_nat (object_size status), mkStreamBuffer r (stream_buffer s) (get_position s) (current_offset_ s)).

Definition seekpos (pos : Z) (s : StreamBuffer R) : result (Z * StreamBuffer R) :=
  '(size, s) ← GetObjectSize s;
  if (pos <? 0) || (Z.of_nat size <? pos) then Ok (-1, s)
  else
    let absolute_position := Z.to_nat pos in
    if (current_offset_ s <=? absolute_position)%nat && (absolute_position <? current_offset_ s + length (stream_buffer s))%nat
    then Ok (pos, mkStreamBuffer (stream_reader s) (stream_buffer s) (Some (absolute_position - current_offset_ s)%nat) (current_offset_ s))
    else Ok (pos, mkStreamBuffer (stream_reader s) (stream_buffer s) None absolute_position).

Definition seekoff (off : Z) (dir : SeekDir) (s : StreamBuffer R) : result (Z * StreamBuffer R) :=
  match dir with
  | SeekBeg => seekpos off s
  | SeekCur => seekpos (Z.of_nat (current_offset_ s) + Z.of_nat (from_option id 0%nat (get_position s)) + off) s
  | SeekEnd => '(size, s) ← GetObjectSize s; seekpos (Z.of_nat size + off) s
  end.

(** [underflow]; at the end of the object the get pointer stays. *)
Definition underflow (s : StreamBuffer R) : result (option ascii * StreamBuffer R) :=
  let current := match get_position s with Some _ => (current_offset_ s + length (stream_buffer s))%nat | None => current_offset_ s end in
  '(size, s) ← GetObjectSize (mkStreamBuffer (stream_reader s) (stream_buffer s) (get_position s) current);
  if (size <=? current)%nat then Ok (None, s)
  else
    let read_until_inclusive := (Nat.min size (current + kBufferSize) - 1)%nat in
    let expected_bytes := (read_until_inclusive - current + 1)%nat in
    '(error, view, r) ← reader_Read (stream_reader s) (N.of_nat current) (N.of_nat read_until_inclusive) (ByteBuffer_wrap (replicate expected_bytes zero_byte));
    let buffer := resize zero_byte (Size view) (from_option id [] (external_data_ view)) in
    _ ← assert_ (negb (IsError error)) LogicError;
    _ ← assert_ (length buffer =? expected_bytes)%nat LogicError;
    Ok (head buffer, mkStreamBuffer r buffer (Some 0%nat) current).

(** The buffer is cleared before and resized after the read: what was read is overwritten. *)
Definition FillBufferWithTail (s : StreamBuffer R) : result (StreamBuffer R) :=
  '(error, view, r) ← reader_ReadTail (stream_reader s) (N.of_nat kBufferSize) (ByteBuffer_wrap (replicate kBufferSize zero_byte));
  let buffer := replicate (Size view) zero_byte in
  if IsError error then Ok (mkStreamBuffer r buffer (get_position s) (current_offset_ s))
  else Ok (mkStreamBuffer r buffer (Some 0%nat) (current_offset_ s)).

Definition ObjectReaderStream (reader : R) (initial_fill_buffer_with_tail : bool) : result (StreamBuffer R) :=
  if initial_fill_buffer_with_tail then FillBufferWithTail (make_StreamBuffer reader) else Ok (make_StreamBuffer reader).

(** [std::streambuf::sbumpc], by way of [uflow]. *)
Definition sbumpc (s : StreamBuffer R) : result (option ascii * StreamBuffer R) :=
  let bump k s := (stream_buffer s !! k, mkStreamBuffer (stream_reader s) (stream_buffer s) (Some (S k)) (current_offset_ s)) in
  let refill :=
    '(c, s) ← underflow s;
    Ok (match c, get_position s with Some _, Some k => bump k s | _, _ => (None, s) end) in
  match get_position s with
  | Some k => if (k <? length (stream_buffer s))%nat then Ok (bump k s) else refill
  | None => refill
  end.

(** [n] characters, or fewer at the end. *)
Fixpoint read_chars (n : nat) (s : StreamBuffer R) : result (bytes * StreamBuffer R) :=
  match n with
  | O => Ok ([], s)
  | S n =>
      '(c, s) ← sbumpc s;
      match c with
      | Some c => '(cs, s) ← read_chars n s; Ok (c :: cs, s)
      | None => Ok ([], s)
      end
  end.

(** Seeking and reading, as [seekg] and [read] of the stream do. *)
Fixpoint read_requests (requests : list (nat * nat)) (s : StreamBuffer R) : result (list bytes * StreamBuffer R) :=
  match requests with
  | [] => Ok ([], s)
  | (position, n) :: requests =>
      '(_, s) ← seekpos (Z.of_nat position) s;
      '(cs, s) ← read_chars n s;
      '(rest, s) ← read_requests requests s;
      Ok (cs :: rest, s)
  end.
End Stream.

(** ** What a stream delivers *)
Section Correct.
Context {R : Type} `{ObjectReader R} (open : R → Prop) (object : bytes) (kBufferSize : nat).
Hypothesis Hserves : serves open object.
Hypothesis Hbuffer : (0 < kBufferSize)%nat.

Definition position (s : StreamBuffer R) : nat := (current_offset_ s + from_option id 0 (get_position s))%nat.

(** The buffer, when there is one, holds the bytes of the object at [current_offset_]. *)
Definition coherent (s : StreamBuffer R) : Prop :=
  open (stream_reader s) ∧
  match get_position s with
  | Some k => stream_buffer s = slice object (current_offset_ s) (current_offset_ s + length (stream_buffer s)) ∧
      (current_offset_ s + length (stream_buffer s) <= length object)%nat ∧ (k <= length (stream_buffer s))%nat
  | None => (current_offset_ s <= length object)%nat
  end.

Lemma GetObjectSize_ok s : open (stream_reader s) →
  ∃ r, GetObjectSize s = Ok (length object, mkStreamBuffer r (stream_buffer s) (get_position s) (current_offset_ s)) ∧ open r.
Proof.
  intros Ho. destruct (sv_status _ _ Hserves _ Ho) as (status & r & Hst & Hr & He & Hs). exists r. unfold GetObjectSize. rewrite Hst, He, Hs.
  cbn. by rewrite Nat2N.id.
Qed.

(** A refill before the end of the object. *)
Lemma underflow_ok s :
  let current := match get_position s with Some _ => (current_offset_ s + length (stream_buffer s))%nat | None => current_offset_ s end in
  open (stream_reader s) → (current < length object)%nat →
  ∃ r, underflow kBufferSize s = Ok (object !! current,
      mkStreamBuffer r (slice object current (Nat.min (length object) (current + kBufferSize))) (Some 0%nat) current) ∧ open r.
Proof.
  intros current Ho Hlt. unfold underflow. fold current. set (s1 := mkStreamBuffer _ _ _ _).
  destruct (GetObjectSize_ok s1 Ho) as (r1 & -> & Ho1). cbn [rbind stream_reader].
  rewrite (proj2 (Nat.leb_gt _ _)) by done. set (last := (Nat.min (length object) (current + kBufferSize) - 1)%nat).
  set (expected := (last - current + 1)%nat).
  destruct (sv_read _ _ Hserves r1 current last (replicate expected zero_byte) Ho1) as (memory & r2 & -> & Ho2 & Hl & Hm);
    [unfold last; lia|rewrite length_replicate; unfold expected, last; lia|].
  rewrite length_replicate in Hl. cbn [rbind IsError]. change (IsError kNoError) with false. cbn [negb assert_ rbind external_data_ from_option id Size internal_data_].
  cbn [IoBuffers.Size internal_data_ external_data_size_]. change (internal_data_ _) with (@None bytes). cbn [external_data_size_].
  assert (S last - current = expected)%nat as He by (unfold expected, last; lia). rewrite He in *.
  assert (resize zero_byte expected memory = memory) as -> by (unfold resize; rewrite take_ge, Hl, Nat.sub_diag, app_nil_r by lia; done).
  rewrite Hl, Nat.eqb_refl. cbn [assert_ rbind]. exists r2. split; [|done]. rewrite take_ge in Hm by lia. subst memory.
  replace (S last) with (Nat.min (length object) (current + kBufferSize)) by (unfold last; lia). do 2 f_equal.
  rewrite head_lookup, lookup_slice by lia. by rewrite Nat.add_0_r.
Qed.

(** One character: the one at the position. *)
Lemma sbumpc_ok s :
  coherent s → (position s < length object)%nat →
  ∃ s' c, sbumpc kBufferSize s = Ok (Some c, s') ∧ object !! position s = Some c ∧ coherent s' ∧ position s' = S (position s) ∧
    is_Some (get_position s').
Proof.
  intros [Ho Hs] Hlt. destruct (lookup_lt_is_Some_2 object (position s) Hlt) as [c Hc]. unfold sbumpc, position in *.
  assert (∀ current r, (current < length object)%nat → object !! current = Some c → open r →
    let s1 := mkStreamBuffer r (slice object current (Nat.min (length object) (current + kBufferSize))) (Some 0%nat) current in
    stream_buffer s1 !! 0%nat = Some c ∧ coherent (mkStreamBuffer (stream_reader s1) (stream_buffer s1) (Some 1%nat) (current_offset_ s1))) as Hfresh.
  { intros current r Hcur Hc' Hr. cbn [stream_buffer stream_reader current_offset_]. rewrite lookup_slice by lia. rewrite Nat.add_0_r.
    split; [done|]. split; [done|]. cbn [get_position stream_buffer current_offset_].
    rewrite length_slice by lia. split; [|split; lia]. f_equal. lia. }
  destruct (get_position s) as [k|] eqn:Hg; cbn [from_option id] in *.
  - destruct Hs as (Hb & Hfit & Hk). destruct (Nat.ltb_spec k (length (stream_buffer s))) as [Hk'|Hk'].
    + do 2 eexists. split; [|split; [exact Hc|]].
      * do 2 f_equal. rewrite <- Hc. rewrite Hb at 1. apply lookup_slice; lia.
      * split; [|split; [cbn; lia|by eexists]]. split; cbn; [done|]. split; [done|]. split; lia.
    + destruct (underflow_ok s) as (r & Hu & Hr); [done|rewrite Hg; lia|]. rewrite Hg in Hu. rewrite Hu. cbn [rbind].
      assert (current_offset_ s + length (stream_buffer s) = current_offset_ s + k)%nat as Heq by lia. rewrite Heq in *. rewrite Hc. cbn [get_position].
      destruct (Hfresh _ r Hlt Hc Hr) as [H0 Hcoh]. do 2 eexists. split; [do 2 f_equal; exact H0|]. split; [done|]. split; [exact Hcoh|]. cbn.
      split; [lia|by eexists].
  - destruct (underflow_ok s) as (r & Hu & Hr); [done|rewrite Hg; lia|]. rewrite Hg in Hu. rewrite Hu. cbn [rbind].
    rewrite Nat.add_0_r in *. rewrite Hc. cbn [get_position].
    destruct (Hfresh _ r Hlt Hc Hr) as [H0 Hcoh]. do 2 eexists. split; [do 2 f_equal; exact H0|]. split; [done|]. split; [exact Hcoh|]. cbn.
    split; [lia|by eexists].
Qed.

Lemma read_chars_ok n s :
  coherent s → (position s + n <= length object)%nat →
  ∃ s', read_chars kBufferSize n s = Ok (slice object (position s) (position s + n), s') ∧ coherent s' ∧
    ((0 < n)%nat ∨ is_Some (get_position s) → is_Some (get_position s')).
Proof.
  revert s. induction n as [|n IH]; intros s Hs Hn; cbn [read_chars].
  - exists s. split; [|split; [done|intros [?|?]; [lia|done]]]. do 2 f_equal. unfold slice. by rewrite Nat.add_0_r, Nat.sub_diag, take_0.
  - destruct (sbumpc_ok s Hs) as (s1 & c & -> & Hc & Hs1 & Hp & Hg); [lia|]. cbn [rbind].
    destruct (IH s1 Hs1) as (s2 & -> & Hs2 & Hg2); [lia|]. cbn [rbind]. exists s2. split; [|split; [done|by auto]].
    do 2 f_equal. unfold slice. rewrite (drop_S _ _ _ Hc), Hp. replace (position s + S n - position s)%nat with (S n) by lia.
    replace (S (position s) + n - S (position s))%nat with n by lia. done.
Qed.

(** Seeking, unless the previous operation was a seek out of the buffer. *)
Lemma seekpos_ok s p :
  coherent s → is_Some (get_position s) ∨ stream_buffer s = [] → (p <= length object)%nat →
  ∃ s', seekpos (Z.of_nat p) s = Ok (Z.of_nat p, s') ∧ coherent s' ∧ position s' = p.
Proof.
  intros [Ho Hs] Hget Hp. unfold seekpos. destruct (GetObjectSize_ok s Ho) as (r & -> & Hr). cbn [rbind current_offset_ stream_buffer].
  destruct (Z.ltb_spec (Z.of_nat p) 0), (Z.ltb_spec (Z.of_nat (length object)) (Z.of_nat p)); try lia. cbn [orb]. rewrite Nat2Z.id.
  destruct ((current_offset_ s <=? p)%nat && (p <? current_offset_ s + length (stream_buffer s))%nat) eqn:Hin.
  - apply andb_true_iff in Hin as [Hle%Nat.leb_le Hlt%Nat.ltb_lt]. eexists. split; [done|]. unfold coherent, position. cbn.
    destruct Hget as [[k Hk]|Hnil]; [|rewrite Hnil in Hlt; cbn in Hlt; lia]. rewrite Hk in Hs. destruct Hs as (Hb & Hfit & _).
    repeat split; try done; lia.
  - eexists. split; [done|]. unfold coherent, position. cbn. split; [done|lia].
Qed.

Lemma read_requests_ok requests s :
  coherent s → is_Some (get_position s) ∨ stream_buffer s = [] →
  Forall (λ q, (0 < q.2)%nat ∧ (q.1 + q.2 <= length object)%nat) requests →
  ∃ s', read_requests kBufferSize requests s = Ok ((λ q, slice object q.1 (q.1 + q.2)) <$> requests, s').
Proof.
  revert s. induction requests as [|[p n] requests IH]; intros s Hs Hget Hall; cbn [read_requests]; [by exists s|].
  apply Forall_cons in Hall as [[Hn Hfit] Hall]. cbn in Hn, Hfit.
  destruct (seekpos_ok s p Hs Hget) as (s1 & -> & Hs1 & Hp); [lia|]. cbn [rbind].
  destruct (read_chars_ok n s1 Hs1) as (s2 & -> & Hs2 & Hg2); [lia|]. cbn [rbind]. rewrite Hp.
  destruct (IH s2 Hs2) as (s3 & ->); [left; apply Hg2; by left|done|]. by exists s3.
Qed.

Lemma make_coherent r : open r → coherent (make_StreamBuffer r).
Proof. intros Hr. split; [done|]. apply Nat.le_0_l. Qed.
End Correct.

(** C33: (stream.cpp) An input stream over any object reader that keeps the interface's promise
    delivers the object: every seek to a position inside the object followed by a read of at
    least one byte up to its end returns the bytes at that position, however small the buffer
    and however the requests jump. *)
Theorem ObjectReaderStream_correct {R : Type} `{ObjectReader R} (open : R → Prop) (object : bytes) (kBufferSize : nat) (r : R)
    (requests : list (nat * nat)) :
  serves open object → open r → (0 < kBufferSize)%nat →
  Forall (λ q, (0 < q.2)%nat ∧ (q.1 + q.2 <= length object)%nat) requests →
  ∃ s', read_requests kBufferSize requests (make_StreamBuffer r) = Ok ((λ q, slice object q.1 (q.1 + q.2)) <$> requests, s').
Proof.
  intros Hserves Hr Hk Hall. apply (read_requests_ok open object kBufferSize Hserves Hk); [by apply make_coherent|by right|done].
Qed.

(** (stream.cpp) Two seeks without a read between them.  A seek out of the buffer moves the
    buffer's offset but keeps its bytes; a second seek close behind the first one then finds
    its position in the stale buffer, and the next byte read is that of another position. *)
Theorem ObjectReaderStream_stale_buffer {R : Type} `{ObjectReader R} (open : R → Prop) (object : bytes) (kBufferSize : nat)
    (s : StreamBuffer R) (p1 p2 : nat) :
  serves open object → coherent open object s → is_Some (get_position s) →
  (current_offset_ s + length (stream_buffer s) <= p1)%nat → (p1 <= p2 <= length object)%nat → (p2 < p1 + length (stream_buffer s))%nat →
  ∃ s1 s2 s3, seekpos (Z.of_nat p1) s = Ok (Z.of_nat p1, s1) ∧ seekpos (Z.of_nat p2) s1 = Ok (Z.of_nat p2, s2) ∧
    sbumpc kBufferSize s2 = Ok (object !! (current_offset_ s + (p2 - p1))%nat, s3).
Proof.
  intros Hserves [Ho Hs] [k Hk] Hout Hp Hin. rewrite Hk in Hs. destruct Hs as (Hb & Hfit & _).
  destruct (GetObjectSize_ok open object Hserves s Ho) as (r1 & Hg1 & Hr1).
  set (s1 := mkStreamBuffer r1 (stream_buffer s) None p1).
  destruct (GetObjectSize_ok open object Hserves s1 Hr1) as (r2 & Hg2 & Hr2).
  set (s2 := mkStreamBuffer r2 (stream_buffer s) (Some (p2 - p1)%nat) p1).
  assert (seekpos (Z.of_nat p1) s = Ok (Z.of_nat p1, s1)) as H1.
  { unfold seekpos. rewrite Hg1. cbn [rbind current_offset_ stream_buffer stream_reader].
    destruct (Z.ltb_spec (Z.of_nat p1) 0), (Z.ltb_spec (Z.of_nat (length object)) (Z.of_nat p1)); try lia. cbn [orb]. rewrite Nat2Z.id.
    by rewrite (proj2 (Nat.ltb_ge _ _)), andb_false_r by lia. }
  assert (seekpos (Z.of_nat p2) s1 = Ok (Z.of_nat p2, s2)) as H2.
  { unfold seekpos. rewrite Hg2. cbn [rbind current_offset_ stream_buffer stream_reader s1].
    destruct (Z.ltb_spec (Z.of_nat p2) 0), (Z.ltb_spec (Z.of_nat (length object)) (Z.of_nat p2)); try lia. cbn [orb]. rewrite Nat2Z.id.
    rewrite (proj2 (Nat.leb_le _ _)), (proj2 (Nat.ltb_lt _ _)) by lia. done. }
  eexists s1, s2, _. split; [done|]. split; [done|]. unfold sbumpc. cbn [get_position s2 stream_buffer].
  rewrite (proj2 (Nat.ltb_lt _ _)) by lia. do 2 f_equal. rewrite Hb at 1. apply lookup_slice; lia.
Qed.

(** After a fill from the end of the object the stream starts with zeros, at offset 0. *)
Lemma FillBufferWithTail_zeros {R : Type} `{ObjectReader R} kBufferSize (s s' : StreamBuffer R) :
  FillBufferWithTail kBufferSize s = Ok s' → Forall (λ c, c = zero_byte) (stream_buffer s') ∧ current_offset_ s' = current_offset_ s.
Proof.
  unfold FillBufferWithTail. destruct (reader_ReadTail _ _ _) as [[[e view] r]|]; [|done]. cbn [rbind]. intros Hs.
  destruct (IsError e); injection Hs as <-; cbn; (split; [|done]); by apply Forall_replicate.
Qed.
