(* ===== verification/FilesystemStorage.v ===== *)
(** * The filesystem backend

    [storage/backend/filesystem_storage.cpp].  The operating system is a parameter: [stat], the
    contents of files and the entries of directories.  [FilesystemReader] keeps the promise
    of [ObjectReader]. *)

From Stdlib Require Import Ascii.
From S2P Require Export ObjectReader.
From S2P Require Import IoBuffers.

(** The values of [errno] that are told apart. *)
Inductive Errno : Set :=
  | EACCES | EPERM | EROFS | EBUSY | EIO | ENOENT | ENOTDIR | ENAMETOOLONG | ELOOP | EOVERFLOW | EFAULT | ENOMEM | OtherErrno.

Definition ErrnoToStorageError (e : Errno) : StorageErrorType :=
  match e with
  | EACCES | EPERM | EROFS => kPermissionDenied
  | EBUSY => kTemporary
  | EIO => kIOError
  | ENOENT | ENOTDIR => kNotFound
  | ENAMETOOLONG | ELOOP | EOVERFLOW => kOperationNotSupported
  | EFAULT | ENOMEM => kInternalError
  | OtherErrno => kUnknown
  end.

(** [st_size] and [st_mtime]. *)
Record Stat : Type := mkStat { st_size : N; st_mtime : Z }.

(** ** Paths *)
Definition is_separator (c : ascii) : bool := Ascii.eqb c "/".
Fixpoint last_char (s : string) : option ascii :=
  match s with EmptyString => None | String c EmptyString => Some c | String _ s => last_char s end.
Definition first_char (s : string) : option ascii := match s with EmptyString => None | String c _ => Some c end.
Definition tail (s : string) : string := match s with EmptyString => EmptyString | String _ s => s end.

Definition JoinPath (part_a part_b : string) : string :=
  match last_char part_a, first_char part_b with
  | None, _ => part_b
  | _, None => part_a
  | Some a, Some b =>
      let part_a_ends_with_separator := is_separator a in
      let part_b_starts_with_separator := is_separator b in
      if negb part_a_ends_with_separator && negb part_b_starts_with_separator then (part_a +:+ "/" +:+ part_b)%string
      else if part_a_ends_with_separator && part_b_starts_with_separator then (part_a +:+ tail part_b)%string
      else (part_a +:+ part_b)%string
  end.

(** [std::string::starts_with]. *)
Fixpoint starts_with (s prefix : string) : bool :=
  match prefix, s with
  | EmptyString, _ => true
  | String p prefix, String c s => Ascii.eqb c p && starts_with s prefix
  | String _ _, EmptyString => false
  end.

Fixpoint drop_string (n : nat) (s : string) : string :=
  match n, s with S n, String _ s => drop_string n s | _, _ => s end.

(** [substr(n)] throws beyond the end. *)
Definition substr_from (n : nat) (s : string) : result string :=
  if (n <=? String.length s)%nat then Ok (drop_string n s) else Err OutOfRange.

Section Filesystem.
(** [stat], and the bytes that a file has. *)
Variable stat : string → Errno + Stat.
Variable file : string → option bytes.

Definition GetFileStatus (filename : string) (num_characters_hidden : nat) : result ObjectStatus :=
  match stat filename with
  | inl e => Ok (error_status (ErrnoToStorageError e))
  | inr st => name ← substr_from num_characters_hidden filename; Ok (mkObjectStatus name (st_mtime st) filename (st_size st) kNoError)
  end.

(** ** Reading *)
Record FilesystemReader : Type := mkFilesystemReader {
  filename_ : string;
  num_characters_hidden_ : nat;
  in_ : option nat;
  fs_error_ : StorageErrorType;
  fs_status_ : ObjectStatus }.

Definition make_FilesystemReader (filename : string) (num_characters_hidden : nat) : FilesystemReader :=
  match file filename with
  | Some _ => mkFilesystemReader filename num_characters_hidden (Some 0%nat) kNoError no_status
  | None => mkFilesystemReader filename num_characters_hidden None kNotFound no_status
  end.

Definition set_status (status : ObjectStatus) (r : FilesystemReader) : FilesystemReader :=
  mkFilesystemReader (filename_ r) (num_characters_hidden_ r) (in_ r) (fs_error_ r) status.

(** [GetStatus]; a name shorter than the hidden prefix does not occur in [FilesystemStorage]. *)
Definition Filesystem_GetStatus (r : FilesystemReader) : ObjectStatus * FilesystemReader :=
  if IsError (object_error (fs_status_ r)) then
    match GetFileStatus (filename_ r) (num_characters_hidden_ r) with
    | Ok status => (status, set_status status r)
    | Err _ => (fs_status_ r, r)
    end
  else (fs_status_ r, r).

Definition Filesystem_Close (r : FilesystemReader) : FilesystemReader * StorageErrorType :=
  (mkFilesystemReader (filename_ r) (num_characters_hidden_ r) None (fs_error_ r) (fs_status_ r), kNoError).

(** More than [max_size()] bytes cannot be allocated. *)
Definition Resize_checked (b : ByteBuffer) (n : N) : result ByteBuffer :=
  if (2 ^ 63 <=? n)%N then Err LogicError else Resize b (N.to_nat n).

Definition Filesystem_Read (r : FilesystemReader) (first_byte last_byte : N) (buffer : ByteBuffer)
    : result (StorageErrorType * ByteBuffer * FilesystemReader) :=
  if IsError (fs_error_ r) then Ok (fs_error_ r, buffer, r)
  else match in_ r, file (filename_ r) with
  | Some _, Some content =>
      let bytes_left := if (last_byte =? kLastByteInFile)%N then kLastByteInFile else size_t (Z.of_N last_byte - Z.of_N first_byte + 1) in
      let '(status, r) := Filesystem_GetStatus r in
      let file_size := object_size status in
      let bytes_left := if (file_size <? size_t (Z.of_N first_byte + Z.of_N bytes_left))%N
                        then size_t (Z.of_N file_size - Z.of_N first_byte) else bytes_left in
      buffer ← Resize_checked buffer bytes_left;
      let data := take (N.to_nat bytes_left) (drop (N.to_nat first_byte) content) in
      let buffer := write_data 0 data buffer in
      let r := mkFilesystemReader (filename_ r) (num_characters_hidden_ r) (Some (N.to_nat first_byte + length data)%nat) (fs_error_ r) (fs_status_ r) in
      Ok (if (length data =? N.to_nat bytes_left)%nat then kNoError else kIOError, buffer, r)
  | _, _ => Ok (kIOError, buffer, r)
  end.

#[export] Instance FilesystemReader_reader : ObjectReader FilesystemReader :=
  {| reader_Read := Filesystem_Read; reader_ReadTail := generic_ReadTail Filesystem_Read Filesystem_GetStatus;
     reader_GetStatus := Filesystem_GetStatus |}.

(** A reader of a file whose size [stat] knows. *)
Record reads_file (object : bytes) (r : FilesystemReader) : Prop := {
  rf_file : file (filename_ r) = Some object;
  rf_open : is_Some (in_ r);
  rf_error : fs_error_ r = kNoError;
  rf_stat : ∃ st, stat (filename_ r) = inr st ∧ st_size st = N.of_nat (length object);
  rf_hidden : (num_characters_hidden_ r <= String.length (filename_ r))%nat;
  rf_status : fs_status_ r = no_status ∨ (object_error (fs_status_ r) = kNoError ∧ object_size (fs_status_ r) = N.of_nat (length object)) }.

Lemma Filesystem_GetStatus_ok object r :
  reads_file object r → ∃ status r', Filesystem_GetStatus r = (status, r') ∧ reads_file object r' ∧ filename_ r' = filename_ r ∧
    object_error status = kNoError ∧ object_size status = N.of_nat (length object).
Proof.
  intros Hr. pose proof Hr as [Hf Ho He (st & Hst & Hsize) Hh Hs]. unfold Filesystem_GetStatus. destruct Hs as [Hs|[Hs1 Hs2]].
  - rewrite Hs. cbn. unfold GetFileStatus, substr_from. rewrite Hst, (proj2 (Nat.leb_le _ _) Hh). cbn [rbind]. do 2 eexists. split; [done|].
    split; [|done]. split; cbn; try done; [by exists st|by right].
  - rewrite Hs1. cbn. by exists (fs_status_ r), r.
Qed.

Lemma size_t_small n : (0 <= n < 2 ^ 64)%Z → size_t n = Z.to_N n.
Proof. intros Hn. unfold size_t. by rewrite Z.mod_small. Qed.

Lemma wrap_read memory data :
  (length data <= length memory)%nat →
  Resize (ByteBuffer_wrap memory) (length data) = Ok (mkByteBuffer (Some memory) (length data) None) ∧
  write_data 0 data (mkByteBuffer (Some memory) (length data) None) = mkByteBuffer (Some (splice 0 data memory)) (length data) None.
Proof.
  intros Hl. split; [|done]. unfold Resize, ByteBuffer_wrap, external_data_capacity_. cbn [internal_data_ external_data_ from_option].
  by rewrite (proj2 (Nat.ltb_ge _ _)).
Qed.

(** The reader keeps the promise of [ObjectReader]. *)
Lemma Filesystem_serves object : Z.of_nat (length object) < 2 ^ 63 → serves (reads_file object) object.
Proof.
  intros Hmax. split; [intros r Hr; destruct (Filesystem_GetStatus_ok object r Hr) as (status & r' & ? & ? & _ & ? & ?); by exists status, r'|].
  intros r first last memory Hr [Hfirst Hlast] Hmem. destruct (Filesystem_GetStatus_ok object r Hr) as (status & r1 & Hst & Hr1 & Hn & He & Hs).
  pose proof Hr as [Hf [k Ho] Herr _ _ _]. change (reader_Read r) with (Filesystem_Read r). unfold Filesystem_Read. rewrite Herr, Ho, Hf. cbn.
  assert ((N.of_nat last =? kLastByteInFile)%N = false) as -> by (apply N.eqb_neq; unfold kLastByteInFile; lia).
  rewrite Hst. cbn. rewrite Hs, (size_t_small (_ - _ + 1)) by lia. rewrite (size_t_small (Z.of_N (N.of_nat first) + _)) by lia.
  assert ((N.of_nat (length object) <? Z.to_N (Z.of_N (N.of_nat first) + Z.of_N (Z.to_N (Z.of_N (N.of_nat last) - Z.of_N (N.of_nat first) + 1))))%N = false) as ->
    by (apply N.ltb_ge; lia).
  set (n := Z.to_N _). assert (N.to_nat n = S last - first)%nat as Hnat by (unfold n; lia). unfold Resize_checked.
  assert ((2 ^ 63 <=? n)%N = false) as -> by (apply N.leb_gt; unfold n; lia). rewrite Hnat, Nat2N.id.
  assert (length (slice object first (S last)) = S last - first)%nat as Hl by (apply length_slice; lia).
  change (take (S last - first) (drop first object)) with (slice object first (S last)).
  destruct (wrap_read memory (slice object first (S last))) as [Hres Hw]; [lia|]. rewrite Hl in *. rewrite Hres. cbn [rbind]. rewrite Hw, Nat.eqb_refl.
  do 2 eexists. split; [done|]. split; [|split].
  - destruct Hr1 as [H1 H2 H3 H4 H5 H6]. by split; cbn.
  - apply length_splice. lia.
  - pose proof (splice_prefix (slice object first (S last)) memory) as Hp. rewrite Hl in Hp. apply Hp. lia.
Qed.
End Filesystem.

(** Reading to the end of the file from an offset other than 0 asks for 2^64-1 bytes. *)
Lemma Filesystem_Read_to_end stat file object r first buffer :
  reads_file stat file object r → Z.of_nat (length object) < 2 ^ 63 → (0 < first <= length object)%nat →
  Filesystem_Read stat file r (N.of_nat first) kLastByteInFile buffer = Err LogicError.
Proof.
  intros Hr Hmax Hfirst. destruct (Filesystem_GetStatus_ok stat file object r Hr) as (status & r1 & Hst & _ & _ & _ & Hs).
  destruct Hr as [Hf [k Ho] Herr _ _ _]. unfold Filesystem_Read. rewrite Herr, Ho, Hf, N.eqb_refl, Hst, Hs. cbn [IsError negb bool_decide decide].
  change (IsError kNoError) with false. cbn iota.
  assert (size_t (Z.of_N (N.of_nat first) + Z.of_N kLastByteInFile) = N.of_nat (first - 1)) as ->.
  { unfold size_t, kLastByteInFile. rewrite <- (Z.mod_unique _ (2 ^ 64) 1 (Z.of_nat first - 1)); lia. }
  assert ((N.of_nat (length object) <? N.of_nat (first - 1))%N = false) as -> by (apply N.ltb_ge; lia). unfold Resize_checked.
  by assert ((2 ^ 63 <=? kLastByteInFile)%N = true) as -> by done.
Qed.

(** ** Writing *)
(** The stream of a file that has been opened, and truncated, for writing: what has been
    written, and whether a write has failed. *)
Record FilesystemWriter : Type := mkFilesystemWriter { out_open : bool; out_failed : bool; out_written : bytes }.

Definition make_FilesystemWriter (opened : bool) : FilesystemWriter := mkFilesystemWriter opened (negb opened) [].

(** [tellp] is -1 on a failed stream; otherwise the difference of the positions is what was
    written. *)
Definition Filesystem_Write (accepted : bytes → nat) (w : FilesystemWriter) (data : bytes) : FilesystemWriter * StorageErrorType :=
  if negb (out_open w) || out_failed w then (w, kIOError)
  else
    let n := Nat.min (accepted (out_written w)) (length data) in
    let w := mkFilesystemWriter true (negb (n =? length data)%nat) (out_written w ++ take n data) in
    (w, if (n =? length data)%nat then kNoError else kIOError).

Definition FilesystemWriter_Close (w : FilesystemWriter) : FilesystemWriter * StorageErrorType :=
  (mkFilesystemWriter false (out_failed w) (out_written w), kNoError).

(** ** The storage *)
(** What [readdir] and [d_type] tell of a directory: [DT_REG], [DT_DIR], or neither. *)
Inductive DirEntry : Type :=
  | RegularFile (name : string)
  | SubDirectory (name : string) (entries : option (list DirEntry))
  | OtherEntry (name : string).

Definition entry_name (e : DirEntry) : string := match e with RegularFile n | SubDirectory n _ | OtherEntry n => n end.
Definition hidden (name : string) : bool := match name with String c _ => Ascii.eqb c "." | EmptyString => false end.

Section List.
Variable stat : string → Errno + Stat.
Variable root_directory_ : string.

(** [ListDirectoryRecursively]; [None] is a directory that [opendir] does not open.  The second
    component is the error that ends the listing. *)
Fixpoint list_entry (directory_name prefix : string) (e : DirEntry) : result (list ObjectStatus * StorageErrorType) :=
  let filename := JoinPath directory_name (entry_name e) in
  if hidden (entry_name e) || negb (starts_with filename prefix) then Ok ([], kNoError)
  else match e with
  | RegularFile _ => status ← GetFileStatus stat filename (String.length root_directory_); Ok ([status], kNoError)
  | SubDirectory _ None => Ok ([], kNotFound)
  | SubDirectory _ (Some entries) =>
      (fix list_entries (entries : list DirEntry) : result (list ObjectStatus * StorageErrorType) :=
         match entries with
         | [] => Ok ([], kNoError)
         | e :: entries =>
             '(found, error) ← list_entry filename prefix e;
             if IsError error then Ok (found, error)
             else '(rest, error) ← list_entries entries; Ok (found ++ rest, error)
         end) entries
  | OtherEntry _ => Ok ([], kNoError)
  end.

Fixpoint list_entries (directory_name prefix : string) (entries : list DirEntry) : result (list ObjectStatus * StorageErrorType) :=
  match entries with
  | [] => Ok ([], kNoError)
  | e :: entries =>
      '(found, error) ← list_entry directory_name prefix e;
      if IsError error then Ok (found, error)
      else '(rest, error) ← list_entries directory_name prefix entries; Ok (found ++ rest, error)
  end.

Definition FilesystemStorage_List (root : option (list DirEntry)) (object_prefix : string) : result (list ObjectStatus * StorageErrorType) :=
  match root with
  | Some entries => list_entries root_directory_ (JoinPath root_directory_ object_prefix) entries
  | None => Ok ([], kNotFound)
  end.

Definition FilesystemStorage_OpenForReading (file : string → option bytes) (object_identifier : string) : FilesystemReader :=
  make_FilesystemReader file (JoinPath root_directory_ object_identifier) (String.length root_directory_).

(** [unlink] with the value of [errno] if it fails. *)
Definition FilesystemStorage_Delete (unlink : string → option Errno) (object_identifier : string) : StorageErrorType :=
  match unlink (JoinPath root_directory_ object_identifier) with None => kNoError | Some e => ErrnoToStorageError e end.
End List.

(** The prefix is compared with the names of directories, too: an object in a directory is not
    found by its own name. *)
Lemma List_misses_subdirectories :
  let entries := [SubDirectory "dir" (Some [RegularFile "object"])] in
  let stat _ := inr (mkStat 4 0) in
  FilesystemStorage_List stat "/root" (Some entries) EmptyString = Ok ([mkObjectStatus "/dir/object" 0 "/root/dir/object" 4 kNoError], kNoError) ∧
  FilesystemStorage_List stat "/root" (Some entries) "dir/object" = Ok ([], kNoError).
Proof. split; reflexivity. Qed.

(** ** A file read through a stream *)
Definition file_bytes : bytes := ["a"; "b"; "c"; "d"; "e"]%char.
Definition demo_file (name : string) : option bytes := Some file_bytes.
Definition demo_stat (name : string) : Errno + Stat := inr (mkStat 5 0).

Lemma demo_reads name : reads_file demo_stat demo_file file_bytes (make_FilesystemReader demo_file name 0).
Proof. split; [done|by eexists|done|by exists (mkStat 5 0)|cbn; lia|by left]. Qed.

Lemma ObjectReaderStream_correct_witness :
  ∃ s, read_requests (H := FilesystemReader_reader demo_stat demo_file) 2 [(3, 2); (0, 4)]%nat (make_StreamBuffer (make_FilesystemReader demo_file "f" 0)) =
    Ok ([["d"; "e"]; ["a"; "b"; "c"; "d"]]%char, s).
Proof.
  apply (ObjectReaderStream_correct (H := FilesystemReader_reader demo_stat demo_file) (reads_file demo_stat demo_file file_bytes) file_bytes 2
    (make_FilesystemReader demo_file "f" 0) [(3, 2); (0, 4)]%nat).
  - apply Filesystem_serves. cbn. lia.
  - apply demo_reads.
  - lia.
  - repeat constructor; cbn; lia.
Defined.

Definition demo_stream : StreamBuffer FilesystemReader := mkStreamBuffer (make_FilesystemReader demo_file "f" 0) ["a"; "b"]%char (Some 0%nat) 0.

Lemma ObjectReaderStream_stale_buffer_witness :
  ∃ s1 s2 s3, seekpos (H := FilesystemReader_reader demo_stat demo_file) 3 demo_stream = Ok (3, s1) ∧
    seekpos (H := FilesystemReader_reader demo_stat demo_file) 4 s1 = Ok (4, s2) ∧
    sbumpc (H := FilesystemReader_reader demo_stat demo_file) 2 s2 = Ok (Some "b"%char, s3).
Proof.
  apply (ObjectReaderStream_stale_buffer (H := FilesystemReader_reader demo_stat demo_file) (reads_file demo_stat demo_file file_bytes) file_bytes 2
    demo_stream 3 4).
  - apply Filesystem_serves. cbn. lia.
  - split; [apply demo_reads|]. cbn. split; [done|lia].
  - by eexists.
  - cbn. lia.
  - cbn. lia.
  - cbn. lia.
Defined.
