(* ===== verification/S3Reader.v ===== *)
(** * Reading S3 objects

    [S3ObjectReader] and [S3Storage] of [storage/backend/s3_storage.cpp].  The AWS client is a
    parameter: what it writes to the response stream and the outcome it returns. *)

From Stdlib Require Import Ascii Permutation.
From stdpp Require Import pretty.
From S2P Require Export ObjectReader.
From S2P Require Import IoBuffers.

(** The errors of the service that are told apart. *)
Inductive S3Errors : Set :=
  | INCOMPLETE_SIGNATURE | INVALID_ACTION | INVALID_PARAMETER_COMBINATION | INVALID_PARAMETER_VALUE | INVALID_QUERY_PARAMETER
  | INVALID_SIGNATURE | MALFORMED_QUERY_STRING | MISSING_ACTION | MISSING_PARAMETER | OPT_IN_REQUIRED | REQUEST_EXPIRED
  | REQUEST_TIME_TOO_SKEWED | INTERNAL_FAILURE | SERVICE_UNAVAILABLE | BUCKET_ALREADY_EXISTS | ACCESS_DENIED
  | BUCKET_ALREADY_OWNED_BY_YOU | INVALID_ACCESS_KEY_ID | INVALID_CLIENT_TOKEN_ID | MISSING_AUTHENTICATION_TOKEN
  | SIGNATURE_DOES_NOT_MATCH | UNRECOGNIZED_CLIENT | VALIDATION | RESOURCE_NOT_FOUND | SLOW_DOWN | THROTTLING | NETWORK_CONNECTION
  | REQUEST_TIMEOUT | NO_SUCH_BUCKET | NO_SUCH_KEY | NO_SUCH_UPLOAD | OtherS3Error.

Definition TranslateS3Error (error : S3Errors) : StorageErrorType :=
  match error with
  | INCOMPLETE_SIGNATURE | INVALID_ACTION | INVALID_PARAMETER_COMBINATION | INVALID_PARAMETER_VALUE | INVALID_QUERY_PARAMETER
  | INVALID_SIGNATURE | MALFORMED_QUERY_STRING | MISSING_ACTION | MISSING_PARAMETER | OPT_IN_REQUIRED | REQUEST_EXPIRED
  | REQUEST_TIME_TOO_SKEWED => kInvalidArgument
  | INTERNAL_FAILURE | SERVICE_UNAVAILABLE => kInternalError
  | BUCKET_ALREADY_EXISTS => kAlreadyExist
  | ACCESS_DENIED | BUCKET_ALREADY_OWNED_BY_YOU | INVALID_ACCESS_KEY_ID | INVALID_CLIENT_TOKEN_ID | MISSING_AUTHENTICATION_TOKEN
  | SIGNATURE_DOES_NOT_MATCH | UNRECOGNIZED_CLIENT | VALIDATION => kPermissionDenied
  | RESOURCE_NOT_FOUND => kNotFound
  | SLOW_DOWN | THROTTLING => kTemporary
  | NETWORK_CONNECTION | REQUEST_TIMEOUT => kIOError
  | NO_SUCH_BUCKET | NO_SUCH_KEY | NO_SUCH_UPLOAD => kNotFound
  | OtherS3Error => kUnknown
  end.

(** ** Headers *)
Definition range_header (first : N) (last : option N) : string :=
  ("bytes=" +:+ pretty first +:+ "-" +:+ match last with Some b => pretty b | None => EmptyString end)%string.

(** [GetRangeString]; the last byte is excluded, and 0 wraps around. *)
Definition GetRangeString (first_byte last_byte : N) : string :=
  range_header first_byte (if (last_byte =? kLastByteInFile)%N then None else Some (size_t (Z.of_N last_byte - 1))).

Definition GetRangeStringForTail (num_last_bytes : N) : string := ("bytes=-" +:+ pretty num_last_bytes)%string.

(** The part behind the last slash. *)
Fixpoint after_last_slash (s : string) : option string :=
  match s with
  | EmptyString => None
  | String c s => match after_last_slash s with Some t => Some t | None => if Ascii.eqb c "/" then Some s else None end
  end.

Definition digit_value (c : ascii) : option N :=
  let n := N_of_ascii c in if ((48 <=? n) && (n <=? 57))%N then Some (n - 48)%N else None.

(** The digits at the front, and whether there is one. *)
Fixpoint leading_number (acc : N) (seen : bool) (s : string) : option N :=
  match s with
  | String c s' => match digit_value c with Some d => leading_number (10 * acc + d) true s' | None => if seen then Some acc else None end
  | EmptyString => if seen then Some acc else None
  end.

Fixpoint skip_spaces (s : string) : string :=
  match s with
  | String c s' => if bool_decide (c = " "%char) || bool_decide (N_of_ascii c ∈ [9; 10; 11; 12; 13]%N) then skip_spaces s' else s
  | EmptyString => s
  end.

(** [std::stoull]; a minus sign negates modulo 2^64. *)
Definition stoull (s : string) : result N :=
  let '(negative, digits) := match skip_spaces s with
    | String "+" s => (false, s) | String "-" s => (true, s) | s => (false, s) end in
  n ← of_option (leading_number 0 false digits) ConversionError;
  _ ← assert_ (n <? 2 ^ 64)%N ConversionError;
  Ok (if negative : bool then size_t (- Z.of_N n) else n).

Definition ParseContentLengthFromRange (content_range : string) : result N :=
  content_length ← of_option (after_last_slash content_range) AssertionFailed;
  match stoull content_length with Ok n => Ok n | Err _ => Err AssertionFailed end.

(** ** The reader *)
Record GetObjectResult : Type := mkGetObjectResult {
  LastModified : Z;
  ETag : string;
  ContentRange : string;
  ContentLength : N }.

Record S3Client : Type := mkS3Client {
  GetObject : string → list bytes * (S3Errors + GetObjectResult);
  HeadObject : S3Errors + GetObjectResult }.

Record S3ObjectReader : Type := mkS3ObjectReader { object_id_ : string; status_ : ObjectStatus }.
Definition make_S3ObjectReader (object_id : string) : S3ObjectReader := mkS3ObjectReader object_id no_status.

Section Reader.
Variable client : S3Client.

(** The request's stream factory empties the buffer; the client writes the response to it. *)
Definition CreateGetObjectRequest (buffer : ByteBuffer) (range : string) : result ByteBuffer :=
  buffer ← Resize buffer 0;
  stream ← receive (GetObject client range).1 (Delegate_Reset buffer);
  Ok (delegate_buffer stream).

Definition ProcessGetObjectRequest (r : S3ObjectReader) (range : string) : result (StorageErrorType * S3ObjectReader) :=
  match (GetObject client range).2 with
  | inl e => Ok (TranslateS3Error e, r)
  | inr result =>
      if IsError (object_error (status_ r)) then
        size ← (if decide (ContentRange result = EmptyString) then Ok (ContentLength result) else ParseContentLengthFromRange (ContentRange result));
        Ok (kNoError, mkS3ObjectReader (object_id_ r) (mkObjectStatus (object_id_ r) (LastModified result) (ETag result) size kNoError))
      else Ok (kNoError, r)
  end.

Definition request_object (r : S3ObjectReader) (buffer : ByteBuffer) (range : string) : result (StorageErrorType * ByteBuffer * S3ObjectReader) :=
  buffer ← CreateGetObjectRequest buffer range;
  '(error, r) ← ProcessGetObjectRequest r range;
  Ok (error, buffer, r).

Definition S3_Read (r : S3ObjectReader) (first_byte last_byte : N) (buffer : ByteBuffer) : result (StorageErrorType * ByteBuffer * S3ObjectReader) :=
  let read_entire_object := (first_byte =? 0)%N && (last_byte =? kLastByteInFile)%N in
  request_object r buffer (if read_entire_object then EmptyString else GetRangeString first_byte last_byte).

Definition S3_ReadTail (r : S3ObjectReader) (num_last_bytes : N) (buffer : ByteBuffer) : result (StorageErrorType * ByteBuffer * S3ObjectReader) :=
  request_object r buffer (GetRangeStringForTail num_last_bytes).

Definition S3_GetStatus (r : S3ObjectReader) : ObjectStatus * S3ObjectReader :=
  if IsError (object_error (status_ r)) then
    let status := match HeadObject client with
      | inl e => error_status (TranslateS3Error e)
      | inr result => mkObjectStatus (object_id_ r) (LastModified result) (ETag result) (ContentLength result) kNoError
      end in
    (status, mkS3ObjectReader (object_id_ r) status)
  else (status_ r, r).

#[export] Instance S3ObjectReader_reader : ObjectReader S3ObjectReader :=
  {| reader_Read := S3_Read; reader_ReadTail := S3_ReadTail; reader_GetStatus := S3_GetStatus |}.

(** ** Reading the ranges of an object buffer *)
(** Requests are made for the buffers that are empty. *)
Definition BuildRequestsFromByteRanges (ranges_to_buffers : RequestBuffer) : list (Range * string) :=
  omap (λ b : Range * bytes,
    let '((first_byte, last_byte), buffer) := b in
    if (length buffer =? 0)%nat then
      let read_entire_object := (first_byte =? 0)%nat && (N.of_nat last_byte =? kLastByteInFile)%N in
      Some (b.1, if read_entire_object then EmptyString else GetRangeString (N.of_nat first_byte) (N.of_nat last_byte))
    else None) ranges_to_buffers.

(** The response to a request, in the buffer of its range. *)
Fixpoint fill_range (range : Range) (data : bytes) (ranges_to_buffers : RequestBuffer) : RequestBuffer :=
  match ranges_to_buffers with
  | [] => []
  | b :: bs => if bool_decide (b.1 = range) then (range, data) :: bs else b :: fill_range range data bs
  end.

(** The callbacks in the order of completion; a later error replaces an earlier one. *)
Fixpoint ProcessGetObjectRequestsAsync (requests : list (Range * string)) (buffers : RequestBuffer) (storage_error : StorageErrorType)
    : result (RequestBuffer * StorageErrorType) :=
  match requests with
  | [] => Ok (buffers, storage_error)
  | (range, header) :: requests =>
      buffer ← CreateGetObjectRequest ByteBuffer_reserve header;
      let storage_error := match (GetObject client header).2 with inl e => TranslateS3Error e | inr _ => storage_error end in
      ProcessGetObjectRequestsAsync requests (fill_range range (Data buffer) buffers) storage_error
  end.

Definition S3_ReadObjectAsync (completion_order : list (Range * string) → list (Range * string)) (buffers : RequestBuffer)
    : result (RequestBuffer * StorageErrorType) :=
  ProcessGetObjectRequestsAsync (completion_order (BuildRequestsFromByteRanges buffers)) buffers kNoError.
End Reader.

(** ** The storage *)
Record ListPage : Type := mkListPage { Contents : list ObjectStatus; IsTruncated : bool; NextContinuationToken : string }.

(** [S3Storage::List], with the service's pages; [None] is no prefix or token. *)
Fixpoint S3Storage_List (ListObjectsV2 : option string → option string → S3Errors + ListPage) (fuel : nat)
    (object_prefix continuation_token : string) : result (list ObjectStatus * StorageErrorType) :=
  let given s := if decide (s = EmptyString) then None else Some s in
  match fuel with
  | O => Err OutOfFuel
  | S fuel =>
      match ListObjectsV2 (given object_prefix) (given continuation_token) with
      | inl e => Ok ([], TranslateS3Error e)
      | inr page =>
          if IsTruncated page
          then '(rest, error) ← S3Storage_List ListObjectsV2 fuel object_prefix (NextContinuationToken page); Ok (Contents page ++ rest, error)
          else Ok (Contents page, kNoError)
      end
  end.

(** [CreateBucket], [DeleteBucket] and [Delete]: the outcome of the request. *)
Definition GetErrorFromOutcome (outcome : option S3Errors) : StorageErrorType :=
  match outcome with Some e => TranslateS3Error e | None => kNoError end.

(** ** A service that honours ranges *)
Section Correct.
Variable client : S3Client.
Variable object : bytes.

(** RFC 9110: both ends of a range are included.  The length behind the slash can be parsed. *)
Record serves_ranges : Prop := {
  sr_range a b : (a <= b < length object)%nat → ∃ pieces result,
    GetObject client (range_header (N.of_nat a) (Some (N.of_nat b))) = (pieces, inr result) ∧ concat pieces = slice object a (S b) ∧
    (ContentRange result = EmptyString ∨ ∃ n, ParseContentLengthFromRange (ContentRange result) = Ok n);
  sr_head : ∃ result, HeadObject client = inr result ∧ ContentLength result = N.of_nat (length object);
  sr_size : Z.of_nat (length object) < 2 ^ 64 - 1 }.

Hypothesis Hserves : serves_ranges.

Lemma CreateGetObjectRequest_ok b range :
  wf_buffer b → ∃ b', CreateGetObjectRequest client b range = Ok b' ∧ wf_buffer b' ∧ Data b' = concat (GetObject client range).1.
Proof.
  intros Hb. unfold CreateGetObjectRequest. destruct (Resize_spec b 0 Hb) as (b0 & -> & Hb0 & Hs & Hl & _). cbn [rbind].
  destruct (receive_spec (GetObject client range).1 (Delegate_Reset b0)) as (d & -> & Hd & Hdata); [by apply Delegate_Reset_wf|by cbn|].
  cbn [rbind]. exists (delegate_buffer d). split; [done|]. split; [apply Hd|]. rewrite Hdata. cbn. by apply nil_length_inv in Hl as ->.
Qed.

Lemma GetRangeString_range first last :
  (first < last <= length object)%nat → GetRangeString (N.of_nat first) (N.of_nat last) = range_header (N.of_nat first) (Some (N.of_nat (last - 1))).
Proof.
  intros H. pose proof (sr_size Hserves). unfold GetRangeString. assert ((N.of_nat last =? kLastByteInFile)%N = false) as -> by (apply N.eqb_neq; unfold kLastByteInFile; lia).
  do 2 f_equal. unfold size_t. rewrite Z.mod_small by lia. lia.
Qed.

(** [Read] leaves out the last byte that its caller asked for. *)
Lemma S3_Read_exclusive r first last b :
  wf_buffer b → (first < last < length object)%nat →
  ∃ b' r', S3_Read client r (N.of_nat first) (N.of_nat last) b = Ok (kNoError, b', r') ∧ wf_buffer b' ∧ Data b' = slice object first last.
Proof.
  intros Hb H. pose proof (sr_size Hserves). unfold S3_Read, request_object.
  assert ((N.of_nat last =? kLastByteInFile)%N = false) as -> by (apply N.eqb_neq; unfold kLastByteInFile; lia). rewrite andb_false_r.
  rewrite GetRangeString_range by lia. destruct (sr_range Hserves first (last - 1)) as (pieces & result & Hget & Hbody & Hlen); [lia|].
  destruct (CreateGetObjectRequest_ok b (range_header (N.of_nat first) (Some (N.of_nat (last - 1)))) Hb) as (b' & -> & Hb' & Hdata).
  rewrite Hget in Hdata. cbn [fst] in Hdata. rewrite Hbody in Hdata. replace (S (last - 1)) with last in Hdata by lia. cbn [rbind].
  unfold ProcessGetObjectRequest. rewrite Hget. cbn [snd]. destruct (IsError (object_error (status_ r))).
  - assert (∃ n, (if decide (ContentRange result = EmptyString) then Ok (ContentLength result)
        else ParseContentLengthFromRange (ContentRange result)) = Ok n) as [n ->].
    { case_decide; [by eexists|]. destruct Hlen as [|[n Hn]]; [done|by exists n]. }
    cbn [rbind]. by do 2 eexists.
  - cbn [rbind]. by do 2 eexists.
Qed.

(** A stream over the reader fails at its first refill. *)
Lemma S3_stream_fails object_id kBufferSize :
  (2 <= length object)%nat → (2 <= kBufferSize)%nat →
  underflow (H := S3ObjectReader_reader client) kBufferSize (make_StreamBuffer (make_S3ObjectReader object_id)) = Err LogicError.
Proof.
  intros Hobject Hk. destruct (sr_head Hserves) as (result & Hhead & Hlength). unfold underflow, make_StreamBuffer.
  cbn [get_position current_offset_ stream_reader stream_buffer].
  assert (∃ r, GetObjectSize (H := S3ObjectReader_reader client) (mkStreamBuffer (make_S3ObjectReader object_id) [] None 0) =
    Ok (length object, mkStreamBuffer r [] None 0%nat)) as [r ->].
  { unfold GetObjectSize. cbn [stream_reader]. change (reader_GetStatus (make_S3ObjectReader object_id)) with (S3_GetStatus client (make_S3ObjectReader object_id)).
    unfold S3_GetStatus. rewrite Hhead. cbn [make_S3ObjectReader status_ no_status object_error]. change (IsError kUninitialized) with true. cbn iota.
    cbn [object_error object_size]. rewrite Hlength, Nat2N.id. by eexists. }
  cbn [rbind stream_reader]. rewrite (proj2 (Nat.leb_gt _ _)) by lia. set (last := (Nat.min (length object) (0 + kBufferSize) - 1)%nat).
  set (n := (last - 0 + 1)%nat).
  destruct (S3_Read_exclusive r 0 last (ByteBuffer_wrap (replicate n zero_byte)) (ByteBuffer_wrap_wf _)) as (b' & r' & Hr & Hb' & Hdata); [unfold last; lia|].
  change (reader_Read r) with (S3_Read client r). rewrite Hr. cbn [rbind]. change (IsError kNoError) with false. cbn [negb assert_ rbind].
  rewrite length_resize, (wf_Size _ Hb'), Hdata, length_slice by (unfold last; lia). by assert ((last - 0 =? n)%nat = false) as -> by (apply Nat.eqb_neq; unfold n; lia).
Qed.

(** ** All ranges of an object *)
Lemma contiguous_ranges a bs e : contiguous object a bs e →
  Forall (λ b, (a <= b.1.1 < b.1.2)%nat ∧ (b.1.2 <= length object)%nat ∧ b.2 = slice object b.1.1 b.1.2) bs ∧ NoDup bs.*1.
Proof.
  induction 1 as [a|a b e bs Hab Hb _ [IH IHn]]; [split; constructor|]. split.
  - constructor; [by cbn|]. eapply Forall_impl; [exact IH|]. cbn. intros x (? & ? & ?). split; [lia|done].
  - cbn. constructor; [|done]. intros (x & Hx & Hin)%list_elem_of_fmap. rewrite Forall_forall in IH. destruct (IH x Hin) as (Hle & _).
    rewrite <- Hx in Hle. cbn in Hle. lia.
Qed.

Abbreviation empty_buffers := (fmap (λ b : Range * bytes, (b.1, []))).
Definition header_of (range : Range) : string := GetRangeString (N.of_nat range.1) (N.of_nat range.2).

Lemma requests_of bs :
  Forall (λ b : Range * bytes, (b.1.1 < b.1.2 <= length object)%nat) bs →
  BuildRequestsFromByteRanges (empty_buffers bs) = (λ b, (b.1, header_of b.1)) <$> bs.
Proof.
  pose proof (sr_size Hserves). induction 1 as [|[[first last] data] bs Hb _ IH]; [done|]. cbn in Hb. unfold BuildRequestsFromByteRanges in *. cbn -[GetRangeString].
  assert ((N.of_nat last =? kLastByteInFile)%N = false) as -> by (apply N.eqb_neq; unfold kLastByteInFile; lia). rewrite andb_false_r. by f_equal.
Qed.

Lemma fill_range_fmap range data (bs : RequestBuffer) :
  NoDup bs.*1 → fill_range range data bs = (λ b, if decide (b.1 = range) then (range, data) else b) <$> bs.
Proof.
  induction bs as [|b bs IH]; [done|]. cbn. intros [Hb Hn]%NoDup_cons. destruct (decide (b.1 = range)) as [Heq|Hne].
  - rewrite bool_decide_true by done. f_equal. symmetry. rewrite <- (list_fmap_id bs) at 2. apply list_fmap_ext. intros i x Hx. cbn.
    rewrite decide_False; [done|]. intros Hx'. apply Hb, list_elem_of_fmap. exists x. split; [congruence|by eapply list_elem_of_lookup_2].
  - rewrite bool_decide_false by done. by rewrite IH.
Qed.

(** Whatever the order of the responses, every range gets its bytes. *)
Lemma process_requests (ranges : list Range) (buffers : RequestBuffer) :
  Forall (λ r : Range, (r.1 < r.2 <= length object)%nat) ranges → NoDup buffers.*1 →
  ProcessGetObjectRequestsAsync client ((λ r, (r, header_of r)) <$> ranges) buffers kNoError =
    Ok ((λ b : Range * bytes, if decide (b.1 ∈ ranges) then (b.1, slice object b.1.1 b.1.2) else b) <$> buffers, kNoError).
Proof.
  intros Hall. revert buffers. induction Hall as [|r ranges Hr _ IH]; intros buffers Hn; cbn [fmap list_fmap ProcessGetObjectRequestsAsync].
  - do 2 f_equal. rewrite <- (list_fmap_id buffers) at 1. apply list_fmap_ext. intros i x _. cbn. by rewrite decide_False by apply not_elem_of_nil.
  - destruct (CreateGetObjectRequest_ok ByteBuffer_reserve (header_of r) ByteBuffer_reserve_wf) as (b' & -> & _ & Hdata). cbn [rbind].
    unfold header_of in *. rewrite GetRangeString_range in * by done. destruct (sr_range Hserves r.1 (r.2 - 1)) as (pieces & result & Hget & Hbody & _); [lia|].
    rewrite Hget in *. cbn [fst snd] in *. rewrite Hbody in Hdata. replace (S (r.2 - 1)) with r.2 in Hdata by lia. rewrite fill_range_fmap, Hdata by done.
    rewrite IH; [|rewrite <- list_fmap_compose; erewrite list_fmap_ext; [exact Hn|]; intros i x _; cbn; by case_decide].
    do 2 f_equal. rewrite <- list_fmap_compose. apply list_fmap_ext. intros i x _. cbn. destruct (decide (x.1 = r)) as [->|Hne]; cbn [fst].
    + destruct (decide (r ∈ ranges)), (decide (r ∈ r :: ranges)) as [|Hn']; try done; exfalso; apply Hn'; by left.
    + destruct (decide (x.1 ∈ ranges)) as [Hin|Hin].
      * rewrite decide_True; [done|by right].
      * rewrite decide_False; [done|]. intros [?|?]%elem_of_cons; done.
Qed.
End Correct.

(** C34: (s3_storage.cpp, object_buffer.cpp) Reading an object asynchronously in ranges without a
    gap.  In whichever order the responses arrive, every range gets exactly its bytes, no
    error is reported, and reading from the object buffer returns the slices of the object. *)
Theorem S3_ReadObjectAsync_correct client object completion_order a bs e offset n :
  serves_ranges client object → contiguous object a bs e → (∀ l, completion_order l ≡ₚ l) → (a <= offset)%nat →
  ∃ filled, S3_ReadObjectAsync client completion_order ((λ b, (b.1, [])) <$> bs) = Ok (filled, kNoError) ∧ filled = bs ∧
    Read filled offset n = Ok (slice object offset (Nat.min (offset + n) e)).
Proof.
  intros Hserves Hc Horder Ha. exists bs. split; [|split; [done|by apply (Read_contiguous object a)]].
  destruct (contiguous_ranges object a bs e Hc) as [Hall Hn]. unfold S3_ReadObjectAsync. rewrite (requests_of client object Hserves).
  2:{ eapply Forall_impl; [exact Hall|]. cbn. lia. }
  assert ((λ b : Range * bytes, (b.1, header_of b.1)) <$> bs = (λ r : Range, (r, header_of r)) <$> bs.*1) as -> by (rewrite <- list_fmap_compose; done).
  pose proof (Horder ((λ r : Range, (r, header_of r)) <$> bs.*1)) as HP. apply Permutation_map_inv in HP as (ranges & -> & HP).
  fold (fmap (M := list) (λ r : Range, (r, header_of r)) ranges). rewrite (process_requests client object Hserves).
  - do 2 f_equal. rewrite <- list_fmap_compose. etrans; [|apply list_fmap_id]. apply list_fmap_ext. intros i x Hx. cbn.
    apply list_elem_of_lookup_2 in Hx. rewrite decide_True by (rewrite <- HP; apply list_elem_of_fmap; by exists x).
    rewrite Forall_forall in Hall. destruct (Hall x Hx) as (_ & _ & <-). by destruct x.
  - rewrite <- HP. apply Forall_fmap. eapply Forall_impl; [exact Hall|]. cbn. lia.
  - rewrite <- list_fmap_compose. by erewrite list_fmap_ext.
Qed.

(** C37: (s3_storage.cpp, stream.cpp) The S3 reader excludes the last byte of a range that
    [ObjectReader] declares as inclusive: [Read] delivers one byte less than asked for, and an
    input stream over it throws at its first refill. *)
Theorem S3_Read_excludes_last_byte client object first last kBufferSize b r object_id :
  serves_ranges client object → (first < last < length object)%nat → wf_buffer b → (2 <= kBufferSize)%nat →
  (∃ b' r', reader_Read (ObjectReader := S3ObjectReader_reader client) r (N.of_nat first) (N.of_nat last) b = Ok (kNoError, b', r') ∧
     Data b' = slice object first last ∧ Data b' ≠ slice object first (S last)) ∧
  underflow (H := S3ObjectReader_reader client) kBufferSize (make_StreamBuffer (make_S3ObjectReader object_id)) = Err LogicError.
Proof.
  intros Hserves Hrange Hb Hk. split; [|apply (S3_stream_fails client object Hserves); lia].
  destruct (S3_Read_exclusive client object Hserves r first last b Hb Hrange) as (b' & r' & Hr & _ & Hdata). exists b', r'. split; [exact Hr|].
  split; [done|]. rewrite Hdata. intros Heq%(f_equal length). rewrite !length_slice in Heq; lia.
Qed.

(** ** A service with one object of four bytes *)
Definition s3_object : bytes := ["a"; "b"; "c"; "d"]%char.
Definition demo_pairs : list (nat * nat) := list_prod (seq 0 4) (seq 0 4).
Definition demo_GetObject (range : string) : list bytes * (S3Errors + GetObjectResult) :=
  match List.find (λ p, bool_decide (range_header (N.of_nat p.1) (Some (N.of_nat p.2)) = range)) demo_pairs with
  | Some (a, b) => ([slice s3_object a (S b)], inr (mkGetObjectResult 0 "etag" "bytes */4" 0))
  | None => ([], inl NO_SUCH_KEY)
  end.
Definition demo_client : S3Client := mkS3Client demo_GetObject (inr (mkGetObjectResult 0 "etag" EmptyString 4)).

Lemma demo_client_serves : serves_ranges demo_client s3_object.
Proof.
  split; [|by eexists|cbn; lia]. intros a b [Hab Hb]. cbn in Hb.
  exists [slice s3_object a (S b)], (mkGetObjectResult 0 "etag" "bytes */4" 0). split; [|split; [apply app_nil_r|right; by exists 4%N]].
  destruct a as [|[|[|[|a]]]]; [..|lia]; destruct b as [|[|[|[|b]]]]; try lia; by vm_compute.
Qed.

Lemma S3_ReadObjectAsync_correct_witness :
  ∃ filled, S3_ReadObjectAsync demo_client (@rev _) [((0, 2), []); ((2, 4), [])]%nat = Ok (filled, kNoError) ∧
    Read filled 1 2 = Ok ["b"; "c"]%char.
Proof.
  destruct (S3_ReadObjectAsync_correct demo_client s3_object (@rev _) 0 [((0, 2), ["a"; "b"]); ((2, 4), ["c"; "d"])]%nat%char 4 1 2)
    as (filled & Hf & _ & Hr); [exact demo_client_serves| |intros l; symmetry; apply Permutation_rev|lia|by exists filled].
  apply (contiguous_cons s3_object 0 2 4 [((2, 4)%nat, slice s3_object 2 4)]); [lia|cbn; lia|].
  apply (contiguous_cons s3_object 2 4 4 []); [lia|cbn; lia|constructor].
Defined.

Lemma S3_Read_excludes_last_byte_witness :
  underflow (H := S3ObjectReader_reader demo_client) 2 (make_StreamBuffer (make_S3ObjectReader "key")) = Err LogicError.
Proof.
  apply (S3_Read_excludes_last_byte demo_client s3_object 0 2 2 ByteBuffer_reserve (make_S3ObjectReader "key") "key");
    [exact demo_client_serves|cbn; lia|exact ByteBuffer_reserve_wf|lia].
Defined.
