(* ===== verification/ChunkWriter.v ===== *)
(** * Writing chunks to several objects

    [PartitionedChunkWriter] and [MemoryChunkWriter] of [storage/table/chunk_writer.cpp], against
    the interface of format writers and a storage whose outcomes are parameters. *)

From Stdlib Require Import Ascii.
From stdpp Require Import pretty.
From S2P Require Export CsvWriter.

(** [MemoryChunkWriter]. *)
Definition MemoryChunkWriter_ProcessChunk (chunks_ : list Chunk) (chunk : Chunk) : list Chunk := chunks_ ++ [chunk].

Section Partitioned.
Context {W : Type} `{FormatWriter W}.
(** [PartitionedChunkWriterConfig] and [Storage]: [ObjectWriter::Write], from the object's name
    and what it holds, and [Close]. *)
Variable format_factory : W.
Variable naming_strategy : nat → string.
Variable split_rows : nat.
Variable Write : string → bytes → bytes → StorageErrorType.
Variable Close : string → bytes → StorageErrorType.

(** The open object is the current formatter's; [stored] are the objects that were closed. *)
Record PartitionedChunkWriter : Type := mkPartitionedChunkWriter {
  writer_schema : TableColumnDefinitions;
  current_formatter_ : option (W * string * bytes);
  num_rows_written_ : nat;
  object_id_counter_ : nat;
  writer_error : StorageErrorType;
  stored : list (string * bytes) }.

Definition make_PartitionedChunkWriter (schema : TableColumnDefinitions) : PartitionedChunkWriter :=
  mkPartitionedChunkWriter schema None 0 0 kNoError [].

(** The output handler: an error does not keep later pieces from being written. *)
Definition write_piece (name : string) (state : bytes * StorageErrorType) (data : bytes) : bytes * StorageErrorType :=
  match Write name state.1 data with
  | kNoError => (state.1 ++ data, state.2)
  | e => (state.1, e)
  end.

(** [Flush], with a formatter. *)
Definition Flush (w : PartitionedChunkWriter) (formatter : W) (name : string) (content : bytes) : result PartitionedChunkWriter :=
  '(_, footer) ← Finalize formatter;
  let '(content, error) := foldl (write_piece name) (content, writer_error w) footer in
  let error := if IsError (Close name content) then Close name content else error in
  Ok (mkPartitionedChunkWriter (writer_schema w) None (num_rows_written_ w) (object_id_counter_ w) error (stored w ++ [(name, content)])).

(** The formatter, opened when there is none. *)
Definition open_formatter (w : PartitionedChunkWriter) : result (W * string * bytes * nat * StorageErrorType) :=
  match current_formatter_ w with
  | Some (formatter, name, content) => Ok (formatter, name, content, object_id_counter_ w, writer_error w)
  | None =>
      let name := naming_strategy (object_id_counter_ w) in
      '(formatter, header) ← Initialize format_factory (writer_schema w);
      let '(content, error) := foldl (write_piece name) ([], writer_error w) header in
      Ok (formatter, name, content, S (object_id_counter_ w), error)
  end.

Definition PartitionedChunkWriter_ProcessChunk (w : PartitionedChunkWriter) (chunk : option Chunk) : result PartitionedChunkWriter :=
  match chunk with
  | None => Ok w
  | Some chunk =>
      if IsError (writer_error w) then Ok w
      else
        '(formatter, name, content, counter, error) ← open_formatter w;
        '(formatter, pieces) ← ProcessChunk formatter chunk;
        let '(content, error) := foldl (write_piece name) (content, error) pieces in
        let opened rows := mkPartitionedChunkWriter (writer_schema w) (Some (formatter, name, content)) rows counter error (stored w) in
        if IsError error then Ok (opened (num_rows_written_ w))
        else
          let rows := (num_rows_written_ w + chunk_Size chunk)%nat in
          if negb (split_rows =? 0)%nat && (split_rows <=? rows)%nat
          then
            w ← Flush (opened rows) formatter name content;
            Ok (mkPartitionedChunkWriter (writer_schema w) (current_formatter_ w) 0 (object_id_counter_ w) (writer_error w) (stored w))
          else Ok (opened rows)
  end.

(** [Finalize], also run by the destructor. *)
Definition NonVirtualFinalize (w : PartitionedChunkWriter) : result PartitionedChunkWriter :=
  match current_formatter_ w with
  | Some (formatter, name, content) => Flush w formatter name content
  | None => Ok w
  end.

Fixpoint write_chunks (w : PartitionedChunkWriter) (cs : list Chunk) : result PartitionedChunkWriter :=
  match cs with
  | [] => NonVirtualFinalize w
  | c :: cs => w ← PartitionedChunkWriter_ProcessChunk w (Some c); write_chunks w cs
  end.

(** ** The groups of chunks that share an object *)
Fixpoint split_groups (rows : nat) (group cs : list Chunk) : list (list Chunk) :=
  match cs with
  | [] => if bool_decide (group = []) then [] else [group]
  | c :: cs =>
      let rows := (rows + chunk_Size c)%nat in
      if negb (split_rows =? 0)%nat && (split_rows <=? rows)%nat
      then (group ++ [c]) :: split_groups 0 [] cs
      else split_groups rows (group ++ [c]) cs
  end.

Fixpoint format_chunks (formatter : W) (cs : list Chunk) : result (W * list bytes) :=
  match cs with
  | [] => Ok (formatter, [])
  | c :: cs =>
      '(formatter, pieces) ← ProcessChunk formatter c;
      '(formatter, rest) ← format_chunks formatter cs;
      Ok (formatter, pieces ++ rest)
  end.

Definition format_object (schema : TableColumnDefinitions) (cs : list Chunk) : result bytes :=
  '(formatter, header) ← Initialize format_factory schema;
  '(formatter, pieces) ← format_chunks formatter cs;
  '(_, footer) ← Finalize formatter;
  Ok (concat (header ++ pieces ++ footer)).

Lemma split_groups_head rows group cs : group ≠ [] → ∃ rest groups, split_groups rows group cs = (group ++ rest) :: groups.
Proof.
  revert rows group. induction cs as [|c cs IH]; intros rows group Hg; cbn [split_groups].
  - rewrite bool_decide_false by done. exists [], []. by rewrite app_nil_r.
  - destruct (_ && _); [by exists [c]; eexists|]. destruct (IH (rows + chunk_Size c)%nat (group ++ [c])) as (rest & groups & ->); [by destruct group|].
    exists (c :: rest), groups. by rewrite <- app_assoc.
Qed.

Definition group_rows (group : list Chunk) : nat := sum_list_with chunk_Size group.

(** The groups partition the chunks; a group ends when it has enough rows. *)
Definition grouping (cs : list Chunk) (groups : list (list Chunk)) : Prop :=
  concat groups = cs ∧ Forall (λ g, g ≠ []) groups ∧
  ∃ full lasts, groups = full ++ lasts ∧ (length lasts <= 1)%nat ∧
    Forall (λ g, (0 < split_rows <= group_rows g)%nat) full ∧ Forall (λ g, split_rows = 0%nat ∨ (group_rows g < split_rows)%nat) lasts.

Lemma split_groups_spec rows group cs :
  rows = group_rows group → split_rows = 0%nat ∨ (rows < split_rows)%nat → grouping (group ++ cs) (split_groups rows group cs).
Proof.
  revert rows group. induction cs as [|c cs IH]; intros rows group Hrows Hlt; cbn [split_groups].
  - rewrite app_nil_r. case_bool_decide as Hg; [subst; split; [done|]; split; [done|]; exists [], []; cbn; split; [done|]; split; [lia|done]|].
    split; [apply app_nil_r|]. split; [by repeat constructor|]. exists [], [group]. cbn. split; [done|]. split; [lia|]. split; [done|].
    constructor; [by rewrite <- Hrows|done].
  - assert (group_rows (group ++ [c]) = rows + chunk_Size c)%nat as Hsum by (unfold group_rows in *; rewrite sum_list_with_app; cbn; lia).
    destruct (Nat.eqb_spec split_rows 0) as [Hz|Hz]; cbn [negb andb]; [|destruct (Nat.leb_spec split_rows (rows + chunk_Size c)) as [Hle|Hgt]].
    + destruct (IH (rows + chunk_Size c)%nat (group ++ [c])) as (H1 & H2 & H3); [done|by left|]. split; [by rewrite H1, <- app_assoc|done].
    + destruct (IH 0%nat []) as (H1 & H2 & full & lasts & H3 & H4 & H5 & H6); [done|right; lia|]. split; [cbn; by rewrite H1, <- app_assoc|].
      split; [constructor; [by destruct group|done]|]. exists ((group ++ [c]) :: full), lasts. cbn. rewrite H3. split; [done|]. split; [done|].
      split; [|done]. constructor; [rewrite Hsum; lia|done].
    + destruct (IH (rows + chunk_Size c)%nat (group ++ [c])) as (H1 & H2 & H3); [done|by right|]. split; [by rewrite H1, <- app_assoc|done].
Qed.

(** ** A storage without errors *)
Hypothesis Hwrite : ∀ name content data, Write name content data = kNoError.
Hypothesis Hclose : ∀ name content, Close name content = kNoError.

Lemma write_pieces_ok name content e pieces : foldl (write_piece name) (content, e) pieces = (content ++ concat pieces, e).
Proof.
  revert content. induction pieces as [|p pieces IH]; intros content; cbn [foldl concat]; [by rewrite app_nil_r|].
  unfold write_piece at 2. cbn. rewrite Hwrite, IH. by rewrite app_assoc.
Qed.

Lemma format_chunks_app formatter cs cs' r :
  format_chunks formatter (cs ++ cs') = Ok r →
  ∃ formatter' pieces rest, format_chunks formatter cs = Ok (formatter', pieces) ∧ format_chunks formatter' cs' = Ok (r.1, rest) ∧ r.2 = pieces ++ rest.
Proof.
  revert formatter r. induction cs as [|c cs IH]; intros formatter r; cbn [format_chunks app].
  - intros Hr. by exists formatter, [], r.2; destruct r.
  - destruct (ProcessChunk formatter c) as [[f1 p1]|]; [|done]. cbn [rbind]. destruct (format_chunks f1 (cs ++ cs')) as [r1|] eqn:Hr1; [|done].
    destruct (IH f1 r1 Hr1) as (f2 & p2 & rest & H1 & H2 & H3). destruct r1 as [f3 p3]. cbn [rbind fst snd] in *. intros [= <-]. cbn.
    rewrite H1. cbn. exists f2, (p1 ++ p2), rest. rewrite H3, app_assoc. by subst.
Qed.

(** The writer in the middle of a group: its formatter has formatted the group so far. *)
Definition in_group (schema : TableColumnDefinitions) (k : nat) (group : list Chunk) (w : PartitionedChunkWriter) : Prop :=
  writer_schema w = schema ∧ writer_error w = kNoError ∧ num_rows_written_ w = group_rows group ∧
  match current_formatter_ w with
  | None => group = [] ∧ object_id_counter_ w = k
  | Some (formatter, name, content) =>
      object_id_counter_ w = S k ∧ name = naming_strategy k ∧ group ≠ [] ∧
      ∃ f0 header pieces, Initialize format_factory schema = Ok (f0, header) ∧ format_chunks f0 group = Ok (formatter, pieces) ∧
        content = concat (header ++ pieces)
  end.

Lemma format_object_inv schema cs content :
  format_object schema cs = Ok content →
  ∃ f0 header formatter pieces f1 footer, Initialize format_factory schema = Ok (f0, header) ∧ format_chunks f0 cs = Ok (formatter, pieces) ∧
    Finalize formatter = Ok (f1, footer) ∧ content = concat (header ++ pieces ++ footer).
Proof.
  unfold format_object. destruct (Initialize format_factory schema) as [[f0 header]|]; [|done]. cbn [rbind].
  destruct (format_chunks f0 cs) as [[formatter pieces]|] eqn:Hf; [|done]. cbn [rbind]. destruct (Finalize formatter) as [[f1 footer]|] eqn:Hfin; [|done].
  cbn. intros [= <-]. by exists f0, header, formatter, pieces, f1, footer.
Qed.

(** Opening the formatter, if need be, leaves the formatter of the group so far. *)
Lemma open_formatter_ok schema k group w rest content :
  in_group schema k group w → format_object schema (group ++ rest) = Ok content →
  ∃ f0 header formatter pieces, Initialize format_factory schema = Ok (f0, header) ∧ format_chunks f0 group = Ok (formatter, pieces) ∧
    open_formatter w = Ok (formatter, naming_strategy k, concat (header ++ pieces), S k, kNoError).
Proof.
  intros (Hs & He & _ & Hw) (f0 & header & f1 & pieces & f2 & footer & Hi & Hc & _)%format_object_inv. unfold open_formatter.
  destruct (current_formatter_ w) as [[[formatter name] content0]|].
  - destruct Hw as (-> & -> & _ & f0' & header' & pieces' & Hi' & Hc' & ->). rewrite He. by exists f0', header', formatter, pieces'.
  - destruct Hw as [-> ->]. rewrite Hs, Hi. cbn [rbind]. rewrite write_pieces_ok, He. exists f0, header, f0, []. by rewrite app_nil_r.
Qed.

(** A whole group, closed. *)
Lemma Flush_ok schema k group w f0 header formatter pieces content :
  Initialize format_factory schema = Ok (f0, header) → format_chunks f0 group = Ok (formatter, pieces) → writer_error w = kNoError →
  format_object schema group = Ok content →
  Flush w formatter (naming_strategy k) (concat (header ++ pieces)) =
    Ok (mkPartitionedChunkWriter (writer_schema w) None (num_rows_written_ w) (object_id_counter_ w) kNoError (stored w ++ [(naming_strategy k, content)])).
Proof.
  intros Hi Hc He (f0' & header' & f1 & pieces' & f2 & footer & Hi' & Hc' & Hf & ->)%format_object_inv. rewrite Hi in Hi'. injection Hi' as <- <-.
  rewrite Hc in Hc'. injection Hc' as <- <-. unfold Flush. rewrite Hf. cbn [rbind]. rewrite write_pieces_ok, Hclose, He.
  by rewrite <- concat_app, <- app_assoc.
Qed.

(** One chunk that does not complete its group. *)
Lemma ProcessChunk_ok schema k group c rest w content :
  in_group schema k group w → format_object schema (group ++ c :: rest) = Ok content →
  ∃ f0 header formatter pieces, Initialize format_factory schema = Ok (f0, header) ∧ format_chunks f0 (group ++ [c]) = Ok (formatter, pieces) ∧
    let opened rows := mkPartitionedChunkWriter schema (Some (formatter, naming_strategy k, concat (header ++ pieces))) rows (S k) kNoError (stored w) in
    let rows := (group_rows group + chunk_Size c)%nat in
    PartitionedChunkWriter_ProcessChunk w (Some c) =
      if negb (split_rows =? 0)%nat && (split_rows <=? rows)%nat
      then w ← Flush (opened rows) formatter (naming_strategy k) (concat (header ++ pieces));
           Ok (mkPartitionedChunkWriter (writer_schema w) (current_formatter_ w) 0 (object_id_counter_ w) (writer_error w) (stored w))
      else Ok (opened rows).
Proof.
  intros Hin Hf. destruct (open_formatter_ok schema k group w (c :: rest) content Hin Hf) as (f0 & header & f1 & pieces & Hi & Hc & Ho).
  destruct (format_object_inv _ _ _ Hf) as (f0' & header' & f2 & all & f3 & footer & Hi' & Hall & _). rewrite Hi in Hi'. injection Hi' as <- <-.
  replace (group ++ c :: rest) with ((group ++ [c]) ++ rest) in Hall by (by rewrite <- app_assoc).
  destruct (format_chunks_app _ _ _ _ Hall) as (f4 & p4 & _ & H4 & _ & _). pose proof (format_chunks_app _ _ _ _ H4) as (f1' & p1' & p5 & H1 & H5 & Hp4).
  rewrite Hc in H1. injection H1 as <- <-. cbn [fst snd format_chunks] in H5, Hp4. destruct (ProcessChunk f1 c) as [[f5 pc]|] eqn:Hpc; [|done].
  cbn in H5. injection H5 as <- <-. exists f0, header, f5, p4. split; [done|]. split; [done|].
  destruct Hin as (Hs & He & Hr & _). unfold PartitionedChunkWriter_ProcessChunk. rewrite He. change (IsError kNoError) with false. cbn iota.
  rewrite Ho. cbn [rbind]. rewrite Hpc. cbn [rbind]. rewrite write_pieces_ok. change (IsError kNoError) with false. cbn iota.
  rewrite Hr, Hs, Hp4, app_nil_r, <- concat_app, app_assoc. done.
Qed.

Lemma write_chunks_ok schema cs : ∀ k group w contents,
  in_group schema k group w → split_rows = 0%nat ∨ (group_rows group < split_rows)%nat →
  mapR (format_object schema) (split_groups (group_rows group) group cs) = Ok contents →
  ∃ w', write_chunks w cs = Ok w' ∧ writer_error w' = kNoError ∧ current_formatter_ w' = None ∧
    stored w' = stored w ++ zip (naming_strategy <$> seq k (length contents)) contents.
Proof.
  induction cs as [|c cs IH]; intros k group w contents Hin Hlt Hmap; cbn [write_chunks split_groups] in *.
  - destruct Hin as (Hs & He & _ & Hw). unfold NonVirtualFinalize. destruct (current_formatter_ w) as [[[formatter name] content]|] eqn:Hcur.
    + destruct Hw as (_ & -> & Hg & f0 & header & pieces & Hi & Hc & ->). rewrite bool_decide_false in Hmap by done. cbn in Hmap.
      destruct (format_object schema group) as [content|] eqn:Hf; [|done]. cbn in Hmap. injection Hmap as <-.
      rewrite (Flush_ok schema k group w f0 header formatter pieces content) by done. by eexists.
    + destruct Hw as [-> _]. cbn in Hmap. injection Hmap as <-. exists w. cbn. by rewrite app_nil_r.
  - assert (∃ rest content, format_object schema (group ++ c :: rest) = Ok content) as (rest & content & Hf).
    { destruct (_ && _) eqn:Hb.
      - cbn in Hmap. destruct (format_object schema (group ++ [c])) as [content|] eqn:Hf; [|done]. by exists [], content.
      - destruct (split_groups_head (group_rows group + chunk_Size c) (group ++ [c]) cs) as (rest & groups & Heq); [by destruct group|].
        rewrite Heq, <- app_assoc in Hmap. cbn in Hmap. destruct (format_object schema (group ++ c :: rest)) as [content|] eqn:Hf; [|done].
        by exists rest, content. }
    destruct (ProcessChunk_ok schema k group c rest w content Hin Hf) as (f0 & header & f1 & pieces & Hi & Hc & ->).
    assert (group_rows (group ++ [c]) = group_rows group + chunk_Size c)%nat as Hsum by (unfold group_rows; rewrite sum_list_with_app; cbn; lia).
    destruct (negb (split_rows =? 0)%nat && (split_rows <=? group_rows group + chunk_Size c)%nat) eqn:Hfull.
    + cbn in Hmap. destruct (format_object schema (group ++ [c])) as [content1|] eqn:Hf1; [|done]. cbn [rbind] in Hmap.
      destruct (mapR _ (split_groups 0 [] cs)) as [contents1|] eqn:Hm; [|done]. cbn in Hmap. injection Hmap as <-.
      rewrite (Flush_ok schema k (group ++ [c]) _ f0 header f1 pieces content1) by done. cbn [rbind].
      destruct (IH (S k) [] (mkPartitionedChunkWriter schema None 0 (S k) kNoError (stored w ++ [(naming_strategy k, content1)])) contents1)
        as (w' & Hw' & He' & Hc' & Hst); [by split| |done|].
      { apply andb_true_iff in Hfull as [Hz%negb_true_iff%Nat.eqb_neq _]. right. cbn. lia. }
      exists w'. split; [exact Hw'|]. split; [done|]. split; [done|]. rewrite Hst. cbn. by rewrite <- app_assoc.
    + cbn [rbind]. rewrite <- Hsum in *.
      apply (IH k (group ++ [c]) (mkPartitionedChunkWriter schema (Some (f1, naming_strategy k, concat (header ++ pieces))) (group_rows (group ++ [c])) (S k)
        kNoError (stored w))); [| |done].
      * split; [done|]. split; [done|]. split; [done|]. cbn. split; [done|]. split; [done|]. split; [by destruct group|]. by exists f0, header, pieces.
      * apply andb_false_iff in Hfull as [Hz%negb_false_iff%Nat.eqb_eq|Hgt%Nat.leb_gt]; [by left|by right].
Qed.
End Partitioned.

(** (chunk_writer.cpp) Writing chunks to several objects, for every format and when the
    storage reports no error.  The chunks are cut into consecutive groups, each but possibly
    the last with at least [split_rows] rows and none longer than needed in chunks; each group
    becomes one object, named by its number, that holds exactly what the format's writer makes
    of the header, the group's chunks and the footer; after [Finalize] nothing is left open. *)
Theorem PartitionedChunkWriter_correct {W : Type} `{FormatWriter W} (format_factory : W) naming_strategy split_rows Write Close schema
    (cs : list Chunk) contents :
  (∀ name content data, Write name content data = kNoError) → (∀ name content, Close name content = kNoError) →
  mapR (format_object format_factory schema) (split_groups split_rows 0 [] cs) = Ok contents →
  grouping split_rows cs (split_groups split_rows 0 [] cs) ∧
  ∃ w, write_chunks format_factory naming_strategy split_rows Write Close (make_PartitionedChunkWriter schema) cs = Ok w ∧
    writer_error w = kNoError ∧ current_formatter_ w = None ∧ stored w = zip (naming_strategy <$> seq 0 (length contents)) contents.
Proof.
  intros Hw Hc Hmap. split; [apply (split_groups_spec split_rows 0 [] cs); [done|lia]|].
  apply (write_chunks_ok format_factory naming_strategy split_rows Write Close Hw Hc schema cs 0 [] (make_PartitionedChunkWriter schema) contents);
    [by repeat split|cbn; lia|done].
Qed.

(** Two chunks of a column, one object each. *)
Lemma PartitionedChunkWriter_correct_witness :
  let schema := [mkTableColumnDefinition "a" kInt false] in
  let chunk z : Chunk := [mkValueSegment kInt [z] None] in
  ∃ w, write_chunks (H := CsvFormatWriter_writer (λ _, EmptyString) (λ _, EmptyString)) (make_CsvFormatWriter default_csv_writer_options) pretty 1
      (λ _ _ _, kNoError) (λ _ _, kNoError) (make_PartitionedChunkWriter schema) [chunk 1; chunk 2] = Ok w ∧
    stored w = [("0", String.list_ascii_of_string "a" ++ [newline] ++ String.list_ascii_of_string "1" ++ [newline]);
                ("1", String.list_ascii_of_string "a" ++ [newline] ++ String.list_ascii_of_string "2" ++ [newline])]%list.
Proof.
  intros schema chunk. edestruct (PartitionedChunkWriter_correct (H := CsvFormatWriter_writer (λ _, EmptyString) (λ _, EmptyString))
    (make_CsvFormatWriter default_csv_writer_options) pretty 1 (λ _ _ _, kNoError) (λ _ _, kNoError) schema [chunk 1; chunk 2])
    as [_ (w & Hw & _ & _ & Hs)]; [done|done|vm_compute; reflexivity|]. exists w. split; [exact Hw|]. by rewrite Hs.
Defined.
