(* ===== verification/PlanNodes.v ===== *)
(** * Plan nodes

    [compiler/abstract_plan_node.hpp] and [compiler/plan_utils.hpp]: the nodes of a plan with
    their inputs and the weak pointers back to their outputs, and the operations that rewire
    them.  Nodes are addresses in a heap.  [GetInputSide] does not compile as it is written,
    with [.Get()] on shared pointers; it is modelled as it is meant. *)

From S2P Require Export PqpNodesCorrect.

Inductive PlanInputSide : Set := kLeft | kRight.
#[export] Instance PlanInputSide_eq_dec : EqDecision PlanInputSide.
Proof. solve_decision. Defined.

Section Nodes.
Context {P : Type} `{Countable P}.

Record PlanNode : Type := mkPlanNode {
  left_input : option P;
  right_input : option P;
  outputs_ : list P }.

Abbreviation Plan := (gmap P PlanNode).

Definition make_PlanNode : PlanNode := mkPlanNode None None [].
Definition node_at (plan : Plan) (n : P) : result PlanNode := of_option (plan !! n) UndefinedBehaviour.

Definition InputNodeCount (x : PlanNode) : nat :=
  match left_input x, right_input x with Some _, Some _ => 2 | Some _, None => 1 | None, _ => 0 end.
Definition OutputNodeCount (x : PlanNode) : nat := length (outputs_ x).

Definition Input (side : PlanInputSide) (x : PlanNode) : option P := match side with kLeft => left_input x | kRight => right_input x end.
Definition Inputs (x : PlanNode) : list P :=
  match left_input x with Some l => l :: option_list (right_input x) | None => [] end.

Definition set_input (side : PlanInputSide) (input : option P) (x : PlanNode) : PlanNode :=
  match side with
  | kLeft => mkPlanNode input (right_input x) (outputs_ x)
  | kRight => mkPlanNode (left_input x) input (outputs_ x)
  end.
Definition set_outputs (outputs : list P) (x : PlanNode) : PlanNode := mkPlanNode (left_input x) (right_input x) outputs.

(** [std::find_if] and [erase]. *)
Fixpoint erase_first (Q : P → bool) (l : list P) : option (list P) :=
  match l with
  | [] => None
  | x :: l => if Q x then Some l else (x ::.) <$> erase_first Q l
  end.

Definition AddOutputPointer (plan : Plan) (input output : P) : result Plan :=
  x ← node_at plan input; Ok (<[input := set_outputs (outputs_ x ++ [output]) x]> plan).

(** A weak pointer that has expired counts as a match. *)
Definition RemoveOutputPointer (expired : P → bool) (plan : Plan) (input output : P) : result Plan :=
  x ← node_at plan input;
  outputs ← of_option (erase_first (λ other, bool_decide (output = other) || expired other) (outputs_ x)) AssertionFailed;
  Ok (<[input := set_outputs outputs x]> plan).

(** No pointer expires while a node is rewired. *)
Definition none_expired (other : P) : bool := false.

Definition SetInput (plan : Plan) (node : P) (side : PlanInputSide) (input : option P) : result Plan :=
  x ← node_at plan node;
  if decide (Input side x = input) then Ok plan
  else
    plan ← match Input side x with Some current => RemoveOutputPointer none_expired plan current node | None => Ok plan end;
    let plan := alter (set_input side input) node plan in
    match input with Some i => AddOutputPointer plan i node | None => Ok plan end.

(** The destructor: the weak pointers to the node itself have expired. *)
Definition destroy (plan : Plan) (node : P) : result Plan :=
  x ← node_at plan node;
  _ ← assert_ (bool_decide (outputs_ x = [])) AssertionFailed;
  let untie plan (i : option P) := match i with Some i => RemoveOutputPointer (λ o, bool_decide (o = node)) plan i node | None => Ok plan end in
  plan ← untie plan (left_input x);
  plan ← untie plan (right_input x);
  Ok (delete node plan).

Definition GetInputSide (plan : Plan) (node output : P) : result PlanInputSide :=
  o ← node_at plan output;
  if decide (left_input o = Some node) then Ok kLeft
  else if decide (right_input o = Some node) then Ok kRight
  else Err AssertionFailed.

Definition GetInputSides (plan : Plan) (node : P) : result (list PlanInputSide) :=
  x ← node_at plan node; mapR (GetInputSide plan node) (outputs_ x).

(** ** [plan_utils.hpp] *)
(** A loop of [SetInput] over outputs with their sides. *)
Fixpoint retie (plan : Plan) (outputs : list (P * PlanInputSide)) (input : option P) : result Plan :=
  match outputs with
  | [] => Ok plan
  | (o, side) :: outputs => plan ← SetInput plan o side input; retie plan outputs input
  end.

Definition ReplacePlanNode (plan : Plan) (original_node replacement_node : P) : result Plan :=
  r ← node_at plan replacement_node;
  _ ← assert_ (bool_decide (left_input r = None)) AssertionFailed;
  _ ← assert_ (bool_decide (right_input r = None)) AssertionFailed;
  _ ← assert_ (bool_decide (outputs_ r = [])) AssertionFailed;
  o ← node_at plan original_node;
  input_sides ← GetInputSides plan original_node;
  plan ← SetInput plan replacement_node kLeft (left_input o);
  plan ← SetInput plan replacement_node kRight (right_input o);
  plan ← retie plan (zip (outputs_ o) input_sides) (Some replacement_node);
  plan ← SetInput plan original_node kLeft None;
  SetInput plan original_node kRight None.

(** The side is looked up when the loop comes to the output. *)
Fixpoint retie_each (plan : Plan) (node : P) (outputs : list P) (input : P) : result Plan :=
  match outputs with
  | [] => Ok plan
  | o :: outputs =>
      side ← GetInputSide plan node o;
      plan ← SetInput plan o side (Some input);
      retie_each plan node outputs input
  end.

Definition check_insertable (x : PlanNode) (allow_right_input : bool) : result () :=
  _ ← assert_ (bool_decide (left_input x = None)) AssertionFailed;
  _ ← assert_ (bool_decide (right_input x = None) || allow_right_input) AssertionFailed;
  _ ← assert_ (bool_decide (outputs_ x = [])) AssertionFailed;
  Ok tt.

Definition InsertPlanNodeAbove (plan : Plan) (node node_to_insert : P) (allow_right_input : bool) : result Plan :=
  i ← node_at plan node_to_insert;
  _ ← check_insertable i allow_right_input;
  x ← node_at plan node;
  plan ← retie_each plan node (outputs_ x) node_to_insert;
  SetInput plan node_to_insert kLeft (Some node).

Definition InsertPlanNodeBelow (plan : Plan) (parent_node : P) (input_side : PlanInputSide) (node_to_insert : P) (allow_right_input : bool)
    : result Plan :=
  i ← node_at plan node_to_insert;
  _ ← check_insertable i allow_right_input;
  parent ← node_at plan parent_node;
  plan ← SetInput plan parent_node input_side (Some node_to_insert);
  SetInput plan node_to_insert kLeft (Input input_side parent).

Definition RemovePlanNode (plan : Plan) (node : P) (allow_right_input : bool) : result Plan :=
  x ← node_at plan node;
  _ ← assert_ (allow_right_input || bool_decide (right_input x = None)) AssertionFailed;
  input_sides ← GetInputSides plan node;
  plan ← SetInput plan node kLeft None;
  retie plan (zip (outputs_ x) input_sides) (left_input x).

(** ** [VisitPqpUpwards] of [pqp_utils.hpp] *)
Inductive PqpUpwardVisitation : Set := kVisitOutputs | kDoNotVisitOutputs.

Fixpoint VisitPqpUpwards {S} (plan : Plan) (visitor : P → S → result (PqpUpwardVisitation * S)) (fuel : nat) (queue : list P)
    (visited : gset P) (s : S) : result S :=
  match queue, fuel with
  | [], _ => Ok s
  | _, O => Err OutOfFuel
  | operator_proxy :: queue, S fuel =>
      if decide (operator_proxy ∈ visited) then VisitPqpUpwards plan visitor fuel queue visited s else
      let visited := {[operator_proxy]} ∪ visited in
      '(visitation, s) ← visitor operator_proxy s;
      match visitation with
      | kVisitOutputs =>
          x ← node_at plan operator_proxy;
          VisitPqpUpwards plan visitor fuel (queue ++ outputs_ x) visited s
      | kDoNotVisitOutputs => VisitPqpUpwards plan visitor fuel queue visited s
      end
  end%list.
End Nodes.
Arguments PlanNode : clear implicits.

(** ** Inputs and output pointers agree *)
Local Open Scope nat_scope.
Section Consistency.
Context {P : Type} `{Countable P}.
Implicit Types (plan : gmap P (PlanNode P)) (n o node : P).

Fixpoint occurrences (l : list P) (o : P) : nat :=
  match l with [] => 0 | y :: l => (if decide (y = o) then 1 else 0) + occurrences l o end.

Lemma occurrences_of_app (l k : list P) o : occurrences (l ++ k)%list o = occurrences l o + occurrences k o.
Proof. induction l as [|y l IH]; cbn; [done|]. rewrite IH. lia. Qed.

Lemma occurrences_elem (l : list P) o : occurrences l o ≠ 0 ↔ o ∈ l.
Proof.
  induction l as [|y l IH]; cbn; [by rewrite elem_of_nil|]. rewrite elem_of_cons, <- IH.
  case_decide; naive_solver lia.
Qed.

(** The input pointers of a plan, and how many of [o]'s point to [n]. *)
Definition wire plan n (side : PlanInputSide) : option P := plan !! n ≫= Input side.
Definition points (input : option P) n : nat := if decide (input = Some n) then 1 else 0.
Definition references (wires : P → PlanInputSide → option P) n o : nat := points (wires o kLeft) n + points (wires o kRight) n.
Definition output_pointers plan n o : nat :=
  match plan !! n with Some x => occurrences (outputs_ x) o | None => 0 end.

(** Every node holds one weak pointer per input pointer to it, and every input exists. *)
Definition consistent plan : Prop := ∀ n o, output_pointers plan n o = references (wire plan) n o.

Definition rewire (wires : P → PlanInputSide → option P) node side input : P → PlanInputSide → option P :=
  λ n s, if decide (n = node ∧ s = side) then input else wires n s.

Lemma references_wire wires n o : references wires n o ≠ 0 ↔ ∃ side, wires o side = Some n.
Proof.
  unfold references, points. split.
  - intros Hr. destruct (decide (wires o kLeft = Some n)) as [Hl|Hl]; [by exists kLeft|].
    destruct (decide (wires o kRight = Some n)) as [Hr'|Hr']; [by exists kRight|lia].
  - intros [side Hs] Hn. destruct side; rewrite Hs in Hn; repeat case_decide; lia || done.
Qed.

Lemma consistent_input plan n side i : consistent plan → wire plan n side = Some i → is_Some (plan !! i).
Proof.
  intros Hc Hw. assert (references (wire plan) i n ≠ 0) as Hr by (apply references_wire; eauto).
  rewrite <- Hc in Hr. unfold output_pointers in Hr. by destruct (plan !! i).
Qed.

Lemma consistent_outputs plan n x o :
  consistent plan → plan !! n = Some x → o ∈ outputs_ x ↔ ∃ side, wire plan o side = Some n.
Proof.
  intros Hc Hx. rewrite <- references_wire, <- (Hc n o). unfold output_pointers. rewrite Hx.
  by rewrite occurrences_elem.
Qed.

Lemma wire_exists plan n side i : wire plan n side = Some i → is_Some (plan !! n).
Proof. unfold wire. by destruct (plan !! n). Qed.

Lemma wire_lookup plan n x side : plan !! n = Some x → wire plan n side = Input side x.
Proof. unfold wire. by intros ->. Qed.

Lemma erase_first_count (Q : P → bool) (l : list P) o :
  (∀ y, Q y = true ↔ y = o) → occurrences l o ≠ 0 →
  ∃ l', erase_first Q l = Some l' ∧
    ∀ y, occurrences l y = (occurrences l' y + if decide (y = o) then 1 else 0)%nat.
Proof.
  intros HQ. induction l as [|a l IH]; cbn; [done|]. intros Hc. destruct (Q a) eqn:E.
  - apply HQ in E as ->. exists l. split; [done|]. intros y. repeat case_decide; naive_solver lia.
  - assert (a ≠ o) by (intros ->; specialize (HQ o); intuition congruence).
    destruct IH as (l' & -> & Hl'); [by rewrite decide_False in Hc|].
    exists (a :: l'). split; [done|]. intros y. cbn. specialize (Hl' y). lia.
Qed.

Lemma RemoveOutputPointer_spec (expired : P → bool) plan input output :
  (∀ y, expired y = true → y = output) → output_pointers plan input output ≠ 0 →
  ∃ plan', RemoveOutputPointer expired plan input output = Ok plan' ∧ (∀ n s, wire plan' n s = wire plan n s) ∧ dom plan' = dom plan ∧
    ∀ n o, output_pointers plan n o = (output_pointers plan' n o + if decide (n = input ∧ o = output) then 1 else 0)%nat.
Proof.
  intros He Ho. unfold RemoveOutputPointer, node_at. unfold output_pointers in Ho. destruct (plan !! input) as [x|] eqn:Hx; [|done].
  cbn. destruct (erase_first_count (λ other, bool_decide (output = other) || expired other) (outputs_ x) output) as (l' & -> & Hl').
  { intros y. rewrite orb_true_iff, bool_decide_eq_true. naive_solver. }
  { done. }
  cbn. eexists. split; [done|]. split; [|split].
  - intros n s. unfold wire. destruct (decide (n = input)) as [->|]; [rewrite lookup_insert_eq, Hx; by destruct s|by rewrite lookup_insert_ne].
  - rewrite dom_insert_L. apply elem_of_dom_2 in Hx. set_solver.
  - intros n o. unfold output_pointers. destruct (decide (n = input)) as [->|].
    + rewrite lookup_insert_eq, Hx. cbn. rewrite (Hl' o). repeat case_decide; naive_solver lia.
    + rewrite lookup_insert_ne by done. rewrite decide_False by naive_solver. lia.
Qed.

Lemma AddOutputPointer_spec plan input output :
  is_Some (plan !! input) →
  ∃ plan', AddOutputPointer plan input output = Ok plan' ∧ (∀ n s, wire plan' n s = wire plan n s) ∧ dom plan' = dom plan ∧
    ∀ n o, output_pointers plan' n o = (output_pointers plan n o + if decide (n = input ∧ o = output) then 1 else 0)%nat.
Proof.
  intros [x Hx]. unfold AddOutputPointer, node_at. rewrite Hx. cbn. eexists. split; [done|]. split; [|split].
  - intros n s. unfold wire. destruct (decide (n = input)) as [->|]; [rewrite lookup_insert_eq, Hx; by destruct s|by rewrite lookup_insert_ne].
  - rewrite dom_insert_L. apply elem_of_dom_2 in Hx. set_solver.
  - intros n o. unfold output_pointers. destruct (decide (n = input)) as [->|].
    + rewrite lookup_insert_eq, Hx. cbn. rewrite occurrences_of_app. cbn. repeat case_decide; naive_solver lia.
    + rewrite lookup_insert_ne by done. rewrite decide_False by naive_solver. lia.
Qed.

Lemma alter_set_input plan node side input :
  is_Some (plan !! node) →
  (∀ n s, wire (alter (set_input side input) node plan) n s = rewire (wire plan) node side input n s) ∧
  dom (alter (set_input side input) node plan) = dom plan ∧
  ∀ n o, output_pointers (alter (set_input side input) node plan) n o = output_pointers plan n o.
Proof.
  intros [x Hx]. unfold rewire, wire, output_pointers. split; [|split].
  - intros n s. destruct (decide (n = node)) as [->|Hn].
    + rewrite lookup_alter_eq, Hx. cbn. case_decide; destruct side, s; naive_solver.
    + rewrite lookup_alter_ne by done. rewrite decide_False by naive_solver. done.
  - apply dom_alter_L.
  - intros n o. destruct (decide (n = node)) as [->|]; [rewrite lookup_alter_eq, Hx; by destruct side|by rewrite lookup_alter_ne].
Qed.
(** Untying a node from one of its inputs, and tying it to another. *)
Lemma untie_spec (expired : P → bool) plan input node :
  (∀ y, expired y = true → y = node) → (∀ i, input = Some i → output_pointers plan i node ≠ 0) →
  ∃ plan', match input with Some i => RemoveOutputPointer expired plan i node | None => Ok plan end = Ok plan' ∧
    (∀ n s, wire plan' n s = wire plan n s) ∧ dom plan' = dom plan ∧
    ∀ n o, output_pointers plan n o = output_pointers plan' n o + if decide (o = node) then points input n else 0.
Proof.
  intros He Hi. unfold points. destruct input as [i|].
  - destruct (RemoveOutputPointer_spec expired plan i node) as (plan' & Hr & W & D & C); [done|by apply Hi|].
    exists plan'. split_and!; [done..|]. intros n o. rewrite C. repeat case_decide; naive_solver lia.
  - exists plan. split_and!; [done..|]. intros n o. repeat case_decide; done || lia.
Qed.

Lemma tie_spec plan input node :
  (∀ i, input = Some i → is_Some (plan !! i)) →
  ∃ plan', match input with Some i => AddOutputPointer plan i node | None => Ok plan end = Ok plan' ∧
    (∀ n s, wire plan' n s = wire plan n s) ∧ dom plan' = dom plan ∧
    ∀ n o, output_pointers plan' n o = output_pointers plan n o + if decide (o = node) then points input n else 0.
Proof.
  intros Hi. unfold points. destruct input as [i|].
  - destruct (AddOutputPointer_spec plan i node) as (plan' & Hr & W & D & C); [by apply Hi|].
    exists plan'. split_and!; [done..|]. intros n o. rewrite C. repeat case_decide; naive_solver lia.
  - exists plan. split_and!; [done..|]. intros n o. repeat case_decide; done || lia.
Qed.

(** [SetInput] rewires one input and keeps the pointers in agreement. *)
Lemma SetInput_spec plan node side input :
  consistent plan → is_Some (plan !! node) → (∀ i, input = Some i → is_Some (plan !! i)) →
  ∃ plan', SetInput plan node side input = Ok plan' ∧ consistent plan' ∧ dom plan' = dom plan ∧
    ∀ n s, wire plan' n s = rewire (wire plan) node side input n s.
Proof.
  intros Hc [x Hx] Hi. unfold SetInput, node_at. rewrite Hx. cbn. pose proof (wire_lookup plan node x side Hx) as Hw.
  case_decide as Heq.
  { exists plan. split_and!; [done..|]. intros n s. unfold rewire. case_decide as Hd; [|done]. destruct Hd as [-> ->]. congruence. }
  destruct (untie_spec none_expired plan (Input side x) node) as (plan1 & -> & W1 & D1 & C1); [done| |].
  { intros i ?. rewrite Hc. apply references_wire. exists side. congruence. }
  cbn. assert (is_Some (plan1 !! node)) as Hn1 by (rewrite <- elem_of_dom, D1, elem_of_dom; eauto).
  destruct (alter_set_input plan1 node side input Hn1) as (W2 & D2 & C2). set (plan2 := alter _ node plan1) in *.
  destruct (tie_spec plan2 input node) as (plan3 & -> & W3 & D3 & C3).
  { intros i ?. rewrite <- elem_of_dom, D2, D1, elem_of_dom. eauto. }
  assert (∀ n s, wire plan3 n s = rewire (wire plan) node side input n s) as W.
  { intros n s. rewrite W3, W2. unfold rewire. by rewrite W1. }
  exists plan3. split_and!; [done| |congruence|done].
  intros n o. specialize (Hc n o). rewrite C3, C2. rewrite C1 in Hc. unfold references in *. rewrite !W. unfold rewire.
  destruct (decide (o = node)) as [->|Ho].
  - rewrite <- Hw in *. destruct side; repeat case_decide; intuition (congruence || lia).
  - repeat case_decide; intuition (congruence || lia).
Qed.

Lemma destroy_spec plan node x :
  consistent plan → plan !! node = Some x → outputs_ x = [] →
  ∃ plan', destroy plan node = Ok plan' ∧ consistent plan' ∧ dom plan' = dom plan ∖ {[node]} ∧
    ∀ n s, wire plan' n s = if decide (n = node) then None else wire plan n s.
Proof.
  intros Hc Hx Ho. unfold destroy, node_at. rewrite Hx. cbn. rewrite bool_decide_true by done. cbn.
  pose proof (wire_lookup plan node x kLeft Hx) as Hl. pose proof (wire_lookup plan node x kRight Hx) as Hr. cbn in Hl, Hr.
  set (gone := λ o, bool_decide (o = node)). assert (∀ y, gone y = true → y = node) as Hg by (intros y; apply bool_decide_eq_true).
  destruct (untie_spec gone plan (left_input x) node Hg) as (plan1 & -> & W1 & D1 & C1).
  { intros i ?. rewrite Hc. apply references_wire. exists kLeft. congruence. }
  cbn. destruct (untie_spec gone plan1 (right_input x) node Hg) as (plan2 & -> & W2 & D2 & C2).
  { intros i Hi. specialize (C1 i node). specialize (Hc i node). rewrite decide_True in C1 by done.
    unfold references, points in *. rewrite Hl, Hr, Hi in Hc. rewrite (decide_True (P := Some i = Some i)) in Hc by done. lia. }
  cbn. exists (delete node plan2).
  assert (∀ n s, wire (delete node plan2) n s = if decide (n = node) then None else wire plan n s) as W.
  { intros n s. unfold wire. case_decide as Hn; [subst; by rewrite lookup_delete_eq|]. rewrite lookup_delete_ne by done.
    specialize (W1 n s). specialize (W2 n s). unfold wire in W1, W2. congruence. }
  split_and!; [done| |rewrite dom_delete_L; congruence|done].
  assert (∀ o, output_pointers plan node o = 0) as Hz by (intros o; unfold output_pointers; rewrite Hx, Ho; done).
  intros n o. unfold references, points. rewrite !W. pose proof (Hc n o) as Hno. rewrite C1, C2 in Hno.
  destruct (decide (n = node)) as [->|Hn].
  - specialize (Hz o). rewrite Hc in Hz. unfold references, points in Hz.
    unfold output_pointers. rewrite lookup_delete_eq. repeat case_decide; congruence || lia.
  - assert (output_pointers (delete node plan2) n o = output_pointers plan2 n o) as ->.
    { unfold output_pointers. by rewrite lookup_delete_ne. }
    unfold references, points in Hno. repeat case_decide; subst; congruence || lia.
Qed.

(** ** The loops over a node's outputs *)
Definition side_of plan n o : PlanInputSide := if decide (wire plan o kLeft = Some n) then kLeft else kRight.

Lemma GetInputSide_spec plan n o side :
  wire plan o side = Some n → GetInputSide plan n o = Ok (side_of plan n o) ∧ wire plan o (side_of plan n o) = Some n.
Proof.
  intros Hw. destruct (wire_exists _ _ _ _ Hw) as [x Hx]. unfold GetInputSide, side_of, node_at. rewrite Hx. cbn.
  rewrite !(wire_lookup _ _ _ _ Hx) in *. cbn. case_decide; [done|]. destruct side; [done|]. cbn in Hw. by rewrite decide_True.
Qed.

Lemma GetInputSides_spec plan n x :
  consistent plan → plan !! n = Some x → GetInputSides plan n = Ok (side_of plan n <$> outputs_ x).
Proof.
  intros Hc Hx. unfold GetInputSides, node_at. rewrite Hx. cbn. apply mapR_total. intros o Ho.
  apply (consistent_outputs _ _ _ _ Hc Hx) in Ho as [side Hs]. by apply (GetInputSide_spec _ _ _ side).
Qed.

Lemma retie_spec plan outputs input :
  consistent plan → (∀ o side, (o, side) ∈ outputs → is_Some (plan !! o)) → (∀ i, input = Some i → is_Some (plan !! i)) →
  ∃ plan', retie plan outputs input = Ok plan' ∧ consistent plan' ∧ dom plan' = dom plan ∧
    ∀ n s, wire plan' n s = if decide ((n, s) ∈ outputs) then input else wire plan n s.
Proof.
  revert plan. induction outputs as [|[o side] outputs IH]; intros plan Hc Ho Hi; cbn.
  { exists plan. split_and!; [done..|]. intros n s. by rewrite decide_False by apply not_elem_of_nil. }
  destruct (SetInput_spec plan o side input) as (plan1 & -> & Hc1 & D1 & W1); [done|apply (Ho o side); by left|done|].
  cbn. destruct (IH plan1) as (plan2 & -> & Hc2 & D2 & W2); [done| | |].
  - intros o' side' ?. rewrite <- elem_of_dom, D1, elem_of_dom. apply (Ho o' side'). by right.
  - intros i ?. rewrite <- elem_of_dom, D1, elem_of_dom. by apply Hi.
  - exists plan2. split_and!; [done..|congruence|]. intros n s. rewrite W2, W1. unfold rewire.
    repeat case_decide; rewrite ?elem_of_cons in *; naive_solver.
Qed.

(** The second loop of [InsertPlanNodeAbove]: what is left of the outputs are the nodes that
    still have [node] as an input, once per input. *)
Lemma retie_each_spec plan node outputs input :
  consistent plan → is_Some (plan !! input) → node ≠ input ∨ outputs = [] →
  (∀ o, occurrences outputs o = references (wire plan) node o) →
  ∃ plan', retie_each plan node outputs input = Ok plan' ∧ consistent plan' ∧ dom plan' = dom plan ∧
    ∀ n s, wire plan' n s = if decide (wire plan n s = Some node) then Some input else wire plan n s.
Proof.
  revert plan. induction outputs as [|o outputs IH]; intros plan Hc Hi Hne Ho; cbn.
  { exists plan. split_and!; [done..|]. intros n s. case_decide as Hw; [|done].
    destruct (proj2 (references_wire (wire plan) node n)); [by exists s|by rewrite <- Ho]. }
  destruct Hne as [Hne|[=]].
  assert (∃ side, wire plan o side = Some node) as [side0 Hs0].
  { apply references_wire. rewrite <- Ho. cbn. by rewrite decide_True. }
  destruct (GetInputSide_spec _ _ _ _ Hs0) as [-> Hs]. cbn. set (side := side_of plan node o) in *. clearbody side.
  destruct (SetInput_spec plan o side (Some input)) as (plan1 & -> & Hc1 & D1 & W1); [done|by eapply wire_exists|by intros ? [= <-]|].
  cbn. destruct (IH plan1) as (plan2 & -> & Hc2 & D2 & W2); [done|by rewrite <- elem_of_dom, D1, elem_of_dom|by left| |].
  - intros o'. specialize (Ho o'). cbn in Ho. unfold references, points in *. rewrite !W1. unfold rewire.
    destruct side; repeat case_decide; subst; intuition (congruence || lia).
  - exists plan2. split_and!; [done..|congruence|]. intros n s. rewrite W2, W1. unfold rewire.
    repeat case_decide; naive_solver congruence.
Qed.
(** ** The operations *)
Definition replaced (wires : P → PlanInputSide → option P) original replacement : P → PlanInputSide → option P :=
  λ n s, if decide (n = original) then None
         else if decide (n = replacement) then wires original s
         else if decide (wires n s = Some original) then Some replacement else wires n s.
Definition redirected (wires : P → PlanInputSide → option P) node (input : option P) : P → PlanInputSide → option P :=
  λ n s, if decide (wires n s = Some node) then input else wires n s.

(** No node has [node] as both inputs, and [node] is not its own input. *)
Definition single_sided (wires : P → PlanInputSide → option P) node : Prop :=
  (∀ o, ¬ (wires o kLeft = Some node ∧ wires o kRight = Some node)) ∧ ∀ s, wires node s ≠ Some node.

Lemma zip_sides plan n (l : list P) o s :
  (o, s) ∈ zip l (side_of plan n <$> l) ↔ o ∈ l ∧ s = side_of plan n o.
Proof.
  induction l as [|y l IH]; cbn; [rewrite !elem_of_nil; naive_solver|]. rewrite !elem_of_cons, IH. naive_solver.
Qed.

(** The outputs with their sides are exactly the pointers to [n]. *)
Lemma outputs_sides plan n x o s :
  consistent plan → plan !! n = Some x → single_sided (wire plan) n →
  (o, s) ∈ zip (outputs_ x) (side_of plan n <$> outputs_ x) ↔ wire plan o s = Some n.
Proof.
  intros Hc Hx [Hs _]. rewrite zip_sides, (consistent_outputs _ _ _ _ Hc Hx). specialize (Hs o). unfold side_of. split.
  - intros [[side Hw] ->]. case_decide; [done|]. by destruct side.
  - intros Hw. split; [eauto|]. case_decide; destruct s; tauto.
Qed.

Lemma outputs_exist plan n x o s :
  consistent plan → plan !! n = Some x → (o, s) ∈ zip (outputs_ x) (side_of plan n <$> outputs_ x) → is_Some (plan !! o).
Proof.
  intros Hc Hx [Ho _]%zip_sides. apply (consistent_outputs _ _ _ _ Hc Hx) in Ho as [side Hw]. by eapply wire_exists.
Qed.

Lemma ReplacePlanNode_spec plan original replacement :
  consistent plan → is_Some (plan !! original) → plan !! replacement = Some make_PlanNode →
  ∃ plan', ReplacePlanNode plan original replacement = Ok plan' ∧ consistent plan' ∧
    (single_sided (wire plan) original → ∀ n s, wire plan' n s = replaced (wire plan) original replacement n s).
Proof.
  intros Hc [x Hx] Hr. unfold ReplacePlanNode, node_at. rewrite Hr. cbn. 
  rewrite Hx. cbn. rewrite (GetInputSides_spec _ _ _ Hc Hx). cbn.
  pose proof (wire_lookup _ _ _ kLeft Hx) as Hl. pose proof (wire_lookup _ _ _ kRight Hx) as Hrt. cbn in Hl, Hrt.
  assert (∀ i, i ∈ dom plan ↔ is_Some (plan !! i)) as D0 by (intros; apply elem_of_dom).
  destruct (SetInput_spec plan replacement kLeft (left_input x)) as (p1 & -> & C1 & D1 & W1); [done|by eauto|intros; eapply consistent_input; [exact Hc|by rewrite Hl]|].
  cbn. destruct (SetInput_spec p1 replacement kRight (right_input x)) as (p2 & -> & C2 & D2 & W2); [done| | |].
  { rewrite <- elem_of_dom, D1, D0. eauto. }
  { intros i ?. rewrite <- elem_of_dom, D1, D0. eapply consistent_input; [exact Hc|by rewrite Hrt]. }
  cbn. destruct (retie_spec p2 (zip (outputs_ x) (side_of plan original <$> outputs_ x)) (Some replacement)) as (p3 & -> & C3 & D3 & W3); [done| | |].
  { intros o s ?. rewrite <- elem_of_dom, D2, D1, D0. by apply (outputs_exist plan original x o s). }
  { intros i [= <-]. rewrite <- elem_of_dom, D2, D1, D0. eauto. }
  cbn. destruct (SetInput_spec p3 original kLeft None) as (p4 & -> & C4 & D4 & W4); [done| |done|].
  { rewrite <- elem_of_dom, D3, D2, D1, D0. eauto. }
  cbn. destruct (SetInput_spec p4 original kRight None) as (p5 & -> & C5 & D5 & W5); [done| |done|].
  { rewrite <- elem_of_dom, D4, D3, D2, D1, D0. eauto. }
  exists p5. split_and!; [done..|]. intros Hs n s. rewrite W5. unfold rewire at 1. rewrite W4. unfold rewire at 1. rewrite W3, W2.
  unfold rewire at 1. rewrite W1. unfold rewire, replaced. pose proof (outputs_sides _ _ _ n s Hc Hx Hs) as Ho.
  destruct Hs as [_ Hs]. assert (∀ s, wire plan replacement s = None) as Hn by (intros []; by rewrite (wire_lookup _ _ _ _ Hr)).
  destruct s; repeat case_decide; subst; rewrite ?Hn in *; naive_solver congruence.
Qed.

Lemma check_insertable_ok (x : PlanNode P) allow :
  check_insertable x allow = Ok tt → left_input x = None ∧ (right_input x = None ∨ allow = true) ∧ outputs_ x = [].
Proof.
  unfold check_insertable. repeat case_bool_decide; cbn; destruct allow; cbn; try done; auto.
Qed.

Lemma InsertPlanNodeAbove_spec plan node inserted i allow :
  consistent plan → is_Some (plan !! node) → plan !! inserted = Some i → check_insertable i allow = Ok tt →
  ∃ plan', InsertPlanNodeAbove plan node inserted allow = Ok plan' ∧ consistent plan' ∧
    ∀ n s, wire plan' n s = rewire (redirected (wire plan) node (Some inserted)) inserted kLeft (Some node) n s.
Proof.
  intros Hc [x Hx] Hi Hins. unfold InsertPlanNodeAbove, node_at. rewrite Hi. cbn. rewrite Hins. cbn. rewrite Hx. cbn.
  destruct (retie_each_spec plan node (outputs_ x) inserted) as (p1 & -> & C1 & D1 & W1); [done|by eauto| | |].
  { destruct (decide (node = inserted)) as [->|]; [right|by left]. rewrite Hx in Hi. injection Hi as ->.
    by apply check_insertable_ok in Hins as (_ & _ & ?). }
  { intros o. rewrite <- Hc. unfold output_pointers. by rewrite Hx. }
  cbn. destruct (SetInput_spec p1 inserted kLeft (Some node)) as (p2 & -> & C2 & D2 & W2); [done| | |].
  { rewrite <- elem_of_dom, D1, elem_of_dom. eauto. }
  { intros j [= <-]. rewrite <- elem_of_dom, D1, elem_of_dom. eauto. }
  exists p2. split_and!; [done..|]. intros n s. rewrite W2. unfold rewire, redirected. by rewrite W1.
Qed.

Lemma InsertPlanNodeBelow_spec plan parent side inserted i allow :
  consistent plan → is_Some (plan !! parent) → plan !! inserted = Some i → check_insertable i allow = Ok tt →
  ∃ plan', InsertPlanNodeBelow plan parent side inserted allow = Ok plan' ∧ consistent plan' ∧
    ∀ n s, wire plan' n s = rewire (rewire (wire plan) parent side (Some inserted)) inserted kLeft (wire plan parent side) n s.
Proof.
  intros Hc [x Hx] Hi Hins. unfold InsertPlanNodeBelow, node_at. rewrite Hi. cbn. rewrite Hins. cbn. rewrite Hx. cbn.
  destruct (SetInput_spec plan parent side (Some inserted)) as (p1 & -> & C1 & D1 & W1); [done|by eauto|intros j [= <-]; by eauto|].
  cbn. pose proof (wire_lookup _ _ _ side Hx) as Hw.
  destruct (SetInput_spec p1 inserted kLeft (Input side x)) as (p2 & -> & C2 & D2 & W2); [done| | |].
  { rewrite <- elem_of_dom, D1, elem_of_dom. eauto. }
  { intros j ?. rewrite <- elem_of_dom, D1, elem_of_dom. eapply consistent_input; [exact Hc|by rewrite Hw]. }
  exists p2. split_and!; [done..|]. intros n s. rewrite W2. unfold rewire. rewrite W1. unfold rewire. by rewrite Hw.
Qed.

Lemma RemovePlanNode_spec plan node x allow :
  consistent plan → plan !! node = Some x → allow || bool_decide (right_input x = None) = true →
  ∃ plan', RemovePlanNode plan node allow = Ok plan' ∧ consistent plan' ∧
    (single_sided (wire plan) node →
     ∀ n s, wire plan' n s = rewire (redirected (wire plan) node (wire plan node kLeft)) node kLeft None n s).
Proof.
  intros Hc Hx Ha. unfold RemovePlanNode, node_at. rewrite Hx. cbn. rewrite Ha. cbn.
  rewrite (GetInputSides_spec _ _ _ Hc Hx). cbn. pose proof (wire_lookup _ _ _ kLeft Hx) as Hl. cbn in Hl.
  destruct (SetInput_spec plan node kLeft None) as (p1 & -> & C1 & D1 & W1); [done|by eauto|done|].
  cbn. destruct (retie_spec p1 (zip (outputs_ x) (side_of plan node <$> outputs_ x)) (left_input x)) as (p2 & -> & C2 & D2 & W2); [done| | |].
  { intros o s ?. rewrite <- elem_of_dom, D1, elem_of_dom. by apply (outputs_exist plan node x o s). }
  { intros j ?. rewrite <- elem_of_dom, D1, elem_of_dom. eapply consistent_input; [exact Hc|by rewrite Hl]. }
  exists p2. split_and!; [done..|]. intros Hs n s. rewrite W2, W1. pose proof (outputs_sides _ _ _ n s Hc Hx Hs) as Ho.
  destruct Hs as [_ Hs]. unfold rewire, redirected. repeat case_decide; naive_solver congruence.
Qed.
(** What a caller can do with the nodes of a plan. *)
Inductive PlanOperation : Type :=
  | MakeNode (node : P)
  | SetNodeInput node (side : PlanInputSide) (input : option P)
  | DestroyNode node
  | ReplaceNode (original replacement : P)
  | InsertNodeAbove node (inserted : P) (allow_right_input : bool)
  | InsertNodeBelow (parent : P) (side : PlanInputSide) (inserted : P) (allow_right_input : bool)
  | RemoveNode node (allow_right_input : bool).

Definition run plan (operation : PlanOperation) : result (gmap P (PlanNode P)) :=
  match operation with
  | MakeNode node => Ok (<[node := make_PlanNode]> plan)
  | SetNodeInput node side input => SetInput plan node side input
  | DestroyNode node => destroy plan node
  | ReplaceNode original replacement => ReplacePlanNode plan original replacement
  | InsertNodeAbove node inserted allow => InsertPlanNodeAbove plan node inserted allow
  | InsertNodeBelow parent side inserted allow => InsertPlanNodeBelow plan parent side inserted allow
  | RemoveNode node allow => RemovePlanNode plan node allow
  end.

(** The nodes exist and the assertions on the arguments hold. *)
Definition enabled plan (operation : PlanOperation) : Prop :=
  match operation with
  | MakeNode node => plan !! node = None
  | SetNodeInput node _ input => is_Some (plan !! node) ∧ ∀ i, input = Some i → is_Some (plan !! i)
  | DestroyNode node => ∃ x, plan !! node = Some x ∧ outputs_ x = []
  | ReplaceNode original replacement => is_Some (plan !! original) ∧ plan !! replacement = Some make_PlanNode
  | InsertNodeAbove node inserted allow => is_Some (plan !! node) ∧ ∃ i, plan !! inserted = Some i ∧ check_insertable i allow = Ok tt
  | InsertNodeBelow parent _ inserted allow => is_Some (plan !! parent) ∧ ∃ i, plan !! inserted = Some i ∧ check_insertable i allow = Ok tt
  | RemoveNode node allow => ∃ x, plan !! node = Some x ∧ allow || bool_decide (right_input x = None) = true
  end.

(** The abstract effect on the input pointers. *)
Definition effect (wires : P → PlanInputSide → option P) (operation : PlanOperation) : P → PlanInputSide → option P :=
  match operation with
  | MakeNode _ => wires
  | SetNodeInput node side input => rewire wires node side input
  | DestroyNode node => λ n s, if decide (n = node) then None else wires n s
  | ReplaceNode original replacement => replaced wires original replacement
  | InsertNodeAbove node inserted _ => rewire (redirected wires node (Some inserted)) inserted kLeft (Some node)
  | InsertNodeBelow parent side inserted _ => rewire (rewire wires parent side (Some inserted)) inserted kLeft (wires parent side)
  | RemoveNode node _ => rewire (redirected wires node (wires node kLeft)) node kLeft None
  end.

Definition unambiguous (wires : P → PlanInputSide → option P) (operation : PlanOperation) : Prop :=
  match operation with ReplaceNode node _ | RemoveNode node _ => single_sided wires node | _ => True end.

Lemma MakeNode_spec plan node :
  consistent plan → plan !! node = None →
  consistent (<[node := make_PlanNode]> plan) ∧ ∀ n s, wire (<[node := make_PlanNode]> plan) n s = wire plan n s.
Proof.
  intros Hc Hn. assert (∀ n s, wire (<[node := make_PlanNode]> plan) n s = wire plan n s) as W.
  { intros n s. unfold wire. destruct (decide (n = node)) as [->|]; [rewrite lookup_insert_eq, Hn; by destruct s|by rewrite lookup_insert_ne]. }
  split; [|done]. intros n o. transitivity (references (wire plan) n o); [|by unfold references; rewrite !W].
  rewrite <- Hc. unfold output_pointers.
  destruct (decide (n = node)) as [->|]; [by rewrite lookup_insert_eq, Hn|by rewrite lookup_insert_ne].
Qed.

Lemma run_spec plan operation :
  consistent plan → enabled plan operation →
  ∃ plan', run plan operation = Ok plan' ∧ consistent plan' ∧
    (unambiguous (wire plan) operation → ∀ n s, wire plan' n s = effect (wire plan) operation n s).
Proof.
  intros Hc. destruct operation as [node|node side input|node|original replacement|node i allow|parent side i allow|node allow]; cbn.
  - intros Hn. destruct (MakeNode_spec plan node Hc Hn). eauto.
  - intros [Hn Hi]. destruct (SetInput_spec plan node side input Hc Hn Hi) as (plan' & ? & ? & ? & ?). eauto.
  - intros (x & Hx & Ho). destruct (destroy_spec plan node x Hc Hx Ho) as (plan' & ? & ? & ? & ?). eauto.
  - intros [? ?]. by apply ReplacePlanNode_spec.
  - intros [Hn (x & Hx & Hk)]. destruct (InsertPlanNodeAbove_spec plan node i x allow Hc Hn Hx Hk) as (plan' & ? & ? & ?). eauto.
  - intros [Hn (x & Hx & Hk)]. destruct (InsertPlanNodeBelow_spec plan parent side i x allow Hc Hn Hx Hk) as (plan' & ? & ? & ?). eauto.
  - intros (x & Hx & Ha). by apply (RemovePlanNode_spec plan node x).
Qed.

Inductive reachable : gmap P (PlanNode P) → Prop :=
  | reachable_empty : reachable ∅
  | reachable_run plan operation plan' :
      reachable plan → enabled plan operation → run plan operation = Ok plan' → reachable plan'.

Lemma reachable_consistent plan : reachable plan → consistent plan.
Proof.
  induction 1 as [|plan operation plan' _ IH He Hr]; [done|].
  destruct (run_spec plan operation IH He) as (p & Hp & ? & _). congruence.
Qed.

(** C35: Plan nodes: after any sequence of creations, input changes, destructions, replacements,
    insertions and removals, every node holds exactly one weak output pointer per input pointer
    to it, so no input dangles, and no operation whose arguments pass its assertions fails,
    in particular not on an output pointer it wants to remove. *)
Theorem plan_nodes_consistent plan :
  reachable plan →
  consistent plan ∧ (∀ n side i, wire plan n side = Some i → is_Some (plan !! i)) ∧
  ∀ operation, enabled plan operation → is_ok (run plan operation).
Proof.
  intros Hr%reachable_consistent. split_and!; [done|intros n side i; by apply consistent_input|].
  intros operation He. destruct (run_spec plan operation Hr He) as (p & -> & _). done.
Qed.

(** Rewiring a plan: on every plan that can be built, each operation changes the input
    pointers as documented: [ReplacePlanNode] gives the replacement the inputs and the outputs
    of the original and leaves the original without either, [InsertPlanNodeAbove] and
    [InsertPlanNodeBelow] put a node on the edges above a node or on one edge below it, and
    [RemovePlanNode] ties the outputs to the left input.  Replacing and removing ask that no
    output has the node on both sides. *)
Theorem plan_rewiring_correct plan operation :
  reachable plan → enabled plan operation → unambiguous (wire plan) operation →
  ∃ plan', run plan operation = Ok plan' ∧ ∀ n side, wire plan' n side = effect (wire plan) operation n side.
Proof.
  intros Hr%reachable_consistent He Hu. destruct (run_spec plan operation Hr He) as (p & Hp & _ & Hw). eauto.
Qed.
End Consistency.

(** ** Visits upwards *)
Section Upwards.
Context {P : Type} `{Countable P}.
Variables (plan : gmap P (PlanNode P)) (degree : nat).
Hypothesis Hconsistent : consistent plan.

Definition outputs_at (p : P) : list P := match plan !! p with Some x => outputs_ x | None => [] end.
Hypothesis Hdegree : ∀ p, length (outputs_at p) <= degree.

Definition record_visit (p : P) (visits : list P) : result (PqpUpwardVisitation * list P) := Ok (kVisitOutputs, visits ++ [p])%list.

Lemma outputs_at_exist p q : is_Some (plan !! p) → q ∈ outputs_at p → is_Some (plan !! q).
Proof.
  unfold outputs_at. intros [x Hx]. rewrite Hx. intros [side Hq]%(consistent_outputs _ _ _ _ Hconsistent Hx). by eapply wire_exists.
Qed.

Lemma VisitPqpUpwards_bfs fuel queue visited visits l :
  (∀ p, p ∈ queue → is_Some (plan !! p)) → bfs outputs_at fuel queue visited = Some l →
  VisitPqpUpwards plan record_visit fuel queue visited visits = Ok (visits ++ l)%list.
Proof.
  revert queue visited visits l. induction fuel as [|fuel IH]; intros [|p queue] visited visits l Hq Hl; try done;
    try (injection Hl as <-; by rewrite app_nil_r).
  cbn [bfs VisitPqpUpwards] in *. destruct (decide (p ∈ visited)) as [Hp|Hp].
  - apply IH; [|done]. intros q ?. apply Hq. by right.
  - destruct (bfs outputs_at fuel _ _) as [l'|] eqn:Hl'; [|done]. injection Hl as <-.
    destruct (Hq p) as [x Hx]; [by left|]. cbn [record_visit rbind fst snd]. unfold node_at. rewrite Hx. cbn [of_option rbind].
    assert (outputs_at p = outputs_ x) as Ho by (unfold outputs_at; by rewrite Hx). rewrite <- Ho.
    rewrite (IH _ _ _ l'); [by rewrite <- app_assoc| |done].
    intros q [Hqq|Hqn]%elem_of_app; [apply Hq; by right|by eapply outputs_at_exist; [exists x|]].
Qed.

(** Every node that uses the root, directly or not, is visited exactly once, the root included. *)
Lemma VisitPqpUpwards_once root :
  is_Some (plan !! root) →
  ∃ visits, VisitPqpUpwards plan record_visit (S (degree * size plan)) [root] ∅ [] = Ok visits ∧ NoDup visits ∧
    ∀ p, p ∈ visits ↔ leads outputs_at root p.
Proof.
  intros Hroot. destruct (bfs_root outputs_at (λ p, is_Some (plan !! p)) (dom plan)) with (degree := degree) (root := root)
    (fuel := S (degree * size plan)) as (l & Hl & Hnd & _ & Hin); try done.
  - intros p. apply elem_of_dom.
  - apply outputs_at_exist.
  - by rewrite size_dom.
  - exists l. split_and!; [|done..]. rewrite (VisitPqpUpwards_bfs _ _ _ _ l); [done| |done]. by intros p ->%list_elem_of_singleton.
Qed.
End Upwards.

(** ** Examples *)
(** Nodes 1 and 2 below 3, with 4 above it; then 5 replaces 3. *)
Definition plan_operations : list (PlanOperation (P := nat)) :=
  [MakeNode 1; MakeNode 2; MakeNode 3; MakeNode 4; MakeNode 5;
   SetNodeInput 3 kLeft (Some 1); SetNodeInput 3 kRight (Some 2); SetNodeInput 4 kLeft (Some 3)].
Definition next (plan : gmap nat (PlanNode nat)) (operation : PlanOperation) : gmap nat (PlanNode nat) :=
  match run plan operation with Ok plan' => plan' | Err _ => plan end.
Definition example_plan : gmap nat (PlanNode nat) := foldl next ∅ plan_operations.

Lemma reachable_next plan operation : reachable plan → enabled plan operation → reachable (next plan operation).
Proof.
  intros Hr He. destruct (run_spec plan operation (reachable_consistent plan Hr) He) as (p & Hp & _).
  unfold next. rewrite Hp. by eapply reachable_run.
Qed.

Ltac prove_enabled :=
  cbn [enabled]; repeat match goal with
  | |- _ ∧ _ => split
  | |- ∀ i, _ = Some i → _ => intros ? [=]; subst
  | |- is_Some _ => eexists
  | |- ∃ x, _ => eexists
  end; try (vm_compute; reflexivity).

Lemma example_plan_reachable : reachable example_plan.
Proof. unfold example_plan, plan_operations. cbn [foldl]. do 8 (apply reachable_next; [|prove_enabled]). apply reachable_empty. Qed.

Lemma plan_nodes_consistent_witness :
  reachable example_plan ∧ output_pointers example_plan 3 4 = 1 ∧
  (∀ n side i, wire example_plan n side = Some i → is_Some (example_plan !! i)) ∧ is_ok (run example_plan (ReplaceNode 3 5)).
Proof.
  pose proof (plan_nodes_consistent example_plan example_plan_reachable) as (Hc & Hi & Ho).
  split_and!; [apply example_plan_reachable|rewrite Hc; vm_compute; reflexivity|exact Hi|apply Ho; prove_enabled].
Defined.

Lemma plan_rewiring_correct_witness :
  ∃ plan', run example_plan (ReplaceNode 3 5) = Ok plan' ∧
    wire plan' 4 kLeft = Some 5 ∧ wire plan' 5 kRight = Some 2 ∧ wire plan' 3 kLeft = None.
Proof.
  destruct (plan_rewiring_correct example_plan (ReplaceNode 3 5)) as (plan' & Hr & Hw).
  - apply example_plan_reachable.
  - prove_enabled.
  - split; [intros o [Hl Hr]|intros []; vm_compute; discriminate].
    destruct (wire_exists _ _ _ _ Hl) as [x Hx]. apply elem_of_map_to_list in Hx. revert o x Hx Hl Hr.
    assert (Forall (λ '(o, _), ¬ (wire example_plan o kLeft = Some 3 ∧ wire example_plan o kRight = Some 3)) (map_to_list example_plan)) as Hf.
    { repeat constructor; vm_compute; intros [? ?]; discriminate. }
    intros o x Hx Hl Hr. rewrite Forall_forall in Hf. by apply (Hf (o, x)).
  - exists plan'. split; [done|]. rewrite !Hw. vm_compute. split_and!; reflexivity.
Defined.

(** A node that is both inputs of an output is the case the side condition excludes:
    [GetInputSides] returns the left side twice, so the replaced node stays the right input. *)
Lemma ReplacePlanNode_both_sides :
  let plan := foldl next ∅ [MakeNode 1; MakeNode 2; MakeNode 3; SetNodeInput 2 kLeft (Some 1); SetNodeInput 2 kRight (Some 1)] in
  GetInputSides plan 1 = Ok [kLeft; kLeft] ∧
  match run plan (ReplaceNode 1 3) with
  | Ok plan' => wire plan' 2 kLeft = Some 3 ∧ wire plan' 2 kRight = Some 1 ∧ output_pointers plan' 1 2 = 1
  | Err _ => False
  end.
Proof. vm_compute. split_and!; reflexivity. Qed.
