(* ===== verification/PipelineInputs.v ===== *)
(** * The inputs of a pipeline's fragments

    [utils/pipeline_generator.cpp]: how the objects that a pipeline reads are shared out to
    its fragments.  A broadcast input is read by every fragment, a partitioned one in such a
    way that fragment [i] reads the [i]-th partition of every object, and the files of the
    third kind are dealt out in turn. *)

From S2P Require Export Types.

Local Open Scope nat_scope.

Inductive InputShareType : Set := kBroadcastedRead | kPartitionedRead | kPartitionedByFileRead.
#[export] Instance InputShareType_eq_dec : EqDecision InputShareType.
Proof. solve_decision. Defined.

Record PipelineInput : Type := mkPipelineInput {
  input_id : string;
  input_share_type : InputShareType;
  input_objects : list ObjectReference }.

Abbreviation InputMap := (gmap string (list ObjectReference)).

(** [map[id].push_back(o)]. *)
Definition push_object (id : string) (m : InputMap) (o : ObjectReference) : InputMap :=
  <[id := default [] (m !! id) ++ [o]]> m.

(** [maps[i % maps.size()][id].push_back(objects[i])] for every [i]. *)
Definition deal_objects (id : string) (objects : list ObjectReference) (maps : list InputMap) : result (list InputMap) :=
  if bool_decide (maps = [] ∧ objects ≠ []) then Err UndefinedBehaviour
  else Ok (foldl (λ maps p, alter (λ m, push_object id m p.2) (p.1 mod length maps) maps) maps (imap pair objects)).

(** The reference to the partition of an object that a fragment reads; its ETag is dropped. *)
Definition partition_reference (fragment_id : nat) (o : ObjectReference) : result ObjectReference :=
  make_ObjectReference (bucket_name o) (identifier o) EmptyString (Some [wrap_int32 (Z.of_nat fragment_id)]).

Definition AddPipelineInputToMap (fragment_to_inputs : list InputMap) (pipeline_input : PipelineInput) : result (list InputMap) :=
  let id := input_id pipeline_input in
  let objects := input_objects pipeline_input in
  match input_share_type pipeline_input with
  | kBroadcastedRead => Ok ((λ m, foldl (push_object id) m objects) <$> fragment_to_inputs)
  | kPartitionedRead =>
      mapR (λ '(fragment_id, m),
        references ← mapR (partition_reference fragment_id) objects;
        Ok (foldl (push_object id) (<[id := []]> m) references)) (imap pair fragment_to_inputs)
  | kPartitionedByFileRead =>
      _ ← assert_ (length fragment_to_inputs <=? length objects) AssertionFailed;
      deal_objects id objects fragment_to_inputs
  end.

(** A negative count is a length that no vector can have. *)
Definition BuildPipelineFragmentsInputsMap (pipeline_inputs : list PipelineInput) (fragments_count : Z) : result (list InputMap) :=
  let fragments_count := wrap_int32 fragments_count in
  if (fragments_count <? 0)%Z then Err LogicError
  else foldR AddPipelineInputToMap (replicate (Z.to_nat fragments_count) ∅) pipeline_inputs.

(** ** What every fragment reads *)
(** The objects dealt to fragment [i] of [n], starting with number [k]. *)
Fixpoint dealt (n i k : nat) (objects : list ObjectReference) : list ObjectReference :=
  match objects with
  | [] => []
  | o :: objects => if decide (k mod n = i) then o :: dealt n i (S k) objects else dealt n i (S k) objects
  end.

Definition partition_of (i : nat) (o : ObjectReference) : ObjectReference :=
  mkObjectReference (bucket_name o) (identifier o) EmptyString (Some [Z.of_nat i]).

Definition nonempty (l : list ObjectReference) : option (list ObjectReference) :=
  match l with [] => None | _ => Some l end.

(** Fragment [i] of [n]; without objects there is no entry. *)
Definition share (n i : nat) (input : PipelineInput) : option (list ObjectReference) :=
  match input_share_type input with
  | kBroadcastedRead => nonempty (input_objects input)
  | kPartitionedRead => Some (partition_of i <$> input_objects input)
  | kPartitionedByFileRead => nonempty (dealt n i 0 (input_objects input))
  end.


Definition valid_input (n : nat) (input : PipelineInput) : Prop :=
  match input_share_type input with
  | kBroadcastedRead => True
  | kPartitionedRead => Forall valid_reference (input_objects input)
  | kPartitionedByFileRead => n <= length (input_objects input)
  end.

Lemma push_objects_lookup id (l : list ObjectReference) (m : InputMap) k :
  foldl (push_object id) m l !! k =
  if decide (k = id) then (if decide (l = []) then m !! id else Some (default [] (m !! id) ++ l)) else m !! k.
Proof.
  revert m. induction l as [|o l IH]; intros m; cbn [foldl].
  { by case_decide as Hk; [subst; rewrite decide_True|]. }
  rewrite IH. unfold push_object. rewrite (decide_False (P := o :: l = [])) by done. destruct (decide (k = id)) as [->|Hk].
  - rewrite lookup_insert_eq. destruct (decide (l = [])) as [->|]; [done|]. cbn. by rewrite <- app_assoc.
  - by rewrite lookup_insert_ne.
Qed.

Lemma deal_lookup id objects (maps : list InputMap) k i n :
  length maps = n →
  foldl (λ maps p, alter (λ m, push_object id m p.2) (p.1 mod length maps) maps) maps (imap (λ j o, (k + j, o)) objects) !! i =
  (λ m, foldl (push_object id) m (dealt n i k objects)) <$> maps !! i.
Proof.
  revert maps k. induction objects as [|o objects IH]; intros maps k Hn; cbn [imap foldl dealt].
  { by destruct (maps !! i). }
  replace (imap ((λ j o0, (k + j, o0)) ∘ S) objects) with (imap (λ j o0, (S k + j, o0)) objects)
    by (apply imap_ext; intros; cbn; f_equal; lia).
  rewrite IH by (by rewrite length_alter). cbn [fst snd]. rewrite Nat.add_0_r, Hn. destruct (decide (k mod n = i)) as [->|Hi].
  - rewrite list_lookup_alter_eq. by destruct (maps !! i).
  - by rewrite list_lookup_alter_ne.
Qed.

Lemma deal_length id objects (maps : list InputMap) :
  length (foldl (λ maps p, alter (λ m, push_object id m p.2) (p.1 mod length maps) maps) maps objects) = length maps.
Proof. revert maps. induction objects as [|o objects IH]; intros maps; cbn; [done|]. by rewrite IH, length_alter. Qed.

(** An input is added to every map under its id. *)
Definition adds (n : nat) (input : PipelineInput) (maps maps' : list InputMap) : Prop :=
  length maps' = length maps ∧
  ∀ i m', maps' !! i = Some m' → ∃ m, maps !! i = Some m ∧
    ∀ k, m' !! k = if decide (k = input_id input) then share n i input else m !! k.

Lemma nonempty_push (id : string) (l : list ObjectReference) (m : InputMap) :
  m !! id = None → ∀ k, foldl (push_object id) m l !! k = if decide (k = id) then nonempty l else m !! k.
Proof.
  intros Hm k. rewrite push_objects_lookup. case_decide; [|done]. rewrite Hm. cbn. by destruct l.
Qed.

Lemma AddPipelineInputToMap_spec (maps : list InputMap) input n :
  length maps = n → 0 < n → (Z.of_nat n < 2 ^ 31)%Z → valid_input n input → Forall (λ m, m !! input_id input = None) maps →
  ∃ maps', AddPipelineInputToMap maps input = Ok maps' ∧ adds n input maps maps'.
Proof.
  intros Hn Hpos Hmax Hvalid Hfresh. rewrite Forall_lookup in Hfresh. unfold AddPipelineInputToMap, adds, share.
  unfold valid_input in Hvalid. destruct (input_share_type input).
  - eexists. split; [done|]. split; [apply length_fmap|]. intros i m' Hi.
    apply list_lookup_fmap_Some in Hi as (m & -> & Hm). exists m. split; [done|]. apply nonempty_push. by apply (Hfresh i).
  - exists (imap (λ i m, foldl (push_object (input_id input)) (<[input_id input := []]> m) (partition_of i <$> input_objects input)) maps).
    split.
    + apply mapR_ok_Forall2. apply Forall2_same_length_lookup_2; [by rewrite !length_imap|].
      intros i [j m] m' Hi Hm'. rewrite list_lookup_imap in Hi. rewrite list_lookup_imap in Hm'. destruct (maps !! i) as [m0|] eqn:Hm0; [|done].
      cbn in Hi, Hm'. injection Hi as <- <-. injection Hm' as <-.
      rewrite (mapR_total _ (partition_of i)); [done|]. intros o Ho. rewrite Forall_forall in Hvalid.
      destruct (Hvalid o Ho). unfold partition_reference, make_ObjectReference. rewrite !bool_decide_true by done. cbn.
      unfold partition_of. by rewrite wrap_int32_id by (apply lookup_lt_Some in Hm0; unfold in_int32, int32_min, int32_max; lia).
    + split; [apply length_imap|]. intros i m' Hi. rewrite list_lookup_imap in Hi. destruct (maps !! i) as [m|] eqn:Hm; [|done].
      injection Hi as <-. exists m. split; [done|]. intros k. rewrite push_objects_lookup, lookup_insert_eq.
      case_decide; [|by rewrite lookup_insert_ne]. cbn. by destruct (partition_of i <$> input_objects input).
  - rewrite (proj2 (Nat.leb_le _ _)) by lia. cbn. unfold deal_objects. rewrite bool_decide_false by (intros [-> _]; cbn in Hn; lia).
    eexists. split; [done|]. split; [apply deal_length|]. intros i m' Hi.
    rewrite (deal_lookup _ _ _ 0 i n Hn) in Hi. destruct (maps !! i) as [m|] eqn:Hm; [|done]. injection Hi as <-.
    exists m. split; [done|]. apply nonempty_push. by apply (Hfresh i).
Qed.

(** Several inputs under different ids. *)
Lemma AddPipelineInputs_spec n inputs (maps : list InputMap) :
  length maps = n → 0 < n → (Z.of_nat n < 2 ^ 31)%Z → Forall (valid_input n) inputs → NoDup (input_id <$> inputs) →
  Forall (λ m, ∀ input, input ∈ inputs → m !! input_id input = None) maps →
  ∃ maps', foldR AddPipelineInputToMap maps inputs = Ok maps' ∧ length maps' = n ∧
    ∀ i m', maps' !! i = Some m' → ∃ m, maps !! i = Some m ∧
      (∀ input, input ∈ inputs → m' !! input_id input = share n i input) ∧
      ∀ k, k ∉ input_id <$> inputs → m' !! k = m !! k.
Proof.
  revert maps. induction inputs as [|input inputs IH]; intros maps Hn Hpos Hmax Hvalid Hnd Hfresh; cbn [foldR].
  { exists maps. split_and!; [done..|]. intros i m' Hm. exists m'. split_and!; [done| |done]. intros input Hin%elem_of_nil. done. }
  apply Forall_cons in Hvalid as [Hv Hvalid]. cbn in Hnd. apply NoDup_cons in Hnd as [Hid Hnd].
  destruct (AddPipelineInputToMap_spec maps input n Hn Hpos Hmax Hv) as (maps1 & -> & Hlen & Hadds).
  { apply (Forall_impl _ _ _ Hfresh). intros m Hm. apply Hm. by left. }
  cbn [rbind]. destruct (IH maps1) as (maps2 & -> & Hn2 & H2); [congruence|done..| |].
  - apply Forall_lookup. intros i m1 Hm1. destruct (Hadds i m1 Hm1) as (m & Hm & Hk). intros input' Hin. rewrite Hk.
    rewrite decide_False by (intros Heq; apply Hid; rewrite <- Heq; by apply list_elem_of_fmap_2).
    rewrite Forall_lookup in Hfresh. apply (Hfresh i m Hm). by right.
  - exists maps2. split_and!; [done..|]. intros i m2 Hm2. destruct (H2 i m2 Hm2) as (m1 & Hm1 & Hin & Hout).
    destruct (Hadds i m1 Hm1) as (m & Hm & Hk). exists m. split_and!; [done| |].
    + intros input' [->|Hin']%elem_of_cons; [|by apply Hin]. rewrite Hout by done. by rewrite Hk, decide_True.
    + intros k Hk'. rewrite fmap_cons, not_elem_of_cons in Hk'. rewrite Hout by tauto. rewrite Hk. by rewrite decide_False by tauto.
Qed.

Lemma BuildPipelineFragmentsInputsMap_spec n inputs :
  0 < n → (Z.of_nat n < 2 ^ 31)%Z → Forall (valid_input n) inputs → NoDup (input_id <$> inputs) →
  ∃ maps, BuildPipelineFragmentsInputsMap inputs (Z.of_nat n) = Ok maps ∧ length maps = n ∧
    ∀ i m, maps !! i = Some m →
      (∀ input, input ∈ inputs → m !! input_id input = share n i input) ∧ ∀ k, k ∉ input_id <$> inputs → m !! k = None.
Proof.
  intros Hpos Hmax Hvalid Hnd. unfold BuildPipelineFragmentsInputsMap.
  rewrite wrap_int32_id by (unfold in_int32, int32_min, int32_max; lia). rewrite (proj2 (Z.ltb_ge _ _)) by lia. rewrite Nat2Z.id.
  destruct (AddPipelineInputs_spec n inputs (replicate n ∅)) as (maps & -> & Hlen & Hm); [apply length_replicate|done..| |].
  { apply Forall_replicate. intros input _. apply lookup_empty. }
  exists maps. split_and!; [done..|]. intros i m Hi. destruct (Hm i m Hi) as (m0 & Hm0 & Hin & Hout).
  apply lookup_replicate in Hm0 as [-> _]. split; [done|]. intros k Hk. rewrite Hout by done. apply lookup_empty.
Qed.

(** ** Every file is dealt once *)
Lemma dealt_cons n i k o objects :
  dealt n i k (o :: objects) = (if decide (k mod n = i) then [o] else []) ++ dealt n i (S k) objects.
Proof. cbn. by case_decide. Qed.

Lemma concat_one (n j : nat) (o : ObjectReference) (f : nat → list ObjectReference) :
  j < n → concat ((λ i, (if decide (j = i) then [o] else []) ++ f i) <$> seq 0 n) ≡ₚ o :: concat (f <$> seq 0 n).
Proof.
  intros Hj. assert (∀ a b, (a <= j < a + b → concat ((λ i, (if decide (j = i) then [o] else []) ++ f i) <$> seq a b) ≡ₚ o :: concat (f <$> seq a b))
    ∧ (¬ a <= j < a + b → concat ((λ i, (if decide (j = i) then [o] else []) ++ f i) <$> seq a b) = concat (f <$> seq a b))) as H.
  2:{ apply H. lia. }
  intros a b. revert a. induction b as [|b IH]; intros a; [split; [lia|done]|]. destruct (IH (S a)) as [IH1 IH2].
  cbn [seq fmap list_fmap concat]. split; intros Hab.
  - destruct (decide (j = a)) as [->|Hne]; cbn [app]; [by rewrite IH2 by lia|]. rewrite IH1 by lia. by rewrite Permutation_middle.
  - rewrite decide_False by lia. cbn [app]. by rewrite IH2 by lia.
Qed.

Lemma dealt_all n k objects : 0 < n → concat ((λ i, dealt n i k objects) <$> seq 0 n) ≡ₚ objects.
Proof.
  intros Hn. revert k. induction objects as [|o objects IH]; intros k.
  { cbn [dealt]. by induction (seq 0 n). }
  rewrite (list_fmap_ext _ (λ i, (if decide (k mod n = i) then [o] else []) ++ dealt n i (S k) objects)) by (intros; apply dealt_cons).
  rewrite concat_one by (apply Nat.mod_upper_bound; lia). by rewrite IH.
Qed.

Lemma dealt_nonempty n i k objects : i < n → n <= length objects → dealt n i k objects ≠ [].
Proof.
  intros Hi Hlen. assert (∃ j, j < n ∧ (k + j) mod n = i) as (j & Hj & Hm).
  { exists ((i + (n - k mod n)) mod n). split; [apply Nat.mod_upper_bound; lia|].
    rewrite Nat.Div0.add_mod_idemp_r. pose proof (Nat.mod_upper_bound k n). rewrite (Nat.div_mod_eq k n) at 1.
    replace (n * (k / n) + k mod n + (i + (n - k mod n))) with (i + (1 + k / n) * n) by nia.
    rewrite Nat.Div0.mod_add. by apply Nat.mod_small. }
  assert (j < length objects) as Hlt by lia. clear Hlen Hj. revert k j Hm Hlt. induction objects as [|o objects IH]; intros k j Hm Hlt; [cbn in Hlt; lia|].
  cbn. destruct j as [|j]; [rewrite Nat.add_0_r in Hm; by rewrite decide_True|]. case_decide; [done|].
  apply (IH (S k) j); [by rewrite <- Hm; f_equal; lia|cbn in Hlt; lia].
Qed.

(** C16: The objects of a join's inputs are shared out to its fragments as the input's kind says:
    every fragment reads a broadcast input completely, fragment [i] reads exactly the [i]-th
    partition of every object of a partitioned input, and the files of the third kind are
    dealt out so that each is read by exactly one fragment and no fragment is left without
    one.  Nothing else is in the fragments' maps. *)
Theorem BuildPipelineFragmentsInputsMap_correct n inputs :
  0 < n → (Z.of_nat n < 2 ^ 31)%Z → Forall (valid_input n) inputs → NoDup (input_id <$> inputs) →
  ∃ maps, BuildPipelineFragmentsInputsMap inputs (Z.of_nat n) = Ok maps ∧ length maps = n ∧
    (∀ i m k, maps !! i = Some m → k ∉ input_id <$> inputs → m !! k = None) ∧
    ∀ input, input ∈ inputs → let reads i := default [] (maps !! i ≫= (.!! input_id input)) in
      match input_share_type input with
      | kBroadcastedRead => ∀ i, i < n → reads i = input_objects input
      | kPartitionedRead => ∀ i, i < n → reads i = partition_of i <$> input_objects input
      | kPartitionedByFileRead => (∀ i, i < n → reads i ≠ []) ∧ concat (reads <$> seq 0 n) ≡ₚ input_objects input
      end.
Proof.
  intros Hpos Hmax Hvalid Hnd.
  destruct (BuildPipelineFragmentsInputsMap_spec n inputs Hpos Hmax Hvalid Hnd) as (maps & Hok & Hlen & Hm).
  exists maps. split_and!; [done..| |].
  { intros i m k Hi. by apply (Hm i m Hi). }
  intros input Hin reads. rewrite Forall_forall in Hvalid. specialize (Hvalid input Hin). unfold valid_input in Hvalid.
  assert (∀ i, i < n → reads i = default [] (share n i input)) as Hreads.
  { intros i Hi. unfold reads. destruct (lookup_lt_is_Some_2 maps i) as [m Hmi]; [lia|]. rewrite Hmi. cbn.
    by rewrite (proj1 (Hm i m Hmi) input Hin). }
  assert (∀ l, default [] (nonempty l) = l) as Hne by (by intros []). unfold share in Hreads.
  destruct (input_share_type input).
  - intros i Hi. by rewrite Hreads, Hne by done.
  - intros i Hi. by rewrite Hreads by done.
  - split; [intros i Hi; rewrite Hreads, Hne by done; by apply dealt_nonempty|].
    rewrite (list_fmap_ext _ (λ i, dealt n i 0 (input_objects input))); [by apply dealt_all|].
    intros j i Hj. apply lookup_seq in Hj as [-> Hj]. rewrite Hreads, Hne by lia. done.
Qed.

Definition demo_object (name : string) : ObjectReference := mkObjectReference "bucket" name EmptyString None.
Definition demo_inputs : list PipelineInput :=
  [mkPipelineInput "broadcast" kBroadcastedRead (demo_object <$> ["a"; "b"]);
   mkPipelineInput "partitions" kPartitionedRead (demo_object <$> ["c"]);
   mkPipelineInput "files" kPartitionedByFileRead (demo_object <$> ["d"; "e"; "f"])]%string.

Lemma BuildPipelineFragmentsInputsMap_correct_witness :
  ∃ maps, BuildPipelineFragmentsInputsMap demo_inputs 2 = Ok maps ∧
    maps !! 1 ≫= (.!! "partitions"%string) = Some [partition_of 1 (demo_object "c")].
Proof.
  destruct (BuildPipelineFragmentsInputsMap_correct 2 demo_inputs) as (maps & Hok & Hlen & _ & Hin).
  - lia.
  - lia.
  - repeat constructor; try (by cbn; lia); done.
  - vm_compute. repeat constructor; set_solver.
  - exists maps. split; [exact Hok|]. specialize (Hin (mkPipelineInput "partitions" kPartitionedRead (demo_object <$> ["c"%string]))).
    cbn in Hin. assert (default [] (maps !! 1 ≫= (.!! "partitions"%string)) = [partition_of 1 (demo_object "c")]) as Hd.
    { apply Hin; [set_solver|lia]. }
    destruct (maps !! 1 ≫= (.!! "partitions"%string)); cbn in Hd; [by subst|done].
Defined.
