(* ===== verification/TpchGenerator.v ===== *)
(** * The plans of the TPC-H queries

    [compiler/pqp_generator/tpch_pqp_generator.cpp]: the pipelines of the TPC-H queries 1, 3,
    5, 6 and 12 with their plans, fragments and dependencies, as they depend on the worker
    counts and join algorithms of the query configuration, and the constructors of
    [expression_functional.hpp] that they use.  The proxies of a pipeline are allocated in a
    heap of their own, an address after the other. *)

From Stdlib Require Import SpecFloat.
From S2P Require Export PipelineInputs PipelineFragments.
From S2P Require ChunkReader PipelineScheduler ObjectReader Evaluator OperatorInstances.

Local Open Scope string_scope.

(** ** Enumerations *)
Inductive JoinAlgorithm : Set := kPartitionedHashJoin | kBroadcastHashJoin | kSortMergeJoin.
#[export] Instance JoinAlgorithm_eq_dec : EqDecision JoinAlgorithm.
Proof. solve_decision. Defined.

Inductive ScaleFactor : Set := kSf1 | kSf10 | kSf100 | kSf1000.

Inductive QueryId : Set :=
  | kEtlCopyTpchOrders | kProcessMiningQ3 | kProcessMiningQ9 | kTpchQ1 | kTpchQ3 | kTpchQ5 | kTpchQ6 | kTpchQ12 | kTpcxbbQ3 | kTpcxbbQ8.

Abbreviation GetFormatName := OperatorInstances.GetFormatName.
Abbreviation GetFormatExtension := OperatorInstances.GetFormatExtension.

Definition kFinalResultsExportFormat : FileFormat := kCsv.
Definition kIntermediateResultsExportFormat : FileFormat := kParquet.
Definition kS3BenchmarkDatasetsBucket : string := "skyrise-dataset-bucket-tum".

(** ** [expression_functional.hpp] *)
Definition Value_ (v : AllTypeVariant) : expr := Value v.
Definition String_ (s : string) : expr := Value_ (VString s).
Definition Int_ (z : Z) : expr := Value_ (VInt z).
Definition Div_ (a b : expr) : expr := Arithmetic kDivision a b.
Definition Mul_ (a b : expr) : expr := Arithmetic kMultiplication a b.
Definition Add_ (a b : expr) : expr := Arithmetic kAddition a b.
Definition Sub_ (a b : expr) : expr := Arithmetic kSubtraction a b.
Definition Sum_ (a : expr) : expr := Aggregate kSum a.
Definition Count_ (a : expr) : expr := Aggregate kCount a.
Definition Case_ (when_ then_ otherwise : expr) : expr := Case when_ then_ otherwise.
Definition List_ (elements : list expr) : expr := ListExpr elements.
Definition PqpColumn_ (id : ColumnId) (data_type : DataType) (name : string) : expr := PqpColumn id data_type false name.
Arguments PqpColumn_ id%_N_scope data_type name%_string_scope.
(** Shared with the evaluator's rewrites. *)
Abbreviation Equals_ := Evaluator.Equals_.
Abbreviation NotEquals_ := Evaluator.NotEquals_.
Abbreviation And_ := Evaluator.And_.
Abbreviation Or_ := Evaluator.Or_.

(** [0.06] and [0.01f] as binary32 numbers. *)
Definition float_006 : spec_float := S754_finite false 16106127 (-28).
Definition float_001 : spec_float := S754_finite false 10737418 (-30).

(** [s[3] += 1] for a character that is a digit below 9. *)
Definition next_year (date : string) : string :=
  match date with
  | String a (String b (String c (String d rest))) =>
      String a (String b (String c (String (Ascii.ascii_of_nat (Ascii.nat_of_ascii d + 1)) rest)))
  | _ => date
  end.

Section Generator.
Context {J : Type} `{Json J} `{MagicEnum JoinAlgorithm} {A : Type}.
Variables (address_text : N → string) (allocate : gset N → N).
Variables (query_configuration : J) (scale_factor_ : ScaleFactor) (shuffle_storage_ : ObjectReference).
(** [S3Storage::List] on the datasets' bucket, and what [RandomString(8)] returns for the
    [i]-th object of a pipeline. *)
Variables (ListObjects : string → list ObjectReader.ObjectStatus * ChunkReader.StorageErrorType) (RandomString : string → nat → string).

(** ** Building a plan *)
(** [make_shared], [SetIdentity] for a given identity, and [SetLeftInput], [SetRightInput]. *)
Definition make_proxy (op : ProxyOperator A) (identity : string) (left right : option N) (plan : Plan A) : result (N * Plan A) :=
  op ← make_proxy_operator op;
  let address := N.of_nat (size plan) in
  Ok (address, <[address := mkProxy op identity EmptyString left right EmptyString EmptyString]> plan).

Definition import_proxy (identity : string) (column_ids : list ColumnId) (plan : Plan A) : result (N * Plan A) :=
  make_proxy (ImportOperatorProxy column_ids [] None unlimited_objects) identity None None plan.

Definition unary_proxy (op : ProxyOperator A) (input : N) (plan : Plan A) : result (N * Plan A) :=
  make_proxy op EmptyString (Some input) None plan.

Definition mock : ObjectReference := mkObjectReference "mock" "mock" EmptyString None.
Definition export_proxy (format : FileFormat) (consolidate_row_groups : bool) (input : N) (plan : Plan A) : result (N * Plan A) :=
  unary_proxy (ExportOperatorProxy mock format consolidate_row_groups) input plan.

Definition projection_proxy (expressions : list expr) : N → Plan A → result (N * Plan A) := unary_proxy (ProjectionOperatorProxy expressions).
Definition filter_proxy (predicate : expr) : N → Plan A → result (N * Plan A) := unary_proxy (FilterOperatorProxy predicate).
Definition sort_proxy (definitions : list SortColumnDefinition) : N → Plan A → result (N * Plan A) := unary_proxy (SortOperatorProxy definitions).
Definition limit_proxy (row_count : expr) : N → Plan A → result (N * Plan A) := unary_proxy (LimitOperatorProxy row_count).
Definition alias_proxy (column_ids : list ColumnId) (aliases : list string) : N → Plan A → result (N * Plan A) :=
  unary_proxy (AliasOperatorProxy column_ids aliases).

(** The constructor makes the aggregation a pipeline breaker. *)
Definition aggregate_proxy (groupby_column_ids : list ColumnId) (aggregates : list expr) : N → Plan A → result (N * Plan A) :=
  unary_proxy (AggregateOperatorProxy groupby_column_ids aggregates true).

Definition join_proxy (algorithm : JoinAlgorithm) (column_id_left column_id_right : nat) (left right : N) (plan : Plan A)
    : result (N * Plan A) :=
  make_proxy (JoinOperatorProxy (bool_decide (algorithm = kSortMergeJoin)) kInner
    (Some (mkJoinOperatorPredicate column_id_left column_id_right kEquals)) []) EmptyString (Some left) (Some right) plan.

(** ** Configuration *)
Definition GetWorkerCount (pipeline_id : string) : Z :=
  if KeyExists query_configuration pipeline_id then
    let options := GetObject query_configuration pipeline_id in
    if KeyExists options "worker_count" then wrap_uint64 (GetInt64 options "worker_count") else 1
  else 1.

Definition GetJoinAlgorithmForPipeline (pipeline_id : string) : JoinAlgorithm :=
  if KeyExists query_configuration pipeline_id then
    let options := GetObject query_configuration pipeline_id in
    if KeyExists options "join_algorithm"
    then from_option id kPartitionedHashJoin (enum_cast (E:=JoinAlgorithm) (GetString options "join_algorithm")) else kPartitionedHashJoin
  else kPartitionedHashJoin.

Definition is_broadcast (pipeline_id : string) : bool := bool_decide (GetJoinAlgorithmForPipeline pipeline_id = kBroadcastHashJoin).
Definition is_sort_merge (pipeline_id : string) : bool := bool_decide (GetJoinAlgorithmForPipeline pipeline_id = kSortMergeJoin).

(** ** Objects *)
Definition scale_factor_infix : string :=
  match scale_factor_ with kSf1 => "1" | kSf10 => "10" | kSf100 => "100" | kSf1000 => "1000" end.

Definition table_prefix (table_name : string) (import_format : FileFormat) : string :=
  "tpc-h/standard/" +:+ GetFormatName import_format +:+ "/sf" +:+ scale_factor_infix +:+ "/" +:+ table_name +:+ "/".

Definition ListTableObjects (table_name : string) (import_format : FileFormat) : result (list ObjectReference) :=
  let '(objects, error) := ListObjects (table_prefix table_name import_format) in
  _ ← assert_ (negb (ChunkReader.IsError error)) AssertionFailed;
  mapR (λ o, make_ObjectReference kS3BenchmarkDatasetsBucket (ObjectReader.status_identifier o) (ObjectReader.status_checksum o) None) objects.

Definition GenerateOutputObjectIds (count : Z) (prefix : string) (export_format : FileFormat) : result (list ObjectReference) :=
  mapR (λ i, make_ObjectReference (bucket_name shuffle_storage_)
    (identifier shuffle_storage_ +:+ "/" +:+ prefix +:+ "/" +:+ RandomString prefix i +:+ GetFormatExtension export_format) EmptyString None)
    (seq 0 (Z.to_nat count)).

(** ** Pipelines *)
Record GeneratedPipeline : Type := mkGeneratedPipeline {
  gp_pipeline : PipelineScheduler.PqpPipeline;
  gp_plan : Plan A;
  gp_template : N }.

(** [make_shared<PqpPipeline>], and [AddFragmentDefinition] for every fragment, which are
    computed once the pipeline exists. *)
Definition new_pipeline (pipeline_id : string) (pqp : N) (plan : Plan A) (fragments : result (list PipelineFragmentDefinition))
    : result GeneratedPipeline :=
  '(plan, template) ← make_PqpPipeline address_text allocate (S (size plan)) pipeline_id plan pqp;
  fragments ← fragments;
  Ok (mkGeneratedPipeline (PipelineScheduler.mkPqpPipeline pipeline_id fragments [] []) plan template).

(** The inputs are dealt out to as many fragments as there are output objects. *)
Definition GeneratePipeline (pipeline_id import_id : string) (pqp : N) (plan : Plan A) (export_format : FileFormat)
    (input_objects output_objects : list ObjectReference) : result GeneratedPipeline :=
  _ ← assert_ (length output_objects <=? length input_objects)%nat AssertionFailed;
  maps ← deal_objects (pipeline_id +:+ "-" +:+ import_id) input_objects (replicate (length output_objects) ∅);
  new_pipeline pipeline_id pqp plan (Ok (zip_with (λ m o, mkPipelineFragmentDefinition m o export_format) maps output_objects)).

(** The pipelines with two imports, which share their end. *)
Definition join_fragment (maps : list InputMap) (output_objects : list ObjectReference) (i : nat) : result PipelineFragmentDefinition :=
  m ← vec_get maps i; o ← vec_get output_objects i; Ok (mkPipelineFragmentDefinition m o kParquet).

Definition GenerateJoinPipeline (pipeline_id : string) (pqp : N) (plan : Plan A) (left right : PipelineInput)
    (output_objects : list ObjectReference) : result GeneratedPipeline :=
  new_pipeline pipeline_id pqp plan (
    maps ← BuildPipelineFragmentsInputsMap [left; right] (GetWorkerCount pipeline_id);
    mapR (join_fragment maps output_objects) (seq 0 (Z.to_nat (GetWorkerCount pipeline_id)))).

(** The broadcast join reads one side completely and the other one file by file. *)
Definition broadcast_input (pipeline_id import_id : string) (objects : list ObjectReference) : PipelineInput :=
  mkPipelineInput (pipeline_id +:+ "-" +:+ import_id) (if is_broadcast pipeline_id then kBroadcastedRead else kPartitionedRead) objects.
Definition probe_input (pipeline_id import_id : string) (objects : list ObjectReference) : PipelineInput :=
  mkPipelineInput (pipeline_id +:+ "-" +:+ import_id) (if is_broadcast pipeline_id then kPartitionedByFileRead else kPartitionedRead) objects.

(** Before the export: the rows are partitioned for the successor unless it broadcasts. *)
Definition partition_proxy (successor_pipeline_id : string) (column_ids : list ColumnId) (sort_within_partition : bool)
    (input : N) (plan : Plan A) : result (N * Plan A) :=
  if is_broadcast successor_pipeline_id then Ok (input, plan)
  else unary_proxy (PartitionOperatorProxy (mkPartitioningFunction column_ids (GetWorkerCount successor_pipeline_id)) sort_within_partition) input plan.

Definition partitioned_export (successor_pipeline_id : string) (column_ids : list ColumnId) (sort_within_partition : bool)
    (input : N) (plan : Plan A) : result (N * Plan A) :=
  '(input, plan) ← partition_proxy successor_pipeline_id column_ids sort_within_partition input plan;
  export_proxy kIntermediateResultsExportFormat (is_broadcast successor_pipeline_id) input plan.

(** ** Query 1 *)
Definition l_extendedprice (id : ColumnId) : expr := PqpColumn_ id kFloat "l_extendedprice".
Definition l_discount (id : ColumnId) : expr := PqpColumn_ id kFloat "l_discount".
Definition discounted (extendedprice discount : ColumnId) : expr := Mul_ (l_extendedprice extendedprice) (Sub_ (Int_ 1) (l_discount discount)).
Arguments l_extendedprice id%_N_scope.
Arguments l_discount id%_N_scope.
Arguments discounted extendedprice%_N_scope discount%_N_scope.

Definition Q1Pipeline1_plan : result (N * Plan A) :=
  '(import_operator, plan) ← import_proxy "import" [4; 5; 6; 8; 9; 10; 7]%N ∅;
  let predicate1 := BinaryPredicate kLessThanEquals (PqpColumn_ 5 kString "l_shipdate") (String_ "1998-09-02") in
  '(filter_operator1, plan) ← filter_proxy predicate1 import_operator plan;
  let expressions := [
    discounted 1 2; PqpColumn_ 0 kFloat "l_quantity"; l_extendedprice 1; l_discount 2;
    PqpColumn_ 3 kString "l_returnflag"; PqpColumn_ 4 kString "l_linestatus";
    Mul_ (l_extendedprice 1) (Mul_ (Sub_ (Int_ 1) (l_discount 2)) (Add_ (Int_ 1) (PqpColumn_ 6 kFloat "l_tax")))] in
  '(projection_operator, plan) ← projection_proxy expressions filter_operator1 plan;
  let aggregates := [
    Sum_ (PqpColumn_ 0 kFloat "disc_price"); Sum_ (PqpColumn_ 1 kFloat "l_quantity"); Sum_ (l_extendedprice 2); Sum_ (l_discount 3);
    Count_ (PqpColumn_ kInvalidColumnId kFloat "*"); Sum_ (PqpColumn_ 6 kFloat "charge")] in
  '(aggregate_operator, plan) ← aggregate_proxy [4; 5]%N aggregates projection_operator plan;
  export_proxy kIntermediateResultsExportFormat false aggregate_operator plan.

Definition GenerateQ1Pipeline1 (input_objects : list ObjectReference) : result (list ObjectReference * GeneratedPipeline) :=
  '(export_operator, plan) ← Q1Pipeline1_plan;
  output_objects ← GenerateOutputObjectIds (GetWorkerCount "pipeline-1") "pipeline-1" kIntermediateResultsExportFormat;
  pipeline ← GeneratePipeline "pipeline-1" "import" export_operator plan kIntermediateResultsExportFormat input_objects output_objects;
  Ok (output_objects, pipeline).

Definition Q1Pipeline2_plan : result (N * Plan A) :=
  '(import_operator, plan) ← import_proxy "import" [0; 1; 2; 3; 4; 5; 6; 7]%N ∅;
  let aggregates := [
    Sum_ (PqpColumn_ 2 kDouble "sum_disc_price"); Sum_ (PqpColumn_ 3 kDouble "sum_qty"); Sum_ (PqpColumn_ 4 kDouble "sum_extendedprice");
    Sum_ (PqpColumn_ 6 kLong "count"); Sum_ (PqpColumn_ 7 kDouble "charge"); Sum_ (PqpColumn_ 5 kDouble "discount")] in
  '(aggregate_operator, plan) ← aggregate_proxy [0; 1]%N aggregates import_operator plan;
  let count := PqpColumn_ 5 kLong "count" in
  let expressions := [
    PqpColumn_ 0 kString "l_returnflag"; PqpColumn_ 1 kString "l_linestatus"; PqpColumn_ 2 kDouble "sum_disc_price";
    PqpColumn_ 3 kDouble "sum_qty"; PqpColumn_ 4 kDouble "sum_price"; count; PqpColumn_ 6 kDouble "sum_charge";
    Div_ (PqpColumn_ 3 kDouble "sum_qty") count; Div_ (PqpColumn_ 4 kDouble "sum_price") count; Div_ (PqpColumn_ 7 kDouble "sum_disc") count] in
  '(projection_operator, plan) ← projection_proxy expressions aggregate_operator plan;
  '(sort_operator, plan) ← sort_proxy [mkSortColumnDefinition 0%N kAscending; mkSortColumnDefinition 1%N kAscending] projection_operator plan;
  '(alias_operator, plan) ← alias_proxy [0; 1; 2; 3; 4; 5; 6; 7; 8; 9]%N
    ["l_returnflag"; "l_linestatus"; "sum_disc_price"; "sum_qty"; "sum_base_price"; "count_order"; "sum_charge"; "avg_qty"; "avg_price"; "avg_disc"]
    sort_operator plan;
  export_proxy kCsv false alias_operator plan.

Definition GenerateQ1Pipeline2 (input_objects : list ObjectReference) : result (list ObjectReference * GeneratedPipeline) :=
  '(export_operator, plan) ← Q1Pipeline2_plan;
  output_objects ← GenerateOutputObjectIds 1 "pipeline-2" kCsv;
  pipeline ← GeneratePipeline "pipeline-2" "import" export_operator plan kCsv input_objects output_objects;
  Ok (output_objects, pipeline).

(** ** Query 3 *)
(** Scan of orders. *)
Definition Q3Pipeline1_plan : result (N * Plan A) :=
  '(import_operator, plan) ← import_proxy "left_import" [0; 1; 4; 7]%N ∅;
  let predicate1 := BinaryPredicate kLessThan (PqpColumn_ 2 kString "o_orderdate") (String_ "1995-03-15") in
  '(filter_operator1, plan) ← filter_proxy predicate1 import_operator plan;
  partitioned_export "pipeline-4" [1]%N (is_sort_merge "pipeline-4") filter_operator1 plan.

Definition GenerateQ3Pipeline1 (input_objects : list ObjectReference) : result (list ObjectReference * GeneratedPipeline) :=
  '(export_operator, plan) ← Q3Pipeline1_plan;
  output_objects ← GenerateOutputObjectIds (GetWorkerCount "pipeline-1") "pipeline-1" kIntermediateResultsExportFormat;
  pipeline ← GeneratePipeline "pipeline-1" "left_import" export_operator plan kIntermediateResultsExportFormat input_objects output_objects;
  Ok (output_objects, pipeline).

(** Scan of customers. *)
Definition Q3Pipeline2_plan : result (N * Plan A) :=
  '(import_operator, plan) ← import_proxy "left_import" [0; 6]%N ∅;
  let predicate1 := BinaryPredicate kEquals (PqpColumn_ 1 kString "c_mktsegment") (String_ "BUILDING") in
  '(filter_operator1, plan) ← filter_proxy predicate1 import_operator plan;
  '(projection_operator, plan) ← projection_proxy [PqpColumn_ 0 kInt "c_custkey"] filter_operator1 plan;
  partitioned_export "pipeline-4" [0]%N (is_sort_merge "pipeline-4") projection_operator plan.

Definition GenerateQ3Pipeline2 (input_objects : list ObjectReference) : result (list ObjectReference * GeneratedPipeline) :=
  '(export_operator, plan) ← Q3Pipeline2_plan;
  output_objects ← GenerateOutputObjectIds (GetWorkerCount "pipeline-2") "pipeline-2" kIntermediateResultsExportFormat;
  pipeline ← GeneratePipeline "pipeline-2" "left_import" export_operator plan kIntermediateResultsExportFormat input_objects output_objects;
  Ok (output_objects, pipeline).

(** Scan of lineitems. *)
Definition Q3Pipeline3_plan : result (N * Plan A) :=
  '(import_operator, plan) ← import_proxy "left_import" [0; 5; 6; 10]%N ∅;
  let predicate1 := BinaryPredicate kGreaterThan (PqpColumn_ 3 kString "l_shipdate") (String_ "1995-03-15") in
  '(filter_operator1, plan) ← filter_proxy predicate1 import_operator plan;
  let expressions := [PqpColumn_ 0 kInt "o_orderkey"; PqpColumn_ 1 kFloat "extendedprice"; PqpColumn_ 2 kFloat "discount"] in
  '(projection_operator, plan) ← projection_proxy expressions filter_operator1 plan;
  partitioned_export "pipeline-5" [0]%N (is_sort_merge "pipeline-5") projection_operator plan.

Definition GenerateQ3Pipeline3 (input_objects : list ObjectReference) : result (list ObjectReference * GeneratedPipeline) :=
  '(export_operator, plan) ← Q3Pipeline3_plan;
  output_objects ← GenerateOutputObjectIds (GetWorkerCount "pipeline-3") "pipeline-3" kIntermediateResultsExportFormat;
  pipeline ← GeneratePipeline "pipeline-3" "left_import" export_operator plan kIntermediateResultsExportFormat input_objects output_objects;
  Ok (output_objects, pipeline).

(** Customers with orders. *)
Definition Q3Pipeline4_plan : result (N * Plan A) :=
  '(import_operator_left, plan) ← import_proxy "left_import" [0]%N ∅;
  '(import_operator_right, plan) ← import_proxy "right_import" [0; 1; 2; 3]%N plan;
  '(join_operator, plan) ← join_proxy (GetJoinAlgorithmForPipeline "pipeline-4") 0 1 import_operator_left import_operator_right plan;
  let expressions := [PqpColumn_ 1 kInt "o_orderkey"; PqpColumn_ 3 kString "o_orderdate"; PqpColumn_ 4 kInt "o_shippriority"] in
  '(projection_operator, plan) ← projection_proxy expressions join_operator plan;
  partitioned_export "pipeline-5" [0]%N (is_sort_merge "pipeline-5") projection_operator plan.

Definition GenerateQ3Pipeline4 (input_objects_left input_objects_right : list ObjectReference)
    : result (list ObjectReference * GeneratedPipeline) :=
  '(export_operator, plan) ← Q3Pipeline4_plan;
  output_objects ← GenerateOutputObjectIds (GetWorkerCount "pipeline-4") "pipeline-4" kIntermediateResultsExportFormat;
  pipeline ← GenerateJoinPipeline "pipeline-4" export_operator plan (broadcast_input "pipeline-4" "left_import" input_objects_left)
    (probe_input "pipeline-4" "right_import" input_objects_right) output_objects;
  Ok (output_objects, pipeline).

(** With lineitems; the ten best orders of every worker. *)
Definition by_revenue : list SortColumnDefinition := [mkSortColumnDefinition 3%N kDescending; mkSortColumnDefinition 1%N kAscending].

Definition Q3Pipeline5_plan : result (N * Plan A) :=
  '(import_operator_left, plan) ← import_proxy "left_import" [0; 1; 2]%N ∅;
  '(import_operator_right, plan) ← import_proxy "right_import" [0; 1; 2]%N plan;
  '(join_operator, plan) ← join_proxy (GetJoinAlgorithmForPipeline "pipeline-5") 0 0 import_operator_left import_operator_right plan;
  let expressions := [PqpColumn_ 0 kInt "o_orderkey"; PqpColumn_ 1 kString "o_orderdate"; PqpColumn_ 2 kInt "o_shoppriority"; discounted 4 5] in
  '(projection_operator, plan) ← projection_proxy expressions join_operator plan;
  '(aggregate_operator, plan) ← aggregate_proxy [0; 1; 2]%N [Sum_ (PqpColumn_ 3 kFloat "revenue")] projection_operator plan;
  '(sort_operator, plan) ← sort_proxy by_revenue aggregate_operator plan;
  '(limit_operator, plan) ← limit_proxy (Int_ 10) sort_operator plan;
  export_proxy kIntermediateResultsExportFormat false limit_operator plan.

Definition GenerateQ3Pipeline5 (input_objects_left input_objects_right : list ObjectReference)
    : result (list ObjectReference * GeneratedPipeline) :=
  '(export_operator, plan) ← Q3Pipeline5_plan;
  output_objects ← GenerateOutputObjectIds (GetWorkerCount "pipeline-5") "pipeline-5" kIntermediateResultsExportFormat;
  pipeline ← GenerateJoinPipeline "pipeline-5" export_operator plan (broadcast_input "pipeline-5" "left_import" input_objects_left)
    (probe_input "pipeline-5" "right_import" input_objects_right) output_objects;
  Ok (output_objects, pipeline).

Definition Q3Pipeline6_plan : result (N * Plan A) :=
  '(import_operator_left, plan) ← import_proxy "left_import" [0; 1; 2; 3]%N ∅;
  '(sort_operator, plan) ← sort_proxy by_revenue import_operator_left plan;
  '(limit_operator, plan) ← limit_proxy (Int_ 10) sort_operator plan;
  '(alias_operator, plan) ← alias_proxy [0; 1; 2; 3]%N ["l_orderkey"; "o_orderdate"; "o_shippriority"; "revenue"] limit_operator plan;
  export_proxy kFinalResultsExportFormat false alias_operator plan.

Definition GenerateQ3Pipeline6 (input_objects : list ObjectReference) : result (list ObjectReference * GeneratedPipeline) :=
  '(export_operator, plan) ← Q3Pipeline6_plan;
  output_objects ← GenerateOutputObjectIds 1 "pipeline-6" kFinalResultsExportFormat;
  pipeline ← GeneratePipeline "pipeline-6" "left_import" export_operator plan kFinalResultsExportFormat input_objects output_objects;
  Ok (output_objects, pipeline).

(** ** Query 5: a pipeline that only hands its input on is left out *)
Record PipelineData : Type := mkPipelineData {
  output_objects : list ObjectReference;
  pqp_pipeline : option GeneratedPipeline;
  columns_to_read_in_successor : list ColumnId }.

(** Regions, nations and suppliers. *)
Definition Q5Pipeline1_plan : result (N * Plan A) :=
  '(region_import_operator, plan) ← import_proxy "left_import" [0; 1]%N ∅;
  let predicate1 := BinaryPredicate kEquals (PqpColumn_ 1 kString "r_name") (String_ "ASIA") in
  '(region_filter_operator1, plan) ← filter_proxy predicate1 region_import_operator plan;
  '(nation_import_operator, plan) ← import_proxy "right_import" [0; 1; 2]%N plan;
  '(join_operator, plan) ← join_proxy kPartitionedHashJoin 0 2 region_filter_operator1 nation_import_operator plan;
  '(supplier_import_operator, plan) ← import_proxy "supplier_import" [0; 3]%N plan;
  '(join_operator2, plan) ← join_proxy kPartitionedHashJoin 2 1 join_operator supplier_import_operator plan;
  let expressions := [PqpColumn_ 3 kString "n_name"; PqpColumn_ 5 kInt "s_suppkey"; PqpColumn_ 6 kInt "s_nationkey"] in
  '(projection_operator, plan) ← projection_proxy expressions join_operator2 plan;
  partitioned_export "pipeline-3" [1]%N (is_sort_merge "pipeline-3") projection_operator plan.

(** One fragment reads everything, however many output objects there are. *)
Definition GenerateQ5Pipeline1 (region_input_objects nation_input_objects supplier_input_objects : list ObjectReference)
    : result PipelineData :=
  '(export_operator, plan) ← Q5Pipeline1_plan;
  output_objects ← GenerateOutputObjectIds (GetWorkerCount "pipeline-1") "pipeline-1" kIntermediateResultsExportFormat;
  let worker_input_mappings :=
    foldl (push_object "pipeline-1-supplier_import")
      (foldl (push_object "pipeline-1-right_import")
         (foldl (push_object "pipeline-1-left_import") ∅ region_input_objects) nation_input_objects) supplier_input_objects in
  target ← vec_get output_objects 0;
  pipeline1 ← new_pipeline "pipeline-1" export_operator plan
    (Ok [mkPipelineFragmentDefinition worker_input_mappings target kIntermediateResultsExportFormat]);
  Ok (mkPipelineData output_objects (Some pipeline1) [0; 1; 2]%N).

(** Scan of lineitems. *)
Definition Q5Pipeline2_plan : result (N * Plan A) :=
  '(import_operator, plan) ← import_proxy "left_import" [0; 2; 5; 6]%N ∅;
  partitioned_export "pipeline-3" [1]%N (is_sort_merge "pipeline-3") import_operator plan.

Definition GenerateQ5Pipeline2 (input_objects : list ObjectReference) : result PipelineData :=
  if is_broadcast "pipeline-3" then Ok (mkPipelineData input_objects None [0; 2; 5; 6]%N)
  else
    '(export_operator, plan) ← Q5Pipeline2_plan;
    output_objects ← GenerateOutputObjectIds (GetWorkerCount "pipeline-2") "pipeline-2" kIntermediateResultsExportFormat;
    pipeline2 ← GeneratePipeline "pipeline-2" "left_import" export_operator plan kIntermediateResultsExportFormat input_objects output_objects;
    Ok (mkPipelineData output_objects (Some pipeline2) [0; 1; 2; 3]%N).

(** Suppliers with lineitems. *)
Definition Q5Pipeline3_plan (supplier_column_indices lineitem_column_indices : list ColumnId) : result (N * Plan A) :=
  '(supplier_import_operator, plan) ← import_proxy "left_import" supplier_column_indices ∅;
  '(lineitem_import_operator, plan) ← import_proxy "right_import" lineitem_column_indices plan;
  '(join_operator, plan) ← join_proxy (GetJoinAlgorithmForPipeline "pipeline-3") 1 1 supplier_import_operator lineitem_import_operator plan;
  let expressions := [
    PqpColumn_ 0 kString "n_name"; PqpColumn_ 3 kInt "l_orderkey"; PqpColumn_ 5 kFloat "l_extendedprice";
    PqpColumn_ 6 kFloat "l_discount"; PqpColumn_ 2 kInt "n_nationkey"] in
  '(projection_operator, plan) ← projection_proxy expressions join_operator plan;
  partitioned_export "pipeline-5" [1]%N (is_sort_merge "pipeline-5") projection_operator plan.

Definition GenerateQ5Pipeline3 (supplier_input_objects lineitem_input_objects : list ObjectReference)
    (supplier_column_indices lineitem_column_indices : list ColumnId) : result PipelineData :=
  '(export_operator, plan) ← Q5Pipeline3_plan supplier_column_indices lineitem_column_indices;
  output_objects ← GenerateOutputObjectIds (GetWorkerCount "pipeline-3") "pipeline-3" kIntermediateResultsExportFormat;
  pipeline3 ← GenerateJoinPipeline "pipeline-3" export_operator plan (broadcast_input "pipeline-3" "left_import" supplier_input_objects)
    (probe_input "pipeline-3" "right_import" lineitem_input_objects) output_objects;
  Ok (mkPipelineData output_objects (Some pipeline3) [0; 1; 2; 3; 4]%N).

(** Scan of orders. *)
Definition Q5Pipeline4_plan : result (N * Plan A) :=
  '(import_operator, plan) ← import_proxy "left_import" [0; 1; 4]%N ∅;
  predicate1 ← make_Between kBetweenUpperExclusive (PqpColumn_ 2 kString "l_orderdate") (String_ "1994-01-01") (String_ (next_year "1994-01-01"));
  '(filter_operator1, plan) ← filter_proxy predicate1 import_operator plan;
  '(projection_operator, plan) ← projection_proxy [PqpColumn_ 0 kInt "o_orderkey"; PqpColumn_ 1 kInt "o_custkey"] filter_operator1 plan;
  partitioned_export "pipeline-5" [0]%N (is_sort_merge "pipeline-5") projection_operator plan.

Definition GenerateQ5Pipeline4 (input_objects : list ObjectReference) : result PipelineData :=
  '(export_operator, plan) ← Q5Pipeline4_plan;
  output_objects ← GenerateOutputObjectIds (GetWorkerCount "pipeline-4") "pipeline-4" kIntermediateResultsExportFormat;
  pipeline4 ← GeneratePipeline "pipeline-4" "left_import" export_operator plan kIntermediateResultsExportFormat input_objects output_objects;
  Ok (mkPipelineData output_objects (Some pipeline4) [0; 1]%N).

(** Orders with lineitems. *)
Definition Q5Pipeline5_plan : result (N * Plan A) :=
  '(orders_import_operator, plan) ← import_proxy "left_import" [0; 1]%N ∅;
  '(lineitem_import_operator, plan) ← import_proxy "right_import" [0; 1; 2; 3; 4]%N plan;
  '(join_operator, plan) ← join_proxy (GetJoinAlgorithmForPipeline "pipeline-5") 0 1 orders_import_operator lineitem_import_operator plan;
  let expressions := [
    PqpColumn_ 1 kInt "o_custkey"; PqpColumn_ 2 kString "n_name"; PqpColumn_ 4 kFloat "l_extendedprice";
    PqpColumn_ 5 kFloat "l_discount"; PqpColumn_ 6 kInt "s_nationkey"] in
  '(projection_operator, plan) ← projection_proxy expressions join_operator plan;
  partitioned_export "pipeline-7" [0]%N (is_sort_merge "pipeline-7") projection_operator plan.

Definition GenerateQ5Pipeline5 (orders_input_objects lineitem_input_objects : list ObjectReference) : result PipelineData :=
  '(export_operator, plan) ← Q5Pipeline5_plan;
  output_objects ← GenerateOutputObjectIds (GetWorkerCount "pipeline-5") "pipeline-5" kIntermediateResultsExportFormat;
  pipeline5 ← GenerateJoinPipeline "pipeline-5" export_operator plan (broadcast_input "pipeline-5" "left_import" orders_input_objects)
    (probe_input "pipeline-5" "right_import" lineitem_input_objects) output_objects;
  Ok (mkPipelineData output_objects (Some pipeline5) [0; 1; 2; 3; 4]%N).

(** Scan of customers; never sorted. *)
Definition Q5Pipeline6_plan : result (N * Plan A) :=
  '(import_operator, plan) ← import_proxy "left_import" [0; 3]%N ∅;
  partitioned_export "pipeline-7" [0]%N false import_operator plan.

Definition GenerateQ5Pipeline6 (input_objects : list ObjectReference) : result PipelineData :=
  if is_broadcast "pipeline-7" then Ok (mkPipelineData input_objects None [0; 3]%N)
  else
    '(export_operator, plan) ← Q5Pipeline6_plan;
    output_objects ← GenerateOutputObjectIds (GetWorkerCount "pipeline-6") "pipeline-6" kIntermediateResultsExportFormat;
    pipeline6 ← GeneratePipeline "pipeline-6" "left_import" export_operator plan kIntermediateResultsExportFormat input_objects output_objects;
    Ok (mkPipelineData output_objects (Some pipeline6) [0; 1]%N).

(** Customers with lineitems, and the sums of every worker. *)
Definition Q5Pipeline7_plan (customer_column_indices lineitem_column_indices : list ColumnId) : result (N * Plan A) :=
  '(customers_import_operator, plan) ← import_proxy "left_import" customer_column_indices ∅;
  '(lineitem_import_operator, plan) ← import_proxy "right_import" lineitem_column_indices plan;
  '(join_operator, plan) ← join_proxy (GetJoinAlgorithmForPipeline "pipeline-7") 0 0 customers_import_operator lineitem_import_operator plan;
  let predicate1 := BinaryPredicate kEquals (PqpColumn_ 1 kInt "c_nationkey") (PqpColumn_ 6 kInt "s_nationkey") in
  '(nation_filter_operator1, plan) ← filter_proxy predicate1 join_operator plan;
  '(projection_operator, plan) ← projection_proxy [PqpColumn_ 3 kString "n_name"; discounted 4 5] nation_filter_operator1 plan;
  '(aggregate_operator, plan) ← aggregate_proxy [0]%N [Sum_ (PqpColumn_ 1 kFloat "revenue")] projection_operator plan;
  export_proxy kIntermediateResultsExportFormat false aggregate_operator plan.

Definition GenerateQ5Pipeline7 (customer_input_objects lineitem_input_objects : list ObjectReference)
    (customer_column_indices lineitem_column_indices : list ColumnId) : result PipelineData :=
  '(export_operator, plan) ← Q5Pipeline7_plan customer_column_indices lineitem_column_indices;
  output_objects ← GenerateOutputObjectIds (GetWorkerCount "pipeline-7") "pipeline-7" kIntermediateResultsExportFormat;
  pipeline7 ← GenerateJoinPipeline "pipeline-7" export_operator plan (broadcast_input "pipeline-7" "left_import" customer_input_objects)
    (probe_input "pipeline-7" "right_import" lineitem_input_objects) output_objects;
  Ok (mkPipelineData output_objects (Some pipeline7) [0; 1]%N).

Definition Q5Pipeline8_plan : result (N * Plan A) :=
  '(import_operator_left, plan) ← import_proxy "left_import" [0; 1]%N ∅;
  '(aggregate_operator, plan) ← aggregate_proxy [0]%N [Sum_ (PqpColumn_ 1 kDouble "revenue")] import_operator_left plan;
  '(sort_operator, plan) ← sort_proxy [mkSortColumnDefinition 1%N kDescending] aggregate_operator plan;
  export_proxy kFinalResultsExportFormat false sort_operator plan.

Definition GenerateQ5Pipeline8 (input_objects : list ObjectReference) : result PipelineData :=
  '(export_operator, plan) ← Q5Pipeline8_plan;
  output_objects ← GenerateOutputObjectIds 1 "pipeline-8" kFinalResultsExportFormat;
  pipeline8 ← GeneratePipeline "pipeline-8" "left_import" export_operator plan kFinalResultsExportFormat input_objects output_objects;
  Ok (mkPipelineData output_objects (Some pipeline8) [0; 1]%N).

(** ** Query 6 *)
Definition Q6Pipeline1_plan : result (N * Plan A) :=
  '(import_operator, plan) ← import_proxy "import" [4; 5; 6; 10]%N ∅;
  predicate1 ← make_Between kBetweenUpperExclusive (PqpColumn_ 3 kString "l_shipdate") (String_ "1994-01-01") (String_ (next_year "1994-01-01"));
  '(filter_operator1, plan) ← filter_proxy predicate1 import_operator plan;
  predicate2 ← make_Between kBetweenInclusive (l_discount 2)
    (Value_ (VFloat (SFsub 24 128 float_006 float_001))) (Value_ (VFloat (SFadd 24 128 float_006 float_001)));
  '(filter_operator2, plan) ← filter_proxy predicate2 filter_operator1 plan;
  let predicate3 := BinaryPredicate kLessThan (PqpColumn_ 0 kFloat "l_quantity") (Int_ 24) in
  '(filter_operator3, plan) ← filter_proxy predicate3 filter_operator2 plan;
  '(projection_operator, plan) ← projection_proxy [Mul_ (l_extendedprice 1) (l_discount 2)] filter_operator3 plan;
  '(aggregate_operator, plan) ← aggregate_proxy [] [Sum_ (PqpColumn_ 0 kFloat "revenue")] projection_operator plan;
  export_proxy kIntermediateResultsExportFormat false aggregate_operator plan.

Definition GenerateQ6Pipeline1 (input_objects : list ObjectReference) : result (list ObjectReference * GeneratedPipeline) :=
  '(export_operator, plan) ← Q6Pipeline1_plan;
  output_objects ← GenerateOutputObjectIds (GetWorkerCount "pipeline-1") "pipeline-1" kIntermediateResultsExportFormat;
  pipeline ← GeneratePipeline "pipeline-1" "import" export_operator plan kIntermediateResultsExportFormat input_objects output_objects;
  Ok (output_objects, pipeline).

Definition Q6Pipeline2_plan : result (N * Plan A) :=
  '(import_operator, plan) ← import_proxy "import" [0]%N ∅;
  '(aggregate_operator, plan) ← aggregate_proxy [] [Sum_ (PqpColumn_ 0 kDouble "revenue")] import_operator plan;
  '(alias_operator, plan) ← alias_proxy [0]%N ["revenue"] aggregate_operator plan;
  export_proxy kCsv false alias_operator plan.

Definition GenerateQ6Pipeline2 (input_objects : list ObjectReference) : result (list ObjectReference * GeneratedPipeline) :=
  '(export_operator, plan) ← Q6Pipeline2_plan;
  output_objects ← GenerateOutputObjectIds 1 "pipeline-2" kCsv;
  pipeline ← GeneratePipeline "pipeline-2" "import" export_operator plan kCsv input_objects output_objects;
  Ok (output_objects, pipeline).

(** ** Query 12 *)
(** Scan of lineitems. *)
Definition Q12Pipeline1_plan : result (N * Plan A) :=
  '(import_operator, plan) ← import_proxy "left_import" [0; 10; 11; 12; 14]%N ∅;
  predicate1 ← make_Between kBetweenUpperExclusive (PqpColumn_ 3 kString "l_receiptdate") (String_ "1994-01-01") (String_ "1995-01-01");
  '(filter_operator1, plan) ← filter_proxy predicate1 import_operator plan;
  let predicate2 := InExpr kIn (PqpColumn_ 4 kString "l_shipmode") (List_ [String_ "MAIL"; String_ "SHIP"]) in
  '(filter_operator2, plan) ← filter_proxy predicate2 filter_operator1 plan;
  let predicate3 := BinaryPredicate kLessThan (PqpColumn_ 1 kString "l_shipdate") (PqpColumn_ 2 kString "l_commitdate") in
  '(filter_operator3, plan) ← filter_proxy predicate3 filter_operator2 plan;
  let predicate4 := BinaryPredicate kLessThan (PqpColumn_ 2 kString "l_commitdate") (PqpColumn_ 3 kString "l_receiptdate") in
  '(filter_operator4, plan) ← filter_proxy predicate4 filter_operator3 plan;
  '(projection_operator, plan) ← projection_proxy [PqpColumn_ 0 kInt "l_orderkey"; PqpColumn_ 4 kString "l_shipmode"] filter_operator4 plan;
  partitioned_export "pipeline-3" [0]%N (is_sort_merge "pipeline-3") projection_operator plan.

Definition GenerateQ12Pipeline1 (input_objects : list ObjectReference) : result PipelineData :=
  '(export_operator, plan) ← Q12Pipeline1_plan;
  output_objects ← GenerateOutputObjectIds (GetWorkerCount "pipeline-1") "pipeline-1" kIntermediateResultsExportFormat;
  pipeline1 ← GeneratePipeline "pipeline-1" "left_import" export_operator plan kIntermediateResultsExportFormat input_objects output_objects;
  Ok (mkPipelineData output_objects (Some pipeline1) [0; 1]%N).

(** Scan of orders; the export does not depend on the algorithm. *)
Definition Q12Pipeline2_plan : result (N * Plan A) :=
  '(import_operator, plan) ← import_proxy "left_import" [0; 5]%N ∅;
  '(partition_operator, plan) ← unary_proxy (PartitionOperatorProxy (mkPartitioningFunction [0]%N (GetWorkerCount "pipeline-3")) (is_sort_merge "pipeline-3"))
    import_operator plan;
  export_proxy kIntermediateResultsExportFormat false partition_operator plan.

Definition GenerateQ12Pipeline2 (input_objects : list ObjectReference) : result PipelineData :=
  if is_broadcast "pipeline-3" then Ok (mkPipelineData input_objects None [0; 5]%N)
  else
    '(export_operator, plan) ← Q12Pipeline2_plan;
    output_objects ← GenerateOutputObjectIds (GetWorkerCount "pipeline-2") "pipeline-2" kIntermediateResultsExportFormat;
    pipeline2 ← GeneratePipeline "pipeline-2" "left_import" export_operator plan kIntermediateResultsExportFormat input_objects output_objects;
    Ok (mkPipelineData output_objects (Some pipeline2) [0; 1]%N).

(** Lineitems with orders; here the left input is the one that is dealt out. *)
Definition o_orderpriority : expr := PqpColumn_ 3 kString "o_orderpriority".

Definition Q12Pipeline3_plan (left_column_indices right_column_indices : list ColumnId) : result (N * Plan A) :=
  '(import_operator_left, plan) ← import_proxy "left_import" left_column_indices ∅;
  '(import_operator_right, plan) ← import_proxy "right_import" right_column_indices plan;
  '(join_operator, plan) ← join_proxy (GetJoinAlgorithmForPipeline "pipeline-3") 0 0 import_operator_left import_operator_right plan;
  let expressions := [
    PqpColumn_ 1 kString "l_shipmode";
    Case_ (Or_ (Equals_ o_orderpriority (String_ "1-URGENT")) (Equals_ o_orderpriority (String_ "2-HIGH"))) (Int_ 1) (Int_ 0);
    Case_ (And_ (NotEquals_ o_orderpriority (String_ "1-URGENT")) (NotEquals_ o_orderpriority (String_ "2-HIGH"))) (Int_ 1) (Int_ 0)] in
  '(projection_operator, plan) ← projection_proxy expressions join_operator plan;
  '(aggregate_operator, plan) ← aggregate_proxy [0]%N [Sum_ (PqpColumn_ 1 kInt "high_line_count"); Sum_ (PqpColumn_ 2 kInt "low_line_count")]
    projection_operator plan;
  export_proxy kIntermediateResultsExportFormat false aggregate_operator plan.

Definition GenerateQ12Pipeline3 (input_objects_left input_objects_right : list ObjectReference)
    (left_column_indices right_column_indices : list ColumnId) : result PipelineData :=
  '(export_operator, plan) ← Q12Pipeline3_plan left_column_indices right_column_indices;
  output_objects ← GenerateOutputObjectIds (GetWorkerCount "pipeline-3") "pipeline-3" kIntermediateResultsExportFormat;
  pipeline3 ← GenerateJoinPipeline "pipeline-3" export_operator plan (probe_input "pipeline-3" "left_import" input_objects_left)
    (broadcast_input "pipeline-3" "right_import" input_objects_right) output_objects;
  Ok (mkPipelineData output_objects (Some pipeline3) [0; 1; 2]%N).

Definition Q12Pipeline4_plan (column_indices : list ColumnId) : result (N * Plan A) :=
  '(import_operator, plan) ← import_proxy "left_import" column_indices ∅;
  '(aggregate_operator, plan) ← aggregate_proxy [0]%N [Sum_ (PqpColumn_ 1 kLong "high_line_count"); Sum_ (PqpColumn_ 2 kLong "low_line_count")]
    import_operator plan;
  '(sort_operator, plan) ← sort_proxy [mkSortColumnDefinition 0%N kAscending] aggregate_operator plan;
  '(alias_operator, plan) ← alias_proxy [0; 1; 2]%N ["l_shipmode"; "high_line_count"; "low_line_count"] sort_operator plan;
  export_proxy kIntermediateResultsExportFormat false alias_operator plan.

Definition GenerateQ12Pipeline4 (input_objects : list ObjectReference) (column_indices : list ColumnId) : result PipelineData :=
  '(export_operator, plan) ← Q12Pipeline4_plan column_indices;
  output_objects ← GenerateOutputObjectIds 1 "pipeline-4" kCsv;
  pipeline4 ← GeneratePipeline "pipeline-4" "left_import" export_operator plan kCsv input_objects output_objects;
  Ok (mkPipelineData output_objects (Some pipeline4) [0; 1; 2]%N).

(** ** The queries *)
(** [SetAsPredecessorOf] of two pipelines that may be missing, and [FilterNonEmptyPipelines];
    the links of a pipeline are set in place. *)
Definition link_pipelines (edges : list (option GeneratedPipeline * option GeneratedPipeline)) (pipelines : list GeneratedPipeline)
    : list GeneratedPipeline :=
  let identity g := PipelineScheduler.Identity (gp_pipeline g) in
  let linked := foldl (λ m edge,
    match edge with
    | (Some predecessor, Some successor) => PipelineScheduler.SetAsPredecessorOf (identity predecessor) (identity successor) m
    | _ => m
    end) (list_to_map ((λ g, (identity g, gp_pipeline g)) <$> pipelines) : gmap string PipelineScheduler.PqpPipeline) edges in
  (λ g, mkGeneratedPipeline (from_option id (gp_pipeline g) (linked !! identity g)) (gp_plan g) (gp_template g)) <$> pipelines.

Definition FilterNonEmptyPipelines (pipelines : list (option GeneratedPipeline)) : list GeneratedPipeline := omap id pipelines.

Definition GenerateQ1 : result (list GeneratedPipeline) :=
  lineitem ← ListTableObjects "lineitem" kParquet;
  pipeline1 ← GenerateQ1Pipeline1 lineitem;
  pipeline2 ← GenerateQ1Pipeline2 pipeline1.1;
  Ok (link_pipelines [(Some pipeline1.2, Some pipeline2.2)] [pipeline1.2; pipeline2.2]).

Definition GenerateQ3 : result (list GeneratedPipeline) :=
  orders ← ListTableObjects "orders" kParquet;
  pipeline1 ← GenerateQ3Pipeline1 orders;
  customer ← ListTableObjects "customer" kParquet;
  pipeline2 ← GenerateQ3Pipeline2 customer;
  lineitem ← ListTableObjects "lineitem" kParquet;
  pipeline3 ← GenerateQ3Pipeline3 lineitem;
  pipeline4 ← GenerateQ3Pipeline4 pipeline2.1 pipeline1.1;
  pipeline5 ← GenerateQ3Pipeline5 pipeline4.1 pipeline3.1;
  pipeline6 ← GenerateQ3Pipeline6 pipeline5.1;
  Ok (link_pipelines
    [(Some pipeline1.2, Some pipeline4.2); (Some pipeline2.2, Some pipeline4.2); (Some pipeline4.2, Some pipeline5.2);
     (Some pipeline3.2, Some pipeline5.2); (Some pipeline5.2, Some pipeline6.2)]
    [pipeline1.2; pipeline2.2; pipeline3.2; pipeline4.2; pipeline5.2; pipeline6.2]).

Definition GenerateQ5 : result (list GeneratedPipeline) :=
  region ← ListTableObjects "region" kParquet;
  nation ← ListTableObjects "nation" kParquet;
  supplier ← ListTableObjects "supplier" kParquet;
  pipeline1 ← GenerateQ5Pipeline1 region nation supplier;
  lineitem ← ListTableObjects "lineitem" kParquet;
  pipeline2 ← GenerateQ5Pipeline2 lineitem;
  pipeline3 ← GenerateQ5Pipeline3 (output_objects pipeline1) (output_objects pipeline2)
    (columns_to_read_in_successor pipeline1) (columns_to_read_in_successor pipeline2);
  orders ← ListTableObjects "orders" kParquet;
  pipeline4 ← GenerateQ5Pipeline4 orders;
  pipeline5 ← GenerateQ5Pipeline5 (output_objects pipeline4) (output_objects pipeline3);
  customer ← ListTableObjects "customer" kParquet;
  pipeline6 ← GenerateQ5Pipeline6 customer;
  pipeline7 ← GenerateQ5Pipeline7 (output_objects pipeline6) (output_objects pipeline5)
    (columns_to_read_in_successor pipeline6) (columns_to_read_in_successor pipeline5);
  pipeline8 ← GenerateQ5Pipeline8 (output_objects pipeline7);
  Ok (link_pipelines
    [(pqp_pipeline pipeline1, pqp_pipeline pipeline3); (pqp_pipeline pipeline2, pqp_pipeline pipeline3);
     (pqp_pipeline pipeline4, pqp_pipeline pipeline5); (pqp_pipeline pipeline3, pqp_pipeline pipeline5);
     (pqp_pipeline pipeline5, pqp_pipeline pipeline7); (pqp_pipeline pipeline6, pqp_pipeline pipeline7);
     (pqp_pipeline pipeline7, pqp_pipeline pipeline8)]
    (FilterNonEmptyPipelines (pqp_pipeline <$> [pipeline1; pipeline2; pipeline3; pipeline4; pipeline5; pipeline6; pipeline7; pipeline8]))).

Definition GenerateQ6 : result (list GeneratedPipeline) :=
  lineitem ← ListTableObjects "lineitem" kParquet;
  pipeline1 ← GenerateQ6Pipeline1 lineitem;
  pipeline2 ← GenerateQ6Pipeline2 pipeline1.1;
  Ok (link_pipelines [(Some pipeline1.2, Some pipeline2.2)] [pipeline1.2; pipeline2.2]).

Definition GenerateQ12 : result (list GeneratedPipeline) :=
  lineitem ← ListTableObjects "lineitem" kParquet;
  pipeline1_data ← GenerateQ12Pipeline1 lineitem;
  orders ← ListTableObjects "orders" kParquet;
  pipeline2_data ← GenerateQ12Pipeline2 orders;
  pipeline3_data ← GenerateQ12Pipeline3 (output_objects pipeline1_data) (output_objects pipeline2_data)
    (columns_to_read_in_successor pipeline1_data) (columns_to_read_in_successor pipeline2_data);
  pipeline4_data ← GenerateQ12Pipeline4 (output_objects pipeline3_data) (columns_to_read_in_successor pipeline3_data);
  Ok (link_pipelines
    [(pqp_pipeline pipeline1_data, pqp_pipeline pipeline3_data); (pqp_pipeline pipeline2_data, pqp_pipeline pipeline3_data);
     (pqp_pipeline pipeline3_data, pqp_pipeline pipeline4_data)]
    (FilterNonEmptyPipelines (pqp_pipeline <$> [pipeline1_data; pipeline2_data; pipeline3_data; pipeline4_data]))).

Definition GeneratePqp (query_id_ : QueryId) : result (list GeneratedPipeline) :=
  match query_id_ with
  | kTpchQ1 => GenerateQ1
  | kTpchQ3 => GenerateQ3
  | kTpchQ5 => GenerateQ5
  | kTpchQ6 => GenerateQ6
  | kTpchQ12 => GenerateQ12
  | _ => Err AssertionFailed
  end.
End Generator.
