(* ===== verification/TpchPlans.v ===== *)
(** * The plans of the TPC-H queries are executable

    Every plan of [TpchGenerator] passes [plan_check], whatever the worker counts
    and join algorithms of the query configuration are. *)

From S2P Require Export PipelineFragments TpchGenerator.

(** ** A decidable criterion for executable plans

    A plan whose nodes are allocated after their inputs, as the generators build them, can be
    made into a template and into fragments if a look at every node finds nothing missing. *)

Local Open Scope string_scope.

Section Criterion.
Context {A : Type}.
Abbreviation plan_nodes root := (N.of_nat <$> seq 0 (S (N.to_nat root))).

Definition is_leaf (x : Proxy A N) : bool := bool_decide (inputs x = []).

(** The inputs were allocated earlier, they suit the operator, which can be copied, and a node
    without inputs is an import with an identity. *)
Definition node_ok (p : N) (x : Proxy A N) : bool :=
  forallb (λ q, (q <? p)%N) (inputs x) &&
  (bool_decide (LeftInput x ≠ None) || bool_decide (RightInput x = None)) &&
  bool_decide (copied_left (proxy_operator x) (LeftInput x) = LeftInput x) &&
  bool_decide (copied_right (proxy_operator x) (RightInput x) = RightInput x) &&
  is_ok (OnDeepCopy (proxy_operator x)) &&
  (negb (is_leaf x) || bool_decide (Type_ (proxy_operator x) = oImport)).

Definition node_at (plan : Plan A) (p : N) : option (Proxy A N) := plan !! p.

Definition leaf_identity (plan : Plan A) (p : N) : option string :=
  node_at plan p ≫= λ x, if is_leaf x then Some (identity_ x) else None.

(** All addresses up to that of the root are in use, for inputs of other nodes or the root. *)
Definition plan_check (plan : Plan A) (root : N) (ids : list string) : bool :=
  bool_decide (size plan = S (N.to_nat root)) &&
  forallb (λ p, from_option (node_ok p) false (node_at plan p)) (plan_nodes root) &&
  forallb (λ p, bool_decide (p = root) ||
    existsb (λ q, from_option (λ x, bool_decide (p ∈ inputs x)) false (node_at plan q)) (plan_nodes root)) (plan_nodes root) &&
  from_option (λ x, bool_decide (Type_ (proxy_operator x) = oExport)) false (node_at plan root) &&
  bool_decide (omap (leaf_identity plan) (plan_nodes root) = ids) &&
  bool_decide (NoDup ids ∧ EmptyString ∉ ids).

(** ** Soundness *)
Lemma elem_of_plan_nodes p root : p ∈ plan_nodes root ↔ (p <= root)%N.
Proof.
  rewrite list_elem_of_fmap. split.
  - intros (n & -> & Hn). apply elem_of_seq in Hn. lia.
  - intros Hp. exists (N.to_nat p). rewrite elem_of_seq. lia.
Qed.

Lemma forallb_elem_of {B} (f : B → bool) l x : forallb f l = true → x ∈ l → f x = true.
Proof. rewrite forallb_forall. intros Hf Hx%list_elem_of_In. by apply Hf. Qed.

Section Sound.
Variables (plan : Plan A) (root : N) (ids : list string).
Hypothesis Hcheck : plan_check plan root ids = true.

Lemma plan_check_inv :
  size plan = S (N.to_nat root) ∧
  (∀ p, (p <= root)%N → ∃ x, plan !! p = Some x ∧ node_ok p x = true) ∧
  (∀ p, (p <= root)%N → p ≠ root → ∃ q x, (q <= root)%N ∧ plan !! q = Some x ∧ p ∈ inputs x) ∧
  (∃ x, plan !! root = Some x ∧ Type_ (proxy_operator x) = oExport) ∧
  omap (leaf_identity plan) (plan_nodes root) = ids ∧ NoDup ids ∧ EmptyString ∉ ids.
Proof.
  unfold plan_check in Hcheck. apply andb_prop in Hcheck as [[[[[Hs Hn]%andb_prop Hr]%andb_prop Ht]%andb_prop Hi]%andb_prop Hd].
  rewrite bool_decide_eq_true in Hs, Hi, Hd. unfold node_at in *. split_and!; [done| | | |done|apply Hd|apply Hd].
  - intros p Hp%elem_of_plan_nodes. pose proof (forallb_elem_of _ _ _ Hn Hp) as H. cbn beta in H.
    destruct (plan !! p) as [x|]; [by exists x|done].
  - intros p Hp%elem_of_plan_nodes Hne. pose proof (forallb_elem_of _ _ _ Hr Hp) as H. cbn beta in H.
    apply orb_prop in H as [H|(q & Hq & H)%existsb_exists]; [by apply bool_decide_eq_true in H|].
    apply list_elem_of_In, elem_of_plan_nodes in Hq. destruct (plan !! q) as [x|] eqn:Hx; [|done].
    exists q, x. by apply bool_decide_eq_true in H.
  - destruct (plan !! root) as [x|]; [|done]. exists x. by apply bool_decide_eq_true in Ht.
Qed.

Lemma node_ok_inv p x : node_ok p x = true →
  (∀ q, q ∈ inputs x → (q < p)%N) ∧ (LeftInput x = None → RightInput x = None) ∧
  copied_left (proxy_operator x) (LeftInput x) = LeftInput x ∧ copied_right (proxy_operator x) (RightInput x) = RightInput x ∧
  is_ok (OnDeepCopy (proxy_operator x)) = true ∧ (inputs x = [] → Type_ (proxy_operator x) = oImport).
Proof.
  unfold node_ok. intros [[[[[Hq Hl]%andb_prop Hcl]%andb_prop Hcr]%andb_prop Hc]%andb_prop Ht]%andb_prop.
  rewrite bool_decide_eq_true in Hcl, Hcr. split_and!; [| |done..|].
  - intros q Hin. apply N.ltb_lt. by apply (forallb_elem_of _ _ _ Hq).
  - intros Hnone. apply orb_prop in Hl as [Hl|Hl]; by apply bool_decide_eq_true in Hl.
  - unfold is_leaf in Ht. intros Hnil. apply orb_prop in Ht as [Ht|Ht]; [|by apply bool_decide_eq_true in Ht].
    by apply negb_true_iff, bool_decide_eq_false in Ht.
Qed.

Lemma check_reachable p : plan_reachable plan root p ↔ (p <= root)%N.
Proof.
  destruct plan_check_inv as (_ & Hn & Hr & _). split.
  - induction 1 as [|p x q _ IH Hx Hq]; [lia|]. destruct (Hn p IH) as (y & Hy & Hok). simplify_eq.
    apply node_ok_inv in Hok as [Hlt _]. specialize (Hlt q Hq). lia.
  - remember (N.to_nat root - N.to_nat p)%nat as n eqn:Hd. revert p Hd. induction (lt_wf n) as [n _ IH]. intros p -> Hp.
    destruct (decide (p = root)) as [->|Hne]; [constructor|]. destruct (Hr p Hp Hne) as (q & x & Hq & Hx & Hin).
    eapply plan_reachable_input; [|done|done]. eapply IH; [|done|done].
    destruct (Hn q Hq) as (y & Hy & Hok). simplify_eq. apply node_ok_inv in Hok as [Hlt _]. specialize (Hlt p Hin). lia.
Qed.

Lemma check_node p x : plan_reachable plan root p → plan !! p = Some x → node_ok p x = true.
Proof.
  intros Hp%check_reachable Hx. destruct plan_check_inv as (_ & Hn & _). destruct (Hn p Hp) as (y & Hy & Hok). by simplify_eq.
Qed.

Lemma check_ready : ready plan root (S (size plan)).
Proof.
  destruct plan_check_inv as (Hs & Hn & _ & Ht & _). split.
  - split.
    + intros p Hp%check_reachable. destruct (Hn p Hp) as (x & Hx & _). by exists x.
    + intros p x Hp Hx. apply (node_ok_inv p x). by apply check_node.
    + intros p x Hp Hx. pose proof (node_ok_inv p x (check_node p x Hp Hx)). tauto.
  - exists N.to_nat. split; [|lia]. intros p x q Hp Hx Hq. destruct (node_ok_inv p x (check_node p x Hp Hx)) as [Hlt _].
    specialize (Hlt q Hq). lia.
  - intros p x Hp Hx. pose proof (node_ok_inv p x (check_node p x Hp Hx)). tauto.
  - split; [done|]. intros p x Hp Hx. pose proof (node_ok_inv p x (check_node p x Hp Hx)). tauto.
Qed.

Lemma omap_unique {B C} (f : B → option C) l a b c :
  NoDup (omap f l) → a ∈ l → b ∈ l → f a = Some c → f b = Some c → a = b.
Proof.
  induction l as [|x l IH]; intros Hnd Ha Hb Hfa Hfb; [by apply elem_of_nil in Ha|]. cbn in Hnd.
  apply elem_of_cons in Ha as [->|Ha], Hb as [->|Hb]; [done| | |].
  - rewrite Hfa in Hnd. apply NoDup_cons in Hnd as [Hc _]. destruct Hc. apply list_elem_of_omap. by exists b.
  - rewrite Hfb in Hnd. apply NoDup_cons in Hnd as [Hc _]. destruct Hc. apply list_elem_of_omap. by exists a.
  - apply IH; [|done..]. destruct (f x); [|done]. by apply NoDup_cons in Hnd as [_ Hnd].
Qed.

(** ** Pipelines *)
Variables (address_text : N → string) (allocate : gset N → N).
Hypothesis Hallocate : ∀ s, allocate s ∉ s.
Variable prefix : string.
Hypothesis Hprefix : prefix ≠ EmptyString.

Lemma check_leaf p : leaf plan root p ↔ ∃ x, plan !! p = Some x ∧ p ∈ plan_nodes root ∧ leaf_identity plan p = Some (identity_ x).
Proof.
  unfold leaf, leaf_identity, node_at, is_leaf. rewrite check_reachable; setoid_rewrite elem_of_plan_nodes. split.
  - intros (Hp & x & Hx & Hin). exists x. split_and!; [done..|]. rewrite Hx. cbn. by rewrite bool_decide_true.
  - intros (x & Hx & Hp & Hid). rewrite Hx in Hid. cbn in Hid. split; [done|]. exists x. split; [done|].
    case_bool_decide; done.
Qed.

(** The prefixed plan. *)
Definition prefixed_plan (plan' : Plan A) : Prop :=
  (∀ p, plan_reachable plan root p → plan' !! p = prefixed address_text prefix p <$> plan !! p) ∧
  (∀ p, ¬ plan_reachable plan root p → plan' !! p = plan !! p).

Lemma prefixed_reshaped plan' : prefixed_plan plan' → reshaped plan plan'.
Proof.
  intros [Hin Hout] p. destruct (decide (p <= root)%N) as [Hp|Hp]; rewrite <- check_reachable in Hp.
  - rewrite Hin by done. by destruct (plan !! p).
  - by rewrite Hout.
Qed.

Lemma prefixed_leaf plan' p x' :
  prefixed_plan plan' → leaf plan' root p → plan' !! p = Some x' →
  ∃ i, p ∈ plan_nodes root ∧ leaf_identity plan p = Some i ∧ Identity address_text p x' = prefix +:+ "-" +:+ i.
Proof.
  intros Hp' Hl Hx'. pose proof (prefixed_reshaped _ Hp') as Hr. apply (reshaped_leaf _ _ _ _ (reshaped_sym _ _ Hr)) in Hl.
  pose proof Hl as [Hreach _]. apply check_leaf in Hl as (x & Hx & Hin & Hid). exists (identity_ x). split_and!; [done..|].
  destruct Hp' as [Hpre _]. rewrite (Hpre p Hreach), Hx in Hx'. injection Hx' as <-.
  assert (identity_ x ≠ EmptyString) as Hne.
  { intros Heq. destruct plan_check_inv as (_ & _ & _ & _ & Hids & _ & Hempty). apply Hempty. rewrite <- Hids, <- Heq.
    apply list_elem_of_omap. by exists p. }
  assert (Identity address_text p x = identity_ x) as Hidx by (unfold Identity; by case_decide).
  unfold Identity at 1. cbn [identity_ prefixed]. rewrite Hidx. case_decide as He; [by destruct prefix|done].
Qed.

Lemma prefixed_ready plan' : prefixed_plan plan' → ready plan' root (S (size plan)).
Proof.
  intros Hp. pose proof (prefixed_reshaped _ Hp) as Hr. pose proof (reshaped_sym _ _ Hr) as Hr'.
  destruct check_ready as [Hwf (rank & Hrank & Hfuel) Hcopy [(x & Hx & Ht) Hshaped]]. split.
  - by eapply reshaped_well_formed.
  - exists rank. split; [by eapply reshaped_ranked|done].
  - intros p y Hreach%(reshaped_reachable _ _ _ _ Hr') Hy. destruct Hp as [Hin _]. rewrite (Hin p Hreach) in Hy.
    apply fmap_Some in Hy as (z & Hz & ->). exact (Hcopy p z Hreach Hz).
  - split.
    + destruct (reshaped_lookup _ _ _ _ Hr' Hx) as (y & Hy & Hs). exists y. split; [done|].
      injection Hs as Hty _ _. by rewrite Hty.
    + intros p y Hreach%(reshaped_reachable _ _ _ _ Hr') Hy Hnil. destruct (reshaped_lookup _ _ _ _ Hr Hy) as (z & Hz & Hs).
      pose proof (shape_inputs _ _ Hs) as Hi. injection Hs as Hty _ _. rewrite <- Hty.
      apply (Hshaped p); [done..|congruence].
Qed.

Lemma prefixed_defines plan' d :
  prefixed_plan plan' → etag (target_object d) = EmptyString →
  (∀ k, is_Some (identity_to_objects d !! k) ↔ k ∈ (λ i, prefix +:+ "-" +:+ i) <$> ids) →
  defines address_text plan' root d.
Proof.
  intros Hp Htag Hdom. destruct plan_check_inv as (_ & _ & _ & _ & Hids & Hnd & _). rewrite <- Hids in Hnd. split; [done| |].
  - intros p q x y Hlp Hlq Hx Hy Heq. destruct (prefixed_leaf _ _ _ Hp Hlp Hx) as (i & Hpn & Hpi & Hi).
    destruct (prefixed_leaf _ _ _ Hp Hlq Hy) as (j & Hqn & Hqj & Hj). rewrite Hi, Hj in Heq.
    apply (inj (String.append prefix)), (inj (String.append "-")) in Heq as ->. by eapply omap_unique.
  - intros k. rewrite Hdom, list_elem_of_fmap. split.
    + intros (i & -> & Hin). rewrite <- Hids in Hin. apply list_elem_of_omap in Hin as (p & Hpn & Hpi).
      assert (leaf plan root p) as Hl.
      { apply check_leaf. unfold leaf_identity, node_at in Hpi |- *. destruct (plan !! p) as [x|]; [|done]. exists x.
        cbn in Hpi |- *. by destruct (is_leaf x). }
      apply (reshaped_leaf _ _ _ _ (prefixed_reshaped _ Hp)) in Hl. pose proof Hl as [_ (x & Hx & _)].
      exists p, x. split_and!; [done..|]. destruct (prefixed_leaf _ _ _ Hp Hl Hx) as (j & _ & Hpj & ->). congruence.
    + intros (p & x & Hl & Hx & ->). destruct (prefixed_leaf _ _ _ Hp Hl Hx) as (i & Hpn & Hpi & ->). exists i.
      split; [done|]. rewrite <- Hids. apply list_elem_of_omap. by exists p.
Qed.

(** The constructor of a pipeline succeeds on such a plan, and so does every fragment whose
    definition names the imports. *)
Lemma make_PqpPipeline_spec :
  ∃ h r, make_PqpPipeline address_text allocate (S (size plan)) prefix plan root = Ok (h, r) ∧
    ∀ d, etag (target_object d) = EmptyString →
      (∀ k, is_Some (identity_to_objects d !! k) ↔ k ∈ (λ i, prefix +:+ "-" +:+ i) <$> ids) →
      ∃ h' r', GenerateFragmentPlan address_text allocate (S (size plan)) h r d = Ok (h', r').
Proof.
  destruct (PrefixOperatorProxyIdentities_spec plan root (ready_well_formed _ _ _ check_ready) address_text prefix Hprefix)
    as (plan' & Heq & Hp).
  destruct (make_PipelineFragmentTemplate_spec address_text allocate Hallocate plan' root _ (prefixed_ready _ Hp))
    as (h & r & m & Hmake & _ & Hready & Hdef).
  exists h, r. split.
  - unfold make_PqpPipeline. rewrite bool_decide_true by done. cbn [assert_ rbind]. rewrite Heq. cbn [rbind]. done.
  - intros d Htag Hdom.
    destruct (GenerateFragmentPlan_spec address_text allocate Hallocate h r _ d Hready (Hdef d (prefixed_defines _ d Hp Htag Hdom)))
      as (h' & r' & _ & Hgen & _). eauto.
Qed.
End Sound.
End Criterion.

(** ** The plans *)

Definition plan_ok {A} (plan : result (N * Plan A)) (ids : list string) : bool :=
  match plan with Ok (root, plan) => plan_check plan root ids | Err _ => false end.

Section Plans.
Context {J : Type} `{Json J} `{MagicEnum JoinAlgorithm} {A : Type}.
Variable query_configuration : J.

(** The operators and identities of a plan are the same for all worker counts; it is computed
    for every join algorithm. *)
Ltac check_plan :=
  unfold partitioned_export, partition_proxy, is_broadcast, is_sort_merge;
  repeat match goal with |- context [GetJoinAlgorithmForPipeline ?c ?p] => destruct (GetJoinAlgorithmForPipeline c p) end;
  repeat match goal with |- context [GetWorkerCount ?c ?p] => generalize (GetWorkerCount c p); intro end;
  vm_compute; reflexivity.

Lemma Q1Pipeline1_ok : plan_ok (Q1Pipeline1_plan (A:=A)) ["import"] = true.
Proof. unfold Q1Pipeline1_plan. check_plan. Qed.

Lemma Q1Pipeline2_ok : plan_ok (Q1Pipeline2_plan (A:=A)) ["import"] = true.
Proof. unfold Q1Pipeline2_plan. check_plan. Qed.

Lemma Q3Pipeline1_ok : plan_ok (Q3Pipeline1_plan (A:=A) query_configuration) ["left_import"] = true.
Proof. unfold Q3Pipeline1_plan. check_plan. Qed.

Lemma Q3Pipeline2_ok : plan_ok (Q3Pipeline2_plan (A:=A) query_configuration) ["left_import"] = true.
Proof. unfold Q3Pipeline2_plan. check_plan. Qed.

Lemma Q3Pipeline3_ok : plan_ok (Q3Pipeline3_plan (A:=A) query_configuration) ["left_import"] = true.
Proof. unfold Q3Pipeline3_plan. check_plan. Qed.

Lemma Q3Pipeline4_ok : plan_ok (Q3Pipeline4_plan (A:=A) query_configuration) ["left_import"; "right_import"] = true.
Proof. unfold Q3Pipeline4_plan. check_plan. Qed.

Lemma Q3Pipeline5_ok : plan_ok (Q3Pipeline5_plan (A:=A) query_configuration) ["left_import"; "right_import"] = true.
Proof. unfold Q3Pipeline5_plan. check_plan. Qed.

Lemma Q3Pipeline6_ok : plan_ok (Q3Pipeline6_plan (A:=A)) ["left_import"] = true.
Proof. unfold Q3Pipeline6_plan. check_plan. Qed.

Lemma Q5Pipeline1_ok : plan_ok (Q5Pipeline1_plan (A:=A) query_configuration) ["left_import"; "right_import"; "supplier_import"] = true.
Proof. unfold Q5Pipeline1_plan. check_plan. Qed.

Lemma Q5Pipeline2_ok : plan_ok (Q5Pipeline2_plan (A:=A) query_configuration) ["left_import"] = true.
Proof. unfold Q5Pipeline2_plan. check_plan. Qed.

(** The columns that pipelines read from their predecessors only must not be none. *)
Lemma Q5Pipeline3_ok c cs d ds :
  plan_ok (Q5Pipeline3_plan (A:=A) query_configuration (c :: cs) (d :: ds)) ["left_import"; "right_import"] = true.
Proof. unfold Q5Pipeline3_plan. check_plan. Qed.

Lemma Q5Pipeline4_ok : plan_ok (Q5Pipeline4_plan (A:=A) query_configuration) ["left_import"] = true.
Proof. unfold Q5Pipeline4_plan. check_plan. Qed.

Lemma Q5Pipeline5_ok : plan_ok (Q5Pipeline5_plan (A:=A) query_configuration) ["left_import"; "right_import"] = true.
Proof. unfold Q5Pipeline5_plan. check_plan. Qed.

Lemma Q5Pipeline6_ok : plan_ok (Q5Pipeline6_plan (A:=A) query_configuration) ["left_import"] = true.
Proof. unfold Q5Pipeline6_plan. check_plan. Qed.

Lemma Q5Pipeline7_ok c cs d ds :
  plan_ok (Q5Pipeline7_plan (A:=A) query_configuration (c :: cs) (d :: ds)) ["left_import"; "right_import"] = true.
Proof. unfold Q5Pipeline7_plan. check_plan. Qed.

Lemma Q5Pipeline8_ok : plan_ok (Q5Pipeline8_plan (A:=A)) ["left_import"] = true.
Proof. unfold Q5Pipeline8_plan. check_plan. Qed.

Lemma Q6Pipeline1_ok : plan_ok (Q6Pipeline1_plan (A:=A)) ["import"] = true.
Proof. unfold Q6Pipeline1_plan. check_plan. Qed.

Lemma Q6Pipeline2_ok : plan_ok (Q6Pipeline2_plan (A:=A)) ["import"] = true.
Proof. unfold Q6Pipeline2_plan. check_plan. Qed.

Lemma Q12Pipeline1_ok : plan_ok (Q12Pipeline1_plan (A:=A) query_configuration) ["left_import"] = true.
Proof. unfold Q12Pipeline1_plan. check_plan. Qed.

Lemma Q12Pipeline2_ok : plan_ok (Q12Pipeline2_plan (A:=A) query_configuration) ["left_import"] = true.
Proof. unfold Q12Pipeline2_plan. check_plan. Qed.

Lemma Q12Pipeline3_ok c cs d ds :
  plan_ok (Q12Pipeline3_plan (A:=A) query_configuration (c :: cs) (d :: ds)) ["left_import"; "right_import"] = true.
Proof. unfold Q12Pipeline3_plan. check_plan. Qed.

Lemma Q12Pipeline4_ok c cs : plan_ok (Q12Pipeline4_plan (A:=A) (c :: cs)) ["left_import"] = true.
Proof. unfold Q12Pipeline4_plan. check_plan. Qed.
End Plans.
