(* ===== verification/TpchPipelines.v ===== *)
(** * The pipelines of the TPC-H queries

    What the functions that build a pipeline return: the plan can be instantiated for every
    fragment, the fragments' objects are objects that the pipeline was given, and the targets
    are the new objects. *)

From S2P Require Export TpchPlans.
From S2P Require PipelineScheduler PipelineSchedulerCorrect.

Local Open Scope string_scope.

(** The same object, with or without partitions and ETag. *)
Definition same_object (o o' : ObjectReference) : Prop := bucket_name o = bucket_name o' ∧ identifier o = identifier o'.

(** ** Sharing out objects *)
Lemma deal_objects_spec id objects (maps : list InputMap) :
  (0 < length maps)%nat →
  ∃ maps', deal_objects id objects maps = Ok maps' ∧ length maps' = length maps ∧
    ∀ i, maps' !! i = (λ m, foldl (push_object id) m (dealt (length maps) i 0 objects)) <$> maps !! i.
Proof.
  intros Hlen. unfold deal_objects. rewrite bool_decide_false by (intros [-> _]; cbn in Hlen; lia).
  eexists. split; [done|]. split; [apply deal_length|]. intros i. exact (deal_lookup id objects maps 0 i _ eq_refl).
Qed.

Lemma dealt_elem n i k objects o : o ∈ dealt n i k objects → o ∈ objects.
Proof.
  revert k. induction objects as [|o' objects IH]; intros k; cbn; [done|]. case_decide.
  - intros [->|Hin]%elem_of_cons; [by left|right; eauto].
  - right. eauto.
Qed.

Lemma nonempty_some l : l ≠ [] → nonempty l = Some l.
Proof. by destruct l. Qed.

(** A fragment that gets an input reads some of its objects, and at least one. *)
Definition reads (ins l : list ObjectReference) : Prop := l ≠ [] ∧ Forall (λ o, ∃ o', o' ∈ ins ∧ same_object o o') l.

Lemma reads_sublist ins l : l ≠ [] → (∀ o, o ∈ l → o ∈ ins) → reads ins l.
Proof. intros Hne Hin. split; [done|]. apply Forall_forall. intros o Ho. exists o. by split; [apply Hin|]. Qed.

Lemma reads_mono ins ins' l : (∀ o, o ∈ ins → o ∈ ins') → reads ins l → reads ins' l.
Proof. intros Hin [Hne Hl]. split; [done|]. apply (Forall_impl _ _ _ Hl). intros o (o' & Ho & Hs). exists o'. auto. Qed.

Lemma share_reads n i input :
  valid_input n input → input_objects input ≠ [] → (i < n)%nat →
  ∃ l, share n i input = Some l ∧ reads (input_objects input) l.
Proof.
  unfold valid_input, share. intros Hvalid Hne Hi. destruct (input_share_type input).
  - exists (input_objects input). split; [by apply nonempty_some|by apply reads_sublist].
  - eexists. split; [done|]. split; [by destruct (input_objects input)|]. apply Forall_fmap, Forall_forall. intros o Ho. by exists o.
  - exists (dealt n i 0 (input_objects input)). pose proof (dealt_nonempty n i 0 _ Hi Hvalid).
    split; [by apply nonempty_some|]. apply reads_sublist; [done|]. intros o. apply dealt_elem.
Qed.

Section Pipelines.
Context {J : Type} `{Json J} `{MagicEnum JoinAlgorithm} {A : Type}.
Variables (address_text : N → string) (allocate : gset N → N).
Hypothesis Hallocate : ∀ s, allocate s ∉ s.
Variables (query_configuration : J) (shuffle_storage_ : ObjectReference) (RandomString : string → nat → string).
Hypothesis Hbucket : bucket_name shuffle_storage_ ≠ EmptyString.
Hypothesis Hcounts : ∀ p, (1 <= GetWorkerCount query_configuration p < 2 ^ 31)%Z.

Abbreviation workers p := (Z.to_nat (GetWorkerCount query_configuration p)).

(** ** The objects that a pipeline writes *)
Definition fresh_object (o : ObjectReference) : Prop := valid_reference o ∧ etag o = EmptyString.

Lemma GenerateOutputObjectIds_spec count prefix format :
  ∃ outs, GenerateOutputObjectIds shuffle_storage_ RandomString count prefix format = Ok outs ∧
    length outs = Z.to_nat count ∧ Forall fresh_object outs.
Proof.
  unfold GenerateOutputObjectIds. set (id i := (identifier shuffle_storage_ +:+ "/" +:+ prefix +:+ "/" +:+ RandomString prefix i +:+ GetFormatExtension format)%string).
  assert (∀ i, id i ≠ EmptyString) as Hid by (intros i; unfold id; by destruct (identifier shuffle_storage_)).
  rewrite (mapR_total _ (λ i, mkObjectReference (bucket_name shuffle_storage_) (id i) EmptyString None)).
  - eexists. split; [done|]. split; [by rewrite length_fmap, length_seq|]. apply Forall_fmap, Forall_forall. intros i _.
    exact (conj (conj Hbucket (Hid i)) eq_refl).
  - intros i _. unfold make_ObjectReference. rewrite bool_decide_true by done. cbn [assert_ rbind].
    rewrite bool_decide_true by apply Hid. done.
Qed.

Lemma workers_bounds p : (0 < workers p)%nat ∧ (Z.of_nat (workers p) < 2 ^ 31)%Z.
Proof. pose proof (Hcounts p). lia. Qed.

(** ** Pipelines *)
(** A fragment whose plan can be made, which reads objects of [ins] in every import. *)
Definition fragment_ok (ins : list ObjectReference) (g : GeneratedPipeline) (d : PipelineFragmentDefinition) : Prop :=
  (∀ k l, identity_to_objects d !! k = Some l → reads ins l) ∧
  ∃ fuel h r, GenerateFragmentPlan address_text allocate fuel (gp_plan (A:=A) g) (gp_template g) d = Ok (h, r).

Record generated (id : string) (ins outs : list ObjectReference) (g : GeneratedPipeline) : Prop := {
  gen_pipeline : gp_pipeline g = PipelineScheduler.mkPqpPipeline id (PipelineScheduler.FragmentDefinitions (gp_pipeline g)) [] [];
  gen_targets : target_object <$> PipelineScheduler.FragmentDefinitions (gp_pipeline g) = outs;
  gen_count : (0 < length outs)%nat ∧ (Z.of_nat (length outs) < 2 ^ 31)%Z;
  gen_fragments : Forall (fragment_ok ins g) (PipelineScheduler.FragmentDefinitions (gp_pipeline g)) }.

(** The definition gives every import of the plan some of the objects, and nothing else. *)
Definition definition_ok (id : string) (ids : list string) (ins : list ObjectReference) (d : PipelineFragmentDefinition) : Prop :=
  etag (target_object d) = EmptyString ∧
  (∀ k, k ∈ (λ i, id +:+ "-" +:+ i) <$> ids → ∃ l, identity_to_objects d !! k = Some l ∧ reads ins l) ∧
  ∀ k, k ∉ (λ i, id +:+ "-" +:+ i) <$> ids → identity_to_objects d !! k = None.

Lemma new_pipeline_spec id ids root (plan : Plan A) ins fragments ds :
  plan_ok (Ok (root, plan)) ids = true → id ≠ EmptyString → fragments = Ok ds → Forall (definition_ok id ids ins) ds →
  (0 < length ds)%nat ∧ (Z.of_nat (length ds) < 2 ^ 31)%Z →
  ∃ g, new_pipeline address_text allocate id root plan fragments = Ok g ∧ generated id ins (target_object <$> ds) g.
Proof.
  intros Hplan Hid -> Hds Hlen.
  destruct (make_PqpPipeline_spec plan root ids Hplan address_text allocate Hallocate id Hid) as (h & r & Hmake & Hgen).
  unfold new_pipeline. rewrite Hmake. cbn [rbind]. eexists. split; [reflexivity|]. split; cbn; [done..|by rewrite length_fmap|].
  apply (Forall_impl _ _ _ Hds). intros d (Htag & Hin & Hout).
  split.
  - intros k l Hk. destruct (decide (k ∈ (λ i, id +:+ "-" +:+ i) <$> ids)) as [Hd|Hd]; [|by rewrite Hout in Hk].
    destruct (Hin k Hd) as (l' & Hl' & Hr). congruence.
  - exists (S (size plan)). apply Hgen; [done|]. intros k.
    destruct (decide (k ∈ (λ i, id +:+ "-" +:+ i) <$> ids)) as [Hd|Hd].
    + destruct (Hin k Hd) as (l & Hl & _). rewrite Hl. by split.
    + rewrite Hout by done. split; [by intros []|done].
Qed.

Lemma GeneratePipeline_spec id import root (plan : Plan A) format ins outs :
  plan_ok (Ok (root, plan)) [import] = true → id ≠ EmptyString → Forall fresh_object outs →
  (0 < length outs)%nat → (length outs <= length ins)%nat → (Z.of_nat (length outs) < 2 ^ 31)%Z →
  ∃ g, GeneratePipeline address_text allocate id import root plan format ins outs = Ok g ∧ generated id ins outs g.
Proof.
  intros Hplan Hid Hfresh Hpos Hle Hmax. unfold GeneratePipeline. rewrite (proj2 (Nat.leb_le _ _)) by done. cbn [assert_ rbind].
  destruct (deal_objects_spec (id +:+ "-" +:+ import) ins (replicate (length outs) ∅)) as (maps & Hdeal & Hlen & Hmaps);
    [by rewrite length_replicate|].
  rewrite Hdeal. cbn [rbind]. rewrite length_replicate in Hlen, Hmaps.
  destruct (new_pipeline_spec id [import] root plan ins _ (zip_with (λ m o, mkPipelineFragmentDefinition m o format) maps outs) Hplan Hid eq_refl)
    as (g & Hg & Hgen).
  - apply Forall_lookup. intros i d Hd. apply lookup_zip_with_Some in Hd as (m & o & -> & Hm & Ho).
    rewrite Hmaps in Hm. apply fmap_Some in Hm as (m0 & Hm0 & ->). apply lookup_replicate in Hm0 as [-> Hi].
    rewrite Forall_lookup in Hfresh. destruct (Hfresh i o Ho) as [_ Htag]. split; [done|].
    pose proof (dealt_nonempty _ i 0 _ Hi Hle) as Hne. cbn [identity_to_objects]. split; intros k; rewrite nonempty_push by apply lookup_empty.
    + intros ->%list_elem_of_singleton. rewrite decide_True by done. exists (dealt (length outs) i 0 ins).
      split; [by apply nonempty_some|]. apply reads_sublist; [done|]. intros o'. apply dealt_elem.
    + intros Hk. rewrite decide_False by (intros ->; apply Hk; by left). apply lookup_empty.
  - rewrite length_zip_with. lia.
  - exists g. split; [done|]. by rewrite fmap_zip_with_r in Hgen by (cbn; done || lia).
Qed.

Lemma GenerateJoinPipeline_spec id i j root (plan : Plan A) left right outs :
  plan_ok (Ok (root, plan)) [i; j] = true → id ≠ EmptyString → i ≠ j →
  input_id left = id +:+ "-" +:+ i → input_id right = id +:+ "-" +:+ j →
  Forall (valid_input (workers id)) [left; right] → Forall (λ input, input_objects input ≠ []) [left; right] →
  Forall fresh_object outs → length outs = workers id →
  ∃ g, GenerateJoinPipeline address_text allocate query_configuration id root plan left right outs = Ok g ∧
    generated id (input_objects left ++ input_objects right) outs g.
Proof.
  intros Hplan Hid Hij Hl Hr Hvalid Hne Hfresh Hlen. destruct (workers_bounds id) as [Hpos Hmax].
  destruct (BuildPipelineFragmentsInputsMap_spec (workers id) [left; right]) as (maps & Hmaps & Hml & Hm); [done..| |].
  { cbn. rewrite Hl, Hr. apply NoDup_cons. split; [|apply NoDup_singleton]. intros Heq%list_elem_of_singleton.
    by apply (inj (String.append id)), (inj (String.append "-")) in Heq. }
  rewrite Z2Nat.id in Hmaps by (pose proof (Hcounts id); lia).
  destruct (new_pipeline_spec id [i; j] root plan (input_objects left ++ input_objects right)
    (maps ← BuildPipelineFragmentsInputsMap [left; right] (GetWorkerCount query_configuration id);
     mapR (join_fragment maps outs) (seq 0 (workers id)))
    (zip_with (λ m o, mkPipelineFragmentDefinition m o kParquet) maps outs) Hplan Hid) as (g & Hg & Hgen).
  - rewrite Hmaps. cbn [rbind]. apply mapR_ok_Forall2. apply Forall2_same_length_lookup_2.
    { rewrite length_seq, length_zip_with. lia. }
    intros k k' d Hk Hd. apply lookup_seq in Hk as [-> _]. apply lookup_zip_with_Some in Hd as (m & o & -> & Hmk & Ho).
    unfold join_fragment, vec_get. cbn [Nat.add]. by rewrite Hmk, Ho.
  - apply Forall_lookup. intros k d Hd. apply lookup_zip_with_Some in Hd as (m & o & -> & Hmk & Ho).
    rewrite Forall_lookup in Hfresh. destruct (Hfresh k o Ho) as [_ Htag]. split; [done|].
    pose proof (lookup_lt_Some _ _ _ Hmk) as Hk. rewrite Hml in Hk. destruct (Hm k m Hmk) as [Hin Hout].
    cbn [identity_to_objects]. cbn [fmap list_fmap] in Hout |- *. rewrite Hl, Hr in Hout.
    apply Forall_cons in Hvalid as [Hvl [Hvr _]%Forall_cons]. apply Forall_cons in Hne as [Hnl [Hnr _]%Forall_cons].
    split; [|exact Hout]. intros k' [->|Heq%list_elem_of_singleton]%elem_of_cons; [|subst k'].
    + destruct (share_reads _ k left Hvl Hnl Hk) as (l & Hs & Hreads). exists l. split.
      * rewrite <- Hl, <- Hs. apply Hin. by left.
      * apply (reads_mono _ _ _ (λ o' Ho', proj2 (elem_of_app _ _ _) (or_introl Ho')) Hreads).
    + destruct (share_reads _ k right Hvr Hnr Hk) as (l & Hs & Hreads). exists l. split.
      * rewrite <- Hr, <- Hs. apply Hin. right. by left.
      * apply (reads_mono _ _ _ (λ o' Ho', proj2 (elem_of_app _ _ _) (or_intror Ho')) Hreads).
  - rewrite length_zip_with. lia.
  - exists g. split; [exact Hg|]. by rewrite fmap_zip_with_r in Hgen by (cbn; done || lia).
Qed.

(** ** The two shapes of the functions *)
(** A step that reads [ins] into a pipeline with new objects, and returns both. *)
Definition produces {R} (r : result R) (f : list ObjectReference → GeneratedPipeline → R) (id : string) (ins : list ObjectReference)
    (n : nat) : Prop :=
  ∃ outs g, r = Ok (f outs g) ∧ length outs = n ∧ Forall fresh_object outs ∧ generated id ins outs g.

Lemma scan_spec {R} (f : list ObjectReference → GeneratedPipeline → R) (r : result (N * Plan A)) id import format export_format count ins :
  plan_ok r [import] = true → id ≠ EmptyString → (0 < count < 2 ^ 31)%Z → (Z.to_nat count <= length ins)%nat →
  produces (
    '(export_operator, plan) ← r;
    output_objects ← GenerateOutputObjectIds shuffle_storage_ RandomString count id format;
    pipeline ← GeneratePipeline address_text allocate id import export_operator plan export_format ins output_objects;
    Ok (f output_objects pipeline)) f id ins (Z.to_nat count).
Proof.
  intros Hplan Hid Hcount Hle. destruct r as [[root plan]|]; [|done]. cbn [rbind].
  destruct (GenerateOutputObjectIds_spec count id format) as (outs & -> & Hlen & Hfresh). cbn [rbind].
  destruct (GeneratePipeline_spec id import root plan export_format ins outs Hplan Hid Hfresh) as (g & -> & Hg); [lia..|].
  exists outs, g. by rewrite Hlen.
Qed.

Lemma join_spec {R} (f : list ObjectReference → GeneratedPipeline → R) (r : result (N * Plan A)) id i j format left right :
  plan_ok r [i; j] = true → id ≠ EmptyString → i ≠ j →
  input_id left = id +:+ "-" +:+ i → input_id right = id +:+ "-" +:+ j →
  Forall (valid_input (workers id)) [left; right] → Forall (λ input, input_objects input ≠ []) [left; right] →
  produces (
    '(export_operator, plan) ← r;
    output_objects ← GenerateOutputObjectIds shuffle_storage_ RandomString (GetWorkerCount query_configuration id) id format;
    pipeline ← GenerateJoinPipeline address_text allocate query_configuration id export_operator plan left right output_objects;
    Ok (f output_objects pipeline)) f id (input_objects left ++ input_objects right) (workers id).
Proof.
  intros Hplan Hid Hij Hl Hr Hvalid Hne. destruct r as [[root plan]|]; [|done]. cbn [rbind].
  destruct (GenerateOutputObjectIds_spec (GetWorkerCount query_configuration id) id format) as (outs & -> & Hlen & Hfresh). cbn [rbind].
  destruct (GenerateJoinPipeline_spec id i j root plan left right outs) as (g & -> & Hg); [done..|]. by exists outs, g.
Qed.

(** The broadcast side of a broadcast join must have an object, and the other side one for
    every worker; otherwise both must have objects that can be named. *)
Lemma join_inputs_ok id i j broadcast probe :
  broadcast ≠ [] → (if is_broadcast query_configuration id then workers id <= length probe else probe ≠ [])%nat →
  Forall valid_reference broadcast → Forall valid_reference probe →
  let inputs := [broadcast_input query_configuration id i broadcast; probe_input query_configuration id j probe] in
  Forall (valid_input (workers id)) inputs ∧ Forall (λ input, input_objects input ≠ []) inputs.
Proof.
  intros Hb Hp Hvb Hvp. unfold broadcast_input, probe_input. pose proof (workers_bounds id).
  destruct (is_broadcast query_configuration id); (split; [repeat constructor; done|]); repeat constructor; cbn; try done.
  intros ->. cbn in Hp. lia.
Qed.
End Pipelines.

(** ** Linked pipelines

    What [SetAsPredecessorOf] makes of the pipelines of a query: the scheduler's
    well-formedness conditions hold when the edges are between pipelines of the query and go
    forward in some order, and the objects that a pipeline reads come from its predecessors. *)

Import PipelineScheduler (PqpPipeline, mkPqpPipeline, FragmentDefinitions, Predecessors, Successors, SetAsPredecessorOf).
Import PipelineSchedulerCorrect (occurrences, occurrences_cons, wf_pipelines).

Local Open Scope string_scope.

Section Graph.
Context {A : Type}.
Abbreviation name p := (PipelineScheduler.Identity p).
Abbreviation identity g := (name (gp_pipeline g)).
Abbreviation edge := (string * string)%type.

(** The edges by name; an edge of a pipeline that is left out is none. *)
Definition edge_name (e : option (GeneratedPipeline (A:=A)) * option (GeneratedPipeline (A:=A))) : option edge :=
  match e with (Some a, Some b) => Some (identity a, identity b) | _ => None end.

Definition predecessors (ns : list edge) (i : string) : list string := (filter (λ e, e.2 = i) ns).*1.
Definition successors (ns : list edge) (i : string) : list string := (filter (λ e, e.1 = i) ns).*2.

Lemma edges_symmetric ns i j : occurrences j (successors ns i) = occurrences i (predecessors ns j).
Proof.
  unfold successors, predecessors. induction ns as [|[a b] ns IH]; [done|]. rewrite !filter_cons. cbn [fst snd].
  destruct (decide (a = i)) as [->|Ha], (decide (b = j)) as [->|Hb]; cbn [fmap list_fmap fst snd]; rewrite ?occurrences_cons, ?IH;
    rewrite ?decide_True, ?decide_False by done; lia.
Qed.

Lemma elem_of_predecessors ns i j : j ∈ predecessors ns i ↔ (j, i) ∈ ns.
Proof.
  unfold predecessors. rewrite list_elem_of_fmap. split.
  - intros ([a b] & -> & [Hb Hin]%list_elem_of_filter). cbn in Hb. by subst.
  - intros Hin. exists (j, i). split; [done|]. by apply list_elem_of_filter.
Qed.

Lemma elem_of_successors ns i j : j ∈ successors ns i ↔ (i, j) ∈ ns.
Proof.
  unfold successors. rewrite list_elem_of_fmap. split.
  - intros ([a b] & -> & [Hb Hin]%list_elem_of_filter). cbn in Hb. by subst.
  - intros Hin. exists (i, j). split; [done|]. by apply list_elem_of_filter.
Qed.

(** ** Linking *)
Definition link (ns : list edge) (i : string) (p : PqpPipeline) : PqpPipeline :=
  mkPqpPipeline (name p) (FragmentDefinitions p) (Predecessors p ++ predecessors ns i) (Successors p ++ successors ns i).

Lemma SetAsPredecessorOf_lookup a b (m : gmap string PqpPipeline) i :
  SetAsPredecessorOf a b m !! i = link [(a, b)] i <$> m !! i.
Proof.
  unfold SetAsPredecessorOf, link, predecessors, successors. rewrite !filter_cons, !filter_nil. cbn [fst snd].
  destruct (decide (a = i)) as [->|Ha], (decide (b = i)) as [->|Hb];
    repeat (rewrite lookup_alter_eq || rewrite lookup_alter_ne by done);
    (destruct (m !! i) as [[]|]; [|done]); cbn; by rewrite ?app_nil_r.
Qed.

Lemma link_app ns ns' i p : link ns' i (link ns i p) = link (ns ++ ns') i p.
Proof. unfold link, predecessors, successors. cbn. by rewrite !filter_app, !fmap_app, !app_assoc. Qed.

Lemma link_pipelines_map edges (m : gmap string PqpPipeline) i :
  foldl (λ m (edge : option GeneratedPipeline * option GeneratedPipeline),
    match edge with
    | (Some predecessor, Some successor) => SetAsPredecessorOf (identity predecessor) (identity successor) m
    | _ => m
    end) m edges !! i = link (omap edge_name edges) i <$> m !! i.
Proof.
  revert m. induction edges as [|[[a|] [b|]] edges IH]; intros m; cbn [foldl omap list_omap edge_name]; rewrite ?IH; try done.
  - unfold link, predecessors, successors. cbn. destruct (m !! i) as [[]|]; [|done]. cbn. by rewrite !app_nil_r.
  - rewrite SetAsPredecessorOf_lookup. destruct (m !! i); [|done]. cbn [fmap option_fmap option_map]. f_equal. apply link_app.
Qed.

(** A pipeline of the query after linking. *)
Definition linked (ns : list edge) (g : GeneratedPipeline (A:=A)) : GeneratedPipeline (A:=A) :=
  mkGeneratedPipeline (link ns (identity g) (gp_pipeline g)) (gp_plan g) (gp_template g).

Lemma link_pipelines_spec edges (gs : list (GeneratedPipeline (A:=A))) :
  NoDup ((λ g, identity g) <$> gs) → link_pipelines edges gs = linked (omap edge_name edges) <$> gs.
Proof.
  intros Hnd. unfold link_pipelines. apply list_fmap_ext. intros i g Hg. unfold linked. f_equal.
  rewrite link_pipelines_map, (elem_of_list_to_map_1 _ _ (gp_pipeline g)); [done| |].
  - by rewrite <- list_fmap_compose.
  - apply list_elem_of_fmap. exists g. split; [done|]. by apply list_elem_of_lookup_2 with i.
Qed.

(** ** Well-formed pipelines *)
Variable rank : string → nat.

(** Names are unique, edges are between named pipelines and raise the rank. *)
Definition graph_check (ids : list string) (ns : list edge) : bool :=
  bool_decide (NoDup ids) && (length ns <? 2 ^ 10)%nat &&
  forallb (λ e, bool_decide (e.1 ∈ ids) && bool_decide (e.2 ∈ ids) && (rank e.1 <? rank e.2)%nat) ns.

Lemma graph_check_edge ids ns i j :
  graph_check ids ns = true → (i, j) ∈ ns → i ∈ ids ∧ j ∈ ids ∧ (rank i < rank j)%nat.
Proof.
  intros [_ Hc]%andb_prop Hin. pose proof (forallb_elem_of _ _ _ Hc Hin) as He. cbn in He.
  apply andb_prop in He as [[Hi Hj]%andb_prop Hr]. apply bool_decide_eq_true in Hi, Hj. apply Nat.ltb_lt in Hr. done.
Qed.

Definition unlinked (g : GeneratedPipeline (A:=A)) : Prop :=
  Predecessors (gp_pipeline g) = [] ∧ Successors (gp_pipeline g) = [] ∧
  (0 < length (FragmentDefinitions (gp_pipeline g)))%nat ∧ (Z.of_nat (length (FragmentDefinitions (gp_pipeline g))) < 2 ^ 31)%Z.

Lemma linked_wf edges gs ns :
  omap edge_name edges = ns → graph_check ((λ g, identity g) <$> gs) ns = true → Forall unlinked gs →
  link_pipelines edges gs = linked ns <$> gs ∧
  wf_pipelines (gp_pipeline <$> link_pipelines edges gs) ∧
  PipelineSchedulerCorrect.acyclic (gp_pipeline <$> link_pipelines edges gs).
Proof.
  intros Hns Hcheck Hgs. pose proof Hcheck as [[Hnd Hlen]%andb_prop _]%andb_prop.
  apply bool_decide_eq_true in Hnd. apply Nat.ltb_lt in Hlen. change (2 ^ 10)%nat with 1024%nat in Hlen.
  rewrite link_pipelines_spec, Hns by done. split; [done|]. rewrite <- list_fmap_compose.
  set (f := gp_pipeline ∘ linked ns). assert (PipelineScheduler.Identity ∘ f = λ g, identity g) as Hname by done.
  assert (∀ g, g ∈ gs → Predecessors (f g) = predecessors ns (identity g) ∧ Successors (f g) = successors ns (identity g)) as Hf.
  { rewrite Forall_forall in Hgs. intros g (Hp & Hs & _)%Hgs. cbn. by rewrite Hp, Hs. }
  assert (∀ i, length (predecessors ns i) <= length ns)%nat as Hpred.
  { intros i. unfold predecessors. rewrite length_fmap. apply length_filter. }
  split; [split|].
  - by rewrite <- list_fmap_compose, Hname.
  - apply Forall_fmap, Forall_forall. intros g Hg. cbn [compose]. destruct (Hf g Hg) as [-> _].
    rewrite Forall_forall in Hgs. destruct (Hgs g Hg) as (_ & _ & Hpos & Hmax). specialize (Hpred (identity g)). cbn. split_and!; [|lia..].
    by destruct (FragmentDefinitions (gp_pipeline g)); [cbn in Hpos; lia|].
  - apply Forall_fmap, Forall_forall. intros g Hg. cbn [compose]. destruct (Hf g Hg) as [-> ->].
    rewrite <- list_fmap_compose, Hname. apply Forall_app. split; apply Forall_forall; intros i.
    + intros He%elem_of_successors. by apply (graph_check_edge _ _ _ _ Hcheck He).
    + intros He%elem_of_predecessors. by apply (graph_check_edge _ _ _ _ Hcheck He).
  - apply Forall_fmap, Forall_forall. intros g Hg. apply Forall_fmap, Forall_forall. intros g' Hg'. cbn [compose].
    destruct (Hf g Hg) as [_ ->], (Hf g' Hg') as [-> _]. apply edges_symmetric.
  - exists rank. apply Forall_fmap, Forall_forall. intros g Hg. cbn [compose]. destruct (Hf g Hg) as [-> _].
    apply Forall_forall. intros i He%elem_of_predecessors. by apply (graph_check_edge _ _ _ _ Hcheck He).
Qed.
End Graph.

(** ** Data flow *)
Section Flow.
Context {A : Type}.
Variables (address_text : N → string) (allocate : gset N → N) (tables : string → list ObjectReference).
Abbreviation identity g := (PipelineScheduler.Identity (gp_pipeline g)).
Abbreviation edge := (string * string)%type.

(** What is known of a pipeline: its name, what it reads and what it writes. *)
Abbreviation summary := (string * list ObjectReference * list ObjectReference)%type.

Definition summarises (s : summary) (g : GeneratedPipeline (A:=A)) : Prop := generated address_text allocate s.1.1 s.1.2 s.2 g.

(** Every object is one of a table or is written by a predecessor. *)
Definition flows (ss : list summary) (ns : list edge) (id : string) (ins : list ObjectReference) : Prop :=
  ∀ o, o ∈ ins → (∃ t, o ∈ tables t) ∨ ∃ s, s ∈ ss ∧ (s.1.1, id) ∈ ns ∧ o ∈ s.2.

Lemma flows_table ss ns id t : flows ss ns id (tables t).
Proof. intros o Ho. left. by exists t. Qed.

Lemma flows_from ss ns id s : s ∈ ss → (s.1.1, id) ∈ ns → flows ss ns id s.2.
Proof. intros Hs He o Ho. right. by exists s. Qed.

Lemma flows_app ss ns id ins ins' : flows ss ns id ins → flows ss ns id ins' → flows ss ns id (ins ++ ins').
Proof. intros H H' o [Ho|Ho]%elem_of_app; [by apply H|by apply H']. Qed.

(** The properties of the pipelines of a query. *)
Definition executable (gs : list (GeneratedPipeline (A:=A))) : Prop :=
  gs ≠ [] ∧ wf_pipelines (gp_pipeline <$> gs) ∧ PipelineSchedulerCorrect.acyclic (gp_pipeline <$> gs) ∧
  ∀ g d, g ∈ gs → d ∈ FragmentDefinitions (gp_pipeline g) →
    (∀ k l, identity_to_objects d !! k = Some l → l ≠ []) ∧
    ∃ fuel h r, GenerateFragmentPlan address_text allocate fuel (gp_plan g) (gp_template g) d = Ok (h, r).

Definition fed (gs : list (GeneratedPipeline (A:=A))) : Prop :=
  ∀ g d k l o, g ∈ gs → d ∈ FragmentDefinitions (gp_pipeline g) → identity_to_objects d !! k = Some l → o ∈ l →
    (∃ t o', o' ∈ tables t ∧ same_object o o') ∨
    ∃ p e, p ∈ gs ∧ identity p ∈ Predecessors (gp_pipeline g) ∧ e ∈ FragmentDefinitions (gp_pipeline p) ∧
      same_object o (target_object e).

Lemma summaries_unlinked ss gs : Forall2 summarises ss gs → Forall unlinked gs ∧ (λ g, identity g) <$> gs = (λ s, s.1.1) <$> ss.
Proof.
  induction 1 as [|s g ss gs Hg _ [IH IH']]; [by split|]. split.
  - constructor; [|done]. destruct Hg as [Hp Ht [Hpos Hmax] _]. rewrite <- Ht, length_fmap in Hpos, Hmax. unfold unlinked.
    rewrite Hp. by cbn.
  - cbn. f_equal; [|done]. destruct Hg as [Hp _ _ _]. by rewrite Hp.
Qed.

Lemma pipelines_correct rank ss gs edges ns :
  Forall2 summarises ss gs → omap edge_name edges = ns → graph_check rank ((λ s, s.1.1) <$> ss) ns = true → ss ≠ [] →
  executable (link_pipelines edges gs) ∧ (Forall (λ s, flows ss ns s.1.1 s.1.2) ss → fed (link_pipelines edges gs)).
Proof.
  intros Hgs Hns Hcheck Hne. destruct (summaries_unlinked _ _ Hgs) as [Hun Hids]. rewrite <- Hids in Hcheck.
  destruct (linked_wf rank edges gs ns Hns Hcheck Hun) as (Hlink & Hwf & Hac). split; [split_and!; [|done|done|]|].
  - rewrite Hlink. by destruct Hgs.
  - rewrite Hlink. intros g' d (g & -> & Hg)%list_elem_of_fmap Hd. cbn in Hd |- *.
    apply list_elem_of_lookup in Hg as [i Hg]. destruct (Forall2_lookup_r _ _ _ _ _ Hgs Hg) as (s & _ & [_ _ _ Hfrag]).
    rewrite Forall_forall in Hfrag. destruct (Hfrag d Hd) as [Hr Hi]. split; [|done]. intros k l Hk. apply (Hr k l Hk).
  - rewrite Hlink. intros Hflow g' d k l o (g & -> & Hg)%list_elem_of_fmap Hd Hk Ho. cbn in Hd |- *.
    apply list_elem_of_lookup in Hg as [i Hg]. destruct (Forall2_lookup_r _ _ _ _ _ Hgs Hg) as (s & Hs & [Hp _ _ Hfrag]).
    rewrite Forall_forall in Hfrag. destruct (Hfrag d Hd) as [Hr _]. destruct (Hr k l Hk) as [_ Hl].
    rewrite Forall_forall in Hl. destruct (Hl o Ho) as (o' & Ho' & Hso).
    rewrite Forall_forall in Hflow. destruct (Hflow s (list_elem_of_lookup_2 _ _ _ Hs) o' Ho') as [[t Ht]|(s' & Hs' & He & Hin)].
    + left. by exists t, o'.
    + right. apply list_elem_of_lookup in Hs' as [j Hs']. destruct (Forall2_lookup_l _ _ _ _ _ Hgs Hs') as (p & Hpj & [Hpp Hpt _ _]).
      rewrite <- Hpt in Hin. apply list_elem_of_fmap in Hin as (e & -> & He').
      exists (linked ns p), e. split_and!; [apply list_elem_of_fmap; exists p; split; [done|by eapply list_elem_of_lookup_2]| |done..].
      cbn. rewrite Hp, Hpp. cbn. by apply elem_of_predecessors.
Qed.
End Flow.
