(* ===== verification/TpchCorrect.v ===== *)
(** * The TPC-H queries: executable plans and complete data flow

    For every query and query configuration, the generator returns pipelines that the
    coordinator's scheduler accepts and runs to the end, whose fragments' plans can be made,
    and whose fragments read exactly objects of the tables and objects that a predecessor
    writes. *)

From stdpp Require Import pretty.
From S2P Require Export TpchPipelines.
From S2P Require PipelineScheduler PipelineSchedulerCorrect ChunkReader ObjectReader.
From S2P Require Import JsonInstances.

Local Open Scope string_scope.

Section Queries.
Context {J : Type} `{Json J} `{MagicEnum JoinAlgorithm} {A : Type}.
Variables (address_text : N → string) (allocate : gset N → N).
Hypothesis Hallocate : ∀ s, allocate s ∉ s.
Variables (query_configuration : J) (scale_factor_ : ScaleFactor) (shuffle_storage_ : ObjectReference).
Variables (ListObjects : string → list ObjectReader.ObjectStatus * ChunkReader.StorageErrorType) (RandomString : string → nat → string).
Hypothesis Hbucket : bucket_name shuffle_storage_ ≠ EmptyString.
Hypothesis Hcounts : ∀ p, (1 <= GetWorkerCount query_configuration p < 2 ^ 31)%Z.

Abbreviation workers p := (Z.to_nat (GetWorkerCount query_configuration p)).
Abbreviation broadcast p := (is_broadcast query_configuration p).
Abbreviation produces := (produces (A:=A) address_text allocate).

(** The arguments of the functions that build a pipeline. *)
Abbreviation configured f := (f address_text allocate query_configuration shuffle_storage_ RandomString).
Abbreviation plain f := (f address_text allocate shuffle_storage_ RandomString).

Abbreviation pair_of := (λ outs g, (outs, g)).
Abbreviation data_of cols := (λ outs g, mkPipelineData outs (Some g) cols).

Lemma workers_range p : (0 < GetWorkerCount query_configuration p < 2 ^ 31)%Z.
Proof. pose proof (Hcounts p). lia. Qed.

Tactic Notation "scan" uconstr(ok) :=
  intros Hle; apply (scan_spec address_text allocate Hallocate shuffle_storage_ RandomString Hbucket);
  [apply ok|done|first [apply workers_range|done]|exact Hle].

Tactic Notation "join" uconstr(ok) :=
  intros Hvl Hvr Hb Hp;
  destruct (join_inputs_ok query_configuration Hcounts _ "left_import" "right_import" _ _ Hb Hp ltac:(eassumption) ltac:(eassumption))
    as [Hvalid Hne];
  apply (join_spec address_text allocate Hallocate query_configuration shuffle_storage_ RandomString Hbucket Hcounts) with
    (i := "left_import") (j := "right_import"); [apply ok|done..|repeat (apply Forall_cons in Hvalid as [? Hvalid]); by repeat constructor|
    repeat (apply Forall_cons in Hne as [? Hne]); by repeat constructor].

Lemma GenerateQ1Pipeline1_spec ins :
  (workers "pipeline-1" <= length ins)%nat →
  produces (configured GenerateQ1Pipeline1 ins) (pair_of) "pipeline-1" ins (workers "pipeline-1").
Proof. unfold GenerateQ1Pipeline1. scan Q1Pipeline1_ok. Qed.

Lemma GenerateQ1Pipeline2_spec ins :
  (1 <= length ins)%nat →
  produces (plain GenerateQ1Pipeline2 ins) (pair_of) "pipeline-2" ins (1).
Proof. unfold GenerateQ1Pipeline2. scan Q1Pipeline2_ok. Qed.

Lemma GenerateQ3Pipeline1_spec ins :
  (workers "pipeline-1" <= length ins)%nat →
  produces (configured GenerateQ3Pipeline1 ins) (pair_of) "pipeline-1" ins (workers "pipeline-1").
Proof. unfold GenerateQ3Pipeline1. scan Q3Pipeline1_ok. Qed.

Lemma GenerateQ3Pipeline2_spec ins :
  (workers "pipeline-2" <= length ins)%nat →
  produces (configured GenerateQ3Pipeline2 ins) (pair_of) "pipeline-2" ins (workers "pipeline-2").
Proof. unfold GenerateQ3Pipeline2. scan Q3Pipeline2_ok. Qed.

Lemma GenerateQ3Pipeline3_spec ins :
  (workers "pipeline-3" <= length ins)%nat →
  produces (configured GenerateQ3Pipeline3 ins) (pair_of) "pipeline-3" ins (workers "pipeline-3").
Proof. unfold GenerateQ3Pipeline3. scan Q3Pipeline3_ok. Qed.

Lemma GenerateQ3Pipeline4_spec left right :
  Forall valid_reference left → Forall valid_reference right → left ≠ [] →
  (if broadcast "pipeline-4" then workers "pipeline-4" <= length right else right ≠ [])%nat →
  produces (configured GenerateQ3Pipeline4 left right) (pair_of) "pipeline-4" (left ++ right) (workers "pipeline-4").
Proof. unfold GenerateQ3Pipeline4. join Q3Pipeline4_ok. Qed.

Lemma GenerateQ3Pipeline5_spec left right :
  Forall valid_reference left → Forall valid_reference right → left ≠ [] →
  (if broadcast "pipeline-5" then workers "pipeline-5" <= length right else right ≠ [])%nat →
  produces (configured GenerateQ3Pipeline5 left right) (pair_of) "pipeline-5" (left ++ right) (workers "pipeline-5").
Proof. unfold GenerateQ3Pipeline5. join Q3Pipeline5_ok. Qed.

Lemma GenerateQ3Pipeline6_spec ins :
  (1 <= length ins)%nat →
  produces (plain GenerateQ3Pipeline6 ins) (pair_of) "pipeline-6" ins (1).
Proof. unfold GenerateQ3Pipeline6. scan Q3Pipeline6_ok. Qed.

Lemma GenerateQ5Pipeline2_spec ins :
  broadcast "pipeline-3" = false → (workers "pipeline-2" <= length ins)%nat →
  produces (configured GenerateQ5Pipeline2 ins) (data_of [0; 1; 2; 3]%N) "pipeline-2" ins (workers "pipeline-2").
Proof. intros Hb. unfold GenerateQ5Pipeline2. rewrite Hb. scan Q5Pipeline2_ok. Qed.

Lemma GenerateQ5Pipeline3_spec left right lc rc :
  lc ≠ [] → rc ≠ [] →
  Forall valid_reference left → Forall valid_reference right → left ≠ [] →
  (if broadcast "pipeline-3" then workers "pipeline-3" <= length right else right ≠ [])%nat →
  produces (configured GenerateQ5Pipeline3 left right lc rc) (data_of [0; 1; 2; 3; 4]%N) "pipeline-3" (left ++ right) (workers "pipeline-3").
Proof. intros Hlc Hrc. destruct lc, rc; [done..|]. unfold GenerateQ5Pipeline3. join Q5Pipeline3_ok. Qed.

Lemma GenerateQ5Pipeline4_spec ins :
  (workers "pipeline-4" <= length ins)%nat →
  produces (configured GenerateQ5Pipeline4 ins) (data_of [0; 1]%N) "pipeline-4" ins (workers "pipeline-4").
Proof. unfold GenerateQ5Pipeline4. scan Q5Pipeline4_ok. Qed.

Lemma GenerateQ5Pipeline5_spec left right :
  Forall valid_reference left → Forall valid_reference right → left ≠ [] →
  (if broadcast "pipeline-5" then workers "pipeline-5" <= length right else right ≠ [])%nat →
  produces (configured GenerateQ5Pipeline5 left right) (data_of [0; 1; 2; 3; 4]%N) "pipeline-5" (left ++ right) (workers "pipeline-5").
Proof. unfold GenerateQ5Pipeline5. join Q5Pipeline5_ok. Qed.

Lemma GenerateQ5Pipeline6_spec ins :
  broadcast "pipeline-7" = false → (workers "pipeline-6" <= length ins)%nat →
  produces (configured GenerateQ5Pipeline6 ins) (data_of [0; 1]%N) "pipeline-6" ins (workers "pipeline-6").
Proof. intros Hb. unfold GenerateQ5Pipeline6. rewrite Hb. scan Q5Pipeline6_ok. Qed.

Lemma GenerateQ5Pipeline7_spec left right lc rc :
  lc ≠ [] → rc ≠ [] →
  Forall valid_reference left → Forall valid_reference right → left ≠ [] →
  (if broadcast "pipeline-7" then workers "pipeline-7" <= length right else right ≠ [])%nat →
  produces (configured GenerateQ5Pipeline7 left right lc rc) (data_of [0; 1]%N) "pipeline-7" (left ++ right) (workers "pipeline-7").
Proof. intros Hlc Hrc. destruct lc, rc; [done..|]. unfold GenerateQ5Pipeline7. join Q5Pipeline7_ok. Qed.

Lemma GenerateQ5Pipeline8_spec ins :
  (1 <= length ins)%nat →
  produces (plain GenerateQ5Pipeline8 ins) (data_of [0; 1]%N) "pipeline-8" ins (1).
Proof. unfold GenerateQ5Pipeline8. scan Q5Pipeline8_ok. Qed.

Lemma GenerateQ6Pipeline1_spec ins :
  (workers "pipeline-1" <= length ins)%nat →
  produces (configured GenerateQ6Pipeline1 ins) (pair_of) "pipeline-1" ins (workers "pipeline-1").
Proof. unfold GenerateQ6Pipeline1. scan Q6Pipeline1_ok. Qed.

Lemma GenerateQ6Pipeline2_spec ins :
  (1 <= length ins)%nat →
  produces (plain GenerateQ6Pipeline2 ins) (pair_of) "pipeline-2" ins (1).
Proof. unfold GenerateQ6Pipeline2. scan Q6Pipeline2_ok. Qed.

Lemma GenerateQ12Pipeline1_spec ins :
  (workers "pipeline-1" <= length ins)%nat →
  produces (configured GenerateQ12Pipeline1 ins) (data_of [0; 1]%N) "pipeline-1" ins (workers "pipeline-1").
Proof. unfold GenerateQ12Pipeline1. scan Q12Pipeline1_ok. Qed.

Lemma GenerateQ12Pipeline2_spec ins :
  broadcast "pipeline-3" = false → (workers "pipeline-2" <= length ins)%nat →
  produces (configured GenerateQ12Pipeline2 ins) (data_of [0; 1]%N) "pipeline-2" ins (workers "pipeline-2").
Proof. intros Hb. unfold GenerateQ12Pipeline2. rewrite Hb. scan Q12Pipeline2_ok. Qed.

Lemma GenerateQ12Pipeline3_spec left right lc rc :
  lc ≠ [] → rc ≠ [] →
  Forall valid_reference left → Forall valid_reference right → right ≠ [] →
  (if broadcast "pipeline-3" then workers "pipeline-3" <= length left else left ≠ [])%nat →
  produces (configured GenerateQ12Pipeline3 left right lc rc) (data_of [0; 1; 2]%N) "pipeline-3" (left ++ right) (workers "pipeline-3").
Proof. intros Hlc Hrc. destruct lc, rc; [done..|]. unfold GenerateQ12Pipeline3. join Q12Pipeline3_ok. Qed.

Lemma GenerateQ12Pipeline4_spec ins columns :
  columns ≠ [] → (1 <= length ins)%nat →
  produces (plain GenerateQ12Pipeline4 ins columns) (data_of [0; 1; 2]%N) "pipeline-4" ins (1).
Proof. intros Hc. destruct columns; [done|]. unfold GenerateQ12Pipeline4. scan Q12Pipeline4_ok. Qed.
Lemma push_fresh (id : string) (l : list ObjectReference) (m : InputMap) f :
  l ≠ [] → (∀ k, m !! k = f k) → f id = None → ∀ k, foldl (push_object id) m l !! k = if decide (k = id) then Some l else f k.
Proof. intros Hl Hm Hid k. rewrite nonempty_push by by rewrite Hm. by rewrite nonempty_some, Hm. Qed.

(** One fragment reads all three tables and writes the first of the new objects. *)
Lemma GenerateQ5Pipeline1_spec region nation supplier :
  region ≠ [] → nation ≠ [] → supplier ≠ [] →
  ∃ target outs g, configured GenerateQ5Pipeline1 region nation supplier = Ok (mkPipelineData (target :: outs) (Some g) [0; 1; 2]%N) ∧
    S (length outs) = workers "pipeline-1" ∧ Forall fresh_object (target :: outs) ∧
    generated (A:=A) address_text allocate "pipeline-1" (region ++ nation ++ supplier) [target] g.
Proof.
  intros Hr Hn Hs. unfold GenerateQ5Pipeline1. pose proof (Q5Pipeline1_ok (A:=A) query_configuration) as Hplan.
  destruct (Q5Pipeline1_plan query_configuration) as [[root plan]|]; [|done]. cbn [rbind].
  destruct (GenerateOutputObjectIds_spec shuffle_storage_ RandomString Hbucket (GetWorkerCount query_configuration "pipeline-1")
    "pipeline-1" kIntermediateResultsExportFormat) as (outs & -> & Hlen & Hfresh). cbn [rbind].
  destruct outs as [|target outs]; [pose proof (Hcounts "pipeline-1"); cbn in Hlen; lia|]. unfold vec_get. cbn [lookup list_lookup of_option rbind].
  set (d := mkPipelineFragmentDefinition _ target _).
  destruct (new_pipeline_spec address_text allocate Hallocate "pipeline-1" _ root plan (region ++ nation ++ supplier) (Ok [d]) [d] Hplan)
    as (g & -> & Hg); [done..| |cbn; lia|exists target, outs, g; done].
  apply Forall_singleton. apply Forall_cons in Hfresh as [[_ Htag] _]. split; [done|].
  assert (∀ k, identity_to_objects d !! k = if decide (k = "pipeline-1-supplier_import") then Some supplier
    else if decide (k = "pipeline-1-right_import") then Some nation
    else if decide (k = "pipeline-1-left_import") then Some region else None) as Hd.
  { by repeat apply push_fresh. }
  split; intros k Hk; rewrite Hd; cbn in Hk.
  - apply elem_of_cons in Hk as [->|[->|Hk%list_elem_of_singleton]%elem_of_cons]; [| |subst k];
      eexists; (split; [reflexivity|apply reads_sublist; set_solver]).
  - rewrite !decide_False; [done|..]; intros ->; apply Hk; cbn; set_solver.
Qed.

(** ** The queries *)
Variable tables : string → list ObjectReference.
Hypothesis Htables : ∀ t, t ∈ ["lineitem"; "orders"; "customer"; "supplier"; "nation"; "region"] →
  ListTableObjects scale_factor_ ListObjects t kParquet = Ok (tables t).

Lemma ListTableObjects_valid t objects :
  ListTableObjects scale_factor_ ListObjects t kParquet = Ok objects → Forall valid_reference objects.
Proof.
  unfold ListTableObjects. destruct (ListObjects _) as [statuses error]. intros Hl. inv_bind. apply mapR_ok_Forall2 in Hl.
  apply Forall_lookup. intros i o Ho. destruct (Forall2_lookup_r _ _ _ _ _ Hl Ho) as (status & _ & Hs).
  unfold make_ObjectReference in Hs. inv_bind. rewrite bool_decide_eq_true in *. by split.
Qed.

Definition pipeline_rank (id : string) : nat :=
  from_option fst 0%nat (list_find (λ x, x = id)
    ["pipeline-1"; "pipeline-2"; "pipeline-3"; "pipeline-4"; "pipeline-5"; "pipeline-6"; "pipeline-7"; "pipeline-8"]).

Definition query_ok (r : result (list (GeneratedPipeline (A:=A)))) (complete : Prop) : Prop :=
  ∃ gs, r = Ok gs ∧ executable address_text allocate gs ∧ (complete → fed tables gs).

Lemma generated_identity id ins outs (g : GeneratedPipeline (A:=A)) :
  generated address_text allocate id ins outs g → PipelineScheduler.Identity (gp_pipeline g) = id.
Proof. intros [-> _ _ _]. done. Qed.

(** Membership in a list, and the data flow of a pipeline whose inputs are given. *)
Ltac in_list := cbn; repeat first [apply list_elem_of_here | apply list_elem_of_further].
Ltac flow :=
  lazymatch goal with
  | |- flows _ _ _ _ (_ ++ _) => apply flows_app; flow
  | |- flows _ _ _ _ (tables ?t) => apply flows_table
  | |- flows _ ?ss ?ns ?id ?outs =>
      match ss with context [(?i, ?ins, outs)] => apply (flows_from tables ss ns id (i, ins, outs)); in_list end
  end.

(** The end of every query: the pipelines are as summarised, and the edges match. *)
Lemma conclude ss gs edges ns (complete : Prop) :
  Forall2 (summarises (A:=A) address_text allocate) ss gs → omap edge_name edges = ns →
  graph_check pipeline_rank ((λ s, s.1.1) <$> ss) ns = true → ss ≠ [] → (complete → Forall (λ s, flows tables ss ns s.1.1 s.1.2) ss) →
  query_ok (Ok (link_pipelines edges gs)) complete.
Proof.
  intros Hgs Hns Hcheck Hne Hflow. eexists. split; [reflexivity|].
  destruct (pipelines_correct address_text allocate tables pipeline_rank ss gs edges ns) as [Hexec Hfed]; auto.
Qed.

Ltac conclude_with tac ss :=
  eapply (conclude ss);
  [repeat first [apply Forall2_nil_2 | apply Forall2_cons_2; [eassumption|]]
  |cbn [omap list_omap option_bind edge_name];
   repeat match goal with H : generated _ _ ?id _ _ ?g |- context [gp_pipeline ?g] => rewrite (generated_identity _ _ _ _ H) end; reflexivity
  |reflexivity|done
  |intros; tac; repeat first [apply Forall_nil_2 | apply Forall_cons_2; [cbn [fst snd]; flow|]]].
Ltac conclude ss := conclude_with idtac ss.

Ltac fetch := rewrite ?Htables by in_list; cbn [rbind fst snd output_objects pqp_pipeline columns_to_read_in_successor].

Lemma GenerateQ1_ok :
  (workers "pipeline-1" <= length (tables "lineitem"))%nat →
  query_ok (GenerateQ1 address_text allocate query_configuration scale_factor_ shuffle_storage_ ListObjects RandomString) True.
Proof.
  intros H1. unfold GenerateQ1. fetch.
  destruct (GenerateQ1Pipeline1_spec _ H1) as (outs1 & g1 & -> & L1 & _ & G1). fetch.
  destruct (GenerateQ1Pipeline2_spec outs1) as (outs2 & g2 & -> & L2 & _ & G2); [pose proof (Hcounts "pipeline-1"); lia|]. fetch.
  conclude [("pipeline-1", tables "lineitem", outs1); ("pipeline-2", outs1, outs2)].
Qed.

Lemma GenerateQ6_ok :
  (workers "pipeline-1" <= length (tables "lineitem"))%nat →
  query_ok (GenerateQ6 address_text allocate query_configuration scale_factor_ shuffle_storage_ ListObjects RandomString) True.
Proof.
  intros H1. unfold GenerateQ6. fetch.
  destruct (GenerateQ6Pipeline1_spec _ H1) as (outs1 & g1 & -> & L1 & _ & G1). fetch.
  destruct (GenerateQ6Pipeline2_spec outs1) as (outs2 & g2 & -> & L2 & _ & G2); [pose proof (Hcounts "pipeline-1"); lia|]. fetch.
  conclude [("pipeline-1", tables "lineitem", outs1); ("pipeline-2", outs1, outs2)].
Qed.

(** Objects of a pipeline as the input of a join. *)
Lemma outputs_valid outs : Forall fresh_object outs → Forall valid_reference outs.
Proof. intros Hf. apply (Forall_impl _ _ _ Hf). by intros o []. Qed.

Lemma outputs_some (outs : list ObjectReference) p : length outs = workers p → outs ≠ [].
Proof. intros Hlen ->. pose proof (Hcounts p). cbn in Hlen. lia. Qed.

Lemma tables_valid t : t ∈ ["lineitem"; "orders"; "customer"; "supplier"; "nation"; "region"] → Forall valid_reference (tables t).
Proof. intros Ht. by apply (ListTableObjects_valid t), Htables. Qed.

Ltac outputs := first [done | by apply outputs_valid | by eapply outputs_some | by apply tables_valid; in_list].

(** The probe side of a join that reads the [n] objects of a pipeline. *)
Lemma probe_enough id p (outs : list ObjectReference) :
  length outs = workers p → (broadcast id = true → workers id <= workers p)%nat →
  if broadcast id then (workers id <= length outs)%nat else outs ≠ [].
Proof. intros Hlen Hb. destruct (broadcast id); [rewrite Hlen; auto|by eapply outputs_some]. Qed.

Lemma GenerateQ3_ok :
  (workers "pipeline-1" <= length (tables "orders"))%nat → (workers "pipeline-2" <= length (tables "customer"))%nat →
  (workers "pipeline-3" <= length (tables "lineitem"))%nat →
  (broadcast "pipeline-4" = true → workers "pipeline-4" <= workers "pipeline-1")%nat →
  (broadcast "pipeline-5" = true → workers "pipeline-5" <= workers "pipeline-3")%nat →
  query_ok (GenerateQ3 address_text allocate query_configuration scale_factor_ shuffle_storage_ ListObjects RandomString) True.
Proof.
  intros H1 H2 H3 H4 H5. unfold GenerateQ3. fetch.
  destruct (GenerateQ3Pipeline1_spec _ H1) as (outs1 & g1 & -> & L1 & F1 & G1). fetch.
  destruct (GenerateQ3Pipeline2_spec _ H2) as (outs2 & g2 & -> & L2 & F2 & G2). fetch.
  destruct (GenerateQ3Pipeline3_spec _ H3) as (outs3 & g3 & -> & L3 & F3 & G3). fetch.
  destruct (GenerateQ3Pipeline4_spec outs2 outs1) as (outs4 & g4 & -> & L4 & F4 & G4); [outputs..|by eapply probe_enough|]. fetch.
  destruct (GenerateQ3Pipeline5_spec outs4 outs3) as (outs5 & g5 & -> & L5 & F5 & G5); [outputs..|by eapply probe_enough|]. fetch.
  destruct (GenerateQ3Pipeline6_spec outs5) as (outs6 & g6 & -> & L6 & _ & G6); [pose proof (Hcounts "pipeline-5"); lia|]. fetch.
  conclude [("pipeline-1", tables "orders", outs1); ("pipeline-2", tables "customer", outs2); ("pipeline-3", tables "lineitem", outs3);
    ("pipeline-4", outs2 ++ outs1, outs4); ("pipeline-5", outs4 ++ outs3, outs5); ("pipeline-6", outs5, outs6)]%list.
Qed.

Lemma GenerateQ12_ok :
  (workers "pipeline-1" <= length (tables "lineitem"))%nat →
  (if broadcast "pipeline-3" then workers "pipeline-3" <= workers "pipeline-1" ∧ tables "orders" ≠ []
   else workers "pipeline-2" <= length (tables "orders"))%nat →
  query_ok (GenerateQ12 address_text allocate query_configuration scale_factor_ shuffle_storage_ ListObjects RandomString) True.
Proof.
  intros H1 H2. unfold GenerateQ12. fetch.
  destruct (GenerateQ12Pipeline1_spec _ H1) as (outs1 & g1 & -> & L1 & F1 & G1). fetch.
  destruct (broadcast "pipeline-3") eqn:Hb.
  - destruct H2 as [H2 Ho]. unfold GenerateQ12Pipeline2. rewrite Hb. fetch.
    lazymatch goal with |- context [GenerateQ12Pipeline3 _ _ _ _ _ ?l ?r ?lc ?rc] =>
      destruct (GenerateQ12Pipeline3_spec l r lc rc) as (outs3 & g3 & -> & L3 & F3 & G3) end; [done|done|outputs..|by eapply probe_enough|]. fetch.
    lazymatch goal with |- context [GenerateQ12Pipeline4 _ _ _ _ ?l ?lc] =>
      destruct (GenerateQ12Pipeline4_spec l lc) as (outs4 & g4 & -> & L4 & _ & G4) end; [done|pose proof (Hcounts "pipeline-3"); lia|]. fetch.
    conclude [("pipeline-1", tables "lineitem", outs1); ("pipeline-3", outs1 ++ tables "orders", outs3); ("pipeline-4", outs3, outs4)]%list.
  - destruct (GenerateQ12Pipeline2_spec _ Hb H2) as (outs2 & g2 & -> & L2 & F2 & G2). fetch.
    lazymatch goal with |- context [GenerateQ12Pipeline3 _ _ _ _ _ ?l ?r ?lc ?rc] =>
      destruct (GenerateQ12Pipeline3_spec l r lc rc) as (outs3 & g3 & -> & L3 & F3 & G3) end; [done|done|outputs..|eapply probe_enough; [done|congruence]|]. fetch.
    lazymatch goal with |- context [GenerateQ12Pipeline4 _ _ _ _ ?l ?lc] =>
      destruct (GenerateQ12Pipeline4_spec l lc) as (outs4 & g4 & -> & L4 & _ & G4) end; [done|pose proof (Hcounts "pipeline-3"); lia|]. fetch.
    conclude [("pipeline-1", tables "lineitem", outs1); ("pipeline-2", tables "orders", outs2); ("pipeline-3", outs1 ++ outs2, outs3);
      ("pipeline-4", outs3, outs4)]%list.
Qed.
(** The first five pipelines of query 5, after the second one. *)
Definition q5_conditions : Prop :=
  tables "region" ≠ [] ∧ tables "nation" ≠ [] ∧ tables "supplier" ≠ [] ∧
  ((if broadcast "pipeline-3" then workers "pipeline-3" else workers "pipeline-2") <= length (tables "lineitem"))%nat ∧
  (workers "pipeline-4" <= length (tables "orders"))%nat ∧
  (broadcast "pipeline-5" = true → workers "pipeline-5" <= workers "pipeline-3")%nat ∧
  (if broadcast "pipeline-7" then workers "pipeline-7" <= workers "pipeline-5" ∧ tables "customer" ≠ []
   else workers "pipeline-6" <= length (tables "customer"))%nat.

(** What the third pipeline reads of the second one, if that is not left out. *)
Lemma GenerateQ5Pipeline2_cases :
  ((if broadcast "pipeline-3" then workers "pipeline-3" else workers "pipeline-2") <= length (tables "lineitem"))%nat →
  ∃ (data : PipelineData (A:=A)) (ins : list ObjectReference), configured GenerateQ5Pipeline2 (tables "lineitem") = Ok data ∧ output_objects data = ins ∧ Forall valid_reference ins ∧
    columns_to_read_in_successor data ≠ [] ∧ (if broadcast "pipeline-3" then workers "pipeline-3" <= length ins else ins ≠ [])%nat ∧
    (pqp_pipeline data = None ∧ ins = tables "lineitem" ∨
     ∃ g, pqp_pipeline data = Some g ∧ generated (A:=A) address_text allocate "pipeline-2" (tables "lineitem") ins g).
Proof.
  intros Hle. assert (Forall valid_reference (tables "lineitem")) as Hv by outputs. destruct (broadcast "pipeline-3") eqn:Hb.
  - unfold GenerateQ5Pipeline2. rewrite Hb. eexists _, _. split_and!; [done|done|done|done|done|]. by left.
  - destruct (GenerateQ5Pipeline2_spec _ Hb Hle) as (outs & g & -> & L & F & G). eexists _, _.
    split_and!; [done|done|by apply outputs_valid|done|by eapply outputs_some|]. right. by exists g.
Qed.

Lemma GenerateQ5Pipeline6_cases (outs5 : list ObjectReference) :
  length outs5 = workers "pipeline-5" →
  (if broadcast "pipeline-7" then workers "pipeline-7" <= workers "pipeline-5" ∧ tables "customer" ≠ []
   else workers "pipeline-6" <= length (tables "customer"))%nat →
  ∃ (data : PipelineData (A:=A)) (ins : list ObjectReference), configured GenerateQ5Pipeline6 (tables "customer") = Ok data ∧ output_objects data = ins ∧ Forall valid_reference ins ∧
    columns_to_read_in_successor data ≠ [] ∧ ins ≠ [] ∧ (if broadcast "pipeline-7" then workers "pipeline-7" <= length outs5 else outs5 ≠ [])%nat ∧
    (pqp_pipeline data = None ∧ ins = tables "customer" ∨
     ∃ g, pqp_pipeline data = Some g ∧ generated (A:=A) address_text allocate "pipeline-6" (tables "customer") ins g).
Proof.
  intros Hlen Hle. assert (Forall valid_reference (tables "customer")) as Hv by outputs. destruct (broadcast "pipeline-7") eqn:Hb.
  - destruct Hle as [Hle Hc]. unfold GenerateQ5Pipeline6. rewrite Hb. eexists _, _.
    split_and!; [done|done|done|done|done|by rewrite Hlen|]. by left.
  - destruct (GenerateQ5Pipeline6_spec _ Hb Hle) as (outs & g & -> & L & F & G). eexists _, _.
    split_and!; [done|done|by apply outputs_valid|done|by eapply outputs_some|by eapply outputs_some|]. right. by exists g.
Qed.

Lemma GenerateQ5_ok :
  q5_conditions →
  query_ok (GenerateQ5 address_text allocate query_configuration scale_factor_ shuffle_storage_ ListObjects RandomString)
    (workers "pipeline-1" = 1%nat).
Proof.
  intros (Hr & Hn & Hs & H2 & H4 & H5 & H7). unfold GenerateQ5. fetch.
  destruct (GenerateQ5Pipeline1_spec _ _ _ Hr Hn Hs) as (target & rest & g1 & -> & L1 & F1 & G1). fetch.
  destruct (GenerateQ5Pipeline2_cases H2) as ([? p2 cols2] & ins2 & -> & E2 & V2 & C2 & P2 & G2). cbn in E2, C2, G2. subst. fetch.
  destruct (GenerateQ5Pipeline3_spec (target :: rest) ins2 [0; 1; 2]%N cols2) as (outs3 & g3 & E3 & L3 & F3 & G3); [outputs..|].
  rewrite E3. fetch.
  destruct (GenerateQ5Pipeline4_spec _ H4) as (outs4 & g4 & -> & L4 & F4 & G4). fetch.
  destruct (GenerateQ5Pipeline5_spec outs4 outs3) as (outs5 & g5 & -> & L5 & F5 & G5); [outputs..|by eapply probe_enough|]. fetch.
  destruct (GenerateQ5Pipeline6_cases outs5 L5 H7) as ([? p6 cols6] & ins6 & -> & E6 & V6 & C6 & N6 & P6 & G6). cbn in E6, C6, G6. subst. fetch.
  lazymatch goal with |- context [GenerateQ5Pipeline7 _ _ _ _ _ ?l ?r ?lc ?rc] =>
    destruct (GenerateQ5Pipeline7_spec l r lc rc) as (outs7 & g7 & -> & L7 & F7 & G7) end; [outputs..|]. fetch.
  destruct (GenerateQ5Pipeline8_spec outs7) as (outs8 & g8 & -> & L8 & _ & G8); [pose proof (Hcounts "pipeline-7"); lia|]. fetch.
  destruct G2 as [[-> ->]|(g2 & -> & G2)], G6 as [[-> ->]|(g6 & -> & G6)]; cbn [fmap list_fmap pqp_pipeline FilterNonEmptyPipelines omap list_omap id].
  - conclude_with ltac:(assert (rest = []) as -> by (destruct rest; [done|cbn in L1; lia]))
      [("pipeline-1", tables "region" ++ tables "nation" ++ tables "supplier", [target]); ("pipeline-3", (target :: rest) ++ tables "lineitem", outs3);
      ("pipeline-4", tables "orders", outs4); ("pipeline-5", outs4 ++ outs3, outs5); ("pipeline-7", tables "customer" ++ outs5, outs7); ("pipeline-8", outs7, outs8)]%list.
  - conclude_with ltac:(assert (rest = []) as -> by (destruct rest; [done|cbn in L1; lia]))
      [("pipeline-1", tables "region" ++ tables "nation" ++ tables "supplier", [target]); ("pipeline-3", (target :: rest) ++ tables "lineitem", outs3);
      ("pipeline-4", tables "orders", outs4); ("pipeline-5", outs4 ++ outs3, outs5); ("pipeline-6", tables "customer", ins6); ("pipeline-7", ins6 ++ outs5, outs7); ("pipeline-8", outs7, outs8)]%list.
  - conclude_with ltac:(assert (rest = []) as -> by (destruct rest; [done|cbn in L1; lia]))
      [("pipeline-1", tables "region" ++ tables "nation" ++ tables "supplier", [target]); ("pipeline-2", tables "lineitem", ins2); ("pipeline-3", (target :: rest) ++ ins2, outs3);
      ("pipeline-4", tables "orders", outs4); ("pipeline-5", outs4 ++ outs3, outs5); ("pipeline-7", tables "customer" ++ outs5, outs7); ("pipeline-8", outs7, outs8)]%list.
  - conclude_with ltac:(assert (rest = []) as -> by (destruct rest; [done|cbn in L1; lia]))
      [("pipeline-1", tables "region" ++ tables "nation" ++ tables "supplier", [target]); ("pipeline-2", tables "lineitem", ins2); ("pipeline-3", (target :: rest) ++ ins2, outs3);
      ("pipeline-4", tables "orders", outs4); ("pipeline-5", outs4 ++ outs3, outs5); ("pipeline-6", tables "customer", ins6); ("pipeline-7", ins6 ++ outs5, outs7); ("pipeline-8", outs7, outs8)]%list.
Qed.


(** There are enough objects: every fragment of a scan, and of the probe side of a broadcast
    join, needs an object of its own. *)
Definition enough_objects (query_id_ : QueryId) : Prop :=
  match query_id_ with
  | kTpchQ1 | kTpchQ6 => workers "pipeline-1" <= length (tables "lineitem")
  | kTpchQ3 =>
      workers "pipeline-1" <= length (tables "orders") ∧ workers "pipeline-2" <= length (tables "customer") ∧
      workers "pipeline-3" <= length (tables "lineitem") ∧
      (broadcast "pipeline-4" = true → workers "pipeline-4" <= workers "pipeline-1") ∧
      (broadcast "pipeline-5" = true → workers "pipeline-5" <= workers "pipeline-3")
  | kTpchQ5 => q5_conditions
  | kTpchQ12 =>
      workers "pipeline-1" <= length (tables "lineitem") ∧
      if broadcast "pipeline-3" then workers "pipeline-3" <= workers "pipeline-1" ∧ tables "orders" ≠ []
      else workers "pipeline-2" <= length (tables "orders")
  | _ => False
  end%nat.

Lemma GeneratePqp_ok query_id_ :
  enough_objects query_id_ →
  query_ok (GeneratePqp address_text allocate query_configuration scale_factor_ shuffle_storage_ ListObjects RandomString query_id_)
    (query_id_ = kTpchQ5 → workers "pipeline-1" = 1%nat).
Proof.
  assert (∀ r (P Q : Prop), query_ok r P → (Q → P) → query_ok r Q) as weaken.
  { intros r P Q (gs & Hr & He & Hf) HQ. exists gs. auto. }
  destruct query_id_; cbn [enough_objects GeneratePqp]; try done.
  - intros H1. by eapply weaken; [apply GenerateQ1_ok|].
  - intros (H1 & H2 & H3 & H4 & H5). by eapply weaken; [apply GenerateQ3_ok|].
  - intros H1. eapply weaken; [by apply GenerateQ5_ok|auto].
  - intros H1. by eapply weaken; [apply GenerateQ6_ok|].
  - intros [H1 H2]. by eapply weaken; [apply GenerateQ12_ok|].
Qed.

(** C14: With positive worker counts and enough objects for them, the generator returns the
    pipelines of every supported query whatever join algorithms are configured.  The
    coordinator's scheduler accepts them: names are unique, links are consistent and acyclic,
    and every pipeline has fragments; so it runs them to the end.  Every fragment's plan can
    be made from the pipeline's template, and every import of it has an object to read. *)
Theorem GeneratePqp_executable query_id_ :
  enough_objects query_id_ →
  ∃ gs, GeneratePqp address_text allocate query_configuration scale_factor_ shuffle_storage_ ListObjects RandomString query_id_ = Ok gs ∧
    executable (A:=A) address_text allocate gs.
Proof. intros Hq. destruct (GeneratePqp_ok query_id_ Hq) as (gs & Hgs & He & _). by exists gs. Qed.

(** C15: Whatever a fragment of a generated query reads is an object of one of the tables or the
    target of a fragment of a pipeline that the scheduler finishes before; for query 5, if its
    first pipeline is configured with one worker. *)
Theorem GeneratePqp_data_flow query_id_ gs :
  enough_objects query_id_ → (query_id_ = kTpchQ5 → workers "pipeline-1" = 1%nat) →
  GeneratePqp address_text allocate query_configuration scale_factor_ shuffle_storage_ ListObjects RandomString query_id_ = Ok gs →
  fed (A:=A) tables gs.
Proof. intros Hq H5 Hgs. destruct (GeneratePqp_ok query_id_ Hq) as (gs' & Hgs' & _ & Hf). rewrite Hgs in Hgs'. injection Hgs' as <-. auto. Qed.
End Queries.

(** ** An example *)
#[local] Instance example_algorithms : MagicEnum JoinAlgorithm :=
  names_instance [kPartitionedHashJoin; kBroadcastHashJoin; kSortMergeJoin]
    (λ a, match a with kPartitionedHashJoin => "kPartitionedHashJoin" | kBroadcastHashJoin => "kBroadcastHashJoin" | kSortMergeJoin => "kSortMergeJoin" end).

(** Two scans of three files, and two fragments that join them with the one file of orders. *)
Definition example_configuration : doc :=
  With "pipeline-1" (AObject (With "worker_count" (AInt64 2%Z) JsonValue))
    (With "pipeline-3" (AObject (With "join_algorithm" (AString "kBroadcastHashJoin") (With "worker_count" (AInt64 2%Z) JsonValue))) JsonValue).

Lemma example_counts p : (1 <= GetWorkerCount example_configuration p < 2 ^ 31)%Z.
Proof.
  destruct (decide (p = "pipeline-1")) as [->|H1]; [by vm_compute|]. destruct (decide (p = "pipeline-3")) as [->|H3]; [by vm_compute|].
  unfold GetWorkerCount, example_configuration. rewrite KeyExists_field, !field_With, !decide_False, field_JsonValue by done. by vm_compute.
Qed.

Definition example_storage (prefix : string) : list ObjectReader.ObjectStatus * ChunkReader.StorageErrorType :=
  ((λ file, ObjectReader.mkObjectStatus (prefix +:+ file) 0 "tag" 1 ChunkReader.kNoError) <$>
     (if decide (prefix = "tpc-h/standard/parquet/sf1/lineitem/") then ["0"; "1"; "2"] else ["0"]), ChunkReader.kNoError).

Definition example_tables (t : string) : list ObjectReference :=
  match ListTableObjects kSf1 example_storage t kParquet with Ok objects => objects | Err _ => [] end.

Definition example_shuffle : ObjectReference := mkObjectReference "shuffle" "query" EmptyString None.
Definition example_random (_ : string) (i : nat) : string := pretty i.

Lemma example_listed t : t ∈ ["lineitem"; "orders"; "customer"; "supplier"; "nation"; "region"] →
  ListTableObjects kSf1 example_storage t kParquet = Ok (example_tables t).
Proof.
  revert t. apply Forall_forall. repeat (apply Forall_cons_2; [vm_compute; reflexivity|]). apply Forall_nil_2.
Qed.

Lemma example_enough : enough_objects example_configuration example_tables kTpchQ12.
Proof. vm_compute. split; [lia|]. split; [lia|done]. Qed.

Lemma GeneratePqp_executable_witness :
  ∃ gs, GeneratePqp (A:=unit) pretty fresh example_configuration kSf1 example_shuffle example_storage example_random kTpchQ12 = Ok gs ∧
    executable pretty fresh gs.
Proof.
  exact (GeneratePqp_executable pretty fresh (λ s, is_fresh s) example_configuration kSf1 example_shuffle example_storage example_random
    ltac:(discriminate) example_counts example_tables example_listed kTpchQ12 example_enough).
Defined.

Lemma GeneratePqp_data_flow_witness :
  ∃ gs, GeneratePqp (A:=unit) pretty fresh example_configuration kSf1 example_shuffle example_storage example_random kTpchQ12 = Ok gs ∧
    fed example_tables gs.
Proof.
  destruct (GeneratePqp_ok (A:=unit) pretty fresh (λ s, is_fresh s) example_configuration kSf1 example_shuffle example_storage example_random
    ltac:(discriminate) example_counts example_tables example_listed kTpchQ12 example_enough) as (gs & Hgs & _). exists gs. split; [exact Hgs|].
  exact (GeneratePqp_data_flow pretty fresh (λ s, is_fresh s) example_configuration kSf1 example_shuffle example_storage example_random
    ltac:(discriminate) example_counts example_tables example_listed kTpchQ12 gs example_enough ltac:(discriminate) Hgs).
Defined.
