(* ===== verification/Compiler.v ===== *)
(** * Compilers and their configuration

    [compiler/abstract_compiler.cpp] and [compiler/pqp_generator/etl_pqp_generator.cpp]: how a
    request names a compiler, what it is configured with, and the pipeline of the ETL query,
    which copies the orders of TPC-H as CSV. *)

From stdpp Require Import pretty.
From S2P Require Export TpchGenerator.
From S2P Require ChunkReader PipelineScheduler ObjectReader.

Local Open Scope string_scope.

Inductive CompilerName : Set := kEtl | kProcessMining | kSql | kTpch | kTpcxbb.
#[export] Instance CompilerName_eq_dec : EqDecision CompilerName.
Proof. solve_decision. Defined.
#[export] Instance QueryId_eq_dec : EqDecision QueryId.
Proof. solve_decision. Defined.

Definition kSkyriseTestBucket : string := "skyrise-test-bucket-tum".

Definition kCoordinatorRequestCompilerNameAttribute : string := "compiler_name".
Definition kCoordinatorRequestQueryPlanAttribute : string := "query_plan".
Definition kCoordinatorRequestQueryStringAttribute : string := "query_string".
Definition kCoordinatorRequestScaleFactorAttribute : string := "scale_factor".
Definition kCoordinatorRequestShuffleStorageAttribute : string := "storage_prefix".
Definition kCoordinatorRequestWorkerFunctionAttribute : string := "worker_function_name".
Definition kCoordinatorRequestQueryConfigurationAttribute : string := "query_configuration".

(** ** The ETL query *)
Section Etl.
Context {A : Type}.
Variables (address_text : N → string) (allocate : gset N → N).
Variables (query_id_ : QueryId) (scale_factor_ : ScaleFactor) (shuffle_storage_ : ObjectReference).

Definition Etl_plan : result (N * Plan A) :=
  '(import_operator, plan) ← import_proxy "import" [0; 1; 2; 3; 4; 5; 7]%N ∅;
  output_placeholder ← make_ObjectReference kSkyriseTestBucket "output.csv" EmptyString None;
  make_proxy (ExportOperatorProxy output_placeholder kCsv false) "export" (Some import_operator) None plan.

Definition object_count : nat :=
  match scale_factor_ with kSf1 => 1 | kSf10 => 3 | kSf100 => 25 | kSf1000 => 249 end.

Definition tpch_orders_prefix : string := "tpc-h/standard/parquet/sf" +:+ scale_factor_infix scale_factor_ +:+ "/orders/".

Definition Etl_input (i : nat) : result ObjectReference :=
  make_ObjectReference kS3BenchmarkDatasetsBucket (tpch_orders_prefix +:+ pretty i +:+ ".parquet") EmptyString None.
Definition Etl_output (i : nat) : result ObjectReference :=
  make_ObjectReference (bucket_name shuffle_storage_) (identifier shuffle_storage_ +:+ "/" +:+ pretty i +:+ ".csv") EmptyString None.

Definition Etl_fragment (input_object output_object : ObjectReference) : PipelineFragmentDefinition :=
  mkPipelineFragmentDefinition (push_object "pipeline-import" ∅ input_object) output_object kCsv.

Definition Etl_GeneratePqp : result (list GeneratedPipeline) :=
  _ ← assert_ (bool_decide (query_id_ = kEtlCopyTpchOrders)) AssertionFailed;
  '(export_operator, plan) ← Etl_plan;
  objects ← mapR (λ i, input_object ← Etl_input i; output_object ← Etl_output i; Ok (input_object, output_object)) (seq 0 object_count);
  pipeline ← new_pipeline address_text allocate "pipeline" export_operator plan (Ok ((λ p, Etl_fragment p.1 p.2) <$> objects));
  Ok [pipeline].
End Etl.

(** ** Configurations *)
Section Configuration.
Context {J : Type} `{Json J} `{MagicEnum CompilerName} `{MagicEnum QueryId} `{MagicEnum ScaleFactor} `{MagicEnum JoinAlgorithm} {A : Type}.

(** The members that both classes share, and the classes. *)
Record ConfigMembers : Type := mkConfigMembers {
  compiler_name_ : CompilerName;
  query_id_ : QueryId;
  scale_factor_ : ScaleFactor;
  shuffle_storage_ : ObjectReference }.

Inductive AbstractCompilerConfig : Type :=
  | EtlPqpGeneratorConfig (members : ConfigMembers)
  | TpchPqpGeneratorConfig (members : ConfigMembers) (query_configuration_ : J).

Definition config_members (config : AbstractCompilerConfig) : ConfigMembers :=
  match config with EtlPqpGeneratorConfig members | TpchPqpGeneratorConfig members _ => members end.

Definition Config_FromJson (json : J) : result AbstractCompilerConfig :=
  compiler_name ← enum_value (GetString json kCoordinatorRequestCompilerNameAttribute);
  query_id ← enum_value (GetString json kCoordinatorRequestQueryPlanAttribute);
  scale_factor ← enum_value (GetString json kCoordinatorRequestScaleFactorAttribute);
  shuffle_storage ← ObjectReference_FromJson (GetObject json kCoordinatorRequestShuffleStorageAttribute);
  let query_configuration := GetObject json kCoordinatorRequestQueryConfigurationAttribute in
  let members := mkConfigMembers compiler_name query_id scale_factor shuffle_storage in
  match compiler_name with
  | kEtl => Ok (EtlPqpGeneratorConfig members)
  | kTpch => Ok (TpchPqpGeneratorConfig members query_configuration)
  | kProcessMining | kSql | kTpcxbb => Err AssertionFailed
  end.

Definition Config_ToJson (config : AbstractCompilerConfig) : J :=
  let members := config_members config in
  WithObject (WithString (WithString (WithString JsonValue
    kCoordinatorRequestCompilerNameAttribute (enum_name (compiler_name_ members)))
    kCoordinatorRequestQueryPlanAttribute (enum_name (query_id_ members)))
    kCoordinatorRequestScaleFactorAttribute (enum_name (scale_factor_ members)))
    kCoordinatorRequestShuffleStorageAttribute (ObjectReference_ToJson (shuffle_storage_ members)).

(** [GenerateCompiler] and the compiler's [GeneratePqp]. *)
Variables (address_text : N → string) (allocate : gset N → N).
Variables (ListObjects : string → list ObjectReader.ObjectStatus * ChunkReader.StorageErrorType) (RandomString : string → nat → string).

Definition CompileConfig (config : AbstractCompilerConfig) : result (list (GeneratedPipeline (A:=A))) :=
  match config with
  | EtlPqpGeneratorConfig members =>
      Etl_GeneratePqp address_text allocate (query_id_ members) (scale_factor_ members) (shuffle_storage_ members)
  | TpchPqpGeneratorConfig members query_configuration =>
      GeneratePqp address_text allocate query_configuration (scale_factor_ members) (shuffle_storage_ members) ListObjects RandomString
        (query_id_ members)
  end.
End Configuration.
Arguments AbstractCompilerConfig J : clear implicits.
