(* ===== verification/Coordinator.v ===== *)
(** * The coordinator function

    [bin/function/coordinator_function.cpp]: a request is validated, compiled and executed,
    and answered with the object of the query's result and statistics of its workers and
    their costs ([utils/costs/cost_calculator.cpp]).  The executor's answers are a sequence of
    events; the clock, the environment, prices, presigned URLs and the metering documents of
    the workers are parameters. *)

From Stdlib Require Import SpecFloat.
From S2P Require Export Compiler.
From S2P Require PipelineScheduler S3Reader FilesystemStorage.

Import PipelineScheduler (emplace, supdate, PqpPipelineTask, FragmentExecutionResult, fragment_execution_results, runtime_ms,
  function_instance_size_mb, export_data_size_bytes, import_data_size_bytes, tasks_, error_message_, scheduler).

Local Open Scope string_scope.

(** ** Costs: [long double] has 64 bits of precision *)
Definition long_double_prec : Z := 64.
Definition long_double_emax : Z := 16384.
Definition ld_of_Z (z : Z) : spec_float := binary_normalize long_double_prec long_double_emax z 0 false.
Definition ld_mul : spec_float → spec_float → spec_float := SFmul long_double_prec long_double_emax.
Definition ld_div : spec_float → spec_float → spec_float := SFdiv long_double_prec long_double_emax.
Definition ld_add : spec_float → spec_float → spec_float := SFadd long_double_prec long_double_emax.
Definition double_add : spec_float → spec_float → spec_float := SFadd (prec_of kDouble) (emax_of kDouble).

Record Pricing : Type := mkPricing {
  lambda_price_request : spec_float;
  price_gb_second : spec_float;
  price_provisioned_gb_second : spec_float;
  price_request_tier1 : spec_float;
  price_request_tier2 : spec_float;
  price_standard_requests : spec_float }.

Section Costs.
Variable pricing : Pricing.

Definition MBToGB (n : Z) : spec_float := ld_div (ld_of_Z n) (ld_of_Z 1000).

Definition CalculateCostLambda (compute_duration_ms function_instance_size_mb : Z) (is_provisioned_concurrency : bool) : spec_float :=
  let price_gb_second := if is_provisioned_concurrency then price_provisioned_gb_second pricing else price_gb_second pricing in
  let duration_cost := ld_mul (ld_mul price_gb_second (MBToGB function_instance_size_mb))
    (ld_div (ld_of_Z compute_duration_ms) (ld_of_Z 1000)) in
  ld_add duration_cost (lambda_price_request pricing).

Definition CalculateCostLambdaRequests (request_count : Z) : spec_float := ld_mul (ld_of_Z request_count) (lambda_price_request pricing).

Definition CalculateCostS3Requests (requests_tier1 requests_tier2 : Z) : spec_float :=
  ld_add (ld_mul (ld_of_Z requests_tier1) (price_request_tier1 pricing)) (ld_mul (ld_of_Z requests_tier2) (price_request_tier2 pricing)).

Definition CalculateCostSQSRequests (standard_requests_count : Z) : spec_float :=
  ld_mul (ld_of_Z standard_requests_count) (price_standard_requests pricing).
End Costs.

(** ** Statistics; all counts are [size_t] *)
Record PipelineWorkerStatistics : Type := mkPipelineWorkerStatistics {
  fragment_count : Z;
  fragment_runtimes : list Z;
  average_runtime_ms : Z;
  max_fragment_runtime_ms : Z;
  fragment_bytes_consumed : list Z;
  average_bytes_consumed : Z;
  max_bytes_consumed : Z;
  fragment_bytes_written : list Z;
  average_bytes_written : Z;
  max_bytes_written : Z }.

Definition new_statistics (count : Z) : PipelineWorkerStatistics := mkPipelineWorkerStatistics count [] 0 0 [] 0 0 [] 0 0.

(** The body of the loop: the averages are sums until the end. *)
Definition count_fragment (s : PipelineWorkerStatistics) (r : FragmentExecutionResult) : PipelineWorkerStatistics :=
  mkPipelineWorkerStatistics (fragment_count s)
    (fragment_runtimes s ++ [runtime_ms r]) (wrap_uint64 (average_runtime_ms s + runtime_ms r)) (Z.max (max_fragment_runtime_ms s) (runtime_ms r))
    (fragment_bytes_consumed s ++ [import_data_size_bytes r]) (wrap_uint64 (average_bytes_consumed s + import_data_size_bytes r))
      (Z.max (max_bytes_consumed s) (import_data_size_bytes r))
    (fragment_bytes_written s ++ [export_data_size_bytes r]) (wrap_uint64 (average_bytes_written s + export_data_size_bytes r))
      (Z.max (max_bytes_written s) (export_data_size_bytes r)).

Definition GetPipelineWorkerStatistics (pipeline_task : PqpPipelineTask) : result PipelineWorkerStatistics :=
  let results := fragment_execution_results pipeline_task in
  let s := foldl count_fragment (new_statistics (Z.of_nat (length results))) results in
  let n := fragment_count s in
  if (n =? 0)%Z then Err UndefinedBehaviour
  else Ok (mkPipelineWorkerStatistics n (fragment_runtimes s) (average_runtime_ms s / n) (max_fragment_runtime_ms s)
    (fragment_bytes_consumed s) (average_bytes_consumed s / n) (max_bytes_consumed s)
    (fragment_bytes_written s) (average_bytes_written s / n) (max_bytes_written s)).

Record WorkerStatistics : Type := mkWorkerStatistics {
  worker_memory_size_mb : Z;
  worker_invocation_count : Z;
  worker_accumulated_runtime_ms : Z;
  fragments_count : Z;
  worker_accumulated_request_counts : list (string * Z);
  pipeline_workers_statistics : list (string * PipelineWorkerStatistics) }.

Section Coordinator.
Context {J : Type} `{Json J} `{MagicEnum CompilerName} `{MagicEnum QueryId} `{MagicEnum ScaleFactor} `{MagicEnum JoinAlgorithm} {A : Type}.
Variable metering : FragmentExecutionResult → J.

(** [counts[request_type] += requests.GetInteger("finished")]. *)
Definition add_requests (counts : list (string * Z)) (request_type : string * J) : list (string * Z) :=
  supdate (λ n, wrap_uint64 (n + GetInteger request_type.2 "finished")) request_type.1 (emplace request_type.1 0%Z counts).

Definition add_fragment (s : WorkerStatistics) (r : FragmentExecutionResult) : WorkerStatistics :=
  mkWorkerStatistics (worker_memory_size_mb s) (worker_invocation_count s)
    (wrap_uint64 (worker_accumulated_runtime_ms s + runtime_ms r)) (wrap_uint64 (fragments_count s + 1))
    (foldl add_requests (worker_accumulated_request_counts s) (GetAllObjects (metering r))) (pipeline_workers_statistics s).

Definition add_pipeline (s : WorkerStatistics) (pipeline_task : PqpPipelineTask) : result WorkerStatistics :=
  match fragment_execution_results pipeline_task with
  | [] => Ok s
  | front :: _ =>
      let memory_size := if (worker_memory_size_mb s =? 0)%Z then function_instance_size_mb front else worker_memory_size_mb s in
      let results := fragment_execution_results pipeline_task in
      statistics ← GetPipelineWorkerStatistics pipeline_task;
      let pipeline_id := PipelineScheduler.Identity (PipelineScheduler.pqp_pipeline pipeline_task) in
      let pipelines := supdate (λ _, statistics) pipeline_id (emplace pipeline_id statistics (pipeline_workers_statistics s)) in
      Ok (foldl add_fragment
        (mkWorkerStatistics memory_size (wrap_uint64 (worker_invocation_count s + Z.of_nat (length results)))
          (worker_accumulated_runtime_ms s) (fragments_count s) (worker_accumulated_request_counts s) pipelines) results)
  end.

Definition GetWorkerStatistics (pipeline_tasks : list PqpPipelineTask) : result WorkerStatistics :=
  foldR add_pipeline (mkWorkerStatistics 0 0 0 0 [] []) pipeline_tasks.

(** *** Documents *)
Definition PipelineWorkerStatistics_ToJson (s : PipelineWorkerStatistics) : J :=
  let integers l : list J := (λ z, As (AInteger (wrap_int32 z))) <$> l in
  let pipeline_json := WithInteger JsonValue "fragment_count" (wrap_int32 (fragment_count s)) in
  let pipeline_json := WithInt64 pipeline_json "avg_runtime" (wrap_int64 (average_runtime_ms s)) in
  let pipeline_json := WithInt64 pipeline_json "max_fragment_runtime" (wrap_int64 (max_fragment_runtime_ms s)) in
  let pipeline_json := WithInt64 pipeline_json "avg_bytes_consumed" (wrap_int64 (average_bytes_consumed s)) in
  let pipeline_json := WithInt64 pipeline_json "max_bytes_consumed" (wrap_int64 (max_bytes_consumed s)) in
  let pipeline_json := WithInt64 pipeline_json "avg_bytes_written" (wrap_int64 (average_bytes_written s)) in
  let pipeline_json := WithInt64 pipeline_json "max_bytes_written" (wrap_int64 (max_bytes_written s)) in
  let pipeline_json := WithArray pipeline_json "fragment_runtimes" (integers (fragment_runtimes s)) in
  let pipeline_json := WithArray pipeline_json "fragment_bytes_consumed" (integers (fragment_bytes_consumed s)) in
  WithArray pipeline_json "fragment_bytes_written" (integers (fragment_bytes_written s)).

Definition GetPipelineWorkerStatisticsJson (worker_statistics : WorkerStatistics) : J :=
  foldl (λ json p, WithObject json p.1 (PipelineWorkerStatistics_ToJson p.2)) JsonValue (pipeline_workers_statistics worker_statistics).

(** The numbers of requests: SQS, S3 tier 1 and S3 tier 2. *)
Definition add_request_count (counts : Z * Z * Z) (request : string * Z) : Z * Z * Z :=
  let '(sqs, tier1, tier2) := counts in
  let '(request_name, n) := request in
  if FilesystemStorage.starts_with request_name "SQS" then (wrap_uint64 (sqs + n), tier1, tier2)
  else if FilesystemStorage.starts_with request_name "S3" then
    if String.eqb request_name "S3:PutObject" then (sqs, wrap_uint64 (tier1 + n), tier2) else (sqs, tier1, wrap_uint64 (tier2 + n))
  else counts.

Variable pricing : Pricing.

Definition AddCostStatisticsToQueryResult (coordinator_runtime_ms coordinator_memory_size_mb : Z) (worker_statistics : WorkerStatistics)
    (coordinator_requests : option (list (string * Z))) (query_result : J) : J :=
  let double f := float_convert kDouble f in
  let coordinator_cost := double (CalculateCostLambda pricing coordinator_runtime_ms coordinator_memory_size_mb false) in
  let worker_cost := double (CalculateCostLambda pricing (worker_accumulated_runtime_ms worker_statistics)
    (worker_memory_size_mb worker_statistics) false) in
  let compute_cost := double_add coordinator_cost worker_cost in
  let lambda_requests_count := wrap_uint64 (1 + fragments_count worker_statistics) in
  let worker_requests := worker_accumulated_request_counts worker_statistics in
  let request_count_statistics := foldl (λ json r, WithInt64 json r.1 (wrap_int64 r.2)) JsonValue worker_requests in
  let '(sqs, tier1, tier2) := foldl add_request_count (0%Z, 0%Z, 0%Z) (worker_requests ++ from_option id [] coordinator_requests) in
  let s3_requests_cost := double (CalculateCostS3Requests pricing tier1 tier2) in
  let sqs_requests_cost := double (CalculateCostSQSRequests pricing sqs) in
  let lambda_requests_cost := double (CalculateCostLambdaRequests pricing lambda_requests_count) in
  let query_result := WithDouble query_result "execution_cost_dollars" compute_cost in
  let query_result := WithInt64 query_result "s3_tier1_requests_count" (wrap_int64 tier1) in
  let query_result := WithInt64 query_result "s3_tier2_requests_count" (wrap_int64 tier2) in
  let query_result := WithDouble query_result "s3_request_cost_dollars" s3_requests_cost in
  let query_result := WithInt64 query_result "sqs_requests_count" (wrap_int64 sqs) in
  let query_result := WithDouble query_result "sqs_requests_cost_dollars" sqs_requests_cost in
  let query_result := WithInt64 query_result "lambda_invocation_count" (wrap_int64 lambda_requests_count) in
  let query_result := WithDouble query_result "lambda_requests_cost_dollars" lambda_requests_cost in
  let query_result := WithDouble query_result "total_cost_dollars"
    (double_add (double_add (double_add sqs_requests_cost s3_requests_cost) compute_cost) lambda_requests_cost) in
  WithObject query_result "worker_request_counts" request_count_statistics.

(** ** The handler *)
Definition ValidateRequest (request : J) : bool :=
  KeyExists request kCoordinatorRequestCompilerNameAttribute &&
  (KeyExists request kCoordinatorRequestQueryPlanAttribute || KeyExists request kCoordinatorRequestQueryStringAttribute) &&
  KeyExists request kCoordinatorRequestScaleFactorAttribute &&
  KeyExists request kCoordinatorRequestShuffleStorageAttribute &&
  KeyExists request kCoordinatorRequestWorkerFunctionAttribute &&
  KeyExists request kCoordinatorRequestQueryConfigurationAttribute.

(** [Waiting] as long as the scheduler's wait has not ended. *)
Inductive invocation_response : Type :=
  | Waiting
  | failure (message : string)
  | success (body : J).

Variables (address_text : N → string) (allocate : gset N → N).
Variables (ListObjects : string → list ObjectReader.ObjectStatus * ChunkReader.StorageErrorType) (RandomString : string → nat → string).
Variables (GeneratePresignedUrl : string → string → string) (AWS_LAMBDA_FUNCTION_MEMORY_SIZE : option string).
Variables (execution_runtime_ms : Z) (coordinator_requests : option (list (string * Z))).

(** The memory size; [stoull] throws on other text. *)
Definition coordinator_memory_size : result Z :=
  match AWS_LAMBDA_FUNCTION_MEMORY_SIZE with Some s => n ← S3Reader.stoull s; Ok (Z.of_N n) | None => Ok 0%Z end.

Definition execution_statistics (coordinator_memory_size_mb : Z) (worker_statistics : WorkerStatistics) : J :=
  let serialized_statistics := WithInteger JsonValue "execution_runtime_ms" (wrap_int32 execution_runtime_ms) in
  let serialized_statistics := WithInteger serialized_statistics "coordinator_memory_size_mb" (wrap_int32 coordinator_memory_size_mb) in
  let serialized_statistics := WithInteger serialized_statistics "worker_memory_size_mb" (wrap_int32 (worker_memory_size_mb worker_statistics)) in
  let serialized_statistics := WithInteger serialized_statistics "worker_invocation_count"
    (wrap_int32 (worker_invocation_count worker_statistics)) in
  let serialized_statistics := WithInteger serialized_statistics "worker_accumulated_runtime_ms"
    (wrap_int32 (worker_accumulated_runtime_ms worker_statistics)) in
  let serialized_statistics := AddCostStatisticsToQueryResult execution_runtime_ms coordinator_memory_size_mb worker_statistics
    coordinator_requests serialized_statistics in
  WithObject serialized_statistics "pipelines_stats" (GetPipelineWorkerStatisticsJson worker_statistics).

(** After [Execute] has returned; an exception of [stoull] is caught outside, and the response
    is still empty then. *)
Definition respond (sys : PipelineScheduler.System) : result invocation_response :=
  let s := scheduler sys in
  final_result ← PipelineScheduler.final_result s;
  if PipelineScheduler.HasError s then Ok (failure (error_message_ s)) else
  result ← of_option final_result UndefinedBehaviour;
  let result_url := GeneratePresignedUrl (bucket_name result) (identifier result) in
  match coordinator_memory_size with
  | Err _ => Ok (success JsonValue)
  | Ok coordinator_memory_size_mb =>
      worker_statistics ← GetWorkerStatistics (snd <$> tasks_ s);
      Ok (success (WithObject (WithString (WithObject JsonValue "result" (ObjectReference_ToJson result)) "result_url" result_url)
        "execution_statistics" (execution_statistics coordinator_memory_size_mb worker_statistics)))
  end.

(** The compilation is outside the block whose exceptions are caught, the construction of the
    scheduler inside. *)
Definition OnHandleRequest (request : J) (events : list PipelineScheduler.event) : result invocation_response :=
  if negb (ValidateRequest request) then Ok (failure "Invalid parameters provided.") else
  compiler_config ← Config_FromJson request;
  pipelines ← CompileConfig (A:=A) address_text allocate ListObjects RandomString compiler_config;
  match PipelineScheduler.start (gp_pipeline <$> pipelines) with
  | Err _ => Ok (success JsonValue)
  | Ok sys =>
      sys ← PipelineScheduler.run sys events;
      if PipelineScheduler.execution_done (scheduler sys) then respond sys else Ok Waiting
  end.
End Coordinator.
Arguments invocation_response J : clear implicits.
