(* ===== verification/CoordinatorCorrect.v ===== *)
(** * From a request to its response

    Every request for a supported query with enough objects is answered: the compiler's
    pipelines are executable, the scheduler runs them to the end under every order of answers,
    and the response names the query's result or reports a failed worker. *)

From stdpp Require Import pretty.
From S2P Require Export Coordinator TpchCorrect OperatorRoundtrip.
From S2P Require PipelineSchedulerCorrect.
From S2P Require Import JsonInstances.

(** ** The statistics of a query's workers

    The numbers that [Coordinator] reports for a finished query: counts, averages and maxima
    of what the fragments of every pipeline reported. *)

Import PipelineScheduler (emplace, supdate, PqpPipelineTask, FragmentExecutionResult, fragment_execution_results, runtime_ms,
  function_instance_size_mb, export_data_size_bytes, import_data_size_bytes).

Local Open Scope Z_scope.

Definition sum_of (f : FragmentExecutionResult → Z) (rs : list FragmentExecutionResult) : Z := foldr Z.add 0 (f <$> rs).
Definition max_of (f : FragmentExecutionResult → Z) (rs : list FragmentExecutionResult) : Z := foldr Z.max 0 (f <$> rs).

Lemma wrap_uint64_add a b : wrap_uint64 (wrap_uint64 a + b) = wrap_uint64 (a + b).
Proof. unfold wrap_uint64. by rewrite Zplus_mod_idemp_l. Qed.

Lemma wrap_uint64_idem a : wrap_uint64 (wrap_uint64 a) = wrap_uint64 a.
Proof. unfold wrap_uint64. by rewrite Zmod_mod. Qed.

Lemma wrap_uint64_small z : 0 <= z < 2 ^ 64 → wrap_uint64 z = z.
Proof. apply Z.mod_small. Qed.

Lemma max_of_nonneg f rs : 0 <= max_of f rs.
Proof. unfold max_of. induction rs as [|r rs IH]; cbn [fmap list_fmap foldr]; lia. Qed.

(** ** One pipeline *)
Section Metric.
Variables (f : FragmentExecutionResult → Z) (rs : list FragmentExecutionResult).
Hypothesis Hf : Forall (λ r, 0 <= f r) rs.

Lemma sum_of_nonneg : 0 <= sum_of f rs.
Proof. unfold sum_of. induction Hf as [|r l Hr Hl IH]; [done|]. specialize (IH Hl). cbn [fmap list_fmap foldr]. lia. Qed.

Lemma max_of_spec : rs ≠ [] → (∃ r, r ∈ rs ∧ max_of f rs = f r) ∧ ∀ r, r ∈ rs → f r <= max_of f rs.
Proof.
  unfold max_of. induction Hf as [|r l Hr Hl IH]; [done|]. intros _. specialize (IH Hl). cbn [fmap list_fmap foldr]. destruct l as [|r' l].
  - cbn [fmap list_fmap foldr]. rewrite Z.max_l by done. split; [exists r; split; [by left|done]|]. by intros r' ->%list_elem_of_singleton.
  - destruct IH as [(s & Hs & Hm) Hall]; [done|]. split.
    + destruct (Z.max_spec (f r) (foldr Z.max 0 (f <$> r' :: l))) as [[_ ->]|[_ ->]]; [exists s; split; [by right|done]|exists r; split; [by left|done]].
    + intros x [->|Hx]%elem_of_cons; [lia|]. specialize (Hall x Hx). lia.
Qed.

(** The mean lies between zero and the maximum. *)
Lemma mean_le_max : rs ≠ [] → 0 <= sum_of f rs / Z.of_nat (length rs) <= max_of f rs.
Proof.
  intros Hne. destruct (max_of_spec Hne) as [_ Hall]. assert (0 < Z.of_nat (length rs)) as Hpos by (destruct rs; [done|cbn; lia]).
  split; [apply Z.div_pos; [apply sum_of_nonneg|done]|]. apply Z.div_le_upper_bound; [done|]. clear Hne Hpos Hf.
  assert (∀ m, (∀ r, r ∈ rs → f r <= m) → sum_of f rs <= Z.of_nat (length rs) * m) as Hsum; [|by apply Hsum].
  clear Hall. intros m Hall. unfold sum_of. induction rs as [|r l IH]; cbn; [lia|].
  assert (f r <= m) by (apply Hall; by left). specialize (IH (λ r Hr, Hall r (list_elem_of_further _ _ _ Hr))). lia.
Qed.
End Metric.

Lemma count_fragments_spec rs s :
  foldl count_fragment s rs = mkPipelineWorkerStatistics (fragment_count s)
    (fragment_runtimes s ++ (runtime_ms <$> rs)) (foldl (λ a r, wrap_uint64 (a + runtime_ms r)) (average_runtime_ms s) rs)
      (foldl (λ a r, Z.max a (runtime_ms r)) (max_fragment_runtime_ms s) rs)
    (fragment_bytes_consumed s ++ (import_data_size_bytes <$> rs)) (foldl (λ a r, wrap_uint64 (a + import_data_size_bytes r)) (average_bytes_consumed s) rs)
      (foldl (λ a r, Z.max a (import_data_size_bytes r)) (max_bytes_consumed s) rs)
    (fragment_bytes_written s ++ (export_data_size_bytes <$> rs)) (foldl (λ a r, wrap_uint64 (a + export_data_size_bytes r)) (average_bytes_written s) rs)
      (foldl (λ a r, Z.max a (export_data_size_bytes r)) (max_bytes_written s) rs).
Proof.
  revert s. induction rs as [|r rs IH]; intros s; cbn [foldl].
  - destruct s. cbn. by rewrite !app_nil_r.
  - rewrite IH. cbn. by rewrite <- !app_assoc.
Qed.

Lemma foldl_sum f rs a : 0 <= a < 2 ^ 64 → foldl (λ a r, wrap_uint64 (a + f r)) a rs = wrap_uint64 (a + sum_of f rs).
Proof.
  intros Ha. rewrite <- (wrap_uint64_small a Ha) at 1. clear Ha. revert a. induction rs as [|r rs IH]; intros a; cbn [foldl].
  - unfold sum_of. cbn. by rewrite Z.add_0_r.
  - rewrite wrap_uint64_add, IH. unfold sum_of. cbn. f_equal. lia.
Qed.

Lemma foldl_max f (rs : list FragmentExecutionResult) a : 0 <= a → foldl (λ a r, Z.max a (f r)) a rs = Z.max a (max_of f rs).
Proof.
  revert a. induction rs as [|r rs IH]; intros a Ha; cbn [foldl]; [unfold max_of; cbn; lia|]. rewrite IH by lia. unfold max_of. cbn. lia.
Qed.

Definition has_results (task : PqpPipelineTask) : Prop := fragment_execution_results task ≠ [].

(** What is reported for one quantity: all values, their mean and their maximum. *)
Definition reports (f : FragmentExecutionResult → Z) (rs : list FragmentExecutionResult) (values : list Z) (average maximum : Z) : Prop :=
  values = f <$> rs ∧ average = wrap_uint64 (sum_of f rs) / Z.of_nat (length rs) ∧ maximum = max_of f rs.

Lemma GetPipelineWorkerStatistics_spec task :
  has_results task →
  let rs := fragment_execution_results task in
  ∃ s, GetPipelineWorkerStatistics task = Ok s ∧ fragment_count s = Z.of_nat (length rs) ∧
    reports runtime_ms rs (fragment_runtimes s) (average_runtime_ms s) (max_fragment_runtime_ms s) ∧
    reports import_data_size_bytes rs (fragment_bytes_consumed s) (average_bytes_consumed s) (max_bytes_consumed s) ∧
    reports export_data_size_bytes rs (fragment_bytes_written s) (average_bytes_written s) (max_bytes_written s).
Proof.
  intros Hne. cbv zeta. unfold GetPipelineWorkerStatistics. rewrite count_fragments_spec. cbn -[Z.div Z.of_nat wrap_uint64].
  rewrite !foldl_sum by lia. rewrite !foldl_max by lia. unfold has_results in Hne.
  destruct (_ =? 0) eqn:H0; [apply Z.eqb_eq in H0; destruct (fragment_execution_results task); [done|cbn in H0; lia]|].
  assert (∀ f : FragmentExecutionResult → Z, Z.max 0 (max_of f (fragment_execution_results task)) = max_of f (fragment_execution_results task)) as Hmax.
  { intros f. apply Z.max_r, max_of_nonneg. }
  eexists. split; [reflexivity|]. cbn. rewrite !Hmax. by repeat split.
Qed.

(** ** All pipelines *)
Section All.
Context {J : Type} `{Json J}.
Variable metering : FragmentExecutionResult → J.

Lemma add_fragments_spec rs s :
  let s' := foldl (add_fragment metering) s rs in
  worker_invocation_count s' = worker_invocation_count s ∧ worker_memory_size_mb s' = worker_memory_size_mb s ∧
  pipeline_workers_statistics s' = pipeline_workers_statistics s ∧
  wrap_uint64 (fragments_count s') = wrap_uint64 (fragments_count s + Z.of_nat (length rs)) ∧
  wrap_uint64 (worker_accumulated_runtime_ms s') = wrap_uint64 (worker_accumulated_runtime_ms s + sum_of runtime_ms rs).
Proof.
  revert s. induction rs as [|r rs IH]; intros s; cbn [foldl].
  - unfold sum_of. cbn. by rewrite !Z.add_0_r.
  - destruct (IH (add_fragment metering s r)) as (-> & -> & -> & -> & ->). cbn -[Z.of_nat wrap_uint64].
    rewrite !wrap_uint64_add. unfold sum_of. cbn -[Z.of_nat wrap_uint64]. split_and!; try done; f_equal; lia.
Qed.

Definition total_results (tasks : list PqpPipelineTask) : Z := foldr Z.add 0 ((λ t, Z.of_nat (length (fragment_execution_results t))) <$> tasks).
Definition total_runtime (tasks : list PqpPipelineTask) : Z := foldr Z.add 0 ((λ t, sum_of runtime_ms (fragment_execution_results t)) <$> tasks).

Lemma GetWorkerStatistics_fold tasks s :
  ∃ s', foldR (add_pipeline metering) s tasks = Ok s' ∧
    wrap_uint64 (worker_invocation_count s') = wrap_uint64 (worker_invocation_count s + total_results tasks) ∧
    wrap_uint64 (fragments_count s') = wrap_uint64 (fragments_count s + total_results tasks) ∧
    wrap_uint64 (worker_accumulated_runtime_ms s') = wrap_uint64 (worker_accumulated_runtime_ms s + total_runtime tasks).
Proof.
  revert s. induction tasks as [|t tasks IH]; intros s; cbn [foldR].
  - exists s. unfold total_results, total_runtime. cbn. by rewrite !Z.add_0_r.
  - unfold total_results, total_runtime in *. cbn [fmap list_fmap foldr].
    assert (∃ s1, add_pipeline metering s t = Ok s1 ∧
      wrap_uint64 (worker_invocation_count s1) = wrap_uint64 (worker_invocation_count s + Z.of_nat (length (fragment_execution_results t))) ∧
      wrap_uint64 (fragments_count s1) = wrap_uint64 (fragments_count s + Z.of_nat (length (fragment_execution_results t))) ∧
      wrap_uint64 (worker_accumulated_runtime_ms s1) = wrap_uint64 (worker_accumulated_runtime_ms s + sum_of runtime_ms (fragment_execution_results t)))
      as (s1 & -> & H1 & H2 & H3).
    { unfold add_pipeline. destruct (fragment_execution_results t) as [|r rs] eqn:Hrs.
      - exists s. unfold sum_of. cbn. by rewrite !Z.add_0_r.
      - destruct (GetPipelineWorkerStatistics_spec t) as (st & -> & _); [unfold has_results; by rewrite Hrs|]. cbn [rbind].
        eexists. split; [reflexivity|]. pose proof (add_fragments_spec (r :: rs)) as Hadd. cbv zeta in Hadd.
        match goal with |- context [foldl _ ?s0 _] => destruct (Hadd s0) as (-> & _ & _ & -> & ->) end.
        cbn -[Z.of_nat wrap_uint64 sum_of]. split_and!; [|done|done]. apply wrap_uint64_idem. }
    cbn [rbind]. destruct (IH s1) as (s' & -> & G1 & G2 & G3). exists s'. split; [done|].
    rewrite G1, G2, G3. rewrite <- (wrap_uint64_add (worker_invocation_count s1)), H1.
    rewrite <- (wrap_uint64_add (fragments_count s1)), H2. rewrite <- (wrap_uint64_add (worker_accumulated_runtime_ms s1)), H3.
    rewrite !wrap_uint64_add. split_and!; f_equal; lia.
Qed.
End All.

(** ** The reported numbers *)
(** The values are [size_t]s whose sum is one, too. *)
Definition summable (f : FragmentExecutionResult → Z) (rs : list FragmentExecutionResult) : Prop :=
  Forall (λ r, 0 <= f r) rs ∧ sum_of f rs < 2 ^ 64.

(** All values in order, their mean rounded down, and the largest. *)
Definition exact_report (f : FragmentExecutionResult → Z) (rs : list FragmentExecutionResult) (values : list Z) (average maximum : Z) : Prop :=
  values = f <$> rs ∧ average = sum_of f rs / Z.of_nat (length rs) ∧ 0 <= average <= maximum ∧
  (∃ r, r ∈ rs ∧ maximum = f r) ∧ ∀ r, r ∈ rs → f r <= maximum.

Lemma reports_exact f rs values average maximum :
  rs ≠ [] → summable f rs → reports f rs values average maximum → exact_report f rs values average maximum.
Proof.
  intros Hne [Hf Hsum] (-> & -> & ->). rewrite wrap_uint64_small by (split; [by apply sum_of_nonneg|done]).
  destruct (max_of_spec f rs Hf Hne) as [Hmax Hall]. split_and!; try done; by apply mean_le_max.
Qed.

(** C38: The statistics of a pipeline with results are exact as long as the sums of its
    fragments' numbers fit into 64 bits: every fragment's runtime, bytes read and bytes
    written in order, their mean rounded down, which lies between zero and the maximum, and
    the maximum, which is the number of some fragment and not below any; there is no division
    by zero. *)
Theorem GetPipelineWorkerStatistics_correct task :
  has_results task →
  let rs := fragment_execution_results task in
  summable runtime_ms rs → summable import_data_size_bytes rs → summable export_data_size_bytes rs →
  ∃ s, GetPipelineWorkerStatistics task = Ok s ∧ fragment_count s = Z.of_nat (length rs) ∧
    exact_report runtime_ms rs (fragment_runtimes s) (average_runtime_ms s) (max_fragment_runtime_ms s) ∧
    exact_report import_data_size_bytes rs (fragment_bytes_consumed s) (average_bytes_consumed s) (max_bytes_consumed s) ∧
    exact_report export_data_size_bytes rs (fragment_bytes_written s) (average_bytes_written s) (max_bytes_written s).
Proof.
  intros Hne rs H1 H2 H3. destruct (GetPipelineWorkerStatistics_spec task Hne) as (s & Hs & Hn & R1 & R2 & R3). exists s.
  split_and!; [done|done|by apply reports_exact..].
Qed.

(** Two fragments. *)
Definition example_task : PqpPipelineTask :=
  let answer time imported exported := PipelineScheduler.mkFragmentExecutionResult "p" "w" true EmptyString time 2048 exported imported in
  PipelineScheduler.mkPqpPipelineTask (PipelineScheduler.mkPqpPipeline "p" [] [] []) 0 0 [answer 10 100 7; answer 15 300 7] PipelineScheduler.kFinished.

Lemma GetPipelineWorkerStatistics_correct_witness :
  ∃ s, GetPipelineWorkerStatistics example_task = Ok s ∧ average_runtime_ms s = 12 ∧ max_bytes_consumed s = 300.
Proof.
  destruct (GetPipelineWorkerStatistics_correct example_task) as (s & Hs & _); [done|by split; [repeat constructor|]..|].
  exists s. split; [exact Hs|]. vm_compute in Hs. by injection Hs as <-.
Defined.

(** ** Requests and responses *)

Import PipelineScheduler (fragment_execution_results, tasks_, scheduler, start, run).
Import PipelineSchedulerCorrect (wf_pipelines, fragments_total, is_final_object, reachable, enabled).

Local Open Scope string_scope.

(** ** The ETL query *)
Section Etl.
Context {A : Type}.
Variables (address_text : N → string) (allocate : gset N → N).
Hypothesis Hallocate : ∀ s, allocate s ∉ s.
Variables (scale_factor_ : ScaleFactor) (shuffle_storage_ : ObjectReference).
Hypothesis Hbucket : bucket_name shuffle_storage_ ≠ EmptyString.

Lemma Etl_plan_ok : plan_ok (Etl_plan (A:=A)) ["import"] = true.
Proof. vm_compute. reflexivity. Qed.

Lemma link_nothing id ins outs (g : GeneratedPipeline (A:=A)) : generated address_text allocate id ins outs g → link_pipelines [] [g] = [g].
Proof.
  intros [Hp _ _ _]. rewrite link_pipelines_spec by apply NoDup_singleton. cbn. f_equal. unfold linked, link. destruct g as [p plan t].
  cbn in *. f_equal. rewrite Hp. done.
Qed.

Lemma Etl_GeneratePqp_ok :
  ∃ gs, Etl_GeneratePqp (A:=A) address_text allocate kEtlCopyTpchOrders scale_factor_ shuffle_storage_ = Ok gs ∧ executable address_text allocate gs.
Proof.
  unfold Etl_GeneratePqp. rewrite bool_decide_true by done. cbn [assert_ rbind].
  pose proof Etl_plan_ok as Hplan. destruct (Etl_plan (A:=A)) as [[root plan]|]; [|done]. cbn [rbind].
  set (input (i : nat) := mkObjectReference kS3BenchmarkDatasetsBucket (tpch_orders_prefix scale_factor_ +:+ pretty i +:+ ".parquet") EmptyString None).
  set (output (i : nat) := mkObjectReference (bucket_name shuffle_storage_) (identifier shuffle_storage_ +:+ "/" +:+ pretty i +:+ ".csv") EmptyString None).
  rewrite (mapR_total _ (λ i : nat, (input i, output i))).
  2:{ intros i _. unfold Etl_input, Etl_output, make_ObjectReference. rewrite !bool_decide_true; [done|..|done]; [|done|done].
      by destruct (identifier shuffle_storage_). }
  cbn [rbind]. rewrite <- list_fmap_compose.
  set (ds := _ <$> _). set (ins := input <$> seq 0 (object_count scale_factor_)).
  destruct (new_pipeline_spec address_text allocate Hallocate "pipeline" ["import"] root plan ins (Ok ds) ds Hplan) as (g & Hg & Hgen); [done|done| | |].
  - apply Forall_fmap, Forall_forall. intros i Hi. split; [done|]. cbn [compose identity_to_objects Etl_fragment fst snd].
    split; intros k Hk; unfold push_object; rewrite lookup_empty; cbn [from_option id app].
    + apply list_elem_of_singleton in Hk as ->. exists [input i]. rewrite lookup_insert_eq. split; [done|]. apply reads_sublist; [done|].
      intros o ->%list_elem_of_singleton. by apply list_elem_of_fmap_2.
    + rewrite lookup_insert_ne; [apply lookup_empty|]. intros <-. apply Hk. by left.
  - unfold ds. rewrite length_fmap, length_seq. destruct scale_factor_; cbn; lia.
  - rewrite Hg. cbn [rbind]. eexists. split; [reflexivity|]. rewrite <- (link_nothing _ _ _ _ Hgen).
    apply (pipelines_correct address_text allocate (λ _, []) (λ _, 0%nat) [("pipeline", ins, target_object <$> ds)] [g] [] []); try done.
    apply Forall2_cons_2; [done|constructor].
Qed.
End Etl.

(** ** Configurations *)
Section Configurations.
Context {J : Type} `{JsonLaws J} `{MagicEnumLaws CompilerName} `{MagicEnumLaws QueryId} `{MagicEnumLaws ScaleFactor}.

(** A request that carries the document of a configuration, and the query configuration that
    [ToJson] leaves out, is understood as that configuration. *)
Theorem Config_roundtrip (config : AbstractCompilerConfig J) (query_configuration : J) :
  valid_reference (shuffle_storage_ (config_members config)) →
  on_option (Forall (λ z, in_int32 z = true)) (partitions (shuffle_storage_ (config_members config))) →
  match config with
  | EtlPqpGeneratorConfig members => compiler_name_ members = kEtl
  | TpchPqpGeneratorConfig members q => compiler_name_ members = kTpch ∧ q = query_configuration
  end →
  Config_FromJson (WithObject (Config_ToJson config) kCoordinatorRequestQueryConfigurationAttribute query_configuration) = Ok config.
Proof.
  intros Hr Hp Hc. unfold Config_FromJson.
  rewrite (GetString_field _ _ (enum_name (compiler_name_ (config_members config)))),
    (GetString_field _ _ (enum_name (query_id_ (config_members config)))),
    (GetString_field _ _ (enum_name (scale_factor_ (config_members config)))),
    (GetObject_field _ _ (ObjectReference_ToJson (shuffle_storage_ (config_members config)))),
    (GetObject_field _ _ query_configuration) by (unfold Config_ToJson; member).
  rewrite !enum_value_name. cbn [rbind]. rewrite ObjectReference_roundtrip by done. cbn [rbind].
  destruct config as [[]|[] q]; cbn in *; [by subst|]. by destruct Hc as [-> ->].
Qed.
End Configurations.

(** ** The handler *)
Section Handler.
Context {J : Type} `{JsonLaws J} `{MagicEnum CompilerName} `{MagicEnum QueryId} `{MagicEnum ScaleFactor} `{MagicEnum JoinAlgorithm} {A : Type}.
Variables (metering : PipelineScheduler.FragmentExecutionResult → J) (pricing : Pricing).
Variables (address_text : N → string) (allocate : gset N → N).
Hypothesis Hallocate : ∀ s, allocate s ∉ s.
Variables (ListObjects : string → list ObjectReader.ObjectStatus * ChunkReader.StorageErrorType) (RandomString : string → nat → string).
Variables (GeneratePresignedUrl : string → string → string) (AWS_LAMBDA_FUNCTION_MEMORY_SIZE : option string).
Variables (execution_runtime_ms : Z) (coordinator_requests : option (list (string * Z))).

Abbreviation Compile := (CompileConfig (A:=A) address_text allocate ListObjects RandomString).
Abbreviation Handle := (OnHandleRequest (A:=A) metering pricing address_text allocate ListObjects RandomString GeneratePresignedUrl
  AWS_LAMBDA_FUNCTION_MEMORY_SIZE execution_runtime_ms coordinator_requests).

(** What the compiler needs: a bucket for the shuffle, positive worker counts, tables that can
    be listed and enough objects in them. *)
Definition compilable (config : AbstractCompilerConfig J) : Prop :=
  bucket_name (shuffle_storage_ (config_members config)) ≠ EmptyString ∧
  match config with
  | EtlPqpGeneratorConfig members => query_id_ members = kEtlCopyTpchOrders
  | TpchPqpGeneratorConfig members query_configuration =>
      (∀ p, (1 <= GetWorkerCount query_configuration p < 2 ^ 31)%Z) ∧
      ∃ tables, (∀ t, t ∈ ["lineitem"; "orders"; "customer"; "supplier"; "nation"; "region"] →
          ListTableObjects (scale_factor_ members) ListObjects t kParquet = Ok (tables t)) ∧
        enough_objects query_configuration tables (query_id_ members)
  end.

Lemma CompileConfig_ok config :
  compilable config → ∃ gs, Compile config = Ok gs ∧ executable address_text allocate gs.
Proof.
  destruct config as [members|members query_configuration]; intros [Hb Hc]; cbn [CompileConfig config_members] in *.
  - rewrite Hc. by apply Etl_GeneratePqp_ok.
  - destruct Hc as (Hcounts & tables & Htables & Henough).
    destruct (GeneratePqp_ok (A:=A) address_text allocate Hallocate query_configuration (scale_factor_ members) (shuffle_storage_ members)
      ListObjects RandomString Hb Hcounts tables Htables (query_id_ members) Henough) as (gs & Hgs & Hexec & _). by exists gs.
Qed.

(** A worker failed. *)
Definition some_failure (events : list PipelineScheduler.event) : bool :=
  existsb (λ e, match e with PipelineScheduler.Answer _ r => negb (PipelineScheduler.is_success r) | PipelineScheduler.Resume _ => false end) events.

(** The response names the result and counts one worker per fragment. *)
Definition names_result (ps : list PipelineScheduler.PqpPipeline) (body : J) : Prop :=
  ∃ o statistics, is_final_object ps o ∧ field body "result" = Some (AObject (ObjectReference_ToJson o)) ∧
    field body "result_url" = Some (AString (GeneratePresignedUrl (bucket_name o) (identifier o))) ∧
    field body "execution_statistics" = Some (AObject statistics) ∧
    field statistics "worker_invocation_count" = Some (AInteger (wrap_int32 (Z.of_nat (fragments_total ps)))).

Lemma wrap_int32_uint64 z : wrap_int32 (wrap_uint64 z) = wrap_int32 z.
Proof.
  unfold wrap_int32, wrap_uint64. f_equal. rewrite <- (Zplus_mod_idemp_l (z mod 2 ^ 64)), <- (Zplus_mod_idemp_l z).
  rewrite Z.mod_mod_divide; [done|by exists (2 ^ 32)%Z].
Qed.

Lemma total_results_fragments ps sys :
  wf_pipelines ps → PipelineSchedulerCorrect.system_ok ps sys → PipelineScheduler.AllTasksFinished (scheduler sys) = true →
  total_results (snd <$> tasks_ (scheduler sys)) = Z.of_nat (fragments_total ps).
Proof.
  intros Hwf Hok Hall. unfold fragments_total. rewrite <- (PipelineSchedulerCorrect.tasks_pipelines ps sys Hwf Hok) at 1.
  assert (∀ k t, (k, t) ∈ tasks_ (scheduler sys) → length (fragment_execution_results t) =
    length (PipelineScheduler.FragmentDefinitions (PipelineScheduler.pqp_pipeline t))) as Hlen.
  { intros k t. by apply (PipelineSchedulerCorrect.finished_results ps sys). }
  unfold total_results. induction (tasks_ (scheduler sys)) as [|[k t] m IH]; [done|]. cbn [fmap list_fmap foldr snd sum_list_with].
  rewrite IH by (intros k' t' Hin; apply (Hlen k' t'); by right). cbn [compose]. rewrite (Hlen k t) by by left. lia.
Qed.

Lemma respond_ok ps sys :
  wf_pipelines ps → PipelineSchedulerCorrect.acyclic ps → ps ≠ [] → PipelineSchedulerCorrect.system_ok ps sys →
  PipelineScheduler.AllTasksFinished (scheduler sys) = true → PipelineScheduler.HasError (scheduler sys) = false →
  is_ok (coordinator_memory_size AWS_LAMBDA_FUNCTION_MEMORY_SIZE) = true →
  ∃ body, respond metering pricing GeneratePresignedUrl AWS_LAMBDA_FUNCTION_MEMORY_SIZE execution_runtime_ms coordinator_requests sys =
    Ok (success body) ∧ names_result ps body.
Proof.
  intros Hwf Hdag Hne Hok Hall Herr Hmem. unfold respond.
  destruct (PipelineSchedulerCorrect.final_object ps sys Hwf Hdag Hne Hok) as (o & -> & Ho). cbn [rbind of_option]. rewrite Herr. cbn [rbind].
  destruct (coordinator_memory_size AWS_LAMBDA_FUNCTION_MEMORY_SIZE) as [mb|]; [|done].
  destruct (GetWorkerStatistics_fold metering (snd <$> tasks_ (scheduler sys)) (mkWorkerStatistics 0 0 0 0 [] [])) as (st & Hst & Hcount & _).
  unfold GetWorkerStatistics. rewrite Hst. cbn [rbind]. eexists. split; [reflexivity|].
  exists o, (execution_statistics pricing execution_runtime_ms coordinator_requests mb st).
  split_and!; [done|by member..|]. unfold execution_statistics, AddCostStatisticsToQueryResult.
  destruct (foldl add_request_count _ _) as [[sqs tier1] tier2]. cbv zeta.
  rewrite <- (total_results_fragments ps sys Hwf Hok Hall), <- (wrap_int32_uint64 (total_results _)).
  cbn [worker_invocation_count] in Hcount. rewrite Z.add_0_l in Hcount. rewrite <- Hcount, wrap_int32_uint64. by member.
Qed.
(** C13: The coordinator answers every valid request that it can compile, under every order in
    which workers answer: the executor has work as long as the response is outstanding, at most
    two steps per fragment; the response is a failure exactly when a worker failed, and otherwise
    names the object of the query's result and counts one worker per fragment. *)
Theorem OnHandleRequest_correct request config :
  ValidateRequest request = true → Config_FromJson request = Ok config → compilable config →
  is_ok (coordinator_memory_size AWS_LAMBDA_FUNCTION_MEMORY_SIZE) = true →
  ∃ gs sys0, Compile config = Ok gs ∧ start (gp_pipeline <$> gs) = Ok sys0 ∧
    ∀ events sys, run sys0 events = Ok sys →
      (length events <= 2 * fragments_total (gp_pipeline <$> gs))%nat ∧
      match Handle request events with
      | Ok Waiting => some_failure events = false ∧ ∃ e, enabled sys e
      | Ok (failure _) => some_failure events = true
      | Ok (success body) => some_failure events = false ∧ names_result (gp_pipeline <$> gs) body
      | Err _ => False
      end.
Proof.
  intros Hvalid Hconfig Hcomp Hmem. destruct (CompileConfig_ok config Hcomp) as (gs & Hgs & Hne & Hwf & Hdag & _).
  destruct (PipelineSchedulerCorrect.start_ok _ Hwf) as (sys0 & Hs & _ & Hm & Herr0). exists gs, sys0. split; [done|]. split; [done|].
  intros events sys Hrun.
  destruct (PipelineSchedulerCorrect.pipeline_run_ok _ _ _ _ Hwf (PipelineSchedulerCorrect.reachable_start _ _ Hs) Hrun) as (Hr & Hlen & Herr).
  pose proof (PipelineSchedulerCorrect.pipeline_reachable_ok _ _ Hwf Hr) as Hok. split; [lia|].
  unfold OnHandleRequest. rewrite Hvalid, Hconfig. cbn [negb rbind]. rewrite Hgs. cbn [rbind]. rewrite Hs, Hrun. cbn [rbind].
  rewrite Herr0, orb_false_r in Herr. fold (some_failure events) in Herr. unfold PipelineScheduler.execution_done.
  destruct (PipelineSchedulerCorrect.scheduler_progress _ sys Hwf Hdag Hok) as [He|Hall].
  all: destruct (PipelineScheduler.AllTasksFinished (scheduler sys)) eqn:Hall', (PipelineScheduler.HasError (scheduler sys)) eqn:Herr'; try done;
    cbn [orb].
  all: try (by split; [|exists He]).
  all: try (destruct (PipelineSchedulerCorrect.final_object _ sys Hwf Hdag ltac:(by destruct gs) Hok) as (o & Ho & _);
    unfold respond; rewrite Ho; cbn [rbind]; rewrite Herr'; done).
  all: try (destruct (respond_ok _ sys Hwf Hdag ltac:(by destruct gs) Hok Hall' Herr' Hmem) as (body & -> & Hbody); done).
Qed.
End Handler.

(** ** An example *)
#[local] Instance example_compilers : MagicEnum CompilerName :=
  names_instance [kEtl; kProcessMining; kSql; kTpch; kTpcxbb]
    (λ c, match c with kEtl => "kEtl" | kProcessMining => "kProcessMining" | kSql => "kSql" | kTpch => "kTpch" | kTpcxbb => "kTpcxbb" end).
#[local] Instance example_queries : MagicEnum QueryId :=
  names_instance [kEtlCopyTpchOrders; kProcessMiningQ3; kProcessMiningQ9; kTpchQ1; kTpchQ3; kTpchQ5; kTpchQ6; kTpchQ12; kTpcxbbQ3; kTpcxbbQ8]
    (λ q, match q with kEtlCopyTpchOrders => "kEtlCopyTpchOrders" | kProcessMiningQ3 => "kProcessMiningQ3" | kProcessMiningQ9 => "kProcessMiningQ9"
      | kTpchQ1 => "kTpchQ1" | kTpchQ3 => "kTpchQ3" | kTpchQ5 => "kTpchQ5" | kTpchQ6 => "kTpchQ6" | kTpchQ12 => "kTpchQ12"
      | kTpcxbbQ3 => "kTpcxbbQ3" | kTpcxbbQ8 => "kTpcxbbQ8" end).
#[local] Instance example_scale_factors : MagicEnum ScaleFactor :=
  names_instance [kSf1; kSf10; kSf100; kSf1000]
    (λ s, match s with kSf1 => "kSf1" | kSf10 => "kSf10" | kSf100 => "kSf100" | kSf1000 => "kSf1000" end).

#[local] Instance example_compilers_laws : MagicEnumLaws CompilerName.
Proof. apply names_laws. by intros []. Qed.
#[local] Instance example_queries_laws : MagicEnumLaws QueryId.
Proof. apply names_laws. by intros []. Qed.
#[local] Instance example_scale_factors_laws : MagicEnumLaws ScaleFactor.
Proof. apply names_laws. by intros []. Qed.

#[local] Existing Instance example_algorithms.

Definition example_config : AbstractCompilerConfig doc :=
  TpchPqpGeneratorConfig (mkConfigMembers kTpch kTpchQ12 kSf1 example_shuffle) example_configuration.

Definition example_request : doc :=
  WithString (WithObject (Config_ToJson example_config) kCoordinatorRequestQueryConfigurationAttribute example_configuration)
    kCoordinatorRequestWorkerFunctionAttribute "worker".

Definition example_pricing : Pricing := let one := ld_of_Z 1 in mkPricing one one one one one one.

Lemma Config_roundtrip_witness : Config_FromJson example_request = Ok example_config ∧
  Config_FromJson (WithObject (Config_ToJson example_config) kCoordinatorRequestQueryConfigurationAttribute example_configuration) = Ok example_config.
Proof.
  split; [vm_compute; reflexivity|]. apply (Config_roundtrip example_config example_configuration);
    [split; vm_compute; discriminate|exact I|split; reflexivity].
Defined.

Lemma example_compilable : compilable example_storage example_config.
Proof.
  split; [discriminate|]. split; [exact example_counts|]. exists example_tables. split; [exact example_listed|exact example_enough].
Qed.

(** Five fragments: two scans, two joins and the final aggregation. *)
Definition example_answers : list PipelineScheduler.event := repeat (PipelineScheduler.Answer 0 (PipelineSchedulerCorrect.example_answer true)) 5.

Abbreviation example_handle := (OnHandleRequest (A:=unit) (λ _, JsonValue) example_pricing pretty fresh example_storage example_random (λ _ _, "url")
  None 0 None example_request).

(** The response to the example is outstanding before the last worker answers, and names the
    result after it has. *)
Lemma OnHandleRequest_correct_witness :
  example_handle (take 4 example_answers) = Ok Waiting ∧
  ∃ gs body, example_handle example_answers = Ok (success body) ∧
    names_result (λ _ _, "url") (gp_pipeline (A:=unit) <$> gs) body.
Proof.
  split; [vm_compute; reflexivity|].
  destruct (OnHandleRequest_correct (A:=unit) (λ _, JsonValue) example_pricing pretty fresh (λ s, is_fresh s) example_storage example_random
    (λ _ _, "url") None 0 None example_request example_config) as (gs & sys0 & Hgs & Hs & Hrun);
    [vm_compute; reflexivity|vm_compute; reflexivity|exact example_compilable|reflexivity|].
  assert (is_ok (gs ← CompileConfig (A:=unit) pretty fresh example_storage example_random example_config;
    sys ← start (gp_pipeline <$> gs); run sys example_answers) = true) as Hfinish by (vm_compute; reflexivity).
  rewrite Hgs in Hfinish. cbn [rbind] in Hfinish. rewrite Hs in Hfinish. cbn [rbind] in Hfinish.
  destruct (run sys0 example_answers) as [sys|] eqn:Hanswers; [|discriminate].
  destruct (Hrun example_answers sys Hanswers) as [_ Hresponse].
  assert (match example_handle example_answers with Ok (success _) => true | _ => false end = true) as Hsuccess by (vm_compute; reflexivity).
  destruct (example_handle example_answers) as [[|message|body]|]; [discriminate..| |discriminate].
  exists gs, body. split; [reflexivity|exact (proj2 Hresponse)].
Defined.
