(* ===== verification/FunctionRuntime.v ===== *)
(** * The function runtime

    [function/function.cpp], the frame in which the coordinator's and the workers' handlers
    run: a request is unpacked, handled, metered and answered, the answer sent to the response
    queue if there is one; and the request counters of
    [metering/request_tracker/request_tracker.cpp] and [request_monitor.cpp].  The codec, the
    texts of exceptions and the environment's id are parameters. *)

From S2P Require Export Json.

Local Open Scope string_scope.

(** ** More of the JSON library *)
(** [WriteCompact] and [WasParseSuccessful]; a number is read as [int] and [Int64] alike. *)
Class JsonRuntime (J : Type) := { WriteCompact : J → string; WasParseSuccessful : string → bool }.

Class JsonRuntimeLaws (J : Type) `{JsonLaws J, !JsonText J, !JsonRuntime J} := {
  Parse_WriteCompact j : Writable j → Parse (WriteCompact j) = j;
  WasParseSuccessful_WriteCompact j : Writable j → WasParseSuccessful (WriteCompact j) = true;
  GetInteger_Int64 j k z : field j k = Some (AInt64 z) → in_int32 z = true → GetInteger j k = z;
  GetInt64_Integer j k z : field j k = Some (AInteger z) → GetInt64 j k = z;
  GetString_absent j k : field j k = None → GetString j k = EmptyString }.

Definition kLambdaFunctionUrlParametersAttribute : string := "queryStringParameters".
Definition kRequestCompressedAttribute : string := "request_compressed".
Definition kRequestDecompressedSizeAttribute : string := "decompressed_size".
Definition kRequestEnableIntrospection : string := "enable_introspection".
Definition kRequestEnableMetering : string := "enable_metering".
Definition kRequestResponseQueueUrlAttribute : string := "response_queue_url".
Definition kResponseIsSuccessAttribute : string := "isSuccess".
Definition kResponseMessageAttribute : string := "message".
Definition kResponseMeteringAttribute : string := "metering".
Definition kResponseMeteringFailedAttribute : string := "failed".
Definition kResponseMeteringFinishedAttribute : string := "finished".
Definition kResponseMeteringRetriedAttribute : string := "retried".
Definition kResponseMeteringSucceededAttribute : string := "succeeded".

(** ** Request counters *)
Record Statistics : Set := mkStatistics { failed : Z; finished : Z; retried : Z; succeeded : Z }.
Definition no_requests : Statistics := mkStatistics 0 0 0 0.

Abbreviation RequestTracker := (gmap string Statistics).

Definition GetKey (service_name request_name : string) : string := service_name +:+ ":" +:+ request_name.

(** [++request_counters_[key].member]. *)
Definition count_request (increment : Statistics → Statistics) (service_name request_name : string) (tracker : RequestTracker) : RequestTracker :=
  let key := GetKey service_name request_name in
  <[key := increment (from_option id no_requests (tracker !! key))]> tracker.

Definition increment (z : Z) : Z := wrap_uint64 (z + 1).
Definition RegisterRequestFailed : string → string → RequestTracker → RequestTracker :=
  count_request (λ s, mkStatistics (increment (failed s)) (finished s) (retried s) (succeeded s)).
Definition RegisterRequestFinished : string → string → RequestTracker → RequestTracker :=
  count_request (λ s, mkStatistics (failed s) (increment (finished s)) (retried s) (succeeded s)).
Definition RegisterRequestRetried : string → string → RequestTracker → RequestTracker :=
  count_request (λ s, mkStatistics (failed s) (finished s) (increment (retried s)) (succeeded s)).
Definition RegisterRequestSucceeded : string → string → RequestTracker → RequestTracker :=
  count_request (λ s, mkStatistics (failed s) (finished s) (retried s) (increment (succeeded s))).

(** What the SDK tells [RequestMonitor]. *)
Inductive request_event : Set :=
  | OnRequestStarted (service_name request_name : string)
  | OnRequestSucceeded (service_name request_name : string)
  | OnRequestFailed (service_name request_name : string)
  | OnRequestRetry (service_name request_name : string)
  | OnFinish (service_name request_name : string).

Definition monitor (tracker : RequestTracker) (e : request_event) : RequestTracker :=
  match e with
  | OnRequestStarted _ _ => tracker
  | OnRequestSucceeded service_name request_name => RegisterRequestSucceeded service_name request_name tracker
  | OnRequestFailed service_name request_name => RegisterRequestFailed service_name request_name tracker
  | OnRequestRetry service_name request_name => RegisterRequestRetried service_name request_name tracker
  | OnFinish service_name request_name => RegisterRequestFinished service_name request_name tracker
  end.

Section Runtime.
Context {J : Type} `{Json J, !JsonRuntime J}.
(** The order in which the hash table is traversed. *)
Variable iteration : RequestTracker → list (string * Statistics).

Definition Statistics_ToJson (s : Statistics) : J :=
  WithInt64 (WithInt64 (WithInt64 (WithInt64 JsonValue
    kResponseMeteringFinishedAttribute (wrap_int64 (finished s)))
    kResponseMeteringSucceededAttribute (wrap_int64 (succeeded s)))
    kResponseMeteringRetriedAttribute (wrap_int64 (retried s)))
    kResponseMeteringFailedAttribute (wrap_int64 (failed s)).

Definition metering_document (tracker : RequestTracker) : J :=
  foldl (λ metering p, WithObject metering p.1 (Statistics_ToJson p.2)) JsonValue (iteration tracker).

Definition WriteSummaryToJson (tracker : RequestTracker) (json : J) : J :=
  WithObject json kResponseMeteringAttribute (metering_document tracker).

(** ** The handler's frame *)
Record lambda_response : Type := mkLambdaResponse {
  get_payload : string;
  get_content_type : string;
  response_is_success : bool }.
Definition lambda_success (payload content_type : string) : lambda_response := mkLambdaResponse payload content_type true.
Definition lambda_failure (payload content_type : string) : lambda_response := mkLambdaResponse payload content_type false.

Variables (Decode : string → string) (Decompress : string → Z → result string).

(** The payload of the request and its document, after the URL's parameters are taken out and
    the compression is undone. *)
Definition decode_request (payload : string) : result (string * J) :=
  let request_json := Parse payload in
  let payload := if KeyExists request_json kLambdaFunctionUrlParametersAttribute
    then WriteReadable (GetObject request_json kLambdaFunctionUrlParametersAttribute) else payload in
  let request_json := Parse payload in
  if KeyExists request_json kRequestCompressedAttribute && KeyExists request_json kRequestDecompressedSizeAttribute then
    let encoded_payload := GetString request_json kRequestCompressedAttribute in
    let decompressed_size := wrap_uint64 (GetInt64 request_json kRequestDecompressedSizeAttribute) in
    payload ← Decompress (Decode encoded_payload) decompressed_size;
    Ok (payload, Parse payload)
  else Ok (payload, request_json).

Variable OnHandleRequest : J → result lambda_response.

Definition HandlerFunction (payload : string) : result lambda_response :=
  let json_view := Parse payload in
  if KeyExists json_view "warmup" && KeyExists json_view "concurrency_duration_seconds"
  then Ok (lambda_success (WriteCompact json_view) "application/json")
  else OnHandleRequest json_view.

Variables (environment_id : string) (what : error → string).

(** A response that is a document is extended by the introspection and the metering. *)
Definition extend_response (is_introspection_enabled is_metering_enabled : bool) (response_sqs_queue : string)
    (tracker : RequestTracker) (response : lambda_response) : lambda_response :=
  if WasParseSuccessful (get_payload response) then
    let response_json := Parse (get_payload response) in
    let response_json := if is_introspection_enabled
      then WithObject response_json "introspection" (WithString JsonValue "environment_id" environment_id) else response_json in
    let response_json := if is_metering_enabled
      then WriteSummaryToJson
        (if bool_decide (response_sqs_queue = EmptyString) then tracker
         else RegisterRequestFinished "SQS" "SendMessage" (RegisterRequestSucceeded "SQS" "SendMessage" tracker)) response_json
      else response_json in
    mkLambdaResponse (WriteCompact response_json) (get_content_type response) (response_is_success response)
  else response.

Definition exception_response (e : error) : lambda_response :=
  lambda_failure (WriteCompact (WithInteger (WithString JsonValue kResponseMessageAttribute (what e)) kResponseIsSuccessAttribute 0%Z))
    "application/json".

(** [run_handler_callback]: the response and the messages sent to a queue.  [requests_made] is
    what the SDK reports while the request is handled. *)
Definition run_handler_callback (payload : string) (requests_made : list request_event) : result (lambda_response * list (string * string)) :=
  '(payload, request) ← decode_request payload;
  let response_sqs_queue := if KeyExists request kRequestResponseQueueUrlAttribute
    then GetString request kRequestResponseQueueUrlAttribute else EmptyString in
  let is_introspection_enabled := KeyExists request kRequestEnableIntrospection && GetBool request kRequestEnableIntrospection in
  let is_metering_enabled := negb (KeyExists request kRequestEnableMetering) || GetBool request kRequestEnableMetering in
  let response := match HandlerFunction payload with
    | Ok response => extend_response is_introspection_enabled is_metering_enabled response_sqs_queue (foldl monitor ∅ requests_made) response
    | Err e => exception_response e
    end in
  Ok (response, if bool_decide (response_sqs_queue = EmptyString) then [] else [(response_sqs_queue, get_payload response)]).
End Runtime.

(** ** The metering document *)
Section Metering.
Context {J : Type} `{JsonRuntimeLaws J}.
Variable iteration : RequestTracker → list (string * Statistics).
Hypothesis Hiteration : ∀ tracker, iteration tracker ≡ₚ map_to_list tracker.

Lemma field_foldl_WithObject {X} (f : X → J) (l : list (string * X)) (j : J) k :
  NoDup l.*1 →
  field (foldl (λ j p, WithObject j p.1 (f p.2)) j l) k =
    match (list_to_map l : gmap string X) !! k with Some x => Some (AObject (f x)) | None => field j k end.
Proof.
  revert j. induction l as [|[k' x] l IH]; intros j; [done|]. intros [Hk' Hl]%NoDup_cons. cbn [foldl list_to_map foldr fst snd uncurry].
  rewrite IH by done. destruct (decide (k = k')) as [->|Hne].
  - rewrite lookup_insert_eq. rewrite (not_elem_of_list_to_map_1 l k') by done. unfold WithObject. rewrite field_With. by rewrite decide_True.
  - rewrite lookup_insert_ne by done. destruct (list_to_map l !! k); [done|]. unfold WithObject. rewrite field_With. by rewrite decide_False.
Qed.

Lemma metering_field tracker k :
  field (metering_document iteration tracker : J) k = AObject ∘ Statistics_ToJson <$> tracker !! k.
Proof.
  unfold metering_document. rewrite field_foldl_WithObject.
  - rewrite (list_to_map_proper _ (map_to_list tracker)), list_to_map_to_list; [|rewrite Hiteration; apply NoDup_fst_map_to_list|done].
    rewrite field_JsonValue. by destruct (tracker !! k).
  - rewrite Hiteration. apply NoDup_fst_map_to_list.
Qed.

Lemma Writable_Statistics s : Writable (Statistics_ToJson s : J).
Proof. repeat (apply Writable_With; [|done]). apply Writable_JsonValue. Qed.

Lemma Writable_metering tracker : Writable (metering_document iteration tracker : J).
Proof.
  unfold metering_document. generalize (iteration tracker). intros l. assert (Writable (JsonValue (J:=J))) as Hj by apply Writable_JsonValue.
  revert Hj. generalize (JsonValue (J:=J)). induction l as [|p l IH]; intros j Hj; [done|]. cbn [foldl]. apply IH.
  apply Writable_With; [done|apply Writable_Statistics].
Qed.

(** The document lists exactly the requests that were counted. *)
Lemma metering_objects tracker k o :
  (k, o) ∈ GetAllObjects (metering_document iteration tracker : J) ↔ ∃ s, tracker !! k = Some s ∧ o = Statistics_ToJson s.
Proof.
  rewrite GetAllObjects_field.
  - rewrite metering_field. destruct (tracker !! k) as [s|]; cbn; split; [intros [= <-]; by exists s|by intros (? & [= ->] & ->)|done|by intros (? & ? & _)].
  - intros k' c. rewrite metering_field. destruct (tracker !! k') as [s|]; [|done]. intros [= <-]. by eexists.
Qed.
End Metering.
