(* ===== verification/WorkerFunction.v ===== *)
(** * The worker function and its answer

    The frame of a worker ([bin/function/worker_function.cpp] around what [WorkerPlan] and
    [FragmentExecution] model), the request that [scheduler/coordinator/lambda_executor.cpp]
    sends it through the runtime ([FunctionRuntime]) and what the coordinator reads from its
    answer: what a worker reports arrives, and an exception of the handler stops the
    coordinator. *)

From stdpp Require Import pretty.
From S2P Require Export FunctionRuntime SqsCollector.
From S2P Require S3Reader.
From S2P Require Import JsonInstances OperatorRoundtrip.

Local Open Scope string_scope.

Definition kWorkerRequestIdAttribute : string := "worker_id".
Definition kWorkerRequestPqpPipelineTemplateAttribute : string := "pqp_pipeline_template".
Definition kWorkerRequestFragmentDefinitionsAttribute : string := "fragment_definitions".
Definition kWorkerRequestFragmentDefinitionAttribute : string := "fragment_definition".
Definition kWorkerResponseIdAttribute : string := kWorkerRequestIdAttribute.
Definition kWorkerResponseMemorySizeMbAttribute : string := "worker_memory_size_mb".
Definition kWorkerResponseRuntimeMsAttribute : string := "worker_runtime_ms".
Definition kWorkerResponseImportDataSizeBytesAttribute : string := "import_data_size_bytes".
Definition kWorkerResponseExportDataSizeBytesAttribute : string := "export_data_size_bytes".
Definition kLambdaFunctionInvocationPayloadCompression : bool := true.

Section WorkerFunction.
Context {J : Type} `{Json J, !JsonRuntime J}.

(** ** The request *)
(** A request for one worker, from the documents of its fragments. *)
Definition worker_request (serialized_pqp_pipeline_template : string) (fragments : list J) (worker_id pipeline_id sqs_response_queue_url : string) : J :=
  let request_body := WithString JsonValue kWorkerRequestPqpPipelineTemplateAttribute serialized_pqp_pipeline_template in
  let request_body := WithArray request_body kWorkerRequestFragmentDefinitionsAttribute
    ((λ definition, WithObject JsonValue kWorkerRequestFragmentDefinitionAttribute definition) <$> fragments) in
  WithString (WithString (WithString request_body kWorkerRequestIdAttribute worker_id)
    "pipeline_id" pipeline_id) kRequestResponseQueueUrlAttribute sqs_response_queue_url.

Variables (Encode Compress : string → string).
Definition invocation_payload (request_body : J) : string :=
  let payload := WriteCompact request_body in
  if kLambdaFunctionInvocationPayloadCompression then
    WriteCompact (WithInt64 (WithString JsonValue kRequestCompressedAttribute (Encode (Compress payload)))
      kRequestDecompressedSizeAttribute (Z.of_nat (String.length payload)))
  else payload.

(** ** The worker *)
(** [run_fragment]: the bytes imported and exported, or the exception that ended the block. *)
Variables (run_fragment : J → result (Z * Z)) (what : error → string).
Variables (runtime_ms : Z) (AWS_LAMBDA_FUNCTION_MEMORY_SIZE : option string).

Definition ValidateRequest (request : J) : bool :=
  KeyExists request kWorkerRequestIdAttribute && KeyExists request kWorkerRequestPqpPipelineTemplateAttribute &&
  KeyExists request kWorkerRequestFragmentDefinitionsAttribute &&
  (0 <? length (GetArray request kWorkerRequestFragmentDefinitionsAttribute))%nat.

Definition memory_size_mb : result Z :=
  match AWS_LAMBDA_FUNCTION_MEMORY_SIZE with Some s => n ← S3Reader.stoull s; Ok (Z.of_N n) | None => Ok 0%Z end.

Definition worker_response (success : Z) (response_string worker_id pipeline_id : string)
    (memory_size_mb import_data_size_bytes export_data_size_bytes : Z) : J :=
  let response := WithInteger JsonValue kResponseIsSuccessAttribute success in
  let response := WithString response kResponseMessageAttribute response_string in
  let response := WithString response kWorkerResponseIdAttribute worker_id in
  let response := WithString response "pipeline_id" pipeline_id in
  let response := WithInteger response kWorkerResponseRuntimeMsAttribute (wrap_int32 runtime_ms) in
  let response := WithInteger response kWorkerResponseMemorySizeMbAttribute (wrap_int32 memory_size_mb) in
  let response := WithInt64 response kWorkerResponseImportDataSizeBytesAttribute (wrap_int64 import_data_size_bytes) in
  WithInt64 response kWorkerResponseExportDataSizeBytesAttribute (wrap_int64 export_data_size_bytes).

Definition OnHandleRequest (request : J) : result lambda_response :=
  if negb (ValidateRequest request) then Ok (lambda_failure "Invalid parameters provided." "text/plain") else
  let worker_id := GetString request kWorkerRequestIdAttribute in
  let pipeline_id := GetString request "pipeline_id" in
  let '(success, response_string, (import_data_size_bytes, export_data_size_bytes)) :=
    match run_fragment request with
    | Ok sizes => (1%Z, "Worker executed successfully.", sizes)
    | Err e => (0%Z, "Worker failed " +:+ what e, (0%Z, 0%Z))
    end in
  memory_size_mb ← memory_size_mb;
  Ok (lambda_success (WriteCompact (worker_response success response_string worker_id pipeline_id memory_size_mb
    import_data_size_bytes export_data_size_bytes)) "application/json").

(** ** The answer *)
(** What [CollectSqsMessages] reads from the body of a message, and the metering. *)
Definition response_result (response_view : J) : FragmentExecutionResult :=
  mkFragmentExecutionResult (GetString response_view "pipeline_id") (GetString response_view kWorkerResponseIdAttribute)
    (negb (GetInteger response_view kResponseIsSuccessAttribute =? 0)%Z) (GetString response_view kResponseMessageAttribute)
    (wrap_uint64 (GetInteger response_view kWorkerResponseRuntimeMsAttribute))
    (wrap_uint64 (GetInt64 response_view kWorkerResponseMemorySizeMbAttribute))
    (wrap_uint64 (GetInteger response_view kWorkerResponseExportDataSizeBytesAttribute))
    (wrap_uint64 (GetInteger response_view kWorkerResponseImportDataSizeBytesAttribute)).

Definition collected_message (receipt_handle body : string) : Message := mkMessage receipt_handle (response_result (Parse body)).
Definition collected_metering (body : string) : J := GetObject (Parse body) kResponseMeteringAttribute.
End WorkerFunction.

Abbreviation finished_requests := FunctionRuntime.finished.

(** ** What arrives *)
Section Answer.
Context {J : Type} `{JsonRuntimeLaws J}.
Variable iteration : gmap string Statistics → list (string * Statistics).
Hypothesis Hiteration : ∀ tracker, iteration tracker ≡ₚ map_to_list tracker.
Variables (Encode Decode Compress : string → string) (Decompress : string → Z → result string).
Hypothesis Hcode : ∀ s, Decode (Encode s) = s.
Hypothesis Hcompress : ∀ s, s ≠ EmptyString → Decompress (Compress s) (Z.of_nat (String.length s)) = Ok s.
Variables (run_fragment : J → result (Z * Z)) (environment_id : string) (what : error → string).
Variables (runtime_ms : Z) (AWS_LAMBDA_FUNCTION_MEMORY_SIZE : option string).

Definition in_int31 (z : Z) : Prop := (0 <= z < 2 ^ 31)%Z.

Lemma in_int31_int32 z : in_int31 z → in_int32 z = true.
Proof. unfold in_int31, in_int32, int32_min, int32_max. lia. Qed.

Lemma Writable_worker_request template fragments worker_id pipeline_id queue :
  Forall Writable fragments → Writable (worker_request template fragments worker_id pipeline_id queue : J).
Proof.
  intros Hf. repeat (apply Writable_With; [|done]). apply Writable_With; [apply Writable_With; [apply Writable_JsonValue|done]|].
  apply Forall_fmap. eapply Forall_impl; [exact Hf|]. intros d Hd. apply Writable_With; [apply Writable_JsonValue|done].
Qed.

Definition fits_uint64 (s : string) : Prop := (Z.of_nat (String.length s) < 2 ^ 63)%Z.

(** The payload of a request without the runtime's own members is unpacked to the request. *)
Lemma decode_invocation (request : J) :
  Writable request → WriteCompact request ≠ EmptyString → fits_uint64 (WriteCompact request) →
  field request kLambdaFunctionUrlParametersAttribute = None → field request kRequestCompressedAttribute = None →
  decode_request Decode Decompress (invocation_payload Encode Compress request) = Ok (WriteCompact request, request).
Proof.
  intros Hw Hne Hsize Hu Hc. unfold invocation_payload, kLambdaFunctionInvocationPayloadCompression.
  set (compressed := WithInt64 _ _ _ : J). assert (Writable compressed) as Hwc by (repeat (apply Writable_With; [|done]); apply Writable_JsonValue).
  unfold decode_request. rewrite Parse_WriteCompact by done.
  assert (KeyExists compressed kLambdaFunctionUrlParametersAttribute = false) as ->.
  { rewrite KeyExists_field. replace (field compressed _) with (@None (content J)); [done|]. unfold compressed. symmetry. by member. }
  rewrite Parse_WriteCompact by done.
  rewrite !KeyExists_field, !bool_decide_true by (unfold compressed; eexists; by member). cbn [andb].
  rewrite (GetString_field _ _ (Encode (Compress (WriteCompact request)))), (GetInt64_field _ _ (Z.of_nat (String.length (WriteCompact request))))
    by (unfold compressed; member).
  rewrite Hcode. unfold wrap_uint64. unfold fits_uint64 in Hsize. rewrite Z.mod_small by lia. rewrite Hcompress by done. cbn [rbind].
  by rewrite Parse_WriteCompact.
Qed.

Lemma KeyExists_present (j : J) k c : field j k = Some c → KeyExists j k = true.
Proof. intros Hf. rewrite KeyExists_field. by rewrite bool_decide_true by by eexists. Qed.
Lemma KeyExists_absent (j : J) k : field j k = None → KeyExists j k = false.
Proof. intros Hf. rewrite KeyExists_field. rewrite bool_decide_false; [done|]. rewrite Hf. by intros []. Qed.

Lemma ValidateRequest_worker_request template fragments worker_id pipeline_id queue :
  fragments ≠ [] → ValidateRequest (worker_request template fragments worker_id pipeline_id queue : J) = true.
Proof.
  intros Hne. unfold ValidateRequest.
  rewrite (KeyExists_present _ kWorkerRequestIdAttribute (AString worker_id)), (KeyExists_present _ kWorkerRequestPqpPipelineTemplateAttribute (AString template))
    by (unfold worker_request; member).
  rewrite (KeyExists_present _ kWorkerRequestFragmentDefinitionsAttribute
    (AArray ((λ definition, WithObject JsonValue kWorkerRequestFragmentDefinitionAttribute definition) <$> fragments))) by (unfold worker_request; member).
  rewrite (GetArray_field _ _ ((λ definition, WithObject JsonValue kWorkerRequestFragmentDefinitionAttribute definition) <$> fragments))
    by (unfold worker_request; member).
  rewrite length_fmap. by destruct fragments.
Qed.

(** The worker's own account of a request. *)
Definition reported (template : string) (fragments : list J) (worker_id pipeline_id queue : string) (memory_size_mb : Z) : FragmentExecutionResult :=
  match run_fragment (worker_request template fragments worker_id pipeline_id queue) with
  | Ok (import_data_size_bytes, export_data_size_bytes) =>
      mkFragmentExecutionResult pipeline_id worker_id true "Worker executed successfully." runtime_ms memory_size_mb
        export_data_size_bytes import_data_size_bytes
  | Err e => mkFragmentExecutionResult pipeline_id worker_id false ("Worker failed " +:+ what e) runtime_ms memory_size_mb 0 0
  end.

(** The requests that are counted for a worker: the last one sends its answer. *)
Definition sent_requests (requests_made : list request_event) : gmap string Statistics :=
  foldl monitor ∅ (requests_made ++ [OnRequestSucceeded "SQS" "SendMessage"; OnFinish "SQS" "SendMessage"]).

Lemma worker_response_result success text worker_id pipeline_id memory imported exported metering :
  in_int31 runtime_ms → in_int31 memory → in_int31 imported → in_int31 exported →
  response_result (WithObject (worker_response runtime_ms success text worker_id pipeline_id memory imported exported) kResponseMeteringAttribute metering : J) =
    mkFragmentExecutionResult pipeline_id worker_id (negb (success =? 0)%Z) text runtime_ms memory exported imported.
Proof.
  intros Hr Hm Hi He. unfold response_result. set (response := WithObject _ _ _ : J).
  assert (∀ z, in_int31 z → wrap_uint64 z = z ∧ wrap_int64 z = z ∧ wrap_int32 z = z) as Hw.
  { intros z Hz. pose proof (in_int31_int32 z Hz) as Hz'. unfold in_int31 in Hz. split_and!; [apply Z.mod_small; lia| |by apply wrap_int32_id].
    unfold wrap_int64. rewrite Z.mod_small by lia. lia. }
  rewrite (GetString_field _ _ pipeline_id), (GetString_field _ _ worker_id), (GetString_field _ _ text), (GetInteger_field _ _ success)
    by (unfold response, worker_response; member).
  rewrite (GetInteger_field _ _ (wrap_int32 runtime_ms)) by (unfold response, worker_response; member).
  rewrite (GetInt64_Integer _ _ (wrap_int32 memory)) by (unfold response, worker_response; member).
  rewrite (GetInteger_Int64 _ _ (wrap_int64 exported)), (GetInteger_Int64 _ _ (wrap_int64 imported));
    [|by unfold response, worker_response; member|by rewrite (proj1 (proj2 (Hw _ Hi))); apply in_int31_int32
     |by unfold response, worker_response; member|by rewrite (proj1 (proj2 (Hw _ He))); apply in_int31_int32].
  destruct (Hw _ Hr) as (R1 & _ & R3), (Hw _ Hm) as (M1 & _ & M3), (Hw _ Hi) as (I1 & I2 & _), (Hw _ He) as (E1 & E2 & _).
  by rewrite R3, R1, M3, M1, I2, I1, E2, E1.
Qed.

Lemma Writable_worker_response success text worker_id pipeline_id memory imported exported :
  Writable (worker_response runtime_ms success text worker_id pipeline_id memory imported exported : J).
Proof. repeat (apply Writable_With; [|done]). apply Writable_JsonValue. Qed.

Abbreviation Worker := (OnHandleRequest run_fragment what runtime_ms AWS_LAMBDA_FUNCTION_MEMORY_SIZE).
Abbreviation Runtime := (run_handler_callback iteration Decode Decompress Worker environment_id what).

(** The metering lists the requests with the counts of those that finished. *)
Definition metered (requests_made : list request_event) (metering : J) : Prop :=
  (∀ k o, (k, o) ∈ GetAllObjects metering →
    ∃ s, sent_requests requests_made !! k = Some s ∧ (in_int31 (finished_requests s) → GetInteger o kResponseMeteringFinishedAttribute = finished_requests s)) ∧
  ∀ k, is_Some (sent_requests requests_made !! k) → ∃ o, (k, o) ∈ GetAllObjects metering.

Lemma metered_document requests_made : metered requests_made (metering_document iteration (sent_requests requests_made)).
Proof.
  split.
  - intros k o (s & Hs & ->)%metering_objects; [|done]. exists s. split; [done|]. intros Hs'.
    apply GetInteger_Int64; [|by apply in_int31_int32]. unfold in_int31 in Hs'.
    replace (finished_requests s) with (wrap_int64 (finished_requests s)); [by unfold Statistics_ToJson; member|]. unfold wrap_int64. rewrite Z.mod_small by lia. lia.
  - intros k [s Hs]. exists (Statistics_ToJson s). apply metering_objects; [done|]. by exists s.
Qed.

Lemma extended_answer success text worker_id pipeline_id queue memory imported exported requests_made :
  in_int31 runtime_ms → in_int31 memory → in_int31 imported → in_int31 exported → queue ≠ EmptyString →
  let response := worker_response runtime_ms success text worker_id pipeline_id memory imported exported : J in
  let body := get_payload (extend_response (J:=J) iteration environment_id false true queue (foldl monitor ∅ requests_made)
    (lambda_success (WriteCompact response) "application/json")) in
  response_result (Parse body : J) = mkFragmentExecutionResult pipeline_id worker_id (negb (success =? 0)%Z) text runtime_ms memory exported imported ∧
  metered requests_made (collected_metering body).
Proof.
  intros Hr Hm Hi He Hq response body. unfold body, extend_response. cbn [get_payload lambda_success get_content_type response_is_success].
  rewrite WasParseSuccessful_WriteCompact, Parse_WriteCompact by apply Writable_worker_response.
  rewrite bool_decide_false by done. cbn [get_payload]. unfold WriteSummaryToJson, collected_metering.
  assert (RegisterRequestFinished "SQS" "SendMessage" (RegisterRequestSucceeded "SQS" "SendMessage" (foldl monitor ∅ requests_made)) =
    sent_requests requests_made) as -> by (unfold sent_requests; by rewrite foldl_app).
  rewrite !Parse_WriteCompact by (apply Writable_With; [apply Writable_worker_response|by apply Writable_metering]).
  rewrite (GetObject_field _ _ (metering_document iteration (sent_requests requests_made))) by member.
  split; [by apply worker_response_result|apply metered_document].
Qed.

(** C18: A worker's answer arrives: the coordinator's request is unpacked as it was, and whether
    the fragment succeeds or fails, one message goes to the pipeline's queue from which the
    coordinator reads the pipeline, the worker, the outcome, runtime, memory and sizes as the
    worker has them, up to 2^31, with one metering entry for each kind of request made, the
    message itself included, whose count is what was finished. *)
Theorem worker_answer_collected template fragments worker_id pipeline_id queue requests_made memory :
  let request := worker_request template fragments worker_id pipeline_id queue in
  fragments ≠ [] → Forall Writable fragments → queue ≠ EmptyString →
  WriteCompact request ≠ EmptyString → fits_uint64 (WriteCompact request) →
  memory_size_mb AWS_LAMBDA_FUNCTION_MEMORY_SIZE = Ok memory → in_int31 memory → in_int31 runtime_ms →
  (∀ imported exported, run_fragment request = Ok (imported, exported) → in_int31 imported ∧ in_int31 exported) →
  ∃ response body,
    Runtime (invocation_payload Encode Compress request) requests_made = Ok (response, [(queue, body)]) ∧
    response_result (Parse body : J) = reported template fragments worker_id pipeline_id queue memory ∧
    metered requests_made (collected_metering body).
Proof.
  intros request Hne Hf Hq Htext Hfits Hmem Hm Hr Hsizes. pose proof (Writable_worker_request template fragments worker_id pipeline_id queue Hf) as Hw.
  fold request in Hw. unfold run_handler_callback. rewrite decode_invocation; [|done|done|done|by unfold request, worker_request; member..].
  cbn [rbind]. unfold HandlerFunction. rewrite Parse_WriteCompact by done.
  rewrite (KeyExists_absent request "warmup"), (KeyExists_absent request kRequestEnableIntrospection), (KeyExists_absent request kRequestEnableMetering)
    by (unfold request, worker_request; member).
  rewrite (KeyExists_present request kRequestResponseQueueUrlAttribute (AString queue)), (GetString_field request kRequestResponseQueueUrlAttribute queue)
    by (unfold request, worker_request; member).
  cbn [andb negb orb]. unfold OnHandleRequest, request. rewrite ValidateRequest_worker_request by done. fold request. cbn [negb].
  rewrite (GetString_field request kWorkerRequestIdAttribute worker_id), (GetString_field request "pipeline_id" pipeline_id)
    by (unfold request, worker_request; member).
  rewrite Hmem. rewrite bool_decide_false by done. unfold reported. fold request.
  destruct (run_fragment request) as [[imported exported]|e] eqn:Hrun; cbn [rbind]; eexists _, _; (split; [reflexivity|]).
  - destruct (Hsizes _ _ eq_refl) as [Hi He]. by apply extended_answer.
  - by apply extended_answer.
Qed.

(** C40: An exception that leaves the handler is answered by a message without a pipeline: the
    thread of the coordinator that reads it runs into a failed assertion, which terminates the
    coordinator, whatever other workers report. *)
Theorem exception_terminates_collector (request : J) requests_made queue pipeline_id handle messages collector e :
  decode_request Decode Decompress (invocation_payload Encode Compress request) = Ok (WriteCompact request, request) →
  Writable request → field request kRequestResponseQueueUrlAttribute = Some (AString queue) → queue ≠ EmptyString → pipeline_id ≠ EmptyString →
  KeyExists request "warmup" = false → Worker request = Err e →
  ∃ response body,
    Runtime (invocation_payload Encode Compress request) requests_made = Ok (response, [(queue, body)]) ∧
    ∃ stopped, handle_message pipeline_id collector (Reporting (collected_message (J:=J) handle body) messages) = Some stopped ∧
      phase stopped.1 = kTerminated.
Proof.
  intros Hd Hw Hq Hne Hp Hwarm Hhandler. unfold run_handler_callback. rewrite Hd. cbn [rbind]. unfold HandlerFunction. rewrite Parse_WriteCompact by done.
  rewrite Hwarm, (KeyExists_present _ _ _ Hq), (GetString_field _ _ _ Hq), Hhandler. cbn [andb].
  rewrite bool_decide_false by done. eexists _, _. split; [reflexivity|]. cbn [handle_message collected_message body].
  unfold response_result. cbn [get_payload exception_response lambda_failure result_pipeline_id].
  rewrite Parse_WriteCompact by (repeat (apply Writable_With; [|done]); apply Writable_JsonValue).
  rewrite (GetString_absent _ "pipeline_id") by member. rewrite decide_False by done. eexists. split; [reflexivity|]. done.
Qed.
End Answer.

(** ** An example *)
#[export] Instance doc_JsonRuntime : JsonRuntime doc :=
  {| WriteCompact := write_doc; WasParseSuccessful s := bool_decide (is_Some (decode (A:=gen_tree leaf) (undigits s))) |}.

#[export] Instance doc_JsonRuntimeLaws : JsonRuntimeLaws doc.
Proof.
  split.
  - intros j _. apply parse_write_doc.
  - intros j _. apply bool_decide_true. unfold WriteCompact, doc_JsonRuntime, write_doc. rewrite undigits_digits, decode_encode. by eexists.
  - intros j k z Hf Hz. cbn [field doc_JsonLaws doc_JsonLaws_with] in Hf. cbn. rewrite Hf. by apply wrap_int32_id.
  - intros j k z Hf. cbn [field doc_JsonLaws doc_JsonLaws_with] in Hf. cbn. by rewrite Hf.
  - intros j k Hf. cbn [field doc_JsonLaws doc_JsonLaws_with] in Hf. cbn. by rewrite Hf.
Defined.

Definition example_what (_ : error) : string := "e".
Definition example_worker_request : doc := worker_request "t" [JsonValue] "w" "p" "q".
Definition example_fragment (_ : doc) : result (Z * Z) := Ok (3%Z, 4%Z).
Definition example_decompress (s : string) (_ : Z) : result string := Ok s.
Definition example_requests_made : list request_event := [OnRequestSucceeded "S3" "GetObject"; OnFinish "S3" "GetObject"].

Lemma worker_answer_collected_witness :
  ∃ response body,
    run_handler_callback map_to_list id example_decompress (OnHandleRequest example_fragment example_what 5 (Some "128")) "id" example_what
      (invocation_payload id id example_worker_request) example_requests_made = Ok (response, [("q", body)]) ∧
    response_result (Parse body : doc) = mkFragmentExecutionResult "p" "w" true "Worker executed successfully." 5 128 4 3 ∧
    metered example_requests_made (collected_metering (J:=doc) body).
Proof.
  apply (worker_answer_collected (J:=doc) map_to_list (λ _, Permutation_refl _) id id id example_decompress (λ _, eq_refl) (λ _ _, eq_refl)
    example_fragment "id" example_what 5 (Some "128") "t" [JsonValue] "w" "p" "q" example_requests_made 128).
  - discriminate.
  - apply Forall_singleton. exact I.
  - discriminate.
  - vm_compute. discriminate.
  - vm_compute. reflexivity.
  - vm_compute. reflexivity.
  - split; vm_compute; [discriminate|reflexivity].
  - split; vm_compute; [discriminate|reflexivity].
  - intros imported exported [= <- <-]. split; split; vm_compute; first [discriminate|reflexivity].
Defined.

(** The size of the worker's memory is not a number. *)
Lemma exception_terminates_collector_witness :
  ∃ response body,
    run_handler_callback map_to_list id example_decompress (OnHandleRequest example_fragment example_what 5 (Some "unknown")) "id" example_what
      (invocation_payload id id example_worker_request) example_requests_made = Ok (response, [("q", body)]) ∧
    ∃ stopped, handle_message "p" initial_collector (Reporting (collected_message (J:=doc) "handle" body) []) = Some stopped ∧
      phase stopped.1 = kTerminated.
Proof.
  apply (exception_terminates_collector (J:=doc) map_to_list id id id example_decompress
    example_fragment "id" example_what 5 (Some "unknown") example_worker_request example_requests_made "q" "p" "handle" [] initial_collector ConversionError).
  - vm_compute. reflexivity.
  - exact I.
  - vm_compute. reflexivity.
  - discriminate.
  - discriminate.
  - vm_compute. reflexivity.
  - vm_compute. reflexivity.
Defined.
