(* ===== verification/ConcurrentQueue.v ===== *)
(** * The concurrent queue

    [utils/concurrent/concurrent_queue.hpp], the queue of the worker's executor
    ([Scheduler] takes its operations as atomic): the callers' threads as a list, every
    critical section and every notification a step of one thread, every interleaving.  Nobody
    waits on [queue_can_write_], so notifications to it are left out; a waiting thread may
    also wake up for no reason. *)

From S2P Require Export Prelude.

Section ConcurrentQueue.
Context {T : Type}.

(** Where the thread of a call is; [Woken] has left [wait] and tests its condition again. *)
Inductive Call : Type :=
  | Push (value : T)
  | NotifyOne
  | Pop
  | Waiting
  | Woken
  | TryPop
  | Close
  | NotifyAll
  | Returned (received : option T).

(** What the critical sections do to the queue. *)
Inductive queue_event : Type := Inserted (value : T) | Removed (value : T).

Record ConcurrentQueue : Type := mkConcurrentQueue { queue_ : list T; closed_ : bool; calls : list Call }.

Definition Size (q : ConcurrentQueue) : nat := length (queue_ q).

Definition set_call (i : nat) (c : Call) (q : ConcurrentQueue) : ConcurrentQueue :=
  mkConcurrentQueue (queue_ q) (closed_ q) (<[i := c]> (calls q)).

Definition wake (c : Call) : Call := match c with Waiting => Woken | c => c end.

(** [AssureCanRead] and the rest of [Pop]. *)
Definition read_or_wait (i : nat) (q : ConcurrentQueue) : ConcurrentQueue * list queue_event :=
  match queue_ q with
  | value :: queue => (mkConcurrentQueue queue (closed_ q) (<[i := Returned (Some value)]> (calls q)), [Removed value])
  | [] => (set_call i (if closed_ q then Returned None else Waiting) q, [])
  end.

(** A step of thread [i]; a notification goes to the waiting thread [j], if there is any. *)
Inductive queue_step (i : nat) (q : ConcurrentQueue) : ConcurrentQueue → list queue_event → Prop :=
  | push_step value : calls q !! i = Some (Push value) →
      queue_step i q (if closed_ q then set_call i (Returned None) q
        else mkConcurrentQueue (queue_ q ++ [value]) (closed_ q) (<[i := NotifyOne]> (calls q)))
        (if closed_ q then [] else [Inserted value])
  | notify_one_step j : calls q !! i = Some NotifyOne → calls q !! j = Some Waiting →
      queue_step i q (set_call i (Returned None) (set_call j Woken q)) []
  | notify_nobody_step : calls q !! i = Some NotifyOne → (∀ j, calls q !! j ≠ Some Waiting) →
      queue_step i q (set_call i (Returned None) q) []
  | pop_step : calls q !! i = Some Pop ∨ calls q !! i = Some Woken →
      queue_step i q (read_or_wait i q).1 (read_or_wait i q).2
  | spurious_step : calls q !! i = Some Waiting → queue_step i q (set_call i Woken q) []
  | try_pop_step : calls q !! i = Some TryPop →
      queue_step i q (if closed_ q then set_call i (Returned None) q
        else if decide (queue_ q = []) then set_call i (Returned None) q else (read_or_wait i q).1)
        (if closed_ q then [] else (read_or_wait i q).2)
  | close_step : calls q !! i = Some Close →
      queue_step i q (mkConcurrentQueue (queue_ q) true (<[i := NotifyAll]> (calls q))) []
  | notify_all_step : calls q !! i = Some NotifyAll →
      queue_step i q (mkConcurrentQueue (queue_ q) (closed_ q) (<[i := Returned None]> (wake <$> calls q))) [].

(** New calls come at any time. *)
Inductive queue_run : list queue_event → ConcurrentQueue → Prop :=
  | queue_start : queue_run [] (mkConcurrentQueue [] false [])
  | queue_call log q c : queue_run log q → c ∈ [Pop; TryPop; Close] ∨ (∃ value, c = Push value) →
      queue_run log (mkConcurrentQueue (queue_ q) (closed_ q) (calls q ++ [c]))
  | queue_steps log q i q' events : queue_run log q → queue_step i q q' events → queue_run (log ++ events) q'.

Definition inserted (log : list queue_event) : list T := omap (λ e, match e with Inserted v => Some v | Removed _ => None end) log.
Definition removed (log : list queue_event) : list T := omap (λ e, match e with Removed v => Some v | Inserted _ => None end) log.

(** ** Order *)
Lemma read_or_wait_order i q log :
  inserted log = removed log ++ queue_ q →
  let '(q', events) := read_or_wait i q in inserted (log ++ events) = removed (log ++ events) ++ queue_ q'.
Proof.
  unfold read_or_wait, inserted, removed. intros H. destruct (queue_ q) as [|v queue] eqn:Hq; rewrite !omap_app; cbn; rewrite ?app_nil_r, H, ?Hq.
  - by rewrite app_nil_r.
  - by rewrite <- app_assoc.
Qed.

Lemma queue_order log q : queue_run log q → inserted log = removed log ++ queue_ q.
Proof.
  induction 1 as [|log q c _ IH _|log q i q' events _ IH Hstep]; [done|done|].
  pose proof (read_or_wait_order i q log IH) as Hread. unfold inserted, removed in *.
  destruct Hstep; cbn [queue_ set_call] in *; rewrite ?omap_app, ?app_nil_r; try done.
  - destruct (closed_ q); cbn; rewrite ?app_nil_r; [done|]. by rewrite IH, app_assoc.
  - destruct (read_or_wait i q) as [q' events]. by rewrite !omap_app in Hread.
  - destruct (closed_ q); cbn; rewrite ?app_nil_r; [done|]. destruct (decide _) as [He|He].
    + unfold read_or_wait. rewrite He. cbn. by rewrite !app_nil_r, IH, He, app_nil_r.
    + destruct (read_or_wait i q) as [q' events]. by rewrite !omap_app in Hread.
Qed.

(** ** Wake-ups *)
Definition count (P : Call → bool) (l : list Call) : nat := sum_list_with (λ c, if P c then 1 else 0)%nat l.
Definition is_waiting (c : Call) : bool := match c with Waiting => true | _ => false end.
(** On its way to the queue. *)
Definition is_signal (c : Call) : bool := match c with NotifyOne | Woken => true | _ => false end.
Definition is_notify_all (c : Call) : bool := match c with NotifyAll => true | _ => false end.

Lemma count_insert P l i c c' :
  l !! i = Some c → (count P (<[i := c']> l) + (if P c then 1 else 0) = count P l + (if P c' then 1 else 0))%nat.
Proof.
  unfold count. revert i. induction l as [|x l IH]; intros [|i] Hi; [done..| |].
  - injection Hi as ->. cbn. lia.
  - specialize (IH i Hi). change (<[S i:=c']> (x :: l)) with (x :: <[i:=c']> l). cbn [sum_list_with]. lia.
Qed.

Lemma count_app P l c : count P (l ++ [c]) = (count P l + (if P c then 1 else 0))%nat.
Proof. unfold count. rewrite sum_list_with_app. cbn. lia. Qed.

Lemma count_pos P l i c : l !! i = Some c → P c = true → (0 < count P l)%nat.
Proof.
  unfold count. revert i. induction l as [|x l IH]; intros [|i] Hi Hc; [done..| |]; cbn [sum_list_with].
  - injection Hi as ->. rewrite Hc. lia.
  - specialize (IH i Hi Hc). lia.
Qed.

(** If somebody waits there are at least as many signals under way as values, and a closed
    queue still has its threads to wake. *)
Definition no_lost_signal (q : ConcurrentQueue) : Prop :=
  (0 < count is_waiting (calls q))%nat →
  (length (queue_ q) <= count is_signal (calls q))%nat ∧ (closed_ q = true → 0 < count is_notify_all (calls q))%nat.

Lemma wake_none l : count is_waiting (wake <$> l) = 0%nat.
Proof. unfold count. by induction l as [|[] l IH]. Qed.

(** Replaces a call and collects what becomes of the three counts. *)
Ltac recount :=
  repeat match goal with
  | H : calls ?q !! ?i = Some ?c |- context [<[?i := ?c']> (calls ?q)] =>
      lazymatch goal with
      | _ : context [count is_waiting (<[i := c']> (calls q))] |- _ => fail
      | _ =>
          pose proof (count_insert is_waiting (calls q) i c c' H);
          pose proof (count_insert is_signal (calls q) i c c' H);
          pose proof (count_insert is_notify_all (calls q) i c c' H)
      end
  end; cbn [is_waiting is_signal is_notify_all] in *.

Ltac settle H :=
  let H' := fresh in destruct H as [? H']; [lia|split; [cbn in *; lia|let E := fresh in intros E; specialize (H' E); lia]].

Lemma no_waiting l : (∀ j, l !! j ≠ Some Waiting) → count is_waiting l = 0%nat.
Proof.
  unfold count. induction l as [|c l IH]; intros Hl; [done|]. cbn [sum_list_with]. rewrite IH by (intros j; apply (Hl (S j))).
  specialize (Hl 0%nat). by destruct c.
Qed.

Lemma read_or_wait_signal i q c :
  calls q !! i = Some c → c = Pop ∨ c = Woken ∨ c = TryPop ∧ queue_ q ≠ [] → no_lost_signal q → no_lost_signal (read_or_wait i q).1.
Proof.
  unfold no_lost_signal, read_or_wait. intros Hi Hc H. destruct (queue_ q) as [|v queue] eqn:Hq.
  - destruct (closed_ q) eqn:Hcl; cbn [fst set_call calls queue_ closed_]; rewrite ?Hq, ?Hcl.
    + destruct Hc as [-> |[-> |[_ []]]]; [..|done]; recount; intros Hw; settle H.
    + intros _. split; [cbn; lia|done].
  - cbn [fst calls queue_ closed_]. destruct Hc as [-> |[-> |[-> _]]]; recount; intros Hw; settle H.
Qed.

Lemma wake_one q i j :
  calls q !! i = Some NotifyOne → calls q !! j = Some Waiting → no_lost_signal q →
  no_lost_signal (set_call i (Returned None) (set_call j Woken q)).
Proof.
  unfold no_lost_signal. intros Hi Hj H. cbn [set_call queue_ closed_ calls].
  assert (<[j:=Woken]> (calls q) !! i = Some NotifyOne) as Hi' by (rewrite list_lookup_insert_ne; [done|intros ->; congruence]).
  recount. pose proof (count_insert is_waiting _ _ _ (Returned None) Hi'). pose proof (count_insert is_signal _ _ _ (Returned None) Hi').
  pose proof (count_insert is_notify_all _ _ _ (Returned None) Hi'). cbn [is_waiting is_signal is_notify_all] in *. intros Hw. settle H.
Qed.

Lemma queue_no_lost_signal log q : queue_run log q → no_lost_signal q.
Proof.
  induction 1 as [|log q c _ IH Hc|log q i q' events _ IH Hstep].
  - unfold no_lost_signal, count. cbn. lia.
  - unfold no_lost_signal in *. cbn [queue_ closed_ calls]. rewrite !count_app.
    assert (is_waiting c = false ∧ is_signal c = false ∧ is_notify_all c = false) as (-> & -> & ->); [|by rewrite !Nat.add_0_r].
    destruct Hc as [Hc|[v ->]]; [|done]. revert c Hc. by apply Forall_forall; repeat constructor.
  - destruct Hstep as [v Hi|j Hi Hj|Hi Hj|[Hi|Hi]|Hi|Hi|Hi|Hi].
    + unfold no_lost_signal in *. destruct (closed_ q) eqn:Hcl; cbn [set_call queue_ closed_ calls]; rewrite ?length_app, ?Hcl; recount; intros Hw; settle IH.
    + by apply wake_one.
    + pose proof (no_waiting _ Hj). unfold no_lost_signal in *. cbn [set_call queue_ closed_ calls]. recount. lia.
    + by eapply read_or_wait_signal; [exact Hi|left|].
    + by eapply read_or_wait_signal; [exact Hi|right; left|].
    + unfold no_lost_signal in *. cbn [set_call queue_ closed_ calls]. recount. intros Hw. settle IH.
    + destruct (closed_ q) eqn:Hcl; [|destruct (decide (queue_ q = []))];
        [..|by eapply read_or_wait_signal; [exact Hi|right; right|]];
        unfold no_lost_signal in *; cbn [set_call queue_ closed_ calls]; rewrite ?Hcl in *; recount; intros Hw; settle IH.
    + unfold no_lost_signal in *. cbn [queue_ closed_ calls]. recount. intros Hw. destruct IH; [lia|]. split; [lia|]. intros _. lia.
    + assert ((wake <$> calls q) !! i = Some NotifyAll) as Hi' by (by rewrite list_lookup_fmap, Hi).
      pose proof (count_insert is_waiting _ _ _ (Returned None) Hi') as Hcount. rewrite wake_none in Hcount.
      unfold no_lost_signal. cbn [queue_ closed_ calls is_waiting] in *. lia.
Qed.

(** C39: The queue is first in, first out, and nobody sleeps for nothing: under every
    interleaving of any calls, spurious wake-ups included, the values that were taken out are
    the beginning of those that were accepted and the queue holds the rest; and when no thread
    can do anything but wait, a thread that waits in [Pop] does so on an empty queue that is
    not closed. *)
Theorem ConcurrentQueue_correct log q :
  queue_run log q →
  inserted log = removed log ++ queue_ q ∧
  ((∀ i c, calls q !! i = Some c → c = Waiting ∨ ∃ r, c = Returned r) →
    ∀ i, calls q !! i = Some Waiting → queue_ q = [] ∧ closed_ q = false).
Proof.
  intros Hrun. split; [by eapply queue_order|]. intros Hidle i Hi.
  destruct (queue_no_lost_signal log q Hrun) as [Hlen Hclosed]; [by eapply count_pos|].
  assert (count is_signal (calls q) = 0%nat ∧ count is_notify_all (calls q) = 0%nat) as [Hs Ha].
  { unfold count. clear -Hidle. revert Hidle. induction (calls q) as [|c l IH]; intros Hidle; [done|]. cbn [sum_list_with].
    destruct IH as [-> ->]; [intros i; apply (Hidle (S i))|]. by destruct (Hidle 0%nat c eq_refl) as [-> |[r ->]]. }
  rewrite Hs in Hlen. destruct (queue_ q); [|cbn in Hlen; lia]. split; [done|]. destruct (closed_ q); [specialize (Hclosed eq_refl); lia|done].
Qed.
End ConcurrentQueue.

(** A reader waits, a value is pushed, the reader is notified and takes it. *)
Lemma ConcurrentQueue_correct_witness :
  ∃ log q, queue_run log q ∧ inserted log = removed log ++ queue_ q ∧ removed log = [7%nat] ∧ (0 < length (calls q))%nat.
Proof.
  assert (∃ q : ConcurrentQueue, queue_run [Inserted 7%nat; Removed 7%nat] q ∧ calls q = [Returned (Some 7%nat); Returned None]) as (q & Hrun & Hcalls).
  { eexists. split.
    - change [Inserted 7%nat; Removed 7%nat] with ((([Inserted 7%nat] ++ []) ++ [Removed 7%nat])).
      apply (queue_steps _ (mkConcurrentQueue [7%nat] false [Woken; Returned None]) 0); [|apply (pop_step 0 (mkConcurrentQueue [7%nat] false [Woken; Returned None])); right; reflexivity].
      apply (queue_steps _ (mkConcurrentQueue [7%nat] false [Waiting; NotifyOne]) 1); [|apply (notify_one_step 1 (mkConcurrentQueue [7%nat] false [Waiting; NotifyOne]) 0); reflexivity].
      apply (queue_steps [] (mkConcurrentQueue [] false [Waiting; Push 7%nat]) 1 _ [Inserted 7%nat]); [|apply (push_step 1 (mkConcurrentQueue [] false [Waiting; Push 7%nat]) 7%nat); reflexivity].
      apply (queue_call [] (mkConcurrentQueue [] false [Waiting])); [|by right; exists 7%nat].
      apply (queue_steps [] (mkConcurrentQueue [] false [Pop]) 0 _ []); [|apply (pop_step 0 (mkConcurrentQueue [] false [Pop])); left; reflexivity].
      apply (queue_call [] (mkConcurrentQueue [] false [])); [constructor|]. left. by left.
    - reflexivity. }
  exists [Inserted 7%nat; Removed 7%nat], q. split; [exact Hrun|]. split; [exact (proj1 (ConcurrentQueue_correct _ q Hrun))|].
  split; [reflexivity|]. rewrite Hcalls. cbn. lia.
Defined.
